(* ===== verification/_CoqProject ===== *)
-Q . S2P
Prelude.v
Bytes.v
Memmap.v
Sanitise.v
Pmm.v
PmmFacts.v
PmmSpec.v
MemInfo.v
Blake2b.v
Blake2bSpec.v
Tinf.v
TinfTree.v
TinfBuild.v
TinfBlock.v
TinfHeader.v
TinfSpec.v
Gzip.v
InflateSpec.v
Volume.v
VolumeSpec.v
VolumeLogic.v
Libc.v
LibcSpec.v
Guid.v
Time.v
Fat32.v
Fat32Spec.v
Fat32Thms.v
Iso9660.v
Iso9660Spec.v
File.v
Part.v
PartSpec.v
Vmm.v
VmmWalk.v
VmmSpec.v
VmmArch.v
VmmThms.v
VmmBoot.v
Elsewhere.v
Elf.v
ElfReloc.v
ElfLoad.v
ElfSpec.v
ElfElsewhere.v
ElfSafe.v
Config.v
ConfigText.v
ConfigMacro.v
ConfigSpec.v
ConfigSafe.v
ConfigSmbios.v
Uri.v
UriSpec.v
Host.v
HostDevice.v
HostUndo.v
HostOrder.v
HostEffect.v
Cc.v
CcArith.v
CcHalf.v
CcDiv.v
CcCount.v
Pe.v
PeSpec.v
PeSafe.v
TermTables.v
Term.v
TermRefine.v
TermSafe.v
Fb.v
FbScreen.v
FbQueue.v
TermParams.v
FbRefine.v
FbPlot.v
FbPixels.v
FbInit.v
FbTerminal.v
