(* ===== verification/Prelude.v ===== *)
(** * A verification of the Limine boot loader shipped with ospab.os

    The repository holds a kernel, AETERNA, written in Rust, and the boot loader
    that starts it: Limine 10.8.2, written in C, under src/limine-10.8.2/.  This
    development models the loader's C code below the boot protocols and proves it
    correct.  Paths below are relative to src/limine-10.8.2/ or to its directory
    common/.

    ** The parts and how they interact

    A disk is read sector by sector; lib/part.s2.c puts a block cache on top of that
    and finds the partitions of the disk; the FAT and ISO 9660 drivers of fs/ read
    files from a partition; decompressor/tinf unpacks the second stage of the loader
    and crypt/blake2b.c checks files against their hashes.  Memory comes from the
    allocator of mm/pmm.s2.c, which works on the memory map of the firmware, and
    mm/vmm.c builds the page tables of the kernel in it.  lib/config.c reads the
    configuration, whose entries name files by locators that lib/uri.c opens, and
    lib/elf.c, lib/pe.c and lib/elsewhere.c load the executable that an entry names.
    What the loader prints goes through the terminal of flanterm/, a parser of
    escape sequences over a backend that draws characters in a framebuffer.  The
    routines of cc-runtime.s2.c stand in for the division and the wide arithmetic a
    compiler expects.  The program of host/limine.c runs before all of that, on
    another system: it installs the first stages on a disk and enrolls the hash of
    the configuration in the executable of the loader.

    ** How C is modelled

    Integers are [Z], with the wrap-around of each width written out ([u8] ...
    [u64], [s64], and [add_overflow], [mul_overflow] for the compiler builtins).
    A call ends as an [outcome]: it returns, panics with a message, performs an
    access outside of the object it works on ([Undef]), or exhausts the step
    budget of a loop ([Diverge]).  Loops that are not structural take a budget;
    every entry point passes one that is enough, and the theorems about it exclude
    [Diverge] (the budget is always a bound on the iterations of the C loop: the
    number of entries, bytes, bits, blocks or pages left).  Two loops need not end,
    over the dynamic entries of an ELF file and over the relocation table of a PE
    image that changes it; the theorems say for which files they do.  State is threaded:
    the memory map with the contents of memory ([Pmm.pmm]), the volume with its
    cache ([Volume.volume]), the tables with their allocator ([Vmm.vmm]), the device
    of the installer with its cache and the data to undo its writes ([Host.host]),
    the context of the terminal with its backend ([Term.term], [Fb.fb]).

    Code outside of these files is an argument: the disk driver is the class
    [Volume.Disk] with its contract [VolumeSpec.DiskSpec] (a RAM disk is an
    instance), the source of pages for tables is the class [Vmm.PageAllocator] with
    its contract [VmmSpec.PageAllocatorSpec] (the allocator of Pmm.v is an instance,
    in VmmBoot.v), the blocks that the host cannot read or write are the class
    [Host.HostFile], opening a file over the network is an argument of [File.fopen].
    Inside the terminal the parser is verified against the class [Term.Backend], and
    the drawing of the backend against [Fb.Plotter] with its contract
    [FbRefine.PlotterLaws], which the pixel routines are shown to meet.  Assembly,
    firmware calls and device registers are arguments too, or are not modelled.

    ** Files

    - Prelude.v, Bytes.v: outcomes, integer widths, arrays, little-endian bytes.
    - Memmap.v, Pmm.v, MemInfo.v: mm/pmm.s2.c and mm/pmm.c.  The array of map
      entries is a list.  Sanitise.v and PmmFacts.v hold the lemmas, PmmSpec.v and
      MemInfo.v the theorems: sanitising keeps exactly the coverage of the map and
      makes usable entries disjoint from all others; blocks that are allocated at
      the same time are disjoint, cleared, aligned, and were usable memory; freeing
      undoes allocating; the sizes reported to Multiboot kernels are exact.
    - Vmm.v: mm/vmm.c and mm/vmm.h for x86, aarch64, RISC-V and LoongArch, over a
      record of the macros of an architecture.  VmmWalk.v defines the walk of a
      processor through the tables, VmmSpec.v what well-formed tables are and what
      one descent does to them, VmmArch.v what [map_pages] does and that
      the macros agree with the entry formats, VmmThms.v and VmmBoot.v the
      theorems: a new pagemap resolves the address bits of its mode and translates
      nothing, and mapping a page or a range changes the translation of exactly that
      range, whatever has to be split.  What is split has to be a page the loader can
      split ([can_split]): not one of the framebuffer type on x86, and on LoongArch
      one at a multiple of 16 MiB.
      The budget of the recursion is 3: a call that splits a page makes calls that
      do not split, and a 1 GiB page may be made of calls for 2 MiB pages.
    - Volume.v: the block cache of lib/part.s2.c.  VolumeSpec.v shows that it is
      transparent.  The budget of a read is the number of blocks it spans and three
      more, for an end that wraps around.  VolumeLogic.v has the two program logics in which
      the drivers are verified, on volumes that can be read and on volumes of
      arbitrary geometry.
    - Fat32.v: fs/fat32.s2.c.  Fat32Spec.v, Fat32Thms.v: opening is
      safe on any medium, cluster chains are those of the table, reads return the
      bytes of the file, long names are found.
    - Iso9660.v: fs/iso9660.s2.c.  Iso9660Spec.v: the scan of a directory stays in
      its buffer on any bytes and finds the first match; reads return the bytes of
      the extents.
    - Part.v, File.v: the partition tables of lib/part.s2.c, and fs/file.s2.c.
      PartSpec.v: looking up a partition is safe on any disk, of known size or not; GPT and
      logical partitions have exactly the geometry their tables give.
    - Tinf.v, Gzip.v: decompressor/tinf.  The Tinf* files hold the lemmas,
      InflateSpec.v the theorems: inflating inverts deflating, for stored, fixed and
      dynamic blocks; on arbitrary input the decoder stays in its tables.
    - Blake2b.v, Blake2bSpec.v: crypt/blake2b.c computes the hash of RFC 7693, in
      any division of the input.
    - Elf.v: the 64-bit and 32-bit loading of lib/elf.c.  ElfReloc.v and
      ElfLoad.v hold the lemmas, ElfSpec.v the theorems: every segment of a file
      that can be loaded is, relocated, at its place in a fresh block.  Elsewhere.v
      (lib/elsewhere.c) and ElfElsewhere.v are about images that are put aside and
      copied to their targets by a stub.  ElfSafe.v: a load that returns, of any file,
      has written no memory in use, and a file whose dynamic tables lie in the file is
      loaded or refused.  PmmSpec.v says what allocating leaves alone.
    - Config.v: lib/config.c.  ConfigText.v: values and tuples are found among the
      lines of the text; ConfigMacro.v: expansion of macros; ConfigSpec.v: a menu
      that is written as text is read back, reading a whole file, and
      that a file is refused when a different hash is enrolled; ConfigSafe.v: any
      file is read within the bounds of its text; ConfigSmbios.v: the configuration
      in the tables of the firmware.
    - Uri.v, UriSpec.v: lib/uri.c and the reading of whole files.  A locator with a
      hash opens only a file with that hash, unless the user lets another one pass.
    - Host.v: host/limine.c.  HostDevice.v: the cache of the device is transparent,
      and a hash is enrolled where it belongs; HostUndo.v: an installation that
      fails changes nothing, on a device without bad blocks, and the data that is
      stored undoes one that succeeded;
      HostOrder.v: byte order and CHS addresses; HostEffect.v: what an installation
      changes, byte by byte.
    - Cc.v: cc-runtime.s2.c, the routines a compiler calls, over the width of a machine
      word.  CcArith.v, CcHalf.v: arithmetic by halves and with checks; CcDiv.v:
      division by shifts, by digits and by halves yields quotient and remainder;
      CcCount.v: counting bits.  The estimate of a digit of a quotient is corrected
      at most twice.
    - Pe.v, PeSpec.v: lib/pe.c.  An image is loaded as its headers plan it, with its
      relocations.  PeSafe.v: what any file can do to the loader; only an image that
      relocates its relocation table reaches behind its block, by at most 4102 bytes.
      The budget of the relocation loop is an argument: one more than the headers the
      table has room for is enough while the table does not change.
    - TermTables.v, Term.v: flanterm.c, its tables and its parser, over any backend.
      TermRefine.v defines what it is for one backend to refine another and the rules
      for it, TermSafe.v shows that the parser keeps two such
      backends in step on any bytes.  TermParams.v: a code point written in UTF-8 is
      shown with its glyph; the parameters of control sequences, and the position of
      the cursor.  The loop over the parameters of a graphic rendition has a budget
      of 17 turns for at most 16 parameters; searching a table has one of its length.
    - Fb.v: the framebuffer backend, fb.c: a grid, a queue of changes and a map from
      cells to the queue.  FbScreen.v is the plain screen it implements; FbQueue.v
      is about the queue, FbRefine.v about what is drawn and the refinement.
      FbPlot.v, FbPixels.v: the routines that draw a glyph, rotated and scaled,
      touch its pixels only.  FbInit.v: the start and the end of a terminal.
      FbTerminal.v: the terminal as a whole shows what is written to it.
    - Libc.v, LibcSpec.v, Guid.v, Time.v: lib/libc.s2.c, lib/misc.s2.c, parts of
      lib/misc.c, lib/guid.c, and the calendar of lib/time.c.

    ** Inputs on which the code misbehaves

    [InflateSpec.stored_block_overrun], [VolumeSpec.volume_read_stale_tail],
    [Iso9660Spec.multi_extent_overread], [VmmThms.x86_fb_split_panics],
    [VmmThms.loongarch_split_wrong], [VmmBoot.aarch64_higher_half_outside],
    [ElfSpec.mixed_halves_overwrite], [ElfSpec.rela_part_overrun],
    [ElfSpec.relr_overread], [ElfReloc.dyn_scan_diverges],
    [ElfElsewhere.elsewhere_overwrite], [Elsewhere.append_source_overwritten],
    [ConfigMacro.macro_behind_empty_line], [ConfigSpec.bare_slash],
    [ConfigSpec.global_behind_entry], [ConfigSmbios.smbios_empty_config],
    [HostUndo.partial_write_stays], [HostUndo.spoiled_cache_written],
    [HostOrder.disk_u32_big], [HostEffect.iso_descriptor_erased],
    [HostDevice.signature_at_the_end], [PeSpec.pe64_reloc_escapes],
    [PeSpec.zero_alignment], and in FbTerminal.v [refresh_loses_character],
    [cancelled_stays_private], [escape_ends_private], [osc_prints_utf8],
    [parameter_wraps] and [wide_colour_spreads] are about inputs for which the code
    does not do what it means to; a correctness theorem that would not hold for them
    has the hypotheses that exclude them.

    ** What is not modelled

    The menu, which draws and waits for keys, and the choice of a terminal; the
    allocator of flanterm for a client without one, which the loader leaves out of
    its build, and the callback of a flush; the boot protocols, which fill the
    structures of a kernel and jump to it; the tables of the firmware; drivers,
    firmware calls, assembly and the start of other processors; vendored libraries
    (libfdt, stb_image); the command lines and the messages of the host program, the
    buffering of its streams and errors when they are closed; the Rust kernel. *)

From stdpp Require Export base tactics list numbers strings sorting sets.
#[global] Open Scope Z_scope.
#[global] Set Default Goal Selector "!".

(** ** Outcomes of C code *)

(** [Ret]: the function returns.  [Panic]: it calls [panic], which does not
    return.  [Undef]: it performs an access outside the object it works on.
    [Diverge]: the step budget of a loop ran out; the components prove when this
    does not happen with the budget their entry points use. *)
Inductive outcome (A : Type) : Type :=
| Ret (a : A)
| Panic (msg : string)
| Undef
| Diverge.

Arguments Ret {A} a.
Arguments Panic {A} msg.
Arguments Undef {A}.
Arguments Diverge {A}.

#[export] Instance outcome_ret : MRet outcome := @Ret.

#[export] Instance outcome_bind : MBind outcome := fun A B f m =>
  match m with
  | Ret a => f a
  | Panic msg => Panic msg
  | Undef => Undef
  | Diverge => Diverge
  end.

(** An array access [a[i]] of C: [Undef] outside the bounds. *)
Definition get {A} (l : list A) (i : nat) : outcome A :=
  match l !! i with Some x => Ret x | None => Undef end.

(** An array store [a[i] = x] of C: [Undef] outside the bounds. *)
Definition put {A} (l : list A) (i : nat) (x : A) : outcome (list A) :=
  if decide (i < length l)%nat then Ret (<[i:=x]> l) else Undef.

Lemma bind_Ret_inv {A B} (f : A -> outcome B) m b :
  (m ≫= f) = Ret b -> exists a, m = Ret a /\ f a = Ret b.
Proof. destruct m; naive_solver. Qed.

Lemma Ret_inj {A} (a b : A) : Ret a = Ret b -> a = b.
Proof. by intros [= ->]. Qed.

Lemma get_Ret_inv {A} (l : list A) i x : get l i = Ret x <-> l !! i = Some x.
Proof. unfold get. destruct (l !! i); naive_solver. Qed.

Lemma get_lookup {A} (l : list A) i x : l !! i = Some x -> get l i = Ret x.
Proof. apply get_Ret_inv. Qed.

Lemma put_lt {A} (l : list A) i x : (i < length l)%nat -> put l i x = Ret (<[i:=x]> l).
Proof. intros H. unfold put. by rewrite decide_True. Qed.

Lemma put_Ret_inv {A} (l l' : list A) i x :
  put l i x = Ret l' -> (i < length l)%nat /\ l' = <[i:=x]> l.
Proof. unfold put. case_decide; naive_solver. Qed.

(** [total E o]: the computation ends within its objects and its step budget,
    with a result or with a panic whose message satisfies [E]. *)
Definition total {A} (E : string -> Prop) (o : outcome A) : Prop :=
  match o with
  | Ret _ => True
  | Panic msg => E msg
  | Undef | Diverge => False
  end.

Lemma total_bind {A B} E (m : outcome A) (f : A -> outcome B) :
  total E m -> (forall a, m = Ret a -> total E (f a)) -> total E (m ≫= f).
Proof. destruct m; simpl; auto. Qed.

Lemma total_get {A} E (l : list A) i : (i < length l)%nat -> total E (get l i).
Proof. intros [x Hx]%lookup_lt_is_Some. by rewrite (get_lookup _ _ _ Hx). Qed.

Lemma total_put {A} E (l : list A) i x : (i < length l)%nat -> total E (put l i x).
Proof. intros H. by rewrite put_lt. Qed.

Lemma total_Ret {A} (o : outcome A) : total (fun _ => False) o -> exists a, o = Ret a.
Proof. destruct o; simpl; naive_solver. Qed.

(** Does a concrete computation return?  Decided by evaluation. *)
Definition returns {A} (o : outcome A) : bool := match o with Ret _ => true | _ => false end.

Lemma returns_Ret {A} (o : outcome A) : returns o = true -> exists a, o = Ret a.
Proof. destruct o; naive_solver. Qed.

Lemma total_weaken {A} (E F : string -> Prop) (o : outcome A) :
  (forall s, E s -> F s) -> total E o -> total F o.
Proof. destruct o; simpl; auto. Qed.

(** A result that satisfies [P], or a panic. *)
Definition lands {A} (P : A -> Prop) (o : outcome A) : Prop :=
  match o with Ret x => P x | Panic _ => True | Undef | Diverge => False end.

Lemma lands_bind {A B} (P : A -> Prop) (Q : B -> Prop) (m : outcome A) (f : A -> outcome B) :
  lands P m -> (forall x, m = Ret x -> P x -> lands Q (f x)) -> lands Q (m ≫= f).
Proof. destruct m; cbn; auto. Qed.

Lemma lands_total {A} E (o : outcome A) : total E o -> lands (fun _ => True) o.
Proof. by destruct o. Qed.

(** ** Machine integers: values are [Z], the wrap-around is written out *)

Abbreviation W8 := 256%Z (only parsing).
Abbreviation W16 := 65536%Z (only parsing).
Abbreviation W32 := 4294967296%Z (only parsing).
Abbreviation W63 := 9223372036854775808%Z (only parsing).
Abbreviation W64 := 18446744073709551616%Z (only parsing).

Definition u8 (x : Z) : Z := x `mod` W8.
Definition u16 (x : Z) : Z := x `mod` W16.
Definition u32 (x : Z) : Z := x `mod` W32.
Definition u64 (x : Z) : Z := x `mod` W64.

(** Conversion to [int64_t]: two's complement. *)
Definition s64 (x : Z) : Z := (x + W63) `mod` W64 - W63.

(** [__builtin_add_overflow] and [__builtin_mul_overflow] on [uint64_t]:
    [None] when the result does not fit. *)
Definition add_overflow (a b : Z) : option Z :=
  if a + b <? W64 then Some (a + b) else None.
Definition mul_overflow (a b : Z) : option Z :=
  if a * b <? W64 then Some (a * b) else None.

Lemma u64_small x : 0 <= x < W64 -> u64 x = x.
Proof. apply Z.mod_small. Qed.

Lemma u64_range x : 0 <= u64 x < W64.
Proof. by apply Z.mod_pos_bound. Qed.

Lemma u32_small x : 0 <= x < W32 -> u32 x = x.
Proof. apply Z.mod_small. Qed.

Lemma u32_range x : 0 <= u32 x < W32.
Proof. by apply Z.mod_pos_bound. Qed.

Lemma s64_small x : - W63 <= x < W63 -> s64 x = x.
Proof. intros H. unfold s64. rewrite Z.mod_small; lia. Qed.

Lemma add_overflow_Some a b c : add_overflow a b = Some c -> c = a + b /\ a + b < W64.
Proof. unfold add_overflow. destruct (Z.ltb_spec (a + b) W64); naive_solver. Qed.

Lemma add_overflow_lt a b : a + b < W64 -> add_overflow a b = Some (a + b).
Proof. intros H. unfold add_overflow. by rewrite (proj2 (Z.ltb_lt _ _)). Qed.

(** ** Alignment macros of lib/misc.h, at type [uint64_t] *)

(** [DIV_ROUNDUP(a, b)] *)
Definition DIV_ROUNDUP (a b : Z) : Z := u64 (a + (b - 1)) / b.
(** [ALIGN_UP(x, a)] *)
Definition ALIGN_UP (x a : Z) : Z := u64 (DIV_ROUNDUP x a * a).
(** [ALIGN_DOWN(x, a)] *)
Definition ALIGN_DOWN (x a : Z) : Z := u64 (x / a * a).

Lemma ALIGN_UP_spec x a : 0 < a -> 0 <= x -> x + (a - 1) < W64 ->
  exists k, ALIGN_UP x a = k * a /\ x <= ALIGN_UP x a < x + a.
Proof.
  intros Ha Hx Hw. unfold ALIGN_UP, DIV_ROUNDUP. rewrite (u64_small (x + _)) by lia.
  exists ((x + (a - 1)) / a).
  pose proof (Z.div_mod (x + (a - 1)) a ltac:(lia)).
  pose proof (Z.mod_pos_bound (x + (a - 1)) a Ha).
  rewrite u64_small by nia. nia.
Qed.

Lemma ALIGN_DOWN_spec x a : 0 < a -> 0 <= x < W64 ->
  exists k, ALIGN_DOWN x a = k * a /\ x - a < ALIGN_DOWN x a <= x /\ 0 <= ALIGN_DOWN x a.
Proof.
  intros Ha Hx. unfold ALIGN_DOWN. exists (x / a).
  pose proof (Z.div_mod x a ltac:(lia)).
  pose proof (Z.mod_pos_bound x a Ha).
  pose proof (Z.div_pos x a). rewrite u64_small by nia. nia.
Qed.

(** ** Tactics *)

(** Case split on the boolean comparison that drives the goal or a hypothesis. *)
Ltac split_leb x y :=
  let E := fresh "E" in
  destruct (x <=? y) eqn:E in *; [apply Z.leb_le in E | apply Z.leb_gt in E].
Ltac split_ltb x y :=
  let E := fresh "E" in
  destruct (x <? y) eqn:E in *; [apply Z.ltb_lt in E | apply Z.ltb_ge in E].
Ltac split_eqb x y :=
  let E := fresh "E" in
  destruct (x =? y) eqn:E in *; [apply Z.eqb_eq in E | apply Z.eqb_neq in E].
Ltac case_b :=
  match goal with
  | |- context [?x <=? ?y] => split_leb x y
  | |- context [?x <? ?y] => split_ltb x y
  | |- context [?x =? ?y] => split_eqb x y
  | H : context [?x <=? ?y] |- _ => split_leb x y
  | H : context [?x <? ?y] |- _ => split_ltb x y
  | H : context [?x =? ?y] |- _ => split_eqb x y
  end.

(** Decompose an equation [c = Ret b] along the binds of [c]. *)
Ltac inv_ret :=
  repeat match goal with
  | H : (_ ≫= _) = Ret _ |- _ =>
      let x := fresh "x" in let E := fresh "E" in
      apply bind_Ret_inv in H; destruct H as (x & E & H)
  | H : get _ _ = Ret _ |- _ => apply get_Ret_inv in H
  | H : put _ _ _ = Ret _ |- _ => apply put_Ret_inv in H; destruct H as [? ->]
  | H : Ret _ = Ret _ |- _ => injection H as H; subst
  | H : mret _ = Ret _ |- _ => injection H as H; subst
  | H : Panic _ = Ret _ |- _ => discriminate H
  | H : Undef = Ret _ |- _ => discriminate H
  | H : Diverge = Ret _ |- _ => discriminate H
  end.

(** ** Lists *)

Section lists.
Context {A : Type}.
Implicit Types (l pre post : list A) (x y : A).

Lemma lookup_at pre x post : (pre ++ x :: post) !! length pre = Some x.
Proof. by apply list_lookup_middle. Qed.

Lemma insert_at pre x y post : <[length pre := y]> (pre ++ x :: post) = pre ++ y :: post.
Proof. rewrite <- (Nat.add_0_r (length pre)). by rewrite insert_app_r. Qed.

Lemma delete_at pre x post : delete (length pre) (pre ++ x :: post) = pre ++ post.
Proof.
  rewrite delete_take_drop, take_app_length, drop_app_ge by lia.
  by replace (S (length pre) - length pre)%nat with 1%nat by lia.
Qed.

Lemma lookup_other pre x post k y :
  k <> length pre -> (pre ++ x :: post) !! k = Some y -> y ∈ pre ++ post.
Proof.
  intros Hk Hy. rewrite <- (delete_at pre x). apply list_elem_of_lookup.
  destruct (decide (k < length pre)%nat).
  - exists k. by rewrite list_lookup_delete_lt.
  - exists (k - 1)%nat. rewrite list_lookup_delete_ge by lia.
    by replace (S (k - 1)) with k by lia.
Qed.

Lemma snoc_at pre x post : pre ++ x :: post = (pre ++ [x]) ++ post.
Proof. by rewrite <- app_assoc. Qed.

Lemma S_length pre x : S (length pre) = length (pre ++ [x]).
Proof. rewrite length_app. simpl. lia. Qed.

(** A symmetric relation that holds between any two entries of a list. *)
Definition pairwise (R : A -> A -> Prop) l : Prop := StronglySorted R l.

Lemma pairwise_cons R x l : pairwise R (x :: l) <-> Forall (R x) l /\ pairwise R l.
Proof.
  split.
  - intros H. by inversion H.
  - intros [H1 H2]. by constructor.
Qed.

Lemma pairwise_app R l1 l2 :
  pairwise R (l1 ++ l2) <->
  (forall x y, x ∈ l1 -> y ∈ l2 -> R x y) /\ pairwise R l1 /\ pairwise R l2.
Proof. apply StronglySorted_app. Qed.

Lemma pairwise_perm R l1 l2 :
  (forall x y, R x y -> R y x) -> l1 ≡ₚ l2 -> pairwise R l1 -> pairwise R l2.
Proof.
  intros Hsym Hp. induction Hp as [|x l1 l2 Hp IH|x y l|l1 l2 l3 _ IH1 _ IH2]; auto.
  - rewrite !pairwise_cons. intros [H1 H2]. split; [by rewrite <- Hp|auto].
  - rewrite !pairwise_cons, !Forall_cons. naive_solver.
Qed.

Lemma pairwise_elem R l x y :
  (forall x y, R x y -> R y x) -> pairwise R l -> x ∈ l -> y ∈ l -> x <> y -> R x y.
Proof.
  intros Hsym Hp. induction Hp as [|z l _ IH Hz]; [by intros ?%elem_of_nil|].
  rewrite Forall_forall in Hz.
  intros [->|Hx]%elem_of_cons [->|Hy]%elem_of_cons Hne; auto. done.
Qed.

Lemma pairwise_impl (R S : A -> A -> Prop) l :
  (forall x y, R x y -> S x y) -> pairwise R l -> pairwise S l.
Proof.
  intros HRS. induction 1 as [|x l _ IH H]; constructor; auto.
  eapply Forall_impl; eauto.
Qed.
End lists.
