(* ===== verification/Bytes.v ===== *)
(** * Byte arrays

    Bytes are [Z] between 0 and 255, byte arrays are lists of them.  Holds the
    little-endian layout of integers in memory (what a [memcpy] between an
    integer and a byte array does on the machines Limine runs on), its round
    trips, and the bitwise facts the components share. *)

From S2P Require Import Prelude.

Definition is_byte (b : Z) : Prop := 0 <= b < W8.

(** The integer stored at the start of [bs], little-endian. *)
Fixpoint le_load (bs : list Z) : Z :=
  match bs with
  | [] => 0
  | b :: bs => b + W8 * le_load bs
  end.

(** The [n] low bytes of [v], little-endian. *)
Fixpoint le_store (n : nat) (v : Z) : list Z :=
  match n with
  | O => []
  | S n => v `mod` W8 :: le_store n (v / W8)
  end.

(** [p[off .. off + n)] of a byte array. *)
Definition slice (off n : nat) (bs : list Z) : list Z := take n (drop off bs).

(** The integer field of [n] bytes at [off] of a structure. *)
Definition field (off n : nat) (bs : list Z) : Z := le_load (slice off n bs).

(** [memcpy(dst + off, src, length src)]: [Undef] outside [dst]. *)
Definition blit (dst : list Z) (off : nat) (src : list Z) : outcome (list Z) :=
  if decide (off + length src <= length dst)%nat
  then Ret (take off dst ++ src ++ drop (off + length src) dst)
  else Undef.

Lemma blit_fit dst off src : (off + length src <= length dst)%nat ->
  blit dst off src = Ret (take off dst ++ src ++ drop (off + length src) dst).
Proof. intros H. unfold blit. by rewrite decide_True. Qed.

Lemma length_le_store n v : length (le_store n v) = n.
Proof. revert v. induction n; simpl; auto. Qed.

Lemma le_store_bytes n v : Forall is_byte (le_store n v).
Proof.
  revert v. induction n as [|n IH]; simpl; intros v; constructor; auto.
  unfold is_byte. pose proof (Z.mod_pos_bound v W8). lia.
Qed.

Lemma le_load_range bs : Forall is_byte bs -> 0 <= le_load bs < W8 ^ Z.of_nat (length bs).
Proof.
  induction 1 as [|b bs Hb _ IH]; [done|]. cbn [le_load length].
  rewrite Nat2Z.inj_succ, Z.pow_succ_r by lia. unfold is_byte in Hb. nia.
Qed.

Lemma le_load_store n v : le_load (le_store n v) = v `mod` W8 ^ Z.of_nat n.
Proof.
  revert v. induction n as [|n IH]; intros v; [by rewrite Z.mod_1_r|].
  cbn [le_load le_store]. rewrite IH, Nat2Z.inj_succ, Z.pow_succ_r by lia.
  rewrite Z.rem_mul_r; lia.
Qed.

Lemma le_store_load bs : Forall is_byte bs -> le_store (length bs) (le_load bs) = bs.
Proof.
  induction 1 as [|b bs Hb _ IH]; [done|]. cbn [le_load le_store length].
  unfold is_byte in Hb. replace (b + W8 * le_load bs) with (b + le_load bs * W8) by lia.
  rewrite Z.mod_add, Z.div_add, (Z.mod_small b), (Z.div_small b) by lia.
  by rewrite Z.add_0_l, IH.
Qed.

Lemma length_slice off n bs : (off + n <= length bs)%nat -> length (slice off n bs) = n.
Proof. unfold slice. rewrite length_take, length_drop. lia. Qed.

Lemma slice_bytes off n bs : Forall is_byte bs -> Forall is_byte (slice off n bs).
Proof. intros H. by apply Forall_take, Forall_drop. Qed.

(** ** Bitwise operations stay within their width *)

Section width.
Context (w : Z) (Hw : 0 <= w).

Lemma testbit_high x : 0 <= x < 2 ^ w -> forall i, w <= i -> Z.testbit x i = false.
Proof.
  intros Hx i Hi. destruct (decide (x = 0)) as [->|]; [apply Z.bits_0|].
  apply Z.bits_above_log2; [lia|].
  pose proof (Z.log2_lt_pow2 x w ltac:(lia)). lia.
Qed.

Lemma width_testbit x : 0 <= x -> (forall i, w <= i -> Z.testbit x i = false) -> x < 2 ^ w.
Proof.
  intros Hx Hi. destruct (decide (x = 0)) as [->|]; [lia|].
  apply Z.log2_lt_pow2; [lia|]. destruct (decide (Z.log2 x < w)); [done|].
  pose proof (Hi (Z.log2 x) ltac:(lia)) as H. rewrite Z.bit_log2 in H by lia. done.
Qed.

Lemma lxor_width x y : 0 <= x < 2 ^ w -> 0 <= y < 2 ^ w -> 0 <= Z.lxor x y < 2 ^ w.
Proof.
  intros Hx Hy. split; [apply Z.lxor_nonneg; lia|].
  apply width_testbit; [apply Z.lxor_nonneg; lia|]. intros i Hi.
  by rewrite Z.lxor_spec, !testbit_high.
Qed.

Lemma lor_width x y : 0 <= x < 2 ^ w -> 0 <= y < 2 ^ w -> 0 <= Z.lor x y < 2 ^ w.
Proof.
  intros Hx Hy. split; [apply Z.lor_nonneg; lia|].
  apply width_testbit; [apply Z.lor_nonneg; lia|]. intros i Hi.
  by rewrite Z.lor_spec, !testbit_high.
Qed.
End width.

(** Disjoint bits add up. *)
Lemma lor_add tag b n : 0 <= n -> 0 <= tag < 2 ^ n -> 0 <= b ->
  Z.lor tag (Z.shiftl b n) = tag + 2 ^ n * b.
Proof.
  intros Hn Ht Hb. rewrite Z.shiftl_mul_pow2, (Z.mul_comm b) by done.
  rewrite <- Z.lxor_lor; [symmetry; apply Z.add_nocarry_lxor|]; apply Z.bits_inj'; intros i Hi;
    rewrite Z.land_spec, Z.bits_0; rewrite (Z.mul_comm _ b);
    (destruct (decide (i < n)); [rewrite Z.mul_pow2_bits_low by done; apply andb_false_r|
       rewrite (testbit_high n Hn tag Ht) by lia; done]).
Qed.

Lemma land_le_l x y : 0 <= x -> 0 <= y -> 0 <= Z.land x y <= x.
Proof.
  intros Hx Hy. split; [by apply Z.land_nonneg; left|].
  apply Z.ldiff_le; [done|]. apply Z.bits_inj'. intros i _.
  rewrite Z.ldiff_spec, Z.land_spec, Z.bits_0. by destruct (Z.testbit x i), (Z.testbit y i).
Qed.

(** ** Fields of little-endian integers *)

Lemma le_load_app xs ys :
  le_load (xs ++ ys) = le_load xs + W8 ^ Z.of_nat (length xs) * le_load ys.
Proof.
  induction xs as [|x xs IH]; cbn [app le_load length]; [lia|].
  rewrite IH, Nat2Z.inj_succ, Z.pow_succ_r by lia. lia.
Qed.

(** The bytes from [k] on are the integer shifted right by [k] bytes. *)
Lemma le_load_drop k bs : Forall is_byte bs -> (k <= length bs)%nat ->
  le_load bs / W8 ^ Z.of_nat k = le_load (drop k bs).
Proof.
  intros Hb Hk. rewrite <- (take_drop k bs) at 1. rewrite le_load_app, length_take, Nat.min_l by done.
  pose proof (le_load_range (take k bs) ltac:(by apply Forall_take)) as Hr. rewrite length_take, Nat.min_l in Hr by done.
  replace (le_load (take k bs) + W8 ^ Z.of_nat k * le_load (drop k bs))
    with (le_load (take k bs) + le_load (drop k bs) * W8 ^ Z.of_nat k) by lia.
  rewrite Z.div_add, Z.div_small by lia. lia.
Qed.

Lemma le_load_take n bs : Forall is_byte bs -> (n <= length bs)%nat ->
  le_load bs `mod` W8 ^ Z.of_nat n = le_load (take n bs).
Proof.
  intros Hb Hn. rewrite <- (take_drop n bs) at 1. rewrite le_load_app, length_take, Nat.min_l by done.
  pose proof (le_load_range (take n bs) ltac:(by apply Forall_take)) as Hr. rewrite length_take, Nat.min_l in Hr by done.
  replace (le_load (take n bs) + W8 ^ Z.of_nat n * le_load (drop n bs))
    with (le_load (take n bs) + le_load (drop n bs) * W8 ^ Z.of_nat n) by lia.
  rewrite Z.mod_add, Z.mod_small by lia. done.
Qed.

Lemma le_load_slice off n bs : Forall is_byte bs -> (off + n <= length bs)%nat ->
  (le_load bs / W8 ^ Z.of_nat off) `mod` W8 ^ Z.of_nat n = le_load (slice off n bs).
Proof.
  intros Hb Hn. rewrite le_load_drop by (done || lia). unfold slice.
  apply le_load_take; [by apply Forall_drop|rewrite length_drop; lia].
Qed.

Lemma field_range off n bs : Forall is_byte bs -> 0 <= field off n bs < W8 ^ Z.of_nat n.
Proof.
  intros Hb. pose proof (le_load_range (slice off n bs) (slice_bytes off n bs Hb)) as H.
  unfold field. split; [lia|]. eapply Z.lt_le_trans; [apply H|]. apply Z.pow_le_mono_r; [lia|].
  unfold slice. rewrite length_take. lia.
Qed.
