(* ===== verification/Memmap.v ===== *)
(** * The physical memory map: data, sanitising, carving

    Models common/mm/pmm.h (struct memmap_entry and the MEMMAP_* constants)
    and the functions of common/mm/pmm.s2.c that work on an array of entries
    passed by pointer: [align_entry], [pmm_sanitise_entries], [pmm_new_entry],
    [memmap_alloc_range_in].

    An array of entries together with its [count] is a list: the slots at and
    above [count] are never read.  The [unused] padding member of the C struct
    is not modelled (no function of the memory map reads it).  The loops that
    delete the entry at [i] with [count--; i--] restart at the same [i]. *)

From S2P Require Import Prelude.

Record memmap_entry := Entry { me_base : Z; me_length : Z; me_type : Z }.

#[export] Instance memmap_entry_eq_dec : EqDecision memmap_entry.
Proof. solve_decision. Defined.

Definition MEMMAP_USABLE : Z := 1.
Definition MEMMAP_RESERVED : Z := 2.
Definition MEMMAP_ACPI_RECLAIMABLE : Z := 3.
Definition MEMMAP_ACPI_NVS : Z := 4.
Definition MEMMAP_BAD_MEMORY : Z := 5.
Definition MEMMAP_BOOTLOADER_RECLAIMABLE : Z := 0x1000.
Definition MEMMAP_KERNEL_AND_MODULES : Z := 0x1001.
Definition MEMMAP_FRAMEBUFFER : Z := 0x1002.
Definition MEMMAP_RESERVED_MAPPED : Z := 0x1003.
Definition MEMMAP_EFI_RECLAIMABLE : Z := 0x2000.
Definition PAGE_SIZE : Z := 4096.

(** [m[i].base + m[i].length] in [uint64_t]. *)
Definition me_top (e : memmap_entry) : Z := u64 (me_base e + me_length e).

(** ** align_entry *)

(** The new base and length, and the returned [bool]. *)
Definition align_entry (base length : Z) : Z * Z * bool :=
  if length <? PAGE_SIZE then (base, length, false) else
  let orig_base := base in
  let base := ALIGN_UP base PAGE_SIZE in
  let length := u64 (length - u64 (base - orig_base)) in
  let length := ALIGN_DOWN length PAGE_SIZE in
  (base, length, negb (length =? 0)).

(** ** pmm_sanitise_entries *)

(** [if (i < count - 1) m[i] = m[count - 1]; count--;] *)
Definition remove_entry (m : list memmap_entry) (i : nat) : list memmap_entry :=
  match last m with
  | Some l => if decide (i < length m - 1)%nat
              then take (length m - 1) (<[i:=l]> m) else take (length m - 1) m
  | None => m
  end.

(** Lines 134-169: trim entry [i] against the entries [j], [j+1], ... *)
Fixpoint san_overlaps (fuel : nat) (m : list memmap_entry) (i j : nat)
    : outcome (list memmap_entry) :=
  match fuel with
  | O => Diverge
  | S fuel =>
    if decide (j < length m)%nat then
      if decide (j = i) then san_overlaps fuel m i (S j) else
      ei ← get m i; ej ← get m j;
      let base := me_base ei in
      let top := u64 (base + me_length ei) in
      let res_base := me_base ej in
      let res_top := u64 (res_base + me_length ej) in
      if (res_base <=? base) && (top <=? res_top) then
        put m i (Entry top 0 (me_type ei))
      else if ((base <=? res_base) && (res_base <? top))
           && ((base <=? res_top) && (res_top <? top)) then
        Panic "A non-usable memory map entry is inside a usable section."
      else
        let top := if (base <=? res_base) && (res_base <? top) then res_base else top in
        let base := if (base <=? res_top) && (res_top <? top) then res_top else base in
        m ← put m i (Entry base (u64 (top - base)) (me_type ei));
        san_overlaps fuel m i (S j)
    else Ret m
  end.

(** Lines 129-179: trim every usable entry, drop the empty ones. *)
Fixpoint san_usable (fuel : nat) (align_entries : bool) (m : list memmap_entry) (i : nat)
    : outcome (list memmap_entry) :=
  match fuel with
  | O => Diverge
  | S fuel =>
    if decide (i < length m)%nat then
      e ← get m i;
      if negb (me_type e =? MEMMAP_USABLE) then san_usable fuel align_entries m (S i) else
      m ← san_overlaps (S (length m)) m i 0;
      e ← get m i;
      if me_length e =? 0 then san_usable fuel align_entries (remove_entry m i) i else
      if align_entries then
        let '(b, l, ok) := align_entry (me_base e) (me_length e) in
        m ← put m i (Entry b l (me_type e));
        if negb ok then san_usable fuel align_entries (remove_entry m i) i
        else san_usable fuel align_entries m (S i)
      else san_usable fuel align_entries m (S i)
    else Ret m
  end.

(** Lines 182-205: clip usable entries at 0x1000 (unless the first page is
    kept), drop the empty ones. *)
Fixpoint san_first_page (fuel : nat) (keep_first_page : bool) (m : list memmap_entry) (i : nat)
    : outcome (list memmap_entry) :=
  match fuel with
  | O => Diverge
  | S fuel =>
    if decide (i < length m)%nat then
      e ← get m i;
      if negb (me_type e =? MEMMAP_USABLE) then san_first_page fuel keep_first_page m (S i) else
      if negb keep_first_page && (me_base e <? 0x1000) then
        match add_overflow (me_base e) (me_length e) with
        | None => san_first_page fuel keep_first_page (remove_entry m i) i
        | Some entry_top =>
          if entry_top <=? 0x1000
          then san_first_page fuel keep_first_page (remove_entry m i) i
          else
            let len := u64 (me_length e - u64 (0x1000 - me_base e)) in
            m ← put m i (Entry 0x1000 len (me_type e));
            if len =? 0 then san_first_page fuel keep_first_page (remove_entry m i) i
            else san_first_page fuel keep_first_page m (S i)
        end
      else if me_length e =? 0 then san_first_page fuel keep_first_page (remove_entry m i) i
      else san_first_page fuel keep_first_page m (S i)
    else Ret m
  end.

(** Lines 211-216: index of the first entry of minimal base among [i..]. *)
Fixpoint san_min (fuel : nat) (m : list memmap_entry) (i : nat) (min : Z) (min_index : nat)
    : outcome nat :=
  match fuel with
  | O => Diverge
  | S fuel =>
    if decide (i < length m)%nat then
      e ← get m i;
      if me_base e <? min then san_min fuel m (S i) (me_base e) i
      else san_min fuel m (S i) min min_index
    else Ret min_index
  end.

(** Lines 208-220: selection sort by base. *)
Fixpoint san_sort (fuel : nat) (m : list memmap_entry) (p : nat)
    : outcome (list memmap_entry) :=
  match fuel with
  | O => Diverge
  | S fuel =>
    if decide (p + 1 < length m)%nat then
      ep ← get m p;
      min_index ← san_min (S (length m)) m p (me_base ep) p;
      min_e ← get m min_index;
      m ← put m min_index ep;
      m ← put m p min_e;
      san_sort fuel m (S p)
    else Ret m
  end.

Definition mergeable (t : Z) : bool :=
  (t =? MEMMAP_BOOTLOADER_RECLAIMABLE) || (t =? MEMMAP_RESERVED_MAPPED) || (t =? MEMMAP_USABLE).

(** Lines 223-240: merge contiguous entries of a mergeable type. *)
Fixpoint san_merge (fuel : nat) (m : list memmap_entry) (i : nat)
    : outcome (list memmap_entry) :=
  match fuel with
  | O => Diverge
  | S fuel =>
    if decide (i + 1 < length m)%nat then
      e ← get m i;
      if negb (mergeable (me_type e)) then san_merge fuel m (S i) else
      f ← get m (i + 1);
      if (me_type f =? me_type e) && (me_base f =? u64 (me_base e + me_length e)) then
        m ← put m i (Entry (me_base e) (u64 (me_length e + me_length f)) (me_type e));
        san_merge fuel (delete (i + 1)%nat m) i
      else san_merge fuel m (S i)
    else Ret m
  end.

Definition pmm_sanitise_entries (keep_first_page : bool) (m : list memmap_entry)
    (align_entries : bool) : outcome (list memmap_entry) :=
  m ← san_usable (S (length m)) align_entries m 0;
  m ← san_first_page (S (length m)) keep_first_page m 0;
  m ← san_sort (S (length m)) m 0;
  san_merge (S (length m)) m 0.

(** ** pmm_new_entry *)

(** Lines 751-801: make room for [base, top) in the existing entries. *)
Fixpoint carve (fuel : nat) (max_entries : nat) (m : list memmap_entry) (base top : Z) (i : nat)
    : outcome (list memmap_entry) :=
  match fuel with
  | O => Diverge
  | S fuel =>
    if decide (i < length m)%nat then
      e ← get m i;
      let entry_base := me_base e in
      match add_overflow (me_base e) (me_length e) with
      | None => carve fuel max_entries m base top (S i)
      | Some entry_top =>
        if (base <=? entry_base) && (entry_top <=? top) then
          carve fuel max_entries (remove_entry m i) base top i
        else if (base <=? entry_base) && (top <? entry_top) && (entry_base <? top) then
          m ← put m i (Entry (u64 (me_base e + u64 (top - entry_base)))
                             (u64 (me_length e - u64 (top - entry_base))) (me_type e));
          carve fuel max_entries m base top (S i)
        else if (entry_base <? base) && (base <? entry_top) && (entry_top <=? top) then
          m ← put m i (Entry (me_base e) (u64 (me_length e - u64 (entry_top - base))) (me_type e));
          carve fuel max_entries m base top (S i)
        else if (entry_base <? base) && (top <? entry_top) then
          m ← put m i (Entry (me_base e) (u64 (me_length e - u64 (entry_top - base))) (me_type e));
          if decide (max_entries <= length m)%nat then Panic "Memory map exhausted." else
          carve fuel max_entries (m ++ [Entry top (u64 (entry_top - top)) (me_type e)])
                base top (S i)
        else carve fuel max_entries m base top (S i)
      end
    else Ret m
  end.

(** The returned [bool] is always [true]; the new array is the result. *)
Definition pmm_new_entry (max_entries : nat) (m : list memmap_entry) (base length type : Z)
    : outcome (list memmap_entry) :=
  match add_overflow base length with
  | None => Panic "pmm: Integer overflow in memory range calculation"
  | Some top =>
    m ← carve (S (2 * List.length m)) max_entries m base top 0;
    if decide (max_entries <= List.length m)%nat then Panic "Memory map exhausted." else
    Ret (m ++ [Entry base length type])
  end.

(** ** memmap_alloc_range_in *)

(** Lines 847-864: the first entry of the overlay type that contains the
    range, if any. *)
Definition holds_range (overlay_type base top : Z) (e : memmap_entry) : bool :=
  if negb (overlay_type =? 0) && negb (me_type e =? overlay_type) then false else
  match add_overflow (me_base e) (me_length e) with
  | None => false
  | Some entry_top => (me_base e <=? base) && (base <? entry_top) && (top <=? entry_top)
  end.

(** The returned [bool] and the array after the call. *)
Definition memmap_alloc_range_in (keep_first_page : bool) (max_entries : nat)
    (m : list memmap_entry) (base length type overlay_type : Z)
    (do_panic simulation new_entry : bool) : outcome (bool * list memmap_entry) :=
  if length =? 0 then Ret (true, m) else
  if simulation && new_entry then Ret (true, m) else
  match add_overflow base length with
  | None => if do_panic then Panic "Memory allocation overflow." else Ret (false, m)
  | Some top =>
    if existsb (holds_range overlay_type base top) m then
      if simulation then Ret (true, m) else
      m ← pmm_new_entry max_entries m base length type;
      m ← pmm_sanitise_entries keep_first_page m false;
      Ret (true, m)
    else if negb new_entry && do_panic then Panic "Memory allocation failure."
    else if negb new_entry then Ret (false, m)
    else
      m ← pmm_new_entry max_entries m base length type;
      m ← pmm_sanitise_entries keep_first_page m false;
      Ret (true, m)
  end.

(** ** pmm_check_type *)

Fixpoint pmm_check_type (m : list memmap_entry) (addr : Z) : Z :=
  match m with
  | [] => W64 - 1
  | e :: m => if (me_base e <=? addr) && (addr <? me_top e) then me_type e
              else pmm_check_type m addr
  end.
