(* ===== verification/Sanitise.v ===== *)
(** * The memory map

    What [pmm_sanitise_entries] makes of the map of the firmware, pass by pass and as
    a whole, and what [pmm_new_entry] carves out of it. *)

From S2P Require Import Prelude Memmap.

(** * Correctness of pmm_sanitise_entries

    An entry denotes the interval [base, base + length); a map denotes the
    relation [covers] between addresses and types.  The sanitiser keeps the
    coverage of every type other than usable, removes from the usable
    coverage what another type covers, never overlaps a usable entry with
    another entry, sorts by base, and terminates. *)

Definition inside (a : Z) (e : memmap_entry) : Prop :=
  me_base e <= a < me_base e + me_length e.

Definition covers (m : list memmap_entry) (a t : Z) : Prop :=
  exists e, e ∈ m /\ me_type e = t /\ inside a e.

Definition wf_entry (e : memmap_entry) : Prop :=
  0 <= me_base e /\ 0 <= me_length e /\ me_base e + me_length e < W64.

(** One entry lies strictly after the other; an empty entry does not sit on
    the first address of a non-empty one. *)
Definition sep (e f : memmap_entry) : Prop :=
  (me_base e + me_length e <= me_base f /\ me_base e < me_base f) \/
  (me_base f + me_length f <= me_base e /\ me_base f < me_base e).

Definition is_usable (e : memmap_entry) : Prop := me_type e = MEMMAP_USABLE.

Definition usable_sep (e f : memmap_entry) : Prop := is_usable e \/ is_usable f -> sep e f.

Definition base_le (e f : memmap_entry) : Prop := me_base e <= me_base f.

#[export] Instance is_usable_dec e : Decision (is_usable e).
Proof. unfold is_usable. apply _. Defined.

Lemma sep_sym e f : sep e f -> sep f e.
Proof. unfold sep. lia. Qed.

Lemma usable_sep_sym e f : usable_sep e f -> usable_sep f e.
Proof. unfold usable_sep. intros H ?. apply sep_sym, H. tauto. Qed.

Lemma wf_top e : wf_entry e -> u64 (me_base e + me_length e) = me_base e + me_length e.
Proof. intros (? & ? & ?). apply u64_small. lia. Qed.

Lemma covers_app m1 m2 a t : covers (m1 ++ m2) a t <-> covers m1 a t \/ covers m2 a t.
Proof. unfold covers. setoid_rewrite elem_of_app. naive_solver. Qed.

Lemma covers_cons e m a t :
  covers (e :: m) a t <-> (me_type e = t /\ inside a e) \/ covers m a t.
Proof. unfold covers. setoid_rewrite elem_of_cons. naive_solver. Qed.

Lemma covers_nil a t : ~ covers [] a t.
Proof. intros (e & He & _). by apply elem_of_nil in He. Qed.

#[export] Instance covers_perm : Proper ((≡ₚ) ==> (=) ==> (=) ==> iff) covers.
Proof.
  intros m1 m2 Hp a ? <- t ? <-. unfold covers. by setoid_rewrite Hp.
Qed.

(** ** Trimming one entry against the others *)

(** [e'] is [e] with some addresses of other entries cut away. *)
Record trimmed (m : list memmap_entry) (i : nat) (e e' : memmap_entry) : Prop := {
  tr_type : me_type e' = me_type e;
  tr_wf : wf_entry e';
  tr_base : me_base e <= me_base e';
  tr_top : me_base e' + me_length e' <= me_base e + me_length e;
  tr_cov : forall a, inside a e ->
    inside a e' \/ exists k f, k <> i /\ m !! k = Some f /\ inside a f
}.

Lemma trimmed_refl m i e : wf_entry e -> trimmed m i e e.
Proof. intros H. split; auto; lia. Qed.

Lemma trimmed_trans m i e1 e2 e3 :
  trimmed m i e1 e2 -> trimmed m i e2 e3 -> trimmed m i e1 e3.
Proof.
  intros [T1 W1 B1 P1 C1] [T2 W2 B2 P2 C2]. split; auto; [congruence|lia|lia|].
  intros a Ha. destruct (C1 a Ha); eauto.
Qed.

Lemma trimmed_insert m i x e e' : trimmed (<[i:=x]> m) i e e' -> trimmed m i e e'.
Proof.
  intros [T W B P C]. split; auto. intros a Ha.
  destruct (C a Ha) as [?|(k & f & Hk & Hf & ?)]; [by left|right].
  exists k, f. by rewrite list_lookup_insert_ne in Hf.
Qed.

Lemma trimmed_sep m i e e' f :
  trimmed m i e e' -> me_length e' <> 0 -> sep e f -> sep e' f.
Proof. intros [_ (? & ? & ?) ? ? _] Hl Hs. unfold sep in *. lia. Qed.

(** One round of the inner loop that goes on to the next [j]. *)
Lemma trim_step m i k e f (b := me_base e) (t := me_base e + me_length e)
    (rb := me_base f) (rt := me_base f + me_length f)
    (t' := if (b <=? rb) && (rb <? t) then rb else t)
    (b' := if (b <=? rt) && (rt <? t') then rt else b) :
  wf_entry e -> wf_entry f -> m !! k = Some f -> k <> i ->
  ((rb <=? b) && (t <=? rt)) = false ->
  (((b <=? rb) && (rb <? t)) && ((b <=? rt) && (rt <? t))) = false ->
  trimmed m i e (Entry b' (u64 (t' - b')) (me_type e)) /\
  sep (Entry b' (u64 (t' - b')) (me_type e)) f.
Proof.
  intros (We1 & We2 & We3) (Wf1 & Wf2 & Wf3) Hk Hne H1 H2.
  assert (Hr : b <= b' /\ b' <= t' /\ t' <= t /\ (t' <= rb /\ b' < rb \/ rt <= b' /\ rb < b') /\
    forall a, b <= a < t -> b' <= a < t' \/ rb <= a < rt).
  { subst b t rb rt t' b'. repeat case_b; simpl in *; try discriminate;
    split_and!; try intros a Ha; lia. }
  destruct Hr as (R1 & R2 & R3 & R4 & R5).
  rewrite u64_small by (subst b t; lia).
  split; [split|]; unfold wf_entry, sep, inside; simpl; auto; try (subst b t; lia).
  intros a Ha. destruct (R5 a Ha) as [?|?]; [left; lia|right].
  exists k, f. unfold rb, rt in *. auto.
Qed.

Lemma trim_gone m i k e f :
  wf_entry e -> m !! k = Some f -> k <> i ->
  me_base f <= me_base e -> me_base e + me_length e <= me_base f + me_length f ->
  trimmed m i e (Entry (me_base e + me_length e) 0 (me_type e)).
Proof.
  intros (? & ? & ?) Hk Hne Hb Ht. split; unfold wf_entry, inside; simpl; auto; try lia.
  intros a Ha. right. exists k, f. split_and!; auto; lia.
Qed.

Lemma san_overlaps_spec fuel m i j e m' :
  Forall wf_entry m -> m !! i = Some e -> san_overlaps fuel m i j = Ret m' ->
  exists e', m' = <[i:=e']> m /\ trimmed m i e e' /\
    (me_length e' = 0 \/
     forall k f, (j <= k)%nat -> k <> i -> m !! k = Some f -> sep e' f).
Proof.
  revert m j e. induction fuel as [|fuel IH]; intros m j e Hwf Hi H; simpl in H; [done|].
  assert (We : wf_entry e) by (by eapply Forall_lookup_1).
  case_decide as Hj.
  2:{ inv_ret. exists e. rewrite list_insert_id by done.
      split_and!; auto using trimmed_refl. right. intros k f ? ? Hk.
      apply lookup_lt_Some in Hk. lia. }
  case_decide as Hji.
  { subst j. destruct (IH m (S i) e Hwf Hi H) as (e' & -> & Ht & Hs).
    exists e'. split_and!; auto. destruct Hs as [|Hs]; [by left|right].
    intros k f ? ? ?. apply (Hs k f); auto. lia. }
  inv_ret. rename x into ei, x0 into ej.
  match goal with H1 : m !! i = Some ei |- _ => rewrite Hi in H1; injection H1 as <- end.
  match goal with H1 : m !! j = Some ej |- _ => rename H1 into Hj' end.
  assert (Wf : wf_entry ej) by (by eapply Forall_lookup_1).
  assert (Hlen : (i < length m)%nat) by (by eapply lookup_lt_Some).
  rewrite !wf_top in * by done.
  match goal with H1 : (if ?c then _ else _) = _ |- _ => destruct c eqn:Hc1 end.
  { inv_ret. eexists; split; [done|]. split; [|by left].
    apply andb_true_iff in Hc1 as [?%Z.leb_le ?%Z.leb_le]. by eapply trim_gone. }
  match goal with H1 : (if ?c then _ else _) = _ |- _ => destruct c eqn:Hc2; [done|] end.
  destruct (trim_step m i j e ej We Wf Hj' Hji Hc1 Hc2) as [Ht Hs].
  inv_ret.
  match goal with H1 : san_overlaps _ (<[i:=?x]> m) _ _ = _ |- _ =>
    destruct (IH _ _ x (Forall_insert _ _ _ _ Hwf (tr_wf _ _ _ _ Ht))
                 (list_lookup_insert_eq _ _ _ Hlen) H1) as (e' & -> & Ht' & Hs') end.
  exists e'. rewrite list_insert_insert_eq. apply trimmed_insert in Ht'.
  split_and!; auto; [by eapply trimmed_trans|].
  destruct (decide (me_length e' = 0)); [by left|].
  destruct Hs' as [|Hs']; [done|right]. intros k f Hk Hki Hf.
  destruct (decide (k = j)) as [->|].
  - simplify_eq. by eapply trimmed_sep.
  - apply (Hs' k f); [lia|done|]. by rewrite list_lookup_insert_ne.
Qed.

(** ** How a pass relates the map before and after *)

(** A pass only touches usable entries: it keeps the others, adds no usable
    address, and keeps every covered address that satisfies [P] covered. *)
Record san_rel (P : Z -> Prop) (m m' : list memmap_entry) : Prop := {
  sr_other : filter (fun e => ~ is_usable e) m' ≡ₚ filter (fun e => ~ is_usable e) m;
  sr_usable : forall a, covers m' a MEMMAP_USABLE -> covers m a MEMMAP_USABLE;
  sr_any : forall a t, P a -> covers m a t -> exists t', covers m' a t';
  sr_wf : Forall wf_entry m -> Forall wf_entry m'
}.

#[export] Instance san_rel_preorder P : PreOrder (san_rel P).
Proof.
  split.
  - intros m. split; eauto.
  - intros m1 m2 m3 [A1 B1 C1 D1] [A2 B2 C2 D2]. split; eauto.
    + by rewrite A2.
    + intros a t Ha Ht. destruct (C1 a t Ha Ht) as [t' Ht']. eauto.
Qed.

Lemma san_then P m1 m2 m3 (Q : Prop) :
  san_rel P m1 m2 -> san_rel P m2 m3 /\ Q -> san_rel P m1 m3 /\ Q.
Proof. intros H1 [H2 HQ]. split; [by transitivity m2|done]. Qed.

Lemma san_rel_perm P m m' : m ≡ₚ m' -> san_rel P m m'.
Proof.
  intros Hp. split.
  - by rewrite Hp.
  - intros a. by rewrite Hp.
  - intros a t _. rewrite Hp. eauto.
  - by rewrite Hp.
Qed.

Lemma san_rel_weaken (P Q : Z -> Prop) m m' :
  (forall a, Q a -> P a) -> san_rel P m m' -> san_rel Q m m'.
Proof. intros H [A B C D]. split; eauto. Qed.

(** Replace a usable entry by the parts [es] of it. *)
Lemma san_rel_replace P pre e post es post' :
  is_usable e -> Forall is_usable es -> Forall wf_entry es -> post' ≡ₚ post ->
  (forall a x, x ∈ es -> inside a x -> inside a e) ->
  (forall a, P a -> inside a e -> (exists x, x ∈ es /\ inside a x) \/
                                 exists t, covers (pre ++ post) a t) ->
  san_rel P (pre ++ e :: post) (pre ++ es ++ post').
Proof.
  intros He Hes Hw Hp Hsub Hkeep. split.
  - rewrite !filter_app, Hp, filter_cons_False by tauto.
    assert (filter (fun x => ~ is_usable x) es = []) as ->; [|done].
    clear -Hes. induction Hes as [|x es Hx _ IH]; [done|].
    by rewrite filter_cons_False by tauto.
  - intros a. rewrite !covers_app, covers_cons, Hp.
    intros [?|[(x & Hx & Ht & Hi)|?]]; eauto 6.
  - intros a t HP. rewrite covers_app, covers_cons.
    intros [Hc|[[Ht Hi]|Hc]].
    + exists t. rewrite !covers_app. auto.
    + destruct (Hkeep a HP Hi) as [(x & Hx & Hxi)|[t' Hc]].
      * exists (me_type x). rewrite !covers_app. right. left. exists x. auto.
      * exists t'. rewrite covers_app in Hc. rewrite !covers_app, Hp. tauto.
    + exists t. rewrite !covers_app, Hp. auto.
  - rewrite !Forall_app, Forall_cons, Hp. tauto.
Qed.

Lemma covers_other P m m' a t :
  san_rel P m m' -> t <> MEMMAP_USABLE -> (covers m' a t <-> covers m a t).
Proof.
  intros [Hp _ _ _] Ht.
  assert (Hf : forall l, covers l a t <-> covers (filter (fun e => ~ is_usable e) l) a t).
  { intros l. unfold covers, is_usable. setoid_rewrite list_elem_of_filter.
    split; intros (e & ? & ? & ?); exists e; naive_solver congruence. }
  by rewrite (Hf m'), (Hf m), Hp.
Qed.

(** Removing entry [i] as the code does: the last entry takes its place. *)
Lemma remove_at pre e post :
  exists post', remove_entry (pre ++ e :: post) (length pre) = pre ++ post' /\ post' ≡ₚ post.
Proof.
  unfold remove_entry. destruct (last (pre ++ e :: post)) as [l|] eqn:Hl.
  2:{ apply last_None in Hl. by destruct pre. }
  destruct post as [|p post _] using rev_ind.
  - rewrite last_snoc in Hl. injection Hl as ->. exists []. split; [|done].
    rewrite length_app. simpl. rewrite decide_False by lia.
    rewrite take_app_le by lia. rewrite take_ge by lia. by rewrite app_nil_r.
  - rewrite app_comm_cons, app_assoc, last_snoc in Hl. injection Hl as ->.
    exists (l :: post). split; [|by rewrite Permutation_cons_append].
    rewrite !length_app. simpl. rewrite length_app. simpl.
    rewrite decide_True by lia. rewrite insert_at.
    rewrite app_comm_cons, app_assoc.
    rewrite take_app_le by (rewrite length_app; simpl; lia).
    by rewrite take_ge by (rewrite length_app; simpl; lia).
Qed.

(** ** The trimming pass *)

Definition good (al : bool) (e : memmap_entry) : Prop :=
  is_usable e -> 0 < me_length e /\
    (al = true -> (PAGE_SIZE | me_base e) /\ (PAGE_SIZE | me_length e)).

Lemma align_entry_spec b l b' l' :
  0 <= b -> 0 <= l -> b + l < W64 -> align_entry b l = (b', l', true) ->
  (PAGE_SIZE | b') /\ (PAGE_SIZE | l') /\ 0 < l' /\ b <= b' /\ b' + l' <= b + l.
Proof.
  unfold align_entry. intros Hb Hl Hw. destruct (Z.ltb_spec l PAGE_SIZE) as [?|Hp]; [done|].
  unfold PAGE_SIZE in *.
  destruct (ALIGN_UP_spec b 4096) as (k & Hk & Hr); [lia..|].
  rewrite (u64_small (ALIGN_UP b 4096 - b)), (u64_small (l - _)) by lia.
  destruct (ALIGN_DOWN_spec (l - (ALIGN_UP b 4096 - b)) 4096) as (k2 & Hk2 & Hr2); [lia..|].
  intros [= <- <- Hn]. split_and!; [by exists k|by exists k2| |lia|lia].
  apply negb_true_iff, Z.eqb_neq in Hn. lia.
Qed.

Lemma overlaps_at fuel pre e post m' :
  Forall wf_entry (pre ++ e :: post) ->
  san_overlaps fuel (pre ++ e :: post) (length pre) 0 = Ret m' ->
  exists e', m' = pre ++ e' :: post /\ trimmed (pre ++ e :: post) (length pre) e e' /\
    (me_length e' = 0 \/ forall f, f ∈ pre ++ post -> sep e' f).
Proof.
  intros Hw H. destruct (san_overlaps_spec _ _ _ _ _ _ Hw (lookup_at _ _ _) H)
    as (e' & -> & Ht & Hs).
  exists e'. rewrite insert_at. split_and!; auto.
  destruct Hs as [|Hs]; [by left|right]. intros f Hf.
  apply elem_of_app in Hf as [Hf|Hf]; apply list_elem_of_lookup in Hf as [k Hk].
  - pose proof (lookup_lt_Some _ _ _ Hk).
    apply (Hs k f); [lia|lia|]. by rewrite lookup_app_l.
  - apply (Hs (length pre + S k)%nat f); [lia|lia|]. by rewrite lookup_app_r by lia;
      replace (length pre + S k - length pre)%nat with (S k) by lia.
Qed.

Lemma trimmed_keeps pre e post e' a :
  trimmed (pre ++ e :: post) (length pre) e e' -> inside a e ->
  inside a e' \/ exists t, covers (pre ++ post) a t.
Proof.
  intros Ht Ha. destruct (tr_cov _ _ _ _ Ht a Ha) as [?|(k & f & Hk & Hf & Hi)]; [by left|].
  right. exists (me_type f), f. split_and!; auto. by eapply lookup_other.
Qed.

(** The part [pre] of the map that the pass has left behind. *)
Record done_pre (al : bool) (pre post : list memmap_entry) : Prop := {
  dp_pair : pairwise usable_sep pre;
  dp_cross : forall x y, x ∈ pre -> y ∈ post -> is_usable x -> sep x y;
  dp_good : Forall (good al) pre
}.

Lemma done_pre_nil al post : done_pre al [] post.
Proof. split; [constructor| |constructor]. intros x y Hx. by apply elem_of_nil in Hx. Qed.

Lemma done_pre_perm al pre post post' :
  (forall y, y ∈ post' -> y ∈ post) -> done_pre al pre post -> done_pre al pre post'.
Proof. intros H [A B C]. split; eauto. Qed.

Lemma done_pre_other al pre e post :
  ~ is_usable e -> done_pre al pre (e :: post) -> done_pre al (pre ++ [e]) post.
Proof.
  intros He [A B C]. split.
  - apply pairwise_app. split_and!; auto; [|repeat constructor].
    intros x y Hx Hy%list_elem_of_singleton [Hu|Hu]; subst; [|done].
    apply B; auto. by left.
  - intros x y [Hx|Hx%list_elem_of_singleton]%elem_of_app Hy Hu; subst; [|done].
    apply B; auto. by right.
  - apply Forall_app. split; auto. apply Forall_singleton. by intros ?.
Qed.

Lemma done_pre_usable al pre e e' post :
  good al e' -> (forall f, f ∈ pre ++ post -> sep e' f) ->
  done_pre al pre (e :: post) -> done_pre al (pre ++ [e']) post.
Proof.
  intros Hg Hs [A B C]. split.
  - apply pairwise_app. split_and!; auto; [|repeat constructor].
    intros x y Hx Hy%list_elem_of_singleton _; subst.
    apply sep_sym, Hs. set_solver.
  - intros x y [Hx|Hx%list_elem_of_singleton]%elem_of_app Hy Hu; subst.
    + apply B; auto. by right.
    + apply Hs. set_solver.
  - apply Forall_app. auto.
Qed.

Lemma san_rel_shrunk P pre e e' post :
  trimmed (pre ++ e :: post) (length pre) e e' -> is_usable e ->
  san_rel P (pre ++ e :: post) (pre ++ e' :: post).
Proof.
  intros Ht Hu. pose proof (tr_base _ _ _ _ Ht). pose proof (tr_top _ _ _ _ Ht).
  apply (san_rel_replace P pre e post [e'] post); auto.
  - repeat constructor. unfold is_usable. by rewrite (tr_type _ _ _ _ Ht).
  - repeat constructor; apply Ht.
  - intros a x ->%list_elem_of_singleton. unfold inside. lia.
  - intros a _ Ha. destruct (trimmed_keeps _ _ _ _ _ Ht Ha); [left|by right].
    exists e'. set_solver.
Qed.

(** What follows the removed entry does not depend on the entry itself. *)
Lemma san_rel_removed P pre e x post m' :
  is_usable e -> (forall a, P a -> ~ inside a e) ->
  remove_entry (pre ++ x :: post) (length pre) = m' ->
  exists post', m' = pre ++ post' /\ post' ≡ₚ post /\ san_rel P (pre ++ e :: post) (pre ++ post').
Proof.
  intros Hu Hn <-. destruct (remove_at pre x post) as (post' & -> & Hp).
  exists post'. split_and!; auto.
  apply (san_rel_replace P pre e post [] post'); auto.
  - intros a y Hy. by apply elem_of_nil in Hy.
  - intros a HP Ha. by destruct (Hn a HP).
Qed.

(** The aligned entry is a part of the entry, whole pages long. *)
Lemma san_rel_aligned P pre e post b l :
  is_usable e -> wf_entry e -> align_entry (me_base e) (me_length e) = (b, l, true) ->
  (forall f, f ∈ pre ++ post -> sep e f) -> (forall a : Z, ~ P a) ->
  san_rel P (pre ++ e :: post) (pre ++ Entry b l (me_type e) :: post) /\
  good true (Entry b l (me_type e)) /\
  (forall f, f ∈ pre ++ post -> sep (Entry b l (me_type e)) f).
Proof.
  intros Hu (? & ? & ?) Ha Hs HP.
  apply align_entry_spec in Ha as (A1 & A2 & A3 & A4 & A5); [|lia..].
  split_and!.
  - apply (san_rel_replace P pre e post [_] post); auto.
    + apply Forall_singleton. unfold wf_entry. simpl. lia.
    + intros a ? ->%list_elem_of_singleton. unfold inside. simpl. lia.
    + intros a Hc. by destruct (HP a).
  - intros _. simpl. auto.
  - intros f Hf. specialize (Hs f Hf). unfold sep in *. simpl. lia.
Qed.

Lemma san_usable_spec al fuel pre post m' (P := fun _ : Z => al = false) :
  Forall wf_entry (pre ++ post) -> done_pre al pre post ->
  san_usable fuel al (pre ++ post) (length pre) = Ret m' ->
  san_rel P (pre ++ post) m' /\ done_pre al m' [].
Proof.
  revert pre post. induction fuel as [|fuel IH]; intros pre post Hw Hd H; cbn [san_usable] in H; [done|].
  case_decide as Hlen; rewrite length_app in Hlen.
  2:{ inv_ret. destruct post as [|p post]; [|simpl in Hlen; lia].
      rewrite app_nil_r. split; [done|]. apply Hd. }
  destruct post as [|e post]; [simpl in Hlen; lia|].
  assert (Hnext : forall x, san_usable fuel al (pre ++ x :: post) (S (length pre)) = Ret m' ->
    Forall wf_entry (pre ++ x :: post) -> done_pre al (pre ++ [x]) post ->
    san_rel P (pre ++ x :: post) m' /\ done_pre al m' []).
  { intros x Hr Hw' Hd'. rewrite (S_length _ x), snoc_at in Hr. rewrite snoc_at in Hw' |- *. by apply IH. }
  assert (Hdrop : forall y x, is_usable y -> (forall a, P a -> ~ inside a y) ->
    san_usable fuel al (remove_entry (pre ++ x :: post) (length pre)) (length pre) = Ret m' ->
    Forall wf_entry (pre ++ y :: post) ->
    san_rel P (pre ++ y :: post) m' /\ done_pre al m' []).
  { intros y x Hy Hn Hr Hw'.
    destruct (san_rel_removed P pre y x post _ Hy Hn eq_refl) as (post' & E & Hp & Hrel).
    rewrite E in Hr. eapply san_then; [done|]. apply IH; auto; [by apply Hrel|].
    eapply done_pre_perm; [|done]. intros z. rewrite Hp. set_solver. }
  inv_ret. match goal with H1 : _ !! _ = Some _ |- _ => rewrite lookup_at in H1; simplify_eq end.
  destruct (Z.eqb_spec (me_type x) MEMMAP_USABLE) as [Hu|Hu]; cbn [negb] in *.
  2:{ apply Hnext; auto. by apply done_pre_other. }
  inv_ret. match goal with H1 : san_overlaps _ _ _ _ = _ |- _ =>
    apply overlaps_at in H1 as (e' & -> & Ht & Hs); [|done] end.
  match goal with H1 : _ !! _ = Some _ |- _ => rewrite lookup_at in H1; simplify_eq end.
  rename x into e, x1 into e'.
  assert (Hu' : is_usable e') by (unfold is_usable; by rewrite (tr_type _ _ _ _ Ht)).
  pose proof (san_rel_shrunk P _ _ _ _ Ht Hu) as Hr1.
  pose proof (sr_wf _ _ _ Hr1 Hw) as Hw1. eapply san_then; [done|].
  destruct (Z.eqb_spec (me_length e') 0) as [H0|H0].
  { apply (Hdrop e' e'); auto. intros a _. unfold inside. lia. }
  destruct Hs as [?|Hs]; [done|].
  assert (Hwe : wf_entry e') by apply Ht.
  destruct al.
  2:{ apply Hnext; auto. eapply done_pre_usable; eauto. intros _.
      destruct Hwe as (? & ? & ?). split; [lia|done]. }
  destruct (align_entry (me_base e') (me_length e')) as [[b l] ok] eqn:Ea. inv_ret.
  rewrite insert_at in *. destruct ok; simpl in *; [|by eapply (Hdrop e')].
  destruct (san_rel_aligned P pre e' post b l) as (Hr2 & Hg & Hs2); auto; [by intros a|].
  eapply san_then; [done|]. apply Hnext; auto; [by apply Hr2|]. by eapply done_pre_usable.
Qed.

(** ** The first-page pass *)

(** The state between the passes. *)
Record clean (al : bool) (m : list memmap_entry) : Prop := {
  cl_wf : Forall wf_entry m;
  cl_sep : pairwise usable_sep m;
  cl_good : Forall (good al) m
}.

#[export] Instance clean_perm al : Proper ((≡ₚ) ==> iff) (clean al).
Proof.
  assert (H : forall m1 m2, m1 ≡ₚ m2 -> clean al m1 -> clean al m2).
  { intros m1 m2 Hp [A B C]. split; [by rewrite <- Hp| |by rewrite <- Hp].
    eapply pairwise_perm; eauto using usable_sep_sym. }
  intros m1 m2 Hp. split; apply H; done.
Qed.

Lemma clean_cons al e m :
  clean al (e :: m) <->
  wf_entry e /\ good al e /\ Forall (usable_sep e) m /\ clean al m.
Proof.
  split.
  - intros [A B C]. apply Forall_cons in A, C. apply pairwise_cons in B.
    destruct A, B, C. done.
  - intros (A & B & C & [D E F]). split; [by constructor|by apply pairwise_cons|by constructor].
Qed.

Lemma clean_removed al pre e post post' :
  post' ≡ₚ post -> clean al (pre ++ e :: post) -> clean al (pre ++ post').
Proof.
  intros -> Hc. rewrite <- Permutation_middle in Hc. apply clean_cons in Hc. tauto.
Qed.

Lemma clean_shrunk al pre e e' post :
  me_type e' = me_type e -> wf_entry e' -> good al e' -> me_length e' <> 0 ->
  me_base e <= me_base e' -> me_base e' + me_length e' <= me_base e + me_length e ->
  clean al (pre ++ e :: post) -> clean al (pre ++ e' :: post).
Proof.
  rewrite <- !(Permutation_middle pre), !clean_cons.
  intros Ht Hw Hg Hl H1 H2 (_ & _ & Hs & ?). split_and!; auto.
  eapply Forall_impl; [exact Hs|]. destruct Hw as (? & ? & ?).
  intros f Hf Hu. unfold usable_sep, is_usable, sep in *. rewrite Ht in Hu.
  specialize (Hf Hu). lia.
Qed.

Definition above (keep : bool) (e : memmap_entry) : Prop :=
  is_usable e -> keep = false -> 0x1000 <= me_base e.

Lemma good_clip al e : good al e -> is_usable e -> wf_entry e ->
  0x1000 < me_base e + me_length e -> me_base e < 0x1000 ->
  good al (Entry 0x1000 (me_length e - (0x1000 - me_base e)) (me_type e)).
Proof.
  intros Hg Hu (? & ? & ?) Ht Hb _. simpl. split; [lia|].
  intros Hal. destruct (Hg Hu) as [_ Hd]. destruct (Hd Hal) as [[k Hk] [l Hl]].
  unfold PAGE_SIZE in *. split; [by exists 1|]. exists (l - 1 + k). lia.
Qed.

Lemma san_first_page_spec al keep fuel pre post m' (P := fun a => keep = true \/ 0x1000 <= a) :
  clean al (pre ++ post) -> Forall (above keep) pre ->
  san_first_page fuel keep (pre ++ post) (length pre) = Ret m' ->
  san_rel P (pre ++ post) m' /\ clean al m' /\ Forall (above keep) m'.
Proof.
  revert pre post. induction fuel as [|fuel IH]; intros pre post Hc Ha H;
    cbn [san_first_page] in H; [done|].
  case_decide as Hlen; rewrite length_app in Hlen.
  2:{ inv_ret. destruct post as [|p post]; [|simpl in Hlen; lia].
      rewrite app_nil_r in *. split; [done|]. auto. }
  destruct post as [|e post]; [simpl in Hlen; lia|].
  assert (Hnext : forall x, san_first_page fuel keep (pre ++ x :: post) (S (length pre)) = Ret m' ->
    clean al (pre ++ x :: post) -> above keep x ->
    san_rel P (pre ++ x :: post) m' /\ clean al m' /\ Forall (above keep) m').
  { intros x Hr Hc' Hx. rewrite (S_length _ x), snoc_at in Hr. rewrite snoc_at in Hc' |- *.
    apply IH; auto. apply Forall_app. split; auto. }
  assert (Hdrop : forall x, is_usable e -> (forall a, P a -> ~ inside a e) ->
    san_first_page fuel keep (remove_entry (pre ++ x :: post) (length pre)) (length pre) = Ret m' ->
    san_rel P (pre ++ e :: post) m' /\ clean al m' /\ Forall (above keep) m').
  { intros x Hy Hn Hr.
    destruct (san_rel_removed P pre e x post _ Hy Hn eq_refl) as (post' & E & Hp & Hrel).
    rewrite E in Hr. eapply san_then; [done|]. apply IH; auto. by eapply clean_removed. }
  inv_ret. match goal with H1 : _ !! _ = Some _ |- _ => rewrite lookup_at in H1; simplify_eq end.
  rename x into e.
  assert (Hce : wf_entry e /\ good al e).
  { rewrite <- Permutation_middle in Hc. apply clean_cons in Hc. tauto. }
  destruct Hce as [(W1 & W2 & W3) Hg].
  destruct (Z.eqb_spec (me_type e) MEMMAP_USABLE) as [Hu|Hu]; cbn [negb] in *.
  2:{ apply Hnext; auto. by intros ?. }
  destruct (Hg Hu) as [Hg1 _].
  destruct (negb keep && (me_base e <? 0x1000)) eqn:Hk; last first.
  { destruct (Z.eqb_spec (me_length e) 0); [lia|]. apply Hnext; auto.
    intros _ ->. simpl in Hk. apply Z.ltb_ge in Hk. lia. }
  apply andb_true_iff in Hk as [Hk%negb_true_iff Hb%Z.ltb_lt].
  rewrite add_overflow_lt in H by done.
  destruct (Z.leb_spec (me_base e + me_length e) 0x1000).
  { eapply Hdrop; eauto. intros a [?|?]; [congruence|]. unfold inside. lia. }
  inv_ret. rewrite insert_at in *.
  rewrite (u64_small (4096 - _)), u64_small in * by lia.
  destruct (Z.eqb_spec (me_length e - (4096 - me_base e)) 0); [lia|].
  eapply (san_then P _ (pre ++ _ :: post)); [|eapply Hnext; eauto].
  - apply (san_rel_replace P pre e post [_] post); auto.
    + apply Forall_singleton. unfold wf_entry. simpl. lia.
    + intros a ? ->%list_elem_of_singleton. unfold inside. simpl. lia.
    + intros a [?|?] Hi; [congruence|left]. eexists. split; [by apply list_elem_of_singleton|].
      unfold inside in *. simpl. lia.
  - apply (clean_shrunk al pre e); auto; try (unfold wf_entry; simpl; lia).
    by apply good_clip.
  - intros ??. simpl. lia.
Qed.

(** * The sorting and merging passes of pmm_sanitise_entries, and the whole function *)

(** ** Selection sort *)

Lemma san_min_spec fuel m i min k r :
  (exists e, m !! k = Some e /\ me_base e = min) ->
  (forall j e, (k <= j < i)%nat -> m !! j = Some e -> min <= me_base e) ->
  (k < i)%nat \/ k = i ->
  san_min fuel m i min k = Ret r ->
  exists e, m !! r = Some e /\ (k <= r)%nat /\
    (forall j f, (k <= j)%nat -> m !! j = Some f -> me_base e <= me_base f).
Proof.
  revert i min k. induction fuel as [|fuel IH]; intros i min k [e0 [Hk Hmin]] Hall Hki H;
    cbn [san_min] in H; [done|].
  case_decide as Hi.
  2:{ inv_ret. exists e0. split_and!; auto. intros j f Hj Hf.
      apply (Hall j f); [|done]. apply lookup_lt_Some in Hf. lia. }
  inv_ret. split_ltb (me_base x) min.
  - apply IH in H as (e & Hr & Hle & Hmn); [| | |lia].
    + exists e. split_and!; auto; [lia|]. intros j f Hj Hf.
      destruct (decide (j < i)%nat); [|apply (Hmn j f); [lia|done]].
      pose proof (Hall j f ltac:(lia) Hf). pose proof (Hmn i x ltac:(lia) ltac:(done)). lia.
    + eauto.
    + intros j f Hj Hf. assert (j = i) as -> by lia. simplify_eq. lia.
  - apply IH in H as (e & Hr & Hle & Hmn); [| | |lia]; [eauto 6| |].
    + eauto.
    + intros j f Hj Hf. destruct (decide (j = i)) as [->|]; [simplify_eq; lia|].
      apply (Hall j f); [lia|done].
Qed.

Lemma swap_perm {A} (pre mid post : list A) x y :
  pre ++ x :: mid ++ y :: post ≡ₚ pre ++ y :: mid ++ x :: post.
Proof. solve_Permutation. Qed.

(** The minimum of [post] moves to its front. *)
Lemma sort_step (m pre : list memmap_entry) e post k f m1 m2 :
  m = pre ++ e :: post -> m !! k = Some f -> (length pre <= k)%nat ->
  put m k e = Ret m1 -> put m1 (length pre) f = Ret m2 ->
  exists post', m2 = pre ++ f :: post' /\ f :: post' ≡ₚ e :: post.
Proof.
  intros -> Hk Hle Hp1 Hp2. inv_ret.
  destruct (decide (k = length pre)) as [->|Hne].
  - rewrite lookup_at in Hk. simplify_eq. exists post. by rewrite !insert_at.
  - rewrite lookup_app_r in Hk by lia.
    destruct (k - length pre)%nat as [|k'] eqn:Ek; [lia|]. simpl in Hk.
    exists (<[k':=e]> post).
    assert (k = (length pre + S k')%nat) as -> by lia.
    rewrite insert_app_r. simpl. rewrite insert_at. split; [done|].
    apply list_elem_of_split_length in Hk as (l1 & l2 & -> & ->).
    rewrite insert_at. apply (swap_perm [] l1 l2).
Qed.

Lemma san_sort_spec fuel pre post m' :
  StronglySorted base_le pre -> (forall x y, x ∈ pre -> y ∈ post -> base_le x y) ->
  san_sort fuel (pre ++ post) (length pre) = Ret m' ->
  m' ≡ₚ pre ++ post /\ StronglySorted base_le m'.
Proof.
  revert pre post. induction fuel as [|fuel IH]; intros pre post Hs Hle H;
    cbn [san_sort] in H; [done|].
  case_decide as Hlen; rewrite length_app in Hlen.
  2:{ inv_ret. split; [done|]. apply StronglySorted_app. split_and!; auto.
      destruct post as [|? [|? ?]]; simpl in Hlen; [constructor|repeat constructor|lia]. }
  destruct post as [|e post]; [simpl in Hlen; lia|].
  inv_ret. rewrite lookup_at in E. simplify_eq. rename x into e, x0 into k, x1 into f.
  apply san_min_spec in E0 as (f' & Hf' & Hk & Hmin); [| | |by right].
  2:{ exists e. by rewrite lookup_at. }
  2:{ intros j g Hj. lia. }
  simplify_eq.
  destruct (sort_step _ pre e post k f' _ (<[length pre:=f']> (<[k:=e]> (pre ++ e :: post)))
    eq_refl Hf' Hk (put_lt _ _ _ (lookup_lt_Some _ _ _ Hf'))) as (post' & Hm2 & Hp).
  { apply put_lt. rewrite length_insert, length_app. simpl. lia. }
  rewrite Hm2, snoc_at, (S_length _ f') in H. apply IH in H as [Hp' Hs'].
  - split; [|done]. rewrite Hp', <- app_assoc. simpl. by rewrite Hp.
  - apply StronglySorted_app. split_and!; auto; [|repeat constructor].
    intros x y Hx ->%list_elem_of_singleton. apply Hle; [done|]. rewrite <- Hp. by left.
  - assert (Hf : forall y, y ∈ e :: post -> base_le f' y).
    { intros y [j Hj]%list_elem_of_lookup. apply (Hmin (length pre + j)%nat y); [lia|].
      rewrite lookup_app_r by lia. by replace (length pre + j - length pre)%nat with j by lia. }
    intros x y [Hx| ->%list_elem_of_singleton]%elem_of_app Hy.
    + apply Hle; [done|]. rewrite <- Hp. by right.
    + apply Hf. rewrite <- Hp. by right.
Qed.

(** ** Merging *)

(** What a sanitised map satisfies. *)
Record sanitised (al keep : bool) (m : list memmap_entry) : Prop := {
  sn_clean : clean al m;
  sn_above : Forall (above keep) m;
  sn_sorted : StronglySorted base_le m
}.

Definition merged (e f : memmap_entry) : memmap_entry :=
  Entry (me_base e) (me_length e + me_length f) (me_type e).

Lemma good_merged al e f :
  good al e -> good al f -> me_type f = me_type e -> wf_entry e -> wf_entry f ->
  good al (merged e f).
Proof.
  intros He Hf Ht (? & ? & ?) (? & ? & ?) Hu. unfold is_usable in *.
  unfold good, is_usable in *. rewrite Ht in Hf.
  destruct (He Hu) as [? He2], (Hf Hu) as [? Hf2]. simpl. split; [lia|].
  intros Hal. destruct (He2 Hal), (Hf2 Hal). auto using Z.divide_add_r.
Qed.

Lemma usable_sep_merged e f x :
  me_type f = me_type e -> me_base f = me_base e + me_length e ->
  wf_entry e -> wf_entry f -> wf_entry x ->
  usable_sep e x -> usable_sep f x -> usable_sep (merged e f) x.
Proof.
  intros Ht Hb (? & ? & ?) (? & ? & ?) (? & ? & ?) He Hf Hu.
  unfold usable_sep, is_usable, sep in *. rewrite Ht in Hf. simpl in *.
  specialize (He Hu). specialize (Hf Hu). lia.
Qed.

Lemma merge_step al keep pre e f post :
  me_type f = me_type e -> me_base f = me_base e + me_length e ->
  sanitised al keep (pre ++ e :: f :: post) ->
  sanitised al keep (pre ++ merged e f :: post) /\
  (forall a t, covers (pre ++ merged e f :: post) a t <-> covers (pre ++ e :: f :: post) a t).
Proof.
  intros Ht Hb [Hc Ha Hs].
  assert (Hw : wf_entry e /\ wf_entry f).
  { pose proof (cl_wf _ _ Hc) as Hw. rewrite Forall_app, !Forall_cons in Hw. tauto. }
  split; [split|].
  - rewrite <- Permutation_middle. apply clean_cons.
    rewrite <- (Permutation_middle pre), <- (Permutation_middle pre) in Hc.
    apply clean_cons in Hc as (He1 & He2 & He3 & Hc). apply clean_cons in Hc as (Hf1 & Hf2 & Hf3 & Hc).
    apply Forall_cons in He3 as [_ He3]. pose proof (cl_wf _ _ Hc) as Hwx.
    split_and!; auto using good_merged.
    + destruct He1 as (? & ? & ?), Hf1 as (? & ? & ?). split_and!; simpl; lia.
    + rewrite Forall_forall in He3, Hf3, Hwx |- *. eauto using usable_sep_merged.
  - rewrite Forall_app, !Forall_cons in Ha. rewrite Forall_app, Forall_cons. split_and!; apply Ha.
  - apply StronglySorted_app in Hs as (Hs1 & Hs2 & Hs3). apply StronglySorted_app.
    apply StronglySorted_inv in Hs3 as [Hs3 He]. apply StronglySorted_inv in Hs3 as [Hs3 Hf].
    apply Forall_cons in He as [_ He]. split_and!; auto.
    + intros x y Hx [->|Hy]%elem_of_cons; [apply (Hs1 x e)|apply (Hs1 x y)]; set_solver.
    + by constructor.
  - intros a t. rewrite !covers_app, !covers_cons.
    assert (inside a (merged e f) <-> inside a e \/ inside a f) as ->.
    { destruct Hw as [(? & ? & ?) (? & ? & ?)]. unfold inside. simpl. lia. }
    rewrite Ht. tauto.
Qed.

Lemma san_merge_spec al keep fuel pre post m' :
  sanitised al keep (pre ++ post) -> san_merge fuel (pre ++ post) (length pre) = Ret m' ->
  sanitised al keep m' /\ (forall a t, covers m' a t <-> covers (pre ++ post) a t).
Proof.
  revert pre post. induction fuel as [|fuel IH]; intros pre post Hs H; cbn [san_merge] in H; [done|].
  case_decide as Hlen; rewrite length_app in Hlen; [|by inv_ret].
  destruct post as [|e [|f post]]; [simpl in Hlen; lia..|].
  assert (Hnext : san_merge fuel (pre ++ e :: f :: post) (S (length pre)) = Ret m' ->
    sanitised al keep m' /\ (forall a t, covers m' a t <-> covers (pre ++ e :: f :: post) a t)).
  { intros Hr. rewrite (S_length _ e), snoc_at in Hr. rewrite snoc_at in Hs |- *. by apply IH. }
  inv_ret. rewrite lookup_at in E. simplify_eq. rename x into e.
  destruct (mergeable (me_type e)); cbn [negb] in H; [|by apply Hnext].
  inv_ret. rewrite lookup_app_r in E by lia.
  replace (length pre + 1 - length pre)%nat with 1%nat in E by lia. simplify_eq/=.
  rename x into f.
  assert (Hw : wf_entry e /\ wf_entry f).
  { pose proof (cl_wf _ _ (sn_clean _ _ _ Hs)) as Hw. rewrite Forall_app, !Forall_cons in Hw. tauto. }
  rewrite (wf_top e) in H by tauto.
  destruct ((me_type f =? me_type e) && _) eqn:Hc; [|by apply Hnext].
  apply andb_true_iff in Hc as [Ht%Z.eqb_eq Hb%Z.eqb_eq]. inv_ret.
  destruct (merge_step al keep pre e f post Ht Hb Hs) as [Hs' Hcov].
  rewrite u64_small in H by (destruct Hw as [(?&?&?) (?&?&?)]; lia).
  change (Entry _ _ _) with (merged e f) in H.
  rewrite insert_at, Nat.add_1_r, (snoc_at pre), (S_length _ (merged e f)), delete_at in H.
  rewrite <- app_assoc in H. apply IH in H as [? Hc]; [|done].
  split; [done|]. intros a t. by rewrite Hc.
Qed.

(** ** The whole function *)

Lemma sanitise_spec keep m al m' :
  Forall wf_entry m -> pmm_sanitise_entries keep m al = Ret m' ->
  sanitised al keep m' /\
  (forall a t, t <> MEMMAP_USABLE -> covers m' a t <-> covers m a t) /\
  (forall a, covers m' a MEMMAP_USABLE -> covers m a MEMMAP_USABLE) /\
  (al = false -> forall a t, keep = true \/ 0x1000 <= a -> covers m a t -> exists t', covers m' a t').
Proof.
  intros Hw H. unfold pmm_sanitise_entries in H. inv_ret.
  apply (san_usable_spec al _ [] m) in E as [R1 D1]; [|done|apply done_pre_nil].
  assert (C1 : clean al x) by (split; [by apply R1| apply D1| apply D1]).
  apply (san_first_page_spec al keep _ [] x) in E0 as (R2 & C2 & A2); [|done|constructor].
  apply (san_sort_spec _ [] x0) in E1 as [P3 S3]; [|constructor|set_solver]. rewrite app_nil_l in *.
  apply (san_merge_spec al keep _ [] x1) in H as [S4 C4];
    [|split; [by rewrite P3|by rewrite P3|done]]. rewrite !app_nil_l in *.
  split_and!; auto.
  - intros a t Ht. rewrite C4, P3, (covers_other _ _ _ _ _ R2 Ht).
    by apply (covers_other _ _ _ _ _ R1).
  - intros a. rewrite C4, P3. intros Hc. by apply R1, R2.
  - intros Hal a t Ha Hc. destruct (sr_any _ _ _ R1 a t Hal Hc) as [t1 Hc1].
    destruct (sr_any _ _ _ R2 a t1 Ha Hc1) as [t2 Hc2]. exists t2. by rewrite C4, P3.
Qed.

(** In a map without overlaps a usable address is covered by nothing else. *)
Lemma clean_usable_only al m a t :
  clean al m -> covers m a MEMMAP_USABLE -> covers m a t -> t = MEMMAP_USABLE.
Proof.
  intros Hc (e & He & Het & Hei) (f & Hf & Hft & Hfi).
  destruct (decide (e = f)) as [->|Hne]; [congruence|]. exfalso.
  assert (Hs : usable_sep e f) by (apply (pairwise_elem _ m); auto using usable_sep_sym; apply Hc).
  assert (sep e f) as Hsep by (apply Hs; by left).
  unfold inside, sep in *. lia.
Qed.

(** ** Termination, and success on maps without overlaps *)

Definition inside_msg : string := "A non-usable memory map entry is inside a usable section.".

Lemma length_remove_entry m i : (i < length m)%nat -> length (remove_entry m i) = (length m - 1)%nat.
Proof.
  intros Hi. destruct (lookup_lt_is_Some_2 m i Hi) as [x Hx].
  apply list_elem_of_split_length in Hx as (pre & post & -> & ->).
  destruct (remove_at pre x post) as (post' & -> & Hp).
  rewrite !length_app, Hp. simpl. lia.
Qed.

Lemma san_overlaps_length fuel m i j m' :
  san_overlaps fuel m i j = Ret m' -> length m' = length m.
Proof.
  revert m j. induction fuel as [|fuel IH]; intros m j H; cbn [san_overlaps] in H; [done|].
  repeat case_decide; [by eapply IH| |by inv_ret].
  inv_ret. repeat case_match; inv_ret; try by rewrite length_insert.
  all: apply IH in H; by rewrite H, length_insert.
Qed.

Lemma san_overlaps_total (E : string -> Prop) fuel m i j :
  E inside_msg -> (i < length m)%nat -> (length m - j < fuel)%nat ->
  total E (san_overlaps fuel m i j).
Proof.
  intros HE. revert m j. induction fuel as [|fuel IH]; intros m j Hi Hf; [lia|].
  cbn [san_overlaps]. repeat case_decide; [apply IH; lia| |done].
  apply total_bind; [by apply total_get|]. intros ei _.
  apply total_bind; [by apply total_get|]. intros ej _.
  repeat case_match; auto using total_put.
  all: apply total_bind; [by apply total_put|].
  all: intros m1 Hp; inv_ret; apply IH; rewrite length_insert; lia.
Qed.

(** Nothing to trim: the inner loop leaves the map as it is. *)
Lemma san_overlaps_id fuel m i j e :
  Forall wf_entry m -> m !! i = Some e -> 0 < me_length e ->
  (forall k f, k <> i -> m !! k = Some f -> sep e f) ->
  (length m - j < fuel)%nat -> san_overlaps fuel m i j = Ret m.
Proof.
  intros Hw Hi Hl Hs. revert j. induction fuel as [|fuel IH]; intros j Hf; [lia|].
  cbn [san_overlaps]. repeat case_decide; [apply IH; lia| |done].
  destruct (lookup_lt_is_Some_2 m j) as [f Hj]; [done|].
  rewrite (get_lookup _ _ _ Hi), (get_lookup _ _ _ Hj). simpl.
  pose proof (Forall_lookup_1 _ _ _ _ Hw Hi) as (? & ? & ?).
  pose proof (Forall_lookup_1 _ _ _ _ Hw Hj) as (? & ? & ?).
  pose proof (Hs j f ltac:(done) Hj) as Hsep. unfold sep in Hsep.
  rewrite !(u64_small (me_base _ + me_length _)) by lia.
  assert (Hgo : put m i (Entry (me_base e) (u64 (me_base e + me_length e - me_base e)) (me_type e))
    ≫= (fun m => san_overlaps fuel m i (S j)) = Ret m).
  { rewrite u64_small by lia. replace (me_base e + me_length e - me_base e) with (me_length e) by lia.
    rewrite put_lt by (by eapply lookup_lt_Some). simpl.
    rewrite list_insert_id by (by destruct e). apply IH. lia. }
  repeat case_b; simpl in *; try lia; try exact Hgo.
  replace (me_base f + me_length f) with (me_base e) by lia. exact Hgo.
Qed.

Lemma san_usable_total (E : string -> Prop) fuel al m i :
  E inside_msg -> (length m - i < fuel)%nat -> total E (san_usable fuel al m i).
Proof.
  intros HE. revert m i. induction fuel as [|fuel IH]; intros m i Hf; [lia|].
  cbn [san_usable]. case_decide as Hi; [|done].
  apply total_bind; [by apply total_get|]. intros e _.
  case_match; [apply IH; lia|].
  apply total_bind; [by apply san_overlaps_total; auto; lia|]. intros m1 Hm1.
  apply san_overlaps_length in Hm1.
  apply total_bind; [apply total_get; lia|]. intros e1 _.
  assert (Hrem : forall l, length l = length m -> total E (san_usable fuel al (remove_entry l i) i)).
  { intros l Hl. apply IH. rewrite length_remove_entry; lia. }
  case_match; [by apply Hrem|].
  case_match; [|apply IH; lia].
  case_match. case_match.
  apply total_bind; [apply total_put; lia|]. intros m2 Hm2. inv_ret.
  case_match; [apply Hrem|apply IH]; rewrite length_insert; lia.
Qed.

(** On a map without overlaps the trimming pass returns. *)
Lemma san_usable_returns fuel al pre post :
  clean false (pre ++ post) -> (length post < fuel)%nat ->
  total (fun _ => False) (san_usable fuel al (pre ++ post) (length pre)).
Proof.
  revert pre post. induction fuel as [|fuel IH]; intros pre post Hc Hf; [lia|].
  cbn [san_usable]. case_decide as Hi; [|done]. rewrite length_app in Hi.
  destruct post as [|e post]; simpl in Hi, Hf; [lia|].
  rewrite (get_lookup _ _ e (lookup_at _ _ _)). cbn [mbind outcome_bind].
  assert (Hnext : forall x, clean false (pre ++ x :: post) ->
    total (fun _ => False) (san_usable fuel al (pre ++ x :: post) (S (length pre)))).
  { intros x Hx. rewrite (S_length _ x), snoc_at. rewrite snoc_at in Hx. apply IH; [done|lia]. }
  assert (Hdrop : forall x, total (fun _ => False)
      (san_usable fuel al (remove_entry (pre ++ x :: post) (length pre)) (length pre))).
  { intros x. destruct (remove_at pre x post) as (post' & -> & Hp).
    apply IH; [by eapply clean_removed|rewrite Hp; lia]. }
  destruct (Z.eqb_spec (me_type e) MEMMAP_USABLE) as [Hu|]; cbn [negb]; [|by apply Hnext].
  pose proof Hc as Hc2. rewrite <- Permutation_middle in Hc2.
  apply clean_cons in Hc2 as (Hw & Hg & Hs & _). destruct (Hg Hu) as [Hl _].
  rewrite (san_overlaps_id _ _ _ _ e); [|apply Hc|apply lookup_at|done| |lia].
  2:{ intros k f Hk Hf'. rewrite Forall_forall in Hs. apply Hs; [|by left].
      by eapply lookup_other. }
  cbn [mbind outcome_bind]. rewrite (get_lookup _ _ e (lookup_at _ _ _)). cbn [mbind outcome_bind].
  destruct (Z.eqb_spec (me_length e) 0); [lia|]. destruct al; [|by apply Hnext].
  destruct (align_entry (me_base e) (me_length e)) as [[b l] ok] eqn:Ea.
  rewrite put_lt by (rewrite length_app; simpl; lia). cbn [mbind outcome_bind]. rewrite insert_at.
  destruct ok; cbn [negb]; [|apply Hdrop]. apply Hnext.
  destruct Hw as (? & ? & ?). apply align_entry_spec in Ea as (_ & _ & ? & ? & ?); [|lia..].
  apply (clean_shrunk _ _ e); auto; simpl; try lia.
  - split_and!; simpl; lia.
  - intros _. simpl. split; [lia|done].
Qed.

Lemma san_first_page_total E fuel keep m i :
  (length m - i < fuel)%nat -> total E (san_first_page fuel keep m i).
Proof.
  revert m i. induction fuel as [|fuel IH]; intros m i Hf; [lia|].
  cbn [san_first_page]. case_decide as Hi; [|done].
  apply total_bind; [by apply total_get|]. intros e _.
  assert (Hrem : forall l, length l = length m -> total E (san_first_page fuel keep (remove_entry l i) i)).
  { intros l Hl. apply IH. rewrite length_remove_entry; lia. }
  repeat case_match; auto; try (apply IH; lia).
  all: apply total_bind; [by apply total_put|]; intros m1 Hm1; inv_ret.
  - apply Hrem. by rewrite length_insert.
  - apply IH. rewrite length_insert. lia.
Qed.

Lemma san_min_total E fuel m i min k :
  (length m - i < fuel)%nat -> total E (san_min fuel m i min k).
Proof.
  revert i min k. induction fuel as [|fuel IH]; intros i min k Hf; [lia|].
  cbn [san_min]. case_decide; [|done]. apply total_bind; [by apply total_get|]. intros e _.
  case_match; apply IH; lia.
Qed.

Lemma san_sort_total E fuel m p :
  (length m - p < fuel)%nat -> total E (san_sort fuel m p).
Proof.
  revert m p. induction fuel as [|fuel IH]; intros m p Hf; [lia|].
  cbn [san_sort]. case_decide; [|done].
  destruct (lookup_lt_is_Some_2 m p) as [ep Hp]; [lia|]. rewrite (get_lookup _ _ _ Hp). simpl.
  apply total_bind; [apply (san_min_total E (S (length m))); lia|]. intros k Hk.
  apply (san_min_spec (S (length m))) in Hk as (e & He & Hle & _); [|eauto| |by right].
  2:{ intros j f Hj. lia. }
  pose proof (lookup_lt_Some _ _ _ He). rewrite (get_lookup _ _ _ He). simpl.
  apply total_bind; [by apply total_put|]. intros m1 ?. inv_ret.
  apply total_bind; [apply total_put; rewrite length_insert; lia|]. intros m2 ?. inv_ret.
  apply IH. rewrite !length_insert. lia.
Qed.

Lemma san_merge_total E fuel m i :
  (length m - i < fuel)%nat -> total E (san_merge fuel m i).
Proof.
  revert m i. induction fuel as [|fuel IH]; intros m i Hf; [lia|].
  cbn [san_merge]. case_decide; [|done].
  apply total_bind; [apply total_get; lia|]. intros e _. case_match; [apply IH; lia|].
  apply total_bind; [apply total_get; lia|]. intros f _. case_match; [|apply IH; lia].
  apply total_bind; [apply total_put; lia|]. intros m1 ?. inv_ret.
  apply IH. rewrite length_delete; rewrite ?length_insert; [lia|].
  apply lookup_lt_is_Some. rewrite length_insert. lia.
Qed.

Lemma sanitise_passes_total (E : string -> Prop) keep m al :
  total E (san_usable (S (length m)) al m 0) -> total E (pmm_sanitise_entries keep m al).
Proof.
  intros H. unfold pmm_sanitise_entries. apply total_bind; [done|]. intros m1 _.
  apply total_bind; [apply san_first_page_total; lia|]. intros m2 _.
  apply total_bind; [apply san_sort_total; lia|]. intros m3 _. apply san_merge_total. lia.
Qed.

Lemma sanitise_returns keep m al :
  clean false m -> exists m', pmm_sanitise_entries keep m al = Ret m'.
Proof.
  intros Hc. apply total_Ret, sanitise_passes_total. apply (san_usable_returns _ al [] m); [done|lia].
Qed.

(** * Correctness of pmm_new_entry

    Carving a range out of a map removes exactly the addresses of the range
    from every entry; the new entry then holds them alone. *)

Section carving.
Context (base top : Z).

(** The entry does not meet the range. *)
Definition outside (e : memmap_entry) : Prop :=
  (me_base e + me_length e <= base /\ me_base e < base) \/ top <= me_base e.

Definition nested (e : memmap_entry) : Prop :=
  me_base e < base /\ top < me_base e + me_length e.

#[export] Instance nested_dec e : Decision (nested e).
Proof. unfold nested. apply _. Defined.

Definition nested_count (m : list memmap_entry) : nat := length (filter nested m).

(** The coverage outside of the range does not change. *)
Definition carve_rel (m m' : list memmap_entry) : Prop :=
  forall a t, ~ base <= a < top -> covers m' a t <-> covers m a t.

#[local] Instance carve_rel_preorder : PreOrder carve_rel.
Proof.
  split.
  - by intros m a t.
  - intros m1 m2 m3 H1 H2 a t Ha. by rewrite (H2 a t Ha), (H1 a t Ha).
Qed.

Record carved (m m' : list memmap_entry) : Prop := {
  cv_rel : carve_rel m m';
  cv_wf : Forall wf_entry m -> Forall wf_entry m';
  cv_clean : clean false m -> clean false m';
}.

#[local] Instance carved_preorder : PreOrder carved.
Proof.
  split.
  - intros m. by split.
  - intros m1 m2 m3 [A1 B1 C1] [A2 B2 C2]. split; auto. by transitivity m2.
Qed.

(** Replace [e] by parts [es] of it that lose only addresses of the range. *)
Lemma carve_rel_replace pre e post es post' :
  Forall (fun x => me_type x = me_type e) es -> post' ≡ₚ post ->
  (forall a, ~ base <= a < top -> inside a e <-> exists x, x ∈ es /\ inside a x) ->
  carve_rel (pre ++ e :: post) (pre ++ es ++ post').
Proof.
  intros Ht Hp Hi a t Ha. rewrite !covers_app, covers_cons, Hp, (Hi a Ha).
  assert (covers es a t <-> me_type e = t /\ exists x, x ∈ es /\ inside a x) as ->; [|tauto].
  rewrite Forall_forall in Ht. unfold covers. split.
  - intros (x & Hx & <- & Hxi). split; [symmetry; auto|eauto].
  - intros (<- & x & Hx & Hxi). exists x. auto.
Qed.

Lemma carved_removed pre e post post' :
  post' ≡ₚ post -> base <= me_base e -> me_base e + me_length e <= top ->
  carved (pre ++ e :: post) (pre ++ post').
Proof.
  intros Hp Hb Ht. split.
  - apply (carve_rel_replace pre e post [] post'); auto.
    intros a Ha. unfold inside. split; [lia|]. intros (x & Hx & _). by apply elem_of_nil in Hx.
  - rewrite !Forall_app, Forall_cons, Hp. tauto.
  - by apply clean_removed.
Qed.

Lemma carved_shrunk pre e e' post :
  me_type e' = me_type e -> wf_entry e' -> me_length e' <> 0 ->
  me_base e <= me_base e' -> me_base e' + me_length e' <= me_base e + me_length e ->
  (forall a, ~ base <= a < top -> inside a e -> inside a e') ->
  carved (pre ++ e :: post) (pre ++ e' :: post).
Proof.
  intros Ht Hw Hl Hb Htop Hi. split.
  - apply (carve_rel_replace pre e post [e'] post); auto.
    intros a Ha. setoid_rewrite list_elem_of_singleton. split; [eauto|].
    intros (x & -> & Hx). unfold inside in *. lia.
  - rewrite !Forall_app, !Forall_cons. tauto.
  - apply clean_shrunk; auto. destruct Hw as (? & ? & ?). intros _. split; [lia|done].
Qed.

(** The nested case: the entry is cut in two. *)
Lemma carved_split pre e post (lo := Entry (me_base e) (base - me_base e) (me_type e))
    (hi := Entry top (me_base e + me_length e - top) (me_type e)) :
  wf_entry e -> nested e -> base < top ->
  carved (pre ++ e :: post) (pre ++ lo :: post ++ [hi]).
Proof.
  intros (? & ? & ?) [Hb Ht] Hbt.
  assert (Wlo : wf_entry lo) by (split_and!; simpl; lia).
  assert (Whi : wf_entry hi) by (split_and!; simpl; lia).
  assert (Hp : pre ++ lo :: post ++ [hi] ≡ₚ lo :: hi :: pre ++ post) by solve_Permutation.
  split.
  - transitivity (pre ++ [lo; hi] ++ post).
    + apply (carve_rel_replace pre e post [lo; hi] post); auto.
      intros a Ha. split.
      * intros Hi. destruct (decide (a < base)); [exists lo|exists hi]; unfold inside in *; simpl;
          (split; [set_solver|lia]).
      * intros (x & [->| ->%list_elem_of_singleton]%elem_of_cons & Hi); unfold inside in *; simpl in *; lia.
    + intros a t _. apply covers_perm; auto. solve_Permutation.
  - rewrite Hp, Forall_app, !Forall_cons, Forall_app. tauto.
  - rewrite Hp, <- Permutation_middle, !clean_cons, Forall_cons. intros (_ & Hg & Hs & Hc).
    assert (Hsub : forall x y, me_type x = me_type e -> wf_entry x -> 0 < me_length x ->
      me_base e <= me_base x -> me_base x + me_length x <= me_base e + me_length e ->
      usable_sep e y -> usable_sep x y).
    { intros x y Hty (? & ? & ?) Hl ? ? He Hu. unfold usable_sep, is_usable, sep in *.
      rewrite Hty in Hu. specialize (He Hu). lia. }
    split_and!; auto.
    + intros _. simpl. split; [lia|done].
    + intros _. unfold sep. simpl. lia.
    + eapply Forall_impl; [done|]. intros y Hy. apply Hsub; auto; simpl; lia.
    + intros _. simpl. split; [lia|done].
    + eapply Forall_impl; [done|]. intros y Hy. apply Hsub; auto; simpl; lia.
Qed.

(** One round of the loop, by the position of the entry. *)
Lemma carve_spec fuel max pre post m' :
  base < top -> Forall wf_entry (pre ++ post) -> Forall outside pre ->
  carve fuel max (pre ++ post) base top (length pre) = Ret m' ->
  carved (pre ++ post) m' /\ Forall outside m'.
Proof.
  intros Hbt. revert pre post. induction fuel as [|fuel IH]; intros pre post Hw Ho H;
    cbn [carve] in H; [done|].
  case_decide as Hlen; rewrite length_app in Hlen.
  2:{ inv_ret. destruct post as [|p post]; [|simpl in Hlen; lia]. by rewrite app_nil_r. }
  destruct post as [|e post]; [simpl in Hlen; lia|].
  assert (Hnext : forall x p, carve fuel max (pre ++ x :: p) base top (S (length pre)) = Ret m' ->
    carved (pre ++ e :: post) (pre ++ x :: p) -> outside x ->
    carved (pre ++ e :: post) m' /\ Forall outside m').
  { intros x p Hr Hc Hx. pose proof (cv_wf _ _ Hc Hw) as Hw'.
    rewrite (S_length _ x), snoc_at in Hr. apply IH in Hr as [Hc' ?].
    - split; [|done]. transitivity (pre ++ x :: p); [done|]. by rewrite (snoc_at pre).
    - by rewrite <- snoc_at.
    - apply Forall_app. auto. }
  inv_ret. rewrite lookup_at in E. simplify_eq. rename x into e.
  assert (We : wf_entry e) by (rewrite Forall_app, Forall_cons in Hw; tauto).
  pose proof We as (W1 & W2 & W3). rewrite (add_overflow_lt _ _ W3) in H.
  destruct ((base <=? me_base e) && (me_base e + me_length e <=? top)) eqn:C1.
  { destruct (remove_at pre e post) as (post' & E & Hp). rewrite E in H.
    assert (Hc : carved (pre ++ e :: post) (pre ++ post')) by (apply carved_removed; auto; lia).
    apply IH in H as [Hc' ?]; auto; [|by apply Hc]. split; [by transitivity (pre ++ post')|done]. }
  destruct ((base <=? me_base e) && (top <? me_base e + me_length e) && (me_base e <? top)) eqn:C2.
  { inv_ret. rewrite insert_at in H.
    rewrite (u64_small (top - _)), !u64_small in H by lia.
    eapply Hnext; [done| |unfold outside; simpl; lia].
    apply carved_shrunk; unfold inside; simpl; auto; try lia. split_and!; simpl; lia. }
  destruct ((me_base e <? base) && (base <? me_base e + me_length e) && (me_base e + me_length e <=? top)) eqn:C3.
  { inv_ret. rewrite insert_at in H.
    rewrite (u64_small (me_base e + _ - _)), u64_small in H by lia.
    eapply Hnext; [done| |unfold outside; simpl; lia].
    apply carved_shrunk; unfold inside; simpl; auto; try lia. split_and!; simpl; lia. }
  destruct ((me_base e <? base) && (top <? me_base e + me_length e)) eqn:C4.
  { inv_ret. rewrite insert_at in H. case_decide; [done|].
    rewrite (u64_small (me_base e + _ - base)), !u64_small in H by lia.
    rewrite <- app_assoc in H. simpl in H.
    replace (me_length e - (me_base e + me_length e - base)) with (base - me_base e) in H by lia.
    eapply Hnext; [done| |unfold outside; simpl; lia].
    apply carved_split; auto. unfold nested. lia. }
  eapply Hnext; [done|done|]. unfold outside. lia.
Qed.

(** The step budget: an entry that is cut in two is visited twice. *)
Definition weight (m : list memmap_entry) : nat := length m + nested_count m.

Definition exhausted_msg : string := "Memory map exhausted.".

Lemma weight_cons e m :
  weight (e :: m) = ((if decide (nested e) then 2 else 1) + weight m)%nat.
Proof. unfold weight, nested_count. rewrite filter_cons. repeat case_decide; simpl; lia. Qed.

Lemma weight_perm m m' : m ≡ₚ m' -> weight m = weight m'.
Proof. intros Hp. unfold weight, nested_count. by rewrite Hp. Qed.

(** Ends as [total E], with at most [n] entries. *)
Definition total_upto (E : string -> Prop) (n : nat) (o : outcome (list memmap_entry)) : Prop :=
  match o with Ret m => (length m <= n)%nat | o => total E o end.

Lemma total_upto_le E n n' o : (n <= n')%nat -> total_upto E n o -> total_upto E n' o.
Proof. destruct o; simpl; auto. lia. Qed.

Lemma carve_total (E : string -> Prop) fuel max pre post :
  base < top -> Forall wf_entry post ->
  E exhausted_msg \/ (length pre + weight post <= max)%nat -> (weight post < fuel)%nat ->
  total_upto E (length pre + weight post) (carve fuel max (pre ++ post) base top (length pre)).
Proof.
  intros Hbt. revert pre post. induction fuel as [|fuel IH]; intros pre post Hw Hm Hf; [lia|].
  cbn [carve]. case_decide as Hlen; rewrite length_app in Hlen.
  2:{ simpl. rewrite length_app. unfold weight. lia. }
  destruct post as [|e post]; simpl in Hlen; [lia|].
  apply Forall_cons in Hw as [(W1 & W2 & W3) Hw].
  rewrite weight_cons in *.
  assert (exists w, (if decide (nested e) then 2 else 1)%nat = w /\ (1 <= w)%nat /\ (nested e -> w = 2%nat))
    as (w & Ew & Hw1 & Hw2) by (eexists; split; [done|]; case_decide; split; auto; done).
  rewrite Ew in *. clear Ew.
  assert (Hnext : forall x p, Forall wf_entry p -> (weight p < w + weight post)%nat ->
    total_upto E (length pre + (w + weight post))
      (carve fuel max (pre ++ x :: p) base top (S (length pre)))).
  { intros x p Hwp Hp. rewrite (S_length _ x), snoc_at.
    eapply total_upto_le; [|apply IH]; rewrite <- ?S_length; auto; [lia| |lia].
    destruct Hm; [by left|right]. lia. }
  assert (Hplain : (weight post < w + weight post)%nat) by lia.
  rewrite (get_lookup _ _ e (lookup_at _ _ _)). cbn [mbind outcome_bind].
  rewrite (add_overflow_lt _ _ W3). case_match.
  { destruct (remove_at pre e post) as (post' & -> & Hp). rewrite <- (weight_perm _ _ Hp) in *.
    eapply total_upto_le; [|apply IH]; auto; [lia|by rewrite Hp| |lia].
    destruct Hm; [by left|right]. lia. }
  rewrite !put_lt by (rewrite length_app; simpl; lia). cbn [mbind outcome_bind]. rewrite !insert_at.
  case_match; [by apply Hnext|]. case_match; [by apply Hnext|].
  case_match eqn:C; [|by apply Hnext].
  rewrite Hw2 in * by (unfold nested; lia). case_decide as Hmax.
  { destruct Hm as [|Hm]; [done|].
    rewrite length_app in Hmax. simpl in Hmax. unfold weight in *. lia. }
  rewrite <- app_assoc. simpl. apply Hnext.
  - apply Forall_app. split; [done|]. apply Forall_singleton.
    rewrite u64_small by lia. split_and!; simpl; lia.
  - rewrite (weight_perm _ (_ :: post)) by (by rewrite <- Permutation_cons_append).
    rewrite weight_cons, decide_False; [lia|]. unfold nested. simpl. lia.
Qed.
End carving.

(** ** pmm_new_entry *)

(** The new entry takes the range, everything else keeps its coverage. *)
Definition retyped (base top type : Z) (m : list memmap_entry) (a t : Z) : Prop :=
  (base <= a < top /\ t = type) \/ (~ base <= a < top /\ covers m a t).

Lemma new_entry_spec max m base length type m' :
  Forall wf_entry m -> 0 <= base -> 0 < length ->
  pmm_new_entry max m base length type = Ret m' ->
  Forall wf_entry m' /\ (clean false m -> clean false m') /\
  (forall a t, covers m' a t <-> retyped base (base + length) type m a t).
Proof.
  intros Hw Hb Hl H. unfold pmm_new_entry in H.
  destruct (add_overflow base length) as [top|] eqn:Eo; [|done].
  apply add_overflow_Some in Eo as [-> Ho]. inv_ret. case_decide; [done|]. inv_ret.
  destruct (carve_spec base (base + length) _ max [] m _ ltac:(lia) Hw (Forall_nil_2 _) E)
    as [[Hr Hwf Hc] Hout].
  set (n := Entry base length type).
  assert (Wn : wf_entry n) by (split_and!; simpl; lia).
  split_and!.
  - apply Forall_app. auto.
  - intros Hcl. rewrite <- Permutation_cons_append. apply clean_cons. split_and!; auto.
    + intros _. split; [simpl; lia|done].
    + eapply Forall_impl; [done|]. intros y Hy _. unfold outside, sep in *. simpl. lia.
  - intros a t. rewrite covers_app, covers_cons.
    assert (Hin : inside a n <-> base <= a < base + length) by done.
    assert (covers [] a t <-> False) as -> by (split; [apply covers_nil|done]).
    unfold retyped. rewrite Hin. simpl me_type.
    destruct (decide (base <= a < base + length)) as [Hd|Hd].
    + assert (~ covers x a t).
      { intros (e & He & _ & Hi). rewrite Forall_forall in Hout.
        specialize (Hout e He). unfold outside, inside in *. lia. }
      naive_solver.
    + rewrite (Hr a t Hd), app_nil_l. naive_solver.
Qed.

(** Enough room in the array: the call returns. *)
Lemma new_entry_returns max m base length type :
  Forall wf_entry m -> 0 <= base -> 0 < length -> base + length < W64 ->
  (weight base (base + length) m < max)%nat ->
  exists m', pmm_new_entry max m base length type = Ret m'.
Proof.
  intros Hw Hb Hl Ho Hm. unfold pmm_new_entry. rewrite add_overflow_lt by done.
  pose proof (carve_total base (base + length) (fun _ => False) (S (2 * List.length m)) max [] m)
    as Ht. cbn [app List.length] in Ht.
  specialize (Ht ltac:(lia) Hw ltac:(right; lia)).
  assert (weight base (base + length) m <= 2 * List.length m)%nat as Hwt.
  { unfold weight, nested_count. pose proof (length_filter (nested base (base + length)) m). lia. }
  specialize (Ht ltac:(lia)). destruct (carve _ _ _ _ _ _); simpl in Ht |- *; try done.
  rewrite decide_False by lia. eauto.
Qed.

(** In a map without overlaps only the entry that holds the range is cut. *)
Lemma weight_le_one base top m e :
  clean false m -> e ∈ m -> is_usable e -> me_base e <= base -> top <= me_base e + me_length e ->
  base < top -> (weight base top m <= S (List.length m))%nat.
Proof.
  intros Hc He Hu Hb Ht Hbt. apply list_elem_of_split in He as (l1 & l2 & ->).
  rewrite (weight_perm _ _ _ (e :: l1 ++ l2)), weight_cons by solve_Permutation.
  rewrite <- Permutation_middle in Hc. apply clean_cons in Hc as (_ & _ & Hs & _).
  assert (weight base top (l1 ++ l2) = List.length (l1 ++ l2)) as Hw.
  { unfold weight, nested_count.
    assert (filter (nested base top) (l1 ++ l2) = []) as ->; [|simpl; lia].
    induction Hs as [|x l Hx _ IH]; [done|]. rewrite filter_cons_False; [done|].
    intros [? ?]. unfold usable_sep, sep in Hx. specialize (Hx (or_introl Hu)). lia. }
  rewrite Hw, !length_app. simpl. case_decide; lia.
Qed.

(** ** Sanitising and carving maps without overlaps *)

Definition visible (keep : bool) (a t : Z) : Prop :=
  t = MEMMAP_USABLE -> keep = true \/ 0x1000 <= a.

Lemma sanitise_clean keep m m' :
  clean false m -> pmm_sanitise_entries keep m false = Ret m' ->
  sanitised false keep m' /\ forall a t, covers m' a t <-> covers m a t /\ visible keep a t.
Proof.
  intros Hc H. apply sanitise_spec in H as (Hs & Hne & Hu & Hk); [|apply Hc].
  split; [done|]. intros a t. destruct (decide (t = MEMMAP_USABLE)) as [->|Ht]; last first.
  { rewrite Hne by done. split; [|tauto]. intros ?. split; [done|]. by intros ->. }
  split.
  - intros Hm. split; [auto|]. intros _. destruct keep; [by left|right].
    destruct Hm as (e & He & Het & Hi). pose proof (sn_above _ _ _ Hs) as Ha.
    rewrite Forall_forall in Ha. specialize (Ha e He Het eq_refl). unfold inside in Hi. lia.
  - intros [Hm Hv]. destruct (Hk eq_refl a _ (Hv eq_refl) Hm) as [t' Ht'].
    destruct (decide (t' = MEMMAP_USABLE)) as [->|Hne']; [done|].
    rewrite Hne in Ht' by done. by apply (clean_usable_only _ _ _ _ Hc Hm) in Ht'.
Qed.

(** A successful call that is not a simulation. *)
Lemma alloc_range_spec keep max m base length type ov dp ne m' :
  clean false m -> 0 <= base -> 0 < length ->
  memmap_alloc_range_in keep max m base length type ov dp false ne = Ret (true, m') ->
  sanitised false keep m' /\
  forall a t, covers m' a t <-> retyped base (base + length) type m a t /\ visible keep a t.
Proof.
  intros Hc Hb Hl H. unfold memmap_alloc_range_in in H. rewrite (proj2 (Z.eqb_neq _ _)) in H by lia.
  cbn [andb] in H. destruct (add_overflow base length) as [top|]; [|by destruct dp].
  assert (Hgo : forall mm, pmm_new_entry max m base length type = Ret mm ->
    pmm_sanitise_entries keep mm false = Ret m' ->
    sanitised false keep m' /\
    forall a t, covers m' a t <-> retyped base (base + length) type m a t /\ visible keep a t).
  { intros mm H1 H2. apply new_entry_spec in H1 as (_ & Hcm & Hcov); [|apply Hc|done..].
    apply sanitise_clean in H2 as [? Hcov2]; [|auto]. split; [done|]. intros a t.
    by rewrite Hcov2, Hcov. }
  destruct (existsb _ m); [|destruct ne; [|by destruct dp]]; cbn [negb andb] in H; inv_ret; simplify_eq.
  all: by eapply Hgo.
Qed.
