(* ===== verification/Pmm.v ===== *)
(** * The physical memory allocator

    Models the allocator of common/mm/pmm.s2.c over the global memory map:
    [conv_mem_alloc], [ext_mem_alloc_type_aligned_mode] and its wrappers,
    [pmm_free], [pmm_realloc], [get_memmap], [init_memmap] (BIOS),
    [mmap_get_info], and [check_usable_memory] of common/mm/pmm.c.

    The globals are a record: the map, [allocations_disallowed], the static
    [base] of conv_mem_alloc, [pmm_sanitiser_keep_first_page], and the
    contents of physical memory, which [memset] and [memcpy] change.  The code
    is the x86-64 build where the preprocessor makes a difference (64-bit
    [size_t]); the array capacity [memmap_max_entries] is a parameter. *)

From S2P Require Import Prelude Memmap Sanitise.

Record pmm := Pmm {
  memmap : list memmap_entry;
  allocations_disallowed : bool;
  conv_base : Z;
  keep_first_page : bool;
  ram : Z -> Z
}.

Definition set_memmap (m : list memmap_entry) (st : pmm) : pmm :=
  Pmm m (allocations_disallowed st) (conv_base st) (keep_first_page st) (ram st).
Definition set_disallowed (b : bool) (st : pmm) : pmm :=
  Pmm (memmap st) b (conv_base st) (keep_first_page st) (ram st).
Definition set_conv_base (b : Z) (st : pmm) : pmm :=
  Pmm (memmap st) (allocations_disallowed st) b (keep_first_page st) (ram st).
Definition set_ram (r : Z -> Z) (st : pmm) : pmm :=
  Pmm (memmap st) (allocations_disallowed st) (conv_base st) (keep_first_page st) r.

(** [memset(p, c, n)] and [memcpy(d, s, n)] on physical memory. *)
Definition memset (r : Z -> Z) (p c n : Z) : Z -> Z :=
  fun a => if (p <=? a) && (a <? p + n) then u8 c else r a.
Definition memcpy (r : Z -> Z) (d s n : Z) : Z -> Z :=
  fun a => if (d <=? a) && (a <? d + n) then r (s + (a - d)) else r a.

Section allocator.
Context (memmap_max_entries : nat).

Definition memmap_alloc_range (st : pmm) (base length type overlay_type : Z)
    (do_panic simulation new_entry : bool) : outcome (bool * pmm) :=
  r ← memmap_alloc_range_in (keep_first_page st) memmap_max_entries (memmap st)
               base length type overlay_type do_panic simulation new_entry; let '(ok, m) := (r : bool * list memmap_entry) in
  Ret (ok, set_memmap m st).

(** [pmm_sanitise_entries(memmap, &memmap_entries, al)] *)
Definition sanitise_memmap (st : pmm) (al : bool) : outcome pmm :=
  m ← pmm_sanitise_entries (keep_first_page st) (memmap st) al;
  Ret (set_memmap m st).

Definition disallowed_msg : string := "Memory allocations disallowed".

(** ** conv_mem_alloc *)

(** The [for (;;)] of lines 30-46; [base] is the static variable. *)
Fixpoint conv_loop (fuel : nat) (st : pmm) (count : Z) : outcome (Z * pmm) :=
  match fuel with
  | O => Diverge
  | S fuel =>
    let base := conv_base st in
    if 0x100000 <? u64 (base + count) then Panic "Conventional memory allocation failed" else
    r ← memmap_alloc_range st base count MEMMAP_BOOTLOADER_RECLAIMABLE MEMMAP_USABLE
                  false false false; let '(ok, st) := (r : bool * pmm) in
    if ok then
      let st := set_ram (memset (ram st) base 0 count) st in
      let st := set_conv_base (u64 (base + count)) st in
      st ← sanitise_memmap st false;
      Ret (base, st)
    else conv_loop fuel (set_conv_base (u64 (base + 4096)) st) count
  end.

Definition conv_mem_alloc (st : pmm) (count : Z) : outcome (Z * pmm) :=
  if allocations_disallowed st then Panic disallowed_msg else
  conv_loop 257 st (ALIGN_UP count 4096).

(** ** ext_mem_alloc_type_aligned_mode *)

(** Lines 648-691: from entry [k - 1] down to entry 0.  [None]: no entry fits. *)
Fixpoint alloc_scan (k : nat) (st : pmm) (count type alignment limit : Z)
    : outcome (option (Z * pmm)) :=
  match k with
  | O => Ret None
  | S i =>
    e ← get (memmap st) i;
    if negb (me_type e =? 1) then alloc_scan i st count type alignment limit else
    let entry_base := s64 (me_base e) in
    let entry_top := s64 (u64 (me_base e + me_length e)) in
    let clipped := limit <? u64 entry_top in
    let entry_top := if clipped then s64 limit else entry_top in
    if clipped && (entry_top <=? entry_base) then alloc_scan i st count type alignment limit else
    let alloc_base := s64 (ALIGN_DOWN (u64 (entry_top - s64 count)) alignment) in
    if alloc_base <? entry_base then alloc_scan i st count type alignment limit else
    let aligned_length := s64 (entry_top - alloc_base) in
    r ← memmap_alloc_range st (u64 alloc_base) (u64 aligned_length) type MEMMAP_USABLE
                 true false false; let '(_, st) := (r : bool * pmm) in
    let st := set_ram (memset (ram st) (u64 alloc_base) 0 count) st in
    st ← sanitise_memmap st false;
    Ret (Some (u64 alloc_base, st))
  end.

Definition oom_msg : string := "High memory allocator: Out of memory".

Definition ext_mem_alloc_type_aligned_mode (st : pmm) (count type alignment : Z)
    (allow_high_allocs : bool) : outcome (Z * pmm) :=
  let count := ALIGN_UP count alignment in
  if allocations_disallowed st then Panic disallowed_msg else
  r ← alloc_scan (length (memmap st)) st count type alignment 0x100000000;
  match r with
  | Some res => Ret res
  | None =>
    if allow_high_allocs then
      r ← alloc_scan (length (memmap st)) st count type alignment (W64 - 1);
      match r with Some res => Ret res | None => Panic oom_msg end
    else Panic oom_msg
  end.

Definition ext_mem_alloc_type_aligned (st : pmm) (count type alignment : Z) :=
  ext_mem_alloc_type_aligned_mode st count type alignment false.

Definition ext_mem_alloc_type (st : pmm) (count type : Z) :=
  ext_mem_alloc_type_aligned st count type 4096.

Definition ext_mem_alloc (st : pmm) (count : Z) :=
  ext_mem_alloc_type st count MEMMAP_BOOTLOADER_RECLAIMABLE.

(** ** pmm_free and pmm_realloc *)

Definition pmm_free (st : pmm) (ptr count : Z) : outcome pmm :=
  let count := ALIGN_UP count 4096 in
  if allocations_disallowed st then Panic disallowed_msg else
  r ← memmap_alloc_range st ptr count MEMMAP_USABLE 0 false false true; let '(_, st) := (r : bool * pmm) in
  Ret st.

(** [None] is the null pointer. *)
Definition pmm_realloc (st : pmm) (old_ptr : option Z) (old_size new_size : Z)
    : outcome (option Z * pmm) :=
  if new_size =? 0 then
    match old_ptr with
    | Some p => st ← pmm_free st p old_size; Ret (None, st)
    | None => Ret (None, st)
    end
  else match old_ptr with
  | None => r ← ext_mem_alloc st new_size; let '(p, st) := (r : Z * pmm) in Ret (Some p, st)
  | Some old =>
    r ← ext_mem_alloc st new_size; let '(new, st) := (r : Z * pmm) in
    let st := set_ram (memcpy (ram st) new old (Z.min new_size old_size)) st in
    st ← pmm_free st old old_size;
    Ret (Some new, st)
  end.

(** ** get_memmap (BIOS build) *)

Definition get_memmap (st : pmm) : outcome (list memmap_entry * pmm) :=
  st ← sanitise_memmap st true;
  Ret (memmap st, set_disallowed true st).

(** ** init_memmap (BIOS build) *)

(** Lines 274-292 for one e820 entry: the entry to append, or [None] for
    [continue].  [EBDA] is the extended BIOS data area's address. *)
Definition init_entry (EBDA : Z) (e : memmap_entry) : option memmap_entry :=
  let top := u64 (me_base e + me_length e) in
  if me_type e =? MEMMAP_USABLE then
    if (EBDA <=? me_base e) && (me_base e <? 0x100000) then
      if top <=? 0x100000 then None else
      let e := Entry 0x100000 (u64 (me_length e - u64 (0x100000 - me_base e))) (me_type e) in
      if (EBDA <? top) && (top <=? 0x100000)
      then Some (Entry (me_base e) (u64 (me_length e - u64 (top - EBDA))) (me_type e))
      else Some e
    else if (EBDA <? top) && (top <=? 0x100000)
    then Some (Entry (me_base e) (u64 (me_length e - u64 (top - EBDA))) (me_type e))
    else Some e
  else Some e.

Fixpoint init_copy (EBDA : Z) (e820 m : list memmap_entry) : outcome (list memmap_entry) :=
  match e820 with
  | [] => Ret m
  | e :: e820 =>
    if decide (length m = memmap_max_entries) then Panic exhausted_msg else
    match init_entry EBDA e with
    | None => init_copy EBDA e820 m
    | Some e => init_copy EBDA e820 (m ++ [e])
    end
  end.

Definition init_memmap (st : pmm) (EBDA bss_end : Z) (e820 : list memmap_entry) : outcome pmm :=
  m ← init_copy EBDA e820 (memmap st);
  st ← sanitise_memmap (set_memmap m st) false;
  r ← memmap_alloc_range st 4096 (u64 (ALIGN_UP bss_end 4096 - 4096))
               MEMMAP_BOOTLOADER_RECLAIMABLE 0 true false false; let '(_, st) := (r : bool * pmm) in
  st ← sanitise_memmap st false;
  Ret (set_disallowed false st).
End allocator.
