(* ===== verification/PmmFacts.v ===== *)
(** * What the physical memory allocator guarantees *)

From S2P Require Import Prelude Memmap Sanitise Pmm.

(** Covered addresses and requested sizes stay below 2^62 (the hardware has
    at most 52 physical address bits), so that the allocator's signed
    arithmetic does not wrap. *)
Abbreviation W62 := 4611686018427387904%Z (only parsing).

Definition physical (m : list memmap_entry) : Prop := forall a t, covers m a t -> a < W62.

(** The invariant of the global map between calls. *)
Record pmm_inv (st : pmm) : Prop := {
  pi_san : sanitised false (keep_first_page st) (memmap st);
  pi_phys : physical (memmap st)
}.

Lemma pmm_inv_clean st : pmm_inv st -> clean false (memmap st).
Proof. intros H. apply H. Qed.

Lemma physical_usable m e : clean false m -> physical m -> e ∈ m -> is_usable e ->
  0 <= me_base e /\ 0 < me_length e /\ me_base e + me_length e <= W62.
Proof.
  intros [Hw _ Hg] Hp He Hu. rewrite Forall_forall in Hw, Hg.
  destruct (Hw e He) as (? & ? & ?), (Hg e He Hu) as [? _]. split_and!; auto.
  assert (me_base e + me_length e - 1 < W62); [|lia].
  apply (Hp _ MEMMAP_USABLE). exists e. unfold inside. split_and!; auto; lia.
Qed.

Lemma inv_visible st a t : pmm_inv st -> covers (memmap st) a t -> visible (keep_first_page st) a t.
Proof.
  intros Hi (e & He & Het & Hin) ->. destruct (keep_first_page st) eqn:Ek; [by left|right].
  pose proof (sn_above _ _ _ (pi_san _ Hi)) as Ha. rewrite Forall_forall in Ha.
  specialize (Ha e He Het Ek). unfold inside in Hin. lia.
Qed.

Section facts.
Context (max : nat).

(** A successful reservation of a non-empty range in the global map. *)
Lemma alloc_range_state st base length type ov dp ne st' :
  pmm_inv st -> 0 <= base -> 0 <= length -> base + length <= W62 ->
  memmap_alloc_range max st base length type ov dp false ne = Ret (true, st') ->
  pmm_inv st' /\ st' = set_memmap (memmap st') st /\
  forall a t, covers (memmap st') a t <->
    retyped base (base + length) type (memmap st) a t /\ visible (keep_first_page st) a t.
Proof.
  intros Hi Hb Hl Ht H. unfold memmap_alloc_range in H. inv_ret.
  destruct x as [ok m]. simpl in H. simplify_eq. destruct (decide (length = 0)) as [->|].
  { injection E as <-. split; [by destruct Hi|]. split; [by destruct st|]. intros a t. cbn. unfold retyped. split.
    - intros Hc. split; [right; split; [lia|done]|by eapply inv_visible].
    - intros [[[? _]|[_ ?]] _]; [lia|done]. }
  apply alloc_range_spec in E as [Hs Hc]; [|by apply pmm_inv_clean|done|lia]. split_and!; auto.
  split; [done|]. simpl. intros a t [[[? _]|[_ ?]] _]%Hc; [lia|]. by eapply Hi.
Qed.

Lemma sanitise_state st st' :
  pmm_inv st -> sanitise_memmap st false = Ret st' ->
  pmm_inv st' /\ st' = set_memmap (memmap st') st /\
  forall a t, covers (memmap st') a t <-> covers (memmap st) a t.
Proof.
  intros Hi H. unfold sanitise_memmap in H. inv_ret.
  apply sanitise_clean in E as [Hs Hc]; auto using pmm_inv_clean.
  assert (Hc' : forall a t, covers x a t <-> covers (memmap st) a t).
  { intros a t. rewrite Hc. split; [tauto|]. intros Hm. split; [done|]. intros ->.
    destruct (keep_first_page st) eqn:Ek; [by left|right].
    destruct Hm as (e & He & Het & Hin). pose proof (sn_above _ _ _ (pi_san _ Hi)) as Ha.
    rewrite Forall_forall in Ha. specialize (Ha e He Het Ek). unfold inside in Hin. lia. }
  split_and!; auto. split; [done|]. simpl. intros a t Hm%Hc'. by eapply Hi.
Qed.

(** ** The scan of the entries *)

Definition alloc_ok (count alignment : Z) : Prop :=
  0 <= count <= W62 /\ 0 < alignment <= W62 /\ (alignment | count).

Definition limit_ok (limit : Z) : Prop := 0 <= limit <= W62 \/ limit = W64 - 1.

(** The base the scan computes in an entry, with the wrap-around resolved. *)
Lemma scan_base b top count al :
  0 <= b -> 0 <= top <= W62 -> alloc_ok count al ->
  let p := s64 (ALIGN_DOWN (u64 (top - s64 count)) al) in
  (p < b \/ b <= p /\ p + count <= top < p + count + al) /\ (b <= p -> (al | p)) /\ - W63 <= p < W63 /\
  (b + count + al <= top -> b <= p).
Proof.
  intros Hb Ht ((? & ?) & (? & ?) & _). cbn zeta. rewrite (s64_small count) by lia.
  destruct (decide (count <= top)).
  - rewrite (u64_small (top - count)) by lia.
    destruct (ALIGN_DOWN_spec (top - count) al) as (k & Hk & Hr & Hp); [lia..|].
    rewrite s64_small by lia. split_and!; try lia. intros _. by exists k.
  - assert (u64 (top - count) = W64 + (top - count)) as ->.
    { unfold u64. rewrite <- (Z.mod_add _ 1) by lia. rewrite Z.mod_small by lia. lia. }
    destruct (ALIGN_DOWN_spec (W64 + (top - count)) al) as (k & Hk & Hr & Hp); [lia..|].
    assert (s64 (ALIGN_DOWN (W64 + (top - count)) al) = ALIGN_DOWN (W64 + (top - count)) al - W64) as ->.
    { unfold s64. rewrite <- (Z.mod_add _ (-1)) by lia. rewrite Z.mod_small by lia. lia. }
    split_and!; try lia.
Qed.

(** What a successful allocation of [count] bytes at [p] does: it takes
    [p, q) out of usable memory, gives it the type, clears [count] bytes. *)
Record allocated (st st' : pmm) (p q count type : Z) : Prop := {
  al_fit : 0 <= p /\ p + count <= q;
  al_free : forall a, p <= a < q -> covers (memmap st) a MEMMAP_USABLE;
  al_cov : forall a t, covers (memmap st') a t <->
    retyped p q type (memmap st) a t /\ visible (keep_first_page st) a t;
  al_inv : pmm_inv st';
  al_state : st' = set_ram (memset (ram st) p 0 count) (set_memmap (memmap st') st)
}.

Lemma reserve_clear st base length type count st1 st' ov dp ne :
  pmm_inv st -> 0 <= base -> 0 <= count <= length -> base + length <= W62 ->
  (forall a, base <= a < base + length -> covers (memmap st) a MEMMAP_USABLE) ->
  memmap_alloc_range max st base length type ov dp false ne = Ret (true, st1) ->
  sanitise_memmap (set_ram (memset (ram st1) base 0 count) st1) false = Ret st' ->
  allocated st st' base (base + length) count type.
Proof.
  intros Hi Hb Hl Ht Hfree H1 H2.
  apply alloc_range_state in H1 as (I1 & E1 & C1); auto; [|lia].
  apply sanitise_state in H2 as (I2 & E2 & C2); [|by destruct I1].
  split; auto; [lia| |].
  - intros a t. by rewrite C2, C1.
  - rewrite E2, E1. reflexivity.
Qed.

(** The end of the entry as the scan sees it, cut at the limit. *)
Lemma scan_top limit e :
  limit_ok limit -> 0 <= me_base e + me_length e <= W62 ->
  (if limit <? me_base e + me_length e then s64 limit else me_base e + me_length e)
  = Z.min limit (me_base e + me_length e).
Proof. intros [?| ->] ?; [case_b; [rewrite s64_small|]; lia|]. case_b; lia. Qed.

Lemma alloc_range_panics st base length type ov ok st' :
  memmap_alloc_range max st base length type ov true false false = Ret (ok, st') -> ok = true.
Proof.
  intros H. unfold memmap_alloc_range, memmap_alloc_range_in in H. inv_ret. destruct x as [o m].
  simpl in H. simplify_eq. repeat case_match; inv_ret; simplify_eq; done.
Qed.

Lemma alloc_scan_spec k st count type al limit p st' :
  pmm_inv st -> alloc_ok count al -> limit_ok limit ->
  alloc_scan max k st count type al limit = Ret (Some (p, st')) ->
  exists q, allocated st st' p q count type /\ (al | p) /\ q <= limit /\ q < p + count + al.
Proof.
  intros Hi Hok Hlim. pose proof Hok as ((Hc1 & Hc2) & (Ha1 & Ha2) & Hdiv).
  induction k as [|i IH]; intros H; cbn [alloc_scan] in H; [done|].
  inv_ret. rename x into e, E into He.
  destruct (Z.eqb_spec (me_type e) 1) as [Hu|]; cbn [negb] in H; [|auto].
  assert (Hin : e ∈ memmap st) by (by eapply list_elem_of_lookup_2).
  destruct (physical_usable _ e (pmm_inv_clean _ Hi) (pi_phys _ Hi) Hin Hu) as (? & ? & ?).
  rewrite (u64_small (me_base e + _)), !(s64_small (me_base e)), (s64_small (me_base e + _)),
    !(u64_small (me_base e + _)) in H by lia.
  rewrite !scan_top in H by (done || lia).
  set (top := Z.min limit (me_base e + me_length e)) in H.
  assert (0 <= top) by (subst top; destruct Hlim; lia).
  match goal with H : (if ?c then _ else _) = _ |- _ => destruct c; [auto|] end.
  destruct (scan_base (me_base e) top count al) as (Hp1 & Hp2 & Hp3 & _); [lia..|done|].
  set (ab := s64 (ALIGN_DOWN (u64 (top - s64 count)) al)) in *.
  destruct (Z.ltb_spec ab (me_base e)); [auto|].
  destruct Hp1 as [?|[_ Hp1]]; [lia|].
  rewrite (u64_small ab), (s64_small (top - ab)), (u64_small (top - ab)) in H by lia.
  inv_ret. destruct x as [ok st1]. simpl in H. inv_ret. simplify_eq.
  apply alloc_range_panics in E as Hok1. subst ok.
  exists top. split_and!; auto; [|lia|lia].
  replace top with (ab + (top - ab)) at 1 by lia.
  eapply reserve_clear; eauto; try lia.
  intros a Ha. exists e. unfold inside. split_and!; auto; lia.
Qed.

(** A range inside a usable entry can be reserved. *)
Lemma reserve_returns st base top type e :
  pmm_inv st -> e ∈ memmap st -> is_usable e -> me_base e <= base -> base < top ->
  top <= me_base e + me_length e -> (S (length (memmap st)) < max)%nat ->
  exists st1, memmap_alloc_range max st base (top - base) type MEMMAP_USABLE true false false
    = Ret (true, st1).
Proof.
  intros Hi Hin Hu Hb Hbt Ht Hmax. pose proof (pmm_inv_clean _ Hi) as Hc.
  destruct (physical_usable _ e Hc (pi_phys _ Hi) Hin Hu) as (? & ? & ?).
  unfold memmap_alloc_range, memmap_alloc_range_in.
  rewrite (proj2 (Z.eqb_neq (top - base) 0)) by lia. cbn [andb].
  rewrite add_overflow_lt by lia. replace (base + (top - base)) with top by lia.
  assert (existsb (holds_range MEMMAP_USABLE base top) (memmap st) = true) as ->.
  { apply existsb_exists. exists e. split; [by apply list_elem_of_In|].
    unfold holds_range. rewrite Hu, add_overflow_lt by lia. cbn. lia. }
  destruct (new_entry_returns max (memmap st) base (top - base) type) as [m1 Hm1]; try lia.
  { apply Hc. }
  { replace (base + (top - base)) with top by lia.
    pose proof (weight_le_one base top (memmap st) e Hc Hin Hu ltac:(lia) ltac:(lia) ltac:(lia)). lia. }
  rewrite Hm1. cbn [mbind outcome_bind].
  apply new_entry_spec in Hm1 as (_ & Hcm & _); [|apply Hc|lia..].
  destruct (sanitise_returns (keep_first_page st) m1 false (Hcm Hc)) as [m2 ->].
  eexists. reflexivity.
Qed.

Lemma sanitise_state_returns st : pmm_inv st -> exists st', sanitise_memmap st false = Ret st'.
Proof.
  intros Hi. unfold sanitise_memmap.
  destruct (sanitise_returns (keep_first_page st) (memmap st) false (pmm_inv_clean _ Hi)) as [m ->].
  eexists. reflexivity.
Qed.

(** A usable entry with room for the request makes the scan succeed. *)
Lemma alloc_scan_returns k st count type al limit i e :
  pmm_inv st -> alloc_ok count al -> 0 < count -> limit_ok limit ->
  (S (length (memmap st)) < max)%nat -> (k <= length (memmap st))%nat ->
  (i < k)%nat -> memmap st !! i = Some e -> is_usable e ->
  me_base e + count + al <= Z.min limit (me_base e + me_length e) ->
  exists r, alloc_scan max k st count type al limit = Ret (Some r).
Proof.
  intros Hi Hok Hpos Hlim Hmax Hk. pose proof Hok as ((Hc1 & Hc2) & (Ha1 & Ha2) & Hdiv).
  revert i e. induction k as [|k IH]; intros i e Hik He Hu Hroom; [lia|]. cbn [alloc_scan].
  destruct (lookup_lt_is_Some_2 (memmap st) k) as [f Hf]; [lia|].
  rewrite (get_lookup _ _ _ Hf). cbn [mbind outcome_bind].
  assert (Hskip : f <> e -> exists r, alloc_scan max k st count type al limit = Ret (Some r)).
  { intros Hne. apply (IH ltac:(lia) i e); auto. destruct (decide (k = i)); [|lia].
    by simplify_eq. }
  destruct (Z.eqb_spec (me_type f) 1) as [Hfu|Hfu]; cbn [negb].
  2:{ apply Hskip. intros ->. done. }
  assert (Hin : f ∈ memmap st) by (by eapply list_elem_of_lookup_2).
  destruct (physical_usable _ f (pmm_inv_clean _ Hi) (pi_phys _ Hi) Hin Hfu) as (? & ? & ?).
  rewrite (u64_small (me_base f + _)), !(s64_small (me_base f)), (s64_small (me_base f + _)),
    !(u64_small (me_base f + _)), !scan_top by (done || lia).
  set (top := Z.min limit (me_base f + me_length f)).
  assert (0 <= top) by (subst top; destruct Hlim; lia).
  destruct ((limit <? me_base f + me_length f) && (top <=? me_base f)) eqn:Hclip.
  { apply Hskip. intros ->. lia. }
  destruct (scan_base (me_base f) top count al) as (Hp1 & Hp2 & Hp3 & Hp4); [lia..|done|].
  set (ab := s64 (ALIGN_DOWN (u64 (top - s64 count)) al)) in *.
  destruct (Z.ltb_spec ab (me_base f)) as [Hlt|Hge].
  { apply Hskip. intros ->. lia. }
  destruct Hp1 as [?|[_ Hp1]]; [lia|].
  rewrite (u64_small ab), (s64_small (top - ab)), (u64_small (top - ab)) by lia.
  destruct (reserve_returns st ab top type f) as [st1 Hst1]; auto; try lia.
  rewrite Hst1. cbn [mbind outcome_bind].
  apply alloc_range_state in Hst1 as (I1 & _ & _); auto; try lia.
  destruct (sanitise_state_returns (set_ram (memset (ram st1) ab 0 count) st1)) as [st2 ->];
    [by destruct I1|]. simpl. eauto.
Qed.

(** Retyping a range runs out of entries at worst. *)
Lemma alloc_range_total (E : string -> Prop) st base length type ov dp ne :
  E exhausted_msg -> pmm_inv st -> 0 <= base -> 0 <= length -> base + length <= W62 ->
  length = 0 \/ dp = false \/ existsb (holds_range ov base (base + length)) (memmap st) = true ->
  total E (memmap_alloc_range max st base length type ov dp false ne).
Proof.
  intros HE Hi Hb Hl Ht Hdp. pose proof (pmm_inv_clean _ Hi) as Hcl. unfold memmap_alloc_range, memmap_alloc_range_in.
  destruct (decide (length = 0)) as [->|]; [done|]. destruct Hdp as [?|Hdp]; [done|].
  rewrite (proj2 (Z.eqb_neq length 0)), add_overflow_lt by lia. cbn [andb negb].
  assert (total E (m ← pmm_new_entry max (memmap st) base length type; m ← pmm_sanitise_entries (keep_first_page st) m false; Ret (true, m))) as Hgo.
  { apply total_bind.
    - unfold pmm_new_entry. rewrite add_overflow_lt by lia.
      pose proof (carve_total base (base + length) E
        (S (2 * List.length (memmap st))) max [] (memmap st) ltac:(lia) (cl_wf _ _ Hcl) (or_introl HE)) as Hc.
      assert (weight base (base + length) (memmap st) <= 2 * List.length (memmap st))%nat.
      { unfold weight, nested_count. pose proof (length_filter (nested base (base + length)) (memmap st)). lia. }
      specialize (Hc ltac:(lia)). cbn [app List.length] in Hc.
      destruct (carve _ _ _ _ _ _); simpl in Hc |- *; try done. by case_decide.
    - intros m1 Hm1. apply new_entry_spec in Hm1 as (_ & Hcm & _); [|apply Hcl|lia..].
      destruct (sanitise_returns (keep_first_page st) m1 false (Hcm Hcl)) as [m2 ->]. done. }
  apply total_bind; [|by intros []]. destruct (existsb _ _); [done|]. destruct Hdp as [->|]; [|done].
  by destruct ne.
Qed.

(** The scan ends, whatever the map. *)
Lemma alloc_scan_total (E : string -> Prop) k st count type al limit :
  E exhausted_msg -> pmm_inv st -> alloc_ok count al -> limit_ok limit -> (k <= length (memmap st))%nat ->
  total E (alloc_scan max k st count type al limit).
Proof.
  intros HE Hi Hok Hlim. pose proof Hok as ((Hc1 & Hc2) & (Ha1 & Ha2) & Hdiv).
  induction k as [|k IH]; intros Hk; cbn [alloc_scan]; [done|]. specialize (IH ltac:(lia)).
  destruct (lookup_lt_is_Some_2 (memmap st) k) as [f Hf]; [lia|].
  rewrite (get_lookup _ _ _ Hf). cbn [mbind outcome_bind].
  destruct (Z.eqb_spec (me_type f) 1) as [Hfu|Hfu]; cbn [negb]; [|done].
  assert (Hin : f ∈ memmap st) by (by eapply list_elem_of_lookup_2).
  destruct (physical_usable _ f (pmm_inv_clean _ Hi) (pi_phys _ Hi) Hin Hfu) as (? & ? & ?).
  rewrite (u64_small (me_base f + _)), !(s64_small (me_base f)), (s64_small (me_base f + _)),
    !(u64_small (me_base f + _)), !scan_top by (done || lia).
  set (top := Z.min limit (me_base f + me_length f)).
  assert (0 <= top) by (subst top; destruct Hlim; lia).
  match goal with |- total _ (if ?c then _ else _) => destruct c; [done|] end.
  destruct (scan_base (me_base f) top count al) as (Hp1 & Hp2 & Hp3 & _); [lia..|done|].
  set (ab := s64 (ALIGN_DOWN (u64 (top - s64 count)) al)) in *.
  destruct (Z.ltb_spec ab (me_base f)) as [Hlt|Hge]; [done|].
  destruct Hp1 as [?|[_ Hp1]]; [lia|].
  rewrite (u64_small ab), (s64_small (top - ab)), (u64_small (top - ab)) by lia.
  apply (total_bind E (memmap_alloc_range _ _ _ _ _ _ _ _ _)).
  - apply alloc_range_total; auto; try lia. destruct (decide (top = ab)); [left; lia|]. right. right. apply existsb_exists. exists f. split; [by apply list_elem_of_In|].
    unfold holds_range. rewrite Hfu, add_overflow_lt by lia. cbn. lia.
  - intros [ok st1] Har. apply alloc_range_panics in Har as Hok1. subst ok.
    apply alloc_range_state in Har as (I1 & _ & _); auto; try lia.
    destruct (sanitise_state_returns (set_ram (memset (ram st1) ab 0 count) st1)) as [st2 ->]; [by destruct I1|]. done.
Qed.

(** ** Conventional memory *)

(** A reservation inside an overlay type succeeds only within an entry of it. *)
Lemma alloc_range_overlay st base length type ov dp st' :
  0 < length -> ov <> 0 -> Forall wf_entry (memmap st) ->
  memmap_alloc_range max st base length type ov dp false false = Ret (true, st') ->
  forall a, base <= a < base + length -> covers (memmap st) a ov.
Proof.
  intros Hl Hov Hw H a Ha. unfold memmap_alloc_range, memmap_alloc_range_in in H.
  rewrite (proj2 (Z.eqb_neq length 0)) in H by lia. cbn [andb] in H.
  destruct (add_overflow base length) as [top|] eqn:Eo; [|by destruct dp].
  apply add_overflow_Some in Eo as [-> _].
  destruct (existsb _ (memmap st)) eqn:Ee; [|by destruct dp]. clear H.
  apply existsb_exists in Ee as (e & He%list_elem_of_In & Hh).
  rewrite Forall_forall in Hw. destruct (Hw e He) as (? & ? & ?).
  unfold holds_range in Hh. rewrite (proj2 (Z.eqb_neq ov 0) Hov), add_overflow_lt in Hh by done.
  exists e. unfold inside. destruct (Z.eqb_spec (me_type e) ov); cbn in Hh; [|done].
  split_and!; auto; lia.
Qed.

Lemma alloc_range_failed st base length type ov dp ne st' :
  memmap_alloc_range max st base length type ov dp false ne = Ret (false, st') -> st' = st.
Proof.
  unfold memmap_alloc_range, memmap_alloc_range_in. intros H. inv_ret. destruct x as [ok m].
  simpl in H. simplify_eq. repeat case_match; inv_ret; simplify_eq; by destruct st.
Qed.

Lemma conv_loop_spec fuel st count p st' :
  pmm_inv st -> 0 < count <= W62 -> 0 <= conv_base st <= 0x101000 ->
  conv_loop max fuel st count = Ret (p, st') ->
  exists st1, st1 = set_conv_base p st /\ conv_base st <= p /\ (4096 | p - conv_base st) /\
    p + count <= 0x100000 /\ conv_base st' = p + count /\
    pmm_inv st' /\ (forall a, p <= a < p + count -> covers (memmap st) a MEMMAP_USABLE) /\
    (forall a t, covers (memmap st') a t <->
      retyped p (p + count) MEMMAP_BOOTLOADER_RECLAIMABLE (memmap st) a t /\
      visible (keep_first_page st) a t) /\
    allocations_disallowed st' = allocations_disallowed st /\
    ram st' = memset (ram st) p 0 count.
Proof.
  intros Hi Hc. revert st Hi. induction fuel as [|fuel IH]; intros st Hi Hb H; cbn [conv_loop] in H; [done|].
  rewrite u64_small in H by lia.
  destruct (Z.ltb_spec 0x100000 (conv_base st + count)); [done|]. inv_ret. destruct x as [ok st1].
  simpl in H. destruct ok.
  - inv_ret. pose proof (alloc_range_overlay _ _ _ _ _ _ _ (proj1 Hc)
      (Z.neq_succ_diag_l 0 : MEMMAP_USABLE <> 0) (cl_wf _ _ (pmm_inv_clean _ Hi)) E) as Hfree.
    apply alloc_range_state in E as (I1 & E1 & C1); auto; [|lia..].
    apply sanitise_state in E0 as (I2 & E2 & C2); [|by destruct I1].
    exists (set_conv_base (conv_base st) st).
    rewrite E1 in E2. split_and!; auto; try lia.
    + exists 0. lia.
    + by rewrite E2.
    + intros a t. by rewrite C2, C1.
    + by rewrite E2.
    + by rewrite E2.
  - apply alloc_range_failed in E as ->. rewrite u64_small in H by lia.
    apply IH in H as (s1 & -> & H1 & H2 & H3 & H4 & H5 & H6 & H7 & H8 & H9);
      [|by destruct Hi|simpl; lia].
    simpl in *. eexists. split_and!; eauto; [lia|]. destruct H2 as [k Hk]. exists (k + 1). lia.
Qed.

(** The cursor passes 1 MiB after at most 256 steps. *)
Lemma conv_loop_total (E : string -> Prop) fuel st count :
  E exhausted_msg -> E "Conventional memory allocation failed" ->
  pmm_inv st -> 0 < count <= W62 -> 0 <= conv_base st <= 0x101000 ->
  0x101000 - conv_base st < 4096 * Z.of_nat fuel ->
  total E (conv_loop max fuel st count).
Proof.
  intros HE1 HE2 Hi Hc. revert st Hi. induction fuel as [|fuel IH]; intros st Hi Hb Hf; [lia|].
  cbn [conv_loop]. rewrite u64_small by lia.
  destruct (Z.ltb_spec 0x100000 (conv_base st + count)); [done|].
  apply total_bind.
  - apply alloc_range_total; auto; lia.
  - intros [ok st1] H1. simpl. destruct ok.
    + apply alloc_range_state in H1 as (I1 & E1 & C1); auto; [|lia..].
      destruct (sanitise_state_returns (set_conv_base (conv_base st + count)
        (set_ram (memset (ram st1) (conv_base st) 0 count) st1))) as [s2 ->]; [by destruct I1|]. done.
    + apply alloc_range_failed in H1 as ->. rewrite u64_small by lia.
      apply IH; [by destruct Hi|simpl; lia..].
Qed.
End facts.
