(* ===== verification/PmmSpec.v ===== *)
(** * The physical memory manager

    The theorems about the map and the allocators, and what the allocators leave
    alone. *)

From S2P Require Import Prelude Memmap Sanitise Pmm PmmFacts.

(** * Properties of the physical memory manager

    Theorems over Memmap.v and Pmm.v: the sanitiser, carving, the two
    allocators, freeing, and sequences of calls. *)

(** ** A concrete machine for the witnesses *)

Definition demo_raw : list memmap_entry :=
  [Entry 0x100000 0x700000 1; Entry 0 0x9fc00 1; Entry 0x9fc00 0x400 2; Entry 0x7ff000 0x2000 2].

Definition demo_map : list memmap_entry :=
  [Entry 0x1000 0x9ec00 1; Entry 0x9fc00 0x400 2; Entry 0x100000 0x6ff000 1; Entry 0x7ff000 0x2000 2].

Definition demo : pmm := Pmm demo_map false 0x1000 false (fun _ => 0xcc).

Lemma demo_raw_wf : Forall wf_entry demo_raw.
Proof. repeat constructor; simpl; lia. Qed.

Lemma physical_bound m : Forall (fun e => me_base e + me_length e <= W62) m -> physical m.
Proof.
  intros Hm a t (e & He & _ & Hi). rewrite Forall_forall in Hm. specialize (Hm e He).
  unfold inside in Hi. simpl in Hm. lia.
Qed.

Lemma demo_inv : pmm_inv demo.
Proof.
  split.
  - apply (sanitise_spec false demo_raw false); [apply demo_raw_wf|reflexivity].
  - apply physical_bound. repeat constructor; simpl; lia.
Qed.

Lemma demo_type : 0x1001 <> MEMMAP_USABLE.
Proof. discriminate. Qed.

(** ** The sanitiser *)

(** C22: after [pmm_sanitise_entries] the map is sorted by base, no usable entry
    overlaps any other entry, every usable entry is non-empty (and made of
    whole pages when alignment was asked for), and no usable entry reaches
    below 0x1000 unless the first page is kept. *)
Theorem sanitise_separates keep m al m' :
  Forall wf_entry m -> pmm_sanitise_entries keep m al = Ret m' ->
  StronglySorted base_le m' /\ Forall wf_entry m' /\
  (forall i j e f, m' !! i = Some e -> m' !! j = Some f -> i <> j -> is_usable e -> sep e f) /\
  (forall e, e ∈ m' -> is_usable e -> 0 < me_length e /\
     (al = true -> (PAGE_SIZE | me_base e) /\ (PAGE_SIZE | me_length e)) /\
     (keep = false -> 0x1000 <= me_base e)).
Proof.
  intros Hw H. apply sanitise_spec in H as ([[Hwf Hs Hg] Ha Hso] & _); [|done].
  split_and!; auto.
  - intros i j e f Hi Hj Hij Hu. apply list_elem_of_split_length in Hi as (pre & post & -> & ->).
    eapply (pairwise_perm _ _ (e :: pre ++ post)) in Hs; [|apply usable_sep_sym|solve_Permutation].
    apply pairwise_cons in Hs as [Hs _]. rewrite Forall_forall in Hs.
    apply (Hs f); [by eapply lookup_other|by left].
  - intros e He Hu. rewrite Forall_forall in Hg, Ha. destruct (Hg e He Hu). split_and!; auto.
    by apply Ha.
Qed.

Lemma sanitise_separates_witness :
  sep (Entry 0x1000 0x9ec00 1) (Entry 0x9fc00 0x400 2) /\ StronglySorted base_le demo_map.
Proof.
  destruct (sanitise_separates false demo_raw false demo_map demo_raw_wf eq_refl) as (Hs & _ & Hsep & _).
  split; [|exact Hs]. apply (Hsep 0%nat 1%nat); [reflexivity|reflexivity|lia|reflexivity].
Defined.

(** C19: the coverage after [pmm_sanitise_entries] (without page alignment) is
    exactly the coverage before, where an address stays usable just when no
    entry of another type covers it and the first page is kept or does not
    hold it.  No address is lost and none is invented. *)
Theorem sanitise_coverage keep m m' a t :
  Forall wf_entry m -> pmm_sanitise_entries keep m false = Ret m' ->
  covers m' a t <->
  covers m a t /\
  (t = MEMMAP_USABLE ->
     (forall t', covers m a t' -> t' = MEMMAP_USABLE) /\ (keep = true \/ 0x1000 <= a)).
Proof.
  intros Hw H. apply sanitise_spec in H as (Hs & Hne & Hu & Hk); [|done].
  destruct (decide (t = MEMMAP_USABLE)) as [->|Ht]; [|rewrite Hne by done; naive_solver].
  split.
  - intros Hm. split; [auto|]. intros _. split.
    + intros t' Ht'. destruct (decide (t' = MEMMAP_USABLE)) as [|Hn]; [done|].
      apply (clean_usable_only _ _ a t' (sn_clean _ _ _ Hs) Hm). by apply Hne.
    + destruct keep; [by left|right]. destruct Hm as (e & He & Het & Hi).
      pose proof (sn_above _ _ _ Hs) as Ha. rewrite Forall_forall in Ha.
      specialize (Ha e He Het eq_refl). unfold inside in Hi. lia.
  - intros [Hm Hx]. destruct (Hx eq_refl) as [Honly Hv].
    destruct (Hk eq_refl a _ Hv Hm) as [t' Ht'].
    destruct (decide (t' = MEMMAP_USABLE)) as [->|Hn]; [done|].
    apply Hne in Ht'; [|done]. by apply Honly in Ht'.
Qed.

Lemma sanitise_coverage_witness : covers demo_map 0x1000 MEMMAP_USABLE.
Proof.
  apply (sanitise_coverage false demo_raw demo_map 0x1000 1 demo_raw_wf eq_refl). split.
  - exists (Entry 0 0x9fc00 1). split_and!; [set_solver|done|unfold inside; simpl; lia].
  - intros _. split; [|right; lia]. intros t' (e & He & <- & Hi). unfold inside in Hi.
    unfold demo_raw in He. rewrite !elem_of_cons, elem_of_nil in He.
    destruct He as [->|[->|[->|[->|[]]]]]; simpl in *; lia || done.
Defined.

(** C29: [pmm_sanitise_entries] terminates on every array, well-formed or not,
    without leaving the array; the only panic is the one for an entry inside a
    usable one. *)
Theorem sanitise_terminates keep m al :
  total (fun msg => msg = "A non-usable memory map entry is inside a usable section."%string)
    (pmm_sanitise_entries keep m al).
Proof. apply sanitise_passes_total, san_usable_total; [done|lia]. Qed.

(** ** Carving a range *)

(** [pmm_new_entry] gives the range the new type, alone, and changes the
    type of no other address. *)
Theorem new_entry_retypes max m base length type m' a t :
  Forall wf_entry m -> 0 <= base -> 0 < length ->
  pmm_new_entry max m base length type = Ret m' ->
  Forall wf_entry m' /\
  (covers m' a t <->
   (base <= a < base + length /\ t = type) \/ (~ base <= a < base + length /\ covers m a t)).
Proof.
  intros Hw Hb Hl H. apply new_entry_spec in H as (Hw' & _ & Hc); auto.
Qed.

Lemma new_entry_retypes_witness : exists m', Forall wf_entry m' /\
  (covers m' 0x200000 0x1001 <->
   (0x200000 <= 0x200000 < 0x200000 + 0x3000 /\ 0x1001 = 0x1001) \/
   (~ 0x200000 <= 0x200000 < 0x200000 + 0x3000 /\ covers demo_map 0x200000 0x1001)).
Proof.
  eexists. apply (new_entry_retypes 512 demo_map 0x200000 0x3000 0x1001).
  - apply demo_inv.
  - lia.
  - lia.
  - reflexivity.
Defined.

(** ** The allocators *)

Lemma request_ok count al : 0 <= count -> 0 < al -> count + al <= W62 ->
  alloc_ok (ALIGN_UP count al) al /\ count <= ALIGN_UP count al < count + al.
Proof.
  intros Hc Ha Hs. destruct (ALIGN_UP_spec count al) as (k & Hk & Hr); [lia..|].
  split; [|lia]. split_and!; try lia. by exists k.
Qed.

Lemma ext_alloc_spec max st count type al high p st' (n := ALIGN_UP count al) :
  pmm_inv st -> 0 <= count -> 0 < al -> count + al <= W62 ->
  ext_mem_alloc_type_aligned_mode max st count type al high = Ret (p, st') ->
  exists q, allocated st st' p q n type /\ (al | p) /\
    (high = false -> q <= 0x100000000) /\ q < p + n + al.
Proof.
  intros Hi Hc Ha Hs H. destruct (request_ok count al Hc Ha Hs) as [Hok Hn]. fold n in Hok, Hn.
  unfold ext_mem_alloc_type_aligned_mode in H. fold n in H.
  destruct (allocations_disallowed st); [done|]. inv_ret. destruct x as [[p1 st1]|].
  - inv_ret. simplify_eq. apply alloc_scan_spec in E as (q & ? & ? & ? & ?); auto; [eauto 6|left; lia].
  - destruct high; [|done]. inv_ret. destruct x as [[p1 st1]|]; [|done]. inv_ret. simplify_eq.
    apply alloc_scan_spec in E0 as (q & ? & ? & ? & ?); auto; [|by right].
    exists q. split_and!; auto. done.
Qed.

(** C18: the block that [ext_mem_alloc_type_aligned_mode] returns is aligned,
    holds the request, lay entirely in usable memory and below 4 GiB unless
    high memory is allowed; it now has the requested type, no address outside
    of the reserved range changed type, the block is cleared, the rest of
    memory is untouched, and the invariant of the map holds again. *)
Theorem ext_mem_alloc_sound max st count type al high p st' (n := ALIGN_UP count al) :
  pmm_inv st -> 0 < count -> 0 < al -> count + al <= W62 ->
  ext_mem_alloc_type_aligned_mode max st count type al high = Ret (p, st') ->
  exists q, count <= n /\ 0 <= p /\ p + n <= q < p + n + al /\ (al | p) /\
    (high = false -> q <= 0x100000000) /\
    (forall a, p <= a < q -> covers (memmap st) a MEMMAP_USABLE) /\
    (forall a t, covers (memmap st') a t <->
       ((p <= a < q /\ t = type) \/ (~ p <= a < q /\ covers (memmap st) a t)) /\
       visible (keep_first_page st) a t) /\
    (forall a, p <= a < p + n -> ram st' a = 0) /\
    (forall a, ~ p <= a < p + n -> ram st' a = ram st a) /\
    pmm_inv st'.
Proof.
  intros Hi Hc Ha Hs H. destruct (request_ok count al ltac:(lia) Ha Hs) as [_ Hn]. fold n in Hn.
  apply ext_alloc_spec in H as (q & [Hf Hu Hcov Hinv Hst] & Hd & Hq & Hq2); auto; try lia. fold n in Hf, Hst, Hq2.
  exists q. split_and!; auto; try lia.
  - intros a Hr. rewrite Hst. simpl. unfold memset. by rewrite (proj2 (andb_true_iff _ _)) by lia.
  - intros a Hr. rewrite Hst. simpl. unfold memset. by rewrite (proj2 (andb_false_iff _ _)) by lia.
Qed.

Lemma ext_mem_alloc_sound_witness : exists p st',
  ext_mem_alloc_type_aligned_mode 512 demo 5000 0x1001 4096 false = Ret (p, st') /\ (4096 | p).
Proof.
  destruct (returns_Ret (ext_mem_alloc_type_aligned_mode 512 demo 5000 0x1001 4096 false))
    as [[p st'] E]; [vm_compute; reflexivity|].
  exists p, st'. split; [exact E|].
  destruct (ext_mem_alloc_sound 512 demo 5000 0x1001 4096 false p st' demo_inv
    ltac:(lia) ltac:(lia) ltac:(lia) E) as (q & _ & _ & _ & Hd & _). exact Hd.
Defined.



(** freeing a block right after allocating it restores the type of every
    address, up to the bytes the allocator reserved beyond the block. *)
Theorem alloc_free_roundtrip max st count type high p st1 st2 (n := ALIGN_UP count 4096) :
  pmm_inv st -> 0 < count -> count + 4096 <= W62 -> type <> MEMMAP_USABLE ->
  ext_mem_alloc_type_aligned_mode max st count type 4096 high = Ret (p, st1) ->
  pmm_free max st1 p count = Ret st2 ->
  pmm_inv st2 /\ exists q, p + n <= q < p + n + 4096 /\
    forall a t, ~ p + n <= a < q -> covers (memmap st2) a t <-> covers (memmap st) a t.
Proof.
  intros Hi Hc Hs Ht H1 H2.
  destruct (request_ok count 4096 ltac:(lia) ltac:(lia) Hs) as [((? & ?) & _) Hn]. fold n in Hn.
  apply ext_alloc_spec in H1 as (q & [[Hp Hq1] Hu Hcov I1 Est] & _ & _ & Hq2); auto; [|lia..].
  fold n in Hq1, Hq2, Est. assert (Ek : keep_first_page st1 = keep_first_page st) by (by rewrite Est).
  assert (Hpq : q <= W62).
  { assert (q - 1 < W62); [|lia]. eapply (pi_phys _ Hi). apply Hu. lia. }
  unfold pmm_free in H2. destruct (allocations_disallowed st1); [done|]. inv_ret.
  destruct x as [ok s2]. simpl in H2. simplify_eq.
  assert (ok = true) as ->.
  { unfold memmap_alloc_range, memmap_alloc_range_in in E. fold n in E.
    rewrite add_overflow_lt in E by lia. inv_ret. destruct x as [o m]. simpl in E. simplify_eq.
    repeat case_match; inv_ret; simplify_eq; done. }
  apply alloc_range_state in E as (I2 & _ & C2); auto; [|lia..]. fold n in C2.
  split; [done|]. exists q. split; [lia|]. intros a t Ha. rewrite C2. unfold retyped.
  destruct (decide (p <= a < p + n)) as [Hin|Hout].
  - assert (covers (memmap st) a MEMMAP_USABLE) as Hcu by (apply Hu; lia).
    split.
    + intros [[[_ ->]|[? _]] _]; [done|lia].
    + intros Hct. assert (t = MEMMAP_USABLE) as -> by exact (clean_usable_only _ _ _ _ (pmm_inv_clean _ Hi) Hcu Hct).
      split; [left; auto|]. rewrite Ek. by eapply inv_visible.
  - rewrite Hcov, Ek. unfold retyped. split.
    + intros [[[? _]|[_ [[[? _]|[_ ?]] _]]] _]; [lia|lia|done].
    + intros Hct. pose proof (inv_visible _ _ _ Hi Hct). split; [right|done].
      split; [done|]. split; [right; split; [lia|done]|done].
Qed.

Lemma alloc_free_roundtrip_witness : exists p st1 st2,
  ext_mem_alloc_type_aligned_mode 512 demo 5000 0x1001 4096 false = Ret (p, st1) /\
  pmm_free 512 st1 p 5000 = Ret st2 /\ pmm_inv st2.
Proof.
  destruct (returns_Ret (r ← ext_mem_alloc_type_aligned_mode 512 demo 5000 0x1001 4096 false;
    pmm_free 512 (snd r) (fst r) 5000)) as [st2 E]; [vm_compute; reflexivity|].
  apply bind_Ret_inv in E as ([p st1] & E1 & E2). cbn [fst snd] in E2.
  exists p, st1, st2. split; [exact E1|]. split; [exact E2|].
  refine (proj1 (alloc_free_roundtrip 512 demo 5000 0x1001 false p st1 st2 demo_inv _ _ demo_type E1 E2)).
  - lia.
  - lia.
Defined.

Lemma conv_alloc_spec max st count (n := ALIGN_UP count 4096) :
  pmm_inv st -> allocations_disallowed st = false -> 0x1000 <= conv_base st <= 0x101000 ->
  0 < count -> count + 4096 <= W62 ->
  total (fun msg => msg = exhausted_msg \/ msg = "Conventional memory allocation failed"%string)
    (conv_mem_alloc max st count) /\
  forall p st', conv_mem_alloc max st count = Ret (p, st') ->
    conv_base st <= p /\ (4096 | p - conv_base st) /\ p + n <= 0x100000 /\
    conv_base st' = p + n /\
    (forall a, p <= a < p + n -> covers (memmap st) a MEMMAP_USABLE) /\
    (forall a t, covers (memmap st') a t <->
      ((p <= a < p + n /\ t = MEMMAP_BOOTLOADER_RECLAIMABLE) \/
       (~ p <= a < p + n /\ covers (memmap st) a t)) /\ visible (keep_first_page st) a t) /\
    ram st' = memset (ram st) p 0 n /\ pmm_inv st'.
Proof.
  intros Hi Hd Hb Hc Hs. destruct (request_ok count 4096 ltac:(lia) ltac:(lia) Hs) as [((? & ?) & _) Hn].
  fold n in Hn. unfold conv_mem_alloc. rewrite Hd. fold n. split.
  - apply conv_loop_total; auto; lia.
  - intros p st' Hr. apply conv_loop_spec in Hr as (s1 & _ & ? & ? & ? & ? & ? & ? & ? & _ & ?); auto; [|lia..].
    split_and!; auto.
Qed.

(** [conv_mem_alloc] ends within its step budget; a returned block starts
    at or after the cursor on the same page offset, ends at or below 1 MiB,
    lay in usable memory, is now bootloader-reclaimable and cleared, the rest
    of the map keeps its types, and the cursor moves past the block. *)
Theorem conv_mem_alloc_sound max st count (n := ALIGN_UP count 4096) :
  pmm_inv st -> allocations_disallowed st = false -> 0x1000 <= conv_base st <= 0x101000 ->
  0 < count -> count + 4096 <= W62 ->
  total (fun msg => msg = exhausted_msg \/ msg = "Conventional memory allocation failed"%string)
    (conv_mem_alloc max st count) /\
  forall p st', conv_mem_alloc max st count = Ret (p, st') ->
    conv_base st <= p /\ (4096 | p - conv_base st) /\ p + n <= 0x100000 /\
    conv_base st' = p + n /\
    (forall a, p <= a < p + n -> covers (memmap st) a MEMMAP_USABLE) /\
    (forall a t, covers (memmap st') a t <->
      ((p <= a < p + n /\ t = MEMMAP_BOOTLOADER_RECLAIMABLE) \/
       (~ p <= a < p + n /\ covers (memmap st) a t)) /\ visible (keep_first_page st) a t) /\
    ram st' = memset (ram st) p 0 n /\ pmm_inv st'.
Proof. apply conv_alloc_spec. Qed.

Lemma conv_mem_alloc_sound_witness : exists p st',
  conv_mem_alloc 512 demo 8192 = Ret (p, st') /\ p + ALIGN_UP 8192 4096 <= 0x100000.
Proof.
  destruct (returns_Ret (conv_mem_alloc 512 demo 8192)) as [[p st'] E]; [vm_compute; reflexivity|].
  exists p, st'. split; [exact E|].
  destruct (conv_mem_alloc_sound 512 demo 8192 demo_inv eq_refl ltac:(simpl; lia) ltac:(lia) ltac:(lia))
    as [_ Hr].
  apply (Hr p st' E).
Defined.

(** ** Sequences of calls *)

(** States reachable by allocating and freeing, with the blocks that are
    allocated: [(p, n)] is the block of [n] bytes at [p]. *)
Inductive run (max : nat) : pmm -> list (Z * Z) -> Prop :=
| run_start st :
    pmm_inv st -> 0x1000 <= conv_base st <= 0x101000 -> run max st []
| run_ext st live count type al high p st' :
    run max st live -> type <> MEMMAP_USABLE -> 0 < count -> 0 < al -> count + al <= W62 ->
    ext_mem_alloc_type_aligned_mode max st count type al high = Ret (p, st') ->
    run max st' ((p, ALIGN_UP count al) :: live)
| run_conv st live count p st' :
    run max st live -> allocations_disallowed st = false -> 0 < count -> count + 4096 <= W62 ->
    conv_mem_alloc max st count = Ret (p, st') ->
    run max st' ((p, ALIGN_UP count 4096) :: live)
| run_free st l1 p n l2 count st' :
    run max st (l1 ++ (p, n) :: l2) -> ALIGN_UP count 4096 = n ->
    pmm_free max st p count = Ret st' -> run max st' (l1 ++ l2).

Definition in_block (a : Z) (b : Z * Z) : Prop := fst b <= a < fst b + snd b.

Definition disjoint (b c : Z * Z) : Prop := fst b + snd b <= fst c \/ fst c + snd c <= fst b.

(** What is known of an allocated block: its bytes are not usable memory. *)
Definition block_ok (m : list memmap_entry) (b : Z * Z) : Prop :=
  0 <= fst b /\ 0 < snd b /\ fst b + snd b <= W62 /\
  forall a, in_block a b -> exists t, t <> MEMMAP_USABLE /\ covers m a t.

Record run_inv (st : pmm) (live : list (Z * Z)) : Prop := {
  ri_inv : pmm_inv st;
  ri_cursor : 0x1000 <= conv_base st <= 0x101000;
  ri_blocks : Forall (block_ok (memmap st)) live;
  ri_disjoint : pairwise disjoint live
}.

(** A fresh block keeps the invariant. *)
Lemma run_inv_alloc st live p n q type st' :
  run_inv st live -> type <> MEMMAP_USABLE -> 0 <= p -> 0 < n -> p + n <= q ->
  pmm_inv st' -> 0x1000 <= conv_base st' <= 0x101000 ->
  (forall a, p <= a < q -> covers (memmap st) a MEMMAP_USABLE) ->
  (forall a t, covers (memmap st') a t <->
     retyped p q type (memmap st) a t /\ visible (keep_first_page st) a t) ->
  run_inv st' ((p, n) :: live).
Proof.
  intros [Hi Hcu Hbl Hdj] Ht Hp Hn Hq Hi' Hcu' Hfree Hcov.
  assert (Hdis : forall b, block_ok (memmap st) b -> fst b + snd b <= p \/ q <= fst b).
  { intros b (? & ? & ? & Hb). destruct (decide (fst b + snd b <= p \/ q <= fst b)); [done|exfalso].
    set (a := Z.max p (fst b)). destruct (Hb a) as (t & Ht1 & Ht2); [unfold in_block; lia|].
    apply Ht1. apply (clean_usable_only false (memmap st) a t (pmm_inv_clean _ Hi)); [|done].
    apply Hfree. lia. }
  split; auto.
  - constructor.
    + split_and!; simpl; try lia.
      * assert (p + n - 1 < W62); [|lia]. eapply (pi_phys _ Hi). apply Hfree. lia.
      * intros a Ha. exists type. split; [done|]. apply Hcov. unfold in_block in Ha. simpl in Ha.
        split; [left; split; [lia|done]|]. by intros ->.
    + eapply Forall_impl; [exact Hbl|]. intros b Hok. pose proof (Hdis b Hok).
      destruct Hok as (? & ? & ? & Hb). split_and!; auto. intros a Ha.
      destruct (Hb a Ha) as (t & Ht1 & Ht2). exists t. split; [done|]. apply Hcov.
      unfold in_block in Ha. split; [right; split; [lia|done]|]. by intros ->.
  - apply pairwise_cons. split; [|done]. eapply Forall_impl; [exact Hbl|].
    intros b Hok. pose proof (Hdis b Hok). unfold disjoint. simpl. lia.
Qed.

Lemma run_inv_free st l1 p n l2 count st' max :
  run_inv st (l1 ++ (p, n) :: l2) -> ALIGN_UP count 4096 = n -> pmm_free max st p count = Ret st' ->
  run_inv st' (l1 ++ l2).
Proof.
  intros [Hi Hcu Hbl Hdj] Hn H.
  rewrite Forall_app, Forall_cons in Hbl. destruct Hbl as (Hb1 & (? & ? & ? & _) & Hb2).
  eapply (pairwise_perm _ _ ((p, n) :: l1 ++ l2)) in Hdj;
    [|unfold disjoint; intros; lia|solve_Permutation].
  apply pairwise_cons in Hdj as [Hd Hdj]. simpl in *.
  unfold pmm_free in H. destruct (allocations_disallowed st); [done|]. inv_ret.
  destruct x as [ok s2]. simpl in H. simplify_eq.
  destruct ok; [|by apply alloc_range_failed in E as ->; split; auto; apply Forall_app].
  apply alloc_range_state in E as (I2 & E2 & C2); auto; [|lia]. rewrite E2. split; auto.
  - by rewrite <- E2.
  - assert (Hb : Forall (block_ok (memmap st)) (l1 ++ l2)) by (apply Forall_app; auto).
    rewrite Forall_forall in Hb, Hd |- *. intros b Hin.
    destruct (Hb b Hin) as (? & ? & ? & Hbc). specialize (Hd b Hin). split_and!; auto.
    intros a Ha. destruct (Hbc a Ha) as (t & Ht1 & Ht2). exists t. split; [done|]. apply C2.
    unfold in_block, disjoint in *. simpl in *. split; [right; split; [lia|done]|]. by intros ->.
Qed.

Lemma run_invariant max st live : run max st live -> run_inv st live.
Proof.
  induction 1 as [st Hi Hcu|st live count type al high p st' _ IH Ht Hc Ha Hs H
    |st live count p st' _ IH Hd Hc Hs H|st l1 p n l2 count st' _ IH Hn H].
  - split; auto; constructor.
  - destruct (request_ok count al ltac:(lia) Ha Hs) as [_ Hn].
    apply ext_alloc_spec in H as (q & [[Hp Hq] Hu Hcov I1 Est] & _); auto; [|apply IH|lia].
    eapply run_inv_alloc; eauto; [lia|]. rewrite Est. apply IH.
  - destruct (request_ok count 4096 ltac:(lia) ltac:(lia) Hs) as [_ Hn]. destruct IH as [Hi Hcu Hbl Hdj].
    destruct (conv_alloc_spec max st count Hi Hd Hcu Hc Hs) as [_ Hr].
    destruct (Hr p st' H) as (Hp & _ & Hq & Ecu & Hu & Hcov & _ & I1).
    apply (run_inv_alloc st live p _ (p + ALIGN_UP count 4096) MEMMAP_BOOTLOADER_RECLAIMABLE);
      auto; try lia. by split.
  - by eapply run_inv_free.
Qed.

(** C4: along any sequence of allocations (both allocators, any type but
    usable) and releases, the blocks that are allocated are pairwise disjoint,
    none of their bytes is usable memory, and the map keeps its invariant. *)
Theorem live_blocks_disjoint max st live :
  run max st live ->
  pmm_inv st /\
  (forall i j b c, live !! i = Some b -> live !! j = Some c -> i <> j -> disjoint b c) /\
  (forall b a, b ∈ live -> in_block a b -> ~ covers (memmap st) a MEMMAP_USABLE).
Proof.
  intros [Hi _ Hb Hd]%run_invariant. split_and!; auto.
  - intros i j b c Hi' Hj Hij. apply list_elem_of_split_length in Hi' as (pre & post & -> & ->).
    eapply (pairwise_perm _ _ (b :: pre ++ post)) in Hd;
      [|unfold disjoint; intros; lia|solve_Permutation].
    apply pairwise_cons in Hd as [Hd _]. rewrite Forall_forall in Hd.
    apply Hd. by eapply lookup_other.
  - intros b a Hin Ha Hu. rewrite Forall_forall in Hb. destruct (Hb b Hin) as (_ & _ & _ & Hc).
    destruct (Hc a Ha) as (t & Ht & Hct). apply Ht. by apply (clean_usable_only _ _ a t (pmm_inv_clean _ Hi)).
Qed.

Lemma live_blocks_disjoint_witness : exists st b c, run 512 st [b; c] /\ disjoint b c.
Proof.
  destruct (returns_Ret (r ← conv_mem_alloc 512 demo 8192;
    ext_mem_alloc_type_aligned_mode 512 (snd r) 5000 0x1001 4096 false)) as [[p2 st2] E];
    [vm_compute; reflexivity|].
  apply bind_Ret_inv in E as ([p1 st1] & E1 & E2). cbn [fst snd] in E2.
  assert (Hrun : run 512 st2 [(p2, ALIGN_UP 5000 4096); (p1, ALIGN_UP 8192 4096)]).
  { refine (run_ext 512 st1 _ 5000 0x1001 4096 false p2 st2 _ demo_type _ _ _ E2).
    2-4: lia.
    refine (run_conv 512 demo [] 8192 p1 st1 _ eq_refl _ _ E1); [|lia..].
    apply run_start; [apply demo_inv|simpl; lia]. }
  exists st2, (p2, ALIGN_UP 5000 4096), (p1, ALIGN_UP 8192 4096). split; [exact Hrun|].
  apply (live_blocks_disjoint 512 st2 _ Hrun) with (i := 0%nat) (j := 1%nat); [reflexivity|reflexivity|lia].
Defined.

(** The map handed to the kernel by [get_memmap] is sorted, its usable
    entries are whole pages that overlap nothing and cover only addresses
    that were usable, every other type keeps its exact coverage, and further
    allocations panic. *)
Theorem get_memmap_pages st m st' max count type al high :
  Forall wf_entry (memmap st) -> get_memmap st = Ret (m, st') ->
  StronglySorted base_le m /\ pairwise usable_sep m /\
  (forall e, e ∈ m -> is_usable e ->
     0 < me_length e /\ (PAGE_SIZE | me_base e) /\ (PAGE_SIZE | me_length e)) /\
  (forall a, covers m a MEMMAP_USABLE -> covers (memmap st) a MEMMAP_USABLE) /\
  (forall a t, t <> MEMMAP_USABLE -> covers m a t <-> covers (memmap st) a t) /\
  ext_mem_alloc_type_aligned_mode max st' count type al high = Panic disallowed_msg.
Proof.
  intros Hw H. unfold get_memmap, sanitise_memmap in H. inv_ret. simplify_eq.
  apply sanitise_spec in E0 as ([[_ Hs Hg] _ Hso] & Hne & Hu & _); [|done]. simpl.
  split_and!; auto. intros e He Hus. rewrite Forall_forall in Hg.
  destruct (Hg e He Hus) as [? Hal]. destruct (Hal eq_refl). done.
Qed.

Lemma get_memmap_pages_witness : exists m st', get_memmap demo = Ret (m, st') /\
  StronglySorted base_le m.
Proof.
  destruct (returns_Ret (get_memmap demo)) as [[m st'] E]; [vm_compute; reflexivity|].
  exists m, st'. split; [exact E|].
  apply (get_memmap_pages demo m st' 0 0 0 0 false (cl_wf _ _ (pmm_inv_clean _ demo_inv)) E).
Defined.

(** * What the allocator leaves alone

    Memory that is in use, that is not usable memory of the map, is neither written
    nor handed out by the allocator, whatever blocks are allocated and freed in
    between; the lemmas in which the clients of the allocator are verified. *)

Definition usable (st : pmm) (a : Z) : Prop := covers (memmap st) a MEMMAP_USABLE.

(** From [st] to [st'] memory was taken but none given that was not usable in
    [st], and memory in use in [st] was not written. *)
Record evolves (st st' : pmm) : Prop := {
  ev_inv : pmm_inv st';
  ev_keep : keep_first_page st' = keep_first_page st;
  ev_usable a : usable st' a -> usable st a;
  ev_ram a : ~ usable st a -> ram st' a = ram st a
}.

Lemma evolves_refl st : pmm_inv st -> evolves st st.
Proof. done. Qed.

Lemma evolves_trans st1 st2 st3 : evolves st1 st2 -> evolves st2 st3 -> evolves st1 st3.
Proof.
  intros [_ K1 U1 R1] [I2 K2 U2 R2]. split; [done|congruence|auto|].
  intros a Ha. rewrite R2, R1; auto.
Qed.

(** The panics of an allocation. *)
Definition page_error (msg : string) : Prop := msg = disallowed_msg \/ msg = oom_msg \/ msg = exhausted_msg.

Section frame.
Context (max : nat).

Lemma alloc_evolves st count type al p st' : pmm_inv st -> 0 <= count -> 0 < al -> count + al <= W62 -> type <> MEMMAP_USABLE ->
  ext_mem_alloc_type_aligned max st count type al = Ret (p, st') ->
  evolves st st' /\ 0 <= p /\ (al | p) /\ p + ALIGN_UP count al <= 0x100000000 /\
  (forall a, p <= a < p + ALIGN_UP count al -> usable st a /\ ~ usable st' a /\ ram st' a = 0).
Proof.
  intros Hi Hc Ha Hs Ht H. apply ext_alloc_spec in H as (q & [[Hp Hq] Hu Hcov I1 Est] & Hal & Hlim & _); auto.
  specialize (Hlim eq_refl).
  assert (forall a, usable st' a -> ~ p <= a < q /\ usable st a) as Hback.
  { intros a [[[_ ?]|?] _]%Hcov; [done|done]. }
  assert (forall a, ram st' a = memset (ram st) p 0 (ALIGN_UP count al) a) as Hram by (intros a; by rewrite Est).
  split_and!; auto; [|lia|].
  - split; [done|by rewrite Est|by intros a [_ ?]%Hback|]. intros a Hn. rewrite Hram. unfold memset.
    case_b; [|done]. case_b; [|done]. exfalso. apply Hn, Hu. lia.
  - intros a Hr. split_and!; [apply Hu; lia|by intros [? _]%Hback; lia|]. rewrite Hram. unfold memset.
    by rewrite (proj2 (Z.leb_le p a)), (proj2 (Z.ltb_lt a _)) by lia.
Qed.

Lemma alloc_total st count type al : pmm_inv st -> 0 <= count -> 0 < al -> count + al <= W62 ->
  total page_error (ext_mem_alloc_type_aligned max st count type al).
Proof.
  intros Hi Hc Ha Hs. unfold ext_mem_alloc_type_aligned, ext_mem_alloc_type_aligned_mode.
  destruct (request_ok count al) as [Hok _]; [done..|].
  destruct (allocations_disallowed st); [by left|]. apply total_bind.
  - apply alloc_scan_total; [by right; right|done|done|by left|done].
  - intros [res|] _; [done|]. right. by left.
Qed.

(** Freeing a block gives back its bytes and no others. *)
Lemma free_frame st p count st' : pmm_inv st -> 0 <= p -> 0 <= count -> p + ALIGN_UP count 4096 <= W62 ->
  pmm_free max st p count = Ret st' ->
  pmm_inv st' /\ keep_first_page st' = keep_first_page st /\ ram st' = ram st /\
  forall a, usable st' a -> usable st a \/ p <= a < p + ALIGN_UP count 4096.
Proof.
  intros Hi Hp Hc Hs H. unfold pmm_free in H. destruct (allocations_disallowed st); [done|]. inv_ret.
  destruct x as [ok st1]. cbn in H. simplify_eq. pose proof (u64_range (DIV_ROUNDUP count 4096 * 4096)) as [Hn _]. fold (ALIGN_UP count 4096) in Hn.
  destruct ok.
  - apply alloc_range_state in E as (I2 & E2 & C2); auto. rewrite E2. cbn. split_and!; try done; [by rewrite <- E2|].
    intros a [[[? _]|[_ ?]] _]%C2; auto.
  - apply alloc_range_failed in E as ->. split_and!; auto.
Qed.

(** A state that evolved from [st0], after freeing a block that was usable there. *)
Lemma free_evolves st0 st p count st' : evolves st0 st -> 0 <= p -> 0 <= count -> p + ALIGN_UP count 4096 <= W62 ->
  (forall a, p <= a < p + ALIGN_UP count 4096 -> usable st0 a) ->
  pmm_free max st p count = Ret st' -> evolves st0 st'.
Proof.
  intros [I K U R] Hp Hc Hs Hb H. apply free_frame in H as (I' & K' & R' & U'); auto.
  split; [done|congruence| |].
  - intros a [?|?]%U'; auto.
  - intros a Ha. rewrite R'. auto.
Qed.

Lemma free_total st p count : pmm_inv st -> 0 <= p -> 0 <= count -> p + ALIGN_UP count 4096 <= W62 ->
  total page_error (pmm_free max st p count).
Proof.
  intros Hi Hp Hc Hs. unfold pmm_free. destruct (allocations_disallowed st); [by left|]. apply total_bind; [|by intros []].
  pose proof (u64_range (DIV_ROUNDUP count 4096 * 4096)) as [Hn _]. fold (ALIGN_UP count 4096) in Hn.
  apply alloc_range_total; auto. by right; right.
Qed.

(** A request so large that the signed arithmetic of the scan wraps is not served:
    the base is either below every entry, or so far above that the end wraps. *)
Lemma scan_base_huge top count al : 0 <= top <= 0x100000000 -> 0x100000000 < count < W64 -> 0 < al < W64 -> (al | W63) -> (al | count) ->
  let p := s64 (ALIGN_DOWN (u64 (top - s64 count)) al) in p < 0 \/ top < p < W63.
Proof.
  intros Ht Hc Ha [h Hh] [c Hdiv]. cbn zeta. assert (0 < h) by nia. destruct (decide (count < W63)).
  - left. rewrite (s64_small count) by lia.
    assert (u64 (top - count) = W64 + (top - count)) as ->.
    { unfold u64. rewrite <- (Z.mod_add _ 1) by lia. rewrite Z.mod_small by lia. lia. }
    destruct (ALIGN_DOWN_spec (W64 + (top - count)) al) as (k & Hk & Hr & Hp); [lia..|].
    assert (W63 <= ALIGN_DOWN (W64 + (top - count)) al) as Hge.
    { assert ((h - 1) * al < k * al) as Hlt by lia. apply Z.mul_lt_mono_pos_r in Hlt; [|lia]. rewrite Hk, Hh. apply Z.mul_le_mono_nonneg_r; lia. }
    unfold s64. rewrite <- (Z.mod_add _ (-1)) by lia. rewrite Z.mod_small by lia. lia.
  - assert (s64 count = count - W64) as ->.
    { unfold s64. rewrite <- (Z.mod_add _ (-1)) by lia. rewrite Z.mod_small by lia. lia. }
    rewrite u64_small by lia.
    destruct (ALIGN_DOWN_spec (top - (count - W64)) al) as (k & Hk & Hr & Hp); [lia..|].
    assert (top < ALIGN_DOWN (top - (count - W64)) al).
    { assert (W64 - count = (2 * h - c) * al) as Hd by lia. assert (0 < 2 * h - c) by nia. nia. }
    destruct (decide (ALIGN_DOWN (top - (count - W64)) al < W63)); [right; rewrite s64_small; lia|left].
    unfold s64. rewrite <- (Z.mod_add _ (-1)) by lia. rewrite Z.mod_small by lia. lia.
Qed.

Lemma alloc_scan_huge k st count type al : pmm_inv st -> 0x100000000 < count < W64 -> 0 < al < W64 -> (al | W63) -> (al | count) ->
  (k <= length (memmap st))%nat ->
  match alloc_scan max k st count type al 0x100000000 with Ret None | Panic _ => True | _ => False end.
Proof.
  intros Hi Hc Ha Hal Hdiv. induction k as [|i IH]; intros Hk; cbn [alloc_scan]; [done|].
  destruct (lookup_lt_is_Some_2 (memmap st) i ltac:(lia)) as [e He]. rewrite (get_lookup _ _ _ He). cbn [mbind outcome_bind].
  specialize (IH ltac:(lia)). destruct (Z.eqb_spec (me_type e) 1) as [Hu|]; cbn [negb]; [|done].
  assert (Hin : e ∈ memmap st) by (by eapply list_elem_of_lookup_2).
  destruct (physical_usable _ e (pmm_inv_clean _ Hi) (pi_phys _ Hi) Hin Hu) as (? & ? & ?).
  rewrite (u64_small (me_base e + _)), !(s64_small (me_base e)), (s64_small (me_base e + _)),
    !(u64_small (me_base e + _)) by lia.
  rewrite !scan_top by (lia || (left; lia)).
  set (top := Z.min 0x100000000 (me_base e + me_length e)).
  assert (0 <= top <= 0x100000000) by (subst top; lia).
  match goal with |- context [_ && ?c] => destruct (_ && c); [done|] end.
  pose proof (scan_base_huge top count al ltac:(lia) Hc Ha Hal Hdiv) as Hp. cbn zeta in Hp.
  set (ab := s64 (ALIGN_DOWN (u64 (top - s64 count)) al)) in *.
  destruct (Z.ltb_spec ab (me_base e)); [done|]. destruct Hp as [?|Hp]; [lia|].
  rewrite (u64_small ab), (s64_small (top - ab)) by lia.
  assert (u64 (top - ab) = W64 + (top - ab)) as Hu64.
  { unfold u64. rewrite <- (Z.mod_add _ 1) by lia. rewrite Z.mod_small by lia. lia. }
  rewrite Hu64. unfold memmap_alloc_range, memmap_alloc_range_in.
  assert (add_overflow ab (W64 + (top - ab)) = None) as Hov by (unfold add_overflow; case_b; [lia|done]).
  rewrite (proj2 (Z.eqb_neq _ _)), Hov by lia. done.
Qed.

Lemma ALIGN_UP_mult count al : 0 < al -> (al | W64) -> (al | ALIGN_UP count al).
Proof.
  intros Ha Hal. unfold ALIGN_UP, u64. apply Z.mod_divide; [lia|].
  rewrite (Z.mod_mod_divide _ _ _ Hal); apply Z.mod_mul; lia.
Qed.

Lemma ALIGN_UP_again n al : 0 < al -> 0 <= n -> n + al <= W64 -> (al | n) -> ALIGN_UP n al = n.
Proof.
  intros Ha Hn Hw [c ->]. destruct (ALIGN_UP_spec (c * al) al) as (k & Hk & Hr); [lia..|].
  rewrite Hk in *. assert (k = c) by nia. by subst.
Qed.

(** A block that is handed out lies below 4 GiB, whatever was asked for. *)
Lemma alloc_bounded st count type al p st' : pmm_inv st -> 0 < al < W64 -> (al | W63) ->
  ext_mem_alloc_type_aligned max st count type al = Ret (p, st') -> ALIGN_UP count al <= 0x100000000.
Proof.
  intros Hi Ha Hal H. unfold ext_mem_alloc_type_aligned, ext_mem_alloc_type_aligned_mode in H.
  destruct (allocations_disallowed st); [done|]. apply bind_Ret_inv in H as ([r|] & E & H); [|done].
  apply Z.nlt_ge. intros Hn. pose proof (u64_range (DIV_ROUNDUP count al * al)) as Hr. fold (ALIGN_UP count al) in Hr.
  pose proof (alloc_scan_huge (length (memmap st)) st (ALIGN_UP count al) type al Hi ltac:(lia) Ha Hal) as Hh. rewrite E in Hh. apply Hh; [|done].
  apply ALIGN_UP_mult; [lia|]. change W64 with (W63 * 2). by apply Z.divide_mul_l.
Qed.

Lemma alloc_total_any st count type al : pmm_inv st -> 0 < al <= W62 -> (al | W63) ->
  total (fun _ => True) (ext_mem_alloc_type_aligned max st count type al).
Proof.
  intros Hi Ha Hal. unfold ext_mem_alloc_type_aligned, ext_mem_alloc_type_aligned_mode. destruct (allocations_disallowed st); [done|].
  pose proof (u64_range (DIV_ROUNDUP count al * al)) as Hr. fold (ALIGN_UP count al) in Hr.
  assert (al | ALIGN_UP count al) as Hm. { apply ALIGN_UP_mult; [lia|]. change W64 with (W63 * 2). by apply Z.divide_mul_l. }
  apply total_bind; [|by intros []]. destruct (decide (ALIGN_UP count al <= W62)).
  - apply alloc_scan_total; [done|done|split_and!; (lia || done)|by left|done].
  - pose proof (alloc_scan_huge (length (memmap st)) st (ALIGN_UP count al) type al Hi ltac:(lia) ltac:(lia) Hal Hm ltac:(done)) as Hh.
    by destruct (alloc_scan _ _ _ _ _ _ _) as [[]| | |].
Qed.

Lemma alloc_evolves_any st count type al p st' : pmm_inv st -> 0 < al <= W62 -> (al | W63) -> type <> MEMMAP_USABLE ->
  ext_mem_alloc_type_aligned max st count type al = Ret (p, st') ->
  evolves st st' /\ 0 <= p /\ (al | p) /\ p + ALIGN_UP count al <= 0x100000000 /\
  (forall a, p <= a < p + ALIGN_UP count al -> usable st a /\ ~ usable st' a /\ ram st' a = 0).
Proof.
  intros Hi Ha Hal Ht H. assert (0 < al < W64) as Ha' by lia. pose proof (alloc_bounded st count type al p st' Hi Ha' Hal H) as Hn.
  pose proof (u64_range (DIV_ROUNDUP count al * al)) as Hr. fold (ALIGN_UP count al) in Hr.
  assert (al | W64) as Hal' by (change W64 with (W63 * 2); by apply Z.divide_mul_l).
  destruct (decide (al <= 0x100000000)) as [Hal32|].
  - assert (ALIGN_UP (ALIGN_UP count al) al = ALIGN_UP count al) as Ei by (apply ALIGN_UP_again; [lia..|by apply ALIGN_UP_mult; [lia|]]).
    rewrite <- Ei. apply (alloc_evolves st (ALIGN_UP count al) type); [done|lia..|done|].
    unfold ext_mem_alloc_type_aligned, ext_mem_alloc_type_aligned_mode. by rewrite Ei.
  - assert (ALIGN_UP count al = 0) as E0. { destruct (ALIGN_UP_mult count al ltac:(lia) Hal') as [k Hk]. rewrite Hk in *. assert (k < 1) by nia. nia. }
    assert (ALIGN_UP 0 al = 0) as Ei by (apply ALIGN_UP_again; [lia..|apply Z.divide_0_r]).
    replace (ALIGN_UP count al) with (ALIGN_UP 0 al) by lia. apply (alloc_evolves st 0 type); [done|lia..|done|].
    unfold ext_mem_alloc_type_aligned, ext_mem_alloc_type_aligned_mode in *. by replace (ALIGN_UP 0 al) with (ALIGN_UP count al) by lia.
Qed.
End frame.
