(* ===== verification/MemInfo.v ===== *)
(** * Queries on the memory map

    Models [check_usable_memory] and [full_overlap_check] of common/mm/pmm.c,
    which decide whether a kernel may be loaded at a fixed physical range, and
    [mmap_get_info] of common/mm/pmm.s2.c, the lower/upper memory sizes of the
    Multiboot information. *)

From S2P Require Import Prelude Memmap Sanitise.

(** ** check_usable_memory *)

Definition full_overlap_check (base1 top1 base2 top2 : Z) : bool :=
  ((base2 <=? base1) && (base1 <? top2)) && ((base2 <? top1) && (top1 <=? top2)).

(** The types that are real RAM; [MEMMAP_EFI_RECLAIMABLE] in the UEFI build. *)
Definition is_ram (uefi : bool) (t : Z) : bool :=
  (t =? MEMMAP_USABLE) || (uefi && (t =? MEMMAP_EFI_RECLAIMABLE))
  || (t =? MEMMAP_BOOTLOADER_RECLAIMABLE) || (t =? MEMMAP_KERNEL_AND_MODULES).

(** Lines 17-47. *)
Fixpoint usable_scan (uefi : bool) (m : list memmap_entry) (base top overlap_remaining : Z) : bool :=
  match m with
  | [] => false
  | e :: m =>
    if negb (is_ram uefi (me_type e)) then usable_scan uefi m base top overlap_remaining else
    let memmap_top := u64 (me_base e + me_length e) in
    if full_overlap_check base top (me_base e) memmap_top then true else
    if (me_base e <? top) && (base <? memmap_top) then
      let overlap_bottom := if base <? me_base e then me_base e else base in
      let overlap_top := if memmap_top <? top then memmap_top else top in
      let overlap_size := u64 (overlap_top - overlap_bottom) in
      let overlap_remaining := u64 (overlap_remaining - overlap_size) in
      if overlap_remaining =? 0 then true
      else usable_scan uefi m base top overlap_remaining
    else usable_scan uefi m base top overlap_remaining
  end.

Definition check_usable_memory (uefi : bool) (m : list memmap_entry) (base top : Z) : bool :=
  usable_scan uefi m base top (u64 (top - base)).

(** ** mmap_get_info *)

(** One round of the [for] of lines 716-729. *)
Fixpoint info_pass (m : list memmap_entry) (lower_end upper_end : Z) (progress : bool)
    : Z * Z * bool :=
  match m with
  | [] => (lower_end, upper_end, progress)
  | e :: m =>
    if negb (me_type e =? MEMMAP_USABLE) then info_pass m lower_end upper_end progress else
    let base := me_base e in
    let top := u64 (base + me_length e) in
    let '(lower_end, progress) :=
      if (base <=? lower_end) && (lower_end <? top) then (top, true) else (lower_end, progress) in
    let '(upper_end, progress) :=
      if (base <=? upper_end) && (upper_end <? top) then (top, true) else (upper_end, progress) in
    info_pass m lower_end upper_end progress
  end.

(** The [do ... while (progress)] of lines 714-730. *)
Fixpoint info_loop (fuel : nat) (m : list memmap_entry) (lower_end upper_end : Z)
    : outcome (Z * Z) :=
  match fuel with
  | O => Diverge
  | S fuel =>
    let '(lower_end, upper_end, progress) := info_pass m lower_end upper_end false in
    if progress then info_loop fuel m lower_end upper_end else Ret (lower_end, upper_end)
  end.

Record meminfo := MemInfo { uppermem : Z; lowermem : Z }.

Definition mmap_get_info (m : list memmap_entry) : outcome meminfo :=
  r ← info_loop (S (2 * length m)) m 0 0x100000;
  let '(lower_end, upper_end) := (r : Z * Z) in
  let lower_end := if 0x100000 <? lower_end then 0x100000 else lower_end in
  Ret (MemInfo (upper_end - 0x100000) lower_end).

(** ** Counting the overlap of disjoint entries with a range *)

Definition overlap (lo hi : Z) (e : memmap_entry) : Z :=
  Z.max 0 (Z.min hi (me_base e + me_length e) - Z.max lo (me_base e)).

Definition total_overlap (lo hi : Z) (m : list memmap_entry) : Z :=
  foldr (fun e n => overlap lo hi e + n) 0 m.

Definition intervals_disjoint (e f : memmap_entry) : Prop :=
  me_base e + me_length e <= me_base f \/ me_base f + me_length f <= me_base e.

Lemma total_overlap_split lo a b hi m :
  lo <= a -> a <= b -> b <= hi ->
  (forall e, e ∈ m -> me_base e + me_length e <= a \/ b <= me_base e \/ a = hi \/ b = lo) ->
  total_overlap lo hi m = total_overlap lo a m + total_overlap b hi m.
Proof.
  intros Hla Hab Hbh. induction m as [|e m IH]; intros He; simpl; [done|].
  rewrite IH by set_solver. specialize (He e ltac:(left)). unfold overlap. lia.
Qed.

Lemma total_overlap_le m lo hi :
  Forall wf_entry m -> pairwise intervals_disjoint m -> lo <= hi -> 0 <= total_overlap lo hi m <= hi - lo.
Proof.
  revert lo hi. induction m as [|e m IH]; intros lo hi Hw Hd Hle; simpl; [lia|].
  apply Forall_cons in Hw as [(? & ? & ?) Hw].
  apply pairwise_cons in Hd as [He Hd]. rewrite Forall_forall in He.
  set (a := Z.min hi (Z.max lo (me_base e))).
  set (b := Z.max a (Z.min hi (me_base e + me_length e))).
  rewrite (total_overlap_split lo a b hi m); [|lia..|].
  - pose proof (IH lo a Hw Hd ltac:(lia)). pose proof (IH b hi Hw Hd ltac:(lia)). unfold overlap. lia.
  - intros f Hf. specialize (He f Hf). unfold intervals_disjoint in He. lia.
Qed.

(** An address that no entry holds is missing from the count. *)
Lemma total_overlap_hole m lo hi a :
  Forall wf_entry m -> pairwise intervals_disjoint m -> lo <= a < hi -> (forall e, e ∈ m -> ~ inside a e) ->
  total_overlap lo hi m < hi - lo.
Proof.
  intros Hw Hd Ha Hn. rewrite (total_overlap_split lo a (a + 1) hi m) by
    (lia || (intros e He; specialize (Hn e He); unfold inside in Hn; lia)).
  pose proof (total_overlap_le m lo a Hw Hd ltac:(lia)).
  pose proof (total_overlap_le m (a + 1) hi Hw Hd ltac:(lia)). lia.
Qed.

Lemma total_overlap_full m lo n :
  Forall wf_entry m -> pairwise intervals_disjoint m ->
  (forall a, lo <= a < lo + Z.of_nat n -> exists e, e ∈ m /\ inside a e) ->
  total_overlap lo (lo + Z.of_nat n) m = Z.of_nat n.
Proof.
  intros Hw Hd. induction n as [|n IH]; intros Hall.
  - pose proof (total_overlap_le m lo (lo + Z.of_nat 0) Hw Hd ltac:(lia)). lia.
  - pose proof (total_overlap_le m lo (lo + Z.of_nat (S n)) Hw Hd ltac:(lia)) as Hle.
    specialize (IH ltac:(intros a Ha; apply Hall; lia)).
    destruct (Hall (lo + Z.of_nat n) ltac:(lia)) as (e & He & Hi).
    enough (total_overlap lo (lo + Z.of_nat n) m + 1 <= total_overlap lo (lo + Z.of_nat (S n)) m) by lia.
    clear -He Hi. induction m as [|f m IHm]; [by apply elem_of_nil in He|]. simpl.
    assert (total_overlap lo (lo + Z.of_nat n) m <= total_overlap lo (lo + Z.of_nat (S n)) m).
    { clear. induction m as [|g m IHm]; simpl; [lia|]. unfold overlap. lia. }
    apply elem_of_cons in He as [<-|He].
    + unfold inside in Hi. unfold overlap. lia.
    + specialize (IHm He). unfold overlap. lia.
Qed.

Lemma Forall_filter_ram uefi m :
  Forall wf_entry m -> Forall wf_entry (filter (fun e => is_ram uefi (me_type e)) m).
Proof. intros Hw. rewrite Forall_forall in *. intros e [_ He]%list_elem_of_filter. by apply Hw. Qed.

Lemma usable_scan_total uefi m base top rem :
  Forall wf_entry m -> 0 <= base -> base < top -> top < W64 ->
  pairwise intervals_disjoint (filter (fun e => is_ram uefi (me_type e)) m) ->
  0 < rem <= top - base ->
  total_overlap base top (filter (fun e => is_ram uefi (me_type e)) m) <= rem ->
  usable_scan uefi m base top rem = true <->
  total_overlap base top (filter (fun e => is_ram uefi (me_type e)) m) = rem.
Proof.
  intros Hw Hb Hbt Ht. revert rem. induction Hw as [|e m (? & ? & ?) Hw IH]; intros rem Hd Hr Hle;
    cbn [usable_scan]; [simpl; split; [done|lia]|].
  destruct (is_ram uefi (me_type e)) eqn:Er; cbn [negb].
  2:{ rewrite filter_cons_False in * by (rewrite Er; naive_solver). by apply IH. }
  rewrite filter_cons_True in * by (by rewrite Er). simpl in Hle |- *.
  apply pairwise_cons in Hd as [He Hd].
  set (rest := filter (fun e => is_ram uefi (me_type e)) m) in *.
  pose proof (total_overlap_le rest base top (Forall_filter_ram _ _ Hw) Hd ltac:(lia)).
  rewrite (u64_small (me_base e + _)) by lia.
  destruct (full_overlap_check _ _ _ _) eqn:Ef.
  { unfold full_overlap_check in Ef. split; [intros _|done].
    assert (overlap base top e = top - base) by (unfold overlap; lia). lia. }
  destruct ((me_base e <? top) && (base <? me_base e + me_length e)) eqn:Eo.
  2:{ assert (overlap base top e = 0) as Hz by (unfold overlap; lia). rewrite Hz in *. by apply IH. }
  apply andb_true_iff in Eo as [Eo1%Z.ltb_lt Eo2%Z.ltb_lt]. clear Ef.
  assert ((if me_base e + me_length e <? top then me_base e + me_length e else top) -
    (if base <? me_base e then me_base e else base) = overlap base top e) as -> by
    (unfold overlap; repeat case_b; lia).
  assert (0 <= overlap base top e) by (unfold overlap; lia).
  rewrite (u64_small (overlap base top e)), u64_small by lia.
  destruct (Z.eqb_spec (rem - overlap base top e) 0); [split; [lia|done]|].
  rewrite IH by (done || lia). lia.
Qed.

(** ** The frontier loop *)

Definition usable_top (x : Z) (e : memmap_entry) : Prop := is_usable e /\ x < me_base e + me_length e.

#[export] Instance usable_top_dec x e : Decision (usable_top x e).
Proof. unfold usable_top. apply _. Defined.

(** Entries that can still push the frontier. *)
Definition ahead (x : Z) (m : list memmap_entry) : nat := length (filter (usable_top x) m).

(** The frontier [x] started at [s]: everything in between is usable. *)
Definition frontier (m : list memmap_entry) (s x : Z) : Prop :=
  s <= x < W64 /\ forall a, s <= a < x -> covers m a MEMMAP_USABLE.

Lemma ahead_le x y m : x <= y -> (ahead y m <= ahead x m)%nat.
Proof.
  intros Hxy. unfold ahead. induction m as [|e m IH]; [done|].
  rewrite !filter_cons. repeat case_decide; simpl; try lia. unfold usable_top in *. naive_solver lia.
Qed.

Lemma ahead_lt x y m e :
  e ∈ m -> is_usable e -> x < me_base e + me_length e -> me_base e + me_length e <= y ->
  (ahead y m < ahead x m)%nat.
Proof.
  intros He Hu Hx Hy. apply list_elem_of_split in He as (l1 & l2 & ->). unfold ahead.
  rewrite !filter_app, !length_app, !filter_cons.
  pose proof (ahead_le x y l1 ltac:(lia)). pose proof (ahead_le x y l2 ltac:(lia)). unfold ahead in *.
  rewrite decide_False, decide_True by (unfold usable_top; naive_solver lia). simpl. lia.
Qed.

(** One step of one frontier. *)
Lemma frontier_step m s x e :
  e ∈ m -> is_usable e -> wf_entry e -> me_base e <= x -> x < me_base e + me_length e ->
  frontier m s x -> frontier m s (me_base e + me_length e).
Proof.
  intros He Hu (? & ? & ?) Hb Hx [Hs Hc]. split; [lia|]. intros a Ha.
  destruct (decide (a < x)); [apply Hc; lia|]. exists e. unfold inside. split_and!; auto; lia.
Qed.

Lemma info_pass_spec all m lo up pr lo' up' pr' :
  Forall wf_entry all -> (forall e, e ∈ m -> e ∈ all) ->
  frontier all 0 lo -> frontier all 0x100000 up ->
  info_pass m lo up pr = (lo', up', pr') ->
  frontier all 0 lo' /\ frontier all 0x100000 up' /\ lo <= lo' /\ up <= up' /\
  (pr' = false -> pr = false /\ lo' = lo /\ up' = up /\
     forall e, e ∈ m -> is_usable e -> ~ inside lo e /\ ~ inside up e) /\
  (pr' = true -> pr = true \/ (ahead lo' all + ahead up' all < ahead lo all + ahead up all)%nat).
Proof.
  intros Hw. revert lo up pr. induction m as [|e m IH]; intros lo up pr Hin Hl Hu H; cbn [info_pass] in H.
  { simplify_eq. split_and!; auto; try lia.
    intros ->. split_and!; auto. intros e He. by apply elem_of_nil in He. }
  assert (He : e ∈ all) by (apply Hin; by left).
  assert (Hin' : forall f, f ∈ m -> f ∈ all) by (intros f Hf; apply Hin; by right).
  assert (We : wf_entry e) by (by eapply Forall_forall in Hw).
  destruct (Z.eqb_spec (me_type e) MEMMAP_USABLE) as [Hus|Hus]; cbn [negb] in H.
  2:{ apply IH in H as (? & ? & ? & ? & Hf & ?); auto. split_and!; auto.
      intros Hp. destruct (Hf Hp) as (? & ? & ? & Hf'). split_and!; auto.
      intros f [->|Hf1]%elem_of_cons Hfu; [done|auto]. }
  rewrite (wf_top e We) in H.
  destruct ((me_base e <=? lo) && (lo <? me_base e + me_length e)) eqn:C1;
  destruct ((me_base e <=? up) && (up <? me_base e + me_length e)) eqn:C2; cbn beta iota zeta in H;
  rewrite ?andb_true_iff, ?Z.leb_le, ?Z.ltb_lt in C1, C2.
  1-3: (apply IH in H as (? & ? & ? & ? & Hf & Ht); auto; [|eapply frontier_step; eauto; lia..]).
  1-3: split_and!; auto; try lia; [intros Hp; destruct (Hf Hp); done|intros _; right].
  - pose proof (ahead_lt lo lo' all e He Hus ltac:(lia) ltac:(lia)).
    pose proof (ahead_lt up up' all e He Hus ltac:(lia) ltac:(lia)). lia.
  - pose proof (ahead_lt lo lo' all e He Hus ltac:(lia) ltac:(lia)).
    pose proof (ahead_le up up' all ltac:(lia)). lia.
  - pose proof (ahead_le lo lo' all ltac:(lia)).
    pose proof (ahead_lt up up' all e He Hus ltac:(lia) ltac:(lia)). lia.
  - apply IH in H as (? & ? & ? & ? & Hf & ?); auto. split_and!; auto.
    intros Hp. destruct (Hf Hp) as (? & ? & ? & Hf'). split_and!; auto.
    intros f [->|Hf1]%elem_of_cons Hfu; [|auto]. unfold inside. lia.
Qed.

Lemma info_loop_spec fuel m lo up :
  Forall wf_entry m -> frontier m 0 lo -> frontier m 0x100000 up ->
  (ahead lo m + ahead up m < fuel)%nat ->
  exists lo' up', info_loop fuel m lo up = Ret (lo', up') /\
    frontier m 0 lo' /\ frontier m 0x100000 up' /\
    ~ covers m lo' MEMMAP_USABLE /\ ~ covers m up' MEMMAP_USABLE.
Proof.
  intros Hw. revert lo up. induction fuel as [|fuel IH]; intros lo up Hl Hu Hf; [lia|].
  cbn [info_loop]. destruct (info_pass m lo up false) as [[lo' up'] pr] eqn:E.
  apply (info_pass_spec m m) in E as (Hl' & Hu' & _ & _ & Hno & Hyes); auto. destruct pr.
  - destruct (Hyes eq_refl) as [?|?]; [done|]. apply IH; auto. lia.
  - destruct (Hno eq_refl) as (_ & -> & -> & Hn). exists lo, up. split_and!; auto.
    + intros (e & He & Ht & Hi). by destruct (Hn e He Ht).
    + intros (e & He & Ht & Hi). by destruct (Hn e He Ht).
Qed.

(** ** Properties *)

Definition info_demo : list memmap_entry :=
  [Entry 0x200000 0x100000 1; Entry 0 0x9f000 1; Entry 0x100000 0x100000 1; Entry 0x9f000 0x1000 2].

Lemma info_demo_wf : Forall wf_entry info_demo.
Proof. repeat constructor; simpl; lia. Qed.

(** when the RAM entries of the map do not overlap, [check_usable_memory]
    answers [true] exactly for the ranges of which every byte is RAM, also
    when several entries share the range. *)
Theorem check_usable_memory_exact uefi m base top :
  Forall wf_entry m -> 0 <= base -> base < top -> top < W64 ->
  pairwise intervals_disjoint (filter (fun e => is_ram uefi (me_type e)) m) ->
  check_usable_memory uefi m base top = true <->
  forall a, base <= a < top -> exists e, e ∈ m /\ is_ram uefi (me_type e) = true /\ inside a e.
Proof.
  intros Hw Hb Hbt Ht Hd. unfold check_usable_memory. rewrite u64_small by lia.
  pose proof (Forall_filter_ram uefi m Hw) as Hwf.
  pose proof (total_overlap_le _ base top Hwf Hd ltac:(lia)).
  rewrite usable_scan_total by (done || lia). split.
  - intros Hfull a Ha. set (l := filter (fun e => is_ram uefi (me_type e)) m) in *.
    destruct (decide (Exists (inside a) l)) as [Hex|Hno].
    + apply Exists_exists in Hex as (e & [Hr He]%list_elem_of_filter & Hi).
      exists e. split_and!; auto. by destruct (is_ram uefi (me_type e)).
    + pose proof (total_overlap_hole l base top a Hwf Hd Ha) as Hh.
      enough (total_overlap base top l < top - base) by lia. apply Hh.
      intros e He Hi. apply Hno, Exists_exists. eauto.
  - intros Hall. replace top with (base + Z.of_nat (Z.to_nat (top - base))) at 1 by lia.
    rewrite total_overlap_full; [lia|done|done|]. intros a Ha.
    destruct (Hall a ltac:(lia)) as (e & He & Hr & Hi). exists e. split; [|done].
    apply list_elem_of_filter. split; [by rewrite Hr|done].
Qed.

Lemma check_usable_memory_exact_witness : check_usable_memory false info_demo 0x180000 0x280000 = true.
Proof.
  apply (check_usable_memory_exact false info_demo 0x180000 0x280000 info_demo_wf); try lia.
  - repeat constructor; unfold intervals_disjoint; simpl; lia.
  - intros a Ha. destruct (decide (a < 0x200000)).
    + exists (Entry 0x100000 0x100000 1). split_and!; [set_solver|done|unfold inside; simpl; lia].
    + exists (Entry 0x200000 0x100000 1). split_and!; [set_solver|done|unfold inside; simpl; lia].
Defined.

(** [mmap_get_info] terminates on every well-formed map, sorted or not;
    all memory from 1 MiB up to [uppermem] bytes further is usable and the
    next byte is not, and [lowermem] is the usable run from address 0, cut at
    1 MiB. *)
Theorem mmap_get_info_exact m :
  Forall wf_entry m ->
  exists info, mmap_get_info m = Ret info /\
    0 <= uppermem info /\ 0 <= lowermem info <= 0x100000 /\
    (forall a, 0x100000 <= a < 0x100000 + uppermem info -> covers m a MEMMAP_USABLE) /\
    ~ covers m (0x100000 + uppermem info) MEMMAP_USABLE /\
    (forall a, 0 <= a < lowermem info -> covers m a MEMMAP_USABLE) /\
    (lowermem info < 0x100000 -> ~ covers m (lowermem info) MEMMAP_USABLE).
Proof.
  intros Hw.
  assert (Hfr : forall s, 0 <= s < W64 -> frontier m s s) by (intros s Hs; split; [lia|]; intros; lia).
  assert (Hah : forall x, (ahead x m <= length m)%nat) by (intros x; apply length_filter).
  destruct (info_loop_spec (S (2 * length m)) m 0 0x100000) as (lo & up & E & [Hl1 Hl2] & [Hu1 Hu2] & Hn1 & Hn2);
    auto; [apply Hfr; lia|apply Hfr; lia| |].
  { pose proof (Hah 0). pose proof (Hah 0x100000). lia. }
  unfold mmap_get_info. rewrite E. eexists. split; [reflexivity|]. cbn [uppermem lowermem].
  split_and!; try lia.
  - case_b; lia.
  - case_b; lia.
  - intros a Ha. apply Hu2. lia.
  - by replace (0x100000 + (up - 0x100000)) with up by lia.
  - intros a Ha. apply Hl2. revert Ha. case_b; lia.
  - case_b; [lia|done].
Qed.

Lemma mmap_get_info_exact_witness : exists info, mmap_get_info info_demo = Ret info /\ 0 <= uppermem info.
Proof.
  destruct (mmap_get_info_exact info_demo info_demo_wf) as (info & E & H & _).
  exists info. exact (conj E H).
Defined.
