(* ===== verification/Blake2b.v ===== *)
(** * The BLAKE2b hash of common/crypt/blake2b.c

    The code's state, compression function and streaming interface, followed by
    the hash as RFC 7693 defines it.  Array accesses with run-time offsets
    ([memcpy] into the block buffer) are bounds-checked: they are [Undef] when
    they leave the buffer. *)

From S2P Require Import Prelude Bytes.

Definition BLAKE2B_BLOCK_BYTES : nat := 128.
Definition BLAKE2B_OUT_BYTES : nat := 64.

Definition blake2b_iv : list Z :=
  [ 0x6a09e667f3bcc908; 0xbb67ae8584caa73b; 0x3c6ef372fe94f82b; 0xa54ff53a5f1d36f1;
    0x510e527fade682d1; 0x9b05688c2b3e6c1f; 0x1f83d9abfb41bd6b; 0x5be0cd19137e2179 ].

Definition blake2b_sigma : list (list nat) :=
 ([ [  0;  1;  2;  3;  4;  5;  6;  7;  8;  9; 10; 11; 12; 13; 14; 15 ];
    [ 14; 10;  4;  8;  9; 15; 13;  6;  1; 12;  0;  2; 11;  7;  5;  3 ];
    [ 11;  8; 12;  0;  5;  2; 15; 13; 10; 14;  3;  6;  7;  1;  9;  4 ];
    [  7;  9;  3;  1; 13; 12; 11; 14;  2;  6;  5; 10;  4;  0; 15;  8 ];
    [  9;  0;  5;  7;  2;  4; 10; 15; 14;  1; 11; 12;  6;  8;  3; 13 ];
    [  2; 12;  6; 10;  0; 11;  8;  3;  4; 13;  7;  5; 15; 14;  1;  9 ];
    [ 12;  5;  1; 15; 14; 13;  4; 10;  0;  7;  6;  3;  9;  2;  8; 11 ];
    [ 13; 11;  7; 14; 12;  1;  3;  9;  5;  0; 15;  4;  8;  6;  2; 10 ];
    [  6; 15; 14;  9; 11;  3;  0;  8; 12;  2; 13;  7;  1;  4; 10;  5 ];
    [ 10;  2;  8;  4;  7;  6;  1;  5; 15; 11;  9; 14;  3; 12; 13;  0 ];
    [  0;  1;  2;  3;  4;  5;  6;  7;  8;  9; 10; 11; 12; 13; 14; 15 ];
    [ 14; 10;  4;  8;  9; 15; 13;  6;  1; 12;  0;  2; 11;  7;  5;  3 ] ])%nat.

Record blake2b_state := {
  h : list Z;
  t : Z * Z;
  f : Z * Z;
  buf : list Z;
  buf_len : nat;
  last_node : Z
}.

Definition load64_le (src : list Z) : Z := le_load (take 8 src).
Definition store64_le (v : Z) : list Z := le_store 8 v.

Definition blake2b_increment_counter (s : blake2b_state) (inc : Z) : blake2b_state :=
  let t0 := u64 (s.(t).1 + inc) in
  let t1 := u64 (s.(t).2 + (if t0 <? inc then 1 else 0)) in
  {| h := s.(h); t := (t0, t1); f := s.(f); buf := s.(buf);
     buf_len := s.(buf_len); last_node := s.(last_node) |}.

Definition rotr64 (w c : Z) : Z := Z.lor (Z.shiftr w c) (u64 (Z.shiftl w (64 - c))).

(** The statements of the macro [G] on the elements of [v]:
    [a = a + b + x], [a = a + b] and [d = rotr64(d ^ a, n)]. *)
Definition v_add3 (v : list Z) (a b : nat) (x : Z) : list Z :=
  <[a := u64 (v !!! a + v !!! b + x)]> v.
Definition v_add (v : list Z) (a b : nat) : list Z := <[a := u64 (v !!! a + v !!! b)]> v.
Definition v_rot (v : list Z) (d a : nat) (n : Z) : list Z :=
  <[d := rotr64 (Z.lxor (v !!! d) (v !!! a)) n]> v.

Definition G (m : list Z) (r i a b c d : nat) (v : list Z) : list Z :=
  let v := v_add3 v a b (m !!! ((blake2b_sigma !!! r) !!! (2 * i + 0)%nat)) in
  let v := v_rot v d a 32 in
  let v := v_add v c d in
  let v := v_rot v b c 24 in
  let v := v_add3 v a b (m !!! ((blake2b_sigma !!! r) !!! (2 * i + 1)%nat)) in
  let v := v_rot v d a 16 in
  let v := v_add v c d in
  v_rot v b c 63.

Definition ROUND (m : list Z) (r : nat) (v : list Z) : list Z :=
  let v := G m r 0 0 4 8 12 v in
  let v := G m r 1 1 5 9 13 v in
  let v := G m r 2 2 6 10 14 v in
  let v := G m r 3 3 7 11 15 v in
  let v := G m r 4 0 5 10 15 v in
  let v := G m r 5 1 6 11 12 v in
  let v := G m r 6 2 7 8 13 v in
  G m r 7 3 4 9 14 v.

Definition set_h (s : blake2b_state) (h' : list Z) : blake2b_state :=
  {| h := h'; t := s.(t); f := s.(f); buf := s.(buf);
     buf_len := s.(buf_len); last_node := s.(last_node) |}.

Definition blake2b_compress (s : blake2b_state) (block : list Z) : blake2b_state :=
  let m := (fun i => load64_le (drop (i * 8) block)) <$> seq 0 16 in
  let v := ((fun i => s.(h) !!! i) <$> seq 0 8) ++
    [ blake2b_iv !!! 0%nat; blake2b_iv !!! 1%nat; blake2b_iv !!! 2%nat; blake2b_iv !!! 3%nat;
      Z.lxor (blake2b_iv !!! 4%nat) s.(t).1; Z.lxor (blake2b_iv !!! 5%nat) s.(t).2;
      Z.lxor (blake2b_iv !!! 6%nat) s.(f).1; Z.lxor (blake2b_iv !!! 7%nat) s.(f).2 ] in
  let v := foldl (fun v r => ROUND m r v) v (seq 0 12) in
  set_h s ((fun i => Z.lxor (Z.lxor (s.(h) !!! i) (v !!! i)) (v !!! (i + 8)%nat)) <$> seq 0 8).

(** The parameter block: digest length 64, no key, fan-out and depth 1, the
    other fields zero. *)
Definition blake2b_param : list Z :=
  [Z.of_nat BLAKE2B_OUT_BYTES; 0; 1; 1] ++ replicate 60 0.

Definition blake2b_init : blake2b_state :=
  {| h := (fun i => Z.lxor (blake2b_iv !!! i) (load64_le (drop (8 * i) blake2b_param))) <$> seq 0 8;
     t := (0, 0); f := (0, 0); buf := replicate BLAKE2B_BLOCK_BYTES 0;
     buf_len := 0; last_node := 0 |}.

Definition set_buf (s : blake2b_state) (bs : list Z) (n : nat) : blake2b_state :=
  {| h := s.(h); t := s.(t); f := s.(f); buf := bs; buf_len := n; last_node := s.(last_node) |}.

(** The [while] loop of [blake2b_update]; [in_] is the input still to read. *)
Fixpoint update_blocks (fuel : nat) (s : blake2b_state) (in_ : list Z)
    : outcome (blake2b_state * list Z) :=
  if decide (BLAKE2B_BLOCK_BYTES < length in_)%nat then
    match fuel with
    | O => Diverge
    | S fuel =>
        let s := blake2b_increment_counter s (Z.of_nat BLAKE2B_BLOCK_BYTES) in
        let s := blake2b_compress s in_ in
        update_blocks fuel s (drop BLAKE2B_BLOCK_BYTES in_)
    end
  else Ret (s, in_).

Definition blake2b_update (s : blake2b_state) (in_ : list Z) : outcome blake2b_state :=
  if decide (length in_ = 0)%nat then Ret s else
  let left := s.(buf_len) in
  let fill := (BLAKE2B_BLOCK_BYTES - left)%nat in
  r ← (if decide (fill < length in_)%nat then
         bs ← blit s.(buf) left (take fill in_);
         let s := set_buf s bs 0 in
         let s := blake2b_increment_counter s (Z.of_nat BLAKE2B_BLOCK_BYTES) in
         let s := blake2b_compress s s.(buf) in
         update_blocks (length in_) s (drop fill in_)
       else Ret (s, in_));
  let '(s, in_) := (r : blake2b_state * list Z) in
  bs ← blit s.(buf) s.(buf_len) in_;
  Ret (set_buf s bs (s.(buf_len) + length in_)).

Definition blake2b_final (s : blake2b_state) : outcome (list Z) :=
  let s := blake2b_increment_counter s (Z.of_nat s.(buf_len)) in
  let s := {| h := s.(h); t := s.(t); f := (u64 (-1), s.(f).2); buf := s.(buf);
              buf_len := s.(buf_len); last_node := s.(last_node) |} in
  bs ← blit s.(buf) s.(buf_len) (replicate (BLAKE2B_BLOCK_BYTES - s.(buf_len)) 0);
  let s := blake2b_compress (set_buf s bs s.(buf_len)) bs in
  Ret (mjoin ((fun i => store64_le (s.(h) !!! i)) <$> seq 0 8)).

Definition blake2b (in_ : list Z) : outcome (list Z) :=
  s ← blake2b_update blake2b_init in_;
  blake2b_final s.

(** ** The hash of RFC 7693 *)

Module Rfc.

(** Section 2.3: [x >>> n]. *)
Definition rotr (x n : Z) : Z := Z.lxor (Z.shiftr x n) (Z.shiftl x (64 - n) `mod` 2 ^ 64).

(** Section 3.1: the mixing function, and the forms of its assignments. *)
Definition add3 (v : list Z) (a b : nat) (x : Z) : list Z :=
  <[a := (v !!! a + v !!! b + x) `mod` 2 ^ 64]> v.
Definition add2 (v : list Z) (a b : nat) : list Z :=
  <[a := (v !!! a + v !!! b) `mod` 2 ^ 64]> v.
Definition xrot (v : list Z) (d a : nat) (n : Z) : list Z :=
  <[d := rotr (Z.lxor (v !!! d) (v !!! a)) n]> v.

Definition mix (v : list Z) (a b c d : nat) (x y : Z) : list Z :=
  let v := xrot (add3 v a b x) d a 32 in
  let v := xrot (add2 v c d) b c 24 in
  let v := xrot (add3 v a b y) d a 16 in
  xrot (add2 v c d) b c 63.

(** Section 3.2: the columns, then the diagonals, with the message schedule [s]. *)
Definition round (m : list Z) (s : list nat) (v : list Z) : list Z :=
  foldl (fun v '(i, (a, b, c, d)) =>
           mix v a b c d (m !!! (s !!! (2 * i)%nat)) (m !!! (s !!! (2 * i + 1)%nat))) v
    (zip (seq 0 8)
      [(0, 4, 8, 12); (1, 5, 9, 13); (2, 6, 10, 14); (3, 7, 11, 15);
       (0, 5, 10, 15); (1, 6, 11, 12); (2, 7, 8, 13); (3, 4, 9, 14)]%nat).

(** The ten message schedules of section 2.7. *)
Definition SIGMA : list (list nat) := take 10 blake2b_sigma.

(** Section 3.2: the compression function on chaining value [h], message words
    [m], offset [t] and final-block flag [last]. *)
Definition F (h m : list Z) (t : Z) (last : bool) : list Z :=
  let v := h ++ blake2b_iv in
  let v := <[12%nat := Z.lxor (v !!! 12%nat) (t `mod` 2 ^ 64)]> v in
  let v := <[13%nat := Z.lxor (v !!! 13%nat) (t / 2 ^ 64)]> v in
  let v := if last then <[14%nat := Z.lxor (v !!! 14%nat) (2 ^ 64 - 1)]> v else v in
  let v := foldl (fun v i => round m (SIGMA !!! (i mod 10)%nat) v) v (seq 0 12) in
  zip_with (fun hi i => Z.lxor (Z.lxor hi (v !!! i)) (v !!! (i + 8)%nat)) h (seq 0 8).

(** The [i]-th block of the zero-padded message, as 16 words. *)
Definition words (bs : list Z) : list Z := (fun i => le_load (slice (8 * i) 8 bs)) <$> seq 0 16.
Definition block (msg : list Z) (i : nat) : list Z :=
  let b := slice (128 * i) 128 msg in b ++ replicate (128 - length b) 0.

(** The chaining value after the first [k] blocks. *)
Definition h0 : list Z := Z.lxor (blake2b_iv !!! 0%nat) (0x01010000 + 64) :: drop 1 blake2b_iv.
Definition chain (msg : list Z) (k : nat) : list Z :=
  foldl (fun h i => F h (words (block msg i)) (128 * (Z.of_nat i + 1)) false) h0 (seq 0 k).

(** Section 3.3, for an unkeyed 64-byte digest. *)
Definition hash (msg : list Z) : list Z :=
  let dd := Nat.max 1 ((length msg + 127) / 128) in
  let hd := F (chain msg (dd - 1)) (words (block msg (dd - 1))) (Z.of_nat (length msg)) true in
  mjoin (le_store 8 <$> hd).

End Rfc.
