(* ===== verification/Blake2bSpec.v ===== *)
(** * The streaming BLAKE2b code computes the hash of RFC 7693

    [represents s msg] is the abstraction relation: the state [s] has read
    [msg], compressed all of it but a last non-empty block, and holds that
    block in its buffer.  [blake2b_update] preserves it, [blake2b_final] turns
    it into the digest. *)

From S2P Require Import Prelude Bytes Blake2b.

(** ** Words *)

Definition word (x : Z) : Prop := 0 <= x < 2 ^ 64.

Lemma word_u64 x : word (u64 x).
Proof. unfold word. pose proof (u64_range x). lia. Qed.

Lemma word_lxor x y : word x -> word y -> word (Z.lxor x y).
Proof. apply lxor_width. lia. Qed.

Lemma word_rotr x n : word x -> 0 <= n -> word (rotr64 x n).
Proof.
  intros Hx Hn. apply lor_width; [lia| |apply word_u64].
  split; [by apply Z.shiftr_nonneg, Hx|].
  rewrite Z.shiftr_div_pow2 by done. unfold word in Hx.
  assert (0 < 2 ^ n) by lia. pose proof (Z.div_le_upper_bound x (2 ^ n) x). nia.
Qed.

Lemma word_lookup v i : Forall word v -> word (v !!! i).
Proof.
  intros H. rewrite list_lookup_total_alt. destruct (v !! i) as [x|] eqn:E; [|done].
  simpl. eapply Forall_lookup; eauto.
Qed.

Lemma words_insert v i x : Forall word v -> word x -> Forall word (<[i := x]> v).
Proof. intros. by apply Forall_insert. Qed.

Create HintDb words.
#[export] Hint Resolve word_u64 word_lxor word_rotr word_lookup words_insert : words.
#[export] Hint Extern 1 (0 <= _) => lia : words.
#[export] Hint Extern 1 (0 <= _ <= _) => lia : words.

(** The code rotates with [|], the RFC with xor: the two halves share no bit. *)
Lemma rotr64_rfc x n : word x -> 0 <= n <= 64 -> rotr64 x n = Rfc.rotr x n.
Proof.
  intros Hx Hn. unfold rotr64, Rfc.rotr. change (u64 ?y) with (y `mod` 2 ^ 64).
  apply Z.bits_inj'. intros i Hi.
  rewrite Z.lor_spec, Z.lxor_spec, Z.shiftr_spec by done.
  destruct (decide (i < 64)); [rewrite Z.mod_pow2_bits_low by lia|].
  - destruct (decide (i < 64 - n)).
    + rewrite Z.shiftl_spec_low by lia. by destruct (Z.testbit x (i + n)).
    + by rewrite (testbit_high 64 ltac:(lia) x Hx (i + n)) by lia.
  - rewrite Z.mod_pow2_bits_high by lia. by destruct (Z.testbit x (i + n)).
Qed.

(** ** The compression function *)

Lemma v_add3_words v a b x : Forall word v -> Forall word (v_add3 v a b x).
Proof. unfold v_add3; auto with words. Qed.
Lemma v_add_words v a b : Forall word v -> Forall word (v_add v a b).
Proof. unfold v_add; auto with words. Qed.
Lemma v_rot_words v d a n : Forall word v -> 0 <= n -> Forall word (v_rot v d a n).
Proof. unfold v_rot; auto with words. Qed.
#[export] Hint Resolve v_add3_words v_add_words v_rot_words : words.

Lemma v_rot_rfc v d a n : Forall word v -> 0 <= n <= 64 -> v_rot v d a n = Rfc.xrot v d a n.
Proof. intros Hv Hn. unfold v_rot, Rfc.xrot. rewrite rotr64_rfc; auto with words. Qed.

(** Half of the mixing function. *)
Lemma half_rfc v a b c d x p q : Forall word v -> 0 <= p <= 64 -> 0 <= q <= 64 ->
  v_rot (v_add (v_rot (v_add3 v a b x) d a p) c d) b c q =
  Rfc.xrot (Rfc.add2 (Rfc.xrot (Rfc.add3 v a b x) d a p) c d) b c q.
Proof.
  intros Hv Hp Hq. rewrite (v_rot_rfc (v_add _ _ _)) by (auto with words lia).
  rewrite (v_rot_rfc (v_add3 _ _ _ _)) by auto with words. reflexivity.
Qed.

Lemma G_words m r i a b c d v : Forall word v -> Forall word (G m r i a b c d v).
Proof. intros H. unfold G. auto 20 with words. Qed.
#[export] Hint Resolve G_words : words.

Lemma ROUND_words m r v : Forall word v -> Forall word (ROUND m r v).
Proof. intros H. unfold ROUND. auto 20 with words. Qed.

Lemma G_rfc m r i a b c d v : Forall word v ->
  G m r i a b c d v =
  Rfc.mix v a b c d (m !!! ((blake2b_sigma !!! r) !!! (2 * i)%nat))
                    (m !!! ((blake2b_sigma !!! r) !!! (2 * i + 1)%nat)).
Proof.
  intros H. unfold G, Rfc.mix. rewrite Nat.add_0_r. cbv zeta.
  rewrite <- (half_rfc v a b c d) by (done || lia).
  rewrite <- half_rfc by auto 8 with words. reflexivity.
Qed.

(** A round is the fold of [G] over the columns and diagonals. *)
Definition lanes : list (nat * (nat * nat * nat * nat)) :=
  zip (seq 0 8)
      [(0, 4, 8, 12); (1, 5, 9, 13); (2, 6, 10, 14); (3, 7, 11, 15);
       (0, 5, 10, 15); (1, 6, 11, 12); (2, 7, 8, 13); (3, 4, 9, 14)]%nat.

Lemma ROUND_rfc m r v : Forall word v -> ROUND m r v = Rfc.round m (blake2b_sigma !!! r) v.
Proof.
  intros H. trans (foldl (fun v '(i, (a, b, c, d)) => G m r i a b c d v) v lanes).
  { unfold ROUND, lanes. cbn [seq zip_with foldl]. reflexivity. }
  unfold Rfc.round. fold lanes. generalize lanes. clear -H. intros l. revert v H.
  induction l as [|(i & ((a & b) & c) & d) l IH]; intros v H; [done|].
  cbn [foldl]. rewrite IH by auto with words. by rewrite G_rfc.
Qed.

Lemma sigma_rfc r : (r < 12)%nat -> blake2b_sigma !!! r = Rfc.SIGMA !!! (r mod 10)%nat.
Proof. intros Hr. do 12 (destruct r as [|r]; [reflexivity|]). lia. Qed.

Lemma rounds_rfc m l v : Forall word v -> Forall (fun r => r < 12)%nat l ->
  foldl (fun v r => ROUND m r v) v l = foldl (fun v i => Rfc.round m (Rfc.SIGMA !!! (i mod 10)%nat) v) v l
  /\ Forall word (foldl (fun v r => ROUND m r v) v l).
Proof.
  intros Hv Hl. revert v Hv. induction Hl as [|r l Hr _ IH]; intros v Hv; [done|]. cbn [foldl].
  rewrite <- sigma_rfc, <- ROUND_rfc by done. apply IH. by apply ROUND_words.
Qed.

Lemma load_words block : (128 <= length block)%nat ->
  (fun i => load64_le (drop (i * 8) block)) <$> seq 0 16 = Rfc.words (take 128 block).
Proof.
  intros Hb. apply list_fmap_ext. intros j i [-> Hi]%lookup_seq. unfold load64_le, slice.
  f_equal. replace (0 + j)%nat with j by lia. rewrite skipn_firstn_comm, take_take.
  f_equal; [lia|]. f_equal. lia.
Qed.

Lemma iv_words : Forall word blake2b_iv.
Proof. repeat constructor; done. Qed.

Lemma list8 (l : list Z) : length l = 8%nat ->
  exists a b c d e f g h, l = [a; b; c; d; e; f; g; h].
Proof. intros H. do 8 (destruct l as [|? l]; [done|]). destruct l; [eauto 10|done]. Qed.

(** The counter and the finalisation flags of a state. *)
Definition at_offset (s : blake2b_state) (T : Z) (last : bool) : Prop :=
  s.(t) = (T `mod` 2 ^ 64, T / 2 ^ 64) /\ 0 <= T < 2 ^ 128 /\
  s.(f) = ((if last then 2 ^ 64 - 1 else 0), 0).

Definition chaining (h : list Z) : Prop := length h = 8%nat /\ Forall word h.

Lemma iv_row_words T (last : bool) : 0 <= T < 2 ^ 128 ->
  Forall word
    [ blake2b_iv !!! 0%nat; blake2b_iv !!! 1%nat; blake2b_iv !!! 2%nat; blake2b_iv !!! 3%nat;
      Z.lxor (blake2b_iv !!! 4%nat) (T `mod` 2 ^ 64); Z.lxor (blake2b_iv !!! 5%nat) (T / 2 ^ 64);
      Z.lxor (blake2b_iv !!! 6%nat) (if last then 2 ^ 64 - 1 else 0);
      Z.lxor (blake2b_iv !!! 7%nat) 0 ].
Proof.
  intros HT. pose proof iv_words as Hiv.
  assert (word (T `mod` 2 ^ 64)) by (apply Z.mod_pos_bound; lia).
  assert (word (T / 2 ^ 64)).
  { split; [apply Z.div_pos; lia|apply Z.div_lt_upper_bound; lia]. }
  assert (word (if last then 2 ^ 64 - 1 else 0)) by (by destruct last).
  assert (word 0) by done.
  repeat (apply Forall_cons_2; [auto with words|]). constructor.
Qed.

Lemma compress_rfc s block T last :
  chaining s.(h) -> at_offset s T last -> (128 <= length block)%nat ->
  blake2b_compress s block = set_h s (Rfc.F s.(h) (Rfc.words (take 128 block)) T last)
  /\ chaining (Rfc.F s.(h) (Rfc.words (take 128 block)) T last).
Proof.
  intros [Hl Hh] (Ht & HT & Hf) Hb. unfold blake2b_compress. rewrite load_words, Ht, Hf by done.
  cbn [fst snd]. generalize (Rfc.words (take 128 block)). intros m.
  destruct (list8 _ Hl) as (a0 & a1 & a2 & a3 & a4 & a5 & a6 & a7 & E). rewrite E in *.
  unfold Rfc.F.
  match goal with |- context [foldl _ ?v0 (seq 0 12)] => set (v := v0) end.
  match goal with |- context [foldl (fun v i => Rfc.round _ _ _) ?v0 (seq 0 12)] =>
    assert (v0 = v) as -> end.
  { subst v. destruct last; cbn -[Z.lxor Z.div Z.modulo Z.pow blake2b_iv]; rewrite ?Z.lxor_0_r; reflexivity. }
  assert (Forall word v) as Hv.
  { subst v. apply Forall_app. split; [exact Hh|]. by apply iv_row_words. }
  destruct (rounds_rfc m (seq 0 12) v Hv) as [<- Hw].
  { apply Forall_forall. intros i [? Hi]%elem_of_seq. lia. }
  revert Hw. generalize (foldl (fun v r => ROUND m r v) v (seq 0 12)). intros w Hw.
  split; [reflexivity|]. split; [reflexivity|]. cbn [seq zip_with].
  repeat (apply Forall_cons in Hh as [? Hh]).
  repeat (apply Forall_cons_2; [auto with words|]). constructor.
Qed.

(** ** The counter *)

Lemma increment_counter_spec s T inc : at_offset s T false ->
  0 <= inc < 2 ^ 64 -> T + inc < 2 ^ 128 ->
  at_offset (blake2b_increment_counter s inc) (T + inc) false.
Proof.
  intros (Ht & HT & Hf) Hi Hs. split; [|split; [lia|done]].
  cbn [t blake2b_increment_counter]. rewrite Ht. cbn [fst snd]. unfold u64.
  change W64 with (2 ^ 64). rewrite Z.add_mod_idemp_l by lia.
  pose proof (Z.div_mod T (2 ^ 64) ltac:(lia)) as ET.
  pose proof (Z.mod_pos_bound T (2 ^ 64) ltac:(lia)) as Hr.
  set (q := T / 2 ^ 64) in *. set (r := T `mod` 2 ^ 64) in *.
  assert (q < 2 ^ 64) by (apply Z.div_lt_upper_bound; lia).
  assert (0 <= q) by (apply Z.div_pos; lia).
  destruct (decide (r + inc < 2 ^ 64)).
  - assert ((T + inc) / 2 ^ 64 = q /\ (T + inc) `mod` 2 ^ 64 = r + inc) as [-> ->].
    { split; [symmetry; apply (Z.div_unique_pos _ _ _ (r + inc))|
              symmetry; apply (Z.mod_unique_pos _ _ q)]; lia. }
    case_b; [lia|]. f_equal. rewrite Z.mod_small; lia.
  - assert ((T + inc) / 2 ^ 64 = q + 1 /\ (T + inc) `mod` 2 ^ 64 = r + inc - 2 ^ 64) as [-> ->].
    { split; [symmetry; apply (Z.div_unique_pos _ _ _ (r + inc - 2 ^ 64))|
              symmetry; apply (Z.mod_unique_pos _ _ (q + 1))]; lia. }
    case_b; [|lia]. f_equal. rewrite Z.mod_small; lia.
Qed.

(** ** Blocks of a message *)

Lemma block_full msg i : (128 * (i + 1) <= length msg)%nat -> Rfc.block msg i = slice (128 * i) 128 msg.
Proof.
  intros H. unfold Rfc.block. rewrite length_slice by lia. rewrite Nat.sub_diag. apply app_nil_r.
Qed.

Lemma chain_S msg k : Rfc.chain msg (S k) =
  Rfc.F (Rfc.chain msg k) (Rfc.words (Rfc.block msg k)) (128 * (Z.of_nat k + 1)) false.
Proof. unfold Rfc.chain. by rewrite seq_S, foldl_app. Qed.

Lemma chain_app msg x k : (128 * k <= length msg)%nat -> Rfc.chain (msg ++ x) k = Rfc.chain msg k.
Proof.
  induction k as [|k IH]; intros Hk; [done|]. rewrite !chain_S, IH by lia.
  rewrite !block_full by (rewrite ?length_app; lia).
  assert (slice (128 * k) 128 (msg ++ x) = slice (128 * k) 128 msg) as ->; [|reflexivity].
  unfold slice. rewrite drop_app_le by lia. apply take_app_le. rewrite length_drop. lia.
Qed.

(** Blocks compressed after reading [n] bytes: the last one, full or not, waits. *)
Definition nblocks (n : nat) : nat := (n - 1) / 128.

Lemma nblocks_unique n k : (128 * k < n <= 128 * k + 128)%nat -> nblocks n = k.
Proof. intros H. unfold nblocks. symmetry. apply (Nat.div_unique _ _ _ (n - 1 - 128 * k)); lia. Qed.

Lemma nblocks_bounds n : (0 < n -> 128 * nblocks n < n <= 128 * nblocks n + 128)%nat.
Proof.
  intros H. unfold nblocks. pose proof (Nat.div_mod (n - 1) 128 ltac:(lia)).
  pose proof (Nat.mod_upper_bound (n - 1) 128 ltac:(lia)). lia.
Qed.

(** ** The state after the first [k] blocks of [M] *)

Record compressed (s : blake2b_state) (M : list Z) (k : nat) : Prop := {
  comp_h : s.(h) = Rfc.chain M k;
  comp_words : chaining s.(h);
  comp_at : at_offset s (128 * Z.of_nat k) false
}.

Lemma compress_step s M k b : compressed s M k ->
  (128 * (k + 1) <= length M)%nat -> Z.of_nat (length M) < 2 ^ 128 ->
  take 128 b = slice (128 * k) 128 M ->
  let s' := blake2b_compress (blake2b_increment_counter s 128) b in
  compressed s' M (S k) /\ s'.(buf) = s.(buf) /\ s'.(buf_len) = s.(buf_len).
Proof.
  intros [Hh Hc Ha] Hk HM Hb s'.
  pose proof (increment_counter_spec s _ 128 Ha ltac:(lia) ltac:(lia)) as Ha'.
  assert (128 <= length b)%nat.
  { apply (f_equal length) in Hb. rewrite length_slice, length_take in Hb by lia. lia. }
  destruct (compress_rfc (blake2b_increment_counter s 128) b _ _ Hc Ha' ltac:(done)) as [E Hc'].
  subst s'. rewrite E. cbn [h blake2b_increment_counter] in *. split; [|done].
  split; cbn [h set_h]; [|done|].
  - rewrite chain_S, <- Hh, block_full, <- Hb by lia.
    by replace (128 * (Z.of_nat k + 1)) with (128 * Z.of_nat k + 128) by lia.
  - replace (128 * Z.of_nat (S k)) with (128 * Z.of_nat k + 128) by lia. exact Ha'.
Qed.

Lemma update_blocks_spec fuel s M k : compressed s M k ->
  (128 * k < length M)%nat -> Z.of_nat (length M) < 2 ^ 128 ->
  (length M - 128 * k <= fuel)%nat ->
  exists s' k', update_blocks fuel s (drop (128 * k) M) = Ret (s', drop (128 * k') M)
    /\ compressed s' M k' /\ s'.(buf) = s.(buf) /\ s'.(buf_len) = s.(buf_len)
    /\ (128 * k' < length M <= 128 * k' + 128)%nat.
Proof.
  revert s k. induction fuel as [|fuel IH]; intros s k Hc Hk HM Hf; [lia|].
  cbn [update_blocks]. rewrite length_drop. case_decide as Hd; unfold BLAKE2B_BLOCK_BYTES in Hd.
  - destruct (compress_step s M k (drop (128 * k) M) Hc ltac:(lia) HM ltac:(done)) as (Hc' & Eb & El).
    rewrite drop_drop. replace (128 * k + BLAKE2B_BLOCK_BYTES)%nat with (128 * S k)%nat
      by (unfold BLAKE2B_BLOCK_BYTES; lia).
    destruct (IH _ (S k) Hc' ltac:(lia) HM ltac:(lia)) as (s' & k' & E & H1 & H2 & H3 & H4).
    exists s', k'. split_and!; [exact E|done|congruence|congruence|lia..].
  - exists s, k. split_and!; [done..|lia|lia].
Qed.

(** ** Refinement *)

Record represents (s : blake2b_state) (msg : list Z) : Prop := {
  rep_comp : compressed s msg (nblocks (length msg));
  rep_len : s.(buf_len) = (length msg - 128 * nblocks (length msg))%nat;
  rep_pending : take s.(buf_len) s.(buf) = drop (128 * nblocks (length msg)) msg;
  rep_buf : length s.(buf) = 128%nat
}.

Lemma nblocks_le n : (128 * nblocks n <= n <= 128 * nblocks n + 128)%nat.
Proof. destruct (decide (n = 0)%nat) as [->|]; [vm_compute; lia|]. pose proof (nblocks_bounds n). lia. Qed.

Lemma init_represents : represents blake2b_init [].
Proof.
  split; [|reflexivity..]. split; [vm_compute; reflexivity| |].
  - split; [reflexivity|]. apply Forall_fmap, Forall_forall. intros i _. unfold compose.
    apply word_lxor; [apply word_lookup, iv_words|].
    unfold word, load64_le. pose proof (le_load_range (take 8 (drop (8 * i) blake2b_param))) as H.
    assert (Forall is_byte blake2b_param) as Hp.
    { apply Forall_app. split; [|by apply Forall_replicate].
      repeat (apply Forall_cons_2; [by vm_compute|]). constructor. }
    specialize (H ltac:(by apply Forall_take, Forall_drop)).
    pose proof (length_take (drop (8 * i) blake2b_param) 8) as Hl.
    assert (W8 ^ Z.of_nat (length (take 8 (drop (8 * i) blake2b_param))) <= W8 ^ 8)
      by (apply Z.pow_le_mono_r; lia). change (2 ^ 64) with (W8 ^ 8). lia.
  - split; [reflexivity|]. done.
Qed.

(** Storing the last block of [M] in an empty buffer. *)
Lemma represents_tail s M k bs : compressed s M k -> (128 * k < length M <= 128 * k + 128)%nat ->
  length bs = 128%nat -> take (length M - 128 * k) bs = drop (128 * k) M ->
  represents (set_buf s bs (length M - 128 * k)) M.
Proof.
  intros [H1 H2 H3] Hk Hl Hb. pose proof (nblocks_unique _ _ Hk) as E.
  split; rewrite ?E; [by split|done..].
Qed.

Lemma compressed_app s msg x k : compressed s msg k -> (128 * k <= length msg)%nat ->
  compressed s (msg ++ x) k.
Proof. intros [H1 H2 H3] Hk. split; [by rewrite chain_app|done..]. Qed.

Lemma compressed_buf s M k bs n : compressed s M k -> compressed (set_buf s bs n) M k.
Proof. intros [H1 H2 H3]. by split. Qed.

(** The branch of [blake2b_update] that fills the buffer and compresses it. *)
Lemma update_fill s msg in_ : represents s msg ->
  Z.of_nat (length (msg ++ in_)) < 2 ^ 128 -> (128 - s.(buf_len) < length in_)%nat ->
  exists s', blake2b_update s in_ = Ret s' /\ represents s' (msg ++ in_).
Proof.
  intros [Hc Hn Hp Hl] HM Hf. set (k := nblocks (length msg)) in *.
  pose proof (nblocks_le (length msg)) as Hk. fold k in Hk.
  unfold blake2b_update. rewrite decide_False by lia. unfold BLAKE2B_BLOCK_BYTES.
  rewrite decide_True by lia. set (L := s.(buf_len)) in *. set (M := msg ++ in_) in *.
  assert (length M = length msg + length in_)%nat as HlM by apply length_app.
  rewrite blit_fit by (rewrite length_take; lia). cbn [mbind outcome_bind].
  rewrite length_take, Nat.min_l, (drop_ge (buf s)) by lia. rewrite app_nil_r.
  set (bs := take L (buf s) ++ take (128 - L) in_).
  assert (take 128 bs = slice (128 * k) 128 M) as Hbs.
  { subst bs. rewrite Hp. unfold slice, M. rewrite drop_app_le, !take_app by lia.
    rewrite length_drop, take_take. f_equal. f_equal. lia. }
  assert (length bs = 128%nat) as Hlb by (subst bs; rewrite length_app, !length_take; lia).
  pose proof (compressed_buf s M k bs 0 (compressed_app _ _ in_ _ Hc ltac:(lia))) as Hc'.
  destruct (compress_step _ M k bs Hc' ltac:(lia) HM Hbs) as (Hc2 & Eb & El).
  assert (drop (128 - L) in_ = drop (128 * S k) M) as ->.
  { subst M. rewrite drop_app_ge by lia. f_equal. lia. }
  destruct (update_blocks_spec (length in_) _ M (S k) Hc2 ltac:(lia) HM ltac:(lia))
    as (s' & k' & E & Hc3 & Eb' & El' & Hk').
  cbn [buf buf_len set_buf blake2b_increment_counter] in *.
  change (Z.of_nat 128) with 128. rewrite E. cbn [mbind outcome_bind].
  rewrite El', El, Eb', Eb. rewrite blit_fit by (rewrite length_drop; lia).
  cbn [mbind outcome_bind Nat.add]. rewrite take_0, app_nil_l. eexists. split; [reflexivity|].
  rewrite length_drop. apply represents_tail; [done|done| |].
  - rewrite length_app, !length_drop. lia.
  - rewrite take_app_le by (rewrite length_drop; lia). apply take_ge. rewrite length_drop. lia.
Qed.

Lemma update_represents s msg in_ : represents s msg ->
  Z.of_nat (length (msg ++ in_)) < 2 ^ 128 ->
  exists s', blake2b_update s in_ = Ret s' /\ represents s' (msg ++ in_).
Proof.
  intros Hr HM. destruct (decide (128 - s.(buf_len) < length in_)%nat) as [|Hf]; [by apply update_fill|].
  destruct Hr as [Hc Hn Hp Hl]. pose proof (nblocks_le (length msg)) as Hk.
  unfold blake2b_update. case_decide as Hz.
  { apply length_zero_iff_nil in Hz as ->. exists s. rewrite app_nil_r. by split. }
  unfold BLAKE2B_BLOCK_BYTES. rewrite decide_False by done. cbn [mbind outcome_bind].
  rewrite blit_fit by lia. cbn [mbind outcome_bind]. eexists. split; [reflexivity|].
  set (k := nblocks (length msg)) in *.
  pose proof (length_app msg in_) as HlM.
  replace (buf_len s + length in_)%nat with (length (msg ++ in_) - 128 * k)%nat by lia.
  apply represents_tail; [apply compressed_app; [done|lia]|lia| |].
  - rewrite !length_app, length_take, length_drop. lia.
  - rewrite app_assoc, take_app_le, take_ge, Hp, drop_app_le;
      rewrite ?length_app, ?length_take; lia || done.
Qed.

Lemma final_represents s msg : represents s msg -> Z.of_nat (length msg) < 2 ^ 128 ->
  blake2b_final s = Ret (Rfc.hash msg).
Proof.
  intros [Hc Hn Hp Hl] HM. pose proof (nblocks_le (length msg)) as Hk.
  assert (Nat.max 1 ((length msg + 127) / 128) - 1 = nblocks (length msg))%nat as Edd.
  { destruct (decide (length msg = 0)%nat) as [->|]; [reflexivity|].
    symmetry. apply nblocks_unique. pose proof (Nat.div_mod (length msg + 127) 128 ltac:(lia)).
    pose proof (Nat.mod_upper_bound (length msg + 127) 128 ltac:(lia)). lia. }
  unfold Rfc.hash. rewrite Edd. set (k := nblocks (length msg)) in *.
  destruct Hc as [Hh Hw Ha].
  assert (at_offset (blake2b_increment_counter s (Z.of_nat (buf_len s))) (Z.of_nat (length msg)) false)
    as (Ht' & HT' & Hf').
  { replace (Z.of_nat (length msg)) with (128 * Z.of_nat k + Z.of_nat (buf_len s)) by lia.
    apply increment_counter_spec; [done|lia|lia]. }
  unfold blake2b_final. cbn [buf buf_len blake2b_increment_counter].
  rewrite blit_fit by (rewrite length_replicate; unfold BLAKE2B_BLOCK_BYTES; lia).
  cbn [mbind outcome_bind]. unfold BLAKE2B_BLOCK_BYTES.
  rewrite length_replicate, (drop_ge (buf s)), app_nil_r, Hp by lia.
  set (bs := drop (128 * k) msg ++ replicate (128 - buf_len s) 0).
  assert (length bs = 128%nat) as Hbs by (subst bs; rewrite length_app, length_drop, length_replicate; lia).
  assert (bs = Rfc.block msg k) as Eb.
  { unfold Rfc.block, slice. rewrite (take_ge (drop _ _)) by (rewrite length_drop; lia).
    rewrite length_drop. subst bs. do 2 f_equal. lia. }
  match goal with |- context [set_buf ?s0 bs _] => set (s' := set_buf s0 bs (buf_len s)) end.
  destruct (compress_rfc s' bs (Z.of_nat (length msg)) true) as [-> Hc'];
    [done|split; [exact Ht'|split; [done|]]; cbn in *; by rewrite Hf'|lia|].
  subst s'. cbn [h set_h set_buf blake2b_increment_counter] in *.
  rewrite take_ge, Eb, Hh in * by lia. destruct Hc' as [Hl8 _]. revert Hl8.
  generalize (Rfc.F (Rfc.chain msg k) (Rfc.words (Rfc.block msg k)) (Z.of_nat (length msg)) true).
  intros hd Hl8. destruct (list8 _ Hl8) as (a0 & a1 & a2 & a3 & a4 & a5 & a6 & a7 & ->). reflexivity.
Qed.

Lemma final_digest s d : blake2b_final s = Ret d ->
  length d = BLAKE2B_OUT_BYTES /\ Forall is_byte d.
Proof.
  unfold blake2b_final. intros (bs & _ & H)%bind_Ret_inv. revert H. cbv zeta.
  match goal with |- context [blake2b_compress ?s0 bs] => generalize (blake2b_compress s0 bs) end.
  intros s' <-%Ret_inj. split.
  - reflexivity.
  - apply Forall_join, Forall_fmap, Forall_forall. intros i _. apply le_store_bytes.
Qed.

(** Feeding a message in pieces. *)
Fixpoint blake2b_updates (s : blake2b_state) (chunks : list (list Z)) : outcome blake2b_state :=
  match chunks with
  | [] => Ret s
  | c :: chunks => s' ← blake2b_update s c; blake2b_updates s' chunks
  end.

Lemma updates_represents chunks s msg : represents s msg ->
  Z.of_nat (length (msg ++ mjoin chunks)) < 2 ^ 128 ->
  exists s', blake2b_updates s chunks = Ret s' /\ represents s' (msg ++ mjoin chunks).
Proof.
  revert s msg. induction chunks as [|c chunks IH]; intros s msg Hr HM.
  { exists s. cbn. by rewrite app_nil_r. }
  cbn [mjoin list_join blake2b_updates] in *. rewrite app_assoc in HM.
  destruct (update_represents s msg c Hr) as (s1 & -> & Hr1); [rewrite length_app in HM; lia|].
  cbn [mbind outcome_bind]. destruct (IH s1 (msg ++ c) Hr1 HM) as (s2 & -> & Hr2).
  exists s2. by rewrite app_assoc.
Qed.

(** C16: However a message is cut into pieces, feeding the pieces to
    [blake2b_update] one after the other and finishing with [blake2b_final]
    stays inside the block buffer, terminates, and gives the RFC 7693 digest of
    the whole message. *)
Theorem blake2b_stream_rfc7693 (chunks : list (list Z)) :
  Z.of_nat (length (mjoin chunks)) < 2 ^ 128 ->
  (s ← blake2b_updates blake2b_init chunks; blake2b_final s) = Ret (Rfc.hash (mjoin chunks)).
Proof.
  intros HM. destruct (updates_represents chunks _ [] init_represents HM) as (s & -> & Hr).
  cbn [mbind outcome_bind]. by apply final_represents.
Qed.

Lemma blake2b_stream_rfc7693_witness :
  (s ← blake2b_updates blake2b_init [[97]; []; [98; 99]]; blake2b_final s)
  = Ret (Rfc.hash [97; 98; 99]).
Proof. apply (blake2b_stream_rfc7693 [[97]; []; [98; 99]]). reflexivity. Defined.

(** [blake2b] on a buffer of any size that fits a [size_t] returns the
    64 bytes of the RFC 7693 digest of the buffer. *)
Theorem blake2b_rfc7693 (in_ : list Z) : Z.of_nat (length in_) < W64 ->
  blake2b in_ = Ret (Rfc.hash in_) /\ length (Rfc.hash in_) = BLAKE2B_OUT_BYTES
  /\ Forall is_byte (Rfc.hash in_).
Proof.
  intros HM. destruct (update_represents _ [] in_ init_represents) as (s & E & Hr); [cbn in *; lia|].
  cbn [app] in Hr. unfold blake2b. rewrite E. cbn [mbind outcome_bind].
  pose proof (final_represents s in_ Hr ltac:(lia)) as Ef.
  split; [done|]. by apply (final_digest s).
Qed.

Lemma blake2b_rfc7693_witness :
  blake2b [1; 2; 3] = Ret (Rfc.hash [1; 2; 3]) /\ length (Rfc.hash [1; 2; 3]) = BLAKE2B_OUT_BYTES
  /\ Forall is_byte (Rfc.hash [1; 2; 3]).
Proof. apply (blake2b_rfc7693 [1; 2; 3]). reflexivity. Defined.

(** The test vector of RFC 7693, appendix A. *)
Example blake2b_abc : le_load (Rfc.hash [97; 98; 99]) =
  0x239900d4ed8623b95a92f1dba88ad31895cc3345ded552c22d79ab2a39c5877dd1a2ffdb6fbb124bb7c45a68142f214ce9f6129fb697276a0d4d1c983fa580ba.
Proof. vm_compute. reflexivity. Qed.
