(* ===== verification/Tinf.v ===== *)
(** * The inflate decoder of decompressor/tinf

    tinflate.c and tinfgzip.c, used by decompressor/main.c to unpack the second
    stage of the BIOS boot loader.

    [mem] is the memory object the compressed data lies in; [source] and
    [source_end] are offsets in it, and a read outside [mem] is [Undef].  The
    code does not bound the output (the [dest_end] checks are commented out), so
    [out] is the list of the bytes written from [dest_start] on.  The decoder's
    variables are not initialised before use: the trees and the array of code
    lengths start with whatever the stack holds, the [stack] argument. *)

From S2P Require Import Prelude Bytes.

Definition TINF_OK : Z := 0.
Definition TINF_DATA_ERROR : Z := -3.

Record tinf_tree := {
  counts : list Z;    (* number of codes with a given length *)
  symbols : list Z;   (* symbols sorted by code *)
  max_sym : Z
}.

Record tinf_data := {
  mem : list Z;
  source : nat;
  source_end : nat;
  tag : Z;
  bitcount : Z;
  overflow : Z;
  out : list Z;
  ltree : tinf_tree;
  dtree : tinf_tree
}.

Definition set_bits (d : tinf_data) (source' : nat) (tag' bitcount' overflow' : Z) : tinf_data :=
  {| mem := d.(mem); source := source'; source_end := d.(source_end); tag := tag';
     bitcount := bitcount'; overflow := overflow'; out := d.(out);
     ltree := d.(ltree); dtree := d.(dtree) |}.

Definition set_out (d : tinf_data) (out' : list Z) : tinf_data :=
  {| mem := d.(mem); source := d.(source); source_end := d.(source_end); tag := d.(tag);
     bitcount := d.(bitcount); overflow := d.(overflow); out := out';
     ltree := d.(ltree); dtree := d.(dtree) |}.

Definition set_trees (d : tinf_data) (lt dt : tinf_tree) : tinf_data :=
  {| mem := d.(mem); source := d.(source); source_end := d.(source_end); tag := d.(tag);
     bitcount := d.(bitcount); overflow := d.(overflow); out := d.(out);
     ltree := lt; dtree := dt |}.

Definition read_le16 (bs : list Z) (p : nat) : outcome Z :=
  b0 ← get bs p;
  b1 ← get bs (S p);
  Ret (Z.lor b0 (Z.shiftl b1 8)).

(** ** Trees *)

(** [symbols[off + i] = base + i] for [i < n]. *)
Fixpoint fill_range (syms : list Z) (off : nat) (base : Z) (n : nat) : outcome (list Z) :=
  match n with
  | O => Ret syms
  | S n =>
      syms ← fill_range syms off base n;
      put syms (off + n) (base + Z.of_nat n)
  end.

(** The loop that clears all 16 entries of [counts]. *)
Definition clear_counts : list Z := replicate 16 0.

Definition tinf_build_fixed_trees (lt dt : tinf_tree) : outcome (tinf_tree * tinf_tree) :=
  lc ← put clear_counts 7 24;
  lc ← put lc 8 152;
  lc ← put lc 9 112;
  ls ← fill_range lt.(symbols) 0 256 24;
  ls ← fill_range ls 24 0 144;
  ls ← fill_range ls (24 + 144) 280 8;
  ls ← fill_range ls (24 + 144 + 8) 144 112;
  dc ← put clear_counts 5 32;
  ds ← fill_range dt.(symbols) 0 0 32;
  Ret ({| counts := lc; symbols := ls; max_sym := 285 |},
       {| counts := dc; symbols := ds; max_sym := 29 |}).

(** Count the codes of each non-zero length: the iterations from [i] on,
    [n] of them. *)
Fixpoint count_lengths (lengths : list Z) (i n : nat) (cs : list Z) (ms : Z)
    : outcome (list Z * Z) :=
  match n with
  | O => Ret (cs, ms)
  | S n =>
      l ← get lengths i;
      if l =? 0 then count_lengths lengths (S i) n cs ms
      else
        c ← get cs (Z.to_nat l);
        cs ← put cs (Z.to_nat l) (u16 (c + 1));
        count_lengths lengths (S i) n cs (Z.of_nat i)
  end.

(** The offset table: [None] when a length has more codes than available. *)
Fixpoint offset_table (cs : list Z) (i n : nat) (available num_codes : Z) (offs : list Z)
    : outcome (option (Z * Z * list Z)) :=
  match n with
  | O => Ret (Some (available, num_codes, offs))
  | S n =>
      used ← get cs i;
      if available <? used then Ret None
      else offset_table cs (S i) n (u32 (2 * (available - used))) (u32 (num_codes + used))
             (offs ++ [u16 num_codes])
  end.

(** Fill in the symbols sorted by code. *)
Fixpoint sort_symbols (lengths : list Z) (i n : nat) (offs syms : list Z)
    : outcome (list Z) :=
  match n with
  | O => Ret syms
  | S n =>
      l ← get lengths i;
      if l =? 0 then sort_symbols lengths (S i) n offs syms
      else
        o ← get offs (Z.to_nat l);
        offs ← put offs (Z.to_nat l) (u16 (o + 1));
        syms ← put syms (Z.to_nat o) (Z.of_nat i);
        sort_symbols lengths (S i) n offs syms
  end.

Definition tinf_build_tree (t : tinf_tree) (lengths : list Z) (num : nat)
    : outcome (Z * tinf_tree) :=
  r ← count_lengths lengths 0 num clear_counts (-1);
  let '(cs, ms) := (r : list Z * Z) in
  r ← offset_table cs 0 16 1 0 [];
  match (r : option (Z * Z * list Z)) with
  | None => Ret (TINF_DATA_ERROR, {| counts := cs; symbols := t.(symbols); max_sym := ms |})
  | Some (available, num_codes, offs) =>
      c1 ← get cs 1;
      if ((1 <? num_codes) && (0 <? available)) || ((num_codes =? 1) && negb (c1 =? 1)) then
        Ret (TINF_DATA_ERROR, {| counts := cs; symbols := t.(symbols); max_sym := ms |})
      else
        syms ← sort_symbols lengths 0 num offs t.(symbols);
        if num_codes =? 1 then
          cs ← put cs 1 2;
          syms ← put syms 1 (u16 (ms + 1));
          Ret (TINF_OK, {| counts := cs; symbols := syms; max_sym := ms |})
        else Ret (TINF_OK, {| counts := cs; symbols := syms; max_sym := ms |})
  end.

(** ** The bit reader *)

(** [while (d->bitcount < num)].  A shift by the width of the type or more is
    undefined. *)
Fixpoint refill_loop (fuel : nat) (d : tinf_data) (num : Z) : outcome tinf_data :=
  if d.(bitcount) <? num then
    match fuel with
    | O => Diverge
    | S fuel =>
        d ← (if decide (d.(source) = d.(source_end)) then
               Ret (set_bits d d.(source) d.(tag) d.(bitcount) 1)
             else if 32 <=? d.(bitcount) then Undef
             else
               b ← get d.(mem) d.(source);
               Ret (set_bits d (S d.(source)) (Z.lor d.(tag) (u32 (Z.shiftl b d.(bitcount))))
                      d.(bitcount) d.(overflow)));
        refill_loop fuel (set_bits d d.(source) d.(tag) (d.(bitcount) + 8) d.(overflow)) num
    end
  else Ret d.

(** At most 32 bits are asked for, so at most 4 bytes are read. *)
Definition tinf_refill (d : tinf_data) (num : Z) : outcome tinf_data := refill_loop 4 d num.

Definition tinf_getbits_no_refill (d : tinf_data) (num : Z) : Z * tinf_data :=
  (Z.land d.(tag) (Z.shiftl 1 num - 1),
   set_bits d d.(source) (Z.shiftr d.(tag) num) (d.(bitcount) - num) d.(overflow)).

Definition tinf_getbits (d : tinf_data) (num : Z) : outcome (Z * tinf_data) :=
  d ← tinf_refill d num;
  Ret (tinf_getbits_no_refill d num).

Definition tinf_getbits_base (d : tinf_data) (num base : Z) : outcome (Z * tinf_data) :=
  if num =? 0 then Ret (base, d)
  else
    r ← tinf_getbits d num;
    let '(bits, d) := (r : Z * tinf_data) in
    Ret (base + bits, d).

(** ** Decoding symbols *)

(** The loop over [len]; the access [counts[len]] is [Undef] for [len > 15], so
    16 steps are enough. *)
Fixpoint decode_loop (fuel : nat) (t : tinf_tree) (d : tinf_data) (len : nat) (base offs : Z)
    : outcome (Z * tinf_data) :=
  match fuel with
  | O => Diverge
  | S fuel =>
      r ← tinf_getbits d 1;
      let '(bit, d) := (r : Z * tinf_data) in
      let offs := 2 * offs + bit in
      c ← get t.(counts) len;
      if offs <? c then
        sym ← get t.(symbols) (Z.to_nat (base + offs));
        Ret (sym, d)
      else decode_loop fuel t d (S len) (base + c) (offs - c)
  end.

Definition tinf_decode_symbol (d : tinf_data) (t : tinf_tree) : outcome (Z * tinf_data) :=
  decode_loop 16 t d 1 0 0.

(** ** Dynamic trees *)

Definition clcidx : list nat :=
  [16; 17; 18; 0; 8; 7; 9; 6; 10; 5; 11; 4; 12; 3; 13; 2; 14; 1; 15]%nat.

(** Code lengths of the code length alphabet: iterations [i .. i + n). *)
Fixpoint read_clens (d : tinf_data) (i n : nat) (lengths : list Z)
    : outcome (list Z * tinf_data) :=
  match n with
  | O => Ret (lengths, d)
  | S n =>
      r ← tinf_getbits d 3;
      let '(clen, d) := (r : Z * tinf_data) in
      k ← get clcidx i;
      lengths ← put lengths k clen;
      read_clens d (S i) n lengths
  end.

(** [while (length--) lengths[num++] = sym] *)
Fixpoint put_run (lengths : list Z) (num n : nat) (sym : Z) : outcome (list Z) :=
  match n with
  | O => Ret lengths
  | S n =>
      lengths ← put lengths num sym;
      put_run lengths (S num) n sym
  end.

(** The loop that decodes [total] code lengths; [inl res] is an early return.
    Each iteration stores at least one length. *)
Fixpoint decode_lengths (fuel : nat) (lt : tinf_tree) (d : tinf_data) (total num : nat)
    (lengths : list Z) : outcome (tinf_data * (Z + list Z)) :=
  if decide (num < total)%nat then
    match fuel with
    | O => Diverge
    | S fuel =>
        r ← tinf_decode_symbol d lt;
        let '(sym, d) := (r : Z * tinf_data) in
        if lt.(max_sym) <? sym then Ret (d, inl TINF_DATA_ERROR)
        else if (sym =? 16) && bool_decide (num = 0%nat) then Ret (d, inl TINF_DATA_ERROR)
        else
          r ← (if sym =? 16 then
                 prev ← get lengths (num - 1);
                 r ← tinf_getbits_base d 2 3;
                 Ret (prev, r)
               else if sym =? 17 then r ← tinf_getbits_base d 3 3; Ret (0, r)
               else if sym =? 18 then r ← tinf_getbits_base d 7 11; Ret (0, r)
               else Ret (sym, (1, d)));
          let '(sym, (length, d)) := (r : Z * (Z * tinf_data)) in
          if Z.of_nat total - Z.of_nat num <? length then Ret (d, inl TINF_DATA_ERROR)
          else
            lengths ← put_run lengths num (Z.to_nat length) (u8 sym);
            decode_lengths fuel lt d total (num + Z.to_nat length) lengths
    end
  else Ret (d, inr lengths).

(** [lt] and [dt] point into [d]; [lengths0] is the uninitialised local array. *)
Definition tinf_decode_trees (d : tinf_data) (lengths0 : list Z) : outcome (Z * tinf_data) :=
  r ← tinf_getbits_base d 5 257;
  let '(hlit, d) := (r : Z * tinf_data) in
  r ← tinf_getbits_base d 5 1;
  let '(hdist, d) := (r : Z * tinf_data) in
  r ← tinf_getbits_base d 4 4;
  let '(hclen, d) := (r : Z * tinf_data) in
  if (286 <? hlit) || (30 <? hdist) then Ret (TINF_DATA_ERROR, d)
  else
    lengths ← put_run lengths0 0 19 0;
    r ← read_clens d 0 (Z.to_nat hclen) lengths;
    let '(lengths, d) := (r : list Z * tinf_data) in
    r ← tinf_build_tree d.(ltree) lengths 19;
    let '(res, lt) := (r : Z * tinf_tree) in
    let d := set_trees d lt d.(dtree) in
    if negb (res =? TINF_OK) then Ret (res, d)
    else if lt.(max_sym) =? -1 then Ret (TINF_DATA_ERROR, d)
    else
      let total := Z.to_nat (hlit + hdist) in
      r ← decode_lengths total lt d total 0 lengths;
      let '(d, r) := (r : tinf_data * (Z + list Z)) in
      match r with
      | inl res => Ret (res, d)
      | inr lengths =>
          eob ← get lengths 256;
          if eob =? 0 then Ret (TINF_DATA_ERROR, d)
          else
            r ← tinf_build_tree d.(ltree) lengths (Z.to_nat hlit);
            let '(res, lt) := (r : Z * tinf_tree) in
            let d := set_trees d lt d.(dtree) in
            if negb (res =? TINF_OK) then Ret (res, d)
            else
              r ← tinf_build_tree d.(dtree) (drop (Z.to_nat hlit) lengths) (Z.to_nat hdist);
              let '(res, dt) := (r : Z * tinf_tree) in
              let d := set_trees d d.(ltree) dt in
              if negb (res =? TINF_OK) then Ret (res, d) else Ret (TINF_OK, d)
      end.

(** ** Blocks *)

Definition length_bits : list Z :=
  [ 0; 0; 0; 0; 0; 0; 0; 0; 1; 1;
    1; 1; 2; 2; 2; 2; 3; 3; 3; 3;
    4; 4; 4; 4; 5; 5; 5; 5; 0; 127 ].

Definition length_base : list Z :=
  [  3;  4;  5;   6;   7;   8;   9;  10;  11;  13;
    15; 17; 19;  23;  27;  31;  35;  43;  51;  59;
    67; 83; 99; 115; 131; 163; 195; 227; 258;   0 ].

Definition dist_bits : list Z :=
  [ 0; 0;  0;  0;  1;  1;  2;  2;  3;  3;
    4; 4;  5;  5;  6;  6;  7;  7;  8;  8;
    9; 9; 10; 10; 11; 11; 12; 12; 13; 13 ].

Definition dist_base : list Z :=
  [    1;    2;    3;    4;    5;    7;    9;    13;    17;    25;
      33;   49;   65;   97;  129;  193;  257;   385;   513;   769;
    1025; 1537; 2049; 3073; 4097; 6145; 8193; 12289; 16385; 24577 ].

(** [for (i = 0; i < n; ++i) dest[i] = dest[i - offs]] *)
Fixpoint copy_match (o : list Z) (offs : Z) (n : nat) : outcome (list Z) :=
  match n with
  | O => Ret o
  | S n =>
      if Z.of_nat (length o) <? offs then Undef
      else
        b ← get o (Z.to_nat (Z.of_nat (length o) - offs));
        copy_match (o ++ [b]) offs n
  end.

(** The body of the loop of [tinf_inflate_block_data]; [inl res] leaves the
    function. *)
Definition block_symbol (d : tinf_data) (lt dt : tinf_tree) : outcome (tinf_data * option Z) :=
  r ← tinf_decode_symbol d lt;
  let '(sym, d) := (r : Z * tinf_data) in
  if negb (d.(overflow) =? 0) then Ret (d, Some TINF_DATA_ERROR)
  else if sym <? 256 then Ret (set_out d (d.(out) ++ [u8 sym]), None)
  else if sym =? 256 then Ret (d, Some TINF_OK)
  else if (lt.(max_sym) <? sym) || (28 <? sym - 257) || (dt.(max_sym) =? -1) then
    Ret (d, Some TINF_DATA_ERROR)
  else
    let sym := Z.to_nat (sym - 257) in
    lbits ← get length_bits sym;
    lbase ← get length_base sym;
    r ← tinf_getbits_base d lbits lbase;
    let '(length, d) := (r : Z * tinf_data) in
    r ← tinf_decode_symbol d dt;
    let '(dist, d) := (r : Z * tinf_data) in
    if (dt.(max_sym) <? dist) || (29 <? dist) then Ret (d, Some TINF_DATA_ERROR)
    else
      dbits ← get dist_bits (Z.to_nat dist);
      dbase ← get dist_base (Z.to_nat dist);
      r ← tinf_getbits_base d dbits dbase;
      let '(offs, d) := (r : Z * tinf_data) in
      if Z.of_nat (Datatypes.length d.(out)) <? offs then Ret (d, Some TINF_DATA_ERROR)
      else
        o ← copy_match d.(out) offs (Z.to_nat length);
        Ret (set_out d o, None).

Fixpoint block_loop (fuel : nat) (d : tinf_data) (lt dt : tinf_tree) : outcome (Z * tinf_data) :=
  match fuel with
  | O => Diverge
  | S fuel =>
      r ← block_symbol d lt dt;
      let '(d, r) := (r : tinf_data * option Z) in
      match r with
      | Some res => Ret (res, d)
      | None => block_loop fuel d lt dt
      end
  end.

(** Bits that can still be read before the end of the memory object, and one:
    every symbol but the last takes one of them. *)
Definition block_fuel (d : tinf_data) : nat :=
  (8 * (length d.(mem) - d.(source)) + Z.to_nat d.(bitcount) + 1)%nat.

Definition tinf_inflate_block_data (d : tinf_data) (lt dt : tinf_tree) : outcome (Z * tinf_data) :=
  block_loop (block_fuel d) d lt dt.

(** [while (length--) *d->dest++ = *d->source++] *)
Fixpoint copy_stored (d : tinf_data) (n : nat) : outcome tinf_data :=
  match n with
  | O => Ret d
  | S n =>
      b ← get d.(mem) d.(source);
      copy_stored (set_out (set_bits d (S d.(source)) d.(tag) d.(bitcount) d.(overflow))
                     (d.(out) ++ [b])) n
  end.

Definition tinf_inflate_uncompressed_block (d : tinf_data) : outcome (Z * tinf_data) :=
  if Z.of_nat d.(source_end) - Z.of_nat d.(source) <? 4 then Ret (TINF_DATA_ERROR, d)
  else
    length ← read_le16 d.(mem) d.(source);
    invlength ← read_le16 d.(mem) (d.(source) + 2);
    if negb (length =? Z.land (u32 (Z.lnot invlength)) 0xFFFF) then Ret (TINF_DATA_ERROR, d)
    else
      let d := set_bits d (d.(source) + 4) d.(tag) d.(bitcount) d.(overflow) in
      d ← copy_stored d (Z.to_nat length);
      Ret (TINF_OK, set_bits d d.(source) 0 0 d.(overflow)).

Definition tinf_inflate_fixed_block (d : tinf_data) : outcome (Z * tinf_data) :=
  r ← tinf_build_fixed_trees d.(ltree) d.(dtree);
  let '(lt, dt) := (r : tinf_tree * tinf_tree) in
  let d := set_trees d lt dt in
  tinf_inflate_block_data d d.(ltree) d.(dtree).

Definition tinf_inflate_dynamic_block (d : tinf_data) (lengths0 : list Z) : outcome (Z * tinf_data) :=
  r ← tinf_decode_trees d lengths0;
  let '(res, d) := (r : Z * tinf_data) in
  if negb (res =? TINF_OK) then Ret (res, d)
  else tinf_inflate_block_data d d.(ltree) d.(dtree).

(** ** The stream *)

(** One iteration of the loop of [tinf_uncompress]: the final-block flag, the
    result of the block and the state. *)
Definition uncompress_block (d : tinf_data) (lengths0 : list Z) : outcome (Z * Z * tinf_data) :=
  r ← tinf_getbits d 1;
  let '(bfinal, d) := (r : Z * tinf_data) in
  r ← tinf_getbits d 2;
  let '(btype, d) := (r : Z * tinf_data) in
  r ← (if btype =? 0 then tinf_inflate_uncompressed_block d
       else if btype =? 1 then tinf_inflate_fixed_block d
       else if btype =? 2 then tinf_inflate_dynamic_block d lengths0
       else Ret (TINF_DATA_ERROR, d));
  let '(res, d) := (r : Z * tinf_data) in
  Ret (bfinal, res, d).

Fixpoint uncompress_loop (fuel : nat) (d : tinf_data) (lengths0 : list Z) : outcome (Z * tinf_data) :=
  match fuel with
  | O => Diverge
  | S fuel =>
      r ← uncompress_block d lengths0;
      let '(bfinal, res, d) := (r : Z * Z * tinf_data) in
      if negb (res =? TINF_OK) then Ret (res, d)
      else if bfinal =? 0 then uncompress_loop fuel d lengths0
      else Ret (TINF_OK, d)
  end.

(** What the stack holds where the decoder's variables are placed. *)
Record stack := { st_ltree : tinf_tree; st_dtree : tinf_tree; st_lengths : list Z }.

(** [tinf_uncompress(dest, mem + start, sourceLen)].  Every block takes at least
    3 bits of the memory object. *)
Definition tinf_uncompress (st : stack) (mem : list Z) (start sourceLen : nat)
    : outcome (Z * list Z) :=
  let d := {| mem := mem; source := start; source_end := start + sourceLen; tag := 0;
              bitcount := 0; overflow := 0; out := [];
              ltree := st.(st_ltree); dtree := st.(st_dtree) |} in
  r ← uncompress_loop (8 * length mem + 1) d st.(st_lengths);
  let '(res, d) := (r : Z * tinf_data) in
  if negb (res =? TINF_OK) then Ret (res, d.(out))
  else if negb (d.(overflow) =? 0) then Ret (TINF_DATA_ERROR, d.(out))
  else Ret (TINF_OK, d.(out)).

(** ** The gzip container *)

Definition FHCRC : Z := 2.
Definition FEXTRA : Z := 4.
Definition FNAME : Z := 8.
Definition FCOMMENT : Z := 16.

(** [do { if (start - src >= sourceLen) return DATA_ERROR; } while ( *start++)]:
    [inl] is the early return, [inr] the new [start]. *)
Fixpoint skip_string (fuel : nat) (src : list Z) (start sourceLen : nat) : outcome (Z + nat) :=
  if decide (sourceLen <= start)%nat then Ret (inl TINF_DATA_ERROR)
  else
    match fuel with
    | O => Diverge
    | S fuel =>
        b ← get src start;
        if b =? 0 then Ret (inr (S start)) else skip_string fuel src (S start) sourceLen
    end.

(** The [flg & FNAME] and [flg & FCOMMENT] parts of the header. *)
Definition skip_field (present : bool) (src : list Z) (start : Z + nat) (sourceLen : nat)
    : outcome (Z + nat) :=
  match start with
  | inl res => Ret (inl res)
  | inr start => if present then skip_string sourceLen src start sourceLen else Ret (inr start)
  end.

Definition gzip_header (src : list Z) (sourceLen : nat) : outcome (Z + nat) :=
  if decide (sourceLen < 18)%nat then Ret (inl TINF_DATA_ERROR)
  else
    b0 ← get src 0;
    b1 ← get src 1;
    if negb (b0 =? 0x1F) || negb (b1 =? 0x8B) then Ret (inl TINF_DATA_ERROR)
    else
      b2 ← get src 2;
      if negb (b2 =? 8) then Ret (inl TINF_DATA_ERROR)
      else
        flg ← get src 3;
        if negb (Z.land flg 0xE0 =? 0) then Ret (inl TINF_DATA_ERROR)
        else
          start ← (if Z.land flg FEXTRA =? 0 then Ret (inr 10%nat)
                   else
                     xlen ← read_le16 src 10;
                     if Z.of_nat sourceLen - 12 <? xlen then Ret (inl TINF_DATA_ERROR)
                     else Ret (inr (10 + (Z.to_nat xlen + 2))%nat));
          start ← skip_field (negb (Z.land flg FNAME =? 0)) src start sourceLen;
          start ← skip_field (negb (Z.land flg FCOMMENT =? 0)) src start sourceLen;
          match (start : Z + nat) with
          | inl res => Ret (inl res)
          | inr start =>
              let start := if Z.land flg FHCRC =? 0 then start else (start + 2)%nat in
              if Z.of_nat sourceLen - Z.of_nat start <? 8 then Ret (inl TINF_DATA_ERROR)
              else Ret (inr start)
          end.

Definition tinf_gzip_uncompress (st : stack) (src : list Z) (sourceLen : nat)
    : outcome (Z * list Z) :=
  r ← gzip_header src sourceLen;
  match (r : Z + nat) with
  | inl res => Ret (res, [])
  | inr start =>
      r ← tinf_uncompress st src start (sourceLen - start - 8);
      let '(res, o) := (r : Z * list Z) in
      if negb (res =? TINF_OK) then Ret (TINF_DATA_ERROR, o) else Ret (TINF_OK, o)
  end.
