(* ===== verification/TinfTree.v ===== *)
(** * Bits and Huffman trees of the decompressor

    The bit reader reads a bit stream; the trees are the canonical codes of RFC 1951. *)

From S2P Require Import Prelude Bytes Tinf.

(** * The bit reader of tinflate.c reads a bit stream

    [pending d] is the list of bits the reader has left, first the ones in its
    tag, then those of the unread bytes, least significant bit first.
    [tinf_getbits] takes its bits from the front of that list, or sets
    [overflow]. *)

(** ** Numbers as bit lists, least significant bit first *)

Fixpoint bits (n : nat) (v : Z) : list bool :=
  match n with O => [] | S n => Z.odd v :: bits n (v / 2) end.

Fixpoint val (l : list bool) : Z :=
  match l with [] => 0 | b :: l => Z.b2z b + 2 * val l end.

Lemma length_bits_n n v : length (bits n v) = n.
Proof. revert v. induction n; simpl; auto. Qed.

Lemma val_range l : 0 <= val l < 2 ^ Z.of_nat (length l).
Proof.
  induction l as [|b l IH]; [done|]. cbn [val length].
  rewrite Nat2Z.inj_succ, Z.pow_succ_r by lia. destruct b; cbn [Z.b2z]; lia.
Qed.

Lemma odd_half v : v = Z.b2z (Z.odd v) + 2 * (v / 2).
Proof.
  pose proof (Z.div_mod v 2 ltac:(lia)) as H. rewrite Zmod_odd in H.
  destruct (Z.odd v); cbn [Z.b2z]; lia.
Qed.

Lemma odd_b2z b v : Z.odd (Z.b2z b + 2 * v) = b.
Proof. rewrite Z.odd_add, Z.odd_mul. cbn. by destruct b. Qed.

Lemma half_b2z b v : (Z.b2z b + 2 * v) / 2 = v.
Proof.
  symmetry. apply (Z.div_unique_pos _ _ _ (Z.b2z b)); [destruct b; cbn; lia|lia].
Qed.

Lemma bits_val l : bits (length l) (val l) = l.
Proof.
  induction l as [|b l IH]; [done|]. cbn [val length bits].
  by rewrite odd_b2z, half_b2z, IH.
Qed.

Lemma val_bits n v : 0 <= v < 2 ^ Z.of_nat n -> val (bits n v) = v.
Proof.
  revert v. induction n as [|n IH]; intros v Hv; [cbn in *; lia|].
  rewrite Nat2Z.inj_succ, Z.pow_succ_r in Hv by lia. cbn [bits val].
  pose proof (odd_half v). assert (v / 2 < 2 ^ Z.of_nat n) by (apply Z.div_lt_upper_bound; lia).
  rewrite IH by (split; [apply Z.div_pos|]; lia). lia.
Qed.

Lemma val_app l1 l2 : val (l1 ++ l2) = val l1 + 2 ^ Z.of_nat (length l1) * val l2.
Proof.
  induction l1 as [|b l1 IH]; cbn [val length app]; [lia|].
  rewrite IH, Nat2Z.inj_succ, Z.pow_succ_r by lia. lia.
Qed.

Lemma bits_app n m u v : 0 <= u < 2 ^ Z.of_nat n -> 0 <= v < 2 ^ Z.of_nat m ->
  bits (n + m) (u + 2 ^ Z.of_nat n * v) = bits n u ++ bits m v.
Proof.
  intros Hu Hv. rewrite <- (bits_val (bits n u ++ bits m v)).
  by rewrite val_app, length_app, !length_bits_n, !val_bits.
Qed.

Lemma bits_split n m v : 0 <= v -> (n <= m)%nat ->
  bits n (v `mod` 2 ^ Z.of_nat n) = take n (bits m v)
  /\ bits (m - n) (v / 2 ^ Z.of_nat n) = drop n (bits m v).
Proof.
  revert m v. induction n as [|n IH]; intros m v Hv Hm.
  { by rewrite Z.div_1_r, Nat.sub_0_r, take_0, drop_0. }
  destruct m as [|m]; [lia|]. cbn [bits Nat.sub]. rewrite !firstn_cons, !skipn_cons.
  destruct (IH m (v / 2) (Z.div_pos v 2 Hv ltac:(lia)) ltac:(lia)) as [<- <-].
  rewrite Nat2Z.inj_succ, Z.pow_succ_r by lia. split; [|by rewrite Z.div_div by lia].
  pose proof (odd_half v). rewrite (Z.rem_mul_r v) by lia.
  rewrite Zmod_odd. change (if Z.odd v then 1 else 0) with (Z.b2z (Z.odd v)).
  by rewrite odd_b2z, half_b2z.
Qed.

(** The bits of a sequence of bytes. *)
Fixpoint byte_bits (l : list Z) : list bool :=
  match l with [] => [] | b :: l => bits 8 b ++ byte_bits l end.

Lemma length_byte_bits l : length (byte_bits l) = (8 * length l)%nat.
Proof.
  induction l as [|b l IH]; [done|]. cbn [byte_bits].
  rewrite length_app, length_bits_n, IH. cbn [length]. lia.
Qed.

Lemma byte_bits_app l1 l2 : byte_bits (l1 ++ l2) = byte_bits l1 ++ byte_bits l2.
Proof. induction l1 as [|b l1 IH]; [done|]. cbn [byte_bits app]. by rewrite IH, app_assoc. Qed.

(** ** The reader *)

Definition pending (d : tinf_data) : list bool :=
  bits (Z.to_nat d.(bitcount)) d.(tag)
  ++ byte_bits (slice d.(source) (d.(source_end) - d.(source)) d.(mem)).

(** The part of the decoder state the bit reader does not touch. *)
Definition env (d : tinf_data) := (d.(mem), d.(source_end), d.(out), d.(ltree), d.(dtree)).

(** The reader holds at least [lo] and at most [hi] bits. *)
Record reader (lo hi : Z) (d : tinf_data) : Prop := {
  rd_source : (d.(source) <= d.(source_end) <= length d.(mem))%nat;
  rd_count : lo <= d.(bitcount) <= hi;
  rd_lo : 0 <= lo;
  rd_tag : 0 <= d.(tag) < 2 ^ d.(bitcount);
  rd_mem : Forall is_byte d.(mem);
  rd_over : d.(overflow) = 0 \/ d.(source) = d.(source_end)
}.

(** Between operations less than a byte is held back. *)
Abbreviation ready := (reader 0 7).

(** [d'] is [d] after reading bits [bs] off the front. *)
Definition reads (d : tinf_data) (bs : list bool) (d' : tinf_data) : Prop :=
  env d' = env d /\ d'.(overflow) = d.(overflow) /\ pending d = bs ++ pending d'.

(** The input ended: the reader pads with zeros and remembers it. *)
Definition starved (d d' : tinf_data) : Prop := env d' = env d /\ d'.(overflow) = 1.

Lemma refill_byte d b lo hi : reader lo hi d -> (d.(source) < d.(source_end))%nat ->
  d.(bitcount) <= 24 -> d.(mem) !! d.(source) = Some b ->
  let d' := set_bits d (S d.(source)) (Z.lor d.(tag) (u32 (Z.shiftl b d.(bitcount))))
              (d.(bitcount) + 8) d.(overflow) in
  reader (d.(bitcount) + 8) (d.(bitcount) + 8) d' /\ pending d' = pending d.
Proof.
  intros [Hs Hc Hlo Ht Hm Hov] Hlt H24 Hb d'. pose proof (Forall_lookup_1 _ _ _ _ Hm Hb) as Hbb.
  unfold is_byte in Hbb.
  assert (Z.lor d.(tag) (u32 (Z.shiftl b d.(bitcount))) = d.(tag) + 2 ^ d.(bitcount) * b) as E.
  { rewrite <- lor_add by lia. f_equal. apply u32_small. rewrite Z.shiftl_mul_pow2 by lia.
    assert (2 ^ d.(bitcount) <= 2 ^ 24) by (apply Z.pow_le_mono_r; lia). nia. }
  assert (2 ^ (d.(bitcount) + 8) = 2 ^ d.(bitcount) * 256) as E8 by (rewrite Z.pow_add_r; lia).
  split.
  - split; cbn [d' set_bits source source_end mem bitcount tag overflow]; [lia|lia|lia| |done|left; lia].
    rewrite E, E8. nia.
  - unfold pending, d'. cbn [set_bits source source_end mem bitcount tag]. rewrite E.
    replace (Z.to_nat (bitcount d + 8)) with (Z.to_nat (bitcount d) + 8)%nat by lia.
    assert (2 ^ bitcount d = 2 ^ Z.of_nat (Z.to_nat (bitcount d))) as E2 by (f_equal; lia).
    rewrite E2, bits_app by (rewrite <- ?E2; cbn; lia). rewrite <- app_assoc. f_equal.
    unfold slice. rewrite (drop_S (mem d) b (source d) Hb).
    replace (source_end d - source d)%nat with (S (source_end d - S (source d))) by lia. done.
Qed.

Lemma reads_refl d : reads d [] d.
Proof. done. Qed.

Lemma reads_trans d1 d2 d3 b1 b2 : reads d1 b1 d2 -> reads d2 b2 d3 -> reads d1 (b1 ++ b2) d3.
Proof.
  intros (E1 & O1 & P1) (E2 & O2 & P2). split_and!; [congruence..|].
  by rewrite P1, P2, app_assoc.
Qed.

(** The outcome of asking for [num] bits. *)
Definition got (num : Z) (d : tinf_data) (bs : list bool) (d' : tinf_data) : Prop :=
  reads d bs d' \/ (starved d d' /\ Z.of_nat (length (pending d)) < num).

Lemma pending_length d lo hi : reader lo hi d ->
  Z.of_nat (length (pending d)) = d.(bitcount) + 8 * Z.of_nat (d.(source_end) - d.(source)).
Proof.
  intros [Hs Hc Hlo Ht Hm Hov]. unfold pending. rewrite length_app, length_bits_n.
  rewrite length_byte_bits, length_slice by lia. lia.
Qed.

Lemma refill_spec fuel d num : reader 0 (num + 7) d -> num <= 16 ->
  num - d.(bitcount) <= 8 * Z.of_nat fuel ->
  exists d', refill_loop fuel d num = Ret d' /\ reader (Z.max 0 num) (num + 7) d' /\ got num d [] d'.
Proof.
  revert d. induction fuel as [|fuel IH]; intros d Hr Hn Hf; cbn [refill_loop].
  - case_b; [lia|]. exists d. split; [done|]. split; [|left; apply reads_refl]. destruct Hr. split; try done; lia.
  - split_ltb (bitcount d) num; [|exists d; split; [done|]; split; [|left; apply reads_refl]; destruct Hr; split; try done; lia].
    case_decide as Hsrc.
    + (* the input is exhausted *)
      cbn [mbind outcome_bind]. match goal with |- context [refill_loop fuel ?x num] => set (d1 := x) end.
      destruct (IH d1) as (d' & E1 & Hr' & Hg); [|done|cbn in *; lia|].
      { destruct Hr as [Hs Hc Hlo Ht Hm Hov]. split; cbn in *; [lia|lia|lia| |done|by right].
        rewrite Z.pow_add_r by lia. lia. }
      exists d'. split; [done|]. split; [done|]. right. split.
      * destruct Hg as [(E2 & O2 & _)|[[E2 O2] _]]; split; try done; by rewrite E2.
      * rewrite (pending_length d 0 (num + 7)) by done. lia.
    + destruct Hr as [Hs Hc Hlo Ht Hm Hov] eqn:EHr. clear EHr.
      destruct (lookup_lt_is_Some_2 (mem d) (source d) ltac:(lia)) as [b Hb].
      rewrite (proj2 (Z.leb_gt 32 (bitcount d))) by lia.
      rewrite (get_lookup _ _ _ Hb). cbn [mbind outcome_bind set_bits source tag bitcount overflow].
      destruct (refill_byte d b 0 (num + 7)) as [Hr1 Hp1]; [done|lia|lia|done|].
      match goal with |- context [refill_loop fuel ?x num] => set (d1 := x) end.
      change (reader (bitcount d + 8) (bitcount d + 8) d1) in Hr1.
      change (pending d1 = pending d) in Hp1.
      destruct (IH d1) as (d' & E1 & Hr' & Hg); [|done|cbn; lia|].
      { destruct Hr1 as [Hs1 Hc1 Hlo1 Ht1 Hm1 Hov1]. split; [done|cbn in *; lia|lia|done..]. }
      exists d'. split; [done|]. split; [done|].
      destruct Hg as [(E2 & O2 & P2)|[[E2 O2] L2]].
      * left. split_and!; [by rewrite E2|by rewrite O2|congruence].
      * right. rewrite Hp1 in L2. by split; [split; [rewrite E2|]|].
Qed.

(** [tinf_getbits] returns the next [num] bits as a number. *)
Lemma getbits_spec d num : ready d -> 0 <= num <= 16 ->
  exists v d', tinf_getbits d num = Ret (v, d') /\ ready d' /\ 0 <= v < 2 ^ num
    /\ got num d (bits (Z.to_nat num) v) d'.
Proof.
  intros Hr Hn. destruct (refill_spec 4 d num) as (d1 & E1 & Hr1 & Hg);
    [destruct Hr; split; try done; lia|lia|destruct Hr; lia|].
  unfold tinf_getbits, tinf_refill. rewrite E1. cbn [mbind outcome_bind].
  unfold tinf_getbits_no_refill. eexists _, _. split; [reflexivity|].
  destruct Hr1 as [Hs Hc Hlo Ht Hm Hov].
  assert (Z.land (tag d1) (Z.shiftl 1 num - 1) = tag d1 `mod` 2 ^ num) as ->.
  { rewrite Z.shiftl_1_l, Z.sub_1_r, <- Z.ones_equiv. apply Z.land_ones. lia. }
  rewrite Z.shiftr_div_pow2 by lia.
  destruct (bits_split (Z.to_nat num) (Z.to_nat (bitcount d1)) (tag d1)) as [B1 B2]; [lia..|].
  rewrite Z2Nat.id in B1, B2 by lia. split.
  { split; cbn; [done|lia|lia| |done|done].
    split; [apply Z.div_pos; lia|]. apply Z.div_lt_upper_bound; [lia|].
    rewrite <- Z.pow_add_r by lia. replace (num + (bitcount d1 - num)) with (bitcount d1) by lia. lia. }
  split; [apply Z.mod_pos_bound; lia|].
  destruct Hg as [(E2 & O2 & P2)|[[E2 O2] L2]]; [left|right; done].
  split_and!; [done|done|]. rewrite P2, B1. cbn [app]. unfold pending at 2.
  cbn [set_bits bitcount tag source source_end mem]. rewrite app_assoc. unfold pending. f_equal.
  rewrite <- (take_drop (Z.to_nat num) (bits (Z.to_nat (bitcount d1)) (tag d1))) at 1. f_equal.
  rewrite <- B2. f_equal. lia.
Qed.

(** * Huffman trees of tinflate.c are the canonical codes of RFC 1951

    The code of a symbol is defined as in section 3.2.2 of the RFC;
    [tinf_build_tree] prepares the tables with which [tinf_decode_symbol]
    recognises exactly these codes, and it accepts a list of code lengths
    exactly when the code it describes is complete (or has at most one code,
    of one bit). *)

(** ** Canonical codes *)

Module Huff.

(** Number of codes of length [l] (0: the symbol is not used). *)
Definition bl_count (ls : list Z) (l : nat) : Z :=
  if decide (l = 0%nat) then 0 else Z.of_nat (length (filter (fun x => x = Z.of_nat l) ls)).

(** Smallest code of each length, from the number of codes of each length. *)
Fixpoint next_code (c : nat -> Z) (l : nat) : Z :=
  match l with O => 0 | S l => 2 * (next_code c l + c l) end.

(** Number of codes shorter than [l] bits. *)
Fixpoint shorter (c : nat -> Z) (l : nat) : Z :=
  match l with O => 0 | S l => shorter c l + c l end.

(** The code of symbol [i], of length [l]: codes of one length are consecutive,
    in the order of the symbols. *)
Definition code (ls : list Z) (i l : nat) : Z :=
  next_code (bl_count ls) l + bl_count (take i ls) l.

(** Codes are packed most significant bit first. *)
Definition code_bits (ls : list Z) (i : nat) : list bool :=
  let l := Z.to_nat (ls !!! i) in rev (bits l (code ls i l)).

(** Bit strings of length [l] not used up by shorter codes. *)
Definition avail (c : nat -> Z) (l : nat) : Z := 2 ^ Z.of_nat l - next_code c l.

(** No length has more codes than there are strings left (up to 15 bits). *)
Definition fits (c : nat -> Z) : Prop := forall l, (l < 16)%nat -> c l <= avail c l.

(** Every string of 15 bits starts with a code. *)
Definition complete (c : nat -> Z) : Prop := fits c /\ avail c 16 = 0.

End Huff.
Import Huff.

Section counts.
Context (c : nat -> Z) (Hc : forall l, 0 <= c l).

Lemma next_code_nonneg l : 0 <= next_code c l.
Proof. induction l; cbn; [lia|]. specialize (Hc l). lia. Qed.

Lemma shorter_mono l m : (l <= m)%nat -> shorter c l <= shorter c m.
Proof. induction 1 as [|m _ IH]; cbn; [lia|]. specialize (Hc m). lia. Qed.

Lemma shorter_nonneg l : 0 <= shorter c l.
Proof. apply (shorter_mono 0 l). lia. Qed.

Lemma shorter_S l : shorter c (S l) = shorter c l + c l.
Proof. reflexivity. Qed.

Lemma shorter_0 : shorter c 0 = 0.
Proof. reflexivity. Qed.

Lemma avail_0 : avail c 0 = 1.
Proof. reflexivity. Qed.

Lemma avail_le l : avail c l <= 2 ^ Z.of_nat l.
Proof. unfold avail. pose proof (next_code_nonneg l). lia. Qed.

Lemma avail_S l : avail c (S l) = 2 * (avail c l - c l).
Proof. unfold avail. rewrite Nat2Z.inj_succ, Z.pow_succ_r by lia. cbn [next_code]. lia. Qed.

(** Codes of [j + n] bits are above every extension of a code of [j] bits. *)
Lemma next_code_grow j n : 2 ^ Z.of_nat (S n) * (next_code c j + c j) <= next_code c (j + S n).
Proof.
  induction n as [|n IH].
  - replace (j + 1)%nat with (S j) by lia. cbn [next_code]. change (2 ^ Z.of_nat 1) with 2. lia.
  - replace (j + S (S n))%nat with (S (j + S n)) by lia. cbn [next_code].
    rewrite Nat2Z.inj_succ, Z.pow_succ_r by lia. specialize (Hc (j + S n)%nat). lia.
Qed.
End counts.

Lemma next_code_ext c c' l : (forall k, (k < l)%nat -> c k = c' k) -> next_code c l = next_code c' l.
Proof. induction l as [|l IH]; intros H; [done|]. cbn. rewrite IH, H; auto with lia. Qed.

Lemma shorter_ext c c' l : (forall k, (k < l)%nat -> c k = c' k) -> shorter c l = shorter c' l.
Proof. induction l as [|l IH]; intros H; [done|]. cbn. rewrite IH, H; auto with lia. Qed.

Lemma bl_count_nonneg ls l : 0 <= bl_count ls l.
Proof. unfold bl_count. case_decide; lia. Qed.

Lemma bl_count_nil l : bl_count [] l = 0.
Proof. unfold bl_count. by case_decide. Qed.

Lemma bl_count_snoc ls x l :
  bl_count (ls ++ [x]) l = bl_count ls l + (if decide (l <> 0%nat /\ x = Z.of_nat l) then 1 else 0).
Proof.
  unfold bl_count. rewrite filter_app, length_app, filter_cons, filter_nil.
  repeat case_decide; cbn; try lia; naive_solver.
Qed.

Lemma shorter_snoc ls x l : shorter (bl_count (ls ++ [x])) l =
  shorter (bl_count ls) l + (if decide (0 < x < Z.of_nat l) then 1 else 0).
Proof.
  induction l as [|l IH]; [by case_decide; [lia|]|]. cbn [shorter]. rewrite IH, bl_count_snoc.
  repeat case_decide; lia.
Qed.

(** At most one code per symbol. *)
Lemma shorter_length ls l : shorter (bl_count ls) l <= Z.of_nat (length ls).
Proof.
  induction ls as [|x ls IH] using rev_ind.
  - induction l as [|l IH]; [done|]. cbn [shorter]. unfold bl_count at 2. case_decide; cbn in *; lia.
  - rewrite shorter_snoc, length_app. cbn. case_decide; lia.
Qed.

Lemma bl_count_take ls i x l : ls !! i = Some x ->
  bl_count (take (S i) ls) l =
  bl_count (take i ls) l + (if decide (l <> 0%nat /\ x = Z.of_nat l) then 1 else 0).
Proof. intros H. by rewrite (take_S_r _ _ x), bl_count_snoc. Qed.

Lemma bl_count_prefix ls i j l : (i <= j)%nat -> bl_count (take i ls) l <= bl_count (take j ls) l.
Proof.
  induction 1 as [|j Hj IH]; [lia|]. destruct (ls !! j) as [x|] eqn:E.
  - rewrite (bl_count_take _ _ _ _ E). case_decide; lia.
  - apply lookup_ge_None in E. rewrite (take_ge ls (S j)) by lia.
    by rewrite (take_ge ls j) in IH by lia.
Qed.

(** The rank of a symbol among those of its length. *)
Lemma rank_lt ls i j l : l <> 0%nat -> ls !! i = Some (Z.of_nat l) -> (i < j)%nat ->
  bl_count (take i ls) l < bl_count (take j ls) l.
Proof.
  intros Hl Hi Hj. pose proof (bl_count_prefix ls (S i) j l Hj) as H.
  rewrite (bl_count_take _ _ _ _ Hi), decide_True in H by done. lia.
Qed.

Lemma rank_lt_count ls i l : l <> 0%nat -> ls !! i = Some (Z.of_nat l) ->
  bl_count (take i ls) l < bl_count ls l.
Proof.
  intros Hl Hi. pose proof (rank_lt ls i (length ls) l Hl Hi) as H.
  rewrite (take_ge ls (length ls)) in H by lia. apply H. by apply lookup_lt_Some in Hi.
Qed.

(** ** Decoding a symbol *)

(** Value of a bit string read most significant bit first, after [p]. *)
Definition msb_val (p : Z) (w : list bool) : Z := foldl (fun a b => 2 * a + Z.b2z b) p w.

Lemma msb_val_upper p w : msb_val p w < (p + 1) * 2 ^ Z.of_nat (length w).
Proof.
  revert p. induction w as [|b w IH]; intros p; [cbn; lia|]. cbn [msb_val foldl length].
  specialize (IH (2 * p + Z.b2z b)). unfold msb_val in *.
  rewrite Nat2Z.inj_succ, Z.pow_succ_r by lia. destruct b; cbn [Z.b2z] in *; nia.
Qed.

Lemma msb_val_rev_bits n v : 0 <= v < 2 ^ Z.of_nat n -> msb_val 0 (rev (bits n v)) = v.
Proof.
  unfold msb_val. intros Hv. rewrite <- (val_bits n v Hv) at 2.
  generalize (bits n v). induction l as [|b l IH]; [done|].
  cbn [rev val]. rewrite foldl_app. cbn [foldl]. rewrite IH. lia.
Qed.

Lemma getbit d b w : ready d -> pending d = b :: w ->
  exists d', tinf_getbits d 1 = Ret (Z.b2z b, d') /\ ready d' /\ reads d [b] d' /\ pending d' = w.
Proof.
  intros Hr Hp. destruct (getbits_spec d 1 Hr) as (v & d' & E & Hr' & Hv & Hg); [lia|].
  destruct Hg as [(E1 & O1 & P1)|[_ Hl]]; [|rewrite Hp in Hl; cbn in Hl; lia].
  change (Z.to_nat 1) with 1%nat in P1. cbn [bits app] in P1. rewrite Hp in P1.
  injection P1 as Eb Ew. assert (v = Z.b2z b) as ->.
  { subst b. assert (v = 0 \/ v = 1) as [-> | ->] by lia; done. }
  exists d'. split_and!; [done|done| |done]. split_and!; [done|done|by rewrite Hp, Ew].
Qed.

Section decode.
Context (t : tinf_tree) (c : nat -> Z).
Hypothesis Hc : forall l, 0 <= c l.
Hypothesis Hcounts : forall l, (l < 16)%nat -> t.(counts) !! l = Some (c l).

(** Having read [k] bits of value [p], which start no code, the decoder finds
    the code [p ++ w]. *)
Lemma decode_loop_code w fuel k p d rest l s :
  ready d -> pending d = w ++ rest -> w <> [] -> (length w <= fuel)%nat ->
  (l = k + length w)%nat -> (l < 16)%nat ->
  next_code c l <= msb_val p w < next_code c l + c l ->
  t.(symbols) !! Z.to_nat (shorter c l + (msb_val p w - next_code c l)) = Some s ->
  exists d', decode_loop fuel t d (S k) (shorter c (S k)) (p - next_code c k - c k) = Ret (s, d')
    /\ ready d' /\ reads d w d' /\ pending d' = rest.
Proof.
  revert fuel k p d. induction w as [|b w IH]; intros fuel k p d Hr Hp Hw Hf Hl Hl16 Hv Hs; [done|].
  destruct fuel as [|fuel]; [cbn in Hf; lia|]. cbn [decode_loop].
  destruct (getbit d b (w ++ rest) Hr Hp) as (d1 & -> & Hr1 & Hrd & Hp1). cbn [mbind outcome_bind].
  rewrite (get_lookup _ _ _ (Hcounts (S k) ltac:(cbn in Hl; lia))). cbn [mbind outcome_bind].
  replace (2 * (p - next_code c k - c k) + Z.b2z b) with (2 * p + Z.b2z b - next_code c (S k))
    by (cbn [next_code]; lia).
  cbn [msb_val foldl] in Hv, Hs. fold (msb_val (2 * p + Z.b2z b) w) in Hv, Hs.
  destruct w as [|b' w'].
  - cbn [length msb_val foldl app] in *. replace l with (S k) in * by lia.
    rewrite (proj2 (Z.ltb_lt _ _)) by lia.
    rewrite (get_lookup _ _ _ Hs). cbn [mbind outcome_bind]. eauto.
  - pose proof (msb_val_upper (2 * p + Z.b2z b) (b' :: w')) as Hu.
    pose proof (next_code_grow c Hc (S k) (length w')) as Hg.
    replace (S k + S (length w'))%nat with l in Hg by (cbn in Hl; lia). cbn [length] in Hu.
    rewrite (proj2 (Z.ltb_ge _ _)) by nia.
    replace (shorter c (S k) + c (S k)) with (shorter c (S (S k))) by done.
    destruct (IH fuel (S k) (2 * p + Z.b2z b) d1) as (d2 & E2 & Hr2 & Hrd2 & Hp2);
      [done|done|done|cbn in *; lia|cbn in *; lia|done..|].
    exists d2. split_and!; [done|done| |done]. by apply (reads_trans _ d1 _ [b]).
Qed.

Lemma decode_code v l d rest s :
  ready d -> (0 < l < 16)%nat -> 0 <= v < 2 ^ Z.of_nat l -> c 0%nat = 0 ->
  pending d = rev (bits l v) ++ rest ->
  next_code c l <= v < next_code c l + c l ->
  t.(symbols) !! Z.to_nat (shorter c l + (v - next_code c l)) = Some s ->
  exists d', tinf_decode_symbol d t = Ret (s, d') /\ ready d' /\ reads d (rev (bits l v)) d'.
Proof.
  intros Hr Hl Hv H0 Hp Hn Hs.
  destruct (decode_loop_code (rev (bits l v)) 16 0 0 d rest l s) as (d' & E & Hr' & Hrd & _);
    rewrite ?msb_val_rev_bits, ?length_rev, ?length_bits_n by done; try done; try lia.
  { intros E%(f_equal length). rewrite length_rev, length_bits_n in E. cbn in E. lia. }
  exists d'. split; [|done]. unfold tinf_decode_symbol. cbn [shorter next_code] in E.
  by rewrite H0 in E.
Qed.

(** On any input a complete code ends within 15 bits, at an entry of the table. *)
Lemma decode_loop_total fuel k offs d : complete c -> ready d ->
  (k < 16)%nat -> (16 <= k + fuel)%nat -> 0 <= offs < avail c k - c k ->
  exists i d', (decode_loop fuel t d (S k) (shorter c (S k)) offs
      = s ← get t.(symbols) i; Ret (s, d'))
    /\ Z.of_nat i < shorter c 16 /\ ready d'
    /\ ((exists w, w <> [] /\ reads d w d') \/ starved d d').
Proof.
  intros [Hfit Hcomp]. revert k offs d.
  induction fuel as [|fuel IH]; intros k offs d Hr Hk Hf Ho; [lia|].
  assert (S k < 16)%nat as Hk1.
  { destruct (decide (k = 15)%nat) as [->|]; [|lia]. rewrite avail_S in Hcomp. lia. }
  cbn [decode_loop]. destruct (getbits_spec d 1 Hr) as (b & d1 & -> & Hr1 & Hb & Hg); [lia|].
  cbn [mbind outcome_bind]. rewrite (get_lookup _ _ _ (Hcounts (S k) Hk1)). cbn [mbind outcome_bind].
  pose proof (avail_S c k) as Ha. pose proof (shorter_mono c Hc (S (S k)) 16 ltac:(lia)) as Hs16.
  pose proof (shorter_nonneg c Hc (S k)). rewrite (shorter_S c (S k)) in Hs16.
  assert ((exists w, w <> [] /\ reads d w d1) \/ starved d d1) as Hg1.
  { destruct Hg as [Hg|[Hg _]]; [left; eexists; split; [|exact Hg]; done|by right]. }
  split_ltb (2 * offs + b) (c (S k)).
  - exists (Z.to_nat (shorter c (S k) + (2 * offs + b))), d1.
    split_and!; [done|lia|done|done].
  - destruct (IH (S k) (2 * offs + b - c (S k)) d1) as (i & d' & E1 & Hi & Hr' & Hg2);
      [done|lia|lia|lia|]. exists i, d'. split_and!; [done|done|done|].
    destruct Hg1 as [(w & Hw & R1)|[E2 O2]].
    + destruct Hg2 as [(w' & _ & R2)|[E3 O3]].
      * left. exists (w ++ w'). split; [by destruct w|]. by apply (reads_trans _ d1).
      * right. split; [|done]. destruct R1 as [E2 _]. congruence.
    + right. destruct Hg2 as [(w' & _ & E3 & O3 & _)|[E3 O3]]; split; congruence.
Qed.
End decode.
