(* ===== verification/TinfBuild.v ===== *)
(** * [tinf_build_tree] builds the tables of the canonical code

    The counting, the offset table and the distribution sort, and what they
    amount to: [tree_of ls t]. *)

From S2P Require Import Prelude Bytes Tinf TinfTree.

Import Huff.
#[local] Opaque shorter next_code avail bl_count.

(** A code length. *)
Definition len_ok (x : Z) : Prop := 0 <= x <= 15.

Definition cnts (ls : list Z) : list Z := bl_count ls <$> seq 0 16.

Lemma lookup_cnts ls k : (k < 16)%nat -> cnts ls !! k = Some (bl_count ls k).
Proof. intros Hk. unfold cnts. rewrite list_lookup_fmap, lookup_seq_lt by done. done. Qed.

Lemma length_cnts ls : length (cnts ls) = 16%nat.
Proof. done. Qed.

Lemma cnts_snoc ls x : len_ok x -> x <> 0 ->
  <[Z.to_nat x := bl_count ls (Z.to_nat x) + 1]> (cnts ls) = cnts (ls ++ [x]).
Proof.
  intros Hx H0. apply list_eq. intros k. destruct (decide (k < 16)%nat).
  - rewrite lookup_cnts by done. rewrite bl_count_snoc. unfold len_ok in Hx.
    destruct (decide (k = Z.to_nat x)) as [->|Hne].
    + rewrite list_lookup_insert_eq by (rewrite length_cnts; lia). case_decide; f_equal; lia.
    + rewrite list_lookup_insert_ne, lookup_cnts by done. case_decide; f_equal; lia.
  - rewrite !lookup_ge_None_2; [done|rewrite length_cnts; lia|rewrite length_insert, length_cnts; lia].
Qed.

Lemma cnts_snoc_0 ls : cnts (ls ++ [0]) = cnts ls.
Proof.
  unfold cnts. apply list_fmap_ext. intros i k _. rewrite bl_count_snoc. case_decide; lia.
Qed.

(** Index of the last symbol that has a code; -1 when there is none. *)
Fixpoint last_nz (i : nat) (ls : list Z) (m : Z) : Z :=
  match ls with
  | [] => m
  | x :: ls => last_nz (S i) ls (if x =? 0 then m else Z.of_nat i)
  end.

Lemma last_nz_snoc i ls x m :
  last_nz i (ls ++ [x]) m = if x =? 0 then last_nz i ls m else Z.of_nat (i + length ls).
Proof.
  revert i m. induction ls as [|y ls IH]; intros i m; cbn [app last_nz length].
  - by rewrite Nat.add_0_r.
  - rewrite IH. by replace (S i + length ls)%nat with (i + S (length ls))%nat by lia.
Qed.

Lemma last_nz_range ls : -1 <= last_nz 0 ls (-1) < Z.of_nat (length ls).
Proof.
  induction ls as [|x ls IH] using rev_ind; [done|].
  rewrite last_nz_snoc, length_app. cbn. case_b; lia.
Qed.

Lemma last_nz_le ls i x : ls !! i = Some x -> x <> 0 -> Z.of_nat i <= last_nz 0 ls (-1).
Proof.
  induction ls as [|y ls IH] using rev_ind; [done|]. intros Hi Hx.
  rewrite last_nz_snoc. pose proof (lookup_lt_Some _ _ _ Hi) as Hl. rewrite length_app in Hl.
  cbn in *. case_b; [|lia]. apply IH; [|done].
  apply lookup_app_Some in Hi as [|[Hge Hi]]; [done|].
  apply list_lookup_singleton_Some in Hi as [_ ->]. done.
Qed.

Lemma last_nz_none ls : last_nz 0 ls (-1) = -1 -> forall l, bl_count ls l = 0.
Proof.
  induction ls as [|y ls IH] using rev_ind; intros H l.
  - apply bl_count_nil.
  - rewrite last_nz_snoc in H. rewrite bl_count_snoc. case_b; [|lia].
    rewrite IH by done. case_decide; lia.
Qed.

Lemma last_nz_Some ls : last_nz 0 ls (-1) <> -1 -> exists i x, ls !! i = Some x /\ x <> 0.
Proof.
  induction ls as [|y ls IH] using rev_ind; [done|]. rewrite last_nz_snoc. case_b; intros H.
  - destruct (IH H) as (i & x & Hi & Hx). exists i, x. split; [|done].
    rewrite lookup_app_l; [done|]. by eapply lookup_lt_Some.
  - exists (length ls), y. split; [|done]. by rewrite list_lookup_middle.
Qed.

(** ** The three loops *)

Lemma count_lengths_spec lengths n i : (i + n <= length lengths)%nat -> Z.of_nat (i + n) <= 65535 ->
  Forall len_ok (take (i + n) lengths) ->
  count_lengths lengths i n (cnts (take i lengths)) (last_nz 0 (take i lengths) (-1))
  = Ret (cnts (take (i + n) lengths), last_nz 0 (take (i + n) lengths) (-1)).
Proof.
  revert i. induction n as [|n IH]; intros i Hl H16 Hok; [by rewrite Nat.add_0_r|].
  cbn [count_lengths]. destruct (lookup_lt_is_Some_2 lengths i ltac:(lia)) as [x Hx].
  rewrite (get_lookup _ _ _ Hx). cbn [mbind outcome_bind].
  replace (i + S n)%nat with (S i + n)%nat in * by lia.
  assert (len_ok x) as Hxok.
  { apply (Forall_lookup_1 _ _ i x Hok). rewrite lookup_take_lt by lia. exact Hx. }
  pose proof (take_S_r lengths i x Hx) as Et.
  assert (last_nz 0 (take (S i) lengths) (-1)
          = if x =? 0 then last_nz 0 (take i lengths) (-1) else Z.of_nat i) as El.
  { rewrite Et, last_nz_snoc, length_take. case_b; [done|]. lia. }
  destruct (x =? 0) eqn:E0.
  - apply Z.eqb_eq in E0. subst x. rewrite <- IH by (done || lia). by rewrite El, Et, cnts_snoc_0.
  - apply Z.eqb_neq in E0. unfold len_ok in Hxok.
    rewrite (get_lookup _ _ _ (lookup_cnts _ (Z.to_nat x) ltac:(lia))). cbn [mbind outcome_bind].
    rewrite put_lt by (rewrite length_cnts; lia). cbn [mbind outcome_bind].
    assert (u16 (bl_count (take i lengths) (Z.to_nat x) + 1) = bl_count (take i lengths) (Z.to_nat x) + 1) as ->.
    { apply Z.mod_small. pose proof (bl_count_nonneg (take i lengths) (Z.to_nat x)).
      pose proof (shorter_length (take i lengths) (S (Z.to_nat x))) as Hsl.
      rewrite shorter_S in Hsl.
      pose proof (shorter_nonneg _ (bl_count_nonneg (take i lengths)) (Z.to_nat x)).
      rewrite length_take in Hsl. lia. }
    rewrite cnts_snoc, <- Et by done. rewrite <- El. by apply IH; [lia|lia|].
Qed.

Section offsets.
Context (c : nat -> Z) (Hc : forall l, 0 <= c l) (cs : list Z).
Hypothesis Hcs : forall l, (l < 16)%nat -> cs !! l = Some (c l).
Hypothesis Hsmall : shorter c 16 <= 65535.

Lemma offset_table_spec n i : (i + n = 16)%nat -> (forall l, (l < i)%nat -> c l <= avail c l) ->
  offset_table cs i n (avail c i) (shorter c i) (shorter c <$> seq 0 i) =
  Ret (if bool_decide (Forall (fun l => c l <= avail c l) (seq i n))
       then Some (avail c 16, shorter c 16, shorter c <$> seq 0 16) else None).
Proof.
  revert i. induction n as [|n IH]; intros i Hi Hfit.
  - rewrite bool_decide_true by constructor. by replace i with 16%nat by lia.
  - cbn [offset_table seq]. rewrite (get_lookup _ _ _ (Hcs i ltac:(lia))). cbn [mbind outcome_bind].
    split_ltb (avail c i) (c i).
    { rewrite bool_decide_false; [done|]. intros H. apply Forall_cons in H as [H _]. lia. }
    pose proof (avail_le c Hc i).
    assert (2 ^ Z.of_nat i <= 2 ^ 15) by (apply Z.pow_le_mono_r; lia).
    pose proof (Hc i). pose proof (shorter_mono c Hc (S i) 16 ltac:(lia)) as Hm.
    pose proof (shorter_mono c Hc i 16 ltac:(lia)). pose proof (shorter_nonneg c Hc i).
    rewrite (shorter_S c i) in Hm.
    rewrite !u32_small by lia. replace (u16 (shorter c i)) with (shorter c i)
      by (symmetry; apply Z.mod_small; lia).
    rewrite <- avail_S, <- shorter_S.
    change ([shorter c i]) with (shorter c <$> [i]). rewrite <- fmap_app, <- seq_S.
    rewrite IH by (lia || (intros l Hl; destruct (decide (l = i)) as [->|]; [lia|apply Hfit; lia])).
    f_equal. apply (f_equal (fun b : bool => if b then _ else _)). apply bool_decide_ext.
    rewrite Forall_cons. naive_solver.
Qed.
End offsets.

(** The place of symbol [i], of code length [l], in the order of the codes. *)
Definition slot (ls : list Z) (i l : nat) : Z :=
  shorter (bl_count ls) l + bl_count (take i ls) l.

Lemma slot_range ls i l : l <> 0%nat -> ls !! i = Some (Z.of_nat l) ->
  shorter (bl_count ls) l <= slot ls i l < shorter (bl_count ls) (S l).
Proof.
  intros Hl Hi. unfold slot. rewrite shorter_S. pose proof (rank_lt_count ls i l Hl Hi).
  pose proof (bl_count_nonneg (take i ls) l). lia.
Qed.

Lemma slot_inj ls i j l k : l <> 0%nat -> k <> 0%nat -> ls !! i = Some (Z.of_nat l) ->
  ls !! j = Some (Z.of_nat k) -> slot ls i l = slot ls j k -> i = j.
Proof.
  intros Hl Hk Hi Hj E.
  pose proof (slot_range _ _ _ Hl Hi). pose proof (slot_range _ _ _ Hk Hj).
  pose proof (fun a b H => shorter_mono _ (bl_count_nonneg ls) a b H) as Hm.
  destruct (lt_eq_lt_dec l k) as [[Hlt| ->]|Hgt].
  - specialize (Hm (S l) k ltac:(lia)). lia.
  - unfold slot in E. destruct (lt_eq_lt_dec i j) as [[Hlt|]|Hgt]; [|done|].
    + pose proof (rank_lt ls i j k Hk Hi Hlt). lia.
    + pose proof (rank_lt ls j i k Hk Hj Hgt). lia.
  - specialize (Hm (S k) l ltac:(lia)). lia.
Qed.

(** The first [n] symbols are in their places. *)
Definition placed (ls : list Z) (n : nat) (syms : list Z) : Prop :=
  forall i l, (i < n)%nat -> l <> 0%nat -> ls !! i = Some (Z.of_nat l) ->
  syms !! Z.to_nat (slot ls i l) = Some (Z.of_nat i).

Definition u16_ok (x : Z) : Prop := 0 <= x < W16.

Section sorting.
Context (ls junk : list Z).
Hypothesis Hok : Forall len_ok ls.
Hypothesis Hlen : Z.of_nat (length ls) <= 288.

Lemma slot_small i l : l <> 0%nat -> (l < 16)%nat -> ls !! i = Some (Z.of_nat l) ->
  0 <= slot ls i l < Z.of_nat (length ls).
Proof.
  intros Hl H16 Hi. pose proof (slot_range ls i l Hl Hi).
  pose proof (shorter_nonneg _ (bl_count_nonneg ls) l).
  pose proof (shorter_length ls (S l)). lia.
Qed.

Lemma placed_put i l syms : l <> 0%nat -> (l < 16)%nat -> ls !! i = Some (Z.of_nat l) ->
  length syms = 288%nat -> placed ls i syms ->
  placed ls (S i) (<[Z.to_nat (slot ls i l) := Z.of_nat i]> syms).
Proof.
  intros Hl H16 Hi Hs Hp j k Hj Hk Hjk. pose proof (slot_small i l Hl H16 Hi).
  destruct (decide (j = i)) as [->|Hne].
  - rewrite Hi in Hjk. injection Hjk as E. replace k with l by lia.
    apply list_lookup_insert_eq. lia.
  - rewrite list_lookup_insert_ne; [apply Hp; [lia|done..]|].
    intros E. apply Hne, (slot_inj ls j i k l); try done.
    pose proof (slot_range ls j k Hk Hjk). pose proof (shorter_nonneg _ (bl_count_nonneg ls) k). lia.
Qed.

Lemma placed_skip i syms : ls !! i = Some 0 -> placed ls i syms -> placed ls (S i) syms.
Proof.
  intros Hi Hp j k Hj Hk Hjk. destruct (decide (j = i)) as [->|]; [|apply Hp; [lia|done..]].
  rewrite Hi in Hjk. injection Hjk. lia.
Qed.

Definition offs_at (i : nat) : list Z :=
  (fun k => shorter (bl_count ls) k + bl_count (take i ls) k) <$> seq 0 16.

Lemma lookup_offs_at i k : (k < 16)%nat -> offs_at i !! k = Some (slot ls i k).
Proof. intros Hk. unfold offs_at. by rewrite list_lookup_fmap, lookup_seq_lt. Qed.

Lemma offs_at_S i x : ls !! i = Some x -> len_ok x ->
  offs_at (S i) = if x =? 0 then offs_at i else <[Z.to_nat x := slot ls i (Z.to_nat x) + 1]> (offs_at i).
Proof.
  intros Hi Hx. unfold len_ok in Hx. apply list_eq. intros k. destruct (decide (k < 16)%nat).
  - rewrite lookup_offs_at by done. unfold slot. rewrite (bl_count_take _ _ _ _ Hi).
    case_b; [rewrite lookup_offs_at by done; unfold slot; case_decide; f_equal; lia|].
    destruct (decide (k = Z.to_nat x)) as [->|].
    + rewrite list_lookup_insert_eq by (cbn; lia). case_decide; f_equal; lia.
    + rewrite list_lookup_insert_ne, lookup_offs_at by done. unfold slot. case_decide; f_equal; lia.
  - rewrite !lookup_ge_None_2; [done|case_b; rewrite ?length_insert|]; cbn; lia.
Qed.

Lemma sort_symbols_spec n i syms : (i + n = length ls)%nat ->
  length syms = 288%nat -> Forall u16_ok syms -> placed ls i syms ->
  exists syms', sort_symbols (ls ++ junk) i n (offs_at i) syms = Ret syms'
    /\ length syms' = 288%nat /\ Forall u16_ok syms' /\ placed ls (length ls) syms'.
Proof.
  revert i syms. induction n as [|n IH]; intros i syms Hi Hs Hu Hp.
  { exists syms. split_and!; [done|done|done|]. by replace (length ls) with i by lia. }
  cbn [sort_symbols]. destruct (lookup_lt_is_Some_2 ls i ltac:(lia)) as [x Hx].
  rewrite (get_lookup _ i x) by (by rewrite lookup_app_l by lia). cbn [mbind outcome_bind].
  pose proof (Forall_lookup_1 _ _ _ _ Hok Hx) as Hxok. pose proof (offs_at_S i x Hx Hxok) as Eo.
  unfold len_ok in Hxok. destruct (x =? 0) eqn:E0; cbv iota in Eo.
  - apply Z.eqb_eq in E0. subst x. rewrite <- Eo. apply IH; [lia|done|done|]. by apply placed_skip.
  - apply Z.eqb_neq in E0. assert (Z.of_nat (Z.to_nat x) = x) as Ex by lia.
    assert (ls !! i = Some (Z.of_nat (Z.to_nat x))) as Hx' by (by rewrite Ex).
    pose proof (slot_small i (Z.to_nat x) ltac:(lia) ltac:(lia) Hx') as Hsl.
    rewrite (get_lookup _ _ _ (lookup_offs_at i (Z.to_nat x) ltac:(lia))). cbn [mbind outcome_bind].
    replace (u16 (slot ls i (Z.to_nat x) + 1)) with (slot ls i (Z.to_nat x) + 1)
      by (symmetry; apply Z.mod_small; lia).
    rewrite (put_lt (offs_at i)) by (cbn; lia). cbn [mbind outcome_bind]. rewrite <- Eo.
    rewrite put_lt by lia. cbn [mbind outcome_bind].
    apply IH; [lia|by rewrite length_insert| |by apply placed_put; [lia|lia|..]].
    apply Forall_insert; [done|]. unfold u16_ok. lia.
Qed.
End sorting.

(** ** The tree *)

Record tree_ok (t : tinf_tree) : Prop := {
  ok_counts : length t.(counts) = 16%nat;
  ok_symbols : length t.(symbols) = 288%nat;
  ok_u16 : Forall u16_ok t.(symbols)
}.

Definition num_codes (ls : list Z) : Z := shorter (bl_count ls) 16.

(** The counts the decoder works with: a single code is completed by a second
    one, for a symbol that is out of range. *)
Definition eff_count (ls : list Z) (l : nat) : Z :=
  if decide (num_codes ls = 1 /\ l = 1%nat) then 2 else bl_count ls l.

Record tree_of (ls : list Z) (t : tinf_tree) : Prop := {
  of_ok : tree_ok t;
  of_counts : forall l, (l < 16)%nat -> t.(counts) !! l = Some (eff_count ls l);
  of_placed : placed ls (length ls) t.(symbols);
  of_max : t.(max_sym) <> -1 -> num_codes ls > 0;
  of_fits : fits (bl_count ls);
  of_single : num_codes ls = 1 ->
    bl_count ls 1 = 1 /\ t.(symbols) !! 1%nat = Some (t.(max_sym) + 1);
  of_complete : num_codes ls > 1 -> avail (bl_count ls) 16 = 0
}.

(** The list of lengths describes a usable code. *)
Definition acceptable (ls : list Z) : Prop :=
  fits (bl_count ls) /\ (num_codes ls > 1 -> avail (bl_count ls) 16 = 0)
  /\ (num_codes ls = 1 -> bl_count ls 1 = 1).

Lemma fits_bool ls :
  bool_decide (Forall (fun l => bl_count ls l <= avail (bl_count ls) l) (seq 0 16)) = true
  <-> fits (bl_count ls).
Proof.
  rewrite bool_decide_eq_true, Forall_forall. unfold fits. split; intros H l Hl; apply H.
  - apply elem_of_seq. lia.
  - apply elem_of_seq in Hl. lia.
Qed.

Lemma avail_16_nonneg c : fits c -> 0 <= avail c 16.
Proof. intros H. rewrite avail_S. specialize (H 15%nat ltac:(lia)). lia. Qed.

Lemma single_slot ls i l : num_codes ls = 1 -> l <> 0%nat -> (l < 16)%nat ->
  ls !! i = Some (Z.of_nat l) -> slot ls i l = 0.
Proof.
  intros Hn Hl H16 Hi. pose proof (slot_range ls i l Hl Hi).
  pose proof (shorter_mono _ (bl_count_nonneg ls) (S l) 16 ltac:(lia)).
  pose proof (shorter_nonneg _ (bl_count_nonneg ls) l). unfold num_codes in Hn. lia.
Qed.

(** [placed] survives the extra entry of the single-code case. *)
Lemma placed_single ls syms v : Forall len_ok ls -> num_codes ls = 1 ->
  placed ls (length ls) syms -> placed ls (length ls) (<[1%nat := v]> syms).
Proof.
  intros Hok Hn Hp i l Hi Hl Hil. pose proof (Forall_lookup_1 _ _ _ _ Hok Hil) as [_ H15].
  rewrite list_lookup_insert_ne; [by apply Hp|]. rewrite (single_slot ls i l) by (done || lia). done.
Qed.

Lemma last_nz_codes ls : Forall len_ok ls -> last_nz 0 ls (-1) <> -1 -> num_codes ls > 0.
Proof.
  intros Hok (i & x & Hi & Hx)%last_nz_Some. pose proof (Forall_lookup_1 _ _ _ _ Hok Hi) as Hx15.
  unfold len_ok in Hx15. assert (ls !! i = Some (Z.of_nat (Z.to_nat x))) as Hi' by (by rewrite Z2Nat.id by lia).
  pose proof (slot_range ls i (Z.to_nat x) ltac:(lia) Hi') as Hs.
  pose proof (shorter_mono _ (bl_count_nonneg ls) (S (Z.to_nat x)) 16 ltac:(lia)).
  pose proof (shorter_nonneg _ (bl_count_nonneg ls) (Z.to_nat x)). unfold num_codes. lia.
Qed.

Section build.
Context (t : tinf_tree) (ls junk : list Z).
Hypothesis Ht : tree_ok t.
Hypothesis Hok : Forall len_ok ls.
Hypothesis Hlen : Z.of_nat (length ls) <= 288.

Definition built (res : Z) (t' : tinf_tree) : Prop :=
  tinf_build_tree t (ls ++ junk) (length ls) = Ret (res, t') /\ tree_ok t'
  /\ (if res =? TINF_OK
      then acceptable ls /\ tree_of ls t' /\ t'.(max_sym) = last_nz 0 ls (-1)
      else res = TINF_DATA_ERROR /\ ~ acceptable ls).

Lemma cnts_counts l : (l < 16)%nat -> cnts ls !! l = Some (bl_count ls l).
Proof. apply lookup_cnts. Qed.

Lemma counting : count_lengths (ls ++ junk) 0 (length ls) clear_counts (-1)
  = Ret (cnts ls, last_nz 0 ls (-1)).
Proof.
  pose proof (count_lengths_spec (ls ++ junk) (length ls) 0) as H.
  rewrite take_0, Nat.add_0_l, (take_app_le ls), take_ge in H by lia.
  rewrite <- H; [reflexivity|rewrite length_app; lia|lia|done].
Qed.

(** The tree of an accepted list with several codes, or none. *)
Lemma built_plain syms : acceptable ls -> num_codes ls <> 1 -> length syms = 288%nat ->
  Forall u16_ok syms -> placed ls (length ls) syms ->
  tree_of ls {| counts := cnts ls; symbols := syms; max_sym := last_nz 0 ls (-1) |}.
Proof.
  intros (Hf & Hc & Hs) Hn Hl Hu Hp. split; cbn; [by split|..]; try done.
  2: by apply last_nz_codes.
  intros l Hlt. unfold eff_count. rewrite decide_False by naive_solver. by apply lookup_cnts.
Qed.

Lemma built_single syms : acceptable ls -> num_codes ls = 1 -> length syms = 288%nat ->
  Forall u16_ok syms -> placed ls (length ls) syms ->
  tree_of ls {| counts := <[1%nat := 2]> (cnts ls);
                symbols := <[1%nat := u16 (last_nz 0 ls (-1) + 1)]> syms;
                max_sym := last_nz 0 ls (-1) |}.
Proof.
  intros (Hf & Hc & Hs) Hn Hl Hu Hp. pose proof (last_nz_range ls).
  assert (u16 (last_nz 0 ls (-1) + 1) = last_nz 0 ls (-1) + 1) as -> by (apply Z.mod_small; lia).
  split; cbn [counts symbols max_sym]; try done.
  - split; cbn [counts symbols]; rewrite ?length_insert; [done|done|].
    apply Forall_insert; [done|]. unfold u16_ok. lia.
  - intros l Hlt. unfold eff_count. case_decide as Hd.
    + destruct Hd as [_ ->]. apply list_lookup_insert_eq. rewrite length_cnts. lia.
    + rewrite list_lookup_insert_ne by naive_solver. by apply lookup_cnts.
  - by apply placed_single.
  - by apply last_nz_codes.
  - intros _. split; [by apply Hs|]. apply list_lookup_insert_eq. lia.
Qed.

Lemma build_tree_spec : exists res t', built res t'.
Proof.
  destruct Ht as [_ Hs Hu]. unfold built, tinf_build_tree. rewrite counting. cbn [mbind outcome_bind].
  pose proof (shorter_length ls 16) as Hnum. fold (num_codes ls) in Hnum.
  pose proof (offset_table_spec (bl_count ls) (bl_count_nonneg ls) (cnts ls) (lookup_cnts ls)
                ltac:(unfold num_codes in *; lia) 16 0 eq_refl ltac:(lia)) as Eo.
  rewrite avail_0, shorter_0 in Eo. change (shorter (bl_count ls) <$> seq 0 0) with (@nil Z) in Eo.
  rewrite Eo. cbn [mbind outcome_bind].
  destruct (bool_decide _) eqn:Eb.
  2: { eexists _, _. split; [reflexivity|]. split; [by split|]. split; [done|]. intros [Hf _].
       apply fits_bool in Hf. congruence. }
  apply fits_bool in Eb as Hf. fold (num_codes ls).
  rewrite (get_lookup _ _ _ (lookup_cnts ls 1 ltac:(lia))). cbn [mbind outcome_bind].
  pose proof (avail_16_nonneg _ Hf) as Hav.
  destruct (((1 <? num_codes ls) && (0 <? avail (bl_count ls) 16))
            || ((num_codes ls =? 1) && negb (bl_count ls 1 =? 1))) eqn:Erej.
  - eexists _, _. split; [reflexivity|]. split; [by split|]. split; [done|]. intros (_ & Hc & Hs1).
    apply orb_true_iff in Erej as [[H1%Z.ltb_lt H2%Z.ltb_lt]%andb_true_iff|
                                   [H1%Z.eqb_eq H2%negb_true_iff%Z.eqb_neq]%andb_true_iff]; [|naive_solver].
    specialize (Hc ltac:(lia)). lia.
  - assert (acceptable ls) as Hacc.
    { apply orb_false_iff in Erej as [H1 H2]. apply andb_false_iff in H1, H2.
      rewrite !Z.ltb_ge in H1. rewrite negb_false_iff, Z.eqb_neq, Z.eqb_eq in H2.
      split; [done|]. lia. }
    destruct (sort_symbols_spec ls junk Hok Hlen (length ls) 0 t.(symbols)) as (syms & Es & Hl' & Hu' & Hp');
      [done|done|done|intros i l Hi; lia|].
    replace (offs_at ls 0) with (shorter (bl_count ls) <$> seq 0 16) in Es.
    2: { unfold offs_at. apply list_fmap_ext. intros i k _. by rewrite take_0, bl_count_nil, Z.add_0_r. }
    rewrite Es. cbn [mbind outcome_bind]. split_eqb (num_codes ls) 1.
    + rewrite (put_lt (cnts ls)) by (rewrite length_cnts; lia). cbn [mbind outcome_bind].
      rewrite put_lt by lia. cbn [mbind outcome_bind].
      pose proof (built_single syms Hacc ltac:(done) Hl' Hu' Hp') as Hb.
      eexists _, _. split; [reflexivity|]. by split; [apply Hb|].
    + pose proof (built_plain syms Hacc ltac:(done) Hl' Hu' Hp') as Hb.
      eexists _, _. split; [reflexivity|]. by split; [apply Hb|].
Qed.
End build.

(** ** Decoding with a built tree *)

#[local] Transparent avail.

Lemma eff_count_nonneg ls l : 0 <= eff_count ls l.
Proof. unfold eff_count. case_decide; [lia|apply bl_count_nonneg]. Qed.

Lemma bl_count_0 ls : bl_count ls 0 = 0.
Proof. reflexivity. Qed.

Lemma eff_count_0 ls : eff_count ls 0 = 0.
Proof. unfold eff_count. rewrite decide_False by lia. apply bl_count_0. Qed.

(** One code: all other lengths are unused. *)
Lemma single_counts ls : num_codes ls = 1 -> bl_count ls 1 = 1 ->
  forall l, (l < 16)%nat -> eff_count ls l = if decide (l = 1%nat) then 2 else 0.
Proof.
  intros Hn H1 l Hl. unfold eff_count. case_decide as Hd; [destruct Hd; by rewrite decide_True|].
  case_decide as Hd1; [naive_solver|]. destruct (decide (l = 0)%nat) as [->|]; [apply bl_count_0|].
  pose proof (bl_count_nonneg ls) as Hc.
  pose proof (shorter_mono _ Hc 2 l ltac:(lia)) as Hm2.
  pose proof (shorter_mono _ Hc (S l) 16 ltac:(lia)) as Hm16.
  rewrite (shorter_S _ l) in Hm16. rewrite !shorter_S, shorter_0, bl_count_0, H1 in Hm2.
  unfold num_codes in Hn. specialize (Hc l). lia.
Qed.

Lemma tree_complete ls t : tree_of ls t -> num_codes ls > 0 -> complete (eff_count ls).
Proof.
  intros Ht Hn. destruct (decide (num_codes ls = 1)) as [H1|H1].
  - pose proof (single_counts ls H1 (proj1 (of_single _ _ Ht H1))) as E.
    set (c := fun l => if decide (l = 1%nat) then 2 else 0) in E.
    assert (forall l, (l <= 16)%nat -> avail (eff_count ls) l = avail c l) as Ea.
    { intros l Hl. unfold avail. f_equal. apply next_code_ext. intros k Hk. apply E. lia. }
    split.
    + intros l Hl. rewrite Ea, E by lia.
      do 16 (destruct l as [|l]; [vm_compute; done|]). lia.
    + rewrite Ea by lia. by vm_compute.
  - assert (forall l, eff_count ls l = bl_count ls l) as E.
    { intros l. unfold eff_count. by rewrite decide_False by naive_solver. }
    assert (forall l, avail (eff_count ls) l = avail (bl_count ls) l) as Ea.
    { intros l. unfold avail. f_equal. apply next_code_ext. auto. }
    split; [|rewrite Ea; apply (of_complete _ _ Ht); lia].
    intros l Hl. rewrite Ea, E. by apply (of_fits _ _ Ht).
Qed.

Lemma eff_codes ls : num_codes ls <= Z.of_nat (length ls) <= 288 -> shorter (eff_count ls) 16 <= 288.
Proof.
  intros Hn. destruct (decide (num_codes ls = 1)) as [H1|H1].
  - assert (forall n, shorter (eff_count ls) n <= shorter (bl_count ls) n
                        + (if decide (1 < n)%nat then 2 else 0)) as H.
    { induction n as [|n IH]; [by rewrite !shorter_0|]. rewrite !shorter_S. unfold eff_count at 2.
      pose proof (bl_count_nonneg ls n). repeat case_decide; lia. }
    specialize (H 16%nat). rewrite decide_True in H by lia. unfold num_codes in *. lia.
  - rewrite (shorter_ext _ (bl_count ls)); [unfold num_codes in *; lia|].
    intros k _. unfold eff_count. by rewrite decide_False by naive_solver.
Qed.

(** A symbol is recognised by its canonical code. *)
Lemma decode_canonical ls t i x d rest : tree_of ls t -> Forall len_ok ls ->
  ls !! i = Some x -> x <> 0 -> ready d -> pending d = code_bits ls i ++ rest ->
  exists d', tinf_decode_symbol d t = Ret (Z.of_nat i, d') /\ ready d' /\ reads d (code_bits ls i) d'.
Proof.
  intros Ht Hok Hi Hx Hr Hp. pose proof (Forall_lookup_1 _ _ _ _ Hok Hi) as Hx15. unfold len_ok in Hx15.
  unfold code_bits in *. rewrite (list_lookup_total_correct _ _ _ Hi) in *.
  set (l := Z.to_nat x) in *. assert (ls !! i = Some (Z.of_nat l)) as Hil
    by (subst l; by rewrite Z2Nat.id by lia).
  pose proof (rank_lt_count ls i l ltac:(lia) Hil) as Hrk. pose proof (bl_count_nonneg (take i ls) l) as Hrk0.
  assert (forall k, (k < l)%nat -> eff_count ls k = bl_count ls k) as Ek.
  { intros k Hk. unfold eff_count. apply decide_False. intros [H1 ->].
    pose proof (single_slot ls i l H1 ltac:(lia) ltac:(lia) Hil) as Es.
    destruct (of_single _ _ Ht H1) as [Hb1 _]. unfold slot in Es.
    pose proof (shorter_mono _ (bl_count_nonneg ls) 2 l ltac:(lia)) as Hm.
    rewrite !shorter_S, shorter_0, bl_count_0, Hb1 in Hm. lia. }
  assert (bl_count ls l <= eff_count ls l) as El.
  { unfold eff_count. case_decide as Hd; [|lia]. destruct Hd as [H1 ->].
    destruct (of_single _ _ Ht H1) as [-> _]. lia. }
  pose proof (of_fits _ _ Ht l ltac:(lia)) as Hfit. unfold avail in Hfit.
  unfold code in *. rewrite <- (next_code_ext _ _ l Ek) in *.
  pose proof (next_code_nonneg _ (eff_count_nonneg ls) l).
  eapply (decode_code t (eff_count ls) (eff_count_nonneg ls) (of_counts _ _ Ht)); [done|lia|lia| |done|lia|].
  - apply eff_count_0.
  - rewrite (shorter_ext _ _ l Ek).
    replace (shorter (bl_count ls) l + _) with (slot ls i l) by (unfold slot; lia).
    apply (of_placed _ _ Ht); [by eapply lookup_lt_Some|lia|done].
Qed.

(** On any input some symbol is found, after at least one bit. *)
Lemma decode_any ls t d : tree_of ls t -> Z.of_nat (length ls) <= 288 ->
  num_codes ls > 0 -> ready d ->
  exists s d', tinf_decode_symbol d t = Ret (s, d') /\ u16_ok s /\ ready d'
    /\ ((exists w, w <> [] /\ reads d w d') \/ starved d d').
Proof.
  intros Ht Hlen Hn Hr. pose proof (tree_complete _ _ Ht Hn) as Hcomp.
  pose proof (eff_codes ls) as H16. pose proof (shorter_length ls 16) as Hls.
  destruct (decode_loop_total t (eff_count ls) (eff_count_nonneg ls) (of_counts _ _ Ht) 16 0 0 d)
    as (i & d' & E & Hi & Hr' & Hg); [done|done|lia|lia|rewrite avail_0, eff_count_0; lia|].
  rewrite shorter_S, shorter_0, eff_count_0 in E.
  destruct (of_ok _ _ Ht) as [_ Hsl Hu]. unfold num_codes in *.
  destruct (lookup_lt_is_Some_2 t.(symbols) i ltac:(lia)) as [s Hs].
  rewrite (get_lookup _ _ _ Hs) in E. exists s, d'. split; [exact E|]. split; [|done].
  by eapply Forall_lookup_1.
Qed.
