(* ===== verification/TinfBlock.v ===== *)
(** * Blocks of compressed data

    The loop over the symbols of a block is safe on any input and undoes the encoding
    of its tokens. *)

From S2P Require Import Prelude Bytes Tinf TinfTree TinfBuild.

(** * Blocks of compressed data

    The fixed trees, the copy of a match, and the loop of
    [tinf_inflate_block_data]: on any input it stops inside its tables and its
    input, and on the encoding of a list of tokens it writes what the tokens
    stand for. *)

Import Huff.

(** ** The fixed trees *)

Lemma fill_range_spec syms off base n : (off + n <= length syms)%nat ->
  fill_range syms off base n
  = Ret (take off syms ++ ((fun i => base + Z.of_nat i) <$> seq 0 n) ++ drop (off + n) syms).
Proof.
  revert syms. induction n as [|n IH]; intros syms Hl; cbn [fill_range].
  { by rewrite Nat.add_0_r, app_nil_l, take_drop. }
  rewrite IH by lia. cbn [mbind outcome_bind].
  assert (exists x, drop (off + n) syms = x :: drop (off + S n) syms) as [x ->].
  { destruct (lookup_lt_is_Some_2 syms (off + n) ltac:(lia)) as [x Hx]. exists x.
    rewrite (drop_S _ _ _ Hx). by replace (S (off + n)) with (off + S n)%nat by lia. }
  set (pre := take off syms ++ ((fun i => base + Z.of_nat i) <$> seq 0 n)).
  assert (length pre = off + n)%nat as Hp.
  { subst pre. rewrite length_app, length_take, length_fmap, length_seq. lia. }
  rewrite app_assoc. fold pre. rewrite put_lt by (rewrite length_app; cbn; lia).
  rewrite <- Hp, insert_at. subst pre. by rewrite seq_S, fmap_app, <- !app_assoc.
Qed.

Definition range (base : Z) (n : nat) : list Z := (fun i => base + Z.of_nat i) <$> seq 0 n.

Lemma fill_next pre post off base n : off = length pre -> (n <= length post)%nat ->
  fill_range (pre ++ post) off base n = Ret ((pre ++ range base n) ++ drop n post).
Proof.
  intros -> Hn. rewrite fill_range_spec by (rewrite length_app; lia).
  rewrite take_app_length, drop_app_ge by lia. replace (length pre + n - length pre)%nat with n by lia.
  by rewrite app_assoc.
Qed.

(** Section 3.2.6 of the RFC. *)
Definition fixed_lit : list Z :=
  replicate 144 8 ++ replicate 112 9 ++ replicate 24 7 ++ replicate 8 8.
Definition fixed_dist : list Z := replicate 32 5.

Definition fixed_symbols : list Z :=
  (((([] ++ range 256 24) ++ range 0 144) ++ range 280 8) ++ range 144 112).

Definition placed_b (ls syms : list Z) : bool :=
  forallb (fun i => bool_decide (syms !! Z.to_nat (slot ls i (Z.to_nat (ls !!! i))) = Some (Z.of_nat i)))
    (seq 0 (length ls)).

Lemma placed_b_ok ls syms tail : placed_b ls syms = true -> placed ls (length ls) (syms ++ tail).
Proof.
  intros H i l Hi Hl Hil. unfold placed_b in H. rewrite forallb_forall in H.
  specialize (H i ltac:(apply in_seq; lia)). apply bool_decide_eq_true in H.
  rewrite (list_lookup_total_correct _ _ _ Hil), Nat2Z.id in H.
  rewrite lookup_app_l; [done|]. by eapply lookup_lt_Some.
Qed.

Definition counts_b (ls cs : list Z) : bool := bool_decide (cs = cnts ls) && negb (num_codes ls =? 1)
  && forallb (fun l => bl_count ls l <=? avail (bl_count ls) l) (seq 0 16)
  && (avail (bl_count ls) 16 =? 0) && (0 <? num_codes ls).

Lemma tree_of_concrete ls cs syms tail mx : counts_b ls cs = true -> placed_b ls syms = true ->
  Forall u16_ok (syms ++ tail) -> length (syms ++ tail) = 288%nat ->
  tree_of ls {| counts := cs; symbols := syms ++ tail; max_sym := mx |}.
Proof.
  unfold counts_b. rewrite !andb_true_iff, bool_decide_eq_true, negb_true_iff, Z.eqb_neq,
    Z.eqb_eq, Z.ltb_lt, forallb_forall.
  intros ((((-> & Hn) & Hf) & Ha) & Hp) Hpl Hu Hl. split; cbn [counts symbols max_sym].
  - by split.
  - intros l Hlt. unfold eff_count. rewrite decide_False by naive_solver. by apply lookup_cnts.
  - by apply placed_b_ok.
  - lia.
  - intros l Hlt. apply Z.leb_le, Hf, in_seq. lia.
  - done.
  - done.
Qed.

(** The fixed literal tree is the one [tinf_build_tree] makes of the lengths. *)
Lemma fixed_lit_tree mx : tree_of fixed_lit
  {| counts := cnts fixed_lit; symbols := fixed_symbols; max_sym := mx |}.
Proof.
  set (t0 := {| counts := replicate 16 0; symbols := replicate 288 0; max_sym := 0 |}).
  destruct (build_tree_spec t0 fixed_lit []) as (res & t' & E & Hok & H).
  { split; [done|done|]. by apply Forall_replicate. }
  { unfold fixed_lit. rewrite !Forall_app. split_and!; by apply Forall_replicate. }
  { vm_compute. discriminate. }
  assert (tinf_build_tree t0 (fixed_lit ++ []) (length fixed_lit)
          = Ret (TINF_OK, {| counts := cnts fixed_lit; symbols := fixed_symbols; max_sym := 287 |})) as E'
    by (vm_compute; reflexivity).
  rewrite E' in E. apply Ret_inj, pair_equal_spec in E as [<- <-].
  destruct H as (_ & [[H1a H1b H1c] H2 H3 H4 H5 H6 H7] & _).
  assert (num_codes fixed_lit = 288) as Hn by (vm_compute; reflexivity).
  split; [by split|exact H2|exact H3| |exact H5| |exact H7]; rewrite Hn; lia.
Qed.

Lemma fixed_lit_fill syms : length syms = 288%nat ->
  (ls ← fill_range syms 0 256 24;
   ls ← fill_range ls 24 0 144;
   ls ← fill_range ls (24 + 144) 280 8;
   fill_range ls (24 + 144 + 8) 144 112) = Ret fixed_symbols.
Proof.
  intros Hl. rewrite <- (app_nil_l syms). rewrite fill_next by (done || lia). cbn [mbind outcome_bind].
  rewrite fill_next by (done || (rewrite length_drop; lia)). cbn [mbind outcome_bind].
  rewrite fill_next by (done || (rewrite !length_drop; lia)). cbn [mbind outcome_bind].
  rewrite fill_next by (done || (rewrite !length_drop; lia)).
  rewrite drop_ge, app_nil_r by (rewrite !length_drop; lia). reflexivity.
Qed.

Lemma fixed_dist_tree syms mx : length syms = 288%nat -> Forall u16_ok syms ->
  tree_of fixed_dist {| counts := cnts fixed_dist; symbols := range 0 32 ++ drop 32 syms; max_sym := mx |}.
Proof.
  intros Hl Hu. apply tree_of_concrete; [vm_compute; reflexivity|vm_compute; reflexivity| |].
  - apply Forall_app. split; [|by apply Forall_drop].
    apply Forall_fmap, Forall_forall. intros i [_ Hi]%elem_of_seq. unfold compose, u16_ok. lia.
  - rewrite length_app, length_drop, Hl. reflexivity.
Qed.

Lemma fixed_trees_spec lt dt : tree_ok lt -> tree_ok dt ->
  exists lt' dt', tinf_build_fixed_trees lt dt = Ret (lt', dt')
    /\ tree_of fixed_lit lt' /\ tree_of fixed_dist dt'
    /\ lt'.(max_sym) = 285 /\ dt'.(max_sym) = 29.
Proof.
  intros [_ Hl _] [_ Hd Hdu].
  exists {| counts := cnts fixed_lit; symbols := fixed_symbols; max_sym := 285 |},
    {| counts := cnts fixed_dist; symbols := range 0 32 ++ drop 32 dt.(symbols); max_sym := 29 |}.
  split_and!; [|apply fixed_lit_tree|by apply fixed_dist_tree|done|done].
  unfold tinf_build_fixed_trees.
  replace (put clear_counts 5 32) with (Ret (cnts fixed_dist)) by (vm_compute; reflexivity).
  assert ((lc ← put clear_counts 7 24; lc ← put lc 8 152; put lc 9 112) = Ret (cnts fixed_lit)) as Ec
    by (vm_compute; reflexivity).
  apply bind_Ret_inv in Ec as (c1 & -> & Ec). apply bind_Ret_inv in Ec as (c2 & E2 & E3).
  cbn [mbind outcome_bind]. rewrite E2. cbn [mbind outcome_bind]. rewrite E3. cbn [mbind outcome_bind].
  pose proof (fixed_lit_fill _ Hl) as Ef.
  apply bind_Ret_inv in Ef as (f1 & -> & Ef). cbn [mbind outcome_bind].
  apply bind_Ret_inv in Ef as (f2 & -> & Ef). cbn [mbind outcome_bind].
  apply bind_Ret_inv in Ef as (f3 & -> & Ef). cbn [mbind outcome_bind]. rewrite Ef. cbn [mbind outcome_bind].
  rewrite <- (app_nil_l (symbols dt)) at 1. rewrite fill_next by (done || lia). reflexivity.
Qed.

(** ** Matches *)

(** What a match of [n] bytes at distance [dist] adds to [o]: the last [dist]
    bytes, over and over. *)
Definition copied (o : list Z) (n dist : nat) : list Z :=
  (fun i => o !!! (length o - dist + i mod dist)%nat) <$> seq 0 n.

Lemma lookup_copied o n dist i : (0 < dist <= length o)%nat -> (i < n)%nat ->
  (o ++ copied o n dist) !! (length o + i - dist)%nat = Some (o !!! (length o - dist + i mod dist)%nat).
Proof.
  intros Hd Hi. pose proof (Nat.mod_upper_bound i dist ltac:(lia)) as Hm.
  destruct (decide (i < dist)%nat) as [Hlt|Hge].
  - rewrite lookup_app_l, Nat.mod_small by lia.
    replace (length o + i - dist)%nat with (length o - dist + i)%nat by lia.
    apply list_lookup_lookup_total_lt. lia.
  - rewrite lookup_app_r by lia. unfold copied. rewrite list_lookup_fmap, lookup_seq_lt by lia. cbn.
    do 3 f_equal. replace (length o + i - dist - length o)%nat with (i - dist)%nat by lia.
    rewrite <- (Nat.Div0.mod_add (i - dist) 1 dist). f_equal. lia.
Qed.

Lemma copy_match_from o dist n m : (0 < dist <= length o)%nat ->
  copy_match (o ++ copied o m dist) (Z.of_nat dist) n = Ret (o ++ copied o (m + n) dist).
Proof.
  intros Hd. revert m. induction n as [|n IH]; intros m; cbn [copy_match]; [by rewrite Nat.add_0_r|].
  assert (length (o ++ copied o m dist) = length o + m)%nat as Hl.
  { unfold copied. by rewrite length_app, length_fmap, length_seq. }
  rewrite Hl, (proj2 (Z.ltb_ge _ _)) by lia.
  assert (copied o (S m) dist = copied o m dist ++ [o !!! (length o - dist + m mod dist)%nat]) as Es.
  { unfold copied. by rewrite seq_S, fmap_app. }
  assert ((o ++ copied o m dist) !! Z.to_nat (Z.of_nat (length o + m) - Z.of_nat dist)
          = Some (o !!! (length o - dist + m mod dist)%nat)) as Hlk.
  { replace (Z.to_nat _) with (length o + m - dist)%nat by lia.
    pose proof (lookup_copied o (S m) dist m Hd ltac:(lia)) as H.
    rewrite Es, app_assoc in H. rewrite lookup_app_l in H by lia. exact H. }
  rewrite (get_lookup _ _ _ Hlk). cbn [mbind outcome_bind].
  rewrite <- app_assoc, <- Es, IH. by replace (S m + n)%nat with (m + S n)%nat by lia.
Qed.

Lemma copy_match_spec o dist n : (0 < dist <= length o)%nat ->
  copy_match o (Z.of_nat dist) n = Ret (o ++ copied o n dist).
Proof.
  intros Hd. pose proof (copy_match_from o dist n 0 Hd) as H.
  change (copied o 0 dist) with (@nil Z) in H. by rewrite app_nil_r in H.
Qed.

(** ** Safety of the block loop *)

(** Decoding state with a usable output. *)
Definition static (d : tinf_data) := (d.(mem), d.(source_end), d.(ltree), d.(dtree)).

(** [d'] is [d] after some input: [n] bits at least, or all of it. *)
Definition progress (n : nat) (d d' : tinf_data) : Prop :=
  static d' = static d /\ ready d' /\
  ((d'.(overflow) = d.(overflow) /\ (length (pending d') + n <= length (pending d))%nat)
   \/ d'.(overflow) = 1).

Lemma env_static d d' : env d' = env d -> static d' = static d.
Proof. unfold env, static. intros [= -> -> _ -> ->]. done. Qed.

Lemma progress_reads d d' w : ready d' -> reads d w d' -> progress (length w) d d'.
Proof.
  intros Hr (E & O & P). split; [by apply env_static|].
  split; [done|]. left. split; [done|]. rewrite P, length_app. lia.
Qed.

Lemma progress_starved n d d' : ready d' -> starved d d' -> progress n d d'.
Proof.
  intros Hr (E & O). split; [by apply env_static|]. auto.
Qed.

Lemma progress_trans n m d1 d2 d3 : progress n d1 d2 -> progress m d2 d3 -> progress (n + m) d1 d3.
Proof.
  intros (E1 & R1 & P1) (E2 & R2 & P2). split; [congruence|]. split; [done|].
  destruct P1 as [[O1 L1]|O1], P2 as [[O2 L2]|O2]; [left|right..]; try congruence.
  split; [congruence|lia].
Qed.

Lemma progress_weaken n m d d' : (m <= n)%nat -> progress n d d' -> progress m d d'.
Proof. intros H (E & R & [[O L]|O]); (split; [done|split; [done|]]); [left|right; done]. split; [done|lia]. Qed.

Lemma progress_refl d : ready d -> progress 0 d d.
Proof. intros Hr. split; [done|]. split; [done|]. left. split; [done|lia]. Qed.

Lemma progress_out n d d' o : progress n d d' -> progress n d (set_out d' o).
Proof. intros (E & R & P). split; [done|]. split; [by destruct R|done]. Qed.

Lemma out_env d d' : env d' = env d -> d'.(out) = d.(out).
Proof. by intros [=]. Qed.

Lemma getbits_progress d num : ready d -> 0 <= num <= 16 ->
  exists v d', tinf_getbits d num = Ret (v, d') /\ 0 <= v < 2 ^ num
    /\ progress (Z.to_nat num) d d' /\ d'.(out) = d.(out).
Proof.
  intros Hr Hn. destruct (getbits_spec d num Hr Hn) as (v & d' & E & Hr' & Hv & Hg).
  exists v, d'. split_and!; [done|lia|lia| |].
  - destruct Hg as [Hg|[Hg _]]; [|by apply progress_starved].
    apply progress_reads in Hg; [|done]. by rewrite length_bits_n in Hg.
  - destruct Hg as [[Hg _]|[[Hg _] _]]; by apply out_env.
Qed.

Lemma getbits_base_progress d num base : ready d -> 0 <= num <= 16 ->
  exists v d', tinf_getbits_base d num base = Ret (base + v, d') /\ 0 <= v < 2 ^ num
    /\ progress (Z.to_nat num) d d' /\ d'.(out) = d.(out).
Proof.
  intros Hr Hn. unfold tinf_getbits_base. split_eqb num 0.
  - subst num. exists 0, d. rewrite Z.add_0_r. split_and!; [done|lia|lia|by apply progress_refl|done].
  - destruct (getbits_progress d num Hr Hn) as (v & d' & -> & H). by exists v, d'.
Qed.

Lemma decode_progress ls t d : tree_of ls t -> Z.of_nat (length ls) <= 288 ->
  num_codes ls > 0 -> ready d ->
  exists s d', tinf_decode_symbol d t = Ret (s, d') /\ u16_ok s /\ progress 1 d d'
    /\ d'.(out) = d.(out).
Proof.
  intros Ht Hl Hn Hr. destruct (decode_any ls t d Ht Hl Hn Hr) as (s & d' & E & Hs & Hr' & Hg).
  exists s, d'. split; [done|]. split; [done|]. split.
  - destruct Hg as [(w & Hw & Hg)|Hg]; [|by apply progress_starved].
    eapply progress_weaken, progress_reads; [|done|exact Hg]. destruct w; [done|cbn; lia].
  - destruct Hg as [(w & _ & Hg & _)|[Hg _]]; by apply out_env.
Qed.

(** Lengths and distances are in range. *)
Lemma tables_spec s k : (s < 29)%nat -> (k < 30)%nat ->
  exists lb lx db dx, length_bits !! s = Some lx /\ length_base !! s = Some lb
    /\ dist_bits !! k = Some dx /\ dist_base !! k = Some db
    /\ 0 <= lx <= 16 /\ 3 <= lb /\ 0 <= dx <= 16 /\ 1 <= db.
Proof.
  intros Hs Hk.
  assert (exists lb lx, length_bits !! s = Some lx /\ length_base !! s = Some lb /\ 0 <= lx <= 16 /\ 3 <= lb)
    as (lb & lx & ? & ? & ? & ?).
  { do 29 (destruct s as [|s]; [eexists _, _; split_and!; [reflexivity|reflexivity|lia..]|]). lia. }
  assert (exists db dx, dist_bits !! k = Some dx /\ dist_base !! k = Some db /\ 0 <= dx <= 16 /\ 1 <= db)
    as (db & dx & ? & ? & ? & ?).
  { do 30 (destruct k as [|k]; [eexists _, _; split_and!; [reflexivity|reflexivity|lia..]|]). lia. }
  by exists lb, lx, db, dx.
Qed.

Section safety.
Context (ls ds : list Z) (lt dt : tinf_tree).
Hypothesis Hlt : tree_of ls lt.
Hypothesis Hdt : tree_of ds dt.
Hypothesis Hls : Z.of_nat (length ls) <= 288.
Hypothesis Hds : Z.of_nat (length ds) <= 288.
Hypothesis Hne : num_codes ls > 0.

(** The match branch of the loop body. *)
Lemma block_symbol_safe d : ready d ->
  exists d' r, block_symbol d lt dt = Ret (d', r) /\ progress 1 d d'
    /\ match r with
       | Some res => res = TINF_DATA_ERROR \/ (res = TINF_OK /\ d'.(overflow) = 0)
       | None => d.(overflow) = 0 /\ (1 <= length (pending d))%nat
       end.
Proof.
  intros Hr. unfold block_symbol.
  destruct (decode_progress ls lt d Hlt Hls Hne Hr) as (s & d1 & -> & Hs & P1 & O1).
  cbn [mbind outcome_bind]. unfold u16_ok in Hs. split_eqb (overflow d1) 0; cbn [negb].
  2: { eexists _, _. split; [done|]. auto. }
  assert (d.(overflow) = 0 /\ (1 <= length (pending d))%nat) as Hd0.
  { destruct P1 as (_ & _ & [[Ho Hl]|Ho]); [|congruence]. split; [congruence|lia]. }
  split_ltb s 256.
  { eexists _, _. split; [done|]. split; [by apply progress_out|done]. }
  split_eqb s 256; [eexists _, _; split; [done|]; auto|].
  destruct (lt.(max_sym) <? s); cbn [orb]; [eexists _, _; split; [done|]; auto|].
  split_ltb 28 (s - 257); cbn [orb]; [eexists _, _; split; [done|]; auto|].
  split_eqb dt.(max_sym) (-1); [eexists _, _; split; [done|]; auto|].
  destruct (tables_spec (Z.to_nat (s - 257)) 0) as (lb & lx & _ & _ & Elx & Elb & _ & _ & Hlx & Hlb & _); [lia|lia|].
  rewrite (get_lookup _ _ _ Elx). cbn [mbind outcome_bind]. rewrite (get_lookup _ _ _ Elb). cbn [mbind outcome_bind].
  destruct (getbits_base_progress d1 lx lb) as (v & d2 & -> & Hv & P2 & O2); [apply P1|lia|].
  cbn [mbind outcome_bind].
  destruct (decode_progress ds dt d2 Hdt Hds) as (k & d3 & -> & Hk & P3 & O3); [by apply (of_max _ _ Hdt)|apply P2|].
  cbn [mbind outcome_bind]. unfold u16_ok in Hk.
  pose proof (progress_trans _ _ _ _ _ P1 (progress_trans _ _ _ _ _ P2 P3)) as P13.
  destruct (dt.(max_sym) <? k); cbn [orb].
  { eexists _, _. split; [done|]. split; [by eapply progress_weaken, P13; lia|auto]. }
  split_ltb 29 k; [eexists _, _; split; [done|]; split; [by eapply progress_weaken, P13; lia|auto]|].
  destruct (tables_spec 0 (Z.to_nat k)) as (_ & _ & db & dx & _ & _ & Edx & Edb & _ & _ & Hdx & Hdb); [lia|lia|].
  rewrite (get_lookup _ _ _ Edx). cbn [mbind outcome_bind]. rewrite (get_lookup _ _ _ Edb). cbn [mbind outcome_bind].
  destruct (getbits_base_progress d3 dx db) as (u & d4 & -> & Hu & P4 & O4); [apply P3|lia|].
  cbn [mbind outcome_bind]. pose proof (progress_trans _ _ _ _ _ P13 P4) as P14.
  apply (progress_weaken _ 1) in P14; [|lia].
  split_ltb (Z.of_nat (length (out d4))) (db + u); [eexists _, _; split; [done|]; auto|].
  rewrite <- (Z2Nat.id (db + u)) by lia. rewrite copy_match_spec by lia. cbn [mbind outcome_bind].
  eexists _, _. split; [done|]. split; [by apply progress_out|done].
Qed.

Lemma block_loop_safe fuel d : ready d -> (length (pending d) < fuel)%nat ->
  exists res d', block_loop fuel d lt dt = Ret (res, d') /\ progress 1 d d'
    /\ (res = TINF_DATA_ERROR \/ (res = TINF_OK /\ d'.(overflow) = 0)).
Proof.
  revert d. induction fuel as [|fuel IH]; intros d Hr Hf; [lia|]. cbn [block_loop].
  destruct (block_symbol_safe d Hr) as (d1 & [res|] & -> & P1 & H1); cbn [mbind outcome_bind]; [by eauto|].
  destruct H1 as [Hd0 Hd1]. pose proof P1 as (Es & Hr1 & [[Ho Hl]|Ho]).
  - destruct (IH d1 Hr1 ltac:(lia)) as (res & d' & -> & P2 & H2). exists res, d'.
    split; [done|]. split; [|done]. eapply progress_weaken, (progress_trans _ _ _ _ _ P1 P2). lia.
  - (* the input ended in this token: the next symbol is refused *)
    destruct fuel as [|fuel]; [lia|]. cbn [block_loop].
    destruct (block_symbol_safe d1 Hr1) as (d2 & r & -> & P2 & H2).
    pose proof (progress_trans _ _ _ _ _ P1 P2) as P12. apply (progress_weaken _ 1) in P12; [|lia].
    cbn [mbind outcome_bind]. destruct r as [res|]; [by exists res, d2|]. destruct H2. congruence.
Qed.

Lemma block_fuel_enough d : ready d -> (length (pending d) < block_fuel d)%nat.
Proof.
  intros Hr. pose proof (pending_length d _ _ Hr) as Hp. destruct Hr as [Hs Hc Hlo Ht Hm Hov].
  unfold block_fuel. lia.
Qed.

(** Decompressing the data of a block stops, whatever the bits are. *)
Lemma block_data_safe d : ready d ->
  exists res d', tinf_inflate_block_data d lt dt = Ret (res, d') /\ progress 1 d d'
    /\ (res = TINF_DATA_ERROR \/ (res = TINF_OK /\ d'.(overflow) = 0)).
Proof. intros Hr. apply block_loop_safe; [done|by apply block_fuel_enough]. Qed.
End safety.

(** * Round trip of a block of compressed data

    Section 3.2.5 of RFC 1951: a block is a sequence of literals and matches,
    written with a code for literals and lengths and a code for distances, and
    closed by symbol 256.  [tinf_inflate_block_data] undoes the encoding of any
    such sequence. *)

Import Huff.

Module Deflate.

(** Extra bits and base values of the length codes 257 + [s] and of the distance
    codes [k]: the ranges of consecutive codes are adjacent. *)
Definition len_extra (s : nat) : nat :=
  if decide (s < 8 \/ s = 28)%nat then 0 else ((s - 4) / 4).
Definition dist_extra (k : nat) : nat := (k - 2) / 2.

Fixpoint ranges (extra : nat -> nat) (n : nat) : Z :=
  match n with O => 0 | S n => ranges extra n + 2 ^ Z.of_nat (extra n) end.

Definition len_start (s : nat) : Z := if decide (s = 28)%nat then 258 else 3 + ranges len_extra s.
Definition dist_start (k : nat) : Z := 1 + ranges dist_extra k.

(** [Match s e k u]: length code 257 + [s] with extra bits [e], distance code
    [k] with extra bits [u]. *)
Inductive token :=
| Lit (b : nat)
| Match (s : nat) (e : Z) (k : nat) (u : Z).

Definition used (ls : list Z) (i : nat) : Prop := exists x, ls !! i = Some x /\ x <> 0.

Section code.
Context (ls ds : list Z).

Definition token_ok (o : list Z) (tok : token) : Prop :=
  match tok with
  | Lit b => (b < 256)%nat /\ used ls b
  | Match s e k u =>
      (s < 29)%nat /\ used ls (257 + s) /\ 0 <= e < 2 ^ Z.of_nat (len_extra s) /\
      (k < 30)%nat /\ used ds k /\ 0 <= u < 2 ^ Z.of_nat (dist_extra k) /\
      dist_start k + u <= Z.of_nat (length o)
  end.

Definition token_bits (tok : token) : list bool :=
  match tok with
  | Lit b => code_bits ls b
  | Match s e k u =>
      code_bits ls (257 + s) ++ bits (len_extra s) e ++ code_bits ds k ++ bits (dist_extra k) u
  end.

Definition token_out (o : list Z) (tok : token) : list Z :=
  match tok with
  | Lit b => o ++ [Z.of_nat b]
  | Match s e k u => o ++ copied o (Z.to_nat (len_start s + e)) (Z.to_nat (dist_start k + u))
  end.

Fixpoint tokens_ok (o : list Z) (toks : list token) : Prop :=
  match toks with
  | [] => True
  | tok :: toks => token_ok o tok /\ tokens_ok (token_out o tok) toks
  end.

Fixpoint tokens_bits (toks : list token) : list bool :=
  match toks with
  | [] => code_bits ls 256
  | tok :: toks => token_bits tok ++ tokens_bits toks
  end.
End code.

Definition tokens_out (o : list Z) (toks : list token) : list Z := foldl token_out o toks.

End Deflate.
Import Deflate.

(** The tables of the code are those of the RFC. *)
Lemma length_tables s : (s < 29)%nat ->
  length_bits !! s = Some (Z.of_nat (len_extra s)) /\ length_base !! s = Some (len_start s)
  /\ (len_extra s <= 5)%nat.
Proof.
  intros Hs. do 29 (destruct s as [|s]; [split_and!; [reflexivity|reflexivity|vm_compute; lia]|]). lia.
Qed.

Lemma dist_tables k : (k < 30)%nat ->
  dist_bits !! k = Some (Z.of_nat (dist_extra k)) /\ dist_base !! k = Some (dist_start k)
  /\ (dist_extra k <= 13)%nat.
Proof.
  intros Hk. do 30 (destruct k as [|k]; [split_and!; [reflexivity|reflexivity|vm_compute; lia]|]). lia.
Qed.

Lemma ranges_nonneg f n : 0 <= ranges f n.
Proof. induction n; cbn; lia. Qed.

Lemma dist_start_pos k : 1 <= dist_start k.
Proof. unfold dist_start. pose proof (ranges_nonneg dist_extra k). lia. Qed.

(** ** Reading known bits *)

(** [d'] is [d] with [w] read and the output replaced. *)
Definition advanced (d : tinf_data) (w : list bool) (o : list Z) (d' : tinf_data) : Prop :=
  ready d' /\ static d' = static d /\ d'.(overflow) = d.(overflow) /\
  d'.(out) = o /\ pending d = w ++ pending d'.

Lemma advanced_refl d : ready d -> advanced d [] d.(out) d.
Proof. by intros Hr. Qed.

Lemma advanced_trans d1 d2 d3 w1 w2 o1 o2 :
  advanced d1 w1 o1 d2 -> advanced d2 w2 o2 d3 -> advanced d1 (w1 ++ w2) o2 d3.
Proof.
  intros (R1 & S1 & V1 & O1 & P1) (R2 & S2 & V2 & O2 & P2).
  split_and!; try congruence; [apply R2..|]. by rewrite P1, P2, app_assoc.
Qed.

Lemma advanced_reads d w d' : ready d' -> reads d w d' -> advanced d w d.(out) d'.
Proof.
  intros Hr (E & O & P). split; [done|]. split_and!; [by apply env_static|done|by apply out_env|done].
Qed.

Lemma advanced_out d w o d' o' : advanced d w o d' -> advanced d w o' (set_out d' o').
Proof. intros (R & S & V & O & P). split; [by destruct R|]. done. Qed.

Lemma getbits_known d n v rest : ready d -> (n <= 16)%nat -> 0 <= v < 2 ^ Z.of_nat n ->
  pending d = bits n v ++ rest ->
  exists d', tinf_getbits d (Z.of_nat n) = Ret (v, d') /\ advanced d (bits n v) d.(out) d'.
Proof.
  intros Hr Hn Hv Hp. destruct (getbits_spec d (Z.of_nat n) Hr) as (v' & d' & E & Hr' & Hv' & Hg); [lia|].
  rewrite Nat2Z.id in Hg. destruct Hg as [Hg|[_ Hl]].
  - assert (v' = v) as ->; [|exists d'; split; [done|by apply advanced_reads]].
    destruct Hg as (_ & _ & P). rewrite Hp in P. apply (f_equal (take n)) in P.
    rewrite !take_app_length' in P by (by rewrite length_bits_n).
    by rewrite <- (val_bits n v'), <- P, val_bits.
  - rewrite Hp, length_app, length_bits_n in Hl. lia.
Qed.

Lemma getbits_base_known d n v base rest : ready d -> (n <= 16)%nat -> 0 <= v < 2 ^ Z.of_nat n ->
  pending d = bits n v ++ rest ->
  exists d', tinf_getbits_base d (Z.of_nat n) base = Ret (base + v, d')
    /\ advanced d (bits n v) d.(out) d'.
Proof.
  intros Hr Hn Hv Hp. unfold tinf_getbits_base. split_eqb (Z.of_nat n) 0.
  - exists d. replace n with 0%nat in * by lia. replace v with 0 by (cbn in Hv; lia).
    rewrite Z.add_0_r. split; [done|]. by apply advanced_refl.
  - destruct (getbits_known d n v rest Hr Hn Hv Hp) as (d' & -> & Ha). by exists d'.
Qed.

Lemma decode_known ls t i d rest : tree_of ls t -> Forall len_ok ls -> used ls i ->
  ready d -> pending d = code_bits ls i ++ rest ->
  exists d', tinf_decode_symbol d t = Ret (Z.of_nat i, d') /\ advanced d (code_bits ls i) d.(out) d'.
Proof.
  intros Ht Hok (x & Hi & Hx) Hr Hp.
  destruct (decode_canonical ls t i x d rest Ht Hok Hi Hx Hr Hp) as (d' & E & Hr' & Hg).
  exists d'. split; [done|]. by apply advanced_reads.
Qed.

Lemma advanced_pending d w o d' rest : advanced d w o d' -> pending d = w ++ rest -> pending d' = rest.
Proof. intros (_ & _ & _ & _ & P) E. rewrite P in E. by apply app_inv_head in E. Qed.

Lemma code_bits_nonempty ls i : Forall len_ok ls -> used ls i -> code_bits ls i <> [].
Proof.
  intros Hok (x & Hi & Hx) E. apply (f_equal length) in E. unfold code_bits in E.
  pose proof (Forall_lookup_1 _ _ _ _ Hok Hi) as H15. unfold len_ok in H15.
  rewrite length_rev, length_bits_n, (list_lookup_total_correct _ _ _ Hi) in E. cbn in E. lia.
Qed.

(** ** The block *)

Section roundtrip.
Context (ls ds : list Z) (lt dt : tinf_tree).
Hypothesis Hlt : tree_of ls lt.
Hypothesis Hdt : tree_of ds dt.
Hypothesis Hlok : Forall len_ok ls.
Hypothesis Hdok : Forall len_ok ds.
Hypothesis Hlmax : forall i, used ls i -> (i <= 285)%nat -> Z.of_nat i <= lt.(max_sym).
Hypothesis Hdmax : forall i, used ds i -> (i <= 29)%nat -> Z.of_nat i <= dt.(max_sym).

Lemma block_literal d b rest : ready d -> d.(overflow) = 0 -> (b < 256)%nat -> used ls b ->
  pending d = code_bits ls b ++ rest ->
  exists d', block_symbol d lt dt = Ret (d', None)
    /\ advanced d (code_bits ls b) (d.(out) ++ [Z.of_nat b]) d'.
Proof.
  intros Hr Hov Hb Hu Hp. destruct (decode_known ls lt b d rest) as (d1 & E1 & A1); [done..|].
  unfold block_symbol. rewrite E1. cbn [mbind outcome_bind].
  assert (overflow d1 = 0 /\ out d1 = out d) as [O1 U1]
    by (destruct A1 as (_ & _ & ? & ? & _); split; congruence).
  rewrite O1, Z.eqb_refl, (proj2 (Z.ltb_lt _ _)) by lia. cbn [negb].
  eexists. split; [reflexivity|]. rewrite U1.
  replace (u8 (Z.of_nat b)) with (Z.of_nat b) by (symmetry; apply Z.mod_small; lia).
  by eapply advanced_out.
Qed.

Lemma block_match d s e k u rest : ready d -> d.(overflow) = 0 ->
  token_ok ls ds d.(out) (Match s e k u) ->
  pending d = (code_bits ls (257 + s) ++ bits (len_extra s) e ++ code_bits ds k ++ bits (dist_extra k) u)
              ++ rest ->
  exists d', block_symbol d lt dt = Ret (d', None)
    /\ advanced d (code_bits ls (257 + s) ++ bits (len_extra s) e ++ code_bits ds k ++ bits (dist_extra k) u)
         (d.(out) ++ copied d.(out) (Z.to_nat (len_start s + e)) (Z.to_nat (dist_start k + u))) d'.
Proof.
  intros Hr Hov Hok Hp. destruct Hok as (Hs & Hus & He & Hk & Huk & Hu & Hdist).
  destruct (length_tables s Hs) as (Elx & Elb & Hlx). destruct (dist_tables k Hk) as (Edx & Edb & Hdx).
  rewrite <- !app_assoc in Hp.
  destruct (decode_known ls lt (257 + s) d _ Hlt Hlok Hus Hr Hp) as (d1 & E1 & A1).
  pose proof (advanced_pending _ _ _ _ _ A1 Hp) as Hp1.
  destruct (getbits_base_known d1 (len_extra s) e (len_start s) _ (proj1 A1) ltac:(lia) He Hp1) as (d2 & E2 & A2).
  pose proof (advanced_pending _ _ _ _ _ A2 Hp1) as Hp2.
  destruct (decode_known ds dt k d2 _ Hdt Hdok Huk (proj1 A2) Hp2) as (d3 & E3 & A3).
  pose proof (advanced_pending _ _ _ _ _ A3 Hp2) as Hp3.
  destruct (getbits_base_known d3 (dist_extra k) u (dist_start k) _ (proj1 A3) ltac:(lia) Hu Hp3) as (d4 & E4 & A4).
  pose proof (advanced_trans _ _ _ _ _ _ _ (advanced_trans _ _ _ _ _ _ _ A1 A2)
                (advanced_trans _ _ _ _ _ _ _ A3 A4)) as A. rewrite <- app_assoc in A.
  unfold block_symbol. rewrite E1. cbn [mbind outcome_bind].
  assert (overflow d1 = 0) as O1 by (destruct A1 as (_ & _ & ? & _); congruence).
  rewrite O1, Z.eqb_refl. cbn [negb].
  rewrite (proj2 (Z.ltb_ge (Z.of_nat (257 + s)) 256)), (proj2 (Z.eqb_neq (Z.of_nat (257 + s)) 256)) by lia.
  pose proof (Hlmax _ Hus ltac:(lia)) as Hm1. pose proof (Hdmax _ Huk ltac:(lia)) as Hm2.
  rewrite (proj2 (Z.ltb_ge (max_sym lt) _)), (proj2 (Z.ltb_ge 28 _)), (proj2 (Z.eqb_neq (max_sym dt) _)) by lia.
  cbn [orb]. replace (Z.to_nat (Z.of_nat (257 + s) - 257)) with s by lia.
  rewrite (get_lookup _ _ _ Elx). cbn [mbind outcome_bind]. rewrite (get_lookup _ _ _ Elb). cbn [mbind outcome_bind].
  rewrite E2. cbn [mbind outcome_bind]. rewrite E3. cbn [mbind outcome_bind].
  rewrite (proj2 (Z.ltb_ge (max_sym dt) _)), (proj2 (Z.ltb_ge 29 _)) by lia. cbn [orb].
  rewrite Nat2Z.id, (get_lookup _ _ _ Edx). cbn [mbind outcome_bind].
  rewrite (get_lookup _ _ _ Edb). cbn [mbind outcome_bind]. rewrite E4. cbn [mbind outcome_bind].
  assert (out d4 = out d) as O4 by (destruct A as (_ & _ & _ & U & _), A1 as (_ & _ & _ & U1 & _),
    A2 as (_ & _ & _ & U2 & _), A3 as (_ & _ & _ & U3 & _); congruence).
  rewrite O4, (proj2 (Z.ltb_ge _ _)) by lia.
  pose proof (dist_start_pos k) as Hdr.
  pose proof (copy_match_spec (out d) (Z.to_nat (dist_start k + u)) (Z.to_nat (len_start s + e)) ltac:(lia)) as Ec.
  rewrite Z2Nat.id in Ec by lia. rewrite Ec. cbn [mbind outcome_bind]. eexists. split; [reflexivity|].
  by eapply advanced_out.
Qed.

Lemma block_token d tok rest : ready d -> d.(overflow) = 0 -> token_ok ls ds d.(out) tok ->
  pending d = token_bits ls ds tok ++ rest ->
  exists d', block_symbol d lt dt = Ret (d', None)
    /\ advanced d (token_bits ls ds tok) (token_out d.(out) tok) d'.
Proof.
  destruct tok as [b|s e k u]; [intros Hr Hov [Hb Hu] Hp; by eapply block_literal|apply block_match].
Qed.

Lemma token_bits_nonempty o tok : token_ok ls ds o tok -> (1 <= length (token_bits ls ds tok))%nat.
Proof.
  destruct tok as [b|s e k u]; cbn [token_ok token_bits]; intros H.
  - pose proof (code_bits_nonempty ls b Hlok (proj2 H)) as Hn. destruct (code_bits ls b); [done|cbn; lia].
  - destruct H as (_ & Hu & _). pose proof (code_bits_nonempty ls (257 + s) Hlok Hu) as Hn.
    destruct (code_bits ls (257 + s)); [done|cbn; lia].
Qed.

Lemma block_loop_tokens toks : forall fuel d rest, ready d -> d.(overflow) = 0 -> used ls 256 ->
  tokens_ok ls ds d.(out) toks -> pending d = tokens_bits ls ds toks ++ rest ->
  (length (pending d) < fuel)%nat ->
  exists d', block_loop fuel d lt dt = Ret (TINF_OK, d')
    /\ advanced d (tokens_bits ls ds toks) (tokens_out d.(out) toks) d'.
Proof.
  induction toks as [|tok toks IH]; intros fuel d rest Hr Hov He Hok Hp Hf;
    (destruct fuel as [|fuel]; [lia|]); cbn [block_loop].
  - destruct (decode_known ls lt 256 d rest) as (d1 & E1 & A1); [done..|].
    unfold block_symbol. rewrite E1. cbn [mbind outcome_bind].
    assert (overflow d1 = 0) as O1 by (destruct A1 as (_ & _ & ? & _); congruence).
    rewrite O1. cbn. by exists d1.
  - cbn [tokens_ok tokens_bits] in *. destruct Hok as [Hok1 Hok2]. rewrite <- app_assoc in Hp.
    destruct (block_token d tok _ Hr Hov Hok1 Hp) as (d1 & -> & A1). cbn [mbind outcome_bind].
    pose proof (advanced_pending _ _ _ _ _ A1 Hp) as Hp1.
    pose proof (token_bits_nonempty _ _ Hok1) as Hn. rewrite Hp, length_app, <- Hp1 in Hf.
    pose proof A1 as (R1 & _ & V1 & U1 & _). rewrite <- U1 in Hok2.
    destruct (IH fuel d1 rest R1 ltac:(congruence) He Hok2 Hp1 ltac:(lia)) as (d2 & -> & A2).
    exists d2. split; [done|]. rewrite U1 in A2. by eapply advanced_trans.
Qed.

(** Decompressing an encoded block gives what its tokens stand for. *)
Lemma block_data_tokens d toks rest : ready d -> d.(overflow) = 0 -> used ls 256 ->
  tokens_ok ls ds d.(out) toks -> pending d = tokens_bits ls ds toks ++ rest ->
  exists d', tinf_inflate_block_data d lt dt = Ret (TINF_OK, d')
    /\ advanced d (tokens_bits ls ds toks) (tokens_out d.(out) toks) d'.
Proof. intros Hr. intros. eapply block_loop_tokens; eauto. by apply block_fuel_enough. Qed.
End roundtrip.
