(* ===== verification/TinfHeader.v ===== *)
(** * The header of a dynamic block

    Reading it is safe on any input and undoes its encoding. *)

From S2P Require Import Prelude Bytes Tinf TinfTree TinfBuild TinfBlock.

(** * Dynamic trees: safety of [tinf_decode_trees]

    Whatever the bits are, the header of a dynamic block is read inside the
    array of code lengths, and when it is accepted both trees are complete
    codes that the block loop can use. *)

Import Huff.

Lemma put_run_spec l num n x : (num + n <= length l)%nat ->
  put_run l num n x = Ret (take num l ++ replicate n x ++ drop (num + n) l).
Proof.
  revert l num. induction n as [|n IH]; intros l num Hn; cbn [put_run].
  { by rewrite Nat.add_0_r, app_nil_l, take_drop. }
  rewrite put_lt by lia. cbn [mbind outcome_bind]. rewrite IH by (rewrite length_insert; lia).
  f_equal. rewrite (take_S_r _ num x) by (apply list_lookup_insert_eq; lia).
  rewrite take_insert_ge, drop_insert_lt, <- app_assoc by lia. cbn [replicate app].
  by replace (S num + n)%nat with (num + S n)%nat by lia.
Qed.

(** The array of code lengths, with [n] valid entries. *)
Definition lengths_ok (n : nat) (l : list Z) : Prop := length l = 320%nat /\ Forall len_ok (take n l).

Lemma put_run_ok l num n x : lengths_ok num l -> (num + n <= 320)%nat -> len_ok x ->
  exists l', put_run l num n x = Ret l' /\ lengths_ok (num + n) l'.
Proof.
  intros [Hl Hok] Hn Hx. rewrite put_run_spec by lia. eexists. split; [done|]. split.
  - rewrite !length_app, length_take, length_replicate, length_drop. lia.
  - rewrite app_assoc, take_app_le, take_ge by (rewrite length_app, length_take, length_replicate; lia).
    apply Forall_app. split; [done|]. by apply Forall_replicate.
Qed.

Lemma put_ok l n k x : lengths_ok n l -> (k < n)%nat -> (n <= 320)%nat -> len_ok x ->
  exists l', put l k x = Ret l' /\ lengths_ok n l'.
Proof.
  intros [Hl Hok] Hk Hn Hx. rewrite put_lt by lia. eexists. split; [done|]. split.
  - by rewrite length_insert.
  - rewrite take_insert_lt by lia. by apply Forall_insert.
Qed.

Lemma clcidx_lookup i : (i < 19)%nat -> exists k, clcidx !! i = Some k /\ (k < 19)%nat.
Proof. intros Hi. do 19 (destruct i as [|i]; [eexists; split; [reflexivity|lia]|]). lia. Qed.

Lemma read_clens_safe n : forall d i lengths, ready d -> lengths_ok 19 lengths -> (i + n <= 19)%nat ->
  exists lengths' d', read_clens d i n lengths = Ret (lengths', d') /\ lengths_ok 19 lengths'
    /\ progress 0 d d' /\ d'.(out) = d.(out).
Proof.
  induction n as [|n IH]; intros d i lengths Hr Hl Hi; cbn [read_clens].
  { exists lengths, d. split_and!; [done|done|by apply progress_refl|done]. }
  destruct (getbits_progress d 3 Hr) as (v & d1 & -> & Hv & P1 & O1); [lia|]. cbn [mbind outcome_bind].
  destruct (clcidx_lookup i ltac:(lia)) as (k & Ek & Hk). rewrite (get_lookup _ _ _ Ek). cbn [mbind outcome_bind].
  destruct (put_ok lengths 19 k v) as (l1 & -> & Hl1); [done|done|lia|unfold len_ok; lia|].
  cbn [mbind outcome_bind]. destruct (IH d1 (S i) l1) as (l2 & d2 & -> & Hl2 & P2 & O2); [apply P1|done|lia|].
  exists l2, d2. split; [done|]. split; [done|]. split; [|congruence].
  eapply progress_weaken, (progress_trans _ _ _ _ _ P1 P2). lia.
Qed.

(** The repeat count and the value of one symbol of the code length alphabet. *)
Lemma repeat_safe d lengths num sym : ready d -> lengths_ok num lengths -> (num <= 320)%nat ->
  0 <= sym <= 18 -> (sym =? 16) && bool_decide (num = 0%nat) = false ->
  exists x n d',
    (if sym =? 16 then
       prev ← get lengths (num - 1);
       r ← tinf_getbits_base d 2 3;
       Ret (prev, r)
     else if sym =? 17 then r ← tinf_getbits_base d 3 3; Ret (0, r)
     else if sym =? 18 then r ← tinf_getbits_base d 7 11; Ret (0, r)
     else Ret (sym, (1, d))) = Ret (x, (n, d'))
    /\ len_ok x /\ 1 <= n /\ progress 0 d d' /\ d'.(out) = d.(out).
Proof.
  intros Hr [Hl Hok] Hn Hs H16.
  assert (forall k b, 0 <= k <= 16 -> 1 <= b -> exists n d', tinf_getbits_base d k b = Ret (n, d')
            /\ 1 <= n /\ progress 0 d d' /\ d'.(out) = d.(out)) as G.
  { intros k b Hk Hb. destruct (getbits_base_progress d k b Hr Hk) as (v & d' & E & Hv & P & O).
    exists (b + v), d'. split_and!; [done|lia| |done]. eapply progress_weaken, P. lia. }
  split_eqb sym 16; [|split_eqb sym 17; [|split_eqb sym 18]].
  - apply bool_decide_eq_false in H16.
    destruct (lookup_lt_is_Some_2 lengths (num - 1) ltac:(lia)) as [x Hx].
    rewrite (get_lookup _ _ _ Hx). cbn [mbind outcome_bind].
    destruct (G 2 3) as (n & d' & -> & H); [lia|lia|]. exists x, n, d'. split; [done|]. split; [|done].
    apply (Forall_lookup_1 _ _ (num - 1) _ Hok). by rewrite lookup_take_lt by lia.
  - destruct (G 3 3) as (n & d' & -> & H); [lia|lia|]. exists 0, n, d'. split; [done|]. by split; [unfold len_ok; lia|].
  - destruct (G 7 11) as (n & d' & -> & H); [lia|lia|]. exists 0, n, d'. split; [done|]. by split; [unfold len_ok; lia|].
  - exists sym, 1, d. split; [done|]. split; [unfold len_ok; lia|]. split; [lia|]. by split; [apply progress_refl|].
Qed.

Lemma decode_lengths_safe cls lt fuel : tree_of cls lt -> Z.of_nat (length cls) <= 288 ->
  num_codes cls > 0 -> lt.(max_sym) <= 18 ->
  forall d total num lengths, ready d -> lengths_ok num lengths -> (num <= total <= 320)%nat ->
  (total - num <= fuel)%nat ->
  exists d' r, decode_lengths fuel lt d total num lengths = Ret (d', r) /\ progress 0 d d'
    /\ d'.(out) = d.(out)
    /\ match r with inl res => res = TINF_DATA_ERROR | inr l => lengths_ok total l end.
Proof.
  intros Ht Hc Hn Hm. induction fuel as [|fuel IH]; intros d total num lengths Hr Hl Htot Hf;
    cbn [decode_lengths]; (case_decide as Hd; [|exists d, (inr lengths);
      replace num with total in * by lia; by split; [|split; [apply progress_refl|]]]); [lia|].
  destruct (decode_progress cls lt d Ht Hc Hn Hr) as (sym & d1 & -> & Hs & P1 & O1).
  apply (progress_weaken _ 0) in P1; [|lia]. cbn [mbind outcome_bind]. unfold u16_ok in Hs.
  split_ltb (max_sym lt) sym; [by eauto 10|].
  destruct ((sym =? 16) && bool_decide (num = 0%nat)) eqn:E16; [by eauto 10|].
  destruct (repeat_safe d1 lengths num sym) as (x & n & d2 & -> & Hx & Hn1 & P2 & O2); [apply P1|done|lia|lia|done|].
  pose proof (progress_trans _ _ _ _ _ P1 P2) as P12. rewrite O1 in O2. cbn [mbind outcome_bind].
  split_ltb (Z.of_nat total - Z.of_nat num) n; [by eauto 10|].
  unfold len_ok in Hx. replace (u8 x) with x by (symmetry; apply Z.mod_small; lia).
  destruct (put_run_ok lengths num (Z.to_nat n) x Hl) as (l1 & -> & Hl1); [lia|done|]. cbn [mbind outcome_bind].
  destruct (IH d2 total (num + Z.to_nat n)%nat l1) as (d3 & r & -> & P3 & O3 & H3); [apply P2|done|lia|lia|].
  exists d3, r. split; [done|]. split; [|by split; [congruence|]].
  exact (progress_trans _ _ _ _ _ P12 P3).
Qed.

(** ** The header *)

Lemma progress_trees n d d' a b : progress n d d' -> progress n (set_trees d a b) (set_trees d' a b).
Proof.
  intros (E & R & P). split; [|split; [by destruct R|done]].
  unfold static in *. injection E as Em Es _ _. cbn. by rewrite Em, Es.
Qed.

Lemma set_trees_id d : set_trees d d.(ltree) d.(dtree) = d.
Proof. by destruct d. Qed.

(** The trees a decoder state holds can be used as storage. *)
Definition trees_ok (d : tinf_data) : Prop := tree_ok d.(ltree) /\ tree_ok d.(dtree).

(** Reading the header took [d] to [d'], whose trees are fit for the block loop
    when the header was accepted. *)
Record header_read (d : tinf_data) (res : Z) (d' : tinf_data) : Prop := {
  hr_progress : progress 0 (set_trees d d'.(ltree) d'.(dtree)) d';
  hr_out : d'.(out) = d.(out);
  hr_trees : trees_ok d';
  hr_res : res = TINF_DATA_ERROR \/ (res = TINF_OK /\ exists ls ds,
    tree_of ls d'.(ltree) /\ tree_of ds d'.(dtree) /\ Z.of_nat (length ls) <= 288 /\
    Z.of_nat (length ds) <= 288 /\ num_codes ls > 0)
}.

Lemma progress_static n d d' : progress n d d' -> d'.(ltree) = d.(ltree) /\ d'.(dtree) = d.(dtree).
Proof. intros (E & _). by injection E. Qed.

(** Building a tree from the first [n] code lengths. *)
Lemma build_prefix t lengths n : tree_ok t -> Forall len_ok (take n lengths) ->
  (n <= length lengths)%nat -> Z.of_nat n <= 288 ->
  exists res t', tinf_build_tree t lengths n = Ret (res, t') /\ tree_ok t'
    /\ (if res =? TINF_OK
        then acceptable (take n lengths) /\ tree_of (take n lengths) t'
             /\ t'.(max_sym) = last_nz 0 (take n lengths) (-1)
        else res = TINF_DATA_ERROR /\ ~ acceptable (take n lengths)).
Proof.
  intros Ht Hok Hn H288.
  destruct (build_tree_spec t (take n lengths) (drop n lengths) Ht Hok) as (res & t' & E & H);
    [rewrite length_take; lia|].
  rewrite take_drop, length_take, Nat.min_l in E by lia. by exists res, t'.
Qed.

(** The end of [tinf_decode_trees]: both trees from the code lengths. *)
Lemma build_both_safe d lengths hlit hdist : ready d -> trees_ok d ->
  lengths_ok (hlit + hdist) lengths -> (257 <= hlit <= 286)%nat -> (1 <= hdist <= 30)%nat ->
  exists res d',
    (eob ← get lengths 256;
     if eob =? 0 then Ret (TINF_DATA_ERROR, d)
     else
       r ← tinf_build_tree d.(ltree) lengths hlit;
       let '(res, lt) := (r : Z * tinf_tree) in
       let d := set_trees d lt d.(dtree) in
       if negb (res =? TINF_OK) then Ret (res, d)
       else
         r ← tinf_build_tree d.(dtree) (drop hlit lengths) hdist;
         let '(res, dt) := (r : Z * tinf_tree) in
         let d := set_trees d d.(ltree) dt in
         if negb (res =? TINF_OK) then Ret (res, d) else Ret (TINF_OK, d)) = Ret (res, d')
    /\ header_read d res d'.
Proof.
  intros Hr [Hlt Hdt] [Hlen Hok] Hhl Hhd.
  assert (forall a b, progress 0 (set_trees d a b) (set_trees d a b)) as Prefl.
  { intros a b. apply progress_trees. by apply progress_refl. }
  destruct (lookup_lt_is_Some_2 lengths 256 ltac:(lia)) as [eob He].
  rewrite (get_lookup _ _ _ He). cbn [mbind outcome_bind]. split_eqb eob 0.
  { eexists _, _. split; [done|]. split; [by rewrite set_trees_id; apply progress_refl|done|done|by left]. }
  assert (Forall len_ok (take hlit lengths)) as Hok1.
  { pose proof (take_take lengths hlit (hlit + hdist)) as E1. rewrite Nat.min_l in E1 by lia.
    rewrite <- E1. by apply Forall_take. }
  destruct (build_prefix d.(ltree) lengths hlit) as (res1 & lt & -> & Hlt' & H1); [done|done|lia|lia|].
  cbn [mbind outcome_bind]. split_eqb res1 TINF_OK; cbn [negb].
  2: { destruct H1 as [-> _]. eexists _, _. split; [done|]. split; [apply Prefl|done|done|by left]. }
  assert (Forall len_ok (take hdist (drop hlit lengths))) as Hok2.
  { rewrite take_drop_commute. by apply Forall_drop. }
  cbn [set_trees dtree ltree].
  destruct (build_prefix d.(dtree) (drop hlit lengths) hdist) as (res2 & dt & -> & Hdt' & H2);
    [done|done|rewrite length_drop; lia|lia|].
  cbn [mbind outcome_bind]. split_eqb res2 TINF_OK; cbn [negb].
  2: { destruct H2 as [-> _]. eexists _, _. split; [done|]. split; [apply Prefl|done|done|by left]. }
  eexists _, _. split; [done|]. split; [apply Prefl|done|done|]. right. split; [done|].
  exists (take hlit lengths), (take hdist (drop hlit lengths)).
  destruct H1 as (_ & H1 & Hm1), H2 as (_ & H2 & _).
  split_and!; [done|done|rewrite length_take; lia|rewrite length_take; lia|].
  apply last_nz_codes; [done|].
  pose proof (last_nz_le (take hlit lengths) 256 eob) as Hle. rewrite lookup_take_lt in Hle by lia.
  specialize (Hle He ltac:(done)). lia.
Qed.

Lemma header_early n d d' res : progress n d d' -> d'.(out) = d.(out) -> trees_ok d ->
  res = TINF_DATA_ERROR -> header_read d res d'.
Proof.
  intros P O T ->. destruct (progress_static _ _ _ P) as [El Ed].
  split; [|done|by unfold trees_ok; rewrite El, Ed|by left].
  rewrite El, Ed, set_trees_id. eapply progress_weaken, P. lia.
Qed.

(** Composition with a first part that leaves the trees alone, and one that
    changes the literal tree. *)
Lemma header_after n d d1 res d' : progress n d d1 -> d1.(out) = d.(out) ->
  header_read d1 res d' -> header_read d res d'.
Proof.
  intros P O [P' O' T' R']. split; [|congruence|done|done].
  eapply progress_weaken, (progress_trans _ _ _ _ _ (progress_trees _ _ _ _ _ P) P'). lia.
Qed.

Lemma header_trees d a b res d' : header_read (set_trees d a b) res d' -> header_read d res d'.
Proof. intros [P O T R]. by split. Qed.

Lemma decode_trees_safe d lengths0 : ready d -> trees_ok d -> length lengths0 = 320%nat ->
  exists res d', tinf_decode_trees d lengths0 = Ret (res, d') /\ header_read d res d'.
Proof.
  intros Hr HT Hl0. unfold tinf_decode_trees.
  destruct (getbits_base_progress d 5 257) as (v1 & d1 & -> & Hv1 & P1 & O1); [done|lia|]. cbn [mbind outcome_bind].
  destruct (getbits_base_progress d1 5 1) as (v2 & d2 & -> & Hv2 & P2 & O2); [apply P1|lia|]. cbn [mbind outcome_bind].
  destruct (getbits_base_progress d2 4 4) as (v3 & d3 & -> & Hv3 & P3 & O3); [apply P2|lia|]. cbn [mbind outcome_bind].
  pose proof (progress_trans _ _ _ _ _ P1 (progress_trans _ _ _ _ _ P2 P3)) as P13.
  assert (out d3 = out d) as O13 by congruence.
  split_ltb 286 (257 + v1); cbn [orb]; [eexists _, _; split; [done|by eapply header_early]|].
  split_ltb 30 (1 + v2); [eexists _, _; split; [done|by eapply header_early]|].
  destruct (put_run_ok lengths0 0 19 0) as (l1 & -> & Hl1); [by split|lia|unfold len_ok; lia|]. cbn [mbind outcome_bind].
  destruct (read_clens_safe (Z.to_nat (4 + v3)) d3 0 l1) as (l2 & d4 & -> & Hl2 & P4 & O4); [apply P3|done|lia|].
  cbn [mbind outcome_bind]. pose proof (progress_trans _ _ _ _ _ P13 P4) as P14.
  assert (out d4 = out d) as O14 by congruence.
  assert (trees_ok d4) as T4.
  { destruct (progress_static _ _ _ P14) as [El Ed]. unfold trees_ok. by rewrite El, Ed. }
  destruct (build_prefix d4.(ltree) l2 19) as (res & lt & -> & Hlt & H); [apply T4|apply Hl2|destruct Hl2; lia|lia|].
  cbn [mbind outcome_bind]. assert (trees_ok (set_trees d4 lt (dtree d4))) as T4' by (split; [done|apply T4]).
  assert (ready (set_trees d4 lt (dtree d4))) as R4 by (apply (progress_trees _ _ _ lt (dtree d4)) in P14; apply P14).
  set (d5 := set_trees d4 lt (dtree d4)) in *.
  assert (forall res' d', header_read d5 res' d' -> header_read d res' d') as Hback.
  { intros res' d' H'. eapply header_after; [exact P14|done|]. by eapply header_trees. }
  split_eqb res TINF_OK; cbn [negb].
  2: { destruct H as [-> _]. eexists _, _. split; [done|]. apply Hback.
       eapply header_early; [by apply progress_refl|done|done|done]. }
  split_eqb (max_sym lt) (-1).
  { eexists _, _. split; [done|]. apply Hback. eapply header_early; [by apply progress_refl|done|done|done]. }
  destruct H as (_ & Htree & Hmax). pose proof (last_nz_range (take 19 l2)) as Hrange.
  assert (length (take 19 l2) = 19%nat) as Hl19 by (rewrite length_take; destruct Hl2; lia).
  assert (lengths_ok 0 l2) as Hl20 by (split; [apply Hl2|constructor]).
  destruct (decode_lengths_safe (take 19 l2) lt (Z.to_nat (257 + v1 + (1 + v2))) Htree ltac:(lia)
              ltac:(by apply (of_max _ _ Htree)) ltac:(lia) d5 (Z.to_nat (257 + v1 + (1 + v2))) 0 l2)
    as (d6 & r & -> & P6 & O6 & H6); [done|done|lia|lia|]. cbn [mbind outcome_bind].
  destruct r as [res'|l3]; [eexists _, _; split; [done|]; apply Hback; by eapply header_early|].
  replace (Z.to_nat (257 + v1 + (1 + v2))) with (Z.to_nat (257 + v1) + Z.to_nat (1 + v2))%nat in H6 by lia.
  assert (trees_ok d6) as T6.
  { destruct (progress_static _ _ _ P6) as [El Ed]. unfold trees_ok. by rewrite El, Ed. }
  destruct (build_both_safe d6 l3 (Z.to_nat (257 + v1)) (Z.to_nat (1 + v2))) as (res' & d7 & E7 & H7);
    [apply P6|done|done|lia|lia|].
  exists res', d7. split; [exact E7|]. apply Hback. by eapply header_after.
Qed.

(** * Round trip of the header of a dynamic block

    Section 3.2.7 of RFC 1951: the code lengths of the two alphabets as one
    sequence, run-length encoded with the code length alphabet, whose own code
    lengths come first, in a fixed order. *)

Import Huff Deflate.

Module Header.

(** Order in which the code lengths of the code length alphabet are sent. *)
Definition cl_order : list nat :=
  [16; 17; 18; 0; 8; 7; 9; 6; 10; 5; 11; 4; 12; 3; 13; 2; 14; 1; 15]%nat.

(** One symbol of the code length alphabet: a length, a repetition of the
    previous length, a short and a long run of zeros. *)
Inductive rle :=
| RLen (x : nat)
| RPrev (n : nat)
| RZero (n : nat)
| RZeros (n : nat).

Definition rle_sym (r : rle) : nat :=
  match r with RLen x => x | RPrev _ => 16 | RZero _ => 17 | RZeros _ => 18 end.

Definition rle_extra (r : rle) : list bool :=
  match r with
  | RLen _ => []
  | RPrev n => bits 2 (Z.of_nat n - 3)
  | RZero n => bits 3 (Z.of_nat n - 3)
  | RZeros n => bits 7 (Z.of_nat n - 11)
  end.

Definition rle_out (acc : list Z) (r : rle) : list Z :=
  match r with
  | RLen x => acc ++ [Z.of_nat x]
  | RPrev n => acc ++ replicate n (List.last acc 0)
  | RZero n | RZeros n => acc ++ replicate n 0
  end.

Definition rle_ok (cl acc : list Z) (r : rle) : Prop :=
  used cl (rle_sym r) /\
  match r with
  | RLen x => (x <= 15)%nat
  | RPrev n => (3 <= n <= 6)%nat /\ acc <> []
  | RZero n => (3 <= n <= 10)%nat
  | RZeros n => (11 <= n <= 138)%nat
  end.

Fixpoint rles_ok (cl acc : list Z) (rs : list rle) : Prop :=
  match rs with
  | [] => True
  | r :: rs => rle_ok cl acc r /\ rles_ok cl (rle_out acc r) rs
  end.

Fixpoint rles_bits (cl : list Z) (rs : list rle) : list bool :=
  match rs with
  | [] => []
  | r :: rs => code_bits cl (rle_sym r) ++ rle_extra r ++ rles_bits cl rs
  end.

(** Three bits for each of the code lengths [i .. i + n) in the fixed order. *)
Fixpoint cl_bits (cl : list Z) (i n : nat) : list bool :=
  match n with O => [] | S n => bits 3 (cl !!! (cl_order !!! i)) ++ cl_bits cl (S i) n end.

Record header := {
  hd_lit : list Z;      (* code lengths of the literal/length alphabet *)
  hd_dist : list Z;     (* code lengths of the distance alphabet *)
  hd_cl : list Z;       (* code lengths of the code length alphabet *)
  hd_clen : nat;        (* how many of them are sent *)
  hd_rle : list rle
}.

Definition header_bits (hd : header) : list bool :=
  bits 5 (Z.of_nat (length hd.(hd_lit)) - 257) ++ bits 5 (Z.of_nat (length hd.(hd_dist)) - 1)
  ++ bits 4 (Z.of_nat hd.(hd_clen) - 4) ++ cl_bits hd.(hd_cl) 0 hd.(hd_clen)
  ++ rles_bits hd.(hd_cl) hd.(hd_rle).

Record header_ok (hd : header) : Prop := {
  ho_lit : (257 <= length hd.(hd_lit) <= 286)%nat;
  ho_dist : (1 <= length hd.(hd_dist) <= 30)%nat;
  ho_clen : (4 <= hd.(hd_clen) <= 19)%nat;
  ho_cl : length hd.(hd_cl) = 19%nat /\ Forall (fun x => 0 <= x <= 7) hd.(hd_cl);
  ho_unsent : forall j, (hd.(hd_clen) <= j < 19)%nat -> hd.(hd_cl) !!! (cl_order !!! j) = 0;
  ho_lens : Forall len_ok (hd.(hd_lit) ++ hd.(hd_dist));
  ho_codes : acceptable hd.(hd_cl) /\ acceptable hd.(hd_lit) /\ acceptable hd.(hd_dist);
  ho_rle : rles_ok hd.(hd_cl) [] hd.(hd_rle);
  ho_same : foldl rle_out [] hd.(hd_rle) = hd.(hd_lit) ++ hd.(hd_dist);
  ho_eob : used hd.(hd_lit) 256
}.

End Header.
Import Header.

(** ** The code length alphabet *)

Lemma cl_order_lookup j : (j < 19)%nat -> clcidx !! j = Some (cl_order !!! j) /\ (cl_order !!! j < 19)%nat.
Proof. intros Hj. do 19 (destruct j as [|j]; [split; [reflexivity|cbn; lia]|]). lia. Qed.

Lemma cl_order_inj i j : (i < 19)%nat -> (j < 19)%nat -> cl_order !!! i = cl_order !!! j -> i = j.
Proof.
  intros Hi Hj E. destruct (cl_order_lookup i Hi) as [E1 _], (cl_order_lookup j Hj) as [E2 _].
  rewrite E in E1. eapply (NoDup_lookup clcidx); [|exact E1|exact E2].
  apply (bool_decide_unpack _). vm_compute. exact I.
Qed.

Lemma cl_order_onto k : (k < 19)%nat -> exists j, (j < 19)%nat /\ cl_order !!! j = k.
Proof.
  intros Hk. assert (k ∈ clcidx) as Hin.
  { do 19 (destruct k as [|k]; [apply (bool_decide_unpack _); vm_compute; exact I|]). lia. }
  apply list_elem_of_lookup in Hin as [j Hj]. exists j.
  pose proof (lookup_lt_Some _ _ _ Hj) as Hlt. cbn in Hlt.
  destruct (cl_order_lookup j Hlt) as [E _]. split; [done|congruence].
Qed.

(** The array after the first [i] lengths have been stored. *)
Definition cl_stored (cl : list Z) (i : nat) (lengths : list Z) : Prop :=
  length lengths = 320%nat /\
  forall j, (j < 19)%nat ->
    lengths !! (cl_order !!! j) = Some (if decide (j < i)%nat then cl !!! (cl_order !!! j) else 0).

Lemma read_clens_known cl : length cl = 19%nat -> Forall (fun x => 0 <= x <= 7) cl ->
  forall n d i lengths rest, ready d -> cl_stored cl i lengths -> (i + n <= 19)%nat ->
  pending d = cl_bits cl i n ++ rest ->
  exists lengths' d', read_clens d i n lengths = Ret (lengths', d') /\ cl_stored cl (i + n) lengths'
    /\ advanced d (cl_bits cl i n) d.(out) d'.
Proof.
  intros Hl Hcl. induction n as [|n IH]; intros d i lengths rest Hr Hs Hi Hp; cbn [read_clens cl_bits] in *.
  { exists lengths, d. rewrite Nat.add_0_r. split_and!; [done|done|]. by apply advanced_refl. }
  destruct (cl_order_lookup i ltac:(lia)) as [Eo Ho]. set (k := cl_order !!! i) in *.
  assert (0 <= cl !!! k <= 7) as Hk 
    by (apply (Forall_lookup_total_1 (fun x => 0 <= x <= 7) cl k); [done|lia]).
  rewrite <- app_assoc in Hp.
  destruct (getbits_known d 3 (cl !!! k) _ Hr ltac:(lia) ltac:(lia) Hp) as (d1 & E1 & A1).
  change (Z.of_nat 3) with 3 in E1. rewrite E1. cbn [mbind outcome_bind].
  rewrite (get_lookup _ _ _ Eo). cbn [mbind outcome_bind]. destruct Hs as [Hs1 Hs2].
  rewrite put_lt by lia. cbn [mbind outcome_bind].
  destruct (IH d1 (S i) (<[k:=cl !!! k]> lengths) rest) as (l2 & d2 & E2 & Hs' & A2);
    [apply A1| |lia|by eapply advanced_pending|].
  { split; [by rewrite length_insert|]. intros j Hj. destruct (decide (j = i)) as [->|Hne].
    - fold k. rewrite list_lookup_insert_eq by lia. by rewrite decide_True by lia.
    - rewrite list_lookup_insert_ne by (intros E; by apply Hne, eq_sym, cl_order_inj; [lia|..]).
      rewrite Hs2 by done. f_equal. repeat case_decide; lia || done. }
  exists l2, d2. split; [done|]. split; [by replace (i + S n)%nat with (S i + n)%nat by lia|].
  pose proof (advanced_trans _ _ _ _ _ _ _ A1 A2) as A. by destruct A1 as (_ & _ & _ & U1 & _); rewrite U1 in A.
Qed.

Lemma cl_stored_all hd lengths : header_ok hd -> cl_stored hd.(hd_cl) hd.(hd_clen) lengths ->
  take 19 lengths = hd.(hd_cl).
Proof.
  intros Hok [Hl Hs]. destruct (ho_cl _ Hok) as [Hlen _]. apply list_eq. intros k.
  destruct (decide (k < 19)%nat) as [Hk|Hk].
  - rewrite lookup_take_lt by done. destruct (cl_order_onto k Hk) as (j & Hj & Ej).
    pose proof (Hs j Hj) as E. rewrite Ej in E. rewrite E.
    rewrite (list_lookup_lookup_total_lt (hd_cl hd)) by lia. f_equal.
    case_decide; [done|]. rewrite <- Ej. symmetry. apply (ho_unsent _ Hok). lia.
  - rewrite !lookup_ge_None_2; [done|lia|rewrite length_take; lia].
Qed.

(** ** The run-length encoded lengths *)

(** The array holds the lengths [acc] so far. *)
Definition holds (acc lengths : list Z) : Prop :=
  length lengths = 320%nat /\ take (length acc) lengths = acc.

Lemma put_run_holds acc lengths n x : holds acc lengths -> (length acc + n <= 320)%nat ->
  exists lengths', put_run lengths (length acc) n x = Ret lengths' /\ holds (acc ++ replicate n x) lengths'.
Proof.
  intros [Hl Ht] Hn. rewrite put_run_spec by lia. eexists. split; [done|]. split.
  - rewrite !length_app, length_take, length_replicate, length_drop. lia.
  - rewrite Ht, app_assoc, take_app_length. done.
Qed.

Lemma holds_last acc lengths : holds acc lengths -> acc <> [] ->
  lengths !! (length acc - 1)%nat = Some (List.last acc 0).
Proof.
  intros [Hl Ht] Hne. destruct (exists_last Hne) as (a & x & ->).
  rewrite last_last. rewrite length_app in *. cbn in *.
  assert (take (length a + 1) lengths !! length a = Some x) as E by (rewrite Ht; by rewrite list_lookup_middle).
  rewrite lookup_take_lt in E by lia. by replace (length a + 1 - 1)%nat with (length a) by lia.
Qed.

Lemma repeat_known cl acc r d lengths rest : rle_ok cl acc r -> holds acc lengths -> ready d ->
  pending d = rle_extra r ++ rest ->
  exists x n d',
    (if Z.of_nat (rle_sym r) =? 16 then
       prev ← get lengths (length acc - 1);
       q ← tinf_getbits_base d 2 3;
       Ret (prev, q)
     else if Z.of_nat (rle_sym r) =? 17 then q ← tinf_getbits_base d 3 3; Ret (0, q)
     else if Z.of_nat (rle_sym r) =? 18 then q ← tinf_getbits_base d 7 11; Ret (0, q)
     else Ret (Z.of_nat (rle_sym r), (1, d))) = Ret (x, (Z.of_nat n, d'))
    /\ rle_out acc r = acc ++ replicate n x /\ (1 <= n)%nat
    /\ advanced d (rle_extra r) d.(out) d'.
Proof.
  intros [Hu Hok] Hh Hr Hp.
  assert (forall k b v, (k <= 16)%nat -> 0 <= v - b < 2 ^ Z.of_nat k -> pending d = bits k (v - b) ++ rest ->
            exists d', tinf_getbits_base d (Z.of_nat k) b = Ret (v, d') /\ advanced d (bits k (v - b)) d.(out) d') as G.
  { intros k b v Hk Hv HP. destruct (getbits_base_known d k (v - b) b rest Hr Hk Hv HP) as (d' & E & A).
    exists d'. split; [|done]. rewrite E. do 2 f_equal. lia. }
  destruct r as [x|n|n|n]; cbn [rle_sym rle_extra rle_out] in *.
  - exists (Z.of_nat x), 1%nat, d. rewrite !(proj2 (Z.eqb_neq (Z.of_nat x) _)) by lia.
    split_and!; [done|done|lia|]. by apply advanced_refl.
  - destruct Hok as [Hn Hne]. rewrite (get_lookup _ _ _ (holds_last _ _ Hh Hne)). cbn [mbind outcome_bind].
    destruct (G 2%nat 3 (Z.of_nat n)) as (d' & E & A); [lia|cbn; lia|done|].
    change (Z.of_nat 2) with 2 in E. rewrite E. by eexists _, _, _; split_and!; [reflexivity|reflexivity|lia|].
  - destruct (G 3%nat 3 (Z.of_nat n)) as (d' & E & A); [lia|cbn; lia|done|].
    change (Z.of_nat 3) with 3 in E. change (Z.of_nat 17 =? 16) with false. cbn [Z.eqb]. rewrite E.
    by eexists _, _, _; split_and!; [reflexivity|reflexivity|lia|].
  - destruct (G 7%nat 11 (Z.of_nat n)) as (d' & E & A); [lia|cbn; lia|done|].
    change (Z.of_nat 7) with 7 in E. rewrite E. by eexists _, _, _; split_and!; [reflexivity|reflexivity|lia|].
Qed.

Lemma rle_out_length rs acc : (length acc <= length (foldl rle_out acc rs))%nat.
Proof.
  revert acc. induction rs as [|r rs IH]; intros acc; [done|]. cbn [foldl].
  specialize (IH (rle_out acc r)). destruct r; cbn [rle_out] in *; rewrite length_app in IH; lia.
Qed.

Section known.
Context (cl : list Z) (lt : tinf_tree).
Hypothesis Hlt : tree_of cl lt.
Hypothesis Hcl : Forall len_ok cl.
Hypothesis Hmax : forall i, used cl i -> Z.of_nat i <= lt.(max_sym).

Lemma decode_lengths_known rs : forall fuel d acc lengths rest total,
  rles_ok cl acc rs -> holds acc lengths -> Forall len_ok (foldl rle_out acc rs) -> ready d ->
  pending d = rles_bits cl rs ++ rest ->
  total = length (foldl rle_out acc rs) -> (total <= 320)%nat -> (total - length acc <= fuel)%nat ->
  exists lengths' d', decode_lengths fuel lt d total (length acc) lengths = Ret (d', inr lengths')
    /\ holds (foldl rle_out acc rs) lengths' /\ advanced d (rles_bits cl rs) d.(out) d'.
Proof.
  induction rs as [|r rs IH]; intros fuel d acc lengths rest total Hok Hh Hlen Hr Hp Ht H320 Hf.
  { cbn in Ht. exists lengths, d. subst total.
    destruct fuel; cbn [decode_lengths]; rewrite decide_False by lia;
      (split; [done|]; split; [done|]; by apply advanced_refl). }
  cbn [rles_ok rles_bits foldl] in *. destruct Hok as [Hok1 Hok2]. rewrite <- !app_assoc in Hp.
  destruct (decode_known cl lt (rle_sym r) d _ Hlt Hcl (proj1 Hok1) Hr Hp) as (d1 & E1 & A1).
  pose proof (advanced_pending _ _ _ _ _ A1 Hp) as Hp1.
  destruct (repeat_known cl acc r d1 lengths _ Hok1 Hh (proj1 A1) Hp1) as (x & n & d2 & E2 & Eo & Hn & A2).
  pose proof (advanced_pending _ _ _ _ _ A2 Hp1) as Hp2.
  pose proof (rle_out_length rs (rle_out acc r)) as Hge. rewrite <- Ht, Eo, length_app, length_replicate in Hge.
  destruct fuel as [|fuel]; [lia|]. cbn [decode_lengths]. rewrite decide_True by lia.
  rewrite E1. cbn [mbind outcome_bind].
  rewrite (proj2 (Z.ltb_ge _ _) (Hmax _ (proj1 Hok1))).
  replace ((Z.of_nat (rle_sym r) =? 16) && bool_decide (length acc = 0%nat)) with false.
  2: { symmetry. apply andb_false_iff. destruct r; cbn; try by left; apply Z.eqb_neq; destruct Hok1; lia.
       right. apply bool_decide_eq_false. destruct Hok1 as (_ & _ & Hne). by destruct acc. }
  rewrite E2. cbn [mbind outcome_bind]. rewrite (proj2 (Z.ltb_ge _ _)) by lia.
  assert (len_ok x) as Hx.
  { assert (Forall len_ok (rle_out acc r)) as Hp0.
    { clear -Hlen. revert Hlen. generalize (rle_out acc r). induction rs as [|r' rs IH]; intros a H; [done|].
      cbn [foldl] in H. apply IH in H. destruct r'; cbn [rle_out] in H; by apply Forall_app in H as [? _]. }
    rewrite Eo in Hp0. apply Forall_app in Hp0 as [_ Hp0]. destruct n; [lia|]. by apply Forall_cons in Hp0 as [? _]. }
  replace (u8 x) with x by (symmetry; apply Z.mod_small; unfold len_ok in Hx; lia). rewrite Nat2Z.id.
  destruct (put_run_holds acc lengths n x Hh ltac:(lia)) as (l1 & -> & Hh1). cbn [mbind outcome_bind].
  rewrite <- Eo in Hh1. replace (length acc + n)%nat with (length (rle_out acc r))
    by (rewrite Eo, length_app, length_replicate; done).
  destruct (IH fuel d2 (rle_out acc r) l1 rest total) as (l2 & d3 & -> & Hh2 & A3);
    [done|done|done|apply A2|done|done|done|rewrite Eo, length_app, length_replicate; lia|].
  exists l2, d3. split; [done|]. split; [done|].
  pose proof (advanced_trans _ _ _ _ _ _ _ A1 (advanced_trans _ _ _ _ _ _ _ A2 A3)) as A.
  destruct A1 as (_ & _ & _ & U1 & _), A2 as (_ & _ & _ & U2 & _). by rewrite U2, U1 in A.
Qed.
End known.

(** ** The header *)

Lemma build_known t ls lengths : tree_ok t -> Forall len_ok ls -> Z.of_nat (length ls) <= 288 ->
  acceptable ls -> take (length ls) lengths = ls ->
  exists t', tinf_build_tree t lengths (length ls) = Ret (TINF_OK, t') /\ tree_of ls t'
    /\ t'.(max_sym) = last_nz 0 ls (-1).
Proof.
  intros Ht Hok Hlen Hacc Htk.
  destruct (build_tree_spec t ls (drop (length ls) lengths) Ht Hok Hlen) as (res & t' & E & _ & H).
  rewrite <- Htk in E at 1. rewrite take_drop in E. split_eqb res TINF_OK; [|by destruct H].
  exists t'. subst res. naive_solver.
Qed.

Lemma used_max ls t i : t.(max_sym) = last_nz 0 ls (-1) -> used ls i -> Z.of_nat i <= t.(max_sym).
Proof. intros -> (x & Hi & Hx). by eapply last_nz_le. Qed.

Lemma advanced_trees d w o d' a b : advanced d w o d' -> advanced (set_trees d a b) w o (set_trees d' a b).
Proof.
  intros (R & S & V & O & P). split; [by destruct R|]. split; [|done].
  unfold static in *. injection S as Em Es _ _. cbn. by rewrite Em, Es.
Qed.

Lemma advanced_static d w o d' : advanced d w o d' -> d'.(ltree) = d.(ltree) /\ d'.(dtree) = d.(dtree).
Proof. intros (_ & E & _). by injection E. Qed.

(** The counts and the code length code: the first half of the header. *)
Lemma header_start hd d lengths0 rest : header_ok hd -> ready d -> length lengths0 = 320%nat ->
  pending d = header_bits hd ++ rest ->
  exists d1 d2 d3 d4 lengths1 lengths2,
    tinf_getbits_base d 5 257 = Ret (Z.of_nat (length hd.(hd_lit)), d1) /\
    tinf_getbits_base d1 5 1 = Ret (Z.of_nat (length hd.(hd_dist)), d2) /\
    tinf_getbits_base d2 4 4 = Ret (Z.of_nat hd.(hd_clen), d3) /\
    put_run lengths0 0 19 0 = Ret lengths1 /\
    read_clens d3 0 hd.(hd_clen) lengths1 = Ret (lengths2, d4) /\
    length lengths2 = 320%nat /\ take 19 lengths2 = hd.(hd_cl) /\
    pending d4 = rles_bits hd.(hd_cl) hd.(hd_rle) ++ rest /\
    exists w, advanced d w d.(out) d4 /\ header_bits hd = w ++ rles_bits hd.(hd_cl) hd.(hd_rle).
Proof.
  intros Hok Hr Hl0 Hp. pose proof Hok as [H1 H2 H3 [Hc1 Hc2] Hun _ _ _ _ _].
  unfold header_bits in *. rewrite <- !app_assoc in Hp.
  assert (forall d k b (v : nat) rest', ready d -> (k <= 16)%nat -> 0 <= Z.of_nat v - b < 2 ^ Z.of_nat k ->
    pending d = bits k (Z.of_nat v - b) ++ rest' ->
    exists d', tinf_getbits_base d (Z.of_nat k) b = Ret (Z.of_nat v, d')
      /\ advanced d (bits k (Z.of_nat v - b)) d.(out) d' /\ pending d' = rest') as G.
  { clear. intros d k b v rest' Hr Hk Hv HP.
    destruct (getbits_base_known d k _ b rest' Hr Hk Hv HP) as (d' & E & A).
    exists d'. split; [rewrite E; do 2 f_equal; lia|]. split; [done|by eapply advanced_pending]. }
  destruct (G d 5%nat 257 (length hd.(hd_lit)) _ Hr ltac:(lia) ltac:(cbn; lia) Hp) as (d1 & E1 & A1 & P1).
  destruct (G d1 5%nat 1 (length hd.(hd_dist)) _ (proj1 A1) ltac:(lia) ltac:(cbn; lia) P1) as (d2 & E2 & A2 & P2).
  destruct (G d2 4%nat 4 hd.(hd_clen) _ (proj1 A2) ltac:(lia) ltac:(cbn; lia) P2) as (d3 & E3 & A3 & P3).
  rewrite (put_run_spec lengths0) by lia. cbn [take app Nat.add].
  destruct (read_clens_known hd.(hd_cl) Hc1 Hc2 hd.(hd_clen) d3 0 (take 0 lengths0 ++ replicate 19 0 ++ drop 19 lengths0)
              (rles_bits hd.(hd_cl) hd.(hd_rle) ++ rest) (proj1 A3)) as (l2 & d4 & E4 & Hs & A4); [|lia|exact P3|].
  { split; [rewrite !length_app, length_take, length_replicate, length_drop; lia|]. intros j Hj.
    rewrite decide_False by lia. destruct (cl_order_lookup j Hj) as [_ Hk].
    rewrite take_0, app_nil_l, lookup_app_l by (rewrite length_replicate; lia).
    by apply lookup_replicate_2. }
  eexists d1, d2, d3, d4, _, l2. split_and!; [exact E1|exact E2|exact E3|reflexivity|exact E4|apply Hs| | |].
  - by apply (cl_stored_all hd).
  - by eapply advanced_pending.
  - pose proof (advanced_trans _ _ _ _ _ _ _ A1 (advanced_trans _ _ _ _ _ _ _ A2
                  (advanced_trans _ _ _ _ _ _ _ A3 A4))) as A.
    eexists. split; [|rewrite !app_assoc; reflexivity].
    destruct A1 as (_ & _ & _ & U1 & _), A2 as (_ & _ & _ & U2 & _), A3 as (_ & _ & _ & U3 & _).
    rewrite U3, U2, U1 in A. by rewrite !app_assoc in *.
Qed.

(** The code lengths and the two trees: the second half. *)
Lemma header_end hd d lt lengths rest : header_ok hd -> ready d -> trees_ok d ->
  tree_of hd.(hd_cl) lt -> lt.(max_sym) = last_nz 0 hd.(hd_cl) (-1) ->
  length lengths = 320%nat -> pending d = rles_bits hd.(hd_cl) hd.(hd_rle) ++ rest ->
  let total := (length hd.(hd_lit) + length hd.(hd_dist))%nat in
  exists lengths' d' eob lt' dt',
    decode_lengths total lt d total 0 lengths = Ret (d', inr lengths') /\
    lengths' !! 256%nat = Some eob /\ eob <> 0 /\
    tinf_build_tree d'.(ltree) lengths' (length hd.(hd_lit)) = Ret (TINF_OK, lt') /\
    tinf_build_tree d'.(dtree) (drop (length hd.(hd_lit)) lengths') (length hd.(hd_dist)) = Ret (TINF_OK, dt') /\
    tree_of hd.(hd_lit) lt' /\ lt'.(max_sym) = last_nz 0 hd.(hd_lit) (-1) /\
    tree_of hd.(hd_dist) dt' /\ dt'.(max_sym) = last_nz 0 hd.(hd_dist) (-1) /\
    advanced d (rles_bits hd.(hd_cl) hd.(hd_rle)) d.(out) d'.
Proof.
  intros Hok Hr [Tl Td] Ht Hm Hl Hp total.
  destruct Hok as [H1 H2 H3 [Hc1 Hc2] Hun Hlen (Hacc1 & Hacc2 & Hacc3) Hrle Hsame Heob].
  assert (Forall len_ok hd.(hd_cl)) as Hcl by (eapply Forall_impl; [exact Hc2|unfold len_ok; cbn; lia]).
  destruct (decode_lengths_known hd.(hd_cl) lt Ht Hcl (fun i => used_max _ lt i Hm) hd.(hd_rle)
              total d [] lengths rest total) as (l3 & d6 & E7 & [Hl3 Hh3] & A6);
    [done|by split|by rewrite Hsame|done|done|by rewrite Hsame, length_app|lia|lia|].
  apply Forall_app in Hlen as [Hlen1 Hlen2]. rewrite Hsame, length_app in Hh3.
  assert (take (length hd.(hd_lit)) l3 = hd.(hd_lit)) as Hlit.
  { apply (f_equal (take (length (hd_lit hd)))) in Hh3.
    by rewrite take_take, Nat.min_l, take_app_length in Hh3 by lia. }
  assert (take (length hd.(hd_dist)) (drop (length hd.(hd_lit)) l3) = hd.(hd_dist)) as Hdist.
  { apply (f_equal (drop (length (hd_lit hd)))) in Hh3. rewrite drop_app_length in Hh3.
    rewrite <- Hh3 at 2. by rewrite take_drop_commute. }
  destruct (advanced_static _ _ _ _ A6) as [El6 Ed6].
  destruct (build_known d6.(ltree) hd.(hd_lit) l3) as (lt' & E8 & Ht' & Hm'); [by rewrite El6|done|lia|done|done|].
  destruct (build_known d6.(dtree) hd.(hd_dist) (drop (length hd.(hd_lit)) l3)) as (dt' & E9 & Htd & Hmd);
    [by rewrite Ed6|done|lia|done|done|].
  destruct Heob as (eob & Heob & Hne). rewrite <- Hlit, lookup_take_lt in Heob by lia.
  exists l3, d6, eob, lt', dt'. split_and!; done.
Qed.

Lemma decode_trees_known hd d lengths0 rest : header_ok hd -> ready d -> trees_ok d ->
  length lengths0 = 320%nat -> pending d = header_bits hd ++ rest ->
  exists d', tinf_decode_trees d lengths0 = Ret (TINF_OK, d')
    /\ tree_of hd.(hd_lit) d'.(ltree) /\ tree_of hd.(hd_dist) d'.(dtree)
    /\ d'.(ltree).(max_sym) = last_nz 0 hd.(hd_lit) (-1)
    /\ d'.(dtree).(max_sym) = last_nz 0 hd.(hd_dist) (-1)
    /\ advanced (set_trees d d'.(ltree) d'.(dtree)) (header_bits hd) d.(out) d'.
Proof.
  intros Hok Hr HT Hl0 Hp.
  destruct (header_start hd d lengths0 rest Hok Hr Hl0 Hp)
    as (d1 & d2 & d3 & d4 & l1 & l2 & E1 & E2 & E3 & E4 & E5 & Hl2 & Htk & P4 & w & A4 & Ew).
  pose proof Hok as [H1 H2 _ [Hc1 Hc2] _ _ (Hacc1 & _) _ _ _].
  assert (Forall len_ok hd.(hd_cl)) as Hcl by (eapply Forall_impl; [exact Hc2|unfold len_ok; cbn; lia]).
  destruct (advanced_static _ _ _ _ A4) as [El4 Ed4]. destruct HT as [Tl Td].
  destruct (build_known d4.(ltree) hd.(hd_cl) l2) as (lt & E6 & Ht & Hm); [by rewrite El4|done|lia|done|by rewrite Hc1|].
  set (d5 := set_trees d4 lt d4.(dtree)).
  assert (ready d5) as R5 by (destruct A4 as [R4 _]; by destruct R4).
  assert (trees_ok d5) as T5 by (split; [apply Ht|by cbn; rewrite Ed4]).
  destruct (header_end hd d5 lt l2 rest Hok R5 T5 Ht Hm Hl2 P4)
    as (l3 & d6 & eob & lt' & dt' & E7 & Heob & Hne & E8 & E9 & Hlt & Hml & Hdt & Hmd & A6).
  exists (set_trees d6 lt' dt'). split; [|split_and!; [done..|]].
  - unfold tinf_decode_trees. rewrite E1. cbn [mbind outcome_bind]. rewrite E2. cbn [mbind outcome_bind].
    rewrite E3. cbn [mbind outcome_bind].
    rewrite (proj2 (Z.ltb_ge 286 _)), (proj2 (Z.ltb_ge 30 _)) by lia. cbn [orb].
    rewrite E4. cbn [mbind outcome_bind]. rewrite !Nat2Z.id, E5. cbn [mbind outcome_bind].
    rewrite Hc1 in E6. rewrite E6. cbn [mbind outcome_bind negb]. rewrite Z.eqb_refl. cbn [negb].
    destruct (Z.eqb_spec (max_sym lt) (-1)) as [Em|_].
    { exfalso. rewrite Hm in Em. pose proof (ho_rle _ Hok) as Hrle. pose proof (ho_same _ Hok) as Hsame.
      destruct (hd_rle hd) as [|r rs]; [apply (f_equal length) in Hsame; rewrite length_app in Hsame; cbn in Hsame; lia|].
      destruct Hrle as [[(x & Hx & Hx0) _] _]. pose proof (last_nz_le _ _ _ Hx Hx0). lia. }
    fold d5. rewrite Z2Nat.inj_add, ?Nat2Z.id by lia. rewrite E7. cbn [mbind outcome_bind].
    rewrite (get_lookup _ _ _ Heob). cbn [mbind outcome_bind]. rewrite (proj2 (Z.eqb_neq _ _) Hne).
    rewrite E8. cbn [mbind outcome_bind negb]. rewrite Z.eqb_refl. cbn [negb set_trees dtree ltree].
    rewrite E9. cbn [mbind outcome_bind]. rewrite Z.eqb_refl. reflexivity.
  - cbn [set_trees ltree dtree]. rewrite Ew.
    pose proof (advanced_trans _ _ _ _ _ _ _ (advanced_trees _ _ _ _ lt' dt' A4)
                  (advanced_trees _ _ _ _ lt' dt' A6)) as A.
    assert (out d5 = out d) as <- by (destruct A4 as (_ & _ & _ & U & _); exact U). exact A.
Qed.
