(* ===== verification/TinfSpec.v ===== *)
(** * Streams of blocks

    Stored blocks, the loop over the blocks, and what the decompressor guarantees. *)

From S2P Require Import Prelude Bytes Tinf TinfTree TinfBuild TinfBlock TinfHeader.

(** * Stored blocks and the stream of blocks *)

Import Huff Deflate.

(** ** Stored blocks *)

Lemma copy_stored_spec n : forall d, (d.(source) + n <= length d.(mem))%nat ->
  copy_stored d n = Ret (set_out (set_bits d (d.(source) + n) d.(tag) d.(bitcount) d.(overflow))
                           (d.(out) ++ slice d.(source) n d.(mem))).
Proof.
  induction n as [|n IH]; intros d Hn; cbn [copy_stored].
  - unfold slice. rewrite take_0, app_nil_r, Nat.add_0_r. by destruct d.
  - destruct (lookup_lt_is_Some_2 (mem d) (source d) ltac:(lia)) as [b Hb].
    rewrite (get_lookup _ _ _ Hb). cbn [mbind outcome_bind]. rewrite IH by (cbn; lia). cbn.
    unfold slice. rewrite (drop_S _ _ _ Hb), <- app_assoc.
    by replace (source d + S n)%nat with (S (source d) + n)%nat by lia.
Qed.

Lemma read_le16_spec bs p b0 b1 : bs !! p = Some b0 -> bs !! S p = Some b1 ->
  is_byte b0 -> is_byte b1 -> read_le16 bs p = Ret (b0 + 256 * b1).
Proof.
  intros H0 H1 B0 B1. unfold read_le16. rewrite (get_lookup _ _ _ H0). cbn [mbind outcome_bind].
  rewrite (get_lookup _ _ _ H1). cbn [mbind outcome_bind]. unfold is_byte in *.
  f_equal. apply (lor_add b0 b1 8); lia.
Qed.

Lemma read_le16_total bs p : Forall is_byte bs -> (p + 1 < length bs)%nat ->
  exists v, read_le16 bs p = Ret v /\ 0 <= v < W16.
Proof.
  intros Hb Hp. destruct (lookup_lt_is_Some_2 bs p ltac:(lia)) as [b0 H0].
  destruct (lookup_lt_is_Some_2 bs (S p) ltac:(lia)) as [b1 H1].
  pose proof (Forall_lookup_1 _ _ _ _ Hb H0) as B0. pose proof (Forall_lookup_1 _ _ _ _ Hb H1) as B1.
  rewrite (read_le16_spec _ _ _ _ H0 H1) by done. unfold is_byte in *. eexists. split; [done|]. lia.
Qed.

(** A stored block announced by the four bytes at [source] lies in the input. *)
Definition stored_fits (d : tinf_data) : bool :=
  if Z.of_nat d.(source_end) - Z.of_nat d.(source) <? 4 then true
  else match read_le16 d.(mem) d.(source) with
       | Ret len => Z.of_nat d.(source) + 4 + len <=? Z.of_nat d.(source_end)
       | _ => true
       end.

(** The reader at byte [p] of the input, on a byte boundary. *)
Lemma byte_boundary d p : ready d -> d.(overflow) = 0 ->
  (d.(source) <= p <= d.(source_end))%nat ->
  let d' := set_bits d p 0 0 d.(overflow) in
  ready d' /\ pending d' = byte_bits (slice p (d.(source_end) - p) d.(mem)).
Proof.
  intros [Hs Hc Hlo Ht Hm Hov] H0 Hp d'. split; [|done].
  split; cbn; [lia|lia|lia|lia|done|by left].
Qed.

(** The state after copying [n] bytes of a stored block. *)
Definition stored_end (d : tinf_data) (n : nat) : tinf_data :=
  set_out (set_bits d (d.(source) + 4 + n) 0 0 d.(overflow))
    (d.(out) ++ slice (d.(source) + 4) n d.(mem)).

Lemma stored_copy d len inv : 4 <= Z.of_nat d.(source_end) - Z.of_nat d.(source) ->
  read_le16 d.(mem) d.(source) = Ret len -> read_le16 d.(mem) (d.(source) + 2) = Ret inv ->
  (d.(source) + 4 + Z.to_nat len <= length d.(mem))%nat ->
  tinf_inflate_uncompressed_block d =
  Ret (if len =? Z.land (u32 (Z.lnot inv)) 0xFFFF
       then (TINF_OK, stored_end d (Z.to_nat len)) else (TINF_DATA_ERROR, d)).
Proof.
  intros H4 El Ei Hl. unfold tinf_inflate_uncompressed_block.
  rewrite (proj2 (Z.ltb_ge _ _) H4), El. cbn [mbind outcome_bind]. rewrite Ei. cbn [mbind outcome_bind].
  destruct (len =? _); cbn [negb]; [|done]. rewrite copy_stored_spec by (cbn; lia). reflexivity.
Qed.

Lemma stored_safe d : ready d -> stored_fits d = true ->
  exists res d', tinf_inflate_uncompressed_block d = Ret (res, d') /\ progress 0 d d'
    /\ (res = TINF_DATA_ERROR \/ (res = TINF_OK /\ d.(overflow) = 0 /\ d'.(overflow) = 0)).
Proof.
  intros Hr Hf. pose proof Hr as [Hs Hc Hlo Ht Hm Hov]. unfold stored_fits in Hf.
  destruct (Z.ltb_spec (Z.of_nat (source_end d) - Z.of_nat (source d)) 4) as [E|E].
  { exists TINF_DATA_ERROR, d. unfold tinf_inflate_uncompressed_block. rewrite (proj2 (Z.ltb_lt _ _) E).
    split; [done|]. split; [by apply progress_refl|by left]. }
  destruct (read_le16_total (mem d) (source d)) as (len & El & Hlen); [done|lia|].
  destruct (read_le16_total (mem d) (source d + 2)) as (inv & Ei & Hinv); [done|lia|].
  rewrite El in Hf. apply Z.leb_le in Hf. rewrite (stored_copy d len inv) by (done || lia).
  destruct (len =? _); [|exists TINF_DATA_ERROR, d; split; [done|]; split; [by apply progress_refl|by left]].
  assert (overflow d = 0) as H0 by lia.
  destruct (byte_boundary d (source d + 4 + Z.to_nat len) Hr H0 ltac:(lia)) as [R' _].
  eexists _, _. split; [reflexivity|]. split; [|by right]. apply progress_out.
  split; [done|]. split; [exact R'|]. left. split; [done|]. rewrite Nat.add_0_r.
  pose proof (pending_length d _ _ Hr) as L. pose proof (pending_length _ _ _ R') as L'. cbn in L'. lia.
Qed.

(** ** Safety of the stream *)

(** As [progress], when the block has replaced the trees by other usable ones. *)
Definition stepped (n : nat) (d d' : tinf_data) : Prop :=
  trees_ok d' /\ progress n (set_trees d d'.(ltree) d'.(dtree)) d'.

Lemma stepped_progress n d d' : trees_ok d -> progress n d d' -> stepped n d d'.
Proof.
  intros T P. destruct (progress_static _ _ _ P) as [El Ed]. split; [by unfold trees_ok; rewrite El, Ed|].
  by rewrite El, Ed, set_trees_id.
Qed.

Lemma stepped_after n m d d1 d' : progress n d d1 -> stepped m d1 d' -> stepped (n + m) d d'.
Proof.
  intros P [T P']. split; [done|]. exact (progress_trans _ _ _ _ _ (progress_trees _ _ _ _ _ P) P').
Qed.

(** Data of a block read with the trees [lt] and [dt] held in the state. *)
Lemma block_data_stepped d ls ds : ready d -> tree_of ls d.(ltree) -> tree_of ds d.(dtree) ->
  Z.of_nat (length ls) <= 288 -> Z.of_nat (length ds) <= 288 -> num_codes ls > 0 ->
  exists res d', tinf_inflate_block_data d d.(ltree) d.(dtree) = Ret (res, d') /\ stepped 0 d d'
    /\ (res = TINF_DATA_ERROR \/ (res = TINF_OK /\ d'.(overflow) = 0)).
Proof.
  intros Hr Hl Hd Hls Hds Hne.
  destruct (block_data_safe ls ds _ _ Hl Hd Hls Hds Hne d Hr) as (res & d' & E & P & H).
  exists res, d'. split; [done|]. split; [|done]. apply stepped_progress.
  - split; [apply (of_ok _ _ Hl)|apply (of_ok _ _ Hd)].
  - eapply progress_weaken, P. lia.
Qed.

Lemma stepped_trees n d a b d' : stepped n (set_trees d a b) d' -> stepped n d d'.
Proof. intros [T P]. by split. Qed.

Lemma fixed_safe d : ready d -> trees_ok d ->
  exists res d', tinf_inflate_fixed_block d = Ret (res, d') /\ stepped 0 d d'
    /\ (res = TINF_DATA_ERROR \/ (res = TINF_OK /\ d'.(overflow) = 0)).
Proof.
  intros Hr [Tl Td]. unfold tinf_inflate_fixed_block.
  destruct (fixed_trees_spec _ _ Tl Td) as (lt & dt & -> & Hl & Hd & _). cbn [mbind outcome_bind].
  destruct (block_data_stepped (set_trees d lt dt) fixed_lit fixed_dist) as (res & d' & E & S & H);
    [by destruct Hr|done|done|done|done|by vm_compute|].
  exists res, d'. split; [done|]. split; [by eapply stepped_trees|done].
Qed.

Lemma dynamic_safe d lengths0 : ready d -> trees_ok d -> length lengths0 = 320%nat ->
  exists res d', tinf_inflate_dynamic_block d lengths0 = Ret (res, d') /\ stepped 0 d d'
    /\ (res = TINF_DATA_ERROR \/ (res = TINF_OK /\ d'.(overflow) = 0)).
Proof.
  intros Hr HT H0. unfold tinf_inflate_dynamic_block.
  destruct (decode_trees_safe d lengths0 Hr HT H0) as (res & d1 & -> & [P1 O1 T1 R1]). cbn [mbind outcome_bind].
  destruct R1 as [->|(-> & ls & ds & Hl & Hd & Hls & Hds & Hne)]; cbn [negb Z.eqb TINF_OK TINF_DATA_ERROR].
  { eexists _, _. split; [done|]. split; [by split|by left]. }
  destruct (block_data_stepped d1 ls ds) as (res & d' & -> & [T2 P2] & H); [apply P1|done..|].
  exists res, d'. split; [done|]. split; [|done]. split; [done|].
  exact (progress_trans _ _ _ _ _ (progress_trees _ _ _ _ _ P1) P2).
Qed.

(** The next block, if it is a stored one, lies in the input. *)
Definition next_fits (d : tinf_data) : bool :=
  match tinf_getbits d 1 with
  | Ret (_, d1) =>
      match tinf_getbits d1 2 with
      | Ret (btype, d2) => if btype =? 0 then stored_fits d2 else true
      | _ => true
      end
  | _ => true
  end.

Lemma uncompress_block_safe d lengths0 : ready d -> trees_ok d -> length lengths0 = 320%nat ->
  next_fits d = true ->
  exists bfinal res d', uncompress_block d lengths0 = Ret (bfinal, res, d') /\ stepped 3 d d'
    /\ (res = TINF_DATA_ERROR \/ (res = TINF_OK /\ d'.(overflow) = 0)).
Proof.
  intros Hr HT H0 Hf. unfold uncompress_block, next_fits in *.
  destruct (getbits_progress d 1 Hr) as (bf & d1 & E1 & _ & P1 & _); [lia|]. rewrite E1 in *. cbn [mbind outcome_bind].
  destruct (getbits_progress d1 2) as (bt & d2 & E2 & _ & P2 & _); [apply P1|lia|]. rewrite E2 in *. cbn [mbind outcome_bind].
  pose proof (progress_trans _ _ _ _ _ P1 P2 : progress 3 d d2) as P12.
  destruct (progress_static _ _ _ P12) as [El Ed].
  assert (trees_ok d2) as T2 by (unfold trees_ok; by rewrite El, Ed).
  pose proof P12 as (_ & R2 & _).
  assert (exists res d', (if bt =? 0 then tinf_inflate_uncompressed_block d2
       else if bt =? 1 then tinf_inflate_fixed_block d2
       else if bt =? 2 then tinf_inflate_dynamic_block d2 lengths0
       else Ret (TINF_DATA_ERROR, d2)) = Ret (res, d') /\ stepped 0 d2 d'
       /\ (res = TINF_DATA_ERROR \/ (res = TINF_OK /\ d'.(overflow) = 0))) as (res & d' & -> & S & H).
  { split_eqb bt 0.
    - destruct (stored_safe d2 R2 Hf) as (res & d' & -> & P & H). exists res, d'. split; [done|].
      split; [by apply stepped_progress|naive_solver].
    - split_eqb bt 1; [by apply fixed_safe|]. split_eqb bt 2; [by apply dynamic_safe|].
      exists TINF_DATA_ERROR, d2. split; [done|]. split; [by apply stepped_progress, progress_refl|by left]. }
  cbn [mbind outcome_bind]. exists bf, res, d'. split; [done|]. split; [|done]. by apply (stepped_after 3 0 d d2).
Qed.

(** Every stored block met by the loop lies in the input. *)
Fixpoint stream_fits (fuel : nat) (d : tinf_data) (lengths0 : list Z) : bool :=
  match fuel with
  | O => true
  | S fuel =>
      next_fits d &&
      match uncompress_block d lengths0 with
      | Ret (bfinal, res, d') =>
          if negb (res =? TINF_OK) then true
          else if bfinal =? 0 then stream_fits fuel d' lengths0 else true
      | _ => true
      end
  end.

Lemma uncompress_loop_safe fuel lengths0 : length lengths0 = 320%nat ->
  forall d, ready d -> trees_ok d -> stream_fits fuel d lengths0 = true ->
  (length (pending d) < fuel)%nat ->
  exists res d', uncompress_loop fuel d lengths0 = Ret (res, d')
    /\ (res = TINF_DATA_ERROR \/ res = TINF_OK).
Proof.
  intros H0. induction fuel as [|fuel IH]; intros d Hr HT Hs Hf; [lia|].
  cbn [stream_fits uncompress_loop] in *. apply andb_true_iff in Hs as [Hn Hs].
  destruct (uncompress_block_safe d lengths0 Hr HT H0 Hn) as (bf & res & d' & E & [T P] & H).
  rewrite E in *. cbn [mbind outcome_bind] in *.
  destruct H as [->|[-> Ho]]; cbn [negb Z.eqb TINF_OK TINF_DATA_ERROR] in *; [by eauto|].
  destruct (bf =? 0); [|by eauto]. apply IH; [apply P|done|done|].
  destruct P as (_ & _ & [[_ Hl]|Ho']); [|congruence].
  change (pending (set_trees _ _ _)) with (pending d) in Hl. lia.
Qed.

(** * What the decompressor guarantees

    The format of a deflate stream as a relation between bits and data, the
    round trip of [tinf_uncompress] on it, its safety on arbitrary input, and
    the input on which it leaves its buffer. *)

Import Huff Deflate Header.

(** ** Deflate streams *)

(** A block: stored data after padding to a byte boundary, tokens with the fixed
    codes, tokens with the codes of a header. *)
Inductive block :=
| Stored (pad : list bool) (data : list Z)
| Fixed (toks : list token)
| Dynamic (hd : header) (toks : list token).

(** Type and body of a block. *)
Definition block_bits (b : block) : list bool :=
  match b with
  | Stored pad data =>
      [false; false] ++ pad ++
      byte_bits (le_store 2 (Z.of_nat (length data))
                 ++ le_store 2 (65535 - Z.of_nat (length data)) ++ data)
  | Fixed toks => [true; false] ++ tokens_bits fixed_lit fixed_dist toks
  | Dynamic hd toks =>
      [false; true] ++ header_bits hd ++ tokens_bits hd.(hd_lit) hd.(hd_dist) toks
  end.

(** The block is well-formed after output [o] and before the bits [rest]; the
    input ends on a byte boundary. *)
Definition block_ok (o : list Z) (rest : list bool) (b : block) : Prop :=
  match b with
  | Stored pad data =>
      (length pad < 8)%nat /\ (8 | Z.of_nat (length rest)) /\
      Z.of_nat (length data) < W16 /\ Forall is_byte data
  | Fixed toks => tokens_ok fixed_lit fixed_dist o toks
  | Dynamic hd toks => header_ok hd /\ tokens_ok hd.(hd_lit) hd.(hd_dist) o toks
  end.

Definition block_out (o : list Z) (b : block) : list Z :=
  match b with
  | Stored _ data => o ++ data
  | Fixed toks | Dynamic _ toks => tokens_out o toks
  end.

(** A stream: blocks, the last of which is marked as final, and what follows. *)
Fixpoint stream_bits (bs : list block) (last : block) (tail : list bool) : list bool :=
  match bs with
  | [] => [true] ++ block_bits last ++ tail
  | b :: bs => [false] ++ block_bits b ++ stream_bits bs last tail
  end.

Fixpoint stream_ok (o : list Z) (bs : list block) (last : block) (tail : list bool) : Prop :=
  match bs with
  | [] => block_ok o tail last
  | b :: bs => block_ok o (stream_bits bs last tail) b /\ stream_ok (block_out o b) bs last tail
  end.

Definition stream_out (o : list Z) (bs : list block) (last : block) : list Z :=
  block_out (foldl block_out o bs) last.

(** The state after a block: ready for the next one. *)
Definition at_bits (d : tinf_data) (bs : list bool) (o : list Z) : Prop :=
  ready d /\ trees_ok d /\ d.(overflow) = 0 /\ pending d = bs /\ d.(out) = o.

(** ** Stored blocks *)

Lemma byte_bits_prefix l1 l r : Forall is_byte l -> Forall is_byte l1 ->
  byte_bits l = byte_bits l1 ++ r -> take (length l1) l = l1 /\ byte_bits (drop (length l1) l) = r.
Proof.
  revert l. induction l1 as [|b l1 IH]; intros l Hl Hl1 E; [by rewrite take_0, drop_0|].
  apply Forall_cons in Hl1 as [Hb Hl1].
  destruct l as [|c l]; [apply (f_equal length) in E; by cbn in E|].
  apply Forall_cons in Hl as [Hc Hl]. cbn [byte_bits] in E. rewrite <- app_assoc in E.
  apply app_inj_1 in E as [E1 E2]; [|by rewrite !length_bits_n].
  assert (c = b) as -> by (rewrite <- (val_bits 8 c), <- (val_bits 8 b), E1; done).
  destruct (IH l Hl Hl1 E2) as [H1 H2]. cbn [length take drop]. by rewrite H1.
Qed.

(** The padding before a stored block is what the reader holds back. *)
Lemma padding d pad rest : ready d -> pending d = pad ++ rest -> (length pad < 8)%nat ->
  (8 | Z.of_nat (length rest)) ->
  rest = byte_bits (slice d.(source) (d.(source_end) - d.(source)) d.(mem)).
Proof.
  intros Hr Hp Hpad [k Hk]. pose proof (pending_length d _ _ Hr) as Hl.
  rewrite Hp, length_app, Nat2Z.inj_add, Hk in Hl.
  destruct Hr as [_ Hc _ _ _ _]. unfold pending in Hp. apply app_inj_1 in Hp as [_ E]; [done|].
  rewrite length_bits_n. lia.
Qed.

Lemma complement_check n : 0 <= n < W16 -> Z.land (u32 (Z.lnot (65535 - n))) 0xFFFF = n.
Proof.
  intros Hn. assert (Z.lnot (65535 - n) = n + -1 * W16) as -> by (unfold Z.lnot; lia).
  change 0xFFFF with (Z.ones 16). rewrite Z.land_ones by lia. change (2 ^ 16) with W16.
  unfold u32. rewrite Z.mod_mod_divide by (by exists W16). rewrite Z.mod_add by lia.
  apply Z.mod_small. lia.
Qed.

Lemma le16_at bs p n tail : (p <= length bs)%nat -> 0 <= n < W16 -> Forall is_byte bs ->
  drop p bs = le_store 2 n ++ tail -> read_le16 bs p = Ret n.
Proof.
  intros Hp Hn Hb E. cbn [le_store app] in E.
  assert (bs !! p = Some (n `mod` W8) /\ bs !! S p = Some ((n / W8) `mod` W8)) as [H0 H1].
  { rewrite <- (take_drop p bs), E. rewrite !lookup_app_r by (rewrite length_take; lia).
    rewrite length_take, Nat.min_l by lia. replace (p - p)%nat with 0%nat by lia.
    by replace (S p - p)%nat with 1%nat by lia. }
  rewrite (read_le16_spec _ _ _ _ H0 H1);
    [|by eapply (Forall_lookup_1 _ _ _ _ Hb H0)|by eapply (Forall_lookup_1 _ _ _ _ Hb H1)].
  f_equal. rewrite (Z.mod_small (n / W8)) by (split; [apply Z.div_pos|apply Z.div_lt_upper_bound]; lia).
  pose proof (Z.div_mod n W8). lia.
Qed.

Lemma stored_known d pad data rest : ready d -> trees_ok d -> d.(overflow) = 0 ->
  (length pad < 8)%nat -> (8 | Z.of_nat (length rest)) ->
  Z.of_nat (length data) < W16 -> Forall is_byte data ->
  pending d = pad ++ byte_bits (le_store 2 (Z.of_nat (length data))
                ++ le_store 2 (65535 - Z.of_nat (length data)) ++ data) ++ rest ->
  exists d', tinf_inflate_uncompressed_block d = Ret (TINF_OK, d')
    /\ at_bits d' rest (d.(out) ++ data).
Proof.
  intros Hr HT Hov Hpad Hrest Hlen Hdata Hp. set (n := length data) in *.
  set (hdr := le_store 2 (Z.of_nat n) ++ le_store 2 (65535 - Z.of_nat n) ++ data) in *.
  assert (length hdr = 4 + n)%nat as Hh by (subst hdr; rewrite !length_app, !length_le_store; lia).
  pose proof (padding d pad _ Hr Hp Hpad) as Epad. rewrite length_app, length_byte_bits in Epad.
  destruct Hrest as [q Hq]. specialize (Epad ltac:(exists (4 + Z.of_nat n + q); lia)).
  pose proof Hr as [Hs Hc Hlo Ht Hm _].
  assert (Forall is_byte hdr) as Hhb by (subst hdr; rewrite !Forall_app; auto using le_store_bytes).
  symmetry in Epad. apply byte_bits_prefix in Epad as [Etk Edr]; [|by apply slice_bytes|done].
  assert (4 + n <= source_end d - source d)%nat as Hin.
  { apply (f_equal length) in Etk. rewrite length_take, length_slice in Etk by lia. lia. }
  assert (exists tail, drop (source d) (mem d) = hdr ++ tail) as [tail Etail].
  { exists (drop (length hdr) (drop (source d) (mem d))). rewrite <- Etk at 1. unfold slice.
    rewrite take_take, Nat.min_l by lia. rewrite <- (take_drop (length hdr) (drop (source d) (mem d))) at 1.
    by rewrite Hh. }
  assert (read_le16 (mem d) (source d) = Ret (Z.of_nat n)) as E1.
  { eapply le16_at; [lia|lia|done|]. rewrite Etail. subst hdr. by rewrite <- app_assoc. }
  assert (read_le16 (mem d) (source d + 2) = Ret (65535 - Z.of_nat n)) as E2.
  { eapply le16_at; [lia|lia|done|]. rewrite <- drop_drop, Etail. subst hdr.
    rewrite <- app_assoc, drop_app_length' by (by rewrite length_le_store). by rewrite <- app_assoc. }
  rewrite (stored_copy d _ _ ltac:(lia) E1 E2) by lia. rewrite complement_check, Z.eqb_refl, Nat2Z.id by lia.
  eexists. split; [reflexivity|].
  destruct (byte_boundary d (source d + 4 + n) Hr Hov ltac:(lia)) as [R' P'].
  assert (slice (source d + 4) n (mem d) = data) as Edata.
  { unfold slice. rewrite <- drop_drop, Etail. subst hdr. rewrite <- !app_assoc, (app_assoc (le_store 2 _)).
    rewrite drop_app_length' by (rewrite length_app, !length_le_store; lia). by rewrite take_app_length' by done. }
  unfold stored_end. rewrite Edata. split; [by destruct R'|]. split_and!; [by destruct HT..|done| |done].
  trans (pending (set_bits d (source d + 4 + n) 0 0 (overflow d))); [done|]. rewrite P', <- Edr. f_equal.
  unfold slice. rewrite Hh, skipn_firstn_comm, drop_drop.
  by replace (source d + 4 + n)%nat with (source d + (4 + n))%nat by lia;
    replace (source_end d - source d - (4 + n))%nat with (source_end d - (source d + (4 + n)))%nat by lia.
Qed.

(** ** Compressed blocks *)

Lemma at_bits_advanced d w o d' rest : advanced d w o d' -> trees_ok d -> d.(overflow) = 0 ->
  pending d = w ++ rest -> at_bits d' rest o.
Proof.
  intros A [Tl Td] Hov Hp. pose proof (advanced_pending _ _ _ _ _ A Hp) as Hp'.
  destruct (advanced_static _ _ _ _ A) as [El Ed]. destruct A as (R & _ & V & U & _).
  split_and!; try done; [split; congruence|congruence].
Qed.

Lemma fixed_used i : (i < 288)%nat -> used fixed_lit i.
Proof.
  intros Hi. destruct (lookup_lt_is_Some_2 fixed_lit i Hi) as [x Hx]. exists x. split; [done|].
  intros ->. assert (Forall (fun x => x <> 0) fixed_lit) as Hf.
  { unfold fixed_lit. rewrite !Forall_app. split_and!; by apply Forall_replicate. }
  by apply (Forall_lookup_1 _ _ _ _ Hf Hx).
Qed.

Lemma fixed_len_ok : Forall len_ok fixed_lit /\ Forall len_ok fixed_dist.
Proof.
  split; unfold fixed_lit, fixed_dist; rewrite ?Forall_app; split_and?; by apply Forall_replicate.
Qed.

Lemma fixed_known d toks rest : ready d -> trees_ok d -> d.(overflow) = 0 ->
  tokens_ok fixed_lit fixed_dist d.(out) toks ->
  pending d = tokens_bits fixed_lit fixed_dist toks ++ rest ->
  exists d', tinf_inflate_fixed_block d = Ret (TINF_OK, d')
    /\ at_bits d' rest (tokens_out d.(out) toks).
Proof.
  intros Hr [Tl Td] Hov Hok Hp. unfold tinf_inflate_fixed_block.
  destruct (fixed_trees_spec _ _ Tl Td) as (lt & dt & -> & Hl & Hd & Hml & Hmd). cbn [mbind outcome_bind].
  destruct fixed_len_ok as [L1 L2]. set (d1 := set_trees d lt dt).
  destruct (block_data_tokens fixed_lit fixed_dist lt dt Hl Hd L1 L2) with (d := d1) (toks := toks) (rest := rest)
    as (d' & E & A); [rewrite Hml; lia|rewrite Hmd; lia|by destruct Hr|done|by apply fixed_used; lia|done|done|].
  exists d'. split; [exact E|].
  eapply at_bits_advanced; [exact A|split; [apply Hl|apply Hd]|done|done].
Qed.

Lemma dynamic_known d hd toks rest lengths0 : ready d -> trees_ok d -> d.(overflow) = 0 ->
  length lengths0 = 320%nat -> header_ok hd -> tokens_ok hd.(hd_lit) hd.(hd_dist) d.(out) toks ->
  pending d = header_bits hd ++ tokens_bits hd.(hd_lit) hd.(hd_dist) toks ++ rest ->
  exists d', tinf_inflate_dynamic_block d lengths0 = Ret (TINF_OK, d')
    /\ at_bits d' rest (tokens_out d.(out) toks).
Proof.
  intros Hr HT Hov Hl0 Hhd Hok Hp. unfold tinf_inflate_dynamic_block.
  destruct (decode_trees_known hd d lengths0 _ Hhd Hr HT Hl0 Hp) as (d1 & -> & Hl & Hd & Hml & Hmd & A1).
  cbn [mbind outcome_bind]. rewrite Z.eqb_refl. cbn [negb].
  pose proof (advanced_pending _ _ _ _ _ A1 Hp) as Hp1. pose proof A1 as (R1 & _ & V1 & U1 & _).
  change (overflow (set_trees _ _ _)) with (overflow d) in V1. rewrite Hov in V1.
  pose proof (ho_lens _ Hhd) as [L1 L2]%Forall_app. rewrite <- U1 in Hok.
  destruct (block_data_tokens hd.(hd_lit) hd.(hd_dist) d1.(ltree) d1.(dtree) Hl Hd L1 L2)
    with (d := d1) (toks := toks) (rest := rest) as (d' & E & A);
    [intros; by eapply used_max|intros; by eapply used_max|done|done|apply (ho_eob _ Hhd)|done|done|].
  exists d'. split; [exact E|]. rewrite U1 in A.
  eapply at_bits_advanced; [exact A|split; [apply Hl|apply Hd]|done|done].
Qed.

(** ** The stream *)

Lemma uncompress_block_known d b final rest lengths0 : ready d -> trees_ok d -> d.(overflow) = 0 ->
  length lengths0 = 320%nat -> block_ok d.(out) rest b ->
  pending d = [final] ++ block_bits b ++ rest ->
  exists d', uncompress_block d lengths0 = Ret (Z.b2z final, TINF_OK, d')
    /\ at_bits d' rest (block_out d.(out) b).
Proof.
  intros Hr HT Hov Hl0 Hok Hp. unfold uncompress_block.
  destruct (getbits_known d 1 (Z.b2z final) (block_bits b ++ rest)) as (d1 & E1 & A1);
    [done|lia|by destruct final|by rewrite Hp; destruct final|].
  change (Z.of_nat 1) with 1 in E1. rewrite E1. cbn [mbind outcome_bind].
  pose proof (at_bits_advanced _ _ _ _ (block_bits b ++ rest) A1 HT Hov) as (R1 & T1 & V1 & P1 & U1);
    [by rewrite Hp; destruct final|].
  assert (exists bt body, block_bits b = bits 2 bt ++ body /\ 0 <= bt < 2 ^ Z.of_nat 2 /\
    forall d2, at_bits d2 (body ++ rest) (out d) -> exists d',
      (if bt =? 0 then tinf_inflate_uncompressed_block d2
       else if bt =? 1 then tinf_inflate_fixed_block d2
       else if bt =? 2 then tinf_inflate_dynamic_block d2 lengths0
       else Ret (TINF_DATA_ERROR, d2)) = Ret (TINF_OK, d')
      /\ at_bits d' rest (block_out (out d) b)) as (bt & body & Eb & Hbt & Hbody).
  { destruct b as [pad data|toks|hd toks]; cbn [block_bits block_ok block_out] in *.
    - exists 0. eexists. split; [reflexivity|]. split; [done|]. intros d2 (R2 & T2 & V2 & P2 & U2).
      rewrite <- app_assoc in P2. rewrite <- U2. destruct Hok as (? & ? & ? & ?). by apply (stored_known d2 pad data rest).
    - exists 1. eexists. split; [reflexivity|]. split; [done|]. intros d2 (R2 & T2 & V2 & P2 & U2).
      rewrite <- U2 in *. by apply fixed_known.
    - exists 2. eexists. split; [reflexivity|]. split; [done|]. intros d2 (R2 & T2 & V2 & P2 & U2).
      rewrite <- U2 in *. rewrite <- app_assoc in P2. destruct Hok. by apply (dynamic_known d2 hd). }
  rewrite Eb, <- app_assoc in P1.
  destruct (getbits_known d1 2 bt _ R1 ltac:(lia) Hbt P1) as (d2 & E2 & A2).
  change (Z.of_nat 2) with 2 in E2. rewrite E2. cbn [mbind outcome_bind]. rewrite U1 in A2.
  destruct (Hbody d2) as (d' & -> & H'); [by eapply at_bits_advanced|]. by exists d'.
Qed.

Lemma uncompress_loop_known bs last tail lengths0 : length lengths0 = 320%nat ->
  forall fuel d, at_bits d (stream_bits bs last tail) d.(out) -> stream_ok d.(out) bs last tail ->
  (length (pending d) < fuel)%nat ->
  exists d', uncompress_loop fuel d lengths0 = Ret (TINF_OK, d')
    /\ at_bits d' tail (stream_out d.(out) bs last).
Proof.
  intros Hl0. induction bs as [|b bs IH]; intros fuel d (R & T & V & P & _) Hok Hf;
    (destruct fuel as [|fuel]; [lia|]); cbn [uncompress_loop stream_bits stream_ok] in *.
  - destruct (uncompress_block_known d last true tail lengths0) as (d' & -> & H'); [done..|].
    cbn [mbind outcome_bind]. rewrite Z.eqb_refl. cbn. by exists d'.
  - destruct Hok as [Hok1 Hok2].
    destruct (uncompress_block_known d b false (stream_bits bs last tail) lengths0) as (d1 & -> & H1); [done..|].
    cbn [mbind outcome_bind]. rewrite Z.eqb_refl. cbn [negb Z.b2z Z.eqb].
    pose proof H1 as (R1 & T1 & V1 & P1 & U1). rewrite <- U1 in Hok2.
    destruct (IH fuel d1) as (d' & -> & H'); [by split_and!|done| |].
    { rewrite P1. rewrite P, !length_app in Hf. cbn in Hf. lia. }
    exists d'. split; [done|]. unfold stream_out in *. cbn [foldl]. by rewrite U1 in H'.
Qed.

(** The initial state of [tinf_uncompress]. *)
Definition stack_ok (st : stack) : Prop :=
  tree_ok st.(st_ltree) /\ tree_ok st.(st_dtree) /\ length st.(st_lengths) = 320%nat.

Definition start_state (st : stack) (mem : list Z) (start len : nat) : tinf_data :=
  {| mem := mem; source := start; source_end := start + len; tag := 0; bitcount := 0; overflow := 0;
     out := []; ltree := st.(st_ltree); dtree := st.(st_dtree) |}.

Lemma start_ready st mem start len : Forall is_byte mem -> (start + len <= length mem)%nat ->
  ready (start_state st mem start len)
  /\ pending (start_state st mem start len) = byte_bits (slice start len mem).
Proof.
  intros Hb Hl. split; [split; cbn; try done; [lia|by left]|].
  unfold pending. cbn. by replace (start + len - start)%nat with len by lia.
Qed.
