(* ===== verification/Gzip.v ===== *)
(** * The gzip container

    RFC 1952: a member is a header with optional fields, a deflate stream and
    an eight byte trailer (which the code skips: its checks are commented out). *)

From S2P Require Import Prelude Bytes Tinf TinfTree TinfBuild TinfBlock TinfHeader TinfSpec.

Module Gz.

(** Header fields: the optional ones are [None] when absent. *)
Record fields := {
  gz_text : bool;
  gz_misc : list Z;               (* time, extra flags, operating system *)
  gz_extra : option (list Z);
  gz_name : option (list Z);
  gz_comment : option (list Z);
  gz_hcrc : option (list Z)
}.

Definition flag (o : option (list Z)) : bool := match o with Some _ => true | None => false end.

Definition flags (text hcrc extra name comment : bool) : Z :=
  Z.b2z text + 2 * Z.b2z hcrc + 4 * Z.b2z extra + 8 * Z.b2z name + 16 * Z.b2z comment.

Definition extra_bytes (o : option (list Z)) : list Z :=
  match o with None => [] | Some x => le_store 2 (Z.of_nat (length x)) ++ x end.
Definition string_bytes (o : option (list Z)) : list Z :=
  match o with None => [] | Some s => s ++ [0] end.
Definition hcrc_bytes (o : option (list Z)) : list Z := match o with None => [] | Some c => c end.

Definition header_bytes (g : fields) : list Z :=
  [0x1F; 0x8B; 8; flags g.(gz_text) (flag g.(gz_hcrc)) (flag g.(gz_extra)) (flag g.(gz_name)) (flag g.(gz_comment))]
  ++ g.(gz_misc) ++ extra_bytes g.(gz_extra) ++ string_bytes g.(gz_name)
  ++ string_bytes g.(gz_comment) ++ hcrc_bytes g.(gz_hcrc).

(** Strings are zero-terminated. *)
Definition string_ok (o : option (list Z)) : Prop :=
  match o with None => True | Some s => Forall (fun x => x <> 0) s end.

Record fields_ok (g : fields) : Prop := {
  gz_misc_ok : length g.(gz_misc) = 6%nat;
  gz_extra_ok : match g.(gz_extra) with None => True | Some x => Z.of_nat (length x) < W16 end;
  gz_name_ok : string_ok g.(gz_name);
  gz_comment_ok : string_ok g.(gz_comment);
  gz_hcrc_ok : match g.(gz_hcrc) with None => True | Some c => length c = 2%nat end
}.

End Gz.
Import Gz.

Lemma flags_spec text hcrc extra name comment :
  let flg := flags text hcrc extra name comment in
  Z.land flg 0xE0 = 0 /\ (Z.land flg FHCRC =? 0) = negb hcrc /\ (Z.land flg FEXTRA =? 0) = negb extra
  /\ (Z.land flg FNAME =? 0) = negb name /\ (Z.land flg FCOMMENT =? 0) = negb comment.
Proof. by destruct text, hcrc, extra, name, comment. Qed.

Lemma skip_string_spec s : forall fuel pre post n, Forall (fun x => x <> 0) s ->
  (length pre + length s < n)%nat -> (n - length pre <= fuel)%nat ->
  skip_string fuel (pre ++ s ++ 0 :: post) (length pre) n = Ret (inr (length pre + length (s ++ [0%Z]))%nat).
Proof.
  induction s as [|b s IH]; intros fuel pre post n Hs Hn Hf;
    (destruct fuel as [|fuel]; [lia|]); cbn [skip_string]; rewrite decide_False by lia; cbn [app].
  - rewrite (get_lookup _ _ _ (lookup_at pre 0 post)). cbn. do 2 f_equal. lia.
  - apply Forall_cons in Hs as [Hb Hs]. rewrite (get_lookup _ _ _ (lookup_at pre b _)). cbn [mbind outcome_bind].
    rewrite (proj2 (Z.eqb_neq _ _) Hb), snoc_at, (S_length pre b).
    rewrite IH; [|done|rewrite <- S_length; cbn in Hn; lia|rewrite <- S_length; lia].
    rewrite <- S_length. cbn [length]. do 2 f_equal. lia.
Qed.

Lemma skip_field_spec o pre post n : string_ok o ->
  (length pre + length (string_bytes o) <= n)%nat ->
  skip_field (flag o) (pre ++ string_bytes o ++ post) (inr (length pre)) n
  = Ret (inr (length (pre ++ string_bytes o))).
Proof.
  intros Hok Hn. rewrite length_app. destruct o as [s|]; cbn [flag string_bytes skip_field] in *; [|by cbn; rewrite Nat.add_0_r].
  rewrite length_app in Hn. cbn in Hn. rewrite <- app_assoc. apply skip_string_spec; [done|lia|lia].
Qed.

(** The header is skipped exactly. *)
Lemma gzip_header_spec g rest : fields_ok g -> Forall is_byte (header_bytes g ++ rest) -> (8 <= length rest)%nat ->
  gzip_header (header_bytes g ++ rest) (length (header_bytes g ++ rest)) = Ret (inr (length (header_bytes g))).
Proof.
  intros [Hm Hx Hn Hc Hh] Hb Hr. unfold gzip_header.
  set (F := flags (gz_text g) (flag (gz_hcrc g)) (flag (gz_extra g)) (flag (gz_name g)) (flag (gz_comment g))).
  destruct (flags_spec (gz_text g) (flag (gz_hcrc g)) (flag (gz_extra g)) (flag (gz_name g)) (flag (gz_comment g)))
    as (HE0 & EH & EX & EN & EC). fold F in HE0, EH, EX, EN, EC.
  set (src := header_bytes g ++ rest).
  set (p1 := [0x1F; 0x8B; 8; F] ++ gz_misc g).
  assert (length p1 = 10%nat) as Hp1 by (subst p1; rewrite length_app, Hm; done).
  set (p2 := p1 ++ extra_bytes (gz_extra g)). set (p3 := p2 ++ string_bytes (gz_name g)).
  set (p4 := p3 ++ string_bytes (gz_comment g)).
  assert (header_bytes g = p4 ++ hcrc_bytes (gz_hcrc g)) as Eh.
  { subst p4 p3 p2 p1. unfold header_bytes. fold F. by rewrite <- !app_assoc. }
  assert (length src = length p4 + length (hcrc_bytes (gz_hcrc g)) + length rest)%nat as Hl
    by (subst src; rewrite Eh, !length_app; lia).
  assert (length p4 = length p3 + length (string_bytes (gz_comment g)) /\ length p3 = length p2 + length (string_bytes (gz_name g))
          /\ length p2 = 10 + length (extra_bytes (gz_extra g)))%nat as (L4 & L3 & L2)
    by (subst p4 p3 p2; rewrite !length_app; lia).
  rewrite decide_False by lia.
  change (get src 0) with (Ret 0x1F). change (get src 1) with (Ret 0x8B).
  change (get src 2) with (Ret 8). change (get src 3) with (Ret F). cbn [mbind outcome_bind].
  change (negb (31 =? 31) || negb (139 =? 139)) with false. change (negb (8 =? 8)) with false.
  cbn [mbind outcome_bind]. rewrite HE0. cbn [negb Z.eqb]. rewrite EX, EN, EC, EH.
  assert ((if negb (flag (gz_extra g)) then Ret (inr 10%nat)
           else xlen ← read_le16 src 10;
                if Z.of_nat (length src) - 12 <? xlen then Ret (inl TINF_DATA_ERROR)
                else Ret (inr (10 + (Z.to_nat xlen + 2))%nat)) = Ret (inr (length p2) : Z + nat)) as ->.
  { rewrite L2. destruct (gz_extra g) as [x|]; cbn [flag negb extra_bytes] in *; [|by cbn].
    assert (read_le16 src 10 = Ret (Z.of_nat (length x))) as ->.
    { eapply le16_at; [lia|lia|done|]. subst src. rewrite Eh. subst p4 p3 p2. rewrite <- !app_assoc.
      by rewrite drop_app_length'. }
    cbn [mbind outcome_bind]. rewrite length_app, length_le_store in *. rewrite (proj2 (Z.ltb_ge _ _)) by lia.
    do 2 f_equal. lia. }
  cbn [mbind outcome_bind]. rewrite !negb_involutive.
  assert (src = p2 ++ string_bytes (gz_name g) ++ string_bytes (gz_comment g) ++ hcrc_bytes (gz_hcrc g) ++ rest) as Es
    by (subst src; rewrite Eh; subst p4 p3; by rewrite <- !app_assoc).
  rewrite Es at 1. rewrite skip_field_spec by (done || lia). cbn [mbind outcome_bind]. fold p3.
  assert (src = p3 ++ string_bytes (gz_comment g) ++ hcrc_bytes (gz_hcrc g) ++ rest) as Es3
    by (rewrite Es; subst p3; by rewrite <- !app_assoc).
  rewrite Es3 at 1. rewrite skip_field_spec by (done || lia). cbn [mbind outcome_bind]. fold p4.
  rewrite Eh. destruct (gz_hcrc g) as [c|]; cbn [flag negb hcrc_bytes] in *; rewrite length_app;
    cbn [length] in *; rewrite (proj2 (Z.ltb_ge _ _)) by lia; do 2 f_equal; lia.
Qed.
