(* ===== verification/InflateSpec.v ===== *)
(** * Correctness and safety of the decompressor *)

From S2P Require Import Prelude Bytes Tinf TinfTree TinfBuild TinfBlock TinfHeader TinfSpec Gzip.

Import Huff Deflate Header Gz.

Lemma uncompress_known st mem start len bs last tail : stack_ok st -> Forall is_byte mem ->
  (start + len <= length mem)%nat -> byte_bits (slice start len mem) = stream_bits bs last tail ->
  stream_ok [] bs last tail ->
  tinf_uncompress st mem start len = Ret (TINF_OK, stream_out [] bs last).
Proof.
  intros (Tl & Td & Hl0) Hb Hl Ebits Hok.
  destruct (start_ready st mem start len Hb Hl) as [R P].
  destruct (uncompress_loop_known bs last tail st.(st_lengths) Hl0 (8 * length mem + 1)
              (start_state st mem start len)) as (d' & E & (_ & _ & V' & _ & U')).
  - by split_and!; try done; rewrite P.
  - done.
  - rewrite P, length_byte_bits, length_slice by lia. lia.
  - unfold tinf_uncompress. fold (start_state st mem start len). rewrite E. cbn [mbind outcome_bind].
    by rewrite V', U'.
Qed.

(** C1: Round trip of inflate.  Take any sequence of deflate blocks: stored
    blocks, blocks of literals and matches in the fixed codes, and blocks with
    their own complete codes announced by a run-length encoded header, the last
    one marked as final.  When the input holds the bits of this sequence,
    [tinf_uncompress] terminates with [TINF_OK] and writes exactly the bytes the
    sequence stands for, whatever the stack held before. *)
Theorem inflate_roundtrip (st : stack) (mem : list Z) (start len : nat)
    (bs : list block) (last : block) (tail : list bool) :
  stack_ok st -> Forall is_byte mem -> (start + len <= length mem)%nat ->
  byte_bits (slice start len mem) = stream_bits bs last tail -> stream_ok [] bs last tail ->
  tinf_uncompress st mem start len = Ret (TINF_OK, stream_out [] bs last).
Proof. apply uncompress_known. Qed.

(** Stack contents for the examples. *)
Definition demo_tree : tinf_tree :=
  {| counts := replicate 16 7; symbols := replicate 288 9; max_sym := 5 |}.
Definition demo_stack : stack :=
  {| st_ltree := demo_tree; st_dtree := demo_tree; st_lengths := replicate 320 3 |}.

Lemma demo_stack_ok : stack_ok demo_stack.
Proof.
  assert (tree_ok demo_tree) by (split; [done|done|by apply Forall_replicate]). by split_and!.
Qed.

(** A stored block "hi" followed by a fixed block with a literal and a match. *)
Definition demo_blocks : list block := [Stored [false; false; false; false; false] [104; 105]].
Definition demo_last : block := Fixed [Lit 33; Match 1 0 2 0].
Definition demo_bytes : list Z := [0; 2; 0; 253; 255; 104; 105; 83; 4; 33; 0].

Lemma demo_bytes_ok : Forall is_byte demo_bytes.
Proof. apply (bool_decide_unpack _). by vm_compute. Qed.

Lemma demo_stream_ok : stream_ok [] demo_blocks demo_last ([false; false]).
Proof.
  split.
  - split; [cbn; lia|]. split; [exists 4; by vm_compute|]. split; [done|]. apply (bool_decide_unpack _). by vm_compute.
  - assert (used fixed_dist 2) by (by exists 5).
    split; [split; [lia|apply fixed_used; lia]|]. split; [|done]. cbn [token_ok].
    split; [lia|]. split; [apply fixed_used; lia|]. split; [by vm_compute|]. split; [lia|]. split; [done|].
    by split; vm_compute.
Qed.

Lemma inflate_roundtrip_witness :
  tinf_uncompress demo_stack demo_bytes 0 11 = Ret (TINF_OK, [104; 105; 33; 104; 105; 33; 104]).
Proof.
  apply (inflate_roundtrip demo_stack demo_bytes 0 11 demo_blocks demo_last ([false; false])).
  - exact demo_stack_ok.
  - exact demo_bytes_ok.
  - cbn. lia.
  - vm_compute. reflexivity.
  - exact demo_stream_ok.
Defined.

(** Round trip of a gzip member.  For any header, with any of the optional
    extra field, file name, comment and header checksum, any deflate stream and
    any eight byte trailer, [tinf_gzip_uncompress] skips the header exactly and
    writes the contents of the stream. *)
Theorem gzip_roundtrip (st : stack) (g : fields) (body trailer : list Z)
    (bs : list block) (last : block) (tail : list bool) :
  let src := header_bytes g ++ body ++ trailer in
  stack_ok st -> fields_ok g -> Forall is_byte src -> length trailer = 8%nat ->
  byte_bits body = stream_bits bs last tail -> stream_ok [] bs last tail ->
  tinf_gzip_uncompress st src (length src) = Ret (TINF_OK, stream_out [] bs last).
Proof.
  intros src Hst Hg Hb Ht Hbits Hok. unfold tinf_gzip_uncompress, src in *.
  assert (length (body ++ trailer) = length body + 8)%nat as Hl by (rewrite length_app; lia).
  rewrite gzip_header_spec by (done || lia). cbn [mbind outcome_bind].
  rewrite length_app, Hl. replace (length (header_bytes g) + (length body + 8) - length (header_bytes g) - 8)%nat
    with (length body) by lia.
  rewrite (uncompress_known st _ _ _ bs last tail); [done|done|done|rewrite length_app; lia| |done].
  unfold slice. by rewrite drop_app_length, take_app_length.
Qed.

Definition demo_fields : fields :=
  {| gz_text := false; gz_misc := [1; 2; 3; 4; 5; 6]; gz_extra := Some [9; 9; 9];
     gz_name := Some [102; 111]; gz_comment := None; gz_hcrc := Some [1; 2] |}.

Lemma gzip_roundtrip_witness :
  let src := header_bytes demo_fields ++ demo_bytes ++ [1; 2; 3; 4; 5; 6; 7; 8] in
  tinf_gzip_uncompress demo_stack src (length src) = Ret (TINF_OK, [104; 105; 33; 104; 105; 33; 104]).
Proof.
  apply (gzip_roundtrip demo_stack demo_fields demo_bytes [1; 2; 3; 4; 5; 6; 7; 8]
           demo_blocks demo_last [false; false]).
  - exact demo_stack_ok.
  - split; [done|done| |done|done]. apply (bool_decide_unpack _). by vm_compute.
  - apply (bool_decide_unpack _). by vm_compute.
  - reflexivity.
  - vm_compute. reflexivity.
  - exact demo_stream_ok.
Defined.

(** C28: Compressed blocks are decoded safely on arbitrary input.  From any state
    between two blocks, with any bits in front of the reader and any remains of
    earlier blocks in the trees, decoding a block with fixed or with dynamic
    codes stays inside the input, the tables, the arrays of the trees and the
    code lengths and the output written so far, terminates, returns [TINF_OK] or
    [TINF_DATA_ERROR], reports a truncated input as an error, and leaves the
    decoder in such a state again. *)
Theorem inflate_blocks_safe (d : tinf_data) (lengths0 : list Z) :
  ready d -> trees_ok d -> length lengths0 = 320%nat ->
  exists res1 d1 res2 d2,
    tinf_inflate_fixed_block d = Ret (res1, d1) /\ ready d1 /\ trees_ok d1 /\
    (res1 = TINF_DATA_ERROR \/ (res1 = TINF_OK /\ d1.(overflow) = 0)) /\
    tinf_inflate_dynamic_block d lengths0 = Ret (res2, d2) /\ ready d2 /\ trees_ok d2 /\
    (res2 = TINF_DATA_ERROR \/ (res2 = TINF_OK /\ d2.(overflow) = 0)).
Proof.
  intros Hr HT Hl.
  destruct (fixed_safe d Hr HT) as (res1 & d1 & E1 & [T1 (_ & R1 & _)] & H1).
  destruct (dynamic_safe d lengths0 Hr HT Hl) as (res2 & d2 & E2 & [T2 (_ & R2 & _)] & H2).
  exists res1, d1, res2, d2. by split_and!.
Qed.

Lemma demo_ready bs : Forall is_byte bs -> ready (start_state demo_stack bs 0 (length bs)).
Proof. intros H. by apply start_ready. Qed.

Lemma inflate_blocks_safe_witness :
  exists res1 d1 res2 d2, let d := start_state demo_stack demo_bytes 0 (length demo_bytes) in
    tinf_inflate_fixed_block d = Ret (res1, d1) /\ ready d1 /\ trees_ok d1 /\
    (res1 = TINF_DATA_ERROR \/ (res1 = TINF_OK /\ d1.(overflow) = 0)) /\
    tinf_inflate_dynamic_block d (replicate 320 3) = Ret (res2, d2) /\ ready d2 /\ trees_ok d2 /\
    (res2 = TINF_DATA_ERROR \/ (res2 = TINF_OK /\ d2.(overflow) = 0)).
Proof.
  apply (inflate_blocks_safe (start_state demo_stack demo_bytes 0 (length demo_bytes)) (replicate 320 3)).
  - apply demo_ready. exact demo_bytes_ok.
  - destruct demo_stack_ok as (H1 & H2 & _). by split.
  - reflexivity.
Defined.

(** A whole stream is decoded safely as long as its stored blocks are
    honest: when every stored block met on the way announces a length that lies
    in the input, [tinf_uncompress] terminates inside its buffers on arbitrary
    input and returns [TINF_OK] or [TINF_DATA_ERROR]. *)
Theorem uncompress_safe (st : stack) (mem : list Z) (start len : nat) :
  stack_ok st -> Forall is_byte mem -> (start + len <= length mem)%nat ->
  stream_fits (8 * length mem + 1) (start_state st mem start len) st.(st_lengths) = true ->
  exists res o, tinf_uncompress st mem start len = Ret (res, o)
    /\ (res = TINF_OK \/ res = TINF_DATA_ERROR).
Proof.
  intros (Tl & Td & Hl0) Hb Hl Hf. destruct (start_ready st mem start len Hb Hl) as [R P].
  destruct (uncompress_loop_safe (8 * length mem + 1) st.(st_lengths) Hl0 (start_state st mem start len))
    as (res & d' & E & H); [done|by split|done|rewrite P, length_byte_bits, length_slice by lia; lia|].
  unfold tinf_uncompress. fold (start_state st mem start len). rewrite E. cbn [mbind outcome_bind].
  destruct H as [-> | ->]; cbn [negb Z.eqb TINF_OK TINF_DATA_ERROR]; [by eauto|]. destruct (negb _); eauto.
Qed.

Lemma uncompress_safe_witness :
  exists res o, tinf_uncompress demo_stack [5; 224; 129; 8] 0 4 = Ret (res, o)
    /\ (res = TINF_OK \/ res = TINF_DATA_ERROR).
Proof.
  apply (uncompress_safe demo_stack [5; 224; 129; 8] 0 4).
  - exact demo_stack_ok.
  - apply (bool_decide_unpack _). by vm_compute.
  - cbn. lia.
  - vm_compute. reflexivity.
Defined.

(** A stored block can make the decoder leave its input: with the check
    against [source_end] commented out, the five bytes below, given as the whole
    input, are a final stored block of 65535 bytes, and copying it reads beyond
    the five bytes. *)
Theorem stored_block_overrun :
  tinf_uncompress demo_stack [1; 255; 255; 0; 0] 0 5 = Undef.
Proof. vm_compute. reflexivity. Qed.

(** [tinf_build_tree] accepts exactly the usable codes: for any code lengths
    between 0 and 15 of at most 288 symbols it terminates inside its arrays, and
    returns [TINF_OK] if and only if no length has more codes than strings are
    left and the code is complete, or has a single code of one bit, or is empty. *)
Theorem build_tree_accepts (t : tinf_tree) (ls junk : list Z) :
  tree_ok t -> Forall len_ok ls -> Z.of_nat (length ls) <= 288 ->
  exists res t', tinf_build_tree t (ls ++ junk) (length ls) = Ret (res, t')
    /\ (res = TINF_OK <-> acceptable ls) /\ (res = TINF_OK \/ res = TINF_DATA_ERROR).
Proof.
  intros Ht Hok Hl. destruct (build_tree_spec t ls junk Ht Hok Hl) as (res & t' & E & _ & H).
  exists res, t'. split; [done|]. split_eqb res TINF_OK; [subst res; naive_solver|].
  destruct H as [-> Hna]. naive_solver.
Qed.

Lemma build_tree_accepts_witness :
  exists res t', tinf_build_tree demo_tree ([2; 1; 0; 2] ++ []) (length [2; 1; 0; 2]) = Ret (res, t')
    /\ (res = TINF_OK <-> acceptable [2; 1; 0; 2]) /\ (res = TINF_OK \/ res = TINF_DATA_ERROR).
Proof.
  apply (build_tree_accepts demo_tree [2; 1; 0; 2] []).
  - apply demo_stack_ok.
  - apply (bool_decide_unpack _). by vm_compute.
  - cbn. lia.
Defined.

(** The tables decode the canonical Huffman code of RFC 1951: after
    [tinf_build_tree] has accepted the code lengths [ls], and with the code of
    any symbol [i] in front of the reader, [tinf_decode_symbol] returns [i] and
    consumes exactly that code. *)
Theorem decode_canonical_code (t t' : tinf_tree) (ls junk : list Z) (i : nat) (x : Z)
    (d : tinf_data) (rest : list bool) :
  tree_ok t -> Forall len_ok ls -> Z.of_nat (length ls) <= 288 ->
  tinf_build_tree t (ls ++ junk) (length ls) = Ret (TINF_OK, t') ->
  ls !! i = Some x -> x <> 0 -> ready d -> pending d = code_bits ls i ++ rest ->
  exists d', tinf_decode_symbol d t' = Ret (Z.of_nat i, d') /\ pending d' = rest.
Proof.
  intros Ht Hok Hl Hb Hi Hx Hr Hp.
  destruct (build_tree_spec t ls junk Ht Hok Hl) as (res & t1 & E & _ & H).
  rewrite Hb in E. apply Ret_inj, pair_equal_spec in E as [<- <-]. destruct H as (_ & Htree & _).
  destruct (decode_known ls t' i d rest Htree Hok) as (d' & E & A); [by exists x|done|done|].
  exists d'. split; [done|]. by eapply advanced_pending.
Qed.

Lemma decode_canonical_code_witness :
  exists d', tinf_decode_symbol (start_state demo_stack [3] 0 1)
      {| counts := [0; 1; 2; 0; 0; 0; 0; 0; 0; 0; 0; 0; 0; 0; 0; 0];
         symbols := [1; 0; 3] ++ replicate 285 9; max_sym := 3 |} = Ret (3, d')
    /\ pending d' = [false; false; false; false; false; false].
Proof.
  apply (decode_canonical_code demo_tree _ [2; 1; 0; 2] [] 3 2).
  - apply demo_stack_ok.
  - apply (bool_decide_unpack _). by vm_compute.
  - cbn. lia.
  - vm_compute. reflexivity.
  - reflexivity.
  - lia.
  - apply (demo_ready [3]). apply (bool_decide_unpack _). by vm_compute.
  - vm_compute. reflexivity.
Defined.
