(* ===== verification/Volume.v ===== *)
(** * Reading from a volume: the block cache of common/lib/part.s2.c

    A volume is a disk or a partition of one.  [volume_read] copies bytes out of
    a cache that holds one block of [fastest_xfer_size] sectors at a time.  The
    disk driver (common/drivers/disk.s2.c, which calls the firmware) is the
    interface [Disk]. *)

From S2P Require Import Prelude Bytes.

(** [disk_read_sectors(volume, buf, block, count)]: the drive and sector size of
    the volume, the buffer, the first sector and the number of sectors; success
    and the new contents of the buffer. *)
Class Disk := disk_read_sectors : Z -> Z -> list Z -> Z -> Z -> bool * list Z.

Definition CACHE_NOT_READY : Z := 0.
Definition CACHE_READY : Z := 1.

(** [struct volume] of a BIOS build ([drive] names the device; the UEFI build has
    handles in its place); [backing_dev] is an address, [cache] is [None] for NULL. *)
Record volume := {
  drive : Z;
  fastest_xfer_size : Z;
  index : Z;
  is_optical : bool;
  pxe : bool;
  partition : Z;
  sector_size : Z;
  backing_dev : Z;
  max_partition : Z;
  cache_status : Z;
  cache : option (list Z);
  cached_block : Z;
  first_sect : Z;
  sect_count : Z;
  guid_valid : bool;
  guid : list Z;
  part_guid_valid : bool;
  part_guid : list Z;
  fslabel_valid : bool;
  fslabel : list Z
}.

(** The part of the volume the cache code changes. *)
Definition set_cache (v : volume) (status : Z) (c : option (list Z)) (block : Z) : volume :=
  {| drive := v.(drive); fastest_xfer_size := v.(fastest_xfer_size); index := v.(index);
     is_optical := v.(is_optical); pxe := v.(pxe); partition := v.(partition);
     sector_size := v.(sector_size); backing_dev := v.(backing_dev);
     max_partition := v.(max_partition); cache_status := status; cache := c; cached_block := block;
     first_sect := v.(first_sect); sect_count := v.(sect_count);
     guid_valid := v.(guid_valid); guid := v.(guid);
     part_guid_valid := v.(part_guid_valid); part_guid := v.(part_guid);
     fslabel_valid := v.(fslabel_valid); fslabel := v.(fslabel) |}.

Section volumes.
Context `{Disk}.

(** The number of sectors to transfer, clamped to the end of the volume;
    [None]: the block lies beyond the end. *)
Definition clamp_xfer (v : volume) (first read_sector : Z) : option Z :=
  if v.(sect_count) =? W64 - 1 then Some v.(fastest_xfer_size)
  else
    let volume_sectors := v.(sect_count) / (v.(sector_size) / 512) in
    let end_sector := match add_overflow first volume_sectors with Some e => e | None => W64 - 1 end in
    if end_sector <=? read_sector then None
    else
      let remaining := end_sector - read_sector in
      Some (if remaining <? v.(fastest_xfer_size) then remaining else v.(fastest_xfer_size)).

Definition cache_block (v : volume) (block : Z) : outcome (bool * volume) :=
  if (v.(cache_status) =? CACHE_READY) && (block =? v.(cached_block)) then Ret (true, v)
  else
    let buf := match v.(cache) with
               | Some c => c
               | None => replicate (Z.to_nat (u64 (v.(fastest_xfer_size) * v.(sector_size)))) 0
               end in
    let v := set_cache v CACHE_NOT_READY (Some buf) v.(cached_block) in
    let ratio := v.(sector_size) / 512 in
    if ratio =? 0 then Undef
    else if negb (v.(first_sect) `mod` ratio =? 0) then Ret (false, v)
    else
      let first := v.(first_sect) / ratio in
      match mul_overflow block v.(fastest_xfer_size) with
      | None => Ret (false, v)
      | Some block_offset =>
          match add_overflow first block_offset with
          | None => Ret (false, v)
          | Some read_sector =>
              match clamp_xfer v first read_sector with
              | None => Ret (false, v)
              | Some xfer_size =>
                  let '(ok, buf) := disk_read_sectors v.(drive) v.(sector_size) buf read_sector xfer_size in
                  if ok then Ret (true, set_cache v CACHE_READY (Some buf) block)
                  else Ret (false, set_cache v CACHE_NOT_READY (Some buf) v.(cached_block))
              end
          end
      end.

(** The loop of [volume_read]: one block per iteration. *)
Fixpoint read_loop (fuel : nat) (v : volume) (buffer : list Z) (loc count block_size progress : Z)
    : outcome (bool * list Z * volume) :=
  if progress <? count then
    match fuel with
    | O => Diverge
    | S fuel =>
        let pos := u64 (loc + progress) in
        r ← cache_block v (pos / block_size);
        let '(ok, v) := (r : bool * volume) in
        if negb ok then Ret (false, buffer, v)
        else
          let offset := pos `mod` block_size in
          let chunk := if block_size - offset <? count - progress
                       then block_size - offset else count - progress in
          c ← (match v.(cache) with Some c => Ret c | None => Undef end);
          if Z.of_nat (length c) <? offset + chunk then Undef
          else
            buffer ← blit buffer (Z.to_nat progress) (slice (Z.to_nat offset) (Z.to_nat chunk) c);
            read_loop fuel v buffer loc count block_size (progress + chunk)
    end
  else Ret (true, buffer, v).

(** [volume_read(volume, buffer, loc, count)]: the result, the buffer and the
    volume afterwards. *)
Definition volume_read (v : volume) (buffer : list Z) (loc count : Z)
    : outcome (bool * list Z * volume) :=
  if v.(pxe) then Panic "Attempted volume_read() on pxe"
  else if negb (v.(sect_count) =? W64 - 1) &&
          match mul_overflow v.(sect_count) 512 with
          | None => true
          | Some part_size => (part_size <=? loc) || (part_size - loc <? count)
          end
  then Ret (false, buffer, v)
  else
    let block_size := u64 (v.(fastest_xfer_size) * v.(sector_size)) in
    if (0 <? count) && (block_size =? 0) then Undef
    else read_loop (Z.to_nat (count / block_size + 3)) v buffer loc count block_size 0.
End volumes.

(** ** Computations that read a volume *)

(** The volume is threaded: a read may replace the cached block. *)
Definition VM (A : Type) : Type := volume -> outcome (A * volume).

#[export] Instance VM_ret : MRet VM := fun A a v => Ret (a, v).
#[export] Instance VM_bind : MBind VM := fun A B f m v =>
  match m v with
  | Ret (a, v) => f a v
  | Panic msg => Panic msg
  | Undef => Undef
  | Diverge => Diverge
  end.

Definition vpanic {A} (msg : string) : VM A := fun _ => Panic msg.
Definition lift {A} (o : outcome A) : VM A := fun v => a ← o; Ret (a, v).

(** A [volume_read] of [count] bytes into an object of its own: the bytes, or
    [None] when it fails. *)
Definition vread `{Disk} (loc count : Z) : VM (option (list Z)) := fun v =>
  r ← volume_read v (replicate (Z.to_nat count) 0) loc count;
  let '(ok, buf, v) := (r : bool * list Z * volume) in
  Ret (if ok then Some buf else None, v).
