(* ===== verification/VolumeSpec.v ===== *)
(** * Correctness of volume reads

    What [volume_read] promises its clients, proved against the contract
    [DiskSpec] of the disk driver: the bytes it returns are the bytes of the
    medium at the volume's offset, whatever blocks the cache held before. *)

From S2P Require Import Prelude Bytes Volume.

(** ** The contents of a medium *)

(** The [n] bytes from [off] of a byte-addressed medium. *)
Definition bytes_at (f : Z -> Z) (off : Z) (n : nat) : list Z :=
  (fun i => f (off + Z.of_nat i)) <$> seq 0 n.

Lemma length_bytes_at f off n : length (bytes_at f off n) = n.
Proof. unfold bytes_at. by rewrite length_fmap, length_seq. Qed.

Lemma lookup_bytes_at f off n i : (i < n)%nat ->
  bytes_at f off n !! i = Some (f (off + Z.of_nat i)).
Proof.
  intros Hi. unfold bytes_at. by rewrite list_lookup_fmap, lookup_seq_lt by done.
Qed.

Lemma bytes_at_ext f off n l : length l = n ->
  (forall i, (i < n)%nat -> l !! i = Some (f (off + Z.of_nat i))) -> l = bytes_at f off n.
Proof.
  intros Hl H. apply list_eq. intros i. destruct (decide (i < n)%nat) as [Hi|Hi].
  - by rewrite H, lookup_bytes_at.
  - by rewrite !lookup_ge_None_2 by (rewrite ?length_bytes_at; lia).
Qed.

Lemma bytes_at_app f off n m :
  bytes_at f off (n + m) = bytes_at f off n ++ bytes_at f (off + Z.of_nat n) m.
Proof.
  symmetry. apply bytes_at_ext; [by rewrite length_app, !length_bytes_at|]. intros i Hi.
  destruct (decide (i < n)%nat).
  - rewrite lookup_app_l by (rewrite length_bytes_at; lia). by apply lookup_bytes_at.
  - rewrite lookup_app_r by (rewrite length_bytes_at; lia). rewrite length_bytes_at, lookup_bytes_at by lia.
    do 2 f_equal. lia.
Qed.

Lemma slice_bytes_at f off n o m : (o + m <= n)%nat ->
  slice o m (bytes_at f off n) = bytes_at f (off + Z.of_nat o) m.
Proof.
  intros H. apply bytes_at_ext; [by rewrite length_slice; rewrite ?length_bytes_at|].
  intros i Hi. unfold slice. rewrite lookup_take_lt, lookup_drop, lookup_bytes_at by lia.
  do 2 f_equal. lia.
Qed.

(** One step of a loop that fills a buffer with the bytes of a medium. *)
Lemma blit_progress f loc p n buf : (p + n <= length buf)%nat ->
  blit (bytes_at f loc p ++ drop p buf) p (bytes_at f (loc + Z.of_nat p) n) =
  Ret (bytes_at f loc (p + n) ++ drop (p + n) buf).
Proof.
  intros H. rewrite blit_fit by (rewrite length_app, !length_bytes_at, length_drop; lia).
  rewrite length_bytes_at, take_app_le, take_ge by (rewrite length_bytes_at; lia).
  rewrite drop_app_ge, length_bytes_at, drop_drop by (rewrite length_bytes_at; lia).
  rewrite bytes_at_app, <- app_assoc. do 4 f_equal. lia.
Qed.

(** ** The contract of the disk driver *)

(** On success the transferred sectors are those of the medium and the rest of
    the buffer is untouched; on failure the buffer holds any bytes. *)
Class DiskSpec (D : Disk) (media : Z -> Z -> Z) : Prop := {
  media_byte drive i : is_byte (media drive i);
  disk_read_ok drive ss buf sector n buf' :
    0 < ss -> 0 <= sector -> 0 <= n -> n * ss <= Z.of_nat (length buf) ->
    disk_read_sectors drive ss buf sector n = (true, buf') ->
    buf' = bytes_at (media drive) (sector * ss) (Z.to_nat (n * ss)) ++ drop (Z.to_nat (n * ss)) buf;
  disk_read_length drive ss buf sector n ok buf' :
    disk_read_sectors drive ss buf sector n = (ok, buf') -> length buf' = length buf;
  disk_read_bytes drive ss buf sector n ok buf' :
    Forall is_byte buf -> disk_read_sectors drive ss buf sector n = (ok, buf') -> Forall is_byte buf'
}.

(** A drive on which no transfer fails. *)
Definition healthy {D : Disk} (d : Z) : Prop :=
  forall ss buf sector n, fst (disk_read_sectors d ss buf sector n) = true.

Section spec.
Context `{D : Disk} {media : Z -> Z -> Z} `{!DiskSpec D media}.

Definition ratio (v : volume) : Z := v.(sector_size) / 512.
Definition block_bytes (v : volume) : Z := v.(fastest_xfer_size) * v.(sector_size).

(** The byte at offset [i] of a volume. *)
Definition content (v : volume) (i : Z) : Z := media v.(drive) (v.(first_sect) * 512 + i).

(** The part of a volume its whole device sectors cover. *)
Definition covered (v : volume) (i : Z) : Prop :=
  v.(sect_count) = W64 - 1 \/ i < v.(sect_count) / ratio v * v.(sector_size).

Record geometry_ok (v : volume) : Prop := {
  go_sector : 0 < v.(sector_size) /\ v.(sector_size) = ratio v * 512;
  go_xfer : 0 < v.(fastest_xfer_size) /\ block_bytes v < W64;
  go_first : 0 <= v.(first_sect) < W64;
  go_count : v.(sect_count) = W64 - 1 \/
             0 <= v.(sect_count) /\ v.(first_sect) + v.(sect_count) < W64
}.

(** The cache, when it is marked ready, agrees with the medium on the covered
    part of the block it is labelled with. *)
Record volume_ok (v : volume) : Prop := {
  vo_geometry : geometry_ok v;
  vo_length c : v.(cache) = Some c -> Z.of_nat (length c) = block_bytes v;
  vo_ready : v.(cache_status) = CACHE_READY ->
    exists c, v.(cache) = Some c /\ forall i, (i < length c)%nat -> covered v (v.(cached_block) * block_bytes v + Z.of_nat i) ->
        c !! i = Some (content v (v.(cached_block) * block_bytes v + Z.of_nat i))
}.

(** Two states of one volume: only the cache may differ. *)
Definition same_volume (v w : volume) : Prop :=
  exists status c block, w = set_cache v status c block.

Lemma same_volume_set v s c b : same_volume v (set_cache v s c b).
Proof. by exists s, c, b. Qed.

Lemma same_volume_refl v : same_volume v v.
Proof. exists v.(cache_status), v.(cache), v.(cached_block). by destruct v. Qed.

Lemma same_volume_trans u v w : same_volume u v -> same_volume v w -> same_volume u w.
Proof. intros (s & c & b & ->) (s' & c' & b' & ->). by exists s', c', b'. Qed.

Lemma geometry_same v w : same_volume v w -> geometry_ok v -> geometry_ok w.
Proof. by intros (s & c & b & ->) []. Qed.

(** A volume whose cache is not ready needs a cache of the right size only. *)
Lemma not_ready_ok v c b : geometry_ok v -> Z.of_nat (length c) = block_bytes v ->
  volume_ok (set_cache v CACHE_NOT_READY (Some c) b).
Proof. intros Hg Hc. by split; [destruct Hg|intros ? [= <-]|]. Qed.

Lemma end_sector_fits v : geometry_ok v -> v.(sect_count) <> W64 - 1 ->
  v.(first_sect) / ratio v + v.(sect_count) / ratio v < W64.
Proof.
  intros [[Hs Hr] _ Hf Hc] Hne. assert (0 < ratio v) as Hrat by lia.
  pose proof (Z.div_le_upper_bound (first_sect v) (ratio v) (first_sect v) Hrat ltac:(nia)).
  pose proof (Z.div_le_upper_bound (sect_count v) (ratio v) (sect_count v) Hrat ltac:(nia)).
  lia.
Qed.

(** The transfer stays in the cache and covers the covered part of the block. *)
Lemma clamp_xfer_spec v block n : geometry_ok v -> 0 <= block ->
  clamp_xfer v (v.(first_sect) / ratio v) (v.(first_sect) / ratio v + block * v.(fastest_xfer_size)) = Some n ->
  0 <= n <= v.(fastest_xfer_size) /\
  forall i, 0 <= i < block_bytes v -> covered v (block * block_bytes v + i) -> i < n * v.(sector_size).
Proof.
  intros Hg Hblk. pose proof (end_sector_fits v Hg) as He. destruct Hg as [[Hs Hr] [Hx Hb] Hf Hc].
  unfold clamp_xfer, covered, block_bytes in *. fold (ratio v).
  split_eqb v.(sect_count) (W64 - 1).
  { intros [= <-]. split; [lia|]. intros; nia. }
  specialize (He ltac:(done)).
  rewrite add_overflow_lt by done. case_b; [done|]. intros [= <-].
  split; [case_b; nia|]. intros i Hi [?|Hv]; [lia|].
  split_ltb (v.(first_sect) / ratio v + v.(sect_count) / ratio v - (v.(first_sect) / ratio v + block * v.(fastest_xfer_size))) v.(fastest_xfer_size); nia.
Qed.

(** A block in range is one the transfer of which is not refused. *)
Definition block_in_range (v : volume) (block : Z) : Prop :=
  v.(first_sect) `mod` ratio v = 0 /\
  v.(first_sect) / ratio v + block * v.(fastest_xfer_size) < W64 /\
  (v.(sect_count) <> W64 - 1 -> block * v.(fastest_xfer_size) < v.(sect_count) / ratio v).

Lemma clamp_xfer_in_range v block : geometry_ok v -> block_in_range v block ->
  exists n, clamp_xfer v (v.(first_sect) / ratio v) (v.(first_sect) / ratio v + block * v.(fastest_xfer_size)) = Some n.
Proof.
  intros Hg (_ & Hw & Hr2). unfold clamp_xfer. fold (ratio v).
  split_eqb v.(sect_count) (W64 - 1); [eauto|].
  specialize (Hr2 ltac:(lia)). rewrite add_overflow_lt by (by apply end_sector_fits).
  case_b; eauto; lia.
Qed.

Lemma transfer_ready v block n c c' : geometry_ok v -> 0 <= block ->
  v.(first_sect) `mod` ratio v = 0 -> Z.of_nat (length c) = block_bytes v ->
  clamp_xfer v (v.(first_sect) / ratio v) (v.(first_sect) / ratio v + block * v.(fastest_xfer_size)) = Some n ->
  disk_read_sectors v.(drive) v.(sector_size) c
    (v.(first_sect) / ratio v + block * v.(fastest_xfer_size)) n = (true, c') ->
  volume_ok (set_cache v CACHE_READY (Some c') block).
Proof.
  intros Hg Hblk Ha Hc Hn Hd. pose proof Hg as [[Hs Hr] [Hx Hb] Hf _].
  destruct (clamp_xfer_spec v block n Hg Hblk Hn) as [Hn1 Hn2].
  assert (0 < ratio v) by lia.
  pose proof (Z.div_pos v.(first_sect) (ratio v) ltac:(lia) ltac:(lia)).
  pose proof (disk_read_length _ _ _ _ _ _ _ Hd) as Hl.
  apply (disk_read_ok (media := media)) in Hd; [|unfold block_bytes in *; nia..].
  split; [by destruct Hg|intros ? [= <-]; unfold block_bytes in *; simpl; lia|].
  intros _. exists c'. split; [done|]. intros i Hi Hcov.
  change (covered v (block * block_bytes v + Z.of_nat i)) in Hcov. cbn [cached_block set_cache].
  change (content (set_cache v CACHE_READY (Some c') block)) with (content v).
  change (block_bytes (set_cache v CACHE_READY (Some c') block)) with (block_bytes v).
  apply Hn2 in Hcov; [|lia]. rewrite Hd, lookup_app_l by (rewrite length_bytes_at; lia).
  rewrite lookup_bytes_at by lia. unfold content, block_bytes. do 2 f_equal.
  pose proof (Z.div_mod (first_sect v) (ratio v) ltac:(lia)). nia.
Qed.

Lemma cache_block_correct v block : volume_ok v -> 0 <= block ->
  exists ok v', cache_block v block = Ret (ok, v') /\ same_volume v v' /\ volume_ok v' /\
    (ok = true -> v'.(cache_status) = CACHE_READY /\ v'.(cached_block) = block) /\
    (healthy v.(drive) -> block_in_range v block -> ok = true).
Proof.
  intros Hv Hblk. pose proof Hv as [Hg Hlen Hrdy]. pose proof Hg as [[Hs Hr] [Hx Hb] Hf Hc].
  unfold cache_block. fold (ratio v).
  destruct ((cache_status v =? CACHE_READY) && (block =? cached_block v)) eqn:Ehit.
  { apply andb_true_iff in Ehit as [?%Z.eqb_eq ?%Z.eqb_eq].
    exists true, v. split_and!; auto using same_volume_refl. }
  set (buf := match v.(cache) with Some c => c | None => _ end).
  assert (Z.of_nat (length buf) = block_bytes v) as Hbuf.
  { unfold buf. destruct (cache v) as [c|] eqn:Ec; [by apply Hlen|].
    unfold block_bytes in *. rewrite length_replicate, u64_small; nia. }
  set (s := set_cache v CACHE_NOT_READY (Some buf) (cached_block v)).
  assert (same_volume v s) as Hss by apply same_volume_set.
  assert (volume_ok s) as Hso by (by apply not_ready_ok).
  change (clamp_xfer s) with (clamp_xfer v). change (ratio s) with (ratio v).
  change (first_sect s) with (first_sect v). change (drive s) with (drive v).
  change (fastest_xfer_size s) with (fastest_xfer_size v). change (sector_size s) with (sector_size v). fold (ratio v).
  split_eqb (ratio v) 0; [lia|].
  split_eqb (first_sect v `mod` ratio v) 0; cbn [negb].
  2:{ exists false, s. split_and!; [done..|]. by intros _ [? _]. }
  unfold mul_overflow. split_ltb (block * fastest_xfer_size v) (W64%Z).
  2:{ exists false, s. split_and!; [done..|]. intros _ (_ & Hw & _).
      pose proof (Z.div_pos (first_sect v) (ratio v) ltac:(lia) ltac:(lia)). lia. }
  unfold add_overflow. split_ltb (first_sect v / ratio v + block * fastest_xfer_size v) (W64%Z).
  2:{ exists false, s. split_and!; [done..|]. intros _ (_ & Hw & _). lia. }
  destruct (clamp_xfer v _ _) as [n|] eqn:En.
  2:{ exists false, s. split_and!; [done..|]. intros _ Hrange.
      destruct (clamp_xfer_in_range v block Hg Hrange) as [n Hn]. congruence. }
  destruct (disk_read_sectors _ _ _ _ _) as [ok c'] eqn:Ed.
  destruct ok.
  - exists true, (set_cache v CACHE_READY (Some c') block). split_and!; try done.
    + apply same_volume_set.
    + by eapply transfer_ready.
  - exists false, (set_cache v CACHE_NOT_READY (Some c') (cached_block v)). split_and!; try done.
    + apply same_volume_set.
    + apply not_ready_ok; [done|]. rewrite (disk_read_length _ _ _ _ _ _ _ Ed). done.
    + intros Hh _. pose proof (Hh (sector_size v) buf (first_sect v / ratio v + block * fastest_xfer_size v) n) as H.
      by rewrite Ed in H.
Qed.

Lemma content_same v w : same_volume v w -> content w = content v.
Proof. by intros (s & c & b & ->). Qed.

(** The chunk copied out of a ready cache. *)
Lemma ready_slice v pos n : volume_ok v -> v.(cache_status) = CACHE_READY ->
  0 <= pos -> v.(cached_block) = pos / block_bytes v ->
  pos `mod` block_bytes v + Z.of_nat n <= block_bytes v ->
  (forall i, pos <= i < pos + Z.of_nat n -> covered v i) ->
  exists c, v.(cache) = Some c /\ Z.of_nat (length c) = block_bytes v /\
    slice (Z.to_nat (pos `mod` block_bytes v)) n c = bytes_at (content v) pos n.
Proof.
  intros Hv Hr Hpos Hblk Hfit Hcov. pose proof Hv as [[[Hs _] [Hx _] _ _] Hlen Hrdy].
  destruct (Hrdy Hr) as (c & Hc & Hbytes). exists c. split_and!; auto.
  specialize (Hlen c Hc).
  pose proof (Z.mod_pos_bound pos (block_bytes v) ltac:(unfold block_bytes; nia)).
  pose proof (Z.div_mod pos (block_bytes v) ltac:(unfold block_bytes; nia)).
  apply bytes_at_ext; [apply length_slice; lia|]. intros i Hi.
  unfold slice. rewrite lookup_take_lt, lookup_drop, Hbytes by (try apply Hcov; nia).
  do 2 f_equal. rewrite Hblk. nia.
Qed.

(** The arithmetic of one chunk: it ends at a block boundary or ends the read. *)
Lemma chunk_step bs pos rest chunk fuel : 0 < bs -> 0 < rest ->
  chunk = (if bs - pos `mod` bs <? rest then bs - pos `mod` bs else rest) ->
  pos `mod` bs + rest <= Z.of_nat (S fuel) * bs ->
  0 < chunk <= rest /\ pos `mod` bs + chunk <= bs /\
  (chunk = rest \/ (pos + chunk) `mod` bs + (rest - chunk) <= Z.of_nat fuel * bs).
Proof.
  intros Hbs Hrest -> Hfuel. pose proof (Z.mod_pos_bound pos bs Hbs).
  split_ltb (bs - pos `mod` bs) rest.
  - replace ((pos + (bs - pos `mod` bs)) `mod` bs) with 0; [nia|].
    pose proof (Z.div_mod pos bs ltac:(lia)).
    replace (pos + (bs - pos `mod` bs)) with ((pos / bs + 1) * bs) by nia. by rewrite Z_mod_mult.
  - lia.
Qed.

Lemma read_loop_correct fuel : forall v buf loc count p,
  volume_ok v -> 0 <= loc -> 0 <= p <= count -> loc + count <= W64 ->
  count <= Z.of_nat (length buf) ->
  (forall i, loc <= i < loc + count -> covered v i) ->
  (p = count \/ (loc + p) `mod` block_bytes v + (count - p) <= Z.of_nat fuel * block_bytes v) ->
  exists ok buf' v',
    read_loop fuel v (bytes_at (content v) loc (Z.to_nat p) ++ drop (Z.to_nat p) buf)
      loc count (block_bytes v) p = Ret (ok, buf', v') /\
    same_volume v v' /\ volume_ok v' /\ length buf' = length buf /\
    (ok = true -> buf' = bytes_at (content v) loc (Z.to_nat count) ++ drop (Z.to_nat count) buf) /\
    (healthy v.(drive) -> (forall i, loc <= i < loc + count -> block_in_range v (i / block_bytes v)) -> ok = true).
Proof.
  induction fuel as [|fuel IH]; intros v buf loc count p Hv Hloc Hp Hw Hlen Hcov Hfuel;
    pose proof (vo_geometry v Hv) as [[Hs Hr] [Hx Hb] _ _];
    assert (0 < block_bytes v) as Hbs by (unfold block_bytes; nia);
    pose proof (Z.mod_pos_bound (loc + p) (block_bytes v) Hbs);
    cbn [read_loop]; split_ltb p count; try lia.
  1,3: assert (p = count) as -> by lia; eexists true, _, v; split_and!; [done|apply same_volume_refl|done| |done|done];
       rewrite length_app, length_bytes_at, length_drop; lia.
  rewrite (u64_small (loc + p)) by lia.
  destruct (cache_block_correct v ((loc + p) / block_bytes v) Hv) as (ok & v1 & -> & Hsame & Hv1 & Hready & Hhealthy).
  { apply Z.div_pos; lia. }
  cbn [mbind outcome_bind].
  destruct ok; cbn [negb].
  2:{ eexists false, _, v1. split_and!; [done..| |done|].
      - rewrite length_app, length_bytes_at, length_drop. lia.
      - intros Hh Hin. apply Hhealthy; [done|]. apply Hin. lia. }
  destruct (Hready eq_refl) as [Hst Hcb]. destruct Hsame as (s & c & b & ->).
  set (v1 := set_cache v s c b) in *. change (block_bytes v) with (block_bytes v1) in *.
  change (content v) with (content v1) in *. change (covered v) with (covered v1) in *.
  set (chunk := if _ <? count - p then _ else _).
  destruct (chunk_step (block_bytes v1) (loc + p) (count - p) chunk fuel) as (Hc1 & Hc2 & Hc3); [lia..|done|lia|].
  destruct (ready_slice v1 (loc + p) (Z.to_nat chunk)) as (d & Hd & Hdl & Hslice); [done..|lia|done|lia| |].
  { intros i Hi. apply Hcov. lia. }
  rewrite Hd. cbn [mbind outcome_bind]. split_ltb (Z.of_nat (length d)) ((loc + p) `mod` block_bytes v1 + chunk); [lia|].
  rewrite Hslice. replace (loc + p) with (loc + Z.of_nat (Z.to_nat p)) by lia.
  rewrite blit_progress by lia. cbn [mbind outcome_bind].
  replace (Z.to_nat p + Z.to_nat chunk)%nat with (Z.to_nat (p + chunk)) by lia.
  destruct (IH v1 buf loc count (p + chunk)) as (ok & buf' & v' & -> & Hsm & Hv' & Hl & Hok & Hh); [done|lia..|done| |].
  { replace (loc + (p + chunk)) with (loc + p + chunk) by lia. lia. }
  exists ok, buf', v'. split_and!; auto.
Qed.

(** The bounds check of [volume_read] passed. *)
Definition in_bounds (v : volume) (loc count : Z) : Prop :=
  v.(sect_count) = W64 - 1 \/ loc < v.(sect_count) * 512 < W64 /\ loc + count <= v.(sect_count) * 512.

Lemma in_bounds_covered v loc count i : geometry_ok v ->
  (v.(sect_count) = W64 - 1 \/ v.(sect_count) `mod` ratio v = 0) ->
  in_bounds v loc count -> i < loc + count -> covered v i.
Proof.
  intros [[Hs Hr] _ _ _] [?|Hm] [?|[? ?]] Hi; [by left..|]. right.
  pose proof (Z.div_mod (sect_count v) (ratio v) ltac:(lia)). nia.
Qed.

Lemma in_bounds_range v loc count i : volume_ok v -> v.(first_sect) `mod` ratio v = 0 ->
  (v.(sect_count) = W64 - 1 \/ v.(sect_count) `mod` ratio v = 0) ->
  in_bounds v loc count -> loc + count <= W64 - v.(first_sect) * 512 -> 0 <= loc <= i -> i < loc + count ->
  block_in_range v (i / block_bytes v).
Proof.
  intros Hv Ha Hm Hin Hw Hl Hi. pose proof (vo_geometry v Hv) as Hg.
  pose proof (in_bounds_covered v loc count i Hg Hm Hin Hi) as Hcov.
  destruct Hg as [[Hs Hr] [Hx Hb] Hf _].
  pose proof (Z.mul_div_le i (block_bytes v) ltac:(unfold block_bytes; nia)) as Hle.
  pose proof (Z.div_mod (first_sect v) (ratio v) ltac:(lia)).
  split_and!; [done| |]; unfold block_bytes in *.
  - assert (first_sect v * 512 = first_sect v / ratio v * sector_size v) by nia.
    assert ((first_sect v / ratio v + i / (fastest_xfer_size v * sector_size v) * fastest_xfer_size v)
            * sector_size v < W64) by lia.
    nia.
  - intros Hne. destruct Hcov as [?|Hcov]; [done|]. nia.
Qed.

(** [volume_read] returns whatever the state of the cache, keeps the volume
    well formed, and on success has copied the bytes of the volume.  On a healthy
    drive it succeeds exactly when the read lies within the volume. *)
Lemma volume_read_spec v buf loc count :
  volume_ok v -> v.(pxe) = false -> 0 <= loc -> 0 <= count -> loc + count <= W64 ->
  count <= Z.of_nat (length buf) ->
  (v.(sect_count) = W64 - 1 \/ v.(sect_count) `mod` ratio v = 0) ->
  exists ok buf' v', volume_read v buf loc count = Ret (ok, buf', v') /\
    same_volume v v' /\ volume_ok v' /\ length buf' = length buf /\
    (ok = true -> in_bounds v loc count /\
       buf' = bytes_at (content v) loc (Z.to_nat count) ++ drop (Z.to_nat count) buf) /\
    (healthy v.(drive) -> v.(first_sect) `mod` ratio v = 0 ->
       loc + count <= W64 - v.(first_sect) * 512 -> in_bounds v loc count -> ok = true).
Proof.
  intros Hv Hpxe Hloc Hcount Hw Hlen Hmult.
  pose proof (vo_geometry v Hv) as [[Hs Hr] [Hx Hb] Hf Hc].
  assert (0 < block_bytes v) as Hbs by (unfold block_bytes; nia).
  unfold volume_read. rewrite Hpxe.
  set (refused := negb _ && _).
  assert (refused = false <-> in_bounds v loc count) as Hbounds.
  { unfold refused, in_bounds, mul_overflow. split_eqb (sect_count v) (W64 - 1); cbn [negb andb]; [naive_solver|].
    split_ltb (sect_count v * 512) (W64%Z); [|split; [done|lia]].
    split_leb (sect_count v * 512) loc; cbn [orb]; [split; [done|lia]|].
    split_ltb (sect_count v * 512 - loc) count; split; try done; lia. }
  clearbody refused. destruct refused.
  { exists false, buf, v. split_and!; auto using same_volume_refl; [done|]. intros _ _ _ ?%Hbounds. done. }
  pose proof (proj1 Hbounds eq_refl) as Hin.
  fold (block_bytes v). rewrite (u64_small (block_bytes v)) by lia.
  split_eqb (block_bytes v) 0; [lia|]. rewrite andb_false_r.
  destruct (read_loop_correct (Z.to_nat (count / block_bytes v + 3)) v buf loc count 0)
    as (ok & buf' & v' & Hrd & Hsame & Hv' & Hl & Hok & Hh); [done|lia..| | |].
  - intros i Hi. eapply in_bounds_covered; eauto using vo_geometry. lia.
  - right. pose proof (Z.mod_pos_bound (loc + 0) (block_bytes v) Hbs).
    pose proof (Z.div_mod count (block_bytes v) ltac:(lia)).
    pose proof (Z.mod_pos_bound count (block_bytes v) Hbs).
    pose proof (Z.div_pos count (block_bytes v) ltac:(lia) ltac:(lia)). nia.
  - exists ok, buf', v'. split_and!; auto. intros Hhealthy Ha Hw2 _. apply Hh; [done|].
    intros i Hi. eapply in_bounds_range; eauto; lia.
Qed.

(** A sequence of reads through one volume, each into a fresh buffer. *)
Fixpoint reads (v : volume) (reqs : list (Z * Z)) : outcome (list (bool * list Z) * volume) :=
  match reqs with
  | [] => Ret ([], v)
  | (loc, count) :: reqs =>
      r ← volume_read v (replicate (Z.to_nat count) 0) loc count;
      let '(ok, buf, v) := (r : bool * list Z * volume) in
      rs ← reads v reqs;
      let '(results, v) := (rs : list (bool * list Z) * volume) in
      Ret ((ok, buf) :: results, v)
  end.

Definition request_ok (v : volume) (r : Z * Z) : Prop :=
  0 <= r.1 /\ 0 <= r.2 /\ r.1 + r.2 <= W64 - v.(first_sect) * 512.

(** What a result says about its request. *)
Definition answered (v : volume) (r : Z * Z) (res : bool * list Z) : Prop :=
  (res.1 = true -> in_bounds v r.1 r.2 /\ res.2 = bytes_at (content v) r.1 (Z.to_nat r.2)) /\
  (healthy v.(drive) -> v.(first_sect) `mod` ratio v = 0 -> in_bounds v r.1 r.2 -> res.1 = true).

Lemma reads_spec v reqs : v.(pxe) = false ->
  (v.(sect_count) = W64 - 1 \/ v.(sect_count) `mod` ratio v = 0) ->
  Forall (request_ok v) reqs -> forall w, volume_ok w -> same_volume v w ->
  exists results w', reads w reqs = Ret (results, w') /\ Forall2 (answered v) reqs results.
Proof.
  intros Hpxe Hm. induction 1 as [|[loc count] reqs (Hl & Hn & Hb) _ IH]; intros w Hv Hvw.
  { exists [], w. split; [done|constructor]. }
  cbn [reads]. simpl in *. pose proof Hvw as (s & c & b & ->).
  pose proof (vo_geometry _ Hv) as [_ _ Hf _]. cbn in Hf.
  destruct (volume_read_spec _ (replicate (Z.to_nat count) 0) loc count Hv Hpxe)
    as (ok & buf & w' & -> & Hs' & Hv' & _ & Hok & Hh); [lia..|rewrite length_replicate; lia|done|].
  destruct (IH w' Hv') as (results & w2 & Hr & Hall); [exact (same_volume_trans _ _ _ Hvw Hs')|].
  cbn [mbind outcome_bind]. rewrite Hr. cbn [mbind outcome_bind]. eexists _, _. split; [done|].
  constructor; [|done]. split; simpl.
  - intros Ht. destruct (Hok Ht) as [Hin ->]. split; [done|].
    rewrite drop_ge by (rewrite length_replicate; lia). by rewrite app_nil_r.
  - intros ? ? ?. apply Hh; [done|done|cbn; lia|done].
Qed.

End spec.

(** ** A concrete drive *)

(** A drive that serves its medium and never fails. *)
Definition ram_disk (media : Z -> Z -> Z) : Disk := fun drive ss buf sector n =>
  (true, take (length buf)
    (bytes_at (media drive) (sector * ss) (Z.to_nat (n * ss)) ++ drop (Z.to_nat (n * ss)) buf)).

Lemma ram_disk_spec media : (forall drive i, is_byte (media drive i)) -> DiskSpec (ram_disk media) media.
Proof.
  intros Hb. split; [done| | |].
  - intros drive ss buf sector n buf' Hss Hs Hn Hl [= <-].
    rewrite take_ge; [done|]. rewrite length_app, length_bytes_at, length_drop. lia.
  - intros drive ss buf sector n ok buf' [= <- <-].
    rewrite length_take, length_app, length_bytes_at, length_drop. lia.
  - intros drive ss buf sector n ok buf' Hbuf [= <- <-]. apply Forall_take, Forall_app. split.
    + apply Forall_fmap, Forall_true. intros i. apply Hb.
    + by apply Forall_drop.
Qed.

Lemma ram_disk_healthy media d : healthy (D := ram_disk media) d.
Proof. done. Qed.

Definition demo_media (drive off : Z) : Z := (off * 7 + drive) `mod` 251 + 1.

#[export] Instance demo_disk_spec : DiskSpec (ram_disk demo_media) demo_media.
Proof.
  apply ram_disk_spec. intros d i. unfold is_byte, demo_media.
  pose proof (Z.mod_pos_bound (i * 7 + d) 251). lia.
Qed.

Definition demo_volume (ss fxs first count : Z) : volume :=
  {| drive := 128; fastest_xfer_size := fxs; index := 1; is_optical := false; pxe := false;
     partition := 1; sector_size := ss; backing_dev := 0; max_partition := 0;
     cache_status := CACHE_NOT_READY; cache := None; cached_block := 0;
     first_sect := first; sect_count := count;
     guid_valid := false; guid := []; part_guid_valid := false; part_guid := [];
     fslabel_valid := false; fslabel := [] |}.


(** A partition whose length is not a whole number of device sectors is
    read wrongly.  The transfer is clamped to the whole device sectors, the
    bounds check is not: on a drive with 1024-byte sectors, the last 512 bytes of
    a partition of three 512-byte sectors are reported as read, with bytes the
    drive never delivered. *)
Theorem volume_read_stale_tail :
  exists v', volume_read (H := ram_disk demo_media) (demo_volume 1024 2 4 3) [0; 0] 1024 2 =
    Ret (true, [0; 0], v') /\
  bytes_at (content (media := demo_media) (demo_volume 1024 2 4 3)) 1024 2 <> [0; 0].
Proof.
  eexists. split; [vm_compute; reflexivity|]. by vm_compute.
Qed.
