(* ===== verification/VolumeLogic.v ===== *)
(** * Reasoning about computations that read a volume

    Two program logics for the monad [VM]: on volumes that can be read, and on volumes
    of arbitrary geometry. *)

From S2P Require Import Prelude Bytes Volume VolumeSpec.

(** * Reasoning about computations that read a volume

    A small program logic for the monad [VM]: what a client of [volume_read] may
    rely on, as rules for [vread], sequencing and results.  The block cache does
    not appear in the rules. *)

(** [runs_in I E v m Q]: in every state of volume [v] that satisfies [I], [m]
    returns a result that satisfies [Q], or panics with a message in [E]; it stays
    within its objects and within its step budget, and keeps [I]. *)
Definition runs_in {A} (I : volume -> Prop) (E : string -> Prop) (v : volume) (m : VM A) (Q : A -> Prop) : Prop :=
  forall w, same_volume v w -> I w ->
  match m w with
  | Ret (a, w') => same_volume v w' /\ I w' /\ Q a
  | Panic msg => E msg
  | Undef | Diverge => False
  end.

Section rules.
Context {I : volume -> Prop}.
#[local] Abbreviation runs := (runs_in I).

Lemma runs_ret {A} E v (a : A) (Q : A -> Prop) : Q a -> runs E v (mret a) Q.
Proof. intros HQ w Hw Hr. cbn. auto. Qed.

Lemma runs_bind {A B} E v (m : VM A) (f : A -> VM B) Q R :
  runs E v m Q -> (forall a, Q a -> runs E v (f a) R) -> runs E v (m ≫= f) R.
Proof.
  intros Hm Hf w Hw Hr. unfold mbind, VM_bind. specialize (Hm w Hw Hr).
  destruct (m w) as [[a w']|?| |]; auto. destruct Hm as (Hw' & Hr' & HQ). by apply Hf.
Qed.

Lemma runs_weaken {A} E v (m : VM A) (Q R : A -> Prop) :
  runs E v m Q -> (forall a, Q a -> R a) -> runs E v m R.
Proof.
  intros Hm HQR w Hw Hr. specialize (Hm w Hw Hr). destruct (m w) as [[a w']|?| |]; naive_solver.
Qed.

Lemma runs_panic {A} (E : string -> Prop) v msg (Q : A -> Prop) : E msg -> runs E v (vpanic msg) Q.
Proof. by intros HE w _ _. Qed.

Lemma runs_lift {A} E v (a : A) (Q : A -> Prop) : Q a -> runs E v (lift (Ret a)) Q.
Proof. intros HQ w Hw Hr. cbn. auto. Qed.

Lemma runs_lift_bind {A B} E v (a : A) (f : A -> VM B) (Q : B -> Prop) :
  runs E v (f a) Q -> runs E v (lift (Ret a) ≫= f) Q.
Proof. intros Hf w Hw Hr. by apply Hf. Qed.

Lemma runs_ret_bind {A B} E v (a : A) (f : A -> VM B) (Q : B -> Prop) :
  runs E v (f a) Q -> runs E v (mret a ≫= f) Q.
Proof. intros Hf w Hw Hr. by apply Hf. Qed.

Lemma same_volume_sym v w : same_volume v w -> same_volume w v.
Proof.
  intros (s & c & b & ->). exists v.(cache_status), v.(cache), v.(cached_block). by destruct v.
Qed.

(** [runs_in] gives a result from the volume itself. *)
Lemma runs_elim {A} E v (m : VM A) Q : I v -> runs E v m Q ->
  (exists a w, m v = Ret (a, w) /\ same_volume v w /\ I w /\ Q a) \/ exists msg, m v = Panic msg /\ E msg.
Proof.
  intros Hv H. specialize (H v (same_volume_refl v) Hv).
  destruct (m v) as [[a w]|msg| |]; [left|right|done..]; naive_solver.
Qed.

Lemma runs_Ret {A} v (m : VM A) Q : I v -> runs (fun _ => False) v m Q ->
  exists a w, m v = Ret (a, w) /\ same_volume v w /\ I w /\ Q a.
Proof. intros Hv H. destruct (runs_elim _ _ _ _ Hv H) as [?|(? & _ & [])]; done. Qed.
End rules.

Section logic.
Context `{D : Disk} {media : Z -> Z -> Z} `{!DiskSpec D media}.

(** A volume the clients may read: a cache that agrees with the medium, made of
    whole device sectors, not a network volume. *)
Record vol_ready (v : volume) : Prop := {
  vr_ok : volume_ok (media := media) v;
  vr_pxe : v.(pxe) = false;
  vr_whole : v.(sect_count) = W64 - 1 \/ v.(sect_count) `mod` ratio v = 0
}.

(** Reads that cannot fail. *)
Definition readable (v : volume) (loc count : Z) : Prop :=
  healthy v.(drive) /\ v.(first_sect) `mod` ratio v = 0 /\
  loc + count <= W64 - v.(first_sect) * 512 /\ in_bounds v loc count.

(** Computations on a readable volume. *)
Definition runs {A} := runs_in (A := A) vol_ready.

(** What a read of [count] bytes at [loc] gives. *)
Definition read_result (v : volume) (loc count : Z) (r : option (list Z)) : Prop :=
  match r with
  | Some bs => in_bounds v loc count /\ bs = bytes_at (content (media := media) v) loc (Z.to_nat count)
  | None => ~ readable v loc count
  end.

Lemma runs_vread E v loc count : 0 <= loc -> 0 <= count -> loc + count <= W64 ->
  runs E v (vread loc count) (read_result v loc count).
Proof.
  intros Hl Hc Hw w Hvw [Hok Hpxe Hwhole]. unfold vread. pose proof Hvw as (s & c & b & ->).
  destruct (volume_read_spec _ (replicate (Z.to_nat count) 0) loc count Hok Hpxe Hl Hc Hw)
    as (ok & buf & w' & -> & Hs & Hv' & _ & Hsome & Hnone); [rewrite length_replicate; lia|done|].
  cbn [mbind outcome_bind]. split; [exact (same_volume_trans _ _ _ Hvw Hs)|]. split.
  { pose proof Hs as (s' & c' & b' & ->). by split. }
  destruct ok.
  - destruct (Hsome eq_refl) as [Hin ->]. split; [done|].
    rewrite drop_ge by (rewrite length_replicate; lia). by rewrite app_nil_r.
  - intros (Hh & Ha & Hlc & Hin). by specialize (Hnone Hh Ha Hlc Hin).
Qed.

End logic.

Arguments runs {media A} E v m Q.
Arguments read_result {D media} v loc count r.

(** * Reading volumes of arbitrary geometry

    A partition table may describe any first sector and any length.  Whatever
    they are, reading returns, stays within the cache, and gives some bytes. *)

(** The sector and cache sizes come from the driver; the position and the length
    of the volume are arbitrary, and so are the bytes in the cache. *)
Record vol_safe (v : volume) : Prop := {
  vs_sector : 0 < v.(sector_size) /\ v.(sector_size) = ratio v * 512;
  vs_xfer : 0 < v.(fastest_xfer_size) /\ block_bytes v < W64;
  vs_first : 0 <= v.(first_sect) < W64;
  vs_count : 0 <= v.(sect_count) < W64;
  vs_pxe : v.(pxe) = false;
  vs_cache c : v.(cache) = Some c -> Z.of_nat (length c) = block_bytes v /\ Forall is_byte c;
  vs_ready : v.(cache_status) = CACHE_READY -> is_Some v.(cache)
}.

Lemma vol_safe_set v s c b : vol_safe v -> Z.of_nat (length c) = block_bytes v -> Forall is_byte c ->
  vol_safe (set_cache v s (Some c) b).
Proof. intros [] Hl Hc. split; try done. by intros ? [= <-]. Qed.

Section safe.
Context `{D : Disk} {media : Z -> Z -> Z} `{!DiskSpec D media}.

Lemma cache_block_safe v block : vol_safe v ->
  exists ok v', cache_block v block = Ret (ok, v') /\ same_volume v v' /\ vol_safe v' /\
    (ok = true -> is_Some v'.(cache)).
Proof.
  intros Hv. pose proof Hv as [[Hs Hr] [Hx Hb] Hf Hc Hp Hcache Hready]. unfold cache_block. fold (ratio v).
  destruct ((cache_status v =? CACHE_READY) && (block =? cached_block v)) eqn:Ehit.
  { apply andb_true_iff in Ehit as [?%Z.eqb_eq _]. exists true, v. split_and!; auto using same_volume_refl. }
  set (buf := match v.(cache) with Some c => c | None => _ end).
  assert (Z.of_nat (length buf) = block_bytes v /\ Forall is_byte buf) as [Hbuf Hbytes].
  { unfold buf. destruct (cache v) as [c|] eqn:Ec; [by apply Hcache|].
    split; [unfold block_bytes in *; rewrite length_replicate, u64_small; nia|by apply Forall_replicate]. }
  set (s := set_cache v CACHE_NOT_READY (Some buf) (cached_block v)).
  assert (same_volume v s) as Hss by apply same_volume_set.
  assert (vol_safe s) as Hso by (by apply vol_safe_set).
  change (sector_size s / 512) with (ratio v). split_eqb (ratio v) 0; [lia|].
  assert (exists ok v', Ret (false, s) = Ret (ok, v') /\ same_volume v v' /\ vol_safe v' /\ (ok = true -> is_Some v'.(cache)))
    as Hrefused by (by exists false, s).
  destruct (negb _); [done|]. destruct (mul_overflow _ _) as [bo|]; [|done].
  destruct (add_overflow _ _) as [rs|]; [|done]. destruct (clamp_xfer _ _ _) as [n|]; [|done].
  destruct (disk_read_sectors _ _ _ _ _) as [ok c'] eqn:Ed.
  assert (Z.of_nat (length c') = block_bytes v) by (by rewrite (disk_read_length _ _ _ _ _ _ _ Ed)).
  assert (Forall is_byte c') by (by eapply disk_read_bytes).
  destruct ok; (eexists _, _; split_and!; [done|by eapply same_volume_trans; [|apply same_volume_set]|by apply vol_safe_set|by intros]).
Qed.

(** There is fuel for the rest of a read: a position that wraps around takes one more
    block. *)
Definition enough (loc count bs fuel p : Z) : Prop :=
  p = count \/ ((loc + count <= W64 \/ W64 <= loc + p) /\ u64 (loc + p) `mod` bs + (count - p) <= fuel * bs)
  \/ u64 (loc + p) `mod` bs + (count - p) + bs <= fuel * bs.

Lemma wrap_once x : W64 <= x < 2 * W64 -> u64 x = x - W64.
Proof. intros Hx. unfold u64. symmetry. apply (Z.mod_unique_pos _ _ 1); lia. Qed.

Lemma enough_step loc count bs fuel p chunk : 0 < bs -> 0 <= loc < W64 -> 0 <= count < W64 -> 0 <= p < count ->
  chunk = (if bs - u64 (loc + p) `mod` bs <? count - p then bs - u64 (loc + p) `mod` bs else count - p) ->
  enough loc count bs (Z.of_nat (S fuel)) p ->
  0 < chunk <= count - p /\ u64 (loc + p) `mod` bs + chunk <= bs /\ enough loc count bs (Z.of_nat fuel) (p + chunk).
Proof.
  intros Hbs Hloc Hcount Hp Hch Hen. assert (Hfuel : u64 (loc + p) `mod` bs + (count - p) <= Z.of_nat (S fuel) * bs).
  { destruct Hen as [|[[_ ?]|?]]; lia. }
  destruct (chunk_step bs (u64 (loc + p)) (count - p) chunk fuel Hbs ltac:(lia) Hch Hfuel) as (H1 & H2 & H3).
  split; [done|]. split; [done|]. destruct H3 as [->|H3]; [left; lia|].
  destruct (decide (p + chunk = count)) as [|Hne]; [by left|]. right.
  assert (Hsame : loc + p + chunk < W64 \/ W64 <= loc + p -> u64 (loc + (p + chunk)) = u64 (loc + p) + chunk).
  { intros [?|?]; [rewrite !u64_small by lia; lia|rewrite !wrap_once by lia; lia]. }
  destruct Hen as [|[[Hw _]|Hen]]; [lia|left; split; [lia|]; rewrite Hsame by lia; lia|].
  destruct (decide (loc + p + chunk < W64 \/ W64 <= loc + p)) as [Hd|Hd].
  - right. rewrite (Hsame Hd). revert Hch. split_ltb (bs - u64 (loc + p) `mod` bs) (count - p); intros ->; [|lia].
    pose proof (Z.div_mod (u64 (loc + p)) bs ltac:(lia)).
    replace (u64 (loc + p) + (bs - u64 (loc + p) `mod` bs)) with ((u64 (loc + p) / bs + 1) * bs) by lia. rewrite Z_mod_mult. lia.
  - left. split; [lia|]. revert Hch. split_ltb (bs - u64 (loc + p) `mod` bs) (count - p); intros Hch; [|lia].
    pose proof (Z.mod_pos_bound (u64 (loc + (p + chunk))) bs Hbs). lia.
Qed.

Lemma read_loop_safe fuel : forall v buf loc count p, vol_safe v -> 0 <= loc < W64 -> 0 <= p <= count -> count < W64 ->
  count <= Z.of_nat (length buf) -> Forall is_byte buf -> enough loc count (block_bytes v) (Z.of_nat fuel) p ->
  exists ok buf' v', read_loop fuel v buf loc count (block_bytes v) p = Ret (ok, buf', v') /\
    same_volume v v' /\ vol_safe v' /\ length buf' = length buf /\ Forall is_byte buf'.
Proof.
  induction fuel as [|fuel IH]; intros v buf loc count p Hv Hloc Hp Hw Hlen Hbuf Hfuel;
    pose proof Hv as [[Hs Hr] [Hx Hb] _ _ _ _ _];
    assert (0 < block_bytes v) as Hbs by (unfold block_bytes; nia);
    pose proof (Z.mod_pos_bound (u64 (loc + p)) (block_bytes v) Hbs);
    cbn [read_loop]; split_ltb p count; try (unfold enough in Hfuel; lia).
  1,3: eexists _, _, v; split_and!; auto using same_volume_refl.
  destruct (cache_block_safe v (u64 (loc + p) / block_bytes v) Hv) as (ok & v1 & -> & Hsame & Hv1 & Hsome).
  cbn [mbind outcome_bind]. destruct ok; cbn [negb]; [|by eexists _, _, v1].
  destruct (Hsome eq_refl) as [c Hc]. rewrite Hc. cbn [mbind outcome_bind].
  destruct (vs_cache v1 Hv1 c Hc) as [Hcl Hcb]. pose proof Hsame as (s1 & c1 & b1 & ->).
  set (v1 := set_cache v s1 c1 b1) in *. change (block_bytes v) with (block_bytes v1) in *.
  set (chunk := if _ <? count - p then _ else _).
  destruct (enough_step loc count (block_bytes v1) fuel p chunk) as (Hc1 & Hc2 & Hc3); [lia..|done|done|].
  split_ltb (Z.of_nat (length c)) (u64 (loc + p) `mod` block_bytes v1 + chunk); [lia|].
  assert (length (slice (Z.to_nat (u64 (loc + p) `mod` block_bytes v1)) (Z.to_nat chunk) c) = Z.to_nat chunk) as Hsl
    by (apply length_slice; lia).
  rewrite blit_fit by lia. cbn [mbind outcome_bind].
  edestruct (IH v1) as (ok & buf' & v' & -> & Hsm & Hv' & Hl & Hb'); [done|exact Hloc|..].
  6:{ exists ok, buf', v'. split_and!; [done|exact (same_volume_trans _ _ _ Hsame Hsm)|done| |done].
      rewrite Hl, !length_app, length_take, length_drop. lia. }
  - lia.
  - done.
  - rewrite !length_app, length_take, length_drop. lia.
  - rewrite !Forall_app. split_and!; auto using Forall_take, Forall_drop, slice_bytes.
  - done.
Qed.

Lemma volume_read_safe v buf loc count : vol_safe v -> 0 <= loc < W64 -> 0 <= count < W64 ->
  count <= Z.of_nat (length buf) -> Forall is_byte buf ->
  exists ok buf' v', volume_read v buf loc count = Ret (ok, buf', v') /\
    same_volume v v' /\ vol_safe v' /\ length buf' = length buf /\ Forall is_byte buf'.
Proof.
  intros Hv Hloc Hc Hlen Hbuf. pose proof Hv as [[Hs Hr] [Hx Hb] _ _ Hpxe _ _].
  assert (0 < block_bytes v) as Hbs by (unfold block_bytes; nia).
  unfold volume_read. rewrite Hpxe. case_match; [eexists _, _, v; split_and!; auto using same_volume_refl|].
  fold (block_bytes v). rewrite (u64_small (block_bytes v)) by lia.
  split_eqb (block_bytes v) 0; [lia|]. rewrite andb_false_r.
  apply read_loop_safe; (done || lia || idtac). right. right.
  pose proof (Z.mod_pos_bound (u64 (loc + 0)) (block_bytes v) Hbs).
  pose proof (Z.div_mod count (block_bytes v) ltac:(lia)).
  pose proof (Z.mod_pos_bound count (block_bytes v) Hbs).
  pose proof (Z.div_pos count (block_bytes v) ltac:(lia) ltac:(lia)). nia.
Qed.

(** The rule for reads: some bytes, or a failure. *)
Lemma safe_vread E v loc count : 0 <= loc < W64 -> 0 <= count < W64 ->
  runs_in vol_safe E v (vread loc count) (fun r => forall bs, r = Some bs -> length bs = Z.to_nat count /\ Forall is_byte bs).
Proof.
  intros Hl Hc w Hvw Hsafe. unfold vread.
  destruct (volume_read_safe w (replicate (Z.to_nat count) 0) loc count Hsafe Hl Hc)
    as (ok & buf & w' & -> & Hs & Hv' & Hlen & Hb); [rewrite length_replicate; lia|by apply Forall_replicate|].
  cbn [mbind outcome_bind]. split_and!; [exact (same_volume_trans _ _ _ Hvw Hs)|done|].
  intros bs Hbs. destruct ok; simplify_eq. by rewrite Hlen, length_replicate.
Qed.
End safe.
