(* ===== verification/Libc.v ===== *)
(** * C strings and small numeric routines

    Models lib/libc.s2.c (character classes, comparisons, [inet_pton]),
    lib/misc.s2.c (digits, BCD, [strtoui]) and the pure routines of lib/misc.c
    ([parse_resolution], [sqrt], [get_trailing_zeros]).

    A C string is the list of its bytes up to the terminating NUL; reading one
    past the end of the list reads that NUL.  The same functions apply to byte
    arrays that hold NULs. *)

From S2P Require Import Prelude Bytes.

(** [*s] and [s + 1] *)
Definition hd0 (s : list Z) : Z := match s with [] => 0 | c :: _ => c end.
Definition tl0 (s : list Z) : list Z := match s with [] => [] | _ :: s => s end.

(** The bytes of an ASCII literal. *)
Definition str (s : string) : list Z := (fun a => Z.of_nat (Ascii.nat_of_ascii a)) <$> String.list_ascii_of_string s.

(** The C string that starts a byte array. *)
Fixpoint cstring (s : list Z) : list Z :=
  match s with
  | [] => []
  | c :: s => if c =? 0 then [] else c :: cstring s
  end.

(** ** lib/libc.s2.c *)

Definition isspace (c : Z) : bool := ((9 <=? c) && (c <=? 13)) || (c =? 32).
Definition isalpha (c : Z) : bool := ((97 <=? c) && (c <=? 122)) || ((65 <=? c) && (c <=? 90)).
Definition isdigit (c : Z) : bool := (48 <=? c) && (c <=? 57).
Definition isprint (c : Z) : bool := (32 <=? c) && (c <=? 126).
Definition toupper (c : Z) : Z := if (97 <=? c) && (c <=? 122) then c - 32 else c.
Definition tolower (c : Z) : Z := if (65 <=? c) && (c <=? 90) then c + 32 else c.

Definition strlen (s : list Z) : Z := Z.of_nat (length (cstring s)).

Fixpoint strcmp (s1 s2 : list Z) : Z :=
  let c1 := hd0 s1 in let c2 := hd0 s2 in
  if negb (c1 =? c2) then (if c1 <? c2 then -1 else 1)
  else if c1 =? 0 then 0
  else match s1 with [] => 0 | _ :: s1 => strcmp s1 (tl0 s2) end.

Fixpoint strcasecmp (s1 s2 : list Z) : Z :=
  let c1 := hd0 s1 in let c2 := hd0 s2 in
  if negb (tolower c1 =? tolower c2) then (if c1 <? c2 then -1 else 1)
  else if c1 =? 0 then 0
  else match s1 with [] => 0 | _ :: s1 => strcasecmp s1 (tl0 s2) end.

Fixpoint strncmp (s1 s2 : list Z) (n : nat) : Z :=
  match n with
  | O => 0
  | S n =>
      let c1 := hd0 s1 in let c2 := hd0 s2 in
      if negb (c1 =? c2) then (if c1 <? c2 then -1 else 1)
      else if c1 =? 0 then 0 else strncmp (tl0 s1) (tl0 s2) n
  end.

Fixpoint strncasecmp (s1 s2 : list Z) (n : nat) : Z :=
  match n with
  | O => 0
  | S n =>
      let c1 := hd0 s1 in let c2 := hd0 s2 in
      if negb (tolower c1 =? tolower c2) then (if c1 <? c2 then -1 else 1)
      else if c1 =? 0 then 0 else strncasecmp (tl0 s1) (tl0 s2) n
  end.

(** ** lib/misc.s2.c *)

Definition bcd_to_int (val : Z) : Z := u8 (Z.land val 15 + Z.shiftr (Z.land val 240) 4 * 10).
Definition int_to_bcd (val : Z) : Z := u8 (Z.lor (val `mod` 10) (Z.shiftl (val / 10) 4)).

Definition digit_to_int (c : Z) : Z :=
  if (97 <=? c) && (c <=? 102) then c - 97 + 10
  else if (65 <=? c) && (c <=? 70) then c - 65 + 10
  else if (48 <=? c) && (c <=? 57) then c - 48
  else -1.

(** [strtoui(s, &end, base)]: the number and [end]. *)
Fixpoint strtoui_loop (s : list Z) (base n : Z) : Z * list Z :=
  match s with
  | [] => (n, [])
  | c :: s' =>
      let d := digit_to_int c in
      if (d =? -1) || (base <=? d) then (n, s)
      else match mul_overflow n base with
           | None => (W64 - 1, s)
           | Some mul_result =>
               match add_overflow mul_result d with
               | None => (W64 - 1, s)
               | Some n => strtoui_loop s' base n
               end
           end
  end.
Definition strtoui (s : list Z) (base : Z) : Z * list Z := strtoui_loop s base 0.

(** [inet_pton]: the octets, [None] for -1. *)
Fixpoint inet_loop (k : nat) (current : list Z) (array : list Z) : option (list Z) :=
  match k with
  | O => Some array
  | S k =>
      let '(value, newcur) := strtoui current 10 in
      if decide (length current = length newcur) then None
      else if negb (hd0 newcur =? (match k with O => 0 | _ => 46 end)) then None
      else if 255 <? value then None
      else inet_loop k (match k with O => newcur | _ => tl0 newcur end) (array ++ [value])
  end.
Definition inet_pton (src : list Z) : option (list Z) := inet_loop 4 src [].

(** ** lib/misc.c *)

(** The loop of [parse_resolution]: the numbers read, in order. *)
Fixpoint resolution_loop (k : nat) (first : list Z) : list Z :=
  match k with
  | O => []
  | S k =>
      let '(x, last) := strtoui first 10 in
      if decide (length first = length last) then []
      else x :: (if hd0 last =? 0 then [] else resolution_loop k (tl0 last))
  end.
Definition parse_resolution (buf : list Z) : option (Z * Z * Z) :=
  let res := resolution_loop 3 buf in
  let width := nth 0 res 0 in
  let height := nth 1 res 0 in
  let bpp := nth 2 res 0 in
  if (width =? 0) || (height =? 0) then None
  else Some (width, height, if bpp =? 0 then 32 else bpp).

(** [sqrt]: "one" is brought down to the highest power of four that is at most
    the argument, then one bit of the root is decided per iteration. *)
Fixpoint sqrt_start (fuel : nat) (one op : Z) : outcome Z :=
  if op <? one then
    match fuel with
    | O => Diverge
    | S fuel => sqrt_start fuel (Z.shiftr one 2) op
    end
  else Ret one.
Fixpoint sqrt_loop (fuel : nat) (one op res : Z) : outcome Z :=
  if one =? 0 then Ret res
  else
    match fuel with
    | O => Diverge
    | S fuel =>
        let '(op, res) :=
          if u64 (res + one) <=? op then (u64 (op - u64 (res + one)), u64 (res + u64 (2 * one)))
          else (op, res) in
        sqrt_loop fuel (Z.shiftr one 2) op (Z.shiftr res 1)
    end.
Definition sqrt (a_nInput : Z) : outcome Z :=
  one ← sqrt_start 32 (2 ^ 62) a_nInput;
  sqrt_loop 32 one a_nInput 0.

Fixpoint tz_loop (k : nat) (i val : Z) : Z :=
  match k with
  | O => 64
  | S k => if negb (Z.land val 1 =? 0) then i else tz_loop k (i + 1) (Z.shiftr val 1)
  end.
Definition get_trailing_zeros (val : Z) : Z := tz_loop 64 0 val.
