(* ===== verification/LibcSpec.v ===== *)
(** * Properties of the C library routines

    The integer square root is the mathematical one, [strtoui] saturates, and
    the dotted-quad and resolution parsers invert printing. *)

From S2P Require Import Prelude Bytes Libc.

(** ** Comparisons *)

Lemma strcmp_eq s1 s2 : Forall (fun c => c <> 0) s1 -> Forall (fun c => c <> 0) s2 ->
  strcmp s1 s2 = 0 <-> s1 = s2.
Proof.
  intros H1. revert s2. induction H1 as [|c1 s1 Hc1 _ IH]; intros s2 H2.
  - destruct H2 as [|c2 s2 Hc2 _]; cbn [strcmp hd0]; [done|].
    split_eqb 0 c2; cbn [negb]; [lia|]. split; [case_b; lia|done].
  - destruct H2 as [|c2 s2 Hc2 H2]; cbn [strcmp hd0 tl0].
    + split_eqb c1 0; cbn [negb]; [lia|]. split; [case_b; lia|done].
    + split_eqb c1 c2; cbn [negb].
      * subst. split_eqb c2 0; [lia|]. rewrite IH by done. naive_solver.
      * split; [case_b; lia|]. naive_solver.
Qed.

Lemma strncmp_eq n s1 s2 : (n <= length s1)%nat -> (n <= length s2)%nat ->
  Forall (fun c => c <> 0) (take n s2) -> strncmp s1 s2 n = 0 <-> take n s1 = take n s2.
Proof.
  revert s1 s2. induction n as [|n IH]; intros s1 s2 H1 H2 Hn; [done|].
  destruct s1 as [|c1 s1], s2 as [|c2 s2]; cbn [length] in *; try lia.
  cbn [strncmp hd0 tl0 take] in *. apply Forall_cons in Hn as [Hc Hn].
  split_eqb c1 c2; cbn [negb].
  - subst. split_eqb c2 0; [done|]. rewrite IH by (done || lia). split; [by intros ->|by intros [= ?]].
  - split; [case_b; lia|]. naive_solver.
Qed.

(** ** Numbers *)

Definition is_digit (base c : Z) : Prop := 0 <= digit_to_int c < base.

(** The number a list of digits denotes, read after the number [n]. *)
Definition number (base n : Z) (ds : list Z) : Z :=
  fold_left (fun n c => n * base + digit_to_int c) ds n.

Lemma number_le base n ds : 1 <= base -> 0 <= n -> Forall (is_digit base) ds -> n <= number base n ds.
Proof.
  intros Hb Hn Hd. revert n Hn. induction Hd as [|c ds Hc _ IH]; intros n Hn; [done|].
  unfold is_digit in Hc. cbn [number fold_left]. etrans; [|apply IH]; nia.
Qed.

Definition stops (base : Z) (rest : list Z) : Prop :=
  match rest with [] => True | c :: _ => digit_to_int c = -1 \/ base <= digit_to_int c end.

Lemma strtoui_loop_spec base ds rest n : 1 <= base -> 0 <= n < W64 ->
  Forall (is_digit base) ds -> stops base rest ->
  if number base n ds <? W64 then strtoui_loop (ds ++ rest) base n = (number base n ds, rest)
  else fst (strtoui_loop (ds ++ rest) base n) = W64 - 1.
Proof.
  intros Hb Hn Hd Hr. revert n Hn. induction Hd as [|c ds Hc Hds IH]; intros n Hn.
  - cbn [number fold_left app]. split_ltb n (W64%Z); [|lia]. destruct rest as [|c rest]; [done|].
    cbn [strtoui_loop]. simpl in Hr.
    split_eqb (digit_to_int c) (-1); [done|]. split_leb base (digit_to_int c); [done|lia].
  - pose proof Hc as [? ?]. cbn [app strtoui_loop].
    split_eqb (digit_to_int c) (-1); [lia|]. split_leb base (digit_to_int c); [lia|]. cbn [orb].
    change (number base n (c :: ds)) with (number base (n * base + digit_to_int c) ds).
    pose proof (number_le base (n * base + digit_to_int c) ds Hb ltac:(nia) Hds) as Hle.
    unfold mul_overflow. split_ltb (n * base) (W64%Z).
    2:{ split_ltb (number base (n * base + digit_to_int c) ds) (W64%Z); [lia|done]. }
    unfold add_overflow. split_ltb (n * base + digit_to_int c) (W64%Z).
    2:{ split_ltb (number base (n * base + digit_to_int c) ds) (W64%Z); [lia|done]. }
    apply IH. nia.
Qed.

(** [strtoui] never wraps.  On the longest run of digits of the base that
    starts the string it returns the number they denote and the position after
    them, or the largest 64-bit value when the number does not fit. *)
Theorem strtoui_saturates base ds rest : 1 <= base ->
  Forall (is_digit base) ds -> stops base rest ->
  if number base 0 ds <? W64 then strtoui (ds ++ rest) base = (number base 0 ds, rest)
  else fst (strtoui (ds ++ rest) base) = W64 - 1.
Proof. intros Hb Hd Hr. by apply strtoui_loop_spec. Qed.

Lemma strtoui_saturates_witness :
  strtoui (str "18446744073709551615x") 10 = (W64 - 1, str "x") /\
  fst (strtoui (str "18446744073709551616x") 10) = W64 - 1.
Proof.
  split.
  - apply (strtoui_saturates 10 (str "18446744073709551615") (str "x")); [done| |by left].
    repeat constructor; done.
  - apply (strtoui_saturates 10 (str "18446744073709551616") (str "x")); [done| |by left].
    repeat constructor; done.
Defined.

(** ** Printing decimals *)

Fixpoint dec_loop (fuel : nat) (n : Z) (acc : list Z) : list Z :=
  match fuel with
  | O => acc
  | S fuel =>
      let acc := (48 + n `mod` 10) :: acc in
      if n <? 10 then acc else dec_loop fuel (n / 10) acc
  end.
Definition dec (n : Z) : list Z := dec_loop 20 n [].

Lemma digit_to_int_dec k : 0 <= k < 10 -> digit_to_int (48 + k) = k.
Proof. intros Hk. unfold digit_to_int. repeat (case_b; cbn [andb]; try lia). Qed.

Lemma dec_loop_spec fuel : forall n acc, 0 <= n < 10 ^ Z.of_nat fuel -> (0 < fuel)%nat ->
  exists ds, dec_loop fuel n acc = ds ++ acc /\ ds <> [] /\ Forall (is_digit 10) ds /\ number 10 0 ds = n.
Proof.
  induction fuel as [|fuel IH]; intros n acc Hn Hf; [lia|]. cbn [dec_loop].
  pose proof (Z.mod_pos_bound n 10 ltac:(lia)).
  assert (is_digit 10 (48 + n `mod` 10)) as Hd by (unfold is_digit; by rewrite digit_to_int_dec).
  split_ltb n 10.
  - exists [48 + n `mod` 10]. split_and!; [done|done|by constructor|].
    cbn [number fold_left]. rewrite digit_to_int_dec by done. rewrite Z.mod_small; lia.
  - rewrite Nat2Z.inj_succ, Z.pow_succ_r in Hn by lia.
    destruct (decide (fuel = 0%nat)) as [->|]; [cbn in Hn; lia|].
    destruct (IH (n / 10) ((48 + n `mod` 10) :: acc)) as (ds & -> & Hne & Hds & Hnum); [|lia|].
    { split; [apply Z.div_pos; lia|]. apply Z.div_lt_upper_bound; lia. }
    exists (ds ++ [48 + n `mod` 10]). split_and!.
    + by rewrite <- app_assoc.
    + by destruct ds.
    + by apply Forall_app; split; [|constructor].
    + unfold number in *. rewrite fold_left_app, Hnum. cbn [fold_left].
      rewrite digit_to_int_dec by done. pose proof (Z.div_mod n 10). lia.
Qed.

(** Printed in decimal and parsed back, any number up to a stop character. *)
Lemma strtoui_dec n rest : 0 <= n < W64 -> stops 10 rest -> strtoui (dec n ++ rest) 10 = (n, rest).
Proof.
  intros Hn Hr. destruct (dec_loop_spec 20 n []) as (ds & Hd & _ & Hds & Hnum); [lia..|].
  unfold dec. rewrite Hd, app_nil_r. pose proof (strtoui_loop_spec 10 ds rest 0 ltac:(lia) ltac:(lia) Hds Hr) as H.
  rewrite Hnum in H. destruct (n <? W64) eqn:E; [done|]. apply Z.ltb_ge in E. lia.
Qed.

Lemma dec_nonempty n rest : 0 <= n < W64 -> (length rest < length (dec n ++ rest))%nat.
Proof.
  intros Hn. destruct (dec_loop_spec 20 n []) as (ds & Hd & Hne & _); [lia..|].
  unfold dec. rewrite Hd, app_nil_r, length_app. destruct ds; [done|]. simpl. lia.
Qed.

Lemma inet_step k n rest array : 0 <= n < 256 ->
  hd0 rest = (match k with O => 0 | _ => 46 end) -> stops 10 rest ->
  inet_loop (S k) (dec n ++ rest) array =
  inet_loop k (match k with O => rest | _ => tl0 rest end) (array ++ [n]).
Proof.
  intros Hn Hh Hs. cbn [inet_loop]. rewrite strtoui_dec by (done || lia).
  rewrite decide_False by (pose proof (dec_nonempty n rest ltac:(lia)); lia).
  rewrite Hh, Z.eqb_refl. cbn [negb]. split_ltb 255 n; [lia|done].
Qed.

(** [inet_pton] reads back the dotted quad of any four octets. *)
Theorem inet_pton_roundtrip a b c d :
  0 <= a < 256 -> 0 <= b < 256 -> 0 <= c < 256 -> 0 <= d < 256 ->
  inet_pton (dec a ++ str "." ++ dec b ++ str "." ++ dec c ++ str "." ++ dec d) = Some [a; b; c; d].
Proof.
  intros Ha Hb Hc Hd. unfold inet_pton. rewrite <- (app_nil_r (dec d)).
  change (str ".") with [46]. cbn [app].
  rewrite (inet_step 3) by (done || by left). cbn [tl0 app].
  rewrite (inet_step 2) by (done || by left). cbn [tl0 app].
  rewrite (inet_step 1) by (done || by left). cbn [tl0 app].
  by rewrite (inet_step 0).
Qed.

Lemma inet_pton_roundtrip_witness : inet_pton (str "192.168.0.255") = Some [192; 168; 0; 255].
Proof. apply (inet_pton_roundtrip 192 168 0 255); lia. Defined.

(** [parse_resolution] reads back a mode printed as WIDTHxHEIGHTxBPP. *)
Lemma parse_resolution_roundtrip w h b : 0 < w < W64 -> 0 < h < W64 -> 0 < b < W64 ->
  parse_resolution (dec w ++ str "x" ++ dec h ++ str "x" ++ dec b) = Some (w, h, b).
Proof.
  intros Hw Hh Hb. unfold parse_resolution. rewrite <- (app_nil_r (dec b)).
  change (str "x") with [120]. cbn [app].
  assert (forall k n rest, 0 < n < W64 -> stops 10 rest ->
    resolution_loop (S k) (dec n ++ rest) = n :: if hd0 rest =? 0 then [] else resolution_loop k (tl0 rest)) as Hstep.
  { intros k n rest Hn Hs. cbn [resolution_loop]. rewrite strtoui_dec by (done || lia).
    by rewrite decide_False by (pose proof (dec_nonempty n rest ltac:(lia)); lia). }
  rewrite (Hstep 2%nat) by (done || by left). cbn [hd0 tl0 Z.eqb].
  rewrite (Hstep 1%nat) by (done || by left). cbn [hd0 tl0 Z.eqb].
  rewrite (Hstep 0%nat) by done. cbn [hd0 tl0 nth].
  split_eqb w 0; [lia|]. split_eqb h 0; [lia|]. cbn. split_eqb b 0; [lia|done].
Qed.

(** BCD, as the real-time clock holds it. *)
Lemma bcd_roundtrip n : 0 <= n < 100 -> bcd_to_int (int_to_bcd n) = n.
Proof.
  intros Hn. assert (forall k, (k < 100)%nat -> bcd_to_int (int_to_bcd (Z.of_nat k)) = Z.of_nat k) as H.
  { intros k Hk. apply (proj1 (Forall_seq (fun k => bcd_to_int (int_to_bcd (Z.of_nat k)) = Z.of_nat k) 0 100)); [|lia].
    by repeat constructor. }
  rewrite <- (Z2Nat.id n) by lia. apply H. lia.
Qed.

(** ** The integer square root *)

Lemma shiftr_pow4 k : 0 <= k -> Z.shiftr (4 ^ k) 2 = if decide (k = 0) then 0 else 4 ^ (k - 1).
Proof.
  intros Hk. rewrite Z.shiftr_div_pow2 by lia. change (2 ^ 2) with 4.
  case_decide as Hd; [by subst|].
  replace k with (Z.succ (k - 1)) at 1 by lia. rewrite Z.pow_succ_r by lia.
  replace (4 * 4 ^ (k - 1)) with (4 ^ (k - 1) * 4) by lia. by apply Z.div_mul.
Qed.

Lemma sqrt_start_spec fuel : forall k op, 0 <= k < Z.of_nat fuel -> 0 <= op < 4 ^ (k + 1) ->
  exists one, sqrt_start fuel (4 ^ k) op = Ret one /\
    (op = 0 /\ one = 0 \/ exists j, 0 <= j <= k /\ one = 4 ^ j /\ 4 ^ j <= op < 4 ^ (j + 1)).
Proof.
  induction fuel as [|fuel IH]; intros k op Hk Hop; [lia|]. cbn [sqrt_start].
  split_ltb op (4 ^ k); [|eexists; split; [done|]; right; exists k; lia].
  rewrite shiftr_pow4 by lia. case_decide as Hd.
  - subst. assert (op = 0) as -> by (cbn in *; lia). exists 0. split; [by destruct fuel|]. by left.
  - destruct (IH (k - 1) op) as (one & -> & H); [lia|replace (k - 1 + 1) with k by lia; lia|].
    exists one. split; [done|]. destruct H as [?|(j & ? & ?)]; [by left|right; exists j; lia].
Qed.

(** The invariant of the loop at [one = 4 ^ k]: the root [r] found so far is a
    multiple of [2 ^ (k + 1)], [op] is what is left of the argument. *)
Lemma sqrt_loop_spec fuel : forall k r n op, 0 <= k < Z.of_nat fuel -> 0 <= r ->
  r + 2 ^ (k + 1) <= 2 ^ 32 -> n < W64 -> op = n - r * r -> r * r <= n < (r + 2 ^ (k + 1)) * (r + 2 ^ (k + 1)) ->
  exists s, sqrt_loop fuel (4 ^ k) op (r * 2 ^ (k + 1)) = Ret s /\ 0 <= s /\ s * s <= n < (s + 1) * (s + 1).
Proof.
  induction fuel as [|fuel IH]; intros k r n op Hk Hr Hr32 Hn -> Hinv; [lia|]. cbn [sqrt_loop].
  assert (0 < 2 ^ k) as Hp by (apply Z.pow_pos_nonneg; lia).
  assert (2 ^ (k + 1) = 2 * 2 ^ k) as Hp1 by (rewrite Z.pow_add_r by lia; lia).
  assert (4 ^ k = 2 ^ k * 2 ^ k) as H4 by (change 4 with (2 ^ 2); rewrite <- Z.pow_mul_r, <- Z.pow_add_r by lia; f_equal; lia).
  split_eqb (4 ^ k) 0; [nia|].
  rewrite (u64_small (r * 2 ^ (k + 1) + 4 ^ k)) by (rewrite Hp1, H4; nia).
  rewrite (u64_small (2 * 4 ^ k)) by (rewrite H4; nia). rewrite shiftr_pow4 by lia.
  assert (exists r', 0 <= r' /\ r' + 2 ^ k <= 2 ^ 32 /\ r' * r' <= n < (r' + 2 ^ k) * (r' + 2 ^ k) /\
    (let '(op, res) := if r * 2 ^ (k + 1) + 4 ^ k <=? n - r * r
       then (u64 (n - r * r - (r * 2 ^ (k + 1) + 4 ^ k)), u64 (r * 2 ^ (k + 1) + 2 * 4 ^ k))
       else (n - r * r, r * 2 ^ (k + 1)) in (op, Z.shiftr res 1)) = (n - r' * r', r' * 2 ^ k)) as (r' & Hr' & Hr32' & Hinv' & Heq).
  { rewrite Hp1, H4 in *. split_leb (r * (2 * 2 ^ k) + 2 ^ k * 2 ^ k) (n - r * r).
    - exists (r + 2 ^ k). split; [lia|]. split; [lia|]. split; [nia|]. rewrite !u64_small by nia.
      f_equal; [lia|]. rewrite Z.shiftr_div_pow2 by lia. change (2 ^ 1) with 2.
      replace (r * (2 * 2 ^ k) + 2 * (2 ^ k * 2 ^ k)) with ((r + 2 ^ k) * 2 ^ k * 2) by lia. by apply Z.div_mul.
    - exists r. split; [lia|]. split; [lia|]. split; [nia|]. f_equal. rewrite Z.shiftr_div_pow2 by lia. change (2 ^ 1) with 2.
      replace (r * (2 * 2 ^ k)) with (r * 2 ^ k * 2) by lia. by apply Z.div_mul. }
  destruct (if r * 2 ^ (k + 1) + 4 ^ k <=? n - r * r then _ else _) as [op res].
  injection Heq as -> ->. case_decide as Hd.
  - subst k. exists r'. cbn in Hinv'. replace (r' * 2 ^ 0) with r' by lia.
    split; [by destruct fuel|lia].
  - replace (2 ^ k) with (2 ^ (k - 1 + 1)) by (f_equal; lia).
    apply IH; replace (k - 1 + 1) with k by lia; (done || lia).
Qed.

(** [sqrt] is the integer square root of every 64-bit number: both of its
    loops end, no intermediate sum wraps, and the result is the largest [r] with
    [r * r] at most the argument. *)
Theorem sqrt_correct n : 0 <= n < W64 -> sqrt n = Ret (Z.sqrt n).
Proof.
  intros Hn. unfold sqrt. change (2 ^ 62) with (4 ^ 31).
  destruct (sqrt_start_spec 32 31 n) as (one & -> & Hone); [lia|done|].
  cbn [mbind outcome_bind]. destruct Hone as [[-> ->]|(j & Hj & -> & Hop)]; [done|].
  destruct (sqrt_loop_spec 32 j 0 n n) as (s & Hs & Hs0 & Hsq); [lia..| |lia|lia| |].
  { apply (Z.pow_le_mono_r 2 (j + 1) 32); lia. }
  { replace (0 + 2 ^ (j + 1)) with (2 ^ (j + 1)) by lia. rewrite <- Z.pow_add_r by lia.
    replace (j + 1 + (j + 1)) with (2 * (j + 1)) by lia. rewrite Z.pow_mul_r by lia. change (2 ^ 2) with 4. lia. }
  rewrite Z.mul_0_l in Hs. rewrite Hs. f_equal. symmetry. by apply Z.sqrt_unique.
Qed.

Lemma sqrt_correct_witness : sqrt 18446744073709551615 = Ret 4294967295.
Proof. by rewrite (sqrt_correct 18446744073709551615). Defined.
