(* ===== verification/Guid.v ===== *)
(** * GUIDs

    Models lib/guid.c: the two textual forms of a GUID (big-endian, and the mixed
    form in which the first three fields are little-endian), and printing.  A
    [struct guid] is its 16 bytes. *)

From S2P Require Import Prelude Bytes Libc.

(** The loop of [is_valid_guid], from index [i]. *)
Fixpoint valid_from (fuel : nat) (s : list Z) (i : nat) : bool :=
  match fuel with
  | O => false
  | S fuel =>
      if bool_decide (i ∈ [8; 13; 18; 23]%nat) then
        if negb (hd0 s =? 45) then false else valid_from fuel (tl0 s) (S i)
      else if bool_decide (i = 36%nat) then hd0 s =? 0
      else if digit_to_int (hd0 s) =? -1 then false
      else valid_from fuel (tl0 s) (S i)
  end.
Definition is_valid_guid (s : list Z) : bool := valid_from 37 s 0.

(** The clusters are written into the whole structure, from byte [p] on; [k]
    counts the characters left. *)
Fixpoint guid_convert_le_cluster (k : nat) (dest s : list Z) (p : nat) : outcome (list Z) :=
  match k with
  | O => Ret dest
  | S i =>
      let val := digit_to_int (nth i s 0) in
      if Nat.odd i then
        dest ← put dest p (u8 val);
        guid_convert_le_cluster i dest s p
      else
        old ← get dest p;
        dest ← put dest p (u8 (Z.lor old (Z.shiftl val 4)));
        guid_convert_le_cluster i dest s (S p)
  end.

Fixpoint guid_convert_be_cluster (k : nat) (dest s : list Z) (i p : nat) : outcome (list Z) :=
  match k with
  | O => Ret dest
  | S k =>
      let val := digit_to_int (nth i s 0) in
      if Nat.odd i then
        old ← get dest p;
        dest ← put dest p (u8 (Z.lor old val));
        guid_convert_be_cluster k dest s (S i) (S p)
      else
        dest ← put dest p (u8 (Z.shiftl val 4));
        guid_convert_be_cluster k dest s (S i) p
  end.

(** [None] for [false]. *)
Definition string_to_guid_be (guid s : list Z) : outcome (option (list Z)) :=
  if negb (is_valid_guid s) then Ret None
  else
    guid ← guid_convert_be_cluster 8 guid (drop 0 s) 0 0;
    guid ← guid_convert_be_cluster 4 guid (drop 9 s) 0 4;
    guid ← guid_convert_be_cluster 4 guid (drop 14 s) 0 6;
    guid ← guid_convert_be_cluster 4 guid (drop 19 s) 0 8;
    guid ← guid_convert_be_cluster 12 guid (drop 24 s) 0 10;
    Ret (Some guid).

Definition string_to_guid_mixed (guid s : list Z) : outcome (option (list Z)) :=
  if negb (is_valid_guid s) then Ret None
  else
    guid ← guid_convert_le_cluster 8 guid (drop 0 s) 0;
    guid ← guid_convert_le_cluster 4 guid (drop 9 s) 4;
    guid ← guid_convert_le_cluster 4 guid (drop 14 s) 6;
    guid ← guid_convert_be_cluster 4 guid (drop 19 s) 0 8;
    guid ← guid_convert_be_cluster 12 guid (drop 24 s) 0 10;
    Ret (Some guid).

Definition hex_digits : list Z := str "0123456789abcdef".

Definition uint_to_hex (num : Z) (len : nat) : list Z :=
  (fun i => nth (Z.to_nat (Z.land (Z.shiftr num (Z.of_nat (len - 1 - i) * 4)) 15)) hex_digits 0) <$> seq 0 len.

Definition guid_to_string (guid : list Z) : list Z :=
  let d i := nth (8 + i) guid 0 in
  uint_to_hex (le_load (slice 0 4 guid)) 8 ++ [45] ++
  uint_to_hex (le_load (slice 4 2 guid)) 4 ++ [45] ++
  uint_to_hex (le_load (slice 6 2 guid)) 4 ++ [45] ++
  uint_to_hex (d 0%nat) 2 ++ uint_to_hex (d 1%nat) 2 ++ [45] ++
  uint_to_hex (d 2%nat) 2 ++ uint_to_hex (d 3%nat) 2 ++ uint_to_hex (d 4%nat) 2 ++
  uint_to_hex (d 5%nat) 2 ++ uint_to_hex (d 6%nat) 2 ++ uint_to_hex (d 7%nat) 2.

(** ** Round trip *)

Definition hex (n : Z) : Z := nth (Z.to_nat n) hex_digits 0.

Lemma digit_to_int_hex n : 0 <= n < 16 -> digit_to_int (hex n) = n.
Proof.
  intros Hn. assert (forall k, (k < 16)%nat -> digit_to_int (hex (Z.of_nat k)) = Z.of_nat k) as H.
  { intros k Hk. apply (proj1 (Forall_seq (fun k => digit_to_int (hex (Z.of_nat k)) = Z.of_nat k) 0 16)); [|lia].
    by repeat constructor. }
  rewrite <- (Z2Nat.id n) at 2 by lia. rewrite <- H by lia. by rewrite Z2Nat.id by lia.
Qed.

Lemma nibble_range x k : 0 <= Z.land (Z.shiftr x k) 15 < 16.
Proof. change 15 with (Z.ones 4). rewrite Z.land_ones by lia. by apply Z.mod_pos_bound. Qed.

Lemma digit_nibble x k : digit_to_int (hex (Z.land (Z.shiftr x k) 15)) = Z.land (Z.shiftr x k) 15.
Proof. apply digit_to_int_hex, nibble_range. Qed.

(** Two nibbles make the byte. *)
Lemma nibbles_byte x k : 0 <= k ->
  u8 (Z.lor (u8 (Z.shiftl (Z.land (Z.shiftr x (k + 4)) 15) 4)) (Z.land (Z.shiftr x k) 15)) = Z.shiftr x k `mod` 256.
Proof.
  intros Hk. unfold u8. change 256 with (2 ^ 8). change 15 with (Z.ones 4). apply Z.bits_inj'. intros i Hi.
  destruct (decide (i < 8)).
  - rewrite !Z.mod_pow2_bits_low, Z.lor_spec, Z.mod_pow2_bits_low by lia.
    destruct (decide (i < 4)).
    + rewrite Z.shiftl_spec_low, Z.land_spec, Z.ones_spec_low by lia. by rewrite andb_true_r.
    + rewrite Z.shiftl_spec, !Z.land_spec, !Z.shiftr_spec by lia.
      rewrite (Z.ones_spec_high 4 i), Z.ones_spec_low, andb_false_r, andb_true_r, orb_false_r by lia.
      f_equal. lia.
  - by rewrite !Z.mod_pow2_bits_high by lia.
Qed.

(** The two characters of a byte, and those of a list of bytes. *)
Definition two_hex (b : Z) : list Z := uint_to_hex b 2.
Definition hex_bytes (bs : list Z) : list Z := bs ≫= two_hex.

Lemma two_hex_digits b : is_byte b ->
  exists hi lo, two_hex b = [hex hi; hex lo] /\ 0 <= hi < 16 /\ 0 <= lo < 16 /\
    u8 (Z.lor (u8 (Z.shiftl hi 4)) lo) = b /\ u8 (Z.lor (u8 lo) (Z.shiftl hi 4)) = b.
Proof.
  intros Hb. exists (Z.land (Z.shiftr b 4) 15), (Z.land (Z.shiftr b 0) 15).
  split; [done|]. split_and!; try apply nibble_range.
  - change 4 with (0 + 4) at 1. rewrite nibbles_byte by lia. rewrite Z.shiftr_0_r. by apply Z.mod_small.
  - rewrite <- (Z.mod_small b 256) at 3 by done. rewrite <- (Z.shiftr_0_r b) at 3.
    rewrite <- (nibbles_byte b 0) by lia. unfold u8. change 256 with (2 ^ 8). apply Z.bits_inj'. intros i Hi.
    destruct (decide (i < 8)).
    + by rewrite !Z.mod_pow2_bits_low, !Z.lor_spec, !Z.mod_pow2_bits_low, orb_comm by lia.
    + by rewrite !Z.mod_pow2_bits_high by lia.
Qed.

Lemma length_hex_bytes bs : length (hex_bytes bs) = (2 * length bs)%nat.
Proof. induction bs as [|b bs IH]; [done|]. cbn [hex_bytes mbind list_bind]. rewrite length_app. fold (hex_bytes bs). simpl. lia. Qed.

Lemma take_drop_insert {A} (l : list A) p x m : (p < length l)%nat ->
  take (S p) (<[p:=x]> l) = take p l ++ [x] /\ drop (S p + m) (<[p:=x]> l) = drop (S p + m) l.
Proof.
  intros Hp. split.
  - rewrite (take_S_r _ _ x) by (by apply list_lookup_insert_eq). by rewrite take_insert_ge by lia.
  - by rewrite drop_insert_lt by lia.
Qed.

Lemma be_cluster_spec bs : forall dest s i p rest, Forall is_byte bs -> Nat.even i = true ->
  (p + length bs <= length dest)%nat -> drop i s = hex_bytes bs ++ rest ->
  guid_convert_be_cluster (2 * length bs) dest s i p = Ret (take p dest ++ bs ++ drop (p + length bs) dest).
Proof.
  induction bs as [|b bs IH]; intros dest s i p rest Hb He Hl Hs.
  { simpl. by rewrite Nat.add_0_r, take_drop. }
  apply Forall_cons in Hb as [Hb Hbs]. destruct (two_hex_digits b Hb) as (hi & lo & Hhex & Hhi & Hlo & Hbyte & _).
  cbn [hex_bytes mbind list_bind] in Hs. rewrite Hhex in Hs. cbn [app] in Hs. fold (hex_bytes bs) in Hs.
  assert (forall k, nth (i + k) s 0 = nth k (drop i s) 0) as Hnth.
  { intros k. by rewrite !nth_lookup, lookup_drop. }
  cbn [length] in *. replace (2 * S (length bs))%nat with (S (S (2 * length bs))) by lia.
  cbn [guid_convert_be_cluster]. pose proof (Nat.negb_odd i) as Hodd. rewrite Nat.odd_succ.
  destruct (Nat.odd i); [by rewrite He in Hodd|].
  rewrite <- (Nat.add_0_r i) at 1. replace (S i) with (i + 1)%nat by lia. rewrite !Hnth, Hs. cbn [nth].
  rewrite !digit_to_int_hex by done. rewrite put_lt by lia. cbn [mbind outcome_bind].
  rewrite He. rewrite (get_lookup _ _ (u8 (Z.shiftl hi 4))) by (apply list_lookup_insert_eq; lia).
  cbn [mbind outcome_bind]. rewrite put_lt by (rewrite length_insert; lia). cbn [mbind outcome_bind].
  rewrite list_insert_insert_eq, Hbyte.
  rewrite (IH _ _ _ _ rest); [|done| |rewrite length_insert; lia|].
  - destruct (take_drop_insert dest p b (length bs) ltac:(lia)) as [-> ->]. by rewrite <- app_assoc, <- Nat.add_succ_comm.
  - by rewrite Nat.add_1_r, Nat.even_succ_succ.
  - replace (S (i + 1)) with (i + 2)%nat by lia. by rewrite <- drop_drop, Hs.
Qed.

Lemma le_cluster_spec bs : forall dest s p, Forall is_byte bs ->
  (p + length bs <= length dest)%nat -> take (2 * length bs) s = hex_bytes (reverse bs) ->
  guid_convert_le_cluster (2 * length bs) dest s p = Ret (take p dest ++ bs ++ drop (p + length bs) dest).
Proof.
  induction bs as [|b bs IH]; intros dest s p Hb Hl Hs.
  { simpl. by rewrite Nat.add_0_r, take_drop. }
  apply Forall_cons in Hb as [Hb Hbs]. destruct (two_hex_digits b Hb) as (hi & lo & Hhex & Hhi & Hlo & _ & Hbyte).
  rewrite reverse_cons in Hs. unfold hex_bytes in Hs. rewrite bind_app in Hs. fold (hex_bytes (reverse bs)) in Hs.
  cbn [mbind list_bind] in Hs. rewrite Hhex in Hs. cbn [app] in Hs.
  pose proof (length_hex_bytes (reverse bs)) as Hlen. rewrite length_reverse in Hlen.
  cbn [length] in *. replace (2 * S (length bs))%nat with (S (S (2 * length bs))) in * by lia.
  specialize (IH (<[p:=b]> dest) s (S p) Hbs).
  remember (2 * length bs)%nat as m eqn:Hm.
  assert (forall k x, [hex hi; hex lo] !! k = Some x -> nth (m + k) s 0 = x) as Hnth.
  { intros k x Hk. apply nth_lookup_Some.
    pose proof (lookup_lt_Some _ _ _ Hk) as Hk2. simpl in Hk2.
    rewrite <- (lookup_take_lt s (S (S m))) by lia. rewrite Hs, lookup_app_r by lia.
    by rewrite Hlen, Nat.add_comm, Nat.add_sub. }
  cbn [guid_convert_le_cluster].
  assert (Nat.odd m = false) as Hodd.
  { rewrite <- Nat.negb_even, Hm. by rewrite Nat.even_mul. }
  rewrite Nat.odd_succ, <- Nat.negb_odd, Hodd. cbn [negb].
  replace (S m) with (m + 1)%nat by lia. rewrite (Hnth 1%nat (hex lo)) by done.
  pose proof (Hnth 0%nat (hex hi) eq_refl) as Hn0. rewrite Nat.add_0_r in Hn0. rewrite Hn0.
  rewrite !digit_to_int_hex by done. rewrite put_lt by lia. cbn [mbind outcome_bind].
  rewrite (get_lookup _ _ (u8 lo)) by (apply list_lookup_insert_eq; lia).
  cbn [mbind outcome_bind]. rewrite put_lt by (rewrite length_insert; lia). cbn [mbind outcome_bind].
  rewrite list_insert_insert_eq, Hbyte. rewrite IH; [|rewrite length_insert; lia|].
  - destruct (take_drop_insert dest p b (length bs) ltac:(lia)) as [-> ->]. by rewrite <- app_assoc, <- Nat.add_succ_comm.
  - replace (take m s) with (take m (take (S (S m)) s)).
    2:{ rewrite take_take. f_equal. lia. }
    rewrite Hs. by rewrite take_app_length' by lia.
Qed.

Lemma uint_to_hex_split n m : uint_to_hex n (m + 2) = uint_to_hex (Z.shiftr n 8) m ++ uint_to_hex n 2.
Proof.
  unfold uint_to_hex. rewrite seq_app, fmap_app. f_equal.
  - apply list_fmap_ext. intros i x Hi. apply lookup_seq in Hi as [-> Hi].
    rewrite Z.shiftr_shiftr by lia. do 4 f_equal. lia.
  - cbn [seq fmap list_fmap]. do 2 f_equal; [|f_equal]; do 4 f_equal; lia.
Qed.

Lemma uint_to_hex_bytes bs : Forall is_byte bs ->
  uint_to_hex (le_load bs) (2 * length bs) = hex_bytes (reverse bs).
Proof.
  induction 1 as [|b bs Hb _ IH]; [done|]. rewrite reverse_cons. unfold hex_bytes. rewrite bind_app.
  fold (hex_bytes (reverse bs)). cbn [length le_load mbind list_bind]. rewrite app_nil_r.
  replace (2 * S (length bs))%nat with (2 * length bs + 2)%nat by lia.
  unfold is_byte in Hb. rewrite uint_to_hex_split. f_equal.
  - rewrite <- IH. f_equal. rewrite Z.shiftr_div_pow2 by lia. change (2 ^ 8) with 256.
    replace (b + 256 * le_load bs) with (b + le_load bs * 256) by lia. rewrite Z.div_add, Z.div_small; lia.
  - assert (b = (b + 256 * le_load bs) `mod` 256) as Hm.
    { replace (b + 256 * le_load bs) with (b + le_load bs * 256) by lia. rewrite Z.mod_add, Z.mod_small; lia. }
    rewrite Hm at 2. unfold two_hex, uint_to_hex. apply list_fmap_ext. intros i x [-> Hi]%lookup_seq.
    do 2 f_equal. change 15 with (Z.ones 4). change 256 with (2 ^ 8). apply Z.bits_inj'. intros k Hk.
    rewrite !Z.land_spec, !Z.shiftr_spec by lia. destruct (decide (k < 4)).
    + by rewrite Z.mod_pow2_bits_low by lia.
    + by rewrite Z.ones_spec_high, !andb_false_r by lia.
Qed.

(** ** The text of a GUID is accepted *)

Lemma valid_hex_bytes bs rest : forall fuel i, Forall is_byte bs ->
  (forall k, (k < 2 * length bs)%nat -> (i + k)%nat ∉ [8; 13; 18; 23; 36]%nat) ->
  valid_from (2 * length bs + fuel) (hex_bytes bs ++ rest) i = valid_from fuel rest (2 * length bs + i).
Proof.
  intros fuel i Hb. revert i. induction Hb as [|b bs Hb _ IH]; intros i Hi; [done|].
  destruct (two_hex_digits b Hb) as (hi & lo & Hhex & Hhi & Hlo & _).
  cbn [hex_bytes mbind list_bind]. rewrite Hhex. cbn [app length]. fold (hex_bytes bs).
  replace (2 * S (length bs) + fuel)%nat with (S (S (2 * length bs + fuel))) by lia.
  assert (forall f j s n, (j < 2 * S (length bs))%nat -> 0 <= n < 16 ->
    valid_from (S f) (hex n :: s) (i + j) = valid_from f s (S (i + j))) as Hstep.
  { intros f j s n Hj Hn. specialize (Hi j Hj). cbn [valid_from hd0 tl0].
    rewrite !bool_decide_eq_false_2 by set_solver. rewrite digit_to_int_hex by done. split_eqb n (-1); [lia|done]. }
  pose proof (Hstep (S (2 * length bs + fuel)) 0%nat (hex lo :: hex_bytes bs ++ rest) hi) as H0.
  pose proof (Hstep (2 * length bs + fuel)%nat 1%nat (hex_bytes bs ++ rest) lo) as H1.
  rewrite Nat.add_0_r in H0. replace (i + 1)%nat with (S i) in H1 by lia.
  rewrite H0, H1 by (done || lia). rewrite IH; [f_equal; lia|]. intros k Hk.
  replace (S (S i) + k)%nat with (i + S (S k))%nat by lia. apply Hi. simpl. lia.
Qed.

Lemma valid_dash fuel rest i : i ∈ [8; 13; 18; 23]%nat ->
  valid_from (S fuel) (45 :: rest) i = valid_from fuel rest (S i).
Proof. intros Hi. cbn [valid_from hd0 tl0]. by rewrite bool_decide_eq_true_2. Qed.

(** Prove [Forall is_byte] of an explicit list from hypotheses on its bytes. *)
Ltac forall_bytes := repeat first [apply List.Forall_nil | apply List.Forall_cons; [assumption|]].

Lemma guid_to_string_hex b0 b1 b2 b3 b4 b5 b6 b7 ds : length ds = 8%nat ->
  Forall is_byte ([b0; b1; b2; b3; b4; b5; b6; b7] ++ ds) ->
  guid_to_string ([b0; b1; b2; b3; b4; b5; b6; b7] ++ ds) =
  hex_bytes [b3; b2; b1; b0] ++ [45] ++ hex_bytes [b5; b4] ++ [45] ++ hex_bytes [b7; b6] ++ [45] ++
  hex_bytes (take 2 ds) ++ [45] ++ hex_bytes (drop 2 ds).
Proof.
  intros Hl H. do 8 (destruct ds as [|? ds]; [done|]). destruct ds; [|done].
  cbn [app] in H. rewrite !Forall_cons in H. destruct_and! H.
  unfold guid_to_string, slice. cbn [app take drop nth Nat.add].
  assert (uint_to_hex (le_load [b0; b1; b2; b3]) 8 = hex_bytes [b3; b2; b1; b0]) as ->
    by (apply (uint_to_hex_bytes [b0; b1; b2; b3]); forall_bytes).
  assert (uint_to_hex (le_load [b4; b5]) 4 = hex_bytes [b5; b4]) as ->
    by (apply (uint_to_hex_bytes [b4; b5]); forall_bytes).
  assert (uint_to_hex (le_load [b6; b7]) 4 = hex_bytes [b7; b6]) as ->
    by (apply (uint_to_hex_bytes [b6; b7]); forall_bytes).
  cbn [hex_bytes mbind list_bind]. unfold two_hex. by rewrite !app_nil_r, <- !app_assoc.
Qed.

Lemma Forall_bytes_split b0 b1 b2 b3 b4 b5 b6 b7 ds :
  Forall is_byte ([b0; b1; b2; b3; b4; b5; b6; b7] ++ ds) ->
  Forall is_byte [b3; b2; b1; b0] /\ Forall is_byte [b5; b4] /\ Forall is_byte [b7; b6] /\
  Forall is_byte (take 2 ds) /\ Forall is_byte (drop 2 ds).
Proof.
  cbn [app]. rewrite !Forall_cons. intros H. destruct_and! H.
  split_and!; auto using Forall_take, Forall_drop.
Qed.

(** The five groups of the text of a GUID. *)
Definition guid_text (a b c d e : list Z) : list Z :=
  hex_bytes a ++ [45] ++ hex_bytes b ++ [45] ++ hex_bytes c ++ [45] ++ hex_bytes d ++ [45] ++ hex_bytes e.

Section text.
Context (a b c d e : list Z).
Context (La : length a = 4%nat) (Lb : length b = 2%nat) (Lc : length c = 2%nat)
        (Ld : length d = 2%nat) (Le : length e = 6%nat).
Context (Ha : Forall is_byte a) (Hb : Forall is_byte b) (Hc : Forall is_byte c)
        (Hd : Forall is_byte d) (He : Forall is_byte e).

Lemma guid_text_valid : is_valid_guid (guid_text a b c d e) = true.
Proof.
  unfold is_valid_guid, guid_text.
  assert (forall bs n i fuel rest, length bs = n -> Forall is_byte bs ->
    (forall k, (k < 2 * n)%nat -> (i + k)%nat ∉ [8; 13; 18; 23; 36]%nat) ->
    valid_from (2 * n + fuel) (hex_bytes bs ++ rest) i = valid_from fuel rest (2 * n + i)) as Hgrp
    by (intros; subst; by apply valid_hex_bytes).
  change 37%nat with (2 * 4 + 29)%nat. rewrite (Hgrp a) by (done || set_unfold; lia). cbn [app Nat.mul Nat.add].
  rewrite valid_dash by set_solver.
  change 28%nat with (2 * 2 + 24)%nat. rewrite (Hgrp b) by (done || set_unfold; lia). cbn [app Nat.mul Nat.add].
  rewrite valid_dash by set_solver.
  change 23%nat with (2 * 2 + 19)%nat at 1. rewrite (Hgrp c) by (done || set_unfold; lia). cbn [app Nat.mul Nat.add].
  rewrite valid_dash by set_solver.
  change 18%nat with (2 * 2 + 14)%nat at 1. rewrite (Hgrp d) by (done || set_unfold; lia). cbn [app Nat.mul Nat.add].
  rewrite valid_dash by set_solver. rewrite <- (app_nil_r (hex_bytes e)).
  change 13%nat with (2 * 6 + 1)%nat at 1. by rewrite (Hgrp e) by (done || set_unfold; lia).
Qed.

Lemma guid_text_groups : let t := guid_text a b c d e in
  take 8 t = hex_bytes a /\ take 4 (drop 9 t) = hex_bytes b /\ take 4 (drop 14 t) = hex_bytes c /\
  (exists rest, drop 19 t = hex_bytes d ++ rest) /\ drop 24 t = hex_bytes e.
Proof.
  pose proof (length_hex_bytes a) as Xa. pose proof (length_hex_bytes b) as Xb.
  pose proof (length_hex_bytes c) as Xc. pose proof (length_hex_bytes d) as Xd.
  assert (forall n (x y : list Z), length x = n -> drop (S n) (x ++ [45] ++ y) = y) as Hdrop.
  { intros n x y Hx. rewrite drop_app_ge by lia. by replace (S n - length x)%nat with 1%nat by lia. }
  intros t. unfold t, guid_text.
  split; [by rewrite take_app_length' by lia|].
  assert (forall n m (x y : list Z), length x = n -> drop (S n + m) (x ++ [45] ++ y) = drop m y) as Hdrop2.
  { intros n m x y Hx. by rewrite <- drop_drop, Hdrop. }
  rewrite (Hdrop 8%nat) by lia. split; [by rewrite take_app_length' by lia|].
  rewrite (Hdrop2 8 5)%nat, (Hdrop 4%nat) by lia. split; [by rewrite take_app_length' by lia|].
  rewrite (Hdrop2 8 10)%nat, (Hdrop2 4 5)%nat, (Hdrop 4%nat) by lia. split; [by eexists|].
  by rewrite (Hdrop2 8 15)%nat, (Hdrop2 4 10)%nat, (Hdrop2 4 5)%nat, (Hdrop 4%nat) by lia.
Qed.
End text.
(** Writing clusters one after another. *)
Lemma write_prefix (dest pre x : list Z) p : length pre = p -> (p + length x <= length dest)%nat ->
  take p (pre ++ drop p dest) ++ x ++ drop (p + length x) (pre ++ drop p dest) =
  (pre ++ x) ++ drop (p + length x) dest.
Proof.
  intros Hp Hl. rewrite take_app_length' by done. rewrite drop_app_ge by lia. rewrite drop_drop.
  rewrite <- app_assoc. do 3 f_equal. lia.
Qed.

Lemma le_append bs pre dest s p : Forall is_byte bs -> length pre = p -> (p + length bs <= length dest)%nat ->
  take (2 * length bs) s = hex_bytes (reverse bs) ->
  guid_convert_le_cluster (2 * length bs) (pre ++ drop p dest) s p =
  Ret ((pre ++ bs) ++ drop (p + length bs) dest).
Proof.
  intros Hb Hp Hl Hs. rewrite le_cluster_spec by (rewrite ?length_app, ?length_drop; done || lia).
  by rewrite write_prefix.
Qed.

Lemma be_append bs pre dest s rest p : Forall is_byte bs -> length pre = p -> (p + length bs <= length dest)%nat ->
  s = hex_bytes bs ++ rest ->
  guid_convert_be_cluster (2 * length bs) (pre ++ drop p dest) s 0 p =
  Ret ((pre ++ bs) ++ drop (p + length bs) dest).
Proof.
  intros Hb Hp Hl Hs. rewrite (be_cluster_spec bs _ _ _ _ rest) by (rewrite ?length_app, ?length_drop; done || lia).
  by rewrite write_prefix.
Qed.

Ltac bytes_hyp := match goal with H : Forall is_byte _ |- _ => revert H; rewrite !Forall_cons; tauto end.

(** printing a GUID and parsing the text in mixed form gives the GUID back,
    whatever the destination held before. *)
Theorem guid_mixed_roundtrip g dest : length g = 16%nat -> length dest = 16%nat -> Forall is_byte g ->
  string_to_guid_mixed dest (guid_to_string g) = Ret (Some g).
Proof.
  intros Hg Hd Hb. do 8 (destruct g as [|? g]; [done|]). injection Hg as Hg.
  change (?a :: ?b :: ?c :: ?d :: ?e :: ?f :: ?h :: ?i :: g) with ([a; b; c; d; e; f; h; i] ++ g) in *.
  rewrite guid_to_string_hex by done. apply Forall_bytes_split in Hb as (Ha & Hb & Hc & H2 & H6).
  assert (length (take 2 g) = 2%nat) as L2 by (rewrite length_take; lia).
  assert (length (drop 2 g) = 6%nat) as L6 by (rewrite length_drop; lia).
  match goal with |- context [hex_bytes ?a ++ [45] ++ hex_bytes ?b ++ [45] ++ hex_bytes ?c ++ _] =>
    fold (guid_text a b c (take 2 g) (drop 2 g));
    destruct (guid_text_groups a b c (take 2 g) (drop 2 g)) as (G1 & G2 & G3 & (r & G4) & G5); [done..|];
    pose proof (guid_text_valid a b c (take 2 g) (drop 2 g)) as Hv
  end.
  unfold string_to_guid_mixed. rewrite Hv by done. cbn [negb].
  change dest with ([] ++ drop 0 dest) at 1.
  rewrite (le_append [z; z0; z1; z2] [] dest _ 0) by (done || bytes_hyp || (simpl; lia)). cbn [mbind outcome_bind].
  rewrite (le_append [z3; z4] _ dest _ 4) by (done || bytes_hyp || (simpl; lia)). cbn [mbind outcome_bind].
  rewrite (le_append [z5; z6] _ dest _ 6) by (done || bytes_hyp || (simpl; lia)). cbn [mbind outcome_bind].
  pose proof (be_append (take 2 g) ([z; z0; z1; z2; z3; z4; z5; z6]) dest _ r 8 H2 eq_refl ltac:(lia) G4) as W1.
  pose proof (fun s => be_append (drop 2 g) ([z; z0; z1; z2; z3; z4; z5; z6] ++ take 2 g) dest s [] 10 H6) as W2.
  rewrite L2 in W1. rewrite L6 in W2. change (2 * 2)%nat with 4%nat in W1.
  cbn [app length Nat.add] in W1 |- *. rewrite W1. cbn [mbind outcome_bind].
  cbn [app] in W2. change (2 * 6)%nat with 12%nat in W2. rewrite W2; [|cbn [length]; lia|lia|by rewrite G5, app_nil_r].
  cbn [mbind outcome_bind app]. rewrite (drop_ge dest) by (simpl; lia). by rewrite app_nil_r, take_drop.
Qed.

Lemma guid_mixed_roundtrip_witness :
  string_to_guid_mixed (replicate 16 0) (str "c12a7328-f81f-11d2-ba4b-00a0c93ec93b") =
  Ret (Some [40; 115; 42; 193; 31; 248; 210; 17; 186; 75; 0; 160; 201; 62; 201; 59]).
Proof.
  apply (guid_mixed_roundtrip [40; 115; 42; 193; 31; 248; 210; 17; 186; 75; 0; 160; 201; 62; 201; 59] (replicate 16 0));
    [done|done|]. by repeat constructor.
Defined.
