(* ===== verification/Time.v ===== *)
(** * The calendar

    Models the date arithmetic of lib/time.c ([get_jdn], [get_unix_epoch]) with
    C's truncating division, and shows that it counts the seconds of the
    Gregorian calendar since 1970. *)

From S2P Require Import Prelude.

Definition get_jdn (days months years : Z) : Z :=
  Z.quot (1461 * (years + 4800 + Z.quot (months - 14) 12)) 4 +
  Z.quot (367 * (months - 2 - 12 * Z.quot (months - 14) 12)) 12 -
  Z.quot (3 * Z.quot (years + 4900 + Z.quot (months - 14) 12) 100) 4 +
  days - 32075.

Definition get_unix_epoch (seconds minutes hours days months years : Z) : Z :=
  let jdn_current := u64 (get_jdn days months years) in
  let jdn_1970 := u64 (get_jdn 1 1 1970) in
  let jdn_diff := u64 (jdn_current - jdn_1970) in
  u64 (u64 (jdn_diff * (60 * 60 * 24)) + hours * 3600 + minutes * 60 + seconds).

(** ** The Gregorian calendar *)

Definition leap (y : Z) : Z :=
  if (y `mod` 4 =? 0) && negb (y `mod` 100 =? 0) || (y `mod` 400 =? 0) then 1 else 0.

Definition month_length (y : Z) : list Z :=
  [31; 28 + leap y; 31; 30; 31; 30; 31; 31; 30; 31; 30; 31].

(** The number of days from 1970-01-01 to the first day of a year. *)
Fixpoint days_before_year (k : nat) : Z :=
  match k with
  | O => 0
  | S k => days_before_year k + 365 + leap (1970 + Z.of_nat k)
  end.

(** The number of days from 1970-01-01 to a date. *)
Definition day_number (d m y : Z) : Z :=
  days_before_year (Z.to_nat (y - 1970)) + foldr Z.add 0 (take (Z.to_nat (m - 1)) (month_length y)) + d - 1.

(** ** The Julian day number counts the days *)

Lemma leap_spec y : leap y = y / 4 - (y - 1) / 4 - (y / 100 - (y - 1) / 100) + (y / 400 - (y - 1) / 400).
Proof.
  unfold leap. pose proof (Z.div_mod y 400) as H. set (q := y / 400) in *. set (r := y `mod` 400) in *.
  assert (0 <= r < 400) as Hr by (unfold r; apply Z.mod_pos_bound; lia).
  repeat case_b; cbn [andb orb negb]; Z.div_mod_to_equations; lia.
Qed.

Definition leaps_until (n : Z) : Z := n / 4 - n / 100 + n / 400.

Lemma days_before_year_closed k :
  days_before_year k = 365 * Z.of_nat k + leaps_until (1969 + Z.of_nat k) - leaps_until 1969.
Proof.
  induction k as [|k IH]; [done|]. cbn [days_before_year]. rewrite IH, leap_spec. unfold leaps_until.
  rewrite Nat2Z.inj_succ. replace (1970 + Z.of_nat k - 1) with (1969 + Z.of_nat k) by lia.
  replace (1969 + Z.succ (Z.of_nat k)) with (1970 + Z.of_nat k) by lia. lia.
Qed.

(** One case per month. *)
Ltac month_cases m :=
  let H := fresh in
  assert (m = 1 \/ m = 2 \/ m = 3 \/ m = 4 \/ m = 5 \/ m = 6 \/ m = 7 \/ m = 8 \/ m = 9 \/
          m = 10 \/ m = 11 \/ m = 12) as H by lia;
  destruct_or! H; subst m.

(** The Julian day number with floor division. *)
Lemma get_jdn_floor d m y : 1970 <= y -> 1 <= m <= 12 ->
  get_jdn d m y =
    let a := if m <=? 2 then -1 else 0 in
    1461 * (y + 4800 + a) / 4 + 367 * (m - 2 - 12 * a) / 12 - 3 * ((y + 4900 + a) / 100) / 4 + d - 32075.
Proof.
  intros Hy Hm. unfold get_jdn. replace (Z.quot (m - 14) 12) with (if m <=? 2 then -1 else 0).
  2:{ by month_cases m. }
  cbv zeta. set (a := if m <=? 2 then -1 else 0). assert (-1 <= a <= 0) by (unfold a; case_b; lia).
  assert (0 <= m - 2 - 12 * a) by (unfold a in *; case_b; lia).
  rewrite (Z.quot_div_nonneg (y + 4900 + a) 100) by lia.
  pose proof (Z.div_pos (y + 4900 + a) 100 ltac:(lia) ltac:(lia)).
  by rewrite !Z.quot_div_nonneg by lia.
Qed.

Lemma jdn_counts_days d m y : 1970 <= y -> 1 <= m <= 12 ->
  get_jdn d m y - get_jdn 1 1 1970 = day_number d m y.
Proof.
  intros Hy Hm. change (get_jdn 1 1 1970) with 2440588. rewrite get_jdn_floor by done. unfold day_number.
  rewrite days_before_year_closed, Z2Nat.id by lia. replace (1969 + (y - 1970)) with (y - 1) by lia.
  unfold leaps_until, month_length. change (1969 / 4 - 1969 / 100 + 1969 / 400) with 477. rewrite leap_spec.
  month_cases m;
    match goal with |- context [Z.to_nat (?a - 1)] =>
      let n := eval vm_compute in (Z.to_nat (a - 1)) in change (Z.to_nat (a - 1)) with n;
      let b := eval vm_compute in (a <=? 2) in change (a <=? 2) with b
    end; cbn [take foldr]; cbv iota zeta; Z.div_mod_to_equations; lia.
Qed.

Lemma leap_range y : 0 <= leap y <= 1.
Proof. unfold leap. destruct (_ || _); lia. Qed.

Lemma day_number_range d m y : 1 <= d <= 31 -> 1 <= m <= 12 -> 1970 <= y ->
  0 <= day_number d m y <= 366 * (y - 1970) + 397.
Proof.
  intros Hd Hm Hy. unfold day_number.
  assert (0 <= days_before_year (Z.to_nat (y - 1970)) <= 366 * (y - 1970)) as Hb.
  { replace (366 * (y - 1970)) with (366 * Z.of_nat (Z.to_nat (y - 1970))) by lia. generalize (Z.to_nat (y - 1970)) as k.
    induction k as [|k IH]; [simpl; lia|]. cbn [days_before_year]. pose proof (leap_range (1970 + Z.of_nat k)). lia. }
  assert (0 <= foldr Z.add 0 (take (Z.to_nat (m - 1)) (month_length y)) <= 366) as Hs.
  { pose proof (leap_range y). unfold month_length. month_cases m;
    match goal with |- context [Z.to_nat (?a - 1)] =>
      let n := eval vm_compute in (Z.to_nat (a - 1)) in change (Z.to_nat (a - 1)) with n
    end; cbn [take foldr]; lia. }
  lia.
Qed.

(** [get_unix_epoch] is the number of seconds of the Gregorian calendar from
    1970-01-01 00:00:00 to the given date and time, for every date from 1970 on
    that a 16-bit year can name. *)
Theorem unix_epoch_correct seconds minutes hours days months years :
  0 <= seconds < 60 -> 0 <= minutes < 60 -> 0 <= hours < 24 ->
  1 <= days <= 31 -> 1 <= months <= 12 -> 1970 <= years < 65536 ->
  get_unix_epoch seconds minutes hours days months years =
  day_number days months years * 86400 + hours * 3600 + minutes * 60 + seconds.
Proof.
  intros Hs Hmi Hh Hd Hm Hy. pose proof (jdn_counts_days days months years ltac:(lia) Hm) as Hj.
  pose proof (day_number_range days months years Hd Hm ltac:(lia)) as Hr.
  unfold get_unix_epoch. change (u64 (get_jdn 1 1 1970)) with 2440588.
  change (get_jdn 1 1 1970) with 2440588 in Hj.
  rewrite (u64_small (get_jdn _ _ _)), (u64_small (_ - _)), (u64_small (_ * _)), u64_small; lia.
Qed.

Lemma unix_epoch_correct_witness : get_unix_epoch 40 46 1 9 9 2001 = 1000000000.
Proof. by rewrite unix_epoch_correct. Defined.
