(* ===== verification/Fat32.v ===== *)
(** * The FAT file system: common/fs/fat32.s2.c

    Every function of the driver, on the volume reads of Volume.v.  The context
    is a record without the volume, which is threaded; a NULL directory is the
    root directory of FAT12 and FAT16.  Directory entries are their 32 bytes.
    Memory obtained from [ext_mem_alloc] is zeroed and its exhaustion is a panic
    of the allocator, not modelled here; frees have no effect on the results. *)

From S2P Require Import Prelude Bytes Libc Volume.

Definition FAT32_LFN_MAX_FILENAME_LENGTH : nat := 261.

Definition FAT32_ATTRIBUTE_SUBDIRECTORY : Z := 16.
Definition FAT32_LFN_ATTRIBUTE : Z := 15.
Definition FAT32_ATTRIBUTE_VOLLABEL : Z := 8.

Record fat32_context := {
  type : Z;
  label : option (list Z);
  bytes_per_sector : Z;
  sectors_per_cluster : Z;
  reserved_sectors : Z;
  number_of_fats : Z;
  hidden_sectors : Z;
  sectors_per_fat : Z;
  fat_start_lba : Z;
  data_start_lba : Z;
  root_directory_cluster : Z;
  root_entries : Z;
  root_start : Z;
  root_size : Z
}.

Definition set_label (c : fat32_context) (l : option (list Z)) : fat32_context :=
  {| type := c.(type); label := l; bytes_per_sector := c.(bytes_per_sector);
     sectors_per_cluster := c.(sectors_per_cluster); reserved_sectors := c.(reserved_sectors);
     number_of_fats := c.(number_of_fats); hidden_sectors := c.(hidden_sectors);
     sectors_per_fat := c.(sectors_per_fat); fat_start_lba := c.(fat_start_lba);
     data_start_lba := c.(data_start_lba); root_directory_cluster := c.(root_directory_cluster);
     root_entries := c.(root_entries); root_start := c.(root_start); root_size := c.(root_size) |}.

(** [struct fat32_bpb]: the fields the driver reads, at their packed offsets. *)
Record fat32_bpb := {
  bpb_bytes_per_sector : Z;
  bpb_sectors_per_cluster : Z;
  bpb_reserved_sectors : Z;
  bpb_fats_count : Z;
  bpb_root_entries_count : Z;
  bpb_sectors_count_16 : Z;
  bpb_sectors_per_fat_16 : Z;
  bpb_hidden_sectors_count : Z;
  bpb_sectors_count_32 : Z;
  bpb_sectors_per_fat_32 : Z;
  bpb_root_directory_cluster : Z
}.

Definition load_bpb (bs : list Z) : fat32_bpb :=
  {| bpb_bytes_per_sector := field 11 2 bs;
     bpb_sectors_per_cluster := field 13 1 bs;
     bpb_reserved_sectors := field 14 2 bs;
     bpb_fats_count := field 16 1 bs;
     bpb_root_entries_count := field 17 2 bs;
     bpb_sectors_count_16 := field 19 2 bs;
     bpb_sectors_per_fat_16 := field 22 2 bs;
     bpb_hidden_sectors_count := field 28 4 bs;
     bpb_sectors_count_32 := field 32 4 bs;
     bpb_sectors_per_fat_32 := field 36 4 bs;
     bpb_root_directory_cluster := field 44 4 bs |}.

(** [struct fat32_directory_entry] *)
Definition entry_name (e : list Z) : list Z := slice 0 11 e.
Definition entry_attribute (e : list Z) : Z := field 11 1 e.
Definition cluster_num_high (e : list Z) : Z := field 20 2 e.
Definition cluster_num_low (e : list Z) : Z := field 26 2 e.
Definition file_size_bytes (e : list Z) : Z := field 28 4 e.

(** [struct fat32_lfn_entry] *)
Definition lfn_sequence_number (e : list Z) : Z := field 0 1 e.
Definition lfn_name1 (e : list Z) : list Z := slice 1 10 e.
Definition lfn_name2 (e : list Z) : list Z := slice 14 12 e.
Definition lfn_name3 (e : list Z) : list Z := slice 28 4 e.

Definition block_size (ctx : fat32_context) : Z := ctx.(sectors_per_cluster) * ctx.(bytes_per_sector).

(** ** Names *)

(** [fat32_lfncpy]: the low bytes of UCS-2 characters, within the destination. *)
Fixpoint fat32_lfncpy (destination : list Z) (dest_offset : nat) (source : list Z) (size : nat) : list Z :=
  match size with
  | O => destination
  | S size =>
      if (length destination <=? dest_offset)%nat then destination
      else fat32_lfncpy (<[dest_offset := hd0 source]> destination) (S dest_offset) (drop 2 source) size
  end.

(** The loop of [fat32_filename_to_8_3]; [None]: give up. *)
Fixpoint to_8_3_loop (dest : list Z) (src : list Z) (j : nat) (ext : bool) : option (list Z) :=
  match src with
  | [] => Some dest
  | c :: src' =>
      if c =? 0 then Some dest
      else if c =? 46 then
        if ext then None else to_8_3_loop dest src' 8 true
      else if (11 <=? j)%nat || ((8 <=? j)%nat && negb ext) then None
      else to_8_3_loop (<[j := toupper c]> dest) src' (S j) ext
  end.
Definition fat32_filename_to_8_3 (src : list Z) : option (list Z) :=
  to_8_3_loop (replicate 11 32) src 0 false.

(** Trailing spaces of a volume label become NUL. *)
Fixpoint strip_label (j : nat) (r : list Z) : list Z :=
  match j with
  | O => r
  | S j => if nth j r 0 =? 32 then strip_label j (<[j := 0]> r) else r
  end.

(** The NUL that ends a long name goes after its last character that is not a space. *)
Fixpoint trim_lfn (k : nat) (lfn : list Z) : list Z :=
  match k with
  | O => <[0%nat := 0]> lfn
  | S j => if negb (nth j lfn 0 =? 32) then <[k := 0]> lfn else trim_lfn j lfn
  end.

(** ** The file allocation table *)

Section fat.
Context `{Disk}.
(** [case_insensitive_fopen] *)
Context (case_insensitive_fopen : bool).

(** [read_cluster_from_map]: the entry of [cluster], [None] for -1. *)
Definition read_cluster_from_map (ctx : fat32_context) (cluster : Z) : VM (option Z) :=
  let fat_base := ctx.(fat_start_lba) * ctx.(bytes_per_sector) in
  let fat_size := ctx.(sectors_per_fat) * ctx.(bytes_per_sector) in
  if ctx.(type) =? 12 then
    let offset := cluster + cluster / 2 in
    if fat_size <? offset + 2 then mret None
    else
      r ← vread (fat_base + offset) 2;
      mret (match r with
            | None => None
            | Some bs =>
                let tmp := le_load bs in
                Some (if cluster `mod` 2 =? 0 then Z.land tmp 4095 else Z.shiftr tmp 4)
            end)
  else if ctx.(type) =? 16 then
    let offset := cluster * 2 in
    if fat_size <? offset + 2 then mret None
    else
      r ← vread (fat_base + offset) 2;
      mret (le_load <$> r)
  else
    let offset := cluster * 4 in
    if fat_size <? offset + 4 then mret None
    else
      r ← vread (fat_base + offset) 4;
      mret ((fun bs => Z.land (le_load bs) 268435455) <$> r).

Definition FAT32_MAX_CHAIN_LENGTH : Z := 16777216.

Definition cluster_limit (ctx : fat32_context) : Z :=
  Z.lor (Z.lor (if ctx.(type) =? 12 then 4079 else 0) (if ctx.(type) =? 16 then 65519 else 0))
        (if ctx.(type) =? 32 then 268435439 else 0).

Definition max_clusters (ctx : fat32_context) : Z :=
  if FAT32_MAX_CHAIN_LENGTH <? cluster_limit ctx - 1 then FAT32_MAX_CHAIN_LENGTH
  else cluster_limit ctx - 1.

(** The counting loop; [k] iterations are left. *)
Fixpoint count_chain (k : nat) (ctx : fat32_context) (cluster chain_length : Z) : VM (option Z) :=
  match k with
  | O => mret None
  | S k =>
      r ← read_cluster_from_map ctx cluster;
      match r with
      | None => mret None
      | Some cluster =>
          if (cluster <? 2) || (cluster_limit ctx <? cluster) then mret (Some chain_length)
          else count_chain k ctx cluster (chain_length + 1)
      end
  end.

(** The filling loop. *)
Fixpoint fill_chain (k : nat) (ctx : fat32_context) (cluster : Z) : VM (option (list Z)) :=
  match k with
  | O => mret (Some [])
  | S k =>
      r ← read_cluster_from_map ctx cluster;
      match r with
      | None => mret None
      | Some next =>
          rest ← fill_chain k ctx next;
          mret (cons cluster <$> rest)
      end
  end.

(** [cache_cluster_chain]: the chain, [None] for NULL. *)
Definition cache_cluster_chain (ctx : fat32_context) (initial_cluster : Z) : VM (option (list Z)) :=
  if (initial_cluster <? 2) || (cluster_limit ctx <? initial_cluster) then mret None
  else
    r ← count_chain (Z.to_nat (max_clusters ctx)) ctx initial_cluster 1;
    match r with
    | None => mret None
    | Some chain_length =>
        match mul_overflow chain_length 4 with
        | None => mret None
        | Some alloc_size => fill_chain (Z.to_nat chain_length) ctx initial_cluster
        end
    end.

(** The loop of [read_cluster_chain]: the buffer, [None] for [false]. *)
Fixpoint chain_loop (fuel : nat) (ctx : fat32_context) (cluster_chain : list Z)
    (buf : list Z) (loc count progress : Z) : VM (option (list Z)) :=
  if progress <? count then
    match fuel with
    | O => lift Diverge
    | S fuel =>
        let bs := block_size ctx in
        let pos := u64 (loc + progress) in
        match cluster_chain !! Z.to_nat (pos / bs) with
        | None => mret None
        | Some cluster =>
            if cluster <? 2 then mret None
            else
              let offset := pos `mod` bs in
              let chunk := if bs - offset <? count - progress then bs - offset else count - progress in
              let base := u64 ((ctx.(data_start_lba) + (cluster - 2) * ctx.(sectors_per_cluster)) * ctx.(bytes_per_sector)) in
              r ← vread (u64 (base + offset)) chunk;
              match r with
              | None => mret None
              | Some bytes =>
                  buf ← lift (blit buf (Z.to_nat progress) bytes);
                  chain_loop fuel ctx cluster_chain buf loc count (progress + chunk)
              end
        end
    end
  else mret (Some buf).

Definition read_cluster_chain (ctx : fat32_context) (cluster_chain : list Z)
    (buf : list Z) (loc count : Z) : VM (option (list Z)) :=
  if (0 <? count) && (block_size ctx =? 0) then lift Undef
  else chain_loop (Z.to_nat (count / block_size ctx + 2)) ctx cluster_chain buf loc count 0.

(** ** Directories *)

(** What [fat32_open_in] stores through its output pointer. *)
Inductive found := FoundLabel (l : list Z) | FoundFile (entry : list Z).

(** The first [k] entries of a directory buffer. *)
Fixpoint entries (k : nat) (buf : list Z) : list (list Z) :=
  match k with
  | O => []
  | S k => take 32 buf :: entries k (drop 32 buf)
  end.

(** One long-name entry: the new name buffer, and whether it is complete. *)
Definition lfn_step (lfn e : list Z) : list Z * bool :=
  let seq := lfn_sequence_number e in
  let lfn := if negb (Z.land seq 64 =? 0) then replicate FAT32_LFN_MAX_FILENAME_LENGTH 32 else lfn in
  let seq_num := Z.land seq 31 in
  if seq_num =? 0 then (lfn, false)
  else
    let lfn_index := (seq_num - 1) * 13 in
    if 260 <=? lfn_index then (lfn, false)
    else
      let at_ := Z.to_nat lfn_index in
      let lfn := fat32_lfncpy lfn (at_ + 0) (lfn_name1 e) 5 in
      let lfn := fat32_lfncpy lfn (at_ + 5) (lfn_name2 e) 6 in
      let lfn := fat32_lfncpy lfn (at_ + 11) (lfn_name3 e) 2 in
      if negb (lfn_index =? 0) then (lfn, false) else (trim_lfn 260 lfn, true).

Definition names_match (a b : list Z) : bool :=
  (if case_insensitive_fopen then strcasecmp a b else strcmp a b) =? 0.

(** The scan of the directory for a name. *)
Fixpoint scan_file (es : list (list Z)) (lfn name : list Z) : option found :=
  match es with
  | [] => None
  | e :: es' =>
      if hd0 (entry_name e) =? 0 then None
      else
        let sfn lfn :=
          if negb (Z.land (entry_attribute e) 8 =? 0) then scan_file es' lfn name
          else match fat32_filename_to_8_3 name with
               | None => scan_file es' lfn name
               | Some fn => if strncmp (entry_name e) fn 11 =? 0 then Some (FoundFile e)
                            else scan_file es' lfn name
               end in
        if entry_attribute e =? FAT32_LFN_ATTRIBUTE then
          let '(lfn, complete) := lfn_step lfn e in
          if negb complete then scan_file es' lfn name
          else if names_match lfn name then
            match es' with
            | [] => None
            | sfn_entry :: _ =>
                if (hd0 (entry_name sfn_entry) =? 0) || (hd0 (entry_name sfn_entry) =? 229)
                   || (entry_attribute sfn_entry =? FAT32_LFN_ATTRIBUTE) then None
                else Some (FoundFile sfn_entry)
            end
          else sfn lfn
        else sfn lfn
  end.

(** The scan for the volume label. *)
Fixpoint scan_label (es : list (list Z)) : option found :=
  match es with
  | [] => None
  | e :: es' =>
      if hd0 (entry_name e) =? 0 then None
      else if negb (entry_attribute e =? FAT32_ATTRIBUTE_VOLLABEL) then scan_label es'
      else Some (FoundLabel (cstring (strip_label 11 (entry_name e ++ [0]))))
  end.

Definition MAX_DIRECTORY : Z := 256 * 1024 * 1024.

(** The directory's entries as bytes, and the number of bytes; [None] for -1. *)
Definition read_directory (ctx : fat32_context) (directory : option (list Z)) : VM (option (list Z)) :=
  let bs := block_size ctx in
  match directory with
  | Some dir =>
      let current_cluster_number :=
        if ctx.(type) =? 32 then Z.lor (cluster_num_low dir) (Z.shiftl (cluster_num_high dir) 16)
        else cluster_num_low dir in
      r ← cache_cluster_chain ctx current_cluster_number;
      match r with
      | None => mret None
      | Some directory_cluster_chain =>
          match mul_overflow (Z.of_nat (length directory_cluster_chain)) bs with
          | None => mret None
          | Some alloc_size =>
              if MAX_DIRECTORY <? alloc_size then mret None
              else read_cluster_chain ctx directory_cluster_chain
                     (replicate (Z.to_nat alloc_size) 0) 0 alloc_size
          end
      end
  | None =>
      let dir_chain_len := DIV_ROUNDUP (ctx.(root_entries) * 32) bs in
      match mul_overflow dir_chain_len bs with
      | None => mret None
      | Some alloc_size =>
          if MAX_DIRECTORY <? alloc_size then mret None
          else
            r ← vread (ctx.(root_start) * ctx.(bytes_per_sector)) (ctx.(root_entries) * 32);
            match r with
            | None => mret None
            | Some bytes =>
                buf ← lift (blit (replicate (Z.to_nat alloc_size) 0) 0 bytes);
                mret (Some buf)
            end
      end
  end.

(** [fat32_open_in(context, directory, file, name)]: [None] for -1; [name] is
    [None] for NULL, which asks for the volume label. *)
Definition fat32_open_in (ctx : fat32_context) (directory : option (list Z)) (name : option (list Z))
    : VM (option found) :=
  r ← read_directory ctx directory;
  mret (match r with
        | None => None
        | Some buf =>
            let es := entries (Z.to_nat (Z.of_nat (length buf) / 32)) buf in
            match name with
            | None => scan_label es
            | Some name => scan_file es (replicate FAT32_LFN_MAX_FILENAME_LENGTH 0) name
            end
        end).

(** ** Opening a file system and its files *)

(** The signature test of [fat32_init_context]. *)
Definition bpb_signature_valid (bpb : list Z) : bool :=
  (strncmp (drop 54 bpb) (str "FAT") 3 =? 0) ||
  (strncmp (drop 82 bpb) (str "FAT") 3 =? 0) ||
  (strncmp (drop 3 bpb) (str "FAT32") 5 =? 0).

Definition root_directory (ctx : fat32_context) : option (list Z) :=
  if ctx.(type) =? 32 then
    Some (replicate 20 0 ++ le_store 2 (Z.shiftr ctx.(root_directory_cluster) 16) ++ replicate 4 0 ++
          le_store 2 (Z.land ctx.(root_directory_cluster) 65535) ++ replicate 4 0)
  else None.

(** The context a parameter block describes, before its label is known;
    [None] when the driver refuses it. *)
Definition bpb_context (bs : list Z) : option fat32_context :=
  let bpb := load_bpb bs in
  let bps := bpb.(bpb_bytes_per_sector) in
  let spc := bpb.(bpb_sectors_per_cluster) in
  if negb (bpb_signature_valid bs) then None
  else if negb (bool_decide (spc ∈ [1; 2; 4; 8; 16; 32; 64; 128])) then None
  else if negb (bool_decide (bps ∈ [512; 1024; 2048; 4096])) then None
  else if (bpb.(bpb_fats_count) =? 0) || (4 <? bpb.(bpb_fats_count)) then None
  else if bpb.(bpb_reserved_sectors) =? 0 then None
  else
    let root_dir_sects := (bpb.(bpb_root_entries_count) * 32 + (bps - 1)) / bps in
    let total_sects := if negb (bpb.(bpb_sectors_count_16) =? 0) then bpb.(bpb_sectors_count_16)
                       else bpb.(bpb_sectors_count_32) in
    let fat_sects := if negb (bpb.(bpb_sectors_per_fat_16) =? 0) then bpb.(bpb_sectors_per_fat_16)
                     else bpb.(bpb_sectors_per_fat_32) in
    let metadata_sects := bpb.(bpb_reserved_sectors) + bpb.(bpb_fats_count) * fat_sects + root_dir_sects in
    if total_sects <=? metadata_sects then None
    else
      let clusters_count := (total_sects - metadata_sects) / spc in
      let type := if clusters_count <? 4085 then 12 else if clusters_count <? 65525 then 16 else 32 in
      let sectors_per_fat := if type =? 32 then bpb.(bpb_sectors_per_fat_32) else bpb.(bpb_sectors_per_fat_16) in
      if sectors_per_fat =? 0 then None
      else if negb (type =? 32) && (bpb.(bpb_root_entries_count) =? 0) then None
      else
        let root_start := bpb.(bpb_reserved_sectors) + bpb.(bpb_fats_count) * sectors_per_fat in
        if W32 - 1 <? root_start then None
        else
          let root_size := u32 (DIV_ROUNDUP (bpb.(bpb_root_entries_count) * 32) bps) in
          let data_start := if type =? 32 then root_start else root_start + root_size in
          if W32 <=? data_start then None
          else Some
            {| type := type; label := None; bytes_per_sector := bps; sectors_per_cluster := spc;
               reserved_sectors := bpb.(bpb_reserved_sectors); number_of_fats := bpb.(bpb_fats_count);
               hidden_sectors := bpb.(bpb_hidden_sectors_count); sectors_per_fat := sectors_per_fat;
               fat_start_lba := bpb.(bpb_reserved_sectors); data_start_lba := data_start;
               root_directory_cluster := bpb.(bpb_root_directory_cluster);
               root_entries := bpb.(bpb_root_entries_count); root_start := root_start;
               root_size := root_size |}.

(** [fat32_init_context]: [None] for 1. *)
Definition fat32_init_context : VM (option fat32_context) :=
  r ← vread 0 512;
  match r ≫= bpb_context with
  | None => mret None
  | Some ctx =>
      vol_label ← fat32_open_in ctx (root_directory ctx) None;
      mret (Some (set_label ctx (match vol_label with Some (FoundLabel l) => Some l | _ => None end)))
  end.

Definition fat32_get_label : VM (option (list Z)) :=
  ctx ← fat32_init_context;
  mret (ctx ≫= label).

Record fat32_file_handle := {
  context : fat32_context;
  first_cluster : Z;
  size_bytes : Z;
  cluster_chain : list Z   (** empty for NULL; [chain_len] is its length *)
}.

(** One component of a path: its characters up to a slash or the end, at most
    260 of them; [idx] is the index of the next character in the path. *)
Inductive component :=
| TooLong
| Last (part : list Z)
| Directory (part rest : list Z) (idx : Z).

Fixpoint path_component (k : nat) (path part : list Z) (idx : Z) : component :=
  match k with
  | O => TooLong
  | S k =>
      if W32 <=? idx then TooLong
      else if hd0 path =? 0 then Last (reverse part)
      else if hd0 path =? 47 then
        if W32 <=? idx + 1 then TooLong else Directory (reverse part) (tl0 path) (idx + 1)
      else path_component k (tl0 path) (hd0 path :: part) (idx + 1)
  end.

Fixpoint skip_slashes (path : list Z) (idx : Z) : list Z * Z :=
  match path with
  | c :: path' => if c =? 47 then skip_slashes path' (idx + 1) else (path, idx)
  | [] => (path, idx)
  end.

(** The walk down the directory tree. *)
Fixpoint walk (fuel : nat) (ctx : fat32_context) (current_directory : option (list Z))
    (path : list Z) (idx : Z) : VM (option fat32_file_handle) :=
  match fuel with
  | O => lift Diverge
  | S fuel =>
      match path_component 260 path [] idx with
      | TooLong => mret None
      | Last part =>
          r ← fat32_open_in ctx current_directory (Some part);
          match r with
          | Some (FoundFile current_file) =>
              let first := if ctx.(type) =? 32
                           then Z.lor (cluster_num_low current_file) (Z.shiftl (cluster_num_high current_file) 16)
                           else cluster_num_low current_file in
              let size := file_size_bytes current_file in
              chain ← cache_cluster_chain ctx first;
              match chain with
              | None => if negb (size =? 0) then mret None
                        else mret (Some {| context := ctx; first_cluster := first; size_bytes := size; cluster_chain := [] |})
              | Some chain =>
                  mret (Some {| context := ctx; first_cluster := first; size_bytes := size; cluster_chain := chain |})
              end
          | _ => mret None
          end
      | Directory part rest idx =>
          r ← fat32_open_in ctx current_directory (Some part);
          match r with
          | Some (FoundFile current_file) =>
              if Z.land (entry_attribute current_file) FAT32_ATTRIBUTE_SUBDIRECTORY =? 0 then mret None
              else walk fuel ctx (Some current_file) rest idx
          | _ => mret None
          end
      end
  end.

Definition fat32_open (path : list Z) : VM (option fat32_file_handle) :=
  ctx ← fat32_init_context;
  match ctx with
  | None => mret None
  | Some ctx =>
      let '(path, idx) := skip_slashes path 0 in
      walk (S (length path)) ctx (root_directory ctx) path idx
  end.

Definition fat32_read (f : fat32_file_handle) (buf : list Z) (loc count : Z) : VM (list Z) :=
  r ← read_cluster_chain f.(context) f.(cluster_chain) buf loc count;
  match r with
  | Some buf => mret buf
  | None => vpanic "fat32: cluster chain read failed (corrupted filesystem?)"
  end.
End fat.
