(* ===== verification/Fat32Spec.v ===== *)
(** * The FAT driver

    The chains and contents that the allocation table describes, and the safety of the
    driver on volumes of arbitrary geometry. *)

From S2P Require Import Prelude Bytes Volume VolumeSpec VolumeLogic Libc Fat32.

(** * Correctness of the FAT driver

    The file allocation table is read as the little-endian integer of the table's
    bytes, cut into fields of 12, 16 or 32 bits; cluster chains and file contents
    are those this table describes. *)

(** ** Contexts the driver accepts *)

Record ctx_ok (ctx : fat32_context) : Prop := {
  co_type : ctx.(type) = 12 \/ ctx.(type) = 16 \/ ctx.(type) = 32;
  co_bps : 512 <= ctx.(bytes_per_sector) <= 4096;
  co_spc : 1 <= ctx.(sectors_per_cluster) <= 128;
  co_fat : 0 <= ctx.(fat_start_lba) < W16;
  co_spf : 0 < ctx.(sectors_per_fat) < W32;
  co_data : 0 <= ctx.(data_start_lba) < W32;
  co_root : 0 <= ctx.(root_entries) < W16 /\ 0 <= ctx.(root_start) < W32
}.

Lemma bpb_context_ok bs ctx : Forall is_byte bs -> bpb_context bs = Some ctx -> ctx_ok ctx.
Proof.
  intros Hb. unfold bpb_context. cbv zeta.
  pose proof (field_range 14 2 bs Hb) as H14. pose proof (field_range 16 1 bs Hb) as H16.
  pose proof (field_range 17 2 bs Hb) as H17. pose proof (field_range 22 2 bs Hb) as H22.
  pose proof (field_range 36 4 bs Hb) as H36.
  change (W8 ^ Z.of_nat 1) with 256 in *. change (W8 ^ Z.of_nat 2) with 65536 in *.
  change (W8 ^ Z.of_nat 4) with 4294967296 in *.
  cbn [load_bpb bpb_bytes_per_sector bpb_sectors_per_cluster bpb_fats_count bpb_reserved_sectors bpb_root_entries_count
       bpb_sectors_count_16 bpb_sectors_count_32 bpb_sectors_per_fat_16 bpb_sectors_per_fat_32
       bpb_hidden_sectors_count bpb_root_directory_cluster].
  destruct (bpb_signature_valid bs); cbn [negb]; [|done].
  case_bool_decide as Hspc; cbn [negb]; [|done]. case_bool_decide as Hbps; cbn [negb]; [|done].
  destruct ((_ =? 0) || (4 <? _)) eqn:Efats; [done|]. apply orb_false_iff in Efats as [Ef1%Z.eqb_neq Ef2%Z.ltb_ge].
  split_eqb (field 14 2 bs) 0; [done|].
  set (total := if negb (field 19 2 bs =? 0) then _ else _). set (meta := _ + _ + _).
  destruct (total <=? meta) eqn:Etot; [done|].
  set (ty := if _ <? 4085 then 12 else _).
  assert (ty = 12 \/ ty = 16 \/ ty = 32) as Hty by (unfold ty; repeat case_match; auto).
  set (spf := if ty =? 32 then field 36 4 bs else _).
  assert (0 <= spf < W32) as Hspf by (unfold spf; case_b; lia).
  split_eqb spf 0; [done|]. destruct (negb (ty =? 32) && _); [done|].
  split_ltb (W32 - 1) (field 14 2 bs + field 16 1 bs * spf); [done|].
  set (rs := u32 _). assert (0 <= rs) by (apply u32_range).
  set (ds := if ty =? 32 then _ else _).
  assert (0 <= ds) by (unfold ds; case_match; nia).
  split_leb (W32%Z) ds; [done|]. intros [= <-].
  split; simpl; try lia.
  - clear -Hbps. set_unfold. lia.
  - clear -Hspc. set_unfold. lia.
Qed.

(** ** The table *)

(** The width of an entry in bits, the bits of it that number a cluster, and
    where the table lies. *)
Definition entry_bits (ctx : fat32_context) : Z := ctx.(type).
Definition number_bits (ctx : fat32_context) : Z := if ctx.(type) =? 32 then 28 else ctx.(type).
Definition fat_base (ctx : fat32_context) : Z := ctx.(fat_start_lba) * ctx.(bytes_per_sector).
Definition fat_size (ctx : fat32_context) : Z := ctx.(sectors_per_fat) * ctx.(bytes_per_sector).

(** The table as one little-endian integer, and its entry for cluster [c]. *)
Definition fat_table (ctx : fat32_context) (f : Z -> Z) : Z :=
  le_load (bytes_at f (fat_base ctx) (Z.to_nat (fat_size ctx))).
Definition fat_entry (ctx : fat32_context) (f : Z -> Z) (c : Z) : Z :=
  (fat_table ctx f / 2 ^ (entry_bits ctx * c)) `mod` 2 ^ number_bits ctx.

(** The entry of cluster [c] lies in the table. *)
Definition in_table (ctx : fat32_context) (c : Z) : Prop :=
  entry_bits ctx * (c + 1) <= 8 * fat_size ctx.

Lemma bytes_at_bytes f off n : (forall i, is_byte (f i)) -> Forall is_byte (bytes_at f off n).
Proof. intros Hf. unfold bytes_at. apply Forall_fmap, Forall_true. intros i. apply Hf. Qed.

(** [n] bytes of the table at byte [k], shifted right by [s] bits and masked. *)
Lemma table_field ctx f k n s w : (forall i, is_byte (f i)) -> 0 <= k -> 0 <= s -> 0 <= w ->
  s + w <= 8 * Z.of_nat n -> k + Z.of_nat n <= fat_size ctx ->
  (le_load (bytes_at f (fat_base ctx + k) n) / 2 ^ s) `mod` 2 ^ w =
  (fat_table ctx f / 2 ^ (8 * k + s)) `mod` 2 ^ w.
Proof.
  intros Hf Hk Hs Hw Hn Hfit. unfold fat_table.
  pose proof (slice_bytes_at f (fat_base ctx) (Z.to_nat (fat_size ctx)) (Z.to_nat k) n ltac:(lia)) as Hsl.
  rewrite (Z2Nat.id k) in Hsl by lia. rewrite <- Hsl.
  rewrite <- le_load_slice; [|by apply bytes_at_bytes|rewrite length_bytes_at; lia].
  set (t := le_load _). rewrite (Z2Nat.id k) by lia. change W8 with (2 ^ 8).
  rewrite <- !Z.pow_mul_r by lia. rewrite Z.pow_add_r, <- Z.div_div by (try apply Z.pow_pos_nonneg; lia).
  apply Z.bits_inj'. intros i Hi. destruct (decide (i < w)).
  - rewrite !Z.mod_pow2_bits_low by lia. rewrite <- !Z.shiftr_div_pow2 by lia.
    rewrite !Z.shiftr_spec by lia. by rewrite Z.mod_pow2_bits_low, Z.shiftr_spec by lia.
  - by rewrite !Z.mod_pow2_bits_high by lia.
Qed.

Section table.
Context `{D : Disk} {media : Z -> Z -> Z} `{!DiskSpec D media}.
Implicit Types v : volume.

#[local] Abbreviation contents := (content (media := media)).
#[local] Abbreviation run := (runs (media := media)).

Lemma content_byte v i : is_byte (contents v i).
Proof. unfold content. apply (media_byte (D := D)). Qed.

(** What reading the entry of a cluster gives. *)
Definition entry_result (ctx : fat32_context) v (c : Z) (r : option Z) : Prop :=
  match r with
  | Some x => in_table ctx c /\ x = fat_entry ctx (contents v) c
  | None => ~ (in_table ctx c /\ readable v (fat_base ctx) (fat_size ctx))
  end.

Lemma readable_sub v loc n loc' n' : 0 < n' -> loc <= loc' -> loc' + n' <= loc + n -> readable v loc n -> readable v loc' n'.
Proof.
  intros Hn Hl He (Hh & Ha & Hb & Hin). split_and!; [done|done|lia|].
  destruct Hin as [?|[? ?]]; [by left|right; lia].
Qed.

(** The three ways the driver extracts an entry from the bytes at its offset. *)
Lemma entry_12 ctx v c : ctx.(type) = 12 -> 0 <= c -> c + c / 2 + 2 <= fat_size ctx ->
  (let tmp := le_load (bytes_at (contents v) (fat_base ctx + (c + c / 2)) 2) in
   if c `mod` 2 =? 0 then Z.land tmp 4095 else Z.shiftr tmp 4) = fat_entry ctx (contents v) c.
Proof.
  intros Ht Hc Hfit. unfold fat_entry, entry_bits, number_bits. rewrite Ht. cbn [Z.eqb Pos.eqb].
  pose proof (Z.div_pos c 2 Hc ltac:(lia)).
  pose proof (table_field ctx (contents v) (c + c / 2) 2) as Hf.
  pose proof (le_load_range (bytes_at (contents v) (fat_base ctx + (c + c / 2)) 2)
    (bytes_at_bytes _ _ _ (content_byte v))) as Hr. rewrite length_bytes_at in Hr.
  pose proof (Z.div_mod c 2 ltac:(lia)) as Hdm. pose proof (Z.mod_pos_bound c 2 ltac:(lia)).
  split_eqb (c `mod` 2) 0; cbv zeta.
  - change 4095 with (Z.ones 12). rewrite Z.land_ones by lia.
    specialize (Hf 0 12 (content_byte v) ltac:(lia) ltac:(lia) ltac:(lia) ltac:(lia) ltac:(lia)).
    rewrite Z.div_1_r in Hf. rewrite Hf. do 3 f_equal. lia.
  - rewrite Z.shiftr_div_pow2 by lia.
    specialize (Hf 4 12 (content_byte v) ltac:(lia) ltac:(lia) ltac:(lia) ltac:(lia) ltac:(lia)).
    replace (12 * c) with (8 * (c + c / 2) + 4) by lia. rewrite <- Hf. symmetry. apply Z.mod_small.
    split; [apply Z.div_pos; lia|]. apply Z.div_lt_upper_bound; [lia|]. apply Hr.
Qed.

Lemma entry_aligned ctx v c n w : ctx.(type) = 8 * Z.of_nat n -> number_bits ctx = w -> 0 <= w <= ctx.(type) ->
  0 <= c -> c * Z.of_nat n + Z.of_nat n <= fat_size ctx ->
  le_load (bytes_at (contents v) (fat_base ctx + c * Z.of_nat n) n) `mod` 2 ^ w = fat_entry ctx (contents v) c.
Proof.
  intros Ht Hw Hle Hc Hfit. unfold fat_entry, entry_bits. rewrite Hw, Ht.
  pose proof (table_field ctx (contents v) (c * Z.of_nat n) n 0 w (content_byte v)) as Hf.
  rewrite Z.div_1_r in Hf. rewrite Hf by lia. do 3 f_equal. lia.
Qed.

Lemma runs_entry E ctx v c : ctx_ok ctx -> 0 <= c < W32 ->
  run E v (read_cluster_from_map ctx c) (entry_result ctx v c).
Proof.
  intros Hctx Hc. pose proof Hctx as [Ht Hbps _ Hfat Hspf _ _]. unfold read_cluster_from_map.
  fold (fat_base ctx) (fat_size ctx).
  assert (0 <= fat_base ctx < W32) as Hb by (unfold fat_base; nia).
  assert (0 < fat_size ctx < W64 - W32) as Hs by (unfold fat_size; nia).
  assert (forall off n (g : list Z -> Z) Q, 0 <= off -> 0 < n ->
    (off + n <= fat_size ctx <-> in_table ctx c) ->
    (off + n <= fat_size ctx -> g (bytes_at (contents v) (fat_base ctx + off) (Z.to_nat n)) = fat_entry ctx (contents v) c) ->
    (forall r, Q r = (g <$> r)) ->
    run E v (if fat_size ctx <? off + n then mret None
      else r ← vread (fat_base ctx + off) n; mret (Q r)) (entry_result ctx v c)) as Hgen.
  { intros off n g Q Hoff Hn Hin Hg HQ. split_ltb (fat_size ctx) (off + n).
    - apply runs_ret. simpl. intros [Hi%Hin _]. lia.
    - eapply runs_bind; [apply runs_vread; lia|]. intros r Hr. apply runs_ret. rewrite HQ.
      destruct r as [bs|]; simpl in *.
      + destruct Hr as [_ ->]. split; [by apply Hin|by apply Hg].
      + intros [_ Hread]. apply Hr. eapply readable_sub; [..|exact Hread]; lia. }
  unfold in_table, entry_bits in Hgen. destruct Ht as [Ht|[Ht|Ht]]; rewrite Ht in *; cbn [Z.eqb Pos.eqb].
  - apply (Hgen (c + c / 2) 2 (fun bs => let tmp := le_load bs in if c `mod` 2 =? 0 then Z.land tmp 4095 else Z.shiftr tmp 4)).
    + pose proof (Z.div_pos c 2); lia.
    + lia.
    + pose proof (Z.div_mod c 2 ltac:(lia)). pose proof (Z.mod_pos_bound c 2 ltac:(lia)). lia.
    + intros ?. apply entry_12; lia.
    + by intros [].
  - apply (Hgen (c * 2) 2 le_load); [lia..| |done]. intros ?.
    rewrite <- (entry_aligned ctx v c 2 16); [|by rewrite Ht|by unfold number_bits; rewrite Ht|lia..]. symmetry. apply Z.mod_small.
    pose proof (le_load_range _ (bytes_at_bytes (contents v) (fat_base ctx + c * Z.of_nat 2) 2 (content_byte v))) as Hr.
    by rewrite length_bytes_at in Hr.
  - apply (Hgen (c * 4) 4 (fun bs => Z.land (le_load bs) 268435455)); [lia..| |done]. intros ?.
    rewrite <- (entry_aligned ctx v c 4 28); [|by rewrite Ht|by unfold number_bits; rewrite Ht|lia..].
    change 268435455 with (Z.ones 28). by rewrite Z.land_ones.
Qed.

(** ** Cluster chains *)

Definition ended (ctx : fat32_context) (x : Z) : bool := (x <? 2) || (cluster_limit ctx <? x).

(** [l] is the list of clusters from [c] along the table [f] to an end mark. *)
Fixpoint linked (ctx : fat32_context) (f : Z -> Z) (c : Z) (l : list Z) : Prop :=
  match l with
  | [] => False
  | x :: l' =>
      x = c /\ in_table ctx c /\
      match l' with
      | [] => ended ctx (fat_entry ctx f c) = true
      | _ => ended ctx (fat_entry ctx f c) = false /\ linked ctx f (fat_entry ctx f c) l'
      end
  end.

(** The chain of a file or directory that starts at [c]. *)
Definition valid_chain (ctx : fat32_context) (f : Z -> Z) (c : Z) (l : list Z) : Prop :=
  ended ctx c = false /\ linked ctx f c l /\ Z.of_nat (length l) <= max_clusters ctx.

Lemma linked_unique ctx f l1 : forall c l2, linked ctx f c l1 -> linked ctx f c l2 -> l1 = l2.
Proof.
  induction l1 as [|x l1 IH]; intros c l2; [done|].
  destruct l2 as [|y l2]; [done|]. intros (-> & _ & H1) (-> & _ & H2). f_equal.
  destruct l1, l2; try done; [by destruct H2; congruence|by destruct H1; congruence|].
  destruct H1 as [_ H1], H2 as [_ H2]. eauto.
Qed.

Lemma ended_range ctx x : ctx_ok ctx -> ended ctx x = false -> 2 <= x < W32.
Proof.
  intros [Ht _ _ _ _ _ _] H. apply orb_false_iff in H as [?%Z.ltb_ge Hl%Z.ltb_ge].
  assert (cluster_limit ctx <= 268435439); [|lia].
  unfold cluster_limit. by destruct Ht as [Ht|[Ht|Ht]]; rewrite Ht.
Qed.

Lemma linked_valid ctx f l : forall c, ended ctx c = false -> linked ctx f c l -> Forall (fun x => ended ctx x = false) l.
Proof.
  induction l as [|x l IH]; intros c Hc; [done|]. intros (-> & _ & H). constructor; [done|].
  destruct l; [done|]. destruct H. eauto.
Qed.

Lemma runs_count ctx v : ctx_ok ctx -> forall k c len, ended ctx c = false ->
  run (fun _ => False) v (count_chain k ctx c len) (fun r =>
    match r with
    | Some m => exists l, linked ctx (contents v) c l /\ m = len + Z.of_nat (length l) - 1 /\ (length l <= k)%nat
    | None => readable v (fat_base ctx) (fat_size ctx) ->
              forall l, linked ctx (contents v) c l -> (k < length l)%nat
    end).
Proof.
  intros Hctx. induction k as [|k IH]; intros c len Hc; cbn [count_chain].
  { apply runs_ret. intros _ [|? l] Hl; [done|simpl; lia]. }
  pose proof (ended_range ctx c Hctx Hc) as Hr.
  eapply runs_bind; [apply runs_entry; [done|lia]|]. intros [n|] Hn; simpl in Hn.
  - destruct Hn as [Hin ->]. fold (ended ctx (fat_entry ctx (contents v) c)).
    destruct (ended ctx (fat_entry ctx (contents v) c)) eqn:He.
    + apply runs_ret. exists [c]. simpl. split_and!; (done || lia).
    + eapply runs_weaken; [by apply IH|]. intros [m|].
      * intros (l & Hl & -> & Hk). exists (c :: l). destruct l; [done|]. cbn [length] in *. split_and!; (done || lia).
      * intros H Hread l Hl. destruct l as [|x l]; [done|]. destruct Hl as (_ & _ & Hl).
        destruct l; [congruence|]. destruct Hl as [_ Hl]. specialize (H Hread _ Hl). simpl in *. lia.
  - apply runs_ret. intros Hread l Hl. exfalso. apply Hn. split; [|done].
    destruct l; [done|]. by destruct Hl as (_ & ? & _).
Qed.

Lemma runs_fill ctx v : ctx_ok ctx -> forall l c, ended ctx c = false -> linked ctx (contents v) c l ->
  run (fun _ => False) v (fill_chain (length l) ctx c) (fun r =>
    match r with Some l' => l' = l | None => ~ readable v (fat_base ctx) (fat_size ctx) end).
Proof.
  intros Hctx. induction l as [|x l IH]; intros c Hc Hl; [done|]. cbn [length fill_chain].
  destruct Hl as (-> & Hin & Hl). pose proof (ended_range ctx c Hctx Hc) as Hr.
  eapply runs_bind; [apply runs_entry; [done|lia]|]. intros [n|] Hn; simpl in Hn.
  - destruct Hn as [_ ->]. destruct l as [|y l].
    + apply runs_ret_bind. by apply runs_ret.
    + destruct Hl as [He Hl]. eapply runs_bind; [by apply IH|]. intros [l'|] Hl'; apply runs_ret; simpl; by subst.
  - apply runs_ret. naive_solver.
Qed.

Lemma max_clusters_range ctx : ctx_ok ctx -> 0 < max_clusters ctx <= FAT32_MAX_CHAIN_LENGTH.
Proof.
  intros [Ht _ _ _ _ _ _]. unfold max_clusters, cluster_limit.
  destruct Ht as [Ht|[Ht|Ht]]; rewrite Ht; vm_compute; intuition congruence.
Qed.

Definition chain_result (ctx : fat32_context) v (c : Z) (r : option (list Z)) : Prop :=
  match r with
  | Some l => valid_chain ctx (contents v) c l
  | None => readable v (fat_base ctx) (fat_size ctx) -> forall l, ~ valid_chain ctx (contents v) c l
  end.

Lemma runs_chain ctx v c : ctx_ok ctx ->
  run (fun _ => False) v (cache_cluster_chain ctx c) (chain_result ctx v c).
Proof.
  intros Hctx. pose proof (max_clusters_range ctx Hctx) as Hm. unfold FAT32_MAX_CHAIN_LENGTH in Hm.
  unfold cache_cluster_chain. fold (ended ctx c). destruct (ended ctx c) eqn:Hc.
  { apply runs_ret. intros _ l [H _]. congruence. }
  eapply runs_bind; [by apply runs_count|]. intros [m|] Hcount.
  - destruct Hcount as (l & Hl & -> & Hk). unfold mul_overflow.
    split_ltb ((1 + Z.of_nat (length l) - 1) * 4) (W64%Z); [|lia].
    replace (Z.to_nat (1 + Z.of_nat (length l) - 1)) with (length l) by lia.
    eapply runs_weaken; [by apply runs_fill|]. intros [l'|].
    + intros ->. split_and!; [done..|lia].
    + intros Hn Hr. by destruct Hn.
  - apply runs_ret. intros Hr l (_ & Hl & Hlen). specialize (Hcount Hr l Hl). lia.
Qed.

(** ** File contents *)

Definition cluster_base (ctx : fat32_context) (c : Z) : Z :=
  (ctx.(data_start_lba) + (c - 2) * ctx.(sectors_per_cluster)) * ctx.(bytes_per_sector).

(** Byte [k] of the file whose clusters are [chain]. *)
Definition file_byte (ctx : fat32_context) (f : Z -> Z) (chain : list Z) (k : Z) : Z :=
  f (cluster_base ctx (nth (Z.to_nat (k / block_size ctx)) chain 0) + k `mod` block_size ctx).

Definition data_readable v (ctx : fat32_context) (chain : list Z) : Prop :=
  Forall (fun c => readable v (cluster_base ctx c) (block_size ctx)) chain.

Lemma block_size_range ctx : ctx_ok ctx -> 512 <= block_size ctx <= 524288.
Proof. intros [_ ? ? _ _ _ _]. unfold block_size. nia. Qed.

Lemma cluster_base_range ctx c : ctx_ok ctx -> 2 <= c < W32 -> 0 <= cluster_base ctx c < 2 ^ 56.
Proof. intros [_ ? ? _ _ ? _] Hc. unfold cluster_base. nia. Qed.

Lemma chunk_bytes ctx f chain pos c n : 0 < block_size ctx -> 0 <= pos ->
  chain !! Z.to_nat (pos / block_size ctx) = Some c ->
  pos `mod` block_size ctx + Z.of_nat n <= block_size ctx ->
  bytes_at f (cluster_base ctx c + pos `mod` block_size ctx) n = bytes_at (file_byte ctx f chain) pos n.
Proof.
  intros Hbs Hpos Hc Hfit. apply bytes_at_ext; [apply length_bytes_at|]. intros i Hi.
  rewrite lookup_bytes_at by done. f_equal. unfold file_byte.
  pose proof (Z.div_mod pos (block_size ctx) ltac:(lia)) as Hdm. pose proof (Z.mod_pos_bound pos (block_size ctx) Hbs).
  assert ((pos + Z.of_nat i) / block_size ctx = pos / block_size ctx) as ->.
  { symmetry. apply Z.div_unique_pos with (pos `mod` block_size ctx + Z.of_nat i); lia. }
  assert ((pos + Z.of_nat i) `mod` block_size ctx = pos `mod` block_size ctx + Z.of_nat i) as ->.
  { symmetry. apply Z.mod_unique_pos with (pos / block_size ctx); lia. }
  rewrite (nth_lookup_Some _ _ _ _ Hc). f_equal. lia.
Qed.

Definition file_result v (ctx : fat32_context) (chain buf : list Z) (loc count : Z) (r : option (list Z)) : Prop :=
  match r with
  | Some b => b = bytes_at (file_byte ctx (contents v) chain) loc (Z.to_nat count) ++ drop (Z.to_nat count) buf
  | None => loc + count <= Z.of_nat (length chain) * block_size ctx -> ~ data_readable v ctx chain
  end.

Lemma runs_chain_loop ctx v chain buf loc count :
  ctx_ok ctx -> Forall (fun c => 2 <= c < W32) chain -> 0 <= loc -> loc + count <= W64 ->
  count <= Z.of_nat (length buf) -> forall fuel p, 0 <= p <= count ->
  (p = count \/ (loc + p) `mod` block_size ctx + (count - p) <= Z.of_nat fuel * block_size ctx) ->
  run (fun _ => False) v
    (chain_loop fuel ctx chain (bytes_at (file_byte ctx (contents v) chain) loc (Z.to_nat p) ++ drop (Z.to_nat p) buf) loc count p)
    (file_result v ctx chain buf loc count).
Proof.
  intros Hctx Hch Hloc Hw Hbuf. pose proof (block_size_range ctx Hctx) as Hbs.
  induction fuel as [|fuel IH]; intros p Hp Hfuel; cbn [chain_loop]; split_ltb p count.
  { pose proof (Z.mod_pos_bound (loc + p) (block_size ctx) ltac:(lia)). lia. }
  1,3: apply runs_ret; by replace p with count by lia.
  rewrite (u64_small (loc + p)) by lia.
  destruct (chunk_step (block_size ctx) (loc + p) (count - p) _ fuel ltac:(lia) ltac:(lia) eq_refl ltac:(lia)) as (Hc1 & Hc2 & Hc3).
  set (chunk := if block_size ctx - _ <? _ then _ else _) in *.
  pose proof (Z.div_pos (loc + p) (block_size ctx) ltac:(lia) ltac:(lia)).
  pose proof (Z.mod_pos_bound (loc + p) (block_size ctx) ltac:(lia)).
  destruct (chain !! Z.to_nat ((loc + p) / block_size ctx)) as [c|] eqn:Ec.
  2:{ apply runs_ret. intros Hin _. apply lookup_ge_None in Ec.
      assert ((loc + p) / block_size ctx < Z.of_nat (length chain)) by (apply Z.div_lt_upper_bound; lia). lia. }
  pose proof (proj1 (Forall_lookup _ _) Hch _ _ Ec) as Hc. simpl in Hc.
  pose proof (cluster_base_range ctx c Hctx Hc) as Hcb.
  split_ltb c 2; [lia|]. fold (cluster_base ctx c).
  rewrite (u64_small (cluster_base ctx c)), (u64_small (_ + _)) by lia.
  eapply runs_bind; [apply runs_vread; lia|]. intros [bytes|] Hr; simpl in Hr.
  - destruct Hr as [_ ->].
    rewrite (chunk_bytes ctx (contents v) chain (loc + p) c (Z.to_nat chunk)) by (done || lia).
    replace (loc + p) with (loc + Z.of_nat (Z.to_nat p)) at 1 by lia. rewrite blit_progress by lia.
    apply runs_lift_bind.
    replace (Z.to_nat p + Z.to_nat chunk)%nat with (Z.to_nat (p + chunk)) by lia.
    apply IH; [lia|]. replace (loc + (p + chunk)) with (loc + p + chunk) by lia. lia.
  - apply runs_ret. intros _ Hread. apply Hr.
    pose proof (proj1 (Forall_lookup _ _) Hread _ _ Ec) as Hrd. simpl in Hrd.
    eapply readable_sub; [..|exact Hrd]; lia.
Qed.

Lemma runs_read_chain ctx v chain buf loc count :
  ctx_ok ctx -> Forall (fun c => 2 <= c < W32) chain -> 0 <= loc -> 0 <= count -> loc + count <= W64 ->
  count <= Z.of_nat (length buf) ->
  run (fun _ => False) v (read_cluster_chain ctx chain buf loc count) (file_result v ctx chain buf loc count).
Proof.
  intros Hctx Hch Hloc Hc Hw Hbuf. pose proof (block_size_range ctx Hctx) as Hbs. unfold read_cluster_chain.
  split_eqb (block_size ctx) 0; [lia|]. rewrite andb_false_r.
  apply (runs_chain_loop ctx v chain buf loc count Hctx Hch Hloc Hw Hbuf _ 0); [lia|]. right.
  pose proof (Z.mod_pos_bound (loc + 0) (block_size ctx) ltac:(lia)).
  pose proof (Z.div_mod count (block_size ctx) ltac:(lia)).
  pose proof (Z.mod_pos_bound count (block_size ctx) ltac:(lia)).
  pose proof (Z.div_pos count (block_size ctx) ltac:(lia) ltac:(lia)). nia.
Qed.

(** ** Directories and paths *)

Lemma entries_bytes k : forall buf, Forall is_byte buf -> Forall (Forall is_byte) (entries k buf).
Proof.
  induction k as [|k IH]; intros buf Hb; cbn [entries]; constructor; [by apply Forall_take|].
  by apply IH, Forall_drop.
Qed.

Lemma scan_file_elem ci es : forall lfn name e, scan_file ci es lfn name = Some (FoundFile e) -> e ∈ es.
Proof.
  induction es as [|e es IH]; intros lfn name e' H; [done|]. cbn [scan_file] in H.
  repeat (case_match; simplify_eq; try done); rewrite ?elem_of_cons; eauto.
Qed.

Lemma path_component_shorter k : forall path part idx p rest i,
  path_component k path part idx = Directory p rest i -> (length rest < length path)%nat.
Proof.
  induction k as [|k IH]; intros path part idx p rest i; cbn [path_component]; [done|].
  destruct (W32 <=? idx); [done|]. split_eqb (hd0 path) 0; [done|].
  destruct path as [|c path]; [done|]. cbn [hd0 tl0 length] in *.
  split_eqb c 47; [destruct (W32 <=? idx + 1); [done|]; intros [= <- <- <-]; lia|].
  intros H. apply IH in H. lia.
Qed.

Lemma le_load_nonneg bs : Forall is_byte bs -> 0 <= le_load bs.
Proof. intros H. apply le_load_range in H. lia. Qed.

Lemma blit_bytes dst off src : (off + length src <= length dst)%nat -> Forall is_byte dst -> Forall is_byte src ->
  exists b, blit dst off src = Ret b /\ Forall is_byte b.
Proof.
  intros Hl Hd Hs. rewrite blit_fit by done. eexists. split; [done|].
  rewrite !Forall_app. split_and!; auto using Forall_take, Forall_drop.
Qed.

Lemma replicate_bytes n : Forall is_byte (replicate n 0).
Proof. apply Forall_replicate. done. Qed.

Lemma valid_chain_range ctx f c l : ctx_ok ctx -> valid_chain ctx f c l -> Forall (fun c => 2 <= c < W32) l.
Proof.
  intros Hctx (Hc & Hl & _). eapply Forall_impl; [by eapply linked_valid|]. intros x Hx. by eapply ended_range.
Qed.

Lemma runs_directory ctx v dir : ctx_ok ctx ->
  run (fun _ => False) v (read_directory ctx dir) (fun r => forall b, r = Some b -> Forall is_byte b).
Proof.
  intros Hctx. pose proof Hctx as [_ Hbps _ _ _ _ [Hre Hrs]]. pose proof (block_size_range ctx Hctx) as Hbs.
  unfold read_directory, MAX_DIRECTORY. destruct dir as [dir|].
  - eapply runs_bind; [by apply runs_chain|]. intros [chain|] Hch; [|by apply runs_ret].
    unfold mul_overflow. case_b; [|by apply runs_ret]. case_b; [by apply runs_ret|].
    eapply runs_weaken; [apply runs_read_chain; [done|by eapply valid_chain_range|lia..|]|].
    + rewrite length_replicate. lia.
    + intros [b|]; simpl; [|done]. intros -> ? [= <-]. apply Forall_app. split.
      * apply bytes_at_bytes. intros i. unfold file_byte. apply content_byte.
      * by apply Forall_drop, replicate_bytes.
  - unfold DIV_ROUNDUP. rewrite (u64_small (_ + _)) by lia.
    pose proof (Z.div_mod (root_entries ctx * 32 + (block_size ctx - 1)) (block_size ctx) ltac:(lia)).
    pose proof (Z.mod_pos_bound (root_entries ctx * 32 + (block_size ctx - 1)) (block_size ctx) ltac:(lia)).
    unfold mul_overflow. case_b; [|by apply runs_ret]. case_b; [by apply runs_ret|].
    eapply runs_bind; [apply runs_vread; nia|]. intros [bytes|] Hr; [|by apply runs_ret].
    destruct Hr as [_ ->].
    match goal with |- context [blit ?d ?o ?s] => destruct (blit_bytes d o s) as (b & -> & Hb) end.
    + rewrite length_bytes_at, length_replicate. lia.
    + apply replicate_bytes.
    + apply bytes_at_bytes, content_byte.
    + apply runs_lift_bind, runs_ret. by intros ? [= <-].
Qed.

Lemma runs_open_in ci ctx v dir name : ctx_ok ctx ->
  run (fun _ => False) v (fat32_open_in ci ctx dir name) (fun r => forall e, r = Some (FoundFile e) -> Forall is_byte e).
Proof.
  intros Hctx. unfold fat32_open_in. eapply runs_bind; [by apply runs_directory|]. intros [buf|] Hbuf; apply runs_ret; [|done].
  specialize (Hbuf buf eq_refl). intros e He. destruct name as [name|].
  - apply scan_file_elem in He. pose proof (entries_bytes (Z.to_nat (Z.of_nat (length buf) / 32)) buf Hbuf) as Hall.
    rewrite Forall_forall in Hall. by apply Hall.
  - exfalso. revert He. generalize (entries (Z.to_nat (Z.of_nat (length buf) / 32)) buf) as es.
    induction es as [|x es IH]; cbn [scan_label]; [done|]. repeat case_match; done.
Qed.

(** ** Opening *)

(** A handle the driver gives out. *)
Definition handle_ok v (h : fat32_file_handle) : Prop :=
  ctx_ok h.(context) /\ 0 <= h.(size_bytes) < W32 /\
  (h.(cluster_chain) = [] /\ h.(size_bytes) = 0 \/
   valid_chain h.(context) (contents v) h.(first_cluster) h.(cluster_chain)).

Lemma runs_walk ci ctx v : ctx_ok ctx -> forall fuel dir path idx, (length path < fuel)%nat ->
  run (fun _ => False) v (walk ci fuel ctx dir path idx) (fun r => forall h, r = Some h -> handle_ok v h).
Proof.
  intros Hctx. induction fuel as [|fuel IH]; intros dir path idx Hf; [lia|]. cbn [walk].
  destruct (path_component 260 path [] idx) as [|part|part rest i] eqn:Ep.
  - by apply runs_ret.
  - eapply runs_bind; [by apply runs_open_in|]. intros [[l|e]|] He; [by apply runs_ret| |by apply runs_ret].
    specialize (He e eq_refl). pose proof (field_range 28 4 e He) as Hsz.
    eapply runs_bind; [by apply runs_chain|]. intros [chain|] Hch.
    + apply runs_ret. intros h [= <-]. split_and!; [done|apply Hsz..|]. by right.
    + split_eqb (file_size_bytes e) 0; cbn [negb]; apply runs_ret; [|done]. intros h [= <-].
      split_and!; [done|apply Hsz..|]. by left.
  - eapply runs_bind; [by apply runs_open_in|]. intros [[l|e]|] He; [by apply runs_ret| |by apply runs_ret].
    case_match; [by apply runs_ret|]. apply IH. apply path_component_shorter in Ep. lia.
Qed.

Lemma set_label_ok ctx l : ctx_ok ctx -> ctx_ok (set_label ctx l).
Proof. by intros []. Qed.

Lemma runs_init ci v : run (fun _ => False) v (fat32_init_context ci) (fun r => forall ctx, r = Some ctx -> ctx_ok ctx).
Proof.
  unfold fat32_init_context. eapply runs_bind; [by apply runs_vread|]. intros [bs|] Hr; [|by apply runs_ret].
  destruct Hr as [_ ->]. cbn [mbind option_bind]. destruct (bpb_context _) as [ctx|] eqn:Ec; [|by apply runs_ret].
  apply bpb_context_ok in Ec; [|apply bytes_at_bytes, content_byte].
  eapply runs_bind; [by apply runs_open_in|]. intros r _. apply runs_ret. intros ? [= <-]. by apply set_label_ok.
Qed.

Lemma skip_slashes_length path idx : (length (fst (skip_slashes path idx)) <= length path)%nat.
Proof. revert idx. induction path as [|c path IH]; intros idx; cbn [skip_slashes]; [done|]. case_b; cbn [fst length]; [|lia]. etrans; [apply IH|lia]. Qed.

Lemma runs_open ci v path :
  run (fun _ => False) v (fat32_open ci path) (fun r => forall h, r = Some h -> handle_ok v h).
Proof.
  unfold fat32_open. eapply runs_bind; [apply runs_init|]. intros [ctx|] Hctx; [|by apply runs_ret].
  specialize (Hctx ctx eq_refl). destruct (skip_slashes path 0) as [p i]. apply runs_walk; [done|lia].
Qed.
End table.

(** * The FAT driver on volumes of arbitrary geometry

    The driver is run on every partition to find its label, whatever first sector
    and length the partition table gives.  Here nothing is assumed of the bytes it
    reads, not even that two reads of one place agree. *)

Section safe.
Context `{D : Disk} {media : Z -> Z -> Z} `{!DiskSpec D media}.

#[local] Abbreviation safe := (runs_in vol_safe (fun _ => False)).
#[local] Abbreviation is_word := (fun x : Z => 0 <= x < W32).

Lemma load_word bs n : length bs = n -> (n <= 4)%nat -> Forall is_byte bs -> 0 <= le_load bs < W32.
Proof.
  intros Hl Hn Hb. pose proof (le_load_range bs Hb) as H. split; [lia|].
  eapply Z.lt_le_trans; [apply H|]. change W32%Z with (W8 ^ 4). apply Z.pow_le_mono_r; lia.
Qed.

Lemma safe_entry ctx v c : ctx_ok ctx -> is_word c ->
  safe v (read_cluster_from_map ctx c) (fun r => forall x, r = Some x -> is_word x).
Proof.
  intros [_ Hbps _ Hfat Hspf _ _] Hc. unfold read_cluster_from_map.
  set (base := fat_start_lba ctx * _). set (fsz := sectors_per_fat ctx * _).
  assert (0 <= base < W32 /\ 0 < fsz < W64 - W32) as [Hb Hs] by (unfold base, fsz; nia).
  assert (forall off (n : nat) (g : list Z -> Z) Q, 0 <= off -> (0 < n <= 4)%nat ->
    (forall bs, 0 <= le_load bs < W32 -> is_word (g bs)) -> (forall r, Q r = (g <$> r)) ->
    safe v (if fsz <? off + Z.of_nat n then mret None else r ← vread (base + off) (Z.of_nat n); mret (Q r))
      (fun r => forall x, r = Some x -> is_word x)) as Hgen.
  { intros off n g Q Hoff Hn Hg HQ. split_ltb fsz (off + Z.of_nat n); [by apply runs_ret|].
    eapply runs_bind; [apply safe_vread; lia|]. intros r Hr. apply runs_ret. rewrite HQ.
    intros x Hx. destruct r as [bs|]; simplify_eq/=. destruct (Hr bs eq_refl) as [Hl Hbs].
    apply Hg. eapply load_word; [done|lia|done]. }
  destruct (type ctx =? 12); [|destruct (type ctx =? 16)].
  - apply (Hgen (c + c / 2) 2%nat (fun bs => let tmp := le_load bs in if c `mod` 2 =? 0 then Z.land tmp 4095 else Z.shiftr tmp 4)).
    + pose proof (Z.div_pos c 2); lia.
    + lia.
    + intros bs Hbs. cbv zeta. case_match.
      * change 4095 with (Z.ones 12). rewrite Z.land_ones by lia. pose proof (Z.mod_pos_bound (le_load bs) (2 ^ 12)). lia.
      * rewrite Z.shiftr_div_pow2 by lia. split; [apply Z.div_pos; lia|]. apply Z.div_lt_upper_bound; lia.
    + by intros [].
  - apply (Hgen (c * 2) 2%nat le_load); (done || lia).
  - apply (Hgen (c * 4) 4%nat (fun bs => Z.land (le_load bs) 268435455)); [lia..| |done].
    intros bs Hbs. change 268435455 with (Z.ones 28). rewrite Z.land_ones by lia.
    pose proof (Z.mod_pos_bound (le_load bs) (2 ^ 28)). lia.
Qed.

Lemma safe_count ctx v : ctx_ok ctx -> forall k c len, is_word c -> safe v (count_chain k ctx c len) (fun _ => True).
Proof.
  intros Hctx. induction k as [|k IH]; intros c len Hc; cbn [count_chain]; [by apply runs_ret|].
  eapply runs_bind; [by apply safe_entry|]. intros [x|] Hx; [|by apply runs_ret].
  case_match; [by apply runs_ret|]. by apply IH, Hx.
Qed.

Lemma safe_fill ctx v : ctx_ok ctx -> forall k c, is_word c ->
  safe v (fill_chain k ctx c) (fun r => forall l, r = Some l -> Forall is_word l).
Proof.
  intros Hctx. induction k as [|k IH]; intros c Hc; cbn [fill_chain]; [apply runs_ret; by intros ? [= <-]|].
  eapply runs_bind; [by apply safe_entry|]. intros [x|] Hx; [|by apply runs_ret].
  eapply runs_bind; [by apply IH, Hx|]. intros [l|] Hl; apply runs_ret; [|done]. intros ? [= <-]. constructor; auto.
Qed.

Lemma safe_chain ctx v c : ctx_ok ctx ->
  safe v (cache_cluster_chain ctx c) (fun r => forall l, r = Some l -> Forall is_word l).
Proof.
  intros Hctx. unfold cache_cluster_chain. fold (ended ctx c). destruct (ended ctx c) eqn:Hc; [by apply runs_ret|].
  pose proof (ended_range ctx c Hctx Hc). eapply runs_bind; [apply safe_count; [done|lia]|].
  intros [m|] _; [|by apply runs_ret]. case_match; [|by apply runs_ret]. apply safe_fill; [done|lia].
Qed.

Lemma safe_chain_loop ctx v chain loc count : ctx_ok ctx -> Forall is_word chain -> 0 <= loc -> loc + count <= W64 ->
  forall fuel buf p, count <= Z.of_nat (length buf) -> Forall is_byte buf -> 0 <= p <= count ->
  (p = count \/ (loc + p) `mod` block_size ctx + (count - p) <= Z.of_nat fuel * block_size ctx) ->
  safe v (chain_loop fuel ctx chain buf loc count p) (fun r => forall b, r = Some b -> Forall is_byte b).
Proof.
  intros Hctx Hch Hloc Hw. pose proof (block_size_range ctx Hctx) as Hbs.
  induction fuel as [|fuel IH]; intros buf p Hbuf Hbytes Hp Hfuel; cbn [chain_loop]; split_ltb p count.
  { pose proof (Z.mod_pos_bound (loc + p) (block_size ctx) ltac:(lia)). lia. }
  1,3: apply runs_ret; by intros ? [= <-].
  rewrite (u64_small (loc + p)) by lia.
  destruct (chunk_step (block_size ctx) (loc + p) (count - p) _ fuel ltac:(lia) ltac:(lia) eq_refl ltac:(lia)) as (Hc1 & Hc2 & Hc3).
  set (chunk := if block_size ctx - _ <? _ then _ else _) in *.
  pose proof (Z.mod_pos_bound (loc + p) (block_size ctx) ltac:(lia)).
  destruct (chain !! Z.to_nat ((loc + p) / block_size ctx)) as [c|] eqn:Ec; [|by apply runs_ret].
  pose proof (proj1 (Forall_lookup _ _) Hch _ _ Ec) as Hc. simpl in Hc.
  split_ltb c 2; [by apply runs_ret|]. fold (cluster_base ctx c).
  pose proof (cluster_base_range ctx c Hctx ltac:(lia)) as Hcb.
  rewrite (u64_small (cluster_base ctx c)), (u64_small (_ + _)) by lia.
  eapply runs_bind; [apply safe_vread; lia|]. intros [bytes|] Hr; [|by apply runs_ret].
  destruct (Hr bytes eq_refl) as [Hlen Hb].
  destruct (blit_bytes buf (Z.to_nat p) bytes ltac:(lia) Hbytes Hb) as (buf' & Hblit & Hb').
  rewrite Hblit. apply runs_lift_bind.
  rewrite blit_fit in Hblit by lia. apply Ret_inj in Hblit. subst buf'.
  apply IH; [|done|lia|].
  - rewrite !length_app, length_take, length_drop. lia.
  - replace (loc + (p + chunk)) with (loc + p + chunk) by lia. lia.
Qed.

Lemma safe_directory ctx v dir : ctx_ok ctx ->
  safe v (read_directory ctx dir) (fun r => forall b, r = Some b -> Forall is_byte b).
Proof.
  intros Hctx. pose proof Hctx as [_ Hbps _ _ _ _ [Hre Hrs]]. pose proof (block_size_range ctx Hctx) as Hbs.
  unfold read_directory, MAX_DIRECTORY. destruct dir as [dir|].
  - eapply runs_bind; [by apply safe_chain|]. intros [chain|] Hch; [|by apply runs_ret].
    unfold mul_overflow. case_b; [|by apply runs_ret]. case_b; [by apply runs_ret|].
    set (n := Z.of_nat (length chain) * block_size ctx) in *. unfold read_cluster_chain.
    split_eqb (block_size ctx) 0; [lia|]. rewrite andb_false_r.
    apply safe_chain_loop; [done|by apply Hch|lia..|rewrite length_replicate; lia|apply replicate_bytes|lia|]. right.
    pose proof (Z.mod_pos_bound (0 + 0) (block_size ctx) ltac:(lia)).
    pose proof (Z.div_mod n (block_size ctx) ltac:(lia)).
    pose proof (Z.mod_pos_bound n (block_size ctx) ltac:(lia)).
    pose proof (Z.div_pos n (block_size ctx) ltac:(lia) ltac:(lia)). nia.
  - unfold DIV_ROUNDUP. rewrite (u64_small (_ + _)) by lia.
    pose proof (Z.div_mod (root_entries ctx * 32 + (block_size ctx - 1)) (block_size ctx) ltac:(lia)).
    pose proof (Z.mod_pos_bound (root_entries ctx * 32 + (block_size ctx - 1)) (block_size ctx) ltac:(lia)).
    unfold mul_overflow. case_b; [|by apply runs_ret]. case_b; [by apply runs_ret|].
    eapply runs_bind; [apply safe_vread; nia|]. intros [bytes|] Hr; [|by apply runs_ret].
    destruct (Hr bytes eq_refl) as [Hlen Hb].
    match goal with |- context [blit ?d ?o ?s] => destruct (blit_bytes d o s) as (b & -> & Hb') end; [|apply replicate_bytes|done|].
    + rewrite length_replicate. lia.
    + apply runs_lift_bind, runs_ret. by intros ? [= <-].
Qed.

Lemma safe_get_label ci v : safe v (fat32_get_label ci) (fun _ => True).
Proof.
  unfold fat32_get_label, fat32_init_context. eapply runs_bind with (Q := fun _ => True); [|intros; by apply runs_ret].
  eapply runs_bind; [by apply safe_vread|]. intros [bs|] Hr; [|by apply runs_ret].
  destruct (Hr bs eq_refl) as [_ Hb]. cbn [mbind option_bind].
  destruct (bpb_context bs) as [ctx|] eqn:Ec; [|by apply runs_ret].
  apply bpb_context_ok in Ec; [|done]. eapply runs_bind with (Q := fun _ => True); [|intros; by apply runs_ret].
  unfold fat32_open_in. eapply runs_bind; [by apply safe_directory|]. intros; by apply runs_ret.
Qed.
End safe.
