(* ===== verification/Fat32Thms.v ===== *)
(** * Theorems of the FAT driver

    Opening is safe on any medium, chains are those of the table, reads return
    the file's bytes, and a file is found under its long name. *)

From S2P Require Import Prelude Bytes Libc LibcSpec Volume VolumeSpec VolumeLogic.
From S2P Require Import Fat32 Fat32Spec.

(** ** Long names *)

(** A UCS-2 character, and a directory entry that holds 13 of them. *)
Definition ucs2 (hi c : Z) : list Z := [c; hi].
Definition lfn_entry (seq hi chk : Z) (cs : list Z) : list Z :=
  [seq] ++ (take 5 cs ≫= ucs2 hi) ++ [FAT32_LFN_ATTRIBUTE; 0; chk] ++
  (slice 5 6 cs ≫= ucs2 hi) ++ [0; 0] ++ (slice 11 2 cs ≫= ucs2 hi).

(** [src] written over [dst] from [off] on. *)
Definition patch (dst : list Z) (off : nat) (src : list Z) : list Z :=
  take off dst ++ src ++ drop (off + length src) dst.

Lemma length_patch dst off src : (off + length src <= length dst)%nat -> length (patch dst off src) = length dst.
Proof. intros H. unfold patch. rewrite !length_app, length_take, length_drop. lia. Qed.

Lemma patch_patch dst off a b : (off + length a + length b <= length dst)%nat ->
  patch (patch dst off a) (off + length a) b = patch dst off (a ++ b).
Proof.
  intros H. unfold patch. rewrite (app_assoc (take off dst) a). set (p := take off dst ++ a).
  assert (length p = (off + length a)%nat) as Hp by (unfold p; rewrite length_app, length_take; lia).
  rewrite take_app_length' by done. rewrite drop_app_ge, Hp, drop_drop, length_app by lia.
  unfold p. rewrite <- !app_assoc. do 4 f_equal. lia.
Qed.

Lemma lfncpy_patch cs hi : forall dest off, (off + length cs <= length dest)%nat ->
  fat32_lfncpy dest off (cs ≫= ucs2 hi) (length cs) = patch dest off cs.
Proof.
  unfold patch. induction cs as [|c cs IH]; intros dest off Hl; cbn [length fat32_lfncpy].
  { simpl. by rewrite Nat.add_0_r, take_drop. }
  simpl in Hl. destruct (length dest <=? off)%nat eqn:E; [apply Nat.leb_le in E; lia|].
  rewrite bind_cons. cbn [ucs2 app hd0 drop]. rewrite IH by (rewrite length_insert; lia).
  rewrite (take_S_r _ _ c) by (apply list_lookup_insert_eq; lia).
  rewrite take_insert_ge, drop_insert_lt by lia. rewrite <- app_assoc. cbn [app].
  by rewrite <- Nat.add_succ_comm.
Qed.

(** The three copies of an entry write its 13 characters in a row. *)
Lemma copy_piece lfn at_ seq hi chk cs : length cs = 13%nat -> (at_ + 13 <= length lfn)%nat ->
  let e := lfn_entry seq hi chk cs in
  fat32_lfncpy (fat32_lfncpy (fat32_lfncpy lfn (at_ + 0) (lfn_name1 e) 5) (at_ + 5) (lfn_name2 e) 6)
    (at_ + 11) (lfn_name3 e) 2 = patch lfn at_ cs.
Proof.
  intros Hc Hl e.
  assert (exists a b c, cs = a ++ b ++ c /\ length a = 5%nat /\ length b = 6%nat /\ length c = 2%nat /\
    lfn_name1 e = a ≫= ucs2 hi /\ lfn_name2 e = b ≫= ucs2 hi /\ lfn_name3 e = c ≫= ucs2 hi)
    as (a & b & c & -> & La & Lb & Lc & -> & -> & ->).
  { exists (take 5 cs), (slice 5 6 cs), (slice 11 2 cs). unfold e.
    do 13 (destruct cs as [|? cs]; [done|]). by destruct cs. }
  assert (forall x n d o, length x = n -> (o + n <= length d)%nat ->
    fat32_lfncpy d o (x ≫= ucs2 hi) n = patch d o x) as Hcpy by (intros x n d o <- ?; by apply lfncpy_patch).
  rewrite Nat.add_0_r, (Hcpy a) by lia. rewrite (Hcpy b) by (rewrite ?length_patch; lia).
  replace (at_ + 5)%nat with (at_ + length a)%nat by lia. rewrite patch_patch by lia.
  rewrite (Hcpy c) by (rewrite ?length_patch; rewrite ?length_app; lia).
  replace (at_ + 11)%nat with (at_ + length (a ++ b))%nat by (rewrite length_app; lia).
  rewrite patch_patch by (rewrite length_app; lia). by rewrite <- app_assoc.
Qed.

(** A long name of [k] pieces: the characters, then a NUL and 0xFF padding when
    they do not fill the last piece.  The entries come last piece first. *)
Definition lfn_padded (name : list Z) (k : nat) : list Z :=
  name ++ take (13 * k - length name) (0 :: replicate 12 255).

Fixpoint lfn_rest (hi chk : Z) (p : list Z) (i : nat) : list (list Z) :=
  match i with
  | O => []
  | S j => lfn_entry (Z.of_nat i) hi chk (slice (13 * j) 13 p) :: lfn_rest hi chk p j
  end.

Definition lfn_entries (hi chk : Z) (name : list Z) (k : nat) : list (list Z) :=
  match k with
  | O => []
  | S j => lfn_entry (64 + Z.of_nat k) hi chk (slice (13 * j) 13 (lfn_padded name k))
             :: lfn_rest hi chk (lfn_padded name k) j
  end.

(** The name buffer once the pieces from [i] on are in. *)
Definition lfn_state (p : list Z) (i : nat) : list Z :=
  replicate (13 * i) 32 ++ drop (13 * i) p ++ replicate (261 - length p) 32.

Lemma lfn_entry_fields seq hi chk cs : length cs = 13%nat -> let e := lfn_entry seq hi chk cs in
  lfn_sequence_number e = seq /\ entry_attribute e = 15 /\ hd0 (entry_name e) = seq.
Proof.
  intros Hc. do 13 (destruct cs as [|? cs]; [done|]). destruct cs; [|done]. cbv zeta.
  unfold lfn_sequence_number, entry_attribute, entry_name, field, slice, lfn_entry.
  cbn [app take drop mbind list_bind ucs2 le_load hd0]. unfold FAT32_LFN_ATTRIBUTE. lia.
Qed.

Lemma seq_bits s : 1 <= s <= 20 ->
  Z.land s 64 = 0 /\ Z.land s 31 = s /\ Z.land (64 + s) 64 <> 0 /\ Z.land (64 + s) 31 = s.
Proof.
  intros Hs. assert (forall k, (1 <= k < 21)%nat -> let s := Z.of_nat k in
    Z.land s 64 = 0 /\ Z.land s 31 = s /\ Z.land (64 + s) 64 <> 0 /\ Z.land (64 + s) 31 = s) as H.
  { intros k Hk. apply (proj1 (Forall_seq (fun k => let s := Z.of_nat k in
      Z.land s 64 = 0 /\ Z.land s 31 = s /\ Z.land (64 + s) 64 <> 0 /\ Z.land (64 + s) 31 = s) 1 20)); [|lia].
    by repeat constructor. }
  specialize (H (Z.to_nat s) ltac:(lia)). cbv zeta in H. by rewrite Z2Nat.id in H by lia.
Qed.

Lemma lfn_state_patch p k j : length p = (13 * k)%nat -> (S j <= k <= 20)%nat ->
  patch (lfn_state p (S j)) (13 * j) (slice (13 * j) 13 p) = lfn_state p j.
Proof.
  intros Hp Hk. unfold patch, lfn_state. rewrite length_slice by lia.
  replace (13 * S j)%nat with (13 * j + 13)%nat by lia.
  rewrite replicate_add, <- !app_assoc. rewrite take_app_length' by (by rewrite length_replicate).
  rewrite !drop_app_ge by (rewrite ?length_replicate; lia). rewrite !length_replicate.
  replace (13 * j + 13 - 13 * j - 13)%nat with 0%nat by lia. rewrite drop_0.
  f_equal. rewrite app_assoc. f_equal. unfold slice. rewrite <- drop_drop. by rewrite take_drop.
Qed.

Lemma lfn_step_piece lfn seq hi chk p k j : length p = (13 * k)%nat -> (S j <= k <= 20)%nat ->
  (seq = Z.of_nat (S j) /\ lfn = lfn_state p (S j) \/ seq = 64 + Z.of_nat (S j) /\ k = S j) ->
  lfn_step lfn (lfn_entry seq hi chk (slice (13 * j) 13 p)) =
    if decide (j = 0%nat) then (trim_lfn 260 (lfn_state p 0), true) else (lfn_state p j, false).
Proof.
  intros Hp Hk Hseq. assert (length (slice (13 * j) 13 p) = 13%nat) as Hl by (apply length_slice; lia).
  destruct (lfn_entry_fields seq hi chk _ Hl) as (Es & _ & _).
  destruct (seq_bits (Z.of_nat (S j)) ltac:(lia)) as (B1 & B2 & B3 & B4).
  unfold lfn_step. rewrite Es.
  assert ((if negb (Z.land seq 64 =? 0) then replicate FAT32_LFN_MAX_FILENAME_LENGTH 32 else lfn) = lfn_state p (S j)) as ->.
  { destruct Hseq as [[-> ->]|[-> ->]].
    - by rewrite B1.
    - split_eqb (Z.land (64 + Z.of_nat (S j)) 64) 0; [done|]. cbn [negb]. unfold lfn_state.
      rewrite drop_ge by lia. cbn [app]. rewrite <- replicate_add, Hp. unfold FAT32_LFN_MAX_FILENAME_LENGTH. f_equal. lia. }
  assert (Z.land seq 31 = Z.of_nat (S j)) as -> by (by destruct Hseq as [[-> _]|[-> _]]).
  split_eqb (Z.of_nat (S j)) 0; [lia|]. split_leb 260 ((Z.of_nat (S j) - 1) * 13); [lia|].
  assert (length (lfn_state p (S j)) = 261%nat) as Hls.
  { unfold lfn_state. rewrite !length_app, !length_replicate, length_drop. lia. }
  pose proof (copy_piece (lfn_state p (S j)) (13 * j) seq hi chk (slice (13 * j) 13 p) Hl ltac:(lia)) as Hc.
  cbv zeta in *. replace (Z.to_nat ((Z.of_nat (S j) - 1) * 13)) with (13 * j)%nat by lia.
  rewrite Hc, (lfn_state_patch p k) by lia.
  split_eqb ((Z.of_nat (S j) - 1) * 13) 0; cbn [negb]; case_decide; try lia; [|done]. by subst.
Qed.

(** ** The name the pieces spell *)

Lemma trim_lfn_spec n m lfn : (1 <= m <= n)%nat -> nth (m - 1) lfn 0 <> 32 ->
  (forall i, (m <= i < n)%nat -> nth i lfn 0 = 32) -> trim_lfn n lfn = <[m := 0]> lfn.
Proof.
  intros Hm Hlast Hsp. induction n as [|n IH]; [lia|]. cbn [trim_lfn].
  destruct (decide (m = S n)) as [->|].
  - replace (S n - 1)%nat with n in Hlast by lia. split_eqb (nth n lfn 0) 32; [done|]. done.
  - rewrite Hsp by lia. cbn. apply IH; [lia|]. intros i Hi. apply Hsp. lia.
Qed.

Record long_name (name : list Z) (k : nat) : Prop := {
  ln_chars : Forall (fun c => 0 < c < 256) name;
  ln_last : List.last name 0 <> 32;
  ln_pieces : (13 * (k - 1) < length name <= 13 * k)%nat;
  ln_max : (1 <= k <= 20)%nat
}.

Lemma length_lfn_padded name k : long_name name k -> length (lfn_padded name k) = (13 * k)%nat.
Proof.
  intros [_ _ Hp Hk]. unfold lfn_padded. rewrite length_app, length_take. cbn [length]. rewrite length_replicate. lia.
Qed.

Lemma trim_name name k : long_name name k ->
  exists junk, trim_lfn 260 (lfn_state (lfn_padded name k) 0) = name ++ 0 :: junk.
Proof.
  intros Hn. pose proof (length_lfn_padded name k Hn) as Hlp. destruct Hn as [Hc Hl Hp Hk].
  unfold lfn_state. rewrite Nat.mul_0_r, drop_0. cbn [replicate app]. rewrite Hlp.
  set (p := lfn_padded name k) in *.
  rewrite (trim_lfn_spec 260 (13 * k)).
  - replace (261 - 13 * k)%nat with (S (260 - 13 * k)) by lia. cbn [replicate].
    rewrite <- Hlp, insert_at. unfold p, lfn_padded.
    destruct (13 * k - length name)%nat as [|m]; cbn [take].
    + rewrite app_nil_r. by eexists.
    + rewrite <- app_assoc. cbn [app]. by eexists.
  - lia.
  - rewrite app_nth1 by lia. unfold p, lfn_padded. destruct (decide (length name = 13 * k)%nat) as [He|He].
    + rewrite He, Nat.sub_diag. cbn [take]. rewrite app_nil_r, <- He.
      destruct name as [|c name _] using rev_ind; [simpl in *; lia|]. rewrite last_last in Hl.
      rewrite length_app. cbn [length]. rewrite Nat.add_sub, app_nth2, Nat.sub_diag by lia. done.
    + rewrite app_nth2 by lia.
      replace (13 * k - 1 - length name)%nat with (13 * k - length name - 1)%nat by lia.
      remember (13 * k - length name)%nat as m eqn:Hm.
      assert (1 <= m <= 12)%nat as Hm12 by lia. clear -Hm12.
      do 13 (destruct m as [|m]; [first [lia | by cbn]|]). lia.
  - intros i Hi. rewrite app_nth2 by lia. rewrite nth_lookup, lookup_replicate_2 by lia. done.
Qed.

Lemma names_match_trimmed ci name junk : Forall (fun c => 0 < c < 256) name ->
  names_match ci (name ++ 0 :: junk) name = true.
Proof.
  intros Hn. unfold names_match. assert (strcasecmp (name ++ 0 :: junk) name = 0 /\ strcmp (name ++ 0 :: junk) name = 0) as [H1 H2].
  { induction Hn as [|c name Hc _ [IH1 IH2]]; [done|].
    cbn [app strcasecmp strcmp hd0 tl0]. rewrite !Z.eqb_refl. cbn [negb]. split_eqb c 0; [lia|]. done. }
  by destruct ci; rewrite ?H1, ?H2.
Qed.

(** ** Lookup *)

(** An entry of the directory that is not the one looked for. *)
Definition other_entry (name e : list Z) : Prop :=
  hd0 (entry_name e) <> 0 /\ entry_attribute e <> FAT32_LFN_ATTRIBUTE /\
  forall fn, fat32_filename_to_8_3 name = Some fn -> strncmp (entry_name e) fn 11 <> 0.

(** The short-name entry that follows a long name. *)
Definition short_entry (e : list Z) : Prop :=
  hd0 (entry_name e) <> 0 /\ hd0 (entry_name e) <> 229 /\ entry_attribute e <> FAT32_LFN_ATTRIBUTE.

Lemma scan_piece ci lfn seq hi chk p k j es sfn name :
  length p = (13 * k)%nat -> (S j <= k <= 20)%nat -> 0 < seq ->
  (seq = Z.of_nat (S j) /\ lfn = lfn_state p (S j) \/ seq = 64 + Z.of_nat (S j) /\ k = S j) ->
  (j = 0%nat -> names_match ci (trim_lfn 260 (lfn_state p 0)) name = true /\ short_entry sfn /\ hd_error es = Some sfn) ->
  scan_file ci (lfn_entry seq hi chk (slice (13 * j) 13 p) :: es) lfn name =
  if decide (j = 0%nat) then Some (FoundFile sfn) else scan_file ci es (lfn_state p j) name.
Proof.
  intros Hp Hk Hs Hseq Hlast.
  destruct (lfn_entry_fields seq hi chk (slice (13 * j) 13 p) ltac:(apply length_slice; lia)) as (_ & Ea & Eh).
  cbn [scan_file]. rewrite Eh, Ea. split_eqb seq 0; [lia|]. unfold FAT32_LFN_ATTRIBUTE. cbn [Z.eqb Pos.eqb].
  rewrite (lfn_step_piece lfn seq hi chk p k j Hp Hk Hseq). case_decide as Hj; cbn [negb]; [|done].
  destruct (Hlast Hj) as (-> & (S1 & S2 & S3) & Hes). destruct es as [|x es]; [done|]. injection Hes as ->.
  split_eqb (hd0 (entry_name sfn)) 0; [done|]. split_eqb (hd0 (entry_name sfn)) 229; [done|]. cbn [orb].
  unfold FAT32_LFN_ATTRIBUTE in S3. by split_eqb (entry_attribute sfn) 15.
Qed.

Lemma scan_rest ci hi chk p k sfn post name : length p = (13 * k)%nat -> (k <= 20)%nat ->
  names_match ci (trim_lfn 260 (lfn_state p 0)) name = true -> short_entry sfn ->
  forall i, (1 <= i <= k)%nat ->
  scan_file ci (lfn_rest hi chk p i ++ sfn :: post) (lfn_state p i) name = Some (FoundFile sfn).
Proof.
  intros Hp Hk Hm Hsfn. induction i as [|j IH]; intros Hi; [lia|]. cbn [lfn_rest app].
  rewrite (scan_piece ci _ _ hi chk p k j _ sfn) by (done || lia || (by left) || (by intros ->)).
  case_decide; [done|]. apply IH. lia.
Qed.

Lemma scan_others ci es rest lfn name : Forall (other_entry name) es ->
  scan_file ci (es ++ rest) lfn name = scan_file ci rest lfn name.
Proof.
  induction 1 as [|e es (H1 & H2 & H3) _ IH]; [done|]. cbn [app scan_file].
  split_eqb (hd0 (entry_name e)) 0; [done|]. unfold FAT32_LFN_ATTRIBUTE in *.
  split_eqb (entry_attribute e) 15; [done|]. rewrite IH. destruct (negb _); [done|].
  destruct (fat32_filename_to_8_3 name) as [fn|]; [|done]. specialize (H3 fn eq_refl).
  by split_eqb (strncmp (entry_name e) fn 11) 0.
Qed.

(** A file is found under its long name.  In a directory that holds the
    long-name entries of a name of up to 260 bytes, last piece first, followed by
    its short entry, the scan returns that short entry, whatever entries of other
    files come before and whatever follows, with either case rule. *)
Theorem lfn_lookup ci hi chk name k others sfn post lfn :
  long_name name k -> Forall (other_entry name) others -> short_entry sfn ->
  scan_file ci (others ++ lfn_entries hi chk name k ++ sfn :: post) lfn name = Some (FoundFile sfn).
Proof.
  intros Hn Ho Hs. rewrite scan_others by done.
  pose proof (length_lfn_padded name k Hn) as Hlp. destruct (trim_name name k Hn) as [junk Ht].
  destruct Hn as [Hc _ _ Hk]. pose proof (names_match_trimmed ci name junk Hc) as Hm. rewrite <- Ht in Hm.
  destruct k as [|j]; [lia|]. cbn [lfn_entries app].
  rewrite (scan_piece ci _ _ hi chk _ (S j) j _ sfn);
    [|done|lia|lia|by right|intros ->; by cbn]. case_decide; [done|].
  apply scan_rest with (k := S j); (done || lia).
Qed.

Lemma lfn_lookup_witness :
  scan_file false (([str "KERNEL     " ++ [32] ++ replicate 20 0] ++
     lfn_entries 0 77 (str "limine-bios-cd.config") 2) ++ (str "LIMINE~1CON" ++ [32] ++ replicate 20 0) :: [])
    (replicate 261 0) (str "limine-bios-cd.config") =
  Some (FoundFile (str "LIMINE~1CON" ++ [32] ++ replicate 20 0)).
Proof.
  rewrite <- app_assoc. apply (lfn_lookup false 0 77 (str "limine-bios-cd.config") 2).
  - split; [|done|vm_compute; lia|lia]. by repeat constructor.
  - repeat constructor; by vm_compute.
  - repeat split; by vm_compute.
Defined.

(** ** The driver on a medium *)

Section theorems.
Context `{D : Disk} {media : Z -> Z -> Z} `{!DiskSpec D media}.

(** C27: the driver is safe on any medium.  Opening any path on any readable
    volume returns, without an access outside the buffers and within the bounds
    of its loops, circular and truncated tables included; a handle it gives out
    has a geometry the later arithmetic cannot overflow, and is either empty or
    carries the cluster chain the table describes. *)
Theorem fat32_open_safe ci v path : vol_ready (media := media) v ->
  exists r v', fat32_open ci path v = Ret (r, v') /\ same_volume v v' /\ vol_ready (media := media) v' /\
    forall h, r = Some h -> handle_ok (media := media) v h.
Proof. intros Hv. by apply runs_Ret, runs_open. Qed.

(** C17: [cache_cluster_chain] follows the table.  When the table can be read, it
    always returns, and it returns the list [l] exactly when [l] is the chain
    from the first cluster to an end mark along the entries of the table, read as
    one little-endian integer cut into 12, 16 or 32 bit fields, and [l] is no
    longer than the number of clusters; a circular chain gives NULL. *)
Theorem cluster_chain_correct ctx v c : ctx_ok ctx -> vol_ready (media := media) v ->
  readable v (fat_base ctx) (fat_size ctx) ->
  exists r v', cache_cluster_chain ctx c v = Ret (r, v') /\
    forall l, r = Some l <-> valid_chain ctx (content (media := media) v) c l.
Proof.
  intros Hctx Hv Hr. destruct (runs_Ret v _ _ Hv (runs_chain ctx v c Hctx)) as (r & v' & He & _ & _ & Hres).
  exists r, v'. split; [done|]. intros l. destruct r as [l'|]; simpl in Hres.
  - split; [by intros [= <-]|]. intros (_ & Hl & _). destruct Hres as (_ & Hl' & _).
    by rewrite (linked_unique _ _ _ _ _ Hl Hl').
  - split; [done|]. intros Hl. by destruct (Hres Hr l).
Qed.

(** C23: [fat32_read] returns the bytes of the file.  For a handle of the driver,
    a read within the clusters of the file whose sectors can be read fills the
    buffer with the bytes of the file at that offset, across cluster boundaries,
    and leaves the rest of the buffer alone. *)
Theorem fat32_read_correct v h buf loc count :
  vol_ready (media := media) v -> handle_ok (media := media) v h ->
  0 <= loc -> 0 <= count -> count <= Z.of_nat (length buf) ->
  loc + count <= Z.of_nat (length h.(cluster_chain)) * block_size h.(context) ->
  data_readable v h.(context) h.(cluster_chain) ->
  exists v', fat32_read h buf loc count v =
    Ret (bytes_at (file_byte h.(context) (content (media := media) v) h.(cluster_chain)) loc (Z.to_nat count)
           ++ drop (Z.to_nat count) buf, v') /\ vol_ready (media := media) v'.
Proof.
  intros Hv (Hctx & _ & Hch) Hl Hc Hbuf Hfit Hread.
  pose proof (block_size_range _ Hctx) as Hbs. pose proof (max_clusters_range _ Hctx) as Hm.
  assert (Forall (fun c => 2 <= c < W32) h.(cluster_chain) /\ Z.of_nat (length h.(cluster_chain)) <= FAT32_MAX_CHAIN_LENGTH) as [Hch2 Hlen].
  { destruct Hch as [[-> _]|Hch]; [done|]. split; [by eapply valid_chain_range|]. destruct Hch as (_ & _ & ?). lia. }
  unfold FAT32_MAX_CHAIN_LENGTH in *.
  destruct (runs_Ret v _ _ Hv (runs_read_chain h.(context) v h.(cluster_chain) buf loc count Hctx Hch2 Hl Hc ltac:(nia) Hbuf))
    as (r & v' & He & _ & Hv' & Hres).
  exists v'. split; [|done]. unfold fat32_read, mbind, VM_bind. rewrite He.
  destruct r as [b|]; simpl in Hres; [by subst|]. by destruct (Hres Hfit).
Qed.
End theorems.

(** ** A FAT12 image *)

Definition demo_bpb : list Z :=
  [235; 60; 144] ++ str "MSWIN4.1" ++ [0; 2; 1; 1; 0; 1; 16; 0; 16; 0; 248; 1; 0] ++ replicate 30 0 ++ str "FAT12   ".
Definition demo_fat : list Z := [248; 255; 255; 3; 240; 255].
Definition demo_root : list Z := str "HELLO   TXT" ++ [32] ++ replicate 14 0 ++ [2; 0] ++ le_store 4 700.

(** Boot sector, table, root directory, then data. *)
Definition fat_image (drive i : Z) : Z :=
  if i <? 0 then 0
  else if i <? 512 then nth (Z.to_nat i) demo_bpb 0
  else if i <? 1024 then nth (Z.to_nat (i - 512)) demo_fat 0
  else if i <? 1536 then nth (Z.to_nat (i - 1024)) demo_root 0
  else i `mod` 256.

Lemma nth_byte i l : forallb (fun b => (0 <=? b) && (b <? 256)) l = true -> is_byte (nth i l 0).
Proof.
  intros H. destruct (nth_in_or_default i l 0) as [Hin| ->]; [|done].
  rewrite forallb_forall in H. specialize (H _ Hin). apply andb_true_iff in H as [?%Z.leb_le ?%Z.ltb_lt]. done.
Qed.

#[export] Instance fat_disk_spec : DiskSpec (ram_disk fat_image) fat_image.
Proof.
  apply ram_disk_spec. intros d i. unfold fat_image. repeat case_match; try (by apply nth_byte); [done|].
  unfold is_byte. by apply Z.mod_pos_bound.
Qed.

Definition fat_volume : volume := demo_volume 512 4 0 16.

Lemma fat_volume_ready : vol_ready (media := fat_image) fat_volume.
Proof.
  split; [|done|by right]. split; [|done|done]. split; vm_compute; intuition congruence.
Qed.

Lemma fat32_open_safe_witness :
  exists r v', fat32_open (H := ram_disk fat_image) false (str "hello.txt") fat_volume = Ret (r, v') /\
    same_volume fat_volume v' /\ vol_ready (media := fat_image) v' /\
    forall h, r = Some h -> handle_ok (media := fat_image) fat_volume h.
Proof. apply (fat32_open_safe (D := ram_disk fat_image)), fat_volume_ready. Defined.

Definition demo_context : fat32_context :=
  {| type := 12; label := None; bytes_per_sector := 512; sectors_per_cluster := 1; reserved_sectors := 1;
     number_of_fats := 1; hidden_sectors := 0; sectors_per_fat := 1; fat_start_lba := 1; data_start_lba := 3;
     root_directory_cluster := 0; root_entries := 16; root_start := 2; root_size := 1 |}.

(** The path is found: the handle is the one of the image's file. *)
Lemma demo_open :
  fst <$> (match fat32_open (H := ram_disk fat_image) false (str "/hello.txt") fat_volume with Ret r => Some r | _ => None end)
  = Some (Some {| context := demo_context; first_cluster := 2; size_bytes := 700; cluster_chain := [2; 3] |}).
Proof. vm_compute. reflexivity. Qed.

Lemma demo_context_ok : ctx_ok demo_context.
Proof. split; vm_compute; intuition congruence. Qed.

Lemma demo_readable loc count : 0 <= loc -> 0 <= count -> loc + count < 8192 ->
  readable (D := ram_disk fat_image) fat_volume loc count.
Proof. intros. split_and!; [done|done|simpl; lia|]. right. simpl. lia. Qed.

Lemma demo_chain : valid_chain demo_context (content (media := fat_image) fat_volume) 2 [2; 3].
Proof. split_and!; [done| |done]. vm_compute. intuition congruence. Qed.

Lemma cluster_chain_correct_witness :
  exists r v', cache_cluster_chain (H := ram_disk fat_image) demo_context 2 fat_volume = Ret (r, v') /\
    forall l, r = Some l <-> valid_chain demo_context (content (media := fat_image) fat_volume) 2 l.
Proof.
  apply (cluster_chain_correct (D := ram_disk fat_image)); [apply demo_context_ok|apply fat_volume_ready|].
  apply demo_readable; by vm_compute.
Defined.

Definition demo_handle : fat32_file_handle :=
  {| context := demo_context; first_cluster := 2; size_bytes := 700; cluster_chain := [2; 3] |}.

Lemma fat32_read_correct_witness :
  exists v', fat32_read (H := ram_disk fat_image) demo_handle (replicate 5 0) 510 4 fat_volume =
    Ret ([254; 255; 0; 1; 0], v') /\ vol_ready (media := fat_image) v'.
Proof.
  replace [254; 255; 0; 1; 0] with
    (bytes_at (file_byte demo_context (content (media := fat_image) fat_volume) [2; 3]) 510 4 ++ drop 4 (replicate 5 0))
    by (vm_compute; reflexivity).
  apply (fat32_read_correct (D := ram_disk fat_image) fat_volume demo_handle (replicate 5 0) 510 4);
    [apply fat_volume_ready| |lia|lia|simpl; lia|vm_compute; congruence|].
  - split_and!; [apply demo_context_ok|done..|]. right. apply demo_chain.
  - do 2 (apply List.Forall_cons; [apply demo_readable; by vm_compute|]). apply List.Forall_nil.
Defined.
