(* ===== verification/Iso9660.v ===== *)
(** * The ISO 9660 file system: common/fs/iso9660.s2.c

    Every function of the driver.  Directories are byte arrays and every access to
    one is bounds-checked ([Undef] outside), so that memory safety is a theorem
    and not a modelling choice.  Directory entries are offsets; the buffers come
    from [ext_mem_alloc], which returns page-aligned memory, so aligning an
    address to a sector is aligning the offset.  A volume pointer is a number;
    the list of cached root directories is threaded. *)

From S2P Require Import Prelude Bytes Libc Volume.

Definition ISO9660_SECTOR_SIZE : Z := 2048.
Definition ISO9660_FLAG_MULTI_EXTENT : Z := 128.
Definition ISO9660_FIRST_VOLUME_DESCRIPTOR : Z := 16.
Definition ISO9660_MAX_VOLUME_DESCRIPTORS : nat := 256.
Definition ISO9660_MAX_EXTENT_COUNT : Z := 65536.
Definition ISO9660_MAX_DIR_SIZE : Z := 64 * 1024 * 1024.
Definition ROCK_RIDGE_MAX_FILENAME : nat := 255.
Definition ISO9660_VDT_PRIMARY : Z := 1.
Definition ISO9660_VDT_TERMINATOR : Z := 255.

(** [sizeof(struct iso9660_directory_entry)] *)
Definition DIRENT : Z := 33.

Record iso9660_context := { vol : Z; root : list Z; root_size : Z }.

Record iso9660_extent := { LBA : Z; extent_size : Z }.

Record iso9660_file_handle := { total_size : Z; extents : list iso9660_extent }.

(** ** Fields of the directory entry at [e] *)

Definition rd8 (dir : list Z) (i : Z) : outcome Z := get dir (Z.to_nat i).
Definition rd32 (dir : list Z) (i : Z) : outcome Z :=
  if i + 4 <=? Z.of_nat (length dir) then Ret (le_load (slice (Z.to_nat i) 4 dir)) else Undef.

Definition entry_length (dir : list Z) (e : Z) : outcome Z := rd8 dir e.
Definition entry_extent (dir : list Z) (e : Z) : outcome Z := rd32 dir (e + 2).
Definition entry_extent_size (dir : list Z) (e : Z) : outcome Z := rd32 dir (e + 10).
Definition entry_flags (dir : list Z) (e : Z) : outcome Z := rd8 dir (e + 25).
Definition entry_filename_size (dir : list Z) (e : Z) : outcome Z := rd8 dir (e + 32).

(** ** Names *)

(** The search for a Rock Ridge NM record: its offset and the length of the name. *)
Fixpoint rock_ridge (fuel : nat) (dir : list Z) (sysarea sysarea_len : Z) : outcome (option (Z * Z)) :=
  if sysarea_len <? 4 then Ret None
  else
    s3 ← rd8 dir (sysarea + 3);
    if negb (s3 =? 1) then Ret None
    else
      s2 ← rd8 dir (sysarea + 2);
      if sysarea_len <? s2 then Ret None
      else
        s0 ← rd8 dir sysarea;
        s1 ← rd8 dir (sysarea + 1);
        if (s0 =? 78) && (s1 =? 77) then
          Ret (if (5 <=? s2) && (s2 <=? sysarea_len) then Some (sysarea, s2 - 5) else None)
        else if s2 =? 0 then Ret None
        else match fuel with
             | O => Diverge
             | S fuel => rock_ridge fuel dir (sysarea + s2) (sysarea_len - s2)
             end.

(** The plain name, up to its version number. *)
Fixpoint iso_name (k : nat) (dir : list Z) (p : Z) : outcome (list Z) :=
  match k with
  | O => Ret []
  | S k =>
      c ← rd8 dir p;
      if c =? 59 then Ret []
      else
        stop ← (if (c =? 46) && bool_decide (0 < k)%nat then n ← rd8 dir (p + 1); Ret (n =? 59) else Ret false);
        if (stop : bool) then Ret []
        else
          rest ← iso_name k dir (p + 1);
          Ret (c :: rest)
  end.

(** [use_iso_name] *)
Definition plain_name (dir : list Z) (e limit : Z) : outcome (bool * list Z) :=
  length ← entry_length dir e;
  filename_size ← entry_filename_size dir e;
  if limit <=? filename_size then Panic "iso9660: Filename size exceeded"
  else
    let name_len := if length <? DIRENT + filename_size then
                      (if length <=? DIRENT then 0 else length - DIRENT)
                    else filename_size in
    name ← iso_name (Z.to_nat name_len) dir (e + DIRENT);
    Ret (false, name).

(** [load_name]: whether the name is a Rock Ridge one, and the name. *)
Definition load_name (dir : list Z) (e limit : Z) : outcome (bool * list Z) :=
  length ← entry_length dir e;
  filename_size ← entry_filename_size dir e;
  if length <? DIRENT + filename_size then plain_name dir e limit
  else
    let sysarea := e + DIRENT + filename_size in
    let sysarea_len := length - DIRENT - filename_size in
    let even := Z.land filename_size 1 =? 0 in
    if even && (sysarea_len =? 0) then plain_name dir e limit
    else
      let sysarea := if even then sysarea + 1 else sysarea in
      let sysarea_len := if even then sysarea_len - 1 else sysarea_len in
      nm ← rock_ridge 256 dir sysarea sysarea_len;
      match nm with
      | Some (nm_entry, rrnamelen) =>
          if 0 <? rrnamelen then
            if limit <=? rrnamelen then Panic "iso9660: Filename size exceeded"
            else if nm_entry + 5 + rrnamelen <=? Z.of_nat (List.length dir)
            then Ret (true, slice (Z.to_nat (nm_entry + 5)) (Z.to_nat rrnamelen) dir)
            else Undef
          else plain_name dir e limit
      | None => plain_name dir e limit
      end.

(** ** Directories *)

(** [iso9660_next_entry]: the offset of the next entry, [None] for NULL. *)
Definition iso9660_next_entry (dir : list Z) (current : Z) : outcome (option Z) :=
  let buffer_end := Z.of_nat (length dir) in
  len ← entry_length dir current;
  if len =? 0 then
    let next_sector := ALIGN_UP (current + 1) ISO9660_SECTOR_SIZE in
    if buffer_end <=? next_sector then Ret None
    else
      len ← entry_length dir next_sector;
      Ret (if len =? 0 then None else Some next_sector)
  else
    let next := current + len in
    if buffer_end <=? next then Ret None
    else
      len ← entry_length dir next;
      if len =? 0 then
        let next_sector := ALIGN_UP (next + 1) ISO9660_SECTOR_SIZE in
        if buffer_end <=? next_sector then Ret None
        else
          len ← entry_length dir next_sector;
          Ret (if len =? 0 then None else if len <? DIRENT then None else Some next_sector)
      else Ret (if len <? DIRENT then None else Some next).

Section iso.
Context `{Disk}.
(** [case_insensitive_fopen] *)
Context (case_insensitive_fopen : bool).

Definition name_matches (rr : bool) (filename entry_filename : list Z) : bool :=
  (if rr && negb case_insensitive_fopen then strcmp filename entry_filename
   else strcasecmp filename entry_filename) =? 0.

(** [iso9660_find]: the offset of the entry, [None] for NULL; [size] bytes are
    left from [buffer] on. *)
Fixpoint iso9660_find (fuel : nat) (dir : list Z) (buffer size : Z) (filename : list Z) : outcome (option Z) :=
  if size =? 0 then Ret None
  else
    match fuel with
    | O => Diverge
    | S fuel =>
        len ← entry_length dir buffer;
        if len =? 0 then
          if size <=? ISO9660_SECTOR_SIZE then Ret None
          else
            let aligned := ALIGN_DOWN size ISO9660_SECTOR_SIZE in
            if size =? aligned then
              iso9660_find fuel dir (buffer + ISO9660_SECTOR_SIZE) (size - ISO9660_SECTOR_SIZE) filename
            else iso9660_find fuel dir (buffer + (size - aligned)) aligned filename
        else if size <? len then Ret None
        else if len <? DIRENT then Ret None
        else
          r ← load_name dir buffer 256;
          let '(rr, entry_filename) := (r : bool * list Z) in
          if name_matches rr filename entry_filename then Ret (Some buffer)
          else iso9660_find fuel dir (buffer + len) (size - len) filename
    end.

(** ** Opening *)

(** The scan for the primary volume descriptor; [k] descriptors are left. *)
Fixpoint iso9660_find_PVD (k : nat) (lba : Z) : VM (list Z) :=
  match k with
  | O => vpanic "ISO9660: exceeded maximum volume descriptor search limit"
  | S k =>
      r ← vread (lba * ISO9660_SECTOR_SIZE) 2048;
      match r with
      | None => vpanic "ISO9660: failed to read volume descriptor"
      | Some desc =>
          if hd0 desc =? ISO9660_VDT_PRIMARY then mret desc
          else if hd0 desc =? ISO9660_VDT_TERMINATOR then vpanic "ISO9660: no primary volume descriptor"
          else iso9660_find_PVD k (lba + 1)
      end
  end.

(** [iso9660_cache_root]: the root directory, whose entry is at offset 156 of the
    descriptor. *)
Definition iso9660_cache_root : VM (list Z * Z) :=
  pv ← iso9660_find_PVD ISO9660_MAX_VOLUME_DESCRIPTORS ISO9660_FIRST_VOLUME_DESCRIPTOR;
  let root_size := le_load (slice (156 + 10) 4 pv) in
  if (root_size =? 0) || (ISO9660_MAX_DIR_SIZE <? root_size) then vpanic "ISO9660: Invalid root directory size"
  else
    r ← vread (le_load (slice (156 + 2) 4 pv) * ISO9660_SECTOR_SIZE) root_size;
    match r with
    | None => vpanic "ISO9660: failed to read root directory"
    | Some root => mret (root, root_size)
    end.

(** [iso9660_get_context]: the cached context of the volume, or a new one that
    is put in front of the list. *)
Definition iso9660_get_context (contexts : list iso9660_context) (v : Z)
    : VM (iso9660_context * list iso9660_context) :=
  match list_find (fun c => c.(vol) = v) contexts with
  | Some (_, c) => mret (c, contexts)
  | None =>
      r ← iso9660_cache_root;
      let '(root, size) := (r : list Z * Z) in
      let c := {| vol := v; root := root; root_size := size |} in
      mret (c, c :: contexts)
  end.

(** A path component of at most 254 characters; the rest starts at a slash or is empty. *)
Fixpoint iso_component (k : nat) (path acc : list Z) : outcome (list Z * list Z) :=
  if (hd0 path =? 47) || (hd0 path =? 0) then Ret (reverse acc, path)
  else match k with
       | O => Panic "iso9660: Path component exceeds maximum length"
       | S k => iso_component k (tl0 path) (hd0 path :: acc)
       end.

Fixpoint skip_slash (path : list Z) : list Z :=
  match path with
  | c :: path' => if c =? 47 then skip_slash path' else path
  | [] => []
  end.

(** First pass over the extents of a file: their number and total size. *)
Fixpoint count_extents (fuel : nat) (dir : list Z) (e extent_count total : Z) : outcome (Z * Z) :=
  flags ← entry_flags dir e;
  if Z.land flags ISO9660_FLAG_MULTI_EXTENT =? 0 then Ret (extent_count, total)
  else
    match fuel with
    | O => Diverge
    | S fuel =>
        next ← iso9660_next_entry dir e;
        match next with
        | None => Ret (extent_count, total)
        | Some e =>
            size ← entry_extent_size dir e;
            if ISO9660_MAX_EXTENT_COUNT <=? extent_count + 1 then Ret (extent_count + 1, total + size)
            else count_extents fuel dir e (extent_count + 1) (total + size)
        end
    end.

(** Second pass: the table of extents. *)
Fixpoint fill_extents (k : nat) (dir : list Z) (e : Z) : outcome (list iso9660_extent) :=
  match k with
  | O => Ret []
  | S k =>
      lba ← entry_extent dir e;
      size ← entry_extent_size dir e;
      let x := {| LBA := lba; extent_size := size |} in
      match k with
      | O => Ret [x]
      | _ =>
          next ← iso9660_next_entry dir e;
          match next with
          | None => Ret (x :: replicate k {| LBA := 0; extent_size := 0 |})
          | Some e => rest ← fill_extents k dir e; Ret (x :: rest)
          end
      end
  end.

Definition file_extents (dir : list Z) (e : Z) : outcome iso9660_file_handle :=
  size ← entry_extent_size dir e;
  r ← count_extents (Z.to_nat ISO9660_MAX_EXTENT_COUNT) dir e 1 size;
  let '(extent_count, total) := (r : Z * Z) in
  xs ← fill_extents (Z.to_nat extent_count) dir e;
  Ret {| total_size := total; extents := xs |}.

(** The walk down the directory tree. *)
Fixpoint iso_walk (fuel : nat) (dir : list Z) (size : Z) (path : list Z) : VM (option iso9660_file_handle) :=
  match fuel with
  | O => lift Diverge
  | S fuel =>
      let path := skip_slash path in
      if hd0 path =? 0 then mret None
      else
        r ← lift (iso_component (ROCK_RIDGE_MAX_FILENAME - 1) path []);
        let '(filename, path) := (r : list Z * list Z) in
        found ← lift (iso9660_find (Z.to_nat size) dir 0 size filename);
        match found with
        | None => mret None
        | Some e =>
            next_sector ← lift (entry_extent dir e);
            next_size ← lift (entry_extent_size dir e);
            if hd0 path =? 0 then
              h ← lift (file_extents dir e);
              mret (Some h)
            else if (next_size =? 0) || (ISO9660_MAX_DIR_SIZE <? next_size) then mret None
            else
              d ← vread (next_sector * ISO9660_SECTOR_SIZE) next_size;
              match d with
              | None => mret None
              | Some d => iso_walk fuel d next_size (tl0 path)
              end
        end
  end.

(** [iso9660_open]: the handle, [None] for NULL, and the cached contexts. *)
Definition iso9660_open (contexts : list iso9660_context) (v : Z) (path : list Z)
    : VM (option iso9660_file_handle * list iso9660_context) :=
  r ← vread (ISO9660_FIRST_VOLUME_DESCRIPTOR * ISO9660_SECTOR_SIZE + 1) 5;
  match r with
  | None => mret (None, contexts)
  | Some buf =>
      if negb (strcmp buf (str "CD001") =? 0) then mret (None, contexts)
      else
        r ← iso9660_get_context contexts v;
        let '(ctx, contexts) := (r : iso9660_context * list iso9660_context) in
        h ← iso_walk (S (length path)) ctx.(root) ctx.(root_size) (skip_slash path);
        mret (h, contexts)
  end.

(** ** Reading *)

(** The loop of [iso9660_read]: [buf] is filled from [done] on; what is left of
    the request is [loc], [count]. *)
Fixpoint read_extents (xs : list iso9660_extent) (buf : list Z) (done extent_start loc count : Z)
    : VM (list Z * Z) :=
  match xs with
  | [] => mret (buf, count)
  | x :: xs =>
      if count =? 0 then mret (buf, count)
      else
        let extent_end := u64 (extent_start + x.(extent_size)) in
        if loc <? extent_end then
          let offset_in_extent := if extent_start <? loc then loc - extent_start else 0 in
          let bytes_available := x.(extent_size) - offset_in_extent in
          let to_read := if count <? bytes_available then count else bytes_available in
          r ← vread (x.(LBA) * ISO9660_SECTOR_SIZE + offset_in_extent) to_read;
          match r with
          | None => vpanic "iso9660: failed to read file data"
          | Some bytes =>
              buf ← lift (blit buf (Z.to_nat done) bytes);
              read_extents xs buf (done + to_read) extent_end (loc + to_read) (count - to_read)
          end
        else read_extents xs buf done extent_end loc count
  end.

Definition iso9660_read (f : iso9660_file_handle) (buf : list Z) (loc count : Z) : VM (list Z) :=
  r ← read_extents f.(extents) buf 0 0 loc count;
  let '(buf, count) := (r : list Z * Z) in
  if 0 <? count then vpanic "iso9660: read beyond end of file" else mret buf.
End iso.
