(* ===== verification/Iso9660Spec.v ===== *)
(** * Correctness of the ISO 9660 driver

    The directory scan stays within the directory on arbitrary bytes and finds
    the first matching record of a well-formed one; reads return the bytes of the
    extents in order. *)

From S2P Require Import Prelude Bytes Libc Volume VolumeSpec VolumeLogic Iso9660.

(** ** Reading an entry *)

Lemma rd8_in dir i : 0 <= i < Z.of_nat (length dir) ->
  exists b, rd8 dir i = Ret b /\ dir !! Z.to_nat i = Some b.
Proof.
  intros Hi. destruct (lookup_lt_is_Some_2 dir (Z.to_nat i) ltac:(lia)) as [b Hb].
  exists b. split; [by apply get_lookup|done].
Qed.

Lemma rd8_byte dir i : Forall is_byte dir -> 0 <= i < Z.of_nat (length dir) ->
  exists b, rd8 dir i = Ret b /\ 0 <= b < 256.
Proof.
  intros Hd Hi. destruct (rd8_in dir i Hi) as (b & Hb & Hl). exists b. split; [done|].
  exact (proj1 (Forall_lookup _ _) Hd _ _ Hl).
Qed.

(** Reads of a part of a buffer. *)
Lemma rd8_shift pre mid post i : 0 <= i < Z.of_nat (length mid) ->
  rd8 (pre ++ mid ++ post) (Z.of_nat (length pre) + i) = rd8 mid i.
Proof.
  intros Hi. unfold rd8, get. replace (Z.to_nat (Z.of_nat (length pre) + i)) with (length pre + Z.to_nat i)%nat by lia.
  rewrite lookup_app_r by lia. rewrite lookup_app_l by lia. by replace (length pre + Z.to_nat i - length pre)%nat with (Z.to_nat i) by lia.
Qed.

(** ** Names *)

Section names.
Context (dir : list Z) (Hdir : Forall is_byte dir).

Lemma rock_ridge_safe fuel : forall sys len, 0 <= sys -> len < Z.of_nat fuel -> sys + len <= Z.of_nat (length dir) ->
  exists r, rock_ridge fuel dir sys len = Ret r /\
    forall p n, r = Some (p, n) -> sys <= p /\ p + 5 + n <= sys + len /\ 0 <= n <= 250.
Proof.
  induction fuel as [|fuel IH]; intros sys len Hs Hf Hl; cbn [rock_ridge]; split_ltb len 4; try (by eexists); [lia|].
  destruct (rd8_byte dir (sys + 3) Hdir ltac:(lia)) as (s3 & -> & _). cbn [mbind outcome_bind].
  split_eqb s3 1; cbn [negb]; [|by eexists].
  destruct (rd8_byte dir (sys + 2) Hdir ltac:(lia)) as (s2 & -> & H2). cbn [mbind outcome_bind].
  split_ltb len s2; [by eexists|].
  destruct (rd8_byte dir sys Hdir ltac:(lia)) as (s0 & -> & _). cbn [mbind outcome_bind].
  destruct (rd8_byte dir (sys + 1) Hdir ltac:(lia)) as (s1 & -> & _). cbn [mbind outcome_bind].
  destruct ((s0 =? 78) && (s1 =? 77)).
  { eexists. split; [done|]. intros p n. split_leb 5 s2; cbn [andb]; [|done]. case_b; [|done]. intros [= <- <-]. lia. }
  split_eqb s2 0; [by eexists|].
  destruct (IH (sys + s2) (len - s2)) as (r & Hr & Hrng); [lia..|]. exists r. split; [done|].
  intros p n ->. specialize (Hrng p n eq_refl). lia.
Qed.

Lemma iso_name_safe k : forall p, 0 <= p -> p + Z.of_nat k <= Z.of_nat (length dir) ->
  exists name, iso_name k dir p = Ret name /\ (length name <= k)%nat.
Proof.
  induction k as [|k IH]; intros p Hp Hk; cbn [iso_name]; [by exists []|].
  destruct (rd8_byte dir p Hdir ltac:(lia)) as (c & -> & _). cbn [mbind outcome_bind].
  destruct (c =? 59); [exists []; split; [done|simpl; lia]|].
  assert (exists b : bool, (if (c =? 46) && bool_decide (0 < k)%nat then n ← rd8 dir (p + 1); Ret (n =? 59) else Ret false) = Ret b) as [b ->].
  { case_match eqn:E; [|by eexists]. apply andb_true_iff in E as [_ E%bool_decide_eq_true].
    destruct (rd8_byte dir (p + 1) Hdir ltac:(lia)) as (n & -> & _). by eexists. }
  cbn [mbind outcome_bind]. destruct b; [exists []; split; [done|simpl; lia]|].
  destruct (IH (p + 1)) as (rest & -> & Hl); [lia..|]. exists (c :: rest). split; [done|simpl; lia].
Qed.

Definition entry_in (e len : Z) : Prop :=
  0 <= e /\ entry_length dir e = Ret len /\ DIRENT <= len < 256 /\ e + len <= Z.of_nat (length dir).

Lemma plain_name_safe e len : entry_in e len -> exists name, plain_name dir e 256 = Ret (false, name).
Proof.
  intros (He & Hlen & Hr & Hl). unfold DIRENT in *. unfold plain_name. rewrite Hlen. cbn [mbind outcome_bind].
  destruct (rd8_byte dir (e + 32) Hdir ltac:(lia)) as (fs & Hfs & Hfr). unfold entry_filename_size. rewrite Hfs.
  cbn [mbind outcome_bind]. split_leb 256 fs; [lia|]. unfold DIRENT.
  destruct (iso_name_safe (Z.to_nat (if len <? 33 + fs then if len <=? 33 then 0 else len - 33 else fs)) (e + 33)) as (name & -> & _).
  - lia.
  - repeat case_b; lia.
  - by eexists.
Qed.

Lemma load_name_safe e len : entry_in e len -> exists rr name, load_name dir e 256 = Ret (rr, name).
Proof.
  intros Hin. destruct (plain_name_safe e len Hin) as [plain Hplain].
  destruct Hin as (He & Hlen & Hr & Hl). unfold load_name. rewrite Hlen. cbn [mbind outcome_bind].
  unfold DIRENT in *.
  destruct (rd8_byte dir (e + 32) Hdir ltac:(lia)) as (fs & Hfs & Hfr). unfold entry_filename_size. rewrite Hfs.
  cbn [mbind outcome_bind]. split_ltb len (33 + fs); [by eexists _, _|].
  set (even := Z.land fs 1 =? 0). destruct (even && _) eqn:Ee; [by eexists _, _|].
  assert (exists sys sl, (if even then e + 33 + fs + 1 else e + 33 + fs) = sys /\
    (if even then len - 33 - fs - 1 else len - 33 - fs) = sl /\ 0 <= sys /\ sl < 256 /\ sys + sl <= Z.of_nat (length dir)) as (sys & sl & -> & -> & H1 & H2 & H3).
  { eexists _, _. split_and!; [done..| | |]; destruct even; lia. }
  destruct (rock_ridge_safe 256 sys sl) as (nm & -> & Hnm); [lia..|]. cbn [mbind outcome_bind].
  destruct nm as [[p n]|]; [|by eexists _, _]. specialize (Hnm p n eq_refl).
  split_ltb 0 n; [|by eexists _, _]. split_leb 256 n; [lia|].
  split_leb (p + 5 + n) (Z.of_nat (length dir)); [by eexists _, _|lia].
Qed.
End names.

(** ** Safety of the scan *)

(** The entry found: a whole record of the directory, under the name looked for. *)
Definition found_entry (ci : bool) (dir filename : list Z) (e : Z) : Prop :=
  exists len rr name, entry_in dir e len /\ load_name dir e 256 = Ret (rr, name) /\
    name_matches ci rr filename name = true.

Lemma find_safe ci dir filename : Forall is_byte dir -> forall fuel buffer size,
  0 <= buffer -> 0 <= size <= Z.of_nat fuel -> size < W64 -> buffer + size = Z.of_nat (length dir) ->
  exists r, iso9660_find ci fuel dir buffer size filename = Ret r /\
    forall e, r = Some e -> found_entry ci dir filename e.
Proof.
  intros Hdir. induction fuel as [|fuel IH]; intros buffer size Hb Hf Hw Hs; cbn [iso9660_find];
    split_eqb size 0; try (by eexists); [lia|].
  destruct (rd8_byte dir buffer Hdir ltac:(lia)) as (len & Hlen & Hr). unfold entry_length at 1. rewrite Hlen.
  cbn [mbind outcome_bind]. unfold ISO9660_SECTOR_SIZE, DIRENT. split_eqb len 0.
  - split_leb size 2048; [by eexists|].
    destruct (ALIGN_DOWN_spec size 2048 ltac:(lia) ltac:(lia)) as (k & Hk & Ha & Ha0).
    split_eqb size (ALIGN_DOWN size 2048); apply IH; lia.
  - split_ltb size len; [by eexists|]. split_ltb len 33; [by eexists|].
    assert (entry_in dir buffer len) as Hin by (split_and!; [lia|done|unfold DIRENT; lia..]).
    destruct (load_name_safe dir Hdir buffer len Hin) as (rr & name & Hn). rewrite Hn. cbn [mbind outcome_bind].
    destruct (name_matches ci rr filename name) eqn:Em; [|apply IH; lia].
    eexists. split; [done|]. intros e [= <-]. by exists len, rr, name.
Qed.

(** the directory scan is safe on arbitrary bytes.  Whatever the directory
    holds, [iso9660_find] ends, without panicking and without reading outside the
    directory, and an entry it returns is a whole record of the directory whose
    name, by the rules of [load_name], is the one looked for. *)
Theorem iso9660_find_safe ci dir filename :
  Forall is_byte dir -> Z.of_nat (length dir) < W64 ->
  exists r, iso9660_find ci (length dir) dir 0 (Z.of_nat (length dir)) filename = Ret r /\
    forall e, r = Some e -> found_entry ci dir filename e.
Proof. intros Hd Hw. by apply find_safe; [done|lia..]. Qed.

Lemma iso9660_find_safe_witness :
  exists r, iso9660_find false 3 [2; 0; 7] 0 3 (str "A") = Ret r /\
    forall e, r = Some e -> found_entry false [2; 0; 7] (str "A") e.
Proof. apply (iso9660_find_safe false [2; 0; 7] (str "A")); [by repeat constructor|done]. Defined.

(** ** Names depend on their record only *)

Definition shift_nm (off : Z) (r : option (Z * Z)) : option (Z * Z) :=
  match r with Some (p, n) => Some (off + p, n) | None => None end.

Lemma record_len r : Forall is_byte r -> hd0 r = Z.of_nat (length r) -> (33 <= length r)%nat ->
  entry_length r 0 = Ret (Z.of_nat (length r)) /\ Z.of_nat (length r) < 256.
Proof.
  intros Hb Hh Hl. destruct r as [|b m]; [simpl in *; lia|]. apply Forall_cons in Hb as [Hb _]. unfold is_byte in Hb.
  simpl in Hh. split; [|simpl in *; lia]. unfold entry_length, rd8, get. simpl. by rewrite Hh.
Qed.

Section local.
Context (pre mid post : list Z) (Hmid : Forall is_byte mid).
Let dir := pre ++ mid ++ post.
Let off := Z.of_nat (length pre).

Lemma rock_ridge_local fuel : forall sys len, 0 <= sys -> sys + len <= Z.of_nat (length mid) ->
  rock_ridge fuel dir (off + sys) len =
  (r ← rock_ridge fuel mid sys len; Ret (shift_nm off r)).
Proof.
  assert (forall i, 0 <= i < Z.of_nat (length mid) -> rd8 dir (off + i) = rd8 mid i) as Hrd by (intros; by apply rd8_shift).
  induction fuel as [|fuel IH]; intros sys len Hs Hl; cbn [rock_ridge]; split_ltb len 4; try done;
    rewrite <- !Z.add_assoc, !Hrd by lia;
    destruct (rd8_byte mid (sys + 3) Hmid ltac:(lia)) as (s3 & -> & _);
    destruct (rd8_byte mid (sys + 2) Hmid ltac:(lia)) as (s2 & -> & H2);
    destruct (rd8_byte mid sys Hmid ltac:(lia)) as (s0 & -> & _);
    destruct (rd8_byte mid (sys + 1) Hmid ltac:(lia)) as (s1 & -> & _); cbn [mbind outcome_bind];
    (destruct (negb (s3 =? 1)); [done|]); split_ltb len s2; try done;
    destruct ((s0 =? 78) && (s1 =? 77)); [by case_match| |by case_match|]; split_eqb s2 0; try done.
  rewrite <- Z.add_assoc, IH by lia. done.
Qed.

Lemma iso_name_local k : forall p, 0 <= p -> p + Z.of_nat k <= Z.of_nat (length mid) ->
  iso_name k dir (off + p) = iso_name k mid p.
Proof.
  assert (forall i, 0 <= i < Z.of_nat (length mid) -> rd8 dir (off + i) = rd8 mid i) as Hrd by (intros; by apply rd8_shift).
  induction k as [|k IH]; intros p Hp Hk; cbn [iso_name]; [done|]. rewrite Hrd by lia.
  destruct (rd8_byte mid p Hmid ltac:(lia)) as (c & -> & _). cbn [mbind outcome_bind].
  destruct (c =? 59); [done|]. rewrite <- Z.add_assoc, IH by lia.
  destruct ((c =? 46) && bool_decide (0 < k)%nat) eqn:E; [|done].
  apply andb_true_iff in E as [_ E%bool_decide_eq_true]. by rewrite Hrd by lia.
Qed.

Context (Hrec : hd0 mid = Z.of_nat (length mid)) (Hlen : (33 <= length mid)%nat).

Lemma plain_name_local : plain_name dir off 256 = plain_name mid 0 256.
Proof.
  destruct (record_len mid Hmid Hrec Hlen) as [Hl Hb]. unfold plain_name, DIRENT.
  assert (entry_length dir off = Ret (Z.of_nat (length mid))) as ->.
  { rewrite <- Hl. unfold entry_length. rewrite <- (Z.add_0_r off). apply rd8_shift. lia. }
  assert (entry_filename_size dir off = entry_filename_size mid 0) as -> by (apply rd8_shift; lia).
  rewrite Hl. cbn [mbind outcome_bind].
  destruct (rd8_byte mid 32 Hmid ltac:(lia)) as (fs & Hfs & Hfr). unfold entry_filename_size. rewrite Z.add_0_l, Hfs.
  cbn [mbind outcome_bind]. case_match; [done|]. rewrite (iso_name_local _ 33); [done|lia|].
  repeat case_b; lia.
Qed.

Lemma load_name_local : load_name dir off 256 = load_name mid 0 256.
Proof.
  destruct (record_len mid Hmid Hrec Hlen) as [Hl Hb]. unfold load_name, DIRENT. rewrite plain_name_local.
  assert (entry_length dir off = Ret (Z.of_nat (length mid))) as ->.
  { rewrite <- Hl. unfold entry_length. rewrite <- (Z.add_0_r off). apply rd8_shift. lia. }
  assert (entry_filename_size dir off = entry_filename_size mid 0) as -> by (apply rd8_shift; lia).
  rewrite Hl. cbn [mbind outcome_bind].
  destruct (rd8_byte mid 32 Hmid ltac:(lia)) as (fs & Hfs & Hfr). unfold entry_filename_size. rewrite Z.add_0_l, Hfs.
  cbn [mbind outcome_bind]. split_ltb (Z.of_nat (length mid)) (33 + fs); [done|].
  set (even := Z.land fs 1 =? 0). destruct (even && _) eqn:Ee; [done|].
  assert (exists sys sl, (if even then off + 33 + fs + 1 else off + 33 + fs) = off + sys /\
    (if even then 0 + 33 + fs + 1 else 0 + 33 + fs) = sys /\
    (if even then Z.of_nat (length mid) - 33 - fs - 1 else Z.of_nat (length mid) - 33 - fs) = sl /\
    0 <= sys /\ sl < 256 /\ sys + sl <= Z.of_nat (length mid)) as (sys & sl & -> & -> & -> & H1 & H2 & H3).
  { eexists (if even then 33 + fs + 1 else 33 + fs), _. split_and!; [..|done| | |]; destruct even; lia. }
  rewrite rock_ridge_local by done.
  destruct (rock_ridge_safe mid Hmid 256 sys sl) as (nm & -> & Hnm); [lia..|]. cbn [mbind outcome_bind shift_nm].
  destruct nm as [[p n]|]; [|done]. specialize (Hnm p n eq_refl). cbn [shift_nm].
  split_ltb 0 n; [|done]. split_leb 256 n; [done|].
  split_leb (p + 5 + n) (Z.of_nat (length mid)); [|lia].
  assert (Z.of_nat (length dir) = off + Z.of_nat (length mid) + Z.of_nat (length post)) as Hd
    by (unfold dir, off; rewrite !length_app; lia).
  split_leb (off + p + 5 + n) (Z.of_nat (length dir)); [|lia]. do 2 f_equal. unfold slice, dir, off.
  rewrite drop_app_ge, drop_app_le by lia.
  replace (Z.to_nat (Z.of_nat (length pre) + p + 5) - length pre)%nat with (Z.to_nat (p + 5)) by lia.
  rewrite take_app_le by (rewrite length_drop; lia). done.
Qed.
End local.

(** ** Well-formed directories *)

(** A record starts with its length; a sector is its records and zeros; a
    directory is its sectors. *)
Definition record_ok (r : list Z) : Prop :=
  Forall is_byte r /\ hd0 r = Z.of_nat (length r) /\ (33 <= length r)%nat.
Definition sector_ok (rs : list (list Z)) : Prop :=
  Forall record_ok rs /\ (length (concat rs) <= 2048)%nat.
Definition sector (rs : list (list Z)) : list Z :=
  concat rs ++ replicate (2048 - length (concat rs)) 0.
Definition directory (ss : list (list (list Z))) : list Z := concat (sector <$> ss).

Section lookup.
Context (ci : bool) (filename : list Z).

Definition record_matches (r : list Z) : bool :=
  match load_name r 0 256 with
  | Ret (rr, name) => name_matches ci rr filename name
  | _ => false
  end.

(** The offset of the first matching record. *)
Fixpoint first_record (rs : list (list Z)) (off : Z) : option Z :=
  match rs with
  | [] => None
  | r :: rs => if record_matches r then Some off else first_record rs (off + Z.of_nat (length r))
  end.
Fixpoint first_match (ss : list (list (list Z))) (off : Z) : option Z :=
  match ss with
  | [] => None
  | rs :: ss => match first_record rs off with
                | Some e => Some e
                | None => first_match ss (off + 2048)
                end
  end.

Lemma length_sector rs : sector_ok rs -> length (sector rs) = 2048%nat.
Proof. intros [_ H]. unfold sector. rewrite length_app, length_replicate. lia. Qed.

Lemma length_directory ss : Forall sector_ok ss -> length (directory ss) = (2048 * length ss)%nat.
Proof.
  unfold directory. induction 1 as [|rs ss Hs _ IH]; [done|]. cbn [fmap list_fmap concat length].
  rewrite length_app, length_sector by done. fold (fmap (M := list) sector ss). lia.
Qed.

(** One record at the front of what is left. *)
Lemma find_record fuel pre r post size : record_ok r -> size <> 0 -> Z.of_nat (length r) <= size ->
  iso9660_find ci (S fuel) (pre ++ r ++ post) (Z.of_nat (length pre)) size filename =
  if record_matches r then Ret (Some (Z.of_nat (length pre)))
  else iso9660_find ci fuel (pre ++ r ++ post) (Z.of_nat (length pre) + Z.of_nat (length r)) (size - Z.of_nat (length r)) filename.
Proof.
  intros (Hb & Hh & Hl) Hs Hle. cbn [iso9660_find]. split_eqb size 0; [done|].
  destruct (record_len r Hb Hh Hl) as [Hlen Hlt].
  assert (entry_length (pre ++ r ++ post) (Z.of_nat (length pre)) = Ret (Z.of_nat (length r))) as ->.
  { rewrite <- Hlen. unfold entry_length. rewrite <- (Z.add_0_r (Z.of_nat (length pre))). apply rd8_shift. lia. }
  cbn [mbind outcome_bind]. unfold DIRENT. split_eqb (Z.of_nat (length r)) 0; [lia|].
  split_ltb size (Z.of_nat (length r)); [lia|]. split_ltb (Z.of_nat (length r)) 33; [lia|].
  rewrite (load_name_local pre r post Hb Hh Hl). unfold record_matches.
  destruct (load_name_safe r Hb 0 (Z.of_nat (length r))) as (rr & name & ->).
  { split_and!; [lia|done|unfold DIRENT; lia..]. }
  done.
Qed.

(** The zeros at the end of a sector. *)
Lemma find_padding fuel pre n rest size : (0 < n <= 2048)%nat -> 0 < size < W64 ->
  (exists k, 0 <= k /\ size = Z.of_nat n + 2048 * k) ->
  iso9660_find ci (S fuel) (pre ++ replicate n 0 ++ rest) (Z.of_nat (length pre)) size filename =
  if size <=? 2048 then Ret None
  else iso9660_find ci fuel (pre ++ replicate n 0 ++ rest) (Z.of_nat (length pre) + Z.of_nat n) (size - Z.of_nat n) filename.
Proof.
  intros Hn Hs (k & Hk & Hsize). cbn [iso9660_find]. split_eqb size 0; [lia|].
  assert (entry_length (pre ++ replicate n 0 ++ rest) (Z.of_nat (length pre)) = Ret 0) as ->.
  { unfold entry_length. rewrite <- (Z.add_0_r (Z.of_nat (length pre))).
    rewrite rd8_shift by (rewrite length_replicate; lia). by destruct n; [lia|]. }
  cbn [mbind outcome_bind Z.eqb]. unfold ISO9660_SECTOR_SIZE. split_leb size 2048; [done|].
  destruct (ALIGN_DOWN_spec size 2048 ltac:(lia) ltac:(lia)) as (q & Hq & Ha & Ha0).
  split_eqb size (ALIGN_DOWN size 2048).
  - by replace (Z.of_nat n) with 2048 by lia.
  - replace (size - ALIGN_DOWN size 2048) with (Z.of_nat n) by lia. by replace (ALIGN_DOWN size 2048) with (size - Z.of_nat n) by lia.
Qed.

(** From inside a sector, given what happens from the next one on. *)
Lemma find_in_sector (m : nat) (rest : list Z) (next : Z -> option Z) :
  (forall pre fuel size, size = 2048 * Z.of_nat m -> size < W64 -> size <= Z.of_nat fuel ->
    iso9660_find ci fuel (pre ++ rest) (Z.of_nat (length pre)) size filename = Ret (next (Z.of_nat (length pre)))) ->
  (m = 0%nat -> forall off, next off = None) ->
  forall rs, Forall record_ok rs -> forall pre n fuel size, (length (concat rs) + n <= 2048)%nat ->
  size = Z.of_nat (length (concat rs)) + Z.of_nat n + 2048 * Z.of_nat m ->
  size < W64 -> size <= Z.of_nat fuel ->
  iso9660_find ci fuel (pre ++ (concat rs ++ replicate n 0) ++ rest) (Z.of_nat (length pre)) size filename =
  Ret (match first_record rs (Z.of_nat (length pre)) with
       | Some e => Some e
       | None => next (Z.of_nat (length pre) + Z.of_nat (length (concat rs)) + Z.of_nat n)
       end).
Proof.
  intros Hnext Hnil rs Hrs. induction Hrs as [|r rs Hr Hrs IH]; intros pre n fuel size Hn Hsize Hw Hf; cbn [concat first_record].
  - cbn [concat app length] in *. destruct (decide (n = 0%nat)) as [->|].
    { cbn [replicate app]. rewrite Hnext by lia. do 2 f_equal. lia. }
    destruct fuel as [|fuel]; [lia|].
    rewrite find_padding; [|lia|lia|exists (Z.of_nat m); lia].
    split_leb size 2048; [rewrite Hnil by lia; done|].
    replace (pre ++ replicate n 0 ++ rest) with ((pre ++ replicate n 0) ++ rest) by (by rewrite app_assoc).
    replace (Z.of_nat (length pre) + Z.of_nat n) with (Z.of_nat (length (pre ++ replicate n 0))) by (rewrite length_app, length_replicate; lia).
    rewrite Hnext by lia. do 2 f_equal. rewrite length_app, length_replicate. lia.
  - cbn [concat] in Hsize, Hn. rewrite length_app in Hsize, Hn.
    pose proof Hr as (_ & _ & H33). destruct fuel as [|fuel]; [lia|].
    rewrite <- !app_assoc. rewrite find_record by (done || lia). destruct (record_matches r); [done|].
    replace (pre ++ r ++ concat rs ++ replicate n 0 ++ rest) with ((pre ++ r) ++ (concat rs ++ replicate n 0) ++ rest)
      by (by rewrite <- !app_assoc).
    replace (Z.of_nat (length pre) + Z.of_nat (length r)) with (Z.of_nat (length (pre ++ r))) by (rewrite length_app; lia).
    rewrite IH by lia. rewrite !length_app. do 2 f_equal. case_match; [done|]. f_equal. lia.
Qed.

Lemma find_sectors ss : Forall sector_ok ss -> forall pre fuel size,
  size = 2048 * Z.of_nat (length ss) -> size < W64 -> size <= Z.of_nat fuel ->
  iso9660_find ci fuel (pre ++ directory ss) (Z.of_nat (length pre)) size filename =
  Ret (first_match ss (Z.of_nat (length pre))).
Proof.
  induction 1 as [|rs ss [Hrs Hl] Hss IH]; intros pre fuel size Hsize Hw Hf.
  - simpl in Hsize. subst. by destruct fuel.
  - cbn [length] in Hsize. unfold directory. cbn [fmap list_fmap concat]. unfold sector at 1.
    change (concat (list_fmap _ _ sector ss)) with (directory ss).
    rewrite (find_in_sector (length ss) (directory ss) (first_match ss)) by (done || lia || by destruct ss).
    cbn [first_match]. do 2 f_equal. case_match; [done|]. f_equal. lia.
Qed.

(** the directory scan is complete.  In a directory of sectors, each made of
    records and zero padding, some of them possibly empty, [iso9660_find] returns
    the offset of the first record whose name matches, and NULL exactly when no
    record does. *)
Theorem iso9660_find_first ss : Forall sector_ok ss -> 2048 * Z.of_nat (length ss) < W64 ->
  iso9660_find ci (length (directory ss)) (directory ss) 0 (Z.of_nat (length (directory ss))) filename =
  Ret (first_match ss 0).
Proof.
  intros Hss Hw. pose proof (length_directory ss Hss) as Hl.
  apply (find_sectors ss Hss [] (length (directory ss))); lia.
Qed.
End lookup.

(** A record without a Rock Ridge name. *)
Definition demo_record (name : list Z) : list Z :=
  let n := (33 + length name + (if Nat.even (length name) then 1 else 0))%nat in
  [Z.of_nat n] ++ replicate 31 0 ++ [Z.of_nat (length name)] ++ name ++ replicate (n - 33 - length name) 0.

Definition demo_sectors : list (list (list Z)) :=
  [[demo_record (str "A.;1"); demo_record (str "KERNEL.ELF;1")]; [demo_record (str "LIMINE.CONF;1")]].

Lemma iso9660_find_first_witness :
  iso9660_find false (length (directory demo_sectors)) (directory demo_sectors) 0
    (Z.of_nat (length (directory demo_sectors))) (str "limine.conf") = Ret (Some 2048).
Proof.
  rewrite (iso9660_find_first false (str "limine.conf") demo_sectors); [vm_compute; reflexivity| |done].
  repeat constructor; try (vm_compute; lia); by vm_compute.
Defined.

(** ** Reading a file *)

(** Byte [k] of the file with the given extents, and its length. *)
Fixpoint extent_byte (f : Z -> Z) (xs : list iso9660_extent) (k : Z) : Z :=
  match xs with
  | [] => 0
  | x :: xs => if k <? x.(extent_size) then f (x.(LBA) * 2048 + k) else extent_byte f xs (k - x.(extent_size))
  end.
Fixpoint extents_size (xs : list iso9660_extent) : Z :=
  match xs with [] => 0 | x :: xs => x.(extent_size) + extents_size xs end.

Definition extent_ok (x : iso9660_extent) : Prop := 0 <= x.(LBA) < W32 /\ 0 <= x.(extent_size) < W32.

Lemma extents_size_range xs : Forall extent_ok xs -> 0 <= extents_size xs <= W32 * Z.of_nat (length xs).
Proof. induction 1 as [|x xs [_ Hx] _ IH]; cbn [extents_size length]; lia. Qed.

Section read.
Context `{D : Disk} {media : Z -> Z -> Z} `{!DiskSpec D media}.
Context (v : volume) (xs0 : list iso9660_extent) (buf : list Z) (loc0 count0 : Z).
Let f := content (media := media) v.
Let g := extent_byte f xs0.

Definition extents_readable (xs : list iso9660_extent) : Prop :=
  Forall (fun x => forall o n, 0 <= o -> 0 < n -> o + n <= x.(extent_size) -> readable v (x.(LBA) * 2048 + o) n) xs.

Lemma runs_extents xs : Forall extent_ok xs -> extents_readable xs -> forall done start,
  (forall k, start <= k < start + extents_size xs -> g k = extent_byte f xs (k - start)) ->
  0 <= loc0 -> 0 <= start -> start + extents_size xs < W64 -> 0 <= done <= count0 -> count0 <= Z.of_nat (length buf) ->
  (done = count0 \/ start <= loc0 + done /\ loc0 + count0 <= start + extents_size xs) ->
  runs (media := media) (fun _ => False) v
    (read_extents xs (bytes_at g loc0 (Z.to_nat done) ++ drop (Z.to_nat done) buf) done start (loc0 + done) (count0 - done))
    (fun r => r = (bytes_at g loc0 (Z.to_nat count0) ++ drop (Z.to_nat count0) buf, 0)).
Proof.
  induction 1 as [|x xs [Hlba Hsz] Hxs IH]; intros Hread done start Hg Hl Hs Hw Hd Hbuf Hinv; cbn [read_extents extents_size] in *.
  { assert (done = count0) as -> by lia. apply runs_ret. by rewrite Z.sub_diag. }
  apply Forall_cons in Hread as [Hrx Hread].
  pose proof (extents_size_range xs Hxs) as Hrng.
  split_eqb (count0 - done) 0.
  { assert (done = count0) as -> by lia. apply runs_ret. by rewrite Z.sub_diag. }
  rewrite (u64_small (start + extent_size x)) by lia.
  assert (forall k, start + extent_size x <= k < start + extent_size x + extents_size xs ->
    g k = extent_byte f xs (k - (start + extent_size x))) as Hg'.
  { intros k Hk. rewrite Hg by lia. cbn [extent_byte]. split_ltb (k - start) (extent_size x); [lia|]. f_equal. lia. }
  split_ltb (loc0 + done) (start + extent_size x).
  2:{ apply IH; (done || lia). }
  assert ((if start <? loc0 + done then loc0 + done - start else 0) = loc0 + done - start) as -> by (case_b; lia).
  set (o := loc0 + done - start). set (n := if count0 - done <? _ then _ else _).
  assert (0 < n <= count0 - done /\ o + n <= extent_size x /\ (n = count0 - done \/ o + n = extent_size x)) as (Hn1 & Hn2 & Hn3)
    by (unfold n, o; case_b; lia).
  unfold ISO9660_SECTOR_SIZE. eapply runs_bind; [apply runs_vread; nia|]. intros [bytes|] Hr; simpl in Hr.
  2:{ exfalso. apply Hr. apply Hrx; lia. }
  destruct Hr as [_ ->].
  replace (bytes_at (content v) (LBA x * 2048 + o) (Z.to_nat n)) with (bytes_at g (loc0 + Z.of_nat (Z.to_nat done)) (Z.to_nat n)).
  2:{ symmetry. apply bytes_at_ext; [apply length_bytes_at|]. intros i Hi. rewrite lookup_bytes_at by done. f_equal.
      rewrite Hg by lia. cbn [extent_byte].
      split_ltb (loc0 + Z.of_nat (Z.to_nat done) + Z.of_nat i - start) (extent_size x); [|lia].
      unfold f. f_equal. lia. }
  rewrite blit_progress by lia. apply runs_lift_bind.
  replace (Z.to_nat done + Z.to_nat n)%nat with (Z.to_nat (done + n)) by lia.
  replace (loc0 + done + n) with (loc0 + (done + n)) by lia. replace (count0 - done - n) with (count0 - (done + n)) by lia.
  apply IH; (done || lia).
Qed.
End read.

Section theorems.
Context `{D : Disk} {media : Z -> Z -> Z} `{!DiskSpec D media}.

(** C24: [iso9660_read] returns the bytes of the file.  For a file of any number
    of extents, some possibly empty, a read that lies within the file fills the
    buffer with the bytes at that offset of the concatenation of the extents, and
    leaves the rest of the buffer alone. *)
Theorem iso9660_read_correct v h buf loc count :
  vol_ready (media := media) v -> Forall extent_ok h.(extents) -> Z.of_nat (length h.(extents)) <= ISO9660_MAX_EXTENT_COUNT ->
  0 <= loc -> 0 <= count -> count <= Z.of_nat (length buf) -> loc + count <= extents_size h.(extents) ->
  extents_readable v h.(extents) ->
  exists v', iso9660_read h buf loc count v =
    Ret (bytes_at (extent_byte (content (media := media) v) h.(extents)) loc (Z.to_nat count) ++ drop (Z.to_nat count) buf, v') /\
    vol_ready (media := media) v'.
Proof.
  intros Hv Hx Hn Hl Hc Hbuf Hfit Hread. pose proof (extents_size_range _ Hx) as Hrng. unfold ISO9660_MAX_EXTENT_COUNT in Hn.
  destruct (runs_Ret v _ _ Hv (runs_extents v h.(extents) buf loc count h.(extents) Hx Hread 0 0
    ltac:(intros k _; f_equal; lia) Hl ltac:(lia) ltac:(lia) ltac:(lia) Hbuf ltac:(lia))) as (r & v' & He & _ & Hv' & ->).
  rewrite Z.add_0_r, Z.sub_0_r in He. change (Z.to_nat 0) with 0%nat in He. cbn [bytes_at seq fmap list_fmap app] in He. rewrite drop_0 in He.
  exists v'. split; [|done]. unfold iso9660_read, mbind, VM_bind. rewrite He. done.
Qed.
End theorems.

(** Two extents on the demonstration medium, the first of them one byte long. *)
Definition demo_extents : list iso9660_extent :=
  [{| LBA := 1; extent_size := 1 |}; {| LBA := 0; extent_size := 0 |}; {| LBA := 2; extent_size := 300 |}].

Lemma demo_extents_readable : extents_readable (D := ram_disk demo_media) (demo_volume 512 4 0 16) demo_extents.
Proof.
  do 3 (apply List.Forall_cons; [intros o n Ho Hn Hs; simpl in *; split_and!; [done|done|simpl; lia|right; simpl; lia]|]).
  apply List.Forall_nil.
Qed.

Lemma iso9660_read_correct_witness :
  exists v', iso9660_read (H := ram_disk demo_media) {| total_size := 301; extents := demo_extents |} [7; 7; 7; 7] 0 3
    (demo_volume 512 4 0 16) =
    Ret (bytes_at (extent_byte (content (media := demo_media) (demo_volume 512 4 0 16)) demo_extents) 0 3 ++ [7], v') /\
    vol_ready (media := demo_media) v'.
Proof.
  apply (iso9660_read_correct (D := ram_disk demo_media) (demo_volume 512 4 0 16)
    {| total_size := 301; extents := demo_extents |} [7; 7; 7; 7] 0 3); [ | |vm_compute; congruence|lia|lia|simpl; lia|simpl; lia|].
  - split; [|done|by right]. split; [|done|done]. split; vm_compute; intuition congruence.
  - repeat constructor; simpl; lia.
  - apply demo_extents_readable.
Defined.

(** A directory whose last record says that the file goes on in the next one, of
    which only the length byte is in the buffer. *)
Definition cut_directory : list Z :=
  [34] ++ replicate 24 0 ++ [ISO9660_FLAG_MULTI_EXTENT] ++ replicate 6 0 ++ [1; 65; 40].

(** The extents of a file are read past the end of the directory.
    [iso9660_next_entry] checks that the next record starts in the buffer, not
    that it ends there: on this directory the name is found, and collecting the
    extents of the file reads outside the buffer. *)
Theorem multi_extent_overread :
  iso9660_find false 40 cut_directory 0 (Z.of_nat (length cut_directory)) (str "a") = Ret (Some 0) /\
  file_extents cut_directory 0 = Undef.
Proof. split; vm_compute; reflexivity. Qed.
