(* ===== verification/File.v ===== *)
(** * Files: common/fs/file.s2.c

    The layer above the file system drivers: the label of a partition, opening a
    file on whichever file system the volume has, and reading from an open file. *)

From S2P Require Import Prelude Bytes Libc Volume Fat32 Iso9660.

(** The [fd] of a handle with its [read] function: the bytes of a file in memory,
    or the handle of a driver. *)
Inductive file_fd :=
| MemFile (bytes : list Z)
| Fat32File (h : fat32_file_handle)
| Iso9660File (h : iso9660_file_handle).

(** [struct file_handle]; [is_memfile] is the constructor of [fd]. *)
Record file_handle := {
  readall : bool;
  path : list Z;
  fd : file_fd;
  size : Z
}.

Section files.
Context `{Disk}.
Context (case_insensitive_fopen : bool).

(** [tftp_open(part, "", filename)]: the network boot firmware. *)
Context (tftp_open : list Z -> VM (option file_handle)).

Definition fs_get_label : VM (option (list Z)) := fat32_get_label case_insensitive_fopen.
Definition fs_get_guid : VM (option (list Z)) := mret None.

(** The name with a leading slash. *)
Definition rooted (filename : list Z) : list Z :=
  if hd0 filename =? 47 then filename else 47 :: filename.

(** [fopen]: the handle, [None] for NULL; [contexts] are the cached ISO 9660
    contexts and [v] is the address of the volume. *)
Definition fopen (contexts : list iso9660_context) (v : Z) (filename : list Z)
    : VM (option file_handle * list iso9660_context) := fun part =>
  let filename := rooted filename in
  if part.(pxe) then
    (h ← tftp_open filename; mret (h, contexts)) part
  else
    (r ← iso9660_open case_insensitive_fopen contexts v filename;
     let '(h, contexts) := (r : option iso9660_file_handle * list iso9660_context) in
     match h with
     | Some h => mret (Some {| readall := false; path := filename; fd := Iso9660File h; size := h.(total_size) |}, contexts)
     | None =>
         h ← fat32_open case_insensitive_fopen filename;
         mret ((fun h => {| readall := false; path := filename; fd := Fat32File h; size := h.(size_bytes) |}) <$> h, contexts)
     end) part.

(** [fread]: the buffer afterwards. *)
Definition fread (f : file_handle) (buf : list Z) (loc count : Z) : VM (list Z) :=
  match f.(fd) with
  | MemFile bytes =>
      if (f.(size) <=? loc) || (f.(size) - loc <? count) then vpanic "fread: attempted out of bounds read"
      else if Z.of_nat (length bytes) <? loc + count then lift Undef
      else lift (blit buf 0 (slice (Z.to_nat loc) (Z.to_nat count) bytes))
  | Fat32File h => fat32_read h buf loc count
  | Iso9660File h => iso9660_read h buf loc count
  end.
End files.
