(* ===== verification/Part.v ===== *)
(** * Partition tables: common/lib/part.s2.c

    GPT and MBR partitions of a disk, logical partitions included, and the lookup
    of a volume in the index of volumes.  A partition is a [volume] of its own,
    with its own block cache. *)

From S2P Require Import Prelude Bytes Libc Volume Fat32 File.

Definition NO_PARTITION : Z := -1.
Definition INVALID_TABLE : Z := -2.
Definition END_OF_TABLE : Z := -3.

(** [struct gpt_table_header], 92 bytes: the fields the code reads. *)
Record gpt_table_header := {
  signature : list Z;
  revision : Z;
  disk_guid : list Z;
  partition_entry_lba : Z;
  number_of_partition_entries : Z;
  size_of_partition_entry : Z
}.
Definition load_gpt_header (bs : list Z) : gpt_table_header :=
  {| signature := slice 0 8 bs; revision := field 8 4 bs; disk_guid := slice 56 16 bs;
     partition_entry_lba := field 72 8 bs; number_of_partition_entries := field 80 4 bs;
     size_of_partition_entry := field 84 4 bs |}.

(** [struct gpt_entry], 128 bytes. *)
Record gpt_entry := {
  unique_partition_guid : list Z;
  starting_lba : Z;
  ending_lba : Z
}.
Definition load_gpt_entry (bs : list Z) : gpt_entry :=
  {| unique_partition_guid := slice 16 16 bs; starting_lba := field 32 8 bs; ending_lba := field 40 8 bs |}.

(** [struct mbr_entry], 16 bytes. *)
Record mbr_entry := {
  mbr_type : Z;
  mbr_first_sect : Z;
  mbr_sect_count : Z
}.
Definition load_mbr_entry (bs : list Z) : mbr_entry :=
  {| mbr_type := field 4 1 bs; mbr_first_sect := field 8 4 bs; mbr_sect_count := field 12 4 bs |}.

(** The geometry fields of a partition; the other fields of [ret] keep their
    values.  [backing] is the address of the disk. *)
Definition set_geometry (ret disk : volume) (partno first count backing : Z) : volume :=
  {| drive := disk.(drive); fastest_xfer_size := disk.(fastest_xfer_size); index := disk.(index);
     is_optical := disk.(is_optical); pxe := ret.(pxe); partition := partno;
     sector_size := disk.(sector_size); backing_dev := backing; max_partition := ret.(max_partition);
     cache_status := ret.(cache_status); cache := ret.(cache); cached_block := ret.(cached_block);
     first_sect := first; sect_count := count;
     guid_valid := ret.(guid_valid); guid := ret.(guid);
     part_guid_valid := ret.(part_guid_valid); part_guid := ret.(part_guid);
     fslabel_valid := ret.(fslabel_valid); fslabel := ret.(fslabel) |}.

(** The identification fields, from what [fs_get_guid] and [fs_get_label] return
    and from the partition table. *)
Definition set_ids (ret : volume) (g lbl pguid : option (list Z)) : volume :=
  {| drive := ret.(drive); fastest_xfer_size := ret.(fastest_xfer_size); index := ret.(index);
     is_optical := ret.(is_optical); pxe := ret.(pxe); partition := ret.(partition);
     sector_size := ret.(sector_size); backing_dev := ret.(backing_dev); max_partition := ret.(max_partition);
     cache_status := ret.(cache_status); cache := ret.(cache); cached_block := ret.(cached_block);
     first_sect := ret.(first_sect); sect_count := ret.(sect_count);
     guid_valid := bool_decide (is_Some g); guid := default ret.(guid) g;
     part_guid_valid := bool_decide (is_Some pguid); part_guid := default ret.(part_guid) pguid;
     fslabel_valid := bool_decide (is_Some lbl); fslabel := default ret.(fslabel) lbl |}.

(** [struct volume v = {0}] *)
Definition zero_volume : volume :=
  {| drive := 0; fastest_xfer_size := 0; index := 0; is_optical := false; pxe := false; partition := 0;
     sector_size := 0; backing_dev := 0; max_partition := 0; cache_status := 0; cache := None;
     cached_block := 0; first_sect := 0; sect_count := 0; guid_valid := false; guid := [];
     part_guid_valid := false; part_guid := []; fslabel_valid := false; fslabel := [] |}.

Section part.
Context `{Disk}.
Context (case_insensitive_fopen : bool).

(** The volume a computation runs on. *)
Definition this_volume : VM volume := fun v => Ret (v, v).

(** A computation on another volume. *)
Definition on_volume {A} (w : volume) (m : VM A) : VM (A * volume) := lift (m w).

(** The end of the partition readers: the file system is asked for a GUID and a
    label, and the partition is complete. *)
Definition identify (ret : volume) (pguid : option (list Z)) : VM (Z * volume) :=
  r ← on_volume ret fs_get_guid;
  let '(g, ret) := (r : option (list Z) * volume) in
  r ← on_volume ret (fs_get_label case_insensitive_fopen);
  let '(lbl, ret) := (r : option (list Z) * volume) in
  mret (0, set_ids ret g lbl pguid).

(** ** GPT *)

(** The header, after the first block of 512 or of 4096 bytes. *)
Fixpoint find_gpt_header (lb_guesses : list Z) : VM (option (Z * gpt_table_header)) :=
  match lb_guesses with
  | [] => mret None
  | lb :: lb_guesses =>
      r ← vread lb 92;
      match r with
      | None => find_gpt_header lb_guesses
      | Some bs =>
          let header := load_gpt_header bs in
          if negb (strncmp header.(signature) (str "EFI PART") 8 =? 0) then find_gpt_header lb_guesses
          else mret (Some (lb, header))
      end
  end.

Definition lb_guesses : list Z := [512; 4096].

Definition gpt_get_guid : VM (option (list Z)) :=
  h ← find_gpt_header lb_guesses;
  match h with
  | None => mret None
  | Some (_, header) =>
      if negb (header.(revision) =? 65536) then mret None
      else mret (Some header.(disk_guid))
  end.

(** The first sector and the number of sectors, in units of 512 bytes; [None]:
    the entry is unused or its geometry does not fit. *)
Definition gpt_geometry (lb_size : Z) (entry : gpt_entry) : option (Z * Z) :=
  if bool_decide (entry.(unique_partition_guid) = replicate 16 0) then None
  else if entry.(ending_lba) <? entry.(starting_lba) then None
  else
    let sect_multiplier := lb_size / 512 in
    match mul_overflow entry.(starting_lba) sect_multiplier with
    | None => None
    | Some first =>
        let partition_size := entry.(ending_lba) - entry.(starting_lba) in
        if partition_size =? W64 - 1 then None
        else match mul_overflow (partition_size + 1) sect_multiplier with
             | None => None
             | Some count => Some (first, count)
             end
    end.

(** [gpt_get_part(ret, volume, partition)]: the code and [ret]; [self] is the
    address of the disk the computation reads.  [part_get] has checked that
    [partno] is not negative. *)
Definition gpt_get_part (self : Z) (ret : volume) (partno : Z) : VM (Z * volume) :=
  h ← find_gpt_header lb_guesses;
  match h with
  | None => mret (INVALID_TABLE, ret)
  | Some (lb_size, header) =>
      if negb (header.(revision) =? 65536) then mret (INVALID_TABLE, ret)
      else if header.(number_of_partition_entries) <=? partno then mret (END_OF_TABLE, ret)
      else if header.(size_of_partition_entry) <? 128 then mret (INVALID_TABLE, ret)
      else
        match mul_overflow header.(partition_entry_lba) lb_size with
        | None => mret (INVALID_TABLE, ret)
        | Some entry_offset =>
            match add_overflow entry_offset (partno * header.(size_of_partition_entry)) with
            | None => mret (INVALID_TABLE, ret)
            | Some entry_offset =>
                r ← vread entry_offset 128;
                match r with
                | None => mret (END_OF_TABLE, ret)
                | Some bs =>
                    let entry := load_gpt_entry bs in
                    match gpt_geometry lb_size entry with
                    | None => mret (NO_PARTITION, ret)
                    | Some (first, count) =>
                        disk ← this_volume;
                        identify (set_geometry ret disk (partno + 1) first count self)
                                 (Some entry.(unique_partition_guid))
                    end
                end
            end
        end
  end.

(** ** MBR *)

(** [volume_read(volume, &hint, loc, n)] and a test on what was read; a failed
    read fails the test. *)
Definition hint_ok (loc n : Z) (test : list Z -> bool) : VM bool :=
  r ← vread loc n;
  mret (match r with Some bs => test bs | None => false end).

Definition is_boot_flag (bs : list Z) : bool := (le_load bs =? 0) || (le_load bs =? 128).

(** The conjunction [a && b] of two computations. *)
Definition and_then (a b : VM bool) : VM bool :=
  x ← a; if (x : bool) then b else mret false.

Fixpoint all_of (hints : list (VM bool)) : VM bool :=
  match hints with
  | [] => mret true
  | h :: hints => and_then h (all_of hints)
  end.

(** Boot flags in the four entries, and no sign of a file system. *)
Definition is_valid_mbr : VM bool :=
  all_of [hint_ok 446 1 is_boot_flag; hint_ok 462 1 is_boot_flag;
          hint_ok 478 1 is_boot_flag; hint_ok 494 1 is_boot_flag;
          hint_ok 3 4 (fun bs => negb (bool_decide (bs = str "NTFS")));
          hint_ok 54 3 (fun bs => negb (bool_decide (bs = str "FAT")));
          hint_ok 82 3 (fun bs => negb (bool_decide (bs = str "FAT")));
          hint_ok 3 5 (fun bs => negb (bool_decide (bs = str "FAT32")));
          hint_ok 1080 2 (fun bs => negb (le_load bs =? 61267))].

Definition mbr_get_id : VM Z :=
  valid ← is_valid_mbr;
  if negb valid then mret 0
  else
    r ← vread 440 4;
    mret (match r with Some bs => le_load bs | None => 0 end).

Definition MAX_LOGICAL_PARTITIONS : Z := 256.

Definition is_extended (e : mbr_entry) : bool := (e.(mbr_type) =? 15) || (e.(mbr_type) =? 5).

(** The walk along the chain of extended boot records: [k] steps are left, [i]
    have been made; [None]: the chain ends before. *)
Fixpoint ebr_walk (k : nat) (i ebr_sector : Z) : VM (option Z) :=
  match k with
  | O => mret (Some ebr_sector)
  | S k =>
      r ← vread (ebr_sector * 512 + 462) 16;
      match r with
      | None => mret None
      | Some bs =>
          let entry := load_mbr_entry bs in
          if negb (is_extended entry) then mret None
          else
            let next := entry.(mbr_first_sect) in
            if (next =? 0) || ((0 <? i) && (next <=? ebr_sector)) then mret None
            else
              extended_part ← this_volume;
              if extended_part.(sect_count) <=? next then mret None
              else ebr_walk k (i + 1) next
      end
  end.

(** Run on the extended partition. *)
Definition mbr_get_logical_part (ret : volume) (partno : Z) : VM (Z * volume) :=
  if MAX_LOGICAL_PARTITIONS <=? partno then mret (END_OF_TABLE, ret)
  else
    e ← ebr_walk (Z.to_nat partno) 0 0;
    match e with
    | None => mret (END_OF_TABLE, ret)
    | Some ebr_sector =>
        r ← vread (ebr_sector * 512 + 446) 16;
        match r with
        | None => mret (END_OF_TABLE, ret)
        | Some bs =>
            let entry := load_mbr_entry bs in
            if (entry.(mbr_type) =? 0) || (entry.(mbr_sect_count) =? 0) then mret (NO_PARTITION, ret)
            else
              extended_part ← this_volume;
              match add_overflow extended_part.(first_sect) ebr_sector ≫= (fun a => add_overflow a entry.(mbr_first_sect)) with
              | None => mret (NO_PARTITION, ret)
              | Some first =>
                  match add_overflow first entry.(mbr_sect_count) with
                  | None => mret (NO_PARTITION, ret)
                  | Some _ =>
                      identify (set_geometry ret extended_part (partno + 4 + 1) first entry.(mbr_sect_count)
                                  extended_part.(backing_dev)) None
                  end
              end
        end
    end.

(** The first usable extended partition of the table, [i] onwards. *)
Fixpoint find_extended (slots : list Z) : VM (option (Z * mbr_entry)) :=
  match slots with
  | [] => mret None
  | i :: slots =>
      r ← vread (446 + 16 * i) 16;
      match r with
      | None => find_extended slots
      | Some bs =>
          let entry := load_mbr_entry bs in
          if negb (is_extended entry) then find_extended slots
          else if entry.(mbr_sect_count) =? 0 then find_extended slots
          else mret (Some (i, entry))
      end
  end.

Definition mbr_get_part (self : Z) (ret : volume) (partno : Z) : VM (Z * volume) :=
  valid ← is_valid_mbr;
  if negb valid then mret (INVALID_TABLE, ret)
  else if 3 <? partno then
    e ← find_extended [0; 1; 2; 3];
    match e with
    | None => mret (END_OF_TABLE, ret)
    | Some (i, entry) =>
        disk ← this_volume;
        r ← on_volume (set_geometry zero_volume disk (i + 1) entry.(mbr_first_sect) entry.(mbr_sect_count) self)
              (mbr_get_logical_part ret (partno - 4));
        mret (fst (r : (Z * volume) * volume))
    end
  else
    r ← vread (446 + 16 * partno) 16;
    match r with
    | None => mret (END_OF_TABLE, ret)
    | Some bs =>
        let entry := load_mbr_entry bs in
        if (entry.(mbr_type) =? 0) || (entry.(mbr_sect_count) =? 0) then mret (NO_PARTITION, ret)
        else
          disk ← this_volume;
          identify (set_geometry ret disk (partno + 1) entry.(mbr_first_sect) entry.(mbr_sect_count) self) None
    end.

Definition part_get (self : Z) (ret : volume) (partno : Z) : VM (Z * volume) :=
  if partno <? 0 then mret (NO_PARTITION, ret)
  else
    r ← gpt_get_part self ret partno;
    let '(code, ret) := (r : Z * volume) in
    if negb (code =? INVALID_TABLE) then mret (code, ret)
    else
      r ← mbr_get_part self ret partno;
      let '(code, ret) := (r : Z * volume) in
      if negb (code =? INVALID_TABLE) then mret (code, ret) else mret (INVALID_TABLE, ret).
End part.

(** ** The index of volumes *)

Fixpoint volume_get_by_guid (volume_index : list volume) (g : list Z) : option volume :=
  match volume_index with
  | [] => None
  | v :: volume_index =>
      if v.(guid_valid) && bool_decide (v.(guid) = g) then Some v
      else if v.(part_guid_valid) && bool_decide (v.(part_guid) = g) then Some v
      else volume_get_by_guid volume_index g
  end.

Fixpoint volume_get_by_fslabel (volume_index : list volume) (lbl : list Z) : option volume :=
  match volume_index with
  | [] => None
  | v :: volume_index =>
      if v.(fslabel_valid) && (strcmp v.(fslabel) lbl =? 0) then Some v
      else volume_get_by_fslabel volume_index lbl
  end.

Fixpoint volume_get_by_coord (volume_index : list volume) (optical : bool) (drv partno : Z) : option volume :=
  match volume_index with
  | [] => None
  | v :: volume_index =>
      if (v.(index) =? drv) && eqb v.(is_optical) optical && (v.(partition) =? partno) then Some v
      else volume_get_by_coord volume_index optical drv partno
  end.

Fixpoint volume_get_by_bios_drive (volume_index : list volume) (drv : Z) : option volume :=
  match volume_index with
  | [] => None
  | v :: volume_index =>
      if v.(drive) =? drv then Some v else volume_get_by_bios_drive volume_index drv
  end.
