(* ===== verification/PartSpec.v ===== *)
(** * Partition tables

    Looking up a partition is safe on any disk, and exact on a disk that can be read. *)

From S2P Require Import Prelude Bytes Volume VolumeSpec VolumeLogic Libc LibcSpec Fat32 Fat32Spec Fat32Thms.
From S2P Require Import File Part.

(** * Partition tables

    Whatever a disk holds, looking up a partition returns, and the partition is
    one the drivers above can read; on a disk that can be read, GPT entries and
    chains of extended boot records are decoded as the tables define them. *)

(** ** Rules for the other volume a computation works on *)

Lemma volume_read_refused `{Disk} v buf loc count : v.(pxe) = false -> v.(sect_count) <> W64 - 1 ->
  W64 < loc + count -> volume_read v buf loc count = Ret (false, buf, v).
Proof.
  intros Hp Hs Hw. unfold volume_read. rewrite Hp. split_eqb (sect_count v) (W64 - 1); [done|]. cbn [negb andb].
  unfold mul_overflow. split_ltb (sect_count v * 512) (W64%Z); [|done].
  split_leb (sect_count v * 512) loc; [done|]. cbn [orb]. split_ltb (sect_count v * 512 - loc) count; [done|lia].
Qed.

Section rules.
Context `{D : Disk} {media : Z -> Z -> Z} `{!DiskSpec D media}.

(** On a disk of known size no read wraps around. *)
Lemma runs_vread_known E v loc count : v.(sect_count) <> W64 - 1 -> 0 <= loc -> 0 <= count ->
  runs (media := media) E v (vread loc count) (read_result (media := media) v loc count).
Proof.
  intros Hs Hl Hc. destruct (decide (loc + count <= W64)); [by apply runs_vread|].
  intros w (s & c & b & ->) Hw. unfold vread. rewrite volume_read_refused; [|apply (vr_pxe _ Hw)|done|lia].
  cbn [mbind outcome_bind]. split_and!; [apply same_volume_set|done|]. intros (_ & _ & _ & [?|[? ?]]); lia.
Qed.

Lemma runs_this I E v : runs_in I E v this_volume (fun w => same_volume v w).
Proof. by intros w Hw HI. Qed.

Lemma runs_on I J E v {A} (w : volume) (m : VM A) Q : J w -> runs_in J (fun _ => False) w m Q ->
  runs_in I E v (on_volume w m) (fun r => Q r.1 /\ same_volume w r.2 /\ J r.2).
Proof.
  intros HJ Hm u Hu HI. destruct (runs_Ret w m Q HJ Hm) as (a & w' & He & Hs & HJ' & HQ).
  unfold on_volume, lift. rewrite He. by cbn.
Qed.

(** Identifying a partition changes its identification fields and its cache. *)
Definition identified (p : volume) (pguid : option (list Z)) (r : Z * volume) : Prop :=
  exists w lbl, same_volume p w /\ vol_safe w /\ r = (0, set_ids w None lbl pguid).

Lemma runs_identify I E v ci p pguid : vol_safe p ->
  runs_in I E v (identify ci p pguid) (identified p pguid).
Proof.
  intros Hp. unfold identify. eapply runs_bind.
  { apply (runs_on I vol_safe E v p (fs_get_guid) (fun g => g = None) Hp). by apply runs_ret. }
  intros [g p1] (Hg & Hs1 & Hp1). simpl in *. subst g. eapply runs_bind.
  { apply (runs_on I vol_safe E v p1 (fs_get_label ci) (fun _ => True) Hp1). apply safe_get_label. }
  intros [lbl p2] (_ & Hs2 & Hp2). simpl in *. apply runs_ret. exists p2, lbl. split_and!; [|done..].
  exact (same_volume_trans _ _ _ Hs1 Hs2).
Qed.
End rules.

Lemma zero_geometry_safe disk n first count backing : vol_safe disk -> 0 <= first < W64 -> 0 <= count < W64 ->
  vol_safe (set_geometry zero_volume disk n first count backing).
Proof. by intros [] ? ?; split. Qed.

Lemma set_ids_safe w g lbl pg : vol_safe w -> vol_safe (set_ids w g lbl pg).
Proof. by intros []; split. Qed.

(** ** Safety on arbitrary disks *)

(** A code with [ret] untouched, or 0 and a partition of the disk. *)
Definition partition_of (self : Z) (disk : volume) (partno : Z) (r : Z * volume) : Prop :=
  (r.1 ∈ [NO_PARTITION; INVALID_TABLE; END_OF_TABLE] /\ r.2 = zero_volume) \/
  (r.1 = 0 /\ vol_safe r.2 /\ r.2.(partition) = partno + 1 /\ r.2.(backing_dev) = self /\
   r.2.(drive) = disk.(drive) /\ r.2.(index) = disk.(index) /\ r.2.(is_optical) = disk.(is_optical) /\
   r.2.(sector_size) = disk.(sector_size) /\ r.2.(fastest_xfer_size) = disk.(fastest_xfer_size) /\ r.2.(guid_valid) = false).

Lemma refused_of self disk partno code : code ∈ [NO_PARTITION; INVALID_TABLE; END_OF_TABLE] ->
  partition_of self disk partno (code, zero_volume).
Proof. intros. by left. Qed.

Lemma identified_of self disk partno first count pg r :
  identified (set_geometry zero_volume disk (partno + 1) first count self) pg r -> partition_of self disk partno r.
Proof.
  intros (w & lbl & (s & c & b & ->) & Hw & ->). right. split_and!; try done. by apply set_ids_safe.
Qed.

Ltac refused := apply runs_ret, refused_of; set_solver.

Section safety.
Context `{D : Disk} {media : Z -> Z -> Z} `{!DiskSpec D media}.
Context (ci : bool) (self : Z) (disk : volume).
Context (Hdisk : vol_safe disk).

#[local] Abbreviation safe := (runs_in vol_safe (fun _ => False) disk).

Lemma disk_partition_safe w n first count : same_volume disk w -> 0 <= first < W64 -> 0 <= count < W64 ->
  vol_safe (set_geometry zero_volume w n first count self).
Proof. intros (s & c & b & ->) Hf Hc. by apply (zero_geometry_safe disk). Qed.

Definition header_ok (h : gpt_table_header) : Prop :=
  0 <= h.(partition_entry_lba) < W64 /\ 0 <= h.(size_of_partition_entry) < W32.

Lemma safe_header lbs : Forall (fun lb => 0 < lb < W32) lbs ->
  safe (find_gpt_header lbs) (fun r => forall lb h, r = Some (lb, h) -> lb ∈ lbs /\ header_ok h).
Proof.
  induction 1 as [|lb lbs Hlb _ IH]; cbn [find_gpt_header]; [by apply runs_ret|].
  assert (safe (find_gpt_header lbs) (fun r => forall lb' h, r = Some (lb', h) -> lb' ∈ lb :: lbs /\ header_ok h)) as IH'.
  { eapply runs_weaken; [done|]. intros r Hr lb' h ->. destruct (Hr lb' h eq_refl). set_solver. }
  eapply runs_bind; [apply safe_vread; lia|]. intros [bs|] Hr; [|done].
  destruct (Hr bs eq_refl) as [_ Hb]. case_match; [done|]. apply runs_ret. intros ? ? [= <- <-].
  split; [set_solver|]. split; [apply (field_range 72 8 bs Hb)|apply (field_range 84 4 bs Hb)].
Qed.

Lemma gpt_geometry_range lb e first count : 0 < lb -> 0 <= e.(starting_lba) -> gpt_geometry lb e = Some (first, count) ->
  0 <= first < W64 /\ 0 <= count < W64.
Proof.
  intros Hlb Hs. unfold gpt_geometry, mul_overflow. pose proof (Z.div_pos lb 512 ltac:(lia) ltac:(lia)).
  repeat (case_match; try done); intros [= <- <-]; simplify_eq.
  all: repeat match goal with H : (_ <? _) = _ |- _ => first [apply Z.ltb_lt in H|apply Z.ltb_ge in H] end; nia.
Qed.

Lemma safe_gpt partno : 0 <= partno < 2 ^ 31 ->
  safe (gpt_get_part ci self zero_volume partno) (partition_of self disk partno).
Proof.
  intros Hn. unfold gpt_get_part. eapply runs_bind; [apply safe_header; by repeat constructor|].
  intros [[lb h]|] Hh; [|refused]. destruct (Hh lb h eq_refl) as [Hlb [Hlba Hsz]].
  assert (0 < lb < W32) as Hlb' by (unfold lb_guesses in Hlb; set_unfold; lia).
  do 3 (case_match; [refused|]).
  unfold mul_overflow. split_ltb (partition_entry_lba h * lb) (W64%Z); [|refused].
  unfold add_overflow. split_ltb (partition_entry_lba h * lb + partno * size_of_partition_entry h) (W64%Z); [|refused].
  eapply runs_bind; [apply safe_vread; nia|]. intros [bs|] Hr; [|refused].
  destruct (Hr bs eq_refl) as [_ Hb]. pose proof (field_range 32 8 bs Hb) as Hst.
  destruct (gpt_geometry lb (load_gpt_entry bs)) as [[first count]|] eqn:Eg; [|refused].
  destruct (gpt_geometry_range lb (load_gpt_entry bs) first count (proj1 Hlb') (proj1 Hst) Eg) as [Hf Hc].
  eapply runs_bind; [apply runs_this|]. intros w Hw. eapply runs_weaken; [by apply runs_identify, disk_partition_safe|].
  intros r Hr'. destruct Hw as (s & c & b & ->). by eapply identified_of.
Qed.

Lemma mbr_entry_range bs : Forall is_byte bs ->
  0 <= (load_mbr_entry bs).(mbr_first_sect) < W32 /\ 0 <= (load_mbr_entry bs).(mbr_sect_count) < W32.
Proof. intros Hb. split; [apply (field_range 8 4 bs Hb)|apply (field_range 12 4 bs Hb)]. Qed.

Lemma safe_valid_mbr : safe is_valid_mbr (fun _ => True).
Proof.
  unfold is_valid_mbr. set (hints := _ : list (VM bool)).
  assert (Forall (fun h => safe h (fun _ => True)) hints) as Hall.
  { unfold hints. repeat (apply List.Forall_cons; [unfold hint_ok; eapply runs_bind; [by apply safe_vread|]; intros; by apply runs_ret|]).
    apply List.Forall_nil. }
  clearbody hints. induction Hall as [|h hs Hh _ IH]; cbn [all_of]; [by apply runs_ret|].
  eapply runs_bind; [done|]. intros [] _; [done|by apply runs_ret].
Qed.

Lemma safe_extended slots : Forall (fun i => 0 <= i < 4) slots ->
  safe (find_extended slots) (fun r => forall i e, r = Some (i, e) -> 0 <= e.(mbr_first_sect) < W32 /\ 0 <= e.(mbr_sect_count) < W32).
Proof.
  induction 1 as [|i slots Hi _ IH]; cbn [find_extended]; [by apply runs_ret|].
  eapply runs_bind; [apply safe_vread; lia|]. intros [bs|] Hr; [|done]. destruct (Hr bs eq_refl) as [_ Hb].
  do 2 (case_match; [done|]). apply runs_ret. intros ? ? [= <- <-]. by apply mbr_entry_range.
Qed.
End safety.

Section logical.
Context `{D : Disk} {media : Z -> Z -> Z} `{!DiskSpec D media}.
Context (ci : bool) (self : Z) (disk : volume) (i first count : Z).
Context (Hdisk : vol_safe disk) (Hfirst : 0 <= first < W32) (Hcount : 0 <= count < W32).

(** The extended partition. *)
Let ext : volume := set_geometry zero_volume disk (i + 1) first count self.

#[local] Abbreviation safe := (runs_in vol_safe (fun _ => False) ext).

Lemma safe_ebr_walk k : forall j s, 0 <= s < W32 -> safe (ebr_walk k j s) (fun r => forall s', r = Some s' -> 0 <= s' < W32).
Proof.
  induction k as [|k IH]; intros j s Hs; cbn [ebr_walk]; [apply runs_ret; by intros ? [= <-]|].
  eapply runs_bind; [apply safe_vread; lia|]. intros [bs|] Hr; [|by apply runs_ret].
  destruct (Hr bs eq_refl) as [_ Hb]. do 2 (case_match; [by apply runs_ret|]).
  eapply runs_bind; [apply runs_this|]. intros w Hw. case_match; [by apply runs_ret|]. by apply IH, mbr_entry_range.
Qed.

Lemma safe_logical n : 0 <= n -> safe (mbr_get_logical_part ci zero_volume n) (partition_of self disk (n + 4)).
Proof.
  intros Hn. unfold mbr_get_logical_part. case_match; [refused|].
  eapply runs_bind; [by apply safe_ebr_walk|]. intros [s|] Hs; [|refused]. specialize (Hs s eq_refl).
  eapply runs_bind; [apply safe_vread; lia|]. intros [bs|] Hr; [|refused].
  destruct (Hr bs eq_refl) as [_ Hb]. destruct (mbr_entry_range bs Hb) as [Hf Hc].
  case_match; [refused|]. eapply runs_bind; [apply runs_this|]. intros w (st & c & b & ->).
  cbn [first_sect backing_dev set_cache set_geometry ext]. unfold add_overflow.
  split_ltb (first + s) (W64%Z); [|refused]. cbn [mbind option_bind].
  split_ltb (first + s + mbr_first_sect (load_mbr_entry bs)) (W64%Z); [|refused].
  case_match; [|refused]. eapply runs_weaken; [apply runs_identify|].
  - apply (zero_geometry_safe disk); (done || lia).
  - intros r Hr'. by eapply (identified_of self disk (n + 4)).
Qed.
End logical.

Section theorems.
Context `{D : Disk} {media : Z -> Z -> Z} `{!DiskSpec D media}.

Lemma safe_mbr ci self disk partno : vol_safe disk -> 0 <= partno < 2 ^ 31 ->
  runs_in vol_safe (fun _ => False) disk (mbr_get_part ci self zero_volume partno) (partition_of self disk partno).
Proof.
  intros Hdisk Hn. unfold mbr_get_part. eapply runs_bind; [apply safe_valid_mbr|].
  intros [] _; cbn [negb]; [|refused]. split_ltb 3 partno.
  - eapply runs_bind; [apply safe_extended; by repeat constructor|]. intros [[i e]|] He; [|refused].
    destruct (He i e eq_refl) as [Hf Hc]. eapply runs_bind; [apply runs_this|]. intros w (s & c & b & ->).
    eapply runs_bind.
    { apply (runs_on vol_safe vol_safe _ disk (set_geometry zero_volume disk (i + 1) (mbr_first_sect e) (mbr_sect_count e) self)
        _ (partition_of self disk (partno - 4 + 4))); [apply zero_geometry_safe; (done || lia)|].
      apply safe_logical; (done || lia). }
    intros [r w] (Hr & _ & _). apply runs_ret. simpl in Hr. by replace (partno - 4 + 4) with partno in Hr by lia.
  - eapply runs_bind; [apply safe_vread; lia|]. intros [bs|] Hr; [|refused].
    destruct (Hr bs eq_refl) as [_ Hb]. destruct (mbr_entry_range bs Hb) as [Hf Hc].
    case_match; [refused|]. eapply runs_bind; [apply runs_this|]. intros w (s & c & b & ->).
    eapply runs_weaken; [apply runs_identify, (zero_geometry_safe disk); (done || lia)|].
    intros r Hr'. by eapply identified_of.
Qed.

(** C26: looking up a partition is safe on any disk, of known or unknown size.
    Whatever it holds, [part_get] returns for every partition number: one of the three
    error codes with the caller's structure untouched, or 0 with a partition of
    the same drive whose own reads stay within its cache.  The label of the
    partition has been looked for on the way, wherever the table says the
    partition lies. *)
Theorem part_get_safe ci self disk partno : vol_safe disk -> partno < 2 ^ 31 ->
  exists r disk', part_get ci self zero_volume partno disk = Ret (r, disk') /\
    same_volume disk disk' /\ vol_safe disk' /\ partition_of self disk partno r.
Proof.
  intros Hdisk Hn. apply runs_Ret; [done|]. unfold part_get. split_ltb partno 0; [refused|].
  eapply runs_bind; [apply safe_gpt; (done || lia)|]. intros [code p] Hp.
  case_match eqn:Ec; [by apply runs_ret|]. apply negb_false_iff, Z.eqb_eq in Ec. subst code.
  destruct Hp as [[_ Hp]|[Hp _]]; [|done]. simpl in Hp. subst p.
  eapply runs_bind; [apply safe_mbr; (done || lia)|]. intros [code p] Hp.
  case_match eqn:Ec; [by apply runs_ret|]. apply negb_false_iff, Z.eqb_eq in Ec. subst code. by apply runs_ret.
Qed.
End theorems.

Lemma demo_volume_safe fxs first count : 0 < fxs < 1000 -> 0 <= first < W32 -> 0 <= count < W32 ->
  vol_safe (demo_volume 512 fxs first count).
Proof. intros. split; try done; cbn; unfold block_bytes; cbn; lia. Qed.

Lemma part_get_safe_witness :
  exists r disk', part_get (H := ram_disk demo_media) false 5 zero_volume 1 (demo_volume 512 4 0 16) = Ret (r, disk') /\
    same_volume (demo_volume 512 4 0 16) disk' /\ vol_safe disk' /\ partition_of 5 (demo_volume 512 4 0 16) 1 r.
Proof. apply (part_get_safe (D := ram_disk demo_media)); [by apply demo_volume_safe|done]. Defined.

(** * What the partition tables say

    On a disk that can be read, a GPT partition has exactly the geometry of its
    table entry, and a logical partition is the one its chain of extended boot
    records leads to. *)

(** ** GPT *)

Definition header_at (f : Z -> Z) (lb : Z) : gpt_table_header := load_gpt_header (bytes_at f lb 92).
Definition has_gpt (f : Z -> Z) (size lb : Z) : bool :=
  (lb + 92 <=? size) && bool_decide ((header_at f lb).(signature) = str "EFI PART").

(** The first block size for which there is a header. *)
Definition gpt_block (f : Z -> Z) (size : Z) : option Z :=
  List.find (has_gpt f size) lb_guesses.

Definition unused (e : gpt_entry) : Prop := e.(unique_partition_guid) = replicate 16 0.

(** Entry [n] of the table of a disk of [size] bytes, in unbounded arithmetic:
    an error code, or first sector, number of sectors and GUID. *)
Definition gpt_spec (f : Z -> Z) (size n : Z) : Z + (Z * Z * list Z) :=
  match gpt_block f size with
  | None => inl INVALID_TABLE
  | Some lb =>
      let h := header_at f lb in
      let off := h.(partition_entry_lba) * lb + n * h.(size_of_partition_entry) in
      let e := load_gpt_entry (bytes_at f off 128) in
      let first := e.(starting_lba) * (lb / 512) in
      let count := (e.(ending_lba) - e.(starting_lba) + 1) * (lb / 512) in
      if negb (h.(revision) =? 65536) then inl INVALID_TABLE
      else if h.(number_of_partition_entries) <=? n then inl END_OF_TABLE
      else if h.(size_of_partition_entry) <? 128 then inl INVALID_TABLE
      else if W64 <=? off then inl INVALID_TABLE
      else if size <? off + 128 then inl END_OF_TABLE
      else if bool_decide (unused e) || (e.(ending_lba) <? e.(starting_lba)) || (W64 <=? first) || (W64 <=? count)
      then inl NO_PARTITION
      else inr (first, count, e.(unique_partition_guid))
  end.

(** A whole disk that can be read. *)
Definition disk_ok `{Disk} (v : volume) : Prop :=
  healthy v.(drive) /\ v.(first_sect) = 0 /\ v.(sect_count) * 512 < W64 /\ v.(sect_count) <> W64 - 1.

Section gpt.
Context `{D : Disk} {media : Z -> Z -> Z} `{!DiskSpec D media}.
Context (ci : bool) (self : Z) (v : volume).
Context (Hv : vol_ready (media := media) v) (Hdisk : disk_ok v).
Let f := content (media := media) v.
Let size := v.(sect_count) * 512.

#[local] Abbreviation run := (runs (media := media) (fun _ => False) v).

Lemma disk_read loc count : 0 <= loc -> 0 < count ->
  run (vread loc count) (fun r => r = if loc + count <=? size then Some (bytes_at f loc (Z.to_nat count)) else None).
Proof.
  intros Hl Hc. destruct Hdisk as (Hh & Hf & Hs & Hk).
  eapply runs_weaken; [apply runs_vread_known; (done || lia)|]. intros [bs|]; simpl.
  - intros [[?|[? Hin]] ->]; [done|]. unfold size. split_leb (loc + count) (sect_count v * 512); [done|lia].
  - intros Hn. unfold size. split_leb (loc + count) (sect_count v * 512); [|done]. destruct Hn.
    split_and!; [done|by rewrite Hf|lia|right; lia].
Qed.

Lemma content_bytes off n : Forall is_byte (bytes_at f off n).
Proof. apply bytes_at_bytes. intros i. apply (content_byte v). Qed.

Lemma signature_eq lb : (strncmp (header_at f lb).(signature) (str "EFI PART") 8 =? 0) =
  bool_decide ((header_at f lb).(signature) = str "EFI PART").
Proof.
  set (sg := signature (header_at f lb)).
  assert (length sg = 8%nat) as Hl by (apply length_slice; rewrite length_bytes_at; lia).
  pose proof (strncmp_eq 8 sg (str "EFI PART") ltac:(lia) ltac:(done)) as Heq.
  rewrite !take_ge in Heq by (done || lia). specialize (Heq ltac:(by repeat constructor)).
  case_bool_decide as Hd; [apply Z.eqb_eq|apply Z.eqb_neq]; naive_solver.
Qed.

Lemma run_header lbs : Forall (fun lb => 0 < lb) lbs ->
  run (find_gpt_header lbs) (fun r => r = (fun lb => (lb, header_at f lb)) <$> List.find (has_gpt f size) lbs).
Proof.
  induction 1 as [|lb lbs Hlb _ IH]; cbn [find_gpt_header]; [by apply runs_ret|].
  eapply runs_bind; [apply disk_read; lia|]. intros r ->. cbn [List.find]. unfold has_gpt at 1.
  split_leb (lb + 92) size; cbn [andb]; [|done].
  change (load_gpt_header (bytes_at f lb (Z.to_nat 92))) with (header_at f lb). rewrite signature_eq.
  case_bool_decide; cbn [negb]; [by apply runs_ret|done].
Qed.

(** What [gpt_get_part] returns for a table entry. *)
Definition gpt_result (spec : Z + (Z * Z * list Z)) (r : Z * volume) : Prop :=
  match spec with
  | inl code => r = (code, zero_volume)
  | inr (first, count, g) =>
      r.1 = 0 /\ r.2.(first_sect) = first /\ r.2.(sect_count) = count /\
      r.2.(part_guid_valid) = true /\ r.2.(part_guid) = g /\
      forall i, content (media := media) r.2 i = f (first * 512 + i)
  end.

Lemma gpt_geometry_spec lb e : 0 <= e.(starting_lba) < W64 -> 0 <= e.(ending_lba) < W64 -> 0 < lb / 512 < W32 ->
  gpt_geometry lb e =
  let first := e.(starting_lba) * (lb / 512) in
  let count := (e.(ending_lba) - e.(starting_lba) + 1) * (lb / 512) in
  if bool_decide (unused e) || (e.(ending_lba) <? e.(starting_lba)) || (W64 <=? first) || (W64 <=? count) then None
  else Some (first, count).
Proof.
  intros Hs He Hlb. unfold gpt_geometry, mul_overflow. fold (unused e). cbv zeta.
  destruct (bool_decide (unused e)); [done|]. cbn [orb].
  split_ltb (ending_lba e) (starting_lba e); [done|]. cbn [orb].
  split_ltb (starting_lba e * (lb / 512)) (W64%Z); split_leb (W64%Z) (starting_lba e * (lb / 512)); try lia; [|done]. cbn [orb].
  split_eqb (ending_lba e - starting_lba e) (W64 - 1).
  { split_leb (W64%Z) ((ending_lba e - starting_lba e + 1) * (lb / 512)); [done|nia]. }
  split_ltb ((ending_lba e - starting_lba e + 1) * (lb / 512)) (W64%Z);
    split_leb (W64%Z) ((ending_lba e - starting_lba e + 1) * (lb / 512)); (done || lia).
Qed.

Lemma new_partition_safe w n first count : same_volume v w -> 0 <= first < W64 -> 0 <= count < W64 ->
  vol_safe (set_geometry zero_volume w n first count self).
Proof.
  intros (s & c & b & ->) Hf Hc. destruct (vo_geometry v (vr_ok v Hv)) as [Hs Hx _ _]. by split.
Qed.

Lemma identified_gpt w n first count g r : same_volume v w ->
  identified (set_geometry zero_volume w n first count self) (Some g) r -> gpt_result (inr (first, count, g)) r.
Proof.
  intros (s & c & b & ->) (u & lbl & (s' & c' & b' & ->) & _ & ->). split_and!; try done. intros i.
  unfold content, f, content. cbn. by destruct Hdisk as (_ & -> & _).
Qed.

Lemma run_gpt n : 0 <= n < 2 ^ 31 -> run (gpt_get_part ci self zero_volume n) (gpt_result (gpt_spec f size n)).
Proof.
  intros Hn. unfold gpt_get_part, gpt_spec, gpt_block. eapply runs_bind; [apply run_header; by repeat constructor|].
  intros r ->. destruct (List.find _ _) as [lb|] eqn:Elb; cbn [fmap option_fmap option_map]; [|by apply runs_ret].
  assert (lb = 512 \/ lb = 4096) as Hlb.
  { apply List.find_some in Elb as [Hin _]. unfold lb_guesses in Hin. simpl in Hin. lia. }
  clear Elb. set (h := header_at f lb).
  pose proof (field_range 72 8 _ (content_bytes lb 92) : 0 <= partition_entry_lba h < W64) as Hlba.
  pose proof (field_range 84 4 _ (content_bytes lb 92) : 0 <= size_of_partition_entry h < W32) as Hsz.
  cbv zeta. case_match; [by apply runs_ret|]. case_match; [by apply runs_ret|]. case_match; [by apply runs_ret|].
  set (off := partition_entry_lba h * lb + n * size_of_partition_entry h).
  unfold mul_overflow. split_ltb (partition_entry_lba h * lb) (W64%Z).
  2:{ split_leb (W64%Z) off; [by apply runs_ret|unfold off in *; nia]. }
  unfold add_overflow. fold off. split_ltb off (W64%Z); split_leb (W64%Z) off; try lia; [|by apply runs_ret].
  eapply runs_bind; [apply disk_read; unfold off; nia|]. intros r ->.
  split_leb (off + 128) size; split_ltb size (off + 128); try lia; [|by apply runs_ret].
  change (Z.to_nat 128) with 128%nat. set (e := load_gpt_entry (bytes_at f off 128)).
  pose proof (field_range 32 8 _ (content_bytes off 128) : 0 <= starting_lba e < W64) as Hst.
  pose proof (field_range 40 8 _ (content_bytes off 128) : 0 <= ending_lba e < W64) as Hen.
  rewrite gpt_geometry_spec; [|done..|by destruct Hlb as [-> | ->]]. cbv zeta.
  destruct (bool_decide (unused e) || _ || _ || _) eqn:Eg; [by apply runs_ret|].
  apply orb_false_iff in Eg as [[[_ Hle%Z.ltb_ge]%orb_false_iff Hf%Z.leb_gt]%orb_false_iff Hc%Z.leb_gt].
  assert (0 < lb / 512) by (by destruct Hlb as [-> | ->]).
  eapply runs_bind; [apply runs_this|]. intros w Hw.
  eapply runs_weaken; [apply runs_identify, new_partition_safe; (done || nia)|].
  intros r Hr. by eapply identified_gpt.
Qed.

(** C20: a GPT partition is exactly what its table entry says.  On a disk of known
    size that can be read, [gpt_get_part] returns, for every partition number, what
    the table says in unbounded arithmetic: the three error codes, with the
    caller's structure untouched, or a partition whose first sector and length are
    those of the entry scaled to 512-byte sectors, with its GUID, and whose bytes
    are those of the disk from there on.  The overflow checks refuse exactly the
    entries whose geometry does not fit 64 bits. *)
Theorem gpt_part_exact n : 0 <= n < 2 ^ 31 ->
  exists r v', gpt_get_part ci self zero_volume n v = Ret (r, v') /\ gpt_result (gpt_spec f size n) r.
Proof.
  intros Hn. destruct (runs_Ret v _ _ Hv (run_gpt n Hn)) as (r & v' & He & _ & _ & Hr). by exists r, v'.
Qed.
End gpt.

(** ** Logical partitions *)

(** The entry at byte [off] of the boot record in sector [s]. *)
Definition record_entry (f : Z -> Z) (s off : Z) : mbr_entry := load_mbr_entry (bytes_at f (s * 512 + off) 16).

(** The extended boot records of an extended partition of [sects] sectors with
    contents [f], the latest first: the first is in sector 0, each but the last
    names the next, further on in the partition. *)
Inductive ebr_chain (f : Z -> Z) (sects : Z) : list Z -> Prop :=
| ebr_first : ebr_chain f sects [0]
| ebr_next s ss e : ebr_chain f sects (s :: ss) -> e = record_entry f s 462 ->
    is_extended e = true -> s < e.(mbr_first_sect) < sects ->
    ebr_chain f sects (e.(mbr_first_sect) :: s :: ss).

Section chains.
Context (f : Z -> Z) (sects : Z).
Hypothesis Hsects : 0 < sects.

Lemma ebr_chain_head s ss : ebr_chain f sects (s :: ss) -> 0 <= s < sects.
Proof.
  remember (s :: ss) as l eqn:E. intros H. revert s ss E.
  induction H as [|s0 ss0 e H IH _ He Hr]; intros s ss [= <- <-]; [lia|]. specialize (IH _ _ eq_refl). lia.
Qed.

(** The records are distinct: no chain is circular. *)
Lemma ebr_chain_sorted l : ebr_chain f sects l -> StronglySorted (fun a b => b < a) l.
Proof.
  induction 1 as [|s ss e H IH _ He [Hlt _]]; [repeat constructor|]. constructor; [done|].
  apply StronglySorted_inv in IH as [_ IH]. constructor; [done|]. eapply Forall_impl; [done|]. simpl. lia.
Qed.

Lemma ebr_chain_unique l : ebr_chain f sects l -> forall l', ebr_chain f sects l' -> length l = length l' -> l = l'.
Proof.
  induction 1 as [|s ss e H IH -> He Hr]; intros l' H' Hl; destruct H' as [|s' ss' e' H' -> He' Hr']; cbn [length] in Hl; try lia; [done|].
  specialize (IH _ H' ltac:(simpl; lia)). simplify_eq. done.
Qed.

Lemma ebr_chain_tail a s ss : ebr_chain f sects (a ++ s :: ss) -> ebr_chain f sects (s :: ss).
Proof.
  induction a as [|x a IH]; [done|]. cbn [app]. intros H. inversion H as [Hx|]; subst; [by destruct a|].
  apply IH. match goal with H : _ :: _ = a ++ _ |- _ => by rewrite <- H | H : a ++ _ = _ :: _ |- _ => by rewrite H end.
Qed.

(** No chain goes on where the last record does not name a further one. *)
Lemma ebr_chain_stuck s ss : ebr_chain f sects (s :: ss) ->
  ~ (is_extended (record_entry f s 462) = true /\ s < (record_entry f s 462).(mbr_first_sect) < sects) ->
  forall l, ebr_chain f sects l -> (length l <= length (s :: ss))%nat.
Proof.
  intros H Hstuck l Hl. destruct (decide (length l <= length (s :: ss))%nat) as [|Hlong]; [done|]. exfalso.
  apply Hstuck. clear Hstuck.
  destruct (drop (length l - S (length (s :: ss))) l) as [|x [|y l']] eqn:Ed.
  { apply (f_equal length) in Ed. rewrite length_drop in Ed. simpl in *. lia. }
  { apply (f_equal length) in Ed. rewrite length_drop in Ed. simpl in *. lia. }
  rewrite <- (take_drop (length l - S (length (s :: ss))) l) in Hl. rewrite Ed in Hl. apply ebr_chain_tail in Hl.
  apply (f_equal length) in Ed. rewrite length_drop in Ed.
  inversion Hl as [|? ? e Hy Heq He Hr]; subst.
  assert (s :: ss = y :: l') as [= -> ->] by (eapply ebr_chain_unique; [done..|]; simpl in *; lia). done.
Qed.
End chains.

Section logical.
Context `{D : Disk} {media : Z -> Z -> Z} `{!DiskSpec D media}.
Context (ci : bool) (ext : volume).
Context (Hext : vol_ready (media := media) ext).

(** An extended partition that can be read. *)
Definition extended_ok : Prop :=
  healthy ext.(drive) /\ ext.(first_sect) `mod` ratio ext = 0 /\
  0 < ext.(sect_count) < W32 /\ (ext.(first_sect) + ext.(sect_count)) * 512 <= W64.
Context (Hok : extended_ok).

Let f := content (media := media) ext.
#[local] Abbreviation run := (runs (media := media) (fun _ => False) ext).
#[local] Abbreviation chain := (ebr_chain f ext.(sect_count)).

Lemma run_entry s off : 0 <= s < ext.(sect_count) -> 0 <= off -> off + 16 <= 512 ->
  run (vread (s * 512 + off) 16) (fun r => r = Some (bytes_at f (s * 512 + off) 16)).
Proof.
  intros Hs Ho Hb. destruct Hok as (Hh & Ha & Hc & Hw).
  destruct (vo_geometry ext (vr_ok ext Hext)) as [_ _ Hf _].
  eapply runs_weaken; [apply runs_vread; lia|]. intros [bs|]; simpl.
  - by intros [_ ->].
  - intros Hn. destruct Hn. split_and!; [done|done|lia|right; lia].
Qed.

Lemma run_ebr_walk k : forall s ss, chain (s :: ss) ->
  run (ebr_walk k (Z.of_nat (length ss)) s) (fun r =>
    match r with
    | Some s' => exists ss', chain (s' :: ss') /\ length ss' = (length ss + k)%nat
    | None => forall l, chain l -> length l <> S (length ss + k)
    end).
Proof.
  destruct Hok as (_ & _ & Hc & _).
  induction k as [|k IH]; intros s ss Hch; cbn [ebr_walk]; [apply runs_ret; exists ss; split; [done|lia]|].
  pose proof (ebr_chain_head _ _ (proj1 Hc) _ _ Hch) as Hs.
  pose proof (ebr_chain_stuck _ _ _ _ Hch) as Hstuck.
  eapply runs_bind; [apply run_entry; lia|]. intros r ->.
  change (load_mbr_entry (bytes_at f (s * 512 + 462) 16)) with (record_entry f s 462). set (e := record_entry f s 462) in *.
  assert (forall (P : Prop), (P -> ~ (is_extended e = true /\ s < mbr_first_sect e < ext.(sect_count))) -> P ->
    run (mret None) (fun r => match r with
      | Some s' => exists ss', chain (s' :: ss') /\ length ss' = (length ss + S k)%nat
      | None => forall l, chain l -> length l <> S (length ss + S k)
      end)) as Hnone.
  { intros P Hp HP. apply runs_ret. intros l Hl. specialize (Hstuck (Hp HP) l Hl). simpl in Hstuck. lia. }
  destruct (is_extended e) eqn:He; cbn [negb]; [|apply (Hnone True); naive_solver].
  pose proof (field_range 8 4 _ (content_bytes ext (s * 512 + 462) 16) : 0 <= mbr_first_sect e < W32) as Hrange.
  assert (((mbr_first_sect e =? 0) || ((0 <? Z.of_nat (length ss)) && (mbr_first_sect e <=? s))) = (mbr_first_sect e <=? s)) as ->.
  { destruct ss as [|s' ss]; cbn [length].
    - inversion Hch; subst. cbn [Z.ltb Z.of_nat Z.compare andb]. rewrite orb_false_r.
      split_eqb (mbr_first_sect e) 0; split_leb (mbr_first_sect e) 0; (done || lia).
    - split_ltb 0 (Z.of_nat (S (length ss))); [|lia]. cbn [andb].
      inversion Hch as [|? ? e' Hch' Heq He' Hr']; subst s. pose proof (ebr_chain_head _ _ (proj1 Hc) _ _ Hch').
      split_eqb (mbr_first_sect e) 0; [|done]. split_leb (mbr_first_sect e) (mbr_first_sect e'); [done|lia]. }
  split_leb (mbr_first_sect e) s; [apply (Hnone (mbr_first_sect e <= s)); (done || lia)|].
  eapply runs_bind; [apply runs_this|]. intros w (st & c & b & ->). cbn [sect_count set_cache].
  split_leb (sect_count ext) (mbr_first_sect e); [apply (Hnone (sect_count ext <= mbr_first_sect e)); (done || lia)|].
  replace (Z.of_nat (length ss) + 1) with (Z.of_nat (length (s :: ss))) by (simpl; lia).
  eapply runs_weaken; [by apply IH, (ebr_next _ _ _ _ e)|]. cbn [length].
  intros [s'|]; replace (length ss + S k)%nat with (S (length ss) + k)%nat by lia; done.
Qed.

(** The entry of a logical partition, found at the end of a chain. *)
Definition logical_entry (n : Z) (s : Z) (ss : list Z) : Prop :=
  chain (s :: ss) /\ Z.of_nat (length ss) = n.

Definition logical_result (n : Z) (r : Z * volume) : Prop :=
  (r = (END_OF_TABLE, zero_volume) /\ (MAX_LOGICAL_PARTITIONS <= n \/ forall s ss, ~ logical_entry n s ss)) \/
  (n < MAX_LOGICAL_PARTITIONS /\ exists s ss, logical_entry n s ss /\
    let e := record_entry f s 446 in
    let first := ext.(first_sect) + s + e.(mbr_first_sect) in
    (r = (NO_PARTITION, zero_volume) /\ (e.(mbr_type) = 0 \/ e.(mbr_sect_count) = 0 \/ W64 <= first + e.(mbr_sect_count)) \/
     r.1 = 0 /\ e.(mbr_type) <> 0 /\ r.2.(first_sect) = first /\ r.2.(sect_count) = e.(mbr_sect_count) /\
       0 < e.(mbr_sect_count) /\ first + e.(mbr_sect_count) < W64)).

Lemma run_logical n : 0 <= n -> run (mbr_get_logical_part ci zero_volume n) (logical_result n).
Proof.
  intros Hn. unfold mbr_get_logical_part. pose proof Hok as (_ & _ & Hc & _). unfold logical_result.
  split_leb (MAX_LOGICAL_PARTITIONS) n; [apply runs_ret; left; naive_solver|].
  eapply runs_bind; [apply (run_ebr_walk (Z.to_nat n) 0 []); constructor|].
  intros [s|]; cbn [length].
  2:{ intros Hnone. apply runs_ret. left. split; [done|]. right. intros s ss [Hch Hl]. apply (Hnone _ Hch). simpl. lia. }
  intros (ss & Hch & Hl). pose proof (ebr_chain_head _ _ (proj1 Hc) _ _ Hch) as Hs.
  eapply runs_bind; [apply run_entry; lia|]. intros r ->.
  change (load_mbr_entry (bytes_at f (s * 512 + 446) 16)) with (record_entry f s 446). set (e := record_entry f s 446).
  pose proof (field_range 8 4 _ (content_bytes ext (s * 512 + 446) 16) : 0 <= mbr_first_sect e < W32) as Hfs.
  pose proof (field_range 12 4 _ (content_bytes ext (s * 512 + 446) 16) : 0 <= mbr_sect_count e < W32) as Hsc.
  destruct (vo_geometry ext (vr_ok ext Hext)) as [Hgs Hgx Hf _].
  set (first := first_sect ext + s + mbr_first_sect e). assert (0 <= first) by (unfold first; lia).
  assert (forall r, (r = (NO_PARTITION, zero_volume) /\ (mbr_type e = 0 \/ mbr_sect_count e = 0 \/ W64 <= first + mbr_sect_count e) \/
     r.1 = 0 /\ mbr_type e <> 0 /\ r.2.(first_sect) = first /\ r.2.(sect_count) = mbr_sect_count e /\
       0 < mbr_sect_count e /\ first + mbr_sect_count e < W64) -> logical_result n r) as Hres.
  { intros r Hr. right. split; [done|]. exists s, ss. split; [split; [done|lia]|done]. }
  split_eqb (mbr_type e) 0; [apply runs_ret, Hres; auto|].
  split_eqb (mbr_sect_count e) 0; [apply runs_ret, Hres; auto|]. cbn [orb].
  eapply runs_bind; [apply runs_this|]. intros w (st & c & b & ->). cbn [first_sect set_cache].
  unfold add_overflow. split_ltb (first_sect ext + s) (W64%Z); cbn [mbind option_bind];
    [|apply runs_ret, Hres; left; unfold first; split; [done|lia]].
  fold first. split_ltb first (W64%Z); [|apply runs_ret, Hres; left; split; [done|lia]].
  split_ltb (first + mbr_sect_count e) (W64%Z); [|apply runs_ret, Hres; left; split; [done|lia]].
  eapply runs_weaken; [apply runs_identify; split; [done|done|cbn [first_sect set_geometry]; lia|cbn [sect_count set_geometry]; lia|done..]|].
  intros r (u & lbl & (s' & c' & b' & ->) & _ & ->). apply Hres. right. split_and!; (done || lia).
Qed.

(** logical partitions are those of the chain of extended boot records.  On an
    extended partition that can be read, [mbr_get_logical_part] returns, and gives
    partition [n] exactly when the chain that starts in sector 0 and moves forward
    within the partition has a record number [n], with the geometry of the entry in
    that record relative to it; the records of the chain are pairwise distinct, so
    a circular chain is cut, and no address wraps. *)
Theorem logical_part_exact n : 0 <= n ->
  exists r ext', mbr_get_logical_part ci zero_volume n ext = Ret (r, ext') /\ logical_result n r /\
    forall l, chain l -> StronglySorted (fun a b => b < a) l.
Proof.
  intros Hn. destruct (runs_Ret ext _ _ Hext (run_logical n Hn)) as (r & v' & He & _ & _ & Hr).
  exists r, v'. split_and!; [done..|]. intros l. apply ebr_chain_sorted.
Qed.
End logical.

(** ** Concrete disks *)

(** A GPT with one partition, sectors 8 to 11, and an extended partition at sector
    2 with two logical partitions; each disk is zero elsewhere. *)
Definition demo_guid : list Z := [1; 2; 3; 4; 5; 6; 7; 8; 9; 10; 11; 12; 13; 14; 15; 16].
Definition demo_header : list Z :=
  str "EFI PART" ++ [0; 0; 1; 0] ++ replicate 44 0 ++ demo_guid ++ le_store 8 2 ++ le_store 4 4 ++ le_store 4 128.
Definition demo_entry : list Z := replicate 16 7 ++ demo_guid ++ le_store 8 8 ++ le_store 8 11.
Definition gpt_image (drive i : Z) : Z :=
  if i <? 512 then 0
  else if i <? 1024 then nth (Z.to_nat (i - 512)) demo_header 0
  else if i <? 1152 then nth (Z.to_nat (i - 1024)) demo_entry 0
  else 0.

Definition mbr_record (type first count : Z) : list Z := [0; 0; 0; 0; type; 0; 0; 0] ++ le_store 4 first ++ le_store 4 count.
Definition demo_ebr1 : list Z := mbr_record 131 1 2 ++ mbr_record 5 4 4.
Definition demo_ebr2 : list Z := mbr_record 131 1 3 ++ mbr_record 0 0 0.
Definition ebr_image (drive i : Z) : Z :=
  if (1470 <=? i) && (i <? 1536) then nth (Z.to_nat (i - 1470)) demo_ebr1 0
  else if (3518 <=? i) && (i <? 3584) then nth (Z.to_nat (i - 3518)) demo_ebr2 0
  else 0.

#[export] Instance gpt_disk_spec : DiskSpec (ram_disk gpt_image) gpt_image.
Proof. apply ram_disk_spec. intros d i. unfold gpt_image. repeat case_match; (done || by apply nth_byte). Qed.
#[export] Instance ebr_disk_spec : DiskSpec (ram_disk ebr_image) ebr_image.
Proof. apply ram_disk_spec. intros d i. unfold ebr_image. repeat case_match; (done || by apply nth_byte). Qed.

Lemma demo_volume_ready media fxs first count : 0 < fxs < 1000 -> 0 <= first < W32 -> 0 <= count < W32 ->
  vol_ready (media := media) (demo_volume 512 fxs first count).
Proof.
  intros. split; [|done|right; apply Z.mod_1_r]. split; [|done|done].
  split; cbn; unfold block_bytes, ratio; cbn; (done || lia).
Qed.

Lemma gpt_part_exact_witness :
  exists r v', gpt_get_part (H := ram_disk gpt_image) false 5 zero_volume 0 (demo_volume 512 4 0 16) = Ret (r, v') /\
    gpt_result (media := gpt_image) (demo_volume 512 4 0 16) (inr (8, 4, demo_guid)) r.
Proof.
  replace (inr (8, 4, demo_guid)) with (gpt_spec (content (media := gpt_image) (demo_volume 512 4 0 16)) (16 * 512) 0)
    by (vm_compute; reflexivity).
  apply (gpt_part_exact (D := ram_disk gpt_image)); [by apply demo_volume_ready|by split_and!|done].
Defined.

Lemma logical_part_exact_witness :
  exists r ext', mbr_get_logical_part (H := ram_disk ebr_image) false zero_volume 1 (demo_volume 512 4 2 16) = Ret (r, ext') /\
    logical_result (media := ebr_image) (demo_volume 512 4 2 16) 1 r /\
    forall l, ebr_chain (content (media := ebr_image) (demo_volume 512 4 2 16)) 16 l -> StronglySorted (fun a b => b < a) l.
Proof.
  apply (logical_part_exact (D := ram_disk ebr_image) false (demo_volume 512 4 2 16));
    [by apply demo_volume_ready|by split_and!|done].
Defined.
