(* ===== verification/Vmm.v ===== *)
(** * Page tables: common/mm/vmm.c

    The page tables the loader builds for the kernel, on the four architectures it
    supports.  The code that descends a level, and splits a large page that is in
    the way, is common; what an entry looks like is not, so the macros of each
    architecture are a record that the common code takes.  Memory is a map from the
    addresses of 64-bit words to their values. *)

From stdpp Require Export gmap.
From S2P Require Import Prelude Bytes.
#[global] Open Scope Z_scope.

Definition PT_SIZE : Z := 4096.
Definition page_sizes : list Z := [4096; 2097152; 1073741824; 549755813888; 281474976710656].

(** [enum page_size] *)
Definition Size4KiB : Z := 0.
Definition Size2MiB : Z := 1.
Definition Size1GiB : Z := 2.

(** [ext_mem_alloc(PT_SIZE)]: the address of the page. *)
Class PageAllocator (A : Type) := alloc_page : A -> outcome (Z * A).

Record vmm (A : Type) := { allocator : A; mem : gmap Z Z }.
Arguments allocator {A}.
Arguments mem {A}.

(** Memory reads and writes, and the page [ext_mem_alloc] clears. *)
Definition peek (m : gmap Z Z) (a : Z) : Z := default 0 (m !! a).
Definition clear_page (p : Z) (m : gmap Z Z) : gmap Z Z := filter (fun kv => ~ (p <= kv.1 < p + PT_SIZE)) m.

(** The macros of an architecture. *)
Record paging := {
  PT_IS_TABLE : Z -> Z -> bool;   (** of [level_idx] and the entry *)
  PT_IS_LARGE : Z -> bool;
  PT_TO_VMM_FLAGS : Z -> Z;
  pte_new : Z -> Z -> Z;
  pte_addr : Z -> Z;
  PT_TABLE_FLAGS : Z;
  VMM_MAX_LEVEL : Z
}.

Section vmm.
Context {A : Type} `{PageAllocator A}.

Definition M (T : Type) : Type := vmm A -> outcome (T * vmm A).

#[export] Instance M_ret : MRet M := fun T t s => Ret (t, s).
#[export] Instance M_bind : MBind M := fun T U f m s =>
  match m s with
  | Ret (t, s) => f t s
  | Panic msg => Panic msg
  | Undef => Undef
  | Diverge => Diverge
  end.

Definition load (a : Z) : M Z := fun s => Ret (peek s.(mem) a, s).
Definition store (a x : Z) : M () := fun s => Ret ((), {| allocator := s.(allocator); mem := <[a := x]> s.(mem) |}).
Definition ext_mem_alloc : M Z := fun s =>
  r ← alloc_page s.(allocator);
  let '(p, a) := (r : Z * A) in
  Ret (p, {| allocator := a; mem := clear_page p s.(mem) |}).
Definition mpanic {T} (msg : string) : M T := fun _ => Panic msg.
Definition mdiverge {T} : M T := fun _ => Diverge.
Definition mundef {T} : M T := fun _ => Undef.

(** [for (i = i0; i < bound; i += step) body(i);] *)
Fixpoint for_loop (fuel : nat) (i bound step : Z) (body : Z -> M ()) : M () :=
  if i <? bound then
    match fuel with
    | O => mdiverge
    | S fuel => _ ← body i; for_loop fuel (i + step) bound step body
    end
  else mret ().

(** ** The common code *)

(** [get_next_level(pagemap, current_level, virt, desired_sz, level_idx, entry)];
    [map_page] is the recursive call of the loop. *)
Definition get_next_level (P : paging) (map_page : Z -> Z -> Z -> Z -> M ())
    (current_level virt desired_sz level_idx entry : Z) : M Z :=
  let at_entry := current_level + 8 * entry in
  e ← load at_entry;
  if P.(PT_IS_TABLE) level_idx e then mret (P.(pte_addr) e)
  else if P.(PT_IS_LARGE) e then
    if (P.(VMM_MAX_LEVEL) <=? level_idx) || (level_idx =? 0) then mpanic "Unexpected level in get_next_level"
    else if P.(VMM_MAX_LEVEL) <=? desired_sz then mpanic "Unexpected page size in get_next_level"
    else
      let old_page_size := nth (Z.to_nat level_idx) page_sizes 0 in
      let new_page_size := nth (Z.to_nat desired_sz) page_sizes 0 in
      let old_flags := P.(PT_TO_VMM_FLAGS) e in
      let old_phys := P.(pte_addr) e in
      let old_virt := Z.land virt (u64 (Z.lnot (old_page_size - 1))) in
      if negb (Z.land old_phys (old_page_size - 1) =? 0) then
        mpanic "Unexpected page table entry address in get_next_level"
      else
        ret ← ext_mem_alloc;
        _ ← store at_entry (P.(pte_new) ret P.(PT_TABLE_FLAGS));
        _ ← for_loop (Z.to_nat (old_page_size / new_page_size)) 0 old_page_size new_page_size
              (fun i => map_page (u64 (old_virt + i)) (u64 (old_phys + i)) old_flags desired_sz);
        mret ret
  else
    ret ← ext_mem_alloc;
    _ ← store at_entry (P.(pte_new) ret P.(PT_TABLE_FLAGS));
    mret ret.

(** The loop of [map_pages]: the largest page that fits at each step. *)
Fixpoint map_pages_loop (fuel : nat) (map_page : Z -> Z -> Z -> Z -> M ()) (virt phys flags count i : Z) : M () :=
  if i <? count then
    match fuel with
    | O => mdiverge
    | S fuel =>
        let fits sz := (Z.land (u64 (phys + i)) (sz - 1) =? 0) && (Z.land (u64 (virt + i)) (sz - 1) =? 0) && (sz <=? count - i) in
        if fits 1073741824 then
          _ ← map_page (u64 (virt + i)) (u64 (phys + i)) flags Size1GiB;
          map_pages_loop fuel map_page virt phys flags count (i + 1073741824)
        else if fits 2097152 then
          _ ← map_page (u64 (virt + i)) (u64 (phys + i)) flags Size2MiB;
          map_pages_loop fuel map_page virt phys flags count (i + 2097152)
        else
          _ ← map_page (u64 (virt + i)) (u64 (phys + i)) flags Size4KiB;
          map_pages_loop fuel map_page virt phys flags count (i + 4096)
    end
  else mret ().

Definition map_pages (map_page : Z -> Z -> Z -> Z -> M ()) (virt phys flags count : Z) : M () :=
  if negb (virt `mod` 4096 =? 0) || negb (phys `mod` 4096 =? 0) || negb (count `mod` 4096 =? 0)
  then mpanic "vmm: Misaligned call to map_pages()"
  else map_pages_loop (Z.to_nat (count / 4096)) map_page virt phys flags count 0.

(** A field of a virtual address: [(virt & (mask << shift)) >> shift]. *)
Definition va_field (virt mask shift : Z) : Z := Z.shiftr (Z.land virt (Z.shiftl mask shift)) shift.

(** [flags & bit] as a condition *)
Definition has (flags bit : Z) : bool := negb (Z.land flags bit =? 0).

(** ** x86 *)

Definition x86_FLAG_WRITE : Z := 2.
Definition x86_FLAG_NOEXEC : Z := 2 ^ 63.
Definition x86_FLAG_FB : Z := Z.lor (2 ^ 3) (2 ^ 12).

Definition x86_paging : paging := {|
  PT_IS_TABLE := fun _ x => Z.land x (Z.lor 1 128) =? 1;
  PT_IS_LARGE := fun x => Z.land x (Z.lor 1 128) =? Z.lor 1 128;
  PT_TO_VMM_FLAGS := fun x => Z.land x (Z.lor (Z.lor 2 (2 ^ 63)) x86_FLAG_FB);
  pte_new := Z.lor;
  pte_addr := fun x => Z.land x 281474976706560;
  PT_TABLE_FLAGS := 7;
  VMM_MAX_LEVEL := 3
|}.

Record x86_pagemap := { x86_levels : Z; x86_top_level : Z }.

(** What cpuid says of the page attribute table and of 1 GiB pages. *)
Record x86_cpu := { pat_supported : bool; is_1gib_page_supported : bool }.

Definition x86_new_pagemap (paging_mode : Z) : M x86_pagemap :=
  top ← ext_mem_alloc;
  mret {| x86_levels := if paging_mode =? 1 then 5 else 4; x86_top_level := top |}.

Fixpoint x86_map_page (fuel : nat) (cpu : x86_cpu) (pagemap : x86_pagemap)
    (virt_addr phys_addr flags pg_size : Z) : M () :=
  match fuel with
  | O => mdiverge
  | S fuel =>
      let pml5_entry := va_field virt_addr 511 48 in
      let pml4_entry := va_field virt_addr 511 39 in
      let pml3_entry := va_field virt_addr 511 30 in
      let pml2_entry := va_field virt_addr 511 21 in
      let pml1_entry := va_field virt_addr 511 12 in
      let get_next_level := get_next_level x86_paging (x86_map_page fuel cpu pagemap) in
      let flags := Z.lor flags 1 in
      let flags := if has flags x86_FLAG_FB && negb cpu.(pat_supported)
                   then Z.land flags (u64 (Z.lnot x86_FLAG_FB)) else flags in
      pml4 ← (if pagemap.(x86_levels) =? 5
              then get_next_level pagemap.(x86_top_level) virt_addr pg_size 4 pml5_entry
              else mret pagemap.(x86_top_level));
      pml3 ← get_next_level pml4 virt_addr pg_size 3 pml4_entry;
      if pg_size =? Size1GiB then
        if cpu.(is_1gib_page_supported) then
          store (pml3 + 8 * pml3_entry) (Z.lor (Z.lor phys_addr flags) 128)
        else
          for_loop 512 0 1073741824 2097152
            (fun i => x86_map_page fuel cpu pagemap (u64 (virt_addr + i)) (u64 (phys_addr + i)) flags Size2MiB)
      else
        pml2 ← get_next_level pml3 virt_addr pg_size 2 pml3_entry;
        if pg_size =? Size2MiB then
          store (pml2 + 8 * pml2_entry) (Z.lor (Z.lor phys_addr flags) 128)
        else
          pml1 ← get_next_level pml2 virt_addr pg_size 1 pml2_entry;
          let flags := if has flags (2 ^ 12)
                       then Z.lor (Z.land flags (u64 (Z.lnot (2 ^ 12)))) (2 ^ 7) else flags in
          store (pml1 + 8 * pml1_entry) (Z.lor phys_addr flags)
  end.

(** ** aarch64 *)

Definition FLAG_WRITE : Z := 1.
Definition FLAG_NOEXEC : Z := 2.
Definition FLAG_FB : Z := 4.

Definition aarch64_vmm_flags (e : Z) : Z :=
  Z.lor (Z.lor (if has e (2 ^ 7) then 0 else FLAG_WRITE) (if has e (2 ^ 54) then FLAG_NOEXEC else 0))
        (if has e (2 ^ 2) then FLAG_FB else 0).

Definition aarch64_paging : paging := {|
  PT_IS_TABLE := fun _ x => Z.land x (Z.lor 1 2) =? Z.lor 1 2;
  PT_IS_LARGE := fun x => Z.land x (Z.lor 1 2) =? 1;
  PT_TO_VMM_FLAGS := aarch64_vmm_flags;
  pte_new := Z.lor;
  pte_addr := fun x => Z.land x 281474976706560;
  PT_TABLE_FLAGS := Z.lor 1 2;
  VMM_MAX_LEVEL := 3
|}.

Record aarch64_pagemap := { aarch64_levels : Z; aarch64_top_level : Z * Z }.

Definition aarch64_new_pagemap (paging_mode : Z) : M aarch64_pagemap :=
  top0 ← ext_mem_alloc;
  top1 ← ext_mem_alloc;
  mret {| aarch64_levels := if paging_mode =? 1 then 5 else 4; aarch64_top_level := (top0, top1) |}.

Definition aarch64_real_flags (flags : Z) : Z :=
  let real_flags := Z.lor (Z.lor 1 (3 * 2 ^ 8)) (2 ^ 10) in
  let real_flags := if has flags FLAG_WRITE then real_flags else Z.lor real_flags (2 ^ 7) in
  let real_flags := if has flags FLAG_NOEXEC then Z.lor real_flags (2 ^ 54) else real_flags in
  if has flags FLAG_FB then Z.lor real_flags (2 ^ 2) else real_flags.

Fixpoint aarch64_map_page (fuel : nat) (pagemap : aarch64_pagemap)
    (virt_addr phys_addr flags pg_size : Z) : M () :=
  match fuel with
  | O => mdiverge
  | S fuel =>
      let pml5_entry := va_field virt_addr 15 48 in
      let pml4_entry := va_field virt_addr 511 39 in
      let pml3_entry := va_field virt_addr 511 30 in
      let pml2_entry := va_field virt_addr 511 21 in
      let pml1_entry := va_field virt_addr 511 12 in
      let get_next_level := get_next_level aarch64_paging (aarch64_map_page fuel pagemap) in
      let is_higher_half := has virt_addr (2 ^ 63) in
      let top_level := if is_higher_half then pagemap.(aarch64_top_level).2 else pagemap.(aarch64_top_level).1 in
      let real_flags := aarch64_real_flags flags in
      pml4 ← (if pagemap.(aarch64_levels) =? 5
              then get_next_level top_level virt_addr pg_size 4 pml5_entry
              else mret top_level);
      pml3 ← get_next_level pml4 virt_addr pg_size 3 pml4_entry;
      if pg_size =? Size1GiB then
        store (pml3 + 8 * pml3_entry) (Z.lor phys_addr real_flags)
      else
        pml2 ← get_next_level pml3 virt_addr pg_size 2 pml3_entry;
        if pg_size =? Size2MiB then
          store (pml2 + 8 * pml2_entry) (Z.lor phys_addr real_flags)
        else
          pml1 ← get_next_level pml2 virt_addr pg_size 1 pml2_entry;
          store (pml1 + 8 * pml1_entry) (Z.lor (Z.lor phys_addr real_flags) 2)
  end.

(** ** RISC-V *)

Definition riscv_vmm_flags (e : Z) : Z :=
  Z.lor (Z.lor (if has e (2 ^ 2) then FLAG_WRITE else 0) (if has e (2 ^ 3) then 0 else FLAG_NOEXEC))
        (if has e (2 ^ 62) then FLAG_FB else 0).

Definition riscv_RWX : Z := 14.

Definition riscv_paging : paging := {|
  PT_IS_TABLE := fun _ x => Z.land x (Z.lor 1 riscv_RWX) =? 1;
  PT_IS_LARGE := fun x => 1 <? Z.land x (Z.lor 1 riscv_RWX);
  PT_TO_VMM_FLAGS := riscv_vmm_flags;
  pte_new := fun addr flags => Z.lor (Z.shiftr addr 2) flags;
  pte_addr := fun x => u64 (Z.shiftl (Z.land x 18014398509480960) 2);
  PT_TABLE_FLAGS := 1;
  VMM_MAX_LEVEL := 5
|}.

Record riscv_pagemap := { max_page_size : Z; riscv_paging_mode : Z; riscv_top_level : Z }.

(** [svpbmt]: whether the extension for memory types is there. *)
Definition riscv_new_pagemap (paging_mode : Z) : M riscv_pagemap :=
  top ← ext_mem_alloc;
  mret {| max_page_size := paging_mode - 6; riscv_paging_mode := paging_mode; riscv_top_level := top |}.

Definition riscv_ptflags (pbmt_nc flags : Z) : Z :=
  let ptflags := Z.lor (Z.lor (Z.lor 1 2) (2 ^ 6)) (2 ^ 7) in
  let ptflags := if has flags FLAG_WRITE then Z.lor ptflags (2 ^ 2) else ptflags in
  let ptflags := if has flags FLAG_NOEXEC then ptflags else Z.lor ptflags (2 ^ 3) in
  if has flags FLAG_FB then Z.lor ptflags pbmt_nc else ptflags.

(** The descent of [map_page]; [k] levels are left. *)
Fixpoint riscv_descend (k : nat) (next : Z -> Z -> Z -> M Z) (table virt_addr level page_size e : Z) : M () :=
  let index := Z.land (Z.shiftr virt_addr (12 + 9 * level)) 511 in
  if level =? page_size then store (table + 8 * index) e
  else match k with
       | O => mdiverge
       | S k =>
           table ← next table level index;
           riscv_descend k next table virt_addr (level - 1) page_size e
       end.

Fixpoint riscv_map_page (fuel : nat) (pbmt_nc : Z) (pagemap : riscv_pagemap)
    (virt_addr phys_addr flags page_size : Z) : M () :=
  match fuel with
  | O => mdiverge
  | S fuel =>
      let page_size := if pagemap.(max_page_size) <? page_size then pagemap.(max_page_size) else page_size in
      let ptflags := riscv_ptflags pbmt_nc flags in
      riscv_descend 5
        (fun table level index =>
           get_next_level riscv_paging (riscv_map_page fuel pbmt_nc pagemap) table virt_addr page_size level index)
        pagemap.(riscv_top_level) virt_addr pagemap.(max_page_size) page_size
        (riscv_paging.(pte_new) phys_addr ptflags)
  end.

(** ** LoongArch *)

Definition loongarch_vmm_flags (e : Z) : Z :=
  Z.lor (Z.lor (if has e (2 ^ 8) then FLAG_WRITE else 0) (if has e (2 ^ 62) then FLAG_NOEXEC else 0))
        (if has e (2 ^ 5) then FLAG_FB else 0).

Definition loongarch_IS_LARGE (x : Z) : bool := Z.land x (Z.lor (2 ^ 12) (2 ^ 6)) =? Z.lor (2 ^ 12) (2 ^ 6).

Definition loongarch_paging : paging := {|
  PT_IS_TABLE := fun level_idx x => (0 <? level_idx) && (Z.land x 1 =? 0) && negb (x =? 0);
  PT_IS_LARGE := loongarch_IS_LARGE;
  PT_TO_VMM_FLAGS := loongarch_vmm_flags;
  pte_new := Z.lor;
  pte_addr := fun x => if loongarch_IS_LARGE x then Z.land x 281474959933440 else Z.land x 281474976706560;
  PT_TABLE_FLAGS := 0;
  VMM_MAX_LEVEL := 3
|}.

Record loongarch_pagemap := { pgd : Z * Z }.

(** [valen]: the number of virtual address bits the processor reports. *)
Definition loongarch_new_pagemap (valen : Z) : M loongarch_pagemap :=
  if valen <? 48 then mpanic "vmm: VALEN values < 48 not currently supported"
  else
    pgd0 ← ext_mem_alloc;
    pgd1 ← ext_mem_alloc;
    mret {| pgd := (pgd0, pgd1) |}.

Definition loongarch_real_flags (flags : Z) : Z :=
  let real_flags := Z.lor 1 (2 ^ 6) in
  let real_flags := if has flags FLAG_WRITE then Z.lor real_flags (Z.lor 2 (2 ^ 8)) else real_flags in
  let real_flags := if has flags FLAG_NOEXEC then Z.lor real_flags (2 ^ 62) else real_flags in
  if has flags FLAG_FB then Z.lor real_flags (2 ^ 5) else Z.lor real_flags (2 ^ 4).

Fixpoint loongarch_map_page (fuel : nat) (pagemap : loongarch_pagemap)
    (virt_addr phys_addr flags pg_size : Z) : M () :=
  match fuel with
  | O => mdiverge
  | S fuel =>
      let pml4_entry := va_field virt_addr 511 39 in
      let pml3_entry := va_field virt_addr 511 30 in
      let pml2_entry := va_field virt_addr 511 21 in
      let pml1_entry := va_field virt_addr 511 12 in
      let get_next_level := get_next_level loongarch_paging (loongarch_map_page fuel pagemap) in
      let is_higher_half := has virt_addr (2 ^ 63) in
      let real_flags := loongarch_real_flags flags in
      let pml4 := if is_higher_half then pagemap.(pgd).2 else pagemap.(pgd).1 in
      pml3 ← get_next_level pml4 virt_addr pg_size 3 pml4_entry;
      if pg_size =? Size1GiB then
        store (pml3 + 8 * pml3_entry) (Z.lor phys_addr (Z.lor (Z.lor real_flags (2 ^ 12)) (2 ^ 6)))
      else
        pml2 ← get_next_level pml3 virt_addr pg_size 2 pml3_entry;
        if pg_size =? Size2MiB then
          store (pml2 + 8 * pml2_entry) (Z.lor phys_addr (Z.lor (Z.lor real_flags (2 ^ 12)) (2 ^ 6)))
        else
          pml1 ← get_next_level pml2 virt_addr pg_size 1 pml2_entry;
          store (pml1 + 8 * pml1_entry) (Z.lor phys_addr real_flags)
  end.
End vmm.

(** ** The size of the address space, and where its higher half starts *)

Definition x86_va_bits (mode : Z) : Z := if mode =? 0 then 48 else 57.
Definition x86_higher_half (paging_mode : Z) : Z :=
  if paging_mode =? 1 then 0xff00000000000000 else 0xffff800000000000.

Definition aarch64_va_bits (mode : Z) : Z := if mode =? 0 then 49 else 53.
Definition aarch64_higher_half (paging_mode : Z) : Z :=
  if paging_mode =? 1 then 0xffe0000000000000 else 0xffff000000000000.

Definition riscv_va_bits (paging_mode : Z) : outcome Z :=
  if paging_mode =? 8 then Ret 39
  else if paging_mode =? 9 then Ret 48
  else if paging_mode =? 10 then Ret 57
  else Panic "paging_mode_va_bits: invalid mode".
Definition riscv_higher_half (paging_mode : Z) : outcome Z :=
  if paging_mode =? 8 then Ret 0xffffffc000000000
  else if paging_mode =? 9 then Ret 0xffff800000000000
  else if paging_mode =? 10 then Ret 0xff00000000000000
  else Panic "paging_mode_higher_half: invalid mode".

Definition loongarch_va_bits (_ : Z) : Z := 48.
Definition loongarch_higher_half (_ : Z) : Z := 0xffff800000000000.

(** The depth of the recursion: a call that splits a page makes calls that do not,
    and a 1 GiB page may be made of calls for 2 MiB pages. *)
Definition map_page_depth : nat := 3.
