(* ===== verification/VmmWalk.v ===== *)
(** * Walking page tables

    The walk a processor makes through the tables in memory, for any architecture
    with 512-entry tables; which addresses share which tables; and what the two
    changes the loader makes, a new leaf and a new table, do to the walks. *)

From S2P Require Import Prelude Bytes Vmm.

(** ** Sizes, indices, prefixes *)

Definition psize (k : nat) : Z := 2 ^ (12 + 9 * Z.of_nat k).

Lemma psize_pos k : 0 < psize k.
Proof. unfold psize. lia. Qed.

Lemma psize_S k : psize (S k) = psize k * 512.
Proof. unfold psize. change 512 with (2 ^ 9). rewrite <- Z.pow_add_r by lia. f_equal. lia. Qed.

Lemma psize_le j k : (j <= k)%nat -> exists n, 0 < n /\ psize k = psize j * n.
Proof.
  intros H. exists (2 ^ (9 * Z.of_nat (k - j))). split; [lia|]. unfold psize. rewrite <- Z.pow_add_r by lia. f_equal. lia.
Qed.

Lemma page_sizes_size k : (k < 5)%nat -> nth k page_sizes 0 = psize k.
Proof. intros H. do 5 (destruct k as [|k]; [done|]). lia. Qed.

(** The numbering of the levels from 0, the width of the index of each, and the
    top-level table, of which there may be one for each half of the address space. *)
Record layout := {
  top : nat;
  index_bits : nat -> Z;
  half : Z -> bool;
  root : bool -> Z
}.

Record layout_ok (T : layout) : Prop := {
  lo_bits k : 0 <= T.(index_bits) k <= 9;
  lo_full k : (k < T.(top))%nat -> T.(index_bits) k = 9;
  lo_top : (T.(top) <= 4)%nat;
  lo_half a b : a / psize T.(top) = b / psize T.(top) -> T.(half) a = T.(half) b
}.

Section prefixes.
Context (T : layout) (HT : layout_ok T).

Definition index (k : nat) (va : Z) : Z := (va / psize k) `mod` 2 ^ T.(index_bits) k.

(** What selects the table of level [k - 1]: the indices at levels [k] and above. *)
Definition prefix (k : nat) (va : Z) : bool * list Z := (T.(half) va, (fun j => index j va) <$> seq k (S T.(top) - k)).

Lemma index_range k va : 0 <= index k va < 512.
Proof.
  unfold index. pose proof (lo_bits T HT k) as Hb.
  pose proof (Z.mod_pos_bound (va / psize k) (2 ^ index_bits T k) ltac:(lia)).
  pose proof (Z.pow_le_mono_r 2 (index_bits T k) 9 ltac:(lia) ltac:(lia)). lia.
Qed.

Lemma prefix_S k a b : (k <= T.(top))%nat ->
  prefix k a = prefix k b <-> index k a = index k b /\ prefix (S k) a = prefix (S k) b.
Proof.
  intros Hk. unfold prefix. replace (S (top T) - k)%nat with (S (S (top T) - S k)) by lia. cbn [seq fmap list_fmap].
  split.
  - intros [= H1 H2 H3]. split; [exact H2|]. rewrite H1. f_equal. exact H3.
  - intros [H2 [= H1 H3]]. rewrite H1, H2. do 2 f_equal. exact H3.
Qed.

Lemma prefix_le j k a b : (j <= k)%nat -> (k <= S T.(top))%nat -> prefix j a = prefix j b -> prefix k a = prefix k b.
Proof.
  induction 1 as [|k Hjk IH]; intros Hk H; [done|].
  destruct (prefix_S k a b) as [Hp _]; [lia|]. apply Hp, IH; (done || lia).
Qed.

Lemma div_size l k a b : (l <= k)%nat -> a / psize l = b / psize l -> a / psize k = b / psize k.
Proof.
  intros Hl H. destruct (psize_le l k Hl) as (n & Hn & ->). pose proof (psize_pos l).
  rewrite <- !Z.div_div by lia. by rewrite H.
Qed.

Lemma prefix_div l a b : (l <= T.(top))%nat -> a / psize l = b / psize l -> prefix l a = prefix l b.
Proof.
  intros Hl H. unfold prefix. f_equal; [by apply (lo_half T HT), (div_size l)|].
  apply list_fmap_ext. intros i j Hj. apply lookup_seq in Hj as [-> Hj]. unfold index. f_equal.
  apply (div_size l); [lia|done].
Qed.

(** The indices between two levels are the digits of the address between them. *)
Lemma digits d l a b : (d <= l)%nat -> (l <= T.(top))%nat ->
  (forall k, (d <= k < l)%nat -> index k a = index k b) <-> (a `mod` psize l) / psize d = (b `mod` psize l) / psize d.
Proof.
  intros Hdl. revert a b. induction Hdl as [|l Hdl IH]; intros a b Hl.
  { pose proof (psize_pos d). rewrite !Z.div_small by (apply Z.mod_pos_bound; lia). split; [done|lia]. }
  destruct (psize_le d l ltac:(lia)) as (n & Hn & Hsz). pose proof (psize_pos d) as Hd.
  assert (forall x, (x `mod` psize (S l)) / psize d = (x `mod` psize l) / psize d + n * index l x) as Hsplit.
  { intros x. unfold index. rewrite (lo_full T HT l) by lia. change (2 ^ 9) with 512. pose proof (psize_pos l).
    rewrite psize_S, Z.rem_mul_r by lia. rewrite Hsz at 2. rewrite <- Z.mul_assoc, (Z.mul_comm (psize d)), Z.div_add by lia.
    by rewrite (Z.mul_comm n). }
  rewrite !Hsplit. pose proof (index_range l a) as Ha. pose proof (index_range l b) as Hb.
  assert (forall x, 0 <= (x `mod` psize l) / psize d < n) as Hr.
  { intros x. pose proof (Z.mod_pos_bound x (psize l) (psize_pos l)). split; [apply Z.div_pos; lia|].
    apply Z.div_lt_upper_bound; lia. }
  pose proof (Hr a). pose proof (Hr b). specialize (IH a b ltac:(lia)). split.
  - intros Hk. rewrite (Hk l) by lia. f_equal. apply IH. intros k ?. apply Hk. lia.
  - intros He. assert (index l a = index l b) as Hi by nia.
    assert ((a `mod` psize l) / psize d = (b `mod` psize l) / psize d) as He' by nia.
    intros k Hk. destruct (decide (k = l)) as [->|]; [done|]. apply IH; [done|lia].
Qed.

Lemma prefix_split d l a b : (d <= l)%nat -> (l <= T.(top))%nat ->
  prefix d a = prefix d b <-> (forall k, (d <= k < l)%nat -> index k a = index k b) /\ prefix l a = prefix l b.
Proof.
  intros Hdl. induction Hdl as [|l Hdl IH]; intros Hl.
  { split; [intros H; split; [lia|done]|tauto]. }
  rewrite IH by lia. rewrite (prefix_S l) by lia. split.
  - intros (Hk & Hi & Hp). split; [|done]. intros k Hkl. destruct (decide (k = l)) as [->|]; [done|]. apply Hk. lia.
  - intros (Hk & Hp). split_and!; [|apply Hk; lia|done]. intros k Hkl. apply Hk. lia.
Qed.

(** The block of size [d] at offset [i] of the block of size [l] that holds
    [virt] is that of [va] exactly when [va] is in the large block, at that offset. *)
Lemma prefix_block d l base i va : (d <= l)%nat -> (l <= T.(top))%nat ->
  base `mod` psize l = 0 -> 0 <= i < psize l -> i `mod` psize d = 0 ->
  prefix d (base + i) = prefix d va <-> prefix l base = prefix l va /\ i = va `mod` psize l - va `mod` psize d.
Proof.
  intros Hdl Hl Hbase Hi Hid. pose proof (psize_pos l) as Hpl. pose proof (psize_pos d) as Hpd.
  destruct (psize_le d l Hdl) as (n & Hn & Hsz).
  rewrite (prefix_split d l) by done. rewrite (digits d l) by done.
  assert ((base + i) / psize l = base / psize l) as Hq.
  { pose proof (Z.div_mod base (psize l) ltac:(lia)). symmetry. apply (Z.div_unique_pos _ _ _ i); lia. }
  assert ((base + i) `mod` psize l = i) as ->.
  { pose proof (Z.div_mod base (psize l) ltac:(lia)). symmetry. apply (Z.mod_unique_pos _ _ (base / psize l)); lia. }
  rewrite (prefix_div l (base + i) base) by done.
  assert ((va `mod` psize l) `mod` psize d = va `mod` psize d) as Hmm.
  { apply Z.mod_mod_divide. exists n. lia. }
  pose proof (Z.div_mod (va `mod` psize l) (psize d) ltac:(lia)) as Hdm. rewrite Hmm in Hdm.
  pose proof (Z.div_mod i (psize d) ltac:(lia)) as Hdi. split; intros [H1 H2]; split; try done; nia.
Qed.
End prefixes.

(** ** Walks *)

Lemma peek_clear (m : gmap Z Z) q a : peek (clear_page q m) a = if decide (q <= a < q + 4096) then 0 else peek m a.
Proof.
  unfold peek, clear_page, PT_SIZE. case_decide as Hd.
  - rewrite map_lookup_filter_None_2; [done|]. right. intros x _. simpl. tauto.
  - destruct (m !! a) as [x|] eqn:E.
    + by rewrite (map_lookup_filter_Some_2 _ _ a x).
    + rewrite map_lookup_filter_None_2; [done|]. by left.
Qed.

Section walks.
Context (P : paging) (present : Z -> bool) (T : layout) (HT : layout_ok T).
Implicit Types m : gmap Z Z.

Definition entry m (k : nat) (p va : Z) : Z := peek m (p + 8 * index T k va).

(** The walk from table [p] of level [k]: the leaf entry and its level. *)
Fixpoint walk_from m (k : nat) (p va : Z) : option (Z * nat) :=
  let e := entry m k p va in
  match k with
  | O => if present e then Some (e, 0%nat) else None
  | S k' => if P.(PT_IS_TABLE) (Z.of_nat k) e then walk_from m k' (P.(pte_addr) e) va
            else if P.(PT_IS_LARGE) e then Some (e, k) else None
  end.

Definition walk m (va : Z) : option (Z * nat) := walk_from m T.(top) (T.(root) (T.(half) va)) va.

(** [reach m k va p]: the table of level [k] on the way to [va] is at [p]. *)
Inductive reach m : nat -> Z -> Z -> Prop :=
| reach_root va : reach m T.(top) va (T.(root) (T.(half) va))
| reach_step k va p : reach m (S k) va p -> P.(PT_IS_TABLE) (Z.of_nat (S k)) (entry m (S k) p va) = true ->
    reach m k va (P.(pte_addr) (entry m (S k) p va)).

Lemma reach_top m k va p : reach m k va p -> (k <= T.(top))%nat.
Proof. induction 1; lia. Qed.

Lemma reach_walk m k va p : reach m k va p -> walk m va = walk_from m k p va.
Proof. induction 1 as [|k va p _ IH Ht]; [done|]. rewrite IH. cbn [walk_from]. by rewrite Ht. Qed.

Lemma reach_at_top m va p : reach m T.(top) va p -> p = T.(root) (T.(half) va).
Proof. inversion 1 as [|? ? ? H']; subst; [done|]. apply reach_top in H'. lia. Qed.

Lemma reach_up m k va p : reach m k va p -> (k < T.(top))%nat ->
  exists q, reach m (S k) va q /\ P.(PT_IS_TABLE) (Z.of_nat (S k)) (entry m (S k) q va) = true /\ p = P.(pte_addr) (entry m (S k) q va).
Proof. inversion 1; subst; [lia|eauto]. Qed.

Lemma reach_det m k va p : reach m k va p -> forall q, reach m k va q -> p = q.
Proof.
  induction 1 as [va|k va p H IH Ht]; intros q Hq; [symmetry; by apply reach_at_top in Hq|].
  pose proof (reach_top _ _ _ _ H). destruct (reach_up _ _ _ _ Hq) as (r & Hr & _ & ->); [lia|]. by rewrite (IH r Hr).
Qed.

Lemma entry_prefix m k p a b : index T k a = index T k b -> entry m k p a = entry m k p b.
Proof. intros H. unfold entry. by rewrite H. Qed.

(** Addresses with the same upper indices share the table. *)
Lemma reach_prefix m k a p : reach m k a p -> forall b, prefix T (S k) a = prefix T (S k) b -> reach m k b p.
Proof.
  induction 1 as [a|k a p H IH Ht]; intros b Hp.
  { unfold prefix in Hp. injection Hp as Hh _. rewrite Hh. constructor. }
  pose proof (reach_top _ _ _ _ H). apply (prefix_S T) in Hp as [Hi Hp]; [|lia].
  rewrite (entry_prefix m (S k) p a b Hi) in *. constructor; auto.
Qed.

(** A change of memory that a walk does not see. *)
Lemma reach_frame m m' va : (forall k p, reach m k va p -> entry m' k p va = entry m k p va) ->
  forall k p, reach m k va p <-> reach m' k va p.
Proof.
  intros Hf k p. split.
  - intros H. assert (forall k va' p, reach m k va' p -> va' = va -> reach m' k va p) as G; [|by eapply G].
    clear -Hf. induction 1 as [va'|k va' p H IH Ht]; intros ->; [constructor|].
    rewrite <- (Hf _ _ H) in *. constructor; auto.
  - intros H. assert (forall k va' p, reach m' k va' p -> va' = va -> reach m k va p) as G; [|by eapply G].
    clear -Hf. induction 1 as [va'|k va' p H IH Ht]; intros ->; [constructor|].
    specialize (IH eq_refl). rewrite (Hf _ _ IH) in *. constructor; auto.
Qed.

Lemma walk_frame m m' va : (forall k p, reach m k va p -> entry m' k p va = entry m k p va) -> walk m' va = walk m va.
Proof.
  intros Hf. unfold walk. assert (forall k p, reach m k va p -> walk_from m' k p va = walk_from m k p va) as G; [|by apply G; constructor].
  induction k as [|k IH]; intros p H; cbn [walk_from]; rewrite (Hf _ _ H); [done|].
  destruct (PT_IS_TABLE P (Z.of_nat (S k)) (entry m (S k) p va)) eqn:Et; [|done]. apply IH. by constructor.
Qed.

(** ** Well-formed page tables *)

Definition page_ok (p : Z) : Prop := p `mod` 4096 = 0 /\ 0 < p < 2 ^ 48.

(** The tables are pages of their own: a table is reached by the addresses of one
    prefix at one level only. *)
Record tables_ok m (owned : Z -> Prop) : Prop := {
  to_owned k va p : reach m k va p -> owned p;
  to_page p : owned p -> page_ok p;
  to_inj k va k' va' p : reach m k va p -> reach m k' va' p -> k = k' /\ prefix T (S k) va = prefix T (S k) va'
}.

Lemma entry_addr_inj p q i j : page_ok p -> page_ok q -> 0 <= i < 512 -> 0 <= j < 512 -> p + 8 * i = q + 8 * j -> p = q /\ i = j.
Proof.
  intros [Hp _] [Hq _] Hi Hj H. pose proof (Z.div_mod p 4096 ltac:(lia)). pose proof (Z.div_mod q 4096 ltac:(lia)). lia.
Qed.

(** A write to the entry of [va] in its level [k] table is seen by the walks of
    the same prefix only, and by those at that level only. *)
Lemma entry_write m owned k va p e k' va' p' : tables_ok m owned -> reach m k va p -> reach m k' va' p' ->
  entry (<[p + 8 * index T k va := e]> m) k' p' va' =
  if decide (k' = k /\ prefix T k va = prefix T k va') then e else entry m k' p' va'.
Proof.
  intros Hok H H'. pose proof (to_page _ _ Hok _ (to_owned _ _ Hok _ _ _ H)) as Hp.
  pose proof (to_page _ _ Hok _ (to_owned _ _ Hok _ _ _ H')) as Hp'. pose proof (reach_top _ _ _ _ H) as Ht.
  pose proof (index_range T HT k va) as Hi. pose proof (index_range T HT k' va') as Hi'. unfold entry, peek.
  case_decide as Hd.
  - destruct Hd as [-> [Hix Hpre]%(prefix_S T)]; [|done].
    rewrite (reach_det _ _ _ _ (reach_prefix _ _ _ _ H _ Hpre) _ H'), Hix. by rewrite lookup_insert_eq.
  - rewrite lookup_insert_ne; [done|]. intros Heq. destruct (entry_addr_inj _ _ _ _ Hp Hp' Hi Hi' Heq) as [-> Hii].
    destruct (to_inj _ _ Hok _ _ _ _ _ H H') as [-> Hpre]. apply Hd. split; [done|]. by apply prefix_S.
Qed.

Lemma reach_above m k va p : reach m k va p -> forall j, (k < j <= T.(top))%nat ->
  exists q, reach m j va q /\ P.(PT_IS_TABLE) (Z.of_nat j) (entry m j q va) = true.
Proof.
  induction 1 as [va|k va p H IH Ht]; intros j Hj; [lia|].
  destruct (decide (j = S k)) as [->|]; [by exists p|]. apply IH. lia.
Qed.

Section write.
Context m owned (Hok : tables_ok m owned) (k : nat) (va p e : Z) (Hr : reach m k va p).
Let m' := <[p + 8 * index T k va := e]> m.

(** Outside of what the written entry maps, the same tables are reached. *)
Lemma write_reach k' va' p' : (k <= k')%nat \/ prefix T k va <> prefix T k va' -> reach m k' va' p' <-> reach m' k' va' p'.
Proof.
  intros Hc. split; intros H.
  - revert Hc. induction H as [va'|k' va' q H IH Ht]; intros Hc; [constructor|].
    assert (entry m' (S k') q va' = entry m (S k') q va') as He.
    { unfold m'. rewrite (entry_write m owned k va p e _ _ _ Hok Hr H), decide_False; [done|]. intros [? ?]. destruct Hc; [lia|done]. }
    rewrite <- He in *. constructor; [|done]. apply IH. destruct Hc; [left; lia|by right].
  - revert Hc. induction H as [va'|k' va' q H IH Ht]; intros Hc; [constructor|].
    specialize (IH ltac:(destruct Hc; [left; lia|by right])).
    assert (entry m' (S k') q va' = entry m (S k') q va') as He.
    { unfold m'. rewrite (entry_write m owned k va p e _ _ _ Hok Hr IH), decide_False; [done|]. intros [? ?]. destruct Hc; [lia|done]. }
    rewrite He in *. by constructor.
Qed.

Lemma write_entry va' : prefix T k va = prefix T k va' -> reach m' k va' p /\ entry m' k p va' = e.
Proof.
  intros Hp. pose proof (reach_top _ _ _ _ Hr). assert (reach m k va' p) as H'.
  { eapply reach_prefix; [done|]. by apply (prefix_S T) in Hp as [_ ?]. }
  split; [apply write_reach; [left; lia|done]|]. unfold m'. by rewrite (entry_write m owned k va p e _ _ _ Hok Hr H'), decide_True.
Qed.

(** Below the written entry there is something only if it is a table. *)
Lemma write_below k' va' p' : reach m' k' va' p' -> (k' < k)%nat -> prefix T k va = prefix T k va' ->
  P.(PT_IS_TABLE) (Z.of_nat k) e = true.
Proof.
  intros H Hk Hp. destruct (reach_above _ _ _ _ H k) as (q & Hq & Ht); [pose proof (reach_top _ _ _ _ Hr); lia|].
  destruct (write_entry va' Hp) as [Hq' He]. by rewrite (reach_det _ _ _ _ Hq _ Hq'), He in Ht.
Qed.

Lemma write_walk_other va' : prefix T k va <> prefix T k va' -> walk m' va' = walk m va'.
Proof.
  intros Hp. apply walk_frame. intros k' p' H. unfold m'.
  rewrite (entry_write m owned k va p e _ _ _ Hok Hr H), decide_False; [done|]. by intros [_ ?].
Qed.

(** *** A leaf *)

Context (Hleaf : (0 < k)%nat -> P.(PT_IS_TABLE) (Z.of_nat k) e = false).

Lemma leaf_reach k' va' p' : reach m' k' va' p' -> reach m k' va' p' /\ ((k <= k')%nat \/ prefix T k va <> prefix T k va').
Proof.
  intros H. assert ((k <= k')%nat \/ prefix T k va <> prefix T k va') as Hc.
  { destruct (decide (prefix T k va = prefix T k va')) as [Hp|]; [|by right]. left.
    destruct (decide (k <= k')%nat) as [|Hlt]; [done|].
    pose proof (write_below _ _ _ H ltac:(lia) Hp) as Ht. rewrite Hleaf in Ht by lia. done. }
  split; [|done]. by apply write_reach.
Qed.

Lemma leaf_tables_ok : tables_ok m' owned.
Proof.
  destruct Hok as [H1 H2 H3]. split; [| done|].
  - intros k' va' p' [H _]%leaf_reach. eauto.
  - intros k1 va1 k2 va2 q [Ha _]%leaf_reach [Hb _]%leaf_reach. eauto.
Qed.

Lemma leaf_walk va' : prefix T k va = prefix T k va' ->
  walk m' va' = match k with
                | O => if present e then Some (e, 0%nat) else None
                | S _ => if P.(PT_IS_LARGE) e then Some (e, k) else None
                end.
Proof.
  intros Hp. destruct (write_entry va' Hp) as [H He]. rewrite (reach_walk _ _ _ _ H). destruct k as [|j]; cbn [walk_from]; rewrite He; [done|].
  by rewrite Hleaf by lia.
Qed.
End write.

(** *** A new table *)

(** What the macros say of cleared memory and of the entries for tables. *)
Record table_laws : Prop := {
  tl_zero k : P.(PT_IS_TABLE) k 0 = false;
  tl_zero_large : P.(PT_IS_LARGE) 0 = false;
  tl_zero_present : present 0 = false;
  tl_table k q : 0 < k -> page_ok q -> P.(PT_IS_TABLE) k (P.(pte_new) q P.(PT_TABLE_FLAGS)) = true;
  tl_addr q : page_ok q -> P.(pte_addr) (P.(pte_new) q P.(PT_TABLE_FLAGS)) = q
}.

Section table.
Context m owned (Hok : tables_ok m owned) (HL : table_laws).
Context (j : nat) (va p q : Z) (Hr : reach m (S j) va p) (Hq : page_ok q) (Hfresh : ~ owned q).
Let m1 := clear_page q m.
Let e := P.(pte_new) q P.(PT_TABLE_FLAGS).
Let m' := <[p + 8 * index T (S j) va := e]> m1.

Lemma page_disjoint p' i : page_ok p' -> p' <> q -> 0 <= i < 512 -> ~ (q <= p' + 8 * i < q + 4096).
Proof.
  intros [Hp _] Hne Hi. destruct Hq as [Hq' _].
  pose proof (Z.div_mod p' 4096 ltac:(lia)). pose proof (Z.div_mod q 4096 ltac:(lia)). lia.
Qed.

Lemma clear_entry k' p' va' : reach m k' va' p' -> entry m1 k' p' va' = entry m k' p' va'.
Proof.
  intros H. unfold entry, m1. rewrite peek_clear, decide_False; [done|]. apply page_disjoint.
  - by eapply to_page, to_owned.
  - intros ->. by eapply Hfresh, to_owned.
  - by apply index_range.
Qed.

Lemma clear_reach k' va' p' : reach m k' va' p' <-> reach m1 k' va' p'.
Proof. apply reach_frame. intros. by apply clear_entry. Qed.

Lemma clear_tables_ok : tables_ok m1 owned.
Proof.
  destruct Hok as [H1 H2 H3]. split; [|done|].
  - intros k' va' p' H%clear_reach. eauto.
  - intros ????? Ha%clear_reach Hb%clear_reach. eauto.
Qed.

Lemma new_entry k' va' : entry m' k' q va' = 0.
Proof.
  unfold entry, m', m1. pose proof (index_range T HT k' va'). pose proof (index_range T HT (S j) va).
  assert (page_ok p) by (by eapply to_page, to_owned). assert (p <> q) by (intros ->; by eapply Hfresh, to_owned).
  unfold peek at 1. rewrite lookup_insert_ne.
  - fold (peek (clear_page q m) (q + 8 * index T k' va')). rewrite peek_clear, decide_True by lia. done.
  - intros Heq. apply (page_disjoint p (index T (S j) va)); [done..|]. lia.
Qed.

Lemma table_reach_old k' va' p' : (S j <= k')%nat \/ prefix T (S j) va <> prefix T (S j) va' -> reach m k' va' p' <-> reach m' k' va' p'.
Proof.
  intros Hc. rewrite clear_reach. apply (write_reach m1 owned); [apply clear_tables_ok|by apply clear_reach|done].
Qed.

Lemma table_entry va' : prefix T (S j) va = prefix T (S j) va' -> reach m' (S j) va' p /\ entry m' (S j) p va' = e.
Proof. apply (write_entry m1 owned); [apply clear_tables_ok|by apply clear_reach]. Qed.

Lemma table_reach_new va' : prefix T (S j) va = prefix T (S j) va' -> reach m' j va' q.
Proof.
  intros Hp. destruct (table_entry va' Hp) as [H He].
  rewrite <- (tl_addr HL q Hq). change (pte_new P q (PT_TABLE_FLAGS P)) with e. rewrite <- He. constructor; [done|].
  rewrite He. unfold e. apply (tl_table HL); [lia|done].
Qed.

(** The tables reached are the old ones and the new one. *)
Lemma table_reach k' va' p' : reach m' k' va' p' ->
  (reach m k' va' p' /\ ((S j <= k')%nat \/ prefix T (S j) va <> prefix T (S j) va')) \/
  (k' = j /\ prefix T (S j) va = prefix T (S j) va' /\ p' = q).
Proof.
  intros H. destruct (decide (prefix T (S j) va = prefix T (S j) va')) as [Hp|Hp].
  2:{ left. split; [|by right]. apply table_reach_old; [by right|done]. }
  destruct (decide (S j <= k')%nat); [left; split; [|by left]; apply table_reach_old; [by left|done]|]. right.
  pose proof (table_reach_new va' Hp) as Hn. destruct (decide (k' = j)) as [->|Hne].
  { split_and!; [done..|]. by eapply reach_det. }
  destruct (reach_above _ _ _ _ H j) as (q' & Hq' & Ht); [pose proof (reach_top _ _ _ _ Hr); lia|].
  rewrite (reach_det _ _ _ _ Hq' _ Hn), new_entry, (tl_zero HL) in Ht. done.
Qed.

Lemma table_tables_ok (owned' : Z -> Prop) : (forall x, owned x -> owned' x) -> owned' q -> (forall x, owned' x -> page_ok x) ->
  tables_ok m' owned'.
Proof.
  intros Hmono Hnew Hpages. destruct Hok as [H1 H2 H3].
  assert (forall k' va' p', reach m k' va' p' -> p' <> q) as Hne by (intros ? ? ? H ->; eauto). split.
  - intros k' va' p' [[H _]|(_ & _ & ->)]%table_reach; eauto.
  - done.
  - intros k1 va1 k2 va2 x [[Ha _]|(-> & Ha & ->)]%table_reach [[Hb _]|(-> & Hb & He)]%table_reach.
    + eauto.
    + subst. by apply Hne in Ha.
    + by apply Hne in Hb.
    + split; [done|congruence].
Qed.

Lemma table_walk va' : walk m' va' = if decide (prefix T (S j) va = prefix T (S j) va') then None else walk m va'.
Proof.
  case_decide as Hp.
  - assert (forall k', walk_from m' k' q va' = None) as Hnone.
    { intros [|k']; cbn [walk_from]; rewrite new_entry; [by rewrite (tl_zero_present HL)|].
      by rewrite (tl_zero HL), (tl_zero_large HL). }
    by rewrite (reach_walk _ _ _ _ (table_reach_new va' Hp)).
  - unfold m'. rewrite (write_walk_other m1 owned); [|apply clear_tables_ok|by apply clear_reach|done].
    apply walk_frame. intros. by apply clear_entry.
Qed.
End table.
End walks.
