(* ===== verification/VmmSpec.v ===== *)
(** * Mapping pages

    The common code of the virtual memory manager against the walk a processor
    makes: descending through the tables, creating those that are missing and
    splitting a large page that is in the way, and writing the leaf. *)

From S2P Require Import Prelude Bytes Vmm VmmWalk.

(** ** What the page tables need of the allocator *)

(** Pages handed out stay owned; a new page is not one of them.  A panic of the
    allocator is an [alloc_error]. *)
Class PageAllocatorSpec (A : Type) `{PageAllocator A} := {
  alloc_inv : A -> Prop;
  owned : A -> Z -> Prop;
  alloc_error : string -> Prop;
  owned_page a p : alloc_inv a -> owned a p -> page_ok p;
  alloc_page_spec a : alloc_inv a ->
    match alloc_page a with
    | Ret (p, a') => alloc_inv a' /\ ~ owned a p /\ owned a' p /\ forall q, owned a q -> owned a' q
    | Panic msg => alloc_error msg
    | Undef | Diverge => False
    end
}.

(** ** What the processor makes of an entry *)

Record hardware := {
  present : Z -> bool;          (** of an entry of level 0 *)
  hw_addr : Z -> Z;
  hw_flags : nat -> Z -> Z;     (** the VMM flags an entry of a level stands for *)
  leaf : nat -> Z -> Z -> Z;    (** the entry the loader writes *)
  max_leaf : nat;               (** the largest page, as a level *)
  flag_ok : Z -> Prop;          (** the flags an entry can stand for *)
  splits : nat -> Z -> Z -> Prop  (** the large pages the loader can split: level, address, flags *)
}.

(** A physical block of the size of level [k]. *)
Definition block (k : nat) (pa : Z) : Prop := 0 <= pa /\ pa `mod` psize k = 0 /\ pa + psize k <= 2 ^ 48.

Definition frame (HW : hardware) (k : nat) (e : Z) : Z := HW.(hw_addr) e - HW.(hw_addr) e `mod` psize k.

Record paging_ok (P : paging) (HW : hardware) : Prop := {
  po_table : table_laws P HW.(present);
  po_max : Z.of_nat HW.(max_leaf) < P.(VMM_MAX_LEVEL);
  po_large k pa f : (0 < k <= HW.(max_leaf))%nat -> block k pa -> HW.(flag_ok) f ->
    P.(PT_IS_TABLE) (Z.of_nat k) (HW.(leaf) k pa f) = false /\ P.(PT_IS_LARGE) (HW.(leaf) k pa f) = true;
  po_small pa f : block 0 pa -> HW.(flag_ok) f -> HW.(present) (HW.(leaf) 0 pa f) = true;
  po_leaf k pa f : (k <= HW.(max_leaf))%nat -> block k pa -> HW.(flag_ok) f ->
    frame HW k (HW.(leaf) k pa f) = pa /\ HW.(hw_flags) k (HW.(leaf) k pa f) = f;
  po_split k pa f : (0 < k <= HW.(max_leaf))%nat -> block k pa -> HW.(flag_ok) f -> HW.(splits) k pa f ->
    P.(pte_addr) (HW.(leaf) k pa f) = pa /\ P.(PT_TO_VMM_FLAGS) (HW.(leaf) k pa f) = f
}.

(** Rounding down to a power of two, as the code does it. *)
Lemma land_round_down x n : 0 <= x < W64 -> 0 <= n <= 64 -> Z.land x (u64 (Z.lnot (2 ^ n - 1))) = x - x `mod` 2 ^ n.
Proof.
  intros Hx Hn. unfold u64. change W64%Z with (2 ^ 64). rewrite <- Z.land_ones by lia.
  replace (2 ^ n - 1) with (Z.ones n) by (rewrite Z.ones_equiv; lia).
  rewrite (Z.land_comm (Z.lnot _)), Z.land_assoc, (Z.land_ones x) by lia.
  change (2 ^ 64) with W64%Z. rewrite Z.mod_small by lia. rewrite <- Z.ldiff_land, Z.ldiff_ones_r by lia.
  rewrite Z.shiftl_mul_pow2, Z.shiftr_div_pow2 by lia. pose proof (Z.div_mod x (2 ^ n) ltac:(lia)). lia.
Qed.

Lemma land_mod x n : 0 <= n -> Z.land x (2 ^ n - 1) = x `mod` 2 ^ n.
Proof. intros Hn. rewrite <- Z.land_ones by lia. f_equal. rewrite Z.ones_equiv. lia. Qed.

Lemma round_psize x k : 0 <= x < W64 -> (k < 5)%nat -> Z.land x (u64 (Z.lnot (psize k - 1))) = x - x `mod` psize k.
Proof. intros Hx Hk. apply land_round_down; lia. Qed.

Lemma land_psize x k : Z.land x (psize k - 1) = x `mod` psize k.
Proof. apply land_mod. lia. Qed.

Section mapping.
Context {A : Type} {PA : PageAllocator A} {PAS : PageAllocatorSpec A}.
Context (P : paging) (HW : hardware) (T : layout).
Context (HP : paging_ok P HW) (HT : layout_ok T).
Implicit Types s : vmm A.

#[local] Abbreviation walk := (walk P HW.(present) T).
#[local] Abbreviation reach := (reach P T).
#[local] Abbreviation prefix := (prefix T).
#[local] Abbreviation entry := (entry T).

(** The translation of an address: the physical address and the flags. *)
Definition translate (m : gmap Z Z) (va : Z) : option (Z * Z) :=
  match walk m va with
  | Some (e, k) => Some (frame HW k e + va `mod` psize k, HW.(hw_flags) k e)
  | None => None
  end.

(** The allocator and the tables are in order, and the large pages are pages the
    loader has mapped. *)
Record wf s : Prop := {
  wf_alloc : alloc_inv s.(allocator);
  wf_tables : tables_ok P T s.(mem) (owned s.(allocator));
  wf_large k va p : reach s.(mem) (S k) va p -> P.(PT_IS_TABLE) (Z.of_nat (S k)) (entry s.(mem) (S k) p va) = false ->
    P.(PT_IS_LARGE) (entry s.(mem) (S k) p va) = true ->
    exists pa f, (S k <= HW.(max_leaf))%nat /\ block (S k) pa /\ HW.(flag_ok) f /\
      entry s.(mem) (S k) p va = HW.(leaf) (S k) pa f
}.

(** The result satisfies [Q], or the allocator has panicked. *)
Definition ensures {R} (o : outcome (R * vmm A)) (Q : R -> vmm A -> Prop) : Prop :=
  match o with
  | Ret (r, s) => Q r s
  | Panic msg => alloc_error msg
  | Undef | Diverge => False
  end.

Lemma ensures_bind {R U} (m : M R) (f : R -> M U) s Q R' :
  ensures (m s) Q -> (forall r s', Q r s' -> ensures (f r s') R') -> ensures ((m ≫= f) s) R'.
Proof. unfold mbind, M_bind. intros Hm Hf. destruct (m s) as [[r s']|?| |]; [by apply Hf|done..]. Qed.

Lemma ensures_weaken {R} (o : outcome (R * vmm A)) (Q R' : R -> vmm A -> Prop) :
  ensures o Q -> (forall r s, Q r s -> R' r s) -> ensures o R'.
Proof. destruct o as [[]|?| |]; simpl; auto. Qed.

Lemma for_loop_inv (Inv : Z -> vmm A -> Prop) bound step (body : Z -> M ()) : 0 < step ->
  (forall i s, Inv i s -> i < bound -> ensures (body i s) (fun _ s' => Inv (i + step) s')) ->
  forall fuel i s, Inv i s -> bound - i <= Z.of_nat fuel * step ->
  ensures (for_loop fuel i bound step body s) (fun _ s' => exists i', bound <= i' /\ Inv i' s').
Proof.
  intros Hstep Hbody. induction fuel as [|fuel IH]; intros i s Hi Hf; cbn [for_loop]; split_ltb i bound.
  - lia.
  - exists i. split; [lia|done].
  - eapply ensures_bind; [by apply Hbody|]. intros [] s' Hs'. apply IH; [done|]. lia.
  - exists i. split; [lia|done].
Qed.

(** Tables at level [d] and above are never moved. *)
Definition keeps (d : nat) (m m' : gmap Z Z) : Prop := forall k va p, (d <= k)%nat -> reach m k va p -> reach m' k va p.

(** ** New tables *)

(** An entry that is neither a table nor a large page is replaced by a new table,
    and a large page loses its mapping. *)
Lemma new_table s j va p : wf s -> reach s.(mem) (S j) va p ->
  P.(PT_IS_TABLE) (Z.of_nat (S j)) (entry s.(mem) (S j) p va) = false ->
  ensures ((q ← ext_mem_alloc; _ ← store (p + 8 * index T (S j) va) (P.(pte_new) q P.(PT_TABLE_FLAGS)); mret q) s)
    (fun q s' => wf s' /\ reach s'.(mem) j va q /\ keeps 0 s.(mem) s'.(mem) /\
       forall va', walk s'.(mem) va' = if decide (prefix (S j) va = prefix (S j) va') then None else walk s.(mem) va').
Proof.
  intros [Ha Ht Hl] Hr Hnt. pose proof (alloc_page_spec _ Ha) as Hspec.
  unfold ext_mem_alloc, mbind, M_bind. cbn. destruct (alloc_page (allocator s)) as [[q a']|msg| |]; [|done..].
  destruct Hspec as (Ha' & Hfresh & Hq & Hmono). pose proof (owned_page _ _ Ha' Hq) as Hpg. cbn.
  pose proof (table_reach P HW.(present) T HT s.(mem) _ Ht (po_table _ _ HP) j va p q Hr Hpg Hfresh) as Hreach.
  split_and!.
  - split; cbn; [done|by eapply (table_tables_ok P HW.(present) T); eauto using owned_page, po_table|].
    intros k va' p' [[Hold Hc]|(-> & Hp & ->)]%Hreach.
    2:{ rewrite (new_entry P T HT _ _ Ht j va p q Hr Hpg Hfresh), (tl_zero_large _ _ (po_table _ _ HP)). done. }
    pose proof Hold as Hold'. apply (table_reach_old P T HT _ _ Ht j va p q Hr Hpg Hfresh) in Hold'; [|done].
    pose proof (clear_reach P T HT _ _ Ht q Hpg Hfresh (S k) va' p') as [Hcl _]. specialize (Hcl Hold).
    rewrite (entry_write P T HT (clear_page q s.(mem)) _ (S j) va p _ _ _ _ (clear_tables_ok P T HT _ _ Ht q Hpg Hfresh)
      (proj1 (clear_reach P T HT _ _ Ht q Hpg Hfresh _ _ _) Hr) Hcl).
    case_decide as Hd.
    + intros Hf. destruct Hd as [[= ->] _]. rewrite (tl_table _ _ (po_table _ _ HP)) in Hf; [done|lia|done].
    + rewrite (clear_entry P T HT _ _ Ht q Hpg Hfresh _ _ _ Hold). by eapply Hl.
  - by eapply (table_reach_new P HW.(present) T); eauto using po_table.
  - intros k va' p' Hk Hold. apply (table_reach_old P T HT _ _ Ht j va p q Hr Hpg Hfresh); [|done].
    destruct (decide (S j <= k)%nat) as [|]; [by left|]. right. intros Hp.
    pose proof (reach_top _ _ _ _ _ _ Hr) as Htop.
    destruct (reach_above _ _ _ _ _ _ Hold (S j)) as (r & Hr' & Htab); [lia|].
    pose proof (prefix_S T (S j) va va' Htop) as [Hpre _]. destruct (Hpre Hp) as [Hix Hpp].
    rewrite (reach_det _ _ _ _ _ _ Hr' _ (reach_prefix _ _ _ _ _ _ Hr _ Hpp)) in Htab.
    rewrite <- (entry_prefix T s.(mem) (S j) p va va' Hix) in Htab. congruence.
  - intros va'. by apply (table_walk P HW.(present) T HT _ _ Ht (po_table _ _ HP)).
Qed.

(** ** Leaves *)

(** A request: a block of a page size, with flags the entries can hold. *)
Record request (d : nat) (pa f : Z) : Prop := {
  rq_level : (d <= HW.(max_leaf))%nat;
  rq_block : block d pa;
  rq_flags : HW.(flag_ok) f
}.

Lemma leaf_not_table d pa f : request d pa f -> (0 < d)%nat -> P.(PT_IS_TABLE) (Z.of_nat d) (HW.(leaf) d pa f) = false.
Proof. intros [Hd Hb Hf] H. by apply (po_large _ _ HP). Qed.

(** What a mapping does to the walks: those of its block find the leaf. *)
Definition mapped (d : nat) (va pa f : Z) (m m' : gmap Z Z) : Prop :=
  forall va', walk m' va' = if decide (prefix d va = prefix d va') then Some (HW.(leaf) d pa f, d) else walk m va'.

Lemma set_leaf s d va p pa f : wf s -> request d pa f -> reach s.(mem) d va p ->
  ensures (store (p + 8 * index T d va) (HW.(leaf) d pa f) s)
    (fun _ s' => wf s' /\ keeps d s.(mem) s'.(mem) /\ mapped d va pa f s.(mem) s'.(mem)).
Proof.
  intros [Ha Ht Hl] Hrq Hr. pose proof (leaf_not_table d pa f Hrq) as Hnt. destruct Hrq as [Hd Hb Hf]. cbn.
  pose proof (leaf_reach P T HT _ _ Ht d va p _ Hr Hnt) as Hreach. split_and!.
  - split; cbn; [done|by apply leaf_tables_ok|]. intros k va' p' H Htab Hlarge.
    pose proof (Hreach _ _ _ H) as [Hold _].
    pose proof (entry_write P T HT _ _ d va p (HW.(leaf) d pa f) _ _ _ Ht Hr Hold) as He. rewrite He in *.
    case_decide as Hc; [|by eapply Hl]. destruct Hc as [<- _]. by exists pa, f.
  - intros k va' p' Hk H. apply (write_reach P T HT _ _ Ht); [done|by left|done].
  - intros va'. case_decide as Hp; [|by apply (write_walk_other P _ T HT _ _ Ht)].
    rewrite (leaf_walk P _ T HT _ _ Ht d va p _ Hr Hnt) by done. destruct d as [|d].
    + by rewrite (po_small _ _ HP).
    + destruct (po_large _ _ HP (S d) pa f) as [_ ->]; [lia|done..].
Qed.

(** ** Descending *)

(** The walk of [va] meets no page larger than level [d]. *)
Definition clear (d : nat) (m : gmap Z Z) (va : Z) : Prop := forall e k, walk m va = Some (e, k) -> (k <= d)%nat.

Lemma clear_entry_large d m va k p : clear d m va -> (d < k)%nat -> reach m k va p ->
  P.(PT_IS_TABLE) (Z.of_nat k) (entry m k p va) = false -> P.(PT_IS_LARGE) (entry m k p va) = false.
Proof.
  intros Hc Hk Hr Ht. destruct (P.(PT_IS_LARGE) _) eqn:Hl; [|done]. exfalso.
  destruct k as [|k]; [lia|]. pose proof (reach_walk P HW.(present) T _ _ _ _ Hr) as Hw. cbn [walk_from] in Hw.
  rewrite Ht, Hl in Hw. apply Hc in Hw. lia.
Qed.

(** An absent entry has no walk. *)
Lemma absent_walk m k va p va' : reach m (S k) va p -> prefix (S k) va = prefix (S k) va' ->
  P.(PT_IS_TABLE) (Z.of_nat (S k)) (entry m (S k) p va) = false -> P.(PT_IS_LARGE) (entry m (S k) p va) = false ->
  walk m va' = None.
Proof.
  intros Hr Hp Ht Hl. pose proof (reach_top _ _ _ _ _ _ Hr). apply (prefix_S T) in Hp as [Hi Hp]; [|done].
  rewrite (reach_walk P _ T _ _ _ _ (reach_prefix _ _ _ _ _ _ Hr _ Hp)). cbn [walk_from].
  by rewrite <- (entry_prefix T m (S k) p va va' Hi), Ht, Hl.
Qed.

Lemma keeps_refl d m : keeps d m m.
Proof. by intros ? ? ?. Qed.
Lemma keeps_trans d m1 m2 m3 : keeps d m1 m2 -> keeps d m2 m3 -> keeps d m1 m3.
Proof. intros H1 H2 k va p Hk Hr. eauto. Qed.
Lemma keeps_le d d' m m' : (d <= d')%nat -> keeps d m m' -> keeps d' m m'.
Proof. intros Hd Hk k va p H. apply Hk. lia. Qed.

(** A level without a large page in the way. *)
Lemma next_clear cb s j va p d : wf s -> reach s.(mem) (S j) va p -> clear d s.(mem) va -> (d <= j)%nat ->
  ensures (get_next_level P cb p va (Z.of_nat d) (Z.of_nat (S j)) (index T (S j) va) s)
    (fun q s' => wf s' /\ reach s'.(mem) j va q /\ keeps d s.(mem) s'.(mem) /\ forall va', walk s'.(mem) va' = walk s.(mem) va').
Proof.
  intros Hwf Hr Hc Hd. unfold get_next_level. unfold mbind at 1, M_bind at 1. cbn [load].
  change (peek (mem s) (p + 8 * index T (S j) va)) with (entry s.(mem) (S j) p va).
  destruct (PT_IS_TABLE P (Z.of_nat (S j)) (entry (mem s) (S j) p va)) eqn:Ht.
  { cbn. split_and!; [done|by constructor|apply keeps_refl|done]. }
  pose proof (clear_entry_large d _ _ (S j) _ Hc ltac:(lia) Hr Ht) as Hl. rewrite Hl.
  eapply ensures_weaken; [by apply new_table|]. intros q s' (Hwf' & Hq & Hk & Hw). split_and!; [done..| |].
  - by apply (keeps_le 0); [lia|].
  - intros va'. rewrite Hw. case_decide as Hp; [|done]. symmetry. by eapply absent_walk.
Qed.

(** The descent of [map_page] from the table [p] of level [k] to level [d]. *)
Fixpoint descend (cb : Z -> Z -> Z -> Z -> M ()) (k : nat) (p va : Z) (d : nat) (e : Z) : M (A := A) () :=
  if decide (k = d) then store (p + 8 * index T k va) e
  else match k with
       | O => mundef
       | S j =>
           q ← get_next_level P cb p va (Z.of_nat d) (Z.of_nat k) (index T k va);
           descend cb j q va d e
       end.

Lemma descend_clear cb d va pa f k : request d pa f -> (d <= k)%nat -> forall s p, wf s -> reach s.(mem) k va p ->
  clear d s.(mem) va ->
  ensures (descend cb k p va d (HW.(leaf) d pa f) s)
    (fun _ s' => wf s' /\ keeps d s.(mem) s'.(mem) /\ mapped d va pa f s.(mem) s'.(mem) /\ exists q, reach s'.(mem) d va q).
Proof.
  intros Hrq. induction k as [|k IH]; intros Hd s p Hwf Hr Hc; cbn [descend]; case_decide as Hk; [subst|lia|subst|].
  1,2: eapply ensures_weaken; [by apply set_leaf|]; intros _ s' (Hwf' & Hkp & Hm); split_and!; [done..|]; exists p; by apply Hkp.
  eapply ensures_bind; [apply next_clear; (done || lia)|]. intros q s1 (Hwf1 & Hq & Hk1 & Hw1).
  eapply ensures_weaken; [apply IH; [lia|done|done|]|].
  - intros e l. rewrite Hw1. apply Hc.
  - intros [] s' (Hwf' & Hk2 & Hm & Hreach). split_and!; [done|by eapply keeps_trans| |done].
    intros va'. by rewrite Hm, Hw1.
Qed.

(** ** Splitting a large page *)

(** The page that maps [va] can be split, if it is larger than level [d]. *)
Definition splittable (d : nat) (m : gmap Z Z) (va : Z) : Prop :=
  forall e k, walk m va = Some (e, k) -> (d < k)%nat -> HW.(splits) k (frame HW k e) (HW.(hw_flags) k e).

(** The pages of [m'] are not larger than those of [m], or than level [d] in the block of [va]. *)
Definition grain (d : nat) (va : Z) (m m' : gmap Z Z) : Prop := forall va' e' k', walk m' va' = Some (e', k') ->
  if decide (prefix d va = prefix d va') then (k' <= d)%nat else exists e k, walk m va' = Some (e, k) /\ (k' <= k)%nat.

Lemma leaf_walk_block m j va p pa f va' : request (S j) pa f -> reach m (S j) va p -> entry m (S j) p va = HW.(leaf) (S j) pa f ->
  prefix (S j) va = prefix (S j) va' -> walk m va' = Some (HW.(leaf) (S j) pa f, S j).
Proof.
  intros [Hl Hb Hf] Hr He Hp. apply (prefix_S T) in Hp as [Hi Hp]; [|by eapply reach_top].
  rewrite (reach_walk P _ T _ _ _ _ (reach_prefix _ _ _ _ _ _ Hr _ Hp)). cbn [walk_from].
  rewrite <- (entry_prefix T m (S j) p va va' Hi), He. by destruct (po_large _ _ HP (S j) pa f) as [-> ->]; [lia|..].
Qed.

Lemma splittable_leaf d m va j p pa f : splittable d m va -> request (S j) pa f -> reach m (S j) va p ->
  entry m (S j) p va = HW.(leaf) (S j) pa f -> (d < S j)%nat -> HW.(splits) (S j) pa f.
Proof.
  intros Hs Hrq Hr He Hd. pose proof (Hs _ _ (leaf_walk_block _ _ _ _ _ _ va Hrq Hr He eq_refl) Hd) as H.
  destruct Hrq as [Hl Hb Hf]. by destruct (po_leaf _ _ HP (S j) pa f) as [E1 E2]; [lia|done..|]; rewrite E1, E2 in H.
Qed.

Definition callback_ok (d : nat) (cb : Z -> Z -> Z -> Z -> M ()) : Prop := forall s va pa f,
  0 <= va < W64 -> wf s -> request d pa f -> clear d s.(mem) va ->
  ensures (cb va pa f (Z.of_nat d) s) (fun _ s' => wf s' /\ keeps d s.(mem) s'.(mem) /\ mapped d va pa f s.(mem) s'.(mem)).

(** The walks while a page of level [l] at [va] that maps [pa] is split into pages of
    level [d], the first [i] bytes being done. *)
Definition part_split (d l : nat) (va pa f i : Z) (m m' : gmap Z Z) : Prop := forall va',
  walk m' va' = if decide (prefix l va = prefix l va')
                then (if va' `mod` psize l <? i
                      then Some (HW.(leaf) d (pa + (va' `mod` psize l - va' `mod` psize d)) f, d) else None)
                else walk m va'.

Lemma block_part d l pa i : (d <= l)%nat -> block l pa -> 0 <= i -> i + psize d <= psize l -> i `mod` psize d = 0 -> block d (pa + i).
Proof.
  intros Hd (H0 & Hm & Hb) Hi Hle Him. pose proof (psize_pos d). split_and!; [lia| |lia].
  destruct (psize_le d l Hd) as (n & Hn & Hsz). rewrite Hsz in Hm.
  pose proof (Z.div_mod pa (psize d * n) ltac:(nia)) as Hdm. pose proof (Z.div_mod i (psize d) ltac:(lia)) as Hdi.
  replace (pa + i) with (0 + (n * (pa / (psize d * n)) + i / psize d) * psize d) by nia.
  rewrite Z_mod_plus_full. apply Z.mod_small. lia.
Qed.

Lemma request_part d l pa f i : (d < l)%nat -> request l pa f -> 0 <= i -> i + psize d <= psize l -> i `mod` psize d = 0 ->
  request d (pa + i) f.
Proof.
  intros Hd [Hl Hb Hf] Hi Hle Him. split; [lia|by eapply block_part; [|eassumption|..]; [lia|..]|done].
Qed.

(** A block that is not the one at [i] is wholly below or wholly above it. *)
Lemma other_block sz i x y a q : 0 < sz -> i = sz * a -> x = sz * q + y -> 0 <= y < sz -> i <> x - y -> (x <? i) = (x <? i + sz).
Proof.
  intros Hs -> -> Hy Hne. assert (a <> q) by (intros ->; lia).
  destruct (decide (q < a)); [assert (sz * (q + 1) <= sz * a) by (apply Z.mul_le_mono_nonneg_l; lia)|
                              assert (sz * (a + 1) <= sz * q) by (apply Z.mul_le_mono_nonneg_l; lia)].
  - split_ltb (sz * q + y) (sz * a); split_ltb (sz * q + y) (sz * a + sz); (done || lia).
  - split_ltb (sz * q + y) (sz * a); split_ltb (sz * q + y) (sz * a + sz); (done || lia).
Qed.

(** One iteration of the loop. *)
Lemma split_step cb d l s m0 va pa f i : (d < l)%nat -> (l <= T.(top))%nat -> 0 <= va < W64 -> request l pa f -> callback_ok d cb ->
  wf s -> part_split d l va pa f i m0 s.(mem) -> 0 <= i < psize l -> i `mod` psize d = 0 ->
  ensures (cb (u64 (va - va `mod` psize l + i)) (u64 (pa + i)) f (Z.of_nat d) s)
    (fun _ s' => wf s' /\ keeps d s.(mem) s'.(mem) /\ part_split d l va pa f (i + psize d) m0 s'.(mem)).
Proof.
  intros Hd Hl Hva Hrq Hcb Hwf Hps Hi Him. pose proof (psize_pos d) as Hpd. pose proof (psize_pos l) as Hpl.
  pose proof (lo_top T HT) as Htop. pose proof (Z.mod_pos_bound va (psize l) Hpl) as Hvm.
  destruct (psize_le d l ltac:(lia)) as (n & Hn & Hsz).
  assert (i + psize d <= psize l) as Hile.
  { pose proof (Z.div_mod i (psize d) ltac:(lia)). assert (i / psize d < n) by (apply Z.div_lt_upper_bound; lia). nia. }
  destruct (psize_le l 5 ltac:(lia)) as (N & HN & H5). change (psize 5) with (2 ^ 57) in H5.
  assert (va - va `mod` psize l + psize l <= W64) as Hend.
  { pose proof (Z.div_mod va (psize l) ltac:(lia)). assert (W64%Z = psize l * (N * 128)) by (rewrite Z.mul_assoc, <- H5; done).
    assert (va / psize l < N * 128) by (apply Z.div_lt_upper_bound; lia). nia. }
  pose proof (rq_block _ _ _ Hrq) as (Hp0 & _ & Hp48).
  pose proof (Z.mod_le va (psize l) ltac:(lia) Hpl).
  rewrite (u64_small (pa + i)), (u64_small (_ + i)) by lia.
  pose proof (prefix_div T HT l (va - va `mod` psize l) va) as Hpd'.
  assert (prefix l (va - va `mod` psize l) = prefix l va) as Hpre.
  { apply Hpd'; [lia|]. pose proof (Z.div_mod va (psize l) ltac:(lia)). symmetry. apply (Z.div_unique_pos _ _ _ 0); lia. }
  assert (forall va', prefix d (va - va `mod` psize l + i) = prefix d va' <->
    prefix l va = prefix l va' /\ i = va' `mod` psize l - va' `mod` psize d) as Hblk.
  { intros va'. rewrite <- Hpre. apply prefix_block; try done; try lia.
    pose proof (Z.div_mod va (psize l) ltac:(lia)). replace (va - va `mod` psize l) with (va / psize l * psize l) by lia. apply Z_mod_mult. }
  assert (forall va', (va' `mod` psize l) `mod` psize d = va' `mod` psize d) as Hmm.
  { intros va'. apply Z.mod_mod_divide. exists n. lia. }
  eapply ensures_weaken; [apply Hcb; [lia|done|apply (request_part d l pa f i); (done || lia)|]|].
  - intros e k. rewrite Hps. rewrite decide_True.
    + case_match; [by intros [= _ <-]|done].
    + by apply Hblk.
  - intros [] s' (Hwf' & Hk & Hm). split_and!; [done..|]. intros va'. rewrite Hm.
    case_decide as Hd1.
    + apply Hblk in Hd1 as [Hd1 Hi1]. rewrite decide_True by done. rewrite <- Hi1.
      pose proof (Z.mod_pos_bound va' (psize d) Hpd). split_ltb (va' `mod` psize l) (i + psize d); [done|lia].
    + rewrite Hps. case_decide as Hd2; [|done].
      assert (i <> va' `mod` psize l - va' `mod` psize d) by (intros ?; apply Hd1, Hblk; done).
      pose proof (Z.div_mod (va' `mod` psize l) (psize d) ltac:(lia)) as Hdm. rewrite Hmm in Hdm.
      pose proof (Z.div_mod i (psize d) ltac:(lia)) as Hdi. pose proof (Z.mod_pos_bound va' (psize d) Hpd).
      rewrite (other_block (psize d) i (va' `mod` psize l) (va' `mod` psize d) (i / psize d) ((va' `mod` psize l) / psize d)); (done || lia).
Qed.

Lemma bind_assoc_unit (m1 : M (A := A) Z) (m2 m3 : Z -> M (A := A) ()) s :
  (m1 ≫= (fun r => m2 r ≫= (fun _ => m3 r ≫= (fun _ => mret r)))) s =
  ((m1 ≫= (fun r => m2 r ≫= (fun _ => mret r))) ≫= (fun r => m3 r ≫= (fun _ => mret r))) s.
Proof. unfold mbind, M_bind. destruct (m1 s) as [[r s1]|?| |]; try done. by destruct (m2 r s1) as [[[] s2]|?| |]. Qed.

Lemma next_split cb s j va p d : wf s -> reach s.(mem) (S j) va p -> (d <= j)%nat -> 0 <= va < W64 -> callback_ok d cb -> splittable d s.(mem) va ->
  P.(PT_IS_TABLE) (Z.of_nat (S j)) (entry s.(mem) (S j) p va) = false -> P.(PT_IS_LARGE) (entry s.(mem) (S j) p va) = true ->
  ensures (get_next_level P cb p va (Z.of_nat d) (Z.of_nat (S j)) (index T (S j) va) s)
    (fun q s' => wf s' /\ reach s'.(mem) j va q /\ keeps d s.(mem) s'.(mem) /\
       exists pa f, request (S j) pa f /\ part_split d (S j) va pa f (psize (S j)) s.(mem) s'.(mem) /\
         entry s.(mem) (S j) p va = HW.(leaf) (S j) pa f).
Proof.
  intros Hwf Hr Hd Hva Hcb Hsp Ht Hl. destruct (wf_large s Hwf j va p Hr Ht Hl) as (pa & f & Hj & Hb & Hf & He).
  assert (request (S j) pa f) as Hrq by (split; auto).
  pose proof (splittable_leaf d _ va j p pa f Hsp Hrq Hr He ltac:(lia)) as Hs.
  destruct (po_split _ _ HP (S j) pa f ltac:(lia) Hb Hf Hs) as [Hpa Hfl].
  pose proof (po_max _ _ HP) as Hmx. pose proof (lo_top T HT) as Htop. pose proof (reach_top _ _ _ _ _ _ Hr). pose proof (psize_pos (S j)). pose proof (psize_pos d).
  unfold get_next_level. unfold mbind at 1, M_bind at 1. cbn [load].
  change (peek (mem s) (p + 8 * index T (S j) va)) with (entry s.(mem) (S j) p va). rewrite Ht, Hl.
  split_leb (VMM_MAX_LEVEL P) (Z.of_nat (S j)); [lia|]. split_eqb (Z.of_nat (S j)) 0; [lia|]. cbn [orb].
  split_leb (VMM_MAX_LEVEL P) (Z.of_nat d); [lia|]. rewrite He, Hpa, Hfl, !Nat2Z.id, !page_sizes_size by lia.
  destruct Hb as (Hb0 & Hbm & Hb48).
  rewrite land_psize, round_psize, Hbm by lia. cbn [Z.eqb negb].
  rewrite (bind_assoc_unit ext_mem_alloc (fun r => store _ _) (fun _ => for_loop _ _ _ _ _)).
  eapply ensures_bind; [by apply new_table|]. intros q s1 (Hwf1 & Hq & Hk1 & Hw1).
  destruct (psize_le d (S j) ltac:(lia)) as (n & Hn & Hsz).
  eapply ensures_bind.
  { apply (for_loop_inv (fun i s2 => wf s2 /\ keeps d s1.(mem) s2.(mem) /\ part_split d (S j) va pa f i s.(mem) s2.(mem) /\
      0 <= i /\ i `mod` psize d = 0)); [done| | |].
    - intros i s2 (Hwf2 & Hk2 & Hps & Hi & Him) Hlt.
      eapply ensures_weaken; [apply (split_step cb d (S j) s2 s.(mem)); (done || lia)|].
      intros [] s3 (Hwf3 & Hk3 & Hps3). split_and!; [done|by eapply keeps_trans|done|lia|].
      replace (i + psize d) with (i + 1 * psize d) by lia. by rewrite Z_mod_plus_full.
    - split_and!; [done|apply keeps_refl| |lia|by apply Z.mod_0_l; lia]. intros va'. rewrite Hw1. case_decide; [|done].
      split_ltb (va' `mod` psize (S j)) 0; [|done]. pose proof (Z.mod_pos_bound va' (psize (S j))). lia.
    - rewrite Hsz, (Z.mul_comm _ n), Z.div_mul by lia. lia. }
  intros [] s2 (i & Hi & Hwf2 & Hk2 & Hps & _). cbn. split_and!; [done|by apply Hk2| |].
  - eapply keeps_trans; [|done]. by apply (keeps_le 0); [lia|].
  - exists pa, f. split_and!; [done| |done]. intros va'. rewrite Hps. case_decide; [|done].
    pose proof (Z.mod_pos_bound va' (psize (S j)) ltac:(lia)).
    split_ltb (va' `mod` psize (S j)) i; split_ltb (va' `mod` psize (S j)) (psize (S j)); (done || lia).
Qed.

(** ** Translations *)

(** [m'] translates the block of [va] to that of [pa], and the rest as [m] does. *)
Definition maps_to (d : nat) (va pa f : Z) (m m' : gmap Z Z) : Prop := forall va',
  translate m' va' = if decide (prefix d va = prefix d va') then Some (pa + va' `mod` psize d, f) else translate m va'.

Lemma translate_leaf d pa f m va : request d pa f -> walk m va = Some (HW.(leaf) d pa f, d) ->
  translate m va = Some (pa + va `mod` psize d, f).
Proof.
  intros [Hd Hb Hf] Hw. unfold translate. rewrite Hw. by destruct (po_leaf _ _ HP d pa f) as [-> ->].
Qed.

Lemma mapped_maps_to d va pa f m m' : request d pa f -> mapped d va pa f m m' -> maps_to d va pa f m m'.
Proof.
  intros Hrq Hm va'. specialize (Hm va'). case_decide; [by apply translate_leaf|]. unfold translate. by rewrite Hm.
Qed.

(** Splitting a page changes no translation. *)
Lemma split_translate d l va p pa f m m' va' : (d < l)%nat -> request l pa f -> reach m l va p -> entry m l p va = HW.(leaf) l pa f ->
  part_split d l va pa f (psize l) m m' -> translate m' va' = translate m va'.
Proof.
  intros Hd Hrq Hr He Hps. specialize (Hps va'). pose proof (psize_pos l). pose proof (psize_pos d).
  case_decide as Hp; [|unfold translate; by rewrite Hps].
  pose proof (Z.mod_pos_bound va' (psize l) ltac:(lia)) as Hm. pose proof (Z.mod_pos_bound va' (psize d) ltac:(lia)) as Hm'.
  split_ltb (va' `mod` psize l) (psize l); [|lia]. destruct (psize_le d l ltac:(lia)) as (n & Hn & Hsz).
  assert ((va' `mod` psize l) `mod` psize d = va' `mod` psize d) as Hmm by (apply Z.mod_mod_divide; exists n; lia).
  pose proof (Z.div_mod (va' `mod` psize l) (psize d) ltac:(lia)) as Hdm. rewrite Hmm in Hdm.
  assert (0 <= (va' `mod` psize l) / psize d < n) as Hq by (split; [apply Z.div_pos; lia|apply Z.div_lt_upper_bound; lia]).
  rewrite (translate_leaf d (pa + (va' `mod` psize l - va' `mod` psize d)) f m' va'); [| |done].
  - rewrite (translate_leaf l pa f m va'); [do 2 f_equal; lia|done|].
    destruct l as [|j]; [lia|]. by eapply leaf_walk_block.
  - apply (request_part d l); [done|done|lia|nia|]. replace (va' `mod` psize l - va' `mod` psize d) with ((va' `mod` psize l) / psize d * psize d) by lia.
    apply Z_mod_mult.
Qed.

(** The postcondition of a mapping: what it translates, and the sizes of the pages. *)
Definition mapping (d : nat) (va pa f : Z) (m m' : gmap Z Z) : Prop := maps_to d va pa f m m' /\ grain d va m m'.

Lemma mapped_grain d va pa f m m1 m' : mapped d va pa f m1 m' ->
  (forall va' e' k', walk m1 va' = Some (e', k') -> exists e k, walk m va' = Some (e, k) /\ (k' <= k)%nat) -> grain d va m m'.
Proof. intros Hm Hf va' e' k'. rewrite (Hm va'). case_decide; [by intros [= _ <-]|apply Hf]. Qed.

Lemma split_grain d l va p pa f m m' va' e' k' : (d < l)%nat -> request l pa f -> reach m l va p -> entry m l p va = HW.(leaf) l pa f ->
  part_split d l va pa f (psize l) m m' -> walk m' va' = Some (e', k') -> exists e k, walk m va' = Some (e, k) /\ (k' <= k)%nat.
Proof.
  intros Hd Hrq Hr He Hps. rewrite (Hps va'). case_decide as Hp; [|by eexists _, _].
  case_match; [|done]. intros [= _ <-]. destruct l as [|j]; [lia|]. eexists _, _. split; [by eapply leaf_walk_block|lia].
Qed.

Lemma descend_spec cb d va pa f k : request d pa f -> (d <= k)%nat -> 0 <= va < W64 -> callback_ok d cb ->
  forall s p, wf s -> reach s.(mem) k va p -> splittable d s.(mem) va ->
  ensures (descend cb k p va d (HW.(leaf) d pa f) s)
    (fun _ s' => wf s' /\ keeps d s.(mem) s'.(mem) /\ mapping d va pa f s.(mem) s'.(mem) /\ exists q, reach s'.(mem) d va q).
Proof.
  intros Hrq Hd Hva Hcb. induction k as [|j IH]; intros s p Hwf Hr Hsp; cbn [descend]; case_decide as Hk; [subst|lia|subst|].
  1,2: eapply ensures_weaken; [by apply set_leaf|]; intros _ s' (Hwf' & Hkp & Hm); split_and!;
       [done..| |exists p; by apply Hkp]; (split; [by apply mapped_maps_to|eapply mapped_grain; [done|by eauto]]).
  assert (forall q s1, wf s1 -> reach s1.(mem) j va q -> clear d s1.(mem) va -> keeps d s.(mem) s1.(mem) ->
    (forall va', translate s1.(mem) va' = translate s.(mem) va') ->
    (forall va' e' k', walk s1.(mem) va' = Some (e', k') -> exists e k, walk s.(mem) va' = Some (e, k) /\ (k' <= k)%nat) ->
    ensures (descend cb j q va d (HW.(leaf) d pa f) s1)
      (fun _ s' => wf s' /\ keeps d s.(mem) s'.(mem) /\ mapping d va pa f s.(mem) s'.(mem) /\ exists q, reach s'.(mem) d va q)) as Hrest.
  { intros q s1 Hwf1 Hq Hc Hk1 Htr Hfi. eapply ensures_weaken; [apply descend_clear; (done || lia)|].
    intros [] s' (Hwf' & Hk2 & Hm & Hex). split_and!; [done|by eapply keeps_trans| |done]. split; [|by eapply mapped_grain].
    intros va'. rewrite (mapped_maps_to _ _ _ _ _ _ Hrq Hm va'). by rewrite Htr. }
  destruct (PT_IS_TABLE P (Z.of_nat (S j)) (entry s.(mem) (S j) p va)) eqn:Et.
  { unfold get_next_level. unfold mbind at 1, M_bind at 1. unfold mbind at 1, M_bind at 1. cbn [load].
    change (peek (mem s) (p + 8 * index T (S j) va)) with (entry s.(mem) (S j) p va). rewrite Et. cbn [mret M_ret].
    apply IH; [lia|done|by constructor|done]. }
  destruct (PT_IS_LARGE P (entry s.(mem) (S j) p va)) eqn:El.
  - eapply ensures_bind; [apply next_split; (done || lia)|]. intros q s1 (Hwf1 & Hq & Hk1 & pa' & f' & Hrq' & Hps & He).
    apply Hrest; [done|done| |done| |].
    + intros e k. rewrite (Hps va), decide_True by done. case_match; [|done]. by intros [= _ <-].
    + intros va'. by apply (split_translate d (S j) va p pa' f'); [lia|..].
    + intros va' e' k'. by apply (split_grain d (S j) va p pa' f'); [lia|..].
  - assert (clear d s.(mem) va) as Hc. { intros e k Hw. by rewrite (absent_walk _ _ _ _ va Hr eq_refl Et El) in Hw. }
    eapply ensures_bind; [apply next_clear; (done || lia)|]. intros q s1 (Hwf1 & Hq & Hk1 & Hw1).
    apply Hrest; [done|done| |done| |].
    + intros e k. rewrite Hw1. apply Hc.
    + intros va'. unfold translate. by rewrite Hw1.
    + intros va' e' k'. rewrite Hw1. by eauto.
Qed.

Lemma walk_reach m va k : forall p e j, reach m k va p -> walk_from P HW.(present) T m k p va = Some (e, j) ->
  exists q, reach m j va q /\ e = entry m j q va /\
    ((0 < j)%nat -> P.(PT_IS_TABLE) (Z.of_nat j) e = false /\ P.(PT_IS_LARGE) e = true).
Proof.
  induction k as [|k IH]; intros p e j Hr; cbn [walk_from].
  - case_match; [|done]. intros [= <- <-]. exists p. split_and!; [done..|lia].
  - destruct (PT_IS_TABLE P _ _) eqn:Et; [apply IH; by constructor|]. destruct (PT_IS_LARGE P _) eqn:El; [|done].
    intros [= <- <-]. exists p. by split_and!.
Qed.

(** No walk meets a page larger than the largest. *)
Lemma wf_clear s va : wf s -> clear HW.(max_leaf) s.(mem) va.
Proof.
  intros Hwf e k Hw. destruct (walk_reach _ _ _ _ _ _ (reach_root P T _ va) Hw) as (q & Hq & -> & Hlk).
  destruct k as [|k]; [lia|]. destruct Hlk as [Ht Hl]; [lia|]. by destruct (wf_large s Hwf k va q Hq Ht Hl) as (? & ? & ? & _).
Qed.

(** ** Which pages can be split *)

(** Addresses of the block of a page share its walk. *)
Lemma walk_block m va va' e k : walk m va' = Some (e, k) -> prefix k va' = prefix k va -> walk m va = Some (e, k).
Proof.
  intros Hw Hp. destruct (walk_reach _ _ _ _ _ _ (reach_root P T _ va') Hw) as (q & Hq & -> & Hlk).
  rewrite (reach_walk P _ T _ _ _ _ Hq) in Hw. apply (prefix_S T) in Hp as [Hi Hp]; [|by eapply reach_top].
  rewrite (reach_walk P _ T _ _ _ _ (reach_prefix _ _ _ _ _ _ Hq _ Hp)).
  destruct k as [|k]; cbn [walk_from] in *; rewrite <- (entry_prefix T m _ q va' va Hi); [done|].
  by destruct Hlk as [-> ->]; [lia|].
Qed.

Lemma splittable_block d l m va va' : (l <= S d)%nat -> splittable d m va -> prefix l va = prefix l va' -> splittable d m va'.
Proof.
  intros Hl Hs Hp e k Hw Hk. apply (Hs e k); [|done]. eapply walk_block; [done|].
  destruct (walk_reach _ _ _ _ _ _ (reach_root P T _ va') Hw) as (q & Hq & _). apply reach_top in Hq.
  symmetry. by apply (prefix_split T l k) in Hp as [_ ?]; [|lia..].
Qed.

Lemma same_page m m' va e e' k : translate m' va = translate m va -> walk m va = Some (e, k) -> walk m' va = Some (e', k) ->
  frame HW k e' = frame HW k e /\ HW.(hw_flags) k e' = HW.(hw_flags) k e.
Proof. unfold translate. intros Htr Hw Hw'. rewrite Hw, Hw' in Htr. injection Htr as ? ?. split; [lia|done]. Qed.

(** The page that maps [va] can be split, and so can its parts. *)
Definition divisible (m : gmap Z Z) (va : Z) : Prop := forall e k, walk m va = Some (e, k) -> forall j, (0 < j <= k)%nat ->
  HW.(splits) j (frame HW k e + (va `mod` psize k - va `mod` psize j)) (HW.(hw_flags) k e).

Lemma divisible_splittable d m va : divisible m va -> splittable d m va.
Proof.
  intros Hd e k Hw Hk. specialize (Hd e k Hw k ltac:(lia)). by rewrite Z.sub_diag, Z.add_0_r in Hd.
Qed.

(** A mapping elsewhere may split the page, and leaves it divisible. *)
Lemma divisible_kept d va pa f m m' va' : mapping d va pa f m m' -> prefix d va <> prefix d va' -> divisible m va' -> divisible m' va'.
Proof.
  intros [Hm Hg] Hne Hd e' k' Hw' j Hj. specialize (Hm va'). specialize (Hg va' e' k' Hw'). rewrite decide_False in Hm by done. rewrite decide_False in Hg by done.
  destruct Hg as (e & k & Hw & Hk). specialize (Hd e k Hw j ltac:(lia)).
  unfold translate in Hm. rewrite Hw, Hw' in Hm. injection Hm as Ha Hf. rewrite Hf.
  by replace (frame HW k' e' + (va' `mod` psize k' - va' `mod` psize j)) with (frame HW k e + (va' `mod` psize k - va' `mod` psize j)) by lia.
Qed.

(** ** Pages made of smaller pages *)

(** The first [i] bytes of a page of level [l] are mapped, with smaller pages. *)
Definition part_mapped (l : nat) (va pa f i : Z) (m m' : gmap Z Z) : Prop := forall va',
  translate m' va' = if decide (prefix l va = prefix l va') then
                       (if va' `mod` psize l <? i then Some (pa + va' `mod` psize l, f) else translate m va')
                     else translate m va'.

Lemma part_mapped_step d l va pa f i m m1 m2 : (d <= l)%nat -> (l <= T.(top))%nat -> va `mod` psize l = 0 ->
  part_mapped l va pa f i m m1 -> maps_to d (va + i) (pa + i) f m1 m2 -> 0 <= i < psize l -> i `mod` psize d = 0 ->
  part_mapped l va pa f (i + psize d) m m2.
Proof.
  intros Hd Hl Hva Hpm Hm Hi Him va'. rewrite (Hm va'). pose proof (psize_pos d) as Hpd. pose proof (psize_pos l).
  destruct (psize_le d l Hd) as (n & Hn & Hsz).
  assert ((va' `mod` psize l) `mod` psize d = va' `mod` psize d) as Hmm by (apply Z.mod_mod_divide; exists n; lia).
  pose proof (prefix_block T HT d l va i va' Hd Hl Hva Hi Him) as Hblk. pose proof (Z.mod_pos_bound va' (psize d) Hpd).
  case_decide as Hp.
  - apply Hblk in Hp as [Hp Hio]. rewrite decide_True by done. split_ltb (va' `mod` psize l) (i + psize d); [|lia]. do 2 f_equal. lia.
  - rewrite (Hpm va'). case_decide as Hp'; [|done].
    assert (i <> va' `mod` psize l - va' `mod` psize d) by (intros ?; by apply Hp, Hblk).
    pose proof (Z.div_mod (va' `mod` psize l) (psize d) ltac:(lia)) as Hdm. rewrite Hmm in Hdm.
    pose proof (Z.div_mod i (psize d) ltac:(lia)) as Hdi.
    rewrite (other_block (psize d) i (va' `mod` psize l) (va' `mod` psize d) (i / psize d) ((va' `mod` psize l) / psize d)); (done || lia).
Qed.
End mapping.
