(* ===== verification/VmmArch.v ===== *)
(** * Ranges of pages, and the entries of the four architectures

    What [map_pages] maps, and that the macros of every architecture agree with its
    processor. *)

From S2P Require Import Prelude Bytes Vmm VmmWalk VmmSpec.

(** * Mapping ranges

    [map_pages] covers a range with the largest pages that fit: every address of
    the range is translated, and no other address is affected. *)

(** The number of bytes the tables of one half can map. *)
Definition span (T : layout) : Z := psize T.(top) * 2 ^ T.(index_bits) T.(top).

Section spans.
Context (T : layout) (HT : layout_ok T).

(** Equal indices mean equal block numbers, up to the size of the address space. *)
Lemma prefix_mod d a b : (d <= T.(top))%nat -> prefix T d a = prefix T d b ->
  exists n, 0 < n /\ span T = psize d * n /\ (a / psize d) `mod` n = (b / psize d) `mod` n.
Proof.
  intros Hd Hp. apply (prefix_split T d T.(top)) in Hp as [Hlow Hp]; [|done..].
  apply (digits T HT d T.(top)) in Hlow; [|done..]. apply (prefix_S T) in Hp as [Hi _]; [|done].
  destruct (psize_le d T.(top) Hd) as (N & HN & Hsz). pose proof (psize_pos d) as Hpd. pose proof (psize_pos T.(top)) as Hpt.
  pose proof (lo_bits T HT T.(top)) as Hb. set (B := 2 ^ index_bits T (top T)). assert (0 < B) by (unfold B; lia).
  exists (N * B). split_and!; [lia|unfold span; fold B; nia|].
  assert (forall x, (x / psize d) `mod` (N * B) = (x `mod` psize T.(top)) / psize d + N * index T T.(top) x) as Hx.
  { intros x. rewrite Z.rem_mul_r by lia. unfold index. fold B. rewrite Z.div_div, <- Hsz by lia. f_equal.
    rewrite Hsz, Z.rem_mul_r by lia. rewrite (Z.mul_comm (psize d)), Z.div_add by lia.
    by rewrite (Z.div_small (x `mod` psize d)) by (apply Z.mod_pos_bound; lia). }
  by rewrite !Hx, Hlow, Hi.
Qed.

(** An earlier address of a range that fits the address space is in another block. *)
Lemma prefix_earlier d a b : (d <= T.(top))%nat -> b `mod` psize d = 0 -> a < b -> b - a <= span T - psize d ->
  prefix T d b <> prefix T d a.
Proof.
  intros Hd Hb Hab Hs Hp. destruct (prefix_mod d b a Hd Hp) as (n & Hn & Hsp & Hm). pose proof (psize_pos d) as Hpd.
  pose proof (Z.div_mod b (psize d) ltac:(lia)) as Hdb. rewrite Hb, Z.add_0_r in Hdb.
  pose proof (Z.div_mod a (psize d) ltac:(lia)) as Hda. pose proof (Z.mod_pos_bound a (psize d) Hpd) as Hma.
  set (qb := b / psize d) in *. set (qa := a / psize d) in *.
  assert (qa < qb) by nia. assert (qb - qa < n) by nia.
  assert ((qb - qa) `mod` n = 0) as Hz. { rewrite Zminus_mod, Hm, Z.sub_diag. apply Z.mod_0_l. lia. }
  rewrite Z.mod_small in Hz; lia.
Qed.

(** So is a later one. *)
Lemma prefix_later d a b : (d <= T.(top))%nat -> a `mod` psize d = 0 -> a + psize d <= b -> b - a < span T ->
  prefix T d a <> prefix T d b.
Proof.
  intros Hd Ha Hab Hs Hp. pose proof (psize_pos d) as Hpd. destruct (prefix_mod d a b Hd Hp) as (n & Hn & Hsp & _).
  pose proof (Z.div_mod b (psize d) ltac:(lia)) as Hdb. pose proof (Z.mod_pos_bound b (psize d) Hpd) as Hmb.
  pose proof (Z.div_mod a (psize d) ltac:(lia)) as Hda. rewrite Ha, Z.add_0_r in Hda.
  assert ((b - b `mod` psize d) / psize d = b / psize d) as Hq by (symmetry; apply (Z.div_unique_pos _ _ _ 0); lia).
  assert ((b - b `mod` psize d) `mod` psize d = 0) as Hz by (replace (b - b `mod` psize d) with (b / psize d * psize d) by lia; apply Z_mod_mult).
  apply (prefix_earlier d a (b - b `mod` psize d)); [done|done| | |].
  { assert (a / psize d < b / psize d) by nia. nia. }
  { assert (b / psize d - a / psize d < n) by nia. nia. }
  rewrite Hp. by apply prefix_div.
Qed.

(** The block of size [d] that starts at [b]. *)
Lemma prefix_same_block d b o : (d <= T.(top))%nat -> b `mod` psize d = 0 -> 0 <= o < psize d -> prefix T d b = prefix T d (b + o).
Proof.
  intros Hd Hb Ho. pose proof (psize_pos d). apply prefix_div; [done..|].
  pose proof (Z.div_mod b (psize d) ltac:(lia)). apply (Z.div_unique_pos _ _ _ o); lia.
Qed.

Lemma prefix_covered d b va : (d <= T.(top))%nat -> b `mod` psize d = 0 -> prefix T d b = prefix T d va ->
  exists o, 0 <= o < psize d /\ prefix T 0 (b + o) = prefix T 0 va.
Proof.
  intros Hd Hb Hp. pose proof (psize_pos d). pose proof (psize_pos 0).
  pose proof (Z.mod_pos_bound va (psize d) ltac:(lia)). pose proof (Z.mod_pos_bound va (psize 0) ltac:(lia)).
  destruct (psize_le 0 d ltac:(lia)) as (n & Hn & Hsz).
  assert ((va `mod` psize d) `mod` psize 0 = va `mod` psize 0) as Hmm by (apply Z.mod_mod_divide; exists n; lia).
  pose proof (Z.div_mod (va `mod` psize d) (psize 0) ltac:(lia)) as Hdm. rewrite Hmm in Hdm.
  assert (0 <= (va `mod` psize d) / psize 0) by (apply Z.div_pos; lia).
  exists (va `mod` psize d - va `mod` psize 0). split; [nia|].
  apply (prefix_block T HT 0 d); [lia|done|done|nia| |done].
  replace (va `mod` psize d - va `mod` psize 0) with ((va `mod` psize d) / psize 0 * psize 0) by lia. apply Z_mod_mult.
Qed.
End spans.

Section ranges.
Context {A : Type} {PA : PageAllocator A} {PAS : PageAllocatorSpec A}.
Context (P : paging) (HW : hardware) (T : layout) (HT : layout_ok T).
Context (Hmax : (2 <= HW.(max_leaf) <= T.(top))%nat).
Implicit Types s : vmm A.

(** A [map_page] that maps with flags [f] when called with [flags]. *)
Definition map_page_ok (map_page : Z -> Z -> Z -> Z -> M (A := A) ()) (flags f : Z) : Prop := forall s d va pa,
  wf P HW T s -> request HW d pa f -> (d <= 2)%nat -> 0 <= va < W64 -> va `mod` psize d = 0 -> splittable P HW T 0 s.(mem) va ->
  ensures (map_page va pa flags (Z.of_nat d) s) (fun _ s' => wf P HW T s' /\ mapping P HW T d va pa f s.(mem) s'.(mem)).

(** The first [i] bytes of the range are mapped. *)
Definition range_mapped (virt phys f i : Z) (m m' : gmap Z Z) : Prop :=
  (forall o, 0 <= o < i -> translate P HW T m' (virt + o) = Some (phys + o, f)) /\
  (forall va, (forall o, 0 <= o < i -> prefix T 0 (virt + o) <> prefix T 0 va) -> translate P HW T m' va = translate P HW T m va).

Lemma range_step d virt phys f i m m1 m2 : (d <= 2)%nat -> range_mapped virt phys f i m m1 ->
  maps_to P HW T d (virt + i) (phys + i) f m1 m2 -> 0 <= i -> i + psize d <= span T -> (virt + i) `mod` psize d = 0 ->
  range_mapped virt phys f (i + psize d) m m2.
Proof.
  intros Hd [Hin Hout] Hm Hi Hsp Hv. pose proof (psize_pos d). split.
  - intros o Ho. rewrite (Hm (virt + o)). destruct (decide (o < i)).
    + rewrite decide_False by (apply prefix_earlier; (done || lia)). apply Hin. lia.
    + rewrite decide_True.
      * do 2 f_equal. pose proof (Z.div_mod (virt + i) (psize d) ltac:(lia)).
        assert ((virt + o) `mod` psize d = o - i) as ->; [|lia].
        symmetry. apply (Z.mod_unique_pos _ _ ((virt + i) / psize d)); lia.
      * replace (virt + o) with (virt + i + (o - i)) by lia. apply prefix_same_block; (done || lia).
  - intros va Hva. rewrite (Hm va), decide_False.
    + apply Hout. intros o Ho. apply Hva. lia.
    + intros Hp. destruct (prefix_covered T HT d _ va ltac:(lia) Hv Hp) as (o & Ho & Hpo).
      apply (Hva (i + o)); [lia|]. by rewrite Z.add_assoc.
Qed.

Lemma fits_spec k virt phys count i : 0 <= virt + i < W64 -> 0 <= phys + i < W64 ->
  (Z.land (u64 (phys + i)) (psize k - 1) =? 0) && (Z.land (u64 (virt + i)) (psize k - 1) =? 0) && (psize k <=? count - i) = true <->
  (phys + i) `mod` psize k = 0 /\ (virt + i) `mod` psize k = 0 /\ psize k <= count - i.
Proof. intros Hv Hp. rewrite !u64_small, !land_psize by lia. rewrite !andb_true_iff, !Z.eqb_eq, Z.leb_le. tauto. Qed.

Lemma map_pages_loop_spec map_page virt phys flags f count m : map_page_ok map_page flags f ->
  HW.(flag_ok) f -> 0 <= virt -> virt + count <= W64 -> 0 <= phys -> phys + count <= 2 ^ 48 -> count <= span T ->
  virt `mod` 4096 = 0 -> phys `mod` 4096 = 0 -> count `mod` 4096 = 0 ->
  forall fuel i s, wf P HW T s -> range_mapped virt phys f i m s.(mem) ->
  (forall o, i <= o < count -> divisible P HW T s.(mem) (virt + o)) -> 0 <= i <= count -> i `mod` 4096 = 0 ->
  count - i <= Z.of_nat fuel * 4096 ->
  ensures (map_pages_loop fuel map_page virt phys flags count i s)
    (fun _ s' => wf P HW T s' /\ range_mapped virt phys f count m s'.(mem)).
Proof.
  intros Hmp Hf Hv Hvc Hp Hpc Hsp Hva Hpa Hca. assert (psize 0 = 4096) as Hs0 by done.
  induction fuel as [|fuel IH]; intros i s Hwf Hrm Hdv Hi Hia Hfuel; cbn [map_pages_loop]; split_ltb i count; try lia.
  1,3: assert (i = count) as -> by lia; cbn; done.
  pose proof (Z.div_mod virt 4096 ltac:(lia)). pose proof (Z.div_mod phys 4096 ltac:(lia)).
  pose proof (Z.div_mod i 4096 ltac:(lia)). pose proof (Z.div_mod count 4096 ltac:(lia)).
  assert (forall d sz, (d <= 2)%nat -> sz = psize d -> (phys + i) `mod` psize d = 0 -> (virt + i) `mod` psize d = 0 -> psize d <= count - i ->
    ensures ((_ ← map_page (u64 (virt + i)) (u64 (phys + i)) flags (Z.of_nat d);
              map_pages_loop fuel map_page virt phys flags count (i + sz)) s)
      (fun _ s' => wf P HW T s' /\ range_mapped virt phys f count m s'.(mem))) as Hstep.
  { intros d sz Hd -> Hpd Hvd Hle. pose proof (psize_pos d). rewrite !u64_small by lia. eapply ensures_bind.
    { apply Hmp; [done| |done|lia|done|by apply divisible_splittable, Hdv; lia]. split; [lia|split_and!; [lia|done|lia]|done]. }
    intros [] s1 [Hwf1 Hm]. destruct (psize_le 0 d ltac:(lia)) as (n & Hn & Hsz). rewrite Hs0 in Hsz.
    apply IH; [done|eapply range_step; [done|done|apply Hm|lia|lia|done]| |lia| |lia].
    { intros o Ho. eapply divisible_kept; [done|apply prefix_later; (done || lia)|apply Hdv; lia]. }
    rewrite Hsz. replace (i + 4096 * n) with (i + n * 4096) by lia. by rewrite Z_mod_plus_full. }
  change 1073741824 with (psize 2). change 2097152 with (psize 1).
  match goal with |- context [if ?b then _ else _] => destruct b eqn:E2 end.
  { apply fits_spec in E2 as (? & ? & ?); [|lia..]. by apply (Hstep 2%nat). }
  match goal with |- context [if ?b then _ else _] => destruct b eqn:E1 end.
  { apply fits_spec in E1 as (? & ? & ?); [|lia..]. by apply (Hstep 1%nat); [lia|..]. }
  apply (Hstep 0%nat); [lia|done|..]; rewrite Hs0; [| |lia].
  - rewrite Zplus_mod, Hpa, Hia. done.
  - rewrite Zplus_mod, Hva, Hia. done.
Qed.

Lemma map_pages_spec map_page virt phys flags f count s : map_page_ok map_page flags f ->
  HW.(flag_ok) f -> 0 <= virt -> virt + count <= W64 -> 0 <= phys -> phys + count <= 2 ^ 48 ->
  0 <= count <= span T -> virt `mod` 4096 = 0 -> phys `mod` 4096 = 0 -> count `mod` 4096 = 0 -> wf P HW T s ->
  (forall o, 0 <= o < count -> divisible P HW T s.(mem) (virt + o)) ->
  ensures (map_pages map_page virt phys flags count s)
    (fun _ s' => wf P HW T s' /\ range_mapped virt phys f count s.(mem) s'.(mem)).
Proof.
  intros Hmp Hf Hv Hvc Hp Hpc Hsp Hva Hpa Hca Hwf Hdv. unfold map_pages. rewrite Hva, Hpa, Hca. cbn [Z.eqb negb orb].
  pose proof (Z.div_mod count 4096 ltac:(lia)).
  apply map_pages_loop_spec; try done; try lia. split; [lia|done].
Qed.
End ranges.

(** * Page table entries of the four architectures

    What a processor makes of an entry, and that the macros of the loader agree
    with it: the laws of [VmmSpec.paging_ok]. *)

(** ** Bits of aligned addresses *)

Lemma block_land k pa : (k <= 4)%nat -> block k pa -> Z.land pa (2 ^ 48 - psize k) = pa.
Proof.
  intros Hk (H0 & Hm & Hb). pose proof (psize_pos k).
  replace (2 ^ 48 - psize k) with (Z.ldiff (Z.ones 48) (Z.ones (12 + 9 * Z.of_nat k))).
  2:{ do 5 (destruct k as [|k]; [done|]). lia. }
  rewrite Z.ldiff_land, Z.land_assoc, Z.land_ones, Z.mod_small by lia.
  rewrite <- Z.ldiff_land, Z.ldiff_ones_r by lia. rewrite Z.shiftl_mul_pow2, Z.shiftr_div_pow2 by lia. fold (psize k).
  pose proof (Z.div_mod pa (psize k) ltac:(lia)). lia.
Qed.

Lemma land_block_0 k pa m : (k <= 4)%nat -> block k pa -> Z.land (2 ^ 48 - psize k) m = 0 -> Z.land pa m = 0.
Proof. intros Hk Hb Hm. rewrite <- (block_land k pa Hk Hb), <- Z.land_assoc, Hm. apply Z.land_0_r. Qed.

Lemma land_block_all k pa m : (k <= 4)%nat -> block k pa -> Z.land (2 ^ 48 - psize k) m = 2 ^ 48 - psize k -> Z.land pa m = pa.
Proof. intros Hk Hb Hm. rewrite <- (block_land k pa Hk Hb) at 1. rewrite <- Z.land_assoc, Hm. by apply block_land. Qed.

(** An aligned address with low bits. *)
Lemma frame_lor k pa c : block k pa -> 0 <= c < psize k -> Z.lor pa c - Z.lor pa c `mod` psize k = pa.
Proof.
  intros (H0 & Hm & _) Hc. pose proof (psize_pos k).
  assert (Z.land pa c = 0) as Hl.
  { apply Z.bits_inj'. intros i Hi. rewrite Z.land_spec, Z.bits_0.
    destruct (decide (i < 12 + 9 * Z.of_nat k)) as [Hlt|].
    - assert (Z.testbit pa i = false) as ->; [|done].
      pose proof (Z.div_mod pa (psize k) ltac:(lia)) as Hd. rewrite Hm, Z.add_0_r in Hd. rewrite Hd. unfold psize.
      rewrite Z.mul_comm. by apply Z.mul_pow2_bits_low.
    - rewrite andb_comm. replace (Z.testbit c i) with false; [done|]. symmetry. destruct (decide (c = 0)) as [->|]; [apply Z.bits_0|].
      apply Z.bits_above_log2; [lia|]. apply Z.log2_lt_pow2; [lia|]. eapply Z.lt_le_trans; [apply Hc|]. unfold psize.
      apply Z.pow_le_mono_r; lia. }
  pose proof (Z.add_lor_land pa c) as Hadd. rewrite Hl in Hadd. replace (Z.lor pa c) with (pa + c) by lia.
  pose proof (Z.div_mod pa (psize k) ltac:(lia)). assert ((pa + c) `mod` psize k = c) as ->; [|lia].
  symmetry. apply (Z.mod_unique_pos _ _ (pa / psize k)); lia.
Qed.

Lemma frame_block k pa : block k pa -> pa - pa `mod` psize k = pa.
Proof. intros (_ & -> & _). lia. Qed.

Lemma page_block q : page_ok q -> block 0 q.
Proof. intros [Hm [H0 H1]]. split_and!; [lia|done|]. change (psize 0) with 4096. pose proof (Z.div_mod q 4096 ltac:(lia)). lia. Qed.

(** Evaluates the flag words of an entry [pa | c] of level [k]. *)
Ltac entry_bits k Hb :=
  repeat rewrite Z.land_lor_distr_l;
  repeat match goal with
  | |- context [Z.land ?pa ?m] =>
      lazymatch type of Hb with block _ pa => idtac end;
      first [rewrite (land_block_0 k pa m ltac:(lia) Hb ltac:(vm_compute; reflexivity))
            |rewrite (land_block_all k pa m ltac:(lia) Hb ltac:(vm_compute; reflexivity))]
  end.

(** ** x86 *)

(** The flags are any of write, no-execute and framebuffer; without a page
    attribute table there is no framebuffer type. *)
Definition x86_word (write noexec fb : bool) : Z :=
  Z.lor (Z.lor (if write then x86_FLAG_WRITE else 0) (if noexec then x86_FLAG_NOEXEC else 0)) (if fb then x86_FLAG_FB else 0).

(** The page attribute bit of a 4 KiB page is bit 7, that of a large one bit 12. *)
Definition x86_pat_move (flags : Z) : Z :=
  if has flags (2 ^ 12) then Z.lor (Z.land flags (u64 (Z.lnot (2 ^ 12)))) (2 ^ 7) else flags.

Definition x86_leaf (k : nat) (pa f : Z) : Z :=
  match k with
  | O => Z.lor pa (x86_pat_move (Z.lor f 1))
  | S _ => Z.lor (Z.lor pa (Z.lor f 1)) 128
  end.

Definition x86_hw_flags (k : nat) (e : Z) : Z :=
  match k with
  | O => Z.lor (Z.land e (Z.lor (Z.lor 2 8) (2 ^ 63))) (if has e 128 then 2 ^ 12 else 0)
  | S _ => Z.land e (Z.lor (Z.lor 2 (2 ^ 63)) x86_FLAG_FB)
  end.

Definition x86_hardware (cpu : x86_cpu) : hardware := {|
  present := fun e => Z.land e 1 =? 1;
  hw_addr := fun e => Z.land e 281474976706560;
  hw_flags := x86_hw_flags;
  leaf := x86_leaf;
  max_leaf := 2;
  flag_ok := fun f => exists w n b, f = x86_word w n b /\ (b = true -> cpu.(pat_supported) = true);
  splits := fun _ _ f => exists w n, f = x86_word w n false
|}.

Lemma x86_table_laws : table_laws x86_paging (fun e => Z.land e 1 =? 1).
Proof.
  split; [done..| |].
  - intros k q Hk Hq%page_block. cbn. entry_bits 0%nat Hq. done.
  - intros q Hq%page_block. cbn. entry_bits 0%nat Hq. apply Z.lor_0_r.
Qed.

(** Levels 1 and 2. *)
Lemma x86_large k pa w n b : (0 < k <= 2)%nat -> block k pa ->
  Z.land (x86_leaf k pa (x86_word w n b)) (Z.lor 1 128) = 129 /\
  Z.land (x86_leaf k pa (x86_word w n b)) (Z.lor (Z.lor 2 (2 ^ 63)) x86_FLAG_FB) = x86_word w n b /\
  Z.land (x86_leaf k pa (x86_word w n b)) 281474976706560 = Z.lor pa (if b then 4096 else 0).
Proof.
  intros Hk Hb. destruct k as [|[|[|k]]]; [lia| | |lia]; cbn [x86_leaf].
  - entry_bits 1%nat Hb. destruct w, n, b; (split_and!; [done|done|rewrite <- Z.lor_assoc; by f_equal]).
  - entry_bits 2%nat Hb. destruct w, n, b; (split_and!; [done|done|rewrite <- Z.lor_assoc; by f_equal]).
Qed.

Lemma x86_small pa w n b : block 0 pa ->
  Z.land (x86_leaf 0 pa (x86_word w n b)) 1 = 1 /\ x86_hw_flags 0 (x86_leaf 0 pa (x86_word w n b)) = x86_word w n b /\
  Z.land (x86_leaf 0 pa (x86_word w n b)) 281474976706560 = pa.
Proof.
  intros Hb. cbn [x86_leaf x86_hw_flags]. unfold has. entry_bits 0%nat Hb. destruct w, n, b; (split_and!; [done|done|apply Z.lor_0_r]).
Qed.

Lemma x86_paging_ok cpu : paging_ok x86_paging (x86_hardware cpu).
Proof.
  split.
  - apply x86_table_laws.
  - done.
  - intros k pa f Hk Hb (w & n & b & -> & _). destruct (x86_large k pa w n b Hk Hb) as (H1 & _ & _).
    cbn [PT_IS_TABLE PT_IS_LARGE x86_paging leaf x86_hardware]. by rewrite H1.
  - intros pa f Hb (w & n & b & -> & _). destruct (x86_small pa w n b Hb) as (H1 & _ & _). by apply Z.eqb_eq.
  - intros k pa f Hk Hb (w & n & b & -> & _). unfold frame. cbn [hw_addr hw_flags leaf x86_hardware]. destruct k as [|k].
    + destruct (x86_small pa w n b Hb) as (_ & -> & ->). split; [by apply frame_block|done].
    + destruct (x86_large (S k) pa w n b) as (_ & H2 & ->); [cbn in Hk; lia|done|]. split; [|done].
      apply frame_lor; [done|]. pose proof (psize_pos k). rewrite psize_S. change (psize 0) with 4096 in *.
      destruct (psize_le 0 k ltac:(lia)) as (m & Hm & ->). change (psize 0) with 4096. destruct b; lia.
  - intros k pa f Hk Hb _ (w & n & ->). destruct (x86_large k pa w n false Hk Hb) as (_ & H2 & H3). cbn [pte_addr PT_TO_VMM_FLAGS x86_paging leaf x86_hardware].
    rewrite H2, H3. split; [apply Z.lor_0_r|done].
Qed.

(** ** aarch64 *)

Definition vmm_word (write noexec fb : bool) : Z :=
  Z.lor (Z.lor (if write then FLAG_WRITE else 0) (if noexec then FLAG_NOEXEC else 0)) (if fb then FLAG_FB else 0).

Lemma block_0 k pa : block k pa -> block 0 pa.
Proof.
  intros (H0 & Hm & Hb). destruct (psize_le 0 k ltac:(lia)) as (n & Hn & Hsz). pose proof (psize_pos 0).
  split_and!; [done| |nia]. rewrite Hsz in Hm. pose proof (Z.div_mod pa (psize 0 * n) ltac:(nia)) as Hd.
  replace pa with (0 + n * (pa / (psize 0 * n)) * psize 0) by nia. rewrite Z_mod_plus_full. apply Z.mod_small. lia.
Qed.

Lemma has_block k pa c bit : (k <= 4)%nat -> block k pa -> Z.land (2 ^ 48 - psize k) bit = 0 -> has (Z.lor pa c) bit = has c bit.
Proof. intros Hk Hb Hm. unfold has. rewrite Z.land_lor_distr_l, (land_block_0 k pa bit Hk Hb Hm). done. Qed.

Definition aarch64_leaf (k : nat) (pa f : Z) : Z :=
  match k with
  | O => Z.lor (Z.lor pa (aarch64_real_flags f)) 2
  | S _ => Z.lor pa (aarch64_real_flags f)
  end.

Definition aarch64_hardware : hardware := {|
  present := fun e => Z.land e 3 =? 3;
  hw_addr := fun e => Z.land e 281474976706560;
  hw_flags := fun _ => aarch64_vmm_flags;
  leaf := aarch64_leaf;
  max_leaf := 2;
  flag_ok := fun f => exists w n b, f = vmm_word w n b;
  splits := fun _ _ _ => True
|}.

Lemma aarch64_decode pa c : block 0 pa ->
  aarch64_vmm_flags (Z.lor pa c) = aarch64_vmm_flags c /\ Z.land (Z.lor pa c) 3 = Z.land c 3 /\
  Z.land (Z.lor pa c) 281474976706560 = Z.lor pa (Z.land c 281474976706560).
Proof.
  intros Hb. unfold aarch64_vmm_flags.
  rewrite (has_block 0 pa c (2 ^ 7)), (has_block 0 pa c (2 ^ 54)), (has_block 0 pa c (2 ^ 2)) by (done || lia).
  entry_bits 0%nat Hb. done.
Qed.

Lemma aarch64_paging_ok : paging_ok aarch64_paging aarch64_hardware.
Proof.
  split; [split|..].
  - done.
  - done.
  - done.
  - intros k q Hk Hq%page_block. cbn. entry_bits 0%nat Hq. done.
  - intros q Hq%page_block. cbn. entry_bits 0%nat Hq. apply Z.lor_0_r.
  - done.
  - intros k pa f Hk Hb%block_0 (w & n & b & ->). destruct k as [|k]; [lia|]. cbn [PT_IS_TABLE PT_IS_LARGE aarch64_paging leaf aarch64_hardware aarch64_leaf].
    destruct (aarch64_decode pa (aarch64_real_flags (vmm_word w n b)) Hb) as (_ & H3 & _). change (Z.lor 1 2) with 3. rewrite H3.
    by destruct w, n, b.
  - intros pa f Hb (w & n & b & ->). cbn [present leaf aarch64_hardware aarch64_leaf]. rewrite <- Z.lor_assoc.
    destruct (aarch64_decode pa (Z.lor (aarch64_real_flags (vmm_word w n b)) 2) Hb) as (_ & -> & _). by destruct w, n, b.
  - intros k pa f Hk Hb (w & n & b & ->). unfold frame. cbn [hw_addr hw_flags leaf aarch64_hardware].
    pose proof (aarch64_decode pa (aarch64_real_flags (vmm_word w n b)) (block_0 _ _ Hb)) as (H1 & _ & H2).
    pose proof (aarch64_decode pa (Z.lor (aarch64_real_flags (vmm_word w n b)) 2) (block_0 _ _ Hb)) as (H3 & _ & H4).
    destruct k as [|k]; cbn [aarch64_leaf].
    + rewrite <- Z.lor_assoc, H3, H4. destruct w, n, b; (split; [change (Z.land _ _) with 0; rewrite Z.lor_0_r; by apply frame_block|done]).
    + rewrite H1, H2. destruct w, n, b; (split; [change (Z.land _ _) with 0; rewrite Z.lor_0_r; by apply frame_block|done]).
  - intros k pa f Hk Hb (w & n & b & ->) _. destruct k as [|k]; [lia|]. cbn [pte_addr PT_TO_VMM_FLAGS aarch64_paging leaf aarch64_hardware aarch64_leaf].
    destruct (aarch64_decode pa (aarch64_real_flags (vmm_word w n b)) (block_0 _ _ Hb)) as (-> & _ & ->).
    destruct w, n, b; (split; [change (Z.land _ _) with 0; apply Z.lor_0_r|done]).
Qed.

(** ** RISC-V *)

Definition riscv_leaf (pbmt_nc : Z) (k : nat) (pa f : Z) : Z := riscv_paging.(pte_new) pa (riscv_ptflags pbmt_nc f).

(** [max] is the largest page size, the level of the top table. *)
Definition riscv_hardware (pbmt_nc : Z) (max : nat) : hardware := {|
  present := fun e => (Z.land e 1 =? 1) && (1 <? Z.land e 15);
  hw_addr := fun e => Z.shiftl (Z.land e 18014398509480960) 2;
  hw_flags := fun _ => riscv_vmm_flags;
  leaf := riscv_leaf pbmt_nc;
  max_leaf := max;
  flag_ok := fun f => exists w n b, f = vmm_word w n b /\ (b = true -> pbmt_nc = 2 ^ 62);
  splits := fun _ _ _ => True
|}.

Lemma shifted_land pa m : Z.land (Z.shiftr pa 2) m = Z.shiftr (Z.land pa (Z.shiftl m 2)) 2.
Proof. rewrite Z.shiftr_land. f_equal. by rewrite Z.shiftr_shiftl_l by lia. Qed.

Lemma shifted_land_0 pa m : block 0 pa -> Z.land (2 ^ 48 - psize 0) (Z.shiftl m 2) = 0 -> Z.land (Z.shiftr pa 2) m = 0.
Proof. intros Hb Hm. by rewrite shifted_land, (land_block_0 0 pa _ ltac:(lia) Hb Hm). Qed.

Lemma shifted_addr pa : block 0 pa -> Z.shiftl (Z.land (Z.shiftr pa 2) 18014398509480960) 2 = pa.
Proof.
  intros Hb. rewrite shifted_land, (land_block_all 0 pa _ ltac:(lia) Hb) by (vm_compute; reflexivity).
  rewrite Z.shiftl_mul_pow2, Z.shiftr_div_pow2 by lia. destruct Hb as (_ & Hm & _). change (psize 0) with 4096 in Hm.
  pose proof (Z.div_mod pa 4096 ltac:(lia)). change (2 ^ 2) with 4. pose proof (Z.div_mod pa 4 ltac:(lia)).
  assert (pa `mod` 4 = 0); [|lia]. replace pa with (0 + (pa / 4096 * 1024) * 4) by lia. by rewrite Z_mod_plus_full.
Qed.

Lemma riscv_decode pa c : block 0 pa ->
  riscv_vmm_flags (Z.lor (Z.shiftr pa 2) c) = riscv_vmm_flags c /\ Z.land (Z.lor (Z.shiftr pa 2) c) 15 = Z.land c 15 /\
  Z.land (Z.lor (Z.shiftr pa 2) c) 1 = Z.land c 1 /\
  (Z.land c 18014398509480960 = 0 -> Z.shiftl (Z.land (Z.lor (Z.shiftr pa 2) c) 18014398509480960) 2 = pa).
Proof.
  intros Hb. unfold riscv_vmm_flags, has. rewrite !Z.land_lor_distr_l.
  rewrite (shifted_land_0 pa (2 ^ 2)), (shifted_land_0 pa (2 ^ 3)), (shifted_land_0 pa (2 ^ 62)),
    (shifted_land_0 pa 15), (shifted_land_0 pa 1) by (done || (vm_compute; reflexivity)).
  split_and!; [done..|]. intros ->. by rewrite Z.lor_0_r, shifted_addr.
Qed.

Lemma riscv_word pbmt_nc w n b : (b = true -> pbmt_nc = 2 ^ 62) ->
  let c := riscv_ptflags pbmt_nc (vmm_word w n b) in
  riscv_vmm_flags c = vmm_word w n b /\ 1 < Z.land c 15 /\ Z.land c 1 = 1 /\ Z.land c 18014398509480960 = 0.
Proof. intros Hb. destruct b; [rewrite Hb by done|]; by destruct w, n. Qed.

Lemma riscv_addr_range pa : block 0 pa -> u64 pa = pa.
Proof. intros (? & _ & ?). pose proof (psize_pos 0). apply u64_small. lia. Qed.

Lemma riscv_paging_ok pbmt_nc max : (max <= 4)%nat -> paging_ok riscv_paging (riscv_hardware pbmt_nc max).
Proof.
  intros Hmax. split; [split|..].
  - done.
  - done.
  - done.
  - intros k q Hk Hq%page_block. cbn [PT_IS_TABLE pte_new PT_TABLE_FLAGS riscv_paging]. change (Z.lor 1 riscv_RWX) with 15.
    by destruct (riscv_decode q 1 Hq) as (_ & -> & _ & _).
  - intros q Hq%page_block. cbn [pte_addr pte_new PT_TABLE_FLAGS riscv_paging]. destruct (riscv_decode q 1 Hq) as (_ & _ & _ & ->); [|done].
    by apply riscv_addr_range.
  - cbn. lia.
  - intros k pa f Hk Hb%block_0 (w & n & b & -> & Hbt). cbn [PT_IS_TABLE PT_IS_LARGE riscv_paging leaf riscv_hardware]. change (Z.lor 1 riscv_RWX) with 15.
    unfold riscv_leaf. cbn [pte_new riscv_paging].
    destruct (riscv_decode pa (riscv_ptflags pbmt_nc (vmm_word w n b)) Hb) as (_ & -> & _ & _).
    destruct (riscv_word pbmt_nc w n b Hbt) as (_ & H15 & _ & _). split; [apply Z.eqb_neq; lia|by apply Z.ltb_lt].
  - intros pa f Hb (w & n & b & -> & Hbt). cbn [present leaf riscv_hardware]. unfold riscv_leaf. cbn [pte_new riscv_paging].
    destruct (riscv_decode pa (riscv_ptflags pbmt_nc (vmm_word w n b)) Hb) as (_ & -> & -> & _).
    destruct (riscv_word pbmt_nc w n b Hbt) as (_ & H15 & -> & _). apply andb_true_iff. split; [done|by apply Z.ltb_lt].
  - intros k pa f Hk Hb (w & n & b & -> & Hbt). unfold frame. cbn [hw_addr hw_flags leaf riscv_hardware]. unfold riscv_leaf. cbn [pte_new riscv_paging].
    destruct (riscv_decode pa (riscv_ptflags pbmt_nc (vmm_word w n b)) (block_0 _ _ Hb)) as (-> & _ & _ & Ha).
    destruct (riscv_word pbmt_nc w n b Hbt) as (-> & _ & _ & H0). rewrite Ha by done. split; [by apply frame_block|done].
  - intros k pa f Hk Hb (w & n & b & -> & Hbt) _. cbn [pte_addr PT_TO_VMM_FLAGS riscv_paging leaf riscv_hardware]. unfold riscv_leaf. cbn [pte_new riscv_paging].
    destruct (riscv_decode pa (riscv_ptflags pbmt_nc (vmm_word w n b)) (block_0 _ _ Hb)) as (-> & _ & _ & Ha).
    destruct (riscv_word pbmt_nc w n b Hbt) as (-> & _ & _ & H0). rewrite Ha by done. split; [|done].
    by eapply riscv_addr_range, block_0.
Qed.

(** ** LoongArch *)

Definition loongarch_leaf (k : nat) (pa f : Z) : Z :=
  match k with
  | O => Z.lor pa (loongarch_real_flags f)
  | S _ => Z.lor pa (Z.lor (Z.lor (loongarch_real_flags f) (2 ^ 12)) (2 ^ 6))
  end.

(** A large page can be split if it starts a block of 16 MiB, as a page of 1 GiB
    does; see [VmmThms.loongarch_split_wrong] for the others. *)
Definition loongarch_hardware : hardware := {|
  present := fun e => Z.land e 1 =? 1;
  hw_addr := fun e => Z.land e 281474976706560;
  hw_flags := fun _ => loongarch_vmm_flags;
  leaf := loongarch_leaf;
  max_leaf := 2;
  flag_ok := fun f => exists w n b, f = vmm_word w n b;
  splits := fun _ pa _ => pa `mod` 2 ^ 24 = 0
|}.

Lemma loongarch_decode pa c : block 0 pa ->
  loongarch_vmm_flags (Z.lor pa c) = loongarch_vmm_flags c /\ Z.land (Z.lor pa c) 1 = Z.land c 1 /\
  Z.land (Z.lor pa c) 281474976706560 = Z.lor pa (Z.land c 281474976706560).
Proof.
  intros Hb. unfold loongarch_vmm_flags.
  rewrite (has_block 0 pa c (2 ^ 8)), (has_block 0 pa c (2 ^ 62)), (has_block 0 pa c (2 ^ 5)) by (done || lia).
  entry_bits 0%nat Hb. done.
Qed.

Lemma loongarch_large k pa c : (0 < k <= 2)%nat -> block k pa -> Z.land (Z.lor pa c) (Z.lor (2 ^ 12) (2 ^ 6)) = Z.land c (Z.lor (2 ^ 12) (2 ^ 6)).
Proof.
  intros Hk Hb. destruct k as [|[|[|k]]]; [lia| | |lia].
  - entry_bits 1%nat Hb. done.
  - entry_bits 2%nat Hb. done.
Qed.

(** The address the loader reads from a large page starts at bit 24. *)
Lemma loongarch_large_addr k pa w n b : (0 < k <= 2)%nat -> block k pa ->
  loongarch_paging.(pte_addr) (loongarch_leaf k pa (vmm_word w n b)) = pa - pa `mod` 2 ^ 24 /\
  loongarch_paging.(PT_TO_VMM_FLAGS) (loongarch_leaf k pa (vmm_word w n b)) = vmm_word w n b.
Proof.
  intros Hk Hb. destruct k as [|k]; [lia|]. cbn [pte_addr PT_TO_VMM_FLAGS loongarch_paging loongarch_leaf].
  set (c := Z.lor (Z.lor (loongarch_real_flags (vmm_word w n b)) (2 ^ 12)) (2 ^ 6)).
  destruct (loongarch_decode pa c (block_0 _ _ Hb)) as (-> & _ & _). unfold loongarch_IS_LARGE.
  rewrite (loongarch_large (S k) pa c Hk Hb), Z.land_lor_distr_l.
  assert (Z.land pa 281474959933440 = pa - pa `mod` 2 ^ 24) as ->.
  { rewrite <- land_round_down by (destruct Hb as (? & _ & ?); pose proof (psize_pos (S k)); lia).
    rewrite <- (block_land 0 pa ltac:(lia) (block_0 _ _ Hb)), <- !Z.land_assoc. done. }
  unfold c. destruct w, n, b; (split; [apply Z.lor_0_r|done]).
Qed.

Lemma loongarch_table q : page_ok q -> loongarch_IS_LARGE q = false /\ Z.land q 1 = 0.
Proof.
  intros Hq%page_block. split; [|by apply (land_block_0 0); [lia|..]]. apply Z.eqb_neq. intros He.
  assert (Z.land (Z.land q (Z.lor (2 ^ 12) (2 ^ 6))) 64 = 0) as H0.
  { rewrite <- Z.land_assoc. by apply (land_block_0 0); [lia|..]. }
  by rewrite He in H0.
Qed.

Lemma loongarch_paging_ok : paging_ok loongarch_paging loongarch_hardware.
Proof.
  split; [split|..].
  - intros k. cbn. by rewrite andb_false_r.
  - done.
  - done.
  - intros k q Hk Hq. destruct (loongarch_table q Hq) as [_ H1]. cbn [PT_IS_TABLE pte_new PT_TABLE_FLAGS loongarch_paging].
    rewrite Z.lor_0_r, H1. destruct Hq as [_ Hq]. split_ltb 0 k; [|lia]. by split_eqb q 0; [lia|].
  - intros q Hq. cbn [pte_addr pte_new PT_TABLE_FLAGS loongarch_paging]. rewrite Z.lor_0_r.
    destruct (loongarch_table q Hq) as [-> _]. apply (land_block_all 0); [lia|by apply page_block|done].
  - done.
  - intros k pa f Hk Hb (w & n & b & ->). destruct k as [|k]; [lia|]. cbn [PT_IS_TABLE PT_IS_LARGE loongarch_paging leaf loongarch_hardware loongarch_leaf].
    unfold loongarch_IS_LARGE. rewrite (loongarch_large (S k)) by done.
    destruct (loongarch_decode pa (Z.lor (Z.lor (loongarch_real_flags (vmm_word w n b)) (2 ^ 12)) (2 ^ 6)) (block_0 _ _ Hb)) as (_ & -> & _).
    destruct w, n, b; (split; [|done]); apply andb_false_iff; left; by rewrite andb_false_r.
  - intros pa f Hb (w & n & b & ->). cbn [present leaf loongarch_hardware loongarch_leaf].
    destruct (loongarch_decode pa (loongarch_real_flags (vmm_word w n b)) Hb) as (_ & -> & _). by destruct w, n, b.
  - intros k pa f Hk Hb (w & n & b & ->). unfold frame. cbn [hw_addr hw_flags leaf loongarch_hardware]. destruct k as [|k]; cbn [loongarch_leaf].
    + destruct (loongarch_decode pa (loongarch_real_flags (vmm_word w n b)) Hb) as (-> & _ & ->).
      destruct w, n, b; (split; [change (Z.land _ _) with 0; rewrite Z.lor_0_r; by apply frame_block|done]).
    + destruct (loongarch_decode pa (Z.lor (Z.lor (loongarch_real_flags (vmm_word w n b)) (2 ^ 12)) (2 ^ 6)) (block_0 _ _ Hb)) as (-> & _ & ->).
      assert (0 <= 4096 < psize (S k)).
      { rewrite psize_S. destruct (psize_le 0 k ltac:(lia)) as (m & Hm & ->). change (psize 0) with 4096. lia. }
      destruct w, n, b; (split; [change (Z.land _ _) with 4096; by apply frame_lor|done]).
  - intros k pa f Hk Hb (w & n & b & ->) Hs. cbn [splits loongarch_hardware] in Hs.
    destruct (loongarch_large_addr k pa w n b Hk Hb) as [Ha Hf]. rewrite Hs, Z.sub_0_r in Ha. done.
Qed.
