(* ===== verification/VmmThms.v ===== *)
(** * The virtual memory manager

    [map_page] of each architecture is the descent of [VmmSpec], so it maps what it
    is asked to map and nothing else; [map_pages] covers a range; and two
    architectures cannot split some of the large pages they map. *)

From S2P Require Import Prelude Bytes Vmm VmmWalk VmmSpec VmmArch.

Lemma va_field_spec va n s : 0 <= n -> 0 <= s -> va_field va (2 ^ n - 1) s = (va / 2 ^ s) `mod` 2 ^ n.
Proof.
  intros Hn Hs. unfold va_field. rewrite Z.shiftr_land, Z.shiftr_shiftl_l by lia. rewrite Z.sub_diag, Z.shiftl_0_r.
  replace (2 ^ n - 1) with (Z.ones n) by (rewrite Z.ones_equiv; lia). by rewrite Z.land_ones, Z.shiftr_div_pow2 by lia.
Qed.

(** ** Layouts *)

Definition x86_layout (pm : x86_pagemap) : layout := {|
  top := if pm.(x86_levels) =? 5 then 4 else 3;
  index_bits := fun _ => 9;
  half := fun _ => false;
  root := fun _ => pm.(x86_top_level)
|}.

Definition upper_half (va : Z) : bool := has va (2 ^ 63).

Definition aarch64_layout (pm : aarch64_pagemap) : layout := {|
  top := if pm.(aarch64_levels) =? 5 then 4 else 3;
  index_bits := fun k => if decide (k = 4%nat) then 4 else 9;
  half := upper_half;
  root := fun h => if h : bool then pm.(aarch64_top_level).2 else pm.(aarch64_top_level).1
|}.

Definition riscv_layout (pm : riscv_pagemap) : layout := {|
  top := Z.to_nat pm.(max_page_size);
  index_bits := fun _ => 9;
  half := fun _ => false;
  root := fun _ => pm.(riscv_top_level)
|}.

Definition loongarch_layout (pm : loongarch_pagemap) : layout := {|
  top := 3;
  index_bits := fun _ => 9;
  half := upper_half;
  root := fun h => if h : bool then pm.(pgd).2 else pm.(pgd).1
|}.

Lemma x86_layout_ok pm : layout_ok (x86_layout pm).
Proof. split; cbn; [lia|done|case_match; lia|done]. Qed.

Lemma riscv_layout_ok pm : pm.(max_page_size) <= 4 -> layout_ok (riscv_layout pm).
Proof. intros H. split; cbn; [lia|done|lia|done]. Qed.

Lemma upper_half_div k a b : (k <= 4)%nat -> a / psize k = b / psize k -> upper_half a = upper_half b.
Proof.
  intros Hk H. unfold upper_half, has.
  assert (forall x, (Z.land x (2 ^ 63) =? 0) = negb (Z.odd (x / 2 ^ 63))) as Hx.
  { intros x. rewrite <- Z.bit0_odd, <- Z.shiftr_div_pow2, Z.shiftr_spec by lia. change (0 + 63) with 63.
    destruct (Z.testbit x 63) eqn:E; cbn [negb].
    - apply Z.eqb_neq. intros Hz. assert (Z.testbit (Z.land x (2 ^ 63)) 63 = false) as H' by (by rewrite Hz, Z.bits_0).
      by rewrite Z.land_spec, E, Z.pow2_bits_true in H' by lia.
    - apply Z.eqb_eq. apply Z.bits_inj'. intros i Hi. rewrite Z.land_spec, Z.bits_0, Z.pow2_bits_eqb by lia.
      split_eqb 63 i; [by subst; rewrite E|apply andb_false_r]. }
  rewrite !Hx. do 3 f_equal. destruct (psize_le k 4 Hk) as (n & Hn & H4). change (psize 4) with (2 ^ 48) in H4.
  change (2 ^ 63) with (2 ^ 48 * 2 ^ 15). rewrite H4. pose proof (psize_pos k).
  rewrite <- !Z.div_div by lia. by rewrite H.
Qed.

Lemma aarch64_layout_ok pm : layout_ok (aarch64_layout pm).
Proof.
  split; cbn.
  - intros k. case_decide; lia.
  - intros k Hk. rewrite decide_False; [done|]. destruct (_ =? 5); lia.
  - case_match; lia.
  - intros a b. apply upper_half_div. case_match; lia.
Qed.

Lemma loongarch_layout_ok pm : layout_ok (loongarch_layout pm).
Proof. split; cbn; [lia|done|lia|]. intros a b. apply upper_half_div. lia. Qed.

Section theorems.
Context {A : Type} {PA : PageAllocator A} {PAS : PageAllocatorSpec A}.
Implicit Types s : vmm A.

(** What a call of [map_page] does. *)
Definition mapping_done (P : paging) (HW : hardware) (T : layout) (d : nat) (va pa f : Z) s (_ : ()) (s' : vmm A) : Prop :=
  wf P HW T s' /\ mapping P HW T d va pa f s.(mem) s'.(mem).

(** A [map_page] whose body is the descent maps what it is asked to map, with one
    level of recursion: the calls that fill a table do not split another page. *)
Section descents.
Context (P : paging) (HW : hardware) (T : layout) (HP : paging_ok P HW) (HT : layout_ok T).
Context (mp : nat -> Z -> Z -> Z -> Z -> M (A := A) ()) (d : nat) (Hd : (d <= T.(top))%nat) (rq : Z -> Z -> Prop).
Context (Hrefl : forall f, HW.(flag_ok) f -> rq f f).
Context (Hmp : forall fuel va pa flags f s, rq flags f -> 0 <= va < W64 -> mp (S fuel) va pa flags (Z.of_nat d) s =
  descend P T (mp fuel) T.(top) (T.(root) (T.(half) va)) va d (HW.(leaf) d pa f) s).

Lemma descent_callback fuel : callback_ok P HW T d (mp (S fuel)).
Proof.
  intros s va pa f Hva Hwf Hrq Hc. rewrite (Hmp fuel va pa f f) by (done || apply Hrefl, Hrq).
  eapply ensures_weaken; [apply (descend_clear P HW T HP HT); try done; constructor|]. intros [] s' (? & ? & ? & _). done.
Qed.

Lemma descent_ok fuel va pa flags f s : wf P HW T s -> request HW d pa f -> rq flags f -> 0 <= va < W64 -> splittable P HW T d s.(mem) va ->
  ensures (mp (S (S fuel)) va pa flags (Z.of_nat d) s) (mapping_done P HW T d va pa f s).
Proof.
  intros Hwf Hrq Hfl Hva Hsp. rewrite (Hmp (S fuel) va pa flags f) by done.
  eapply ensures_weaken; [apply (descend_spec P HW T HP HT); try done; [apply descent_callback|constructor]|].
  intros [] s' (? & _ & ? & _). done.
Qed.
End descents.

(** ** x86 *)

(** The flags an entry gets: the valid bit does not count, and the framebuffer type
    needs the page attribute table. *)
Definition x86_request (cpu : x86_cpu) (flags f : Z) : Prop :=
  exists w n b v, flags = Z.lor (x86_word w n b) (if v : bool then 1 else 0) /\ f = x86_word w n (b && cpu.(pat_supported)).

Lemma x86_request_ok cpu f : (x86_hardware cpu).(flag_ok) f -> x86_request cpu f f.
Proof.
  intros (w & n & b & -> & Hb). exists w, n, b, false. split; [by rewrite Z.lor_0_r|]. destruct b; [|done]. by rewrite Hb.
Qed.

Lemma x86_descend fuel cpu pm va pa flags f d s : pm.(x86_levels) = 4 \/ pm.(x86_levels) = 5 -> x86_request cpu flags f -> (d <= 2)%nat ->
  (d = 2%nat -> cpu.(is_1gib_page_supported) = true) ->
  x86_map_page (S fuel) cpu pm va pa flags (Z.of_nat d) s =
  descend x86_paging (x86_layout pm) (x86_map_page fuel cpu pm) (x86_layout pm).(top) pm.(x86_top_level) va d (x86_leaf d pa f) s.
Proof.
  intros Hlev (w & n & b & v & -> & ->) Hd Hgib. destruct pm as [levels table]. cbn [x86_levels] in Hlev. cbn [x86_map_page].
  set (cb := x86_map_page fuel cpu _).
  set (fl := if has _ x86_FLAG_FB && negb (pat_supported cpu) then _ else _).
  assert (fl = Z.lor (x86_word w n (b && pat_supported cpu)) 1) as Hfl.
  { unfold fl. destruct (pat_supported cpu); destruct w, n, b, v; reflexivity. }
  clearbody fl. subst fl.
  change 511 with (2 ^ 9 - 1). rewrite !va_field_spec by lia.
  destruct Hlev as [-> | ->]; (destruct d as [|[|[|d]]]; [| |rewrite Hgib by done|lia]; reflexivity).
Qed.

Section x86.
Context (cpu : x86_cpu) (pm : x86_pagemap) (Hlev : pm.(x86_levels) = 4 \/ pm.(x86_levels) = 5).
Let HW := x86_hardware cpu.
Let T := x86_layout pm.

Lemma x86_top_ok : (2 <= T.(top))%nat.
Proof. unfold T. cbn. case_match; lia. Qed.

Lemma x86_map_direct fuel d va pa flags f s : (d <= 2)%nat -> (d = 2%nat -> cpu.(is_1gib_page_supported) = true) ->
  wf x86_paging HW T s -> request HW d pa f -> x86_request cpu flags f -> 0 <= va < W64 ->
  splittable x86_paging HW T d s.(mem) va ->
  ensures (x86_map_page (S (S fuel)) cpu pm va pa flags (Z.of_nat d) s) (mapping_done x86_paging HW T d va pa f s).
Proof.
  intros Hd Hgib. pose proof x86_top_ok.
  apply (descent_ok x86_paging HW T (x86_paging_ok cpu) (x86_layout_ok pm) (fun fuel => x86_map_page fuel cpu pm) d ltac:(lia) (x86_request cpu));
    [apply x86_request_ok|].
  intros. by apply (x86_descend _ cpu pm).
Qed.

(** A 1 GiB page made of 2 MiB pages: no other page gets larger, and a larger page that
    is still in the way can be split. *)
Definition part_grain (va : Z) (m m' : gmap Z Z) : Prop :=
  (forall va' e' k', walk x86_paging HW.(present) T m' va' = Some (e', k') -> prefix T 2 va <> prefix T 2 va' ->
     exists e k, walk x86_paging HW.(present) T m va' = Some (e, k) /\ (k' <= k)%nat) /\
  (forall va', prefix T 2 va = prefix T 2 va' -> splittable x86_paging HW T 1 m' va').

Lemma part_grain_step va i pa f s s2 s3 : wf x86_paging HW T s2 -> prefix T 2 va = prefix T 2 (va + i) ->
  part_grain va s.(mem) s2.(mem) -> mapping x86_paging HW T 1 (va + i) (pa + i) f s2.(mem) s3.(mem) -> part_grain va s.(mem) s3.(mem).
Proof.
  intros Hwf Hpi [Hg Hsp] [Hm Hg3]. split.
  - intros va' e' k' Hw Hne. specialize (Hg3 va' e' k' Hw). rewrite decide_False in Hg3.
    + destruct Hg3 as (e & k & Hw2 & Hk). destruct (Hg va' e k Hw2 Hne) as (e0 & k0 & Hw0 & Hk0). exists e0, k0. split; [done|lia].
    + intros Hp. apply Hne. rewrite Hpi. pose proof x86_top_ok. by apply (prefix_split T 1 2) in Hp as [_ ?]; [|lia..].
  - intros va' Hp e' k' Hw Hk. specialize (Hg3 va' e' k' Hw). specialize (Hm va'). case_decide as Hd; [lia|].
    destruct Hg3 as (e & k & Hw2 & Hk2). pose proof (wf_clear x86_paging HW T _ va' Hwf e k Hw2) as Hmx. cbn in Hmx.
    assert (k = k') as -> by lia. destruct (same_page x86_paging HW T _ _ va' e e' k' Hm Hw2 Hw) as [-> ->]. by apply (Hsp va').
Qed.

Lemma x86_gib_loop fuel va pa flags f s : wf x86_paging HW T s -> request HW 2 pa f -> x86_request cpu flags f -> 0 <= va < W64 ->
  va `mod` psize 2 = 0 -> splittable x86_paging HW T 1 s.(mem) va ->
  ensures (for_loop 512 0 1073741824 2097152
      (fun i => x86_map_page (S (S fuel)) cpu pm (u64 (va + i)) (u64 (pa + i)) flags Size2MiB) s)
    (mapping_done x86_paging HW T 2 va pa f s).
Proof.
  intros Hwf Hrq Hfl Hva Hal Hsp. change 1073741824 with (psize 2). change 2097152 with (psize 1).
  pose proof (rq_block _ _ _ _ Hrq) as (Hp0 & _ & Hp48). change (psize 2) with 1073741824 in Hp48.
  assert (va + psize 2 <= W64) as Hve.
  { change (psize 2) with 1073741824 in *. pose proof (Z.div_mod va 1073741824 ltac:(lia)). lia. }
  eapply ensures_weaken.
  { apply (for_loop_inv (fun i s2 => wf x86_paging HW T s2 /\ part_mapped x86_paging HW T 2 va pa f i s.(mem) s2.(mem) /\
      part_grain va s.(mem) s2.(mem) /\ 0 <= i /\ i `mod` psize 1 = 0)); [done| | |done].
    - intros i s2 (Hwf2 & Hpm & [Hg Hsp2] & Hi & Him) Hlt. change (psize 2) with 1073741824 in Hlt, Hve.
      rewrite (u64_small (va + i)), (u64_small (pa + i)) by lia.
      assert (prefix T 2 va = prefix T 2 (va + i)) as Hpi by (apply prefix_same_block; (done || apply x86_layout_ok || apply x86_top_ok || lia)).
      eapply ensures_weaken; [apply (x86_map_direct fuel 1); [lia|done|done| |done|lia|by apply Hsp2]|].
      + apply (request_part HW 1 2); [lia|done|lia| |done]. change (psize 1) with 2097152 in *. change (psize 2) with 1073741824.
        pose proof (Z.div_mod i 2097152 ltac:(lia)). lia.
      + intros [] s3 [Hwf3 Hm3]. pose proof (psize_pos 1). split_and!; [done| | |lia|].
        * eapply part_mapped_step; [apply x86_layout_ok|lia|apply x86_top_ok|done|done|apply Hm3|done|done].
        * by apply (part_grain_step va i pa f s s2 s3).
        * replace (i + psize 1) with (i + 1 * psize 1) by lia. by rewrite Z_mod_plus_full.
    - split_and!; [done| |split|lia|done]; [|by eauto|intros va'; by apply splittable_block]. intros va'. case_decide; [|done]. pose proof (Z.mod_pos_bound va' (psize 2) ltac:(done)).
      split_ltb (va' `mod` psize 2) 0; [lia|done]. }
  intros [] s2 (i & Hi & Hwf2 & Hpm & [Hg _] & _). split; [done|]. split.
  2:{ intros va' e' k' Hw. case_decide; [|by apply (Hg va' e')]. by apply (wf_clear x86_paging HW T _ va' Hwf2 e'). }
  intros va'. rewrite (Hpm va'). case_decide; [|done].
  pose proof (Z.mod_pos_bound va' (psize 2) ltac:(done)). split_ltb (va' `mod` psize 2) i; [done|lia].
Qed.

Lemma x86_gib fuel va pa flags f s : cpu.(is_1gib_page_supported) = false ->
  wf x86_paging HW T s -> request HW 2 pa f -> x86_request cpu flags f -> 0 <= va < W64 -> va `mod` psize 2 = 0 ->
  splittable x86_paging HW T 1 s.(mem) va ->
  ensures (x86_map_page (S (S (S fuel))) cpu pm va pa flags Size1GiB s) (mapping_done x86_paging HW T 2 va pa f s).
Proof.
  intros Hgib Hwf Hrq Hfl Hva Hal Hsp. remember (S (S fuel)) as fuel2 eqn:Efuel. cbn [x86_map_page]. rewrite Hgib.
  set (cb := x86_map_page fuel2 cpu pm).
  set (fl := if has _ x86_FLAG_FB && negb (pat_supported cpu) then _ else _).
  assert (x86_request cpu fl f) as Hfl'.
  { destruct Hfl as (w & n & b & v & -> & ->). exists w, n, (b && pat_supported cpu), true. unfold fl.
    destruct (pat_supported cpu); destruct w, n, b, v; done. }
  clearbody fl. change 511 with (2 ^ 9 - 1). rewrite !va_field_spec by lia. cbn [Z.eqb Size1GiB].
  assert (forall s1 q, wf x86_paging HW T s1 -> (forall va', walk x86_paging HW.(present) T s1.(mem) va' = walk x86_paging HW.(present) T s.(mem) va') ->
    reach x86_paging T s1.(mem) 3 va q ->
    ensures ((pml3 ← get_next_level x86_paging cb q va Size1GiB 3 ((va / 2 ^ 39) `mod` 2 ^ 9);
      for_loop 512 0 1073741824 2097152 (fun i => cb (u64 (va + i)) (u64 (pa + i)) fl Size2MiB)) s1)
      (mapping_done x86_paging HW T 2 va pa f s)) as Hrest.
  { intros s1 q Hwf1 Hw1 Hq. eapply ensures_bind.
    { apply (next_clear x86_paging HW T (x86_paging_ok cpu) (x86_layout_ok pm) cb s1 2 va q 2 Hwf1 Hq); [|lia].
      by apply (wf_clear x86_paging HW T). }
    intros p s2 (Hwf2 & _ & _ & Hw2). subst fuel2. eapply ensures_weaken.
    { apply x86_gib_loop; try done. intros e k. rewrite Hw2, Hw1. apply Hsp. }
    intros [] s3 [Hwf3 [Hm Hg]]. split; [done|]. split.
    - intros va'. rewrite (Hm va'). case_decide; [done|]. unfold translate. by rewrite Hw2, Hw1.
    - intros va' e' k' Hw. specialize (Hg va' e' k' Hw). case_decide; [done|]. by rewrite Hw2, Hw1 in Hg. }
  destruct Hlev as [E | E]; rewrite E; cbn [Z.eqb Pos.eqb].
  - apply (Hrest s); [done|done|].
    assert (T.(top) = 3%nat) as Htop by (unfold T; cbn; by rewrite E). rewrite <- Htop. apply (reach_root x86_paging T).
  - assert (T.(top) = 4%nat) as Htop by (unfold T; cbn; by rewrite E).
    assert (reach x86_paging T s.(mem) 4 va pm.(x86_top_level)) as Hr by (rewrite <- Htop; apply (reach_root x86_paging T)).
    eapply ensures_bind.
    { apply (next_clear x86_paging HW T (x86_paging_ok cpu) (x86_layout_ok pm) cb s 3 va _ 2 Hwf Hr); [|lia].
      by apply (wf_clear x86_paging HW T). }
    intros q s1 (Hwf1 & Hq & _ & Hw1). by apply Hrest.
Qed.

(** The size of the pages [map_page] writes. *)
Definition x86_page_level (d : nat) : nat := if cpu.(is_1gib_page_supported) then d else min d 1.

Lemma x86_map_ok d va pa flags f s : (d <= 2)%nat -> wf x86_paging HW T s -> request HW d pa f -> x86_request cpu flags f ->
  0 <= va < W64 -> va `mod` psize d = 0 -> splittable x86_paging HW T (x86_page_level d) s.(mem) va ->
  ensures (x86_map_page map_page_depth cpu pm va pa flags (Z.of_nat d) s) (mapping_done x86_paging HW T d va pa f s).
Proof.
  intros Hd Hwf Hrq Hfl Hva Hal. unfold x86_page_level. destruct (is_1gib_page_supported cpu) eqn:Hgib.
  - by apply x86_map_direct.
  - destruct (decide (d = 2%nat)) as [->|]; [by apply x86_gib|]. rewrite Nat.min_l by lia. apply x86_map_direct; [done|lia|done..].
Qed.
End x86.

(** ** aarch64 *)

Lemma aarch64_descend fuel pm va pa f d s : pm.(aarch64_levels) = 4 \/ pm.(aarch64_levels) = 5 -> (d <= 2)%nat ->
  aarch64_map_page (S fuel) pm va pa f (Z.of_nat d) s =
  descend aarch64_paging (aarch64_layout pm) (aarch64_map_page fuel pm) (aarch64_layout pm).(top)
    ((aarch64_layout pm).(root) ((aarch64_layout pm).(half) va)) va d (aarch64_leaf d pa f) s.
Proof.
  intros Hlev Hd. destruct pm as [levels [t0 t1]]. cbn [aarch64_levels] in Hlev. cbn [aarch64_map_page].
  set (cb := aarch64_map_page fuel _).
  change 511 with (2 ^ 9 - 1). change 15 with (2 ^ 4 - 1). rewrite !va_field_spec by lia.
  destruct Hlev as [-> | ->]; (destruct d as [|[|[|d]]]; [| | |lia]; reflexivity).
Qed.

Lemma aarch64_map_ok pm d va pa f s : pm.(aarch64_levels) = 4 \/ pm.(aarch64_levels) = 5 -> (d <= 2)%nat ->
  wf aarch64_paging aarch64_hardware (aarch64_layout pm) s -> request aarch64_hardware d pa f -> 0 <= va < W64 ->
  splittable aarch64_paging aarch64_hardware (aarch64_layout pm) d s.(mem) va ->
  ensures (aarch64_map_page map_page_depth pm va pa f (Z.of_nat d) s)
    (mapping_done aarch64_paging aarch64_hardware (aarch64_layout pm) d va pa f s).
Proof.
  intros Hlev Hd Hwf Hrq Hva Hsp. assert (d <= (aarch64_layout pm).(top))%nat as Htop by (cbn; case_match; lia).
  apply (descent_ok _ _ _ aarch64_paging_ok (aarch64_layout_ok pm) (fun fuel => aarch64_map_page fuel pm) d Htop eq); try done.
  intros fuel va' pa' flags f' s' -> _. by apply aarch64_descend.
Qed.

(** ** RISC-V *)

(** The framebuffer type needs the Svpbmt extension. *)
Definition riscv_request (pbmt_nc flags f : Z) : Prop :=
  exists w n b, flags = vmm_word w n b /\ f = vmm_word w n (b && (pbmt_nc =? 2 ^ 62)).

Lemma riscv_index pm k va : Z.land (Z.shiftr va (12 + 9 * Z.of_nat k)) 511 = index (riscv_layout pm) k va.
Proof.
  change 511 with (Z.ones 9). rewrite Z.land_ones, Z.shiftr_div_pow2 by lia. done.
Qed.

Lemma riscv_descend_spec pm cb va d e : (d <= 4)%nat -> forall k fuel table s, (d <= k <= 4)%nat -> (k <= fuel)%nat ->
  riscv_descend (A := A) fuel (fun table level index => get_next_level riscv_paging cb table va (Z.of_nat d) level index)
    table va (Z.of_nat k) (Z.of_nat d) e s =
  descend riscv_paging (riscv_layout pm) cb k table va d e s.
Proof.
  intros Hd. induction k as [|k IH]; intros fuel table s Hk Hf.
  - destruct d; [|lia]. destruct fuel; cbn [riscv_descend descend]; rewrite (riscv_index pm 0); done.
  - destruct fuel as [|fuel]; [lia|]. cbn [riscv_descend descend]. rewrite (riscv_index pm).
    split_eqb (Z.of_nat (S k)) (Z.of_nat d).
    + assert (S k = d) as <- by lia. by rewrite decide_True.
    + rewrite decide_False by lia. unfold mbind, M_bind. destruct (get_next_level _ _ _ _ _ _ _ _) as [[q s1]| | |]; try done.
      replace (Z.of_nat (S k) - 1) with (Z.of_nat k) by lia. apply IH; lia.
Qed.

Lemma riscv_leaf_word pbmt_nc k pa w n b : pbmt_nc = 0 \/ pbmt_nc = 2 ^ 62 ->
  riscv_leaf pbmt_nc k pa (vmm_word w n b) = riscv_leaf pbmt_nc k pa (vmm_word w n (b && (pbmt_nc =? 2 ^ 62))).
Proof. intros [-> | ->]; destruct w, n, b; reflexivity. Qed.

Lemma riscv_map_ok pbmt_nc pm d va pa flags f s : pbmt_nc = 0 \/ pbmt_nc = 2 ^ 62 -> 2 <= pm.(max_page_size) <= 4 ->
  (d <= (riscv_layout pm).(top))%nat ->
  let HW := riscv_hardware pbmt_nc (riscv_layout pm).(top) in
  wf riscv_paging HW (riscv_layout pm) s -> request HW d pa f -> riscv_request pbmt_nc flags f -> 0 <= va < W64 ->
  splittable riscv_paging HW (riscv_layout pm) d s.(mem) va ->
  ensures (riscv_map_page map_page_depth pbmt_nc pm va pa flags (Z.of_nat d) s)
    (mapping_done riscv_paging HW (riscv_layout pm) d va pa f s).
Proof.
  intros Hnc Hmax Hd HW. assert (d <= Z.to_nat (max_page_size pm))%nat as Hd' by exact Hd.
  apply (descent_ok riscv_paging HW (riscv_layout pm) (riscv_paging_ok pbmt_nc (riscv_layout pm).(top) ltac:(cbn; lia)) (riscv_layout_ok pm ltac:(lia))
    (fun fuel => riscv_map_page fuel pbmt_nc pm) d Hd (riscv_request pbmt_nc)).
  - intros f' (w & n & b & -> & Hb). exists w, n, b. split; [done|]. destruct b; [by rewrite Hb by done|done].
  - intros fuel va' pa' flags' f' s' (w & n & b & -> & ->) _. cbn [riscv_map_page].
    split_ltb (max_page_size pm) (Z.of_nat d); [lia|].
    change (pte_new riscv_paging pa' (riscv_ptflags pbmt_nc (vmm_word w n b))) with (riscv_leaf pbmt_nc d pa' (vmm_word w n b)).
    rewrite (riscv_leaf_word pbmt_nc d pa' w n b) by done.
    rewrite <- (riscv_descend_spec pm _ va' d _ ltac:(lia) (riscv_layout pm).(top) 5) by (cbn; lia).
    by replace (Z.of_nat (riscv_layout pm).(top)) with (max_page_size pm) by (cbn; lia).
Qed.

(** ** LoongArch *)

Lemma loongarch_map_ok pm d va pa f s : (d <= 2)%nat ->
  wf loongarch_paging loongarch_hardware (loongarch_layout pm) s -> request loongarch_hardware d pa f -> 0 <= va < W64 ->
  splittable loongarch_paging loongarch_hardware (loongarch_layout pm) d s.(mem) va ->
  ensures (loongarch_map_page map_page_depth pm va pa f (Z.of_nat d) s)
    (mapping_done loongarch_paging loongarch_hardware (loongarch_layout pm) d va pa f s).
Proof.
  intros Hd Hwf Hrq Hva Hsp. assert (d <= (loongarch_layout pm).(top))%nat as Htop by (cbn; lia).
  apply (descent_ok _ _ _ loongarch_paging_ok (loongarch_layout_ok pm) (fun fuel => loongarch_map_page fuel pm) d Htop eq); try done.
  intros fuel va' pa' flags f' s' -> _. destruct pm as [[t0 t1]]. cbn [loongarch_map_page].
  set (cb := loongarch_map_page fuel _). change 511 with (2 ^ 9 - 1). rewrite !va_field_spec by lia.
  destruct d as [|[|[|d]]]; [| | |lia]; reflexivity.
Qed.

(** ** Pages that cannot be split *)

(** The memory type of a large framebuffer page on x86 is bit 12 of its entry, which
    [pte_addr] takes for a bit of the address: such a page is never split. *)
Lemma x86_fb_split_panics cb table va d k i pa w n s : (0 < k <= 2)%nat -> block k pa -> 0 <= d < 3 ->
  peek s.(mem) (table + 8 * i) = x86_leaf k pa (x86_word w n true) ->
  get_next_level x86_paging cb table va d (Z.of_nat k) i s = Panic "Unexpected page table entry address in get_next_level".
Proof.
  intros Hk Hb Hd He. destruct (x86_large k pa w n true Hk Hb) as (Hfl & _ & Ha).
  unfold get_next_level. unfold mbind at 1, M_bind at 1. cbn [load PT_IS_TABLE PT_IS_LARGE VMM_MAX_LEVEL pte_addr x86_paging].
  rewrite He, Hfl, Ha. cbn [Z.eqb]. split_leb 3 (Z.of_nat k); [lia|]. split_eqb (Z.of_nat k) 0; [lia|]. split_leb 3 d; [lia|].
  cbn [orb]. rewrite Nat2Z.id, page_sizes_size, land_psize by lia.
  destruct (Z.eqb_spec (Z.lor pa 4096 `mod` psize k) 0) as [Hz|]; [|done].
  assert (0 <= 4096 < psize k) as Hc.
  { destruct k as [|k]; [lia|]. rewrite psize_S. destruct (psize_le 0 k ltac:(lia)) as (m & Hm & ->). change (psize 0) with 4096. lia. }
  pose proof (frame_lor k pa 4096 Hb Hc) as Hf. rewrite Hz, Z.sub_0_r in Hf. exfalso.
  assert (Z.land (Z.lor pa 4096) 4096 = 0) as H0 by (rewrite Hf; apply (land_block_0 k pa 4096); [lia|done|]; destruct k as [|[|[|]]]; (lia || done)).
  rewrite Z.land_lor_distr_l, Z.land_diag in H0. by apply Z.lor_eq_0_iff in H0 as [_ ?].
Qed.

(** The mask for the address of a large LoongArch page starts at bit 24: the small
    pages that replace a 2 MiB page lead to the start of its 16 MiB block. *)
Lemma loongarch_split_wrong cb table va i pa w n b s : block 1 pa -> 0 <= va < W64 ->
  peek s.(mem) (table + 8 * i) = loongarch_leaf 1 pa (vmm_word w n b) ->
  get_next_level loongarch_paging cb table va Size4KiB 1 i s =
  (ret ← ext_mem_alloc;
   _ ← store (table + 8 * i) (Z.lor ret 0);
   _ ← for_loop 512 0 2097152 4096 (fun o =>
         cb (u64 (va - va `mod` 2097152 + o)) (u64 (pa - pa `mod` 2 ^ 24 + o)) (vmm_word w n b) Size4KiB);
   mret ret) s.
Proof.
  intros Hb Hva He. set (c := Z.lor (Z.lor (loongarch_real_flags (vmm_word w n b)) (2 ^ 12)) (2 ^ 6)).
  destruct (loongarch_decode pa c (block_0 _ _ Hb)) as (_ & H1 & _).
  pose proof (loongarch_large 1 pa c ltac:(lia) Hb) as Hlg.
  assert (pte_addr loongarch_paging (Z.lor pa c) = pa - pa `mod` 2 ^ 24 /\ PT_IS_TABLE loongarch_paging 1 (Z.lor pa c) = false /\
    PT_IS_LARGE loongarch_paging (Z.lor pa c) = true /\ PT_TO_VMM_FLAGS loongarch_paging (Z.lor pa c) = vmm_word w n b) as (Ea & Et & El & Ef).
  { destruct (loongarch_large_addr 1 pa w n b ltac:(lia) Hb) as [Ha Hf]. split_and!; [exact Ha| | |exact Hf];
      cbn [PT_IS_TABLE PT_IS_LARGE loongarch_paging]; unfold loongarch_IS_LARGE; rewrite ?Hlg, ?H1; unfold c; by destruct w, n, b. }
  unfold get_next_level. unfold mbind at 1, M_bind at 1. cbn [load].
  rewrite He. change (loongarch_leaf 1 pa (vmm_word w n b)) with (Z.lor pa c). rewrite Et, El, Ea, Ef.
  change (nth (Z.to_nat 1) page_sizes 0) with (psize 1). rewrite round_psize by (done || lia).
  rewrite land_psize. assert ((pa - pa `mod` 2 ^ 24) `mod` psize 1 = 0) as ->; [|done].
  replace (pa - pa `mod` 2 ^ 24) with (pa / 2 ^ 24 * 8 * psize 1); [apply Z_mod_mult|].
  pose proof (Z.div_mod pa (2 ^ 24) ltac:(lia)). change (psize 1) with (2 ^ 21). lia.
Qed.
End theorems.
