(* ===== verification/VmmBoot.v ===== *)
(** * Page tables from start to end

    The allocator of the loader as a source of pages, and the theorems about new
    pagemaps and the pages mapped in them. *)

From S2P Require Import Prelude Memmap Sanitise Pmm PmmFacts PmmSpec Vmm VmmWalk VmmSpec VmmArch VmmThms.

(** * Page tables from the physical memory allocator

    The pages of the tables come from [ext_mem_alloc]: the allocator of Pmm.v
    keeps the promise that the page-table code relies on. *)

Section allocator.
Context (memmap_max_entries : nat).

#[local] Instance pmm_pages : PageAllocator pmm := fun st => Pmm.ext_mem_alloc memmap_max_entries st PT_SIZE.

(** A page is owned when no byte of it is usable memory. *)
Definition page_owned (st : pmm) (p : Z) : Prop :=
  page_ok p /\ forall a, p <= a < p + PT_SIZE -> ~ covers (memmap st) a MEMMAP_USABLE.

Lemma page_sound st p st' : pmm_inv st -> keep_first_page st = false -> alloc_page st = Ret (p, st') ->
  pmm_inv st' /\ keep_first_page st' = false /\ ~ page_owned st p /\ page_owned st' p /\
  (forall q, page_owned st q -> page_owned st' q).
Proof.
  intros Hi Hk H. apply alloc_evolves in H as ([I1 K1 U1 _] & Hp & [z Hz] & Hlim & Hb); [|done..].
  change (ALIGN_UP PT_SIZE 4096) with 4096 in *.
  assert (4096 <= p) as Hp0.
  { destruct (Hb p ltac:(lia)) as (Hc & _). destruct (inv_visible _ _ _ Hi Hc eq_refl) as [Hv|Hv]; [congruence|lia]. }
  split_and!; [done|congruence|..].
  - intros [_ Ho]. apply (Ho p); [change PT_SIZE with 4096; lia|]. apply Hb. lia.
  - split; [split; [subst; apply Z_mod_mult|lia]|]. intros a Ha. apply Hb. by change PT_SIZE with 4096 in *.
  - intros r [Hr Ho]. split; [done|]. intros a Ha Hc%U1. by apply (Ho a).
Qed.

Lemma page_inv_owned st p : pmm_inv st /\ keep_first_page st = false -> page_owned st p -> page_ok p.
Proof. by intros _ [Hp _]. Qed.

Lemma page_outcome st : pmm_inv st /\ keep_first_page st = false ->
  match alloc_page st with
  | Ret (p, st') => (pmm_inv st' /\ keep_first_page st' = false) /\ ~ page_owned st p /\ page_owned st' p /\
      forall q, page_owned st q -> page_owned st' q
  | Panic msg => page_error msg
  | Undef | Diverge => False
  end.
Proof.
  intros [Hi Hk]. pose proof (alloc_total memmap_max_entries st PT_SIZE MEMMAP_BOOTLOADER_RECLAIMABLE 4096 Hi ltac:(done) ltac:(done) ltac:(done)) as Ht.
  change (ext_mem_alloc_type_aligned _ st PT_SIZE MEMMAP_BOOTLOADER_RECLAIMABLE 4096) with (alloc_page st) in Ht. destruct (alloc_page st) as [[p st']|msg| |] eqn:E; try done.
  destruct (page_sound st p st' Hi Hk E) as (? & ? & ? & ? & ?). done.
Qed.

#[local] Instance pmm_pages_spec : PageAllocatorSpec pmm := {|
  alloc_inv st := pmm_inv st /\ keep_first_page st = false;
  owned := page_owned;
  alloc_error := page_error;
  owned_page := page_inv_owned;
  alloc_page_spec := page_outcome
|}.
End allocator.

(** * Page tables from start to end

    A new pagemap on each of the four architectures maps nothing; [map_page] and
    [map_pages] then map what they are asked to map.  The allocator is any that
    keeps the promise of [PageAllocatorSpec]; the one of the loader is above. *)

(** ** The four architectures *)

Inductive cpu :=
| CpuX86 (c : x86_cpu)
| CpuAArch64
| CpuRiscV (svpbmt : bool)
| CpuLoongArch (valen : Z).

Inductive machine :=
| X86 (c : x86_cpu) (pm : x86_pagemap)
| AArch64 (pm : aarch64_pagemap)
| RiscV (pbmt_nc : Z) (pm : riscv_pagemap)
| LoongArch (pm : loongarch_pagemap).

Definition m_paging (mc : machine) : paging :=
  match mc with
  | X86 _ _ => x86_paging
  | AArch64 _ => aarch64_paging
  | RiscV _ _ => riscv_paging
  | LoongArch _ => loongarch_paging
  end.

Definition m_layout (mc : machine) : layout :=
  match mc with
  | X86 _ pm => x86_layout pm
  | AArch64 pm => aarch64_layout pm
  | RiscV _ pm => riscv_layout pm
  | LoongArch pm => loongarch_layout pm
  end.

Definition m_hardware (mc : machine) : hardware :=
  match mc with
  | X86 c _ => x86_hardware c
  | AArch64 _ => aarch64_hardware
  | RiscV pbmt_nc pm => riscv_hardware pbmt_nc (riscv_layout pm).(top)
  | LoongArch _ => loongarch_hardware
  end.

(** The flags [f] an entry has after a call with [flags]. *)
Definition m_request (mc : machine) (flags f : Z) : Prop :=
  match mc with
  | X86 c _ => x86_request c flags f
  | RiscV pbmt_nc _ => riscv_request pbmt_nc flags f
  | AArch64 _ | LoongArch _ => flags = f
  end.

Definition m_ok (mc : machine) : Prop :=
  match mc with
  | X86 _ pm => pm.(x86_levels) = 4 \/ pm.(x86_levels) = 5
  | AArch64 pm => pm.(aarch64_levels) = 4 \/ pm.(aarch64_levels) = 5
  | RiscV pbmt_nc pm => (pbmt_nc = 0 \/ pbmt_nc = 2 ^ 62) /\ 2 <= pm.(max_page_size) <= 4
  | LoongArch _ => True
  end.

(** The paging modes a processor has. *)
Definition mode_ok (c : cpu) (paging_mode : Z) : Prop :=
  match c with
  | CpuX86 _ | CpuAArch64 => paging_mode = 0 \/ paging_mode = 1
  | CpuRiscV _ => 8 <= paging_mode <= 10
  | CpuLoongArch valen => 48 <= valen
  end.

(** The address bits one tree of tables has to resolve in a paging mode: all of those
    the mode has, except that on aarch64 the highest one selects the tree. *)
Definition tree_bits (c : cpu) (paging_mode : Z) : Z :=
  match c with
  | CpuX86 _ => x86_va_bits paging_mode
  | CpuAArch64 => aarch64_va_bits paging_mode - 1
  | CpuRiscV _ => match riscv_va_bits paging_mode with Ret bits => bits | _ => 0 end
  | CpuLoongArch _ => loongarch_va_bits paging_mode
  end.

(** The processor a pagemap is for. *)
Definition made_for (c : cpu) (mc : machine) : Prop :=
  match c, mc with
  | CpuX86 c, X86 c' _ => c' = c
  | CpuAArch64, AArch64 _ | CpuLoongArch _, LoongArch _ => True
  | CpuRiscV svpbmt, RiscV pbmt_nc _ => pbmt_nc = if svpbmt then 2 ^ 62 else 0
  | _, _ => False
  end.

(** The size of the pages [map_page] writes: without 1 GiB pages, it uses 2 MiB ones. *)
Definition m_page_level (mc : machine) (d : nat) : nat :=
  match mc with X86 c _ => x86_page_level c d | _ => d end.

Section boot.
Context {A : Type} {PA : PageAllocator A} {PAS : PageAllocatorSpec A}.
Implicit Types s : vmm A.

Definition new_pagemap (c : cpu) (paging_mode : Z) : M (A := A) machine :=
  match c with
  | CpuX86 c => pm ← x86_new_pagemap paging_mode; mret (X86 c pm)
  | CpuAArch64 => pm ← aarch64_new_pagemap paging_mode; mret (AArch64 pm)
  | CpuRiscV svpbmt => pm ← riscv_new_pagemap paging_mode; mret (RiscV (if svpbmt then 2 ^ 62 else 0) pm)
  | CpuLoongArch valen => pm ← loongarch_new_pagemap valen; mret (LoongArch pm)
  end.

Definition map_page (mc : machine) : Z -> Z -> Z -> Z -> M (A := A) () :=
  match mc with
  | X86 c pm => x86_map_page map_page_depth c pm
  | AArch64 pm => aarch64_map_page map_page_depth pm
  | RiscV pbmt_nc pm => riscv_map_page map_page_depth pbmt_nc pm
  | LoongArch pm => loongarch_map_page map_page_depth pm
  end.

(** The tables of a pagemap are in order. *)
Definition pagemap_wf (mc : machine) s : Prop := wf (m_paging mc) (m_hardware mc) (m_layout mc) s.

(** Where an address leads, and with which flags. *)
Definition lookup_va (mc : machine) s (va : Z) : option (Z * Z) := translate (m_paging mc) (m_hardware mc) (m_layout mc) s.(mem) va.

(** The page that maps [va], if it is larger than level [d], is one the loader can
    split: on x86 one that has not the framebuffer type, on LoongArch one whose
    physical address is a multiple of 16 MiB, on aarch64 and RISC-V any. *)
Definition can_split (mc : machine) (d : nat) s (va : Z) : Prop :=
  splittable (m_paging mc) (m_hardware mc) (m_layout mc) d s.(mem) va.

(** The same of the page and of its parts. *)
Definition can_divide (mc : machine) s (va : Z) : Prop := divisible (m_paging mc) (m_hardware mc) (m_layout mc) s.(mem) va.

(** What is not mapped is not in the way. *)
Lemma unmapped_can_divide mc s va : lookup_va mc s va = None -> can_divide mc s va.
Proof. unfold lookup_va, translate. intros Hn e k Hw. by rewrite Hw in Hn. Qed.

Lemma arch_can_divide mc s va : match mc with AArch64 _ | RiscV _ _ => True | _ => False end -> can_divide mc s va.
Proof. by destruct mc. Qed.

Lemma x86_can_divide c pm s va : (forall a w n, lookup_va (X86 c pm) s va <> Some (a, x86_word w n true)) ->
  (forall a f, lookup_va (X86 c pm) s va = Some (a, f) -> (x86_hardware c).(flag_ok) f) -> can_divide (X86 c pm) s va.
Proof.
  intros Hn Hok e k Hw j Hj. unfold lookup_va, translate in Hn, Hok. rewrite Hw in Hn, Hok.
  destruct (Hok _ _ eq_refl) as (w & n & b & Hf & _). cbn [splits m_hardware x86_hardware]. exists w, n.
  destruct b; [|done]. by destruct (Hn (frame (m_hardware (X86 c pm)) k e + va `mod` psize k) w n); f_equal; f_equal.
Qed.

Lemma m_layout_ok mc : m_ok mc -> layout_ok (m_layout mc).
Proof.
  destruct mc; intros Hok; [apply x86_layout_ok|apply aarch64_layout_ok|apply riscv_layout_ok; apply Hok|apply loongarch_layout_ok].
Qed.

Lemma m_paging_ok mc : m_ok mc -> paging_ok (m_paging mc) (m_hardware mc).
Proof.
  destruct mc; intros Hok; [apply x86_paging_ok|apply aarch64_paging_ok|apply riscv_paging_ok; cbn in *; lia|apply loongarch_paging_ok].
Qed.

Lemma m_levels mc : m_ok mc -> (2 <= (m_hardware mc).(max_leaf) <= (m_layout mc).(top))%nat.
Proof. destruct mc; cbn; intros; try case_match; lia. Qed.

Lemma m_map_page_spec mc d va pa flags f s : m_ok mc -> m_request mc flags f -> pagemap_wf mc s -> request (m_hardware mc) d pa f ->
  (d <= 2)%nat -> 0 <= va < W64 -> va `mod` psize d = 0 -> can_split mc (m_page_level mc d) s va ->
  ensures (map_page mc va pa flags (Z.of_nat d) s)
    (fun _ s' => pagemap_wf mc s' /\ mapping (m_paging mc) (m_hardware mc) (m_layout mc) d va pa f s.(mem) s'.(mem)).
Proof.
  intros Hok Hfl Hwf Hrq Hd Hva Hal Hsp. pose proof (m_levels mc Hok). destruct mc; cbn [map_page].
  - by apply x86_map_ok.
  - cbn in Hfl. subst. by apply aarch64_map_ok.
  - apply riscv_map_ok; [apply Hok|apply Hok|cbn in *; lia|done..].
  - cbn in Hfl. subst. by apply loongarch_map_ok.
Qed.

Lemma m_map_page_ok mc flags f : m_ok mc -> m_request mc flags f ->
  map_page_ok (m_paging mc) (m_hardware mc) (m_layout mc) (map_page mc) flags f.
Proof.
  intros Hok Hfl s d va pa Hwf Hrq Hd Hva Hal Hsp. apply m_map_page_spec; try done. intros e k Hw Hk. apply Hsp; [done|lia].
Qed.

(** ** New pagemaps *)

Lemma fresh_pagemap mc s : m_ok mc -> alloc_inv s.(allocator) ->
  (forall va, owned s.(allocator) ((m_layout mc).(root) ((m_layout mc).(half) va))) ->
  (forall va i, 0 <= i < 512 -> peek s.(mem) ((m_layout mc).(root) ((m_layout mc).(half) va) + 8 * i) = 0) ->
  (forall a b, (m_layout mc).(root) a = (m_layout mc).(root) b -> a = b \/ forall va, (m_layout mc).(half) va = false) ->
  m_ok mc /\ pagemap_wf mc s /\ forall va, lookup_va mc s va = None.
Proof.
  intros Hok Ha Hown Hzero Hinj. pose proof (po_table _ _ (m_paging_ok mc Hok)) as HL. pose proof (m_layout_ok mc Hok) as HT.
  pose proof (m_levels mc Hok) as Hlev. set (T := m_layout mc) in *. set (P := m_paging mc) in *.
  assert (forall k va, entry T s.(mem) k (T.(root) (T.(half) va)) va = 0) as He.
  { intros k va. apply Hzero, index_range, HT. }
  assert (forall k va p, reach P T s.(mem) k va p -> k = T.(top) /\ p = T.(root) (T.(half) va)) as Htop.
  { induction 1 as [|k va p Hr [Hk ->] Ht]; [done|]. by rewrite He, (tl_zero _ _ HL) in Ht. }
  split; [done|]. split.
  - unfold pagemap_wf. fold T P. split; [done| |].
    + split.
      * intros k va p [_ ->]%Htop. apply Hown.
      * intros p. by apply owned_page.
      * intros k va k' va' p [-> ->]%Htop [-> Hp]%Htop. split; [done|]. unfold prefix. rewrite Nat.sub_diag. cbn [seq]. f_equal.
        destruct (Hinj _ _ Hp) as [|Hf]; [done|by rewrite !Hf].
    + intros k va p [_ ->]%Htop _. by rewrite He, (tl_zero_large _ _ HL).
  - intros va. unfold lookup_va, translate. fold T P. rewrite (reach_walk P _ T _ _ _ _ (reach_root P T _ va)).
    destruct T.(top) as [|k] eqn:E; [lia|]. cbn [walk_from]. by rewrite He, (tl_zero _ _ HL), (tl_zero_large _ _ HL).
Qed.

Lemma new_page s : alloc_inv s.(allocator) ->
  ensures (Vmm.ext_mem_alloc s) (fun p s' => alloc_inv s'.(allocator) /\ page_ok p /\ ~ owned s.(allocator) p /\ owned s'.(allocator) p /\
    (forall q, owned s.(allocator) q -> owned s'.(allocator) q) /\ s'.(mem) = clear_page p s.(mem)).
Proof.
  intros Ha. pose proof (alloc_page_spec _ Ha) as Hspec. unfold Vmm.ext_mem_alloc. cbn.
  destruct (alloc_page (allocator s)) as [[p a']|msg| |]; cbn; [|done..]. destruct Hspec as (Ha' & Hn & Hp & Hmono).
  split_and!; try done. by eapply owned_page.
Qed.

(** The pages that were handed out before keep their contents. *)
Definition pages_kept s s' : Prop :=
  forall p i, owned s.(allocator) p -> 0 <= i < 512 -> peek s'.(mem) (p + 8 * i) = peek s.(mem) (p + 8 * i).

Lemma clear_kept p q i (m : gmap Z Z) : page_ok p -> page_ok q -> p <> q -> 0 <= i < 512 -> peek (clear_page q m) (p + 8 * i) = peek m (p + 8 * i).
Proof.
  intros [Hp _] [Hq _] Hne Hi. rewrite peek_clear. rewrite decide_False; [done|].
  pose proof (Z.div_mod p 4096 ltac:(lia)). pose proof (Z.div_mod q 4096 ltac:(lia)). lia.
Qed.

Lemma M_assoc {R U V} (m : M (A := A) R) (f : R -> M U) (g : U -> M V) s : ((m ≫= f) ≫= g) s = (m ≫= fun x => f x ≫= g) s.
Proof. unfold mbind, M_bind. by destruct (m s) as [[r s1]|?| |]. Qed.

(** One table. *)
Lemma new_root s : alloc_inv s.(allocator) ->
  ensures (Vmm.ext_mem_alloc s) (fun p s' => alloc_inv s'.(allocator) /\ pages_kept s s' /\
    ~ owned s.(allocator) p /\ owned s'.(allocator) p /\ forall i, 0 <= i < 512 -> peek s'.(mem) (p + 8 * i) = 0).
Proof.
  intros Ha. eapply ensures_weaken; [by apply new_page|]. intros p s' (Ha' & Hp & Hnew & Hown & _ & Hm).
  split_and!; [done| |done|done|].
  - intros q i Hq Hi. rewrite Hm. apply clear_kept; [exact (owned_page _ _ Ha Hq)|done| |done]. by intros ->.
  - intros i Hi. rewrite Hm, peek_clear. by rewrite decide_True by lia.
Qed.

(** One table for each half. *)
Lemma new_roots {R} (f : Z -> Z -> R) s : alloc_inv s.(allocator) ->
  ensures ((p ← Vmm.ext_mem_alloc; q ← Vmm.ext_mem_alloc; mret (f p q)) s)
    (fun r s' => exists p q, r = f p q /\ p <> q /\ alloc_inv s'.(allocator) /\ pages_kept s s' /\
      ~ owned s.(allocator) p /\ ~ owned s.(allocator) q /\ owned s'.(allocator) p /\ owned s'.(allocator) q /\
      forall i, 0 <= i < 512 -> peek s'.(mem) (p + 8 * i) = 0 /\ peek s'.(mem) (q + 8 * i) = 0).
Proof.
  intros Ha. eapply ensures_bind; [by apply new_page|]. intros p s1 (Ha1 & Hp & Hnew1 & Hown1 & Hmono1 & Hm1).
  eapply ensures_bind; [by apply new_page|]. intros q s2 (Ha2 & Hq & Hnew & Hown2 & Hmono & Hm2). cbn.
  exists p, q. assert (p <> q) as Hne by (by intros ->).
  split_and!; [done|done|done| |done|by intros ?%Hmono1; apply Hnew|by apply Hmono|done|].
  { intros r i Hr Hi. pose proof (owned_page _ _ Ha Hr). rewrite Hm2, (clear_kept r q), Hm1, (clear_kept r p); [done|done|done| |done|done|done| |done].
    - by intros ->.
    - intros ->. by apply Hnew, Hmono1. }
  intros i Hi. rewrite Hm2, Hm1, !peek_clear, (decide_True (P := q <= q + 8 * i < q + 4096)), (decide_True (P := p <= p + 8 * i < p + 4096)) by lia.
  split; [by case_decide|done].
Qed.

(** A pagemap with one new table, or one for each half. *)
Lemma fresh_root mc s p : m_ok mc -> alloc_inv s.(allocator) -> owned s.(allocator) p ->
  (forall i, 0 <= i < 512 -> peek s.(mem) (p + 8 * i) = 0) ->
  (forall h, (m_layout mc).(root) h = p) -> (forall va, (m_layout mc).(half) va = false) ->
  m_ok mc /\ pagemap_wf mc s /\ forall va, lookup_va mc s va = None.
Proof.
  intros Hok Ha Hp Hz Hroot Hhalf. apply fresh_pagemap; [done|done|..].
  - intros va. by rewrite Hroot.
  - intros va. by rewrite Hroot.
  - intros. by right.
Qed.

Lemma fresh_roots mc s p q : m_ok mc -> alloc_inv s.(allocator) -> p <> q -> owned s.(allocator) p -> owned s.(allocator) q ->
  (forall i, 0 <= i < 512 -> peek s.(mem) (p + 8 * i) = 0 /\ peek s.(mem) (q + 8 * i) = 0) ->
  (forall h, (m_layout mc).(root) h = if h : bool then q else p) ->
  m_ok mc /\ pagemap_wf mc s /\ forall va, lookup_va mc s va = None.
Proof.
  intros Hok Ha Hne Hp Hq Hz Hroot. apply fresh_pagemap; [done|done|..].
  - intros va. rewrite Hroot. by case_match.
  - intros va i Hi. rewrite Hroot. destruct (Hz i Hi). by case_match.
  - intros [] []; rewrite !Hroot; auto; congruence.
Qed.

(** A pagemap for the processor, whose trees resolve the address bits of the paging
    mode, rooted in new pages. *)
Definition made_new (c : cpu) (paging_mode : Z) s (mc : machine) s' : Prop :=
  made_for c mc /\ span (m_layout mc) = 2 ^ tree_bits c paging_mode /\ pages_kept s s' /\
  forall h, ~ owned s.(allocator) ((m_layout mc).(root) h) /\ owned s'.(allocator) ((m_layout mc).(root) h).

Lemma new_pagemap_spec c paging_mode s : mode_ok c paging_mode -> alloc_inv s.(allocator) ->
  ensures (new_pagemap c paging_mode s) (fun mc s' => made_new c paging_mode s mc s' /\
    m_ok mc /\ pagemap_wf mc s' /\ forall va, lookup_va mc s' va = None).
Proof.
  intros Hmode Ha. destruct c as [c| |svpbmt|valen]; cbn [new_pagemap mode_ok] in *.
  - unfold x86_new_pagemap. rewrite M_assoc. eapply ensures_bind; [by apply new_root|]. intros p s1 (Ha1 & Hkept & Hnew & Hown & Hz).
    cbn [mbind M_bind mret M_ret ensures]. split.
    + split_and!; [done| |done|done]. by destruct Hmode as [-> | ->].
    + apply (fresh_root _ s1 p); cbn; auto. case_match; auto.
  - eapply ensures_bind; [by apply (new_roots (fun p q => {| aarch64_top_level := (p, q) |}))|].
    intros pm s1 (p & q & -> & Hne & Ha1 & Hkept & Hp0 & Hq0 & Hp & Hq & Hz). cbn [mret M_ret ensures]. split.
    + split_and!; [done| |done|by intros []]. by destruct Hmode as [-> | ->].
    + apply (fresh_roots _ s1 p q); cbn; auto. case_match; auto.
  - unfold riscv_new_pagemap. rewrite M_assoc. eapply ensures_bind; [by apply new_root|]. intros p s1 (Ha1 & Hkept & Hnew & Hown & Hz).
    cbn [mbind M_bind mret M_ret ensures]. split.
    + split_and!; [done| |done|done]. assert (paging_mode = 8 \/ paging_mode = 9 \/ paging_mode = 10) as [-> |[-> | ->]] by lia; done.
    + apply (fresh_root _ s1 p); cbn; auto. split; [destruct svpbmt; auto|lia].
  - unfold loongarch_new_pagemap. split_ltb valen 48; [lia|].
    eapply ensures_bind; [by apply (new_roots (fun p q => {| pgd := (p, q) |}))|].
    intros pm s1 (p & q & -> & Hne & Ha1 & Hkept & Hp0 & Hq0 & Hp & Hq & Hz). cbn [mret M_ret ensures]. split.
    + split_and!; [done|done|done|by intros []].
    + apply (fresh_roots _ s1 p q); cbn; auto.
Qed.

Lemma new_pagemap_x86 c s mc s' : new_pagemap (CpuX86 c) 0 s = Ret (mc, s') -> exists pm, mc = X86 c pm /\ pm.(x86_levels) = 4.
Proof.
  cbn [new_pagemap]. unfold x86_new_pagemap. unfold mbind, M_bind. destruct (Vmm.ext_mem_alloc s) as [[p s1]|?| |]; [|done..].
  intros [= <- _]. by eexists.
Qed.

(** C31: on every architecture and in every paging mode, [new_pagemap] makes a pagemap
    for this processor whose tables resolve exactly the address bits that
    [paging_mode_va_bits] gives for the mode.  Its root tables are pages that were
    free, no page in use is changed, the tables are in order and translate no address.
    It fails only if the allocator does. *)
Theorem new_pagemap_empty c paging_mode s : mode_ok c paging_mode -> alloc_inv s.(allocator) ->
  ensures (new_pagemap c paging_mode s) (fun mc s' =>
    (made_for c mc /\ span (m_layout mc) = 2 ^ tree_bits c paging_mode /\ pages_kept s s' /\
     forall h, ~ owned s.(allocator) ((m_layout mc).(root) h) /\ owned s'.(allocator) ((m_layout mc).(root) h)) /\
    m_ok mc /\ pagemap_wf mc s' /\ forall va, lookup_va mc s' va = None).
Proof. apply new_pagemap_spec. Qed.

(** ** Mapping *)

(** C2: [map_page] on a pagemap in order: every address of the page asked for leads
    to its place in the physical block, with the flags asked for, every other address
    leads where it led before, and the tables stay in order.  A larger page that maps
    the address already is split, and has to be one that can be: not of the
    framebuffer type on x86, at a multiple of 16 MiB on LoongArch.  It fails only if
    the allocator does. *)
Theorem map_page_translates mc d va pa flags f s : m_ok mc -> pagemap_wf mc s -> (d <= 2)%nat ->
  request (m_hardware mc) d pa f -> m_request mc flags f -> 0 <= va < W64 -> va `mod` psize d = 0 ->
  can_split mc (m_page_level mc d) s va ->
  ensures (map_page mc va pa flags (Z.of_nat d) s) (fun _ s' => pagemap_wf mc s' /\
    forall va', lookup_va mc s' va' =
      if decide (prefix (m_layout mc) d va = prefix (m_layout mc) d va') then Some (pa + va' `mod` psize d, f) else lookup_va mc s va').
Proof.
  intros Hok Hwf Hd Hrq Hfl Hva Hal Hsp. eapply ensures_weaken; [by apply m_map_page_spec|]. by intros [] s' [Hwf' [Hm _]].
Qed.

(** C21: [map_pages] on a range of pages, on any of the four architectures and with any
    flags: each address of the range leads to its place in the physical range, with
    the flags asked for, whatever the page sizes chosen, and addresses outside of the
    range lead where they led before.  Addresses of the range that are mapped already
    have to be mapped by pages that can be split ([can_divide]); a range that is not
    mapped yet satisfies this ([unmapped_can_divide]). *)
Theorem map_pages_translates mc virt phys flags f count s : m_ok mc -> pagemap_wf mc s -> m_request mc flags f ->
  (m_hardware mc).(flag_ok) f -> (forall o, 0 <= o < count -> can_divide mc s (virt + o)) ->
  0 <= virt -> virt + count <= W64 -> 0 <= phys -> phys + count <= 2 ^ 48 -> 0 <= count <= span (m_layout mc) ->
  virt `mod` 4096 = 0 -> phys `mod` 4096 = 0 -> count `mod` 4096 = 0 ->
  ensures (map_pages (map_page mc) virt phys flags count s) (fun _ s' => pagemap_wf mc s' /\
    (forall o, 0 <= o < count -> lookup_va mc s' (virt + o) = Some (phys + o, f)) /\
    (forall va, (forall o, 0 <= o < count -> prefix (m_layout mc) 0 (virt + o) <> prefix (m_layout mc) 0 va) ->
       lookup_va mc s' va = lookup_va mc s va)).
Proof.
  intros Hok Hwf Hfl Hf Hdv Hv Hvc Hp Hpc Hc Hva Hpa Hca.
  apply (map_pages_spec _ _ _ (m_layout_ok mc Hok) (m_levels mc Hok) _ virt phys flags f count s (m_map_page_ok mc flags f Hok Hfl)); done.
Qed.
End boot.

(** ** A boot with the allocator of the loader *)

#[local] Instance demo_pages : PageAllocator pmm := pmm_pages 512.
#[local] Instance demo_pages_spec : PageAllocatorSpec pmm := pmm_pages_spec 512.

Definition demo_start : vmm pmm := {| allocator := demo; mem := ∅ |}.
Definition demo_cpu : cpu := CpuX86 {| pat_supported := true; is_1gib_page_supported := true |}.

Lemma demo_alloc_inv : alloc_inv demo_start.(allocator).
Proof. split; [exact demo_inv|reflexivity]. Qed.

Lemma demo_pagemap : exists mc s, new_pagemap demo_cpu 0 demo_start = Ret (mc, s).
Proof.
  destruct (returns_Ret (new_pagemap demo_cpu 0 demo_start)) as [[mc s] E]; [vm_compute; reflexivity|]. by exists mc, s.
Qed.

Lemma new_pagemap_empty_witness : exists mc s, new_pagemap demo_cpu 0 demo_start = Ret (mc, s) /\ lookup_va mc s 0x400000 = None.
Proof.
  destruct demo_pagemap as (mc & s & E). exists mc, s. split; [exact E|].
  pose proof (new_pagemap_empty demo_cpu 0 demo_start (or_introl eq_refl) demo_alloc_inv) as H. rewrite E in H. apply H.
Defined.

(** A run that continues from the new pagemap. *)
Lemma demo_run (k : machine -> M (A := pmm) ()) : returns ((mc ← new_pagemap demo_cpu 0; k mc) demo_start) = true ->
  exists c pm s s', pm.(x86_levels) = 4 /\ pagemap_wf (X86 c pm) s /\ (forall va, lookup_va (X86 c pm) s va = None) /\ k (X86 c pm) s = Ret ((), s').
Proof.
  intros [[[] s'] E]%returns_Ret. destruct demo_pagemap as (mc & s & Em).
  pose proof (new_pagemap_spec demo_cpu 0 demo_start (or_introl eq_refl) demo_alloc_inv) as H. rewrite Em in H. destruct H as (_ & _ & Hwf & Hnone).
  unfold mbind, M_bind in E. rewrite Em in E. apply new_pagemap_x86 in Em as (pm & -> & Hlev). by eexists _, pm, s, s'.
Qed.

(** The flags of a kernel's data: written, not executed. *)
Definition data_flags : Z := x86_word true true false.

Lemma map_page_translates_witness : exists mc s s', map_page mc 0x400000 0x200000 data_flags 1 s = Ret ((), s') /\
  lookup_va mc s' 0x400123 = Some (0x200123, data_flags).
Proof.
  destruct (demo_run (fun mc => map_page mc 0x400000 0x200000 data_flags 1)) as (c & pm & s & s' & Hlev & Hwf & Hnone & E);
    [vm_compute; reflexivity|].
  exists (X86 c pm), s, s'. split; [exact E|].
  assert (request (m_hardware (X86 c pm)) 1 0x200000 data_flags) as Hrq.
  { split; cbn; [lia|split_and!; [lia|reflexivity|by vm_compute]|by exists true, true, false]. }
  pose proof (map_page_translates (X86 c pm) 1 0x400000 0x200000 data_flags data_flags s (or_introl Hlev) Hwf ltac:(lia) Hrq
    (x86_request_ok _ _ (rq_flags _ _ _ _ Hrq)) ltac:(lia) eq_refl
    (divisible_splittable _ _ _ _ _ _ (unmapped_can_divide _ _ _ (Hnone _)))) as H.
  change (Z.of_nat 1) with 1 in H. rewrite E in H. destruct H as [_ H]. rewrite (H 0x400123). rewrite decide_True; [reflexivity|].
  unfold prefix. cbn. rewrite Hlev. reflexivity.
Defined.

Lemma map_pages_translates_witness : exists mc s s', map_pages (map_page mc) 0x7ff000 0x1ff000 data_flags 0x3000 s = Ret ((), s') /\
  lookup_va mc s' 0x800123 = Some (0x200123, data_flags).
Proof.
  destruct (demo_run (fun mc => map_pages (map_page mc) 0x7ff000 0x1ff000 data_flags 0x3000)) as (c & pm & s & s' & Hlev & Hwf & Hnone & E);
    [vm_compute; reflexivity|].
  exists (X86 c pm), s, s'. split; [exact E|].
  assert ((m_hardware (X86 c pm)).(flag_ok) data_flags) as Hf by (by exists true, true, false).
  assert (span (m_layout (X86 c pm)) = 2 ^ 48) as Hspan by (unfold span; cbn; rewrite Hlev; reflexivity).
  pose proof (map_pages_translates (X86 c pm) 0x7ff000 0x1ff000 data_flags data_flags 0x3000 s (or_introl Hlev) Hwf
    (x86_request_ok _ _ Hf) Hf (fun o _ => unmapped_can_divide _ _ _ (Hnone _)) ltac:(lia) ltac:(lia) ltac:(lia) ltac:(lia) ltac:(rewrite Hspan; lia)
    eq_refl eq_refl eq_refl) as H.
  rewrite E in H. destruct H as (_ & H & _). apply (H 0x1123). lia.
Defined.

(** ** Where the higher half starts *)

(** The higher half of the address space is its last [2^(va_bits - 1)] bytes, on
    every architecture and in every mode but the five-level one of aarch64. *)
Lemma higher_half_top mode :
  (mode = 0 \/ mode = 1 -> x86_higher_half mode = 2 ^ 64 - 2 ^ (x86_va_bits mode - 1)) /\
  aarch64_higher_half 0 = 2 ^ 64 - 2 ^ (aarch64_va_bits 0 - 1) /\
  (8 <= mode <= 10 -> exists bits, riscv_va_bits mode = Ret bits /\ riscv_higher_half mode = Ret (2 ^ 64 - 2 ^ (bits - 1))) /\
  loongarch_higher_half mode = 2 ^ 64 - 2 ^ (loongarch_va_bits mode - 1).
Proof.
  split_and!; [|done| |done].
  - by intros [-> | ->].
  - intros H. assert (mode = 8 \/ mode = 9 \/ mode = 10) as [-> |[-> | ->]] by lia; eexists; done.
Qed.

(** With five levels the processor translates 52 bits of an address in either half,
    so the top twelve bits must be ones; those of [paging_mode_higher_half] are not. *)
Lemma aarch64_higher_half_outside :
  aarch64_va_bits 1 - 1 = 52 /\ aarch64_higher_half 1 < 2 ^ 64 - 2 ^ 52.
Proof. done. Qed.
