(* ===== verification/Elsewhere.v ===== *)
(** * Images kept elsewhere: common/lib/elsewhere.c

    Images that have to run at a fixed address are loaded somewhere else and copied
    in place when the boot loader leaves.  [elsewhere_append] looks for the place of
    one more image.  The loop over the ranges, and the [goto retry] with its bound,
    are modelled with the memory map of the allocator; so is the stub of
    protos/multiboot_reloc.asm_x86 that copies the images. *)

From S2P Require Import Prelude Memmap Sanitise Pmm PmmFacts PmmSpec.

Record elsewhere_range := { elsewhere : Z; target : Z; er_length : Z }.

Definition elsewhere_overlap_check (base1 top1 base2 top2 : Z) : bool := (base1 <? top2) && (base2 <? top1).

(** What one pass over the ranges finds. *)
Inductive verdict := Fits | Retry (new_target : Z) | TooHigh.

Section append.
Context (max : nat).

(** Is it memory that exists?  Two simulated allocations. *)
Definition exists_range (st : pmm) (target t_length : Z) : outcome bool :=
  r ← memmap_alloc_range max st target t_length MEMMAP_BOOTLOADER_RECLAIMABLE MEMMAP_USABLE false true false;
  let '(ok, st) := (r : bool * pmm) in
  if ok then Ret true
  else
    r ← memmap_alloc_range max st target t_length MEMMAP_BOOTLOADER_RECLAIMABLE MEMMAP_BOOTLOADER_RECLAIMABLE false true false;
    Ret (fst (r : bool * pmm)).

(** [flexible_target] is overwritten with [true] by the code, so a range in the way
    moves the target. *)
Fixpoint check_ranges (st : pmm) (ranges : list elsewhere_range) (target_ t_length : Z) : outcome verdict :=
  match ranges with
  | [] => Ret Fits
  | r :: ranges =>
      let t_top := u64 (target_ + t_length) in
      if 0x100000000 <? t_top then Ret TooHigh
      else
        let top := u64 (r.(target) + r.(er_length)) in
        if elsewhere_overlap_check r.(target) top target_ t_top then Ret (Retry (ALIGN_UP top 4096))
        else
          let top := u64 (r.(elsewhere) + r.(er_length)) in
          if elsewhere_overlap_check r.(elsewhere) top target_ t_top then Ret (Retry (u64 (target_ + 0x1000)))
          else
            ok ← exists_range st target_ t_length;
            if negb ok then Ret (Retry (u64 (target_ + 0x1000)))
            else check_ranges st ranges target_ t_length
  end.

(** [retry:] with [tries] passes left; the result is the target. *)
Fixpoint find_target (tries : nat) (st : pmm) (ranges : list elsewhere_range) (target_ t_length : Z) : outcome (option Z) :=
  match tries with
  | O => Ret None
  | S tries =>
      v ← check_ranges st ranges target_ t_length;
      match v with
      | Fits => Ret (Some target_)
      | Retry target_ => find_target tries st ranges target_ t_length
      | TooHigh => Ret None
      end
  end.

(** The end of the highest range. *)
Fixpoint ranges_top (ranges : list elsewhere_range) (top : Z) : Z :=
  match ranges with
  | [] => top
  | r :: ranges =>
      let r_top := u64 (r.(target) + r.(er_length)) in
      ranges_top ranges (if top <? r_top then r_top else top)
  end.

(** [None]: there is no place, and the ranges are as before.  Otherwise the target
    and the ranges. *)
Definition elsewhere_append (st : pmm) (ranges : list elsewhere_range) (source target_ t_length : Z)
    : outcome (option (Z * list elsewhere_range)) :=
  let target_ := if target_ =? W64 - 1 then ALIGN_UP (ranges_top ranges 0) 4096 else target_ in
  r ← find_target (Z.to_nat 0x10000) st ranges target_ t_length;
  Ret match r with
      | None => None
      | Some target_ => Some (target_, ranges ++ [{| elsewhere := source; target := target_; er_length := t_length |}])
      end.
End append.

(** ** multiboot_reloc_stub *)

(** [rep movsb]: byte by byte, upwards. *)
Fixpoint movsb (count : nat) (src dst : Z) (m : Z -> Z) : Z -> Z :=
  match count with
  | O => m
  | S count => movsb count (src + 1) (dst + 1) (fun a => if a =? dst then m src else m a)
  end.

(** [.ranges_loop] *)
Fixpoint reloc_stub (ranges : list elsewhere_range) (m : Z -> Z) : Z -> Z :=
  match ranges with
  | [] => m
  | r :: ranges => reloc_stub ranges (movsb (Z.to_nat r.(er_length)) r.(elsewhere) r.(target) m)
  end.

(** ** Properties *)

Definition apart (b1 n1 b2 n2 : Z) : Prop := b1 + n1 <= b2 \/ b2 + n2 <= b1.

(** A range in memory below 4 GiB, at both places. *)
Definition range_ok (r : elsewhere_range) : Prop :=
  0 <= r.(elsewhere) /\ 0 <= r.(target) /\ 0 < r.(er_length) /\ r.(elsewhere) + r.(er_length) <= 0x100000000 /\
  r.(target) + r.(er_length) <= 0x100000000.

(** Memory of the map that an image may be copied over. *)
Definition overwritable (st : pmm) (a : Z) : Prop :=
  covers (memmap st) a MEMMAP_USABLE \/ covers (memmap st) a MEMMAP_BOOTLOADER_RECLAIMABLE.

Section facts.
Context (max : nat).

(** A simulated allocation changes nothing, and says whether an entry holds the range. *)
Lemma simulated st base length type ov : length <> 0 ->
  memmap_alloc_range max st base length type ov false true false
  = Ret (match add_overflow base length with None => false | Some top => existsb (holds_range ov base top) (memmap st) end, st).
Proof.
  intros Hl. unfold memmap_alloc_range, memmap_alloc_range_in. rewrite (proj2 (Z.eqb_neq _ _)) by done. cbn [andb].
  destruct (add_overflow base length); cbn; [|by destruct st]. destruct (existsb _ _); cbn; by destruct st.
Qed.

Lemma holds_covers st base length top ov : ov <> 0 -> add_overflow base length = Some top ->
  existsb (holds_range ov base top) (memmap st) = true -> forall a, base <= a < base + length -> covers (memmap st) a ov.
Proof.
  intros Hov Ha He a Hr. apply existsb_exists in He as (e & He & Hh). apply add_overflow_Some in Ha as [-> _].
  unfold holds_range in Hh. rewrite (proj2 (Z.eqb_neq ov 0)) in Hh by done. destruct (Z.eqb_spec (me_type e) ov) as [Het|]; cbn in Hh; [|done].
  destruct (add_overflow (me_base e) (me_length e)) as [top|] eqn:Ea; [|done]. apply add_overflow_Some in Ea as [-> _].
  rewrite !andb_true_iff, !Z.leb_le, Z.ltb_lt in Hh. exists e. split; [by apply list_elem_of_In|]. split; [done|]. unfold inside. lia.
Qed.

Lemma exists_range_spec st tgt len : 0 < len -> exists ok, exists_range max st tgt len = Ret ok /\
  (ok = true -> tgt + len < W64 /\ forall a, tgt <= a < tgt + len -> overwritable st a).
Proof.
  intros Hl. unfold exists_range. rewrite simulated by lia. cbn [mbind outcome_bind].
  destruct (add_overflow tgt len) as [top|] eqn:Ea.
  - pose proof (add_overflow_Some _ _ _ Ea) as [_ Hw].
    destruct (existsb (holds_range MEMMAP_USABLE tgt top) (memmap st)) eqn:Eu.
    + exists true. split; [done|]. intros _. split; [done|]. intros a Hr. left. by eapply (holds_covers st tgt len top).
    + rewrite simulated by lia. rewrite Ea. cbn. eexists. split; [done|]. intros Eb. split; [done|]. intros a Hr. right. by eapply (holds_covers st tgt len top).
  - rewrite simulated by lia. rewrite Ea. by exists false.
Qed.

(** A target the pass accepts, against one range. *)
Record clear_of (st : pmm) (tgt len : Z) (r : elsewhere_range) : Prop := {
  co_high : tgt + len <= 0x100000000;
  co_target : apart tgt len r.(target) r.(er_length);
  co_source : apart tgt len r.(elsewhere) r.(er_length);
  co_exists : exists_range max st tgt len = Ret true
}.

Lemma overlap_spec b1 n1 b2 n2 : 0 < n1 -> 0 < n2 -> elsewhere_overlap_check b1 (b1 + n1) b2 (b2 + n2) = false <-> apart b2 n2 b1 n1.
Proof. intros H1 H2. unfold elsewhere_overlap_check, apart. rewrite andb_false_iff, !Z.ltb_ge. lia. Qed.

Lemma check_ranges_spec st len : 0 < len -> forall ranges tgt, 0 <= tgt < W64 -> Forall range_ok ranges ->
  exists v, check_ranges max st ranges tgt len = Ret v /\
  match v with Fits => Forall (clear_of st tgt len) ranges | Retry tgt' => 0 <= tgt' < W64 | TooHigh => True end.
Proof.
  intros Hl. induction ranges as [|r ranges IH]; intros tgt Ht Hok; cbn [check_ranges]; [by exists Fits|].
  apply Forall_cons in Hok as [(? & ? & ? & ? & ?) Hok]. destruct (Z.ltb_spec 0x100000000 (u64 (tgt + len))); [by exists TooHigh|].
  rewrite !(u64_small (_ + er_length r)) by lia.
  destruct (elsewhere_overlap_check (target r) _ _ _) eqn:E1; [eexists; split; [done|apply u64_range]|].
  destruct (elsewhere_overlap_check (elsewhere r) _ _ _) eqn:E2; [eexists; split; [done|apply u64_range]|].
  destruct (exists_range_spec st tgt len Hl) as (ok & Eex & Hex). rewrite Eex. cbn [mbind outcome_bind].
  destruct ok; cbn [negb]; [|eexists; split; [done|apply u64_range]]. destruct (Hex eq_refl) as [Hw _].
  rewrite u64_small in * by lia. apply overlap_spec in E1; [|lia..]. apply overlap_spec in E2; [|lia..].
  destruct (IH tgt Ht Hok) as (v & -> & Hv). exists v. split; [done|]. destruct v; try done. by constructor.
Qed.

Lemma find_target_spec st len ranges : 0 < len -> Forall range_ok ranges -> forall tries tgt, 0 <= tgt < W64 ->
  exists r, find_target max tries st ranges tgt len = Ret r /\
  match r with Some tgt' => 0 <= tgt' /\ Forall (clear_of st tgt' len) ranges | None => True end.
Proof.
  intros Hl Hok. induction tries as [|tries IH]; intros tgt Ht; cbn [find_target]; [by exists None|].
  destruct (check_ranges_spec st len Hl ranges tgt Ht Hok) as (v & -> & Hv). cbn [mbind outcome_bind].
  destruct v as [|tgt'|]; [exists (Some tgt); split; [done|]; split; [lia|done]|by apply IH|by exists None].
Qed.

(** A free target is taken. *)
Lemma check_ranges_fits st len tgt ranges : 0 < len -> 0 <= tgt -> Forall range_ok ranges -> Forall (clear_of st tgt len) ranges ->
  check_ranges max st ranges tgt len = Ret Fits.
Proof.
  intros Hl Ht. induction ranges as [|r ranges IH]; intros Hok Hc; [done|]. cbn [check_ranges].
  apply Forall_cons in Hok as [(? & ? & ? & ? & ?) Hok]. apply Forall_cons in Hc as [[Hh Hc1 Hc2 Hex] Hc].
  rewrite !u64_small by lia. destruct (Z.ltb_spec 0x100000000 (tgt + len)); [lia|].
  apply overlap_spec in Hc1; [|lia..]. apply overlap_spec in Hc2; [|lia..]. rewrite Hc1, Hc2, Hex. cbn. by apply IH.
Qed.
End facts.

(** The images of [ranges] do not get into each other's way at their targets. *)
Definition targets_apart (r s : elsewhere_range) : Prop := apart r.(target) r.(er_length) s.(target) s.(er_length).

Lemma apart_sym b1 n1 b2 n2 : apart b1 n1 b2 n2 -> apart b2 n2 b1 n1.
Proof. unfold apart. lia. Qed.

Lemma ranges_top_range ranges : forall top, 0 <= top < W64 -> 0 <= ranges_top ranges top < W64.
Proof.
  induction ranges as [|r ranges IH]; intros top Ht; cbn [ranges_top]; [done|]. apply IH. case_match; [apply u64_range|done].
Qed.

(** After at least one range, [elsewhere_append] ends without a panic.  A range that it
    adds lies below 4 GiB in memory of the map that may be overwritten, clear of the
    targets and the sources of the ranges before it, so that targets stay pairwise apart;
    and a target that is asked for and free is the one that is used. *)
Theorem elsewhere_append_places max st ranges source tgt0 len : ranges <> [] -> Forall range_ok ranges -> pairwise targets_apart ranges ->
  0 <= source -> 0 < len -> source + len <= 0x100000000 -> 0 <= tgt0 < W64 ->
  exists res, elsewhere_append max st ranges source tgt0 len = Ret res /\
  (forall tgt ranges', res = Some (tgt, ranges') ->
     ranges' = ranges ++ [{| elsewhere := source; target := tgt; er_length := len |}] /\ Forall range_ok ranges' /\ pairwise targets_apart ranges' /\
     Forall (fun r => apart tgt len r.(elsewhere) r.(er_length)) ranges /\ forall a, tgt <= a < tgt + len -> overwritable st a) /\
  (tgt0 <> W64 - 1 -> Forall (clear_of max st tgt0 len) ranges -> exists ranges', res = Some (tgt0, ranges')).
Proof.
  intros Hne Hok Hpw Hs Hl Hsl Ht0. unfold elsewhere_append.
  set (t1 := if tgt0 =? W64 - 1 then _ else _).
  assert (0 <= t1 < W64) as Ht1 by (unfold t1; case_match; [apply u64_range|done]).
  destruct (find_target_spec max st len ranges Hl Hok (Z.to_nat 0x10000) t1 Ht1) as (r & Er & Hr).
  rewrite Er. cbn [mbind outcome_bind]. eexists. split; [done|]. split.
  - intros tgt ranges' Heq. destruct r as [tgt'|]; [|done]. injection Heq as -> <-. destruct Hr as [Ht Hc]. rewrite Forall_forall in Hc.
    assert (exists r, r ∈ ranges) as [r Hin]. { destruct ranges as [|r ?]; [done|]. exists r. left. }
    destruct (Hc r Hin) as [Hhigh _ _ Hex]. split_and!; [done| | | |].
    + apply Forall_app. split; [done|]. constructor; [|constructor]. unfold range_ok. cbn. lia.
    + apply pairwise_app. split_and!; [|done|repeat constructor]. intros x y Hx [->|?%not_elem_of_nil]%elem_of_cons; [|done].
      apply apart_sym, (Hc x Hx).
    + apply Forall_forall. intros x Hx. apply (Hc x Hx).
    + destruct (exists_range_spec max st tgt len Hl) as (ok & E & Hcov). rewrite Hex in E. injection E as <-. by apply Hcov.
  - intros Hn Hc. assert (t1 = tgt0) as Et by (unfold t1; by rewrite (proj2 (Z.eqb_neq _ _))). rewrite Et in *.
    destruct (Z.to_nat 0x10000) as [|n] eqn:En; [lia|]. cbn [find_target] in Er. rewrite check_ranges_fits in Er by (done || lia).
    injection Er as <-. eauto.
Qed.

Definition demo_range : elsewhere_range := {| elsewhere := 0x500000; target := 0x100000; er_length := 0x4000 |}.

Lemma elsewhere_append_places_witness : exists tgt ranges',
  elsewhere_append 512 demo [demo_range] 0x600000 0x102000 0x2000 = Ret (Some (tgt, ranges')) /\ pairwise targets_apart ranges' /\ tgt = 0x104000.
Proof.
  destruct (elsewhere_append_places 512 demo [demo_range] 0x600000 0x102000 0x2000) as (res & E & Hr & _);
    [done|repeat constructor; unfold demo_range; cbn; lia|repeat constructor|lia..|].
  destruct res as [[tgt ranges']|]; [|vm_compute in E; discriminate]. exists tgt, ranges'. split; [exact E|].
  split; [by apply (Hr tgt ranges')|]. vm_compute in E. by injection E as <- _.
Defined.

(** ** The copies *)

Lemma movsb_outside n : forall src dst m a, ~ dst <= a < dst + Z.of_nat n -> movsb n src dst m a = m a.
Proof.
  induction n as [|n IH]; intros src dst m a Ha; cbn [movsb]; [done|]. rewrite IH by lia. by rewrite (proj2 (Z.eqb_neq _ _)) by lia.
Qed.

Lemma movsb_copies n : forall src dst m k, apart src (Z.of_nat n) dst (Z.of_nat n) -> 0 <= k < Z.of_nat n ->
  movsb n src dst m (dst + k) = m (src + k).
Proof.
  induction n as [|n IH]; intros src dst m k Hap Hk; [lia|]. cbn [movsb]. destruct (decide (k = 0)) as [->|].
  - rewrite movsb_outside by lia. by rewrite !Z.add_0_r, Z.eqb_refl.
  - replace (dst + k) with (dst + 1 + (k - 1)) by lia. rewrite IH; [|unfold apart in *; lia..].
    rewrite (proj2 (Z.eqb_neq _ _)) by (unfold apart in *; lia). f_equal. lia.
Qed.

(** [r] is copied before [s]: it must not overwrite the source of [s]. *)
Definition copied_first (r s : elsewhere_range) : Prop :=
  targets_apart r s /\ apart r.(target) r.(er_length) s.(elsewhere) s.(er_length).

Lemma reloc_stub_outside ranges : forall m a, Forall (fun r => 0 < r.(er_length) /\ ~ r.(target) <= a < r.(target) + r.(er_length)) ranges ->
  reloc_stub ranges m a = m a.
Proof.
  induction ranges as [|r ranges IH]; intros m a Hf; [done|]. apply Forall_cons in Hf as [[Hl Ha] Hf]. cbn [reloc_stub].
  rewrite IH by done. apply movsb_outside. lia.
Qed.

(** the stub moves every image from where it was kept to its target, if targets are
    apart, no range overlaps itself, and no target overlaps the source of a range that is
    copied after it. *)
Theorem reloc_stub_places ranges m r k : Forall range_ok ranges -> pairwise copied_first ranges ->
  Forall (fun r => apart r.(elsewhere) r.(er_length) r.(target) r.(er_length)) ranges ->
  r ∈ ranges -> 0 <= k < r.(er_length) -> reloc_stub ranges m (r.(target) + k) = m (r.(elsewhere) + k).
Proof.
  revert m. induction ranges as [|q ranges IH]; intros m Hok Hpw Hown Hr Hk; [by apply not_elem_of_nil in Hr|].
  apply Forall_cons in Hok as [Hq Hok]. apply pairwise_cons in Hpw as [Hqs Hpw]. apply Forall_cons in Hown as [Hqo Hown].
  destruct Hq as (? & ? & ? & ? & ?). rewrite Forall_forall in Hqs. rewrite Forall_forall in Hok. cbn [reloc_stub].
  apply elem_of_cons in Hr as [->|Hr].
  - rewrite reloc_stub_outside.
    + rewrite movsb_copies; [done|by rewrite !Z2Nat.id by lia|lia].
    + apply Forall_forall. intros s Hs. destruct (Hqs s Hs) as [Hap _]. destruct (Hok s Hs) as (? & ? & ? & ? & ?). unfold targets_apart, apart in Hap. lia.
  - rewrite IH; [|by apply Forall_forall|done..]. apply movsb_outside. destruct (Hqs r Hr) as [_ Hap]. unfold apart in Hap. lia.
Qed.

Lemma reloc_stub_places_witness : exists r, r ∈ [demo_range; {| elsewhere := 0x600000; target := 0x104000; er_length := 0x2000 |}] /\
  reloc_stub [demo_range; {| elsewhere := 0x600000; target := 0x104000; er_length := 0x2000 |}] (fun a => a) (target r + 5) = elsewhere r + 5.
Proof.
  exists demo_range. split; [left|]. apply (reloc_stub_places _ (fun a => a) demo_range 5); [| | |left|cbn; lia].
  - repeat constructor; unfold demo_range; cbn; lia.
  - repeat constructor; unfold demo_range, apart; cbn; lia.
  - repeat constructor; unfold demo_range, apart; cbn; lia.
Defined.

Definition small : pmm := Pmm [Entry 0x10000 0x10000 1; Entry 0x100000 0x9000 1] false 0x1000 false (fun _ => 0).

(** The kernel and the boot information of a small machine, placed and copied. *)
Definition small_boot (m : Z -> Z) : bool :=
  match ext_mem_alloc 512 small 0x4000 with
  | Ret (kernel, st1) =>
      match ext_mem_alloc 512 st1 0x2000 with
      | Ret (info, st2) =>
          match elsewhere_append 512 st2 [{| elsewhere := kernel; target := 0x100000; er_length := 0x4000 |}] info 0x10000 0x2000 with
          | Ret (Some (tgt, rs)) => (tgt =? 0x10000) && negb (reloc_stub rs m 0x10000 =? m info)
          | _ => false
          end
      | _ => false
      end
  | _ => false
  end.

Lemma small_boot_lost : small_boot (fun a => if a =? 0x103000 then 1 else 0) = true.
Proof. vm_compute. reflexivity. Qed.

(** [elsewhere_append] does not compare the source of the new range with the targets
    before it.  On a small machine the allocator puts the boot information where the
    kernel will go, the range is accepted, and the stub copies bytes of the kernel instead
    of the boot information. *)
Theorem append_source_overwritten : exists kernel info st1 st2 rs m,
  ext_mem_alloc 512 small 0x4000 = Ret (kernel, st1) /\ ext_mem_alloc 512 st1 0x2000 = Ret (info, st2) /\
  elsewhere_append 512 st2 [{| elsewhere := kernel; target := 0x100000; er_length := 0x4000 |}] info 0x10000 0x2000 = Ret (Some (0x10000, rs)) /\
  reloc_stub rs m 0x10000 <> m info.
Proof.
  assert (exists m, small_boot m = true) as [m H] by (eexists; exact small_boot_lost). unfold small_boot in H.
  destruct (ext_mem_alloc 512 small 0x4000) as [[kernel st1]|?| |] eqn:E1; [|done..].
  destruct (ext_mem_alloc 512 st1 0x2000) as [[info st2]|?| |] eqn:E2; [|done..].
  destruct (elsewhere_append _ _ _ _ _ _) as [[[tgt rs]|]|?| |] eqn:E3; [|done..].
  apply andb_true_iff in H as [->%Z.eqb_eq H]. apply negb_true_iff, Z.eqb_neq in H. exists kernel, info, st1, st2, rs, m.
  split; [reflexivity|]. exact (conj E2 (conj E3 H)).
Qed.
