(* ===== verification/Elf.v ===== *)
(** * ELF executables: common/lib/elf.c

    The loader of 64-bit executables, for the four architectures: the checks of the
    program headers, the placing of the image in memory the allocator provides, its
    relocation, and the ranges reported to the boot protocol; and the loaders that
    put an image aside for a protocol to copy in place.

    The file is a list of bytes, and a read outside of it is [Undef].  The image is
    written to [ram] of the allocator's state.  The array of relocations is a list
    with a bounds check on every access; the blocks that hold it are allocated and
    freed where the code does so.  Pointers and [size_t] are 64 bits wide. *)

From S2P Require Import Prelude Bytes Libc Memmap Pmm Elsewhere.

(** ** Constants *)

Definition ET_EXEC : Z := 2.
Definition ET_DYN : Z := 3.
Definition ELF_PT_LOAD : Z := 1.
Definition ELF_PT_DYNAMIC : Z := 2.
Definition DT_NULL : Z := 0.
Definition DT_NEEDED : Z := 1.
Definition DT_PLTRELSZ : Z := 2.
Definition DT_STRTAB : Z := 5.
Definition DT_SYMTAB : Z := 6.
Definition DT_RELA : Z := 7.
Definition DT_RELASZ : Z := 8.
Definition DT_RELAENT : Z := 9.
Definition DT_SYMENT : Z := 11.
Definition DT_PLTREL : Z := 20.
Definition DT_JMPREL : Z := 23.
Definition DT_RELRSZ : Z := 35.
Definition DT_RELR : Z := 36.
Definition DT_RELRENT : Z := 37.
Definition R_INTERNAL_RELR : Z := 0xfffffff0.
Definition STB_WEAK : Z := 2.
Definition SHN_UNDEF : Z := 0.
Definition FIXED_HIGHER_HALF_OFFSET_64 : Z := 0xffffffff80000000.

(** What differs between architectures. *)
Record elf_target := {
  ARCH : Z;
  class_checked : bool;   (** the machine is only compared in 64-bit files *)
  arch_msg : string;
  R_NONE : Z;
  R_RELATIVE : Z;
  R_SLOT : list Z;        (** [GLOB_DAT] and [JUMP_SLOT] *)
  R_64 : Z;
  slot_addend : bool
}.

Definition elf_x86_64 : elf_target := {|
  ARCH := 0x3e; class_checked := false; arch_msg := "elf: Not an x86-64 ELF file.";
  R_NONE := 0; R_RELATIVE := 8; R_SLOT := [6; 7]; R_64 := 1; slot_addend := false |}.
Definition elf_aarch64 : elf_target := {|
  ARCH := 0xb7; class_checked := false; arch_msg := "elf: Not an aarch64 ELF file.";
  R_NONE := 0; R_RELATIVE := 0x403; R_SLOT := [0x401; 0x402]; R_64 := 0x101; slot_addend := true |}.
Definition elf_riscv : elf_target := {|
  ARCH := 0xf3; class_checked := true; arch_msg := "elf: Not a riscv64 ELF file.";
  R_NONE := 0; R_RELATIVE := 3; R_SLOT := [5]; R_64 := 2; slot_addend := false |}.
Definition elf_loongarch : elf_target := {|
  ARCH := 0x102; class_checked := true; arch_msg := "elf: Not a loongarch64 ELF file.";
  R_NONE := 0; R_RELATIVE := 3; R_SLOT := [5]; R_64 := 2; slot_addend := false |}.

(** ** Reading the file *)

Definition fetch (elf : list Z) (off n : Z) : outcome (list Z) :=
  if (0 <=? off) && (off + n <=? Z.of_nat (length elf)) then Ret (slice (Z.to_nat off) (Z.to_nat n) elf) else Undef.

Definition rd (elf : list Z) (off n : Z) : outcome Z := bs ← fetch elf off n; Ret (le_load bs).

(** The members of [struct elf64_hdr]. *)
Definition e_ident (elf : list Z) := fetch elf 0 16.
Definition e_type (elf : list Z) := rd elf 16 2.
Definition e_machine (elf : list Z) := rd elf 18 2.
Definition e_entry (elf : list Z) := rd elf 24 8.
Definition e_phoff (elf : list Z) := rd elf 32 8.
Definition e_phdr_size (elf : list Z) := rd elf 54 2.
Definition e_ph_num (elf : list Z) := rd elf 56 2.

Record elf64_phdr := {
  p_type : Z; p_flags : Z; p_offset : Z; p_vaddr : Z; p_paddr : Z; p_filesz : Z; p_memsz : Z; p_align : Z
}.

#[global] Instance elf64_phdr_eq_dec : EqDecision elf64_phdr.
Proof. solve_decision. Defined.

Definition load_phdr (bs : list Z) : elf64_phdr :=
  {| p_type := field 0 4 bs; p_flags := field 4 4 bs; p_offset := field 8 8 bs; p_vaddr := field 16 8 bs;
     p_paddr := field 24 8 bs; p_filesz := field 32 8 bs; p_memsz := field 40 8 bs; p_align := field 48 8 bs |}.

(** The program headers from number [i], [k] of them.  The table lies in the file:
    the loaders check that first.  Then the order of the reads does not matter, and
    the loops of the code become recursion on the list. *)
Fixpoint read_phdrs (elf : list Z) (phoff phdr_size : Z) (k : nat) (i : Z) : outcome (list elf64_phdr) :=
  match k with
  | O => Ret []
  | S k =>
      bs ← fetch elf (u64 (phoff + i * phdr_size)) 56;
      rest ← read_phdrs elf phoff phdr_size k (i + 1);
      Ret (load_phdr bs :: rest)
  end.

(** [struct elf32_phdr], with the members of the 64-bit one. *)
Definition load_phdr32 (bs : list Z) : elf64_phdr :=
  {| p_type := field 0 4 bs; p_flags := field 24 4 bs; p_offset := field 4 4 bs; p_vaddr := field 8 4 bs;
     p_paddr := field 12 4 bs; p_filesz := field 16 4 bs; p_memsz := field 20 4 bs; p_align := field 28 4 bs |}.

Fixpoint read_phdrs32 (elf : list Z) (phoff phdr_size : Z) (k : nat) (i : Z) : outcome (list elf64_phdr) :=
  match k with
  | O => Ret []
  | S k =>
      bs ← fetch elf (u32 (phoff + i * phdr_size)) 32;
      rest ← read_phdrs32 elf phoff phdr_size k (i + 1);
      Ret (load_phdr32 bs :: rest)
  end.

Record elf64_rela := { r_addr : Z; r_info : Z; r_symbol : Z; r_addend : Z }.
Definition load_rela (bs : list Z) : elf64_rela :=
  {| r_addr := field 0 8 bs; r_info := field 8 4 bs; r_symbol := field 12 4 bs; r_addend := field 16 8 bs |}.

Record elf64_sym := { st_name : Z; st_info : Z; st_shndx : Z; st_value : Z }.
Definition load_sym (bs : list Z) : elf64_sym :=
  {| st_name := field 0 4 bs; st_info := field 4 1 bs; st_shndx := field 6 2 bs; st_value := field 8 8 bs |}.

Definition is_load (ph : elf64_phdr) : bool := (ph.(p_type) =? ELF_PT_LOAD) && negb (ph.(p_memsz) =? 0).

Definition magic : list Z := [127; 69; 76; 70].

Definition elf64_validate (t : elf_target) (elf : list Z) : outcome () :=
  ident ← e_ident elf;
  if negb (strncmp ident magic 4 =? 0) then Panic "elf: Not a valid ELF file."
  else if negb (field 5 1 ident =? 1) then Panic "elf: Not a Little-endian ELF file."
  else
    machine ← e_machine elf;
    if negb (machine =? t.(ARCH)) && (negb t.(class_checked) || (field 4 1 ident =? 2)) then Panic t.(arch_msg)
    else Ret ().

Definition elf32_validate (elf : list Z) : outcome () :=
  ident ← e_ident elf;
  if negb (strncmp ident magic 4 =? 0) then Panic "elf: Not a valid ELF file."
  else if negb (field 5 1 ident =? 1) then Panic "elf: Not a Little-endian ELF file."
  else
    machine ← e_machine elf;
    if negb (machine =? 3) then Panic "elf: Not an IA-32 ELF file." else Ret ().

(** Where the section headers are. *)
Record elf_section_hdr_info := { section_entry_size : Z; str_section_idx : Z; sec_num : Z; section_offset : Z }.

Definition elf64_section_hdr_info (t : elf_target) (elf : list Z) : outcome elf_section_hdr_info :=
  _ ← elf64_validate t elf;
  num ← rd elf 60 2; size ← rd elf 58 2; idx ← rd elf 62 2; off ← rd elf 40 8;
  Ret {| section_entry_size := size; str_section_idx := idx; sec_num := num; section_offset := off |}.

Definition elf32_section_hdr_info (elf : list Z) : outcome elf_section_hdr_info :=
  _ ← elf32_validate elf;
  num ← rd elf 48 2; size ← rd elf 46 2; idx ← rd elf 50 2; off ← rd elf 32 4;
  Ret {| section_entry_size := size; str_section_idx := idx; sec_num := num; section_offset := off |}.

Definition elf_bits (elf : list Z) : outcome Z :=
  ident ← e_ident elf;
  if negb (strncmp ident magic 4 =? 0) then Ret (-1)
  else
    machine ← e_machine elf;
    if (machine =? 0x3e) || (machine =? 0xb7) then Ret 64
    else if (machine =? 0xf3) || (machine =? 0x102) then
      (if field 4 1 ident =? 2 then Ret 64 else if field 4 1 ident =? 1 then Ret 32 else Ret (-1))
    else if machine =? 3 then Ret 32 else Ret (-1).

Definition phdr_size_msg : string := "elf: phdr_size < sizeof(struct elf64_phdr)".

Definition find_dynamic (phdrs : list elf64_phdr) : option elf64_phdr :=
  List.find (fun ph => ph.(p_type) =? ELF_PT_DYNAMIC) phdrs.

Definition elf64_is_relocatable (phdr_size type : Z) (phdrs : list elf64_phdr) : outcome bool :=
  if phdr_size <? 56 then Panic phdr_size_msg
  else if negb (type =? ET_DYN) then Ret false
  else match find_dynamic phdrs with
       | None => Panic "elf: ELF file type is ET_DYN, but PT_DYNAMIC segment missing"
       | Some ph =>
           if ph.(p_filesz) =? 0 then Panic "elf: ELF file type is ET_DYN, but PT_DYNAMIC segment has 0 size"
           else Ret true
       end.

(** ** The dynamic segment *)

Record dyn_info := {
  rela_offset : Z; rela_size : Z; rela_ent : Z;
  relr_offset : Z; relr_size : Z; relr_ent : Z;
  symtab_offset : Z; symtab_ent : Z; strtab_offset : Z;
  dt_pltrel : Z; dt_pltrelsz : Z; dt_jmprel : Z
}.

Definition no_dyn : dyn_info :=
  {| rela_offset := 0; rela_size := 0; rela_ent := 0; relr_offset := 0; relr_size := 0; relr_ent := 0;
     symtab_offset := 0; symtab_ent := 0; strtab_offset := 0; dt_pltrel := 0; dt_pltrelsz := 0; dt_jmprel := 0 |}.

(** The value of a member: the new one where the tag says so. *)
Definition dyn_set (d : dyn_info) (tag un : Z) : dyn_info :=
  let pick t old := if tag =? t then un else old in
  {| rela_offset := pick DT_RELA d.(rela_offset); rela_size := pick DT_RELASZ d.(rela_size);
     rela_ent := pick DT_RELAENT d.(rela_ent); relr_offset := pick DT_RELR d.(relr_offset);
     relr_size := pick DT_RELRSZ d.(relr_size); relr_ent := pick DT_RELRENT d.(relr_ent);
     symtab_offset := pick DT_SYMTAB d.(symtab_offset); symtab_ent := pick DT_SYMENT d.(symtab_ent);
     strtab_offset := pick DT_STRTAB d.(strtab_offset); dt_pltrel := pick DT_PLTREL d.(dt_pltrel);
     dt_pltrelsz := pick DT_PLTRELSZ d.(dt_pltrelsz); dt_jmprel := pick DT_JMPREL d.(dt_jmprel) |}.

(** The loop over the [n] entries at [off].  The counter [j] is a [uint16_t]. *)
Fixpoint dyn_scan (fuel : nat) (elf : list Z) (off n j : Z) (d : dyn_info) : outcome dyn_info :=
  if j <? n then
    match fuel with
    | O => Diverge
    | S fuel =>
        bs ← fetch elf (u64 (off + j * 16)) 16;
        let tag := field 0 8 bs in
        let un := field 8 8 bs in
        if tag =? DT_NULL then Ret d
        else if tag =? DT_NEEDED then Panic "elf: ELF file attempts to load a dynamically linked library"
        else if (tag =? DT_SYMENT) && (un <? 24) then Panic "elf: symtab_ent < sizeof(struct elf64_sym)"
        else dyn_scan fuel elf off n (u16 (j + 1)) (dyn_set d tag un)
    end
  else Ret d.

Definition read_dynamic (elf : list Z) (phdrs : list elf64_phdr) : outcome dyn_info :=
  match find_dynamic phdrs with
  | None => Ret no_dyn
  | Some ph => let n := ph.(p_filesz) / 16 in dyn_scan (Z.to_nat (Z.min n W16)) elf ph.(p_offset) n 0 no_dyn
  end.

(** Where in the file a virtual address is, and how many bytes its segment has from
    there on. *)
Definition holds (addr : Z) (ph : elf64_phdr) : bool :=
  (ph.(p_vaddr) <=? addr) && (addr <? u64 (ph.(p_vaddr) + ph.(p_filesz))).

Definition file_offset (phdrs : list elf64_phdr) (msg : string) (addr : Z) : outcome (Z * Z) :=
  if addr =? 0 then Ret (0, 0)
  else match List.find (holds addr) phdrs with
       | None => Panic msg
       | Some ph => Ret (u64 (u64 (addr - ph.(p_vaddr)) + ph.(p_offset)), u64 (ph.(p_filesz) - u64 (addr - ph.(p_vaddr))))
       end.

(** ** The array of relocations *)

(** A slot of the array points to a block of its own, or into the file. *)
Inductive reloc_slot :=
| Scratch (ptr addr : Z)
| InFile (off : Z).

Definition popcount (x : Z) : Z := Z.of_nat (length (List.filter (fun i => Z.testbit x i) (seqZ 0 64))).

(** The entries of the RELR table from [off], [k] of them, and how many relocations
    they stand for. *)
Fixpoint relr_count_loop (k : nat) (elf : list Z) (off count : Z) : outcome Z :=
  match k with
  | O => Ret count
  | S k =>
      entry ← rd elf off 8;
      relr_count_loop k elf (off + 8) (if Z.land entry 1 =? 0 then u64 (count + 1) else u64 (count + (popcount entry - 1)))
  end.

(** [relocs[i]->r_addr = addr] *)
Definition set_addr (relocs : list (option reloc_slot)) (i : nat) (addr : Z) : outcome (list (option reloc_slot)) :=
  s ← get relocs i;
  match s with
  | Some (Scratch ptr _) => put relocs i (Some (Scratch ptr addr))
  | _ => Undef
  end.

(** [for (j = 0; (entry >>= 1) != 0; j++)] *)
Fixpoint relr_bits (fuel : nat) (entry j where_ : Z) (i : nat) (relocs : list (option reloc_slot))
    : outcome (nat * list (option reloc_slot)) :=
  let entry := Z.shiftr entry 1 in
  if entry =? 0 then Ret (i, relocs)
  else match fuel with
       | O => Diverge
       | S fuel =>
           if negb (Z.land entry 1 =? 0) then
             relocs ← set_addr relocs i (u64 (where_ + j * 8));
             relr_bits fuel entry (j + 1) where_ (S i) relocs
           else relr_bits fuel entry (j + 1) where_ i relocs
       end.

Fixpoint relr_fill (k : nat) (elf : list Z) (off where_ : Z) (i : nat) (relocs : list (option reloc_slot))
    : outcome (list (option reloc_slot)) :=
  match k with
  | O => Ret relocs
  | S k =>
      entry ← rd elf off 8;
      if Z.land entry 1 =? 0 then
        relocs ← set_addr relocs i entry;
        relr_fill k elf (off + 8) (u64 (entry + 8)) (S i) relocs
      else
        r ← relr_bits 64 entry 0 where_ i relocs;
        let '(i, relocs) := (r : nat * list (option reloc_slot)) in
        relr_fill k elf (off + 8) (u64 (where_ + 63 * 8)) i relocs
  end.

(** [for (offset = 0; offset < size; offset += ent) relocs[i++] = elf + (base + offset);] *)
Fixpoint rela_fill (fuel : nat) (base size ent offset : Z) (i : nat) (relocs : list (option reloc_slot))
    : outcome (list (option reloc_slot)) :=
  if offset <? size then
    match fuel with
    | O => Diverge
    | S fuel =>
        relocs ← put relocs i (Some (InFile (u64 (base + offset))));
        rela_fill fuel base size ent (u64 (offset + ent)) (S i) relocs
    end
  else Ret relocs.

(** ** Applying one relocation *)

Definition read64 (r : Z -> Z) (p : Z) : Z := le_load (r <$> seqZ p 8).
Definition write64 (r : Z -> Z) (p x : Z) : Z -> Z :=
  fun a => if (p <=? a) && (a <? p + 8) then (x / W8 ^ (a - p)) `mod` W8 else r a.

(** [relocs[i]], through the pointer. *)
Definition deref (elf : list Z) (s : option reloc_slot) : outcome elf64_rela :=
  match s with
  | None => Undef
  | Some (Scratch _ addr) => Ret {| r_addr := addr; r_info := R_INTERNAL_RELR; r_symbol := 0; r_addend := 0 |}
  | Some (InFile off) => bs ← fetch elf off 24; Ret (load_rela bs)
  end.

(** The tables after the translation of their addresses. *)
Record reloc_env := {
  sym_off : Z; sym_ent : Z; sym_size : Z;
  str_off : Z; str_size : Z
}.

(** The value of the symbol of a relocation; [None]: undefined and weak. *)
Definition symbol_value (elf : list Z) (env : reloc_env) (r : elf64_rela) : outcome (option Z) :=
  if (env.(sym_off) =? 0) || (env.(sym_ent) =? 0) then Panic "elf: Relocation requires symbol table but none present"
  else if env.(sym_size) =? 0 then Panic "elf: Symtab vaddr translation failed"
  else
    let sym_offset := u64 (env.(sym_ent) * r.(r_symbol)) in
    if env.(sym_size) <? u64 (sym_offset + 24) then Panic "elf: Symbol index out of bounds"
    else
      bs ← fetch elf (env.(sym_off) + sym_offset) 24;
      let s := load_sym bs in
      if s.(st_shndx) =? SHN_UNDEF then
        if Z.shiftr s.(st_info) 4 =? STB_WEAK then Ret None
        else if env.(str_size) =? 0 then Panic "elf: Strtab vaddr translation failed"
        else if env.(str_size) <=? s.(st_name) then Panic "elf: Symbol name offset out of bounds"
        else Panic "elf: Unresolved symbol"
      else Ret (Some s.(st_value)).

(** What a relocation writes: [None], nothing. *)
Definition reloc_value (t : elf_target) (elf : list Z) (env : reloc_env) (slide old : Z) (r : elf64_rela) : outcome (option Z) :=
  if r.(r_info) =? t.(R_NONE) then Ret None
  else if r.(r_info) =? t.(R_RELATIVE) then Ret (Some (u64 (slide + r.(r_addend))))
  else if r.(r_info) =? R_INTERNAL_RELR then Ret (Some (u64 (old + slide)))
  else if bool_decide (r.(r_info) ∈ t.(R_SLOT)) then
    v ← symbol_value elf env r;
    Ret (Some match v with
              | None => 0
              | Some v => u64 (slide + v + (if t.(slot_addend) then r.(r_addend) else 0))
              end)
  else if r.(r_info) =? t.(R_64) then
    v ← symbol_value elf env r;
    Ret (Some match v with None => 0 | Some v => u64 (slide + v + r.(r_addend)) end)
  else Panic "elf: Unknown relocation type".

(** The word at [r_addr] lies in the segment of [size] bytes at [vaddr]. *)
Definition in_segment (vaddr size addr : Z) : bool :=
  (vaddr <=? addr) && (8 <=? size) && (addr <=? u64 (vaddr + size - 8)).

Definition apply_one (t : elf_target) (elf : list Z) (env : reloc_env) (buffer vaddr size slide : Z) (s : option reloc_slot)
    (mem : Z -> Z) : outcome (Z -> Z) :=
  r ← deref elf s;
  if negb (in_segment vaddr size r.(r_addr)) then Ret mem
  else
    let ptr := u64 (u64 (buffer - vaddr) + r.(r_addr)) in
    v ← reloc_value t elf env slide (read64 mem ptr) r;
    Ret match v with None => mem | Some x => write64 mem ptr x end.

Fixpoint apply_all (t : elf_target) (elf : list Z) (env : reloc_env) (buffer vaddr size slide : Z)
    (relocs : list (option reloc_slot)) (mem : Z -> Z) : outcome (Z -> Z) :=
  match relocs with
  | [] => Ret mem
  | s :: relocs =>
      mem ← apply_one t elf env buffer vaddr size slide s mem;
      apply_all t elf env buffer vaddr size slide relocs mem
  end.

(** ** elf64_apply_relocations *)

Section load.
Context (memmap_max_entries : nat) (t : elf_target).

#[local] Abbreviation alloc := (ext_mem_alloc memmap_max_entries).
#[local] Abbreviation free := (pmm_free memmap_max_entries).

(** The bytes of a block that was asked for with [count]: rounding up to pages can
    wrap around, and then the block is empty. *)
Definition block_size (count : Z) : Z := Z.min count (ALIGN_UP count 4096).

(** Blocks for [k] relocations of the RELR table, from slot [i]. *)
Fixpoint alloc_relrs (k i : nat) (relocs : list (option reloc_slot)) (st : pmm) : outcome (list (option reloc_slot) * pmm) :=
  match k with
  | O => Ret (relocs, st)
  | S k =>
      r ← alloc st 24; let '(ptr, st) := (r : Z * pmm) in
      relocs ← put relocs i (Some (Scratch ptr 0));
      alloc_relrs k (S i) relocs st
  end.

Fixpoint free_relrs (relocs : list (option reloc_slot)) (st : pmm) : outcome pmm :=
  match relocs with
  | [] => Ret st
  | Some (Scratch ptr _) :: relocs => st ← free st ptr 24; free_relrs relocs st
  | Some (InFile off) :: relocs => Undef
  | None :: relocs => Undef
  end.

(** The number of relocations of the RELR table, and of all tables. *)
Definition count_relocs (elf : list Z) (d : dyn_info) (relr_off : Z) : outcome (Z * Z) :=
  relr_count ← (if d.(relr_size) =? 0 then Ret 0
                else if negb (d.(relr_ent) =? 8) then Panic "elf: relr_ent != 8"
                else relr_count_loop (Z.to_nat (d.(relr_size) / 8)) elf relr_off 0);
  relocs_i ← (if d.(rela_size) =? 0 then Ret relr_count
              else if d.(rela_ent) <? 24 then Panic "elf: rela_ent < sizeof(struct elf64_rela)"
              else Ret (u64 (relr_count + d.(rela_size) / d.(rela_ent))));
  relocs_i ← (if d.(dt_pltrelsz) =? 0 then Ret relocs_i
              else if negb (d.(dt_pltrel) =? DT_RELA) then Panic "elf: dt_pltrel != DT_RELA"
              else if d.(rela_ent) =? 0 then Panic "elf: dt_pltrelsz != 0 but rela_ent == 0"
              else Ret (u64 (relocs_i + d.(dt_pltrelsz) / d.(rela_ent))));
  Ret (relr_count, relocs_i).

(** The array, filled from the three tables. *)
Definition fill_relocs (elf : list Z) (d : dyn_info) (relr_off rela_off jmprel relr_count slots : Z) (st : pmm)
    : outcome (list (option reloc_slot) * pmm) :=
  let relocs := replicate (Z.to_nat slots) None in
  r ← (if d.(relr_size) =? 0 then Ret (relocs, st)
       else
         r ← alloc_relrs (Z.to_nat relr_count) 0 relocs st; let '(relocs, st) := (r : list (option reloc_slot) * pmm) in
         relocs ← relr_fill (Z.to_nat (d.(relr_size) / 8)) elf relr_off 0 0 relocs;
         Ret (relocs, st));
  let '(relocs, st) := (r : list (option reloc_slot) * pmm) in
  relocs ← (if d.(rela_size) =? 0 then Ret relocs
            else rela_fill (S (Z.to_nat slots)) rela_off d.(rela_size) d.(rela_ent) 0 (Z.to_nat relr_count) relocs);
  relocs ← (if d.(dt_pltrelsz) =? 0 then Ret relocs
            else rela_fill (S (Z.to_nat slots)) jmprel d.(dt_pltrelsz) d.(rela_ent) 0
                   (Z.to_nat (u64 (relr_count + d.(rela_size) / d.(rela_ent)))) relocs);
  Ret (relocs, st).

Definition elf64_apply_relocations (elf : list Z) (phdr_size : Z) (phdrs : list elf64_phdr)
    (buffer vaddr size slide : Z) (st : pmm) : outcome pmm :=
  if phdr_size <? 56 then Panic phdr_size_msg
  else
    d ← read_dynamic elf phdrs;
    rela ← file_offset phdrs "elf: RELA vaddr not in any PT_LOAD segment" d.(rela_offset);
    relr ← file_offset phdrs "elf: RELR vaddr not in any PT_LOAD segment" d.(relr_offset);
    symtab ← file_offset phdrs "elf: SYMTAB vaddr not in any PT_LOAD segment" d.(symtab_offset);
    strtab ← file_offset phdrs "elf: STRTAB vaddr not in any PT_LOAD segment" d.(strtab_offset);
    jmprel ← file_offset phdrs "elf: JMPREL vaddr not in any PT_LOAD segment" d.(dt_jmprel);
    let env := {| sym_off := symtab.1; sym_ent := d.(symtab_ent); sym_size := symtab.2;
                  str_off := strtab.1; str_size := strtab.2 |} in
    counts ← count_relocs elf d relr.1; let '(relr_count, relocs_i) := (counts : Z * Z) in
    r ← alloc st (u64 (relocs_i * 8)); let '(array, st) := (r : Z * pmm) in
    r ← fill_relocs elf d relr.1 rela.1 jmprel.1 relr_count (block_size (u64 (relocs_i * 8)) / 8) st;
    let '(relocs, st) := (r : list (option reloc_slot) * pmm) in
    mem ← apply_all t elf env buffer vaddr size slide (take (Z.to_nat relocs_i) relocs) (ram st);
    st ← free_relrs (take (Z.to_nat relr_count) relocs) (set_ram mem st);
    free st array (u64 (relocs_i * 8)).

(** ** elf64_load *)

Fixpoint max_align_loop (phdrs : list elf64_phdr) (ret : Z) : outcome Z :=
  match phdrs with
  | [] => if ret =? 0 then Panic "elf: Executable has no loadable segments" else Ret ret
  | ph :: phdrs =>
      if negb (is_load ph) then max_align_loop phdrs ret
      else if (1 <? ph.(p_align)) && negb (Z.land ph.(p_align) (ph.(p_align) - 1) =? 0) then Panic "elf: p_align is not a power of 2"
      else max_align_loop phdrs (if ret <? ph.(p_align) then ph.(p_align) else ret)
  end.

Definition elf64_max_align (phdr_size : Z) (phdrs : list elf64_phdr) : outcome Z :=
  if phdr_size <? 56 then Panic phdr_size_msg else max_align_loop phdrs 0.

Definition overlap_msg : string := "elf: Attempted to load ELF file with overlapping PHDRs".
Definition perms_msg : string :=
  "elf: Attempted to load ELF file with PHDRs with different permissions sharing the same memory page.".
Definition end_msg : string := "elf: p_vaddr + p_memsz overflow".

(** The check of one header against the others; [j] is the number of the first of
    [phdrs], [i] that of [ph]. *)
Fixpoint check_against (want_ranges is_reloc : bool) (ph : elf64_phdr) (phdr_end : Z) (i j : nat) (phdrs : list elf64_phdr) : outcome () :=
  match phdrs with
  | [] => Ret ()
  | ph_in :: phdrs =>
      let next := check_against want_ranges is_reloc ph phdr_end i (S j) phdrs in
      if negb (is_load ph_in) then next
      else if (ph_in.(p_vaddr) <? FIXED_HIGHER_HALF_OFFSET_64) && negb is_reloc then next
      else if decide (i = j) then next
      else match add_overflow ph_in.(p_vaddr) ph_in.(p_memsz) with
           | None => Panic end_msg
           | Some phdr_in_end =>
               if ((ph.(p_vaddr) <=? ph_in.(p_vaddr)) && (ph_in.(p_vaddr) <? phdr_end))
                  || ((ph.(p_vaddr) <? phdr_in_end) && (phdr_in_end <=? phdr_end)) then Panic overlap_msg
               else if want_ranges then
                 let base := ALIGN_DOWN ph.(p_vaddr) 4096 in
                 let top := ALIGN_UP phdr_end 4096 in
                 let base_in := ALIGN_DOWN ph_in.(p_vaddr) 4096 in
                 let top_in := ALIGN_UP phdr_in_end 4096 in
                 if (((base_in <=? base) && (base <? top_in)) || ((base_in <? top) && (top <=? top_in)))
                    && negb (Z.land ph.(p_flags) 7 =? Z.land ph_in.(p_flags) 7)
                 then Panic perms_msg
                 else next
               else next
           end
  end.

Record layout_state := { lower_to_higher : bool; min_vaddr : Z; max_vaddr : Z }.

Fixpoint scan_phdrs (want_ranges is_reloc : bool) (all : list elf64_phdr) (i : nat) (phdrs : list elf64_phdr) (ls : layout_state)
    : outcome layout_state :=
  match phdrs with
  | [] => Ret ls
  | ph :: phdrs =>
      if negb (is_load ph) then scan_phdrs want_ranges is_reloc all (S i) phdrs ls
      else
        let lower := ph.(p_vaddr) <? FIXED_HIGHER_HALF_OFFSET_64 in
        if lower && negb is_reloc then Panic "elf: Lower half PHDRs are not allowed"
        else if negb lower && ls.(lower_to_higher) then Panic "elf: Mix of lower and higher half PHDRs in relocatable kernel"
        else match add_overflow ph.(p_vaddr) ph.(p_memsz) with
             | None => Panic end_msg
             | Some phdr_end =>
                 _ ← check_against want_ranges is_reloc ph phdr_end i 0 all;
                 scan_phdrs want_ranges is_reloc all (S i) phdrs
                   {| lower_to_higher := lower || ls.(lower_to_higher);
                      min_vaddr := if ph.(p_vaddr) <? ls.(min_vaddr) then ph.(p_vaddr) else ls.(min_vaddr);
                      max_vaddr := if ls.(max_vaddr) <? phdr_end then phdr_end else ls.(max_vaddr) |}
             end
  end.

(** [again:] with [tries] attempts left; [rand n] is the [n]-th number drawn. *)
Fixpoint kaslr_loop (tries : nat) (rand : nat -> Z) (n : nat) (max_align min_slide virtual_base image_size : Z) : outcome Z :=
  match tries with
  | O => Panic "elf: Image wants to load too high"
  | S tries =>
      let slide := u64 (Z.land (rand n) (u64 (Z.lnot (max_align - 1))) + min_slide) in
      if u64 (virtual_base + slide + image_size) <? 0xffffffff80000000
      then kaslr_loop tries rand (S n) max_align min_slide virtual_base image_size
      else Ret slide
  end.

(** [memcpy(dst, bs, length bs)] to memory. *)
Definition copy_to (r : Z -> Z) (dst : Z) (bs : list Z) : Z -> Z :=
  fun a => if (dst <=? a) && (a <? dst + Z.of_nat (length bs)) then nth (Z.to_nat (a - dst)) bs 0 else r a.

(** The loop that loads the segments; the result is [bss_size]. *)
Fixpoint load_segments (elf : list Z) (phdr_size : Z) (all : list elf64_phdr) (physical_base virtual_base max_vaddr slide : Z)
    (phdrs : list elf64_phdr) (bss_size : Z) (st : pmm) : outcome (Z * pmm) :=
  match phdrs with
  | [] => Ret (bss_size, st)
  | ph :: phdrs =>
      if negb (is_load ph) then load_segments elf phdr_size all physical_base virtual_base max_vaddr slide phdrs bss_size st
      else if ph.(p_memsz) <? ph.(p_filesz) then Panic "elf: p_filesz > p_memsz"
      else match add_overflow ph.(p_offset) ph.(p_filesz) with
           | None => Panic "elf: p_offset + p_filesz overflow"
           | Some offset_end =>
               if Z.of_nat (length elf) <? offset_end then Panic "elf: p_offset + p_filesz exceeds file size"
               else
                 let load_addr := u64 (physical_base + u64 (ph.(p_vaddr) - virtual_base)) in
                 bs ← fetch elf ph.(p_offset) ph.(p_filesz);
                 let st := set_ram (copy_to (ram st) load_addr bs) st in
                 let bss_size := if u64 (ph.(p_vaddr) + ph.(p_memsz)) =? max_vaddr then ph.(p_memsz) - ph.(p_filesz) else bss_size in
                 st ← elf64_apply_relocations elf phdr_size all load_addr ph.(p_vaddr) ph.(p_memsz) slide st;
                 load_segments elf phdr_size all physical_base virtual_base max_vaddr slide phdrs bss_size st
           end
  end.

Record mem_range := { mr_base : Z; mr_length : Z; mr_permissions : Z }.
Definition MEM_RANGE_X : Z := 1.
Definition MEM_RANGE_W : Z := 2.
Definition MEM_RANGE_R : Z := 4.

Definition phdr_range (slide : Z) (ph : elf64_phdr) : mem_range :=
  let load_addr := u64 (ph.(p_vaddr) + slide) in
  let this_top := u64 (load_addr + ph.(p_memsz)) in
  let align := if ph.(p_align) <=? 1 then 1 else ph.(p_align) in
  let base := Z.land load_addr (u64 (Z.lnot (align - 1))) in
  let perm bit p := if Z.land ph.(p_flags) bit =? 0 then 0 else p in
  {| mr_base := base; mr_length := ALIGN_UP (u64 (this_top - base)) align;
     mr_permissions := Z.lor (Z.lor (perm 1 MEM_RANGE_X) (perm 2 MEM_RANGE_W)) (perm 4 MEM_RANGE_R) |}.

Definition reported (is_reloc : bool) (ph : elf64_phdr) : bool :=
  is_load ph && negb ((ph.(p_vaddr) <? FIXED_HIGHER_HALF_OFFSET_64) && negb is_reloc).

Definition elf64_get_ranges (phdr_size type : Z) (phdrs : list elf64_phdr) (slide : Z) (st : pmm) : outcome (list mem_range * pmm) :=
  if phdr_size <? 56 then Panic phdr_size_msg
  else
    is_reloc ← elf64_is_relocatable phdr_size type phdrs;
    let ranges := phdr_range slide <$> List.filter (reported is_reloc) phdrs in
    if decide (length ranges = 0%nat) then Panic "elf: No higher half PHDRs exist"
    else
      r ← alloc st (Z.of_nat (length ranges) * 24);
      Ret (ranges, snd (r : Z * pmm)).

Record elf_image := {
  entry_point : Z; slide : Z; physical_base : Z; virtual_base : Z;
  image_size : Z; image_size_before_bss : Z; img_is_reloc : bool; ranges : list mem_range
}.

(** The program headers, after the checks at the start of [elf64_load]. *)
Definition checked_phdrs (elf : list Z) : outcome (Z * Z * list elf64_phdr) :=
  _ ← elf64_validate t elf;
  type ← e_type elf;
  if negb (type =? ET_EXEC) && negb (type =? ET_DYN) then Panic "elf: ELF file not of type ET_EXEC nor ET_DYN"
  else
    phdr_size ← e_phdr_size elf;
    if phdr_size <? 56 then Panic phdr_size_msg
    else
      ph_num ← e_ph_num elf;
      phoff ← e_phoff elf;
      match mul_overflow ph_num phdr_size ≫= (fun size => add_overflow size phoff) with
      | None => Panic "elf: Program header table size overflow"
      | Some phdr_table_end =>
          if Z.of_nat (length elf) <? phdr_table_end then Panic "elf: Program header table extends beyond file bounds"
          else
            phdrs ← read_phdrs elf phoff phdr_size (Z.to_nat ph_num) 0;
            Ret (type, phdr_size, phdrs)
      end.

Definition elf64_load (elf : list Z) (alloc_type : Z) (kaslr want_ranges : bool) (rand : nat -> Z) (st : pmm)
    : outcome (elf_image * pmm) :=
  r ← checked_phdrs elf; let '(type, phdr_size, phdrs) := (r : Z * Z * list elf64_phdr) in
  is_reloc ← elf64_is_relocatable phdr_size type phdrs;
  entry ← e_entry elf;
  max_align ← elf64_max_align phdr_size phdrs;
  ls ← scan_phdrs want_ranges is_reloc phdrs 0 phdrs {| lower_to_higher := false; min_vaddr := W64 - 1; max_vaddr := 0 |};
  if ls.(min_vaddr) =? W64 - 1 then Panic "elf: No usable PHDRs exist"
  else
    let min_slide := if ls.(lower_to_higher) then u64 (FIXED_HIGHER_HALF_OFFSET_64 - ls.(min_vaddr)) else 0 in
    let image_size := u64 (ls.(max_vaddr) - ls.(min_vaddr)) in
    r ← ext_mem_alloc_type_aligned memmap_max_entries st image_size alloc_type max_align;
    let '(physical_base, st) := (r : Z * pmm) in
    slide ← (if is_reloc && kaslr
             then kaslr_loop (Z.to_nat 0x10000) rand 0 max_align min_slide ls.(min_vaddr) image_size
             else Ret min_slide);
    r ← load_segments elf phdr_size phdrs physical_base ls.(min_vaddr) ls.(max_vaddr) slide phdrs 0 st;
    let '(bss_size, st) := (r : Z * pmm) in
    r ← (if want_ranges then elf64_get_ranges phdr_size type phdrs slide st else Ret ([], st));
    let '(ranges, st) := (r : list mem_range * pmm) in
    Ret ({| entry_point := u64 (entry + slide); slide := slide; physical_base := physical_base;
            virtual_base := u64 (ls.(min_vaddr) + slide); image_size := image_size;
            image_size_before_bss := u64 (image_size - bss_size); img_is_reloc := is_reloc; ranges := ranges |}, st).

(** ** elf64_load_elsewhere and elf32_load_elsewhere *)

Fixpoint paddr_span (phdrs : list elf64_phdr) (min max : Z) : outcome (Z * Z) :=
  match phdrs with
  | [] => Ret (min, max)
  | ph :: phdrs =>
      if negb (is_load ph) then paddr_span phdrs min max
      else match add_overflow ph.(p_paddr) ph.(p_memsz) with
           | None => Panic "elf: p_paddr + p_memsz overflow"
           | Some top =>
               paddr_span phdrs (if ph.(p_paddr) <? min then ph.(p_paddr) else min) (if max <? top then top else max)
           end
  end.

(** Copies the segments; the entry point is translated by the first that holds it.
    [wrap] is the width of an address in the program header. *)
Fixpoint copy_segments (wrap : Z -> Z) (elf : list Z) (block min_paddr : Z) (phdrs : list elf64_phdr) (entry : Z) (adjusted : bool)
    (mem : Z -> Z) : outcome (Z * (Z -> Z)) :=
  match phdrs with
  | [] => Ret (entry, mem)
  | ph :: phdrs =>
      if negb (is_load ph) then copy_segments wrap elf block min_paddr phdrs entry adjusted mem
      else if ph.(p_memsz) <? ph.(p_filesz) then Panic "elf: p_filesz > p_memsz"
      else match add_overflow ph.(p_offset) ph.(p_filesz) with
           | None => Panic "elf: p_offset + p_filesz exceeds file size"
           | Some offset_end =>
               if Z.of_nat (length elf) <? offset_end then Panic "elf: p_offset + p_filesz exceeds file size"
               else
                 bs ← fetch elf ph.(p_offset) ph.(p_filesz);
                 let mem := copy_to mem (block + (ph.(p_paddr) - min_paddr)) bs in
                 if negb adjusted && (ph.(p_vaddr) <=? entry) && (entry <? wrap (ph.(p_vaddr) + ph.(p_memsz))) then
                   copy_segments wrap elf block min_paddr phdrs (u64 (u64 (entry - ph.(p_vaddr)) + ph.(p_paddr))) true mem
                 else copy_segments wrap elf block min_paddr phdrs entry adjusted mem
           end
  end.

(** The common end of the two loaders, from the program headers on. *)
Definition put_elsewhere (wrap : Z -> Z) (elf : list Z) (phdrs : list elf64_phdr) (entry : Z) (st : pmm)
    : outcome (Z * elsewhere_range * pmm) :=
  span ← paddr_span phdrs (W64 - 1) 0; let '(min_paddr, max_paddr) := (span : Z * Z) in
  let image_size := u64 (max_paddr - min_paddr) in
  r ← alloc st image_size; let '(block, st) := (r : Z * pmm) in
  r ← alloc st 24; let '(_, st) := (r : Z * pmm) in
  r ← copy_segments wrap elf block min_paddr phdrs entry false (ram st);
  let '(entry, mem) := (r : Z * (Z -> Z)) in
  Ret (entry, {| elsewhere := block; target := min_paddr; er_length := image_size |}, set_ram mem st).

Definition table_msg : string := "elf: Program header table extends beyond file bounds".
Definition type_msg : string := "elf: ELF file not of type ET_EXEC nor ET_DYN".

Definition elf64_load_elsewhere (elf : list Z) (st : pmm) : outcome (Z * elsewhere_range * pmm) :=
  _ ← elf64_validate t elf;
  type ← e_type elf;
  if negb (type =? ET_EXEC) && negb (type =? ET_DYN) then Panic type_msg
  else
    entry ← e_entry elf;
    phdr_size ← e_phdr_size elf;
    if phdr_size <? 56 then Panic phdr_size_msg
    else
      ph_num ← e_ph_num elf;
      phoff ← e_phoff elf;
      if (Z.of_nat (length elf) <? phoff) || (Z.of_nat (length elf) - phoff <? ph_num * phdr_size) then Panic table_msg
      else
        phdrs ← read_phdrs elf phoff phdr_size (Z.to_nat ph_num) 0;
        put_elsewhere u64 elf phdrs entry st.

Definition elf32_load_elsewhere (elf : list Z) (st : pmm) : outcome (Z * elsewhere_range * pmm) :=
  _ ← elf32_validate elf;
  type ← e_type elf;
  if negb (type =? ET_EXEC) && negb (type =? ET_DYN) then Panic type_msg
  else
    entry ← rd elf 24 4;
    phdr_size ← rd elf 42 2;
    if phdr_size <? 32 then Panic "elf: phdr_size < sizeof(struct elf32_phdr)"
    else
      ph_num ← rd elf 44 2;
      phoff ← rd elf 28 4;
      if (Z.of_nat (length elf) <? phoff) || (Z.of_nat (length elf) - phoff <? ph_num * phdr_size) then Panic table_msg
      else
        phdrs ← read_phdrs32 elf phoff phdr_size (Z.to_nat ph_num) 0;
        put_elsewhere u32 elf phdrs entry st.
End load.
