(* ===== verification/ElfReloc.v ===== *)
(** * The relocations of an executable

    Finding them in the tables of the file, and applying them to a segment. *)

From S2P Require Import Prelude Bytes Memmap Sanitise Pmm PmmFacts PmmSpec Libc Elf.

(** * The relocations of an executable

    The relocations a file asks for, read off its tables, and that the array the
    loader builds holds exactly these.  RELR tables are decoded as the generic ABI
    defines them: an even entry is an address, an odd one a bitmap for the 63 words
    that follow. *)

(** ** What the tables say *)

Fixpoint words (elf : list Z) (off : Z) (k : nat) : outcome (list Z) :=
  match k with
  | O => Ret []
  | S k => x ← rd elf off 8; xs ← words elf (off + 8) k; Ret (x :: xs)
  end.

Definition bit_addrs (entry where_ from n : Z) : list Z :=
  (fun i => u64 (where_ + (i - 1) * 8)) <$> List.filter (fun i => Z.testbit entry i) (seqZ from n).

Fixpoint relr_decode (entries : list Z) (where_ : Z) : list Z :=
  match entries with
  | [] => []
  | entry :: entries =>
      if Z.even entry then entry :: relr_decode entries (u64 (entry + 8))
      else bit_addrs entry where_ 1 63 ++ relr_decode entries (u64 (where_ + 504))
  end.

Definition rela_offsets (base size ent : Z) : list Z :=
  (fun k => u64 (base + Z.of_nat k * ent)) <$> seq 0 (Z.to_nat (size / ent)).

Definition rela_table (elf : list Z) (base size ent : Z) : list elf64_rela :=
  (fun k => load_rela (slice (Z.to_nat (base + Z.of_nat k * ent)) 24 elf)) <$> seq 0 (Z.to_nat (size / ent)).

Definition relr_reloc (addr : Z) : elf64_rela :=
  {| r_addr := addr; r_info := R_INTERNAL_RELR; r_symbol := 0; r_addend := 0 |}.

(** The tables lie in the file and have whole entries of a size that can hold one. *)
Definition in_file (elf : list Z) (off size : Z) : bool := (0 <=? off) && (off + size <=? Z.of_nat (length elf)).

Definition rela_ok (elf : list Z) (off size ent : Z) : bool :=
  (24 <=? ent) && (size `mod` ent =? 0) && in_file elf off size.

Definition tables_ok (elf : list Z) (d : dyn_info) (relr rela plt : Z) : bool :=
  ((d.(relr_size) =? 0) || ((d.(relr_ent) =? 8) && in_file elf relr d.(relr_size)))
  && ((d.(rela_size) =? 0) || rela_ok elf rela d.(rela_size) d.(rela_ent))
  && ((d.(dt_pltrelsz) =? 0) || ((d.(dt_pltrel) =? DT_RELA) && rela_ok elf plt d.(dt_pltrelsz) d.(rela_ent))).

(** The relocations of a file, in the order of the tables. *)
Definition elf_relocs (elf : list Z) (phdrs : list elf64_phdr) : outcome (reloc_env * list elf64_rela) :=
  d ← read_dynamic elf phdrs;
  rela ← file_offset phdrs "elf: RELA vaddr not in any PT_LOAD segment" d.(rela_offset);
  relr ← file_offset phdrs "elf: RELR vaddr not in any PT_LOAD segment" d.(relr_offset);
  symtab ← file_offset phdrs "elf: SYMTAB vaddr not in any PT_LOAD segment" d.(symtab_offset);
  strtab ← file_offset phdrs "elf: STRTAB vaddr not in any PT_LOAD segment" d.(strtab_offset);
  jmprel ← file_offset phdrs "elf: JMPREL vaddr not in any PT_LOAD segment" d.(dt_jmprel);
  if negb (tables_ok elf d relr.1 rela.1 jmprel.1) then Panic "malformed relocation tables"
  else
    es ← words elf relr.1 (Z.to_nat (d.(relr_size) / 8));
    Ret ({| sym_off := symtab.1; sym_ent := d.(symtab_ent); sym_size := symtab.2; str_off := strtab.1; str_size := strtab.2 |},
         (relr_reloc <$> relr_decode es 0) ++ rela_table elf rela.1 d.(rela_size) d.(rela_ent)
         ++ rela_table elf jmprel.1 d.(dt_pltrelsz) d.(rela_ent)).

(** ** Bits *)

Lemma land_1_even x : (Z.land x 1 =? 0) = Z.even x.
Proof.
  change 1 with (Z.ones 1). rewrite Z.land_ones by lia. change (2 ^ 1) with 2. rewrite Zmod_even.
  by destruct (Z.even x).
Qed.

Lemma popcount_odd x : Z.even x = false -> popcount x - 1 = Z.of_nat (length (bit_addrs x 0 1 63)).
Proof.
  intros He. unfold popcount, bit_addrs. rewrite length_fmap. change (seqZ 0 64) with (0 :: seqZ 1 63). cbn [List.filter].
  rewrite Z.bit0_odd, <- Z.negb_even, He. cbn [negb length]. lia.
Qed.

Lemma length_bit_addrs x w w' from n : length (bit_addrs x w from n) = length (bit_addrs x w' from n).
Proof. unfold bit_addrs. by rewrite !length_fmap. Qed.

Lemma bit_addrs_bound x w n : 0 <= n -> Z.of_nat (length (bit_addrs x w 1 n)) <= n.
Proof.
  intros Hn. unfold bit_addrs. rewrite length_fmap.
  transitivity (Z.of_nat (length (seqZ 1 n))); [|rewrite length_seqZ; lia].
  apply inj_le. induction (seqZ 1 n) as [|y l IH]; cbn [List.filter length]; [lia|]. case_match; cbn [length]; lia.
Qed.

Lemma fetch_inv elf off n bs : fetch elf off n = Ret bs ->
  0 <= off /\ off + n <= Z.of_nat (length elf) /\ bs = slice (Z.to_nat off) (Z.to_nat n) elf.
Proof. unfold fetch. case_b; [|done]. case_b; [|done]. by intros [= <-]. Qed.

Lemma fetch_Ret elf off n : 0 <= off -> off + n <= Z.of_nat (length elf) ->
  fetch elf off n = Ret (slice (Z.to_nat off) (Z.to_nat n) elf).
Proof. intros H1 H2. unfold fetch. by rewrite (proj2 (Z.leb_le 0 off)), (proj2 (Z.leb_le (off + n) _)). Qed.

Lemma rd_range elf off n x : Forall is_byte elf -> 0 <= n -> rd elf off n = Ret x -> 0 <= x < W8 ^ n.
Proof.
  intros Hb Hn H. unfold rd in H. inv_ret. apply fetch_inv in E as (H1 & H2 & ->).
  pose proof (le_load_range (slice (Z.to_nat off) (Z.to_nat n) elf) (slice_bytes _ _ _ Hb)) as Hr.
  rewrite length_slice in Hr by lia. by rewrite Z2Nat.id in Hr by done.
Qed.

(** ** The RELR table *)

Lemma words_length elf k : forall off es, words elf off k = Ret es -> length es = k /\ (k = 0%nat \/ (0 <= off /\ off + 8 * Z.of_nat k <= Z.of_nat (length elf))).
Proof.
  induction k as [|k IH]; intros off es H; cbn [words] in H; inv_ret; [auto|].
  apply IH in E0 as [Hl Hb]. split; [cbn; lia|right]. unfold rd in E. apply bind_Ret_inv in E as (bs & Ef & _). apply fetch_inv in Ef as (? & ? & _). lia.
Qed.

Lemma words_range elf k : Forall is_byte elf -> forall off es, words elf off k = Ret es -> Forall (fun x => 0 <= x < W64) es.
Proof.
  intros Hb. induction k as [|k IH]; intros off es H; cbn [words] in H; inv_ret; [constructor|].
  constructor; [by eapply (rd_range elf off 8)|by eapply IH].
Qed.

Lemma length_relr_decode es : forall w w', length (relr_decode es w) = length (relr_decode es w').
Proof.
  induction es as [|e es IH]; intros w w'; cbn [relr_decode]; [done|]. destruct (Z.even e); [done|].
  rewrite !length_app, (length_bit_addrs e w w'). f_equal. apply IH.
Qed.

Lemma relr_decode_bound es w : Z.of_nat (length (relr_decode es w)) <= 63 * Z.of_nat (length es).
Proof.
  revert w. induction es as [|e es IH]; intros w; cbn [relr_decode length]; [lia|]. destruct (Z.even e); cbn [length].
  - specialize (IH (u64 (e + 8))). lia.
  - rewrite length_app. pose proof (bit_addrs_bound e w 63 ltac:(lia)). specialize (IH (u64 (w + 504))). lia.
Qed.

(** The count of the first pass, against the table. *)
Lemma relr_count_words elf k : forall off c, 0 <= c -> c + 63 * Z.of_nat k < W64 ->
  relr_count_loop k elf off c = es ← words elf off k; Ret (c + Z.of_nat (length (relr_decode es 0))).
Proof.
  induction k as [|k IH]; intros off c Hc Hk; cbn [relr_count_loop words].
  { cbn. by rewrite Z.add_0_r. }
  destruct (rd elf off 8) as [e|?| |]; [|done..]. cbn [mbind outcome_bind]. rewrite land_1_even.
  destruct (Z.even e) eqn:He.
  - rewrite u64_small, IH by lia. destruct (words elf (off + 8) k) as [es|?| |]; [|done..]. cbn. rewrite He. cbn [length].
    rewrite (length_relr_decode es (u64 (e + 8)) 0). f_equal. lia.
  - rewrite (popcount_odd e He). pose proof (bit_addrs_bound e 0 63 ltac:(lia)). rewrite u64_small, IH by lia.
    destruct (words elf (off + 8) k) as [es|?| |]; [|done..]. cbn [mbind outcome_bind]. cbn [relr_decode]. rewrite He, length_app.
    rewrite (length_relr_decode es (u64 (0 + 504)) 0). f_equal. lia.
Qed.

(** The second pass: setting consecutive addresses. *)
Fixpoint set_addrs (relocs : list (option reloc_slot)) (i : nat) (addrs : list Z) : outcome (list (option reloc_slot)) :=
  match addrs with
  | [] => Ret relocs
  | a :: addrs => relocs ← set_addr relocs i a; set_addrs relocs (S i) addrs
  end.

Lemma set_addrs_app addrs1 : forall relocs i addrs2,
  set_addrs relocs i (addrs1 ++ addrs2) = relocs ← set_addrs relocs i addrs1; set_addrs relocs (i + length addrs1)%nat addrs2.
Proof.
  induction addrs1 as [|a addrs1 IH]; intros relocs i addrs2; cbn [set_addrs app length].
  { cbn. by rewrite Nat.add_0_r. }
  destruct (set_addr relocs i a); [|done..]. cbn. rewrite IH. by replace (S i + length addrs1)%nat with (i + S (length addrs1))%nat by lia.
Qed.

Lemma no_bits x j n : 0 <= x < W64 -> 0 <= j -> Z.shiftr x j = 0 -> List.filter (fun i => Z.testbit x i) (seqZ j n) = [].
Proof.
  intros Hx Hj Hs. assert (forall i, j <= i -> Z.testbit x i = false) as Hz.
  { intros i Hi. replace i with ((i - j) + j) by lia. rewrite <- Z.shiftr_spec, Hs by lia. apply Z.bits_0. }
  assert (forall l, Forall (fun i => j <= i) l -> List.filter (fun i => Z.testbit x i) l = []) as H.
  { induction 1 as [|i l Hi _ IH]; cbn; [done|]. by rewrite Hz. }
  apply H. apply Forall_forall. intros i Hi. apply elem_of_seqZ in Hi. lia.
Qed.

Lemma relr_bits_set x w : 0 <= x < W64 -> forall n fuel j i relocs, 0 <= j -> j + Z.of_nat n = 63 -> (n <= fuel)%nat ->
  relr_bits fuel (Z.shiftr x j) j w i relocs =
  relocs ← set_addrs relocs i (bit_addrs x w (j + 1) (Z.of_nat n)); Ret ((i + length (bit_addrs x w (j + 1) (Z.of_nat n)))%nat, relocs).
Proof.
  intros Hx. induction n as [|n IH]; intros fuel j i relocs Hj Hjn Hf.
  - assert (Z.shiftr x (j + 1) = 0) as Hz. { rewrite Z.shiftr_div_pow2 by lia. replace (j + 1) with 64 by lia. apply Z.div_small. done. }
    assert (relr_bits fuel (Z.shiftr x j) j w i relocs = Ret (i, relocs)) as ->.
    { destruct fuel; cbn [relr_bits]; rewrite Z.shiftr_shiftr, Hz by lia; done. }
    unfold bit_addrs. cbn. by rewrite Nat.add_0_r.
  - destruct fuel as [|fuel]; [lia|]. cbn [relr_bits]. rewrite Z.shiftr_shiftr by lia.
    destruct (Z.eqb_spec (Z.shiftr x (j + 1)) 0) as [Hz|Hz].
    { unfold bit_addrs. rewrite (no_bits x (j + 1) _ Hx ltac:(lia) Hz). cbn. by rewrite Nat.add_0_r. }
    rewrite land_1_even. rewrite <- Z.negb_odd, <- Z.bit0_odd, Z.shiftr_spec, negb_involutive, Z.add_0_l by lia.
    assert (bit_addrs x w (j + 1) (Z.of_nat (S n)) =
      (if Z.testbit x (j + 1) then [u64 (w + j * 8)] else []) ++ bit_addrs x w (j + 1 + 1) (Z.of_nat n)) as ->.
    { unfold bit_addrs. rewrite seqZ_cons by lia. cbn [List.filter]. replace (Z.pred (Z.of_nat (S n))) with (Z.of_nat n) by lia.
      replace (Z.succ (j + 1)) with (j + 1 + 1) by lia. destruct (Z.testbit x (j + 1)); [|done]. cbn.
      by replace (j + 1 - 1) with j by lia. }
    destruct (Z.testbit x (j + 1)) eqn:Eb; cbn [app].
    + cbn [set_addrs]. destruct (set_addr relocs i _) as [relocs1|?| |]; [|done..]. cbn [mbind outcome_bind].
      rewrite IH by lia. destruct (set_addrs _ _ _) as [relocs2|?| |]; [|done..]. cbn. repeat f_equal. lia.
    + rewrite IH by lia. done.
Qed.

Lemma relr_fill_set elf k : Forall is_byte elf -> forall off w i relocs es, words elf off k = Ret es ->
  relr_fill k elf off w i relocs = set_addrs relocs i (relr_decode es w).
Proof.
  intros Hb. induction k as [|k IH]; intros off w i relocs es H; cbn [words] in H; cbn [relr_fill]; inv_ret; [done|].
  cbn [mbind outcome_bind relr_decode]. pose proof (rd_range elf off 8 x Hb ltac:(lia) E) as Hx. rewrite E. cbn [mbind outcome_bind].
  rewrite land_1_even. destruct (Z.even x) eqn:He.
  - cbn [set_addrs]. destruct (set_addr relocs i x); [|done..]. cbn. by rewrite (IH _ _ _ _ _ E0).
  - pose proof (relr_bits_set x w Hx 63 64 0 i relocs ltac:(lia) ltac:(lia) ltac:(lia)) as Hbits. rewrite Z.shiftr_0_r in Hbits.
    change (0 + 1) with 1 in Hbits. change (Z.of_nat 63) with 63 in Hbits. rewrite Hbits, set_addrs_app.
    destruct (set_addrs relocs i (bit_addrs x w 1 63)); [|done..]. cbn. by rewrite (IH _ _ _ _ _ E0).
Qed.

(** ** The array *)

Definition scratch_slots (ptrs addrs : list Z) : list (option reloc_slot) := zip_with (fun p a => Some (Scratch p a)) ptrs addrs.
Definition file_slots (offs : list Z) : list (option reloc_slot) := (fun off => Some (InFile off)) <$> offs.

Lemma set_addrs_scratch ptrs : forall addrs old pre post, length ptrs = length addrs -> length ptrs = length old ->
  set_addrs (pre ++ scratch_slots ptrs old ++ post) (length pre) addrs = Ret (pre ++ scratch_slots ptrs addrs ++ post).
Proof.
  induction ptrs as [|p ptrs IH]; intros [|a addrs] [|o old] pre post Ha Ho; try done. cbn [scratch_slots zip_with set_addrs app].
  unfold set_addr. rewrite (get_lookup _ _ _ (lookup_at pre _ _)). cbn [mbind outcome_bind].
  rewrite put_lt, insert_at by (rewrite length_app; cbn; lia). cbn [mbind outcome_bind].
  rewrite (snoc_at pre (Some (Scratch p a))), (S_length pre (Some (Scratch p a))). fold (scratch_slots ptrs old).
  rewrite (IH addrs old (pre ++ [Some (Scratch p a)]) post) by (cbn in *; lia). by rewrite <- app_assoc.
Qed.

(** The blocks of the relocations, all memory that was usable in [st0]. *)
Definition scratch_ok (st0 : pmm) (n p : Z) : Prop :=
  0 <= p /\ p + ALIGN_UP n 4096 <= 0x100000000 /\ forall a, p <= a < p + ALIGN_UP n 4096 -> usable st0 a.

Section array.
Context (max : nat).

Lemma block_alloc st0 st n p st' : evolves st0 st -> ext_mem_alloc max st n = Ret (p, st') ->
  evolves st0 st' /\ scratch_ok st0 n p.
Proof.
  intros Hev H. apply alloc_evolves_any in H as (Hev' & Hp & _ & Hlim & Hb); [|apply Hev|done|by exists 2251799813685248|done].
  split; [by eapply evolves_trans|]. split_and!; [done|done|]. intros a Ha. apply (ev_usable _ _ Hev), Hb, Ha.
Qed.

Lemma block_free st0 st n p st' : evolves st0 st -> scratch_ok st0 n p -> 0 <= n -> pmm_free max st p n = Ret st' -> evolves st0 st'.
Proof. intros Hev (Hp & Hlim & Hb) Hn H. apply (free_evolves max st0 st p n); auto. lia. Qed.

Lemma alloc_relrs_spec st0 k : forall pre post st, evolves st0 st ->
  match alloc_relrs max k (length pre) (pre ++ replicate k None ++ post) st with
  | Ret (relocs, st') => exists ptrs, length ptrs = k /\ Forall (scratch_ok st0 24) ptrs /\ evolves st0 st' /\
      relocs = pre ++ scratch_slots ptrs (replicate k 0) ++ post
  | Panic msg => page_error msg
  | Undef | Diverge => False
  end.
Proof.
  induction k as [|k IH]; intros pre post st Hev; cbn [alloc_relrs].
  { exists []. split_and!; [done|constructor|done|done]. }
  pose proof (alloc_total max st 24 MEMMAP_BOOTLOADER_RECLAIMABLE 4096 (ev_inv _ _ Hev) ltac:(lia) ltac:(lia) ltac:(lia)) as Ht.
  change (ext_mem_alloc_type_aligned max st 24 _ 4096) with (ext_mem_alloc max st 24) in Ht.
  destruct (ext_mem_alloc max st 24) as [[p st1]|msg| |] eqn:E; [|done..]. cbn [mbind outcome_bind].
  destruct (block_alloc st0 st 24 p st1 Hev E) as [Hev1 Hp].
  cbn [replicate app]. rewrite put_lt, insert_at by (rewrite length_app; cbn; lia). cbn [mbind outcome_bind].
  rewrite (snoc_at pre (Some (Scratch p 0))), (S_length pre (Some (Scratch p 0))).
  specialize (IH (pre ++ [Some (Scratch p 0)]) post st1 Hev1).
  destruct (alloc_relrs _ _ _ _ _) as [[relocs st2]|?| |]; try done. destruct IH as (ptrs & Hl & Hf & Hev2 & ->).
  exists (p :: ptrs). split_and!; [cbn; lia|by constructor|done|by rewrite <- app_assoc].
Qed.

Lemma free_relrs_spec st0 ptrs : forall addrs st, length ptrs = length addrs -> Forall (scratch_ok st0 24) ptrs -> evolves st0 st ->
  match free_relrs max (scratch_slots ptrs addrs) st with
  | Ret st' => evolves st0 st' /\ ram st' = ram st
  | Panic msg => page_error msg
  | Undef | Diverge => False
  end.
Proof.
  induction ptrs as [|p ptrs IH]; intros [|a addrs] st Hl Hf Hev; try done. cbn [scratch_slots zip_with free_relrs].
  apply Forall_cons in Hf as [Hp Hf]. pose proof Hp as (Hp0 & Hlim & _).
  pose proof (free_total max st p 24 (ev_inv _ _ Hev) Hp0 ltac:(lia) ltac:(lia)) as Ht.
  destruct (pmm_free max st p 24) as [st1|msg| |] eqn:E; [|done..]. cbn [mbind outcome_bind].
  pose proof (free_frame max st p 24 st1 (ev_inv _ _ Hev) Hp0 ltac:(lia) ltac:(lia) E) as (_ & _ & Hr & _).
  specialize (IH addrs st1 ltac:(cbn in *; lia) Hf (block_free _ _ _ _ _ Hev Hp ltac:(lia) E)).
  fold (scratch_slots ptrs addrs). destruct (free_relrs _ _ _); try done. destruct IH as [? ->]. done.
Qed.
End array.

(** A table of whole RELA entries fills as many slots with their offsets. *)
Lemma rela_fill_exact base size ent : 0 < ent -> 0 <= size < W64 -> forall n m fuel pre old post,
  (Z.of_nat m + Z.of_nat n) * ent = size -> (n <= fuel)%nat -> length old = n ->
  rela_fill fuel base size ent (Z.of_nat m * ent) (length pre) (pre ++ old ++ post)
  = Ret (pre ++ file_slots ((fun k => u64 (base + Z.of_nat k * ent)) <$> seq m n) ++ post).
Proof.
  intros He Hs. induction n as [|n IH]; intros m fuel pre old post Hm Hf Hl.
  { destruct old; [|done]. destruct fuel; cbn [rela_fill]; by (split_ltb (Z.of_nat m * ent) size; [nia|]). }
  destruct fuel as [|fuel]; [lia|]. destruct old as [|o old]; [done|]. cbn [rela_fill]. split_ltb (Z.of_nat m * ent) size; [|nia].
  cbn [app]. rewrite put_lt, insert_at by (rewrite length_app; cbn; lia). cbn [mbind outcome_bind].
  set (x := Some (InFile (u64 (base + Z.of_nat m * ent)))). rewrite (snoc_at pre x), (S_length pre x).
  rewrite u64_small by nia. replace (Z.of_nat m * ent + ent) with (Z.of_nat (S m) * ent) by lia.
  rewrite IH; [|lia|lia|by injection Hl]. by rewrite <- app_assoc.
Qed.

(** ** The array, whatever the file holds *)

Definition slot_ok (st0 : pmm) (s : option reloc_slot) : Prop :=
  match s with Some (Scratch p _) => scratch_ok st0 24 p | _ => True end.

Section any_file.
Context (max : nat) (st0 : pmm).

Lemma alloc_relrs_slots k : forall i relocs st relocs' st', Forall (slot_ok st0) relocs -> evolves st0 st ->
  alloc_relrs max k i relocs st = Ret (relocs', st') -> Forall (slot_ok st0) relocs' /\ evolves st0 st'.
Proof.
  induction k as [|k IH]; intros i relocs st relocs' st' Hf Hev H; cbn [alloc_relrs] in H; [by simplify_eq|].
  apply bind_Ret_inv in H as ([p st1] & Ha & H). apply (block_alloc max st0) in Ha as [Hev1 Hp]; [|done].
  apply bind_Ret_inv in H as (relocs1 & Hput & H). apply put_Ret_inv in Hput as [_ ->].
  eapply IH, H; [|done]. by apply Forall_insert.
Qed.

Lemma set_addr_slots relocs i a relocs' : Forall (slot_ok st0) relocs -> set_addr relocs i a = Ret relocs' -> Forall (slot_ok st0) relocs'.
Proof.
  intros Hf H. unfold set_addr in H. apply bind_Ret_inv in H as (s & Hg & H). apply get_Ret_inv in Hg.
  destruct s as [[p ?|]|]; try done. apply put_Ret_inv in H as [_ ->]. apply Forall_insert; [done|].
  by apply (Forall_lookup_1 _ _ _ _ Hf Hg).
Qed.

Lemma relr_bits_slots fuel : forall e j w i relocs i' relocs', Forall (slot_ok st0) relocs ->
  relr_bits fuel e j w i relocs = Ret (i', relocs') -> Forall (slot_ok st0) relocs'.
Proof.
  induction fuel as [|fuel IH]; intros e j w i relocs i' relocs' Hf H; cbn [relr_bits] in H; (case_match; [by simplify_eq|]); [done|].
  case_match; [|by eapply IH]. apply bind_Ret_inv in H as (relocs1 & Hs & H). eapply IH, H. by eapply set_addr_slots.
Qed.

Lemma relr_fill_slots elf k : forall off w i relocs relocs', Forall (slot_ok st0) relocs ->
  relr_fill k elf off w i relocs = Ret relocs' -> Forall (slot_ok st0) relocs'.
Proof.
  induction k as [|k IH]; intros off w i relocs relocs' Hf H; cbn [relr_fill] in H; [by simplify_eq|].
  apply bind_Ret_inv in H as (e & _ & H). case_match.
  - apply bind_Ret_inv in H as (relocs1 & Hs & H). eapply IH, H. by eapply set_addr_slots.
  - apply bind_Ret_inv in H as ([i1 relocs1] & Hs & H). eapply IH, H. by eapply relr_bits_slots.
Qed.

Lemma rela_fill_slots base size ent fuel : forall off i relocs relocs', Forall (slot_ok st0) relocs ->
  rela_fill fuel base size ent off i relocs = Ret relocs' -> Forall (slot_ok st0) relocs'.
Proof.
  induction fuel as [|fuel IH]; intros off i relocs relocs' Hf H; cbn [rela_fill] in H; (case_match; [|by simplify_eq]); [done|].
  apply bind_Ret_inv in H as (relocs1 & Hput & H). apply put_Ret_inv in Hput as [_ ->]. eapply IH, H. by apply Forall_insert.
Qed.

Lemma fill_relocs_slots elf d relr rela plt n slots st relocs st' : evolves st0 st ->
  fill_relocs max elf d relr rela plt n slots st = Ret (relocs, st') -> Forall (slot_ok st0) relocs /\ evolves st0 st'.
Proof.
  intros Hev H. unfold fill_relocs in H.
  assert (Forall (slot_ok st0) (replicate (Z.to_nat slots) None)) as H0 by by apply Forall_replicate.
  apply bind_Ret_inv in H as ([relocs1 st1] & H1 & H).
  assert (Forall (slot_ok st0) relocs1 /\ evolves st0 st1) as [F1 Hev1].
  { destruct (relr_size d =? 0); [by injection H1 as <- <-|]. apply bind_Ret_inv in H1 as ([relocs2 st2] & Ha & H1). apply bind_Ret_inv in H1 as (relocs3 & Hr & H1). simplify_eq.
    destruct (alloc_relrs_slots _ _ _ _ _ _ H0 Hev Ha). split; [by eapply relr_fill_slots|done]. }
  apply bind_Ret_inv in H as (relocs2 & H2 & H). apply bind_Ret_inv in H as (relocs3 & H3 & H).
  injection H as <- <-. split; [|done].
  assert (Forall (slot_ok st0) relocs2) as F2 by (destruct (rela_size d =? 0); [by injection H2 as <-|by eapply rela_fill_slots]).
  destruct (dt_pltrelsz d =? 0); [by injection H3 as <-|by eapply rela_fill_slots].
Qed.

Lemma free_relrs_slots relocs : forall st st', Forall (slot_ok st0) relocs -> evolves st0 st ->
  free_relrs max relocs st = Ret st' -> evolves st0 st'.
Proof.
  induction relocs as [|[[p a|]|] relocs IH]; intros st st' Hf Hev H; cbn [free_relrs] in H; try done; [by simplify_eq|].
  apply Forall_cons in Hf as [Hp Hf]. apply bind_Ret_inv in H as (st1 & H1 & H). eapply IH, H; [done|].
  eapply block_free, H1; [done|done|lia].
Qed.
End any_file.

(** ** The array of a file with whole tables *)

(** The sizes of the tables are machine integers. *)
Definition dyn_ok (d : dyn_info) : Prop :=
  0 <= d.(relr_size) < W64 /\ 0 <= d.(rela_size) < W64 /\ 0 <= d.(rela_ent) < W64 /\ 0 <= d.(dt_pltrelsz) < W64.

Lemma dyn_scan_ok elf off n fuel : Forall is_byte elf -> forall j d d', dyn_ok d -> dyn_scan fuel elf off n j d = Ret d' -> dyn_ok d'.
Proof.
  intros Hb. induction fuel as [|fuel IH]; intros j d d' Hd H; cbn [dyn_scan] in H; (destruct (j <? n); [|by simplify_eq]); [done|].
  apply bind_Ret_inv in H as (bs & Hf & H). apply fetch_inv in Hf as (H1 & H2 & ->).
  pose proof (field_range 8 8 (slice (Z.to_nat (u64 (off + j * 16))) 16 elf) (slice_bytes _ _ _ Hb)) as Hr. repeat case_match; try done; [by simplify_eq|..].
  all: eapply IH, H; destruct Hd as (? & ? & ? & ?); unfold dyn_ok, dyn_set; cbn; repeat split; repeat case_match; first [apply Hr|lia].
Qed.

Lemma read_dynamic_ok elf phdrs d : Forall is_byte elf -> read_dynamic elf phdrs = Ret d -> dyn_ok d.
Proof. intros Hb H. unfold read_dynamic in H. case_match; [by eapply dyn_scan_ok, H|by simplify_eq]. Qed.

Lemma rela_count elf off size ent : 0 <= size -> (size =? 0) || rela_ok elf off size ent = true ->
  0 <= size / ent /\ 24 * (size / ent) <= Z.max 0 (Z.of_nat (length elf)) /\
  (size <> 0 -> 24 <= ent /\ size / ent * ent = size /\ 0 <= off /\ off + size <= Z.of_nat (length elf)).
Proof.
  intros Hs H. split_eqb size 0; cbn [orb] in H.
  { assert (size / ent = 0) as -> by (replace size with 0 by lia; apply Zdiv_0_l). lia. }
  unfold rela_ok, in_file in H. rewrite !andb_true_iff, !Z.leb_le, Z.eqb_eq in H. destruct H as ((? & Hm) & ? & ?).
  pose proof (Z.div_mod size ent ltac:(lia)). pose proof (Z.div_pos size ent). split_and!; nia.
Qed.

Lemma length_rela_offsets base size ent : length (rela_offsets base size ent) = Z.to_nat (size / ent).
Proof. unfold rela_offsets. by rewrite length_fmap, length_seq. Qed.

(** The loop over a table, as the code guards it. *)
Lemma rela_fill_table elf base size ent fuel pre n post : 0 <= size < W64 -> (size =? 0) || rela_ok elf base size ent = true ->
  n = Z.to_nat (size / ent) -> (n <= fuel)%nat ->
  (if size =? 0 then Ret (pre ++ replicate n None ++ post)
   else rela_fill fuel base size ent 0 (length pre) (pre ++ replicate n None ++ post))
  = Ret (pre ++ file_slots (rela_offsets base size ent) ++ post).
Proof.
  intros Hs Hok -> Hf. destruct (rela_count _ _ _ _ (proj1 Hs) Hok) as (Hn & _ & Hnz). split_eqb size 0.
  { unfold rela_offsets. assert (size / ent = 0) as -> by (replace size with 0 by lia; apply Zdiv_0_l). done. }
  destruct (Hnz ltac:(done)) as (He & Hsz & _).
  apply (rela_fill_exact base size ent ltac:(lia) Hs _ 0 fuel pre _ post); [lia|done|by rewrite length_replicate].
Qed.

Section whole.
Context (max : nat) (elf : list Z) (d : dyn_info) (relr rela plt : Z) (es : list Z).
Hypothesis Hbytes : Forall is_byte elf.
Hypothesis Hd : dyn_ok d.
Hypothesis Hok : tables_ok elf d relr rela plt = true.
Hypothesis Hes : words elf relr (Z.to_nat (d.(relr_size) / 8)) = Ret es.
Hypothesis Hsmall : Z.of_nat (length elf) < 0x1000000000000.

Lemma tables_split : ((d.(rela_size) =? 0) || rela_ok elf rela d.(rela_size) d.(rela_ent) = true) /\
  ((d.(dt_pltrelsz) =? 0) || rela_ok elf plt d.(dt_pltrelsz) d.(rela_ent) = true) /\
  (d.(relr_size) <> 0 -> d.(relr_ent) = 8) /\ (d.(dt_pltrelsz) <> 0 -> d.(dt_pltrel) = DT_RELA).
Proof.
  unfold tables_ok in Hok. rewrite !andb_true_iff, !orb_true_iff, !andb_true_iff, !Z.eqb_eq in Hok.
  rewrite !orb_true_iff, !Z.eqb_eq. tauto.
Qed.

#[local] Abbreviation k0 := (length (relr_decode es 0)).
#[local] Abbreviation k1 := (Z.to_nat (d.(rela_size) / d.(rela_ent))).
#[local] Abbreviation k2 := (Z.to_nat (d.(dt_pltrelsz) / d.(rela_ent))).

(** The array stays far from the end of the address space. *)
Lemma array_bound : Z.of_nat (k0 + k1 + k2) <= 9 * Z.of_nat (length elf).
Proof.
  destruct tables_split as (H1 & H2 & _). destruct Hd as (? & ? & ? & ?).
  apply rela_count in H1 as (? & ? & _); [|lia]. apply rela_count in H2 as (? & ? & _); [|lia].
  pose proof (relr_decode_bound es 0). apply words_length in Hes as [Hl Hw]. lia.
Qed.

Lemma count_relocs_spec : count_relocs elf d relr = Ret (Z.of_nat k0, Z.of_nat (k0 + k1 + k2)).
Proof.
  pose proof array_bound as Hb. destruct tables_split as (H1 & H2 & H3 & H4). pose proof Hd as (? & ? & ? & ?).
  apply rela_count in H1 as (? & _ & H1); [|lia]. apply rela_count in H2 as (? & _ & H2); [|lia].
  pose proof (words_length _ _ _ _ Hes) as [Hl Hw].
  unfold count_relocs.
  assert ((if relr_size d =? 0 then Ret 0 else if negb (relr_ent d =? 8) then Panic "elf: relr_ent != 8"
           else relr_count_loop (Z.to_nat (relr_size d / 8)) elf relr 0) = Ret (Z.of_nat k0)) as ->.
  { split_eqb (relr_size d) 0.
    - assert (es = []) as ->. { apply nil_length_inv. rewrite Hl. replace (relr_size d) with 0 by lia. done. } done.
    - rewrite H3, relr_count_words by lia. rewrite Hes. done. }
  cbn [mbind outcome_bind].
  assert ((if rela_size d =? 0 then Ret (Z.of_nat k0) else if rela_ent d <? 24 then Panic "elf: rela_ent < sizeof(struct elf64_rela)"
           else Ret (u64 (Z.of_nat k0 + rela_size d / rela_ent d))) = Ret (Z.of_nat (k0 + k1))) as ->.
  { split_eqb (rela_size d) 0.
    - replace (rela_size d) with 0 by lia. rewrite Zdiv_0_l. by rewrite Nat.add_0_r.
    - split_ltb (rela_ent d) 24; [lia|]. rewrite u64_small by lia. f_equal. lia. }
  cbn [mbind outcome_bind]. split_eqb (dt_pltrelsz d) 0.
  - replace (dt_pltrelsz d) with 0 by lia. rewrite Zdiv_0_l. by rewrite Nat.add_0_r.
  - rewrite H4 by done. cbn [negb Z.eqb]. split_eqb (rela_ent d) 0; [lia|]. cbn. rewrite u64_small by lia. repeat f_equal. lia.
Qed.

Lemma fill_relocs_spec st0 st : evolves st0 st ->
  match fill_relocs max elf d relr rela plt (Z.of_nat k0) (Z.of_nat (k0 + k1 + k2)) st with
  | Ret (relocs, st') => exists ptrs, length ptrs = k0 /\ Forall (scratch_ok st0 24) ptrs /\ evolves st0 st' /\
      relocs = scratch_slots ptrs (relr_decode es 0) ++ file_slots (rela_offsets rela d.(rela_size) d.(rela_ent))
               ++ file_slots (rela_offsets plt d.(dt_pltrelsz) d.(rela_ent))
  | Panic msg => page_error msg
  | Undef | Diverge => False
  end.
Proof.
  intros Hev. pose proof array_bound as Hb. destruct tables_split as (H1 & H2 & H3 & _). pose proof Hd as (? & ? & ? & ?).
  pose proof (rela_count elf rela (rela_size d) (rela_ent d) ltac:(lia) H1) as (? & _ & _). pose proof (words_length _ _ _ _ Hes) as [Hl _].
  set (rest := replicate k1 (@None reloc_slot) ++ replicate k2 None ++ []).
  assert (Hfirst : match (if relr_size d =? 0 then Ret (replicate (k0 + k1 + k2) None, st)
     else r ← alloc_relrs max k0 0 (replicate (k0 + k1 + k2) None) st; let '(relocs, st) := (r : list (option reloc_slot) * pmm) in
          relocs ← relr_fill (Z.to_nat (d.(relr_size) / 8)) elf relr 0 0 relocs; Ret (relocs, st)) with
   | Ret (relocs, st') => exists ptrs, length ptrs = k0 /\ Forall (scratch_ok st0 24) ptrs /\ evolves st0 st' /\
       relocs = scratch_slots ptrs (relr_decode es 0) ++ rest
   | Panic msg => page_error msg | Undef | Diverge => False end).
  { assert (replicate (k0 + k1 + k2) (@None reloc_slot) = [] ++ replicate k0 None ++ rest) as ->.
    { unfold rest. by rewrite app_nil_r, <- !replicate_add, Nat.add_assoc. }
    split_eqb (relr_size d) 0.
    - assert (es = []) as ->. { apply nil_length_inv. rewrite Hl. replace (relr_size d) with 0 by lia. done. }
      exists []. split_and!; [done|constructor|done|done].
    - pose proof (alloc_relrs_spec max st0 k0 [] rest st Hev) as Ha. cbn [length] in Ha.
      destruct (alloc_relrs _ _ _ _ _) as [[relocs st1]|?| |]; try done. destruct Ha as (ptrs & Hlp & Hp & Hev1 & ->). cbn [mbind outcome_bind].
      rewrite (relr_fill_set elf _ Hbytes _ _ _ _ _ Hes).
      change 0%nat with (length (@nil (option reloc_slot))).
      rewrite (set_addrs_scratch ptrs (relr_decode es 0) (replicate k0 0) [] rest) by (rewrite ?length_replicate; done).
      by exists ptrs. }
  unfold fill_relocs. rewrite !Nat2Z.id.
  destruct (if relr_size d =? 0 then _ else _) as [[relocs1 st1]|?| |]; try done.
  destruct Hfirst as (ptrs & Hlp & Hp & Hev1 & ->). cbn [mbind outcome_bind].
  assert (length (scratch_slots ptrs (relr_decode es 0)) = k0) as Hls by (unfold scratch_slots; rewrite length_zip_with; lia).
  pose proof (rela_fill_table elf rela (rela_size d) (rela_ent d) (S (k0 + k1 + k2)) (scratch_slots ptrs (relr_decode es 0)) k1
    (replicate k2 None ++ []) ltac:(lia) H1 eq_refl ltac:(lia)) as Ht. rewrite Hls in Ht.
  unfold rest. rewrite Ht. cbn [mbind outcome_bind].
  set (pre := scratch_slots ptrs (relr_decode es 0) ++ file_slots (rela_offsets rela (rela_size d) (rela_ent d))).
  assert (Z.to_nat (u64 (Z.of_nat k0 + rela_size d / rela_ent d)) = length pre) as ->.
  { unfold pre, file_slots. rewrite length_app, Hls, length_fmap, length_rela_offsets, u64_small; lia. }
  rewrite (app_assoc _ (file_slots _)). fold pre.
  rewrite (rela_fill_table elf plt (dt_pltrelsz d) (rela_ent d)); [|lia|done|done|lia]. cbn [mbind outcome_bind].
  exists ptrs. split_and!; auto. unfold pre. by rewrite app_nil_r, <- app_assoc.
Qed.

(** The relocations the slots point to. *)
Lemma derefs_spec ptrs : length ptrs = k0 ->
  Forall2 (fun s r => deref elf s = Ret r)
    (scratch_slots ptrs (relr_decode es 0) ++ file_slots (rela_offsets rela d.(rela_size) d.(rela_ent))
     ++ file_slots (rela_offsets plt d.(dt_pltrelsz) d.(rela_ent)))
    ((relr_reloc <$> relr_decode es 0) ++ rela_table elf rela d.(rela_size) d.(rela_ent)
     ++ rela_table elf plt d.(dt_pltrelsz) d.(rela_ent)).
Proof.
  intros Hl.
  assert (forall base size ent, 0 <= size < W64 -> (size =? 0) || rela_ok elf base size ent = true ->
    Forall2 (fun s r => deref elf s = Ret r) (file_slots (rela_offsets base size ent)) (rela_table elf base size ent)) as Htab.
  { intros base size ent Hs Ho. apply rela_count in Ho as (Hn & _ & Ho); [|lia]. unfold file_slots, rela_offsets, rela_table.
    rewrite <- list_fmap_compose. apply Forall2_fmap, Forall_Forall2_diag, Forall_forall. intros k Hk. apply elem_of_seq in Hk.
    destruct (decide (size = 0)) as [->|Hnz]; [rewrite Zdiv_0_l in Hk; lia|]. destruct (Ho Hnz) as (? & ? & ? & ?).
    cbn [compose deref]. rewrite u64_small by nia. by rewrite fetch_Ret by nia. }
  destruct tables_split as (H1 & H2 & _). pose proof Hd as (? & ? & ? & ?).
  apply Forall2_app; [|apply Forall2_app; by apply Htab].
  clear Hes. revert Hl. generalize (relr_decode es 0) as addrs. induction ptrs as [|p ptrs IH]; intros [|a addrs] Hl; try done.
  constructor; [done|]. apply IH. by injection Hl.
Qed.
End whole.

(** The counter of the loop over the dynamic entries is 16 bits wide: with 65536
    entries or more and none that ends the table, the loop does not end. *)
Lemma dyn_scan_diverges elf off n : W16 <= n ->
  (forall j, 0 <= j < W16 -> exists bs, fetch elf (u64 (off + j * 16)) 16 = Ret bs /\
     field 0 8 bs <> DT_NULL /\ field 0 8 bs <> DT_NEEDED /\ field 0 8 bs <> DT_SYMENT) ->
  forall fuel j d, 0 <= j < W16 -> dyn_scan fuel elf off n j d = Diverge.
Proof.
  intros Hn Hent. induction fuel as [|fuel IH]; intros j d Hj; cbn [dyn_scan]; (destruct (Z.ltb_spec j n); [|lia]); [done|].
  destruct (Hent j Hj) as (bs & -> & H0 & H1 & H2). cbn [mbind outcome_bind]. rewrite !(proj2 (Z.eqb_neq _ _)) by done. cbn.
  apply IH. unfold u16. apply Z.mod_pos_bound. lia.
Qed.

(** * Relocating a segment

    The relocation of an image as the tables ask for it, on memory indexed by virtual
    addresses, and that [elf64_apply_relocations] does this to the segment in the
    buffer, leaves the rest of the memory in use alone, and gives back what it
    allocated. *)

(** ** The specification *)

Section spec.
Context (t : elf_target) (elf : list Z) (env : reloc_env) (slide vaddr size : Z).

(** One relocation: it writes the word at its address if that lies in the segment. *)
Definition relocate_one (r : elf64_rela) (m : Z -> Z) : outcome (Z -> Z) :=
  if (vaddr <=? r.(r_addr)) && (r.(r_addr) + 8 <=? vaddr + size) then
    v ← reloc_value t elf env slide (read64 m r.(r_addr)) r;
    Ret match v with None => m | Some x => write64 m r.(r_addr) x end
  else Ret m.

Fixpoint relocate (rs : list elf64_rela) (m : Z -> Z) : outcome (Z -> Z) :=
  match rs with
  | [] => Ret m
  | r :: rs => m ← relocate_one r m; relocate rs m
  end.
End spec.

(** ** The segment in the buffer *)

(** Memory at [buffer] holds the segment. *)
Definition shows (buffer vaddr size : Z) (mem m : Z -> Z) : Prop :=
  forall v, vaddr <= v < vaddr + size -> mem (buffer + (v - vaddr)) = m v.

Definition same_outside (buffer size : Z) (mem mem' : Z -> Z) : Prop :=
  forall a, ~ buffer <= a < buffer + size -> mem' a = mem a.

Lemma same_outside_trans buffer size m1 m2 m3 :
  same_outside buffer size m1 m2 -> same_outside buffer size m2 m3 -> same_outside buffer size m1 m3.
Proof. intros H1 H2 a Ha. rewrite H2, H1; auto. Qed.

Lemma read64_shows buffer vaddr size mem m x : shows buffer vaddr size mem m -> vaddr <= x -> x + 8 <= vaddr + size ->
  read64 mem (buffer + (x - vaddr)) = read64 m x.
Proof.
  intros Hs H1 H2. unfold read64. f_equal. apply list_eq. intros i. rewrite !list_lookup_fmap.
  destruct (decide (i < 8)%nat).
  - rewrite !lookup_seqZ_lt by lia. cbn. f_equal. replace (buffer + (x - vaddr) + Z.of_nat i) with (buffer + (x + Z.of_nat i - vaddr)) by lia.
    apply Hs. lia.
  - by rewrite !lookup_seqZ_ge by lia.
Qed.

Lemma write64_shows buffer vaddr size mem m x y : shows buffer vaddr size mem m ->
  shows buffer vaddr size (write64 mem (buffer + (x - vaddr)) y) (write64 m x y).
Proof.
  intros Hs v Hv. unfold write64.
  replace (buffer + (x - vaddr) <=? buffer + (v - vaddr)) with (x <=? v) by (destruct (Z.leb_spec x v), (Z.leb_spec (buffer + (x - vaddr)) (buffer + (v - vaddr))); lia).
  replace (buffer + (v - vaddr) <? buffer + (x - vaddr) + 8) with (v <? x + 8) by (destruct (Z.ltb_spec v (x + 8)), (Z.ltb_spec (buffer + (v - vaddr)) (buffer + (x - vaddr) + 8)); lia).
  replace (buffer + (v - vaddr) - (buffer + (x - vaddr))) with (v - x) by lia. case_match; [done|by apply Hs].
Qed.

Lemma write64_outside buffer size mem p y : buffer <= p -> p + 8 <= buffer + size -> same_outside buffer size mem (write64 mem p y).
Proof. intros H1 H2 a Ha. unfold write64. case_b; [|done]. case_b; [lia|done]. Qed.

Section apply.
Context (t : elf_target) (elf : list Z) (env : reloc_env) (buffer vaddr size slide : Z).
Hypothesis Hbuf : 0 <= buffer < W63.
Hypothesis Hv : 0 <= vaddr.
Hypothesis Hs : 0 <= size.
Hypothesis Hend : vaddr + size < W64.
Hypothesis Hbend : buffer + size < W63.

Lemma in_segment_spec addr : in_segment vaddr size addr = (vaddr <=? addr) && (addr + 8 <=? vaddr + size).
Proof.
  unfold in_segment. split_leb vaddr addr; [|done]. split_leb 8 size; cbn [andb].
  - rewrite u64_small by lia. destruct (Z.leb_spec addr (vaddr + size - 8)), (Z.leb_spec (addr + 8) (vaddr + size)); lia.
  - destruct (Z.leb_spec (addr + 8) (vaddr + size)); lia.
Qed.

Lemma buffer_ptr addr : vaddr <= addr -> addr + 8 <= vaddr + size -> u64 (u64 (buffer - vaddr) + addr) = buffer + (addr - vaddr).
Proof.
  intros H1 H2. unfold u64. rewrite Zplus_mod_idemp_l. replace (buffer - vaddr + addr) with (buffer + (addr - vaddr)) by lia.
  apply Z.mod_small. lia.
Qed.

(** Whatever the array holds, only the buffer is written. *)
Lemma apply_one_outside s mem mem' : apply_one t elf env buffer vaddr size slide s mem = Ret mem' -> same_outside buffer size mem mem'.
Proof.
  intros H. unfold apply_one in H. apply bind_Ret_inv in H as (r & _ & H). rewrite in_segment_spec in H.
  destruct (_ && _) eqn:E in H; cbn [negb] in H; [|by simplify_eq]. apply andb_true_iff in E as [?%Z.leb_le ?%Z.leb_le]. apply bind_Ret_inv in H as (v & _ & H). simplify_eq.
  destruct v as [x|]; [|done]. rewrite buffer_ptr by lia. apply write64_outside; lia.
Qed.

Lemma apply_all_outside relocs : forall mem mem', apply_all t elf env buffer vaddr size slide relocs mem = Ret mem' ->
  same_outside buffer size mem mem'.
Proof.
  induction relocs as [|s relocs IH]; intros mem mem' H; cbn [apply_all] in H; [by simplify_eq|].
  apply bind_Ret_inv in H as (mem1 & H1 & H). eapply same_outside_trans; [by eapply apply_one_outside|by apply IH].
Qed.

(** An array that holds [rs] relocates the segment as [rs] asks for. *)
Lemma apply_one_spec s r mem m : deref elf s = Ret r -> shows buffer vaddr size mem m ->
  match relocate_one t elf env slide vaddr size r m with
  | Ret m' => exists mem', apply_one t elf env buffer vaddr size slide s mem = Ret mem' /\ shows buffer vaddr size mem' m'
  | _ => True
  end.
Proof.
  intros Hr Hm. unfold relocate_one, apply_one. rewrite Hr. cbn [mbind outcome_bind]. rewrite in_segment_spec.
  split_leb vaddr (r_addr r); cbn [andb negb]; [|eauto]. split_leb (r_addr r + 8) (vaddr + size); cbn [negb]; [|eauto].
  rewrite buffer_ptr, (read64_shows _ _ _ _ _ _ Hm) by lia.
  destruct (reloc_value _ _ _ _ _ _) as [v|?| |]; try done. cbn [mbind outcome_bind]. eexists. split; [done|].
  destruct v as [x|]; [by apply write64_shows|done].
Qed.

Lemma apply_all_spec relocs rs : Forall2 (fun s r => deref elf s = Ret r) relocs rs -> forall mem m m', shows buffer vaddr size mem m ->
  relocate t elf env slide vaddr size rs m = Ret m' ->
  exists mem', apply_all t elf env buffer vaddr size slide relocs mem = Ret mem' /\ shows buffer vaddr size mem' m'.
Proof.
  induction 1 as [|s r relocs rs Hr _ IH]; intros mem m m' Hm H; cbn [relocate] in H; cbn [apply_all]; [simplify_eq; eauto|].
  apply bind_Ret_inv in H as (m1 & H1 & H). pose proof (apply_one_spec s r mem m Hr Hm) as Ha. rewrite H1 in Ha.
  destruct Ha as (mem1 & -> & Hm1). cbn [mbind outcome_bind]. by apply (IH _ m1).
Qed.
End apply.

(** ** elf64_apply_relocations *)

(** [mem] in the buffer, the memory of before elsewhere. *)
Definition patched (buffer size : Z) (old mem : Z -> Z) : Z -> Z :=
  fun a => if (buffer <=? a) && (a <? buffer + size) then mem a else old a.

Lemma patched_outside buffer size old mem : same_outside buffer size old (patched buffer size old mem).
Proof. intros a Ha. unfold patched. case_b; [|done]. case_b; [lia|done]. Qed.

Lemma patched_shows buffer vaddr size old mem m : shows buffer vaddr size mem m -> shows buffer vaddr size (patched buffer size old mem) m.
Proof.
  intros Hs v Hv. unfold patched. rewrite (proj2 (Z.leb_le _ _)), (proj2 (Z.ltb_lt _ _)) by lia. by apply Hs.
Qed.

(** Writing the buffer of a state that evolved from [st0]. *)
Lemma evolves_patched st0 st buffer size mem : evolves st0 st -> same_outside buffer size (ram st) mem ->
  evolves (set_ram (patched buffer size (ram st0) mem) st0) (set_ram mem st).
Proof.
  intros [I K U R] Ho. split; [by destruct I|done|done|]. intros a Ha. cbn. unfold patched.
  split_leb buffer a; [split_ltb a (buffer + size); [done|]|]; (cbn [andb]; rewrite Ho by lia; by apply R).
Qed.

Lemma block_slots n : 0 <= n -> n * 8 + 4096 <= W62 -> u64 (n * 8) = n * 8 /\ block_size (u64 (n * 8)) / 8 = n.
Proof.
  intros Hn Hw. rewrite u64_small by lia. split; [done|]. unfold block_size.
  destruct (ALIGN_UP_spec (n * 8) 4096) as (k & _ & Hr); [lia..|]. rewrite Z.min_l by lia. by rewrite Z.div_mul.
Qed.

Lemma scratch_slots_ok st0 ptrs addrs : length ptrs = length addrs -> Forall (scratch_ok st0 24) ptrs ->
  Forall (slot_ok st0) (scratch_slots ptrs addrs).
Proof.
  intros Hl Hf. revert addrs Hl. induction Hf as [|p ptrs Hp _ IH]; intros [|a addrs] Hl; try done.
  constructor; [done|]. apply IH. by injection Hl.
Qed.

Lemma file_slots_ok st0 offs : Forall (slot_ok st0) (file_slots offs).
Proof. apply Forall_fmap, Forall_forall. done. Qed.

Section relocations.
Context (max : nat) (t : elf_target) (elf : list Z) (phdr_size : Z) (phdrs : list elf64_phdr) (buffer vaddr size slide : Z).
Hypothesis Hbuf : 0 <= buffer < W63.
Hypothesis Hv : 0 <= vaddr.
Hypothesis Hs : 0 <= size.
Hypothesis Hend : vaddr + size < W64.
Hypothesis Hbend : buffer + size < W63.

#[local] Abbreviation apply_relocations := (elf64_apply_relocations max t elf phdr_size phdrs buffer vaddr size slide).

Lemma free_array st0 st relocs n array count st' : evolves st0 st -> Forall (slot_ok st0) relocs -> scratch_ok st0 count array -> 0 <= count ->
  (st ← free_relrs max (take n relocs) st; pmm_free max st array count) = Ret st' -> evolves st0 st'.
Proof.
  intros Hev Hf Ha Hc H. apply bind_Ret_inv in H as (st1 & H1 & H).
  apply (free_relrs_slots max st0) in H1; [|by apply Forall_take|done]. by eapply block_free, H.
Qed.

(** Whatever the file holds: memory in use is only written in the buffer. *)
Lemma apply_relocations_frame st0 st st' : evolves st0 st -> apply_relocations st = Ret st' ->
  exists mem, evolves (set_ram mem st0) st' /\ same_outside buffer size (ram st0) mem.
Proof.
  intros Hev H. unfold elf64_apply_relocations in H. case_match; [done|].
  do 6 (apply bind_Ret_inv in H as (? & _ & H)).
  apply bind_Ret_inv in H as ([relr_count relocs_i] & _ & H).
  apply bind_Ret_inv in H as ([array st1] & Ha & H). apply (block_alloc max st0) in Ha as [Hev1 Hsc]; [|done].
  apply bind_Ret_inv in H as ([relocs st2] & Hf & H). apply (fill_relocs_slots max st0) in Hf as [Hsl Hev2]; [|done].
  apply bind_Ret_inv in H as (mem & Hm & H). apply apply_all_outside in Hm; [|done..].
  exists (patched buffer size (ram st0) mem). split; [|apply patched_outside].
  eapply free_array, H; [by apply evolves_patched|done|done|apply u64_range].
Qed.

(** From an array that holds [rs] on. *)
Lemma apply_and_free st0 st ptrs addrs rest env rs m m' array n : evolves st0 st -> length ptrs = length addrs -> Forall (scratch_ok st0 24) ptrs ->
  scratch_ok st0 n array -> 0 <= n -> Forall2 (fun s r => deref elf s = Ret r) (scratch_slots ptrs addrs ++ rest) rs ->
  shows buffer vaddr size (ram st0) m -> (forall a, buffer <= a < buffer + size -> ~ usable st0 a) ->
  relocate t elf env slide vaddr size rs m = Ret m' ->
  match mem ← apply_all t elf env buffer vaddr size slide (scratch_slots ptrs addrs ++ rest) (ram st);
        st ← free_relrs max (scratch_slots ptrs addrs) (set_ram mem st); pmm_free max st array n with
  | Ret st' => exists mem, evolves (set_ram mem st0) st' /\ same_outside buffer size (ram st0) mem /\ shows buffer vaddr size mem m'
  | Panic msg => page_error msg
  | Undef | Diverge => False
  end.
Proof.
  intros Hev Hl Hp Ha Hn Hd Hm Hwin Hr.
  assert (shows buffer vaddr size (ram st) m) as Hm'. { intros v Hvv. rewrite (ev_ram _ _ Hev) by (apply Hwin; lia). by apply Hm. }
  eapply apply_all_spec in Hr as (mem & Hall & Hmem); [|done..].
  rewrite Hall. cbn [mbind outcome_bind]. apply apply_all_outside in Hall; [|done..].
  pose proof (evolves_patched _ _ _ _ _ Hev Hall) as Hev1. set (st1 := set_ram _ st0) in Hev1.
  pose proof (free_relrs_spec max st1 ptrs addrs _ Hl Hp Hev1) as Hfree.
  destruct (free_relrs _ _ _) as [st2|?| |]; try done. destruct Hfree as [Hev2 _]. cbn [mbind outcome_bind].
  assert (scratch_ok st1 n array) as Hsc by exact Ha. pose proof Hsc as (? & ? & _).
  pose proof (free_total max st2 array n (ev_inv _ _ Hev2) ltac:(lia) Hn ltac:(lia)) as Hft.
  destruct (pmm_free _ _ _ _) as [st3|?| |] eqn:Hf; try done.
  exists (patched buffer size (ram st0) mem).
  split; [by eapply block_free, Hf|split; [apply patched_outside|by apply patched_shows]].
Qed.

(** A file with whole tables: the segment is relocated. *)
Lemma apply_relocations_spec st0 st env rs m m' : evolves st0 st -> Forall is_byte elf -> Z.of_nat (length elf) < 0x1000000000000 ->
  56 <= phdr_size -> elf_relocs elf phdrs = Ret (env, rs) ->
  shows buffer vaddr size (ram st0) m -> (forall a, buffer <= a < buffer + size -> ~ usable st0 a) ->
  relocate t elf env slide vaddr size rs m = Ret m' ->
  match apply_relocations st with
  | Ret st' => exists mem, evolves (set_ram mem st0) st' /\ same_outside buffer size (ram st0) mem /\ shows buffer vaddr size mem m'
  | Panic msg => page_error msg
  | Undef | Diverge => False
  end.
Proof.
  intros Hev Hb Hlen Hph Hrel Hm Hwin Hreloc. unfold elf_relocs in Hrel. unfold elf64_apply_relocations.
  split_ltb phdr_size 56; [lia|].
  apply bind_Ret_inv in Hrel as (d & Hd & Hrel). rewrite Hd. apply read_dynamic_ok in Hd; [|done]. cbn [mbind outcome_bind].
  do 5 (apply bind_Ret_inv in Hrel as (? & -> & Hrel); cbn [mbind outcome_bind]).
  destruct (tables_ok _ _ _ _ _) eqn:Hok in Hrel; [|done]. cbn [negb] in Hrel.
  apply bind_Ret_inv in Hrel as (es & Hes & Hrel). injection Hrel as <- <-.
  rewrite (count_relocs_spec _ _ _ _ _ _ Hd Hok Hes Hlen). cbn [mbind outcome_bind].
  pose proof (array_bound _ _ _ _ _ _ Hd Hok Hes) as Hbound.
  set (k0 := length (relr_decode es 0)) in *. set (k := (k0 + _ + _)%nat) in *.
  destruct (block_slots (Z.of_nat k)) as [Hk Hblk]; [lia..|]. rewrite Hblk, Hk.
  pose proof (alloc_total max st (Z.of_nat k * 8) MEMMAP_BOOTLOADER_RECLAIMABLE 4096 (ev_inv _ _ Hev) ltac:(lia) ltac:(lia) ltac:(lia)) as Hta.
  change (ext_mem_alloc_type_aligned max st _ _ 4096) with (ext_mem_alloc max st (Z.of_nat k * 8)) in Hta.
  destruct (ext_mem_alloc max st (Z.of_nat k * 8)) as [[array st1]|?| |] eqn:Ha; try done. cbn [mbind outcome_bind].
  apply (block_alloc max st0) in Ha as [Hev1 Hsc]; [|done].
  pose proof (fill_relocs_spec max _ _ _ _ _ _ Hb Hd Hok Hes Hlen st0 st1 Hev1) as Hfill. fold k0 k in Hfill.
  destruct (fill_relocs _ _ _ _ _ _ _ _ _) as [[relocs st2]|?| |]; try done. destruct Hfill as (ptrs & Hlp & Hptrs & Hev2 & ->).
  cbn [mbind outcome_bind].
  pose proof (derefs_spec _ _ _ _ _ _ Hd Hok Hlen ptrs Hlp) as Hder.
  assert (length ptrs = length (relr_decode es 0)) as Hlp' by done.
  rewrite !Nat2Z.id, (firstn_all2 (n := k)), take_app_length'.
  - eapply apply_and_free; eauto. lia.
  - unfold scratch_slots. rewrite length_zip_with. lia.
  - rewrite !length_app. unfold scratch_slots, file_slots. rewrite length_zip_with, !length_fmap, !length_rela_offsets. lia.
Qed.
End relocations.
