(* ===== verification/ElfLoad.v ===== *)
(** * Loading an executable

    What the checks of the program headers establish, and the image that
    [elf64_load] leaves in memory: every segment at its place, its bytes those of the
    file, then zeros, relocated; and nothing else written. *)

From S2P Require Import Prelude Bytes Libc Memmap Sanitise Pmm PmmFacts PmmSpec Elf ElfReloc.

(** ** The program headers *)

Definition seg_end (ph : elf64_phdr) : Z := ph.(p_vaddr) + ph.(p_memsz).

(** The members of a program header are machine integers. *)
Definition phdr_ok (ph : elf64_phdr) : Prop :=
  0 <= ph.(p_offset) < W64 /\ 0 <= ph.(p_vaddr) < W64 /\ 0 <= ph.(p_paddr) < W64 /\ 0 <= ph.(p_filesz) < W64 /\
  0 <= ph.(p_memsz) < W64 /\ 0 <= ph.(p_align) < W64.

Lemma load_phdr_ok bs : Forall is_byte bs -> phdr_ok (load_phdr bs).
Proof. intros Hb. repeat split; apply (field_range _ 8 bs Hb). Qed.

Lemma read_phdrs_ok elf phoff sz k : Forall is_byte elf -> forall i phdrs, read_phdrs elf phoff sz k i = Ret phdrs -> Forall phdr_ok phdrs.
Proof.
  intros Hb. induction k as [|k IH]; intros i phdrs H; cbn [read_phdrs] in H; [by simplify_eq|].
  apply bind_Ret_inv in H as (bs & Hf & H). apply bind_Ret_inv in H as (rest & Hr & H). simplify_eq. constructor; [|by eapply IH].
  apply fetch_inv in Hf as (H1 & H2 & ->). by apply load_phdr_ok, slice_bytes.
Qed.

Lemma is_load_pos ph : phdr_ok ph -> is_load ph = true -> 0 < ph.(p_memsz).
Proof. intros Hok H. unfold is_load in H. apply andb_true_iff in H as [_ H]. apply negb_true_iff, Z.eqb_neq in H. destruct Hok. lia. Qed.

(** The inner loop: the segment [ph] holds the start of no other segment. *)
Lemma check_against_spec want reloc ph e i phdrs : forall j, check_against want reloc ph e i j phdrs = Ret () ->
  forall k q, phdrs !! k = Some q -> is_load q = true -> reloc || (FIXED_HIGHER_HALF_OFFSET_64 <=? q.(p_vaddr)) = true -> i <> (j + k)%nat ->
  ~ ph.(p_vaddr) <= q.(p_vaddr) < e.
Proof.
  induction phdrs as [|p phdrs IH]; intros j H k q Hk Hq Hh Hne; [done|]. cbn [check_against] in H.
  assert (check_against want reloc ph e i (S j) phdrs = Ret () -> k <> 0%nat -> ~ ph.(p_vaddr) <= q.(p_vaddr) < e) as Hnext.
  { intros Hn Hk0. destruct k as [|k]; [done|]. apply (IH (S j) Hn k q); auto. lia. }
  destruct k as [|k].
  - injection Hk as ->. rewrite Hq in H. cbn [negb] in H.
    assert ((p_vaddr q <? FIXED_HIGHER_HALF_OFFSET_64) && negb reloc = false) as Hlow.
    { destruct reloc; [by rewrite andb_false_r|]. cbn in Hh. apply Z.leb_le in Hh. split_ltb (p_vaddr q) FIXED_HIGHER_HALF_OFFSET_64; [lia|done]. }
    rewrite Hlow, decide_False in H by lia. destruct (add_overflow _ _); [|done].
    destruct (_ || _) eqn:Eo in H; [done|]. apply orb_false_iff in Eo as [Eo _].
    intros [? ?]. rewrite (proj2 (Z.leb_le _ _)), (proj2 (Z.ltb_lt _ _)) in Eo by lia. done.
  - repeat case_match; try done; by apply Hnext.
Qed.

(** What the outer loop knows of a segment after its turn. *)
Record seg_ok (want reloc : bool) (all : list elf64_phdr) (ls : layout_state) (i : nat) (ph : elf64_phdr) : Prop := {
  so_end : seg_end ph < W64;
  so_min : ls.(min_vaddr) <= ph.(p_vaddr);
  so_max : seg_end ph <= ls.(max_vaddr);
  so_half : reloc || (FIXED_HIGHER_HALF_OFFSET_64 <=? ph.(p_vaddr)) = true;
  so_against : check_against want reloc ph (seg_end ph) i 0 all = Ret ()
}.

Lemma scan_phdrs_spec want reloc all phdrs : forall i ls ls', scan_phdrs want reloc all i phdrs ls = Ret ls' ->
  ls'.(min_vaddr) <= ls.(min_vaddr) /\ ls.(max_vaddr) <= ls'.(max_vaddr) /\
  (forall k ph, phdrs !! k = Some ph -> is_load ph = true -> seg_ok want reloc all ls' (i + k) ph).
Proof.
  induction phdrs as [|p phdrs IH]; intros i ls ls' H; cbn [scan_phdrs] in H; [by simplify_eq|].
  assert (forall ls1, scan_phdrs want reloc all (S i) phdrs ls1 = Ret ls' ->
    ls'.(min_vaddr) <= ls1.(min_vaddr) /\ ls1.(max_vaddr) <= ls'.(max_vaddr) /\
    forall k ph, phdrs !! k = Some ph -> is_load ph = true -> seg_ok want reloc all ls' (i + S k) ph) as Hnext.
  { intros ls1 H1. apply IH in H1 as (? & ? & Hk). split_and!; auto. intros k ph. rewrite Nat.add_succ_r. apply Hk. }
  destruct (is_load p) eqn:Hp; cbn [negb] in H.
  - destruct (_ && _) eqn:Elow in H; [done|]. destruct (_ && _) in H; [done|].
    destruct (add_overflow _ _) as [e|] eqn:Ea in H; [|done]. apply add_overflow_Some in Ea as [-> He]. fold (seg_end p) in *.
    apply bind_Ret_inv in H as ([] & Hag & H). apply Hnext in H as (Hmin & Hmax & Hk). cbn [min_vaddr max_vaddr] in *.
    assert (min_vaddr ls' <= p_vaddr p /\ min_vaddr ls' <= min_vaddr ls) by (split_ltb (p_vaddr p) (min_vaddr ls); lia).
    assert (seg_end p <= max_vaddr ls' /\ max_vaddr ls <= max_vaddr ls') by (split_ltb (max_vaddr ls) (seg_end p); lia).
    split_and!; [tauto..|]. intros [|k] ph; [|apply Hk]. intros [= ->] _. rewrite Nat.add_0_r. split; try tauto.
    destruct reloc; [done|]. cbn. apply Z.leb_le. rewrite andb_true_r in Elow. apply Z.ltb_ge in Elow. done.
  - apply Hnext in H as (Hmin & Hmax & Hk). split_and!; auto. intros [|k] ph; [|apply Hk]. intros [= ->]. by rewrite Hp.
Qed.

Definition segs_disjoint (p q : elf64_phdr) : Prop :=
  is_load p = true -> is_load q = true -> seg_end p <= q.(p_vaddr) \/ seg_end q <= p.(p_vaddr).

Lemma pairwise_lookup {A} (R : A -> A -> Prop) l :
  (forall i j x y, (i < j)%nat -> l !! i = Some x -> l !! j = Some y -> R x y) -> pairwise R l.
Proof.
  induction l as [|a l IH]; intros H; [constructor|]. apply pairwise_cons. split.
  - apply Forall_forall. intros y [j Hj]%list_elem_of_lookup. apply (H 0%nat (S j) a y); [lia|done|done].
  - apply IH. intros i j x y Hij Hi Hj. apply (H (S i) (S j)); [lia|done|done].
Qed.

Lemma scan_disjoint want reloc all ls ls' : Forall phdr_ok all -> scan_phdrs want reloc all 0 all ls = Ret ls' -> pairwise segs_disjoint all.
Proof.
  intros Hok H. apply scan_phdrs_spec in H as (_ & _ & Hk). apply pairwise_lookup. intros i j p q Hij Hi Hj Hp Hq.
  destruct (Hk i p Hi Hp) as [_ _ _ Hph Hpa], (Hk j q Hj Hq) as [_ _ _ Hqh Hqa].
  pose proof (check_against_spec _ _ _ _ _ _ _ Hpa j q Hj Hq Hqh ltac:(lia)).
  pose proof (check_against_spec _ _ _ _ _ _ _ Hqa i p Hi Hp Hph ltac:(lia)).
  rewrite Forall_lookup in Hok. pose proof (is_load_pos p (Hok i p Hi) Hp). pose proof (is_load_pos q (Hok j q Hj) Hq).
  unfold seg_end in *. lia.
Qed.

(** The bounds are those of segments. *)
Lemma scan_attained want reloc all phdrs : forall i ls ls', scan_phdrs want reloc all i phdrs ls = Ret ls' ->
  (ls'.(min_vaddr) = ls.(min_vaddr) \/ exists ph, ph ∈ phdrs /\ is_load ph = true /\ ls'.(min_vaddr) = ph.(p_vaddr)) /\
  (ls'.(max_vaddr) = ls.(max_vaddr) \/ exists ph, ph ∈ phdrs /\ is_load ph = true /\ ls'.(max_vaddr) = seg_end ph).
Proof.
  induction phdrs as [|p phdrs IH]; intros i ls ls' H; cbn [scan_phdrs] in H; [simplify_eq; auto|].
  assert (forall ls1, scan_phdrs want reloc all (S i) phdrs ls1 = Ret ls' ->
    (min_vaddr ls' = min_vaddr ls1 \/ exists ph, ph ∈ p :: phdrs /\ is_load ph = true /\ min_vaddr ls' = p_vaddr ph) /\
    (max_vaddr ls' = max_vaddr ls1 \/ exists ph, ph ∈ p :: phdrs /\ is_load ph = true /\ max_vaddr ls' = seg_end ph)) as Hnext.
  { intros ls1 H1. apply IH in H1 as [Hmin Hmax]. split.
    - destruct Hmin as [?|(q & ? & ? & ?)]; [by left|right; exists q; split_and!; [by right|done|done]].
    - destruct Hmax as [?|(q & ? & ? & ?)]; [by left|right; exists q; split_and!; [by right|done|done]]. }
  destruct (is_load p) eqn:Hp; cbn [negb] in H; [|auto].
  destruct (_ && _) in H; [done|]. destruct (_ && _) in H; [done|].
  destruct (add_overflow _ _) as [e|] eqn:Ea in H; [|done]. apply add_overflow_Some in Ea as [-> He].
  apply bind_Ret_inv in H as ([] & _ & H). apply Hnext in H as [Hmin Hmax]. cbn [min_vaddr max_vaddr] in *. split.
  - destruct Hmin as [Hmin|?]; [|by right]. split_ltb (p_vaddr p) (min_vaddr ls); [right; exists p|by left]. split_and!; [left|done..].
  - destruct Hmax as [Hmax|?]; [|by right]. split_ltb (max_vaddr ls) (p_vaddr p + p_memsz p); [right; exists p|by left]. split_and!; [left|done..].
Qed.

(** ** The alignment *)

Lemma pow2_land x : 0 < x -> Z.land x (x - 1) = 0 -> exists k, 0 <= k /\ x = 2 ^ k.
Proof.
  intros Hx Hl. exists (Z.log2 x). pose proof (Z.log2_nonneg x). split; [done|].
  destruct (Z.log2_spec x Hx) as [Hlo Hhi]. destruct (decide (x = 2 ^ Z.log2 x)) as [|Hne]; [done|exfalso].
  assert (Z.testbit (Z.land x (x - 1)) (Z.log2 x) = true) as Hb; [|by rewrite Hl, Z.bits_0 in Hb].
  rewrite Z.land_spec, Z.bit_log2 by done. replace (Z.log2 x) with (Z.log2 (x - 1)) at 1; [apply Z.bit_log2; lia|].
  apply Z.log2_unique; lia.
Qed.

Definition align_ok (al : Z) : Prop := 0 < al < W64 /\ (al | W63).

Lemma pow2_align x : 0 < x < W64 -> Z.land x (x - 1) = 0 -> align_ok x.
Proof.
  intros Hx Hl. split; [done|]. destruct (pow2_land x (proj1 Hx) Hl) as (k & Hk & ->).
  assert (k < 64) by (apply (Z.pow_lt_mono_r_iff 2); [lia..|apply Hx]).
  exists (2 ^ (63 - k)). rewrite <- Z.pow_add_r by lia. by replace (63 - k + k) with 63 by lia.
Qed.

Lemma max_align_ok phdrs : forall ret al, Forall phdr_ok phdrs -> ret = 0 \/ align_ok ret -> max_align_loop phdrs ret = Ret al -> align_ok al.
Proof.
  induction phdrs as [|ph phdrs IH]; intros ret al Hok Hr H; cbn [max_align_loop] in H.
  { split_eqb ret 0; [done|]. simplify_eq. destruct Hr; [done|done]. }
  apply Forall_cons in Hok as [Hp Hok]. case_match; [by eapply IH|]. destruct (_ && _) eqn:Ea in H; [done|].
  eapply IH, H; [done|]. split_ltb ret (p_align ph); [|done]. right. destruct Hp as (_ & _ & _ & _ & _ & Hal).
  destruct (decide (p_align ph = 1)) as [->|]; [split; [lia|apply Z.divide_1_l]|].
  apply pow2_align; [destruct Hr as [->|[? _]]; lia|].
  rewrite (proj2 (Z.ltb_lt _ _)) in Ea by (destruct Hr as [->|[? _]]; lia). by apply negb_false_iff, Z.eqb_eq in Ea.
Qed.

(** ** The segments *)

(** A segment before relocation, by virtual addresses: the bytes of the file, then zeros. *)
Definition seg_bytes (elf : list Z) (ph : elf64_phdr) : Z -> Z :=
  fun v => if v - ph.(p_vaddr) <? ph.(p_filesz) then nth (Z.to_nat (ph.(p_offset) + (v - ph.(p_vaddr)))) elf 0 else 0.

(** And after, if the file has it. *)
Definition seg_image (t : elf_target) (elf : list Z) (env : reloc_env) (rs : list elf64_rela) (slide : Z) (ph : elf64_phdr)
    : outcome (Z -> Z) :=
  if (ph.(p_memsz) <? ph.(p_filesz)) || (Z.of_nat (length elf) <? ph.(p_offset) + ph.(p_filesz)) then Panic "malformed segment"
  else relocate t elf env slide ph.(p_vaddr) ph.(p_memsz) rs (seg_bytes elf ph).

Lemma copy_to_outside mem dst bs size : Z.of_nat (length bs) <= size -> same_outside dst size mem (copy_to mem dst bs).
Proof. intros Hl a Ha. unfold copy_to. case_b; [|done]. case_b; [lia|done]. Qed.

Lemma nth_slice n off k elf : (k < n)%nat -> nth k (slice off n elf) 0 = nth (off + k) elf 0.
Proof. intros Hk. unfold slice. rewrite !nth_lookup, lookup_take_lt, lookup_drop by done. done. Qed.

Lemma copy_to_shows elf ph mem dst : phdr_ok ph -> ph.(p_filesz) <= ph.(p_memsz) -> ph.(p_offset) + ph.(p_filesz) <= Z.of_nat (length elf) ->
  (forall a, dst <= a < dst + ph.(p_memsz) -> mem a = 0) ->
  shows dst ph.(p_vaddr) ph.(p_memsz) (copy_to mem dst (slice (Z.to_nat ph.(p_offset)) (Z.to_nat ph.(p_filesz)) elf)) (seg_bytes elf ph).
Proof.
  intros (? & ? & _ & ? & ? & _) Hf Hl Hz v Hv. unfold copy_to, seg_bytes. rewrite length_slice, Z2Nat.id by lia.
  rewrite (proj2 (Z.leb_le _ _)) by lia. cbn [andb].
  split_ltb (v - p_vaddr ph) (p_filesz ph).
  - rewrite (proj2 (Z.ltb_lt _ _)) by lia. rewrite nth_slice by lia. f_equal. lia.
  - split_ltb (dst + (v - p_vaddr ph)) (dst + p_filesz ph); [lia|]. apply Hz. lia.
Qed.

Section segments.
Context (max : nat) (t : elf_target) (elf : list Z) (phdr_size : Z) (all : list elf64_phdr) (base minv maxv slide : Z).
Hypothesis Hbase : 0 <= base.
Hypothesis Hspan : base + (maxv - minv) <= 0x100000000.
Hypothesis Hminv : 0 <= minv.
Hypothesis Hmaxv : maxv < W64.

Definition seg_in (ph : elf64_phdr) : Prop := phdr_ok ph /\ minv <= ph.(p_vaddr) /\ seg_end ph <= maxv.

#[local] Abbreviation load_addr ph := (base + (p_vaddr ph - minv)).

Lemma load_addr_eq ph : seg_in ph -> u64 (base + u64 (p_vaddr ph - minv)) = load_addr ph.
Proof. intros ((? & ? & _ & _ & ? & _) & ? & He). unfold seg_end in He. rewrite (u64_small (p_vaddr ph - minv)), u64_small; lia. Qed.

#[local] Abbreviation copied ph st :=
  (copy_to (ram st) (load_addr ph) (slice (Z.to_nat (p_offset ph)) (Z.to_nat (p_filesz ph)) elf)).

(** One segment, after the checks of its sizes. *)
Lemma load_segment_eq ph phdrs bss st : is_load ph = true -> seg_in ph -> p_filesz ph <= p_memsz ph ->
  p_offset ph + p_filesz ph <= Z.of_nat (length elf) -> p_offset ph + p_filesz ph < W64 ->
  load_segments max t elf phdr_size all base minv maxv slide (ph :: phdrs) bss st =
  st1 ← elf64_apply_relocations max t elf phdr_size all (load_addr ph) (p_vaddr ph) (p_memsz ph) slide (set_ram (copied ph st) st);
  load_segments max t elf phdr_size all base minv maxv slide phdrs (if seg_end ph =? maxv then p_memsz ph - p_filesz ph else bss) st1.
Proof.
  intros Hl Hin Hf Ho Hw. cbn [load_segments]. rewrite Hl, load_addr_eq by done. cbn [negb].
  destruct Hin as ((? & ? & _ & ? & ? & _) & _ & He). unfold seg_end in *.
  rewrite (proj2 (Z.ltb_ge _ _)), add_overflow_lt, (proj2 (Z.ltb_ge _ _)), fetch_Ret, (u64_small (p_vaddr ph + _)) by lia. done.
Qed.

Lemma load_segment_inv ph phdrs bss st r : is_load ph = true -> seg_in ph ->
  load_segments max t elf phdr_size all base minv maxv slide (ph :: phdrs) bss st = Ret r ->
  p_filesz ph <= p_memsz ph /\ p_offset ph + p_filesz ph <= Z.of_nat (length elf) /\ p_offset ph + p_filesz ph < W64.
Proof.
  intros Hl Hin H. cbn [load_segments] in H. rewrite Hl in H. cbn [negb] in H. split_ltb (p_memsz ph) (p_filesz ph); [done|].
  destruct (add_overflow _ _) as [e|] eqn:Ea in H; [|done]. apply add_overflow_Some in Ea as [-> He].
  destruct (Z.ltb_spec (Z.of_nat (length elf)) (p_offset ph + p_filesz ph)); [done|]. lia.
Qed.

Lemma seg_in_bounds ph : seg_in ph -> 0 <= load_addr ph < W63 /\ 0 <= p_vaddr ph /\ 0 <= p_memsz ph /\ p_vaddr ph + p_memsz ph < W64 /\
  load_addr ph + p_memsz ph < W63 /\ base <= load_addr ph /\ load_addr ph + p_memsz ph <= base + (maxv - minv).
Proof. intros ((_ & ? & _ & _ & ? & _) & ? & He). unfold seg_end in He. lia. Qed.

Lemma same_outside_weaken b1 s1 b2 s2 m m' : b2 <= b1 -> b1 + s1 <= b2 + s2 -> same_outside b1 s1 m m' -> same_outside b2 s2 m m'.
Proof. intros H1 H2 H a Ha. apply H. lia. Qed.

(** Whatever the file holds: memory in use is only written in the image. *)
Lemma load_segments_frame phdrs : forall bss st0 st bss' st', Forall (fun ph => is_load ph = true -> seg_in ph) phdrs -> evolves st0 st ->
  load_segments max t elf phdr_size all base minv maxv slide phdrs bss st = Ret (bss', st') ->
  exists mem, evolves (set_ram mem st0) st' /\ same_outside base (maxv - minv) (ram st0) mem.
Proof.
  induction phdrs as [|ph phdrs IH]; intros bss st0 st bss' st' Hin Hev H.
  { injection H as <- <-. exists (ram st0). split; [by destruct st0|done]. }
  apply Forall_cons in Hin as [Hph Hin]. destruct (is_load ph) eqn:Hl; [|cbn [load_segments] in H; rewrite Hl in H; by apply (IH bss st0 st bss')].
  specialize (Hph eq_refl). pose proof (load_segment_inv _ _ _ _ _ Hl Hph H) as (Hfz & Hfl & Hfw).
  rewrite load_segment_eq in H by done. apply bind_Ret_inv in H as (st1 & Hr & H).
  destruct (seg_in_bounds ph Hph) as (? & ? & ? & ? & ? & ? & ?). pose proof Hph as ((? & _ & _ & ? & _) & _).
  assert (same_outside (load_addr ph) (p_memsz ph) (ram st) (copied ph st)) as Hc.
  { apply copy_to_outside. rewrite length_slice; lia. }
  eapply apply_relocations_frame in Hr as (mem2 & Hev2 & Ho2); [|done..|by apply (evolves_patched _ _ _ _ _ Hev Hc)].
  apply (IH _ (set_ram mem2 st0)) in H as (mem3 & Hev3 & Ho3); [|done|by destruct st0].
  exists mem3. split; [by destruct st0|]. eapply same_outside_trans, Ho3. cbn in Ho2 |- *.
  eapply same_outside_weaken, same_outside_trans, Ho2; [lia|lia|apply patched_outside].
Qed.

Definition in_seg (a : Z) (ph : elf64_phdr) : Prop := load_addr ph <= a < load_addr ph + p_memsz ph.

(** One segment of a file with whole tables. *)
Lemma load_one_spec env rs ph m st0 st : Forall is_byte elf -> Z.of_nat (length elf) < 0x1000000000000 -> 56 <= phdr_size ->
  elf_relocs elf all = Ret (env, rs) -> seg_in ph -> p_filesz ph <= p_memsz ph -> p_offset ph + p_filesz ph <= Z.of_nat (length elf) ->
  relocate t elf env slide (p_vaddr ph) (p_memsz ph) rs (seg_bytes elf ph) = Ret m -> evolves st0 st ->
  (forall a, in_seg a ph -> ~ usable st0 a /\ ram st0 a = 0) ->
  match elf64_apply_relocations max t elf phdr_size all (load_addr ph) (p_vaddr ph) (p_memsz ph) slide (set_ram (copied ph st) st) with
  | Ret st' => exists mem, evolves (set_ram mem st0) st' /\ same_outside (load_addr ph) (p_memsz ph) (ram st0) mem /\
      shows (load_addr ph) (p_vaddr ph) (p_memsz ph) mem m
  | Panic msg => page_error msg
  | Undef | Diverge => False
  end.
Proof.
  intros Hb Hlen Hsz Hrel Hph Hfz Hfl Hr Hev Hz. unfold in_seg in Hz.
  destruct (seg_in_bounds ph Hph) as (? & ? & ? & ? & ? & ? & ?). pose proof (proj1 Hph) as Hok. pose proof Hok as (? & _ & _ & ? & _).
  assert (same_outside (load_addr ph) (p_memsz ph) (ram st) (copied ph st)) as Hc.
  { apply copy_to_outside. rewrite length_slice; lia. }
  pose proof (evolves_patched _ _ _ _ _ Hev Hc) as Hev1.
  assert (shows (load_addr ph) (p_vaddr ph) (p_memsz ph) (copied ph st) (seg_bytes elf ph)) as Hs.
  { apply copy_to_shows; [done..|]. intros a Ha. rewrite (ev_ram _ _ Hev) by by apply Hz. by apply Hz. }
  eapply patched_shows in Hs.
  eapply (apply_relocations_spec max t) in Hr; [|done..|exact Hev1|done|done|done|done|exact Hs|intros a Ha; by apply Hz].
  destruct (elf64_apply_relocations _ _ _ _ _ _ _ _ _ _) as [st'|?| |]; try done. destruct Hr as (mem & Hev' & Ho & Hm).
  exists mem. split_and!; [by destruct st0| |done]. eapply same_outside_trans, Ho. apply patched_outside.
Qed.

(** Only the loadable segments matter. *)
Lemma load_segments_filter phdrs : forall bss st,
  load_segments max t elf phdr_size all base minv maxv slide phdrs bss st =
  load_segments max t elf phdr_size all base minv maxv slide (List.filter is_load phdrs) bss st.
Proof.
  induction phdrs as [|ph phdrs IH]; intros bss st; [done|]. cbn [List.filter].
  destruct (is_load ph) eqn:Hl; cbn [load_segments]; rewrite Hl; cbn [negb]; [|apply IH].
  destruct (p_memsz ph <? p_filesz ph); [done|]. destruct (add_overflow _ _); [|done].
  destruct (Z.of_nat (length elf) <? z); [done|]. destruct (fetch _ _ _); [|done..]. cbn [mbind outcome_bind].
  destruct (elf64_apply_relocations _ _ _ _ _ _ _ _ _ _); [|done..]. cbn [mbind outcome_bind]. apply IH.
Qed.

(** A file with whole tables: each segment holds its image, and nothing else of the memory in use is written. *)
Lemma load_segments_spec env rs phdrs : Forall is_byte elf -> Z.of_nat (length elf) < 0x1000000000000 -> 56 <= phdr_size ->
  elf_relocs elf all = Ret (env, rs) -> forall bss st0 st,
  Forall (fun ph => is_load ph = true /\ seg_in ph /\ exists m, seg_image t elf env rs slide ph = Ret m) phdrs ->
  pairwise (fun p q => seg_end p <= p_vaddr q \/ seg_end q <= p_vaddr p) phdrs -> evolves st0 st ->
  (forall ph a, ph ∈ phdrs -> in_seg a ph -> ~ usable st0 a /\ ram st0 a = 0) ->
  match load_segments max t elf phdr_size all base minv maxv slide phdrs bss st with
  | Ret (_, st') => exists mem, evolves (set_ram mem st0) st' /\
      (forall a, (forall ph, ph ∈ phdrs -> ~ in_seg a ph) -> mem a = ram st0 a) /\
      (forall ph m, ph ∈ phdrs -> seg_image t elf env rs slide ph = Ret m -> shows (load_addr ph) (p_vaddr ph) (p_memsz ph) mem m)
  | Panic msg => page_error msg
  | Undef | Diverge => False
  end.
Proof.
  intros Hb Hlen Hsz Hrel. induction phdrs as [|ph phdrs IH]; intros bss st0 st Hin Hdis Hev Hz.
  { exists (ram st0). split_and!; [by destruct st0|done|]. by intros ? ? ?%not_elem_of_nil. }
  apply Forall_cons in Hin as [(Hl & Hph & m & Hm) Hin]. apply pairwise_cons in Hdis as [Hd Hdis]. rewrite Forall_forall in Hd.
  unfold seg_image in Hm. destruct (_ || _) eqn:Ec in Hm; [done|]. apply orb_false_iff in Ec as [?%Z.ltb_ge ?%Z.ltb_ge].
  rewrite load_segment_eq by (done || lia).
  assert (forall a, in_seg a ph -> ~ usable st0 a /\ ram st0 a = 0) as Hz0 by (intros a; apply Hz; left).
  pose proof (load_one_spec env rs ph m st0 st Hb Hlen Hsz Hrel Hph ltac:(lia) ltac:(lia) Hm Hev Hz0) as Hone.
  destruct (elf64_apply_relocations _ _ _ _ _ _ _ _ _ _) as [st1|?| |]; try done. destruct Hone as (mem1 & Hev1 & Ho1 & Hs1). cbn [mbind outcome_bind].
  assert (forall q a, q ∈ phdrs -> in_seg a q -> ~ in_seg a ph) as Hdd.
  { intros q a Hq. specialize (Hd q Hq). unfold in_seg, seg_end in *. lia. }
  assert (forall q a, q ∈ phdrs -> in_seg a q -> ~ usable (set_ram mem1 st0) a /\ ram (set_ram mem1 st0) a = 0) as Hz1.
  { intros q a Hq Ha. destruct (Hz q a ltac:(by right) Ha) as [Hu Hza]. split; [done|]. cbn. rewrite Ho1; [done|]. by apply (Hdd q). }
  specialize (IH (if seg_end ph =? maxv then p_memsz ph - p_filesz ph else bss) _ st1 Hin Hdis Hev1 Hz1).
  destruct (load_segments _ _ _ _ _ _ _ _ _ _ _ _) as [[bss' st']|?| |]; try done. destruct IH as (mem & Hev' & Ho & Hs).
  exists mem. split_and!; [by destruct st0| |].
  - intros a Ha. rewrite Ho; [apply Ho1; apply (Ha ph); left|]. intros q Hq. apply Ha. by right.
  - intros q m' [->|Hq]%elem_of_cons Hqm; [|by apply Hs]. intros v Hv. rewrite Ho; cbn.
    + unfold seg_image in Hqm. destruct (_ || _) in Hqm; [done|]. rewrite Hm in Hqm. simplify_eq. by apply Hs1.
    + intros q Hq Ha. apply (Hdd q _ Hq Ha). unfold in_seg. lia.
Qed.

(** The zeros at the end of the image, when the last segments agree on them. *)
Lemma load_segments_bss x phdrs : forall bss st bss' st', Forall (fun ph => is_load ph = true -> seg_in ph) phdrs ->
  Forall (fun ph => is_load ph = true -> seg_end ph = maxv -> p_memsz ph - p_filesz ph = x) phdrs ->
  bss = x \/ Exists (fun ph => is_load ph = true /\ seg_end ph = maxv) phdrs ->
  load_segments max t elf phdr_size all base minv maxv slide phdrs bss st = Ret (bss', st') -> bss' = x.
Proof.
  induction phdrs as [|ph phdrs IH]; intros bss st bss' st' Hin Hx He H.
  { destruct He as [->|He]; [by injection H|by apply Exists_nil in He]. }
  apply Forall_cons in Hin as [Hph Hin]. apply Forall_cons in Hx as [Hx0 Hx]. rewrite Exists_cons in He.
  destruct (is_load ph) eqn:Hl.
  - specialize (Hph eq_refl). specialize (Hx0 eq_refl). pose proof (load_segment_inv _ _ _ _ _ Hl Hph H) as (? & ? & ?).
    rewrite load_segment_eq in H by done. apply bind_Ret_inv in H as (st1 & _ & H). eapply IH, H; auto.
    split_eqb (seg_end ph) maxv; [left; auto|]. tauto.
  - cbn [load_segments] in H. rewrite Hl in H. cbn [negb] in H. eapply IH, H; auto. destruct He as [?|[[? _]|?]]; auto. done.
Qed.
End segments.

(** ** The layout *)

Definition no_segments : layout_state := {| lower_to_higher := false; min_vaddr := W64 - 1; max_vaddr := 0 |}.

Lemma scan_layout want reloc phdrs ls : Forall phdr_ok phdrs -> scan_phdrs want reloc phdrs 0 phdrs no_segments = Ret ls -> ls.(min_vaddr) <> W64 - 1 ->
  0 <= ls.(min_vaddr) < ls.(max_vaddr) /\ ls.(max_vaddr) < W64 /\
  Forall (fun ph => is_load ph = true -> seg_in ls.(min_vaddr) ls.(max_vaddr) ph /\ reported reloc ph = true) phdrs /\
  Exists (fun ph => is_load ph = true /\ seg_end ph = ls.(max_vaddr)) phdrs.
Proof.
  intros Hok H Hmin. pose proof (scan_phdrs_spec _ _ _ _ _ _ _ H) as (_ & _ & Hk). pose proof (scan_attained _ _ _ _ _ _ _ H) as [[?|Ha] Hb]; [done|].
  destruct Ha as (p & Hp & Hpl & Hpm). rewrite Forall_forall in Hok.
  assert (forall ph, ph ∈ phdrs -> is_load ph = true -> exists i, seg_ok want reloc phdrs ls i ph) as Hseg.
  { intros ph [k Hph]%list_elem_of_lookup Hl. exists (0 + k)%nat. by apply Hk. }
  destruct (Hseg p Hp Hpl) as (i & [Hpe Hp1 Hp2 _ _]). pose proof (is_load_pos p (Hok p Hp) Hpl). pose proof (Hok p Hp) as (_ & ? & _).
  unfold seg_end in Hpe, Hp2.
  destruct Hb as [Hb|(q & Hq & Hql & Hqm)]; [cbn in Hb; lia|]. destruct (Hseg q Hq Hql) as (j & [Hqe _ _ _ _]).
  split_and!; [lia|lia|lia| |apply Exists_exists; exists q; by rewrite Hqm].
  apply Forall_forall. intros ph Hph Hl. destruct (Hseg ph Hph Hl) as (k & [He Hlo Hhi Hh _]). split; [by split; [apply Hok|]|].
  unfold reported. rewrite Hl. cbn. destruct reloc; [by rewrite andb_false_r|]. cbn in Hh. apply Z.leb_le in Hh.
  split_ltb (p_vaddr ph) FIXED_HIGHER_HALF_OFFSET_64; [lia|done].
Qed.
