(* ===== verification/ElfSpec.v ===== *)
(** * The executable in memory

    The plan of a load, which reads nothing but the file: where each segment goes
    and what it holds once relocated.  [elf64_load] carries out the plan, or stops for
    lack of memory; and one that returns, whatever the file, has written no memory that
    was in use. *)

From S2P Require Import Prelude Bytes Libc Memmap Sanitise Pmm PmmFacts PmmSpec Elf ElfReloc ElfLoad.

(** ** The plan *)

Record load_plan := {
  lp_phdrs : list elf64_phdr; lp_is_reloc : bool; lp_align : Z; lp_min : Z; lp_max : Z; lp_slide : Z; lp_entry : Z;
  lp_images : list (elf64_phdr * (Z -> Z))   (** by virtual addresses *)
}.

Fixpoint seg_images (t : elf_target) (elf : list Z) (env : reloc_env) (rs : list elf64_rela) (slide : Z) (segs : list elf64_phdr)
    : outcome (list (elf64_phdr * (Z -> Z))) :=
  match segs with
  | [] => Ret []
  | ph :: segs =>
      m ← seg_image t elf env rs slide ph;
      rest ← seg_images t elf env rs slide segs;
      Ret ((ph, m) :: rest)
  end.

Definition plan_load (t : elf_target) (elf : list Z) (kaslr want_ranges : bool) (rand : nat -> Z) : outcome load_plan :=
  r ← checked_phdrs t elf; let '(type, phdr_size, phdrs) := (r : Z * Z * list elf64_phdr) in
  is_reloc ← elf64_is_relocatable phdr_size type phdrs;
  entry ← e_entry elf;
  al ← elf64_max_align phdr_size phdrs;
  ls ← scan_phdrs want_ranges is_reloc phdrs 0 phdrs no_segments;
  if ls.(min_vaddr) =? W64 - 1 then Panic "elf: No usable PHDRs exist"
  else if W62 <? ls.(max_vaddr) - ls.(min_vaddr) + al then Panic "image too large"
  else
    let min_slide := if ls.(lower_to_higher) then u64 (FIXED_HIGHER_HALF_OFFSET_64 - ls.(min_vaddr)) else 0 in
    slide ← (if is_reloc && kaslr
             then kaslr_loop (Z.to_nat 0x10000) rand 0 al min_slide ls.(min_vaddr) (ls.(max_vaddr) - ls.(min_vaddr))
             else Ret min_slide);
    r ← elf_relocs elf phdrs; let '(env, rs) := (r : reloc_env * list elf64_rela) in
    images ← seg_images t elf env rs slide (List.filter is_load phdrs);
    Ret {| lp_phdrs := phdrs; lp_is_reloc := is_reloc; lp_align := al; lp_min := ls.(min_vaddr); lp_max := ls.(max_vaddr);
           lp_slide := slide; lp_entry := entry; lp_images := images |}.

Lemma seg_images_spec t elf env rs slide segs : forall imgs, seg_images t elf env rs slide segs = Ret imgs ->
  imgs.*1 = segs /\ Forall (fun i => seg_image t elf env rs slide i.1 = Ret i.2) imgs.
Proof.
  induction segs as [|ph segs IH]; intros imgs H; cbn [seg_images] in H; [by simplify_eq|].
  apply bind_Ret_inv in H as (m & Hm & H). apply bind_Ret_inv in H as (rest & Hr & H). simplify_eq.
  apply IH in Hr as [<- Hf]. split; [done|by constructor].
Qed.

Lemma length_read_phdrs elf phoff sz k : forall i phdrs, read_phdrs elf phoff sz k i = Ret phdrs -> length phdrs = k.
Proof.
  induction k as [|k IH]; intros i phdrs H; cbn [read_phdrs] in H; [by simplify_eq|].
  apply bind_Ret_inv in H as (bs & _ & H). apply bind_Ret_inv in H as (rest & Hr & H). simplify_eq. cbn. f_equal. by eapply IH.
Qed.

Lemma checked_phdrs_ok t elf type sz phdrs : Forall is_byte elf -> checked_phdrs t elf = Ret (type, sz, phdrs) ->
  56 <= sz /\ Forall phdr_ok phdrs /\ Z.of_nat (length phdrs) < W16.
Proof.
  intros Hb H. unfold checked_phdrs in H. apply bind_Ret_inv in H as (_ & _ & H). apply bind_Ret_inv in H as (ty & _ & H).
  destruct (_ && _) in H; [done|]. apply bind_Ret_inv in H as (s & _ & H). destruct (Z.ltb_spec s 56); [done|].
  apply bind_Ret_inv in H as (n & Hn & H). apply bind_Ret_inv in H as (off & _ & H). repeat case_match; try done.
  apply bind_Ret_inv in H as (ps & Hps & H). simplify_eq. pose proof (rd_range elf 56 2 n Hb ltac:(lia) Hn) as Hr. change (W8 ^ 2) with W16 in Hr.
  split_and!; [done|by eapply read_phdrs_ok|]. rewrite (length_read_phdrs _ _ _ _ _ _ Hps). lia.
Qed.

(** ** The image *)

(** The plan was carried out, from [st] to [st']. *)
Record image_loaded (pl : load_plan) (want_ranges : bool) (st st' : pmm) (img : elf_image) : Prop := {
  il_entry : entry_point img = u64 (pl.(lp_entry) + pl.(lp_slide));
  il_slide : slide img = pl.(lp_slide);
  il_virtual : virtual_base img = u64 (pl.(lp_min) + pl.(lp_slide));
  il_size : image_size img = pl.(lp_max) - pl.(lp_min);
  il_bss : forall ph m, (ph, m) ∈ pl.(lp_images) -> seg_end ph = pl.(lp_max) ->
    image_size_before_bss img = ph.(p_vaddr) + ph.(p_filesz) - pl.(lp_min);
  il_reloc : img_is_reloc img = pl.(lp_is_reloc);
  il_ranges : want_ranges = true -> ranges img = phdr_range pl.(lp_slide) <$> pl.(lp_images).*1;
  il_place : 0 <= physical_base img /\ (pl.(lp_align) | physical_base img) /\ physical_base img + image_size img <= 0x100000000;
  il_block : forall a, physical_base img <= a < physical_base img + image_size img -> usable st a /\ ~ usable st' a;
  il_segments : forall ph m, (ph, m) ∈ pl.(lp_images) ->
    shows (physical_base img + (ph.(p_vaddr) - pl.(lp_min))) ph.(p_vaddr) ph.(p_memsz) (ram st') m;
  il_gaps : forall a, physical_base img <= a < physical_base img + image_size img ->
    (forall ph m, (ph, m) ∈ pl.(lp_images) -> ~ in_seg (physical_base img) pl.(lp_min) a ph) -> ram st' a = 0;
  il_frame : forall a, ~ usable st a -> ~ usable st' a /\ ram st' a = ram st a;
  il_inv : pmm_inv st'
}.

Lemma get_ranges_spec max sz type phdrs sl st reloc : pmm_inv st -> 56 <= sz -> Z.of_nat (length phdrs) < W16 ->
  elf64_is_relocatable sz type phdrs = Ret reloc -> Exists (fun ph => reported reloc ph = true) phdrs ->
  match elf64_get_ranges max sz type phdrs sl st with
  | Ret (rs, st') => rs = phdr_range sl <$> List.filter (reported reloc) phdrs /\ evolves st st'
  | Panic msg => page_error msg
  | Undef | Diverge => False
  end.
Proof.
  intros Hi Hsz Hn Hr He. unfold elf64_get_ranges. split_ltb sz 56; [lia|]. rewrite Hr. cbn [mbind outcome_bind].
  set (rs := phdr_range sl <$> _). assert (length rs <> 0%nat /\ Z.of_nat (length rs) < W16) as [Hne Hlt].
  { unfold rs. rewrite length_fmap. split.
    - intros H0%nil_length_inv. apply Exists_exists in He as (ph & Hin & Hre). apply list_elem_of_In in Hin.
      pose proof (proj2 (filter_In _ _ _) (conj Hin Hre)) as Hf. by rewrite H0 in Hf.
    - pose proof (List.filter_length_le (reported reloc) phdrs). lia. }
  rewrite decide_False by done.
  pose proof (alloc_total max st (Z.of_nat (length rs) * 24) MEMMAP_BOOTLOADER_RECLAIMABLE 4096 Hi ltac:(lia) ltac:(lia) ltac:(lia)) as Ht.
  change (ext_mem_alloc_type_aligned max st _ _ 4096) with (ext_mem_alloc max st (Z.of_nat (length rs) * 24)) in Ht.
  destruct (ext_mem_alloc _ _ _) as [[p st']|?| |] eqn:Ea; try done. cbn. split; [done|].
  by apply (block_alloc max st) in Ea as [? _].
Qed.

Lemma filter_reported reloc phdrs : Forall (fun ph => is_load ph = true -> reported reloc ph = true) phdrs ->
  List.filter (reported reloc) phdrs = List.filter is_load phdrs.
Proof.
  induction 1 as [|ph phdrs Hp _ IH]; [done|]. cbn [List.filter]. rewrite IH. destruct (is_load ph) eqn:Hl; [by rewrite Hp|].
  unfold reported. by rewrite Hl.
Qed.

Lemma elem_of_loads ph phdrs : ph ∈ List.filter is_load phdrs <-> ph ∈ phdrs /\ is_load ph = true.
Proof. rewrite !list_elem_of_In. apply filter_In. Qed.

Lemma pairwise_loads phdrs : pairwise segs_disjoint phdrs ->
  pairwise (fun p q => seg_end p <= p_vaddr q \/ seg_end q <= p_vaddr p) (List.filter is_load phdrs).
Proof.
  induction phdrs as [|ph phdrs IH]; intros H; [constructor|]. apply pairwise_cons in H as [Hf H]. cbn [List.filter].
  destruct (is_load ph) eqn:Hl; [|by apply IH]. apply pairwise_cons. split; [|by apply IH].
  apply Forall_forall. intros q [Hq Hql]%elem_of_loads. rewrite Forall_forall in Hf. by apply Hf.
Qed.

(** What a plan knows of its file. *)
Record plan_ok (t : elf_target) (elf : list Z) (pl : load_plan) (sz type : Z) (env : reloc_env) (rs : list elf64_rela) : Prop := {
  po_sz : 56 <= sz;
  po_phdrs : Forall phdr_ok pl.(lp_phdrs);
  po_num : Z.of_nat (length pl.(lp_phdrs)) < W16;
  po_reloc : elf64_is_relocatable sz type pl.(lp_phdrs) = Ret pl.(lp_is_reloc);
  po_relocs : elf_relocs elf pl.(lp_phdrs) = Ret (env, rs);
  po_images : seg_images t elf env rs pl.(lp_slide) (List.filter is_load pl.(lp_phdrs)) = Ret pl.(lp_images);
  po_disjoint : pairwise segs_disjoint pl.(lp_phdrs);
  po_span : 0 <= pl.(lp_min) < pl.(lp_max);
  po_max : pl.(lp_max) < W64;
  po_in : Forall (fun ph => is_load ph = true -> seg_in pl.(lp_min) pl.(lp_max) ph /\ reported pl.(lp_is_reloc) ph = true) pl.(lp_phdrs);
  po_end : Exists (fun ph => is_load ph = true /\ seg_end ph = pl.(lp_max)) pl.(lp_phdrs);
  po_align : align_ok pl.(lp_align);
  po_fits : pl.(lp_max) - pl.(lp_min) + pl.(lp_align) <= W62
}.

Section plan.
Context (max : nat) (t : elf_target) (elf : list Z) (pl : load_plan) (sz type : Z) (env : reloc_env) (rs : list elf64_rela).
Hypothesis Hpl : plan_ok t elf pl sz type env rs.
Hypothesis Hbytes : Forall is_byte elf.
Hypothesis Hlen : Z.of_nat (length elf) < 0x1000000000000.

Lemma plan_images ph m : (ph, m) ∈ pl.(lp_images) -> ph ∈ pl.(lp_phdrs) /\ is_load ph = true /\ seg_image t elf env rs pl.(lp_slide) ph = Ret m.
Proof.
  intros Hm. destruct (seg_images_spec _ _ _ _ _ _ _ (po_images _ _ _ _ _ _ _ Hpl)) as [Hs Hf].
  rewrite Forall_forall in Hf. specialize (Hf _ Hm). apply (list_elem_of_fmap_2 fst) in Hm. rewrite Hs in Hm.
  by apply elem_of_loads in Hm as [? ?].
Qed.

Lemma plan_image ph : ph ∈ pl.(lp_phdrs) -> is_load ph = true -> exists m, (ph, m) ∈ pl.(lp_images).
Proof.
  intros Hp Hl. destruct (seg_images_spec _ _ _ _ _ _ _ (po_images _ _ _ _ _ _ _ Hpl)) as [Hs _].
  assert (ph ∈ pl.(lp_images).*1) as Hin by (rewrite Hs; by apply elem_of_loads).
  apply list_elem_of_fmap in Hin as ([q m] & -> & Hq). by exists m.
Qed.

(** The last segment is one, so the zeros at the end are those of that segment. *)
Lemma plan_bss base slide st bss st' ph : 0 <= base -> base + (pl.(lp_max) - pl.(lp_min)) <= 0x100000000 ->
  ph ∈ pl.(lp_phdrs) -> is_load ph = true -> seg_end ph = pl.(lp_max) ->
  load_segments max t elf sz pl.(lp_phdrs) base pl.(lp_min) pl.(lp_max) slide pl.(lp_phdrs) 0 st = Ret (bss, st') ->
  bss = ph.(p_memsz) - ph.(p_filesz).
Proof.
  intros Hb Hfit Hp Hl He H. destruct Hpl as [_ Hok _ _ _ _ Hdis Hspan Hmax Hin Hend _ _].
  rewrite Forall_forall in Hin. rewrite Forall_forall in Hok.
  eapply load_segments_bss, H; [done|done|done|apply Forall_forall; intros q Hq Hql; by apply Hin| |by right].
  apply Forall_forall. intros q Hq Hql Hqe. destruct (decide (q = ph)) as [->|Hne]; [done|exfalso].
  assert (segs_disjoint q ph) as Hd.
  { apply (pairwise_elem segs_disjoint pl.(lp_phdrs)); auto. intros x y Hxy Hy Hx. destruct (Hxy Hx Hy); auto. }
  pose proof (is_load_pos q (Hok q Hq) Hql). pose proof (is_load_pos ph (Hok ph Hp) Hl). specialize (Hd Hql Hl). unfold seg_end in *. lia.
Qed.

Lemma plan_segments base bss st0 : 0 <= base -> base + (pl.(lp_max) - pl.(lp_min)) <= 0x100000000 -> pmm_inv st0 ->
  (forall a, base <= a < base + (pl.(lp_max) - pl.(lp_min)) -> ~ usable st0 a /\ ram st0 a = 0) ->
  match load_segments max t elf sz pl.(lp_phdrs) base pl.(lp_min) pl.(lp_max) pl.(lp_slide) pl.(lp_phdrs) bss st0 with
  | Ret (_, st') => exists mem, evolves (set_ram mem st0) st' /\
      (forall a, (forall ph m, (ph, m) ∈ pl.(lp_images) -> ~ in_seg base pl.(lp_min) a ph) -> mem a = ram st0 a) /\
      (forall ph m, (ph, m) ∈ pl.(lp_images) -> shows (base + (ph.(p_vaddr) - pl.(lp_min))) ph.(p_vaddr) ph.(p_memsz) mem m)
  | Panic msg => page_error msg
  | Undef | Diverge => False
  end.
Proof.
  intros Hb Hfit Hi Hblock. pose proof Hpl as [Hsz Hok _ _ Hrel _ Hdis Hspan Hmax Hin _ _ _]. rewrite Forall_forall in Hin.
  rewrite load_segments_filter.
  pose proof (load_segments_spec max t elf sz pl.(lp_phdrs) base pl.(lp_min) pl.(lp_max) pl.(lp_slide) Hb Hfit Hmax env rs
    (List.filter is_load pl.(lp_phdrs)) Hbytes Hlen Hsz Hrel bss st0 st0) as H.
  assert (Hsegs : Forall (fun ph => is_load ph = true /\ seg_in pl.(lp_min) pl.(lp_max) ph /\
    exists m, seg_image t elf env rs pl.(lp_slide) ph = Ret m) (List.filter is_load pl.(lp_phdrs))).
  { apply Forall_forall. intros ph [Hp Hl]%elem_of_loads. destruct (plan_image ph Hp Hl) as [m Hm].
    split_and!; [done|by apply Hin|]. exists m. by apply plan_images. }
  assert (Hz : forall ph a, ph ∈ List.filter is_load pl.(lp_phdrs) -> in_seg base pl.(lp_min) a ph -> ~ usable st0 a /\ ram st0 a = 0).
  { intros ph a [Hp Hl]%elem_of_loads Ha. apply Hblock. destruct (Hin ph Hp Hl) as [Hs _].
    unfold in_seg in Ha. destruct Hs as (_ & ? & ?). unfold seg_end in *. lia. }
  specialize (H Hsegs (pairwise_loads _ Hdis) (evolves_refl _ Hi) Hz).
  destruct (load_segments _ _ _ _ _ _ _ _ _ _ _ _) as [[bss' st']|?| |]; try done. destruct H as (mem & Hev & Ho & Hs).
  exists mem. split_and!; [done| |].
  - intros a Ha. apply Ho. intros ph [Hp Hl]%elem_of_loads. destruct (plan_image ph Hp Hl) as [m Hm]. by apply (Ha ph m).
  - intros ph m Hm. apply plan_images in Hm as (Hp & Hl & Hm). apply Hs; [by apply elem_of_loads|done].
Qed.
End plan.

Lemma plan_inv t elf kaslr want rand pl : Forall is_byte elf -> plan_load t elf kaslr want rand = Ret pl ->
  exists sz type env rs low, plan_ok t elf pl sz type env rs /\ checked_phdrs t elf = Ret (type, sz, pl.(lp_phdrs)) /\
  e_entry elf = Ret pl.(lp_entry) /\ elf64_max_align sz pl.(lp_phdrs) = Ret pl.(lp_align) /\
  scan_phdrs want pl.(lp_is_reloc) pl.(lp_phdrs) 0 pl.(lp_phdrs) no_segments
    = Ret {| lower_to_higher := low; min_vaddr := pl.(lp_min); max_vaddr := pl.(lp_max) |} /\ pl.(lp_min) <> W64 - 1 /\
  (let min_slide := if low then u64 (FIXED_HIGHER_HALF_OFFSET_64 - pl.(lp_min)) else 0 in
   if pl.(lp_is_reloc) && kaslr
   then kaslr_loop (Z.to_nat 0x10000) rand 0 pl.(lp_align) min_slide pl.(lp_min) (pl.(lp_max) - pl.(lp_min)) else Ret min_slide) = Ret pl.(lp_slide).
Proof.
  intros Hb H. unfold plan_load in H. apply bind_Ret_inv in H as ([[type sz] phdrs] & Hph & H).
  apply bind_Ret_inv in H as (reloc & Hreloc & H). apply bind_Ret_inv in H as (entry & Hentry & H).
  apply bind_Ret_inv in H as (al & Hal & H). apply bind_Ret_inv in H as ([low mn mx] & Hls & H). cbn [min_vaddr max_vaddr lower_to_higher] in H.
  destruct (Z.eqb_spec mn (W64 - 1)); [done|]. destruct (Z.ltb_spec W62 (mx - mn + al)); [done|].
  apply bind_Ret_inv in H as (sl & Hsl & H). apply bind_Ret_inv in H as ([env rs] & Hrel & H).
  apply bind_Ret_inv in H as (imgs & Himgs & H). injection H as <-. exists sz, type, env, rs, low. cbn.
  destruct (checked_phdrs_ok _ _ _ _ _ Hb Hph) as (Hsz & Hok & Hn).
  destruct (scan_layout _ _ _ _ Hok Hls) as (Hspan & Hmax & Hin & Hend); [done|].
  split; [|done]. split; auto; [by eapply scan_disjoint|]. cbn.
  unfold elf64_max_align in Hal. destruct (sz <? 56); [done|]. eapply max_align_ok, Hal; [done|by left].
Qed.

(** From the state after the segments are written to the end. *)
Lemma plan_ranges max t elf pl sz type env rs (want : bool) st : plan_ok t elf pl sz type env rs -> pmm_inv st ->
  match (if want then elf64_get_ranges max sz type pl.(lp_phdrs) pl.(lp_slide) st else Ret ([], st)) with
  | Ret (rgs, st') => (want = true -> rgs = phdr_range pl.(lp_slide) <$> pl.(lp_images).*1) /\ evolves st st'
  | Panic msg => page_error msg
  | Undef | Diverge => False
  end.
Proof.
  intros [Hsz _ Hn Hreloc _ Himg _ _ _ Hin Hend _ _] Hi. destruct want; [|by split; [|apply evolves_refl]].
  rewrite Forall_forall in Hin.
  assert (Exists (fun ph => reported pl.(lp_is_reloc) ph = true) pl.(lp_phdrs)) as He.
  { apply Exists_exists in Hend as (ph & Hp & Hl & _). apply Exists_exists. exists ph. split; [done|]. by apply Hin. }
  pose proof (get_ranges_spec max sz type pl.(lp_phdrs) pl.(lp_slide) st _ Hi Hsz Hn Hreloc He) as H.
  destruct (elf64_get_ranges _ _ _ _ _ _) as [[rgs st']|?| |]; try done. destruct H as [-> Hev]. split; [|done]. intros _. f_equal.
  rewrite filter_reported by (apply Forall_forall; intros ph Hp Hl; by apply Hin). symmetry. by apply (seg_images_spec _ _ _ _ _ _ _ Himg).
Qed.

(** Memory with the segments in a block that was usable in [st] and is in use in [st1]. *)
Lemma plan_memory pl st st1 st' mem base size : evolves st st1 -> evolves (set_ram mem st1) st' ->
  (forall a, base <= a < base + size -> usable st a /\ ~ usable st1 a /\ ram st1 a = 0) ->
  (forall ph m, (ph, m) ∈ pl.(lp_images) -> base <= base + (p_vaddr ph - pl.(lp_min)) /\ base + (p_vaddr ph - pl.(lp_min)) + p_memsz ph <= base + size) ->
  (forall a, (forall ph m, (ph, m) ∈ pl.(lp_images) -> ~ in_seg base pl.(lp_min) a ph) -> mem a = ram st1 a) ->
  (forall ph m, (ph, m) ∈ pl.(lp_images) -> shows (base + (ph.(p_vaddr) - pl.(lp_min))) ph.(p_vaddr) ph.(p_memsz) mem m) ->
  (forall a, base <= a < base + size -> usable st a /\ ~ usable st' a) /\
  (forall ph m, (ph, m) ∈ pl.(lp_images) -> shows (base + (ph.(p_vaddr) - pl.(lp_min))) ph.(p_vaddr) ph.(p_memsz) (ram st') m) /\
  (forall a, base <= a < base + size -> (forall ph m, (ph, m) ∈ pl.(lp_images) -> ~ in_seg base pl.(lp_min) a ph) -> ram st' a = 0) /\
  (forall a, ~ usable st a -> ~ usable st' a /\ ram st' a = ram st a).
Proof.
  intros [_ _ U1 R1] [_ _ U2 R2] Hblk Hin Ho Hs.
  assert (forall a, ~ usable st1 a -> ~ usable st' a /\ ram st' a = mem a) as H2.
  { intros a Ha. split; [intros Hu; by apply Ha, U2|by apply R2]. }
  split_and!.
  - intros a Ha. destruct (Hblk a Ha) as (Hu & Hn & _). split; [done|]. by apply H2.
  - intros ph m Hm v Hv. destruct (Hin ph m Hm).
    destruct (Hblk (base + (p_vaddr ph - lp_min pl) + (v - p_vaddr ph)) ltac:(lia)) as (_ & Hn & _).
    rewrite (proj2 (H2 _ Hn)). by apply Hs.
  - intros a Ha Hg. destruct (Hblk a Ha) as (_ & Hn & Hz). rewrite (proj2 (H2 a Hn)), Ho by done. done.
  - intros a Ha. assert (~ usable st1 a) as Hn by auto. split; [by apply H2|]. rewrite (proj2 (H2 a Hn)), Ho; [by apply R1|].
    intros ph m Hm Hseg. apply Ha. apply Hblk. destruct (Hin ph m Hm). unfold in_seg in Hseg. lia.
Qed.

Lemma image_alloc max st size type al base st1 : pmm_inv st -> align_ok al -> 0 < size <= W63 -> type <> MEMMAP_USABLE ->
  ext_mem_alloc_type_aligned max st size type al = Ret (base, st1) ->
  evolves st st1 /\ 0 <= base /\ (al | base) /\ base + size <= 0x100000000 /\
  forall a, base <= a < base + size -> usable st a /\ ~ usable st1 a /\ ram st1 a = 0.
Proof.
  intros Hi [Hal0 Hal1] Hs Ht Ha. pose proof (Z.divide_pos_le al W63 ltac:(lia) Hal1).
  destruct (ALIGN_UP_spec size al) as (k & Hk & Hup); [lia..|].
  pose proof (alloc_bounded max st _ _ _ _ _ Hi Hal0 Hal1 Ha) as Hn.
  assert (al <= ALIGN_UP size al) by (apply Z.divide_pos_le; [lia|by exists k]).
  apply alloc_evolves_any in Ha as (Hev & Hb0 & Hba & Hlim & Hblk); [|done|lia|done|done].
  split_and!; [done|done|done|lia|]. intros a Ha. apply Hblk. lia.
Qed.

Section load.
Context (max : nat) (t : elf_target) (elf : list Z) (alloc_type : Z) (kaslr want_ranges : bool) (rand : nat -> Z).

(** C3: loading an executable that has a plan returns, or panics because the allocator
    cannot serve it.  When it returns, the entry point, slide, bases, sizes and ranges are
    those of the plan; the image lies in a block that was usable and is in use now, aligned
    as the segments ask; each segment holds the bytes of the file, then zeros, with all
    relocations of the RELR, RELA and PLT tables applied; the gaps are zero; and memory
    that was in use has not changed. *)
Theorem elf64_load_correct pl st : Forall is_byte elf -> Z.of_nat (length elf) < 0x1000000000000 -> alloc_type <> MEMMAP_USABLE ->
  pmm_inv st -> plan_load t elf kaslr want_ranges rand = Ret pl ->
  match elf64_load max t elf alloc_type kaslr want_ranges rand st with
  | Ret (img, st') => image_loaded pl want_ranges st st' img
  | Panic msg => page_error msg
  | Undef | Diverge => False
  end.
Proof.
  intros Hb Hlen Ht Hi Hplan. apply plan_inv in Hplan as (sz & type & env & rs & low & Hpl & Hph & Hentry & Hal & Hls & Hmin & Hsl); [|done].
  pose proof Hpl as [Hsz Hok Hn Hreloc _ _ _ Hspan Hmax Hin Hend Halign Hfits].
  unfold elf64_load. rewrite Hph. cbn [mbind outcome_bind]. rewrite Hreloc. cbn [mbind outcome_bind]. rewrite Hentry. cbn [mbind outcome_bind].
  rewrite Hal. cbn [mbind outcome_bind]. fold no_segments. rewrite Hls. cbn [mbind outcome_bind min_vaddr max_vaddr lower_to_higher].
  rewrite (proj2 (Z.eqb_neq _ _) Hmin), (u64_small (lp_max pl - lp_min pl)) by lia.
  pose proof (proj1 (proj1 Halign)).
  pose proof (alloc_total max st (lp_max pl - lp_min pl) alloc_type (lp_align pl) Hi ltac:(lia) ltac:(lia) ltac:(lia)) as Hta.
  destruct (ext_mem_alloc_type_aligned _ _ _ _ _) as [[base st1]|?| |] eqn:Ea; try done. cbn [mbind outcome_bind].
  apply image_alloc in Ea as (Hev & Hb0 & Hba & Hlim & Hblk); [|done|done|lia|done].
  cbn zeta in Hsl. rewrite Hsl. cbn [mbind outcome_bind].
  pose proof (plan_segments max t elf pl sz type env rs Hpl Hb Hlen base 0 st1 Hb0 ltac:(lia) (ev_inv _ _ Hev) (fun a Ha => proj2 (Hblk a Ha))) as Hseg.
  destruct (load_segments _ _ _ _ _ _ _ _ _ _ _ _) as [[bss st2]|?| |] eqn:El; try done. destruct Hseg as (mem & Hev2 & Ho & Hs).
  cbn [mbind outcome_bind].
  pose proof (plan_ranges max t elf pl sz type env rs want_ranges st2 Hpl (ev_inv _ _ Hev2)) as Hrg.
  destruct (if want_ranges then _ else _) as [[rgs st3]|?| |]; try done. destruct Hrg as [Hrgs Hev3]. cbn [mbind outcome_bind].
  assert (forall ph m, (ph, m) ∈ lp_images pl -> seg_in (lp_min pl) (lp_max pl) ph) as Hseg.
  { intros ph m Hm. destruct (plan_images _ _ _ _ _ _ _ Hpl _ _ Hm) as (Hp & Hl & _). rewrite Forall_forall in Hin. by apply Hin. }
  destruct (plan_memory pl st st1 st3 mem base (lp_max pl - lp_min pl)) as (P1 & P2 & P3 & P4);
    [done|by eapply evolves_trans|done| |done..|].
  { intros ph m Hm. destruct (Hseg ph m Hm) as (_ & ? & ?). unfold seg_end in *. lia. }
  split; cbn; auto; [|apply Hev3].
  intros ph m Hm He. destruct (plan_images _ _ _ _ _ _ _ Hpl _ _ Hm) as (Hp & Hl & Him). destruct (Hseg ph m Hm) as ((_ & _ & _ & ? & _) & ? & ?).
  rewrite (plan_bss max t elf pl sz type env rs Hpl base (lp_slide pl) st1 bss st2 ph) by (done || lia).
  unfold seg_image in Him. destruct (_ || _) eqn:Ec in Him; [done|]. apply orb_false_iff in Ec as [?%Z.ltb_ge _].
  unfold seg_end in *. rewrite u64_small; lia.
Qed.

Lemma ranges_evolves (b : bool) sz type phdrs sl st rgs st' : pmm_inv st ->
  (if b then elf64_get_ranges max sz type phdrs sl st else Ret ([], st)) = Ret (rgs, st') -> evolves st st'.
Proof.
  intros Hi H. destruct b; [|by injection H as <- <-; apply evolves_refl]. unfold elf64_get_ranges in H. case_match; [done|].
  apply bind_Ret_inv in H as (reloc & _ & H). destruct (decide _); [done|]. apply bind_Ret_inv in H as ([p st1] & Ha & H).
  injection H as _ <-. by apply (block_alloc max st) in Ha as [? _].
Qed.

(** A load that returns has written no memory that was in use. *)
Lemma load_confined st img st' : Forall is_byte elf -> alloc_type <> MEMMAP_USABLE -> pmm_inv st ->
  elf64_load max t elf alloc_type kaslr want_ranges rand st = Ret (img, st') -> image_size img <= W63 ->
  pmm_inv st' /\ (forall a, ~ usable st a -> ~ usable st' a /\ ram st' a = ram st a) /\
  0 < image_size img /\ 0 <= physical_base img /\ physical_base img + image_size img <= 0x100000000 /\
  (forall a, physical_base img <= a < physical_base img + image_size img -> usable st a /\ ~ usable st' a).
Proof.
  intros Hb Ht Hi H Hsize. unfold elf64_load in H.
  apply bind_Ret_inv in H as ([[type sz] phdrs] & Hph & H). apply bind_Ret_inv in H as (reloc & Hreloc & H).
  apply bind_Ret_inv in H as (entry & _ & H). apply bind_Ret_inv in H as (al & Hal & H). apply bind_Ret_inv in H as (ls & Hls & H).
  destruct (Z.eqb_spec (min_vaddr ls) (W64 - 1)) as [|Hmin]; [done|].
  apply bind_Ret_inv in H as ([base st1] & Ha & H). apply bind_Ret_inv in H as (sl & _ & H).
  apply bind_Ret_inv in H as ([bss st2] & Hseg & H). apply bind_Ret_inv in H as ([rgs st3] & Hrg & H). injection H as <- <-. cbn in Hsize |- *.
  destruct (checked_phdrs_ok _ _ _ _ _ Hb Hph) as (Hsz & Hok & _).
  destruct (scan_layout _ _ _ _ Hok Hls Hmin) as (Hspan & Hmax & Hin & _). rewrite u64_small in * by lia.
  assert (align_ok al) as Halok.
  { unfold elf64_max_align in Hal. destruct (sz <? 56); [done|]. eapply max_align_ok, Hal; [done|by left]. }
  apply image_alloc in Ha as (Hev & Hb0 & _ & Hlim & Hblk); [|done|done|lia|done].
  apply (load_segments_frame max t elf sz phdrs base (min_vaddr ls) (max_vaddr ls) sl ltac:(lia) ltac:(lia) ltac:(lia) phdrs 0 st1) in Hseg
    as (mem & Hev2 & Ho); [|apply (Forall_impl _ _ _ Hin); tauto|apply evolves_refl, Hev].
  apply ranges_evolves in Hrg as Hev3; [|apply Hev2].
  pose proof (evolves_trans _ _ _ Hev2 Hev3) as [I4 _ U4 R4]. destruct Hev as [_ _ U1 R1].
  split_and!; [done| |lia|done|done|].
  - intros a Ha. split; [intros Hu; by apply Ha, U1, U4|]. rewrite R4 by (intros Hu; by apply Ha, U1). cbn.
    rewrite Ho; [by apply R1|]. intros Hin'. by apply Ha, Hblk.
  - intros a Ha. destruct (Hblk a Ha) as (? & Hn & _). split; [done|]. intros Hu. by apply Hn, U4.
Qed.
End load.

(** ** Examples *)

Definition demo_header (type machine entry num : Z) : list Z :=
  magic ++ [2; 1; 1] ++ replicate 9 0 ++ le_store 2 type ++ le_store 2 machine ++ le_store 4 1 ++ le_store 8 entry ++ le_store 8 64
  ++ le_store 8 0 ++ le_store 4 0 ++ le_store 2 64 ++ le_store 2 56 ++ le_store 2 num ++ replicate 6 0.
Definition demo_phdr (type flags off vaddr paddr filesz memsz align : Z) : list Z :=
  le_store 4 type ++ le_store 4 flags ++ le_store 8 off ++ le_store 8 vaddr ++ le_store 8 paddr ++ le_store 8 filesz ++ le_store 8 memsz
  ++ le_store 8 align.
Definition demo_words (xs : list Z) : list Z := mjoin (le_store 8 <$> xs).

(** A relocatable executable with one segment, one RELA and one RELR relocation. *)
Definition demo_file (rela_size relr_size : Z) : list Z :=
  demo_header ET_DYN 0x3e 0x1140 2 ++ demo_phdr ELF_PT_LOAD 7 0 0x1000 0x1000 336 400 4096
  ++ demo_phdr ELF_PT_DYNAMIC 6 176 0x10b0 0x10b0 112 112 8
  ++ demo_words [DT_RELA; 0x1120; DT_RELASZ; rela_size; DT_RELAENT; 24; DT_RELR; 0x1138; DT_RELRSZ; relr_size; DT_RELRENT; 8; DT_NULL; 0]
  ++ demo_words [0x1140; 8; 0x1148] ++ demo_words [0x1148] ++ demo_words [0x7777; 0x1120].

Definition demo_elf : list Z := demo_file 24 8.

Definition demo_rand (n : nat) : Z := 0.

Lemma demo_elf_bytes : Forall is_byte demo_elf.
Proof. repeat (apply Forall_app; split); (apply (bool_decide_unpack _); vm_compute; exact I). Qed.

Lemma elf64_load_correct_witness : exists pl img st', plan_load elf_x86_64 demo_elf false true demo_rand = Ret pl /\
  elf64_load 512 elf_x86_64 demo_elf 0x1001 false true demo_rand demo = Ret (img, st') /\ image_loaded pl true demo st' img.
Proof.
  destruct (returns_Ret (plan_load elf_x86_64 demo_elf false true demo_rand)) as [pl Hpl]; [vm_compute; reflexivity|].
  destruct (returns_Ret (elf64_load 512 elf_x86_64 demo_elf 0x1001 false true demo_rand demo)) as [[img st'] Hl]; [vm_compute; reflexivity|].
  exists pl, img, st'. split; [exact Hpl|]. split; [exact Hl|].
  pose proof (elf64_load_correct 512 elf_x86_64 demo_elf 0x1001 false true demo_rand pl demo demo_elf_bytes) as H. rewrite Hl in H.
  apply H; [vm_compute; reflexivity|exact demo_type|exact demo_inv|exact Hpl].
Defined.

(** A higher half segment followed by one of the lower half. *)
Definition mixed_elf : list Z :=
  demo_header ET_DYN 0x3e 0 3 ++ demo_phdr ELF_PT_LOAD 7 232 0xffffffffffffe000 0 0 0x1800 4096
  ++ demo_phdr ELF_PT_LOAD 7 232 0 0 16 16 4096 ++ demo_phdr ELF_PT_DYNAMIC 6 232 0 0 16 16 8 ++ demo_words [DT_NULL; 1].

Lemma demo_not_usable : ~ usable demo 0x7ff008.
Proof.
  intros (e & He & Ht & Hin). change (memmap demo) with demo_map in He. unfold demo_map in He. rewrite !elem_of_cons in He. unfold inside in Hin.
  destruct He as [->|[->|[->|[->|He]]]]; cbn in Ht, Hin; try lia; try discriminate Ht. by apply not_elem_of_nil in He.
Qed.

(** The test for segments in both halves only sees a lower half segment that comes
    first.  With the higher half first, the image spans nearly the whole address space,
    the size wraps to an empty block, and the load returns after writing memory that is
    in use. *)
Theorem mixed_halves_overwrite : exists img st' a,
  elf64_load 512 elf_x86_64 mixed_elf 0x1001 false false demo_rand demo = Ret (img, st') /\ ~ usable demo a /\ ram st' a <> ram demo a.
Proof.
  assert (match elf64_load 512 elf_x86_64 mixed_elf 0x1001 false false demo_rand demo with
    | Ret (_, st') => negb (ram st' 0x7ff008 =? 0xcc) | _ => false end = true) as Hc by (vm_compute; reflexivity).
  destruct (elf64_load 512 elf_x86_64 mixed_elf 0x1001 false false demo_rand demo) as [[img st']|?| |]; [|discriminate Hc..].
  exists img, st', 0x7ff008. split; [reflexivity|]. split; [exact demo_not_usable|]. by apply negb_true_iff, Z.eqb_neq in Hc.
Qed.

(** A RELA table that ends in a part of an entry is written past the end of the array;
    a RELR table is read past the end of the file. *)
Lemma rela_part_overrun : elf64_load 512 elf_x86_64 (demo_file 25 8) 0x1001 false true demo_rand demo = Undef.
Proof. vm_compute. reflexivity. Qed.

Lemma relr_overread : elf64_load 512 elf_x86_64 (demo_file 24 0x1000) 0x1001 false true demo_rand demo = Undef.
Proof. vm_compute. reflexivity. Qed.
