(* ===== verification/ElfElsewhere.v ===== *)
(** * Executables kept elsewhere

    The two loaders that put an image aside, as the Multiboot protocols call them:
    for any file of at least a header, nothing is read outside of the file, and unless
    the segments span more than half of the address space no memory in use is written
    and what is put aside is the image by physical addresses. *)

From S2P Require Import Prelude Bytes Libc Memmap Sanitise Pmm PmmFacts PmmSpec Elsewhere Elf ElfReloc.
From S2P Require Import ElfLoad ElfSpec.

(** The choice of the loader: protos/multiboot1.c. *)
Definition load_kernel_elsewhere (max : nat) (t : elf_target) (elf : list Z) (st : pmm)
    : outcome (Z * elsewhere_range * pmm * elf_section_hdr_info) :=
  bits ← elf_bits elf;
  if bits =? 32 then r ← elf32_load_elsewhere max elf st; info ← elf32_section_hdr_info elf; Ret (r, info)
  else if bits =? 64 then r ← elf64_load_elsewhere max t elf st; info ← elf64_section_hdr_info t elf; Ret (r, info)
  else Panic "multiboot1: Invalid ELF file bitness".

(** ** The specification *)

Definition place_segment (elf : list Z) (m : Z -> Z) (ph : elf64_phdr) : Z -> Z :=
  if is_load ph then copy_to m ph.(p_paddr) (slice (Z.to_nat ph.(p_offset)) (Z.to_nat ph.(p_filesz)) elf) else m.

(** The image by physical addresses. *)
Definition paddr_image (elf : list Z) (phdrs : list elf64_phdr) : Z -> Z := fold_left (place_segment elf) phdrs (fun _ => 0).

(** The entry point, by the first segment that holds it. *)
Definition moved_entry (wrap : Z -> Z) (phdrs : list elf64_phdr) (entry : Z) : Z :=
  match List.find (fun ph => is_load ph && (p_vaddr ph <=? entry) && (entry <? wrap (p_vaddr ph + p_memsz ph))) phdrs with
  | Some ph => u64 (u64 (entry - p_vaddr ph) + p_paddr ph)
  | None => entry
  end.

(** The program headers, and the width of an address. *)
Definition file_phdrs (elf : list Z) : outcome ((Z -> Z) * Z * list elf64_phdr) :=
  bits ← elf_bits elf;
  if bits =? 32 then
    entry ← rd elf 24 4; off ← rd elf 28 4; sz ← rd elf 42 2; num ← rd elf 44 2;
    phdrs ← read_phdrs32 elf off sz (Z.to_nat num) 0; Ret (u32, entry, phdrs)
  else
    entry ← e_entry elf; off ← e_phoff elf; sz ← e_phdr_size elf; num ← e_ph_num elf;
    phdrs ← read_phdrs elf off sz (Z.to_nat num) 0; Ret (u64, entry, phdrs).

Record put_aside (elf : list Z) (phdrs : list elf64_phdr) (st st' : pmm) (r : elsewhere_range) : Prop := {
  pa_inv : pmm_inv st';
  pa_frame : forall a, ~ usable st a -> ~ usable st' a /\ ram st' a = ram st a;
  pa_place : 0 <= r.(elsewhere) /\ r.(elsewhere) + r.(er_length) <= 0x100000000;
  pa_block : forall a, r.(elsewhere) <= a < r.(elsewhere) + r.(er_length) -> usable st a /\ ~ usable st' a;
  pa_spans : forall ph, ph ∈ phdrs -> is_load ph = true -> r.(target) <= ph.(p_paddr) /\ ph.(p_paddr) + ph.(p_memsz) <= r.(target) + r.(er_length);
  pa_image : forall x, r.(target) <= x < r.(target) + r.(er_length) -> ram st' (r.(elsewhere) + (x - r.(target))) = paddr_image elf phdrs x
}.

(** ** The loops *)

Lemma paddr_span_spec phdrs : Forall phdr_ok phdrs -> forall mn mx, 0 <= mn < W64 -> 0 <= mx < W64 ->
  match paddr_span phdrs mn mx with
  | Ret (mn', mx') => 0 <= mn' <= mn /\ mx <= mx' < W64 /\
      Forall (fun ph => is_load ph = true -> mn' <= p_paddr ph /\ p_paddr ph + p_memsz ph <= mx') phdrs
  | Panic _ => True
  | Undef | Diverge => False
  end.
Proof.
  induction 1 as [|ph phdrs Hph _ IH]; intros mn mx Hmn Hmx; cbn [paddr_span]; [split_and!; (lia || done)|].
  destruct (is_load ph) eqn:Hl; cbn [negb].
  - destruct (add_overflow _ _) as [top|] eqn:Ea; [|done]. apply add_overflow_Some in Ea as [-> Hw].
    destruct Hph as (_ & _ & ? & _ & ? & _).
    specialize (IH (if p_paddr ph <? mn then p_paddr ph else mn) (if mx <? p_paddr ph + p_memsz ph then p_paddr ph + p_memsz ph else mx)
      ltac:(case_match; lia) ltac:(case_match; lia)).
    destruct (paddr_span _ _ _) as [[mn' mx']|?| |]; try done. destruct IH as (H1 & H2 & H3).
    destruct (Z.ltb_spec (p_paddr ph) mn), (Z.ltb_spec mx (p_paddr ph + p_memsz ph)); (split_and!; [lia..|constructor; [intros _; lia|done]]).
  - specialize (IH mn mx Hmn Hmx). destruct (paddr_span _ _ _) as [[mn' mx']|?| |]; try done. destruct IH as (H1 & H2 & H3).
    split_and!; [lia..|]. constructor; [congruence|done].
Qed.

Lemma copy_to_moved block mn size mem m p bs : shows block mn size mem m ->
  shows block mn size (copy_to mem (block + (p - mn)) bs) (copy_to m p bs).
Proof.
  intros Hs v Hv. unfold copy_to.
  replace (block + (p - mn) <=? block + (v - mn)) with (p <=? v) by (destruct (Z.leb_spec p v), (Z.leb_spec (block + (p - mn)) (block + (v - mn))); lia).
  replace (block + (v - mn) <? block + (p - mn) + Z.of_nat (length bs)) with (v <? p + Z.of_nat (length bs))
    by (destruct (Z.ltb_spec v (p + Z.of_nat (length bs))), (Z.ltb_spec (block + (v - mn)) (block + (p - mn) + Z.of_nat (length bs))); lia).
  replace (block + (v - mn) - (block + (p - mn))) with (v - p) by lia. case_match; [done|by apply Hs].
Qed.

Section copy.
Context (wrap : Z -> Z) (elf : list Z) (block mn size : Z).

Lemma copy_segments_spec phdrs : Forall phdr_ok phdrs ->
  Forall (fun ph => is_load ph = true -> mn <= p_paddr ph /\ p_paddr ph + p_memsz ph <= mn + size) phdrs ->
  forall entry adjusted mem m, shows block mn size mem m ->
  match copy_segments wrap elf block mn phdrs entry adjusted mem with
  | Ret (entry', mem') => same_outside block size mem mem' /\ shows block mn size mem' (fold_left (place_segment elf) phdrs m) /\
      entry' = if adjusted then entry else moved_entry wrap phdrs entry
  | Panic _ => True
  | Undef | Diverge => False
  end.
Proof.
  intros Hok. induction Hok as [|ph phdrs Hph _ IH]; intros Hin entry adjusted mem m Hm; cbn [copy_segments].
  { split_and!; [done|done|by destruct adjusted]. }
  apply Forall_cons in Hin as [Hspan Hin]. specialize (IH Hin). unfold moved_entry. cbn [fold_left List.find]. fold (moved_entry wrap phdrs entry).
  unfold place_segment at 2. destruct (is_load ph) eqn:Hl; cbn [negb andb]; [|by apply IH].
  specialize (Hspan eq_refl). destruct Hph as (? & _ & _ & ? & _). destruct (Z.ltb_spec (p_memsz ph) (p_filesz ph)); [done|].
  destruct (add_overflow _ _) as [e|] eqn:Ea; [|done]. apply add_overflow_Some in Ea as [-> Hw].
  destruct (Z.ltb_spec (Z.of_nat (length elf)) (p_offset ph + p_filesz ph)); [done|].
  rewrite fetch_Ret by lia. cbn [mbind outcome_bind]. set (bs := slice _ _ _).
  assert (Z.of_nat (length bs) = p_filesz ph) as Hbs by (unfold bs; rewrite length_slice; lia).
  assert (same_outside block size mem (copy_to mem (block + (p_paddr ph - mn)) bs)) as Ho.
  { apply (same_outside_weaken (block + (p_paddr ph - mn)) (p_filesz ph)); [lia..|]. apply copy_to_outside. lia. }
  assert (forall e adj, match copy_segments wrap elf block mn phdrs e adj (copy_to mem (block + (p_paddr ph - mn)) bs) with
    | Ret (entry', mem') => same_outside block size mem mem' /\
        shows block mn size mem' (fold_left (place_segment elf) phdrs (copy_to m (p_paddr ph) bs)) /\
        entry' = if adj then e else moved_entry wrap phdrs e
    | Panic _ => True | Undef | Diverge => False end) as Hnext.
  { intros e adj. specialize (IH e adj _ _ (copy_to_moved block mn size mem m (p_paddr ph) bs Hm)).
    destruct (copy_segments _ _ _ _ _ _ _ _) as [[e' mem']|?| |]; try done. destruct IH as (IH1 & IH2 & IH3).
    split_and!; [by eapply same_outside_trans|done|done]. }
  destruct adjusted; cbn [negb andb]; [apply Hnext|]. destruct (_ && _); apply Hnext.
Qed.
End copy.

(** ** The loaders *)

Section loaders.
Context (max : nat) (t : elf_target).

Lemma alloc_any_total st n : pmm_inv st -> total (fun _ => True) (ext_mem_alloc max st n).
Proof. intros Hi. apply alloc_total_any; [done|done|by exists 2251799813685248]. Qed.

(** A block that is in use in [st1], written after some more allocations. *)
Lemma put_aside_intro elf phdrs st st1 st2 mem r : evolves st st1 -> evolves st1 st2 ->
  0 <= r.(elsewhere) -> r.(elsewhere) + r.(er_length) <= 0x100000000 ->
  (forall a, r.(elsewhere) <= a < r.(elsewhere) + r.(er_length) -> usable st a /\ ~ usable st1 a /\ ram st1 a = 0) ->
  same_outside r.(elsewhere) r.(er_length) (ram st2) mem -> shows r.(elsewhere) r.(target) r.(er_length) mem (paddr_image elf phdrs) ->
  (forall ph, ph ∈ phdrs -> is_load ph = true -> r.(target) <= ph.(p_paddr) /\ ph.(p_paddr) + ph.(p_memsz) <= r.(target) + r.(er_length)) ->
  put_aside elf phdrs st (set_ram mem st2) r.
Proof.
  intros Hev1 Hev2 H0 Hl Hblk Ho Hs Hsp. destruct Hev1 as [_ _ U1 R1], Hev2 as [I2 _ U2 R2]. split; [by destruct I2| |done| |done|].
  - intros a Ha. split; [intros Hu; by apply Ha, U1, U2|]. cbn. rewrite Ho by (intros Hr; by apply Ha, Hblk).
    rewrite R2 by (intros Hu; by apply Ha, U1). by apply R1.
  - intros a Ha. destruct (Hblk a Ha) as (? & Hn & _). split; [done|]. intros Hu. by apply Hn, U2.
  - intros x Hx. by apply Hs.
Qed.

Lemma put_elsewhere_spec wrap elf phdrs entry st : pmm_inv st -> Forall phdr_ok phdrs ->
  match put_elsewhere max wrap elf phdrs entry st with
  | Ret (entry', r, st') => r.(er_length) <= W63 -> entry' = moved_entry wrap phdrs entry /\ put_aside elf phdrs st st' r
  | Panic _ => True
  | Undef | Diverge => False
  end.
Proof.
  intros Hi Hok. unfold put_elsewhere. pose proof (paddr_span_spec phdrs Hok (W64 - 1) 0 ltac:(lia) ltac:(lia)) as Hspan.
  destruct (paddr_span _ _ _) as [[mn mx]|?| |]; try done. destruct Hspan as (Hmn & Hmx & Hin). cbn [mbind outcome_bind].
  set (size := u64 (mx - mn)).
  assert (Forall (fun ph => is_load ph = true -> mn <= p_paddr ph /\ p_paddr ph + p_memsz ph <= mn + size) phdrs) as Hin'.
  { rewrite !Forall_forall in *. intros ph Hp Hl. destruct (Hin ph Hp Hl). destruct (Hok ph Hp) as (_ & _ & _ & _ & ? & _).
    unfold size. rewrite u64_small; lia. }
  pose proof (alloc_any_total st size Hi) as Ht1. destruct (ext_mem_alloc max st size) as [[block st1]|?| |] eqn:E1; try done.
  apply (alloc_evolves_any max) in E1 as (Hev1 & Hb0 & _ & Hlim & Hblk); [|done|done|by exists 2251799813685248|done]. cbn [mbind outcome_bind].
  pose proof (alloc_any_total st1 24 (ev_inv _ _ Hev1)) as Ht2. destruct (ext_mem_alloc max st1 24) as [[p st2]|?| |] eqn:E2; try done.
  apply (block_alloc max st1) in E2 as [Hev2 _]; [|by apply evolves_refl, Hev1]. cbn [mbind outcome_bind].
  destruct (decide (size <= W63)) as [Hsize|Hsize].
  - pose proof (u64_range (mx - mn)) as Hsr. fold size in Hsr. destruct (ALIGN_UP_spec size 4096) as (k & _ & Hup); [lia..|].
    assert (shows block mn size (ram st2) (fun _ => 0)) as Hz.
    { intros v Hv. destruct (Hblk (block + (v - mn)) ltac:(lia)) as (_ & Hu & Hr). by rewrite (ev_ram _ _ Hev2). }
    pose proof (copy_segments_spec wrap elf block mn size phdrs Hok Hin' entry false (ram st2) _ Hz) as Hc.
    destruct (copy_segments _ _ _ _ _ _ _ _) as [[e mem]|?| |]; try done. destruct Hc as (Ho & Hs & ->). intros _. split; [done|].
    apply (put_aside_intro elf phdrs st st1 st2 mem); cbn; auto; [lia|intros a Ha; apply Hblk; lia|].
    intros ph Hp Hl. rewrite Forall_forall in Hin'. by apply Hin'.
  - pose proof (copy_segments_spec wrap elf block mn size phdrs Hok Hin' entry false (ram st2) (fun v => ram st2 (block + (v - mn)))) as Hc.
    specialize (Hc ltac:(done)). by destruct (copy_segments _ _ _ _ _ _ _ _) as [[e mem]|?| |].
Qed.

Lemma rd_Ret elf off n : 0 <= off -> off + n <= Z.of_nat (length elf) -> exists x, rd elf off n = Ret x.
Proof. intros H1 H2. unfold rd. rewrite fetch_Ret by done. cbn. eauto. Qed.

Lemma read_phdrs_total elf off sz : 56 <= sz -> 0 <= off -> Z.of_nat (length elf) < W64 -> forall k i, 0 <= i ->
  off + (i + Z.of_nat k) * sz <= Z.of_nat (length elf) -> exists phdrs, read_phdrs elf off sz k i = Ret phdrs.
Proof.
  intros Hsz Ho Hlen. induction k as [|k IH]; intros i Hi Hk; cbn [read_phdrs]; [eauto|].
  rewrite u64_small, fetch_Ret by nia. cbn [mbind outcome_bind]. destruct (IH (i + 1)) as [phdrs ->]; [lia|nia|]. cbn. eauto.
Qed.

Lemma read_phdrs32_total elf off sz : 32 <= sz -> 0 <= off -> forall k i, 0 <= i ->
  off + (i + Z.of_nat k) * sz <= Z.of_nat (length elf) -> exists phdrs, read_phdrs32 elf off sz k i = Ret phdrs.
Proof.
  intros Hsz Ho. induction k as [|k IH]; intros i Hi Hk; cbn [read_phdrs32]; [eauto|].
  pose proof (u32_range (off + i * sz)). pose proof (Z.mod_le (off + i * sz) W32 ltac:(nia) ltac:(lia)) as Hle. fold (u32 (off + i * sz)) in Hle.
  rewrite fetch_Ret by nia. cbn [mbind outcome_bind]. destruct (IH (i + 1)) as [phdrs ->]; [lia|nia|]. cbn. eauto.
Qed.

Lemma read_phdrs32_ok elf phoff sz k : Forall is_byte elf -> forall i phdrs, read_phdrs32 elf phoff sz k i = Ret phdrs -> Forall phdr_ok phdrs.
Proof.
  intros Hb. induction k as [|k IH]; intros i phdrs H; cbn [read_phdrs32] in H; [by simplify_eq|].
  apply bind_Ret_inv in H as (bs & Hf & H). apply bind_Ret_inv in H as (rest & Hr & H). simplify_eq. constructor; [|by eapply IH].
  apply fetch_inv in Hf as (H1 & H2 & ->). set (bs := slice _ _ _).
  assert (forall o, 0 <= field o 4 bs < W64) as Hf.
  { intros o. pose proof (field_range o 4 bs (slice_bytes _ _ _ Hb)) as Hr'. change (W8 ^ Z.of_nat 4) with W32 in Hr'. lia. }
  repeat split; apply Hf.
Qed.

Section file.
Context (elf : list Z) (st : pmm).
Hypothesis Hbytes : Forall is_byte elf.
Hypothesis Hlen : 64 <= Z.of_nat (length elf) < W64.
Hypothesis Hi : pmm_inv st.

(** The result of a loader, against the program headers of the file. *)
Definition aside_spec (file : outcome ((Z -> Z) * Z * list elf64_phdr)) (o : outcome (Z * elsewhere_range * pmm)) : Prop :=
  match o with
  | Ret (entry', r, st') => exists wrap entry phdrs, file = Ret (wrap, entry, phdrs) /\
      (r.(er_length) <= W63 -> entry' = moved_entry wrap phdrs entry /\ put_aside elf phdrs st st' r)
  | Panic _ => True
  | Undef | Diverge => False
  end.

Lemma aside_intro wrap entry phdrs : Forall phdr_ok phdrs -> aside_spec (Ret (wrap, entry, phdrs)) (put_elsewhere max wrap elf phdrs entry st).
Proof.
  intros Hok. pose proof (put_elsewhere_spec wrap elf phdrs entry st Hi Hok) as H. unfold aside_spec.
  destruct (put_elsewhere _ _ _ _ _ _) as [[[e r] st']|?| |]; try done. exists wrap, entry, phdrs. by split.
Qed.

Ltac read_field off n x Hx := let E := fresh in destruct (rd_Ret elf off n ltac:(lia) ltac:(lia)) as [x E];
  pose proof (rd_range elf off n x Hbytes ltac:(lia) E) as Hx; rewrite ?E; cbn [mbind outcome_bind].

Lemma ident_Ret : exists bs, e_ident elf = Ret bs.
Proof. unfold e_ident. rewrite fetch_Ret by lia. eauto. Qed.

Lemma elf64_aside : aside_spec
  (entry ← e_entry elf; off ← e_phoff elf; sz ← e_phdr_size elf; num ← e_ph_num elf;
   phdrs ← read_phdrs elf off sz (Z.to_nat num) 0; Ret (u64, entry, phdrs)) (elf64_load_elsewhere max t elf st).
Proof.
  unfold elf64_load_elsewhere, elf64_validate, e_type, e_machine, e_entry, e_phoff, e_phdr_size, e_ph_num.
  destruct ident_Ret as [bs ->]. cbn [mbind outcome_bind].
  read_field 16 2 type Htype. read_field 18 2 machine Hmachine. read_field 24 8 entry Hentry. read_field 32 8 off Hoff.
  read_field 54 2 sz Hsz. read_field 56 2 num Hnum.
  destruct (negb (strncmp _ _ _ =? 0)); [done|]. destruct (negb (field 5 1 bs =? 1)); [done|].
  destruct (negb (machine =? ARCH t) && _); [done|]. cbn [mbind outcome_bind].
  destruct (_ && _); [done|]. destruct (Z.ltb_spec sz 56); [done|]. destruct (_ || _) eqn:Eb; [done|].
  apply orb_false_iff in Eb as [?%Z.ltb_ge ?%Z.ltb_ge].
  destruct (read_phdrs_total elf off sz ltac:(lia) ltac:(lia) ltac:(lia) (Z.to_nat num) 0 ltac:(lia) ltac:(lia)) as [phdrs Hph]. rewrite Hph. cbn [mbind outcome_bind].
  apply aside_intro. by eapply read_phdrs_ok.
Qed.

Lemma elf32_aside : aside_spec
  (entry ← rd elf 24 4; off ← rd elf 28 4; sz ← rd elf 42 2; num ← rd elf 44 2;
   phdrs ← read_phdrs32 elf off sz (Z.to_nat num) 0; Ret (u32, entry, phdrs)) (elf32_load_elsewhere max elf st).
Proof.
  unfold elf32_load_elsewhere, elf32_validate, e_type, e_machine.
  destruct ident_Ret as [bs ->]. cbn [mbind outcome_bind].
  read_field 16 2 type Htype. read_field 18 2 machine Hmachine. read_field 24 4 entry Hentry. read_field 28 4 off Hoff.
  read_field 42 2 sz Hsz. read_field 44 2 num Hnum.
  destruct (negb (strncmp _ _ _ =? 0)); [done|]. destruct (negb (field 5 1 bs =? 1)); [done|]. destruct (negb (machine =? 3)); [done|]. cbn [mbind outcome_bind].
  destruct (_ && _); [done|]. destruct (Z.ltb_spec sz 32); [done|]. destruct (_ || _) eqn:Eb; [done|].
  apply orb_false_iff in Eb as [?%Z.ltb_ge ?%Z.ltb_ge].
  destruct (read_phdrs32_total elf off sz ltac:(lia) ltac:(lia) (Z.to_nat num) 0 ltac:(lia) ltac:(lia)) as [phdrs Hph]. rewrite Hph. cbn [mbind outcome_bind].
  apply aside_intro. by eapply read_phdrs32_ok.
Qed.

Lemma elf_bits_Ret : exists b, elf_bits elf = Ret b.
Proof.
  unfold elf_bits, e_machine. destruct ident_Ret as [bs ->]. cbn [mbind outcome_bind]. read_field 18 2 machine Hmachine. repeat case_match; eauto.
Qed.

Lemma section_info_total : total (fun _ => True) (elf32_section_hdr_info elf) /\ total (fun _ => True) (elf64_section_hdr_info t elf).
Proof.
  unfold elf32_section_hdr_info, elf64_section_hdr_info, elf32_validate, elf64_validate, e_machine.
  destruct ident_Ret as [bs ->]. cbn [mbind outcome_bind]. read_field 18 2 machine Hmachine.
  read_field 40 8 x1 Hx1. read_field 58 2 x2 Hx2. read_field 60 2 x3 Hx3. read_field 62 2 x4 Hx4.
  read_field 32 4 y1 Hy1. read_field 46 2 y2 Hy2. read_field 48 2 y3 Hy3. read_field 50 2 y4 Hy4.
  split; repeat case_match; done.
Qed.

(** C32: for any file of at least 64 bytes, the size of a header, loading it for a
    Multiboot protocol terminates and reads nothing outside of the file.  When it returns,
    and the loadable segments span at most 2^63 bytes of physical addresses, memory in use
    has not been written, the block was taken from usable memory, spans all loadable
    segments and holds the image by physical addresses, and the entry point is translated
    by the first segment that holds it.  With a larger span memory in use can be
    overwritten: [elsewhere_overwrite]. *)
Theorem load_kernel_elsewhere_correct :
  match load_kernel_elsewhere max t elf st with
  | Ret (entry', r, st', info) => exists wrap entry phdrs, file_phdrs elf = Ret (wrap, entry, phdrs) /\
      (r.(er_length) <= W63 -> entry' = moved_entry wrap phdrs entry /\ put_aside elf phdrs st st' r)
  | Panic _ => True
  | Undef | Diverge => False
  end.
Proof.
  unfold load_kernel_elsewhere, file_phdrs. destruct elf_bits_Ret as [b ->]. cbn [mbind outcome_bind]. destruct section_info_total as [H32 H64].
  destruct (b =? 32).
  - pose proof elf32_aside as H. destruct (elf32_load_elsewhere _ _ _) as [[[e r] st']|?| |]; try done. cbn [mbind outcome_bind].
    by destruct (elf32_section_hdr_info elf).
  - destruct (b =? 64); [|done]. pose proof elf64_aside as H. destruct (elf64_load_elsewhere _ _ _ _) as [[[e r] st']|?| |]; try done.
    cbn [mbind outcome_bind]. by destruct (elf64_section_hdr_info t elf).
Qed.
End file.
End loaders.

(** An executable at a fixed address, with its entry point in the second segment. *)
Definition demo_kernel : list Z :=
  demo_header ET_EXEC 0x3e 0xffffffff80102004 2 ++ demo_phdr ELF_PT_LOAD 5 176 0xffffffff80100000 0x100000 8 8 4096
  ++ demo_phdr ELF_PT_LOAD 5 184 0xffffffff80102000 0x102000 8 16 4096 ++ demo_words [0x1122334455667788; 0x99aabbccddeeff00].

Lemma load_kernel_elsewhere_correct_witness : exists r st' info,
  load_kernel_elsewhere 512 elf_x86_64 demo_kernel demo = Ret (0x102004, r, st', info) /\ target r = 0x100000 /\ er_length r = 0x2010 /\
  put_aside demo_kernel (match file_phdrs demo_kernel with Ret (_, _, phdrs) => phdrs | _ => [] end) demo st' r.
Proof.
  pose proof (load_kernel_elsewhere_correct 512 elf_x86_64 demo_kernel demo) as H.
  assert (match load_kernel_elsewhere 512 elf_x86_64 demo_kernel demo with
    | Ret (e, r, _, _) => (e =? 0x102004) && (target r =? 0x100000) && (er_length r =? 0x2010) | _ => false end = true) as Hc by (vm_compute; reflexivity).
  destruct (load_kernel_elsewhere 512 elf_x86_64 demo_kernel demo) as [[[[e r] st'] info]|?| |]; [|discriminate Hc..].
  rewrite !andb_true_iff, !Z.eqb_eq in Hc. destruct Hc as [[-> Ht] Hl].
  destruct H as (wrap & entry & phdrs & Hf & Hp); [|split; vm_compute; congruence|exact demo_inv|].
  { repeat (apply Forall_app; split); apply (bool_decide_unpack _); vm_compute; exact I. }
  exists r, st', info. split; [reflexivity|]. split; [exact Ht|]. split; [exact Hl|]. rewrite Hf. apply Hp. rewrite Hl. discriminate.
Defined.

(** Segments at both ends of the address space: the size wraps to an empty block, and the
    loader returns after writing memory that is in use. *)
Definition far_kernel : list Z :=
  demo_header ET_EXEC 0x3e 0 2 ++ demo_phdr ELF_PT_LOAD 7 176 0 0xffffffffffffe000 0 0x1800 4096
  ++ demo_phdr ELF_PT_LOAD 7 176 0 0x200 16 16 4096 ++ demo_words [0x1122334455667788; 0x99aabbccddeeff00].

Lemma elsewhere_overwrite : exists e r st' info a, load_kernel_elsewhere 512 elf_x86_64 far_kernel demo = Ret (e, r, st', info) /\
  er_length r = 0xfffffffffffff600 /\ ~ usable demo a /\ ram st' a <> ram demo a.
Proof.
  assert (match load_kernel_elsewhere 512 elf_x86_64 far_kernel demo with
    | Ret (_, r, st', _) => (er_length r =? 0xfffffffffffff600) && negb (ram st' 0x7ff008 =? 0xcc) | _ => false end = true) as Hc by (vm_compute; reflexivity).
  destruct (load_kernel_elsewhere 512 elf_x86_64 far_kernel demo) as [[[[e r] st'] info]|?| |]; [|discriminate Hc..].
  apply andb_true_iff in Hc as [Hl%Z.eqb_eq Hc%negb_true_iff%Z.eqb_neq].
  exists e, r, st', info, 0x7ff008. split; [reflexivity|]. split; [exact Hl|]. split; [exact demo_not_usable|exact Hc].
Qed.
