(* ===== verification/ElfSafe.v ===== *)
(** * Untrusted executables

    What [elf64_load] does with a file nobody checked.  The code bounds the program
    headers and the segments, and trusts the dynamic segment and the tables it points
    to; [sane_file] says what it trusts.  A load of such a file stays within the file and
    its blocks and ends; a load that returns, of any file, has written no memory in use. *)

From S2P Require Import Prelude Bytes Libc Memmap Sanitise Pmm PmmFacts PmmSpec Elf ElfReloc ElfLoad ElfSpec ElfElsewhere.

(** ** What the code takes for granted *)

(** The dynamic segment lies in the file, and its number of entries fits the counter. *)
Definition sane_dynamic (elf : list Z) (phdrs : list elf64_phdr) : bool :=
  match find_dynamic phdrs with
  | None => true
  | Some ph => (ph.(p_filesz) / 16 <? W16) && in_file elf ph.(p_offset) ph.(p_filesz)
  end.

(** The tables that pass the checks of the code lie in the file, and have whole entries. *)
Definition sane_tables (elf : list Z) (d : dyn_info) (relr rela plt : Z) : bool :=
  ((d.(relr_size) =? 0) || negb (d.(relr_ent) =? 8) || in_file elf relr d.(relr_size))
  && ((d.(rela_size) =? 0) || (d.(rela_ent) <? 24) || rela_ok elf rela d.(rela_size) d.(rela_ent))
  && ((d.(dt_pltrelsz) =? 0) || negb (d.(dt_pltrel) =? DT_RELA) || (d.(rela_ent) =? 0) || rela_ok elf plt d.(dt_pltrelsz) d.(rela_ent)).

(** The rest of the segment that holds the symbols lies in the file, and the offset of a
    symbol does not wrap. *)
Definition sane_symbols (elf : list Z) (off ent size : Z) : bool :=
  (off =? 0) || ((ent <? W32) && in_file elf off size).

Definition sane_relocs (elf : list Z) (phdrs : list elf64_phdr) : bool :=
  match (d ← read_dynamic elf phdrs;
         rela ← file_offset phdrs "RELA" d.(rela_offset); relr ← file_offset phdrs "RELR" d.(relr_offset);
         symtab ← file_offset phdrs "SYMTAB" d.(symtab_offset); jmprel ← file_offset phdrs "JMPREL" d.(dt_jmprel);
         Ret (sane_tables elf d relr.1 rela.1 jmprel.1 && sane_symbols elf symtab.1 d.(symtab_ent) symtab.2)) with
  | Ret b => b
  | _ => true
  end.

Definition sane_file (t : elf_target) (elf : list Z) : bool :=
  match checked_phdrs t elf with
  | Ret (_, phdr_size, phdrs) =>
      sane_dynamic elf phdrs && sane_relocs elf phdrs
      && match elf64_max_align phdr_size phdrs with Ret al => al <=? W62 | _ => true end
  | _ => true
  end.

(** ** The headers *)

Lemma is_relocatable_lands sz type phdrs : lands (fun _ => True) (elf64_is_relocatable sz type phdrs).
Proof. unfold elf64_is_relocatable. repeat case_match; done. Qed.

Lemma max_align_lands phdrs : forall ret, lands (fun _ => True) (max_align_loop phdrs ret).
Proof. induction phdrs as [|ph phdrs IH]; intros ret; cbn [max_align_loop]; repeat case_match; done. Qed.

Lemma check_against_lands want reloc ph e i phdrs : forall j, lands (fun _ => True) (check_against want reloc ph e i j phdrs).
Proof. induction phdrs as [|q phdrs IH]; intros j; cbn [check_against]; [done|]. repeat (done || apply IH || case_match). Qed.

Lemma scan_phdrs_lands want reloc all phdrs : forall i ls, lands (fun _ => True) (scan_phdrs want reloc all i phdrs ls).
Proof.
  induction phdrs as [|ph phdrs IH]; intros i ls; cbn [scan_phdrs]; [done|].
  destruct (negb _); [apply IH|]. destruct (_ && _); [done|]. destruct (_ && _); [done|]. destruct (add_overflow _ _); [|done].
  eapply lands_bind; [apply check_against_lands|intros; apply IH].
Qed.

Lemma kaslr_loop_lands tries rand al sl base size : forall n, lands (fun _ => True) (kaslr_loop tries rand n al sl base size).
Proof. induction tries as [|tries IH]; intros n; cbn [kaslr_loop]; [done|]. case_match; [apply IH|done]. Qed.

Lemma checked_phdrs_lands t elf : Forall is_byte elf -> 64 <= Z.of_nat (length elf) < W64 -> lands (fun _ => True) (checked_phdrs t elf).
Proof.
  intros Hb Hlen. unfold checked_phdrs, elf64_validate, e_ident, e_type, e_machine, e_phdr_size, e_ph_num, e_phoff.
  rewrite fetch_Ret by lia. cbn [mbind outcome_bind]. set (bs := slice _ _ _).
  destruct (rd_Ret elf 18 2) as [machine ->]; [lia..|]. destruct (rd_Ret elf 16 2) as [type ->]; [lia..|].
  destruct (rd_Ret elf 54 2) as [sz ->]; [lia..|]. destruct (rd_Ret elf 56 2) as [num Hnum]; [lia..|]. destruct (rd_Ret elf 32 8) as [off Hoff]; [lia..|].
  rewrite Hnum, Hoff. cbn [mbind outcome_bind]. apply rd_range in Hnum as [Hnum _], Hoff as [Hoff _]; [|done|lia|done|lia].
  destruct (negb (strncmp _ _ _ =? 0)); [done|]. destruct (negb (field 5 1 bs =? 1)); [done|].
  destruct (negb (machine =? ARCH t) && _); [done|]. cbn [mbind outcome_bind].
  destruct (_ && _); [done|]. destruct (Z.ltb_spec sz 56); [done|].
  unfold mul_overflow. destruct (num * sz <? W64); cbn [mbind option_bind]; [|done]. destruct (add_overflow _ off) as [e|] eqn:Ea; [|done].
  apply add_overflow_Some in Ea as [-> He]. split_ltb (Z.of_nat (length elf)) (num * sz + off); [done|].
  destruct (read_phdrs_total elf off sz ltac:(lia) ltac:(lia) ltac:(lia) (Z.to_nat num) 0) as [phdrs ->]; [lia|lia|done].
Qed.

(** ** The tables *)

Lemma dyn_scan_lands elf off n : 0 <= off -> n < W16 -> off + n * 16 <= Z.of_nat (length elf) < W64 ->
  forall fuel j d, 0 <= j -> n - j <= Z.of_nat fuel -> lands (fun _ => True) (dyn_scan fuel elf off n j d).
Proof.
  intros Ho Hn Hl. induction fuel as [|fuel IH]; intros j d Hj Hf; cbn [dyn_scan]; (split_ltb j n; [|done]); [lia|].
  rewrite u64_small, fetch_Ret by lia. cbn [mbind outcome_bind]. repeat (case_match; [done|]).
  unfold u16. rewrite Z.mod_small by lia. apply IH; lia.
Qed.

Lemma read_dynamic_lands elf phdrs : Forall phdr_ok phdrs -> sane_dynamic elf phdrs = true -> Z.of_nat (length elf) < W64 ->
  lands (fun _ => True) (read_dynamic elf phdrs).
Proof.
  intros Hok Hs Hl. unfold sane_dynamic in Hs. unfold read_dynamic. destruct (find_dynamic phdrs) as [ph|] eqn:Ef; [|done].
  apply List.find_some in Ef as [Hin _]. apply list_elem_of_In in Hin. rewrite Forall_forall in Hok. destruct (Hok ph Hin) as (Ho & _ & _ & Hf & _).
  unfold in_file in Hs. rewrite !andb_true_iff, Z.ltb_lt, !Z.leb_le in Hs.
  pose proof (Z.mul_div_le (p_filesz ph) 16 ltac:(lia)). pose proof (Z.div_pos (p_filesz ph) 16 ltac:(lia) ltac:(lia)).
  apply dyn_scan_lands; lia.
Qed.

(** The messages of a failed translation do not matter. *)
Lemma file_offset_cases phdrs addr : (exists r, forall msg, file_offset phdrs msg addr = Ret r) \/ (forall msg, file_offset phdrs msg addr = Panic msg).
Proof. unfold file_offset. destruct (addr =? 0); [left; by eexists|]. destruct (List.find _ _); [left; by eexists|by right]. Qed.

Lemma words_Ret elf k : forall off, 0 <= off -> off + 8 * Z.of_nat k <= Z.of_nat (length elf) -> exists es, words elf off k = Ret es.
Proof.
  induction k as [|k IH]; intros off Ho Hl; cbn [words]; [eauto|].
  destruct (rd_Ret elf off 8) as [x ->]; [lia..|]. destruct (IH (off + 8)) as [es ->]; [lia..|]. cbn. eauto.
Qed.

Section relocs.
Context (max : nat) (t : elf_target) (elf : list Z) (phdrs : list elf64_phdr).
Hypothesis Hbytes : Forall is_byte elf.
Hypothesis Hlen : Z.of_nat (length elf) < 0x1000000000000.

(** Tables the code would walk out of do not pass its checks. *)
Lemma count_relocs_lands d relr rela plt : dyn_ok d -> sane_tables elf d relr rela plt = true ->
  lands (fun _ => tables_ok elf d relr rela plt = true /\ exists es, words elf relr (Z.to_nat (d.(relr_size) / 8)) = Ret es) (count_relocs elf d relr).
Proof.
  intros (Hr & _) Hs. unfold sane_tables in Hs. rewrite !andb_true_iff in Hs. destruct Hs as [[Hs1 Hs2] Hs3].
  unfold count_relocs, tables_ok. set (b1 := _ || (_ && in_file _ _ _)). set (b2 := (rela_size d =? 0) || _). set (b3 := (dt_pltrelsz d =? 0) || _).
  eapply (lands_bind (fun _ => b1 = true /\ exists es, words elf relr (Z.to_nat (d.(relr_size) / 8)) = Ret es)).
  { unfold b1. split_eqb (relr_size d) 0; cbn [orb] in *; [split; [done|]; replace (relr_size d) with 0 by lia; by exists []|].
    destruct (relr_ent d =? 8); [|done]. cbn [orb negb andb] in *. rewrite Hs1.
    unfold in_file in Hs1. rewrite andb_true_iff, !Z.leb_le in Hs1. pose proof (Z.mul_div_le (relr_size d) 8 ltac:(lia)).
    pose proof (Z.div_pos (relr_size d) 8 ltac:(lia) ltac:(lia)). destruct (words_Ret elf (Z.to_nat (relr_size d / 8)) relr) as [es Hes]; [lia..|].
    rewrite relr_count_words by lia. rewrite Hes. cbn. eauto. }
  intros n _ [-> Hes]. eapply (lands_bind (fun _ => b2 = true)).
  { unfold b2. destruct (rela_size d =? 0); [done|]. destruct (rela_ent d <? 24); done. }
  intros m _ ->. eapply (lands_bind (fun _ => b3 = true)).
  { unfold b3. destruct (dt_pltrelsz d =? 0); [done|]. destruct (dt_pltrel d =? DT_RELA); [|done]. destruct (rela_ent d =? 0); done. }
  intros k _ ->. done.
Qed.

(** The symbol of a relocation, and the relocation. *)
Lemma symbol_value_lands env r : sane_symbols elf env.(sym_off) env.(sym_ent) env.(sym_size) = true -> 0 <= env.(sym_ent) -> 0 <= r.(r_symbol) < W32 ->
  lands (fun _ => True) (symbol_value elf env r).
Proof.
  intros Hs He Hr. unfold symbol_value, sane_symbols in *. destruct (sym_off env =? 0); cbn [orb] in *; [done|]. destruct (sym_ent env =? 0); [done|].
  destruct (sym_size env =? 0); [done|]. unfold in_file in Hs. rewrite !andb_true_iff, Z.ltb_lt, !Z.leb_le in Hs.
  assert (0 <= sym_ent env * r_symbol r <= (W32 - 1) * (W32 - 1)) by nia.
  rewrite (u64_small (_ * _)), u64_small by lia. split_ltb (sym_size env) (sym_ent env * r_symbol r + 24); [done|].
  rewrite fetch_Ret by lia. cbn [mbind outcome_bind]. repeat case_match; done.
Qed.

Lemma deref_symbol s r : deref elf s = Ret r -> 0 <= r.(r_symbol) < W32.
Proof.
  intros H. destruct s as [[p a|off]|]; cbn in H; [by simplify_eq| |done]. apply bind_Ret_inv in H as (bs & Hf & H). simplify_eq.
  apply fetch_inv in Hf as (_ & _ & ->). apply (field_range 12 4). by apply slice_bytes.
Qed.

Lemma apply_all_lands env buffer vaddr size slide relocs rs : sane_symbols elf env.(sym_off) env.(sym_ent) env.(sym_size) = true -> 0 <= env.(sym_ent) ->
  Forall2 (fun s r => deref elf s = Ret r) relocs rs -> forall mem, lands (fun _ => True) (apply_all t elf env buffer vaddr size slide relocs mem).
Proof.
  intros Hs He. induction 1 as [|s r relocs rs Hd _ IH]; intros mem; cbn [apply_all]; [done|].
  apply (lands_bind (fun _ => True)); [|intros mem' _ _; apply IH]. unfold apply_one. rewrite Hd. cbn [mbind outcome_bind].
  case_match; [done|]. apply (lands_bind (fun _ => True)); [|done]. apply deref_symbol in Hd. pose proof (symbol_value_lands env r Hs He Hd) as Hv.
  unfold reloc_value. repeat (case_match; [done|]). destruct (symbol_value elf env r); repeat case_match; done.
Qed.

Lemma dyn_scan_ent off n fuel : forall j d d', 0 <= d.(symtab_ent) -> dyn_scan fuel elf off n j d = Ret d' -> 0 <= d'.(symtab_ent).
Proof.
  induction fuel as [|fuel IH]; intros j d d' Hd H; cbn [dyn_scan] in H; (destruct (j <? n); [|by simplify_eq]); [done|].
  apply bind_Ret_inv in H as (bs & Hf & H). apply fetch_inv in Hf as (_ & _ & ->).
  pose proof (field_range 8 8 (slice (Z.to_nat (u64 (off + j * 16))) 16 elf) (slice_bytes _ _ _ Hbytes)) as [Hr _].
  repeat case_match; try done; [by simplify_eq|..]. all: eapply IH, H; cbn; case_match; done.
Qed.

Lemma read_dynamic_ent d : read_dynamic elf phdrs = Ret d -> 0 <= d.(symtab_ent).
Proof. intros H. unfold read_dynamic in H. case_match; [by eapply dyn_scan_ent, H|by simplify_eq]. Qed.

(** What a free of the array leaves, whatever was written in between. *)
Lemma free_lands st0 st ptrs addrs array n mem : evolves st0 st -> length ptrs = length addrs -> Forall (scratch_ok st0 24) ptrs ->
  scratch_ok st0 n array -> 0 <= n ->
  lands pmm_inv (st ← free_relrs max (scratch_slots ptrs addrs) (set_ram mem st); pmm_free max st array n).
Proof.
  intros [I K U R] Hl Hp Ha Hn. assert (evolves (set_ram mem st0) (set_ram mem st)) as Hev by (split; [by destruct I|done|done|done]).
  pose proof (free_relrs_spec max (set_ram mem st0) ptrs addrs _ Hl Hp Hev) as Hfree. destruct (free_relrs _ _ _) as [st1|?| |]; try done.
  destruct Hfree as [Hev1 _]. cbn [mbind outcome_bind]. pose proof Ha as (? & ? & _).
  pose proof (free_total max st1 array n (ev_inv _ _ Hev1) ltac:(lia) Hn ltac:(lia)) as Hft.
  destruct (pmm_free _ _ _ _) as [st2|?| |] eqn:Hf; try done. eapply ev_inv, block_free, Hf; [exact Hev1|exact Ha|done].
Qed.

Lemma whole_tables_lands d relr rela plt env buffer vaddr size slide st : dyn_ok d -> sane_tables elf d relr rela plt = true ->
  sane_symbols elf env.(sym_off) env.(sym_ent) env.(sym_size) = true -> 0 <= env.(sym_ent) -> pmm_inv st ->
  lands pmm_inv (counts ← count_relocs elf d relr; let '(relr_count, relocs_i) := (counts : Z * Z) in
    r ← ext_mem_alloc max st (u64 (relocs_i * 8)); let '(array, st) := (r : Z * pmm) in
    r ← fill_relocs max elf d relr rela plt relr_count (block_size (u64 (relocs_i * 8)) / 8) st;
    let '(relocs, st) := (r : list (option reloc_slot) * pmm) in
    mem ← apply_all t elf env buffer vaddr size slide (take (Z.to_nat relocs_i) relocs) (ram st);
    st ← free_relrs max (take (Z.to_nat relr_count) relocs) (set_ram mem st);
    pmm_free max st array (u64 (relocs_i * 8))).
Proof.
  intros Hd Hs Hsym Hent Hi. eapply lands_bind; [by apply (count_relocs_lands d relr rela plt)|]. intros [c n] Hc (Hok & es & Hes).
  rewrite (count_relocs_spec _ _ _ _ _ _ Hd Hok Hes Hlen) in Hc. injection Hc as <- <-.
  pose proof (array_bound _ _ _ _ _ _ Hd Hok Hes) as Hbound.
  set (k0 := length (relr_decode es 0)) in *. set (k := (k0 + _ + _)%nat) in *.
  destruct (block_slots (Z.of_nat k)) as [Hk Hblk]; [lia..|]. rewrite Hblk, Hk.
  eapply lands_bind; [apply (lands_total (fun _ => True)), alloc_any_total, Hi|]. intros [array st1] Ha _.
  apply (block_alloc max st) in Ha as [Hev1 Hsc]; [|by apply evolves_refl].
  pose proof (fill_relocs_spec max _ _ _ _ _ _ Hbytes Hd Hok Hes Hlen st st1 Hev1) as Hfill. fold k0 k in Hfill.
  destruct (fill_relocs _ _ _ _ _ _ _ _ _) as [[relocs st2]|?| |]; try done. destruct Hfill as (ptrs & Hlp & Hptrs & Hev2 & ->).
  cbn [mbind outcome_bind]. pose proof (derefs_spec _ _ _ _ _ _ Hd Hok Hlen ptrs Hlp) as Hder.
  rewrite !Nat2Z.id, (firstn_all2 (n := k)), take_app_length'.
  - eapply lands_bind; [by eapply apply_all_lands|]. intros mem _ _. by eapply free_lands; [| | |exact Hsc|lia].
  - unfold scratch_slots. rewrite length_zip_with. lia.
  - rewrite !length_app. unfold scratch_slots, file_slots. rewrite length_zip_with, !length_fmap, !length_rela_offsets. lia.
Qed.

Hypothesis Hphdrs : Forall phdr_ok phdrs.
Hypothesis Hdyn : sane_dynamic elf phdrs = true.
Hypothesis Hrel : sane_relocs elf phdrs = true.

Lemma apply_relocations_lands sz buffer vaddr size slide st : pmm_inv st ->
  lands pmm_inv (elf64_apply_relocations max t elf sz phdrs buffer vaddr size slide st).
Proof.
  intros Hi. unfold elf64_apply_relocations. case_match; [done|].
  eapply lands_bind; [by apply read_dynamic_lands; [| |lia]|]. intros d Hd _.
  pose proof Hrel as Hr. unfold sane_relocs in Hr. rewrite Hd in Hr. cbn [mbind outcome_bind] in Hr.
  destruct (file_offset_cases phdrs (rela_offset d)) as [[rela Er]|Er]; rewrite !Er in *; cbn [mbind outcome_bind] in *; [|done].
  destruct (file_offset_cases phdrs (relr_offset d)) as [[relr Err]|Err]; rewrite !Err in *; cbn [mbind outcome_bind] in *; [|done].
  destruct (file_offset_cases phdrs (symtab_offset d)) as [[symtab Es]|Es]; rewrite !Es in *; cbn [mbind outcome_bind] in *; [|done].
  destruct (file_offset_cases phdrs (strtab_offset d)) as [[strtab Et]|Et]; rewrite !Et in *; cbn [mbind outcome_bind] in *; [|done].
  destruct (file_offset_cases phdrs (dt_jmprel d)) as [[plt Ej]|Ej]; rewrite !Ej in *; cbn [mbind outcome_bind] in *; [|done].
  apply andb_true_iff in Hr as [Htab Hsym]. apply whole_tables_lands; [by eapply read_dynamic_ok|done|done|by apply read_dynamic_ent|done].
Qed.

Lemma load_segments_lands sz base minv maxv slide segs : Forall phdr_ok segs -> forall bss st, pmm_inv st ->
  lands (fun r => pmm_inv r.2) (load_segments max t elf sz phdrs base minv maxv slide segs bss st).
Proof.
  induction 1 as [|ph segs Hph _ IH]; intros bss st Hi; cbn [load_segments]; [done|]. destruct (negb (is_load ph)); [by apply IH|].
  split_ltb (p_memsz ph) (p_filesz ph); [done|]. destruct (add_overflow _ _) as [e|] eqn:Ea; [|done]. apply add_overflow_Some in Ea as [-> He].
  split_ltb (Z.of_nat (length elf)) (p_offset ph + p_filesz ph); [done|]. destruct Hph as (? & _ & _ & ? & _).
  rewrite fetch_Ret by lia. cbn [mbind outcome_bind].
  eapply lands_bind; [apply apply_relocations_lands; by destruct Hi|]. intros st1 _ Hi1. by apply IH.
Qed.

Lemma get_ranges_lands (want : bool) sz type slide st : pmm_inv st ->
  lands (fun _ => True) (if want then elf64_get_ranges max sz type phdrs slide st else Ret ([], st)).
Proof.
  intros Hi. destruct want; [|done]. unfold elf64_get_ranges. case_match; [done|]. eapply lands_bind; [apply is_relocatable_lands|].
  intros reloc _ _. case_match; [done|]. eapply lands_bind; [apply (lands_total (fun _ => True)), alloc_any_total, Hi|done].
Qed.
End relocs.

(** ** elf64_load *)

Section load.
Context (max : nat) (t : elf_target) (elf : list Z) (alloc_type : Z) (kaslr want_ranges : bool) (rand : nat -> Z) (st : pmm).
Hypothesis Hbytes : Forall is_byte elf.
Hypothesis Hlen : 64 <= Z.of_nat (length elf) < 0x1000000000000.
Hypothesis Htype : alloc_type <> MEMMAP_USABLE.
Hypothesis Hi : pmm_inv st.

Lemma sane_load_lands : sane_file t elf = true -> lands (fun _ => True) (elf64_load max t elf alloc_type kaslr want_ranges rand st).
Proof.
  intros Hs. unfold elf64_load, sane_file in *. eapply lands_bind; [apply checked_phdrs_lands; [done|lia]|]. intros [[type sz] phdrs] Hph _.
  rewrite Hph in Hs. rewrite !andb_true_iff in Hs. destruct Hs as [[Hdyn Hrel] Hal]. destruct (checked_phdrs_ok _ _ _ _ _ Hbytes Hph) as (Hsz & Hok & _).
  eapply lands_bind; [apply is_relocatable_lands|]. intros reloc _ _.
  unfold e_entry. destruct (rd_Ret elf 24 8) as [entry ->]; [lia..|]. cbn [mbind outcome_bind].
  unfold elf64_max_align in *. destruct (sz <? 56); [done|]. eapply lands_bind; [apply max_align_lands|]. intros al Hal' _. rewrite Hal', Z.leb_le in Hal.
  apply max_align_ok in Hal' as [Hal0 Hal1]; [|done|by left].
  eapply lands_bind; [apply scan_phdrs_lands|]. intros ls _ _. destruct (min_vaddr ls =? W64 - 1); [done|].
  eapply lands_bind; [apply (lands_total (fun _ => True)), alloc_total_any; (done || lia)|]. intros [base st1] Ha _.
  apply alloc_evolves_any in Ha as [Hev _]; [|done|lia|done|done].
  eapply lands_bind; [destruct (reloc && kaslr); [apply kaslr_loop_lands|done]|]. intros sl _ _.
  eapply lands_bind; [apply load_segments_lands; (done || lia || apply Hev)|]. intros [bss st2] _ Hi2.
  eapply lands_bind; [by apply get_ranges_lands|]. by intros [rgs st3] _ _.
Qed.

End load.

(** The example, which loads; with a RELA table that ends in a part of an entry, or a RELR
    table that leaves the file, it is not sane, and the code leaves its array or the file. *)
Lemma sane_examples : sane_file elf_x86_64 demo_elf = true /\ sane_file elf_x86_64 (demo_file 25 8) = false /\
  sane_file elf_x86_64 (demo_file 24 0x1000) = false.
Proof. vm_compute. done. Qed.

