(* ===== verification/Config.v ===== *)
(** * The configuration file: common/lib/config.c

    Reading the configuration: the checksum that may be enrolled in the boot loader,
    the removal of carriage returns and blanks, macros, the tree of menu entries, and
    the lookup of values; and the search of the SMBIOS tables for a configuration.

    The configuration is a list of bytes that ends in a NUL.  Where the code walks
    with an index or a pointer, the functions walk with the bytes from there on, and
    the byte before where the code looks back.  To read past the end of the list is
    [Undef].  The allocations of the code are not modelled: they are freed, or hold
    the results. *)

From S2P Require Import Prelude Bytes Libc Blake2b Volume Iso9660 File.

Definition SEPARATOR : Z := 10.

(** [memcmp(p, s, n) == 0] where [n] bytes are left. *)
Fixpoint starts_with (s rest : list Z) : bool :=
  match s, rest with
  | [], _ => true
  | c :: s, d :: rest => (c =? d) && starts_with s rest
  | _ :: _, [] => false
  end.

(** ** The checksum *)

Definition CONFIG_B2SUM_EMPTY : list Z := replicate 128 48.

(** [digit_to_int(h[i * 2]) << 4 | digit_to_int(h[i * 2 + 1])], for [k] bytes *)
Fixpoint parse_hash (k : nat) (h : list Z) : list Z :=
  match k with
  | O => []
  | S k => u8 (Z.lor (Z.shiftl (digit_to_int (hd0 h)) 4) (digit_to_int (hd0 (tl0 h)))) :: parse_hash k (tl0 (tl0 h))
  end.

(** The result is the new value of [editor_enabled]. *)
Definition check_b2sum (config_b2sum : list Z) (config : list Z) (config_size : Z) (editor_enabled : bool) : outcome bool :=
  if bool_decide (config_b2sum = CONFIG_B2SUM_EMPTY) then Ret editor_enabled
  else
    out_buf ← blake2b (take (Z.to_nat (config_size - 2)) config);
    if bool_decide (parse_hash BLAKE2B_OUT_BYTES config_b2sum = out_buf) then Ret false
    else Panic "!!! CHECKSUM MISMATCH FOR CONFIG FILE !!!".

(** ** Carriage returns and blanks *)

Definition is_blank (c : Z) : bool := (c =? 32) || (c =? 9).

(** The number of blanks that [rest] starts with. *)
Fixpoint blanks (rest : list Z) : nat :=
  match rest with
  | c :: rest => if is_blank c then S (blanks rest) else O
  | [] => O
  end.

(** The second loop over [skip]; [sol]: the byte before [i] is a newline or there is none. *)
Fixpoint returns_at (sol : bool) (rest : list Z) : nat :=
  match rest with
  | c :: rest => if (c =? 13) || (sol && is_blank c) then S (returns_at sol rest) else O
  | [] => O
  end.

Definition skip_at (sol : bool) (rest : list Z) : nat :=
  let skip := blanks rest in
  if negb (Nat.eqb skip 0) && (hd0 (drop skip rest) =? 10) then skip else returns_at sol rest.

(** The loop from [i] on; [fuel] bounds the bytes left. *)
Fixpoint strip_loop (fuel : nat) (sol : bool) (rest : list Z) : outcome (list Z) :=
  match rest with
  | [] => Ret []
  | _ :: _ =>
      match fuel with
      | O => Diverge
      | S fuel =>
          match drop (skip_at sol rest) rest with
          | [] => Ret []
          | c :: rest => out ← strip_loop fuel (c =? 10) rest; Ret (c :: out)
          end
      end
  end.

Definition strip (config : list Z) : outcome (list Z) := strip_loop (length config) true config.

(** ** Macros *)

(** The bytes up to the first that is in [stop]; at most [limit], otherwise [None]. *)
Fixpoint read_until (stop : list Z) (limit : nat) (rest : list Z) : outcome (option (list Z * list Z)) :=
  match rest with
  | [] => Undef
  | c :: rest' =>
      if bool_decide (c ∈ stop) then Ret (Some ([], rest))
      else match limit with
           | O => Ret None
           | S limit =>
               r ← read_until stop limit rest';
               Ret ((fun '(s, rest) => (c :: s, rest)) <$> (r : option (list Z * list Z)))
           end
  end.

(** [first]: [i] is 0. *)
Definition is_definition (first : bool) (rest : list Z) : bool :=
  starts_with [10; 36; 123] rest || (first && starts_with [36; 123] rest).

Fixpoint load_macros (fuel : nat) (first : bool) (rest : list Z) (macros : list (list Z * list Z)) : outcome (list (list Z * list Z)) :=
  match rest with
  | [] => Ret macros
  | _ :: rest1 =>
      match fuel with
      | O => Diverge
      | S fuel =>
          if is_definition first rest then
            r ← read_until [125; 10; 0] 1023 (drop (if first then 2 else 3) rest);
            match (r : option (list Z * list Z)) with
            | None => Panic "config: Macro name too long"
            | Some (name, rest) =>
                c ← get rest 0;
                if ((c : Z) =? 10) || (c =? 0) then load_macros fuel false rest macros
                else
                  d ← get rest 1;
                  if negb ((d : Z) =? 61) then load_macros fuel false rest macros
                  else
                    r ← read_until [10; 0] 2047 (drop 2 rest);
                    match (r : option (list Z * list Z)) with
                    | None => Panic "config: Macro value too long"
                    | Some (value, rest) => load_macros fuel false rest ((name, value) :: macros)
                    end
            end
          else load_macros fuel false rest1 macros
      end
  end.

Definition malformed_msg : string := "config: Malformed macro usage".
Definition overflow_msg : string := "config: Macro-induced buffer overflow".

(** What is behind the first byte [c]. *)
Fixpoint after (c : Z) (rest : list Z) : option (list Z) :=
  match rest with
  | [] => None
  | d :: rest => if d =? c then Some rest else after c rest
  end.

(** The bytes from the end of the line on. *)
Fixpoint skip_line (rest : list Z) : outcome (list Z) :=
  match rest with
  | [] => Panic malformed_msg
  | c :: rest' => if (c =? 10) || (c =? 0) then Ret rest else skip_line rest'
  end.

(** The name of a definition and its value are skipped, up to the end of the line;
    [None] if it is not a definition after all. *)
Definition skip_definition (rest : list Z) : outcome (option (list Z)) :=
  match after 125 rest with
  | None => Panic malformed_msg
  | Some [] => Ret None
  | Some (c :: rest) =>
      if negb (c =? 61) then Ret None
      else match rest with
           | [] => Undef
           | _ :: _ => rest ← skip_line rest; Ret (Some rest)
           end
  end.

Fixpoint lookup_macro (macros : list (list Z * list Z)) (name : list Z) : list Z :=
  match macros with
  | [] => []
  | (n, v) :: macros => if strcmp n name =? 0 then v else lookup_macro macros name
  end.

(** The loop from [i] on with [room] bytes left in the new buffer. *)
Fixpoint expand_loop (fuel : nat) (macros : list (list Z * list Z)) (first : bool) (rest : list Z) (room : Z) : outcome (list Z) :=
  match rest with
  | [] => Ret []
  | c :: rest1 =>
      match fuel with
      | O => Diverge
      | S fuel =>
          def ← (if is_definition first rest then skip_definition (drop (if first then 2 else 3) rest) else Ret None);
          match (def : option (list Z)) with
          | Some rest => expand_loop fuel macros false rest room
          | None =>
              if starts_with [36; 123] rest then
                r ← read_until [125; 10; 0] 1023 (drop 2 rest);
                match (r : option (list Z * list Z)) with
                | None => Panic malformed_msg
                | Some (name, rest) =>
                    c ← get rest 0;
                    if negb ((c : Z) =? 125) then Panic malformed_msg
                    else
                      let value := lookup_macro macros name in
                      if room <? Z.of_nat (length value) then Panic overflow_msg
                      else out ← expand_loop fuel macros false (drop 1 rest) (room - Z.of_nat (length value)); Ret (value ++ out)
                end
              else if room <=? 0 then Panic overflow_msg
              else out ← expand_loop fuel macros false rest1 (room - 1); Ret (c :: out)
          end
      end
  end.

(** The macros of the machine, and those of the file. *)
Definition builtin_macros (arch fw_type : list Z) : list (list Z * list Z) := [(str "FW_TYPE", fw_type); (str "ARCH", arch)].

(** The new buffer, of four times the size. *)
Definition expand_macros (arch fw_type : list Z) (config : list Z) : outcome (list Z) :=
  macros ← load_macros (length config) true config (builtin_macros arch fw_type);
  let config_size := Z.of_nat (length config) in
  if (W64 - 1) / 4 <? config_size then Panic "config: Config file too large for macro expansion"
  else
    out ← expand_loop (length config) macros true config (config_size * 4);
    Ret (out ++ replicate (Z.to_nat (config_size * 4) - length out) 0).

(** ** Entries *)

(** The bytes behind the slash that starts the entry [index]; [None] if there is no
    such entry.  [sol]: the byte before is a newline, or there is none. *)
Fixpoint find_entry (index : nat) (sol : bool) (p : list Z) : outcome (option (list Z)) :=
  match p with
  | [] => Undef
  | c :: p =>
      if c =? 47 then
        if sol then
          match index with
          | O => Ret (Some p)
          | S index => find_entry index false p
          end
        else find_entry index false p
      else if c =? 0 then Ret None
      else find_entry index (c =? 10) p
  end.

(** At most [n] bytes of the line. *)
Fixpoint copy_line (n : nat) (p : list Z) : outcome (list Z) :=
  match n with
  | O => Ret []
  | S n =>
      match p with
      | [] => Undef
      | c :: p => if c =? SEPARATOR then Ret [] else r ← copy_line n p; Ret (c :: r)
      end
  end.

(** [config_get_entry_name]: the string in the buffer, [None] for false. *)
Definition config_get_entry_name (config : list Z) (index limit : nat) : outcome (option (list Z)) :=
  r ← find_entry index true config;
  match (r : option (list Z)) with
  | None => Ret None
  | Some p => ret ← copy_line (limit - 1) (47 :: p); Ret (Some (cstring ret))
  end.

(** The bytes from the next newline on. *)
Fixpoint to_newline (p : list Z) : outcome (list Z) :=
  match p with
  | [] => Undef
  | c :: p' => if c =? 10 then Ret p else to_newline p'
  end.

(** From [cont] on: the bytes before the end of the entry; [prev] is the byte before [p]. *)
Fixpoint entry_size (prev : Z) (p : list Z) : outcome nat :=
  match p with
  | [] => Undef
  | c :: p =>
      if c =? 0 then Ret 0%nat
      else if (c =? 47) && (prev =? 10) then Ret 0%nat
      else n ← entry_size c p; Ret (S n)
  end.

(** [config_get_entry]: the bytes from the result on, and the size; [None] for NULL. *)
Definition config_get_entry (config : list Z) (index : nat) : outcome (option (list Z * nat)) :=
  r ← find_entry index true config;
  match (r : option (list Z)) with
  | None => Ret None
  | Some [] => Undef
  | Some (_ :: p) => ret ← to_newline p; size ← entry_size 0 ret; Ret (Some (ret, size))
  end.

(** ** Values *)

(** [config_get_value(config, index, key)] from [i] on, where [sol] says that [i] is
    at the start of a line: the value, and the bytes that [lastkey] is set to.  The
    configuration is a C string here. *)
Definition CONFIG_VALUE_BUF_SIZE : nat := 4096.

Fixpoint skip_blanks (p : list Z) : list Z :=
  match p with
  | c :: p' => if is_blank c then skip_blanks p' else p
  | [] => []
  end.
Fixpoint line_of (p : list Z) : list Z :=
  match p with
  | c :: p => if (c =? SEPARATOR) || (c =? 0) then [] else c :: line_of p
  | [] => []
  end.

Fixpoint get_value_loop (sol : bool) (config : list Z) (index : nat) (key : list Z) : option (list Z * list Z) :=
  match config with
  | [] => None
  | c :: config' =>
      if c =? 0 then None
      else if (strncasecmp config key (length key) =? 0) && (hd0 (drop (length key) config) =? 58) && sol then
        match index with
        | S index => get_value_loop (c =? SEPARATOR) config' index key
        | O =>
            let p := skip_blanks (drop (length key + 1) config) in
            Some (take (CONFIG_VALUE_BUF_SIZE - 1) (line_of p), p)
        end
      else get_value_loop (c =? SEPARATOR) config' index key
  end.
Definition config_get_value (config : list Z) (index : nat) (key : list Z) : option (list Z * list Z) :=
  get_value_loop true config index key.

(** [struct conf_tuple] *)
Record conf_tuple := { value1 : option (list Z); value2 : option (list Z) }.

Definition CONF_TUPLE_BUF_SIZE : nat := 4096.

(** [lk2 > lk3]: pointers into the same string, the rest of the string is shorter
    behind the greater one. *)
Definition config_get_tuple (config : list Z) (index : nat) (key1 key2 : list Z) : conf_tuple :=
  match config_get_value config index key1 with
  | None => {| value1 := None; value2 := None |}
  | Some (tmp1, lk1) =>
      let '(v2, lk2) :=
        match config_get_value lk1 0 key2 with
        | Some (tmp2, lk2) => (Some (take (CONF_TUPLE_BUF_SIZE - 1) tmp2), lk2)
        | None => (None, lk1)
        end in
      {| value1 := Some (take (CONF_TUPLE_BUF_SIZE - 1) tmp1);
         value2 :=
           match config_get_value config (index + 1) key1 with
           | Some (_, lk3) => if decide (length lk2 < length lk3)%nat then None else v2
           | None => v2
           end |}
  end.

(** ** The menu *)

(** [struct menu_entry]; a list of entries is the chain of their [next]. *)
Inductive menu_entry := Entry {
  name : list Z;
  comment : option (list Z);
  sub : list menu_entry;
  expanded : bool;
  body : list Z
}.

Inductive child := NOT_CHILD | DIRECT_CHILD | INDIRECT_CHILD.

(** [is_child], and the name it leaves in the buffer. *)
Definition is_child (config : list Z) (current_depth index : nat) : outcome (child * list Z) :=
  r ← config_get_entry_name config index 64;
  Ret match (r : option (list Z)) with
      | None => (NOT_CHILD, [])
      | Some buf =>
          if strlen buf <? Z.of_nat current_depth + 1 then (NOT_CHILD, buf)
          else if negb (forallb (fun c => c =? 47) (take current_depth buf)) then (NOT_CHILD, buf)
          else if hd0 (drop current_depth buf) =? 47 then (INDIRECT_CHILD, buf)
          else (DIRECT_CHILD, buf)
      end.

Definition parentless_msg : string := "config: Malformed config file. Parentless child.".

Definition is_directory (config : list Z) (current_depth index : nat) : outcome bool :=
  r ← is_child config (current_depth + 1) (index + 1);
  match fst (r : child * list Z) with
  | NOT_CHILD => Ret false
  | INDIRECT_CHILD => Panic parentless_msg
  | DIRECT_CHILD => Ret true
  end.

Fixpoint skip_spaces (n : list Z) : list Z :=
  match n with
  | c :: n' => if c =? 32 then skip_spaces n' else n
  | [] => []
  end.

(** The loop of [create_menu_tree] from [i] on: the entries it appends. *)
Fixpoint create_menu_tree (fuel : nat) (config : list Z) (current_depth i : nat) : outcome (list menu_entry) :=
  match fuel with
  | O => Diverge
  | S fuel =>
      r ← is_child config current_depth i;
      let '(kind, nm) := (r : child * list Z) in
      match kind with
      | NOT_CHILD => Ret []
      | INDIRECT_CHILD => create_menu_tree fuel config current_depth (S i)
      | DIRECT_CHILD =>
          let default_expanded := hd0 (drop current_depth nm) =? 43 in
          let n := skip_spaces (drop (current_depth + Z.to_nat (Z.b2z default_expanded)) nm) in
          e ← config_get_entry config i;
          match (e : option (list Z * nat)) with
          | None => Undef
          | Some (config_entry, entry_size) =>
              let bd := take entry_size config_entry in
              dir ← is_directory config current_depth i;
              sb ← (if (dir : bool) then create_menu_tree fuel config (current_depth + 1) (i + 1) else Ret []);
              let entry := {|
                name := take 63 n; comment := fst <$> config_get_value bd 0 (str "COMMENT");
                sub := sb; expanded := dir && default_expanded; body := bd |} in
              next ← create_menu_tree fuel config current_depth (S i);
              Ret (entry :: next)
          end
      end
  end.

(** ** [init_config] *)

(** What [init_config] leaves: [config_addr], [menu_tree] and [editor_enabled]. *)
Record configuration := { config_addr : list Z; menu_tree : list menu_entry; editor_enabled : bool }.

(** [c] is moved back to a slash, or to the start. *)
Fixpoint back_to_slash (config : list Z) (c : nat) : outcome nat :=
  b ← get config c;
  if (b : Z) =? 47 then Ret c
  else match c with O => Ret O | S c => back_to_slash config c end.

(** The bytes before the first entry are made a string of their own. *)
Definition cut_globals (config : list Z) : outcome (list Z) :=
  r ← config_get_entry config 0;
  match (r : option (list Z * nat)) with
  | None => Ret config
  | Some (ret, _) =>
      c ← back_to_slash config (length config - length ret);
      match c with
      | O => Ret config
      | S c' => b ← get config c; if (b : Z) =? 47 then put config c' 0 else Ret config
      end
  end.

(** [config]: the [config_size] bytes that the caller has read, where the last two are free. *)
Definition init_config (arch fw_type : list Z) (config_b2sum : list Z) (editor : bool) (config : list Z) : outcome configuration :=
  editor ← check_b2sum config_b2sum config (Z.of_nat (length config)) editor;
  config ← put config (length config - 2) 10;
  config ← strip config;
  config ← expand_macros arch fw_type config;
  menu_tree ← create_menu_tree (S (length config)) config 1 0;
  config ← cut_globals config;
  Ret {| config_addr := config; menu_tree := menu_tree; editor_enabled := editor |}.

(** ** The configuration in the SMBIOS tables *)

(** [sizeof(struct smbios_struct_header)]: [type], [length] and [handle]. *)
Definition smbios_struct_header_size : Z := 4.

(** The loop over [i]: [p] are the bytes from [string_data + i - 1] on. *)
Fixpoint string_area_end (i string_area_max : Z) (p : list Z) : outcome Z :=
  if string_area_max <=? i then Ret i
  else match p with
       | a :: (b :: _) as p => if negb (a =? 0) || negb (b =? 0) then string_area_end (i + 1) string_area_max p else Ret i
       | _ => Undef
       end.

(** [hdr]: the bytes of the structure and what follows it. *)
Definition smbios_struct_size (hdr : list Z) (remaining : Z) : outcome Z :=
  if remaining <? smbios_struct_header_size then Ret 0
  else
    len ← get hdr 1;
    if len <? smbios_struct_header_size then Ret 0
    else if remaining <? len then Ret 0
    else
      let string_area_max := remaining - len in
      i ← string_area_end 1 string_area_max (drop (Z.to_nat len) hdr);
      if string_area_max <=? i then Ret 0 else Ret (len + i + 1).

(** The fields of the entry points that are read. *)
Record smbios_entry_point_32 := { table_length : Z; table_address : Z; number_of_structures : Z }.
Record smbios_entry_point_64 := { table_maximum_size : Z; table_address_64 : Z }.

Definition config_prefix : list Z := str "limine:config:".

(** The loop: [struct_count] structures, or any number if it is 0.  The result is
    the buffer for [init_config], [None] for false. *)
Fixpoint smbios_loop (fuel : nat) (hdr : list Z) (struct_num struct_count table_length processed : Z) : outcome (option (list Z)) :=
  match fuel with
  | O => Diverge
  | S fuel =>
      if negb (struct_count =? 0) && negb (struct_num <? struct_count) then Ret None
      else
        let remaining := table_length - processed in
        if remaining <? smbios_struct_header_size then Ret None
        else
          type ← get hdr 0;
          if (type : Z) =? 127 then Ret None
          else
            struct_size ← smbios_struct_size hdr remaining;
            if (struct_size : Z) =? 0 then Ret None
            else
              len ← get hdr 1;
              let string_data := drop (Z.to_nat len) hdr in
              let string_area_size := struct_size - len in
              let prefix_len := Z.of_nat (length config_prefix) in
              let total_len := Z.min (strlen string_data) string_area_size in
              if (type =? 11) && (smbios_struct_header_size <=? len) && (prefix_len <? string_area_size)
                 && (strncmp string_data config_prefix (length config_prefix) =? 0) then
                if total_len <=? prefix_len then smbios_loop fuel hdr (struct_num + 1) struct_count table_length processed
                else
                  let config_size := total_len - prefix_len + 2 in
                  Ret (Some (slice (length config_prefix) (Z.to_nat (config_size - 1)) string_data ++ [0]))
              else
                let processed := processed + struct_size in
                if table_length <=? processed then Ret None
                else smbios_loop fuel (drop (Z.to_nat struct_size) hdr) (struct_num + 1) struct_count table_length processed
  end.

(** [memory a]: the bytes from the address [a] on. *)
Definition init_config_smbios (fuel : nat) (memory : Z -> list Z) (arch fw_type config_b2sum : list Z) (editor : bool)
    (smbios_entry_32 : option smbios_entry_point_32) (smbios_entry_64 : option smbios_entry_point_64) : outcome (option configuration) :=
  let search hdr struct_count table_length :=
    if (hdr =? 0) || (table_length =? 0) then Ret None
    else
      r ← smbios_loop fuel (memory hdr) 0 struct_count table_length 0;
      match (r : option (list Z)) with
      | None => Ret None
      | Some config => c ← init_config arch fw_type config_b2sum editor config; Ret (Some c)
      end in
  match smbios_entry_64, smbios_entry_32 with
  | Some e, _ => search e.(table_address_64) 0 e.(table_maximum_size)
  | None, Some e => search e.(table_address) e.(number_of_structures) e.(table_length)
  | None, None => Ret None
  end.

(** ** The configuration on a volume *)

Section disk.
Context `{Disk}.
Context (tftp_open : list Z -> VM (option file_handle)).

(** The first of the paths that can be opened. *)
Fixpoint first_file (contexts : list iso9660_context) (v : Z) (paths : list (list Z)) : VM (option file_handle * list iso9660_context) :=
  match paths with
  | [] => mret (None, contexts)
  | p :: paths =>
      r ← fopen true tftp_open contexts v p;
      let '(f, contexts) := (r : option file_handle * list iso9660_context) in
      match f with
      | Some f => mret (Some f, contexts)
      | None => first_file contexts v paths
      end
  end.

(** [efi_path]: on UEFI, the path next to the executable or the default one. *)
Definition config_paths (efi_path : option (list Z)) : list (list Z) :=
  option_list efi_path
  ++ [str "/boot/limine/limine.conf"; str "/boot/limine.conf"; str "/limine/limine.conf"; str "/limine.conf"].

(** [init_config_disk]: [None] for -1. *)
Definition init_config_disk (arch fw_type config_b2sum : list Z) (editor : bool) (efi_path : option (list Z))
    (contexts : list iso9660_context) (v : Z) : VM (option configuration * list iso9660_context) :=
  r ← first_file contexts v (config_paths efi_path);
  let '(f, contexts) := (r : option file_handle * list iso9660_context) in
  match f with
  | None => mret (None, contexts)
  | Some f =>
      config ← fread f (replicate (Z.to_nat (f.(size) + 2)) 0) 0 f.(size);
      c ← lift (init_config arch fw_type config_b2sum editor config);
      mret (Some c, contexts)
  end.
End disk.
