(* ===== verification/ConfigText.v ===== *)
(** * Lines and values of the configuration

    What [config_get_value] and [config_get_tuple] find, in terms of the lines of the
    text, and what the removal of blanks and carriage returns makes of each line. *)

From S2P Require Import Prelude Bytes Libc Config.

(** ** Lines *)

(** The lines of a C string. *)
Fixpoint lines (s : list Z) : list (list Z) :=
  match s with
  | [] => [[]]
  | c :: s =>
      if c =? 0 then [[]]
      else if c =? 10 then [] :: lines s
      else match lines s with
           | l :: ls => (c :: l) :: ls
           | [] => [[c]]
           end
  end.

(** The value of the line [key: value]; case does not matter in the key. *)
Definition line_value (key l : list Z) : option (list Z) :=
  if bool_decide (map tolower (take (length key) l) = map tolower key /\ l !! length key = Some 58)
  then Some (skip_blanks (drop (length key + 1) l)) else None.

(** Keys are made of letters, digits and the like. *)
Definition key_ok (key : list Z) : Prop := (0 ∉ key) /\ (10 ∉ key).

Lemma lines_cons s : lines s = line_of s :: tail (lines s).
Proof.
  induction s as [|c s IH]; [done|]. cbn [lines line_of]. unfold SEPARATOR.
  destruct (Z.eqb_spec c 0); [by rewrite orb_true_r|]. destruct (Z.eqb_spec c 10); [done|].
  cbn [orb]. by rewrite IH.
Qed.

Lemma lines_step c s : c <> 0 -> c <> 10 -> lines (c :: s) = (c :: line_of s) :: tail (lines s).
Proof.
  intros H0 H10. cbn [lines]. apply Z.eqb_neq in H0 as ->. apply Z.eqb_neq in H10 as ->. by rewrite lines_cons.
Qed.

Lemma line_of_not c s : (c =? 10) || (c =? 0) = false -> line_of (c :: s) = c :: line_of s.
Proof. cbn [line_of]. unfold SEPARATOR. by intros ->. Qed.

Lemma tolower_low c d : tolower c = tolower d -> d <> 0 -> d <> 10 -> c <> 0 /\ c <> 10.
Proof. unfold tolower. intros. repeat case_match; lia. Qed.

Lemma line_of_blanks s : line_of (skip_blanks s) = skip_blanks (line_of s).
Proof.
  induction s as [|c s IH]; [done|]. cbn [skip_blanks]. destruct (is_blank c) eqn:E.
  - rewrite line_of_not; [cbn [skip_blanks]; by rewrite E|]. unfold is_blank in E. lia.
  - cbn [line_of]. case_match; [done|]. cbn [skip_blanks]. by rewrite E.
Qed.

(** A key and its colon are within the line. *)
Lemma key_match s key : key_ok key ->
  ((strncasecmp s key (length key) =? 0) && (hd0 (drop (length key) s) =? 58))
  = bool_decide (map tolower (take (length key) (line_of s)) = map tolower key /\ line_of s !! length key = Some 58).
Proof.
  intros [H0 H10]. revert s. induction key as [|k key IH]; intros s; cbn [length strncasecmp take drop].
  { destruct s as [|c s]; [done|]. cbn [hd0 line_of map lookup list_lookup]. unfold SEPARATOR.
    destruct (c =? 58) eqn:E; [apply Z.eqb_eq in E as ->; done|]. apply Z.eqb_neq in E. cbn [Z.eqb andb].
    change (hd0 (drop 0 (c :: s)) =? 58) with (c =? 58). rewrite (proj2 (Z.eqb_neq _ _) E). symmetry.
    apply bool_decide_eq_false. intros [_ H]. destruct ((c =? 10) || (c =? 0)); cbn in H; congruence. }
  apply not_elem_of_cons in H0 as [Hk0 H0], H10 as [Hk10 H10]. specialize (IH H0 H10). cbn [hd0].
  destruct s as [|c s]; cbn [hd0 tl0].
  { rewrite bool_decide_eq_false_2 by (intros [? _]; done).
    destruct (Z.eqb_spec (tolower 0) (tolower k)) as [E|E]; [by apply tolower_low in E as [? ?]|]. cbn [negb]. by destruct (0 <? k). }
  destruct (Z.eqb_spec (tolower c) (tolower k)) as [E|E]; cbn [negb].
  - destruct (tolower_low _ _ E ltac:(done) ltac:(done)) as [Hc0 Hc10]. apply Z.eqb_neq in Hc0 as Hc. rewrite Hc, IH.
    rewrite line_of_not by lia. cbn [take map]. apply bool_decide_ext. cbn [lookup list_lookup]. rewrite E.
    split; intros [H1 H2]; (split; [congruence|done]).
  - rewrite bool_decide_eq_false_2; [by destruct (c <? k)|]. intros [H _]. cbn [line_of] in H.
    destruct ((c =? SEPARATOR) || (c =? 0)); [done|]. cbn in H. congruence.
Qed.

Lemma line_of_drop n s : (n <= length (line_of s))%nat -> line_of (drop n s) = drop n (line_of s).
Proof.
  revert s. induction n as [|n IH]; intros [|c s] H; [done..|]. cbn [drop]. cbn [line_of] in *.
  case_match; [cbn in H; lia|]. cbn [drop length] in *. apply IH. lia.
Qed.

Lemma lines_tail_drop n s : (n <= length (line_of s))%nat -> tail (lines (drop n s)) = tail (lines s).
Proof.
  revert s. induction n as [|n IH]; intros [|c s] H; [done..|]. cbn [drop]. cbn [line_of] in H.
  destruct ((c =? SEPARATOR) || (c =? 0)) eqn:E; [cbn in H; lia|]. unfold SEPARATOR in E.
  rewrite IH by (cbn in H; lia). by rewrite (lines_step c) by lia.
Qed.

Lemma skip_blanks_drop s : exists n, skip_blanks s = drop n s /\ (n <= length (line_of s))%nat.
Proof.
  induction s as [|c s (n & E & Hn)]; [by exists 0%nat|]. cbn [skip_blanks]. destruct (is_blank c) eqn:Eb.
  - exists (S n). split; [done|]. unfold is_blank in Eb. rewrite line_of_not by lia. cbn. lia.
  - exists 0%nat. split; [done|lia].
Qed.

(** The [k]-th value of a key among lines, and the lines after it. *)
Fixpoint nth_value (key : list Z) (k : nat) (ls : list (list Z)) : option (list Z * list (list Z)) :=
  match ls with
  | [] => None
  | l :: ls =>
      match line_value key l, k with
      | Some v, O => Some (v, ls)
      | Some _, S k => nth_value key k ls
      | None, _ => nth_value key k ls
      end
  end.

(** [lastkey] is at the value: its line and the lines after it are those of the list. *)
Definition at_value (s : list Z) (r : option (list Z * list Z)) (v : option (list Z * list (list Z))) : Prop :=
  match r, v with
  | None, None => True
  | Some (value, p), Some (v, rest) => value = take 4095 v /\ lines p = v :: rest /\ exists n, p = drop n s
  | _, _ => False
  end.

Lemma at_value_cons c s r v : at_value s r v -> at_value (c :: s) r v.
Proof. destruct r as [[]|], v as [[]|]; cbn; [|done..]. intros (? & ? & n & ?). split_and!; [done..|]. by exists (S n). Qed.

Lemma get_value_loop_spec s k key sol : key_ok key ->
  at_value s (get_value_loop sol s k key) (nth_value key k (if sol then lines s else tail (lines s))).
Proof.
  intros Hk. revert k sol. induction s as [|c s IH]; intros k sol.
  { cbn [get_value_loop lines tail]. destruct sol; [|done]. cbn [nth_value].
    unfold line_value. by rewrite bool_decide_eq_false_2 by (intros [_ ?]; destruct key; done). }
  cbn [get_value_loop]. rewrite (key_match (c :: s)) by done.
  destruct (Z.eqb_spec c 0) as [->|H0].
  { cbn [lines Z.eqb tail]. destruct sol; [|done]. cbn [nth_value].
    unfold line_value. by rewrite bool_decide_eq_false_2 by (intros [_ ?]; destruct key; done). }
  assert (Hnext : at_value (c :: s) (get_value_loop (c =? SEPARATOR) s k key) (nth_value key k (tail (lines (c :: s))))).
  { apply at_value_cons. unfold SEPARATOR. destruct (Z.eqb_spec c 10) as [->|H10].
    - apply (IH k true).
    - rewrite lines_step by done. apply (IH k false). }
  case_bool_decide as Hm; cbn [andb].
  2: { destruct sol; [|done]. rewrite lines_cons. cbn [nth_value]. unfold line_value.
       rewrite bool_decide_eq_false_2 by done. done. }
  destruct sol; [|done]. rewrite lines_cons. cbn [nth_value]. unfold line_value.
  rewrite bool_decide_eq_true_2 by done. destruct k as [|k].
  - destruct Hm as [_ Hm]. apply lookup_lt_Some in Hm. set (d := drop (length key + 1) (c :: s)).
    assert (Hd : line_of d = drop (length key + 1) (line_of (c :: s))) by (apply line_of_drop; lia).
    destruct (skip_blanks_drop d) as (n & En & Hn). split_and!.
    + by rewrite line_of_blanks, Hd.
    + rewrite (lines_cons (skip_blanks d)), line_of_blanks, Hd, En. f_equal.
      rewrite lines_tail_drop by done. unfold d. apply lines_tail_drop. lia.
    + exists (length key + 1 + n)%nat. rewrite En. unfold d. by rewrite drop_drop.
  - apply at_value_cons. unfold SEPARATOR. destruct (Z.eqb_spec c 10) as [->|H10].
    + apply (IH k true).
    + rewrite lines_step by done. apply (IH k false).
Qed.

Lemma nth_value_omap key k ls : fst <$> nth_value key k ls = omap (line_value key) ls !! k.
Proof.
  revert k. induction ls as [|l ls IH]; intros k; [done|]. cbn [nth_value omap list_omap].
  destruct (line_value key l); [|apply IH]. destruct k; [done|apply IH].
Qed.

(** [config_get_value] finds the values of a key in the order of the lines [key: value]
    of the text, whatever the case of the key: the one with the index it is given,
    without the blanks before it and cut to the size of the buffer, or none when there
    are fewer. *)
Theorem config_get_value_lines (config key : list Z) (index : nat) : key_ok key ->
  fst <$> config_get_value config index key = take 4095 <$> omap (line_value key) (lines config) !! index.
Proof.
  intros Hk. pose proof (get_value_loop_spec config index key true Hk) as H. unfold config_get_value.
  rewrite <- nth_value_omap. destruct (get_value_loop _ _ _ _) as [[]|], (nth_value _ _ _) as [[]|]; cbn in *; [|done..].
  by destruct H as [-> _].
Qed.

Lemma config_get_value_lines_witness :
  fst <$> config_get_value (str "Timeout:  5" ++ [10] ++ str "xtimeout: 6" ++ [10] ++ str "TIMEOUT: 7") 1 (str "timeout") = Some (str "7").
Proof. rewrite config_get_value_lines; [by vm_compute|]. split; by apply (bool_decide_unpack _); vm_compute. Defined.

(** ** Pairs of values *)

(** The lines before the next one of a key. *)
Fixpoint until_key (key : list Z) (ls : list (list Z)) : list (list Z) :=
  match ls with
  | [] => []
  | l :: ls => match line_value key l with Some _ => [] | None => l :: until_key key ls end
  end.

Definition keys_differ (key1 key2 : list Z) : Prop :=
  (58 ∉ key1) /\ (58 ∉ key2) /\ map tolower key1 <> map tolower key2.

Lemma tolower_colon c : tolower c = 58 -> c = 58.
Proof. unfold tolower. case_match; lia. Qed.

Lemma key_len (key1 key2 l : list Z) : 58 ∉ key2 -> map tolower (take (length key2) l) = map tolower key2 ->
  l !! length key1 = Some 58 -> (length key2 <= length key1)%nat.
Proof.
  intros Hk Hm Hl. destruct (decide (length key2 <= length key1)%nat) as [|Hlt]; [done|]. exfalso. apply Hk.
  assert (Hx : map tolower key2 !! length key1 = Some (tolower 58)).
  { rewrite <- Hm. change (map tolower) with (fmap (M := list) tolower). rewrite list_lookup_fmap, lookup_take_lt, Hl by lia. done. }
  change (map tolower) with (fmap (M := list) tolower) in Hx. rewrite list_lookup_fmap in Hx.
  destruct (key2 !! length key1) as [c|] eqn:E; [|done]. cbn in Hx. injection Hx as Hx. apply tolower_colon in Hx as ->.
  by eapply list_elem_of_lookup_2.
Qed.

Lemma one_key key1 key2 l : keys_differ key1 key2 -> line_value key1 l = None \/ line_value key2 l = None.
Proof.
  intros (H1 & H2 & Hne). unfold line_value. case_bool_decide as Ha; [|by left]. case_bool_decide as Hb; [|by right].
  destruct Ha as [Ha1 Ha2], Hb as [Hb1 Hb2]. exfalso. apply Hne.
  assert (length key1 = length key2) as E.
  { pose proof (key_len key1 key2 l H2 Hb1 Ha2). pose proof (key_len key2 key1 l H1 Ha1 Hb2). lia. }
  congruence.
Qed.

Lemma nth_value_shorter key k ls v r : nth_value key k ls = Some (v, r) -> (length r < length ls)%nat.
Proof.
  revert k. induction ls as [|l ls IH]; intros k; [done|]. cbn [nth_value length].
  destruct (line_value key l), k; intros; simplify_eq; try lia; apply IH in H; lia.
Qed.

Lemma nth_value_next key k ls v r : nth_value key k ls = Some (v, r) -> nth_value key (k + 1) ls = nth_value key 0 r.
Proof.
  revert k. induction ls as [|l ls IH]; intros k; [done|]. cbn [nth_value].
  destruct (line_value key l); [|apply IH].
  destruct k; cbn [Nat.add]; [intros; by simplify_eq|apply IH].
Qed.

(** Whether the first value of [key2] comes before the first of [key1] shows in the
    number of lines after them. *)
Lemma first_of_two key1 key2 ls : keys_differ key1 key2 ->
  head (omap (line_value key2) (until_key key1 ls))
  = match nth_value key2 0 ls with
    | None => None
    | Some (v2, r2) =>
        match nth_value key1 0 ls with
        | None => Some v2
        | Some (_, r3) => if decide (length r2 < length r3)%nat then None else Some v2
        end
    end
  /\ match nth_value key2 0 ls, nth_value key1 0 ls with
     | Some (_, r2), Some (_, r3) => length r2 <> length r3
     | _, _ => True
     end.
Proof.
  intros Hd. induction ls as [|l ls [IH1 IH2]]; [done|]. cbn [nth_value until_key].
  destruct (one_key key1 key2 l Hd) as [E|E].
  - rewrite E. cbn [omap list_omap]. destruct (line_value key2 l) as [v2|]; [|done].
    cbn [head]. destruct (nth_value key1 0 ls) as [[v3 r3]|] eqn:E3; [|done]. apply nth_value_shorter in E3.
    rewrite decide_False by lia. split; [done|lia].
  - rewrite E. destruct (line_value key1 l) as [v3|].
    + cbn [omap list_omap head]. destruct (nth_value key2 0 ls) as [[v2 r2]|] eqn:E2; [|done]. apply nth_value_shorter in E2.
      rewrite decide_True by lia. split; [done|lia].
    + cbn [omap list_omap]. rewrite E. done.
Qed.

Lemma lines_drop n s : 0 ∉ s -> (length (lines (drop n s)) <= length (lines s))%nat.
Proof.
  revert s. induction n as [|n IH]; intros [|c s] H; [cbn; lia..|]. apply not_elem_of_cons in H as [Hc H].
  cbn [drop]. etransitivity; [by apply IH|]. destruct (Z.eqb_spec c 10) as [->|]; [cbn; lia|].
  rewrite lines_step, (lines_cons s) by done. done.
Qed.

Lemma drop_lines a b s : 0 ∉ s -> (length (drop a s) <= length (drop b s))%nat -> (length (lines (drop a s)) <= length (lines (drop b s)))%nat.
Proof.
  intros H0 H. rewrite !length_drop in H. destruct (decide (b <= a)%nat) as [Hle|Hle].
  2: { by rewrite !drop_ge by lia. }
  replace a with (b + (a - b))%nat by lia. rewrite <- drop_drop. apply lines_drop. intros Hx. apply H0. eapply elem_of_submseteq; [done|]. apply submseteq_drop.
Qed.

(** The pairs of a text: each value of [key1], with the value of [key2] that comes before
    the next one of [key1].  The value itself counts as a line in which [key2] may be. *)
Definition tuple_of (key1 key2 : list Z) (index : nat) (ls : list (list Z)) : conf_tuple :=
  match nth_value key1 index ls with
  | None => {| value1 := None; value2 := None |}
  | Some (v1, rest) =>
      {| value1 := Some (take 4095 v1);
         value2 := take 4095 <$> head (omap (line_value key2) (v1 :: until_key key1 rest)) |}
  end.

(** [config_get_tuple] pairs each value of the first key with the value of the second key
    that follows it before the first key comes again, and with none if there is no such
    value: the options of one module never come from another. *)
Theorem config_get_tuple_pairs (config key1 key2 : list Z) (index : nat) :
  0 ∉ config -> key_ok key1 -> key_ok key2 -> keys_differ key1 key2 ->
  config_get_tuple config index key1 key2 = tuple_of key1 key2 index (lines config).
Proof.
  intros H0 Hk1 Hk2 Hd. unfold config_get_tuple, tuple_of, config_get_value.
  pose proof (get_value_loop_spec config index key1 true Hk1) as Hs1. cbn in Hs1.
  pose proof (get_value_loop_spec config (index + 1) key1 true Hk1) as Hs3. cbn in Hs3.
  destruct (get_value_loop true config index key1) as [[tmp1 lk1]|], (nth_value key1 index (lines config)) as [[v1 rest]|] eqn:E1;
    [|done..].
  destruct Hs1 as (-> & Hl1 & n1 & Hn1).
  pose proof (get_value_loop_spec lk1 0 key2 true Hk2) as Hs2. cbn in Hs2. rewrite Hl1 in Hs2. cbn [nth_value omap list_omap] in *.
  rewrite (nth_value_next _ _ _ _ _ E1) in Hs3. destruct (first_of_two key1 key2 rest Hd) as [Hf Hne].
  unfold CONF_TUPLE_BUF_SIZE. rewrite take_take. cbn [Nat.min Nat.sub].
  set (R2 := get_value_loop true lk1 0 key2) in *. set (R3 := get_value_loop true config (index + 1) key1) in *.
  assert (Hcmp : forall p2 p3 r2 r3 v2 v3, (exists n, p2 = drop n lk1) -> (exists m, p3 = drop m config) ->
    lines p2 = v2 :: r2 -> lines p3 = v3 :: r3 -> length r2 <> length r3 ->
    (length p2 < length p3 <-> length r2 < length r3)%nat).
  { intros p2 p3 r2 r3 v2 v3 [n ->] [m ->] E2 E3 Hx. subst lk1. rewrite drop_drop in *.
    pose proof (drop_lines (n1 + n) m config H0) as D1. pose proof (drop_lines m (n1 + n) config H0) as D2.
    rewrite E2, E3 in D1, D2. cbn [length] in D1, D2. lia. }
  f_equal. destruct (line_value key2 v1) as [w|] eqn:Ew.
  - cbn [head fmap option_fmap option_map]. destruct R2 as [[tmp2 lk2]|]; [|done]. destruct Hs2 as (-> & Hl2 & Hn2).
    rewrite take_take. destruct R3 as [[tmp3 lk3]|]; [|done]. destruct (nth_value key1 0 rest) as [[v3 r3]|] eqn:E3; [|done].
    destruct Hs3 as (_ & Hl3 & Hn3). apply nth_value_shorter in E3.
    rewrite decide_False; [done|]. rewrite (Hcmp lk2 lk3 rest r3 w v3) by (done || lia). lia.
  - rewrite Hf. destruct R2 as [[tmp2 lk2]|], (nth_value key2 0 rest) as [[v2 r2]|]; [|done..|by destruct R3 as [[]|], (nth_value key1 0 rest) as [[]|]; try done; case_decide].
    destruct Hs2 as (-> & Hl2 & Hn2). rewrite take_take. destruct R3 as [[tmp3 lk3]|], (nth_value key1 0 rest) as [[v3 r3]|]; [|done..].
    destruct Hs3 as (_ & Hl3 & Hn3). pose proof (Hcmp lk2 lk3 r2 r3 v2 v3 Hn2 Hn3 Hl2 Hl3 Hne) as Hc.
    by repeat case_decide; tauto.
Qed.

Definition modules_text : list Z :=
  str "module_path: a" ++ [10] ++ str "module_path: b" ++ [10] ++ str "module_cmdline: x" ++ [10] ++ str "module_cmdline: y" ++ [10].

Lemma config_get_tuple_pairs_witness :
  config_get_tuple modules_text 0 (str "MODULE_PATH") (str "MODULE_CMDLINE") = {| value1 := Some (str "a"); value2 := None |}
  /\ config_get_tuple modules_text 1 (str "MODULE_PATH") (str "MODULE_CMDLINE") = {| value1 := Some (str "b"); value2 := Some (str "x") |}.
Proof.
  split; (rewrite config_get_tuple_pairs;
    [by vm_compute|by apply (bool_decide_unpack _); vm_compute|split; by apply (bool_decide_unpack _); vm_compute..
    |split_and!; by apply (bool_decide_unpack _); vm_compute]).
Defined.

(** ** Blanks and carriage returns *)

(** A line without the blanks at its end. *)
Fixpoint trim_end (l : list Z) : list Z :=
  match l with
  | [] => []
  | c :: l' => if forallb is_blank l then [] else c :: trim_end l'
  end.

(** A line of the file, with its end, and what becomes of it: the blanks at its start
    are removed, the carriage return is, and the blanks at the end if there is none. *)
Definition raw_line (x : list Z * bool) : list Z := x.1 ++ (if x.2 then [13; 10] else [10]).
Definition stripped (x : list Z * bool) : list Z := if x.2 then skip_blanks x.1 else trim_end (skip_blanks x.1).
Definition content_ok (l : list Z) : Prop := (10 ∉ l) /\ (13 ∉ l).

Definition strip_from (sol : bool) (rest : list Z) : outcome (list Z) := strip_loop (length rest) sol rest.

Lemma strip_loop_fuel fuel sol rest : (length rest <= fuel)%nat -> strip_loop fuel sol rest = strip_from sol rest.
Proof.
  unfold strip_from. remember (length rest) as n eqn:En. revert fuel sol rest En.
  induction (lt_wf n) as [n _ IH]. intros fuel sol rest -> H.
  destruct rest as [|d rest]; [by destruct fuel|]. destruct fuel as [|fuel]; [cbn in H; lia|].
  cbn [strip_loop length]. destruct (drop _ _) as [|c r] eqn:E; [done|].
  assert (Hl : (length r <= length rest)%nat).
  { apply (f_equal length) in E. rewrite length_drop in E. cbn [length] in E. lia. }
  cbn [length] in *. rewrite (IH (length r)), (IH (length r) ltac:(lia) (length rest)) by (done || lia). done.
Qed.

Lemma strip_from_step sol rest c r : drop (skip_at sol rest) rest = c :: r ->
  strip_from sol rest = (out ← strip_from (c =? 10) r; Ret (c :: out)).
Proof.
  intros E. unfold strip_from at 1. destruct rest as [|d rest]; [by rewrite drop_nil in E|].
  cbn [strip_loop length]. rewrite E. apply (f_equal length) in E. rewrite length_drop in E. cbn [length] in E.
  rewrite strip_loop_fuel by lia. done.
Qed.

Lemma strip_from_eol sol rest r : drop (skip_at sol rest) rest = 10 :: r ->
  strip_from sol rest = (out ← strip_from true r; Ret ([10] ++ out)).
Proof. apply (strip_from_step sol rest 10). Qed.

Lemma blanks_stop l c r : forallb is_blank l = true -> is_blank c = false -> blanks (l ++ c :: r) = length l.
Proof.
  induction l as [|d l IH]; cbn [forallb app blanks length]; intros Hl Hc; [by rewrite Hc|].
  apply andb_true_iff in Hl as [-> Hl]. by rewrite IH.
Qed.

Lemma returns_blanks l c r : forallb is_blank l = true -> is_blank c = false -> c <> 13 -> returns_at true (l ++ c :: r) = length l.
Proof.
  intros Hl Hc H13. induction l as [|d l IH]; cbn [forallb app returns_at length] in *.
  { by rewrite Hc, (proj2 (Z.eqb_neq _ _) H13). }
  apply andb_true_iff in Hl as [-> Hl]. by rewrite orb_true_r, IH.
Qed.

Lemma returns_none c r : c <> 13 -> returns_at false (c :: r) = 0%nat.
Proof. intros H. cbn. by rewrite (proj2 (Z.eqb_neq _ _) H). Qed.

(** No blanks up to the end of the line: the second loop decides. *)
Lemma skip_at_other sol rest c r : drop (blanks rest) rest = c :: r -> c <> 10 \/ blanks rest = 0%nat -> skip_at sol rest = returns_at sol rest.
Proof.
  intros E H. unfold skip_at. rewrite E. cbn [hd0]. destruct (Nat.eqb_spec (blanks rest) 0); [done|].
  destruct (Z.eqb_spec c 10); [lia|done].
Qed.
Lemma skip_at_end sol rest r : drop (blanks rest) rest = 10 :: r -> blanks rest <> 0%nat -> skip_at sol rest = blanks rest.
Proof. intros E H. unfold skip_at. rewrite E. cbn [hd0]. by destruct (Nat.eqb_spec (blanks rest) 0). Qed.

Lemma skip_blanks_split l : exists b, l = b ++ skip_blanks l /\ forallb is_blank b = true.
Proof.
  induction l as [|c l (b & E & Hb)]; [by exists []|]. cbn [skip_blanks]. destruct (is_blank c) eqn:Ec.
  - exists (c :: b). cbn [app forallb]. rewrite Ec, Hb. by rewrite <- E.
  - by exists [].
Qed.
Lemma skip_blanks_head l c r : skip_blanks l = c :: r -> is_blank c = false.
Proof.
  induction l as [|d l IH]; [done|]. cbn [skip_blanks]. destruct (is_blank d) eqn:E; [done|]. intros [= <- <-]. done.
Qed.
Lemma skip_blanks_nil l : skip_blanks l = [] -> forallb is_blank l = true.
Proof. induction l as [|d l IH]; [done|]. cbn [skip_blanks forallb]. by destruct (is_blank d). Qed.

Lemma eol_stop (crlf : bool) (rest : list Z) : exists c r, (if crlf then [13; 10] else [10]) ++ rest = c :: r /\ is_blank c = false /\ (c = 10 <-> crlf = false).
Proof. destruct crlf; cbn; eexists _, _; (split; [done|]); split; done. Qed.

(** Where the blanks end within a line. *)
Lemma blanks_drop l (crlf : bool) rest : content_ok l ->
  exists c r, drop (blanks (l ++ (if crlf then [13; 10] else [10]) ++ rest)) (l ++ (if crlf then [13; 10] else [10]) ++ rest) = c :: r
    /\ (c = 10 <-> crlf = false /\ forallb is_blank l = true).
Proof.
  intros [H10 H13]. destruct (skip_blanks_split l) as (b & E & Hb). destruct (skip_blanks l) as [|c t] eqn:Es.
  - apply skip_blanks_nil in Es. destruct (eol_stop crlf rest) as (c & r & -> & Hc & Hcr). rewrite blanks_stop by done.
    rewrite drop_app_length. exists c, r. split; [done|]. rewrite Hcr. tauto.
  - apply skip_blanks_head in Es as Hc. rewrite E, <- app_assoc. cbn [app]. rewrite blanks_stop, drop_app_length by done.
    eexists _, _. split; [done|]. split; [intros ->; exfalso; apply H10; rewrite E; set_solver|].
    intros [_ Hx]. rewrite forallb_app in Hx. cbn in Hx. rewrite Hc, andb_false_r in Hx. done.
Qed.

Lemma content_cons c l : content_ok (c :: l) -> c <> 10 /\ c <> 13 /\ content_ok l.
Proof. intros [H1 H2]. apply not_elem_of_cons in H1 as [], H2 as []. done. Qed.

(** In the middle of a line. *)
Lemma strip_inline l crlf rest : content_ok l ->
  strip_from false (raw_line (l, crlf) ++ rest)
  = (out ← strip_from true rest; Ret ((if crlf then l else trim_end l) ++ [10] ++ out)).
Proof.
  intros Hl. unfold raw_line. cbn [fst snd]. rewrite <- app_assoc. induction l as [|c l IH].
  { destruct crlf; cbn [app]; (erewrite strip_from_eol; [|done]); by destruct (strip_from true rest). }
  destruct (blanks_drop (c :: l) crlf rest Hl) as (d & r & Ed & Hd). destruct (content_cons _ _ Hl) as (Hc10 & Hc13 & Hl').
  destruct (Z.eq_dec d 10) as [->|Hne].
  - destruct (proj1 Hd eq_refl) as [-> Hb]. cbn [trim_end]. rewrite Hb.
    assert (Es : blanks ((c :: l) ++ [10] ++ rest) = length (c :: l)) by (by apply blanks_stop).
    erewrite (strip_from_eol false _ rest).
    2: { rewrite (skip_at_end false _ r Ed), Es by (rewrite Es; done). apply drop_app_length. }
    by destruct (strip_from true rest).
  - erewrite (strip_from_step false _ c).
    2: { rewrite (skip_at_other false _ _ _ Ed) by (by left). cbn [app]. rewrite returns_none by done. done. }
    rewrite (proj2 (Z.eqb_neq _ _) Hc10), (IH Hl').
    destruct (strip_from true rest) as [out| | |]; try done. cbn [mbind outcome_bind].
    destruct crlf; [done|]. cbn [trim_end]. destruct (forallb is_blank (c :: l)) eqn:Eb; [|done]. exfalso. apply Hne, Hd. done.
Qed.

Lemma mjoin_cons {A} (l : list A) ls : mjoin (l :: ls) = l ++ mjoin ls.
Proof. done. Qed.

(** A whole line. *)
Lemma strip_line x rest : content_ok x.1 ->
  strip_from true (raw_line x ++ rest) = (out ← strip_from true rest; Ret ((stripped x ++ [10]) ++ out)).
Proof.
  destruct x as [l crlf]. unfold stripped. cbn [fst snd]. intros Hl. destruct (skip_blanks_split l) as (b & E & Hb).
  destruct (skip_blanks l) as [|c t] eqn:Es.
  - rewrite app_nil_r in E. subst b. assert (Er : (if crlf then @nil Z else trim_end []) = []) by (by destruct crlf). rewrite Er.
    destruct (blanks_drop l crlf rest Hl) as (d & r & Ed & Hd). unfold raw_line. cbn [fst snd]. rewrite <- app_assoc.
    erewrite (strip_from_eol true _ rest); [by destruct (strip_from true rest)|]. destruct crlf.
    + erewrite skip_at_other; [|exact Ed|left; naive_solver]. clear -Hb.
      induction l as [|e l IH]; [done|]. cbn [forallb] in Hb. apply andb_true_iff in Hb as [Hb1 Hb2].
      cbn [app returns_at]. rewrite Hb1, orb_true_r. cbn [drop]. by apply IH.
    + destruct l as [|e l]; [done|]. assert (Es' : blanks ((e :: l) ++ [10] ++ rest) = length (e :: l)) by (by apply blanks_stop).
      assert (d = 10) as -> by (by apply Hd).
      rewrite (skip_at_end true _ r Ed), Es' by (rewrite Es'; done). apply drop_app_length.
  - apply skip_blanks_head in Es as Hc. assert (Hct : content_ok (c :: t)).
    { destruct Hl as [H1 H2]. rewrite E in H1, H2. split; set_solver. }
    destruct (content_cons _ _ Hct) as (Hc10 & Hc13 & Ht).
    destruct (blanks_drop l crlf rest Hl) as (d & r & Ed & Hd).
    assert (Hnb : forallb is_blank l = false) by (rewrite E, forallb_app; cbn; by rewrite Hc, andb_false_r).
    assert (Hraw : raw_line (l, crlf) ++ rest = b ++ c :: raw_line (t, crlf) ++ rest).
    { unfold raw_line. cbn [fst snd]. rewrite E, <- !app_assoc. done. }
    erewrite (strip_from_step true _ c (raw_line (t, crlf) ++ rest)).
    2: { rewrite (skip_at_other true _ d r); [|by unfold raw_line; cbn [fst snd]; rewrite <- app_assoc|left; intros Hx; apply Hd in Hx as [_ Hx]; congruence].
         rewrite Hraw, returns_blanks, drop_app_length by done. done. }
    rewrite (proj2 (Z.eqb_neq _ _) Hc10), strip_inline by done.
    destruct (strip_from true rest) as [out| | |]; try done. cbn [mbind outcome_bind]. destruct crlf; [by rewrite <- app_assoc|].
    cbn [trim_end forallb]. rewrite Hc. cbn [andb]. by rewrite <- app_assoc.
Qed.

(** A whole file. *)
Lemma strip_file (file : list (list Z * bool)) : Forall (fun x => content_ok x.1) file ->
  strip (mjoin (raw_line <$> file) ++ [0]) = Ret (mjoin ((fun x => stripped x ++ [10]) <$> file) ++ [0]).
Proof.
  intros H. change (strip _) with (strip_from true (mjoin (raw_line <$> file) ++ [0])).
  induction H as [|x file Hx _ IH]; [done|]. rewrite !fmap_cons, !mjoin_cons, <- app_assoc, strip_line, IH by done.
  cbn [mbind outcome_bind]. by rewrite <- !app_assoc.
Qed.

(** What the boot loader makes of a file whose carriage returns are at the ends of lines:
    each line loses the blanks at its start and its carriage return, and a line without
    a carriage return loses the blanks at its end too. *)
Theorem strip_lines (file : list (list Z * bool)) : Forall (fun x => content_ok x.1) file ->
  strip (mjoin (raw_line <$> file) ++ [0]) = Ret (mjoin ((fun x => stripped x ++ [10]) <$> file) ++ [0]).
Proof. apply strip_file. Qed.

Lemma strip_lines_witness :
  strip (str "  a b  " ++ [10] ++ str "  c  " ++ [13; 10; 0]) = Ret (str "a b" ++ [10] ++ str "c  " ++ [10; 0]).
Proof.
  apply (strip_lines [(str "  a b  ", false); (str "  c  ", true)]).
  repeat constructor; by apply (bool_decide_unpack _); vm_compute.
Defined.
