(* ===== verification/ConfigMacro.v ===== *)
(** * Macros of the configuration

    What the expansion of macros makes of a text: the lines that define macros are
    gone, and every use is replaced by the value of the last definition. *)

From S2P Require Import Prelude Bytes Libc LibcSpec Config ConfigText.

(** ** The two loops without fuel *)

Lemma read_until_spec stop limit l c r : Forall (fun d => d ∉ stop) l -> c ∈ stop -> (length l <= limit)%nat ->
  read_until stop limit (l ++ c :: r) = Ret (Some (l, c :: r)).
Proof.
  intros Hl Hc. revert limit. induction Hl as [|d l Hd _ IH]; intros limit H; cbn [app read_until].
  - destruct limit; cbn [read_until]; by rewrite bool_decide_eq_true_2.
  - destruct limit as [|limit]; [cbn in H; lia|]. cbn [read_until]. rewrite bool_decide_eq_false_2 by done.
    by rewrite IH by (cbn in H; lia).
Qed.

Lemma read_until_suffix stop limit rest s r : read_until stop limit rest = Ret (Some (s, r)) -> exists c r', r = c :: r' /\ rest = s ++ r.
Proof.
  revert limit s. induction rest as [|c rest IH]; intros limit s; destruct limit as [|limit]; cbn [read_until]; try done;
    (case_bool_decide as Hs; [intros [= <- <-]; eexists _, _; done|]); [done|].
  intros H. apply bind_Ret_inv in H as ([[s' r']|] & H1 & H2); [|done]. cbn in H2. simplify_eq.
  apply IH in H1 as (d & r2 & -> & ->). eexists _, _. done.
Qed.

Definition load_from (first : bool) (rest : list Z) (macros : list (list Z * list Z)) : outcome (list (list Z * list Z)) :=
  load_macros (length rest) first rest macros.

Lemma load_macros_fuel fuel first rest ms : (length rest <= fuel)%nat -> load_macros fuel first rest ms = load_from first rest ms.
Proof.
  unfold load_from. remember (length rest) as n eqn:En. revert fuel first rest ms En.
  induction (lt_wf n) as [n _ IH]. intros fuel first rest ms -> H.
  destruct rest as [|c rest]; [by destruct fuel|]. destruct fuel as [|fuel]; [cbn in H; lia|]. cbn [load_macros length].
  assert (Hrec : forall r ms, (length r <= length rest)%nat -> load_macros fuel false r ms = load_macros (length rest) false r ms).
  { intros r ms' Hr. cbn [length] in H. rewrite (IH (length r)), (IH (length r) ltac:(cbn; lia) (length rest)) by (cbn; done || lia). done. }
  destruct (is_definition first (c :: rest)); [|by apply Hrec].
  destruct (read_until _ _ _) as [[[nm r]|]| | |] eqn:E1; try done. cbn [mbind outcome_bind].
  apply read_until_suffix in E1 as (d & r1 & Er1 & E1). apply (f_equal length) in E1.
  rewrite length_drop, length_app in E1. cbn [length] in E1.
  assert (Hr : (length r <= length rest)%nat) by (rewrite Er1 in *; cbn [length] in *; destruct first; lia).
  clear E1 Er1. destruct r as [|a r]; [done|]. cbn [get lookup list_lookup mbind outcome_bind].
  destruct ((a =? 10) || (a =? 0)); [by apply Hrec|]. destruct r as [|b r]; [done|]. cbn [get lookup list_lookup mbind outcome_bind].
  destruct (negb (b =? 61)); [by apply Hrec|]. change (drop 2 (a :: b :: r)) with r.
  destruct (read_until [10; 0] 2047 r) as [[[v r2]|]| | |] eqn:E2; try done. cbn [mbind outcome_bind].
  apply read_until_suffix in E2 as (e & r3 & -> & ->). apply Hrec. revert Hr. rewrite !length_cons, length_app. cbn. lia.
Qed.

Definition expand_from (macros : list (list Z * list Z)) (first : bool) (rest : list Z) (room : Z) : outcome (list Z) :=
  expand_loop (length rest) macros first rest room.

Lemma after_shorter c rest r : after c rest = Some r -> (length r < length rest)%nat.
Proof. induction rest as [|d rest IH]; cbn [after length]; [done|]. destruct (d =? c); [intros; simplify_eq; lia|]. intros H. apply IH in H. lia. Qed.

Lemma skip_line_shorter rest r : skip_line rest = Ret r -> (length r <= length rest)%nat.
Proof. induction rest as [|d rest IH]; cbn [skip_line length]; [done|]. destruct (_ || _); [by intros [= <-]|]. intros H. apply IH in H. lia. Qed.

Lemma skip_definition_shorter rest r : skip_definition rest = Ret (Some r) -> (length r < length rest)%nat.
Proof.
  unfold skip_definition. destruct (after 125 rest) as [[|c r1]|] eqn:E; try done. apply after_shorter in E.
  destruct (negb (c =? 61)); [done|]. destruct r1 as [|d r1]; [done|]. intros H. apply bind_Ret_inv in H as (r2 & H & Hr).
  simplify_eq. apply skip_line_shorter in H. cbn [length] in *. lia.
Qed.

Lemma expand_loop_fuel fuel ms first rest room : (length rest <= fuel)%nat -> expand_loop fuel ms first rest room = expand_from ms first rest room.
Proof.
  unfold expand_from. remember (length rest) as n eqn:En. revert fuel first rest room En.
  induction (lt_wf n) as [n _ IH]. intros fuel first rest room -> H.
  destruct rest as [|c rest]; [by destruct fuel|]. destruct fuel as [|fuel]; [cbn in H; lia|]. cbn [expand_loop length].
  assert (Hrec : forall r room, (length r <= length rest)%nat -> expand_loop fuel ms false r room = expand_loop (length rest) ms false r room).
  { intros r rm Hr. cbn [length] in H. rewrite (IH (length r)), (IH (length r) ltac:(cbn; lia) (length rest)) by (cbn; done || lia). done. }
  assert (Hd : forall k, (1 <= k)%nat -> (length (drop k (c :: rest)) <= length rest)%nat) by (intros k Hk; rewrite length_drop; cbn; lia).
  set (df := if is_definition first (c :: rest) then _ else _).
  destruct df as [[r|]| | |] eqn:Ed; try done; cbn [mbind outcome_bind].
  { apply Hrec. unfold df in Ed. destruct (is_definition first (c :: rest)); [|done]. apply skip_definition_shorter in Ed.
    pose proof (Hd (if first then 2 else 3)%nat ltac:(destruct first; lia)). lia. }
  destruct (starts_with [36; 123] (c :: rest)).
  - destruct (read_until _ _ _) as [[[nm r]|]| | |] eqn:E1; try done. cbn [mbind outcome_bind].
    destruct (get r 0) as [d| | |]; try done. cbn [mbind outcome_bind]. destruct (negb (d =? 125)); [done|].
    apply read_until_suffix in E1 as (_ & _ & _ & E1). apply (f_equal length) in E1. rewrite length_app in E1.
    pose proof (Hd 2%nat ltac:(lia)). destruct (_ <? _); [done|]. rewrite Hrec; [done|]. rewrite length_drop. lia.
  - destruct (room <=? 0); [done|]. by rewrite Hrec.
Qed.

(** The result of the second loop, whatever room there is for it. *)
Definition expands (ms : list (list Z * list Z)) (first : bool) (rest out : list Z) : Prop :=
  forall room, 0 <= room ->
    expand_from ms first rest room = if Z.of_nat (length out) <=? room then Ret out else Panic overflow_msg.

Lemma expands_nil ms first : expands ms first [] [].
Proof. intros room H. change (Z.of_nat (length (@nil Z))) with 0. by rewrite (proj2 (Z.leb_le _ _) H). Qed.

Definition no_definition (first : bool) (rest : list Z) : Prop :=
  (if is_definition first rest then skip_definition (drop (if first then 2 else 3) rest) else Ret None) = Ret None.

Lemma expands_char ms first c rest out : no_definition first (c :: rest) -> starts_with [36; 123] (c :: rest) = false ->
  expands ms false rest out -> expands ms first (c :: rest) (c :: out).
Proof.
  intros Hn Hs H room Hr. unfold expand_from. cbn [expand_loop length]. rewrite Hn, Hs. cbn [mbind outcome_bind].
  split_leb room 0.
  { split_leb (Z.of_nat (S (length out))) room; [lia|done]. }
  rewrite expand_loop_fuel, H by lia. split_leb (Z.of_nat (length out)) (room - 1); split_leb (Z.of_nat (S (length out))) room; done || lia.
Qed.

Lemma expands_definition ms first rest r out : is_definition first rest = true ->
  skip_definition (drop (if first then 2 else 3) rest) = Ret (Some r) ->
  expands ms false r out -> expands ms first rest out.
Proof.
  intros Hd Hs H room Hr. unfold expand_from. destruct rest as [|c rest]; [by destruct first|].
  cbn [expand_loop length]. rewrite Hd, Hs. cbn [mbind outcome_bind]. apply skip_definition_shorter in Hs.
  rewrite length_drop in Hs. rewrite expand_loop_fuel by (destruct first; cbn [length] in Hs; lia). by apply H.
Qed.

(** A name that a macro can have. *)
Definition name_ok (n : list Z) : Prop := Forall (fun c => c ∉ [125; 10; 0]) n /\ (length n <= 1023)%nat.

Definition use (n : list Z) : list Z := [36; 123] ++ n ++ [125].

Lemma expands_use ms first n rest out : no_definition first (use n ++ rest) -> name_ok n ->
  expands ms false rest out -> expands ms first (use n ++ rest) (lookup_macro ms n ++ out).
Proof.
  intros Hn [Hn1 Hn2] H room Hr. unfold expand_from.
  assert (E : use n ++ rest = 36 :: 123 :: n ++ 125 :: rest) by (unfold use; rewrite <- !app_assoc; done).
  rewrite E in *. change (length (36 :: ?l)) with (S (length l)). remember (length (123 :: n ++ 125 :: rest)) as F eqn:EF.
  cbn [length] in EF. rewrite length_app in EF. cbn [expand_loop]. rewrite Hn. cbn [mbind outcome_bind starts_with Z.eqb Pos.eqb andb].
  change (drop 2 (36 :: 123 :: ?l)) with l. rewrite read_until_spec by (done || set_solver). cbn [mbind outcome_bind get lookup list_lookup].
  change (negb (125 =? 125)) with false. cbn [drop]. cbv zeta. rewrite length_app.
  split_ltb room (Z.of_nat (length (lookup_macro ms n))).
  { split_leb (Z.of_nat (length (lookup_macro ms n) + length out)) room; [lia|done]. }
  cbn [length] in EF. rewrite drop_0, expand_loop_fuel by lia. rewrite H by lia.
  split_leb (Z.of_nat (length out)) (room - Z.of_nat (length (lookup_macro ms n)));
    split_leb (Z.of_nat (length (lookup_macro ms n) + length out)) room; done || lia.
Qed.

(** ** Texts with macros *)

Inductive token :=
| Chr (c : Z)
| Use (n : list Z).

Inductive line :=
| Def (n value : list Z)
| Text (ts : list token).

Definition show_token (t : token) : list Z := match t with Chr c => [c] | Use n => use n end.
Definition show_text (ts : list token) : list Z := mjoin (show_token <$> ts).
Definition show_line (l : line) : list Z :=
  match l with
  | Def n value => use n ++ [61] ++ value
  | Text ts => show_text ts
  end.

(** The text of a file: each line but the first is behind a newline. *)
Definition show_rest (ls : list line) : list Z := mjoin ((fun l => 10 :: show_line l) <$> ls) ++ [0].
Definition show_file (l : line) (ls : list line) : list Z := show_line l ++ show_rest ls.

(** What a dollar sign and a brace stand for is not ambiguous. *)
Fixpoint tokens_ok (ts : list token) : Prop :=
  match ts with
  | [] => True
  | Chr c :: ts => c <> 10 /\ c <> 0 /\ (c = 36 -> forall ts', ts <> Chr 123 :: ts') /\ tokens_ok ts
  | Use n :: ts => name_ok n /\ tokens_ok ts
  end.
Definition line_ok (l : line) : Prop :=
  match l with
  | Def n value => name_ok n /\ Forall (fun c => c ∉ [10; 0]) value /\ (length value <= 2047)%nat
  | Text ts => tokens_ok ts /\ forall n ts', ts <> Use n :: Chr 61 :: ts'
  end.

(** The macros that are defined, the last definition first. *)
Definition defs (ls : list line) : list (list Z * list Z) :=
  omap (fun l => match l with Def n value => Some (n, value) | Text _ => None end) ls.

(** The value of a macro: the first in the list. *)
Definition macro_value (ms : list (list Z * list Z)) (n : list Z) : list Z :=
  default [] (snd <$> head (filter (fun x => x.1 = n) ms)).

Definition expand_token (ms : list (list Z * list Z)) (t : token) : list Z :=
  match t with Chr c => [c] | Use n => macro_value ms n end.
Definition expand_text (ms : list (list Z * list Z)) (ts : list token) : list Z := mjoin (expand_token ms <$> ts).
Definition expand_rest (ms : list (list Z * list Z)) (ls : list line) : list Z :=
  mjoin ((fun l => match l with Def _ _ => [] | Text ts => 10 :: expand_text ms ts end) <$> ls) ++ [0].
Definition expand_file (ms : list (list Z * list Z)) (l : line) (ls : list line) : list Z :=
  match l with Def _ _ => [] | Text ts => expand_text ms ts end ++ expand_rest ms ls.

(** The macros have C strings as names. *)
Definition names_ok (ms : list (list Z * list Z)) : Prop := Forall (fun x => 0 ∉ x.1) ms.

Lemma lookup_macro_value ms n : names_ok ms -> 0 ∉ n -> lookup_macro ms n = macro_value ms n.
Proof.
  intros Hms Hn. assert (Hnz : forall l : list Z, 0 ∉ l -> Forall (fun c => c <> 0) l) by (intros l Hl; apply Forall_forall; congruence).
  induction Hms as [|[m v] ms Hm _ IH]; [done|]. cbn [lookup_macro]. unfold macro_value.
  pose proof (strcmp_eq m n (Hnz _ Hm) (Hnz _ Hn)) as Hs. destruct (Z.eqb_spec (strcmp m n) 0) as [E|E].
  - by rewrite filter_cons_True by (by apply Hs).
  - rewrite filter_cons_False by (cbn; tauto). apply IH.
Qed.

Lemma name_ok_nul n : name_ok n -> 0 ∉ n.
Proof. intros [H _] Hx. rewrite Forall_forall in H. apply (H _ Hx). set_solver. Qed.

(** Behind a line there is a newline or the end. *)
Lemma show_rest_head ls : exists c r, show_rest ls = c :: r /\ (c = 10 \/ c = 0).
Proof. destruct ls as [|l ls]; [by exists 0, []; split; [|right]|]. exists 10. eexists. split; [done|]. by left. Qed.

Lemma text_no_newline ts : tokens_ok ts -> 10 ∉ show_text ts.
Proof.
  induction ts as [|[c|n] ts IH]; cbn [tokens_ok]; [set_solver|..].
  - intros (Hc & _ & _ & H). unfold show_text in *. rewrite fmap_cons, mjoin_cons. cbn. set_solver.
  - intros ([Hn _] & H). unfold show_text in *. rewrite fmap_cons, mjoin_cons. cbn [show_token]. unfold use.
    rewrite !not_elem_of_app. split; [|by apply IH]. split_and!; [set_solver| |set_solver].
    rewrite Forall_forall in Hn. intros Hx. apply (Hn _ Hx). set_solver.
Qed.

(** A text starts like a use only if its first token is one. *)
Lemma text_starts ts tl : tokens_ok ts -> (exists c r, tl = c :: r /\ (c = 10 \/ c = 0)) ->
  starts_with [36; 123] (show_text ts ++ tl) = match ts with Use _ :: _ => true | _ => false end.
Proof.
  intros Ht (d & r & -> & Hd). destruct ts as [|[c|n] ts]; [by destruct Hd as [-> | ->]| |done].
  cbn [tokens_ok] in Ht. destruct Ht as (_ & _ & H36 & Ht). unfold show_text. rewrite fmap_cons, mjoin_cons. cbn [show_token app starts_with].
  destruct (Z.eqb_spec 36 c) as [<-|]; [|done]. cbn [andb]. specialize (H36 eq_refl).
  destruct ts as [|[c2|n2] ts]; [by destruct Hd as [-> | ->]| |done]. rewrite fmap_cons, mjoin_cons. cbn [show_token app].
  destruct (Z.eqb_spec 123 c2) as [<-|]; [by destruct (H36 ts)|done].
Qed.

Lemma after_spec c l r : c ∉ l -> after c (l ++ c :: r) = Some r.
Proof.
  induction l as [|d l IH]; cbn [app after]; [by rewrite Z.eqb_refl|]. intros H. apply not_elem_of_cons in H as [Hd H].
  rewrite (proj2 (Z.eqb_neq _ _)) by done. by apply IH.
Qed.

Lemma skip_line_spec v c r : Forall (fun c => c ∉ [10; 0]) v -> c = 10 \/ c = 0 -> skip_line (v ++ c :: r) = Ret (c :: r).
Proof.
  intros Hv Hc. induction Hv as [|d v Hd _ IH]; cbn [app skip_line]; [by destruct Hc as [-> | ->]|].
  replace ((d =? 10) || (d =? 0)) with false; [done|]. symmetry. apply orb_false_iff. split; apply Z.eqb_neq; set_solver.
Qed.

Lemma skip_definition_def l v tl : 125 ∉ l -> Forall (fun c => c ∉ [10; 0]) v -> (exists c r, tl = c :: r /\ (c = 10 \/ c = 0)) ->
  skip_definition (l ++ 125 :: 61 :: v ++ tl) = Ret (Some tl).
Proof.
  intros Hl Hv (c & r & -> & Hc). unfold skip_definition. rewrite after_spec by done. change (negb (61 =? 61)) with false. cbv iota.
  rewrite skip_line_spec by done. by destruct v.
Qed.

(** A use at the start of a line is not taken for a definition. *)
Lemma skip_definition_use l d r : 125 ∉ l -> d <> 61 -> skip_definition (l ++ 125 :: d :: r) = Ret None.
Proof. intros Hl Hd. unfold skip_definition. rewrite after_spec by done. by rewrite (proj2 (Z.eqb_neq _ _) Hd). Qed.

Lemma name_ok_brace n : name_ok n -> 125 ∉ n.
Proof. intros [H _] Hx. rewrite Forall_forall in H. apply (H _ Hx). set_solver. Qed.

(** What is behind the first token of a line. *)
Lemma behind_use n ts tl : line_ok (Text (Use n :: ts)) -> (exists c r, tl = c :: r /\ (c = 10 \/ c = 0)) ->
  exists d r, show_text (Use n :: ts) ++ tl = 36 :: 123 :: n ++ 125 :: d :: r /\ d <> 61 /\ d :: r = show_text ts ++ tl.
Proof.
  intros [_ Hne] (c & r & -> & Hc). unfold show_text. rewrite fmap_cons, mjoin_cons. cbn [show_token]. unfold use.
  rewrite <- !app_assoc. cbn [app]. destruct ts as [|[e|m] ts].
  - exists c, r. split_and!; [done|lia|done].
  - exists e. eexists. rewrite fmap_cons, mjoin_cons. cbn [show_token app]. split_and!; [done| |done]. intros ->. by apply (Hne n ts).
  - exists 36. eexists. rewrite fmap_cons, mjoin_cons. cbn [show_token]. unfold use. split_and!; [done|done|done].
Qed.

Lemma no_definition_text l tl : line_ok (Text l) -> (exists c r, tl = c :: r /\ (c = 10 \/ c = 0)) ->
  no_definition false (10 :: show_text l ++ tl) /\ no_definition true (10 :: show_text l ++ tl)
  /\ (l <> [] -> no_definition true (show_text l ++ tl)).
Proof.
  intros Hl Htl. pose proof (text_starts l tl (proj1 Hl) Htl) as Hs. unfold no_definition, is_definition.
  destruct l as [|[c|n] l].
  - cbn [show_text app] in *. destruct Htl as (d & r & -> & Hd). by destruct Hd as [-> | ->].
  - set (t := show_text (Chr c :: l) ++ tl) in *.
    change (starts_with [10; 36; 123] (10 :: t)) with (starts_with [36; 123] t).
    change (starts_with [36; 123] (10 :: t)) with false. rewrite Hs. cbn [orb andb].
    split_and!; [done..|]. intros _. assert (starts_with [10; 36; 123] t = false) as ->; [|done].
    destruct Hl as [(Hc & _) _]. unfold t, show_text. rewrite fmap_cons, mjoin_cons.
    cbn [show_token app starts_with]. by rewrite (proj2 (Z.eqb_neq 10 c)) by lia.
  - destruct (behind_use n l tl Hl Htl) as (d & r & -> & Hd & _). destruct Hl as [[Hn _] _]. apply name_ok_brace in Hn. split_and!.
    + by apply (skip_definition_use n).
    + apply (skip_definition_use (123 :: n)); set_solver.
    + intros _. by apply (skip_definition_use n).
Qed.

Lemma no_definition_inline c r : c <> 10 -> no_definition false (c :: r).
Proof. intros H. unfold no_definition, is_definition. cbn [starts_with]. by rewrite (proj2 (Z.eqb_neq 10 c)) by lia. Qed.

Lemma expands_text_from ms ts tl out first : names_ok ms -> tokens_ok ts -> (exists c r, tl = c :: r /\ (c = 10 \/ c = 0)) ->
  (first = true -> ts <> [] /\ no_definition true (show_text ts ++ tl)) ->
  expands ms false tl out -> expands ms first (show_text ts ++ tl) (expand_text ms ts ++ out).
Proof.
  intros Hms Ht Htl Hf H. revert first Hf. induction ts as [|t ts IH]; intros first Hf.
  { destruct first; [by destruct (Hf eq_refl)|done]. }
  pose proof (text_starts (t :: ts) tl Ht Htl) as Hs. unfold show_text, expand_text in *.
  rewrite !fmap_cons, !mjoin_cons in *. rewrite <- !app_assoc in *.
  destruct t as [c|n]; cbn [tokens_ok show_token expand_token app] in *.
  - destruct Ht as (Hc & _ & _ & Ht). apply expands_char; [|done|by apply IH].
    destruct first; [by apply Hf|by apply no_definition_inline].
  - destruct Ht as (Hn & Ht). rewrite <- lookup_macro_value by (done || by apply name_ok_nul).
    apply expands_use; [|done|by apply IH]. destruct first; [by apply Hf|by apply no_definition_inline].
Qed.

Lemma show_rest_cons l ls : show_rest (l :: ls) = 10 :: show_line l ++ show_rest ls.
Proof. unfold show_rest. rewrite fmap_cons, mjoin_cons. cbn [app]. by rewrite <- app_assoc. Qed.
Lemma show_def n v tl : show_line (Def n v) ++ tl = 36 :: 123 :: n ++ 125 :: 61 :: v ++ tl.
Proof. cbn [show_line]. unfold use. rewrite <- !app_assoc. done. Qed.

Lemma expands_rest ms ls : names_ok ms -> Forall line_ok ls -> expands ms false (show_rest ls) (expand_rest ms ls).
Proof.
  intros Hms H. induction H as [|l ls Hl _ IH].
  { apply (expands_char ms false 0 [] []); [done|done|apply expands_nil]. }
  rewrite show_rest_cons. pose proof (show_rest_head ls) as Htl. unfold expand_rest in *. rewrite fmap_cons, mjoin_cons.
  destruct l as [n v|ts].
  - rewrite show_def. destruct Hl as (Hn & Hv & _). apply name_ok_brace in Hn.
    eapply expands_definition; [done|by apply (skip_definition_def n)|done].
  - cbn [show_line app]. rewrite <- app_assoc. apply expands_char; [by apply no_definition_text|done|].
    apply expands_text_from; try done. apply Hl.
Qed.

(** The first line is not empty, or no macro starts the second. *)
Definition first_ok (l : line) (ls : list line) : Prop :=
  l = Text [] -> match ls with Def _ _ :: _ | Text (Use _ :: _) :: _ => False | _ => True end.

Lemma expands_file ms l ls : names_ok ms -> line_ok l -> Forall line_ok ls -> first_ok l ls ->
  expands ms true (show_file l ls) (expand_file ms l ls).
Proof.
  intros Hms Hl Hls Hf. pose proof (show_rest_head ls) as Htl. pose proof (expands_rest ms ls Hms Hls) as Hr.
  unfold show_file, expand_file. destruct l as [n v|ts].
  - rewrite show_def. destruct Hl as (Hn & Hv & _). apply name_ok_brace in Hn.
    eapply expands_definition; [done|by apply (skip_definition_def n)|done].
  - destruct (decide (length ts = 0)%nat) as [E|E].
    2: { cbn [show_line]. apply expands_text_from; try done; [apply Hl|]. intros _.
         assert (ts <> []) by (by intros ->). split; [done|]. by apply no_definition_text. }
    apply nil_length_inv in E as ->. specialize (Hf eq_refl). cbn [show_line show_text expand_text app].
    destruct Hls as [|l2 ls Hl2 Hls].
    { apply (expands_char ms true 0 [] []); [done|done|apply expands_nil]. }
    destruct l2 as [n v|ts]; [done|]. rewrite show_rest_cons. pose proof (show_rest_head ls) as Htl2.
    unfold expand_rest. rewrite fmap_cons, mjoin_cons. cbn [app show_line mjoin list_join fmap list_fmap]. rewrite <- app_assoc.
    apply expands_char; [by apply no_definition_text|done|]. apply expands_text_from; try done; [apply Hl2|by apply expands_rest].
Qed.

(** ** Loading the definitions *)

Lemma load_none first c rest ms : is_definition first (c :: rest) = false -> load_from first (c :: rest) ms = load_from false rest ms.
Proof. intros H. unfold load_from. cbn [load_macros length]. by rewrite H. Qed.

Lemma load_inline l tl ms : 10 ∉ l -> load_from false (l ++ tl) ms = load_from false tl ms.
Proof.
  induction l as [|c l IH]; [done|]. intros H. apply not_elem_of_cons in H as [Hc H]. cbn [app].
  rewrite load_none; [by apply IH|]. unfold is_definition. cbn [starts_with]. by rewrite (proj2 (Z.eqb_neq 10 c)) by lia.
Qed.

Lemma load_def first rest n v tl ms : is_definition first rest = true ->
  drop (if first then 2 else 3) rest = n ++ 125 :: 61 :: v ++ tl -> line_ok (Def n v) ->
  (exists c r, tl = c :: r /\ (c = 10 \/ c = 0)) ->
  load_from first rest ms = load_from false tl ((n, v) :: ms).
Proof.
  intros Hd E ([Hn1 Hn2] & Hv1 & Hv2) (c & r & -> & Hc). unfold load_from at 1. destruct rest as [|a rest]; [by destruct first|].
  apply (f_equal length) in E as El. rewrite length_drop, !length_app in El. cbn [length] in El. rewrite length_app in El. cbn [length] in El.
  cbn [length]. remember (length rest) as F eqn:EF. cbn [load_macros]. rewrite Hd, E, read_until_spec by (done || set_solver).
  cbn [mbind outcome_bind get lookup list_lookup drop]. change ((125 =? 10) || (125 =? 0)) with false.
  change (negb (61 =? 61)) with false. cbv iota. rewrite drop_0, read_until_spec by (done || (destruct Hc as [-> | ->]; set_solver)).
  cbn [mbind outcome_bind]. apply load_macros_fuel. cbn [length]. destruct first; lia.
Qed.

Lemma load_use first rest n d r ms : is_definition first rest = true ->
  drop (if first then 2 else 3) rest = n ++ 125 :: d :: r -> Forall (fun c => c ∉ [125; 10; 0]) n -> (length n <= 1023)%nat -> d <> 61 ->
  load_from first rest ms = load_from false (125 :: d :: r) ms.
Proof.
  intros Hd E Hn1 Hn2 Hne. unfold load_from at 1. destruct rest as [|a rest]; [by destruct first|].
  apply (f_equal length) in E as El. rewrite length_drop, length_app in El. cbn [length] in El.
  cbn [length]. remember (length rest) as F eqn:EF. cbn [load_macros]. rewrite Hd, E, read_until_spec by (done || set_solver).
  cbn [mbind outcome_bind get lookup list_lookup]. change ((125 =? 10) || (125 =? 0)) with false.
  rewrite (proj2 (Z.eqb_neq _ _) Hne). cbn [negb]. apply load_macros_fuel. cbn [length]. destruct first; lia.
Qed.

(** A text line at the start of a line; [x]: behind the newline, if it is not the first. *)
Lemma load_text l tl ms : line_ok (Text l) -> (exists c r, tl = c :: r /\ (c = 10 \/ c = 0)) ->
  load_from false (10 :: show_text l ++ tl) ms = load_from false tl ms
  /\ (l <> [] -> load_from true (show_text l ++ tl) ms = load_from false tl ms).
Proof.
  intros Hl Htl. pose proof (text_starts l tl (proj1 Hl) Htl) as Hs. pose proof (text_no_newline l (proj1 Hl)) as Hnl.
  assert (Hi : is_definition false (10 :: show_text l ++ tl) = match l with Use _ :: _ => true | _ => false end).
  { unfold is_definition. change (starts_with [10; 36; 123] (10 :: ?t)) with (starts_with [36; 123] t). rewrite Hs. apply orb_false_r. }
  destruct l as [|[c|n] l].
  - split; [|done]. by rewrite load_none.
  - split; [rewrite load_none by done; by apply load_inline|]. intros _. rewrite <- (load_inline _ tl ms Hnl).
    assert (Hc : c <> 10) by (by destruct Hl as [[? _] _]).
    assert (Ed : is_definition true (show_text (Chr c :: l) ++ tl) = false).
    { unfold is_definition. rewrite Hs, andb_false_r, orb_false_r. unfold show_text. rewrite fmap_cons, mjoin_cons. cbn [show_token app starts_with].
      by rewrite (proj2 (Z.eqb_neq 10 c)) by lia. }
    revert Ed. unfold show_text. rewrite fmap_cons, mjoin_cons. cbn [show_token app]. intros Ed.
    rewrite load_none by done. rewrite (load_none false); [done|]. unfold is_definition. cbn [starts_with].
    by rewrite (proj2 (Z.eqb_neq 10 c)) by lia.
  - destruct (behind_use n l tl Hl Htl) as (d & r & E & Hd & Er). rewrite E in *. destruct Hl as [[[Hn1 Hn2] Ht] _].
    assert (Hrest : load_from false (125 :: d :: r) ms = load_from false tl ms).
    { rewrite load_none by done. rewrite Er. apply load_inline. by apply text_no_newline. }
    split; [|intros _]; (erewrite (load_use _ _ n d r); [exact Hrest|done..]).
Qed.

Lemma load_rest ls ms : Forall line_ok ls -> load_from false (show_rest ls) ms = Ret (rev (defs ls) ++ ms).
Proof.
  intros H. revert ms. induction H as [|l ls Hl _ IH]; intros ms; [done|]. rewrite show_rest_cons.
  pose proof (show_rest_head ls) as Htl. destruct l as [n v|ts].
  - erewrite (load_def false _ n v (show_rest ls)); [|by rewrite show_def|by rewrite show_def|done..]. rewrite IH.
    unfold defs. cbn [omap list_omap rev]. by rewrite <- app_assoc.
  - cbn [show_line]. rewrite (proj1 (load_text ts (show_rest ls) ms Hl Htl)). apply IH.
Qed.

Lemma load_file l ls ms : line_ok l -> Forall line_ok ls -> first_ok l ls ->
  load_from true (show_file l ls) ms = Ret (rev (defs (l :: ls)) ++ ms).
Proof.
  intros Hl Hls Hf. pose proof (show_rest_head ls) as Htl. unfold show_file. destruct l as [n v|ts].
  - erewrite (load_def true _ n v (show_rest ls)); [|by rewrite show_def|by rewrite show_def|done..]. rewrite load_rest by done.
    unfold defs. cbn [omap list_omap rev]. by rewrite <- app_assoc.
  - change (rev (defs (Text ts :: ls))) with (rev (defs ls)). destruct ts as [|t ts].
    2: { cbn [show_line]. rewrite (proj2 (load_text (t :: ts) (show_rest ls) ms Hl Htl)) by done. by apply load_rest. }
    specialize (Hf eq_refl). destruct Hls as [|l2 ls Hl2 Hls]; [done|]. destruct l2 as [n v|ts]; [done|].
    pose proof (show_rest_head ls) as Htl2. pose proof (text_starts ts (show_rest ls) (proj1 Hl2) Htl2) as Hs.
    change (rev (defs (Text ts :: ls))) with (rev (defs ls)).
    change (show_line (Text []) ++ ?t) with t. rewrite show_rest_cons. cbn [show_line].
    rewrite load_none; [rewrite load_inline; [by apply load_rest|by apply text_no_newline, Hl2]|].
    unfold is_definition. change (starts_with [10; 36; 123] (10 :: ?t)) with (starts_with [36; 123] t). rewrite Hs.
    by destruct ts as [|[]].
Qed.

(** Loading and expanding. *)
Lemma expand_macros_spec (arch fw_type : list Z) (l : line) (ls : list line) :
  line_ok l -> Forall line_ok ls -> first_ok l ls -> Z.of_nat (length (show_file l ls)) <= (W64 - 1) / 4 ->
  let ms := rev (defs (l :: ls)) ++ builtin_macros arch fw_type in
  let out := expand_file ms l ls in
  let size := (4 * length (show_file l ls))%nat in
  expand_macros arch fw_type (show_file l ls)
  = if Nat.leb (length out) size then Ret (out ++ replicate (size - length out) 0) else Panic overflow_msg.
Proof.
  intros Hl Hls Hf Hsz ms out size. unfold expand_macros. change (load_macros (length ?t) true ?t) with (load_from true t).
  rewrite load_file by done. cbn [mbind outcome_bind]. split_ltb ((W64 - 1) / 4) (Z.of_nat (length (show_file l ls))); [lia|].
  assert (Hms : names_ok ms).
  { apply Forall_app. split; [|repeat constructor; by apply (bool_decide_unpack _); vm_compute]. apply Forall_rev.
    assert (H : Forall line_ok (l :: ls)) by (by constructor). clear -H. induction H as [|x xs Hx _ IH]; [constructor|].
    destruct x as [n v|]; [|done]. unfold defs. cbn [omap list_omap]. constructor; [by apply name_ok_nul, Hx|done]. }
  fold ms. change (expand_loop (length ?t) ms true ?t ?r) with (expand_from ms true t r).
  rewrite (expands_file ms l ls Hms Hl Hls Hf) by lia. fold out. unfold size.
  destruct (Nat.leb_spec (length out) (4 * length (show_file l ls))); case_b; try lia; [|done].
  cbn [mbind outcome_bind]. do 2 f_equal. f_equal. lia.
Qed.

(** The expansion of macros: of a text in which macros are defined and used, the lines of
    the definitions are removed and every use is replaced, wherever the macro is
    defined, by the value of its last definition, by that of the machine, or by nothing.
    When the result does not fit four times the size of the text, the boot loader
    stops. *)
Theorem expand_macros_file (arch fw_type : list Z) (l : line) (ls : list line) :
  line_ok l -> Forall line_ok ls -> first_ok l ls -> Z.of_nat (length (show_file l ls)) <= (W64 - 1) / 4 ->
  let ms := rev (defs (l :: ls)) ++ builtin_macros arch fw_type in
  let out := expand_file ms l ls in
  let size := (4 * length (show_file l ls))%nat in
  expand_macros arch fw_type (show_file l ls)
  = if Nat.leb (length out) size then Ret (out ++ replicate (size - length out) 0) else Panic overflow_msg.
Proof. apply expand_macros_spec. Qed.

Definition demo_line : line := Text [Chr 97; Use (str "V"); Use (str "ARCH"); Use (str "x")].

Lemma expand_macros_file_witness :
  exists zeros, expand_macros (str "x86-64") (str "BIOS") (str "a${V}${ARCH}${x}" ++ [10] ++ str "${V}=1" ++ [10] ++ str "${V}=22" ++ [10; 0])
  = Ret (str "a22x86-64" ++ [10; 0] ++ zeros).
Proof.
  eexists. refine (eq_trans (expand_macros_file (str "x86-64") (str "BIOS") demo_line
    [Def (str "V") (str "1"); Def (str "V") (str "22"); Text []] _ _ _ _) _).
  - split; [|done]. cbn [tokens_ok]. split_and!; try done; try (by apply (bool_decide_unpack _); vm_compute).
  - repeat constructor; try done; by apply (bool_decide_unpack _); vm_compute.
  - done.
  - by vm_compute.
  - by vm_compute.
Defined.

(** A macro that is defined on the second line, behind an empty one, is not found: the
    index is moved by two bytes instead of three, and the name starts with a brace. *)
Lemma macro_behind_empty_line : exists zeros,
  expand_macros (str "x86-64") (str "BIOS") ([10] ++ str "${V}=1" ++ [10] ++ str "a${V}b" ++ [10; 0]) = Ret ([10] ++ str "ab" ++ [10; 0] ++ zeros).
Proof. eexists. by vm_compute. Qed.
