(* ===== verification/ConfigSpec.v ===== *)
(** * The menu and the configuration as a whole

    A menu that is written as text is read back; what [init_config] makes of a file,
    and the files it refuses. *)

From S2P Require Import Prelude Bytes Blake2b Blake2bSpec Libc LibcSpec Config ConfigText ConfigMacro.

(** * The menu

    A menu that is written as text is read back: the entries are found where they
    start, with their names and their bodies, and [create_menu_tree] rebuilds the
    tree. *)

(** ** Entries as text *)

(** Text in which no entry starts, up to a newline; [sol]: at the start of a line. *)
Fixpoint quiet (sol : bool) (s : list Z) : Prop :=
  match s with
  | [] => sol = true
  | c :: s => c <> 0 /\ ~ (sol = true /\ c = 47) /\ quiet (c =? 10) s
  end.

Definition header (d : nat) (e : menu_entry) : list Z :=
  replicate d 47 ++ (if e.(expanded) then [43] else []) ++ e.(name).
Definition show_entry (x : nat * menu_entry) : list Z := header x.1 x.2 ++ x.2.(body).

(** The entries of a tree in the order of the text, each with its depth. *)
Fixpoint flatten (d : nat) (e : menu_entry) : list (nat * menu_entry) :=
  (d, e) :: flat_map (flatten (S d)) e.(sub).
Definition flatten_all (d : nat) (es : list menu_entry) : list (nat * menu_entry) := flat_map (flatten d) es.
Definition show_menu (xs : list (nat * menu_entry)) : list Z := mjoin (show_entry <$> xs).

(** What can be written at depth [d]. *)
Inductive entry_ok : nat -> menu_entry -> Prop :=
| Entry_ok d e :
    (1 <= d)%nat ->
    (exists c n, e.(name) = c :: n /\ (c ∉ [47; 43; 32])) ->
    (10 ∉ e.(name)) -> (0 ∉ e.(name)) ->
    (length (header d e) <= 63)%nat ->
    (e.(expanded) = true -> e.(sub) <> []) ->
    (exists b, e.(body) = 10 :: b) -> quiet false e.(body) ->
    e.(comment) = fst <$> config_get_value e.(body) 0 (str "COMMENT") ->
    Forall (entry_ok (S d)) e.(sub) ->
    entry_ok d e.

(** One entry, without what is below it. *)
Definition block_ok (x : nat * menu_entry) : Prop :=
  let '(d, e) := x in
  (1 <= d)%nat /\ (exists c n, e.(name) = c :: n /\ (c ∉ [47; 43; 32])) /\ (10 ∉ e.(name)) /\ (0 ∉ e.(name))
  /\ (length (header d e) <= 63)%nat /\ (exists b, e.(body) = 10 :: b) /\ quiet false e.(body).

(** ** Finding entries *)

Lemma find_entry_quiet i sol s rest : quiet sol s -> find_entry i sol (s ++ rest) = find_entry i true rest.
Proof.
  revert sol. induction s as [|c s IH]; intros sol; cbn [quiet app]; [by intros ->|]. intros (H0 & H47 & H).
  cbn [find_entry]. apply Z.eqb_neq in H0 as ->. split_eqb c 47; [|by apply IH]. subst c.
  destruct sol; [tauto|]. by apply (IH false).
Qed.

Lemma quiet_app_line sol s b : (10 ∉ s) -> (0 ∉ s) -> (sol = true -> hd0 s <> 47) -> quiet false (10 :: b) -> quiet sol (s ++ 10 :: b).
Proof.
  revert sol. induction s as [|c s IH]; intros sol H10 H0 Hs H; cbn [app].
  { cbn [quiet] in *. destruct H as (_ & _ & H). split_and!; [done| |done]. by intros []. }
  apply not_elem_of_cons in H10 as [Hc H10], H0 as [Hc0 H0]. cbn [quiet]. split_and!; [done| |].
  - intros [Ht Hx]. apply (Hs Ht). done.
  - rewrite (proj2 (Z.eqb_neq _ _)) by done. by apply IH.
Qed.

(** The first byte of a header is a slash; the rest of the block is quiet. *)
Lemma block_quiet x : block_ok x -> exists c s b, show_entry x = 47 :: (c :: s) ++ 10 :: b /\ header x.1 x.2 = 47 :: c :: s /\ x.2.(body) = 10 :: b
  /\ (10 ∉ (c :: s)) /\ (0 ∉ (c :: s)) /\ quiet false (10 :: b) /\ quiet false ((c :: s) ++ 10 :: b).
Proof.
  destruct x as [d e]. intros (Hd & (c1 & n1 & En & Hc1) & H10 & H0 & _ & (b & Eb) & Hq).
  destruct d as [|d]; [lia|]. unfold show_entry, header. cbn [fst snd]. rewrite Eb in *. set (p := if expanded e then [43] else []).
  assert (Hp : exists c s, replicate d 47 ++ p ++ name e = c :: s).
  { destruct (replicate d 47 ++ p ++ name e) as [|c s] eqn:E; [|by exists c, s].
    apply app_eq_nil in E as [_ E]. apply app_eq_nil in E as [_ E]. by rewrite En in E. }
  destruct Hp as (c & s & E). cbn [replicate app]. exists c, s, b. rewrite E.
  assert (forall z, z <> 47 -> z <> 43 -> z ∉ name e -> z ∉ c :: s) as Hnot.
  { intros z H47 H43 Hz. rewrite <- E, !not_elem_of_app. split_and!; [|by unfold p; destruct (expanded e); set_solver|done].
    intros Hx. apply elem_of_replicate in Hx as [-> _]. done. }
  do 3 (split; [done|]). do 2 (split; [by apply Hnot|]). split; [done|]. apply (quiet_app_line false (c :: s)); [by apply Hnot..|done|done].
Qed.

Section text.
Context (g zeros : list Z) (blocks : list (nat * menu_entry)).
Context (Hg : quiet true g) (Hb : Forall block_ok blocks).

Definition menu_text : list Z := g ++ show_menu blocks ++ 0 :: zeros.

Lemma find_entry_menu i xs : Forall block_ok xs ->
  find_entry i true (show_menu xs ++ 0 :: zeros)
  = Ret (match xs !! i with
         | Some x => Some (drop 1 (show_entry x) ++ show_menu (drop (S i) xs) ++ 0 :: zeros)
         | None => None
         end).
Proof.
  intros H. revert i. induction H as [|x xs Hx _ IH]; intros i; [done|].
  destruct (block_quiet x Hx) as (c & s & b & E & _ & _ & _ & _ & _ & Hq). unfold show_menu in *. rewrite fmap_cons, mjoin_cons, <- app_assoc, E.
  destruct i as [|i].
  - cbn [lookup list_lookup drop]. rewrite E. done.
  - change (find_entry (S i) true (?l ++ ?t)) with (find_entry i false (((c :: s) ++ 10 :: b) ++ t)).
    rewrite (find_entry_quiet _ _ _ _ Hq). apply IH.
Qed.

Lemma find_entry_text i : find_entry i true menu_text
  = Ret ((fun x => drop 1 (show_entry x) ++ show_menu (drop (S i) blocks) ++ 0 :: zeros) <$> blocks !! i).
Proof. unfold menu_text. rewrite find_entry_quiet, find_entry_menu by done. by destruct (blocks !! i). Qed.

Lemma copy_line_spec n s r : 10 ∉ s -> (length s <= n)%nat -> copy_line n (s ++ 10 :: r) = Ret s.
Proof.
  revert n. induction s as [|c s IH]; intros n H10 Hn; [by destruct n|]. apply not_elem_of_cons in H10 as [Hc H10].
  destruct n as [|n]; [cbn in Hn; lia|]. cbn [app copy_line]. unfold SEPARATOR. rewrite (proj2 (Z.eqb_neq _ _)) by done.
  by rewrite IH by (done || (cbn in Hn; lia)).
Qed.

Lemma cstring_whole s : 0 ∉ s -> cstring s = s.
Proof.
  induction s as [|c s IH]; [done|]. intros H. apply not_elem_of_cons in H as [Hc H]. cbn [cstring].
  rewrite (proj2 (Z.eqb_neq c 0)) by done. by rewrite IH.
Qed.

(** The name of an entry is its header. *)
Lemma entry_name_text i : config_get_entry_name menu_text i 64 = Ret ((fun x => header x.1 x.2) <$> blocks !! i).
Proof.
  unfold config_get_entry_name. rewrite find_entry_text. cbn [mbind outcome_bind]. destruct (blocks !! i) as [x|] eqn:Ex; [|done].
  pose proof (Forall_lookup_1 _ _ _ _ Hb Ex) as Hx. destruct (block_quiet x Hx) as (c & s & b & E & Eh & _ & H10 & H0 & _).
  assert (Hlen : (length (header x.1 x.2) <= 63)%nat) by (destruct x; apply Hx). cbn [fmap option_fmap option_map]. rewrite E, Eh in *.
  cbn [drop]. rewrite drop_0, <- app_assoc. change (47 :: (c :: s) ++ ?t) with ((47 :: c :: s) ++ t). cbn [app Nat.sub].
  change (47 :: c :: s ++ ?t) with ((47 :: c :: s) ++ t). rewrite copy_line_spec by (done || set_solver).
  cbn [mbind outcome_bind]. rewrite cstring_whole by set_solver. done.
Qed.

Lemma to_newline_spec s r : 10 ∉ s -> to_newline (s ++ 10 :: r) = Ret (10 :: r).
Proof.
  induction s as [|c s IH]; [done|]. intros H. apply not_elem_of_cons in H as [Hc H]. cbn [app to_newline].
  rewrite (proj2 (Z.eqb_neq c 10)) by done. by apply IH.
Qed.

Lemma entry_size_spec prev s rest : quiet (prev =? 10) s -> (exists c r, rest = c :: r /\ (c = 47 \/ c = 0)) ->
  entry_size prev (s ++ rest) = Ret (length s).
Proof.
  intros Hq Hr. revert prev Hq. induction s as [|c s IH]; intros prev; cbn [quiet app].
  - intros Hp. destruct Hr as (c & r & -> & [-> | ->]); [|done]. cbn [entry_size Z.eqb Pos.eqb]. by rewrite Hp.
  - intros (H0 & H47 & H). cbn [entry_size]. apply Z.eqb_neq in H0 as ->.
    assert ((c =? 47) && (prev =? 10) = false) as ->; [|by rewrite IH].
    apply not_true_iff_false. intros Hx. apply H47. apply andb_true_iff in Hx as [->%Z.eqb_eq ->]. done.
Qed.

Lemma menu_head xs : Forall block_ok xs -> exists c r, show_menu xs ++ 0 :: zeros = c :: r /\ (c = 47 \/ c = 0).
Proof.
  intros [|x xs' Hx _]; [by eexists _, _; split; [|right]|].
  destruct (block_quiet x Hx) as (c & s & b & E & _). unfold show_menu. rewrite fmap_cons, mjoin_cons, E.
  eexists _, _. split; [done|]. by left.
Qed.

(** The body of an entry. *)
Lemma entry_text i x : blocks !! i = Some x ->
  config_get_entry menu_text i = Ret (Some (x.2.(body) ++ show_menu (drop (S i) blocks) ++ 0 :: zeros, length x.2.(body))).
Proof.
  intros Ex. unfold config_get_entry. rewrite find_entry_text, Ex. cbn [mbind outcome_bind fmap option_fmap option_map].
  pose proof (Forall_lookup_1 _ _ _ _ Hb Ex) as Hx. destruct (block_quiet x Hx) as (c & s & b & E & Eh & Eb & H10 & H0 & Hq & _).
  rewrite E, Eb. cbn [drop app]. rewrite <- app_assoc. cbn [app].
  rewrite to_newline_spec by set_solver. cbn [mbind outcome_bind].
  change (10 :: b ++ ?t) with ((10 :: b) ++ t). rewrite entry_size_spec; [done|done|]. by apply menu_head, Forall_drop.
Qed.
(** ** The tree *)

(** The byte behind the slashes. *)
Lemma header_split x : block_ok x -> exists c n, header x.1 x.2 = replicate x.1 47 ++ c :: n /\ c <> 47 /\ (0 ∉ header x.1 x.2).
Proof.
  destruct x as [d e]. intros Hx. destruct (block_quiet _ Hx) as (c0 & s & b & _ & Eh & _ & _ & H0 & _).
  destruct Hx as (_ & (c & n & En & Hc) & _). cbn [fst snd] in *.
  assert (Hnul : 0 ∉ header d e) by (rewrite Eh; set_solver).
  unfold header in *. destruct (expanded e); cbn [app] in *.
  - exists 43, (name e). done.
  - exists c, n. rewrite En in *. split_and!; [done|set_solver|done].
Qed.

Definition kind_of (d k : nat) : child :=
  if Nat.ltb k d then NOT_CHILD else if Nat.eqb k d then DIRECT_CHILD else INDIRECT_CHILD.

Lemma is_child_text d i : is_child (menu_text) d i
  = Ret (match blocks !! i with None => (NOT_CHILD, []) | Some x => (kind_of d x.1, header x.1 x.2) end).
Proof.
  unfold is_child. rewrite entry_name_text. cbn [mbind outcome_bind]. destruct (blocks !! i) as [x|] eqn:Ex; [|done].
  pose proof (Forall_lookup_1 _ _ _ _ Hb Ex) as Hx. destruct (header_split x Hx) as (c & n & Eh & Hc & H0).
  cbn [fmap option_fmap option_map]. set (h := header x.1 x.2) in *. f_equal. unfold strlen. rewrite cstring_whole by done.
  assert (Hl : length h = (x.1 + S (length n))%nat) by (rewrite Eh, length_app, length_replicate; done).
  unfold kind_of. destruct (Nat.ltb_spec x.1 d) as [Hlt|Hge].
  - split_ltb (Z.of_nat (length h)) (Z.of_nat d + 1); [done|].
    assert (forallb (fun c => c =? 47) (take d h) = false) as ->; [|done]. apply not_true_iff_false. rewrite forallb_forall.
    intros Hall. apply Hc, Z.eqb_eq, Hall. apply list_elem_of_In, list_elem_of_lookup_2 with x.1. rewrite lookup_take_lt, Eh by lia.
    rewrite lookup_app_r, length_replicate, Nat.sub_diag by (rewrite length_replicate; lia). done.
  - split_ltb (Z.of_nat (length h)) (Z.of_nat d + 1); [lia|].
    assert (forallb (fun c => c =? 47) (take d h) = true) as ->.
    { apply forallb_forall. intros z Hz. apply list_elem_of_In in Hz. rewrite Eh, take_app_le in Hz by (rewrite length_replicate; lia).
      rewrite take_replicate in Hz. apply elem_of_replicate in Hz as [-> _]. done. }
    cbn [negb]. destruct (Nat.eqb_spec x.1 d) as [Heq|Hne].
    + assert (hd0 (drop d h) = c) as ->; [|by rewrite (proj2 (Z.eqb_neq _ _) Hc)].
      rewrite Eh, <- Heq. rewrite drop_app_length' by (by rewrite length_replicate). done.
    + assert (hd0 (drop d h) = 47) as ->; [|done]. rewrite Eh. replace x.1 with (d + S (x.1 - d - 1))%nat by lia.
      rewrite replicate_add, <- app_assoc, drop_app_length' by (by rewrite length_replicate). done.
Qed.

Lemma skip_indirect d i ys fuel : (forall j y, ys !! j = Some y -> blocks !! (i + j)%nat = Some y /\ (d < y.1)%nat) ->
  create_menu_tree (length ys + fuel) menu_text d i = create_menu_tree fuel menu_text d (i + length ys).
Proof.
  revert i. induction ys as [|y ys IH]; intros i H; [by rewrite Nat.add_0_r|].
  destruct (H 0%nat y eq_refl) as [Hi Hd]. rewrite Nat.add_0_r in Hi. cbn [length Nat.add create_menu_tree].
  rewrite is_child_text, Hi. cbn [mbind outcome_bind]. unfold kind_of.
  destruct (Nat.ltb_spec y.1 d); [lia|]. destruct (Nat.eqb_spec y.1 d); [lia|].
  rewrite IH; [by rewrite <- Nat.add_succ_comm|]. intros j z Hj. specialize (H (S j) z Hj). by rewrite Nat.add_succ_comm.
Qed.
End text.

Lemma entry_blocks d e : entry_ok d e -> block_ok (d, e).
Proof. intros H. destruct H as [d e]. cbn. done. Qed.

(** Everything below an entry is deeper. *)
Lemma flatten_all_cons d e es : flatten_all d (e :: es) = (d, e) :: flatten_all (S d) e.(sub) ++ flatten_all d es.
Proof. unfold flatten_all. cbn [flat_map]. destruct e. done. Qed.

Lemma flatten_facts es d : Forall (entry_ok d) es -> Forall (fun x => block_ok x /\ (d <= x.1)%nat) (flatten_all d es).
Proof.
  remember (length (flatten_all d es)) as n eqn:En. revert d es En. induction (lt_wf n) as [n _ IH]. intros d es -> H.
  destruct H as [|e es He Hes]; [constructor|]. rewrite flatten_all_cons in *. cbn [length] in IH. rewrite length_app in IH.
  constructor; [split; [by apply entry_blocks|done]|]. apply Forall_app. split.
  - assert (Hsub : Forall (entry_ok (S d)) (sub e)) by (by destruct He).
    eapply Forall_impl; [eapply IH; [|done|exact Hsub]; lia|]. cbn. intros x [? ?]. split; [done|lia].
  - eapply IH; [|done|done]. lia.
Qed.

Lemma skip_spaces_id s : hd0 s <> 32 -> skip_spaces s = s.
Proof. destruct s as [|c s]; [done|]. cbn [hd0 skip_spaces]. intros H. by rewrite (proj2 (Z.eqb_neq _ _) H). Qed.

(** The name and the plus sign are read back from the header. *)
Lemma header_name d e : entry_ok d e ->
  (hd0 (drop d (header d e)) =? 43) = e.(expanded)
  /\ take 63 (skip_spaces (drop (d + Z.to_nat (Z.b2z e.(expanded))) (header d e))) = e.(name).
Proof.
  intros [d' e' Hd (c & n & En & Hc) _ _ Hlen _ _ _ _ _]. unfold header in *. rewrite !length_app in Hlen. assert (Hn : (length (name e') <= 63)%nat) by lia.
  rewrite <- drop_drop, drop_app_length' by (by rewrite length_replicate). rewrite En in *. destruct (expanded e'); cbn [app hd0] in *.
  - split; [done|]. cbn [Z.b2z Z.to_nat Pos.to_nat Pos.iter_op drop]. rewrite skip_spaces_id by (cbn; set_solver). by rewrite take_ge.
  - split; [apply Z.eqb_neq; set_solver|]. rewrite drop_0, skip_spaces_id by (cbn; set_solver). by rewrite take_ge.
Qed.

Section tree.
Context (g zeros : list Z) (blocks : list (nat * menu_entry)).
Context (Hg : quiet true g) (Hb : Forall block_ok blocks).
Notation text := (menu_text g zeros blocks).

Lemma drop_lookup {A} (l : list A) i x r : drop i l = x :: r -> l !! i = Some x /\ drop (S i) l = r.
Proof.
  intros E. pose proof (lookup_drop l i 0) as Hl. rewrite E, Nat.add_0_r in Hl. split; [done|].
  replace (S i) with (i + 1)%nat by lia. rewrite <- drop_drop, E. done.
Qed.

(** An entry is a directory if there is something below it. *)
Lemma is_directory_text d i es rest : Forall (entry_ok (S d)) es -> drop (S i) blocks = flatten_all (S d) es ++ rest ->
  (forall x, head rest = Some x -> (x.1 < S d)%nat) ->
  is_directory text d i = Ret (negb (bool_decide (length es = 0%nat))).
Proof.
  intros Hes E Hrest. unfold is_directory. rewrite !Nat.add_1_r, is_child_text by done. cbn [mbind outcome_bind].
  pose proof (lookup_drop blocks (S i) 0) as Hl. rewrite Nat.add_0_r in Hl. rewrite <- Hl, E.
  destruct es as [|e es].
  - cbn [flatten_all flat_map app]. destruct rest as [|x rest]; [done|]. specialize (Hrest x eq_refl).
    cbn [lookup list_lookup fst]. unfold kind_of. by rewrite (proj2 (Nat.ltb_lt _ _) Hrest).
  - rewrite flatten_all_cons. cbn [app lookup list_lookup fst]. unfold kind_of. rewrite Nat.ltb_irrefl, Nat.eqb_refl. done.
Qed.

Lemma tree_text n F d i fuel rest : length (flatten_all d F) = n -> Forall (entry_ok d) F ->
  drop i blocks = flatten_all d F ++ rest -> (forall x, head rest = Some x -> (x.1 < d)%nat) -> (length (drop i blocks) < fuel)%nat ->
  create_menu_tree fuel text d i = Ret F.
Proof.
  revert F d i fuel rest. induction (lt_wf n) as [n _ IH]. intros F d i fuel rest En HF E Hrest Hfuel.
  destruct fuel as [|fuel]; [lia|]. cbn [create_menu_tree]. rewrite is_child_text by done. cbn [mbind outcome_bind].
  destruct HF as [|e F He HF].
  { pose proof (lookup_drop blocks i 0) as Hl. rewrite Nat.add_0_r in Hl. rewrite <- Hl, E. cbn [flatten_all flat_map app].
    destruct rest as [|x rest]; [done|]. specialize (Hrest x eq_refl). cbn [lookup list_lookup]. unfold kind_of.
    by rewrite (proj2 (Nat.ltb_lt _ _) Hrest). }
  rewrite flatten_all_cons in *. cbn [app length] in *. rewrite length_app in En. destruct (drop_lookup _ _ _ _ E) as [Hi Ei].
  rewrite <- app_assoc in Ei. assert (Hsub : Forall (entry_ok (S d)) (sub e)) by (by destruct He).
  rewrite Hi. cbn [fst snd]. unfold kind_of. rewrite Nat.ltb_irrefl, Nat.eqb_refl.
  destruct (header_name d e He) as [-> ->]. rewrite (entry_text g zeros blocks Hg Hb i _ Hi). cbn [mbind outcome_bind fst snd].
  rewrite take_app_length. set (rest' := flatten_all d F ++ rest) in *.
  assert (Hrest' : forall x, head rest' = Some x -> (x.1 < S d)%nat).
  { unfold rest'. destruct F as [|e' F]; [intros x Hx; specialize (Hrest x Hx); lia|]. rewrite flatten_all_cons. intros x [= <-]. cbn. lia. }
  rewrite (is_directory_text d i (sub e) rest') by done. cbn [mbind outcome_bind].
  rewrite E in Hfuel. cbn [length] in Hfuel. rewrite <- app_assoc in Hfuel. fold rest' in Hfuel. rewrite length_app in Hfuel.
  set (dir := negb (bool_decide (length (sub e) = 0%nat))).
  assert (Hs : (if dir then create_menu_tree fuel text (d + 1) (i + 1) else Ret []) = Ret (sub e)).
  { unfold dir. case_bool_decide as Hd; cbn [negb]; [by apply nil_length_inv in Hd as ->|]. rewrite !Nat.add_1_r.
    eapply (IH (length (flatten_all (S d) (sub e)))); [lia|done|done|exact Ei|done|]. rewrite Ei, length_app. lia. }
  rewrite Hs. cbn [mbind outcome_bind].
  assert (Hn : create_menu_tree fuel text d (S i) = Ret F).
  { replace fuel with (length (flatten_all (S d) (sub e)) + (fuel - length (flatten_all (S d) (sub e))))%nat by lia.
    rewrite skip_indirect; [|done|done|].
    - eapply (IH (length (flatten_all d F))); [lia|done|done|rewrite <- drop_drop, Ei; apply drop_app_length|done|].
      rewrite <- drop_drop, Ei, drop_app_length. lia.
    - intros j y Hj. split.
      + rewrite <- lookup_drop, Ei, lookup_app_l; [done|by eapply lookup_lt_Some].
      + pose proof (flatten_facts _ _ Hsub) as Hf. apply (Forall_lookup_1 _ _ _ _ Hf) in Hj as [_ Hj]. lia. }
  rewrite Hn. cbn [mbind outcome_bind]. do 2 f_equal. destruct He as [d e _ _ _ _ _ Hexp _ _ Hcom _]. rewrite <- Hcom.
  assert (dir && expanded e = expanded e) as ->; [|by destruct e].
  unfold dir. destruct (expanded e); [|apply andb_false_r]. specialize (Hexp eq_refl). destruct (sub e); done.
Qed.
End tree.

(** A menu that is written as text, behind text without entries, is read back by
    [create_menu_tree]: the same entries, with their names, comments and bodies, below
    the same parents. *)
Theorem create_menu_tree_roundtrip (g zeros : list Z) (F : list menu_entry) (fuel : nat) :
  quiet true g -> Forall (entry_ok 1) F -> (length (flatten_all 1 F) < fuel)%nat ->
  create_menu_tree fuel (menu_text g zeros (flatten_all 1 F)) 1 0 = Ret F.
Proof.
  intros Hg HF Hfuel. eapply (tree_text g zeros _ Hg); [|done|done|by rewrite drop_0, app_nil_r|done|by rewrite drop_0].
  eapply Forall_impl; [by apply flatten_facts|]. by intros x [].
Qed.

Definition demo_menu : list menu_entry :=
  [ {| name := str "Linux"; comment := Some (str "hi"); expanded := true; body := [10] ++ str "comment: hi" ++ [10];
       sub := [ {| name := str "A/B"; comment := None; expanded := false; body := [10] ++ str "path: /x" ++ [10]; sub := [] |} ] |};
    {| name := str "Other"; comment := None; expanded := false; body := [10]; sub := [] |} ].

Lemma create_menu_tree_roundtrip_witness :
  create_menu_tree 5 (str "timeout: 3" ++ [10] ++ str "/+Linux" ++ [10] ++ str "comment: hi" ++ [10] ++ str "//A/B" ++ [10] ++ str "path: /x" ++ [10]
    ++ str "/Other" ++ [10] ++ [0; 0]) 1 0 = Ret demo_menu.
Proof.
  apply (create_menu_tree_roundtrip (str "timeout: 3" ++ [10]) [0] demo_menu 5).
  - cbn. split_and!; done || lia || (intros []; done).
  - repeat constructor; try done; try (by apply (bool_decide_unpack _); vm_compute); try (by vm_compute; lia);
      try (eexists _, _; split; [done|by apply (bool_decide_unpack _); vm_compute]); try (by eexists);
      try (by intros []); try (intros [_ ?]; done).
  - by vm_compute; lia.
Defined.

(** * Reading the configuration as a whole

    [init_config]: the checksum that is enrolled, the menu and the global options of a
    file, and the absence of reads outside of the configuration. *)

(** ** The checksum *)

Definition hex_digit (d : Z) : Z := if d <? 10 then 48 + d else 97 + (d - 10).
Definition to_hex (bs : list Z) : list Z := flat_map (fun b => [hex_digit (b / 16); hex_digit (b mod 16)]) bs.

Lemma digit_hex d : 0 <= d < 16 -> digit_to_int (hex_digit d) = d.
Proof. intros H. unfold digit_to_int, hex_digit. repeat case_b; cbn [andb]; lia. Qed.

Lemma parse_to_hex bs : Forall is_byte bs -> parse_hash (length bs) (to_hex bs) = bs.
Proof.
  intros H. induction H as [|b bs Hb _ IH]; [done|]. cbn [length to_hex flat_map app parse_hash hd0 tl0].
  unfold is_byte in Hb. change (flat_map _ bs) with (to_hex bs). rewrite IH, !digit_hex by (split; [apply Z_div_pos || apply Z.mod_pos_bound|apply Z.div_lt_upper_bound || apply Z.mod_pos_bound]; lia). f_equal.
  assert (Hl : Z.lor (Z.shiftl (b / 16) 4) (b mod 16) = b).
  { apply Z.bits_inj'. intros i Hi. rewrite Z.lor_spec, Z.shiftl_spec by lia. change 16 with (2 ^ 4).
    destruct (Z.lt_ge_cases i 4).
    - rewrite Z.mod_pow2_bits_low, (Z.testbit_neg_r _ (i - 4)) by lia. done.
    - rewrite Z.mod_pow2_bits_high, <- Z.shiftr_div_pow2, Z.shiftr_spec by lia. by rewrite orb_false_r, Z.sub_add. }
  rewrite Hl. unfold u8. apply Z.mod_small. lia.
Qed.

Lemma check_b2sum_spec sum t x y editor : Z.of_nat (length t) < W64 -> sum <> CONFIG_B2SUM_EMPTY ->
  check_b2sum sum (t ++ [x; y]) (Z.of_nat (length (t ++ [x; y]))) editor
  = if bool_decide (parse_hash 64 sum = Rfc.hash t) then Ret false else Panic "!!! CHECKSUM MISMATCH FOR CONFIG FILE !!!".
Proof.
  intros Ht Hs. unfold check_b2sum. rewrite bool_decide_eq_false_2 by done. rewrite length_app.
  replace (Z.to_nat (Z.of_nat (length t + length [x; y]) - 2)) with (length t) by (cbn; lia). rewrite take_app_length.
  destruct (blake2b_rfc7693 t Ht) as [-> _]. done.
Qed.

(** C5: When the checksum of a configuration is enrolled in the boot loader, no other
    configuration is used: [init_config] returns only for a file with the same RFC 7693
    BLAKE2b digest, stops with the mismatch otherwise, and the menu's editor is
    disabled. *)
Theorem init_config_authentic (arch fw_type enrolled t : list Z) (x y : Z) (editor : bool) :
  Z.of_nat (length enrolled) < W64 -> Z.of_nat (length t) < W64 -> to_hex (Rfc.hash enrolled) <> CONFIG_B2SUM_EMPTY ->
  let r := init_config arch fw_type (to_hex (Rfc.hash enrolled)) editor (t ++ [x; y]) in
  (Rfc.hash t <> Rfc.hash enrolled -> r = Panic "!!! CHECKSUM MISMATCH FOR CONFIG FILE !!!")
  /\ (forall c, r = Ret c -> Rfc.hash t = Rfc.hash enrolled /\ editor_enabled c = false).
Proof.
  intros He Ht Hne r. unfold r, init_config. rewrite check_b2sum_spec by done.
  destruct (blake2b_rfc7693 enrolled He) as (_ & Hl & Hb). pose proof (parse_to_hex _ Hb) as Hp. rewrite Hl in Hp. unfold BLAKE2B_OUT_BYTES in Hp. rewrite Hp.
  case_bool_decide as Hc; split; [congruence| |done|done]. intros c Hr. split; [done|]. cbn [mbind outcome_bind] in Hr.
  repeat (apply bind_Ret_inv in Hr as (? & _ & Hr)). by injection Hr as <-.
Qed.

Lemma init_config_authentic_witness :
  init_config (str "x86-64") (str "BIOS") (to_hex (Rfc.hash (str "a: b"))) true (str "a: c" ++ [0; 0]) = Panic "!!! CHECKSUM MISMATCH FOR CONFIG FILE !!!"
  /\ exists c, init_config (str "x86-64") (str "BIOS") (to_hex (Rfc.hash (str "a: b"))) true (str "a: b" ++ [0; 0]) = Ret c /\ editor_enabled c = false.
Proof.
  assert (Hne : to_hex (Rfc.hash (str "a: b")) <> CONFIG_B2SUM_EMPTY) by (apply (bool_decide_unpack _); by vm_compute).
  split.
  - apply (init_config_authentic (str "x86-64") (str "BIOS") (str "a: b") (str "a: c") 0 0 true); [done|done|done|].
    apply (bool_decide_unpack _). by vm_compute.
  - exists {| config_addr := str "a: b" ++ [10] ++ replicate 19 0; menu_tree := []; editor_enabled := false |}.
    assert (E : init_config (str "x86-64") (str "BIOS") (to_hex (Rfc.hash (str "a: b"))) true (str "a: b" ++ [0; 0])
      = Ret {| config_addr := str "a: b" ++ [10] ++ replicate 19 0; menu_tree := []; editor_enabled := false |}) by (by vm_compute).
    split; [exact E|]. exact (proj2 (proj2 (init_config_authentic (str "x86-64") (str "BIOS") (str "a: b") (str "a: b") 0 0 true
      ltac:(done) ltac:(done) Hne) _ E)).
Defined.

(** ** A file with a menu *)

(** The text before the first entry is ended where its last newline is. *)
Definition end_globals (g : list Z) (F : list menu_entry) : list Z :=
  match g, F with
  | _ :: _, _ :: _ => removelast g ++ [0]
  | _, _ => g
  end.

Lemma back_to_slash_spec config k c : config !! k = Some 47 -> (forall j, (k < j <= c)%nat -> exists z, config !! j = Some z /\ z <> 47) ->
  (k <= c)%nat -> back_to_slash config c = Ret k.
Proof.
  intros Hk Hj Hc. induction c as [|c IH].
  - assert (k = 0%nat) as -> by lia. cbn [back_to_slash]. by rewrite (get_lookup _ _ _ Hk).
  - destruct (decide (k = S c)) as [->|Hne].
    + cbn [back_to_slash]. by rewrite (get_lookup _ _ _ Hk).
    + destruct (Hj (S c) ltac:(lia)) as (z & Hz & Hz47). cbn [back_to_slash]. rewrite (get_lookup _ _ _ Hz). cbn [mbind outcome_bind].
      rewrite (proj2 (Z.eqb_neq _ _) Hz47). apply IH; [|lia]. intros j Hj'. apply Hj. lia.
Qed.

Lemma cut_globals_text g zeros F : quiet true g -> Forall (entry_ok 1) F -> (forall e, head F = Some e -> 47 ∉ e.(name)) ->
  cut_globals (menu_text g zeros (flatten_all 1 F)) = Ret (end_globals g F ++ show_menu (flatten_all 1 F) ++ 0 :: zeros).
Proof.
  intros Hg HF Hn. assert (Hb : Forall block_ok (flatten_all 1 F)).
  { eapply Forall_impl; [by apply flatten_facts|]. by intros x []. }
  unfold cut_globals. destruct HF as [|e F He HF].
  { unfold config_get_entry. rewrite find_entry_text by done. cbn [mbind outcome_bind]. by destruct g. }
  rewrite (entry_text g zeros _ Hg Hb 0 (1%nat, e)) by (by rewrite flatten_all_cons). cbn [mbind outcome_bind fst snd].
  specialize (Hn e eq_refl). rewrite flatten_all_cons in *. set (text := menu_text _ _ _). set (bs := flatten_all 2 (sub e) ++ flatten_all 1 F) in *.
  cbn [drop]. set (tl := show_menu bs ++ 0 :: zeros).
  set (h := (if expanded e then [43] else []) ++ name e).
  assert (Ht : text = g ++ 47 :: h ++ body e ++ tl).
  { unfold text, menu_text, show_menu, h, tl, show_menu. rewrite fmap_cons, mjoin_cons. unfold show_entry, header. cbn [fst snd replicate app]. by rewrite <- !app_assoc. }
  assert (Hh : 47 ∉ h) by (unfold h; destruct (expanded e); set_solver).
  assert (exists b, body e = 10 :: b) as (b & Eb) by (by destruct He). rewrite drop_0. fold tl.
  replace (length text - length (body e ++ tl))%nat with (length g + S (length h))%nat
    by (rewrite Ht, !length_app; cbn [length]; rewrite !length_app; lia).
  assert (Hk : text !! length g = Some 47) by (rewrite Ht, lookup_app_r, Nat.sub_diag by lia; done).
  rewrite (back_to_slash_spec text (length g)); [|done| |lia].
  2: { intros j Hj. rewrite Ht, lookup_app_r by lia. destruct (j - length g)%nat as [|m] eqn:Em; [lia|].
       change ((47 :: ?l) !! S m) with (l !! m).
       destruct (decide (m < length h)%nat) as [Hm|Hm].
       - rewrite lookup_app_l by done. destruct (lookup_lt_is_Some_2 h m Hm) as [z Hz]. exists z. split; [done|].
         intros ->. apply Hh. by eapply list_elem_of_lookup_2.
       - rewrite lookup_app_r by lia. replace (m - length h)%nat with 0%nat by lia. rewrite Eb. exists 10. done. }
  cbn [mbind outcome_bind]. destruct g as [|z g] using rev_ind; [cbn [length end_globals]; f_equal; by rewrite Ht|]. clear IHg.
  rewrite length_app, Nat.add_1_r in *. rewrite (get_lookup _ _ _ Hk). cbn [mbind outcome_bind Z.eqb Pos.eqb].
  rewrite put_lt by (rewrite Ht, !length_app; cbn; lia). f_equal. rewrite Ht.
  assert (end_globals (g ++ [z]) (e :: F) = g ++ [0]) as ->.
  { unfold end_globals. destruct (g ++ [z]) eqn:E; [by destruct g|]. rewrite <- E, removelast_last. done. }
  rewrite <- !app_assoc. rewrite insert_app_r_alt, Nat.sub_diag by lia. cbn [insert list_insert app].
  unfold h, tl, show_menu. rewrite fmap_cons, mjoin_cons. unfold show_entry, header. cbn [fst snd replicate app]. by rewrite <- !app_assoc.
Qed.

Lemma show_menu_length xs : Forall block_ok xs -> (length xs <= length (show_menu xs))%nat.
Proof.
  intros H. induction H as [|x xs Hx _ IH]; [done|]. destruct (block_quiet x Hx) as (c & s & b & E & _).
  unfold show_menu in *. rewrite fmap_cons, mjoin_cons, E. cbn [app length]. rewrite length_app. lia.
Qed.

(** The checksum in the executable lets the text pass: there is none, or it is that of
    the text, and then the editor is disabled. *)
Definition lets_pass (sum t : list Z) (editor editor' : bool) : Prop :=
  sum = CONFIG_B2SUM_EMPTY /\ editor' = editor
  \/ sum <> CONFIG_B2SUM_EMPTY /\ Z.of_nat (length t) < W64 /\ sum = to_hex (Rfc.hash t) /\ editor' = false.

Lemma check_b2sum_pass sum t x y editor editor' : lets_pass sum t editor editor' ->
  check_b2sum sum (t ++ [x; y]) (Z.of_nat (length (t ++ [x; y]))) editor = Ret editor'.
Proof.
  intros [[-> ->]|(Hne & Ht & -> & ->)].
  - unfold check_b2sum. by rewrite bool_decide_eq_true_2.
  - rewrite check_b2sum_spec by done. destruct (blake2b_rfc7693 t Ht) as (_ & Hl & Hb). pose proof (parse_to_hex _ Hb) as Hp.
    rewrite Hl in Hp. unfold BLAKE2B_OUT_BYTES in Hp. by rewrite Hp, bool_decide_eq_true_2.
Qed.


Definition chars (s : string) : list token := Chr <$> str s.
Definition demo_file : list (list Z * bool) :=
  [(str "  timeout: ${V} ", false); (str "${V}=6", false); (str "/+Linux", true); (str "   comment: hi", false); (str "//A/B", false);
   (str "path: /x", false); (str "/Other", false)].
Definition demo_lines : list line :=
  [Def (str "V") (str "6"); Text (chars "/+Linux"); Text (chars "comment: hi"); Text (chars "//A/B"); Text (chars "path: /x"); Text (chars "/Other"); Text []].

Lemma demo_tokens s : bool_decide (Forall (fun c => c ∉ [10; 0; 36]) (str s)) = true -> line_ok (Text (chars s)).
Proof.
  intros H%bool_decide_eq_true_1. unfold chars. generalize dependent (str s). intros cs H. split.
  - induction H as [|c cs Hc _ IH]; [done|]. cbn. split_and!; [set_solver..| |done]. intros ->. set_solver.
  - intros n ts E. by destruct cs.
Qed.


(** ** What the documentation does not say *)

(** A global option behind the first entry is not found, because the text is ended
    before that entry. *)
Lemma global_behind_entry c :
  init_config (str "x86-64") (str "BIOS") CONFIG_B2SUM_EMPTY true (str "quiet: no" ++ [10] ++ str "/A" ++ [10] ++ str "timeout: 9" ++ [0; 0]) = Ret c ->
  config_get_value (config_addr c) 0 (str "TIMEOUT") = None.
Proof. intros H. vm_compute in H. injection H as <-. by vm_compute. Qed.

(** But when the file starts with an entry, the options of the entries are found as
    global ones. *)
Lemma global_within_entry c :
  init_config (str "x86-64") (str "BIOS") CONFIG_B2SUM_EMPTY true (str "/A" ++ [10] ++ str "timeout: 9" ++ [0; 0]) = Ret c ->
  fst <$> config_get_value (config_addr c) 0 (str "TIMEOUT") = Some (str "9").
Proof. intros H. vm_compute in H. injection H as <-. by vm_compute. Qed.

(** An entry without a name at the end of the file: the search for the end of its line
    starts behind the newline. *)
Lemma bare_slash : init_config (str "x86-64") (str "BIOS") CONFIG_B2SUM_EMPTY true (str "/" ++ [0; 0]) = Undef.
Proof. by vm_compute. Qed.
