(* ===== verification/ConfigSafe.v ===== *)
(** * The configuration is read within its bounds

    For any contents of the file: [init_config] ends, and reads within the text, or it
    stops with an error; the one exception is a first entry without a name.  And the
    search of the SMBIOS tables. *)

From S2P Require Import Prelude Bytes Libc LibcSpec Blake2b Blake2bSpec Config ConfigText ConfigMacro.
From S2P Require Import ConfigSpec.

(** The text ends in a newline and a NUL. *)
Definition ended (s : list Z) : Prop := exists s', s = s' ++ [10; 0].

Lemma ended_cons c s : ended s -> ended (c :: s).
Proof. intros [s' ->]. by exists (c :: s'). Qed.

Lemma ended_app s r : ended r -> ended (s ++ r).
Proof. intros [s' ->]. exists (s ++ s'). by rewrite app_assoc. Qed.

(** What is behind a byte that is not the end is ended itself. *)
Lemma ended_behind s c r : ended (s ++ c :: r) -> c <> 10 -> c <> 0 -> ended r.
Proof.
  intros [s' E] H10 H0. apply app_eq_inv in E as [(k & _ & E)|(k & _ & E)].
  - exfalso. destruct k as [|x [|y [|z k]]]; cbn in E; congruence.
  - destruct k as [|x k]; cbn in E; simplify_eq. by exists k.
Qed.

Lemma ended_tail c r : ended (c :: r) -> c <> 10 -> c <> 0 -> ended r.
Proof. apply (ended_behind []). Qed.

(** ** Stripping *)

Lemma blanks_ended (s : list Z) : (blanks (s ++ [10; 0])%Z <= length s)%nat.
Proof. induction s as [|c s IH]; [done|]. cbn [app blanks length]. destruct (is_blank c); lia. Qed.
Lemma returns_ended sol s : (returns_at sol (s ++ [10; 0])%Z <= length s)%nat.
Proof. induction s as [|c s IH]; [by destruct sol|]. cbn [app returns_at length]. destruct (_ || _); lia. Qed.
Lemma skip_ended sol s : (skip_at sol (s ++ [10; 0])%Z <= length s)%nat.
Proof. unfold skip_at. pose proof (blanks_ended s). pose proof (returns_ended sol s). destruct (_ && _); lia. Qed.

Lemma strip_ended sol s : exists out, strip_from sol (s ++ [10; 0]) = Ret out /\ ended out.
Proof.
  remember (length s) as n eqn:En. revert sol s En. induction (lt_wf n) as [n _ IH]. intros sol s ->.
  pose proof (skip_ended sol s) as Hk. set (k := skip_at sol (s ++ [10; 0])) in *.
  assert (E : drop k (s ++ [10; 0]) = drop k s ++ [10; 0]) by (by rewrite drop_app_le).
  destruct (drop k s) as [|c r] eqn:Er.
  - rewrite (strip_from_step sol _ 10 [0]) by done. exists [10; 0]. split; [done|]. by exists [].
  - rewrite (strip_from_step sol _ c (r ++ [10; 0])) by done. apply (f_equal length) in Er. rewrite length_drop in Er. cbn [length] in Er.
    destruct (IH (length r) ltac:(lia) (c =? 10) r eq_refl) as (out & -> & Ho). exists (c :: out). split; [done|by apply ended_cons].
Qed.

(** ** Macros *)

(** In a text that ends in a NUL, every name and value ends. *)
Lemma read_until_total stop limit rest : 0 ∈ stop -> last rest = Some 0 -> exists r, read_until stop limit rest = Ret r.
Proof.
  intros Hs. revert limit. induction rest as [|c rest IH]; intros limit; [done|]. intros Hl.
  destruct limit; cbn [read_until]; (case_bool_decide as Hc; [by eexists|]); [by eexists|].
  destruct rest as [|d rest]; [cbn in Hl; congruence|]. destruct (IH limit) as [r ->]; [exact Hl|]. by eexists.
Qed.

Lemma last_suffix (s r : list Z) : r <> [] -> last (s ++ r) = last r.
Proof. intros H. destruct r as [|a r _] using rev_ind; [done|]. by rewrite app_assoc, !last_snoc. Qed.

Lemma last_behind (c : Z) r : last (c :: r) = Some 0 -> c <> 0 -> r <> [] /\ last r = Some 0.
Proof. destruct r as [|d r]; [cbn; congruence|]. done. Qed.

Lemma starts_with_split s rest : starts_with s rest = true -> exists r, rest = s ++ r.
Proof.
  revert rest. induction s as [|c s IH]; intros rest; [by exists rest|]. destruct rest as [|d rest]; [done|]. cbn [starts_with].
  intros H. apply andb_true_iff in H as [->%Z.eqb_eq H]. destruct (IH _ H) as [r ->]. by exists r.
Qed.

(** The name of a macro starts within the text. *)
Lemma definition_drop first rest : is_definition first rest = true ->
  exists p, rest = p ++ drop (if first then 2 else 3) rest /\ Forall (fun c => c = 10 \/ c = 36 \/ c = 123) p /\ (exists q, p = q ++ [36] \/ p = q ++ [123]).
Proof.
  unfold is_definition. intros H. apply orb_true_iff in H as [H|H].
  - apply starts_with_split in H as [r ->]. destruct first.
    + exists [10; 36]. split_and!; [done|repeat constructor; lia|by exists [10]; left].
    + exists [10; 36; 123]. split_and!; [done|repeat constructor; lia|by exists [10; 36]; right].
  - apply andb_true_iff in H as [-> H]. apply starts_with_split in H as [r ->]. exists [36; 123].
    split_and!; [done|repeat constructor; lia|by exists [36]; right].
Qed.

Lemma definition_ended first rest : is_definition first rest = true -> ended rest -> ended (drop (if first then 2 else 3) rest).
Proof.
  intros Hd He. destruct (definition_drop _ _ Hd) as (p & E & _ & q & [-> | ->]); rewrite E in He; rewrite <- app_assoc in He;
    by apply ended_behind in He.
Qed.

Lemma definition_last first rest : is_definition first rest = true -> last rest = Some 0 -> last (drop (if first then 2 else 3) rest) = Some 0.
Proof.
  intros Hd He. destruct (definition_drop _ _ Hd) as (p & E & _ & q & [-> | ->]); rewrite E in He; rewrite <- app_assoc in He;
    (rewrite last_suffix in He by done); by apply last_behind in He as [_ He].
Qed.

Lemma nul_in_name : 0 ∈ [125; 10; 0].
Proof. set_solver. Qed.
Lemma nul_in_line : 0 ∈ [10; 0].
Proof. set_solver. Qed.

Notation fine := (total (fun _ => True)).

Definition nul_ended (s : list Z) : Prop := s = [] \/ last s = Some 0.

Lemma nul_ended_tail c s : nul_ended (c :: s) -> nul_ended s.
Proof. intros [|H]; [done|]. destruct s; [by left|by right]. Qed.

Lemma load_total fuel first rest ms : (length rest <= fuel)%nat -> nul_ended rest -> fine (load_macros fuel first rest ms).
Proof.
  revert first rest ms. induction fuel as [|fuel IH]; intros first rest ms Hf Hn.
  { destruct rest; [done|cbn in Hf; lia]. }
  destruct rest as [|c rest]; [done|]. cbn [load_macros]. cbn [length] in Hf.
  destruct (is_definition first (c :: rest)) eqn:Ed; [|apply IH; [lia|by eapply nul_ended_tail]].
  destruct Hn as [|Hn]; [done|]. pose proof (definition_last _ _ Ed Hn) as Hl.
  set (d := drop _ _) in *. destruct (read_until_total [125; 10; 0] 1023 d nul_in_name Hl) as [r Er]. rewrite Er. cbn [mbind outcome_bind].
  destruct r as [[nm r]|]; [|done]. destruct (read_until_suffix _ _ _ _ _ Er) as (a & r' & -> & Ed2).
  assert (Hlen : (length (a :: r') <= fuel)%nat).
  { apply (f_equal length) in Ed2. unfold d in Ed2. rewrite length_drop, length_app in Ed2. cbn [length] in *. destruct first; lia. }
  rewrite Ed2, last_suffix in Hl by done. cbn [get lookup list_lookup mbind outcome_bind].
  destruct ((a =? 10) || (a =? 0)) eqn:Ea; [apply IH; [lia|by right]|]. destruct (last_behind _ _ Hl ltac:(lia)) as [Hne Hl'].
  destruct r' as [|b r']; [done|]. cbn [get lookup list_lookup mbind outcome_bind].
  destruct (negb (b =? 61)) eqn:Eb; [apply IH; [lia|by right]|]. destruct (last_behind _ _ Hl' ltac:(lia)) as [Hne2 Hl2].
  cbn [drop]. rewrite drop_0. destruct (read_until_total [10; 0] 2047 r' nul_in_line Hl2) as [r Er2]. rewrite Er2. cbn [mbind outcome_bind].
  destruct r as [[v r]|]; [|done]. destruct (read_until_suffix _ _ _ _ _ Er2) as (e & r2 & -> & E3).
  apply IH; [|right; by rewrite E3, last_suffix in Hl2]. apply (f_equal length) in E3. rewrite length_app in E3. cbn [length] in *. lia.
Qed.

Lemma skip_line_ended u : ended u -> exists r, skip_line u = Ret r /\ ended r.
Proof.
  intros [s ->]. induction s as [|c s IH].
  { exists [10; 0]. split; [done|by exists []]. }
  cbn [app skip_line]. destruct ((c =? 10) || (c =? 0)); [|done]. exists (c :: s ++ [10; 0]). split; [done|]. by exists (c :: s).
Qed.

Lemma after_split c u r : after c u = Some r -> exists p, u = p ++ c :: r.
Proof.
  induction u as [|d u IH]; [done|]. cbn [after]. split_eqb d c; [intros [= ->]; exists []; by subst|].
  intros H. destruct (IH H) as [p ->]. by exists (d :: p).
Qed.

Lemma skip_definition_ended u : ended u ->
  fine (skip_definition u) /\ forall r, skip_definition u = Ret (Some r) -> ended r.
Proof.
  intros He. unfold skip_definition. destruct (after 125 u) as [r|] eqn:Ea; [|done]. destruct (after_split _ _ _ Ea) as [p ->].
  apply ended_behind in He; [|done..]. destruct r as [|c r]; [done|]. destruct (negb (c =? 61)) eqn:Ec; [done|].
  apply ended_tail in He; [|lia..]. destruct r as [|d r]; [by destruct He as [[] ?]|].
  destruct (skip_line_ended _ He) as (r2 & -> & Hr). split; [done|]. by intros r' [= <-].
Qed.

Lemma expand_ended fuel ms first rest room : (length rest <= fuel)%nat -> ended rest \/ rest = [0] ->
  fine (expand_loop fuel ms first rest room)
  /\ forall out, expand_loop fuel ms first rest room = Ret out -> ended rest -> ended out.
Proof.
  revert first rest room. induction fuel as [|fuel IH]; intros first rest room Hf He.
  { destruct He as [[s ->]| ->]; [rewrite length_app in Hf; cbn in Hf; lia|cbn in Hf; lia]. }
  destruct (decide (rest = [0])) as [->|Hne].
  { cbn [expand_loop]. assert (is_definition first [0] = false) as -> by (by destruct first). cbn [mbind outcome_bind starts_with Z.eqb andb].
    destruct (room <=? 0); [done|]. destruct fuel; (split; [done|]); intros out _ [s E]; by destruct s as [|? [|]]. }
  destruct He as [He|]; [|done]. destruct rest as [|c rest]; [by destruct He as [[] ?]|]. cbn [expand_loop]. cbn [length] in Hf.
  set (df := if is_definition first (c :: rest) then _ else _).
  assert (Hdf : fine df /\ forall r, df = Ret (Some r) -> ended r /\ (length r <= fuel)%nat).
  { unfold df. destruct (is_definition first (c :: rest)) eqn:Ed; [|done]. destruct (skip_definition_ended _ (definition_ended _ _ Ed He)) as [H1 H2].
    split; [done|]. intros r Hr. split; [by apply H2|]. apply skip_definition_shorter in Hr. rewrite length_drop in Hr. cbn [length] in Hr. lia. }
  destruct Hdf as [H1 H2]. destruct df as [[r|]| | |]; try done; cbn [mbind outcome_bind].
  { destruct (H2 r eq_refl) as [Hr Hlen]. destruct (IH false r room Hlen ltac:(by left)) as [IH1 IH2]. split; [done|]. intros out Ho _. by apply IH2. }
  destruct (starts_with [36; 123] (c :: rest)) eqn:Es.
  - apply starts_with_split in Es as [r E]. rewrite E in *. cbn [app drop]. rewrite drop_0.
    assert (Hr : ended r) by (do 2 (apply ended_tail in He; [|done..]); done).
    assert (Hrl : last r = Some 0) by (destruct Hr as [s ->]; by rewrite last_suffix).
    destruct (read_until_total [125; 10; 0] 1023 r nul_in_name Hrl) as [o Eo]. rewrite Eo. cbn [mbind outcome_bind].
    destruct o as [[nm r2]|]; [|done]. destruct (read_until_suffix _ _ _ _ _ Eo) as (a & r3 & -> & ->).
    cbn [get lookup list_lookup mbind outcome_bind drop]. rewrite drop_0. destruct (negb (a =? 125)) eqn:Ea; [done|].
    assert (Hr3 : ended r3) by (eapply ended_behind; [exact Hr|lia|lia]).
    assert (Hlen : (length r3 <= fuel)%nat).
    { apply (f_equal length) in E. cbn [length app] in E. rewrite length_app in E. cbn [length] in E. lia. }
    destruct (room <? _); [done|]. destruct (IH false r3 (room - Z.of_nat (length (lookup_macro ms nm))) Hlen ltac:(by left)) as [IH1 IH2].
    destruct (expand_loop fuel ms false r3 _) as [out| | |]; try done. split; [done|]. intros o' [= <-] _. apply ended_app. by apply IH2.
  - destruct (room <=? 0); [done|].
    assert (Hrest : ended rest \/ rest = [0]).
    { destruct He as [[|x s] E]; cbn in E; simplify_eq; [by right|]. left. by exists s. }
    destruct (IH false rest (room - 1) ltac:(lia) Hrest) as [IH1 IH2].
    destruct (expand_loop fuel ms false rest _) as [out| | |] eqn:Eo; try done. split; [done|]. intros o' [= <-] _. destruct Hrest as [Hr| ->].
    + apply ended_cons. by apply IH2.
    + destruct He as [[|x [|y s]] E]; cbn in E; simplify_eq; [|by destruct s]. destruct fuel; [done|].
      cbn [expand_loop mbind outcome_bind starts_with Z.eqb andb is_definition orb] in Eo. destruct (room - 1 <=? 0); [done|].
      destruct fuel; cbn in Eo; simplify_eq; by exists [].
Qed.

(** ** Entries *)

Section entries.
Context (zeros : list Z).
Notation close s := (s ++ 10 :: 0 :: zeros).

Lemma find_entry_fine i sol s : exists r, find_entry i sol (close s) = Ret r
  /\ forall p, r = Some p -> (exists s', p = close s') /\ (i + length p < length (close s))%nat.
Proof.
  revert i sol. induction s as [|c s IH]; intros i sol; [by exists None|]. cbn [app find_entry length].
  assert (Hrec : forall i sol, exists r, find_entry i sol (close s) = Ret r
    /\ forall p, r = Some p -> (exists s', p = close s') /\ (S i + length p < S (length (close s)))%nat).
  { intros i' sol'. destruct (IH i' sol') as (r & E & H). exists r. split; [done|]. intros p Hp. destruct (H p Hp). split; [done|lia]. }
  assert (Hweak : forall i sol, exists r, find_entry i sol (close s) = Ret r
    /\ forall p, r = Some p -> (exists s', p = close s') /\ (i + length p < S (length (close s)))%nat).
  { intros i' sol'. destruct (Hrec i' sol') as (r & E & H). exists r. split; [done|]. intros p Hp. destruct (H p Hp). split; [done|lia]. }
  destruct (c =? 47).
  - destruct sol; [|done]. destruct i as [|i]; [|by apply Hrec]. eexists. split; [done|]. intros p [= <-]. split; [by eexists|lia].
  - destruct (c =? 0); [by exists None|]. apply Hweak.
Qed.

Lemma copy_line_fine n s : exists l, copy_line n (close s) = Ret l.
Proof.
  revert n. induction s as [|c s IH]; intros [|n]; try (by eexists). cbn [app copy_line].
  destruct (c =? SEPARATOR); [by eexists|]. destruct (IH n) as [l ->]. by eexists.
Qed.

(** An entry whose name has more than the slash. *)
Lemma long_name n p l : copy_line n (47 :: p) = Ret l -> (2 <= length (cstring l))%nat -> exists c p', p = c :: p' /\ c <> 10 /\ c <> 0.
Proof.
  destruct n as [|n]; [by intros [= <-]; cbn; lia|]. cbn [copy_line]. change (47 =? SEPARATOR) with false. cbv iota.
  intros H. apply bind_Ret_inv in H as (l' & H & [= <-]). cbn [cstring Z.eqb length]. intros Hl.
  destruct n as [|n]; [injection H as <-; cbn in Hl; lia|]. destruct p as [|c p]; [done|]. cbn [copy_line] in H. exists c, p. split; [done|].
  unfold SEPARATOR in H. split_eqb c 10; [injection H as <-; cbn in Hl; lia|]. split; [done|]. intros ->.
  apply bind_Ret_inv in H as (l2 & H & [= <-]). cbn in Hl. lia.
Qed.

Lemma is_child_fine d i s : exists k nm, is_child (close s) d i = Ret (k, nm)
  /\ (k <> NOT_CHILD -> (i < length (close s))%nat)
  /\ (k = DIRECT_CHILD -> (1 <= d)%nat -> exists c s', find_entry i true (close s) = Ret (Some (c :: close s')) /\ c <> 10 /\ c <> 0).
Proof.
  unfold is_child, config_get_entry_name. destruct (find_entry_fine i true s) as (r & -> & Hr). cbn [mbind outcome_bind].
  destruct r as [p|]; [|by eexists _, _]. destruct (Hr p eq_refl) as [[s' ->] Hlen].
  destruct (copy_line_fine 63 (47 :: s')) as [l El]. cbn [Nat.sub]. change (47 :: close s') with (close (47 :: s')). rewrite El. cbn [mbind outcome_bind].
  assert (Hi : (i < length (close s))%nat) by lia. unfold strlen. set (b := cstring l).
  destruct (Z.of_nat (length (cstring b)) <? Z.of_nat d + 1) eqn:El2; [by eexists _, _|].
  destruct (negb _); [by eexists _, _|]. assert (Hd : (1 <= d)%nat -> (2 <= length (cstring l))%nat).
  { intros H. apply Z.ltb_ge in El2. assert (cstring b = b) as Eb; [|rewrite Eb in El2; unfold b in *; lia].
    unfold b. clear. induction l as [|c l IH]; [done|]. cbn [cstring]. destruct (c =? 0) eqn:E; [done|]. cbn [cstring]. by rewrite E, IH. }
  destruct (hd0 _ =? 47); (eexists _, _; split; [done|]; split; [done|]); [done|]. intros _ H.
  destruct (long_name _ _ _ El (Hd H)) as (c & p' & E & H10 & H0). destruct s' as [|x s']; cbn in E; simplify_eq. by exists c, s'.
Qed.

Lemma to_newline_fine s : exists s', to_newline (close s) = Ret (10 :: s' ++ 0 :: zeros).
Proof.
  induction s as [|c s IH]; [by exists []|]. cbn [app to_newline]. split_eqb c 10; [|done]. subst c. exists (s ++ [10]). by rewrite <- app_assoc.
Qed.

Lemma entry_size_fine prev s : exists n, entry_size prev (s ++ 0 :: zeros) = Ret n.
Proof.
  revert prev. induction s as [|c s IH]; intros prev; [by eexists|]. cbn [app entry_size]. destruct (c =? 0); [by eexists|].
  destruct (_ && _); [by eexists|]. destruct (IH c) as [n ->]. by eexists.
Qed.

Lemma get_entry_fine i s c s' : find_entry i true (close s) = Ret (Some (c :: close s')) ->
  exists r n, config_get_entry (close s) i = Ret (Some (r, n)).
Proof.
  intros E. unfold config_get_entry. rewrite E. cbn [mbind outcome_bind]. destruct (to_newline_fine s') as [u ->]. cbn [mbind outcome_bind].
  change (10 :: u ++ 0 :: zeros) with ((10 :: u) ++ 0 :: zeros). destruct (entry_size_fine 0 (10 :: u)) as [n ->]. by eexists _, _.
Qed.

Lemma menu_tree_fine fuel s d i : (1 <= d)%nat -> (i <= length (close s))%nat -> (length (close s) < fuel + i)%nat ->
  fine (create_menu_tree fuel (close s) d i).
Proof.
  revert d i. induction fuel as [|fuel IH]; intros d i Hd Hi Hf; [lia|]. cbn [create_menu_tree].
  destruct (is_child_fine d i s) as (k & nm & -> & Hk & Hdir). cbn [mbind outcome_bind].
  destruct k; [done| |apply IH; [done|specialize (Hk ltac:(done)); lia|lia]].
  destruct (Hdir eq_refl Hd) as (c & s' & Ef & _). destruct (get_entry_fine _ _ _ _ Ef) as (r & n & ->). cbn [mbind outcome_bind].
  specialize (Hk ltac:(done)). unfold is_directory. destruct (is_child_fine (d + 1) (i + 1) s) as (k2 & nm2 & -> & _). cbn [mbind outcome_bind fst].
  destruct k2; cbn [mbind outcome_bind]; [|apply total_bind; [apply IH; lia|intros sb _]|done].
  all: apply total_bind; [apply IH; lia|done].
Qed.
End entries.

(** The text that the menu is read from. *)
Definition config_text (arch fw_type config : list Z) : outcome (list Z) :=
  config ← put config (length config - 2) 10;
  config ← strip config;
  expand_macros arch fw_type config.

(** The first entry is a slash and nothing else. *)
Definition nameless_entry (text : list Z) : Prop := exists p, find_entry 0 true text = Ret (Some (10 :: p)).

Lemma config_text_fine arch fw_type t : 
  fine (config_text arch fw_type (t ++ [0; 0]))
  /\ forall text, config_text arch fw_type (t ++ [0; 0]) = Ret text -> exists s zeros, text = s ++ 10 :: 0 :: zeros.
Proof.
  unfold config_text. rewrite put_lt by (rewrite length_app; cbn; lia). cbn [mbind outcome_bind].
  rewrite length_app, Nat.add_sub, insert_app_r_alt, Nat.sub_diag by (cbn; lia). cbn [insert list_insert].
  change (strip (t ++ [10; 0])) with (strip_from true (t ++ [10; 0])). destruct (strip_ended true t) as (c & -> & Hc). cbn [mbind outcome_bind].
  unfold expand_macros. assert (Hn : nul_ended c) by (right; destruct Hc as [s ->]; by rewrite last_suffix).
  pose proof (load_total (length c) true c (builtin_macros arch fw_type) ltac:(done) Hn) as Hl.
  destruct (load_macros _ _ _ _) as [ms| | |]; try done. cbn [mbind outcome_bind]. destruct (_ <? _); [done|].
  destruct (expand_ended (length c) ms true c (Z.of_nat (length c) * 4) ltac:(done) ltac:(by left)) as [He1 He2].
  destruct (expand_loop _ _ _ _ _) as [out| | |]; try done. cbn [mbind outcome_bind]. split; [done|]. intros text [= <-].
  destruct (He2 out eq_refl Hc) as [s ->]. eexists s, _. by rewrite <- app_assoc.
Qed.

Lemma cut_globals_fine s zeros : ~ nameless_entry (s ++ 10 :: 0 :: zeros) -> fine (cut_globals (s ++ 10 :: 0 :: zeros)).
Proof.
  intros Hn. set (text := s ++ _) in *. unfold cut_globals. destruct (find_entry_fine zeros 0 true s) as (r & E & Hr). fold text in E, Hr.
  destruct r as [p|]; [|unfold config_get_entry; by rewrite E]. destruct (Hr p eq_refl) as [[s' ->] _].
  destruct s' as [|c s']; [destruct Hn; by eexists|]. destruct (get_entry_fine zeros 0 s c s' E) as (q & n & Eq). fold text in Eq. rewrite Eq. cbn [mbind outcome_bind].
  assert (Hq : (1 <= length q)%nat).
  { unfold config_get_entry in Eq. rewrite E in Eq. cbn [mbind outcome_bind app] in Eq. destruct (to_newline_fine zeros s') as [u Eu]. rewrite Eu in Eq.
    cbn [mbind outcome_bind] in Eq. destruct (entry_size _ _); [|done..]. injection Eq as <- _. cbn. lia. }
  assert (Hlen : (1 <= length text)%nat) by (unfold text; rewrite length_app; cbn; lia).
  assert (Hb : forall c, (c < length text)%nat -> exists k, back_to_slash text c = Ret k /\ (k <= c)%nat).
  { clear -text. induction c as [|c IH]; intros Hc; cbn [back_to_slash]; destruct (lookup_lt_is_Some_2 _ _ Hc) as [b Hb];
      rewrite (get_lookup _ _ _ Hb); cbn [mbind outcome_bind]; (destruct (b =? 47); [by eexists|]); [by eexists|].
    destruct IH as (k & -> & Hk); [lia|]. exists k. split; [done|lia]. }
  destruct (Hb (length text - length q)%nat) as (k & -> & Hk); [lia|]. cbn [mbind outcome_bind]. destruct k as [|k]; [done|].
  apply total_bind; [apply total_get; lia|]. intros b _. destruct (b =? 47); [apply total_put; lia|done].
Qed.

(** C13: Whatever the configuration file holds, [init_config] ends, and reads and writes only
    the text: it returns the configuration or stops with an error, unless the first
    entry of the text is a slash without a name. *)
Theorem init_config_safe (arch fw_type sum t : list Z) (editor : bool) : Z.of_nat (length t) < W64 ->
  (forall text, config_text arch fw_type (t ++ [0; 0]) = Ret text -> ~ nameless_entry text) ->
  fine (init_config arch fw_type sum editor (t ++ [0; 0])).
Proof.
  intros Ht Hn. unfold init_config. apply total_bind.
  { unfold check_b2sum. case_bool_decide; [done|]. rewrite length_app.
    replace (Z.to_nat (Z.of_nat (length t + length [0; 0]) - 2)) with (length t) by (cbn; lia). rewrite take_app_length.
    destruct (blake2b_rfc7693 t Ht) as [-> _]. cbn [mbind outcome_bind]. by case_bool_decide. }
  intros ed _. destruct (config_text_fine arch fw_type t) as [Hf Hs]. unfold config_text in *.
  destruct (put _ _ _) as [c1| | |]; try done. cbn [mbind outcome_bind] in *. destruct (strip c1) as [c2| | |]; try done. cbn [mbind outcome_bind] in *.
  destruct (expand_macros _ _ c2) as [text| | |]; try done. cbn [mbind outcome_bind]. destruct (Hs text eq_refl) as (s & zeros & ->).
  specialize (Hn _ eq_refl). apply total_bind; [apply menu_tree_fine; lia|]. intros m _.
  apply total_bind; [by apply cut_globals_fine|done].
Qed.

Lemma init_config_safe_witness : fine (init_config (str "x86-64") (str "BIOS") CONFIG_B2SUM_EMPTY true (str "//x" ++ [10] ++ str "/${ARCH}" ++ [0; 0])).
Proof.
  apply (init_config_safe (str "x86-64") (str "BIOS") CONFIG_B2SUM_EMPTY (str "//x" ++ [10] ++ str "/${ARCH}") true); [done|].
  intros text Ht. vm_compute in Ht. injection Ht as <-. intros [p Hp]. vm_compute in Hp. discriminate Hp.
Defined.
