(* ===== verification/ConfigSmbios.v ===== *)
(** * The configuration in the SMBIOS tables

    The search for an OEM string that holds a configuration: it is found behind any
    number of other structures, and an empty one makes the search go on for ever. *)

From S2P Require Import Prelude Bytes Libc LibcSpec Config.

(** A structure: the formatted area, whose second byte is its length, and the strings,
    which end where two NULs follow each other for the first time. *)
Record smbios_struct := { formatted : list Z; strings : list Z }.
Definition struct_bytes (s : smbios_struct) : list Z := formatted s ++ strings s.

(** No two NULs follow each other, but at the end. *)
Fixpoint area_ok (a : list Z) : Prop :=
  match a with
  | x :: (y :: r) as a' => if (x =? 0) && (y =? 0) then r = [] else area_ok a'
  | _ => False
  end.

Definition struct_ok (s : smbios_struct) : Prop :=
  formatted s !! 1%nat = Some (Z.of_nat (length (formatted s))) /\ 4 <= Z.of_nat (length (formatted s)) /\ area_ok (strings s).

Definition struct_type (s : smbios_struct) : Z := hd0 (formatted s).
Definition has_config (s : smbios_struct) : bool :=
  (struct_type s =? 11) && (14 <? Z.of_nat (length (strings s))) && (strncmp (strings s) config_prefix 14 =? 0).

Lemma string_area_step i max x y r : string_area_end i max (x :: y :: r)
  = if max <=? i then Ret i else if negb (x =? 0) || negb (y =? 0) then string_area_end (i + 1) max (y :: r) else Ret i.
Proof. done. Qed.

Lemma area_end i max a r : area_ok a -> i + Z.of_nat (length a) - 1 <= max -> 
  (i + Z.of_nat (length a) - 2 < max -> string_area_end i max (a ++ r) = Ret (i + Z.of_nat (length a) - 2)).
Proof.
  revert i. induction a as [|x a IH]; intros i; [done|]. intros Ha Hm Hlt. destruct a as [|y a]; [done|].
  cbn [app]. rewrite string_area_step. cbn [length] in *. split_leb max i; [lia|].
  change (if (x =? 0) && (y =? 0) then a = [] else area_ok (y :: a)) in Ha.
  change (y :: a ++ r) with ((y :: a) ++ r). destruct (x =? 0) eqn:Ex, (y =? 0) eqn:Ey; cbn [andb negb orb] in *.
  { subst a. f_equal. cbn [length]. lia. }
  all: rewrite IH by (done || (cbn [length]; lia)); f_equal; cbn [length]; lia.
Qed.

Lemma area_length a : area_ok a -> (2 <= length a)%nat.
Proof. destruct a as [|x [|y a]]; cbn; done || lia. Qed.

Lemma struct_size_spec s rest remaining : struct_ok s -> Z.of_nat (length (struct_bytes s)) <= remaining ->
  smbios_struct_size (struct_bytes s ++ rest) remaining = Ret (Z.of_nat (length (struct_bytes s))).
Proof.
  intros (Hl & H4 & Ha) Hr. unfold struct_bytes in *. rewrite length_app in *. pose proof (area_length _ Ha).
  unfold smbios_struct_size, smbios_struct_header_size. split_ltb remaining 4; [lia|].
  rewrite <- app_assoc. rewrite (get_lookup _ 1 (Z.of_nat (length (formatted s)))) by (rewrite lookup_app_l by lia; done).
  cbn [mbind outcome_bind]. case_b; [lia|]. case_b; [lia|]. rewrite Nat2Z.id, drop_app_length, area_end by (done || lia). cbn [mbind outcome_bind].
  case_b; [lia|]. f_equal. lia.
Qed.

(** [strncmp] with a prefix looks at the strings only. *)
Lemma strncmp_app a r p n : (n <= length a)%nat -> strncmp (a ++ r) p n = strncmp a p n.
Proof.
  revert a p. induction n as [|n IH]; intros a p H; [done|]. destruct a as [|c a]; [cbn in H; lia|]. cbn [app strncmp hd0 tl0].
  rewrite IH by (cbn in H; lia). done.
Qed.

(** What the search does with the structure it is at. *)
Lemma smbios_step fuel s rest num count total processed : struct_ok s -> struct_type s <> 127 ->
  (count = 0 \/ num < count) -> processed + Z.of_nat (length (struct_bytes s)) <= total ->
  smbios_loop (S fuel) (struct_bytes s ++ rest) num count total processed
  = if has_config s then
      let total_len := Z.min (strlen (strings s ++ rest)) (Z.of_nat (length (strings s))) in
      if total_len <=? 14 then smbios_loop fuel (struct_bytes s ++ rest) (num + 1) count total processed
      else Ret (Some (slice 14 (Z.to_nat (total_len - 14 + 2 - 1)) (strings s ++ rest) ++ [0]))
    else
      if total <=? processed + Z.of_nat (length (struct_bytes s)) then Ret None
      else smbios_loop fuel rest (num + 1) count total (processed + Z.of_nat (length (struct_bytes s))).
Proof.
  intros Hok Ht Hn Hp. pose proof Hok as (Hl & H4 & Ha). pose proof (area_length _ Ha) as Ha2.
  assert (Hlen : length (struct_bytes s) = (length (formatted s) + length (strings s))%nat) by (apply length_app).
  assert (H0 : (struct_bytes s ++ rest) !! 0%nat = Some (struct_type s)).
  { unfold struct_bytes, struct_type. rewrite <- app_assoc. destruct (formatted s); [cbn in H4; lia|done]. }
  assert (H1 : (struct_bytes s ++ rest) !! 1%nat = Some (Z.of_nat (length (formatted s)))).
  { unfold struct_bytes. rewrite <- app_assoc, lookup_app_l by lia. done. }
  assert (Hd : drop (length (formatted s)) (struct_bytes s ++ rest) = strings s ++ rest).
  { unfold struct_bytes. by rewrite <- app_assoc, drop_app_length. }
  pose proof (struct_size_spec s rest (total - processed) Hok ltac:(lia)) as Hsz. pose proof (drop_app_length (struct_bytes s) rest) as Hd2.
  unfold has_config. set (hdr := struct_bytes s ++ rest) in *. set (n := length (struct_bytes s)) in *. clearbody hdr n.
  cbn [smbios_loop]. assert (negb (count =? 0) && negb (num <? count) = false) as -> by lia.
  unfold smbios_struct_header_size. split_ltb (total - processed) 4; [lia|].
  rewrite (get_lookup _ _ _ H0). cbn [mbind outcome_bind]. rewrite (proj2 (Z.eqb_neq _ _) Ht), Hsz. cbn [mbind outcome_bind].
  split_eqb (Z.of_nat n) 0; [lia|]. rewrite (get_lookup _ _ _ H1). cbn [mbind outcome_bind]. rewrite Nat2Z.id, Hd.
  replace (Z.of_nat n - Z.of_nat (length (formatted s))) with (Z.of_nat (length (strings s))) by lia.
  change (Z.of_nat (length config_prefix)) with 14. change (length config_prefix) with 14%nat. rewrite Nat2Z.id, Hd2.
  rewrite (proj2 (Z.leb_le 4 _) H4), andb_true_r. split_ltb 14 (Z.of_nat (length (strings s))); [|by rewrite andb_false_r].
  by rewrite strncmp_app by lia.
Qed.

Fixpoint smbios_size (ss : list smbios_struct) : Z :=
  match ss with [] => 0 | s :: ss => Z.of_nat (length (struct_bytes s)) + smbios_size ss end.

Lemma smbios_pass_all ss fuel rest num count total processed :
  Forall (fun s => struct_ok s /\ struct_type s <> 127 /\ has_config s = false) ss ->
  (count = 0 \/ num + Z.of_nat (length ss) <= count) -> processed + smbios_size ss < total ->
  smbios_loop (length ss + fuel) (mjoin (struct_bytes <$> ss) ++ rest) num count total processed
  = smbios_loop fuel rest (num + Z.of_nat (length ss)) count total (processed + smbios_size ss).
Proof.
  intros H. revert num processed. induction H as [|s ss (Hok & Ht & Hc) _ IH]; intros num processed Hn Hp.
  { cbn [length Nat.add smbios_size]. by rewrite !Z.add_0_r. }
  cbn [length Nat.add smbios_size] in *. rewrite fmap_cons. change (mjoin (?a :: ?l)) with (a ++ mjoin l). rewrite <- app_assoc.
  assert (Hpos : 0 <= smbios_size ss) by (clear; induction ss; cbn [smbios_size]; lia).
  rewrite smbios_step, Hc by (done || lia). split_leb total (processed + Z.of_nat (length (struct_bytes s))); [lia|].
  rewrite IH by lia. f_equal; lia.
Qed.

Lemma strlen_app s r : 0 ∉ s -> strlen (s ++ 0 :: r) = Z.of_nat (length s).
Proof.
  unfold strlen. intros H. f_equal. induction s as [|c s IH]; [done|]. apply not_elem_of_cons in H as [Hc H]. cbn [app cstring length].
  rewrite (proj2 (Z.eqb_neq c 0)) by done. cbn [length]. by rewrite IH.
Qed.

(** A configuration in the SMBIOS tables is found: the first string of an OEM strings
    structure, behind any structures that do not hold one, is handed to [init_config]
    without its prefix and with the two bytes that it needs. *)
Theorem smbios_config_found (ss : list smbios_struct) (s : smbios_struct) (text strings' rest : list Z) (count total : Z) (fuel : nat) :
  Forall (fun s => struct_ok s /\ struct_type s <> 127 /\ has_config s = false) ss ->
  struct_ok s -> struct_type s = 11 -> strings s = config_prefix ++ text ++ 0 :: strings' -> 0 ∉ text -> text <> [] ->
  (count = 0 \/ Z.of_nat (length ss) < count) -> smbios_size (ss ++ [s]) <= total ->
  smbios_loop (S (length ss) + fuel) (mjoin (struct_bytes <$> (ss ++ [s])) ++ rest) 0 count total 0 = Ret (Some (text ++ [0; 0])).
Proof.
  intros Hss Hok Ht Hs H0 Hne Hc Htot. assert (Hsz : smbios_size (ss ++ [s]) = smbios_size ss + Z.of_nat (length (struct_bytes s))).
  { clear. induction ss as [|a ss IH]; cbn [app smbios_size]; lia. }
  assert (Hpos : (2 <= length (struct_bytes s))%nat).
  { destruct Hok as (_ & _ & Ha). apply area_length in Ha. unfold struct_bytes. rewrite length_app. lia. }
  rewrite fmap_app, join_app, <- app_assoc. replace (S (length ss) + fuel)%nat with (length ss + S fuel)%nat by lia.
  rewrite smbios_pass_all by (done || lia). change (mjoin (struct_bytes <$> [s])) with (struct_bytes s ++ []). rewrite app_nil_r.
  assert (Hl : (1 <= length text)%nat) by (destruct text; [done|cbn; lia]).
  rewrite smbios_step by (done || lia). unfold has_config. rewrite Ht, Hs. rewrite !length_app.
  change (length config_prefix) with 14%nat. cbn [length]. split_ltb 14 (Z.of_nat (14 + (length text + S (length strings')))); [|lia].
  rewrite (strncmp_app config_prefix) by (by apply Nat.leb_le). change (strncmp config_prefix config_prefix 14 =? 0) with true. cbn [andb Z.eqb Pos.eqb]. cbv zeta.
  assert (Hlen : strlen ((config_prefix ++ text ++ 0 :: strings') ++ rest) = 14 + Z.of_nat (length text)).
  { rewrite <- !app_assoc, app_assoc. cbn [app]. rewrite strlen_app, length_app; [change (length config_prefix) with 14%nat; lia|].
    rewrite not_elem_of_app. split; [|done]. apply (bool_decide_unpack _). by vm_compute. }
  rewrite Hlen, Z.min_l by lia. case_b; [lia|]. do 2 f_equal. unfold slice. rewrite <- !app_assoc.
  rewrite drop_app_length' by done. replace (Z.to_nat (14 + Z.of_nat (length text) - 14 + 2 - 1)) with (length text + 1)%nat by lia.
  rewrite take_app_add. cbn [app take]. by rewrite <- app_assoc.
Qed.

Lemma smbios_config_found_witness :
  smbios_loop 2 ([1; 4; 0; 0; 0; 0] ++ [11; 5; 1; 0; 1] ++ str "limine:config:a: b" ++ [0; 0]) 0 0 31 0 = Ret (Some (str "a: b" ++ [0; 0])).
Proof.
  apply (smbios_config_found [{| formatted := [1; 4; 0; 0]; strings := [0; 0] |}]
    {| formatted := [11; 5; 1; 0; 1]; strings := config_prefix ++ str "a: b" ++ [0; 0] |} (str "a: b") [0] [] 0 31 0).
  - constructor; [|constructor]. split_and!; [|done|done]. by split_and!.
  - by split_and!.
  - done.
  - done.
  - apply (bool_decide_unpack _). by vm_compute.
  - done.
  - by left.
  - by apply Z.leb_le.
Defined.

(** ** An empty configuration *)

(** The search does not leave a structure whose first string is the prefix and nothing
    else, and only a count of the structures ends it. *)
Lemma smbios_empty_config (s : smbios_struct) (strings' rest : list Z) (total num : Z) (fuel : nat) :
  struct_ok s -> struct_type s = 11 -> strings s = config_prefix ++ 0 :: strings' -> Z.of_nat (length (struct_bytes s)) <= total ->
  smbios_loop fuel (struct_bytes s ++ rest) num 0 total 0 = Diverge.
Proof.
  intros Hok Ht Hs Htot. revert num. induction fuel as [|fuel IH]; intros num; [done|].
  rewrite smbios_step by (done || lia). unfold has_config. rewrite Ht, Hs, !length_app. change (length config_prefix) with 14%nat. cbn [length].
  split_ltb 14 (Z.of_nat (14 + S (length strings'))); [|lia].
  rewrite (strncmp_app config_prefix) by (by apply Nat.leb_le). change (strncmp config_prefix config_prefix 14 =? 0) with true. cbn [andb Z.eqb Pos.eqb]. cbv zeta.
  assert (Hlen : strlen ((config_prefix ++ 0 :: strings') ++ rest) = 14).
  { rewrite <- app_assoc. cbn [app]. rewrite strlen_app; [done|]. apply (bool_decide_unpack _). by vm_compute. }
  rewrite Hlen. split_leb (Z.min 14 (Z.of_nat (14 + S (length strings')))) 14; [|lia]. apply IH.
Qed.
