(* ===== verification/Uri.v ===== *)
(** * Resource locators: common/lib/uri.c

    A file is named by [resource(root):/path#hash]: the locator is taken apart, the
    volume is found in the index of volumes, the file is opened, and if there is a hash
    the whole file is read and compared with it.  [freadall_mode] of
    common/fs/file.s2.c is here too; where in memory the file is kept, and how that
    memory is typed, is not modelled. *)

From S2P Require Import Prelude Bytes Libc Blake2b Volume Guid Fat32 Iso9660 File Part Config.

(** ** Taking a locator apart *)

Definition URI_BUF_SIZE : Z := 4096.

(** The loops that look for [sep]: what is before it, and behind it. *)
Fixpoint split_at (sep uri : list Z) : option (list Z * list Z) :=
  if strlen uri <? strlen sep then None
  else if strncmp uri sep (length sep) =? 0 then Some ([], drop (length sep) uri)
  else match uri with
       | [] => None
       | c :: uri => (fun '(a, b) => (c :: a, b)) <$> split_at sep uri
       end.

(** The loop from [i = n - 1] down: the last [#]. *)
Fixpoint hash_at (n : nat) (uri : list Z) : option nat :=
  match n with
  | O => None
  | S i => if nth i uri 0 =? 35 then Some i else hash_at i uri
  end.

Definition is_hex (c : Z) : bool := ((48 <=? c) && (c <=? 57)) || ((97 <=? c) && (c <=? 102)) || ((65 <=? c) && (c <=? 70)).

Record uri_parts := { resource : list Z; root : list Z; upath : list Z; uhash : option (list Z) }.

(** [None] for false. *)
Definition uri_resolve (uri : list Z) : outcome (option uri_parts) :=
  if URI_BUF_SIZE <? strlen uri + 1 then Panic "uri_resolve: URI too long"
  else
    match split_at (str "(") uri with
    | None => Ret None
    | Some (resource, uri) =>
        match split_at (str "):/") uri with
        | None => Ret None
        | Some (root, uri) =>
            if hd0 uri =? 0 then Ret None
            else
              match hash_at (length uri) uri with
              | None => Ret (Some {| resource := resource; root := root; upath := uri; uhash := None |})
              | Some i =>
                  let hash := drop (i + 1) uri in
                  if negb (strlen hash =? 128) then Panic "Blake2b hash must be 128 characters long"
                  else if negb (forallb is_hex hash) then Panic "Blake2b hash contains invalid character"
                  else Ret (Some {| resource := resource; root := root; upath := take i uri; uhash := Some hash |})
              end
        end
    end.

(** [parse_bios_partition]: the drive and the partition, [None] for false.  [n] is the
    position of the colon. *)
Fixpoint colon_at (loc : list Z) : option nat :=
  match loc with
  | [] => None
  | c :: loc => if c =? 58 then Some O else S <$> colon_at loc
  end.
Definition parse_bios_partition (loc : list Z) : outcome (option (Z * Z)) :=
  match colon_at loc with
  | None => Ret None
  | Some n =>
      let drv := take n loc in
      if hd0 drv =? 0 then Panic "Drive number cannot be omitted for hdd():/ and odd():/"
      else
        let val := fst (strtoui drv 10) in
        if (val <? 1) || (256 <? val) then Panic "Drive number outside range 1-256"
        else
          let val' := fst (strtoui (drop (n + 1) loc) 10) in
          if 256 <? val' then Panic "Partition number outside range 0-256"
          else Ret (Some (val, val'))
  end.

(** ** Reading a whole file *)

(** [freadall]: the contents, and the handle, which is one of a file in memory from now on. *)
Definition freadall `{Disk} (f : file_handle) : VM (list Z * file_handle) :=
  let in_memory bytes := {| readall := true; path := f.(path); fd := MemFile bytes; size := f.(size) |} in
  match f.(fd) with
  | MemFile bytes => mret (bytes, in_memory bytes)
  | Fat32File h => ret ← fat32_read h (replicate (Z.to_nat f.(size)) 0) 0 f.(size); mret (ret, in_memory ret)
  | Iso9660File h => ret ← iso9660_read h (replicate (Z.to_nat f.(size)) 0) 0 f.(size); mret (ret, in_memory ret)
  end.

(** ** Opening *)

Section open.
Context `{Disk}.
Context (case_insensitive_fopen : bool).

(** [tftp_open(boot_volume, server, name)]: the network boot firmware. *)
Context (tftp_open : list Z -> list Z -> VM (option file_handle)).

(** The index of volumes, the address of each, and the boot volume. *)
Context (volume_index : list volume) (volume_address : volume -> Z) (boot_volume : volume).

(** The handle with its volume, [None] for NULL, and the ISO 9660 contexts. *)
Notation opened := (outcome (option (file_handle * volume) * list iso9660_context)).

(** [fopen(volume, path)], where [volume] may be NULL. *)
Definition open_on (contexts : list iso9660_context) (v : option volume) (path : list Z) : opened :=
  match v with
  | None => Ret (None, contexts)
  | Some v =>
      r ← fopen case_insensitive_fopen (tftp_open []) contexts (volume_address v) path v;
      let '(h, contexts, v) := (r : option file_handle * list iso9660_context * volume) in
      Ret ((fun h => (h, v)) <$> h, contexts)
  end.

Definition uri_coord_dispatch (optical : bool) (contexts : list iso9660_context) (loc path : list Z) : opened :=
  r ← parse_bios_partition loc;
  match (r : option (Z * Z)) with
  | None => Ret (None, contexts)
  | Some (drv, part) => open_on contexts (volume_get_by_coord volume_index optical drv part) path
  end.
Definition uri_hdd_dispatch := uri_coord_dispatch false.
Definition uri_odd_dispatch := uri_coord_dispatch true.

Definition uri_guid_dispatch (contexts : list iso9660_context) (guid_str path : list Z) : opened :=
  g ← string_to_guid_be (replicate 16 0) guid_str;
  match (g : option (list Z)) with
  | None => Ret (None, contexts)
  | Some g =>
      match volume_get_by_guid volume_index g with
      | Some v => open_on contexts (Some v) path
      | None =>
          g ← string_to_guid_mixed g guid_str;
          match (g : option (list Z)) with
          | None => Ret (None, contexts)
          | Some g => open_on contexts (volume_get_by_guid volume_index g) path
          end
      end
  end.

Definition uri_fslabel_dispatch (contexts : list iso9660_context) (fslabel path : list Z) : opened :=
  open_on contexts (volume_get_by_fslabel volume_index fslabel) path.

Definition uri_tftp_dispatch (contexts : list iso9660_context) (root path : list Z) : opened :=
  if negb (strcmp root [] =? 0) && negb (bool_decide (is_Some (inet_pton root))) then Panic "tftp: Invalid ipv4 address"
  else
    r ← tftp_open root path boot_volume;
    let '(h, v) := (r : option file_handle * volume) in
    Ret ((fun h => (h, v)) <$> h, contexts).

Definition uri_boot_dispatch (contexts : list iso9660_context) (s_part path : list Z) : opened :=
  if boot_volume.(pxe) then uri_tftp_dispatch contexts s_part path
  else
    part ← (if negb (hd0 s_part =? 0) then
              let val := fst (strtoui s_part 10) in
              if 256 <? val then Panic "Partition number outside range 0-256" else Ret val
            else Ret boot_volume.(partition));
    open_on contexts (volume_get_by_coord volume_index boot_volume.(is_optical) boot_volume.(index) part) path.

Definition uri_dispatch (contexts : list iso9660_context) (resource root path : list Z) : opened :=
  if strcmp resource (str "hdd") =? 0 then uri_hdd_dispatch contexts root path
  else if strcmp resource (str "odd") =? 0 then uri_odd_dispatch contexts root path
  else if strcmp resource (str "boot") =? 0 then uri_boot_dispatch contexts root path
  else if strcmp resource (str "guid") =? 0 then uri_guid_dispatch contexts root path
  else if strcmp resource (str "uuid") =? 0 then uri_guid_dispatch contexts root path
  else if strcmp resource (str "fslabel") =? 0 then uri_fslabel_dispatch contexts root path
  else if strcmp resource (str "tftp") =? 0 then uri_tftp_dispatch contexts root path
  else Panic "Resource not valid.".

(** [getchar()] after a mismatch, where the boot loader does not stop at once; any key
    but [Y] leads back to the menu, which does not return. *)
Context (hash_mismatch_panic : bool) (key : Z).

Definition hash_mismatch : outcome unit :=
  if hash_mismatch_panic then Panic "Blake2b hash for URI does not match!"
  else if negb (key =? 89) && negb (key =? 121) then Panic "menu(false)"
  else Ret ().

Definition uri_open (contexts : list iso9660_context) (uri : list Z) : opened :=
  p ← uri_resolve uri;
  match (p : option uri_parts) with
  | None => Ret (None, contexts)
  | Some p =>
      r ← uri_dispatch contexts p.(resource) p.(root) p.(upath);
      let '(h, contexts) := (r : option (file_handle * volume) * list iso9660_context) in
      match p.(uhash), h with
      | Some hash, Some (ret, v) =>
          r ← freadall ret v;
          let '(file_buf, ret, v) := (r : list Z * file_handle * volume) in
          out_buf ← blake2b (take (Z.to_nat ret.(size)) file_buf);
          _ ← (if bool_decide (parse_hash BLAKE2B_OUT_BYTES hash = out_buf) then Ret () else hash_mismatch);
          Ret (Some (ret, v), contexts)
      | _, _ => Ret (h, contexts)
      end
  end.
End open.
