(* ===== verification/UriSpec.v ===== *)
(** * Locators name the files they should

    A locator is taken apart into what it was made of, the locator of a partition
    leads to that partition, and with a hash only the file with that hash is returned. *)

From S2P Require Import Prelude Bytes Libc LibcSpec Blake2b Blake2bSpec Volume Fat32 Iso9660 File Part Config ConfigSpec Uri.

(** ** Taking apart *)

Lemma cstring_id s : 0 ∉ s -> cstring s = s.
Proof.
  induction s as [|c s IH]; [done|]. intros H. apply not_elem_of_cons in H as [Hc H]. cbn [cstring].
  rewrite (proj2 (Z.eqb_neq c 0)) by done. by rewrite IH.
Qed.

Lemma strlen_id s : 0 ∉ s -> strlen s = Z.of_nat (length s).
Proof. intros H. unfold strlen. by rewrite cstring_id. Qed.

Lemma strncmp_self s r : 0 ∉ s -> strncmp (s ++ r) s (length s) = 0.
Proof.
  induction s as [|c s IH]; [done|]. intros H. apply not_elem_of_cons in H as [Hc H]. cbn [app strncmp length hd0 tl0].
  rewrite Z.eqb_refl. cbn [negb]. rewrite (proj2 (Z.eqb_neq c 0)) by done. by apply IH.
Qed.

(** The separator is found where its first byte comes first. *)
Lemma split_at_spec c sep a b : c <> 0 -> (0 ∉ sep) -> (0 ∉ a) -> (0 ∉ b) -> (c ∉ a) ->
  split_at (c :: sep) (a ++ (c :: sep) ++ b) = Some (a, b).
Proof.
  intros Hc Hs Ha Hb Hca. assert (Hsep : 0 ∉ c :: sep) by (apply not_elem_of_cons; done).
  induction a as [|d a IH].
  - cbn [app]. unfold split_at; fold split_at. rewrite !strlen_id by (rewrite ?not_elem_of_cons, ?not_elem_of_app; done).
    split_ltb (Z.of_nat (length (c :: sep ++ b))) (Z.of_nat (length (c :: sep))); [cbn [length] in *; rewrite length_app in *; lia|].
    change (c :: sep ++ b) with ((c :: sep) ++ b). rewrite strncmp_self by done. cbn [Z.eqb]. by rewrite drop_app_length.
  - apply not_elem_of_cons in Ha as [Hd Ha], Hca as [Hdc Hca]. cbn [app split_at].
    assert (Hall : 0 ∉ d :: a ++ c :: sep ++ b) by (rewrite not_elem_of_cons, not_elem_of_app, not_elem_of_cons, not_elem_of_app; by auto 6).
    rewrite !strlen_id by done.
    split_ltb (Z.of_nat (length (d :: a ++ c :: sep ++ b))) (Z.of_nat (length (c :: sep))).
    { cbn [length] in *. rewrite length_app in *. cbn [length] in *. rewrite length_app in *. lia. }
    cbn [length strncmp hd0]. rewrite (proj2 (Z.eqb_neq d c)) by done. cbn [negb].
    assert (forall x y : Z, ((if x <? y then -1 else 1) =? 0) = false) as Hcmp by (intros x y; by destruct (x <? y)). rewrite Hcmp.
    specialize (IH Ha Hca). cbn [app] in IH. by rewrite IH.
Qed.

Lemma hash_at_none n s : (35 ∉ s) -> hash_at n s = None.
Proof.
  intros H. induction n as [|n IH]; [done|]. cbn [hash_at]. split_eqb (nth n s 0) 35; [|done]. exfalso. apply H. rewrite <- E.
  destruct (decide (n < length s)%nat) as [Hn|Hn]; [by apply list_elem_of_In, nth_In|]. rewrite nth_overflow in E by lia. done.
Qed.

Lemma hash_at_spec a h : (35 ∉ h) -> hash_at (length (a ++ 35 :: h)) (a ++ 35 :: h) = Some (length a).
Proof.
  intros H. rewrite length_app. cbn [length]. assert (Hk : forall k, (k <= length h)%nat -> hash_at (length a + S k) (a ++ 35 :: h) = Some (length a)).
  { induction k as [|k IH]; intros Hk.
    - rewrite Nat.add_1_r. cbn [hash_at]. rewrite app_nth2, Nat.sub_diag by lia. done.
    - rewrite Nat.add_succ_r. cbn [hash_at]. rewrite app_nth2 by lia. replace (length a + S k - length a)%nat with (S k) by lia. cbn [nth].
      split_eqb (nth k h 0) 35; [|apply IH; lia]. exfalso. apply H. rewrite <- E. apply list_elem_of_In, nth_In. lia. }
  by apply Hk.
Qed.

(** The text of a locator. *)
Definition show_uri (p : uri_parts) : list Z :=
  p.(resource) ++ str "(" ++ p.(root) ++ str "):/" ++ p.(upath) ++ match p.(uhash) with Some h => 35 :: h | None => [] end.

(** What a locator can be made of; a hash is 128 hexadecimal digits. *)
Definition uri_ok (p : uri_parts) : Prop :=
  Forall (fun s => 0 ∉ s) [p.(resource); p.(root); p.(upath)] /\ (40 ∉ p.(resource)) /\ (41 ∉ p.(root)) /\ p.(upath) <> []
  /\ match p.(uhash) with
     | Some h => length h = 128%nat /\ forallb is_hex h = true
     | None => 35 ∉ p.(upath)
     end
  /\ Z.of_nat (length (show_uri p)) < URI_BUF_SIZE.

Lemma is_hex_not h c : forallb is_hex h = true -> is_hex c = false -> c ∉ h.
Proof. intros H Hc Hx. rewrite forallb_forall in H. specialize (H c ltac:(by apply list_elem_of_In)). congruence. Qed.

Lemma uri_resolve_show p : uri_ok p -> uri_resolve (show_uri p) = Ret (Some p).
Proof.
  intros (H0 & H40 & H41 & Hne & Hh & Hlen). inversion_clear H0 as [|? ? Hr0 H1]. inversion_clear H1 as [|? ? Ho0 H2]. inversion_clear H2 as [|? ? Hp0 _].
  set (tl := match p.(uhash) with Some h => 35 :: h | None => [] end) in *.
  assert (Ht0 : 0 ∉ tl). { unfold tl. destruct (uhash p) as [h|]; [|set_solver]. apply not_elem_of_cons. split; [done|]. by apply (is_hex_not h 0 (proj2 Hh)). }
  assert (Hb0 : 0 ∉ p.(upath) ++ tl) by (by rewrite not_elem_of_app).
  assert (Hs1 : 0 ∉ str "):/") by (apply (bool_decide_unpack _); by vm_compute).
  assert (Hs2 : 0 ∉ str "(") by (apply (bool_decide_unpack _); by vm_compute).
  unfold uri_resolve. rewrite strlen_id by (unfold show_uri; fold tl; rewrite !not_elem_of_app; done).
  split_ltb URI_BUF_SIZE (Z.of_nat (length (show_uri p)) + 1); [lia|]. clear E. unfold show_uri. fold tl.
  rewrite (split_at_spec 40 [] (resource p)) by (done || set_solver || (rewrite !not_elem_of_app; done)).
  rewrite (split_at_spec 41 [58; 47] (root p)) by (done || set_solver).
  assert ((hd0 (upath p ++ tl) =? 0) = false) as ->.
  { destruct (upath p) as [|c s]; [done|]. apply not_elem_of_cons in Hp0 as [Hc _]. cbn. apply Z.eqb_neq. lia. }
  unfold tl in *. destruct (uhash p) as [h|] eqn:Eh.
  - destruct Hh as [Hl Hx]. rewrite hash_at_spec by (by apply (is_hex_not h 35 Hx)). cbv zeta.
    rewrite <- drop_drop, drop_app_length. cbn [drop]. rewrite drop_0, strlen_id, Hl by (by apply (is_hex_not h 0 Hx)).
    cbn [Z.of_nat Z.eqb negb]. rewrite Hx, take_app_length. destruct p; cbn in *. by subst.
  - rewrite app_nil_r, hash_at_none by done. destruct p; cbn in *. by subst.
Qed.

(** A locator is taken apart into what it was made of: the resource, the root, the path,
    and the hash if there is one. *)
Theorem uri_resolve_roundtrip (p : uri_parts) : uri_ok p -> uri_resolve (show_uri p) = Ret (Some p).
Proof. apply uri_resolve_show. Qed.

Definition demo_uri : uri_parts :=
  {| resource := str "hdd"; root := str "1:2"; upath := str "boot/a(1):/b#c"; uhash := Some (replicate 128 97) |}.

Lemma uri_resolve_roundtrip_witness :
  uri_resolve (str "hdd(1:2):/boot/a(1):/b#c#" ++ replicate 128 97) = Ret (Some demo_uri).
Proof.
  apply (uri_resolve_roundtrip demo_uri). split_and!; try (by apply (bool_decide_unpack _); vm_compute).
Defined.

(** ** Partitions *)

Lemma dec_digits n c : 0 <= n < W64 -> c ∈ dec n -> is_digit 10 c.
Proof.
  intros Hn Hc. destruct (dec_loop_spec 20 n []) as (ds & Hd & _ & Hds & _); [lia..|]. unfold dec in Hc. rewrite Hd, app_nil_r in Hc.
  rewrite Forall_forall in Hds. by apply Hds.
Qed.
Lemma dec_not n c : 0 <= n < W64 -> digit_to_int c = -1 -> c ∉ dec n.
Proof. intros Hn Hc Hx. apply dec_digits in Hx; [|done]. unfold is_digit in Hx. lia. Qed.

Lemma dec_head n rest : 0 <= n < W64 -> hd0 (dec n ++ rest) <> 0.
Proof.
  intros Hn. pose proof (dec_nonempty n [] Hn) as Hl. rewrite app_nil_r in Hl. pose proof (dec_not n 0 Hn eq_refl) as H0.
  destruct (dec n) as [|c l]; [cbn in Hl; lia|]. apply not_elem_of_cons in H0 as [Hc _]. cbn. lia.
Qed.

Lemma colon_at_spec a b : 58 ∉ a -> colon_at (a ++ 58 :: b) = Some (length a).
Proof.
  induction a as [|c a IH]; [done|]. intros H. apply not_elem_of_cons in H as [Hc H]. cbn [app colon_at length].
  rewrite (proj2 (Z.eqb_neq c 58)) by done. by rewrite IH.
Qed.

(** The numbers of a drive and of a partition, and their limits. *)
Lemma parse_coord d p : 0 <= d < W64 -> 0 <= p < W64 ->
  parse_bios_partition (dec d ++ 58 :: dec p)
  = if (d <? 1) || (256 <? d) then Panic "Drive number outside range 1-256"
    else if 256 <? p then Panic "Partition number outside range 0-256" else Ret (Some (d, p)).
Proof.
  intros Hd Hp. unfold parse_bios_partition. rewrite colon_at_spec by (by apply dec_not). rewrite take_app_length.
  pose proof (dec_head d [] Hd) as Hh. rewrite app_nil_r in Hh. rewrite (proj2 (Z.eqb_neq _ _) Hh).
  rewrite <- drop_drop, drop_app_length. cbn [drop]. rewrite drop_0.
  pose proof (strtoui_dec d [] Hd I) as E1. pose proof (strtoui_dec p [] Hp I) as E2. rewrite app_nil_r in E1, E2. by rewrite E1, E2.
Qed.

Section open.
Context `{Disk}.
Context (ci : bool) (tftp_open : list Z -> list Z -> VM (option file_handle)).
Context (volume_index : list volume) (volume_address : volume -> Z) (boot_volume : volume).
Context (hash_mismatch_panic : bool) (key : Z).

Notation uri_open := (uri_open ci tftp_open volume_index volume_address boot_volume hash_mismatch_panic key).

(** The locators [hdd(drive:partition):/path] and [odd(...):/path] open the path on the volume
    with that drive and partition, of that kind; numbers out of range are refused. *)
Theorem uri_open_coord (contexts : list iso9660_context) (optical : bool) (d p : Z) (path : list Z) :
  0 <= d < W64 -> 0 <= p < W64 -> path <> [] -> (0 ∉ path) -> (35 ∉ path) -> Z.of_nat (length path) < 4000 ->
  uri_open contexts ((if optical then str "odd" else str "hdd") ++ str "(" ++ dec d ++ str ":" ++ dec p ++ str "):/" ++ path)
  = if (d <? 1) || (256 <? d) then Panic "Drive number outside range 1-256"
    else if 256 <? p then Panic "Partition number outside range 0-256"
    else open_on ci tftp_open volume_address contexts (volume_get_by_coord volume_index optical d p) path.
Proof.
  intros Hd Hp Hne H0 H35 Hlen. set (u := {| resource := if optical then str "odd" else str "hdd"; root := dec d ++ 58 :: dec p; upath := path; uhash := None |}).
  assert (Hlens : forall n, 0 <= n < W64 -> (length (dec n) <= 20)%nat).
  { intros n _. unfold dec. assert (forall f m acc, (length (dec_loop f m acc) <= f + length acc)%nat) as Hf; [|by apply (Hf 20%nat n [])].
    induction f as [|f IH]; intros m acc; cbn [dec_loop]; [done|]. destruct (m <? 10); [cbn; lia|]. etransitivity; [apply IH|]. cbn. lia. }
  assert (Hu : uri_ok u).
  { unfold uri_ok, u. cbn [resource root upath uhash]. split_and!; [|by destruct optical; apply (bool_decide_unpack _); vm_compute| |done|done|].
    - repeat constructor; [by destruct optical; apply (bool_decide_unpack _); vm_compute| |done].
      rewrite not_elem_of_app, not_elem_of_cons. split_and!; by apply dec_not || lia.
    - rewrite not_elem_of_app, not_elem_of_cons. split_and!; by apply dec_not || lia.
    - unfold show_uri, URI_BUF_SIZE. cbn [resource root upath uhash]. rewrite !length_app. cbn [length]. pose proof (Hlens d Hd). pose proof (Hlens p Hp).
      change (length (str "(")) with 1%nat. change (length (str "):/")) with 3%nat.
      assert (length (if optical then str "odd" else str "hdd") = 3%nat) as -> by (by destruct optical). lia. }
  assert (Hs : (if optical then str "odd" else str "hdd") ++ str "(" ++ dec d ++ str ":" ++ dec p ++ str "):/" ++ path = show_uri u).
  { unfold show_uri, u. cbn [resource root upath uhash]. rewrite app_nil_r, <- !app_assoc. done. }
  rewrite Hs. unfold Uri.uri_open. rewrite uri_resolve_show by done. cbn [mbind outcome_bind].
  assert (Hdisp : uri_dispatch ci tftp_open volume_index volume_address boot_volume contexts u.(resource) u.(root) u.(upath)
    = uri_coord_dispatch ci tftp_open volume_index volume_address optical contexts (dec d ++ 58 :: dec p) path) by (by destruct optical).
  rewrite Hdisp. unfold uri_coord_dispatch. rewrite parse_coord by done. destruct ((d <? 1) || (256 <? d)); [done|]. destruct (256 <? p); [done|].
  cbn [mbind outcome_bind]. cbn [uhash u]. destruct (open_on _ _ _ _ _ _) as [[h c]| | |]; done.
Qed.

(** C6: A file with a hash is checked: [uri_open] returns the handle of bytes in memory,
    not of the file on the volume, and their RFC 7693 BLAKE2b digest is the one in the
    locator, or else the configuration says [hash_mismatch_panic: no] and the key
    pressed at the warning was Y. *)
Theorem uri_open_authentic (contexts contexts' : list iso9660_context) (p : uri_parts) (original : list Z) (f : file_handle) (v : volume) :
  uri_ok p -> p.(uhash) = Some (to_hex (Rfc.hash original)) -> Z.of_nat (length original) < W64 ->
  uri_open contexts (show_uri p) = Ret (Some (f, v), contexts') -> f.(size) < W64 ->
  exists bytes, f.(fd) = MemFile bytes /\ f.(readall) = true /\
    (Rfc.hash (take (Z.to_nat f.(size)) bytes) = Rfc.hash original \/ hash_mismatch_panic = false /\ (key = 89 \/ key = 121)).
Proof.
  intros Hp Hh Ho Hu Hs. unfold Uri.uri_open in Hu. rewrite uri_resolve_show in Hu by done. cbn [mbind outcome_bind] in Hu.
  apply bind_Ret_inv in Hu as ([h c] & _ & Hu). rewrite Hh in Hu. destruct h as [[ret v0]|]; [|by injection Hu].
  apply bind_Ret_inv in Hu as ([[buf ret'] v1] & Hr & Hu). apply bind_Ret_inv in Hu as (out & Hout & Hu). apply bind_Ret_inv in Hu as (w & Hc & Hu).
  injection Hu as -> -> ->. exists buf.
  assert (Hmem : fd f = MemFile buf /\ readall f = true).
  { unfold freadall in Hr. destruct (fd ret).
    - injection Hr as <- <- <-. done.
    - unfold mbind, VM_bind in Hr. destruct (fat32_read _ _ _ _ _) as [[a b]| | |]; [|done..]. injection Hr as <- <- <-. done.
    - unfold mbind, VM_bind in Hr. destruct (iso9660_read _ _ _ _ _) as [[a b]| | |]; [|done..]. injection Hr as <- <- <-. done. }
  destruct Hmem as [Hf Hra]. split_and!; [done|done|].
  assert (Hl : Z.of_nat (length (take (Z.to_nat (size f)) buf)) < W64) by (rewrite length_take; lia).
  destruct (blake2b_rfc7693 _ Hl) as [Hb _]. rewrite Hb in Hout. injection Hout as <-.
  destruct (blake2b_rfc7693 _ Ho) as (_ & Hlen & Hbytes). pose proof (parse_to_hex _ Hbytes) as Hx. rewrite Hlen in Hx. rewrite Hx in Hc.
  case_bool_decide as Hd; [by left|right]. unfold hash_mismatch in Hc. destruct hash_mismatch_panic; [done|]. split; [done|].
  split_eqb key 89; [by left|]. split_eqb key 121; [by right|done].
Qed.
End open.

(** ** Examples *)

Definition no_disk : Disk := fun _ _ buf _ _ => (false, buf).

Definition net_volume : volume :=
  {| drive := 0; fastest_xfer_size := 1; index := 0; is_optical := false; pxe := true; partition := 0; sector_size := 512; backing_dev := 0;
     max_partition := 0; cache_status := CACHE_NOT_READY; cache := None; cached_block := 0; first_sect := 0; sect_count := 0;
     guid_valid := false; guid := []; part_guid_valid := false; part_guid := []; fslabel_valid := false; fslabel := [] |}.

Definition served (bytes : list Z) : file_handle :=
  {| readall := false; path := str "f"; fd := MemFile bytes; size := Z.of_nat (length bytes) |}.
Definition serve (bytes : list Z) (server name : list Z) : VM (option file_handle) := mret (Some (served bytes)).

Lemma uri_open_coord_witness :
  uri_open (H := no_disk) false (serve [97]) [] (fun _ => 0) net_volume true 0 [] (str "odd(300:1):/kernel") = Panic "Drive number outside range 1-256"
  /\ uri_open (H := no_disk) false (serve [97]) [] (fun _ => 0) net_volume true 0 [] (str "hdd(1:2):/kernel") = Ret (None, []).
Proof.
  split.
  - apply (uri_open_coord (H := no_disk) false (serve [97]) [] (fun _ => 0) net_volume true 0 [] true 300 1 (str "kernel")); try done;
      by apply (bool_decide_unpack _); vm_compute.
  - apply (uri_open_coord (H := no_disk) false (serve [97]) [] (fun _ => 0) net_volume true 0 [] false 1 2 (str "kernel")); try done;
      by apply (bool_decide_unpack _); vm_compute.
Defined.

Definition net_uri : uri_parts := {| resource := str "tftp"; root := []; upath := str "f"; uhash := Some (to_hex (Rfc.hash [97; 98])) |}.

Lemma uri_open_authentic_witness : exists f v,
  uri_open (H := no_disk) false (serve [97; 98]) [] (fun _ => 0) net_volume true 0 [] (show_uri net_uri) = Ret (Some (f, v), [])
  /\ exists bytes, f.(fd) = MemFile bytes /\ f.(readall) = true /\ Rfc.hash (take (Z.to_nat f.(size)) bytes) = Rfc.hash [97; 98].
Proof.
  exists {| readall := true; path := str "f"; fd := MemFile [97; 98]; size := 2 |}, net_volume.
  assert (E : uri_open (H := no_disk) false (serve [97; 98]) [] (fun _ => 0) net_volume true 0 [] (show_uri net_uri)
    = Ret (Some ({| readall := true; path := str "f"; fd := MemFile [97; 98]; size := 2 |}, net_volume), [])) by (by vm_compute).
  split; [exact E|]. edestruct (uri_open_authentic (H := no_disk) false (serve [97; 98]) [] (fun _ => 0) net_volume true 0 [] [] net_uri [97; 98])
    as (bytes & Hf & Hr & [Hd|[Hd _]]); [| | |exact E| |exists bytes; split_and!; [exact Hf|exact Hr|exact Hd]|discriminate Hd]; [|done..].
  split_and!; try (by apply (bool_decide_unpack _); vm_compute).
Defined.
