(* ===== verification/Host.v ===== *)
(** * The installer: host/limine.c

    The program that runs on the host: it installs the BIOS boot code on a device,
    undoes an installation, and enrolls the checksum of a configuration in an
    executable.

    The device is a file of bytes with a cache of one block that is written back when
    another block is needed.  A read of a block fails where the file ends, and on the
    blocks that [bad_read] names; [short_read] is what it leaves in the cache then.  A
    write fails on the blocks that [bad_write] names, which keep their bytes.  The arguments of the command line are the arguments of
    the functions; messages, and memory that runs out, are not modelled. *)

From S2P Require Import Prelude Bytes Libc.

(** ** Byte order *)

(** An integer of [n] bytes in the memory of the host. *)
Definition native_load (bigendian : bool) (bs : list Z) : Z := le_load (if bigendian then rev bs else bs).
Definition native_store (bigendian : bool) (n : nat) (v : Z) : list Z :=
  if bigendian then rev (le_store n v) else le_store n v.

Definition endswap16 (value : Z) : Z :=
  let ret := Z.land (Z.shiftr value 8) 0x00ff in
  Z.lor ret (Z.land (Z.shiftl value 8) 0xff00).
Definition endswap32 (value : Z) : Z :=
  let ret := Z.land (Z.shiftr value 24) 0x000000ff in
  let ret := Z.lor ret (Z.land (Z.shiftr value 8) 0x0000ff00) in
  let ret := Z.lor ret (Z.land (Z.shiftl value 8) 0x00ff0000) in
  Z.lor ret (Z.land (Z.shiftl value 24) 0xff000000).
Definition endswap64 (value : Z) : Z :=
  let ret := Z.land (Z.shiftr value 56) 0x00000000000000ff in
  let ret := Z.lor ret (Z.land (Z.shiftr value 40) 0x000000000000ff00) in
  let ret := Z.lor ret (Z.land (Z.shiftr value 24) 0x0000000000ff0000) in
  let ret := Z.lor ret (Z.land (Z.shiftr value 8) 0x00000000ff000000) in
  let ret := Z.lor ret (Z.land (Z.shiftl value 8) 0x000000ff00000000) in
  let ret := Z.lor ret (Z.land (Z.shiftl value 24) 0x0000ff0000000000) in
  let ret := Z.lor ret (Z.land (Z.shiftl value 40) 0x00ff000000000000) in
  Z.lor ret (Z.land (Z.shiftl value 56) 0xff00000000000000).

(** [ENDSWAP] of a value with [n] bytes. *)
Definition ENDSWAP (bigendian : bool) (n : nat) (value : Z) : Z :=
  if bigendian then
    match n with
    | 2 => endswap16 value
    | 4 => endswap32 value
    | 8 => endswap64 value
    | _ => value
    end%nat
  else value.

(** ** CHS addresses *)

Definition lba2chs (lba : Z) : list Z :=
  let lba_too_big := [0xfe; 0xff; 0xff] in
  if 63 * 255 * 1024 <? lba then lba_too_big
  else
    let cylinder := lba / (255 * 63) in
    if 1024 <=? cylinder then lba_too_big
    else
      let head := (lba / 63) `mod` 255 in
      let sector := lba `mod` 63 + 1 in
      [head; Z.lor (Z.land (Z.shiftr cylinder 2) 0xc0) (Z.land sector 0x3f); u8 cylinder].

(** ** Types of partitions *)

Definition gpt2mbr_type_conv_table : list (Z * Z * Z) :=
  [ (0x11d2f81fc12a7328, 0x3bc93ec9a0004bba, 0xef);
    (0x4433b9e5ebd0a0a2, 0xc79926b7b668c087, 0x07);
    (0x11aa000048465300, 0xacec4365300011aa, 0xaf) ].
Fixpoint gpt2mbr_lookup (table : list (Z * Z * Z)) (gpt_type1 gpt_type2 : Z) : option Z :=
  match table with
  | [] => None
  | (t1, t2, mbr_type) :: table => if (t1 =? gpt_type1) && (t2 =? gpt_type2) then Some mbr_type else gpt2mbr_lookup table gpt_type1 gpt_type2
  end.
Definition gpt2mbr_type : Z -> Z -> option Z := gpt2mbr_lookup gpt2mbr_type_conv_table.

(** ** The device *)

(** [memcpy(dst + off, src, ...)], and [fwrite] at a position. *)
Definition overwrite (dst : list Z) (off : nat) (src : list Z) : list Z := take off dst ++ src ++ drop (off + length src) dst.

(** The file, and the variables of the program: the cache, and the data to undo the
    writes, [data] with its [loc], in the order of the writes. *)
Record host := {
  disk : list Z;
  cache : list Z;
  cached_block : Z;
  cache_dirty : bool;
  block_size : Z;
  uninstalling : bool;
  uninstall_data : list (list Z * Z)
}.

Definition set_cache_state (st : host) (c : list Z) (block : Z) (dirty : bool) : host :=
  {| disk := st.(disk); cache := c; cached_block := block; cache_dirty := dirty; block_size := st.(block_size);
     uninstalling := st.(uninstalling); uninstall_data := st.(uninstall_data) |}.
Definition set_disk (st : host) (d : list Z) (dirty : bool) : host :=
  {| disk := d; cache := st.(cache); cached_block := st.(cached_block); cache_dirty := dirty; block_size := st.(block_size);
     uninstalling := st.(uninstalling); uninstall_data := st.(uninstall_data) |}.
Definition set_uninstall (st : host) (u : bool) (data : list (list Z * Z)) : host :=
  {| disk := st.(disk); cache := st.(cache); cached_block := st.(cached_block); cache_dirty := st.(cache_dirty); block_size := st.(block_size);
     uninstalling := u; uninstall_data := data |}.

Definition UNINSTALL_DATA_MAX : Z := 256.

(** Blocks of a size that cannot be read or written, and the cache after a failed read, from
    what it was before. *)
Class HostFile := { bad_read : Z -> Z -> bool; bad_write : Z -> Z -> bool; short_read : Z -> Z -> list Z -> list Z }.

(** A computation that may go to [cleanup], which is [None]. *)
Definition HM (A : Type) : Type := host -> option A * host.

#[export] Instance HM_ret : MRet HM := fun A a st => (Some a, st).
#[export] Instance HM_bind : MBind HM := fun A B f m st =>
  match m st with
  | (Some a, st) => f a st
  | (None, st) => (None, st)
  end.
Definition cleanup {A} : HM A := fun st => (None, st).
Definition get_state : HM host := fun st => (Some st, st).
Definition put_state (st : host) : HM unit := fun _ => (Some tt, st).

Section device.
Context `{HostFile}.

(** Whether [size] bytes at the position of [block] are in the file. *)
Definition in_file (st : host) (size block : Z) : bool := u64 (block * size) + size <=? Z.of_nat (length st.(disk)).

(** [device_init]: the first size of which the first block can be read. *)
Fixpoint device_init (guesses : list Z) : HM unit := fun st =>
  match guesses with
  | [] => (None, st)
  | guess :: guesses =>
      if in_file st guess 0 && negb (bad_read guess 0) then
        (Some tt, {| disk := st.(disk); cache := take (Z.to_nat guess) st.(disk); cached_block := 0; cache_dirty := false; block_size := guess;
                     uninstalling := st.(uninstalling); uninstall_data := st.(uninstall_data) |})
      else device_init guesses st
  end.

Definition device_flush_cache : HM unit :=
  st ← get_state;
  if negb st.(cache_dirty) then mret tt
  else if bad_write st.(block_size) st.(cached_block) then cleanup
  else
    let pos := Z.to_nat (u64 (st.(cached_block) * st.(block_size))) in
    put_state (set_disk st (overwrite st.(disk) pos st.(cache)) false).

Definition device_cache_block (block : Z) : HM unit :=
  st ← get_state;
  if st.(cached_block) =? block then mret tt
  else
    _ ← (if st.(cache_dirty) then device_flush_cache else mret tt);
    st ← get_state;
    if in_file st st.(block_size) block && negb (bad_read st.(block_size) block) then
      put_state (set_cache_state st (slice (Z.to_nat (u64 (block * st.(block_size)))) (Z.to_nat st.(block_size)) st.(disk)) block st.(cache_dirty))
    else _ ← put_state (set_cache_state st (short_read st.(block_size) block st.(cache)) st.(cached_block) st.(cache_dirty)); cleanup.

(** The offset of the next chunk within its block, and its size. *)
Definition chunk_at (block_size loc progress count : Z) : Z * Z :=
  let offset := u64 (loc + progress) `mod` block_size in
  (offset, Z.min (count - progress) (block_size - offset)).

(** The loop of [_device_read]; [fuel] bounds the chunks. *)
Fixpoint read_chunks (fuel : nat) (loc progress count : Z) : HM (list Z) :=
  if progress <? count then
    match fuel with
    | O => cleanup
    | S fuel =>
        st ← get_state;
        _ ← device_cache_block (u64 (loc + progress) / st.(block_size));
        st ← get_state;
        let '(offset, chunk) := chunk_at st.(block_size) loc progress count in
        r ← read_chunks fuel loc (progress + chunk) count;
        mret (slice (Z.to_nat offset) (Z.to_nat chunk) st.(cache) ++ r)
    end
  else mret [].
(** [loc] is converted to [uint64_t]. *)
Definition device_read (loc count : Z) : HM (list Z) := read_chunks (Z.to_nat count) (u64 loc) 0 count.

(** The loop of [_device_write]. *)
Fixpoint write_chunks (fuel : nat) (buffer : list Z) (loc progress : Z) : HM unit :=
  let count := Z.of_nat (length buffer) in
  if progress <? count then
    match fuel with
    | O => cleanup
    | S fuel =>
        st ← get_state;
        _ ← device_cache_block (u64 (loc + progress) / st.(block_size));
        st ← get_state;
        let '(offset, chunk) := chunk_at st.(block_size) loc progress count in
        let data := slice (Z.to_nat progress) (Z.to_nat chunk) buffer in
        let c := overwrite st.(cache) (Z.to_nat offset) data in
        _ ← put_state (set_cache_state st c st.(cached_block) true);
        write_chunks fuel buffer loc (progress + chunk)
    end
  else mret tt.

Definition device_write (buffer : list Z) (loc : Z) : HM unit :=
  let loc := u64 loc in
  st ← get_state;
  if st.(uninstalling) then write_chunks (length buffer) buffer loc 0
  else if UNINSTALL_DATA_MAX <=? Z.of_nat (length st.(uninstall_data)) then cleanup
  else
    data ← device_read loc (Z.of_nat (length buffer));
    _ ← write_chunks (length buffer) buffer loc 0;
    st ← get_state;
    put_state (set_uninstall st st.(uninstalling) (st.(uninstall_data) ++ [(data, loc)])).

(** ** Undoing *)

Definition forget_cache (st : host) : host := set_cache_state st st.(cache) (W64 - 1) false.

(** One piece of data, with a retry; the booleans are [print_write_fail] and
    [print_cache_flush_fail]. *)
Definition restore (data : list Z) (loc : Z) (st : host) : (bool * bool) * host :=
  match device_write data loc st with
  | (Some _, st) => ((false, false), st)
  | (None, st) =>
      let '(flushed, st) := device_flush_cache st in
      match device_write data loc (forget_cache st) with
      | (Some _, st) => ((false, negb (bool_decide (is_Some flushed))), st)
      | (None, st) => ((true, negb (bool_decide (is_Some flushed))), st)
      end
  end.

Fixpoint restore_all (data : list (list Z * Z)) (fails : bool * bool) (st : host) : (bool * bool) * host :=
  match data with
  | [] => (fails, st)
  | (d, loc) :: data =>
      let '(f, st) := restore d loc st in
      restore_all data (fails.1 || f.1, fails.2 || f.2) st
  end.

(** [uninstall]: success, and the state. *)
Definition uninstall (st : host) : bool * host :=
  let st := forget_cache (set_uninstall st true st.(uninstall_data)) in
  let '(fails, st) := restore_all st.(uninstall_data) (false, false) st in
  let '(flushed, st) := device_flush_cache st in
  (negb (fails.1 || fails.2 || negb (bool_decide (is_Some flushed))), st).

Definition reverse_uninstall_data (st : host) : host := set_uninstall st st.(uninstalling) (rev st.(uninstall_data)).

(** ** Recognised file systems *)

(** A signature at [loc]: [false] if it is there and the installation is not forced, in
    which case it is overwritten by [n] zeros. *)
Definition check_signature (force : bool) (sig : list Z) (loc : Z) (n : nat) : HM bool :=
  hintc ← device_read loc (Z.of_nat (length sig));
  if bool_decide (hintc = sig) then
    if negb force then mret false
    else _ ← device_write (replicate n 0) loc; mret true
  else mret true.

Definition and_then (a b : HM bool) : HM bool := r ← a; if (r : bool) then b else mret false.

Definition validate_or_force (offset : Z) (force : bool) : HM bool :=
  and_then (check_signature force (str "NTFS") (u64 (offset + 3)) 4)
    (and_then (check_signature force (str "FAT") (u64 (offset + 54)) 5)
      (and_then (check_signature force (str "FAT") (u64 (offset + 82)) 5)
        (and_then (check_signature force (str "FAT32") (u64 (offset + 3)) 5)
          (check_signature force [0x53; 0xef] (u64 (offset + 1080)) 2)))).

(** ** The partition tables *)

(** An integer of the device, as the program reads it: loaded as the host does, and swapped. *)
Context (bigendian : bool).
Definition disk_int (off n : nat) (bs : list Z) : Z := ENDSWAP bigendian n (native_load bigendian (slice off n bs)).

(** [struct gpt_table_header], the fields that are used. *)
Record gpt_table_header := {
  signature : list Z;
  alternate_lba : Z;
  partition_entry_lba : Z;
  number_of_partition_entries : Z;
  size_of_partition_entry : Z
}.
Definition load_gpt_header (bs : list Z) : gpt_table_header :=
  {| signature := slice 0 8 bs; alternate_lba := disk_int 32 8 bs; partition_entry_lba := disk_int 72 8 bs;
     number_of_partition_entries := disk_int 80 4 bs; size_of_partition_entry := disk_int 84 4 bs |}.

(** [struct gpt_entry] *)
Record gpt_entry := {
  type_guid : list Z;
  unique_guid : list Z;
  starting_lba : Z;
  ending_lba : Z
}.
Definition load_gpt_entry (bs : list Z) : gpt_entry :=
  {| type_guid := slice 0 16 bs; unique_guid := slice 16 16 bs; starting_lba := disk_int 32 8 bs; ending_lba := disk_int 40 8 bs |}.

Definition efi_part : list Z := str "EFI PART".

(** The loop over [lb_guesses]: the size of a logical block and the header. *)
Fixpoint probe_gpt (lb_guesses : list Z) : HM (option (Z * gpt_table_header)) :=
  match lb_guesses with
  | [] => mret None
  | lb :: lb_guesses =>
      bs ← device_read lb 96;
      if strncmp (slice 0 8 bs) efi_part 8 =? 0 then mret (Some (lb, load_gpt_header bs)) else probe_gpt lb_guesses
  end.

Definition check_secondary (lb_size : Z) (h : gpt_table_header) : HM unit :=
  bs ← device_read (u64 (lb_size * h.(alternate_lba))) 96;
  if strncmp (slice 0 8 bs) efi_part 8 =? 0 then mret tt else cleanup.

(** ** From GPT to MBR *)

Record part_to_conv := { lba_start : Z; lba_end : Z; chs_start : list Z; chs_end : list Z; ptype : Z }.

(** The conversion of one entry, [None] for [goto no_mbr_conv]. *)
Definition convert_entry (e : gpt_entry) : option part_to_conv :=
  if W32 - 1 <? e.(starting_lba) then None
  else if W32 - 1 <? e.(ending_lba) then None
  else if W32 - 1 <? u64 (e.(ending_lba) - e.(starting_lba) + 1) then None
  else
    match gpt2mbr_type (disk_int 0 8 e.(type_guid)) (disk_int 8 8 e.(type_guid)) with
    | None => None
    | Some type =>
        Some {| lba_start := e.(starting_lba); lba_end := e.(ending_lba); chs_start := lba2chs e.(starting_lba); chs_end := lba2chs e.(ending_lba); ptype := type |}
    end.

(** The loop over the entries from [i] on, [n] of them; [None]: will not convert. *)
Fixpoint gather (n : nat) (i base size : Z) (parts : list part_to_conv) : HM (option (list part_to_conv)) :=
  match n with
  | O => mret (Some parts)
  | S n =>
      match add_overflow base (u64 (i * size)) with
      | None => mret None
      | Some off =>
          bs ← device_read off 128;
          let e := load_gpt_entry bs in
          if bool_decide (e.(unique_guid) = replicate 16 0) then gather n (i + 1) base size parts
          else if decide (length parts = 4%nat) then mret None
          else match convert_entry e with
               | None => mret None
               | Some p => gather n (i + 1) base size (parts ++ [p])
               end
      end
  end.

(** Writes of [n] empty blocks from the block [lba] on. *)
Fixpoint nuke (n : nat) (lba lb_size : Z) : HM unit :=
  match n with
  | O => mret tt
  | S n => _ ← device_write (replicate (Z.to_nat lb_size) 0) (u64 (lba * lb_size)); nuke n (lba + 1) lb_size
  end.

(** The disk identifier: one byte at a time. *)
Fixpoint write_id (id : list Z) (loc : Z) : HM unit :=
  match id with
  | [] => mret tt
  | r :: id => _ ← device_write [r] loc; write_id id (loc + 1)
  end.

(** [uint32_t lba_start = ENDSWAP(part_to_conv[i].lba_start)]: a 64-bit value is swapped and cut. *)
Definition disk_u32 (v : Z) : list Z := native_store bigendian 4 (u32 (ENDSWAP bigendian 8 v)).

Fixpoint write_parts (parts : list part_to_conv) (loc : Z) : HM unit :=
  match parts with
  | [] => mret tt
  | p :: parts =>
      _ ← device_write [p.(ptype)] (loc + 4);
      _ ← device_write (disk_u32 p.(lba_start)) (loc + 8);
      _ ← device_write (disk_u32 (u64 (p.(lba_end) - p.(lba_start) + 1))) (loc + 12);
      _ ← device_write p.(chs_start) (loc + 1);
      _ ← device_write p.(chs_end) (loc + 5);
      write_parts parts (loc + 16)
  end.

(** The whole conversion: whether the table is an MBR now. *)
Definition convert_gpt (lb_size : Z) (h : gpt_table_header) (id : list Z) : HM bool :=
  iso_signature ← device_read 32769 5;
  if negb (bool_decide (iso_signature = str "CD001")) then mret false
  else
    match mul_overflow h.(partition_entry_lba) lb_size with
    | None => mret false
    | Some base =>
        parts ← gather (Z.to_nat h.(number_of_partition_entries)) 0 base h.(size_of_partition_entry) [];
        match (parts : option (list part_to_conv)) with
        | None => mret false
        | Some parts =>
            _ ← nuke 34 0 lb_size;
            _ ← (if 32 <=? h.(alternate_lba) then nuke 33 (h.(alternate_lba) - 32) lb_size else mret tt);
            _ ← write_id id 0x1b8;
            _ ← write_parts parts 0x1be;
            mret true
        end
    end.

(** ** The MBR *)

(** The checks of the entry at [loc]; whether it is valid, and whether it is active. *)
Definition check_mbr_entry (force : bool) (loc : Z) : HM (bool * bool) :=
  b ← device_read loc 1;
  let hint8 := hd0 b in
  r ← (if negb (hint8 =? 0) && negb (hint8 =? 0x80) then
         if negb force then mret (false, hint8)
         else
           let hint8 := Z.land hint8 0x80 in
           _ ← device_write [hint8] loc; mret (true, hint8)
       else mret (true, hint8));
  let '(mbr, hint8) := (r : bool * Z) in
  let active := negb (Z.land hint8 0x80 =? 0) in
  t ← device_read (loc + 4) 1;
  if negb (hd0 t =? 0) then
    bs ← device_read (loc + 8) 4;
    if disk_int 0 4 bs <? 63 then cleanup else mret (mbr, active)
  else mret (mbr, active).

Fixpoint check_mbr_entries (force : bool) (locs : list Z) (mbr any_active : bool) : HM (bool * bool) :=
  match locs with
  | [] => mret (mbr, any_active)
  | loc :: locs =>
      r ← check_mbr_entry force loc;
      let '(ok, active) := (r : bool * bool) in
      check_mbr_entries force locs (mbr && ok) (any_active || active)
  end.

Definition check_mbr (force : bool) : HM bool :=
  r ← check_mbr_entries force [446; 462; 478; 494] true false;
  let '(mbr, any_active) := (r : bool * bool) in
  mbr ← (if (mbr : bool) then validate_or_force 0 force else mret false);
  if (mbr : bool) && negb any_active then _ ← device_write [0x80] 446; mret mbr
  else mret mbr.

(** ** The partition for the boot code *)

Definition bios_boot_type : list Z := str "Hah!IdontNeedEFI".

(** The loop that looks for it, from the entry [i] on. *)
Fixpoint autodetect (n : nat) (i base size : Z) : HM gpt_entry :=
  match n with
  | O => cleanup
  | S n =>
      match add_overflow base (u64 (i * size)) with
      | None => cleanup
      | Some off =>
          bs ← device_read off 128;
          if bool_decide (slice 0 16 bs = bios_boot_type) then mret (load_gpt_entry bs) else autodetect n (i + 1) base size
      end
  end.

(** [part_ndx]: the number that is given, where the inner [None] is text that is not a number. *)
Definition select_partition (force : bool) (part_ndx : option (option Z)) (h : gpt_table_header) (base : Z) : HM gpt_entry :=
  match part_ndx with
  | Some None => cleanup
  | Some (Some n) =>
      let partition_num := u32 (n - 1) in
      if h.(number_of_partition_entries) <=? partition_num then cleanup
      else
        match add_overflow base (u64 (partition_num * h.(size_of_partition_entry))) with
        | None => cleanup
        | Some off =>
            bs ← device_read off 128;
            let e := load_gpt_entry bs in
            if bool_decide (e.(unique_guid) = replicate 16 0) then cleanup
            else if negb force && negb (bool_decide (e.(type_guid) = bios_boot_type)) then cleanup
            else mret e
        end
  | None => autodetect (Z.to_nat h.(number_of_partition_entries)) 0 base h.(size_of_partition_entry)
  end.

Definition gpt_stage2 (force : bool) (part_ndx : option (option Z)) (lb_size : Z) (h : gpt_table_header) : HM Z :=
  match mul_overflow h.(partition_entry_lba) lb_size with
  | None => cleanup
  | Some base =>
      e ← select_partition force part_ndx h base;
      if u64 (u64 (e.(ending_lba) - e.(starting_lba) + 1) * lb_size) <? 32768 then cleanup
      else
        let stage2_loc := u64 (e.(starting_lba) * lb_size) in
        valid ← validate_or_force stage2_loc force;
        if (valid : bool) then mret stage2_loc else cleanup
  end.

(** ** Installation *)

(** The writes, after all checks. *)
Definition write_stages (bootloader_img : list Z) (stage2_loc : Z) : HM unit :=
  timestamp ← device_read 218 6;
  orig_mbr ← device_read 440 70;
  _ ← device_write (take 512 bootloader_img) 0;
  _ ← device_write (drop 512 bootloader_img) stage2_loc;
  _ ← device_write (native_store bigendian 8 (ENDSWAP bigendian 8 stage2_loc)) 0x1a4;
  _ ← device_write timestamp 218;
  _ ← device_write orig_mbr 440;
  device_flush_cache.

(** From the probe for a GPT on. *)
Definition install (bootloader_img id : list Z) (force gpt2mbr_allowed : bool) (part_ndx : option (option Z)) : HM unit :=
  g ← probe_gpt [512; 4096];
  g ← match (g : option (Z * gpt_table_header)) with
      | None => mret None
      | Some (lb_size, h) =>
          _ ← check_secondary lb_size h;
          conv ← (if gpt2mbr_allowed then convert_gpt lb_size h id else mret false);
          mret (if (conv : bool) then None else Some (lb_size, h))
      end;
  stage2_loc ← match (g : option (Z * gpt_table_header)) with
      | None => mbr ← check_mbr force; if (mbr : bool) then mret 512 else cleanup
      | Some (lb_size, h) => gpt_stage2 force part_ndx lb_size h
      end;
  write_stages bootloader_img stage2_loc.

(** The start of the program, with a device. *)
Definition fresh (d : list Z) : host :=
  {| disk := d; cache := []; cached_block := 0; cache_dirty := false; block_size := 0; uninstalling := false; uninstall_data := [] |}.

(** [bios_install] on an open device: success and the state; the data to undo the
    installation is in [uninstall_data] if it succeeds. *)
Definition bios_install (bootloader_img id : list Z) (force gpt2mbr_allowed : bool) (part_ndx : option (option Z)) (st : host) : bool * host :=
  match device_init [512; 2048; 4096] st with
  | (None, st) => (false, st)
  | (Some _, st) =>
      match install bootloader_img id force gpt2mbr_allowed part_ndx st with
      | (Some _, st) => (true, reverse_uninstall_data st)
      | (None, st) => (false, snd (uninstall (reverse_uninstall_data st)))
      end
  end.

(** ** The file with the data to undo an installation *)

Fixpoint store_entries (data : list (list Z * Z)) : list Z :=
  match data with
  | [] => []
  | (d, loc) :: data => native_store bigendian 8 loc ++ native_store bigendian 8 (Z.of_nat (length d)) ++ d ++ store_entries data
  end.
Definition store_uninstall_data (data : list (list Z * Z)) : list Z :=
  native_store bigendian 8 (Z.of_nat (length data)) ++ store_entries data.

(** [fread] of [n] bytes; it fails if there are fewer, or if [n] is 0. *)
Definition file_read (n : Z) (file : list Z) : option (list Z * list Z) :=
  if (n =? 0) || (Z.of_nat (length file) <? n) then None else Some (take (Z.to_nat n) file, drop (Z.to_nat n) file).

Fixpoint load_entries (n : nat) (file : list Z) : option (list (list Z * Z)) :=
  match n with
  | O => Some []
  | S n =>
      '(l, file) ← file_read 8 file;
      '(c, file) ← file_read 8 file;
      '(d, file) ← file_read (native_load bigendian c) file;
      r ← load_entries n file;
      Some ((d, native_load bigendian l) :: r)
  end.
Definition load_uninstall_data (file : list Z) : option (list (list Z * Z)) :=
  '(n, file) ← file_read 8 file;
  if UNINSTALL_DATA_MAX <? native_load bigendian n then None else load_entries (Z.to_nat (native_load bigendian n)) file.

(** [bios_install --uninstall] *)
Definition bios_uninstall (file : list Z) (st : host) : bool * host :=
  match device_init [512; 2048; 4096] st with
  | (None, st) => (false, st)
  | (Some _, st) =>
      match load_uninstall_data file with
      | None => (false, st)
      | Some data => uninstall (set_uninstall st st.(uninstalling) data)
      end
  end.
End device.

(** ** Enrolling the checksum of a configuration *)

Definition CONFIG_B2SUM_SIGNATURE : list Z := str "++CONFIG_B2SUM_SIGNATURE++".
Definition min_size : Z := Z.of_nat (length CONFIG_B2SUM_SIGNATURE) + 128.

(** The loop over [i] with [checked_count]; after a failed match [i] is moved back to the
    byte behind the start of it.  [fuel] bounds the steps. *)
Fixpoint find_signature (fuel : nat) (bootloader : list Z) (i checked_count : Z) : outcome (option Z) :=
  if Z.of_nat (length bootloader) - min_size + 1 <=? i then Ret None
  else
    match fuel with
    | O => Diverge
    | S fuel =>
        b ← get bootloader (Z.to_nat i);
        s ← get CONFIG_B2SUM_SIGNATURE (Z.to_nat checked_count);
        if negb ((b : Z) =? s) then
          find_signature fuel bootloader (i - checked_count + 1) 0
        else
          let checked_count := checked_count + 1 in
          if checked_count =? Z.of_nat (length CONFIG_B2SUM_SIGNATURE) then Ret (Some (i + 1))
          else find_signature fuel bootloader (i + 1) checked_count
    end.

(** [enroll_config]: the executable afterwards, [None] for a failure; [b2sum] is [None] with [--reset]. *)
Definition enroll_config (b2sum : option (list Z)) (bootloader : list Z) : outcome (option (list Z)) :=
  let bad := match b2sum with Some h => negb (strlen h =? 128) | None => false end in
  if bad then Ret None
  else if Z.of_nat (length bootloader) <? min_size then Ret None
  else
    loc ← find_signature (length bootloader * (length CONFIG_B2SUM_SIGNATURE + 1)) bootloader 0 0;
    match (loc : option Z) with
    | None => Ret None
    | Some loc => r ← blit bootloader (Z.to_nat loc) (match b2sum with Some h => take 128 h | None => replicate 128 48 end); Ret (Some r)
    end.
