(* ===== verification/HostDevice.v ===== *)
(** * The device of the installer, and enrolling

    The cache of the device is transparent; a hash is enrolled where it belongs. *)

From S2P Require Import Prelude Bytes Libc Host.

(** * The device of the installer

    The cache of one block is transparent: reads and writes behave as on the bytes of
    the device, and flushing the cache makes the file hold them.  On top of that, the
    data that is kept for each write undoes all of them. *)

(** ** Overwriting *)

Lemma overwrite_length dst off src : (off + length src <= length dst)%nat -> length (overwrite dst off src) = length dst.
Proof. intros H. unfold overwrite. rewrite !length_app, length_take, length_drop. lia. Qed.

Lemma overwrite_lookup dst off src x : (off + length src <= length dst)%nat ->
  overwrite dst off src !! x = if decide (off <= x < off + length src)%nat then src !! (x - off)%nat else dst !! x.
Proof.
  intros H. unfold overwrite. case_decide as Hx.
  - rewrite lookup_app_r by (rewrite length_take; lia). rewrite length_take, lookup_app_l by lia. f_equal. lia.
  - destruct (decide (x < off)%nat) as [Hlt|Hge].
    + rewrite lookup_app_l by (rewrite length_take; lia). by rewrite lookup_take_lt.
    + rewrite lookup_app_r by (rewrite length_take; lia). rewrite length_take, lookup_app_r, lookup_drop by lia. f_equal. lia.
Qed.

Lemma overwrite_nil dst off : overwrite dst off [] = dst.
Proof. unfold overwrite. cbn [length app]. rewrite Nat.add_0_r. apply take_drop. Qed.

Lemma slice_lookup off n (l : list Z) i : slice off n l !! i = if decide (i < n)%nat then l !! (off + i)%nat else None.
Proof. unfold slice. case_decide; [by rewrite lookup_take_lt, lookup_drop|]. by rewrite lookup_take_ge by lia. Qed.

Lemma slice_length off n (l : list Z) : (off + n <= length l)%nat -> length (slice off n l) = n.
Proof. intros H. unfold slice. rewrite length_take, length_drop. lia. Qed.

(** What is written over itself does not change. *)
Lemma overwrite_slice dst off n : (off + n <= length dst)%nat -> overwrite dst off (slice off n dst) = dst.
Proof.
  intros H. apply list_eq. intros x. rewrite overwrite_lookup by (rewrite slice_length; lia). rewrite slice_length by lia.
  case_decide as Hx; [|done]. rewrite slice_lookup. case_decide; [f_equal; lia|lia].
Qed.

Lemma overwrite_overwrite dst off src src' : length src = length src' -> (off + length src <= length dst)%nat ->
  overwrite (overwrite dst off src) off src' = overwrite dst off src'.
Proof.
  intros Hl H. apply list_eq. intros x. rewrite !overwrite_lookup by (rewrite ?overwrite_length by lia; lia). repeat case_decide; done || lia.
Qed.

(** Writing into the cached block, or into the device. *)
Lemma overwrite_nested dst pos c off src : (pos + length c <= length dst)%nat -> (off + length src <= length c)%nat ->
  overwrite dst pos (overwrite c off src) = overwrite (overwrite dst pos c) (pos + off) src.
Proof.
  intros H1 H2. apply list_eq. intros x. rewrite !overwrite_lookup by (rewrite ?overwrite_length by lia; lia). rewrite overwrite_length by lia.
  repeat case_decide; try lia; try done. f_equal. lia.
Qed.

Lemma overwrite_app dst off a b : (off + length a + length b <= length dst)%nat ->
  overwrite (overwrite dst off a) (off + length a) b = overwrite dst off (a ++ b).
Proof.
  intros H. apply list_eq. intros x. rewrite !overwrite_lookup by (rewrite ?overwrite_length, ?length_app by lia; lia). rewrite length_app.
  repeat case_decide; try lia; try done; [|rewrite lookup_app_l by lia; done]. rewrite lookup_app_r by lia. f_equal. lia.
Qed.

(** ** The cache *)

(** Block sizes divide the range of positions. *)
Definition good_size (bs : Z) : Prop := bs = 512 \/ bs = 2048 \/ bs = 4096.

Definition block_pos (st : host) (block : Z) : nat := Z.to_nat (block * st.(block_size)).

(** The bytes of the device, as a program without the cache would see them. *)
Definition view (st : host) : list Z :=
  if st.(cached_block) =? W64 - 1 then st.(disk) else overwrite st.(disk) (block_pos st st.(cached_block)) st.(cache).

(** The block in the cache, if any, is one of the file, and only a dirty cache differs. *)
Record coherent (st : host) : Prop := {
  co_size : good_size st.(block_size);
  co_disk : Z.of_nat (length st.(disk)) < 2 ^ 63;
  co_none : st.(cached_block) = W64 - 1 -> st.(cache_dirty) = false;
  co_block : st.(cached_block) <> W64 - 1 ->
    0 <= st.(cached_block) /\ (st.(cached_block) + 1) * st.(block_size) <= Z.of_nat (length st.(disk)) /\ Z.of_nat (length st.(cache)) = st.(block_size);
  co_clean : st.(cache_dirty) = false -> view st = st.(disk)
}.

Lemma good_size_pos bs : good_size bs -> 0 < bs <= 4096.
Proof. intros [-> | [-> | ->]]; lia. Qed.

Lemma good_size_wrap bs a : good_size bs -> 0 <= a -> u64 a / bs * bs <= a.
Proof.
  intros H Ha. pose proof (good_size_pos _ H). pose proof (Z.mul_div_le (u64 a) bs ltac:(lia)). pose proof (Z.mod_le a W64 Ha ltac:(lia)). unfold u64 in *. lia.
Qed.

Lemma view_length st : coherent st -> length (view st) = length st.(disk).
Proof.
  intros Hc. unfold view. split_eqb st.(cached_block) (W64 - 1)%Z; [done|]. destruct (co_block _ Hc E) as (H1 & H2 & H3).
  pose proof (good_size_pos _ (co_size _ Hc)). apply overwrite_length. unfold block_pos. lia.
Qed.

(** Two states with the same bytes, and the same variables but the cache. *)
Definition same_view (st st' : host) : Prop :=
  coherent st' /\ view st' = view st /\ st'.(block_size) = st.(block_size) /\ st'.(uninstalling) = st.(uninstalling)
  /\ st'.(uninstall_data) = st.(uninstall_data).

Lemma same_view_refl st : coherent st -> same_view st st.
Proof. intros Hc. split; done. Qed.
Lemma same_view_trans st1 st2 st3 : same_view st1 st2 -> same_view st2 st3 -> same_view st1 st3.
Proof. intros (_ & E1 & E2 & E3 & E4) (H & F1 & F2 & F3 & F4). split; [done|]. rewrite <- E1, <- E2, <- E3, <- E4. done. Qed.

(** What no operation on the cache changes. *)
Definition same_rest (st st' : host) : Prop :=
  st'.(block_size) = st.(block_size) /\ st'.(uninstalling) = st.(uninstalling) /\ st'.(uninstall_data) = st.(uninstall_data).

Lemma same_view_rest st st' : same_view st st' -> same_rest st st'.
Proof. intros (_ & _ & H). exact H. Qed.
Lemma same_rest_trans st1 st2 st3 : same_rest st1 st2 -> same_rest st2 st3 -> same_rest st1 st3.
Proof. unfold same_rest. intros (? & ? & ?) (? & ? & ?). split_and!; congruence. Qed.

(** The steps of the monad. *)
Ltac hm := unfold mbind, HM_bind, mret, HM_ret, get_state, put_state, cleanup; cbv beta iota.

Section device.
Context `{HostFile}.

(** Flushing: the file holds the bytes, or nothing changes. *)
Lemma flush_spec st : coherent st ->
  exists r st', device_flush_cache st = (r, st') /\ same_view st st'
    /\ match r with
       | Some _ => st'.(disk) = view st /\ st'.(cache_dirty) = false /\ st'.(cache) = st.(cache) /\ st'.(cached_block) = st.(cached_block)
       | None => st' = st /\ bad_write st.(block_size) st.(cached_block) = true
       end.
Proof.
  intros Hc. unfold device_flush_cache. hm.
  destruct (cache_dirty st) eqn:Ed; cbn [negb].
  2: { exists (Some tt), st. split; [done|]. split; [by apply same_view_refl|]. rewrite <- (co_clean _ Hc Ed). done. }
  destruct (bad_write _ _) eqn:Eb; [exists None, st; split; [done|]; split; [by apply same_view_refl|done]|].
  assert (Hne : cached_block st <> W64 - 1) by (intros E; by rewrite (co_none _ Hc E) in Ed).
  destruct (co_block _ Hc Hne) as (H1 & H2 & H3). pose proof (good_size_pos _ (co_size _ Hc)) as Hs. pose proof (co_disk _ Hc) as Hd.
  assert (Hu : u64 (cached_block st * block_size st) = cached_block st * block_size st) by (unfold u64; apply Z.mod_small; nia).
  rewrite Hu. set (d := overwrite _ _ _). assert (Hv : view st = d).
  { unfold view. by rewrite (proj2 (Z.eqb_neq _ _) Hne). }
  assert (Hlen : length d = length (disk st)) by (rewrite <- Hv; by apply view_length).
  eexists (Some tt), _. split; [done|]. split; [|done].
  assert (Hv' : view (set_disk st d false) = view st).
  { unfold view at 1. cbn. rewrite (proj2 (Z.eqb_neq _ _) Hne), Hv. unfold d, block_pos. cbn. apply overwrite_overwrite; [done|]. nia. }
  split; [|done]. constructor; cbn [set_disk disk cache cached_block cache_dirty block_size]; rewrite ?Hlen; try apply Hc; try done.
  intros _. by rewrite Hv'.
Qed.

(** Bringing a block into the cache. *)
Definition block_ok (st : host) (block : Z) : Prop :=
  0 <= block < W64 - 1 /\ (block + 1) * st.(block_size) <= Z.of_nat (length st.(disk)).

Lemma cache_block_spec st block : coherent st -> 0 <= block < W64 - 1 -> block * st.(block_size) < W64 ->
  exists r st', device_cache_block block st = (r, st') /\ same_rest st st'
    /\ match r with
       | Some _ => same_view st st' /\ st'.(cached_block) = block /\ block_ok st block
       | None => ~ block_ok st block \/ bad_read st.(block_size) block = true \/ exists b, bad_write st.(block_size) b = true
       end.
Proof.
  intros Hc Hb Hw. unfold device_cache_block. hm.
  split_eqb (cached_block st) block.
  { exists (Some tt), st. split; [done|]. split; [done|]. split; [by apply same_view_refl|]. split; [done|]. destruct (co_block _ Hc) as (H1 & H2 & _); [lia|]. split; [lia|]. by rewrite <- E. }
  destruct (flush_spec st Hc) as (r & st1 & Ef & Hs & Hr).
  set (fl := if cache_dirty st then device_flush_cache else _).
  assert (Hfl : exists r' st2, fl st = (r', st2) /\ same_view st st2 /\ match r' with Some _ => cache_dirty st2 = false | None => exists b, bad_write (block_size st) b = true end).
  { unfold fl. destruct (cache_dirty st) eqn:Ed.
    - rewrite Ef. exists r, st1. split; [done|]. split; [done|]. destruct r; [apply Hr|by exists (cached_block st); apply Hr].
    - exists (Some tt), st. split; [done|]. split; [by apply same_view_refl|done]. }
  destruct Hfl as (r' & st2 & Efl & Hs2 & Hr'). rewrite Efl. destruct r' as [[]|]; [|exists None, st2; split; [done|]; split; [by apply same_view_rest|]; by right; right].
  destruct Hs2 as (Hc2 & Hv2 & Hbs & Hun & Hud).
  assert (Hlen : length (disk st2) = length (disk st)) by (rewrite <- (view_length st2 Hc2), Hv2; by apply view_length).
  unfold in_file. rewrite Hbs in *. pose proof (good_size_pos _ (co_size _ Hc)) as Hsz.
  assert (Hu : u64 (block * block_size st) = block * block_size st) by (unfold u64; apply Z.mod_small; nia). rewrite Hu.
  split_leb (block * block_size st + block_size st) (Z.of_nat (length (disk st2))); cbn [andb].
  2: { eexists None, _. split; [done|]. split; [by split_and!|]. left. intros [_ Hx]. nia. }
  destruct (bad_read (block_size st) block) eqn:Ebr; cbn [negb].
  { eexists None, _. split; [done|]. split; [by split_and!|]. by right; left. }
  eexists (Some tt), _. split; [done|]. split; [by split_and!|]. split; [|split; [done|]; split; [done|nia]].
  set (c := slice _ _ _). assert (Hcl : Z.of_nat (length c) = block_size st) by (unfold c; rewrite slice_length by nia; lia).
  assert (Hv3 : view (set_cache_state st2 c block (cache_dirty st2)) = disk st2).
  { unfold view. cbn. rewrite (proj2 (Z.eqb_neq block (W64 - 1))) by lia. unfold block_pos. cbn. rewrite Hbs. unfold c. apply overwrite_slice. nia. }
  split_and!; try done.
  - constructor; cbn [set_cache_state disk cache cached_block cache_dirty block_size]; rewrite ?Hbs; try apply Hc; try apply Hc2; try done.
    intros _. rewrite Hcl. split; [lia|]. split; [nia|done].
  - rewrite Hv3, <- Hv2. symmetry. by apply (co_clean _ Hc2).
Qed.

(** ** Reading and writing *)

Definition no_errors : Prop := forall s b, bad_read s b = false /\ bad_write s b = false.

(** The blocks of a range are in the file. *)
Definition fits (st : host) (loc count : Z) : Prop :=
  0 < count -> ((loc + count - 1) / st.(block_size) + 1) * st.(block_size) <= Z.of_nat (length st.(disk)).

Lemma fits_same st st' loc count : coherent st -> same_view st st' -> fits st loc count -> fits st' loc count.
Proof.
  intros Hc (Hc' & Hv & Hb & _) Hf. unfold fits in *. rewrite Hb, <- (view_length st') by done. rewrite Hv, view_length by done. done.
Qed.

Lemma fits_end st loc count : coherent st -> 0 <= loc -> 0 < count -> fits st loc count -> loc + count <= Z.of_nat (length st.(disk)).
Proof.
  intros Hc Hl Hp Hf. specialize (Hf Hp). pose proof (good_size_pos _ (co_size _ Hc)) as Hs.
  pose proof (Z.div_mod (loc + count - 1) (block_size st) ltac:(lia)). pose proof (Z.mod_pos_bound (loc + count - 1) (block_size st) ltac:(lia)). nia.
Qed.

(** Where the next chunk is: in the block [b], at the offset [o]. *)
Record chunk (st : host) (loc progress count b o n : Z) : Prop := {
  ch_block : b = u64 (loc + progress) / st.(block_size);
  ch_at : chunk_at st.(block_size) loc progress count = (o, n);
  ch_pos : loc + progress = b * st.(block_size) + o;
  ch_off : 0 <= o < st.(block_size);
  ch_len : 1 <= n <= count - progress;
  ch_in : o + n <= st.(block_size);
  ch_b : 0 <= b < W64 - 1;
  ch_wrap : b * st.(block_size) < W64
}.

Lemma next_chunk st loc progress count : coherent st -> 0 <= loc -> 0 <= progress < count -> loc + progress < W64 ->
  exists b o n, chunk st loc progress count b o n.
Proof.
  intros Hc Hl Hp Hw. pose proof (good_size_pos _ (co_size _ Hc)) as Hs. set (bs := block_size st) in *.
  pose proof (Z.div_mod (loc + progress) bs ltac:(lia)) as Hdm. pose proof (Z.mod_pos_bound (loc + progress) bs ltac:(lia)) as Hm.
  pose proof (Z.div_pos (loc + progress) bs ltac:(lia) ltac:(lia)) as Hd.
  assert (Hu : u64 (loc + progress) = loc + progress) by (unfold u64; apply Z.mod_small; lia).
  exists ((loc + progress) / bs), ((loc + progress) `mod` bs), (Z.min (count - progress) (bs - (loc + progress) `mod` bs)).
  constructor; fold bs; rewrite ?Hu; try done; try lia.
  - unfold chunk_at. by rewrite Hu.
  - split; [done|]. destruct (co_size _ Hc) as [E|[E|E]]; fold bs in E; rewrite E in *; nia.
Qed.

(** The last block that is touched is not before this one. *)
Lemma chunk_fits st loc progress count b o n : coherent st -> chunk st loc progress count b o n -> 0 <= progress -> fits st loc count -> block_ok st b.
Proof.
  intros Hc Hch Hp Hf. pose proof (good_size_pos _ (co_size _ Hc)) as Hs. destruct Hch. split; [done|]. specialize (Hf ltac:(lia)).
  assert (b <= (loc + count - 1) / block_size st); [|nia]. apply Z.div_le_lower_bound; [lia|]. nia.
Qed.

(** The cached block shows in the view. *)
Lemma view_block st b : coherent st -> st.(cached_block) = b -> b <> W64 - 1 ->
  forall o n, (o + n <= length st.(cache))%nat -> slice (block_pos st b + o) n (view st) = slice o n st.(cache).
Proof.
  intros Hc E Hne o n Hn. subst b. destruct (co_block _ Hc Hne) as (H1 & H2 & H3). pose proof (good_size_pos _ (co_size _ Hc)) as Hs.
  assert (Hp : (block_pos st (cached_block st) + length (cache st) <= length (disk st))%nat) by (unfold block_pos; nia).
  apply list_eq. intros i. rewrite !slice_lookup. case_decide as Hi; [|done]. unfold view. rewrite (proj2 (Z.eqb_neq _ _) Hne).
  rewrite overwrite_lookup by done. case_decide; [f_equal; lia|lia].
Qed.

Lemma slice_app (l : list Z) p a b : slice p a l ++ slice (p + a) b l = slice p (a + b) l.
Proof. unfold slice. rewrite <- drop_drop, take_take_drop. done. Qed.

Lemma read_chunks_spec fuel st loc progress count : coherent st -> 0 <= loc < W64 -> 0 <= progress ->
  progress = 0 \/ loc + progress <= Z.of_nat (length st.(disk)) -> count - progress <= Z.of_nat fuel ->
  exists r st', read_chunks fuel loc progress count st = (r, st') /\ same_rest st st'
    /\ match r with
       | Some bs => same_view st st' /\ (progress < count -> fits st loc count)
           /\ bs = slice (Z.to_nat (loc + progress)) (Z.to_nat (count - progress)) (view st)
       | None => no_errors -> ~ fits st loc count
       end.
Proof.
  revert st progress. induction fuel as [|fuel IH]; intros st progress Hc Hl Hp Hpos Hf.
  { cbn [read_chunks]. split_ltb progress count; [lia|]. exists (Some []), st. split; [done|]. split; [done|]. split; [by apply same_view_refl|]. split; [lia|].
    by replace (Z.to_nat (count - progress)) with 0%nat by lia. }
  cbn [read_chunks]. split_ltb progress count.
  2: { exists (Some []), st. split; [done|]. split; [done|]. split; [by apply same_view_refl|]. split; [lia|]. by replace (Z.to_nat (count - progress)) with 0%nat by lia. }
  pose proof (co_disk _ Hc) as Hd.
  destruct (next_chunk st loc progress count Hc) as (b & o & n & Hch); [lia..|].
  hm. rewrite <- (ch_block _ _ _ _ _ _ _ Hch).
  destruct (cache_block_spec st b Hc (ch_b _ _ _ _ _ _ _ Hch) (ch_wrap _ _ _ _ _ _ _ Hch)) as (r & st1 & -> & Hrest1 & Hr).
  destruct r as [[]|].
  2: { exists None, st1. split; [done|]. split; [done|]. intros Hne Hfit. destruct Hr as [Hr|[Hr|[b' Hr]]].
       - by apply Hr, (chunk_fits st loc progress count b o n).
       - destruct (Hne (block_size st) b). congruence.
       - destruct (Hne (block_size st) b'). congruence. }
  destruct Hr as (Hs1 & Hcb & [_ Hend]). pose proof Hs1 as (Hc1 & Hv1 & Hb1 & _). rewrite Hb1, (ch_at _ _ _ _ _ _ _ Hch).
  assert (Hlen : length (disk st1) = length (disk st)) by (rewrite <- (view_length st1), Hv1 by done; by apply view_length).
  destruct Hch. pose proof (good_size_pos _ (co_size _ Hc)) as Hsz.
  destruct (IH st1 (progress + n) Hc1 Hl ltac:(lia)) as (r & st2 & -> & Hrest2 & Hr2); [right; rewrite Hlen; nia|lia|].
  destruct (co_block _ Hc1 ltac:(rewrite Hcb; lia)) as (_ & _ & Hcl).
  destruct r as [bs|].
  - eexists (Some _), st2. split; [done|]. split; [by eapply same_rest_trans|]. destruct Hr2 as (Hs2 & Hr2 & ->). split; [by eapply same_view_trans|]. split.
    { intros _. destruct (decide (progress + n < count)) as [Hlt|Hge].
      - specialize (Hr2 Hlt). unfold fits in *. by rewrite Hlen, Hb1 in Hr2.
      - intros _. assert ((loc + count - 1) / block_size st = b) as ->; [|done]. symmetry. apply (Z.div_unique _ _ _ (o + n - 1)); [lia|].
        assert (n = count - progress) by lia. lia. }
    rewrite <- (view_block st1 b Hc1 Hcb) by lia. rewrite Hv1. unfold block_pos. rewrite Hb1.
    replace (Z.to_nat (b * block_size st) + Z.to_nat o)%nat with (Z.to_nat (loc + progress)) by lia.
    replace (Z.to_nat (loc + (progress + n))) with (Z.to_nat (loc + progress) + Z.to_nat n)%nat by lia. rewrite slice_app. f_equal. lia.
  - exists None, st2. split; [done|]. split; [by eapply same_rest_trans|]. intros Hne Hfit. apply (Hr2 Hne). by apply (fits_same st).
Qed.

(** Writing into the cached block changes the bytes of the device there. *)
Lemma write_cache st b o data : coherent st -> st.(cached_block) = b -> b <> W64 - 1 -> (o + length data <= length st.(cache))%nat ->
  let st' := set_cache_state st (overwrite st.(cache) o data) b true in
  coherent st' /\ view st' = overwrite (view st) (block_pos st b + o) data.
Proof.
  intros Hc E Hne Ho st'. subst b. destruct (co_block _ Hc Hne) as (H1 & H2 & H3). pose proof (good_size_pos _ (co_size _ Hc)) as Hs.
  split.
  - unfold st'. constructor; cbn [set_cache_state disk cache cached_block cache_dirty block_size]; try apply Hc; try done.
    intros _. by rewrite overwrite_length.
  - unfold st', view, block_pos. cbn [set_cache_state disk cache cached_block cache_dirty block_size]. rewrite (proj2 (Z.eqb_neq _ _) Hne).
    apply overwrite_nested; [nia|done].
Qed.

(** Two states that differ in the bytes of the device. *)
Definition wrote (st st' : host) (bytes : list Z) : Prop :=
  coherent st' /\ view st' = bytes /\ st'.(block_size) = st.(block_size) /\ st'.(uninstalling) = st.(uninstalling)
  /\ st'.(uninstall_data) = st.(uninstall_data).

Lemma write_chunks_spec fuel st buffer loc progress : coherent st -> 0 <= loc < W64 -> 0 <= progress ->
  progress = 0 \/ loc + progress <= Z.of_nat (length st.(disk)) -> Z.of_nat (length buffer) - progress <= Z.of_nat fuel ->
  exists r st', write_chunks fuel buffer loc progress st = (r, st') /\ same_rest st st'
    /\ match r with
       | Some _ => wrote st st' (overwrite (view st) (Z.to_nat (loc + progress)) (drop (Z.to_nat progress) buffer))
           /\ (progress < Z.of_nat (length buffer) -> loc + Z.of_nat (length buffer) <= Z.of_nat (length st.(disk)))
       | None => no_errors -> ~ fits st loc (Z.of_nat (length buffer))
       end.
Proof.
  set (count := Z.of_nat (length buffer)). revert st progress. induction fuel as [|fuel IH]; intros st progress Hc Hl Hp Hpos Hf.
  { cbn [write_chunks]. fold count. split_ltb progress count; [lia|]. exists (Some tt), st. split; [done|]. split; [done|].
    rewrite drop_ge, overwrite_nil by lia. split; [by split_and!|lia]. }
  cbn [write_chunks]. fold count. split_ltb progress count.
  2: { exists (Some tt), st. split; [done|]. split; [done|]. rewrite drop_ge, overwrite_nil by lia. split; [by split_and!|lia]. }
  pose proof (co_disk _ Hc) as Hd.
  destruct (next_chunk st loc progress count Hc) as (b & o & n & Hch); [lia..|].
  hm. rewrite <- (ch_block _ _ _ _ _ _ _ Hch).
  destruct (cache_block_spec st b Hc (ch_b _ _ _ _ _ _ _ Hch) (ch_wrap _ _ _ _ _ _ _ Hch)) as (r & st1 & -> & Hrest1 & Hr).
  destruct r as [[]|].
  2: { exists None, st1. split; [done|]. split; [done|]. intros Hne Hfit. destruct Hr as [Hr|[Hr|[b' Hr]]].
       - by apply Hr, (chunk_fits st loc progress count b o n).
       - destruct (Hne (block_size st) b). congruence.
       - destruct (Hne (block_size st) b'). congruence. }
  destruct Hr as (Hs1 & Hcb & [_ Hend]). pose proof Hs1 as (Hc1 & Hv1 & Hb1 & Hu1 & Hud1). rewrite Hb1, (ch_at _ _ _ _ _ _ _ Hch).
  assert (Hlen : length (disk st1) = length (disk st)) by (rewrite <- (view_length st1), Hv1 by done; by apply view_length).
  destruct Hch. pose proof (good_size_pos _ (co_size _ Hc)) as Hsz.
  destruct (co_block _ Hc1 ltac:(rewrite Hcb; lia)) as (_ & _ & Hcl). rewrite Hcb.
  set (data := slice (Z.to_nat progress) (Z.to_nat n) buffer).
  assert (Hdl : length data = Z.to_nat n) by (unfold data; rewrite slice_length; lia).
  destruct (write_cache st1 b (Z.to_nat o) data Hc1 Hcb ltac:(lia) ltac:(lia)) as [Hc2 Hv2]. set (st2 := set_cache_state _ _ _ _) in *.
  destruct (IH st2 (progress + n) Hc2 Hl ltac:(lia)) as (r & st3 & -> & Hrest3 & Hr3); [right; unfold st2; cbn; rewrite Hlen; nia|lia|].
  exists r, st3. split; [done|]. split; [by apply (same_rest_trans st st1 st3)|]. destruct r as [[]|].
  - destruct Hr3 as [(Hc3 & Hv3 & Hb3 & Hu3 & Hud3) Hr3]. split.
    2: { intros _. unfold st2 in Hr3. cbn [set_cache_state disk] in Hr3. rewrite Hlen in Hr3. destruct (decide (progress + n < count)); [by apply Hr3|]. nia. }
    split_and!; [done| |cbn in *; congruence..].
    rewrite Hv3, Hv2, Hv1. unfold block_pos. rewrite Hb1.
    replace (Z.to_nat (b * block_size st) + Z.to_nat o)%nat with (Z.to_nat (loc + progress)) by lia.
    replace (Z.to_nat (loc + (progress + n))) with (Z.to_nat (loc + progress) + length data)%nat by lia.
    rewrite overwrite_app.
    + f_equal. unfold data, slice. replace (Z.to_nat (progress + n)) with (Z.to_nat progress + Z.to_nat n)%nat by lia. rewrite <- drop_drop. apply take_drop.
    + rewrite view_length, Hdl, length_drop by done. unfold st2 in Hr3. cbn [set_cache_state disk] in Hr3. rewrite Hlen in Hr3.
      destruct (decide (progress + n < count)) as [Hlt|Hge]; [specialize (Hr3 Hlt); lia|nia].
  - intros Hne Hfit. apply (Hr3 Hne). unfold fits in *. unfold st2. cbn [set_cache_state disk block_size]. by rewrite Hlen, Hb1.
Qed.

(** ** [device_read] and [device_write] *)

Lemma device_read_spec st loc count : coherent st -> 0 <= count ->
  exists r st', device_read loc count st = (r, st') /\ same_rest st st'
    /\ match r with
       | Some bs => same_view st st' /\ fits st (u64 loc) count /\ bs = slice (Z.to_nat (u64 loc)) (Z.to_nat count) (view st)
       | None => no_errors -> ~ fits st (u64 loc) count
       end.
Proof.
  intros Hc Hn. assert (Hl : 0 <= u64 loc < W64) by (unfold u64; apply Z.mod_pos_bound; lia).
  destruct (read_chunks_spec (Z.to_nat count) st (u64 loc) 0 count Hc Hl) as (r & st' & E & Hrest & Hr); [lia|by left|lia|].
  exists r, st'. split; [done|]. split; [done|]. rewrite Z.add_0_r, Z.sub_0_r in Hr. destruct r; [|done].
  destruct Hr as (Hs & Hf & ->). split; [done|]. split; [|done]. intros Hp. by apply Hf.
Qed.
End device.

(** * Enrolling the checksum of a configuration

    The search for the place of the checksum ends, stays within the file, and finds the
    first signature that it can find; only the 128 bytes behind that one change. *)

Abbreviation SIG := CONFIG_B2SUM_SIGNATURE (only parsing).

Definition occurs (bootloader : list Z) (p : nat) : Prop := slice p 26 bootloader = SIG.

(** The last byte of the signature at [p] is before the end of the loop. *)
Definition in_reach (bootloader : list Z) (p : nat) : Prop := (p + 25 + 154 <= length bootloader)%nat.

Lemma slice_snoc (l : list Z) p n b : l !! (p + n)%nat = Some b -> slice p (S n) l = slice p n l ++ [b].
Proof. intros Hb. unfold slice. rewrite (take_S_r _ _ b); [done|]. by rewrite lookup_drop. Qed.

(** A byte that differs rules the signature out. *)
Lemma occurs_byte bl p c b s : occurs bl p -> (c < 26)%nat -> bl !! (p + c)%nat = Some b -> SIG !! c = Some s -> b = s.
Proof. intros Ho Hc Hb Hs. rewrite <- Ho, slice_lookup, decide_True, Hb in Hs by done. congruence. Qed.

Lemma find_spec fuel bl p c : (c <= 25)%nat -> slice p c bl = take c SIG -> ((length bl - p) * 27 <= fuel + c)%nat ->
  exists r, find_signature fuel bl (Z.of_nat (p + c)) (Z.of_nat c) = Ret r /\
    match r with
    | Some loc => exists q, (p <= q)%nat /\ loc = Z.of_nat (q + 26) /\ occurs bl q /\ in_reach bl q /\ forall k, (p <= k < q)%nat -> ~ occurs bl k
    | None => forall k, (p <= k)%nat -> in_reach bl k -> ~ occurs bl k
    end.
Proof.
  unfold in_reach. revert p c. induction fuel as [|fuel IH]; intros p c Hc Hm Hf; cbn [find_signature]; change min_size with 154;
    (split_leb (Z.of_nat (length bl) - 154 + 1) (Z.of_nat (p + c)); [exists None; split; [done|]; intros k; lia|]); [lia|].
  rewrite !Nat2Z.id. destruct (lookup_lt_is_Some_2 bl (p + c)%nat) as [b Hb]; [lia|].
  destruct (lookup_lt_is_Some_2 SIG c) as [s Hs]; [change (length SIG) with 26%nat; lia|]. unfold get. rewrite Hb, Hs. cbn [mbind outcome_bind].
  split_eqb b s; cbn [negb].
  - subst s. change (Z.of_nat (length SIG)) with 26. pose proof (slice_snoc bl p c b Hb) as Hsn. rewrite Hm, <- take_S_r in Hsn by done.
    split_eqb (Z.of_nat c + 1) 26.
    + assert (c = 25%nat) as -> by lia. exists (Some (Z.of_nat (p + 25) + 1)). split; [done|]. exists p. split_and!; [done|lia|done|lia|lia].
    + replace (Z.of_nat (p + c) + 1) with (Z.of_nat (p + S c)) by lia. replace (Z.of_nat c + 1) with (Z.of_nat (S c)) by lia. apply IH; [lia|done|lia].
  - replace (Z.of_nat (p + c) - Z.of_nat c + 1) with (Z.of_nat (S p + 0)) by lia.
    destruct (IH (S p) 0%nat ltac:(lia) eq_refl ltac:(lia)) as (r & Er & Hr). exists r. split; [done|].
    assert (Hp : ~ occurs bl p) by (intros Ho; by apply E0, (occurs_byte bl p c b s Ho ltac:(lia))).
    destruct r as [loc|].
    + destruct Hr as (q & Hq & Hloc & Ho & Hin & Hk). exists q. split_and!; [lia|done..|]. intros k Hkq. destruct (decide (k = p)) as [->|]; [done|]. apply Hk. lia.
    + intros k Hkp Hin. destruct (decide (k = p)) as [->|]; [done|]. apply Hr; [lia|done].
Qed.

(** What is written behind the signature. *)
Definition enrolled (b2sum : option (list Z)) : list Z := match b2sum with Some h => take 128 h | None => replicate 128 48 end.
Definition valid_b2sum (b2sum : option (list Z)) : Prop := match b2sum with Some h => strlen h = 128 | None => True end.

Lemma cstring_le s : (length (cstring s) <= length s)%nat.
Proof. induction s as [|c s IH]; cbn [cstring length]; [done|]. destruct (c =? 0); cbn [length]; lia. Qed.

Lemma enrolled_length b2sum : valid_b2sum b2sum -> length (enrolled b2sum) = 128%nat.
Proof.
  destruct b2sum as [h|]; cbn [valid_b2sum enrolled]; [|by rewrite length_replicate]. unfold strlen. intros Hh.
  pose proof (cstring_le h). rewrite length_take. lia.
Qed.

(** [enroll_config] ends without an access outside of the executable.  It succeeds if and
    only if a signature is in reach, and then it writes the 128 bytes behind the first one
    and keeps all others. *)
Theorem enroll_config_correct (b2sum : option (list Z)) (bl : list Z) :
  valid_b2sum b2sum ->
  (exists p, occurs bl p /\ in_reach bl p /\ (forall k, (k < p)%nat -> ~ occurs bl k)
     /\ length (enrolled b2sum) = 128%nat /\ enroll_config b2sum bl = Ret (Some (overwrite bl (p + 26) (enrolled b2sum))))
  \/ (forall k, in_reach bl k -> ~ occurs bl k) /\ enroll_config b2sum bl = Ret None.
Proof.
  intros Hv. unfold enroll_config.
  assert (Hbad : match b2sum with Some h => negb (strlen h =? 128) | None => false end = false) by (destruct b2sum as [h|]; [cbn in Hv; by rewrite Hv|done]).
  rewrite Hbad. change min_size with 154. split_ltb (Z.of_nat (length bl)) 154.
  { right. split; [|done]. unfold in_reach. intros k. lia. }
  destruct (find_spec (length bl * (length SIG + 1)) bl 0 0 ltac:(lia) eq_refl) as (r & Er & Hr); [change (length SIG + 1)%nat with 27%nat; lia|].
  change (find_signature _ bl 0 0) with (find_signature (length bl * (length SIG + 1)) bl (Z.of_nat (0 + 0)) (Z.of_nat 0)). rewrite Er. cbn [mbind outcome_bind].
  destruct r as [loc|]; [|right; split; [intros k Hk; by apply Hr; [lia|]|done]].
  left. destruct Hr as (q & _ & -> & Ho & Hin & Hk). exists q. split_and!; [done..|intros k Hkq; apply Hk; lia|by apply enrolled_length|].
  rewrite Nat2Z.id. fold (enrolled b2sum). pose proof (enrolled_length b2sum Hv) as Hle.
  unfold in_reach in Hin. rewrite blit_fit by lia. done.
Qed.

Lemma enroll_config_correct_witness :
  let bl := replicate 10 43 ++ SIG ++ replicate 200 0 in
  exists p, occurs bl p /\ enroll_config None bl = Ret (Some (overwrite bl (p + 26) (enrolled None))).
Proof.
  destruct (enroll_config_correct None (replicate 10 43 ++ SIG ++ replicate 200 0) I) as [(p & Ho & _ & _ & _ & E)|[Hn _]]; [by exists p|].
  destruct (Hn 10%nat); [unfold in_reach; apply Nat.leb_le|]; vm_compute; reflexivity.
Defined.

(** The bound of the loop is the one for the start of a signature, but it is used for the
    last byte of it: a signature with its 128 bytes at the very end of the file is not found. *)
Lemma signature_at_the_end : enroll_config None (SIG ++ replicate 128 48) = Ret None.
Proof. vm_compute. reflexivity. Qed.
