(* ===== verification/HostUndo.v ===== *)
(** * Undoing an installation

    Every write of the installer keeps the bytes it replaces.  However the installation
    ends, writing them back in the opposite order restores the device. *)

From S2P Require Import Prelude Bytes Libc Host HostDevice.

(** ** Records of writes *)

Definition apply_undo (recs : list (list Z * Z)) (d : list Z) : list Z :=
  foldl (fun d r => overwrite d (Z.to_nat r.2) r.1) d recs.

Definition in_rec (r : list Z * Z) (x : nat) : Prop := (Z.to_nat r.2 <= x < Z.to_nat r.2 + length r.1)%nat.
Definition touched (recs : list (list Z * Z)) (x : nat) : Prop := exists r, r ∈ recs /\ in_rec r x.

(** Bytes that differ from the original ones only where there was a write. *)
Definition agrees (orig : list Z) (recs : list (list Z * Z)) (d : list Z) : Prop :=
  length d = length orig /\ forall x, ~ touched recs x -> d !! x = orig !! x.

(** From any such bytes the records lead back. *)
Definition undoes (orig : list Z) (recs : list (list Z * Z)) : Prop :=
  forall d, agrees orig recs d -> apply_undo (rev recs) d = orig.

Definition rec_fits (n : nat) (r : list Z * Z) : Prop := (Z.to_nat r.2 + length r.1 <= n)%nat.

Lemma touched_snoc recs r x : touched (recs ++ [r]) x <-> touched recs x \/ in_rec r x.
Proof.
  unfold touched. split.
  - intros (r' & Hr & Hx). apply elem_of_app in Hr as [Hr|Hr]; [left; by exists r'|]. right. apply list_elem_of_singleton in Hr as ->. done.
  - intros [(r' & Hr & Hx)|Hx]; [exists r'|exists r]; (split; [|done]); apply elem_of_app; [by left|right; by apply list_elem_of_singleton].
Qed.

Lemma in_rec_dec r x : Decision (in_rec r x).
Proof. unfold in_rec. apply _. Defined.

(** The record of one more write. *)
Lemma undoes_snoc orig recs cur loc n : undoes orig recs -> agrees orig recs cur -> (loc + n <= length orig)%nat ->
  undoes orig (recs ++ [(slice loc n cur, Z.of_nat loc)]).
Proof.
  intros Hu [Hl Hc] Hn d [Hd Ha]. rewrite rev_app_distr. cbn [rev app apply_undo foldl fst snd]. apply Hu. rewrite Nat2Z.id.
  assert (Hsl : length (slice loc n cur) = n) by (apply slice_length; lia). split; [rewrite overwrite_length; lia|].
  intros x Hx. rewrite overwrite_lookup by lia. rewrite Hsl. case_decide as Hin.
  - rewrite slice_lookup. case_decide; [|lia]. replace (loc + (x - loc))%nat with x by lia. by apply Hc.
  - apply Ha. rewrite touched_snoc. intros [|Hi]; [done|]. unfold in_rec in Hi. cbn [fst snd] in Hi. rewrite Nat2Z.id, Hsl in Hi. lia.
Qed.

Lemma agrees_snoc orig recs cur data loc buf : agrees orig recs cur -> length data = length buf -> (loc + length buf <= length orig)%nat ->
  agrees orig (recs ++ [(data, Z.of_nat loc)]) (overwrite cur loc buf).
Proof.
  intros [Hl Hc] Hd Hn. split; [rewrite overwrite_length; lia|]. intros x Hx. rewrite overwrite_lookup by lia. case_decide as Hin.
  - destruct Hx. rewrite touched_snoc. right. unfold in_rec. cbn [fst snd]. rewrite Nat2Z.id. lia.
  - apply Hc. intros Ht. apply Hx. rewrite touched_snoc. by left.
Qed.

Lemma agrees_more orig recs r d : agrees orig recs d -> agrees orig (recs ++ [r]) d.
Proof. intros [Hl Hc]. split; [done|]. intros x Hx. apply Hc. intros Ht. apply Hx. rewrite touched_snoc. by left. Qed.

(** ** The state of an installation *)

Definition rec_ok (st : host) (r : list Z * Z) : Prop :=
  0 <= r.2 < W64 /\ fits st r.2 (Z.of_nat (length r.1)) /\ r.1 <> [].

Record tracked (orig : list Z) (st : host) : Prop := {
  tr_co : coherent st;
  tr_size : st.(block_size) = 512;
  tr_installing : st.(uninstalling) = false;
  tr_disk : agrees orig st.(uninstall_data) st.(disk);
  tr_view : agrees orig st.(uninstall_data) (view st);
  tr_undo : undoes orig st.(uninstall_data);
  tr_recs : Forall (rec_ok st) st.(uninstall_data);
  tr_max : Z.of_nat (length st.(uninstall_data)) <= UNINSTALL_DATA_MAX
}.

(** What is left of it when a step fails, which may spoil the cache. *)
Record undoable (orig : list Z) (st : host) : Prop := {
  un_size : st.(block_size) = 512;
  un_len : Z.of_nat (length st.(disk)) < 2 ^ 63;
  un_disk : agrees orig st.(uninstall_data) st.(disk);
  un_undo : undoes orig st.(uninstall_data);
  un_recs : Forall (rec_ok st) st.(uninstall_data);
  un_max : Z.of_nat (length st.(uninstall_data)) <= UNINSTALL_DATA_MAX
}.

Lemma tracked_undoable orig st : tracked orig st -> undoable orig st.
Proof. intros []. constructor; try done. by apply co_disk. Qed.

Section undo.
Context `{HostFile}.
Context (Hio : no_errors).

(** The file keeps agreeing, whatever is flushed. *)
Lemma flush_disk st : coherent st -> (device_flush_cache st).2.(disk) = st.(disk) \/ (device_flush_cache st).2.(disk) = view st.
Proof. intros Hc. destruct (flush_spec st Hc) as (r & st' & -> & _ & Hr). destruct r as [[]|]; [right; apply Hr|left]. by destruct Hr as [-> _]. Qed.

Lemma cache_block_disk st b : coherent st -> (device_cache_block b st).2.(disk) = st.(disk) \/ (device_cache_block b st).2.(disk) = view st.
Proof.
  intros Hc. unfold device_cache_block. hm. destruct (cached_block st =? b); [by left|]. pose proof (flush_disk st Hc) as Hf.
  destruct (cache_dirty st).
  - destruct (device_flush_cache st) as [[[]|] st1]; cbn [snd] in *; [|done]. destruct (_ && _); cbn; done.
  - destruct (_ && _); cbn; by left.
Qed.

(** Reading flushes at most what the view shows. *)
Lemma read_chunks_disk fuel st loc progress count : coherent st -> 0 <= loc < W64 -> 0 <= progress ->
  progress = 0 \/ loc + progress <= Z.of_nat (length st.(disk)) -> count - progress <= Z.of_nat fuel ->
  (read_chunks fuel loc progress count st).2.(disk) = st.(disk) \/ (read_chunks fuel loc progress count st).2.(disk) = view st.
Proof.
  revert st progress. induction fuel as [|fuel IH]; intros st progress Hc Hl Hp Hpos Hf; cbn [read_chunks].
  { split_ltb progress count; by left. }
  split_ltb progress count; [|by left]. pose proof (co_disk _ Hc) as Hd.
  destruct (next_chunk st loc progress count Hc) as (b & o & n & Hch); [lia..|]. hm. rewrite <- (ch_block _ _ _ _ _ _ _ Hch).
  pose proof (cache_block_disk st b Hc) as Hcd.
  destruct (cache_block_spec st b Hc (ch_b _ _ _ _ _ _ _ Hch) (ch_wrap _ _ _ _ _ _ _ Hch)) as (r & st1 & Ec & _ & Hr).
  rewrite Ec in *. cbn [snd] in Hcd. destruct r as [[]|]; [|done]. destruct Hr as ((Hc1 & Hv1 & Hb1 & _) & Hr). rewrite Hb1, (ch_at _ _ _ _ _ _ _ Hch).
  assert (Hlen : length (disk st1) = length (disk st)) by (rewrite <- (view_length st1), Hv1 by done; by apply view_length).
  destruct Hr as [_ [_ Hend]]. destruct Hch.
  specialize (IH st1 (progress + n) Hc1 Hl ltac:(lia) ltac:(right; nia) ltac:(lia)). rewrite Hv1 in IH.
  destruct (read_chunks fuel loc (progress + n) count st1) as [[?|] st2]; cbn [snd] in *; (destruct IH as [->|]; [done|by right]).
Qed.

Definition triple {A} (m : HM A) (Q : A -> Prop) : Prop :=
  forall orig st, tracked orig st -> undoable orig (m st).2 /\ forall a, (m st).1 = Some a -> tracked orig (m st).2 /\ Q a.

Lemma triple_ret {A} (a : A) (Q : A -> Prop) : Q a -> triple (mret a) Q.
Proof. intros HQ orig st Ht. split; [by apply tracked_undoable|]. by intros a' [= <-]. Qed.
Lemma triple_cleanup {A} (Q : A -> Prop) : triple cleanup Q.
Proof. intros orig st Ht. split; [by apply tracked_undoable|done]. Qed.
Lemma triple_bind {A B} (m : HM A) (f : A -> HM B) P Q : triple m P -> (forall a, P a -> triple (f a) Q) -> triple (m ≫= f) Q.
Proof.
  intros Hm Hf orig st Ht. destruct (Hm orig st Ht) as [H1 H2]. hm. destruct (m st) as [[a|] st1]; cbn [fst snd] in *; [|by split].
  destruct (H2 a eq_refl) as [Ht1 HP]. by apply (Hf a HP orig st1).
Qed.
Lemma triple_weaken {A} (m : HM A) (P Q : A -> Prop) : triple m P -> (forall a, P a -> Q a) -> triple m Q.
Proof. intros Hm HPQ orig st Ht. destruct (Hm orig st Ht) as [H1 H2]. split; [done|]. intros a Ha. destruct (H2 a Ha) as [Ht' HP]. auto. Qed.

Lemma rec_ok_same st st' r : coherent st -> same_view st st' -> rec_ok st r -> rec_ok st' r.
Proof. intros Hc Hs (H1 & H2 & H3). split; [done|]. split; [by apply (fits_same st)|done]. Qed.

Lemma tracked_same orig st st' : tracked orig st -> same_view st st' -> (st'.(disk) = st.(disk) \/ st'.(disk) = view st) -> tracked orig st'.
Proof.
  intros Ht Hs Hd. pose proof Hs as (Hc & Hv & Hb & Hu & Hud). destruct Ht. constructor; rewrite ?Hud, ?Hv, ?Hu, ?Hb; try done.
  - by destruct Hd as [-> | ->].
  - eapply Forall_impl; [done|]. intros r. by apply rec_ok_same.
Qed.

Lemma tracked_failed orig st st' : tracked orig st -> same_rest st st' -> (st'.(disk) = st.(disk) \/ st'.(disk) = view st) -> undoable orig st'.
Proof.
  intros Ht (Hb & Hu & Hud) Hd. assert (Hlen : length (disk st') = length (disk st)) by (destruct Hd as [-> | ->]; [done|apply view_length, Ht]).
  destruct Ht. constructor; rewrite ?Hud, ?Hb, ?Hlen; try done.
  - by apply co_disk.
  - by destruct Hd as [-> | ->].
  - eapply Forall_impl; [done|]. intros r (H1 & H2 & H3). split; [done|]. split; [|done]. unfold fits in *. by rewrite Hb, Hlen.
Qed.

Lemma triple_read loc count : 0 <= count -> triple (device_read loc count) (fun bs => length bs = Z.to_nat count).
Proof.
  intros Hn orig st Ht. pose proof (tr_co _ _ Ht) as Hc. assert (Hl : 0 <= u64 loc < W64) by (unfold u64; apply Z.mod_pos_bound; lia).
  pose proof (read_chunks_disk (Z.to_nat count) st (u64 loc) 0 count Hc Hl ltac:(lia) ltac:(by left) ltac:(lia)) as Hd.
  destruct (device_read_spec st loc count Hc Hn) as (r & st' & E & Hrest & Hr). unfold device_read in *. rewrite E in *. cbn [fst snd] in *.
  split; [by apply (tracked_failed orig st)|]. intros bs ->. destruct Hr as (Hs & Hf & ->). split; [by apply (tracked_same orig st)|].
  destruct (decide (count = 0)) as [->|]; [done|]. apply fits_end in Hf; [|done|lia|lia]. apply slice_length. rewrite view_length by done. lia.
Qed.

(** Outside of what is written, the file has its bytes, or those of the view. *)
Lemma write_chunks_disk fuel st buffer loc progress : coherent st -> 0 <= loc < W64 -> 0 <= progress ->
  progress = 0 \/ loc + progress <= Z.of_nat (length st.(disk)) -> Z.of_nat (length buffer) - progress <= Z.of_nat fuel ->
  let st' := (write_chunks fuel buffer loc progress st).2 in
  length st'.(disk) = length st.(disk) /\
  forall x, ~ (Z.to_nat loc <= x < Z.to_nat loc + length buffer)%nat -> st'.(disk) !! x = st.(disk) !! x \/ st'.(disk) !! x = view st !! x.
Proof.
  set (count := Z.of_nat (length buffer)). revert st progress.
  induction fuel as [|fuel IH]; intros st progress Hc Hl Hp Hpos Hf; cbn [write_chunks]; fold count.
  { split_ltb progress count; (split; [done|]); by left. }
  split_ltb progress count; [|split; [done|]; by left]. pose proof (co_disk _ Hc) as Hd.
  destruct (next_chunk st loc progress count Hc) as (b & o & n & Hch); [lia..|]. hm. rewrite <- (ch_block _ _ _ _ _ _ _ Hch).
  pose proof (cache_block_disk st b Hc) as Hcd.
  destruct (cache_block_spec st b Hc (ch_b _ _ _ _ _ _ _ Hch) (ch_wrap _ _ _ _ _ _ _ Hch)) as (r & st1 & Ec & _ & Hr).
  rewrite Ec in *. cbn [snd] in Hcd.
  assert (Hlen : length (disk st1) = length (disk st)) by (destruct Hcd as [-> | ->]; [done|by apply view_length]).
  destruct r as [[]|]; [|cbn [snd]; split; [done|]; intros x _; destruct Hcd as [-> | ->]; by auto].
  destruct Hr as ((Hc1 & Hv1 & Hb1 & _) & Hcb & [_ Hend]). rewrite Hb1, (ch_at _ _ _ _ _ _ _ Hch). destruct Hch. pose proof (good_size_pos _ (co_size _ Hc)) as Hsz.
  destruct (co_block _ Hc1 ltac:(rewrite Hcb; lia)) as (_ & _ & Hcl). rewrite Hcb.
  set (data := slice (Z.to_nat progress) (Z.to_nat n) buffer).
  assert (Hdl : length data = Z.to_nat n) by (unfold data; rewrite slice_length; lia).
  destruct (write_cache st1 b (Z.to_nat o) data Hc1 Hcb ltac:(lia) ltac:(lia)) as [Hc2 Hv2]. set (st2 := set_cache_state _ _ _ _) in *.
  destruct (IH st2 (progress + n) Hc2 Hl ltac:(lia)) as [IH1 IH2]; [right; unfold st2; cbn; nia|lia|].
  split; [by rewrite IH1|]. intros x Hx. destruct (IH2 x Hx) as [-> | ->].
  - unfold st2. cbn [set_cache_state disk]. destruct Hcd as [-> | ->]; by auto.
  - right. rewrite Hv2, Hv1, overwrite_lookup by (rewrite view_length by done; unfold block_pos; rewrite Hb1; lia).
    rewrite decide_False; [done|]. unfold block_pos. rewrite Hb1. lia.
Qed.

Lemma triple_write buffer loc : buffer <> [] -> triple (device_write buffer loc) (fun _ => True).
Proof.
  intros Hne orig st Ht. unfold device_write. hm. rewrite (tr_installing _ _ Ht).
  split_leb UNINSTALL_DATA_MAX (Z.of_nat (length (uninstall_data st))); [by apply triple_cleanup|].
  set (n := Z.of_nat (length buffer)). pose proof (tr_co _ _ Ht) as Hc. set (l := u64 loc).
  assert (Hl : 0 <= l < W64) by (unfold l, u64; apply Z.mod_pos_bound; lia). assert (Hll : u64 l = l) by (unfold u64; by apply Z.mod_small).
  pose proof (triple_read l n ltac:(lia) orig st Ht) as [Hun1 Ht1].
  destruct (device_read_spec st l n Hc ltac:(lia)) as (r & st1 & E1 & _ & Hr). rewrite E1 in *. cbn [fst snd] in *. rewrite Hll in Hr.
  destruct r as [data|]; [|done]. destruct (Ht1 data eq_refl) as [Ht1' _]. clear Ht1. rename Ht1' into Ht1. destruct Hr as (Hs1 & Hfit & ->). pose proof Hs1 as (Hc1 & Hv1 & Hb1 & Hu1 & Hud1).
  assert (Hn : 0 < n) by (unfold n; destruct buffer; [done|cbn; lia]).
  pose proof (fits_same st st1 l n Hc Hs1 Hfit) as Hfit1. pose proof (fits_end st1 l n Hc1 ltac:(lia) Hn Hfit1) as Hend.
  pose proof (write_chunks_disk (length buffer) st1 buffer l 0 Hc1 Hl ltac:(lia) ltac:(by left) ltac:(lia)) as [Hwd1 Hwd2].
  destruct (write_chunks_spec (length buffer) st1 buffer l 0 Hc1 Hl ltac:(lia) ltac:(by left) ltac:(lia)) as (r & st2 & E2 & _ & Hr2).
  rewrite E2 in *. cbn [snd] in *. destruct r as [[]|]; [|by destruct (Hr2 Hio)].
  destruct Hr2 as [(Hc2 & Hv2 & Hb2 & Hu2 & Hud2) _]. rewrite Z.add_0_r in Hv2. change (drop (Z.to_nat 0) buffer) with (drop 0 buffer) in Hv2. rewrite drop_0, Hv1 in Hv2.
  assert (Hlen1 : length (disk st1) = length orig) by (apply Ht1). assert (Hvl : length (view st) = length orig) by (apply Ht).
  assert (Hsl : length (slice (Z.to_nat l) (Z.to_nat n) (view st)) = length buffer) by (rewrite slice_length; lia).
  assert (El : Z.of_nat (Z.to_nat l) = l) by lia. cbn [fst snd].
  set (st' := set_uninstall _ _ _). assert (Ht' : tracked orig st'); [|split; [by apply tracked_undoable|done]]. unfold st'. constructor; cbn [set_uninstall disk cache cached_block cache_dirty block_size uninstalling uninstall_data].
  - destruct Hc2. by constructor.
  - rewrite Hb2, Hb1. apply Ht.
  - rewrite Hu2, Hu1. apply Ht.
  - rewrite Hud2, Hud1. split; [by rewrite Hwd1, Hlen1|]. intros x Hx. rewrite touched_snoc in Hx. unfold in_rec in Hx. cbn [fst snd] in Hx. rewrite Hsl in Hx.
    destruct (Hwd2 x ltac:(tauto)) as [-> | ->].
    + destruct Ht1 as [_ _ _ [_ Hd] _ _ _ _]. rewrite Hud1 in Hd. apply Hd. tauto.
    + rewrite Hv1. destruct Ht as [_ _ _ _ [_ Hd] _ _ _]. apply Hd. tauto.
  - rewrite Hud2, Hud1. change (view (set_uninstall st2 _ _)) with (view st2). rewrite Hv2.
    pose proof (agrees_snoc orig _ (view st) _ (Z.to_nat l) buffer (tr_view _ _ Ht) Hsl ltac:(lia)) as Ha. by rewrite El in Ha.
  - rewrite Hud2, Hud1. pose proof (undoes_snoc orig _ (view st) (Z.to_nat l) (Z.to_nat n) (tr_undo _ _ Ht) (tr_view _ _ Ht) ltac:(lia)) as Ha. by rewrite El in Ha.
  - rewrite Hud2, Hud1. apply Forall_app. split.
    + eapply Forall_impl; [apply Ht|]. intros r (H1 & H2 & H3). split; [done|]. split; [|done]. unfold fits in *. cbn [set_uninstall disk block_size].
      rewrite Hb2, Hb1, Hwd1, Hlen1. by rewrite (proj1 (tr_disk _ _ Ht)) in H2.
    + constructor; [|done]. split; [done|]. cbn [fst snd]. rewrite Hsl. split; [|intros E0; rewrite E0 in Hsl; by destruct buffer].
      unfold fits in *. cbn [set_uninstall disk block_size]. fold n. rewrite Hb2, Hwd1. done.
  - rewrite Hud2, Hud1, length_app. cbn [length]. lia.
Qed.

Lemma triple_flush : triple device_flush_cache (fun _ => True).
Proof.
  intros orig st Ht. pose proof (flush_disk st (tr_co _ _ Ht)) as Hd.
  destruct (flush_spec st (tr_co _ _ Ht)) as (r & st' & E & Hs & _). rewrite E in *. cbn [fst snd] in *.
  assert (Ht' : tracked orig st') by (by apply (tracked_same orig st)). split; [by apply tracked_undoable|done].
Qed.

(** ** The steps of an installation *)

Definition keeps {A} (m : HM A) : Prop := triple m (fun _ => True).

Lemma keeps_ret {A} (a : A) : keeps (mret a).
Proof. by apply triple_ret. Qed.
Lemma keeps_cleanup {A} : keeps (@cleanup A).
Proof. apply triple_cleanup. Qed.
Lemma keeps_bind {A B} (m : HM A) (f : A -> HM B) : keeps m -> (forall a, keeps (f a)) -> keeps (m ≫= f).
Proof. intros Hm Hf. apply (triple_bind _ _ (fun _ => True)); [done|]. intros a _. apply Hf. Qed.
Lemma keeps_read loc count : 0 <= count -> keeps (device_read loc count).
Proof. intros Hn. eapply triple_weaken; [by apply triple_read|done]. Qed.

(** A step that only composes the others. *)
Ltac keep :=
  repeat match goal with
  | |- keeps (mret _) => apply keeps_ret
  | |- keeps cleanup => apply keeps_cleanup
  | |- keeps (device_read _ _) => apply keeps_read; lia
  | |- keeps (device_write _ _) => apply triple_write; done
  | |- keeps (_ ≫= _) => apply keeps_bind; [|intros ?]
  | |- keeps (if ?b then _ else _) => destruct b
  | |- keeps (let '(_, _) := ?x in _) => destruct x
  | |- keeps (match ?x with _ => _ end) => destruct x
  | |- _ => done
  end.

Lemma keeps_signature force sig loc n : (0 < n)%nat -> keeps (check_signature force sig loc n).
Proof. intros Hn. unfold check_signature. keep. apply triple_write. by destruct n; [lia|]. Qed.

Lemma keeps_and a b : keeps a -> keeps b -> keeps (and_then a b).
Proof. intros Ha Hb. unfold and_then. keep. Qed.

Lemma keeps_validate offset force : keeps (validate_or_force offset force).
Proof. unfold validate_or_force. repeat apply keeps_and; apply keeps_signature; lia. Qed.

Context (be : bool).

Lemma keeps_gather n i base size parts : keeps (gather be n i base size parts).
Proof. revert i parts. induction n as [|n IH]; intros i parts; cbn [gather]; keep; apply IH. Qed.

Lemma keeps_nuke n lba lb : 0 < lb -> keeps (nuke n lba lb).
Proof.
  intros Hlb. revert lba. induction n as [|n IH]; intros lba; cbn [nuke]; keep; try apply IH. apply triple_write.
  intros E. apply (f_equal length) in E. rewrite length_replicate in E. cbn in E. lia.
Qed.

Lemma keeps_id id loc : keeps (write_id id loc).
Proof. revert loc. induction id as [|r id IH]; intros loc; cbn [write_id]; keep; apply IH. Qed.

Lemma store_nonempty n v : native_store be (S n) v <> [].
Proof. unfold native_store. cbn [le_store]. destruct be; [|done]. cbn [rev]. by destruct (rev _). Qed.

Lemma chs_nonempty lba : lba2chs lba <> [].
Proof. unfold lba2chs. by repeat case_match. Qed.

Definition part_ok (p : part_to_conv) : Prop := p.(chs_start) <> [] /\ p.(chs_end) <> [].

Lemma convert_entry_ok e p : convert_entry be e = Some p -> part_ok p.
Proof. unfold convert_entry. repeat case_match; try done. intros [= <-]. split; apply chs_nonempty. Qed.

Lemma keeps_parts parts loc : Forall part_ok parts -> keeps (write_parts be parts loc).
Proof.
  intros Hp. revert loc. induction Hp as [|p parts [Hs He] _ IH]; intros loc; cbn [write_parts]; keep; try apply IH.
  all: apply triple_write, store_nonempty.
Qed.

(** The partitions that are gathered can be written. *)
Lemma triple_gather n i base size parts : Forall part_ok parts ->
  triple (gather be n i base size parts) (fun r => match r with Some ps => Forall part_ok ps | None => True end).
Proof.
  revert i parts. induction n as [|n IH]; intros i parts Hp; cbn [gather]; [by apply triple_ret|].
  destruct (add_overflow _ _); [|by apply triple_ret]. eapply (triple_bind _ _ (fun _ => True)); [apply keeps_read; lia|]. intros bs _.
  destruct (bool_decide _); [by apply IH|]. destruct (decide _); [by apply triple_ret|].
  destruct (convert_entry be (load_gpt_entry be bs)) as [p|] eqn:E; [|by apply triple_ret]. apply IH, Forall_app. split; [done|].
  constructor; [|done]. by eapply convert_entry_ok.
Qed.

Lemma keeps_convert lb h id : 0 < lb -> keeps (convert_gpt be lb h id).
Proof.
  intros Hlb. unfold convert_gpt. apply keeps_bind; [apply keeps_read; lia|]. intros sig. destruct (negb _); [apply keeps_ret|].
  destruct (mul_overflow _ _); [|apply keeps_ret]. eapply triple_bind; [by apply triple_gather|]. intros [ps|] Hps; [|apply keeps_ret].
  apply keeps_bind; [by apply keeps_nuke|intros _]. apply keeps_bind; [destruct (_ <=? _); [by apply keeps_nuke|apply keeps_ret]|intros _].
  apply keeps_bind; [apply keeps_id|intros _]. apply keeps_bind; [by apply keeps_parts|intros _]. apply keeps_ret.
Qed.

Lemma keeps_mbr_entries force locs mbr act : keeps (check_mbr_entries be force locs mbr act).
Proof.
  revert mbr act. induction locs as [|l locs IH]; intros mbr act; cbn [check_mbr_entries]; keep; try apply IH. unfold check_mbr_entry. keep.
Qed.

Lemma keeps_mbr force : keeps (check_mbr be force).
Proof. unfold check_mbr. keep; try apply keeps_mbr_entries; apply keeps_validate. Qed.

Lemma keeps_autodetect n i base size : keeps (autodetect be n i base size).
Proof. revert i. induction n as [|n IH]; intros i; cbn [autodetect]; keep; apply IH. Qed.

Lemma keeps_stage2 force ndx lb h : keeps (gpt_stage2 be force ndx lb h).
Proof.
  unfold gpt_stage2. keep; try apply keeps_validate. unfold select_partition. keep. apply keeps_autodetect.
Qed.

Lemma keeps_stages img loc : (512 < length img)%nat -> keeps (write_stages be img loc).
Proof.
  intros Hi. unfold write_stages. eapply triple_bind; [by apply (triple_read 218 6)|]. intros ts Hts.
  eapply triple_bind; [by apply (triple_read 440 70)|]. intros mbr Hmbr.
  apply keeps_bind; [|intros _]. { apply triple_write. by destruct img; [cbn in Hi; lia|]. }
  apply keeps_bind; [|intros _]. { apply triple_write. intros E. apply (f_equal length) in E. rewrite length_drop in E. cbn in E. lia. }
  apply keeps_bind; [apply triple_write, store_nonempty|intros _].
  apply keeps_bind; [apply triple_write; by destruct ts|intros _]. apply keeps_bind; [apply triple_write; by destruct mbr|intros _]. apply triple_flush.
Qed.

Lemma triple_probe gs : Forall (fun g => 0 < g) gs -> triple (probe_gpt be gs) (fun r => match r with Some (lb, _) => 0 < lb | None => True end).
Proof.
  intros Hg. induction Hg as [|g gs Hg _ IH]; cbn [probe_gpt]; [by apply triple_ret|].
  eapply triple_bind; [apply keeps_read; lia|]. intros bs _. destruct (_ =? 0); [by apply triple_ret|done].
Qed.

Lemma keeps_install img id force conv ndx : (512 < length img)%nat -> keeps (install be img id force conv ndx).
Proof.
  intros Hi. unfold install. eapply triple_bind; [apply triple_probe; repeat (constructor; [lia|]); constructor|].
  intros g Hg. apply keeps_bind; [|intros g']. { unfold check_secondary. destruct g as [[lb h]|]; keep. by apply keeps_convert. }
  apply keeps_bind; [|intros loc]. { keep; [apply keeps_stage2|apply keeps_mbr]. } by apply keeps_stages.
Qed.

(** ** Writing the records back *)

Lemma forget_coherent st : good_size st.(block_size) -> Z.of_nat (length st.(disk)) < 2 ^ 63 -> coherent (forget_cache st) /\ view (forget_cache st) = st.(disk).
Proof. intros Hs Hd. split; [|done]. by constructor. Qed.

Lemma rec_ok_wrote st st' d r : coherent st -> wrote st st' d -> length d = length st.(disk) -> rec_ok st r -> rec_ok st' r.
Proof.
  intros Hc (Hc' & Hv & Hb & _) Hl (H1 & H2 & H3). split; [done|]. split; [|done]. unfold fits in *. rewrite Hb. rewrite <- (view_length st'), Hv, Hl by done. done.
Qed.

Lemma restore_all_spec recs f st : coherent st -> st.(uninstalling) = true -> Forall (rec_ok st) recs ->
  exists st', restore_all recs f st = (f, st') /\ wrote st st' (apply_undo recs (view st)).
Proof.
  revert st. induction recs as [|[d loc] recs IH]; intros st Hc Hu Hr; [exists st; by destruct f|].
  apply Forall_cons in Hr as [(Hl & Hf & Hne) Hr]. cbn [fst snd] in *. cbn [restore_all]. unfold restore, device_write. hm. rewrite Hu.
  assert (Hll : u64 loc = loc) by (unfold u64; by apply Z.mod_small). rewrite Hll.
  destruct (write_chunks_spec (length d) st d loc 0 Hc Hl ltac:(lia) ltac:(by left) ltac:(lia)) as (r & st1 & -> & _ & Hw).
  destruct r as [[]|]; [|by destruct (Hw Hio)]. destruct Hw as [Hw _]. rewrite Z.add_0_r in Hw.
  change (drop (Z.to_nat 0) d) with (drop 0 d) in Hw. rewrite drop_0 in Hw. pose proof Hw as (Hc1 & Hv1 & Hb1 & Hu1 & Hud1).
  assert (Hend : loc + Z.of_nat (length d) <= Z.of_nat (length (disk st))) by (apply fits_end; [done|lia|destruct d; [done|cbn; lia]|done]).
  destruct (IH st1 Hc1 ltac:(congruence)) as (st2 & E & (Hc2 & Hv2 & Hb2 & Hu2 & Hud2)).
  { eapply Forall_impl; [done|]. intros r. apply (rec_ok_wrote st st1 _ r Hc Hw). rewrite overwrite_length; [by apply view_length|]. rewrite view_length by done. lia. }
  cbn [fst snd]. rewrite !orb_false_r. destruct f as [f1 f2]. cbn [fst snd]. rewrite E. exists st2. split; [done|].
  split_and!; [done| |congruence..]. rewrite Hv2, Hv1. done.
Qed.

Lemma uninstall_spec st : good_size st.(block_size) -> Z.of_nat (length st.(disk)) < 2 ^ 63 -> Forall (rec_ok st) st.(uninstall_data) ->
  exists st', uninstall st = (true, st') /\ st'.(disk) = apply_undo st.(uninstall_data) st.(disk).
Proof.
  intros Hs Hd Hr. unfold uninstall. set (st0 := set_uninstall st true (uninstall_data st)).
  destruct (forget_coherent st0 Hs Hd) as [Hc Hv].
  destruct (restore_all_spec (uninstall_data st) (false, false) (forget_cache st0) Hc eq_refl) as (st1 & E & (Hc1 & Hv1 & Hb1 & _)).
  { eapply Forall_impl; [done|]. intros r. done. }
  change (uninstall_data (forget_cache st0)) with (uninstall_data st). rewrite E.
  destruct (flush_spec st1 Hc1) as (r & st2 & E2 & _ & Hr2). rewrite E2. destruct r as [[]|].
  - exists st2. split; [done|]. destruct Hr2 as [-> _]. by rewrite Hv1, Hv.
  - destruct Hr2 as [_ Hb]. destruct (Hio (block_size st1) (cached_block st1)). congruence.
Qed.

Lemma undoes_nil orig : undoes orig [].
Proof. intros d [Hl Hd]. apply list_eq. intros x. apply Hd. intros (r & Hr & _). by apply elem_of_nil in Hr. Qed.

Lemma device_init_spec d : Z.of_nat (length d) < 2 ^ 63 ->
  exists r st, device_init [512; 2048; 4096] (fresh d) = (r, st)
    /\ match r with Some _ => tracked d st /\ 512 <= Z.of_nat (length d) | None => st = fresh d /\ Z.of_nat (length d) < 512 end.
Proof.
  intros Hd. cbn [device_init]. unfold in_file. cbn [fresh disk]. rewrite !(proj1 (Hio _ _)). cbn [negb]. rewrite !andb_true_r.
  change (u64 (0 * ?g) + ?g) with g. split_leb 512 (Z.of_nat (length d)).
  2: { split_leb 2048 (Z.of_nat (length d)); [lia|]. split_leb 4096 (Z.of_nat (length d)); [lia|]. by eexists _, _. }
  eexists (Some tt), _. split; [done|]. split; [|done].
  assert (Hv : overwrite d (Z.to_nat (0 * 512)) (take (Z.to_nat 512) d) = d).
  { change (take (Z.to_nat 512) d) with (slice 0 (Z.to_nat 512) d). apply (overwrite_slice d 0). lia. }
  assert (Hag : agrees d [] d) by done.
  constructor; cbn [disk cache cached_block cache_dirty block_size uninstalling uninstall_data]; try done.
  - constructor; cbn [disk cache cached_block cache_dirty block_size]; try done.
    + by left.
    + intros _. rewrite length_take. lia.
  - unfold view, block_pos. cbn [disk cache cached_block block_size]. change (0 =? W64 - 1) with false. cbv iota. by rewrite Hv.
  - apply undoes_nil.
Qed.

(** C8: On a device that can be read and written everywhere, an installation that fails
    leaves it as it was: whatever has been written by then, the bytes that were replaced
    are written back.  With a block that cannot be read or written this is not so: see
    [partial_write_stays]. *)
Theorem bios_install_undone (img id d : list Z) (force conv : bool) (ndx : option (option Z)) (st : host) :
  Z.of_nat (length d) < 2 ^ 63 -> (512 < length img)%nat ->
  bios_install be img id force conv ndx (fresh d) = (false, st) -> st.(disk) = d.
Proof.
  intros Hd Hi. unfold bios_install.
  destruct (device_init_spec d Hd) as (r & st1 & -> & Hr).
  destruct r as [[]|]; destruct Hr as [Hr _]; [|by intros [= <-]; subst st1]. destruct (keeps_install img id force conv ndx Hi d st1 Hr) as [Ht _].
  destruct (install be img id force conv ndx st1) as [[[]|] st2]; [done|]. cbn [snd] in Ht. destruct Ht as [Hsz Hlen Hag Hundo Hrec _].
  destruct (uninstall_spec (reverse_uninstall_data st2)) as (st3 & -> & Hst3).
  - left. exact Hsz.
  - exact Hlen.
  - apply Forall_rev. exact Hrec.
  - intros [= <-]. cbn [snd]. rewrite Hst3. by apply Hundo.
Qed.

(** ** The file of the records *)

Lemma native_load_store n v : 0 <= v < W8 ^ Z.of_nat n -> native_load be (native_store be n v) = v.
Proof.
  intros Hv. unfold native_load, native_store. assert (le_load (le_store n v) = v) as E; [|destruct be; by rewrite ?rev_involutive].
  rewrite le_load_store. by apply Z.mod_small.
Qed.
Lemma native_store_length n v : length (native_store be n v) = n.
Proof. unfold native_store. destruct be; by rewrite ?length_rev, length_le_store. Qed.

Lemma file_read_app a b : a <> [] -> file_read (Z.of_nat (length a)) (a ++ b) = Some (a, b).
Proof.
  intros Ha. unfold file_read. split_eqb (Z.of_nat (length a)) 0; [by destruct a|]. cbn [orb].
  split_ltb (Z.of_nat (length (a ++ b))) (Z.of_nat (length a)); [rewrite length_app in *; lia|]. by rewrite Nat2Z.id, take_app_length, drop_app_length.
Qed.

Definition storable (r : list Z * Z) : Prop := 0 <= r.2 < W64 /\ r.1 <> [] /\ Z.of_nat (length r.1) < W64.

Lemma load_store recs : Forall storable recs -> Z.of_nat (length recs) <= UNINSTALL_DATA_MAX ->
  load_uninstall_data be (store_uninstall_data be recs) = Some recs.
Proof.
  intros Hr Hm. unfold load_uninstall_data, store_uninstall_data.
  assert (Hfr : forall v b, 0 <= v < W64 -> file_read 8 (native_store be 8 v ++ b) = Some (native_store be 8 v, b)).
  { intros v b Hv. pose proof (file_read_app (native_store be 8 v) b (store_nonempty 7 v)) as E. by rewrite native_store_length in E. }
  unfold UNINSTALL_DATA_MAX in *. rewrite Hfr by lia. cbn [mbind option_bind]. rewrite native_load_store by (cbn; lia).
  split_ltb 256 (Z.of_nat (length recs)); [lia|]. rewrite Nat2Z.id. clear E Hm.
  induction Hr as [|[d loc] recs (Hl & Hne & Hd) _ IH]; [done|]. cbn [fst snd] in *. cbn [length load_entries store_entries].
  rewrite Hfr by done. cbn [mbind option_bind]. rewrite Hfr by lia. cbn [mbind option_bind]. rewrite (native_load_store 8 (Z.of_nat (length d))) by (cbn; lia).
  rewrite file_read_app by done. cbn [mbind option_bind]. rewrite IH. cbn [mbind option_bind]. by rewrite native_load_store by (cbn; lia).
Qed.

(** C10: After an installation, the data that is stored in a file restores the device: the
    next run of the program with that file leaves every byte as it was before the
    installation. *)
Theorem bios_install_uninstall (img id d : list Z) (force conv : bool) (ndx : option (option Z)) (st : host) :
  Z.of_nat (length d) < 2 ^ 63 -> (512 < length img)%nat ->
  bios_install be img id force conv ndx (fresh d) = (true, st) ->
  exists st', bios_uninstall be (store_uninstall_data be st.(uninstall_data)) (fresh st.(disk)) = (true, st') /\ st'.(disk) = d.
Proof.
  intros Hd Hi. unfold bios_install. destruct (device_init_spec d Hd) as (r & st1 & -> & Hr).
  destruct r as [[]|]; [|done]. destruct Hr as [Hr Hmin]. destruct (keeps_install img id force conv ndx Hi d st1 Hr) as [_ Ht].
  destruct (install be img id force conv ndx st1) as [[[]|] st2]; [|done]. cbn [fst snd] in *. destruct (Ht tt eq_refl) as [Ht' _]. clear Ht. rename Ht' into Ht. intros [= <-].
  cbn [reverse_uninstall_data set_uninstall disk uninstall_data]. set (recs := rev (uninstall_data st2)).
  assert (Hok : Forall (rec_ok st2) recs) by (apply Forall_rev; apply Ht). assert (Hlen : length (disk st2) = length d) by (apply Ht).
  unfold bios_uninstall. destruct (device_init_spec (disk st2)) as (r & st3 & E3 & Hr3); [by rewrite Hlen|]. rewrite E3.
  destruct r as [[]|]; [|rewrite Hlen in Hr3; lia]. destruct Hr3 as [Ht3 _]. rewrite load_store.
  - assert (Hd3 : disk st3 = disk st2).
    { apply undoes_nil. pose proof (tr_disk _ _ Ht3) as Ha. assert (uninstall_data st3 = []) as Hn; [|by rewrite Hn in Ha].
      revert E3. cbn [device_init]. repeat (destruct (_ && _); [by intros [= <-]|]). done. }
    destruct (uninstall_spec (set_uninstall st3 (uninstalling st3) recs)) as (st4 & -> & Hst4).
    + apply Ht3.
    + apply Ht3.
    + eapply Forall_impl; [exact Hok|]. intros r (H1 & H2 & H3). split; [done|]. split; [|done]. unfold fits in *.
      cbn [set_uninstall disk block_size]. by rewrite Hd3, (tr_size _ _ Ht3), <- (tr_size _ _ Ht).
    + exists st4. split; [done|]. rewrite Hst4. cbn [set_uninstall disk uninstall_data]. rewrite Hd3. apply Ht, Ht.
  - eapply Forall_impl; [exact Hok|]. intros r (H1 & H2 & H3). split; [done|]. split; [done|].
    assert (0 < Z.of_nat (length r.1)) by (destruct r.1; [done|cbn; lia]). apply fits_end in H2; [|apply Ht|lia|done]. lia.
  - unfold recs. rewrite length_rev. apply Ht.
Qed.
End undo.

(** ** Witnesses *)

(** A file without bad blocks. *)
Definition plain : HostFile := {| bad_read := fun _ _ => false; bad_write := fun _ _ => false; short_read := fun _ _ c => c |}.

Lemma plain_no_errors : no_errors (H := plain).
Proof. done. Qed.

Definition blank_disk : list Z := replicate (Z.to_nat 8192) 0.
Definition boot_image : list Z := replicate 1024 7.

(** A disk whose first entry has a bad status, which is repaired by force, and whose second
    partition starts too low, so that the installation fails. *)
Definition bad_disk : list Z := overwrite (overwrite blank_disk 446 [5]) 466 [1].


Local Notation undone_run := (bios_install (H := plain) false boot_image [] true false None (fresh bad_disk)).
Local Notation done_run := (bios_install (H := plain) false boot_image [] false false None (fresh blank_disk)).

Lemma pair_fst {A B} (p : A * B) a : p.1 = a -> p = (a, p.2).
Proof. destruct p. by intros <-. Qed.

Lemma bios_install_undone_witness : undone_run.1 = false /\ undone_run.2.(disk) = bad_disk.
Proof.
  assert (E : undone_run.1 = false) by (vm_compute; reflexivity). split; [exact E|].
  apply (bios_install_undone (H := plain) plain_no_errors false boot_image [] bad_disk true false None).
  - vm_compute. reflexivity.
  - apply Nat.ltb_lt. vm_compute. reflexivity.
  - exact (pair_fst _ _ E).
Defined.

Lemma bios_install_uninstall_witness :
  done_run.2.(disk) !! 0%nat = Some 7 /\
  exists st', bios_uninstall (H := plain) false (store_uninstall_data false done_run.2.(uninstall_data)) (fresh done_run.2.(disk)) = (true, st')
    /\ st'.(disk) = blank_disk.
Proof.
  split; [vm_compute; reflexivity|]. assert (E : done_run.1 = true) by (vm_compute; reflexivity).
  assert (Hd : Z.of_nat (length blank_disk) < 2 ^ 63) by (vm_compute; reflexivity).
  assert (Hi : (512 < length boot_image)%nat) by (apply Nat.ltb_lt; vm_compute; reflexivity).
  exact (bios_install_uninstall (H := plain) plain_no_errors false boot_image [] blank_disk false false None done_run.2 Hd Hi (pair_fst done_run true E)).
Defined.

(** ** A write that fails midway *)

(** The record of a write counts once the write is complete.  If the block 2 cannot be
    written, the write of the second part of the code, which starts in the block 1, fails
    after it has changed the block 1 of the file, which the cleanup does not restore. *)
Definition failing : HostFile := {| bad_read := fun _ _ => false; bad_write := fun _ b => b =? 2; short_read := fun _ _ c => c |}.

Lemma partial_write_stays :
  let r := bios_install (H := failing) false (replicate 2048 7) [] false false None (fresh blank_disk) in
  r.1 = false /\ r.2.(disk) !! 0%nat = Some 0 /\ r.2.(disk) !! 512%nat = Some 7.
Proof. vm_compute. split_and!; reflexivity. Qed.

(** A read that fails spoils the cache, which is still taken for the block it held.  When
    the second attempt of [uninstall] to write a record fails as well, the cache is not
    forgotten: the next record for that block writes what the failed read left there. *)
Definition short : HostFile := {| bad_read := fun _ _ => false; bad_write := fun _ _ => false; short_read := fun _ _ c => replicate 100 9 ++ drop 100 c |}.

Lemma spoiled_cache_written :
  let recs := [(replicate 48 2, 1000); ([3; 3; 3; 3], 700)] in
  let r := bios_uninstall (H := short) false (store_uninstall_data false recs) (fresh (replicate 1124 1)) in
  r.2.(disk) !! 512%nat = Some 9 /\ r.2.(disk) !! 700%nat = Some 3.
Proof. vm_compute. split; reflexivity. Qed.
