(* ===== verification/HostOrder.v ===== *)
(** * Byte order and CHS addresses of the installer

    Swapping the bytes of an integer makes the byte order of the host irrelevant, but
    for the one place where a 64-bit value is swapped and then stored as 32 bits. *)

From S2P Require Import Prelude Bytes Libc Host.

(** ** Swapping *)

(** [w] bits that are shifted to the place [k]. *)
Lemma mask_bits_right w v k s : 0 <= w -> 0 <= k -> 0 <= s ->
  Z.land (Z.shiftr v s) (Z.shiftl (Z.ones w) k) = Z.shiftl ((v / 2 ^ (k + s)) `mod` 2 ^ w) k.
Proof.
  intros Hw Hk Hs. apply Z.bits_inj'. intros n Hn.
  rewrite Z.land_spec, Z.shiftr_spec, !Z.shiftl_spec by lia. destruct (Z.lt_ge_cases n k) as [Hlt|Hge].
  { rewrite !(Z.testbit_neg_r _ (n - k)) by lia. apply andb_false_r. }
  rewrite Z.testbit_ones_nonneg by lia. split_ltb (n - k) w.
  - rewrite andb_true_r, Z.mod_pow2_bits_low, Z.div_pow2_bits by lia. f_equal. lia.
  - by rewrite andb_false_r, Z.mod_pow2_bits_high by lia.
Qed.

Lemma mask_bits_left w v k s : 0 <= w -> 0 <= s <= k ->
  Z.land (Z.shiftl v s) (Z.shiftl (Z.ones w) k) = Z.shiftl ((v / 2 ^ (k - s)) `mod` 2 ^ w) k.
Proof.
  intros Hw Hs. apply Z.bits_inj'. intros n Hn.
  rewrite Z.land_spec, !Z.shiftl_spec by lia. destruct (Z.lt_ge_cases n k) as [Hlt|Hge].
  { rewrite !(Z.testbit_neg_r _ (n - k)) by lia. apply andb_false_r. }
  rewrite Z.testbit_ones_nonneg by lia. split_ltb (n - k) w.
  - rewrite andb_true_r, Z.mod_pow2_bits_low, Z.div_pow2_bits by lia. f_equal. lia.
  - by rewrite andb_false_r, Z.mod_pow2_bits_high by lia.
Qed.

Lemma mask_right v i j : 0 <= i -> 0 <= j ->
  Z.land (Z.shiftr v (8 * j)) (Z.shiftl 255 (8 * i)) = Z.shiftl ((v / 2 ^ (8 * (i + j))) `mod` 256) (8 * i).
Proof. intros Hi Hj. rewrite Z.mul_add_distr_l. apply (mask_bits_right 8); lia. Qed.
Lemma mask_left v i j : 0 <= j <= i ->
  Z.land (Z.shiftl v (8 * j)) (Z.shiftl 255 (8 * i)) = Z.shiftl ((v / 2 ^ (8 * (i - j))) `mod` 256) (8 * i).
Proof. intros Hj. rewrite Z.mul_sub_distr_l. apply (mask_bits_left 8); lia. Qed.

(** The byte [k] of an integer. *)
Lemma le_load_byte bs k b : Forall is_byte bs -> bs !! k = Some b -> (le_load bs / 2 ^ (8 * Z.of_nat k)) `mod` 256 = b.
Proof.
  intros Hb Hk. pose proof (lookup_lt_Some _ _ _ Hk) as Hlt. rewrite Z.pow_mul_r by lia. change (2 ^ 8) with W8.
  pose proof (le_load_slice k 1 bs Hb ltac:(lia)) as E. change (W8 ^ Z.of_nat 1) with 256 in E. rewrite E.
  unfold slice. rewrite (drop_S _ b) by done. change (take 1 (b :: drop (S k) bs)) with [b]. cbn [le_load]. lia.
Qed.

Lemma shift_byte n bs k b c : 0 <= c -> Forall is_byte bs -> bs !! k = Some b -> n = Z.of_nat k ->
  Z.shiftl ((le_load bs / 2 ^ (8 * n)) `mod` 256) c = Z.shiftl b c.
Proof. intros Hc Hb Hk ->. by rewrite (le_load_byte _ _ _ Hb Hk). Qed.

(** A masked shift of the source is the byte [k] at the place [i]. *)
Ltac byte_right v i j :=
  let s := eval vm_compute in (8 * j) in let m := eval vm_compute in (Z.shiftl 255 (8 * i)) in
  let k := eval vm_compute in (Z.to_nat (i + j)) in
  change (Z.land (Z.shiftr v s) m) with (Z.land (Z.shiftr v (8 * j)) (Z.shiftl 255 (8 * i)));
  rewrite (mask_right v i j) by lia; erewrite (shift_byte (i + j) _ k) by (done || lia).
Ltac byte_left v i j :=
  let s := eval vm_compute in (8 * j) in let m := eval vm_compute in (Z.shiftl 255 (8 * i)) in
  let k := eval vm_compute in (Z.to_nat (i - j)) in
  change (Z.land (Z.shiftl v s) m) with (Z.land (Z.shiftl v (8 * j)) (Z.shiftl 255 (8 * i)));
  rewrite (mask_left v i j) by lia; erewrite (shift_byte (i - j) _ k) by (done || lia).
Ltac add_bytes Hb :=
  repeat (apply Forall_cons in Hb as [? Hb]); unfold is_byte in *; rewrite Z.shiftl_0_r;
  repeat match goal with
         | |- context [Z.lor ?a (Z.shiftl ?b ?n)] => lazymatch a with context [Z.lor] => fail | _ => rewrite (lor_add a b n) by lia end
         end; cbn; lia.

Lemma endswap16_rev bs : length bs = 2%nat -> Forall is_byte bs -> endswap16 (le_load bs) = le_load (rev bs).
Proof.
  intros Hl Hb. destruct bs as [|b0 [|b1 [|]]]; [done..| |done]. unfold endswap16.
  byte_right (le_load [b0; b1]) 0 1. byte_left (le_load [b0; b1]) 1 1. add_bytes Hb.
Qed.

Lemma endswap32_rev bs : length bs = 4%nat -> Forall is_byte bs -> endswap32 (le_load bs) = le_load (rev bs).
Proof.
  intros Hl Hb. destruct bs as [|b0 [|b1 [|b2 [|b3 [|]]]]]; [done..| |done]. unfold endswap32. set (bs := [b0; b1; b2; b3]) in *.
  byte_right (le_load bs) 0 3. byte_right (le_load bs) 1 1. byte_left (le_load bs) 2 1. byte_left (le_load bs) 3 3.
  unfold bs in Hb. add_bytes Hb.
Qed.

Lemma endswap64_rev bs : length bs = 8%nat -> Forall is_byte bs -> endswap64 (le_load bs) = le_load (rev bs).
Proof.
  intros Hl Hb. destruct bs as [|b0 [|b1 [|b2 [|b3 [|b4 [|b5 [|b6 [|b7 [|]]]]]]]]]; [done..| |done].
  unfold endswap64. set (bs := [b0; b1; b2; b3; b4; b5; b6; b7]) in *.
  byte_right (le_load bs) 0 7. byte_right (le_load bs) 1 5. byte_right (le_load bs) 2 3. byte_right (le_load bs) 3 1.
  byte_left (le_load bs) 4 1. byte_left (le_load bs) 5 3. byte_left (le_load bs) 6 5. byte_left (le_load bs) 7 7.
  unfold bs in Hb. add_bytes Hb.
Qed.

(** An integer of the device is the little-endian one, on every host. *)
Lemma disk_int_le be off n bs : n = 2%nat \/ n = 4%nat \/ n = 8%nat -> Forall is_byte bs -> (off + n <= length bs)%nat ->
  disk_int be off n bs = le_load (slice off n bs).
Proof.
  intros Hn Hb Hl. unfold disk_int, ENDSWAP, native_load. destruct be; [|done].
  assert (Hs : length (rev (slice off n bs)) = n) by (rewrite length_rev; unfold slice; rewrite length_take, length_drop; lia).
  assert (Hr : Forall is_byte (rev (slice off n bs))) by (apply Forall_rev, Forall_take, Forall_drop; done).
  destruct Hn as [-> | [-> | ->]]; rewrite ?endswap16_rev, ?endswap32_rev, ?endswap64_rev by done; by rewrite rev_involutive.
Qed.

(** A 64-bit integer is stored little-endian, on every host. *)
Lemma store_u64_le be v : 0 <= v < W64 -> native_store be 8 (ENDSWAP be 8 v) = le_store 8 v.
Proof.
  intros Hv. unfold native_store, ENDSWAP. destruct be; [|done].
  assert (E : v = le_load (le_store 8 v)) by (rewrite le_load_store; symmetry; apply Z.mod_small; cbn; lia).
  rewrite E at 1. rewrite endswap64_rev; [|by rewrite length_le_store|apply le_store_bytes].
  rewrite <- (rev_involutive (le_store 8 v)) at 2. f_equal.
  pose proof (le_store_load (rev (le_store 8 v))) as E'. rewrite length_rev, length_le_store in E'. apply E'. apply Forall_rev, le_store_bytes.
Qed.

(** ** The start and the size of a converted partition *)

Lemma disk_u32_little v : 0 <= v < W32 -> disk_u32 false v = le_store 4 v.
Proof. intros Hv. unfold disk_u32, native_store, ENDSWAP. f_equal. unfold u32. apply Z.mod_small. lia. Qed.

(** On a big-endian host the four bytes that are written are those of the upper half, which is 0. *)
Lemma disk_u32_big v : 0 <= v < W32 -> disk_u32 true v = [0; 0; 0; 0].
Proof.
  intros Hv. unfold disk_u32, native_store, ENDSWAP.
  assert (E : u32 (endswap64 v) = 0); [|by rewrite E].
  assert (E8 : v = le_load (le_store 4 v ++ [0; 0; 0; 0])).
  { rewrite le_load_app, le_load_store, length_le_store. cbn [le_load]. rewrite Z.mod_small by (cbn; lia). cbn. lia. }
  rewrite E8, endswap64_rev; [|by rewrite length_app, length_le_store|apply Forall_app; split; [apply le_store_bytes|repeat constructor; unfold is_byte; lia]].
  rewrite rev_app_distr. cbn [rev app le_load]. unfold u32. rewrite Z.add_0_l. set (x := le_load (rev _)).
  replace (W8 * (0 + W8 * (0 + W8 * (0 + W8 * x)))) with (x * W32) by lia. apply Z.mod_mul. lia.
Qed.

(** ** CHS addresses *)

Definition chs_lba (chs : list Z) : Z :=
  match chs with
  | [h; s; c] => ((c + 256 * Z.shiftr s 6) * 255 + h) * 63 + Z.land s 0x3f - 1
  | _ => -1
  end.

(** The address of a sector that has one leads back to it. *)
Lemma lba2chs_roundtrip lba : 0 <= lba < 1024 * 255 * 63 -> Forall is_byte (lba2chs lba) /\ chs_lba (lba2chs lba) = lba.
Proof.
  intros Hl. unfold lba2chs. split_ltb (63 * 255 * 1024) lba; [lia|]. set (c := lba / (255 * 63)).
  assert (Hc : 0 <= c < 1024) by (unfold c; split; [apply Z.div_pos; lia|apply Z.div_lt_upper_bound; lia]).
  split_leb 1024 c; [lia|]. set (h := (lba / 63) `mod` 255). set (s := lba `mod` 63 + 1).
  assert (Hh : 0 <= h < 255) by (unfold h; apply Z.mod_pos_bound; lia).
  assert (Hs : 1 <= s <= 63) by (unfold s; pose proof (Z.mod_pos_bound lba 63); lia).
  assert (Hsum : lba = (c * 255 + h) * 63 + s - 1).
  { unfold c, h, s. rewrite (Z.mul_comm 255 63), <- Z.div_div by lia. pose proof (Z.div_mod lba 63). pose proof (Z.div_mod (lba / 63) 255). lia. }
  change 0xc0 with (Z.shiftl (Z.ones 2) 6). rewrite mask_bits_right by lia. change (2 ^ (6 + 2)) with 256. change (2 ^ 2) with 4.
  assert (Hq : 0 <= c / 256 < 4) by (split; [apply Z.div_pos; lia|apply Z.div_lt_upper_bound; lia]). rewrite (Z.mod_small (c / 256)) by lia.
  change 0x3f with (Z.ones 6). rewrite !Z.land_ones by lia. change (2 ^ 6) with 64. rewrite (Z.mod_small s) by lia.
  rewrite Z.lor_comm, lor_add by (cbn; lia). change (2 ^ 6) with 64. unfold u8. pose proof (Z.div_mod c 256) as Hdm. pose proof (Z.mod_pos_bound c 256).
  split; [repeat constructor; unfold is_byte; lia|]. cbn [chs_lba]. change 0x3f with (Z.ones 6). rewrite Z.land_ones, Z.shiftr_div_pow2 by lia. change (2 ^ 6) with 64.
  rewrite (Z.mul_comm 64), Z.mod_add, Z.div_add, (Z.mod_small s 64), (Z.div_small s) by lia. change (Z.ones 6) with 63. lia.
Qed.
