(* ===== verification/HostEffect.v ===== *)
(** * What an installation changes

    A successful installation in terms of the bytes of the device: which ones are
    replaced, by what, and that the partitions keep theirs.  The cache is not visible
    here: each operation is one on the bytes that a program without it would see. *)

From S2P Require Import Prelude Bytes Libc Host HostDevice HostUndo HostOrder.

(** A comparison with text of the same length. *)
Lemma strncmp_text a p : length a = length p -> Forall (fun c => c <> 0) p -> (strncmp a p (length p) =? 0) = bool_decide (a = p).
Proof.
  intros Hl Hp. revert a Hl. induction Hp as [|c p Hc _ IH]; intros [|x a] Hl; try done. injection Hl as Hl. cbn [length strncmp hd0 tl0].
  split_eqb x c; cbn [negb].
  - subst x. split_eqb c 0; [done|]. rewrite IH by done. apply bool_decide_ext. split; [by intros ->|by intros [=]].
  - rewrite bool_decide_eq_false_2 by congruence. by destruct (x <? c).
Qed.

Lemma slice_one l x b : l !! x = Some b -> slice x 1 l = [b].
Proof. intros E. unfold slice. by rewrite (drop_S _ _ _ E). Qed.

Section effect.
Context `{HostFile}.

(** ** Operations on the bytes *)

(** The state of an installation that sees the bytes [d]. *)
Record sees (d : list Z) (st : host) : Prop := {
  se_co : coherent st;
  se_installing : st.(uninstalling) = false;
  se_view : view st = d
}.

(** If [m] succeeds on the bytes [d], its result and the bytes are as [Q] says. *)
Definition gives {A} (d : list Z) (m : HM A) (Q : A -> list Z -> Prop) : Prop :=
  forall st a st', sees d st -> m st = (Some a, st') -> exists d', sees d' st' /\ Q a d'.

Lemma gives_ret {A} d (a : A) (Q : A -> list Z -> Prop) : Q a d -> gives d (mret a) Q.
Proof. intros HQ st a' st' Hs [= <- <-]. by exists d. Qed.
Lemma gives_cleanup {A} d (Q : A -> list Z -> Prop) : gives d cleanup Q.
Proof. by intros st a st' _ [=]. Qed.
Lemma gives_bind {A B} d (m : HM A) (f : A -> HM B) P Q :
  gives d m P -> (forall a d', P a d' -> gives d' (f a) Q) -> gives d (m ≫= f) Q.
Proof.
  intros Hm Hf st b st' Hs. hm. destruct (m st) as [[a|] st1] eqn:E; [|done]. intros Hfa.
  destruct (Hm st a st1 Hs E) as (d' & Hs' & HP). by apply (Hf a d' HP st1 b st').
Qed.
Lemma gives_weaken {A} d (m : HM A) (P Q : A -> list Z -> Prop) : gives d m P -> (forall a d', P a d' -> Q a d') -> gives d m Q.
Proof. intros Hm HPQ st a st' Hs E. destruct (Hm st a st' Hs E) as (d' & Hs' & HP). exists d'. auto. Qed.

Lemma gives_read d loc count : 0 <= loc < W64 -> 0 < count ->
  gives d (device_read loc count)
    (fun bs d' => d' = d /\ bs = slice (Z.to_nat loc) (Z.to_nat count) d /\ loc + count <= Z.of_nat (length d)).
Proof.
  intros Hl Hn st bs st' [Hc Hu <-] E. destruct (device_read_spec st loc count Hc ltac:(lia)) as (r & st1 & E1 & _ & Hr).
  assert (Hll : u64 loc = loc) by (unfold u64; by apply Z.mod_small). rewrite Hll in Hr.
  rewrite E1 in E. injection E as -> <-. destruct Hr as ((Hc1 & Hv1 & _ & Hu1 & _) & Hf & ->). exists (view st). split; [constructor; [done|congruence|done]|].
  split; [done|]. split; [done|]. rewrite view_length by done. by apply fits_end in Hf; [|done|lia..].
Qed.

Lemma gives_write d buffer loc : 0 <= loc < W64 -> buffer <> [] ->
  gives d (device_write buffer loc) (fun _ d' => d' = overwrite d (Z.to_nat loc) buffer /\ loc + Z.of_nat (length buffer) <= Z.of_nat (length d)).
Proof.
  intros Hl Hb st [] st' Hs. assert (Hn : 0 < Z.of_nat (length buffer)) by (destruct buffer; [done|cbn; lia]).
  unfold device_write. assert (Hll : u64 loc = loc) by (unfold u64; by apply Z.mod_small). rewrite Hll. hm. rewrite (se_installing _ _ Hs).
  destruct (UNINSTALL_DATA_MAX <=? _); [done|]. destruct (device_read loc (Z.of_nat (length buffer)) st) as [[data|] st1] eqn:E1; [|done].
  destruct (gives_read d loc _ Hl Hn st data st1 Hs E1) as (d' & [Hc1 Hu1 Hv1] & -> & _ & Hend).
  destruct (write_chunks_spec (length buffer) st1 buffer loc 0 Hc1 Hl ltac:(lia) ltac:(by left) ltac:(lia)) as (r & st2 & -> & _ & Hr).
  destruct r as [[]|]; [|done]. intros [= <-]. destruct Hr as [(Hc2 & Hv2 & Hb2 & Hu2 & _) _].
  rewrite Z.add_0_r, Hv1 in Hv2. change (drop (Z.to_nat 0) buffer) with (drop 0 buffer) in Hv2. rewrite drop_0 in Hv2.
  exists (overwrite d (Z.to_nat loc) buffer). split; [|done]. constructor; [destruct Hc2; by constructor|cbn; congruence|done].
Qed.

Lemma gives_flush d st st' : sees d st -> device_flush_cache st = (Some tt, st') -> st'.(disk) = d.
Proof. intros [Hc _ <-] E. destruct (flush_spec st Hc) as (r & st1 & E1 & _ & Hr). rewrite E1 in E. injection E as -> <-. apply Hr. Qed.

(** A step that only reads, with a property of the result. *)
Definition tells {A} (d : list Z) (m : HM A) (P : A -> Prop) : Prop := gives d m (fun a d' => d' = d /\ P a).

Lemma tells_ret {A} d (a : A) (P : A -> Prop) : P a -> tells d (mret a) P.
Proof. intros HP. by apply gives_ret. Qed.
Lemma tells_bind {A B} d (m : HM A) (f : A -> HM B) (P : A -> Prop) Q :
  tells d m P -> (forall a, P a -> gives d (f a) Q) -> gives d (m ≫= f) Q.
Proof. intros Hm Hf. eapply gives_bind; [exact Hm|]. intros a d' [-> HP]. by apply Hf. Qed.
Lemma tells_read d loc count : 0 <= loc < W64 -> 0 < count ->
  tells d (device_read loc count) (fun bs => bs = slice (Z.to_nat loc) (Z.to_nat count) d /\ loc + count <= Z.of_nat (length d)).
Proof. apply gives_read. Qed.
Lemma tells_byte d loc : 0 <= loc < W64 -> tells d (device_read loc 1) (fun bs => exists b, bs = [b] /\ d !! Z.to_nat loc = Some b).
Proof.
  intros Hl. eapply gives_weaken; [apply (tells_read d loc 1); lia|]. intros bs d' (-> & -> & Hn). split; [done|].
  destruct (lookup_lt_is_Some_2 d (Z.to_nat loc)) as [b Hb]; [lia|]. exists b. split; [by apply slice_one|done].
Qed.

(** The end of a run, with what is in the file then. *)
Definition ends {A} (d : list Z) (m : HM A) (R : list Z -> Prop) : Prop :=
  forall st a st', sees d st -> m st = (Some a, st') -> R st'.(disk).

Lemma ends_bind {A B} d (m : HM A) (f : A -> HM B) P R : gives d m P -> (forall a d', P a d' -> ends d' (f a) R) -> ends d (m ≫= f) R.
Proof.
  intros Hm Hf st b st' Hs. hm. destruct (m st) as [[a|] st1] eqn:E; [|done]. intros Hfa.
  destruct (Hm st a st1 Hs E) as (d' & Hs' & HP). by apply (Hf a d' HP st1 b st').
Qed.
Lemma ends_flush d (R : list Z -> Prop) : R d -> ends d device_flush_cache R.
Proof. intros HR st [] st' Hs E. by rewrite (gives_flush d st st' Hs E). Qed.

(** ** The writes *)

Context (be : bool).

(** The bytes after the writes: the code, the place of the second part, and what is kept of
    the first sector. *)
Definition staged (img : list Z) (loc : Z) (d : list Z) : list Z :=
  let d1 := overwrite (overwrite d 0 (take 512 img)) (Z.to_nat loc) (drop 512 img) in
  let d2 := overwrite d1 0x1a4 (le_store 8 loc) in
  overwrite (overwrite d2 218 (slice 218 6 d)) 440 (slice 440 70 d).

Lemma ends_stages d img loc : (512 < length img)%nat -> 0 <= loc < W64 ->
  ends d (write_stages be img loc) (fun d' => d' = staged img loc d /\ loc + Z.of_nat (length img - 512) <= Z.of_nat (length d) /\ (512 <= length d)%nat).
Proof.
  intros Hi Hl. unfold write_stages. rewrite store_u64_le by done. pose proof (length_drop img 512) as Hdl.
  eapply ends_bind; [by apply (gives_read d 218 6)|]. intros ts d' (-> & -> & _).
  eapply ends_bind; [by apply (gives_read d 440 70)|]. intros mbr d' (-> & -> & H510).
  assert (H1 : take 512 img <> []) by (by destruct img; [cbn in Hi; lia|]).
  assert (H2 : drop 512 img <> []) by (intros E; apply (f_equal length) in E; rewrite Hdl in E; cbn in E; lia).
  assert (H3 : le_store 8 loc <> []) by done.
  assert (H4 : slice 218 6 d <> []) by (intros E; apply (f_equal length) in E; rewrite slice_length in E; [done|lia]).
  assert (H5 : slice 440 70 d <> []) by (intros E; apply (f_equal length) in E; rewrite slice_length in E; [done|lia]).
  eapply ends_bind; [by apply (gives_write d (take 512 img) 0)|]. intros _ d' [-> Hb1]. rewrite length_take in Hb1.
  assert (Hd1 : length (overwrite d 0 (take 512 img)) = length d) by (apply overwrite_length; rewrite length_take; lia).
  eapply ends_bind; [by apply gives_write|]. intros _ d' [-> Hb2]. change (Z.to_nat 0) with 0%nat in *. rewrite Hd1, Hdl in Hb2.
  eapply ends_bind; [by apply gives_write|]. intros _ d' [-> _].
  eapply ends_bind; [by apply gives_write|]. intros _ d' [-> _].
  eapply ends_bind; [by apply gives_write|]. intros _ d' [-> _].
  apply ends_flush. split; [done|]. lia.
Qed.

(** ** Erasing the tables *)

Lemma gives_nuke d n lba lb : 0 < lb -> 0 <= lba -> (lba + Z.of_nat n) * lb < W64 ->
  gives d (nuke n lba lb) (fun _ d' => length d' = length d /\
    forall x, d' !! x = if decide (lba * lb <= Z.of_nat x < (lba + Z.of_nat n) * lb) then Some 0 else d !! x).
Proof.
  intros Hlb. revert d lba. induction n as [|n IH]; intros d lba Hl Hw; cbn [nuke].
  { apply gives_ret. split; [done|]. intros x. rewrite decide_False by lia. done. }
  assert (Hu : u64 (lba * lb) = lba * lb) by (unfold u64; apply Z.mod_small; nia). rewrite Hu.
  pose proof (length_replicate (Z.to_nat lb) 0%Z) as Hrl.
  eapply gives_bind; [apply gives_write; [nia|intros E; rewrite E in Hrl; cbn in Hrl; lia]|]. intros _ d' [-> Hend]. rewrite Hrl in Hend.
  assert (Hfit : (Z.to_nat (lba * lb) + length (replicate (Z.to_nat lb) 0%Z) <= length d)%nat) by (rewrite Hrl; nia).
  eapply gives_weaken; [apply IH; [lia|nia]|]. intros _ d' [Hlen Hx]. split; [by rewrite Hlen, overwrite_length|].
  intros x. rewrite Hx, overwrite_lookup, Hrl by done. assert (0 <= lba * lb) by nia. repeat case_decide; try nia; try done.
  rewrite lookup_replicate_2 by nia. done.
Qed.

(** The table of a disk with blocks of 4096 bytes ends with the block 5, but 34 blocks are
    erased as on a disk with blocks of 512 bytes: the volume descriptor of the ISO image that
    is converted, at the byte 32768, is lost. *)
Lemma iso_descriptor_erased d : gives d (nuke 34 0 4096) (fun _ d' => slice (Z.to_nat 32769) 5 d' = replicate 5 0).
Proof.
  eapply gives_weaken; [apply gives_nuke; lia|]. intros _ d' [_ Hx]. apply list_eq. intros i. rewrite slice_lookup. case_decide; [|symmetry; apply lookup_ge_None_2; rewrite length_replicate; lia]. rewrite lookup_replicate_2 by lia.
  rewrite Hx, decide_True by lia. done.
Qed.

(** ** The checks, without force *)

(** No file system that the installer knows is at [offset]. *)
Definition no_fs (d : list Z) (offset : Z) : Prop :=
  let at_ o n := slice (Z.to_nat (u64 (offset + o))) n d in
  at_ 3 4%nat <> str "NTFS" /\ at_ 54 3%nat <> str "FAT" /\ at_ 82 3%nat <> str "FAT" /\ at_ 3 5%nat <> str "FAT32" /\ at_ 1080 2%nat <> [0x53; 0xef].

Lemma tells_signature d sig loc n : sig <> [] -> 0 <= loc < W64 ->
  tells d (check_signature false sig loc n) (fun r => r = true -> slice (Z.to_nat loc) (length sig) d <> sig).
Proof.
  intros Hs Hl. assert (0 < Z.of_nat (length sig)) by (destruct sig; [done|cbn; lia]). unfold check_signature.
  eapply tells_bind; [by apply tells_read|]. intros bs [-> _]. rewrite Nat2Z.id. case_bool_decide; by apply tells_ret.
Qed.

Lemma tells_and d a b (P Q : Prop) : tells d a (fun r => r = true -> P) -> tells d b (fun r => r = true -> Q) ->
  tells d (and_then a b) (fun r => r = true -> P /\ Q).
Proof.
  intros Ha Hb. unfold and_then. eapply tells_bind; [exact Ha|]. intros [] HP; [|by apply tells_ret].
  eapply gives_weaken; [exact Hb|]. intros r d' [-> HQ]. split; [done|]. intros Hr. split; auto.
Qed.

Lemma tells_validate d offset : tells d (validate_or_force offset false) (fun r => r = true -> no_fs d offset).
Proof.
  assert (Hu : forall x, 0 <= u64 x < W64) by (intros x; unfold u64; apply Z.mod_pos_bound; lia).
  unfold validate_or_force. repeat apply tells_and; by apply tells_signature.
Qed.

Context (orig : list Z).
Context (Hbytes : Forall is_byte orig).

(** An entry of the MBR: its status is one of the two, and a partition starts behind the first track. *)
Definition active_at (loc : Z) : bool := bool_decide (orig !! Z.to_nat loc = Some 0x80).
Definition mbr_entry_ok (loc : Z) : Prop :=
  (orig !! Z.to_nat loc = Some 0 \/ orig !! Z.to_nat loc = Some 0x80)
  /\ (orig !! Z.to_nat (loc + 4) <> Some 0 -> 63 <= le_load (slice (Z.to_nat (loc + 8)) 4 orig)).

Lemma slice_slice (l : list Z) p n : slice 0 n (slice p n l) = slice p n l.
Proof. unfold slice. rewrite drop_0, take_take. f_equal. lia. Qed.

Lemma tells_mbr_entry loc : 0 <= loc < 512 ->
  tells orig (check_mbr_entry be false loc) (fun r => r.1 = true -> mbr_entry_ok loc /\ r.2 = active_at loc).
Proof.
  intros Hl. unfold check_mbr_entry. eapply tells_bind; [apply tells_byte; lia|]. intros bs (b & -> & Hb). cbn [hd0].
  eapply (tells_bind _ _ _ (fun r => r.2 = b /\ (r.1 = true -> b = 0 \/ b = 0x80))).
  { split_eqb b 0; [by apply tells_ret; auto|]. split_eqb b 0x80; by apply tells_ret; auto. }
  intros [ok b'] [Hb' Hok]. cbn [fst snd] in *. subst b'. eapply tells_bind; [apply tells_byte; lia|]. intros bs (t & -> & Ht). cbn [hd0].
  assert (Hact : ok = true -> negb (Z.land b 128 =? 0) = active_at loc).
  { intros Hk. unfold active_at. rewrite Hb. by destruct (Hok Hk) as [-> | ->]. }
  split_eqb t 0; cbn [negb].
  - apply tells_ret. cbn [fst snd]. intros Hk. split; [|by apply Hact]. split; [rewrite Hb; destruct (Hok Hk) as [-> | ->]; auto|]. rewrite Ht. by subst t.
  - eapply tells_bind; [by apply tells_read; lia|]. intros bs [-> Hn].
    rewrite disk_int_le; [|by auto|by apply Forall_take, Forall_drop|rewrite slice_length; cbn; lia]. change (Z.to_nat 4) with 4%nat. rewrite slice_slice.
    split_ltb (le_load (slice (Z.to_nat (loc + 8)) 4 orig)) 63; [apply gives_cleanup|]. apply tells_ret. cbn [fst snd]. intros Hk.
    split; [|by apply Hact]. split; [rewrite Hb; destruct (Hok Hk) as [-> | ->]; auto|done].
Qed.

Lemma tells_mbr_entries locs mbr act : Forall (fun l => 0 <= l < 512) locs ->
  tells orig (check_mbr_entries be false locs mbr act)
    (fun r => r.1 = true -> mbr = true /\ Forall mbr_entry_ok locs /\ r.2 = act || existsb active_at locs).
Proof.
  intros Hl. revert mbr act. induction Hl as [|l locs Hl _ IH]; intros mbr act; cbn [check_mbr_entries existsb].
  { apply tells_ret. cbn. by rewrite orb_false_r. }
  eapply tells_bind; [by apply tells_mbr_entry|]. intros [ok a] Hok. eapply gives_weaken; [apply IH|]. cbn [fst snd] in *.
  intros r d' [-> Hr]. split; [done|]. intros Hr1. destruct (Hr Hr1) as (Hm & Hf & ->). apply andb_true_iff in Hm as [-> ->].
  destruct (Hok eq_refl) as [He ->]. split; [done|]. split; [by constructor|]. by rewrite orb_assoc.
Qed.

Definition mbr_locs : list Z := [446; 462; 478; 494].

(** The first partition is made active if none is. *)
Definition activated : list Z := if existsb active_at mbr_locs then orig else overwrite orig 446 [0x80].

Lemma gives_mbr : gives orig (check_mbr be false)
  (fun r d' => r = true -> d' = activated /\ Forall mbr_entry_ok mbr_locs /\ no_fs orig 0).
Proof.
  unfold check_mbr. eapply tells_bind; [apply tells_mbr_entries; repeat constructor; lia|]. fold mbr_locs. intros [mbr act] Hr. cbn [fst snd] in Hr.
  eapply (tells_bind _ _ _ (fun r => r = true -> mbr = true /\ no_fs orig 0)).
  { destruct mbr; [|by apply tells_ret]. eapply gives_weaken; [apply tells_validate|]. intros r d' [-> Hn]. split; [done|]. auto. }
  intros ok Hok. destruct ok; [|by apply gives_ret]. destruct (Hok eq_refl) as [-> Hn]. destruct (Hr eq_refl) as (_ & Hf & Hact). cbn [orb] in Hact.
  unfold activated. rewrite <- Hact. destruct act; cbn [negb andb]; [by apply gives_ret|].
  eapply gives_bind; [by apply gives_write|]. intros _ d' [-> _]. by apply gives_ret.
Qed.

(** ** The tables *)

Lemma tells_probe : tells orig (probe_gpt be [512; 4096]) (fun g =>
  match g with
  | None => slice 512 8 orig <> efi_part /\ slice 4096 8 orig <> efi_part
  | Some (lb, h) =>
      (lb = 512 \/ lb = 4096 /\ slice 512 8 orig <> efi_part) /\ slice (Z.to_nat lb) 8 orig = efi_part
      /\ h = load_gpt_header be (slice (Z.to_nat lb) 96 orig) /\ lb + 96 <= Z.of_nat (length orig)
  end).
Proof.
  assert (Hc : forall lb, 0 <= lb -> lb + 96 <= Z.of_nat (length orig) ->
    (strncmp (slice 0 8 (slice (Z.to_nat lb) (Z.to_nat 96) orig)) efi_part 8 =? 0) = bool_decide (slice (Z.to_nat lb) 8 orig = efi_part)).
  { intros lb H0 Hlb. assert (E : slice 0 8 (slice (Z.to_nat lb) (Z.to_nat 96) orig) = slice (Z.to_nat lb) 8 orig).
    { unfold slice. by rewrite drop_0, take_take. }
    rewrite E. apply strncmp_text; [rewrite slice_length; [done|lia]|by repeat constructor]. }
  cbn [probe_gpt]. eapply tells_bind; [by apply tells_read|]. intros bs [-> H1]. rewrite Hc by lia. case_bool_decide as E1.
  { apply tells_ret. split_and!; [by left|done..]. }
  eapply tells_bind; [by apply tells_read|]. intros bs [-> H2]. rewrite Hc by lia. case_bool_decide as E2; apply tells_ret; [|done].
  split_and!; [by right|done..].
Qed.

Context (lb : Z) (h : gpt_table_header).

(** The entry [i] of the table. *)
Definition entry_loc (i : Z) : Z := h.(partition_entry_lba) * lb + i * h.(size_of_partition_entry).
Definition entry_at (i : Z) : gpt_entry := load_gpt_entry be (slice (Z.to_nat (entry_loc i)) 128 orig).
Definition is_boot (i : Z) : Prop := (entry_at i).(type_guid) = bios_boot_type.

(** The entry that is asked for, or else the first one for the boot code. *)
Definition chosen (ndx : option (option Z)) (i : Z) : Prop :=
  0 <= i < h.(number_of_partition_entries) /\ is_boot i /\
  match ndx with
  | Some (Some n) => i = u32 (n - 1)
  | _ => forall j, 0 <= j < i -> ~ is_boot j
  end.

Context (Hnum : 0 <= h.(number_of_partition_entries) < W32) (Hsize : 0 <= h.(size_of_partition_entry) < W32).
Context (base : Z) (Hbase : base = h.(partition_entry_lba) * lb) (Hpos : 0 <= base).

Lemma entry_offset i off : 0 <= i < W32 -> add_overflow base (u64 (i * h.(size_of_partition_entry))) = Some off -> off = entry_loc i /\ 0 <= off < W64.
Proof.
  intros Hi. unfold add_overflow, u64. rewrite (Z.mod_small (i * _)) by nia. case_match eqn:E; [|done]. intros [= <-].
  unfold entry_loc. rewrite Hbase in *. apply Z.ltb_lt in E. nia.
Qed.

Lemma tells_autodetect n i : 0 <= i -> i + Z.of_nat n <= h.(number_of_partition_entries) ->
  tells orig (autodetect be n i base h.(size_of_partition_entry))
    (fun e => exists k, i <= k < i + Z.of_nat n /\ e = entry_at k /\ is_boot k /\ forall j, i <= j < k -> ~ is_boot j).
Proof.
  revert i. induction n as [|n IH]; intros i Hi Hn; cbn [autodetect]; [apply gives_cleanup|].
  destruct (add_overflow _ _) as [off|] eqn:E; [|apply gives_cleanup]. apply entry_offset in E as [-> Ho]; [|lia].
  eapply tells_bind; [by apply tells_read|]. intros bs [-> _].
  change (slice 0 16 (slice (Z.to_nat (entry_loc i)) (Z.to_nat 128) orig)) with (type_guid (entry_at i)). case_bool_decide as Hb.
  { apply tells_ret. exists i. split; [lia|]. split; [done|]. split; [done|]. lia. }
  eapply gives_weaken; [apply IH; lia|]. intros e d' (-> & k & Hk & He & Hbk & Hj). split; [done|]. exists k.
  split; [lia|]. split; [done|]. split; [done|]. intros j Hjk. destruct (decide (j = i)) as [->|]; [done|]. apply Hj. lia.
Qed.

Lemma tells_select ndx : tells orig (select_partition be false ndx h base) (fun e => exists i, chosen ndx i /\ e = entry_at i).
Proof.
  unfold select_partition. destruct ndx as [[n|]|]; [|apply gives_cleanup|].
  - assert (Hu : 0 <= u32 (n - 1)) by (unfold u32; apply Z.mod_pos_bound; lia).
    split_leb (number_of_partition_entries h) (u32 (n - 1)); [apply gives_cleanup|].
    destruct (add_overflow _ _) as [off|] eqn:Eo; [|apply gives_cleanup]. apply entry_offset in Eo as [-> Ho]; [|lia].
    eapply tells_bind; [by apply tells_read|]. intros bs [-> _]. change (Z.to_nat 128) with 128%nat. fold (entry_at (u32 (n - 1))).
    case_bool_decide; [apply gives_cleanup|]. cbn [negb andb]. case_bool_decide as Hb; cbn [negb]; [|apply gives_cleanup].
    apply tells_ret. exists (u32 (n - 1)). split; [|done]. split; [lia|]. by split.
  - eapply gives_weaken; [apply tells_autodetect; lia|]. intros e d' (-> & k & Hk & He & Hb & Hj). split; [done|]. exists k. split; [|done].
    split; [lia|]. by split.
Qed.
End effect.

(** ** The whole installation *)

(** The bytes after an installation whose second part is at [loc]. *)
Definition installed (d img : list Z) (loc : Z) (x : nat) : option Z :=
  if decide (218 <= x < 224 \/ 440 <= x < 510)%nat then d !! x
  else if decide (0x1a4 <= x < 0x1ac)%nat then le_store 8 loc !! (x - 0x1a4)%nat
  else if decide (x < 512)%nat then img !! x
  else if decide (loc <= Z.of_nat x < loc + Z.of_nat (length img - 512)) then img !! (512 + (x - Z.to_nat loc))%nat
  else d !! x.

Lemma staged_lookup d img loc x : (512 < length img)%nat -> 512 <= loc -> loc + Z.of_nat (length img - 512) <= Z.of_nat (length d) ->
  staged img loc d !! x = installed d img loc x.
Proof.
  intros Hi Hl Hend. unfold staged. pose proof (length_drop img 512) as Hdl. assert (Htl : length (take 512 img) = 512%nat) by (rewrite length_take; lia).
  set (d1 := overwrite d 0 (take 512 img)). assert (L1 : length d1 = length d) by (apply overwrite_length; lia).
  set (d2 := overwrite d1 _ (drop 512 img)). assert (L2 : length d2 = length d) by (unfold d2; rewrite overwrite_length; lia).
  set (d3 := overwrite d2 _ (le_store 8 loc)). assert (Hsl : length (le_store 8 loc) = 8%nat) by apply length_le_store.
  assert (L3 : length d3 = length d) by (unfold d3; rewrite overwrite_length; lia).
  assert (S1 : length (slice 218 6 d) = 6%nat) by (apply slice_length; lia). assert (S2 : length (slice 440 70 d) = 70%nat) by (apply slice_length; lia).
  set (d4 := overwrite d3 218 _). assert (L4 : length d4 = length d) by (unfold d4; rewrite overwrite_length; lia).
  rewrite overwrite_lookup by lia. unfold d4. rewrite overwrite_lookup by lia. unfold d3. rewrite overwrite_lookup by lia.
  unfold d2. rewrite overwrite_lookup by lia. unfold d1. rewrite overwrite_lookup by lia. rewrite S1, S2, Hsl, Hdl, Htl. unfold installed.
  repeat case_decide; try lia; try done.
  - rewrite slice_lookup, decide_True by lia. f_equal. lia.
  - rewrite slice_lookup, decide_True by lia. f_equal. lia.
  - rewrite lookup_drop. done.
  - rewrite lookup_take_lt by lia. f_equal. lia.
Qed.

Section install.
Context `{HostFile}.
Context (be : bool) (d : list Z).
Context (Hbytes : Forall is_byte d).

Lemma header_ranges bs : Forall is_byte bs -> length bs = 96%nat -> let h := load_gpt_header be bs in
  0 <= h.(partition_entry_lba) /\ 0 <= h.(number_of_partition_entries) < W32 /\ 0 <= h.(size_of_partition_entry) < W32.
Proof.
  intros Hb Hl. cbn [load_gpt_header partition_entry_lba number_of_partition_entries size_of_partition_entry].
  rewrite !disk_int_le by (auto || lia).
  assert (Hr : forall off n, (off + n <= 96)%nat -> 0 <= le_load (slice off n bs) < W8 ^ Z.of_nat n).
  { intros off n Hn. pose proof (le_load_range (slice off n bs)) as Hr. rewrite slice_length in Hr by lia. apply Hr, Forall_take, Forall_drop, Hb. }
  pose proof (Hr 72%nat 8%nat ltac:(lia)). pose proof (Hr 80%nat 4%nat ltac:(lia)). pose proof (Hr 84%nat 4%nat ltac:(lia)). split_and!; lia.
Qed.

(** A partition for the boot code: [loc] is where it starts. *)
Definition boot_partition (ndx : option (option Z)) (lb : Z) (h : gpt_table_header) (loc : Z) : Prop :=
  exists i, chosen be d lb h ndx i /\
    let e := entry_at be d lb h i in
    loc = u64 (e.(starting_lba) * lb) /\ 32768 <= u64 (u64 (e.(ending_lba) - e.(starting_lba) + 1) * lb) /\ no_fs d loc.

Lemma tells_stage2 ndx lb h : 0 <= lb -> 0 <= h.(partition_entry_lba) -> 0 <= h.(number_of_partition_entries) < W32 -> 0 <= h.(size_of_partition_entry) < W32 ->
  tells d (gpt_stage2 be false ndx lb h) (boot_partition ndx lb h).
Proof.
  intros Hlb Hlba Hnum Hsz. unfold gpt_stage2, mul_overflow. destruct (_ <? W64); [|apply gives_cleanup].
  eapply tells_bind; [apply (tells_select be d lb h Hnum Hsz _ eq_refl); nia|]. intros e (i & Hi & ->).
  split_ltb (u64 (u64 (ending_lba (entry_at be d lb h i) - starting_lba (entry_at be d lb h i) + 1) * lb)) 32768; [apply gives_cleanup|].
  eapply tells_bind; [apply tells_validate|]. intros [] Hv; [|apply gives_cleanup]. apply tells_ret. exists i. auto.
Qed.

Lemma opened_sees g : good_size g -> g <= Z.of_nat (length d) -> Z.of_nat (length d) < 2 ^ 63 ->
  sees d {| disk := d; cache := take (Z.to_nat g) d; cached_block := 0; cache_dirty := false; block_size := g; uninstalling := false; uninstall_data := [] |}.
Proof.
  intros Hg Hle Hd. pose proof (good_size_pos _ Hg). assert (Hv : overwrite d 0 (take (Z.to_nat g) d) = d).
  { change (take (Z.to_nat g) d) with (slice 0 (Z.to_nat g) d). apply overwrite_slice. lia. }
  set (st := Build_host _ _ _ _ _ _ _). assert (Hview : view st = d) by exact Hv.
  constructor; [|done|exact Hview]. constructor; [done..| |intros _; exact Hview]. intros _. cbn [st cached_block block_size cache disk]. rewrite length_take. lia.
Qed.

Lemma init_sees st : Z.of_nat (length d) < 2 ^ 63 -> device_init [512; 2048; 4096] (fresh d) = (Some tt, st) -> sees d st.
Proof.
  intros Hd. cbn [device_init]. unfold in_file. cbn [fresh disk uninstalling uninstall_data]. change (u64 (0 * ?g) + ?g) with g.
  split_leb 512 (Z.of_nat (length d)); split_leb 2048 (Z.of_nat (length d)); split_leb 4096 (Z.of_nat (length d)); cbn [andb];
    repeat (destruct (negb _); [intros [= <-]; apply opened_sees; unfold good_size; tauto|]); done.
Qed.

(** A successful run, from the probe on. *)
Lemma install_ends img id force conv ndx st R : Z.of_nat (length d) < 2 ^ 63 -> ends d (install be img id force conv ndx) R ->
  bios_install be img id force conv ndx (fresh d) = (true, st) -> R st.(disk).
Proof.
  intros Hd He. unfold bios_install. destruct (device_init _ _) as [[[]|] st1] eqn:E1; [|done].
  destruct (install be img id force conv ndx st1) as [[[]|] st2] eqn:E2; [|done]. intros [= <-]. by apply (He st1 tt st2); [apply init_sees|].
Qed.

Lemma activated_length : (447 <= length d)%nat -> length (activated d) = length d.
Proof. intros Hl. unfold activated. destruct (existsb _ _); [done|]. apply overwrite_length. cbn. lia. Qed.

Lemma ends_mbr img id conv ndx : (512 < length img)%nat -> slice 512 8 d <> efi_part -> slice 4096 8 d <> efi_part ->
  ends d (install be img id false conv ndx) (fun d' =>
    d' = staged img 512 (activated d) /\ Forall (mbr_entry_ok d) mbr_locs /\ no_fs d 0
    /\ 512 + Z.of_nat (length img - 512) <= Z.of_nat (length (activated d))).
Proof.
  intros Hi H1 H2. unfold install. eapply ends_bind; [apply tells_probe|]. intros g d' [-> Hg].
  destruct g as [[lb h]|]; [by destruct Hg as ([->|[-> _]] & E & _)|].
  eapply ends_bind; [by apply (gives_ret _ _ (fun g d' => d' = d /\ g = None))|]. intros g d' [-> ->].
  eapply (ends_bind _ _ _ (fun loc d' => loc = 512 /\ d' = activated d /\ Forall (mbr_entry_ok d) mbr_locs /\ no_fs d 0)).
  { eapply gives_bind; [by apply gives_mbr|]. intros [] d' Hm; [|apply gives_cleanup]. apply gives_ret. split; [done|]. by apply Hm. }
  intros loc d' (-> & -> & Hf & Hn) st a st' Hs E. destruct (ends_stages be (activated d) img 512 Hi ltac:(lia) st a st' Hs E) as (-> & Hend & _). done.
Qed.

(** C9: Installing to a disk without a GPT, without force, changes only the boot code, of the
    first sector and of what follows it as far as the boot code goes: in the first sector
    the disk identifier and the partitions are kept (the first one is made active if none
    is: byte 446 becomes 0x80), and so are the six bytes at 218; every partition starts
    behind the first track, so that boot code of at most 63 sectors leaves all data of the
    partitions as it was. *)
Theorem bios_install_mbr (img id : list Z) (conv : bool) (ndx : option (option Z)) (st : host) :
  Z.of_nat (length d) < 2 ^ 63 -> (512 < length img)%nat -> slice 512 8 d <> efi_part -> slice 4096 8 d <> efi_part ->
  bios_install be img id false conv ndx (fresh d) = (true, st) ->
  (forall x, st.(disk) !! x =
     if decide (x = 446%nat) then if existsb (active_at d) mbr_locs then d !! x else Some 0x80 else installed d img 512 x)
  /\ no_fs d 0
  /\ forall loc, loc ∈ mbr_locs -> d !! Z.to_nat (loc + 4) <> Some 0 ->
       let start := le_load (slice (Z.to_nat (loc + 8)) 4 d) in
       63 <= start /\ (Z.of_nat (length img) <= 63 * 512 -> forall x, start * 512 <= Z.of_nat x -> st.(disk) !! x = d !! x).
Proof.
  intros Hd Hi H1 H2 E. apply (install_ends img id false conv ndx st _ Hd (ends_mbr img id conv ndx Hi H1 H2)) in E as (-> & Hf & Hn & Hend).
  assert (Hl : (512 <= length d)%nat).
  { revert Hend. unfold activated. destruct (existsb _ _); [lia|]. unfold overwrite. rewrite !length_app, length_take, length_drop. cbn [length]. lia. }
  rewrite activated_length in Hend by lia.
  assert (Hx : forall x, staged img 512 (activated d) !! x =
     if decide (x = 446%nat) then if existsb (active_at d) mbr_locs then d !! x else Some 0x80 else installed d img 512 x).
  { intros x. rewrite staged_lookup by (rewrite ?activated_length; lia). unfold installed, activated. destruct (decide (x = 446%nat)) as [->|Hx].
    - rewrite decide_True by lia. destruct (existsb _ _); [done|]. rewrite overwrite_lookup by (cbn; lia). done.
    - destruct (existsb _ _); [done|]. rewrite !overwrite_lookup by (cbn; lia). cbn [length]. rewrite !(decide_False (P := (446 <= x < 446 + 1)%nat)) by lia. done. }
  split; [done|]. split; [done|]. intros loc Hloc Ht. cbv zeta. rewrite Forall_forall in Hf. destruct (Hf loc Hloc) as [_ Hs].
  specialize (Hs Ht). split; [done|]. intros Hsz x Hxs. rewrite Hx. rewrite decide_False by lia. unfold installed. repeat case_decide; try lia; done.
Qed.

Lemma ends_gpt img id conv ndx lb : (512 < length img)%nat -> (conv = true -> slice (Z.to_nat 32769) 5 d <> str "CD001") -> lb = 512 \/ lb = 4096 /\ slice 512 8 d <> efi_part -> slice (Z.to_nat lb) 8 d = efi_part ->
  let h := load_gpt_header be (slice (Z.to_nat lb) 96 d) in
  ends d (install be img id false conv ndx) (fun d' =>
    exists loc, boot_partition ndx lb h loc /\ d' = staged img loc d /\ loc + Z.of_nat (length img - 512) <= Z.of_nat (length d)).
Proof.
  intros Hi Hiso Hlb Hefi h. unfold install. eapply ends_bind; [apply tells_probe|]. intros g d' [-> Hg].
  destruct g as [[lb' h']|].
  2: { destruct Hg. by destruct Hlb as [->|[-> _]]. }
  destruct Hg as (Hlb' & Hefi' & Hh & Hlen). assert (lb' = lb) as -> by (destruct Hlb as [->|[-> ?]], Hlb' as [->|[-> ?]]; done).
  fold h in Hh. subst h'. assert (Hbs : Forall is_byte (slice (Z.to_nat lb) 96 d)) by (by apply Forall_take, Forall_drop).
  destruct (header_ranges _ Hbs) as (R1 & R2 & R3); [apply slice_length; lia|]. fold h in R1, R2, R3.
  eapply (ends_bind _ _ _ (fun g d' => d' = d /\ g = Some (lb, h))).
  { unfold check_secondary. eapply (tells_bind _ _ _ (fun _ => True)).
    - eapply tells_bind; [apply tells_read; [unfold u64; apply Z.mod_pos_bound; lia|lia]|]. intros bs _. destruct (_ =? 0); [by apply tells_ret|apply gives_cleanup].
    - intros _ _. eapply (tells_bind _ _ _ (fun c => c = false)); [|intros c ->; by apply gives_ret].
      destruct conv; [|by apply tells_ret]. unfold convert_gpt. eapply tells_bind; [apply tells_read; lia|]. intros bs [-> _].
      rewrite bool_decide_false by (by apply Hiso). by apply tells_ret. }
  intros g d' [-> ->]. eapply ends_bind; [apply tells_stage2; lia|]. intros loc d' [-> Hloc] st a st' Hs E.
  assert (Hr : 0 <= loc < W64) by (destruct Hloc as (i & _ & -> & _); unfold u64; apply Z.mod_pos_bound; lia).
  destruct (ends_stages be d img loc Hi Hr st a st' Hs E) as (-> & Hend & _). by exists loc.
Qed.

(** C25: Installing to a disk with a GPT, without force and without a conversion to an MBR
    (it is not allowed, or the disk is no ISO 9660 image), puts the second part of the boot
    code at the start of a partition: of the one that is asked for, which must be for boot
    code, or else of the first such partition in the table; it has at least 32 KiB and holds
    no file system that is known.  If it does not start in the first 512 bytes, nothing else
    changes but the boot code of the first sector, and boot code whose second part fits in
    32 KiB stays within the partition. *)
Theorem bios_install_gpt (img id : list Z) (conv : bool) (ndx : option (option Z)) (lb : Z) (st : host) :
  Z.of_nat (length d) < 2 ^ 63 -> (512 < length img)%nat -> (conv = true -> slice (Z.to_nat 32769) 5 d <> str "CD001") ->
  lb = 512 \/ lb = 4096 /\ slice 512 8 d <> efi_part -> slice (Z.to_nat lb) 8 d = efi_part ->
  bios_install be img id false conv ndx (fresh d) = (true, st) ->
  let h := load_gpt_header be (slice (Z.to_nat lb) 96 d) in
  exists i, chosen be d lb h ndx i /\
    let e := entry_at be d lb h i in
    let loc := u64 (e.(starting_lba) * lb) in
    let size := u64 (u64 (e.(ending_lba) - e.(starting_lba) + 1) * lb) in
    32768 <= size /\ no_fs d loc
    /\ (512 <= loc -> (forall x, st.(disk) !! x = installed d img loc x)
         /\ (Z.of_nat (length img) <= 512 + 32768 -> forall x, (512 <= x)%nat -> ~ (loc <= Z.of_nat x < loc + size) -> st.(disk) !! x = d !! x)).
Proof.
  intros Hd Hi Hiso Hlb Hefi E h. apply (install_ends img id false conv ndx st _ Hd (ends_gpt img id conv ndx lb Hi Hiso Hlb Hefi)) in E as (loc & (i & Hc & Hloc & Hsz & Hn) & -> & Hend).
  exists i. split; [done|]. cbv zeta. fold h in Hloc, Hsz. rewrite <- Hloc. split; [done|]. split; [done|]. intros Hge.
  assert (Hx : forall x, staged img loc d !! x = installed d img loc x) by (intros x; by apply staged_lookup).
  split; [done|]. intros Hs x H512 Hout. rewrite Hx. unfold installed. repeat case_decide; try lia; done.
Qed.
End install.

(** ** Witnesses *)

Local Notation mbr_run := (bios_install (H := plain) false boot_image [] false false None (fresh blank_disk)).

Lemma bios_install_mbr_witness : mbr_run.2.(disk) !! 446%nat = Some 0x80.
Proof.
  assert (E : mbr_run.1 = true) by (vm_compute; reflexivity).
  assert (Hb : Forall is_byte blank_disk) by (apply Forall_replicate; unfold is_byte; lia).
  assert (Hd : Z.of_nat (length blank_disk) < 2 ^ 63) by (vm_compute; reflexivity).
  assert (Hi : (512 < length boot_image)%nat) by (apply Nat.ltb_lt; vm_compute; reflexivity).
  assert (H1 : slice 512 8 blank_disk <> efi_part) by (vm_compute; discriminate).
  assert (H2 : slice 4096 8 blank_disk <> efi_part) by (vm_compute; discriminate).
  destruct (bios_install_mbr (H := plain) false blank_disk Hb boot_image [] false None mbr_run.2 Hd Hi H1 H2 (pair_fst mbr_run true E)) as [Hx _].
  rewrite Hx. vm_compute. reflexivity.
Defined.

(** A disk with a GPT of one partition, for boot code, from the sector 8 to the sector 71. *)
Definition gpt_disk : list Z :=
  overwrite
    (overwrite blank_disk 512 (efi_part ++ replicate 24 0 ++ le_store 8 1 ++ replicate 32 0 ++ le_store 8 2 ++ le_store 4 1 ++ le_store 4 128))
    1024 (bios_boot_type ++ replicate 16 1 ++ le_store 8 8 ++ le_store 8 71).
Local Notation gpt_run := (bios_install (H := plain) false boot_image [] false false None (fresh gpt_disk)).

Lemma bios_install_gpt_witness : gpt_run.2.(disk) !! 4096%nat = Some 7 /\ gpt_run.2.(disk) !! 4608%nat = Some 0.
Proof.
  assert (E : gpt_run.1 = true) by (vm_compute; reflexivity).
  assert (Hb : Forall is_byte gpt_disk).
  { apply (Forall_impl (fun b => (0 <=? b) && (b <? 256) = true)); [|intros b Hb; unfold is_byte; lia].
    apply List.Forall_forall, List.forallb_forall. vm_compute. reflexivity. }
  assert (Hd : Z.of_nat (length gpt_disk) < 2 ^ 63) by (vm_compute; reflexivity).
  assert (Hi : (512 < length boot_image)%nat) by (apply Nat.ltb_lt; vm_compute; reflexivity).
  assert (H1 : slice (Z.to_nat 512) 8 gpt_disk = efi_part) by (vm_compute; reflexivity).
  destruct (bios_install_gpt (H := plain) false gpt_disk Hb boot_image [] false None 512 gpt_run.2 Hd Hi ltac:(done) (or_introl eq_refl) H1 (pair_fst gpt_run true E)) as (i & Hc & _ & _ & Hx).
  assert (Hn : number_of_partition_entries (load_gpt_header false (slice (Z.to_nat 512) 96 gpt_disk)) = 1) by (vm_compute; reflexivity).
  assert (i = 0) as -> by (destruct Hc as [Hc _]; rewrite Hn in Hc; lia).
  destruct Hx as [Hx _]; [vm_compute; discriminate|]. rewrite !Hx. vm_compute. split; reflexivity.
Defined.
