(* ===== verification/Cc.v ===== *)
(** * Integer arithmetic: common/cc-runtime.s2.c

    The routines that a compiler calls for arithmetic that the processor does not have:
    64-bit division on a 32-bit processor, 128-bit arithmetic, counting of bits.  The
    same file is linked to the decompressor (decompressor/cc-runtime.c).

    A routine that the source has at several widths, by inclusion of the same text or by
    copying it, is one definition over the width [N] of its integers, or over the width
    [h] of half of one, with an instance for each width.  An unsigned integer is in
    [[0, 2^N)], a signed one in [[-2^(N-1), 2^(N-1))].  A shift by an amount that is not
    in [[0, N)], a division by zero, a signed result that does not fit and counting the
    leading or trailing zeros of 0 by a builtin are [Undef], as they are in C. *)

From S2P Require Import Prelude Bytes.

(** ** Integers of a width *)

Definition wrapu (N x : Z) : Z := x `mod` 2 ^ N.
Definition wraps (N x : Z) : Z := (x + 2 ^ (N - 1)) `mod` 2 ^ N - 2 ^ (N - 1).

(** A signed result. *)
Definition sval (N x : Z) : outcome Z := if (- 2 ^ (N - 1) <=? x) && (x <? 2 ^ (N - 1)) then Ret x else Undef.

(** Shifts; the right shift is arithmetic for signed integers. *)
Definition shl (N x k : Z) : outcome Z := if (0 <=? k) && (k <? N) then Ret (wrapu N (Z.shiftl x k)) else Undef.
Definition shr (N x k : Z) : outcome Z := if (0 <=? k) && (k <? N) then Ret (Z.shiftr x k) else Undef.

Definition div (a b : Z) : outcome Z := if b =? 0 then Undef else Ret (a ÷ b).
Definition rem (a b : Z) : outcome Z := if b =? 0 then Undef else Ret (Z.rem a b).

(** [__builtin_clz] and [__builtin_ctz]. *)
Definition builtin_clz (N x : Z) : outcome Z := if x =? 0 then Undef else Ret (N - 1 - Z.log2 x).
Fixpoint pos_ctz (p : positive) : Z :=
  match p with
  | (p~0)%positive => 1 + pos_ctz p
  | _ => 0
  end.
Definition builtin_ctz (x : Z) : outcome Z :=
  match x with
  | Z.pos p => Ret (pos_ctz p)
  | _ => Undef
  end.

(** The unions [dwords], [udwords], [twords] and [utwords]: the halves of an integer, of
    which the high one has its sign, and an integer from its halves. *)
Definition low (h a : Z) : Z := wrapu h a.
Definition high (h a : Z) : Z := Z.shiftr a h.
Definition words (h l hi : Z) : Z := hi * 2 ^ h + l.

Definition compilerrt_abort {A} : outcome A := Panic "compilerrt_abort".
Definition MIN (N : Z) : Z := wraps N (Z.shiftl 1 (N - 1)).
Definition MAX (N : Z) : Z := Z.lnot (MIN N).

(** ** Checked arithmetic *)

Definition absvXi2 (N a : Z) : outcome Z :=
  if a =? MIN N then compilerrt_abort
  else let t := Z.shiftr a (N - 1) in sval N (Z.lxor a t - t).
Definition __absvdi2 : Z -> outcome Z := absvXi2 64.
Definition __absvsi2 : Z -> outcome Z := absvXi2 32.
Definition __absvti2 : Z -> outcome Z := absvXi2 128.

Definition addvXi3 (N a b : Z) : outcome Z :=
  let s := wraps N (a + b) in
  if 0 <=? b then if s <? a then compilerrt_abort else Ret s
  else if a <=? s then compilerrt_abort else Ret s.
Definition __addvdi3 : Z -> Z -> outcome Z := addvXi3 64.
Definition __addvsi3 : Z -> Z -> outcome Z := addvXi3 32.
Definition __addvti3 : Z -> Z -> outcome Z := addvXi3 128.

Definition subvXi3 (N a b : Z) : outcome Z :=
  let s := wraps N (a - b) in
  if 0 <=? b then if a <? s then compilerrt_abort else Ret s
  else if s <=? a then compilerrt_abort else Ret s.
Definition __subvdi3 : Z -> Z -> outcome Z := subvXi3 64.
Definition __subvsi3 : Z -> Z -> outcome Z := subvXi3 32.
Definition __subvti3 : Z -> Z -> outcome Z := subvXi3 128.

Definition negXi2 (N a : Z) : Z := wraps N (- a).
Definition __negdi2 : Z -> Z := negXi2 64.
Definition __negti2 : Z -> Z := negXi2 128.

Definition negvXi2 (N a : Z) : outcome Z := if a =? MIN N then compilerrt_abort else sval N (- a).
Definition __negvdi2 : Z -> outcome Z := negvXi2 64.
Definition __negvsi2 : Z -> outcome Z := negvXi2 32.
Definition __negvti2 : Z -> outcome Z := negvXi2 128.

(** ** Shifts *)

Definition ashlXi3 (h a b : Z) : outcome Z :=
  if negb (Z.land b h =? 0) then
    hi ← shl h (low h a) (b - h);
    Ret (words h 0 (wraps h hi))
  else if b =? 0 then Ret a
  else
    l ← shl h (low h a) b;
    x ← shl h (wrapu h (high h a)) b;
    y ← shr h (low h a) (h - b);
    Ret (words h l (wraps h (Z.lor x y))).
Definition __ashldi3 : Z -> Z -> outcome Z := ashlXi3 32.
Definition __ashlti3 : Z -> Z -> outcome Z := ashlXi3 64.

Definition ashrXi3 (h a b : Z) : outcome Z :=
  if negb (Z.land b h =? 0) then
    hi ← shr h (high h a) (h - 1);
    l ← shr h (high h a) (b - h);
    Ret (words h (wrapu h l) hi)
  else if b =? 0 then Ret a
  else
    hi ← shr h (high h a) b;
    x ← shl h (wrapu h (high h a)) (h - b);
    y ← shr h (low h a) b;
    Ret (words h (Z.lor x y) hi).
Definition __ashrdi3 : Z -> Z -> outcome Z := ashrXi3 32.
Definition __ashrti3 : Z -> Z -> outcome Z := ashrXi3 64.

(** The argument is stored as an unsigned integer, and the result is returned as a signed one. *)
Definition lshrXi3 (h a b : Z) : outcome Z :=
  let input := wrapu (2 * h) a in
  if negb (Z.land b h =? 0) then
    l ← shr h (high h input) (b - h);
    Ret (wraps (2 * h) (words h l 0))
  else if b =? 0 then Ret a
  else
    hi ← shr h (high h input) b;
    x ← shl h (high h input) (h - b);
    y ← shr h (low h input) b;
    Ret (wraps (2 * h) (words h (Z.lor x y) hi)).
Definition __lshrdi3 : Z -> Z -> outcome Z := lshrXi3 32.
Definition __lshrti3 : Z -> Z -> outcome Z := lshrXi3 64.

(** ** Comparison *)

Definition cmpXi2 (h a b : Z) : Z :=
  if high h a <? high h b then 0
  else if high h b <? high h a then 2
  else if low h a <? low h b then 0
  else if low h b <? low h a then 2
  else 1.
Definition __cmpdi2 : Z -> Z -> Z := cmpXi2 32.
Definition __aeabi_lcmp (a b : Z) : Z := __cmpdi2 a b - 1.
Definition __cmpti2 : Z -> Z -> Z := cmpXi2 64.
Definition __ucmpdi2 : Z -> Z -> Z := cmpXi2 32.
Definition __aeabi_ulcmp (a b : Z) : Z := __ucmpdi2 (wrapu 64 a) (wrapu 64 b) - 1.
Definition __ucmpti2 : Z -> Z -> Z := cmpXi2 64.

(** ** Bits *)

Definition __bswapdi2 (u : Z) : Z :=
  Z.lor (Z.lor (Z.lor (Z.lor (Z.lor (Z.lor (Z.lor
    (Z.shiftr (Z.land u 0xff00000000000000) 56)
    (Z.shiftr (Z.land u 0x00ff000000000000) 40))
    (Z.shiftr (Z.land u 0x0000ff0000000000) 24))
    (Z.shiftr (Z.land u 0x000000ff00000000) 8))
    (Z.shiftl (Z.land u 0x00000000ff000000) 8))
    (Z.shiftl (Z.land u 0x0000000000ff0000) 24))
    (Z.shiftl (Z.land u 0x000000000000ff00) 40))
    (Z.shiftl (Z.land u 0x00000000000000ff) 56).
Definition __bswapsi2 (u : Z) : Z :=
  Z.lor (Z.lor (Z.lor
    (Z.shiftr (Z.land u 0xff000000) 24)
    (Z.shiftr (Z.land u 0x00ff0000) 8))
    (Z.shiftl (Z.land u 0x0000ff00) 8))
    (Z.shiftl (Z.land u 0x000000ff) 24).

(** [-(c)] of a comparison *)
Definition mask (c : bool) : Z := - Z.b2z c.

Definition clzXi2 (h a : Z) : outcome Z :=
  let f := mask (high h a =? 0) in
  c ← builtin_clz h (wrapu h (Z.lor (Z.land (high h a) (Z.lnot f)) (Z.land (low h a) f)));
  Ret (c + Z.land f h).
Definition __clzdi2 : Z -> outcome Z := clzXi2 32.
Definition __clzti2 : Z -> outcome Z := clzXi2 64.

(** One step: [k] bits are skipped if they are zero. *)
Definition clz_step (m k : Z) (st : Z * Z) : Z * Z :=
  let '(x, r) := st in
  let t := if Z.land x m =? 0 then k else 0 in
  (Z.shiftr x (k - t), r + t).
Definition __clzsi2 (a : Z) : Z :=
  let '(x, r) := clz_step 0xC 2 (clz_step 0xF0 4 (clz_step 0xFF00 8 (clz_step 0xFFFF0000 16 (wrapu 32 a, 0)))) in
  wrapu 32 (r + Z.land (wrapu 32 (2 - x)) (wrapu 32 (mask (Z.land x 2 =? 0)))).

Definition ctzXi2 (h a : Z) : outcome Z :=
  let f := mask (low h a =? 0) in
  c ← builtin_ctz (wrapu h (Z.lor (Z.land (high h a) f) (Z.land (low h a) (Z.lnot f))));
  Ret (c + Z.land f h).
Definition __ctzdi2 : Z -> outcome Z := ctzXi2 32.
Definition __ctzti2 : Z -> outcome Z := ctzXi2 64.

Definition ctz_step (m k : Z) (st : Z * Z) : Z * Z :=
  let '(x, r) := st in
  let t := if Z.land x m =? 0 then k else 0 in
  (Z.shiftr x t, r + t).
Definition __ctzsi2 (a : Z) : Z :=
  let '(x, r) := ctz_step 0x3 2 (ctz_step 0x0F 4 (ctz_step 0x00FF 8 (ctz_step 0x0000FFFF 16 (wrapu 32 a, 0)))) in
  let x := Z.land x 3 in
  wrapu 32 (r + Z.land (wrapu 32 (2 - Z.shiftr x 1)) (wrapu 32 (mask (Z.land x 1 =? 0)))).

Definition ffsXi2 (h a : Z) : outcome Z :=
  if low h a =? 0 then
    if high h a =? 0 then Ret 0
    else c ← builtin_ctz (wrapu h (high h a)); Ret (c + (1 + h))
  else c ← builtin_ctz (low h a); Ret (c + 1).
Definition __ffsdi2 : Z -> outcome Z := ffsXi2 32.
Definition __ffsti2 : Z -> outcome Z := ffsXi2 64.
Definition __ffssi2 (a : Z) : outcome Z := if a =? 0 then Ret 0 else c ← builtin_ctz (wrapu 32 a); Ret (c + 1).

(** The end of the parity of 32 bits, the same in the three routines. *)
Definition parity_fold (x : Z) : Z :=
  let x := Z.lxor x (Z.shiftr x 16) in
  let x := Z.lxor x (Z.shiftr x 8) in
  let x := Z.lxor x (Z.shiftr x 4) in
  Z.land (Z.shiftr 0x6996 (Z.land x 0xF)) 1.
Definition __paritysi2 (a : Z) : Z := parity_fold (wrapu 32 a).
Definition __paritydi2 (a : Z) : Z := parity_fold (wrapu 32 (Z.lxor (high 32 a) (low 32 a))).
Definition __parityti2 (a : Z) : Z :=
  let x2 := wraps 64 (Z.lxor (high 64 a) (low 64 a)) in
  parity_fold (wrapu 32 (Z.lxor (high 32 x2) (low 32 x2))).

Definition __popcountsi2 (a : Z) : Z :=
  let x := wrapu 32 a in
  let x := wrapu 32 (x - Z.land (Z.shiftr x 1) 0x55555555) in
  let x := wrapu 32 (Z.land (Z.shiftr x 2) 0x33333333 + Z.land x 0x33333333) in
  let x := Z.land (wrapu 32 (x + Z.shiftr x 4)) 0x0F0F0F0F in
  let x := wrapu 32 (x + Z.shiftr x 16) in
  Z.land (wrapu 32 (x + Z.shiftr x 8)) 0x0000003F.
Definition __popcountdi2 (a : Z) : Z :=
  let x2 := wrapu 64 a in
  let x2 := wrapu 64 (x2 - Z.land (Z.shiftr x2 1) 0x5555555555555555) in
  let x2 := wrapu 64 (Z.land (Z.shiftr x2 2) 0x3333333333333333 + Z.land x2 0x3333333333333333) in
  let x2 := Z.land (wrapu 64 (x2 + Z.shiftr x2 4)) 0x0F0F0F0F0F0F0F0F in
  let x := wrapu 32 (wrapu 64 (x2 + Z.shiftr x2 32)) in
  let x := wrapu 32 (x + Z.shiftr x 16) in
  Z.land (wrapu 32 (x + Z.shiftr x 8)) 0x0000007F.
Definition __popcountti2 (a : Z) : Z :=
  let twice m := Z.lor (Z.shiftl m 64) m in
  let x3 := wrapu 128 a in
  let x3 := wrapu 128 (x3 - Z.land (Z.shiftr x3 1) (twice 0x5555555555555555)) in
  let x3 := wrapu 128 (Z.land (Z.shiftr x3 2) (twice 0x3333333333333333) + Z.land x3 (twice 0x3333333333333333)) in
  let x3 := Z.land (wrapu 128 (x3 + Z.shiftr x3 4)) (twice 0x0F0F0F0F0F0F0F0F) in
  let x2 := wrapu 64 (wrapu 128 (x3 + Z.shiftr x3 64)) in
  let x := wrapu 32 (wrapu 64 (x2 + Z.shiftr x2 32)) in
  let x := wrapu 32 (x + Z.shiftr x 16) in
  Z.land (wrapu 32 (x + Z.shiftr x 8)) 0xFF.

(** ** Multiplication *)

(** The product of two integers of [h] bits, in [2 * h] bits; [w] is half of [h]. *)
Definition mulXsi3 (h a b : Z) : Z :=
  let w := h / 2 in
  let lower_mask := Z.shiftr (2 ^ h - 1) w in
  let l := wrapu h (Z.land a lower_mask * Z.land b lower_mask) in
  let t := Z.shiftr l w in
  let l := Z.land l lower_mask in
  let t := wrapu h (t + wrapu h (Z.shiftr a w * Z.land b lower_mask)) in
  let l := wrapu h (l + wrapu h (Z.shiftl (Z.land t lower_mask) w)) in
  let hi := wraps h (Z.shiftr t w) in
  let t := Z.shiftr l w in
  let l := Z.land l lower_mask in
  let t := wrapu h (t + wrapu h (Z.shiftr b w * Z.land a lower_mask)) in
  let l := wrapu h (l + wrapu h (Z.shiftl (Z.land t lower_mask) w)) in
  let hi := wraps h (hi + Z.shiftr t w) in
  let hi := wraps h (hi + wrapu h (Z.shiftr a w * Z.shiftr b w)) in
  words h l hi.
Definition __muldsi3 : Z -> Z -> Z := mulXsi3 32.
Definition __mulddi3 : Z -> Z -> Z := mulXsi3 64.

(** The products with a high half are products of unsigned integers. *)
Definition mulXi3 (h a b : Z) : Z :=
  let r := mulXsi3 h (low h a) (low h b) in
  let cross := wrapu h (wrapu h (wrapu h (high h a) * low h b) + wrapu h (low h a * wrapu h (high h b))) in
  words h (low h r) (wraps h (wrapu h (high h r) + cross)).
Definition __muldi3 : Z -> Z -> Z := mulXi3 32.
Definition __multi3 : Z -> Z -> Z := mulXi3 64.

(** The product that wraps, and [*overflow]. *)
Definition muloXi4 (N a b : Z) : outcome (Z * bool) :=
  let result := wraps N (a * b) in
  if a =? MIN N then Ret (result, negb (b =? 0) && negb (b =? 1))
  else if b =? MIN N then Ret (result, negb (a =? 0) && negb (a =? 1))
  else
    let sa := Z.shiftr a (N - 1) in
    abs_a ← sval N (Z.lxor a sa - sa);
    let sb := Z.shiftr b (N - 1) in
    abs_b ← sval N (Z.lxor b sb - sb);
    if (abs_a <? 2) || (abs_b <? 2) then Ret (result, false)
    else if sa =? sb then
      q ← div (MAX N) abs_b;
      Ret (result, q <? abs_a)
    else
      q ← div (MIN N) (- abs_b);
      Ret (result, q <? abs_a).
Definition __mulodi4 : Z -> Z -> outcome (Z * bool) := muloXi4 64.
Definition __mulosi4 : Z -> Z -> outcome (Z * bool) := muloXi4 32.
Definition __muloti4 : Z -> Z -> outcome (Z * bool) := muloXi4 128.

Definition mulvXi3 (N a b : Z) : outcome Z :=
  if a =? MIN N then
    if (b =? 0) || (b =? 1) then sval N (a * b) else compilerrt_abort
  else if b =? MIN N then
    if (a =? 0) || (a =? 1) then sval N (a * b) else compilerrt_abort
  else
    let sa := Z.shiftr a (N - 1) in
    abs_a ← sval N (Z.lxor a sa - sa);
    let sb := Z.shiftr b (N - 1) in
    abs_b ← sval N (Z.lxor b sb - sb);
    if (abs_a <? 2) || (abs_b <? 2) then sval N (a * b)
    else
      q ← (if sa =? sb then div (MAX N) abs_b else div (MIN N) (- abs_b));
      if q <? abs_a then compilerrt_abort else sval N (a * b).
Definition __mulvdi3 : Z -> Z -> outcome Z := mulvXi3 64.
Definition __mulvsi3 : Z -> Z -> outcome Z := mulvXi3 32.
Definition __mulvti3 : Z -> Z -> outcome Z := mulvXi3 128.

(** ** Unsigned division *)

Section udiv.
Context (N : Z).

(** [d ? clz(d) : N] *)
Definition clz_or (x : Z) : outcome Z := if x =? 0 then Ret N else builtin_clz N x.

(** One bit of the quotient, without a branch: the new remainder and [carry]. *)
Definition sub_if (d r : Z) : Z * Z :=
  let s := Z.shiftr (wraps N (d - r - 1)) (N - 1) in
  (wrapu N (r - Z.land d (wrapu N s)), Z.land s 1).

(** The loop, [sr] times. *)
Fixpoint udiv_loop (sr : nat) (d r n carry : Z) : Z * Z * Z :=
  match sr with
  | O => (r, n, carry)
  | S sr =>
      let r := Z.lor (wrapu N (Z.shiftl r 1)) (Z.shiftr n (N - 1)) in
      let n := Z.lor (wrapu N (Z.shiftl n 1)) carry in
      let '(r, carry) := sub_if d r in
      udiv_loop sr d r n carry
  end.

(** [unsigned sr] is an integer of 32 bits. *)
Definition udivXi3 (n d : Z) : outcome Z :=
  cd ← clz_or d;
  cn ← clz_or n;
  let sr := wrapu 32 (cd - cn) in
  if N - 1 <? sr then Ret 0
  else if sr =? N - 1 then Ret n
  else
    let sr := sr + 1 in
    r ← shr N n sr;
    n ← shl N n (N - sr);
    let '(r, n, carry) := udiv_loop (Z.to_nat sr) d r n 0 in
    Ret (Z.lor (wrapu N (Z.shiftl n 1)) carry).

Definition umodXi3 (n d : Z) : outcome Z :=
  cd ← clz_or d;
  cn ← clz_or n;
  let sr := wrapu 32 (cd - cn) in
  if N - 1 <? sr then Ret n
  else if sr =? N - 1 then Ret 0
  else
    let sr := sr + 1 in
    r ← shr N n sr;
    n ← shl N n (N - sr);
    let '(r, n, carry) := udiv_loop (Z.to_nat sr) d r n 0 in
    Ret r.
End udiv.

Definition __udivdi3 : Z -> Z -> outcome Z := udivXi3 64.
Definition __udivsi3 : Z -> Z -> outcome Z := udivXi3 32.
Definition __umoddi3 : Z -> Z -> outcome Z := umodXi3 64.
Definition __umodsi3 : Z -> Z -> outcome Z := umodXi3 32.

(** [d] is an [si_int]; the product with it is unsigned. *)
Definition __udivmodsi4 (a b : Z) : outcome (Z * Z) :=
  q ← __udivsi3 a b;
  let d := wraps 32 q in
  Ret (wrapu 32 d, wrapu 32 (a - wrapu 32 (wrapu 32 d * b))).

(** The loop of [__udivmoddi4], on the halves of [r] and [q]. *)
Fixpoint udivmod_loop (sr : nat) (d rh rl qh ql carry : Z) : Z * Z * Z :=
  match sr with
  | O => (words 32 rl rh, words 32 ql qh, carry)
  | S sr =>
      let rh := Z.lor (wrapu 32 (Z.shiftl rh 1)) (Z.shiftr rl 31) in
      let rl := Z.lor (wrapu 32 (Z.shiftl rl 1)) (Z.shiftr qh 31) in
      let qh := Z.lor (wrapu 32 (Z.shiftl qh 1)) (Z.shiftr ql 31) in
      let ql := Z.lor (wrapu 32 (Z.shiftl ql 1)) carry in
      let '(r, carry) := sub_if 64 d (words 32 rl rh) in
      udivmod_loop sr d (high 32 r) (low 32 r) qh ql carry
  end.

(** From the loop on: the quotient and the remainder. *)
Definition udivmod_end (d sr rh rl qh ql : Z) : outcome (Z * Z) :=
  let '(r, q, carry) := udivmod_loop (Z.to_nat sr) d rh rl qh ql 0 in
  Ret (Z.lor (wrapu 64 (Z.shiftl q 1)) carry, r).

(** [q.all = n.all << (64 - sr); r.all = n.all >> sr;] for [1 <= sr < 32], on the halves. *)
Definition __udivmoddi4 (n d : Z) : outcome (Z * Z) :=
  let nh := high 32 n in let nl := low 32 n in
  let dh := high 32 d in let dl := low 32 d in
  if nh =? 0 then
    if dh =? 0 then q ← div nl dl; r ← rem nl dl; Ret (q, r)
    else Ret (0, nl)
  else if dl =? 0 then
    if dh =? 0 then q ← div nh dl; r ← rem nh dl; Ret (q, r)
    else if nl =? 0 then
      q ← div nh dh; r ← rem nh dh; Ret (q, words 32 0 r)
    else if Z.land dh (dh - 1) =? 0 then
      c ← builtin_ctz dh; q ← shr 32 nh c;
      Ret (q, words 32 nl (Z.land nh (dh - 1)))
    else
      cd ← builtin_clz 32 dh; cn ← builtin_clz 32 nh;
      let sr := wrapu 32 (cd - cn) in
      if 30 <? sr then Ret (0, n)
      else
        let sr := sr + 1 in
        qh ← shl 32 nl (32 - sr); rh ← shr 32 nh sr; x ← shl 32 nh (32 - sr); y ← shr 32 nl sr;
        udivmod_end d sr rh (Z.lor x y) qh 0
  else if dh =? 0 then
    if Z.land dl (dl - 1) =? 0 then
      let r := Z.land nl (dl - 1) in
      if dl =? 1 then Ret (n, r)
      else
        sr ← builtin_ctz dl;
        qh ← shr 32 nh sr; x ← shl 32 nh (32 - sr); y ← shr 32 nl sr;
        Ret (words 32 (Z.lor x y) qh, r)
    else
      cd ← builtin_clz 32 dl; cn ← builtin_clz 32 nh;
      let sr := wrapu 32 (1 + 32 + cd - cn) in
      if sr =? 32 then udivmod_end d sr 0 nh nl 0
      else if sr <? 32 then
        qh ← shl 32 nl (32 - sr); rh ← shr 32 nh sr; x ← shl 32 nh (32 - sr); y ← shr 32 nl sr;
        udivmod_end d sr rh (Z.lor x y) qh 0
      else
        ql ← shl 32 nl (64 - sr); x ← shl 32 nh (64 - sr); y ← shr 32 nl (sr - 32); rl ← shr 32 nh (sr - 32);
        udivmod_end d sr 0 rl (Z.lor x y) ql
  else
    cd ← builtin_clz 32 dh; cn ← builtin_clz 32 nh;
    let sr := wrapu 32 (cd - cn) in
    if 31 <? sr then Ret (0, n)
    else
      let sr := sr + 1 in
      if sr =? 32 then udivmod_end d sr 0 nh nl 0
      else
        qh ← shl 32 nl (32 - sr); rh ← shr 32 nh sr; x ← shl 32 nh (32 - sr); y ← shr 32 nl sr;
        udivmod_end d sr rh (Z.lor x y) qh 0.

(** A digit of the quotient is corrected at most twice; [un] is the next digit of the
    dividend.  [fuel] bounds the loop. *)
Fixpoint fix_digit (fuel : nat) (q rhat vn1 vn0 un : Z) : outcome Z :=
  let b := Z.shiftl 1 32 in
  if (b <=? q) || (wrapu 64 (b * rhat + un) <? wrapu 64 (q * vn0)) then
    match fuel with
    | O => Diverge
    | S fuel =>
        let q := wrapu 64 (q - 1) in
        let rhat := wrapu 64 (rhat + vn1) in
        if b <=? rhat then Ret q else fix_digit fuel q rhat vn1 vn0 un
    end
  else Ret q.

Definition udiv128by64to64default (u1 u0 v : Z) : outcome (Z * Z) :=
  let b := Z.shiftl 1 32 in
  s ← builtin_clz 64 v;
  p ← (if 0 <? s then
         v ← shl 64 v s;
         x ← shl 64 u1 s; y ← shr 64 u0 (64 - s);
         un10 ← shl 64 u0 s;
         Ret (v, Z.lor x y, un10)
       else Ret (v, u1, u0));
  let '(v, un64, un10) := (p : Z * Z * Z) in
  let vn1 := Z.shiftr v 32 in let vn0 := Z.land v 0xFFFFFFFF in
  let un1 := Z.shiftr un10 32 in let un0 := Z.land un10 0xFFFFFFFF in
  q1 ← div un64 vn1;
  q1 ← fix_digit 2 q1 (wrapu 64 (un64 - wrapu 64 (q1 * vn1))) vn1 vn0 un1;
  let un21 := wrapu 64 (wrapu 64 (un64 * b + un1) - wrapu 64 (q1 * v)) in
  q0 ← div un21 vn1;
  q0 ← fix_digit 2 q0 (wrapu 64 (un21 - wrapu 64 (q0 * vn1))) vn1 vn0 un0;
  r ← shr 64 (wrapu 64 (wrapu 64 (un21 * b + un0) - wrapu 64 (q0 * v))) s;
  Ret (wrapu 64 (q1 * b + q0), r).

(** The loop of [__udivmodti4]: [shift + 1] times. *)
Fixpoint ti_loop (n : nat) (dividend divisor q : Z) : Z * Z :=
  match n with
  | O => (q, dividend)
  | S n =>
      let q := wrapu 64 (Z.shiftl q 1) in
      let s := Z.shiftr (wraps 128 (divisor - dividend - 1)) 127 in
      let q := Z.lor q (Z.land s 1) in
      ti_loop n (wrapu 128 (dividend - Z.land divisor (wrapu 128 s))) (Z.shiftr divisor 1) q
  end.

(** [udiv128by64to64] is the division above, or an instruction that does the same. *)
Definition __udivmodti4 (a b : Z) : outcome (Z * Z) :=
  if a <? b then Ret (0, a)
  else if high 64 b =? 0 then
    if high 64 a <? low 64 b then
      p ← udiv128by64to64default (high 64 a) (low 64 a) (low 64 b);
      let '(q, r) := (p : Z * Z) in Ret (words 64 q 0, words 64 r 0)
    else
      qh ← div (high 64 a) (low 64 b);
      rh ← rem (high 64 a) (low 64 b);
      p ← udiv128by64to64default rh (low 64 a) (low 64 b);
      let '(q, r) := (p : Z * Z) in Ret (words 64 q qh, words 64 r 0)
  else
    cb ← builtin_clz 64 (high 64 b); ca ← builtin_clz 64 (high 64 a);
    let shift := cb - ca in
    divisor ← shl 128 b shift;
    let '(q, r) := ti_loop (Z.to_nat (shift + 1)) a divisor 0 in
    Ret (words 64 q 0, r).

Definition __udivti3 (a b : Z) : outcome Z := p ← __udivmodti4 a b; Ret ((p : Z * Z).1).
Definition __umodti3 (a b : Z) : outcome Z := p ← __udivmodti4 a b; Ret ((p : Z * Z).2).

(** ** Signed division *)

Section sdiv.
Context (N : Z).

(** [COMPUTE_UDIV] and [ASSIGN_UMOD] are arguments. *)
Definition divXi3 (udiv : Z -> Z -> outcome Z) (a b : Z) : outcome Z :=
  let s_a := Z.shiftr a (N - 1) in
  let s_b := Z.shiftr b (N - 1) in
  let a_u := wrapu N (wrapu N (Z.lxor a s_a) + - s_a) in
  let b_u := wrapu N (wrapu N (Z.lxor b s_b) + - s_b) in
  let s_a := Z.lxor s_a s_b in
  q ← udiv a_u b_u;
  Ret (wraps N (wrapu N (Z.lxor q (wrapu N s_a)) + - s_a)).

Definition modXi3 (umod : Z -> Z -> outcome Z) (a b : Z) : outcome Z :=
  let s := Z.shiftr b (N - 1) in
  let b_u := wrapu N (wrapu N (Z.lxor b s) + - s) in
  let s := Z.shiftr a (N - 1) in
  let a_u := wrapu N (wrapu N (Z.lxor a s) + - s) in
  res ← umod a_u b_u;
  Ret (wraps N (wrapu N (Z.lxor res (wrapu N s)) + - s)).

Definition divmodXi4 (udivmod : Z -> Z -> outcome (Z * Z)) (a b : Z) : outcome (Z * Z) :=
  let s_a := Z.shiftr a (N - 1) in
  let s_b := Z.shiftr b (N - 1) in
  let a := wraps N (wrapu N (Z.lxor a s_a) - s_a) in
  let b := wraps N (wrapu N (Z.lxor b s_b) - s_b) in
  let s_b := Z.lxor s_b s_a in
  p ← udivmod (wrapu N a) (wrapu N b);
  let '(q, r) := (p : Z * Z) in
  Ret (wraps N (Z.lxor q (wrapu N s_b) - s_b), wraps N (Z.lxor r (wrapu N s_a) - s_a)).
End sdiv.

Definition __divdi3 : Z -> Z -> outcome Z := divXi3 64 (fun a b => p ← __udivmoddi4 a b; Ret ((p : Z * Z).1)).
Definition __divsi3 : Z -> Z -> outcome Z := divXi3 32 div.
Definition __divti3 : Z -> Z -> outcome Z := divXi3 128 (fun a b => p ← __udivmodti4 a b; Ret ((p : Z * Z).1)).
Definition __moddi3 : Z -> Z -> outcome Z := modXi3 64 (fun a b => p ← __udivmoddi4 a b; Ret ((p : Z * Z).2)).
Definition __modsi3 (a b : Z) : outcome Z :=
  q ← __divsi3 a b; m ← sval 32 (q * b); sval 32 (a - m).
Definition __modti3 : Z -> Z -> outcome Z := modXi3 128 (fun a b => p ← __udivmodti4 a b; Ret ((p : Z * Z).2)).
Definition __divmoddi4 : Z -> Z -> outcome (Z * Z) := divmodXi4 64 __udivmoddi4.
Definition __divmodsi4 : Z -> Z -> outcome (Z * Z) := divmodXi4 32 __udivmodsi4.
Definition __divmodti4 : Z -> Z -> outcome (Z * Z) := divmodXi4 128 __udivmodti4.
