(* ===== verification/CcArith.v ===== *)
(** * Words and checked arithmetic

    Machine integers of a width, and the routines that abort on overflow. *)

From S2P Require Import Prelude Bytes Cc.

(** * Words of a width

    Wrapping, signs, halves and shifts of machine integers, for Cc.v. *)

Definition in_u (N x : Z) : Prop := 0 <= x < 2 ^ N.
Definition in_s (N x : Z) : Prop := - 2 ^ (N - 1) <= x < 2 ^ (N - 1).

Section word.
Context (N : Z) (HN : 0 < N).

Lemma pow_half : 2 ^ N = 2 * 2 ^ (N - 1).
Proof. rewrite <- Z.pow_succ_r by lia. f_equal. lia. Qed.
Lemma pow_pos : 0 < 2 ^ N.
Proof. apply Z.pow_pos_nonneg; lia. Qed.
Lemma pow_half_pos : 0 < 2 ^ (N - 1).
Proof. apply Z.pow_pos_nonneg; lia. Qed.

Lemma wrapu_range x : in_u N (wrapu N x).
Proof. unfold in_u, wrapu. apply Z.mod_pos_bound, pow_pos. Qed.
Lemma wrapu_small x : in_u N x -> wrapu N x = x.
Proof. apply Z.mod_small. Qed.
Lemma wraps_range x : in_s N (wraps N x).
Proof. unfold in_s, wraps. pose proof pow_half. pose proof (Z.mod_pos_bound (x + 2 ^ (N - 1)) (2 ^ N) pow_pos). lia. Qed.
Lemma wraps_small x : in_s N x -> wraps N x = x.
Proof. unfold in_s, wraps. intros Hx. rewrite Z.mod_small by (rewrite pow_half; lia). lia. Qed.

(** Wrapping is reduction modulo [2 ^ N]. *)
Lemma wrapu_eq x k : in_u N (x + k * 2 ^ N) -> wrapu N x = x + k * 2 ^ N.
Proof. intros Hx. rewrite <- (wrapu_small _ Hx). unfold wrapu. symmetry. apply Z.mod_add. pose proof pow_pos. lia. Qed.
Lemma wraps_eq x k : in_s N (x + k * 2 ^ N) -> wraps N x = x + k * 2 ^ N.
Proof.
  intros Hx. rewrite <- (wraps_small _ Hx). unfold wraps. pose proof pow_pos.
  replace (x + k * 2 ^ N + 2 ^ (N - 1)) with (x + 2 ^ (N - 1) + k * 2 ^ N) by lia. by rewrite Z.mod_add by lia.
Qed.
Lemma wrapu_wraps x : wrapu N (wraps N x) = wrapu N x.
Proof.
  unfold wrapu, wraps. pose proof pow_pos. rewrite Zminus_mod_idemp_l. f_equal. lia.
Qed.
Lemma wraps_wrapu x : wraps N (wrapu N x) = wraps N x.
Proof. unfold wrapu, wraps. by rewrite Zplus_mod_idemp_l. Qed.
Lemma wrapu_idemp x : wrapu N (wrapu N x) = wrapu N x.
Proof. apply wrapu_small, wrapu_range. Qed.

(** Two signed integers that agree modulo [2 ^ N]. *)
Lemma wraps_mod x y : x `mod` 2 ^ N = y `mod` 2 ^ N -> wraps N x = wraps N y.
Proof. intros E. rewrite <- (wraps_wrapu x), <- (wraps_wrapu y). unfold wrapu. by rewrite E. Qed.

Lemma wrapu_neg x : in_s N x -> x < 0 -> wrapu N x = x + 2 ^ N.
Proof. intros Hx H0. rewrite (wrapu_eq x 1); [lia|]. unfold in_u, in_s in *. pose proof pow_half. lia. Qed.
Lemma wrapu_nonneg x : in_s N x -> 0 <= x -> wrapu N x = x.
Proof. intros Hx H0. apply wrapu_small. unfold in_u, in_s in *. pose proof pow_half. lia. Qed.

(** ** Signs *)

Lemma sign_neg x : in_s N x -> x < 0 -> Z.shiftr x (N - 1) = -1.
Proof.
  unfold in_s. intros Hx H0. rewrite Z.shiftr_div_pow2 by lia. symmetry. apply (Z.div_unique _ _ _ (x + 2 ^ (N - 1))); lia.
Qed.
Lemma sign_nonneg x : in_s N x -> 0 <= x -> Z.shiftr x (N - 1) = 0.
Proof. unfold in_s. intros Hx H0. rewrite Z.shiftr_div_pow2 by lia. apply Z.div_small. lia. Qed.

Lemma MIN_eq : MIN N = - 2 ^ (N - 1).
Proof.
  unfold MIN. rewrite Z.shiftl_mul_pow2, Z.mul_1_l by lia. rewrite (wraps_eq _ (-1)); pose proof pow_half; [lia|]. unfold in_s. pose proof pow_half_pos. lia.
Qed.
Lemma MAX_eq : MAX N = 2 ^ (N - 1) - 1.
Proof. unfold MAX. rewrite MIN_eq. unfold Z.lnot. lia. Qed.

Lemma sval_in x : in_s N x -> sval N x = Ret x.
Proof. unfold in_s, sval. intros Hx. by rewrite (proj2 (Z.leb_le _ _)), (proj2 (Z.ltb_lt _ _)) by lia. Qed.

(** [(a ^ s) - s] negates if [s] is -1. *)
Lemma xor_sub_sign x : in_s N x -> Z.lxor x (Z.shiftr x (N - 1)) - Z.shiftr x (N - 1) = Z.abs x.
Proof.
  intros Hx. destruct (Z.lt_ge_cases x 0).
  - rewrite sign_neg, Z.lxor_m1_r by done. unfold Z.lnot. lia.
  - rewrite sign_nonneg, Z.lxor_0_r by done. lia.
Qed.
Lemma xor_sign x : in_s N x -> in_u N (Z.lxor x (Z.shiftr x (N - 1))).
Proof.
  intros Hx. unfold in_u. unfold in_s in Hx. pose proof pow_half. destruct (Z.lt_ge_cases x 0).
  - rewrite sign_neg, Z.lxor_m1_r by done. unfold Z.lnot. lia.
  - rewrite sign_nonneg, Z.lxor_0_r by done. lia.
Qed.

(** Negation by a mask, modulo [2 ^ N]. *)
Lemma xor_mask x s : in_u N x -> s = 0 \/ s = -1 -> wraps N (Z.lxor x (wrapu N s) - s) = wraps N (if s =? 0 then x else - x).
Proof.
  intros Hx [-> | ->]; cbn [Z.eqb].
  - unfold wrapu. rewrite Z.mod_0_l, Z.lxor_0_r by (pose proof pow_pos; lia). f_equal. lia.
  - assert (E : wrapu N (-1) = Z.ones N).
    { rewrite (wrapu_eq _ 1); rewrite ?Z.ones_equiv; [lia|]. unfold in_u. pose proof pow_pos. lia. }
    rewrite E. apply wraps_mod. assert (El : Z.lxor x (Z.ones N) = 2 ^ N - 1 - x).
    { apply Z.bits_inj'. intros n Hn. rewrite Z.lxor_spec.
      replace (2 ^ N - 1 - x) with (Z.lnot x + 1 * 2 ^ N) by (unfold Z.lnot; lia).
      destruct (Z.lt_ge_cases n N).
      - rewrite Z.ones_spec_low by lia. rewrite <- (Z.mod_pow2_bits_low (_ + _) N) by lia. rewrite Z.mod_add by (pose proof pow_pos; lia).
        rewrite Z.mod_pow2_bits_low, Z.lnot_spec by lia. by destruct (Z.testbit x n).
      - rewrite Z.ones_spec_high by lia. unfold in_u in Hx. replace (Z.lnot x + 1 * 2 ^ N) with (2 ^ N - 1 - x) by (unfold Z.lnot; lia).
        rewrite !(testbit_high N) by lia. done. }
    rewrite El. replace (2 ^ N - 1 - x - -1) with (- x + 1 * 2 ^ N) by lia. apply Z.mod_add. pose proof pow_pos. lia.
Qed.
End word.

(** * Checked arithmetic

    The routines that check for overflow abort exactly when the result does not fit. *)

(** A result that fits, or an abort. *)
Definition checked (N x : Z) : outcome Z := if (- 2 ^ (N - 1) <=? x) && (x <? 2 ^ (N - 1)) then Ret x else compilerrt_abort.

Section checked.
Context (N : Z) (HN : 1 < N).
Local Notation half := (2 ^ (N - 1)).

Local Lemma N_pos : 0 < N.
Proof. lia. Qed.
Local Lemma half_big : 2 <= half.
Proof. change 2 with (2 ^ 1) at 1. apply Z.pow_le_mono_r; lia. Qed.
Local Lemma pow_N : 2 ^ N = 2 * half.
Proof. apply pow_half, N_pos. Qed.

Lemma checked_in x : in_s N x -> checked N x = Ret x.
Proof. unfold in_s, checked. intros Hx. by rewrite (proj2 (Z.leb_le _ _)), (proj2 (Z.ltb_lt _ _)) by lia. Qed.
Lemma checked_out x : ~ in_s N x -> checked N x = compilerrt_abort.
Proof. unfold in_s, checked. intros Hx. split_leb (- half) x; [|done]. split_ltb x (2 ^ (N - 1)); [lia|done]. Qed.

Lemma in_s_dec x : in_s N x \/ ~ in_s N x.
Proof. unfold in_s. lia. Qed.

Lemma absv_exact a : in_s N a -> absvXi2 N a = checked N (Z.abs a).
Proof.
  intros Ha. unfold absvXi2. rewrite xor_sub_sign, MIN_eq by (done || apply N_pos). unfold in_s in Ha. split_eqb a (- half).
  - rewrite checked_out; [done|]. unfold in_s. lia.
  - rewrite sval_in, checked_in by (unfold in_s; lia). done.
Qed.

Lemma negv_exact a : in_s N a -> negvXi2 N a = checked N (- a).
Proof.
  intros Ha. unfold negvXi2. rewrite MIN_eq by apply N_pos. unfold in_s in Ha. split_eqb a (- half).
  - rewrite checked_out; [done|]. unfold in_s. lia.
  - rewrite sval_in, checked_in by (unfold in_s; lia). done.
Qed.

(** A sum of two signed integers wraps at most once. *)
Lemma wraps_over x : half <= x < 3 * half -> wraps N x = x - 2 ^ N.
Proof. intros Hx. rewrite (wraps_eq N N_pos x (-1)); [lia|]. unfold in_s. rewrite pow_N. lia. Qed.
Lemma wraps_under x : - 3 * half <= x < - half -> wraps N x = x + 2 ^ N.
Proof. intros Hx. rewrite (wraps_eq N N_pos x 1); [lia|]. unfold in_s. rewrite pow_N. lia. Qed.

Lemma addv_exact a b : in_s N a -> in_s N b -> addvXi3 N a b = checked N (a + b).
Proof.
  unfold in_s. intros Ha Hb. unfold addvXi3. pose proof pow_N. pose proof half_big.
  destruct (Z.lt_ge_cases (a + b) (- half)); [|destruct (Z.lt_ge_cases (a + b) half)].
  - rewrite wraps_under by lia. rewrite checked_out by (unfold in_s; lia). split_leb 0 b; [lia|]. split_leb a (a + b + 2 ^ N); [done|lia].
  - rewrite wraps_small by (unfold in_s; lia). rewrite checked_in by (unfold in_s; lia).
    split_leb 0 b; [split_ltb (a + b) a; [lia|done]|split_leb a (a + b); [lia|done]].
  - rewrite wraps_over by lia. rewrite checked_out by (unfold in_s; lia). split_leb 0 b; [|lia]. split_ltb (a + b - 2 ^ N) a; [done|lia].
Qed.

Lemma subv_exact a b : in_s N a -> in_s N b -> subvXi3 N a b = checked N (a - b).
Proof.
  unfold in_s. intros Ha Hb. unfold subvXi3. pose proof pow_N. pose proof half_big.
  destruct (Z.lt_ge_cases (a - b) (- half)); [|destruct (Z.lt_ge_cases (a - b) half)].
  - rewrite wraps_under by lia. rewrite checked_out by (unfold in_s; lia). split_leb 0 b; [|lia]. split_ltb a (a - b + 2 ^ N); [done|lia].
  - rewrite wraps_small by (unfold in_s; lia). rewrite checked_in by (unfold in_s; lia).
    split_leb 0 b; [split_ltb a (a - b); [lia|done]|split_leb (a - b) a; [lia|done]].
  - rewrite wraps_over by lia. rewrite checked_out by (unfold in_s; lia). split_leb 0 b; [lia|]. split_leb (a - b - 2 ^ N) a; [done|lia].
Qed.

(** ** Overflow of a product *)

(** The quotient that the absolute values are compared with. *)
Lemma quot_bound m a b : 0 <= m -> 2 <= b -> 0 <= a -> (m / b <? a) = (m <? a * b).
Proof.
  intros Hm Hb Ha. pose proof (Z.div_mod m b ltac:(lia)). pose proof (Z.mod_pos_bound m b ltac:(lia)).
  split_ltb (m / b) a; split_ltb m (a * b); try done; nia.
Qed.

(** What both routines test once the special cases are done. *)
Definition overflows (a b : Z) : bool := negb ((- half <=? a * b) && (a * b <? half)).

Lemma overflows_in a b : overflows a b = false <-> in_s N (a * b).
Proof. unfold overflows, in_s. split_leb (- half) (a * b); split_ltb (a * b) (2 ^ (N - 1)); cbn; split; try done; lia. Qed.
Lemma overflows_out a b : overflows a b = true <-> ~ in_s N (a * b).
Proof. rewrite <- overflows_in. by destruct (overflows a b). Qed.

Lemma min_product b : overflows (- half) b = negb (b =? 0) && negb (b =? 1).
Proof.
  pose proof half_big. split_eqb b 0; [subst; apply overflows_in; unfold in_s; lia|]. split_eqb b 1; [subst; apply overflows_in; unfold in_s; lia|].
  apply overflows_out. unfold in_s. nia.
Qed.

Lemma small_product a b : in_s N a -> in_s N b -> a <> - half -> b <> - half -> Z.abs a < 2 \/ Z.abs b < 2 -> overflows a b = false.
Proof. unfold in_s. intros Ha Hb Ha' Hb' Hs. apply overflows_in. unfold in_s. nia. Qed.

Lemma big_product a b : in_s N a -> in_s N b -> 2 <= Z.abs a -> 2 <= Z.abs b ->
  (q ← (if Z.shiftr a (N - 1) =? Z.shiftr b (N - 1) then div (MAX N) (Z.abs b) else div (MIN N) (- Z.abs b)); Ret (q <? Z.abs a))
  = Ret (overflows a b).
Proof.
  intros Ha Hb Ha2 Hb2. pose proof half_big. rewrite MAX_eq, MIN_eq by apply N_pos. unfold div.
  rewrite (proj2 (Z.eqb_neq (Z.abs b) 0)), (proj2 (Z.eqb_neq (- Z.abs b) 0)) by lia.
  assert (Hsame : Z.shiftr a (N - 1) = Z.shiftr b (N - 1) -> (Z.abs a * Z.abs b = a * b)).
  { destruct (Z.lt_ge_cases a 0), (Z.lt_ge_cases b 0); 
      rewrite ?(sign_neg N N_pos a), ?(sign_nonneg N N_pos a), ?(sign_neg N N_pos b), ?(sign_nonneg N N_pos b) by done; nia. }
  assert (Hdiff : Z.shiftr a (N - 1) <> Z.shiftr b (N - 1) -> (Z.abs a * Z.abs b = - (a * b))).
  { destruct (Z.lt_ge_cases a 0), (Z.lt_ge_cases b 0);
      rewrite ?(sign_neg N N_pos a), ?(sign_nonneg N N_pos a), ?(sign_neg N N_pos b), ?(sign_nonneg N N_pos b) by done; try done; nia. }
  split_eqb (Z.shiftr a (N - 1)) (Z.shiftr b (N - 1)); cbn [mbind outcome_bind].
  - rewrite Z.quot_div_nonneg, quot_bound, (Hsame E) by lia. f_equal. unfold overflows.
    assert (0 < a * b) by (rewrite <- (Hsame E); nia). split_ltb (half - 1) (a * b); split_leb (- half) (a * b); split_ltb (a * b) (2 ^ (N - 1)); cbn; done || lia.
  - rewrite Z.quot_opp_opp, Z.quot_div_nonneg, quot_bound, (Hdiff E) by lia. f_equal. unfold overflows.
    assert (a * b < 0) by (assert (0 < Z.abs a * Z.abs b) by nia; rewrite (Hdiff E) in *; lia).
    split_ltb (2 ^ (N - 1)) (- (a * b)); split_leb (- half) (a * b); split_ltb (a * b) (2 ^ (N - 1)); cbn; done || lia.
Qed.

Lemma mulo_exact a b : in_s N a -> in_s N b -> muloXi4 N a b = Ret (wraps N (a * b), overflows a b).
Proof.
  intros Ha Hb. pose proof half_big. unfold muloXi4. rewrite !(xor_sub_sign N N_pos), (MIN_eq N N_pos) by done.
  split_eqb a (- 2 ^ (N - 1)); [by subst a; rewrite min_product|].
  split_eqb b (- 2 ^ (N - 1)); [subst b; unfold overflows; rewrite (Z.mul_comm a); fold (overflows (- 2 ^ (N - 1)) a); by rewrite min_product|].
  unfold in_s in Ha, Hb. rewrite !sval_in by (unfold in_s; lia). cbn [mbind outcome_bind].
  split_ltb (Z.abs a) 2; [rewrite (small_product a b) by (unfold in_s; auto); done|].
  split_ltb (Z.abs b) 2; [rewrite (small_product a b) by (unfold in_s; auto); done|]. cbn [orb].
  pose proof (big_product a b Ha Hb ltac:(lia) ltac:(lia)) as Hbig. rewrite (MIN_eq N N_pos) in Hbig.
  destruct (Z.shiftr a (N - 1) =? Z.shiftr b (N - 1)); apply bind_Ret_inv in Hbig as (q & -> & [= Hq]); cbn [mbind outcome_bind]; by rewrite Hq.
Qed.

Lemma mulv_exact a b : in_s N a -> in_s N b -> mulvXi3 N a b = checked N (a * b).
Proof.
  intros Ha Hb. pose proof half_big.
  assert (Hc : forall c, c = overflows a b -> (if c then compilerrt_abort else sval N (a * b)) = checked N (a * b)).
  { intros c ->. destruct (overflows a b) eqn:E; [apply overflows_out in E; by rewrite checked_out|]. apply overflows_in in E. by rewrite sval_in, checked_in. }
  unfold mulvXi3. rewrite !(xor_sub_sign N N_pos), (MIN_eq N N_pos) by done.
  split_eqb a (- 2 ^ (N - 1)).
  { rewrite <- (Hc _ eq_refl), E, min_product. by destruct (b =? 0), (b =? 1). }
  split_eqb b (- 2 ^ (N - 1)).
  { rewrite <- (Hc _ eq_refl), E0. unfold overflows. rewrite (Z.mul_comm a). fold (overflows (- 2 ^ (N - 1)) a). rewrite min_product. by destruct (a =? 0), (a =? 1). }
  unfold in_s in Ha, Hb. rewrite (sval_in N (Z.abs a)), (sval_in N (Z.abs b)) by (unfold in_s; lia). cbn [mbind outcome_bind].
  assert (Hs : Z.abs a < 2 \/ Z.abs b < 2 -> sval N (a * b) = checked N (a * b)).
  { intros Hs. rewrite <- (Hc _ eq_refl), (small_product a b) by (unfold in_s; auto). done. }
  split_ltb (Z.abs a) 2; [by apply Hs; left|]. split_ltb (Z.abs b) 2; [by apply Hs; right|]. cbn [orb].
  pose proof (big_product a b Ha Hb ltac:(lia) ltac:(lia)) as Hbig. rewrite (MIN_eq N N_pos) in Hbig.
  apply bind_Ret_inv in Hbig as (q & -> & [= Hq]). cbn [mbind outcome_bind]. by apply Hc.
Qed.
End checked.

Definition crt_width (N : Z) : Prop := N = 32 \/ N = 64 \/ N = 128.

(** C35: The checked routines, at all widths: the absolute value, the sum, the difference, the
    negation and the product abort exactly when the result does not fit, and return it
    otherwise; [__mulo*] return the product modulo [2 ^ N] and whether it does not fit. *)
Theorem checked_arithmetic (N a b : Z) : crt_width N -> in_s N a -> in_s N b ->
  absvXi2 N a = checked N (Z.abs a) /\ negvXi2 N a = checked N (- a)
  /\ addvXi3 N a b = checked N (a + b) /\ subvXi3 N a b = checked N (a - b) /\ mulvXi3 N a b = checked N (a * b)
  /\ muloXi4 N a b = Ret (wraps N (a * b), negb ((- 2 ^ (N - 1) <=? a * b) && (a * b <? 2 ^ (N - 1)))).
Proof.
  intros HN Ha Hb. assert (1 < N) by (unfold crt_width in HN; lia).
  split_and!; [by apply absv_exact|by apply negv_exact|by apply addv_exact|by apply subv_exact|by apply mulv_exact|by apply mulo_exact].
Qed.

Lemma checked_arithmetic_witness :
  __addvsi3 (2 ^ 31 - 1) 1 = compilerrt_abort /\ __mulodi4 (2 ^ 62) 3 = Ret (- 2 ^ 62, true).
Proof.
  destruct (checked_arithmetic 32 (2 ^ 31 - 1) 1) as (_ & _ & E & _); [by left|vm_compute; split; congruence..|].
  destruct (checked_arithmetic 64 (2 ^ 62) 3) as (_ & _ & _ & _ & _ & E'); [by right; left|vm_compute; split; congruence..|].
  split; [unfold __addvsi3; rewrite E; reflexivity|unfold __mulodi4; rewrite E'; reflexivity].
Defined.
