(* ===== verification/CcHalf.v ===== *)
(** * Arithmetic on halves

    Shifts, comparison and multiplication of integers that are given as two halves. *)

From S2P Require Import Prelude Bytes Cc CcArith.

Section half.
Context (h : Z) (Hh : 0 < h).
Local Notation B := (2 ^ h).

Lemma B_pos : 0 < B.
Proof. by apply pow_pos. Qed.
Lemma pow_double : 2 ^ (2 * h) = B * B.
Proof. rewrite <- Z.pow_add_r by lia. f_equal. lia. Qed.
Lemma pow_double_half : 2 ^ (2 * h - 1) = 2 ^ (h - 1) * B.
Proof. rewrite <- Z.pow_add_r by lia. f_equal. lia. Qed.

Lemma words_split a : words h (low h a) (high h a) = a.
Proof. unfold words, low, high, wrapu. rewrite Z.shiftr_div_pow2 by lia. pose proof (Z.div_mod a B). pose proof B_pos. lia. Qed.
Lemma low_words l hi : in_u h l -> low h (words h l hi) = l.
Proof.
  unfold in_u, low, wrapu, words. intros Hl. rewrite Z.add_comm, Z.mod_add by (pose proof B_pos; lia). by apply Z.mod_small.
Qed.
Lemma high_words l hi : in_u h l -> high h (words h l hi) = hi.
Proof.
  unfold in_u, high, words. intros Hl. rewrite Z.shiftr_div_pow2 by lia. rewrite Z.add_comm, Z.div_add by (pose proof B_pos; lia). rewrite Z.div_small; lia.
Qed.
Lemma low_range a : in_u h (low h a).
Proof. by apply wrapu_range. Qed.
Lemma high_range_u a : in_u (2 * h) a -> in_u h (high h a).
Proof.
  unfold in_u, high. rewrite pow_double, Z.shiftr_div_pow2 by lia. intros Ha. pose proof B_pos.
  split; [apply Z.div_pos; lia|apply Z.div_lt_upper_bound; lia].
Qed.
Lemma high_range_s a : in_s (2 * h) a -> in_s h (high h a).
Proof.
  unfold in_s, high. rewrite pow_double_half, Z.shiftr_div_pow2 by lia. intros Ha. pose proof B_pos.
  split; [apply Z.div_le_lower_bound; lia|apply Z.div_lt_upper_bound; lia].
Qed.
Lemma words_in_u l hi : in_u h l -> in_u h hi -> in_u (2 * h) (words h l hi).
Proof. unfold in_u, words. rewrite pow_double. pose proof B_pos. nia. Qed.
Lemma words_in_s l hi : in_u h l -> in_s h hi -> in_s (2 * h) (words h l hi).
Proof. unfold in_u, in_s, words. rewrite pow_double_half. pose proof B_pos. nia. Qed.

(** A signed integer of two halves. *)
Lemma wraps_words x : wraps (2 * h) x = words h (low h x) (wraps h (high h x)).
Proof.
  pose proof B_pos. pose proof (words_in_s _ _ (low_range x) (wraps_range h Hh (high h x))) as Hr. revert Hr.
  assert (Hex : exists k, words h (low h x) (wraps h (high h x)) = x + k * 2 ^ (2 * h)); [|destruct Hex as [k' ->]; apply wraps_eq; lia].
  pose proof (words_split x) as Hs. unfold words in *. rewrite pow_double.
  exists (- ((high h x + 2 ^ (h - 1)) / B)). unfold wraps. pose proof (Z.div_mod (high h x + 2 ^ (h - 1)) B ltac:(lia)). nia.
Qed.

(** ** Comparison *)

Lemma cmp_exact a b : cmpXi2 h a b = if a <? b then 0 else if b <? a then 2 else 1.
Proof.
  unfold cmpXi2. pose proof (low_range a) as Ha. pose proof (low_range b) as Hb. unfold in_u in *.
  pose proof (words_split a) as Ea. pose proof (words_split b) as Eb. unfold words in *. pose proof B_pos.
  repeat match goal with |- context [?x <? ?y] => split_ltb x y end; try done; nia.
Qed.

(** ** Two shifts that are joined *)

Lemma or_left hi lo b : 0 < b < h -> in_u h lo ->
  Z.lor (wrapu h (Z.shiftl hi b)) (Z.shiftr lo (h - b)) = wrapu h ((hi * B + lo) * 2 ^ b / B).
Proof.
  intros Hb Hl. unfold in_u in Hl. pose proof B_pos. assert (HB : B = 2 ^ (h - b) * 2 ^ b) by (rewrite <- Z.pow_add_r by lia; f_equal; lia).
  pose proof (Z.pow_pos_nonneg 2 b ltac:(lia) ltac:(lia)). pose proof (Z.pow_pos_nonneg 2 (h - b) ltac:(lia) ltac:(lia)).
  set (c := 2 ^ (h - b)) in *. set (e := 2 ^ b) in *. unfold wrapu. rewrite Z.shiftl_mul_pow2, Z.shiftr_div_pow2 by lia. fold c e.
  assert (E1 : (hi * e) `mod` B = Z.shiftl (hi `mod` c) b).
  { rewrite Z.shiftl_mul_pow2 by lia. fold e. rewrite HB. rewrite Z.mul_mod_distr_r by lia. done. }
  assert (E2 : (hi * B + lo) * e / B = lo / c + hi * e).
  { replace ((hi * B + lo) * e) with (lo * e + hi * e * B) by lia. rewrite Z.div_add by lia. f_equal.
    rewrite HB. apply Z.div_mul_cancel_r; lia. }
  assert (Hd : 0 <= lo / c < e) by (split; [apply Z.div_pos; lia|apply Z.div_lt_upper_bound; lia]).
  assert (Hm : 0 <= hi `mod` c < c) by (apply Z.mod_pos_bound; lia).
  rewrite E1, E2, Z.lor_comm, lor_add by lia. fold e.
  rewrite <- Zplus_mod_idemp_r, E1, Z.shiftl_mul_pow2 by lia. fold e.
  assert ((hi `mod` c) * e <= (c - 1) * e) by (apply Z.mul_le_mono_nonneg_r; lia). assert (0 <= (hi `mod` c) * e) by (apply Z.mul_nonneg_nonneg; lia). rewrite (Z.mod_small (_ + _)) by lia. lia.
Qed.

Lemma or_right hi lo b : 0 < b < h -> in_u h lo ->
  Z.lor (wrapu h (Z.shiftl hi (h - b))) (Z.shiftr lo b) = wrapu h ((hi * B + lo) / 2 ^ b).
Proof.
  intros Hb Hl. pose proof (or_left hi lo (h - b) ltac:(lia) Hl) as E. replace (h - (h - b)) with b in E by lia. rewrite E. f_equal.
  assert (HB : B = 2 ^ b * 2 ^ (h - b)) by (rewrite <- Z.pow_add_r by lia; f_equal; lia). rewrite HB at 2.
  apply Z.div_mul_cancel_r; apply Z.pow_nonzero; lia.
Qed.

(** ** Shifts *)

Lemma shl_in x k : 0 <= k < h -> shl h x k = Ret (wrapu h (x * 2 ^ k)).
Proof. intros Hk. unfold shl. by rewrite (proj2 (Z.leb_le _ _)), (proj2 (Z.ltb_lt _ _)), Z.shiftl_mul_pow2 by lia. Qed.
Lemma shr_in x k : 0 <= k < h -> shr h x k = Ret (x / 2 ^ k).
Proof. intros Hk. unfold shr. by rewrite (proj2 (Z.leb_le _ _)), (proj2 (Z.ltb_lt _ _)), Z.shiftr_div_pow2 by lia. Qed.
End half.

(** The test of one bit of the amount. *)
Lemma test_bit k b : 0 <= k -> 0 <= b < 2 * 2 ^ k -> (Z.land b (2 ^ k) =? 0) = (b <? 2 ^ k).
Proof.
  intros Hk Hb. pose proof (Z.pow_pos_nonneg 2 k ltac:(lia) Hk).
  assert (E : Z.land b (2 ^ k) = Z.shiftl (b / 2 ^ k) k).
  { apply Z.bits_inj'. intros n Hn. rewrite Z.land_spec, Z.shiftl_spec by done.
    rewrite Z.pow2_bits_eqb by done. split_eqb k n.
    - subst n. rewrite andb_true_r, Z.sub_diag. by rewrite <- Z.shiftr_div_pow2, Z.shiftr_spec by lia.
    - rewrite andb_false_r. destruct (Z.lt_ge_cases n k); [by rewrite Z.testbit_neg_r by lia|].
      symmetry. apply (testbit_high 1); [lia| |lia]. split; [apply Z.div_pos; lia|apply Z.div_lt_upper_bound; lia]. }
  rewrite E, Z.shiftl_mul_pow2 by done. split_ltb b (2 ^ k).
  - by rewrite Z.div_small by lia.
  - apply Z.eqb_neq. assert (b / 2 ^ k = 1) as ->; [|lia]. symmetry. apply (Z.div_unique _ _ _ (b - 2 ^ k)); lia.
Qed.

Section shift.
Context (h k : Z) (Hk : 0 <= k) (Hh : h = 2 ^ k).
Local Notation B := (2 ^ h).

Local Lemma h_pos : 0 < h.
Proof. subst h. apply Z.pow_pos_nonneg; lia. Qed.

Lemma div_B a : high h a = a / B.
Proof. unfold high. rewrite Z.shiftr_div_pow2; [done|]. pose proof h_pos. lia. Qed.

(** The high half counts modulo [2 ^ h] only. *)
Lemma wrap_high a : exists k, wrapu h (high h a) * B + low h a = a + k * B * B.
Proof.
  pose proof h_pos as Hp. pose proof (B_pos h Hp). exists (- (high h a / B)). pose proof (words_split h Hp a) as Hs. unfold words in Hs. unfold wrapu.
  pose proof (Z.div_mod (high h a) B ltac:(lia)). nia.
Qed.

(** A shift to the right by less than a half. *)
Lemma right_small a b : 0 < b < h ->
  words h (Z.lor (wrapu h (Z.shiftl (wrapu h (high h a)) (h - b))) (Z.shiftr (low h a) b)) (high h a / 2 ^ b) = a / 2 ^ b.
Proof.
  intros Hb. pose proof h_pos as Hp. pose proof (B_pos h Hp). rewrite (or_right h Hp) by (lia || by apply low_range).
  destruct (wrap_high a) as [k' ->]. assert (HB : B = 2 ^ (h - b) * 2 ^ b) by (rewrite <- Z.pow_add_r by lia; f_equal; lia).
  replace (a + k' * B * B) with (a + k' * 2 ^ (h - b) * B * 2 ^ b) by (rewrite HB at 2 3; lia || (rewrite HB; lia)).
  rewrite Z.div_add by (apply Z.pow_nonzero; lia). unfold wrapu. rewrite Z.mod_add by lia. fold (wrapu h (a / 2 ^ b)). fold (low h (a / 2 ^ b)).
  assert (E : high h a / 2 ^ b = high h (a / 2 ^ b)); [|rewrite E; by apply words_split].
  rewrite !div_B, !Z.div_div by (lia || apply Z.pow_nonzero; lia). f_equal. lia.
Qed.

(** A shift to the right by more. *)
Lemma right_big a b : h <= b < 2 * h -> high h a / 2 ^ (b - h) = a / 2 ^ b.
Proof.
  intros Hb. pose proof h_pos. rewrite div_B, Z.div_div by (apply Z.pow_nonzero || apply Z.pow_pos_nonneg; lia). f_equal. rewrite <- Z.pow_add_r by lia. f_equal. lia.
Qed.

Lemma amount b : 0 <= b < 2 * h -> (Z.land b h =? 0) = (b <? h).
Proof. intros Hb. rewrite Hh. apply test_bit; [done|]. by rewrite <- Hh. Qed.

Lemma ashr_exact a b : in_s (2 * h) a -> 0 <= b < 2 * h -> ashrXi3 h a b = Ret (a / 2 ^ b).
Proof.
  intros Ha Hb. pose proof h_pos as Hp. pose proof (B_pos h Hp). unfold ashrXi3. rewrite amount by done.
  split_ltb b h; cbn [negb].
  - split_eqb b 0; [by subst b; rewrite Z.div_1_r|]. rewrite !shr_in, shl_in by lia. cbn [mbind outcome_bind].
    pose proof (right_small a b ltac:(lia)) as Hr. rewrite Z.shiftl_mul_pow2, Z.shiftr_div_pow2 in Hr by lia. by rewrite Hr.
  - rewrite !shr_in by lia. cbn [mbind outcome_bind]. f_equal. rewrite right_big by lia.
    assert (Hsign : forall n, 2 * h - 1 <= n -> a / 2 ^ n = if a <? 0 then -1 else 0).
    { intros n Hn. unfold in_s in Ha. assert (2 ^ (2 * h - 1) <= 2 ^ n) by (apply Z.pow_le_mono_r; lia). split_ltb a 0.
      - symmetry. apply (Z.div_unique _ _ _ (a + 2 ^ n)); lia.
      - apply Z.div_small. lia. }
    assert (Es : high h a / 2 ^ (h - 1) = high h (a / 2 ^ b)).
    { rewrite !div_B, !Z.div_div by (lia || apply Z.pow_nonzero; lia). rewrite <- !Z.pow_add_r by lia. by rewrite !Hsign by lia. }
    rewrite Es. by apply words_split.
Qed.

Lemma lshr_exact a b : in_s (2 * h) a -> 0 <= b < 2 * h -> lshrXi3 h a b = Ret (wraps (2 * h) (wrapu (2 * h) a / 2 ^ b)).
Proof.
  intros Ha Hb. pose proof h_pos as Hp. pose proof (B_pos h Hp). unfold lshrXi3. rewrite amount by done.
  assert (Hi : in_u (2 * h) (wrapu (2 * h) a)) by (apply wrapu_range; lia). set (i := wrapu (2 * h) a) in *.
  assert (Hhi : wrapu h (high h i) = high h i) by (apply wrapu_small, high_range_u; done).
  split_ltb b h; cbn [negb].
  - split_eqb b 0.
    { subst b. rewrite Z.div_1_r. unfold i. rewrite wraps_wrapu, wraps_small by (done || lia). done. }
    rewrite !shr_in, shl_in by lia. cbn [mbind outcome_bind].
    pose proof (right_small i b ltac:(lia)) as Hr. rewrite Hhi, Z.shiftl_mul_pow2, Z.shiftr_div_pow2 in Hr by lia. by rewrite Hr.
  - rewrite !shr_in by lia. cbn [mbind outcome_bind]. f_equal. f_equal. rewrite right_big by lia. unfold words. lia.
Qed.

Lemma ashl_exact a b : in_s (2 * h) a -> 0 <= b < 2 * h -> ashlXi3 h a b = Ret (wraps (2 * h) (a * 2 ^ b)).
Proof.
  intros Ha Hb. pose proof h_pos as Hp. pose proof (B_pos h Hp). unfold ashlXi3. rewrite amount by done. rewrite (wraps_words h Hp).
  pose proof (words_split h Hp a) as Hs. unfold words in Hs.
  split_ltb b h; cbn [negb].
  - split_eqb b 0.
    { subst b. rewrite Z.mul_1_r, <- (wraps_words h Hp), wraps_small by (done || lia). done. }
    rewrite !shl_in, shr_in by lia. cbn [mbind outcome_bind]. f_equal. f_equal.
    + unfold low, wrapu. by rewrite Zmult_mod_idemp_l.
    + pose proof (or_left h Hp (wrapu h (high h a)) (low h a) b ltac:(lia) (low_range h Hp a)) as Hor.
      rewrite Z.shiftl_mul_pow2, Z.shiftr_div_pow2 in Hor by lia. rewrite Hor, wraps_wrapu, (div_B (a * 2 ^ b)). apply wraps_mod.
      destruct (wrap_high a) as [k' ->]. replace ((a + k' * B * B) * 2 ^ b) with (a * 2 ^ b + k' * 2 ^ b * B * B) by lia.
      rewrite Z.div_add by lia. apply Z.mod_add. lia.
  - rewrite shl_in by lia. cbn [mbind outcome_bind].
    assert (E1 : a * 2 ^ b = words h 0 (a * 2 ^ (b - h))).
    { unfold words. rewrite Z.add_0_r, <- Z.mul_assoc, <- Z.pow_add_r by lia. do 2 f_equal. lia. }
    assert (H0 : in_u h 0) by (unfold in_u; lia). rewrite E1, low_words, high_words by done. f_equal. f_equal.
    rewrite wraps_wrapu. apply wraps_mod. unfold low, wrapu. by rewrite Zmult_mod_idemp_l.
Qed.
End shift.

(** ** Multiplication *)

Section wrap_ops.
Context (N : Z) (HN : 0 < N).

Lemma wraps_add_l x y : wraps N (wraps N x + y) = wraps N (x + y).
Proof. apply wraps_mod. rewrite <- Zplus_mod_idemp_l. fold (wrapu N (wraps N x)). rewrite wrapu_wraps by done. apply Zplus_mod_idemp_l. Qed.
Lemma wraps_add_r x y : wraps N (x + wrapu N y) = wraps N (x + y).
Proof. apply wraps_mod. apply Zplus_mod_idemp_r. Qed.
Lemma wrapu_add_l x y : wrapu N (wrapu N x + y) = wrapu N (x + y).
Proof. apply Zplus_mod_idemp_l. Qed.
Lemma wrapu_add_r x y : wrapu N (x + wrapu N y) = wrapu N (x + y).
Proof. apply Zplus_mod_idemp_r. Qed.
Lemma wrapu_mul_l x y : wrapu N (wrapu N x * y) = wrapu N (x * y).
Proof. apply Zmult_mod_idemp_l. Qed.
Lemma wrapu_mul_r x y : wrapu N (x * wrapu N y) = wrapu N (x * y).
Proof. apply Zmult_mod_idemp_r. Qed.
End wrap_ops.

Section mul.
Context (w : Z) (Hw : 0 < w).
Local Notation W := (2 ^ w).
Local Notation h := (2 * w).

Lemma lower_mask_eq : Z.shiftr (2 ^ h - 1) (h / 2) = Z.ones w.
Proof.
  rewrite (Z.mul_comm 2), Z.div_mul by lia. rewrite Z.ones_equiv. rewrite Z.shiftr_div_pow2 by lia.
  rewrite Z.mul_comm, pow_double by lia. pose proof (Z.pow_pos_nonneg 2 w). symmetry. apply (Z.div_unique _ _ _ (W - 1)); nia.
Qed.

(** The sums of the partial products. *)
Lemma partial_products a0 a1 b0 b1 : 0 <= a0 < W -> 0 <= a1 < W -> 0 <= b0 < W -> 0 <= b1 < W ->
  let t := a0 * b0 / W + a1 * b0 in
  let t' := t `mod` W + b1 * a0 in
  0 <= a0 * b0 < W * W /\ 0 <= a1 * b0 < W * W /\ 0 <= b1 * a0 < W * W /\ 0 <= t < W * W /\ 0 <= t' < W * W
  /\ (a1 * W + a0) * (b1 * W + b0) = (t / W + t' / W + a1 * b1) * (W * W) + ((t' `mod` W) * W + (a0 * b0) `mod` W).
Proof.
  intros Ha0 Ha1 Hb0 Hb1 t t'. assert (HW : 0 < W) by (apply Z.pow_pos_nonneg; lia). set (V := W) in *. clearbody V.
  assert (Hp : forall x y, 0 <= x < V -> 0 <= y < V -> 0 <= x * y <= (V - 1) * (V - 1)).
  { intros x y Hx Hy. split; [nia|]. apply Z.mul_le_mono_nonneg; lia. }
  pose proof (Hp a0 b0 Ha0 Hb0) as H00. pose proof (Hp a1 b0 Ha1 Hb0) as H10. pose proof (Hp b1 a0 Hb1 Ha0) as H01.
  pose proof (Z.div_mod (a0 * b0) V ltac:(lia)) as D0. pose proof (Z.mod_pos_bound (a0 * b0) V HW) as M0.
  assert (Q0 : 0 <= a0 * b0 / V <= V - 1) by (split; [apply Z.div_pos; lia|]; enough (a0 * b0 / V < V) by lia; apply Z.div_lt_upper_bound; nia).
  assert (Ht : 0 <= t < V * V) by (unfold t; nia).
  pose proof (Z.div_mod t V ltac:(lia)) as D1. pose proof (Z.mod_pos_bound t V HW) as M1.
  assert (Ht' : 0 <= t' < V * V) by (unfold t'; nia).
  pose proof (Z.div_mod t' V ltac:(lia)) as D2.
  split_and!; try lia; try nia.
Qed.

Lemma mulX_exact a b : in_u h a -> in_u h b -> mulXsi3 h a b = wraps (2 * h) (a * b).
Proof.
  intros Ha Hb. unfold mulXsi3. rewrite lower_mask_eq. cbv zeta. replace (h / 2) with w by (rewrite (Z.mul_comm 2), Z.div_mul; lia).
  rewrite !Z.land_ones, !Z.shiftr_div_pow2, !Z.shiftl_mul_pow2 by lia. unfold in_u in *.
  assert (HW : 0 < W) by (apply Z.pow_pos_nonneg; lia). assert (HB : 2 ^ h = W * W) by (apply pow_double; lia). rewrite HB in *.
  pose proof (Z.div_mod a W ltac:(lia)) as Da. pose proof (Z.mod_pos_bound a W HW) as Ma.
  pose proof (Z.div_mod b W ltac:(lia)) as Db. pose proof (Z.mod_pos_bound b W HW) as Mb.
  assert (Qa : 0 <= a / W < W) by (split; [apply Z.div_pos; lia|apply Z.div_lt_upper_bound; lia]).
  assert (Qb : 0 <= b / W < W) by (split; [apply Z.div_pos; lia|apply Z.div_lt_upper_bound; lia]).
  destruct (partial_products _ _ _ _ Ma Qa Mb Qb) as (P0 & P1 & P2 & P3 & P4 & Hprod).
  set (a0 := a `mod` W) in *. set (a1 := a / W) in *. set (b0 := b `mod` W) in *. set (b1 := b / W) in *.
  assert (Eab : a * b = (a1 * W + a0) * (b1 * W + b0)) by (f_equal; lia). rewrite Hprod in Eab. clear Hprod.
  rewrite !(wrapu_small h (a0 * b0)), !(wrapu_small h (a1 * b0)) by (unfold in_u; lia).
  set (t := a0 * b0 / W + a1 * b0) in *. rewrite !(wrapu_small h t) by (unfold in_u; lia).
  pose proof (Z.mod_pos_bound t W HW) as Mt. pose proof (Z.mod_pos_bound (a0 * b0) W HW) as M0.
  rewrite !(wrapu_small h (t `mod` W * W)) by (unfold in_u; nia).
  set (l := (a0 * b0) `mod` W + t `mod` W * W).
  assert (Hl : wrapu h l = l) by (apply wrapu_small; unfold in_u, l; nia). rewrite Hl.
  assert (Ed : l / W = t `mod` W) by (unfold l; rewrite Z.div_add, Z.div_small by lia; lia).
  assert (Em : l `mod` W = (a0 * b0) `mod` W) by (unfold l; rewrite Z.mod_add by lia; apply Z.mod_small; lia).
  rewrite Ed, Em, !(wrapu_small h (b1 * a0)) by (unfold in_u; lia).
  set (t' := t `mod` W + b1 * a0) in *. rewrite !(wrapu_small h t') by (unfold in_u; lia). pose proof (Z.mod_pos_bound t' W HW) as Mt'.
  rewrite !(wrapu_small h (t' `mod` W * W)) by (unfold in_u; nia).
  rewrite !(wrapu_small h ((a0 * b0) `mod` W + _)) by (unfold in_u; nia).
  rewrite !wraps_add_l, wraps_add_r by lia.
  assert (Hlow : in_u h ((a0 * b0) `mod` W + t' `mod` W * W)) by (unfold in_u; nia).
  assert (Ew : a * b = words h ((a0 * b0) `mod` W + t' `mod` W * W) (t / W + t' / W + a1 * b1)) by (unfold words; lia).
  rewrite Ew, (wraps_words h), low_words, high_words by (done || lia). rewrite <- (Z.add_assoc (wraps h (t / W))), wraps_add_l, Z.add_assoc by lia. done.
Qed.

Lemma mul_exact a b : mulXi3 h a b = wraps (2 * h) (a * b).
Proof.
  assert (H2 : 0 < h) by lia. pose proof (B_pos h H2). unfold mulXi3. rewrite mulX_exact by (by apply low_range).
  rewrite !wrapu_mul_l, !wrapu_mul_r, wrapu_add_l, wrapu_add_r by lia. rewrite wraps_add_r by lia.
  rewrite (wraps_words h H2 (a * b)), (wraps_words h H2 (low h a * low h b)).
  pose proof (low_range h H2 (low h a * low h b)) as Hl. rewrite low_words, high_words by done.
  pose proof (words_split h H2 a) as Ea. pose proof (words_split h H2 b) as Eb. unfold words in Ea, Eb. f_equal.
  - unfold low, wrapu. by rewrite <- Z.mul_mod by lia.
  - rewrite <- wraps_wrapu, wrapu_add_l, wraps_wrapu, wraps_add_l by lia. apply wraps_mod.
    set (al := low h a) in *. set (bl := low h b) in *. set (ah := high h a) in *. set (bh := high h b) in *.
    assert (E : a * b = words h (low h (al * bl)) (high h (al * bl) + (ah * bl + al * bh) + ah * bh * 2 ^ h)).
    { pose proof (words_split h H2 (al * bl)) as E. unfold words in *. rewrite <- Ea, <- Eb at 1. lia. }
    rewrite E, high_words by (lia || done). rewrite Z.mod_add by lia.
    replace (ah * b + a * bh) with (ah * bl + al * bh + 2 * ah * bh * 2 ^ h) by (rewrite <- Ea, <- Eb; lia).
    rewrite Z.add_assoc. apply Z.mod_add. lia.
Qed.
End mul.

(** ** The routines on halves *)

(** The routines that work on halves compute what they do on whole integers: shifts by
    every amount that C defines, the product modulo the width and the order of two
    integers, for halves of 32 and of 64 bits. *)
Theorem double_word_arithmetic (h a b k : Z) : h = 32 \/ h = 64 -> in_s (2 * h) a -> 0 <= k < 2 * h ->
  ashlXi3 h a k = Ret (wraps (2 * h) (a * 2 ^ k)) /\ ashrXi3 h a k = Ret (a / 2 ^ k)
  /\ lshrXi3 h a k = Ret (wraps (2 * h) (wrapu (2 * h) a / 2 ^ k))
  /\ mulXi3 h a b = wraps (2 * h) (a * b)
  /\ cmpXi2 h a b = (match a ?= b with Lt => 0 | Eq => 1 | Gt => 2 end).
Proof.
  intros Hh Ha Hk. assert (He : exists e, 0 <= e /\ h = 2 ^ e) by (destruct Hh as [-> | ->]; [exists 5|exists 6]; done). destruct He as (e & He & Ee).
  split_and!; [by apply (ashl_exact h e)|by apply (ashr_exact h e)|by apply (lshr_exact h e)| |].
  - replace h with (2 * (h / 2)) by (destruct Hh as [-> | ->]; done). apply mul_exact. destruct Hh as [-> | ->]; done.
  - rewrite cmp_exact by lia. destruct (Z.compare_spec a b); repeat match goal with |- context [?x <? ?y] => split_ltb x y end; lia || done.
Qed.
Lemma double_word_arithmetic_witness : __ashrdi3 (-5000000000) 33 = Ret (-1) /\ __muldi3 (-5000000000) 3000000000 = 3446744073709551616.
Proof.
  assert (Ha : in_s (2 * 32) (-5000000000)) by (unfold in_s; lia).
  destruct (double_word_arithmetic 32 (-5000000000) 3000000000 33 (or_introl eq_refl) Ha ltac:(lia)) as (_ & E1 & _ & E2 & _).
  split; [exact E1|exact E2].
Defined.
