(* ===== verification/CcDiv.v ===== *)
(** * Division

    Bit by bit, by halves and digit by digit, unsigned and signed: every routine yields
    the quotient and the remainder. *)

From S2P Require Import Prelude Bytes Cc CcArith CcHalf.

(** * Unsigned division

    The loop that divides bit by bit, [udivXi3] and [umodXi3], and the division of 64-bit
    integers by their halves, [__udivmoddi4]. *)

(** ** The registers of the loop *)

Section bit.
Context (N : Z) (HN : 0 < N).

Lemma wrapu_words (h : Z) (Hh : 0 < h) x : wrapu (2 * h) x = words h (low h x) (wrapu h (high h x)).
Proof.
  pose proof (B_pos h Hh). pose proof (words_in_u h Hh _ _ (low_range h Hh x) (wrapu_range h Hh (high h x))) as Hr. revert Hr.
  assert (Hex : exists k, words h (low h x) (wrapu h (high h x)) = x + k * 2 ^ (2 * h)); [|destruct Hex as [k' ->]; apply wrapu_eq; lia].
  pose proof (words_split h Hh x) as Hs. unfold words in *. rewrite pow_double by done.
  exists (- (high h x / 2 ^ h)). unfold wrapu. pose proof (Z.div_mod (high h x) (2 ^ h) ltac:(lia)). nia.
Qed.

Lemma wrapu_mod x y : x `mod` 2 ^ N = y `mod` 2 ^ N -> wrapu N x = wrapu N y.
Proof. done. Qed.

(** A bit is shifted in. *)
Lemma shift_in x c : in_u N x -> 0 <= c < 2 -> Z.lor (wrapu N (Z.shiftl x 1)) c = wrapu N (2 * x) + c.
Proof.
  intros Hx Hc. pose proof (pow_half N HN) as Hp. pose proof (pow_half_pos N HN).
  assert (E : wrapu N (Z.shiftl x 1) = Z.shiftl (x `mod` 2 ^ (N - 1)) 1).
  { rewrite !Z.shiftl_mul_pow2 by lia. unfold wrapu. rewrite Hp, (Z.mul_comm 2). apply Z.mul_mod_distr_r; lia. }
  rewrite E, Z.lor_comm, lor_add by (lia || (pose proof (Z.mod_pos_bound x (2 ^ (N - 1))); lia)).
  rewrite Z.shiftl_mul_pow2 in E by lia. rewrite Z.shiftl_mul_pow2, (Z.mul_comm x) in E by lia. change (2 ^ 1) with 2 in *. lia.
Qed.
Lemma double_range x c : in_u N x -> 0 <= c < 2 -> in_u N (wrapu N (2 * x) + c) /\ wrapu N (2 * x) + c = wrapu N (2 * x + c).
Proof.
  intros Hx Hc. pose proof (pow_half N HN) as Hp. pose proof (pow_half_pos N HN).
  assert (E : wrapu N (2 * x) = 2 * (x `mod` 2 ^ (N - 1))) by (unfold wrapu; rewrite Hp; apply Z.mul_mod_distr_l; lia).
  pose proof (Z.mod_pos_bound x (2 ^ (N - 1)) ltac:(lia)). assert (Hr : in_u N (wrapu N (2 * x) + c)) by (unfold in_u; lia).
  split; [done|]. transitivity (wrapu N (wrapu N (2 * x) + c)); [symmetry; by apply wrapu_small|apply wrapu_add_l].
Qed.
Lemma top_bit x : in_u N x -> 0 <= Z.shiftr x (N - 1) < 2.
Proof.
  unfold in_u. intros Hx. pose proof (pow_half N HN). pose proof (pow_half_pos N HN). rewrite Z.shiftr_div_pow2 by lia.
  split; [apply Z.div_pos; lia|apply Z.div_lt_upper_bound; lia].
Qed.

(** One step of the loop. *)
Lemma sub_if_exact d r : in_u N d -> in_u N r -> in_s N (d - r - 1) -> sub_if N d r = if d <=? r then (r - d, 1) else (r, 0).
Proof.
  intros Hd Hr Hs. unfold sub_if. rewrite wraps_small by done. pose proof (pow_pos N HN). split_leb d r.
  - rewrite sign_neg by (done || lia). assert (Em : wrapu N (-1) = Z.ones N).
    { rewrite (wrapu_eq N HN _ 1); rewrite ?Z.ones_equiv; [lia|]. unfold in_u. lia. }
    rewrite Em, Z.land_ones, (Z.mod_small d) by (unfold in_u in *; lia). f_equal. apply wrapu_small. unfold in_u in *. lia.
  - rewrite sign_nonneg by (done || lia). unfold wrapu at 2. rewrite Z.mod_0_l, Z.land_0_r, Z.sub_0_r by lia. by rewrite wrapu_small.
Qed.

(** What is shifted in from the top is the rest of the dividend. *)
Lemma rest_of_dividend n c k : in_u N n -> 0 <= c < 2 -> 0 <= k < N ->
  n / 2 ^ (N - (k + 1)) = Z.shiftr n (N - 1) * 2 ^ k + (wrapu N (2 * n) + c) / 2 ^ (N - k).
Proof.
  intros Hn Hc Hk. unfold in_u in Hn. pose proof (pow_half N HN) as Hp. pose proof (pow_half_pos N HN).
  assert (E : wrapu N (2 * n) = 2 * (n `mod` 2 ^ (N - 1))) by (unfold wrapu; rewrite Hp; apply Z.mul_mod_distr_l; lia).
  rewrite E, Z.shiftr_div_pow2 by lia. set (e := 2 ^ (N - (k + 1))).
  assert (0 < e) by (apply Z.pow_pos_nonneg; lia).
  assert (Ek : 2 ^ (N - k) = 2 * e) by (unfold e; rewrite <- Z.pow_succ_r by lia; f_equal; lia).
  assert (EN : 2 ^ (N - 1) = 2 ^ k * e) by (unfold e; rewrite <- Z.pow_add_r by lia; f_equal; lia).
  rewrite Ek, <- Z.div_div by lia. replace ((2 * (n `mod` 2 ^ (N - 1)) + c) / 2) with (n `mod` 2 ^ (N - 1)) by (apply (Z.div_unique _ _ _ c); lia).
  rewrite (Z.div_mod n (2 ^ (N - 1))) at 1 by lia. rewrite EN at 1.
  replace (2 ^ k * e * (n / 2 ^ (N - 1))) with (n / 2 ^ (N - 1) * 2 ^ k * e) by lia. by rewrite Z.div_add_l by lia.
Qed.
End bit.

(** ** The loop *)

Section loop.
Context (N : Z) (HN : 0 < N) (d : Z) (Hd : in_u N d) (Hd0 : 0 < d).

(** The differences are signed integers. *)
Definition divides_safely (sr V : Z) : Prop := sr = 0 \/ d <= 2 ^ (N - 1) \/ (sr = 1 /\ 2 ^ (N - 1) <= V < 2 ^ N).

(** [V] is what is left of the dividend: [r] and the top of [n]. *)
Lemma udiv_loop_exact sr : forall r n c,
  let k := Z.of_nat sr in
  let V := r * 2 ^ k + n / 2 ^ (N - k) in
  k <= N -> 0 <= r < d -> in_u N n -> 0 <= c < 2 -> divides_safely k V ->
  exists n' c', udiv_loop N sr d r n c = (V `mod` d, n', c') /\ in_u N n' /\ 0 <= c' < 2
    /\ wrapu N (2 * n' + c') = wrapu N ((2 * n + c) * 2 ^ k + V / d).
Proof.
  pose proof (pow_half N HN) as Hp. pose proof (pow_half_pos N HN).
  induction sr as [|sr IH]; intros r n c k V Hk Hr Hn Hc HV.
  - exists n, c. assert (EV : V = r).
    { unfold V, k. change (Z.of_nat 0) with 0. rewrite Z.sub_0_r, Z.div_small by done. lia. }
    rewrite EV, Z.mod_small, Z.div_small by lia. split_and!; try done; try lia. f_equal. unfold k. lia.
  - assert (Ek : k = Z.of_nat sr + 1) by (unfold k; lia). set (k' := Z.of_nat sr) in *.
    assert (H2k : 0 < 2 ^ k') by (apply Z.pow_pos_nonneg; lia).
    cbn [udiv_loop]. pose proof (top_bit N HN n Hn) as Ht. pose proof (rest_of_dividend N HN n c k' Hn Hc ltac:(lia)) as Hrest.
    destruct (double_range N HN n c Hn Hc) as [Hn1 En1]. assert (Hru : in_u N r) by (unfold in_u in *; lia).
    rewrite !(shift_in N HN) by done. set (t := Z.shiftr n (N - 1)) in *. set (n1 := wrapu N (2 * n) + c) in *.
    assert (HVe : V = (2 * r + t) * 2 ^ k' + n1 / 2 ^ (N - k')).
    { unfold V. rewrite Ek, Hrest, Z.pow_add_r by lia. lia. }
    assert (Hq1 : 0 <= n1 / 2 ^ (N - k') < 2 ^ k').
    { unfold in_u in Hn1. split; [apply Z.div_pos; [lia|apply Z.pow_pos_nonneg; lia]|].
      apply Z.div_lt_upper_bound; [apply Z.pow_pos_nonneg; lia|]. rewrite <- Z.pow_add_r by lia. replace (N - k' + k') with N by lia. lia. }
    assert (Hr1 : in_u N (2 * r + t) /\ in_s N (d - (2 * r + t) - 1)).
    { unfold in_u, in_s, divides_safely in *. destruct HV as [HV | [HV | [Hk1 HV]]]; [lia|lia|].
      assert (Ek0 : k' = 0) by lia. rewrite Ek0, ?Z.sub_0_r in *. rewrite (Z.div_small n1) in * by lia. change (2 ^ 0) with 1 in *. lia. }
    assert (Hsafe : forall V', divides_safely k' V') by (intros V'; unfold divides_safely in *; lia).
    destruct Hr1 as (Hr1 & Hs1). pose proof (double_range N HN r t Hru Ht) as [_ Er]. rewrite Er, (wrapu_small N) by done.
    rewrite (sub_if_exact N HN) by done.
    assert (Hstep : exists r1 b, (if d <=? 2 * r + t then (2 * r + t - d, 1) else (2 * r + t, 0)) = (r1, b)
                    /\ 0 <= r1 < d /\ 0 <= b < 2 /\ 2 * r + t = b * d + r1).
    { split_leb d (2 * r + t); eexists _, _; (split; [reflexivity|]); lia. }
    destruct Hstep as (r1 & b & -> & Hr1' & Hb & Erb).
    destruct (IH r1 n1 b ltac:(lia) Hr1' Hn1 Hb (Hsafe _)) as (n' & c' & -> & Hn' & Hc' & Eq).
    assert (EV : V = b * 2 ^ k' * d + (r1 * 2 ^ k' + n1 / 2 ^ (N - k'))) by (rewrite HVe, Erb; lia).
    exists n', c'. fold k' in Eq |- *. rewrite EV. set (V1 := r1 * 2 ^ k' + n1 / 2 ^ (N - k')) in *.
    split_and!; [|done|lia|lia|].
    + by rewrite Z.add_comm, Z.mod_add by lia.
    + rewrite Eq, Z.div_add_l, Ek, Z.pow_add_r by lia. rewrite En1. apply wrapu_mod. pose proof (Z.div_mod (2 * n + c) (2 ^ N) ltac:(lia)) as D.
      unfold wrapu. rewrite <- (Z.mod_add _ (2 * 2 ^ k' * ((2 * n + c) / 2 ^ N)) (2 ^ N)) by lia. f_equal. nia.
Qed.

(** The loop, from the registers that a dividend is loaded into. *)
Lemma udiv_run n sr : in_u N n -> 1 <= sr <= N -> n < d * 2 ^ sr -> divides_safely sr n ->
  exists n' c', udiv_loop N (Z.to_nat sr) d (n / 2 ^ sr) (wrapu N (n * 2 ^ (N - sr))) 0 = (n `mod` d, n', c')
    /\ Z.lor (wrapu N (Z.shiftl n' 1)) c' = n / d.
Proof.
  intros Hn Hsr Hlt HV. unfold in_u in Hn. pose proof (pow_pos N HN) as Hpos.
  assert (H2s : 0 < 2 ^ sr) by (apply Z.pow_pos_nonneg; lia). assert (H2r : 0 < 2 ^ (N - sr)) by (apply Z.pow_pos_nonneg; lia).
  assert (EN : 2 ^ N = 2 ^ sr * 2 ^ (N - sr)) by (rewrite <- Z.pow_add_r by lia; f_equal; lia).
  assert (Ew : wrapu N (n * 2 ^ (N - sr)) = (n `mod` 2 ^ sr) * 2 ^ (N - sr)) by (unfold wrapu; rewrite EN; apply Z.mul_mod_distr_r; lia).
  destruct (udiv_loop_exact (Z.to_nat sr) (n / 2 ^ sr) (wrapu N (n * 2 ^ (N - sr))) 0) as (n' & c' & E & Hn' & Hc' & Eq);
    rewrite ?Z2Nat.id in * by lia.
  - lia.
  - split; [apply Z.div_pos; lia|apply Z.div_lt_upper_bound; lia].
  - by apply wrapu_range.
  - lia.
  - rewrite Ew, Z.div_mul by lia. rewrite (Z.mul_comm (n / _)), <- Z.div_mod by lia. done.
  - rewrite Ew, Z.div_mul in * by lia. rewrite (Z.mul_comm (n / _)), <- Z.div_mod in E, Eq by lia.
    exists n', c'. split; [done|]. rewrite (shift_in N HN) by done. destruct (double_range N HN n' c' Hn' Hc') as [_ ->]. rewrite Eq.
    replace ((2 * (n `mod` 2 ^ sr * 2 ^ (N - sr)) + 0) * 2 ^ sr) with (2 * (n `mod` 2 ^ sr) * 2 ^ N) by (rewrite EN; lia).
    rewrite Z.add_comm. unfold wrapu. rewrite Z.mod_add by lia. apply Z.mod_small.
    split; [apply Z.div_pos; lia|]. apply Z.div_lt_upper_bound; nia.
Qed.
End loop.

(** ** Leading zeros *)

Lemma log2_bounds x : 0 < x -> 2 ^ Z.log2 x <= x < 2 ^ (Z.log2 x + 1).
Proof. intros Hx. rewrite Z.add_1_r. by apply Z.log2_spec. Qed.
Lemma log2_range N x : 0 < x -> in_u N x -> 0 <= Z.log2 x < N.
Proof. intros Hx Hu. unfold in_u in Hu. split; [apply Z.log2_nonneg|]. apply Z.log2_lt_pow2; lia. Qed.

(** The length of an integer that has a high half. *)
Lemma log2_high h n : 0 < h -> 0 < high h n -> Z.log2 n = Z.log2 (high h n) + h.
Proof.
  intros Hh Hn. pose proof (words_split h Hh n) as En. unfold words in En. pose proof (low_range h Hh n) as Hl. unfold in_u in Hl.
  pose proof (log2_bounds (high h n) Hn) as Hb. pose proof (Z.log2_nonneg (high h n)). pose proof (pow_pos h Hh).
  apply Z.log2_unique; [lia|]. replace (Z.succ (Z.log2 (high h n) + h)) with (Z.log2 (high h n) + 1 + h) by lia.
  rewrite !(Z.pow_add_r 2 _ h) by lia. nia.
Qed.

Section clz.
Context (n d : Z) (Hn : 0 < n) (Hd : 0 < d).
Local Notation sr := (Z.log2 n - Z.log2 d).

Lemma log2_small : sr < 0 -> n < d.
Proof. intros H. apply Z.log2_lt_cancel. lia. Qed.
Lemma log2_steps : 0 <= sr -> n < d * 2 ^ (sr + 1).
Proof.
  intros H. pose proof (log2_bounds n Hn). pose proof (log2_bounds d Hd). pose proof (Z.log2_nonneg d).
  assert (E : 2 ^ (Z.log2 n + 1) = 2 ^ Z.log2 d * 2 ^ (sr + 1)) by (rewrite <- Z.pow_add_r by lia; f_equal; lia).
  assert (0 < 2 ^ (sr + 1)) by (apply Z.pow_pos_nonneg; lia). nia.
Qed.
Lemma log2_divides N : 0 < N -> in_u N n -> in_u N d -> 0 <= sr -> divides_safely N d (sr + 1) n.
Proof.
  intros HN Hun Hud H. unfold divides_safely, in_u in *. destruct (Z.le_gt_cases d (2 ^ (N - 1))) as [Hle|Hgt]; [auto|]. right. right.
  pose proof (log2_range N n Hn Hun). pose proof (log2_range N d Hd Hud).
  assert (N - 1 <= Z.log2 d) by (apply Z.log2_le_pow2; lia). pose proof (log2_bounds n Hn) as Hb.
  assert (Z.log2 n = N - 1) as El by lia. rewrite El in Hb. lia.
Qed.
End clz.

(** ** [udivXi3] and [umodXi3] *)

Section udivX.
Context (N : Z) (HN : 0 < N <= 128).

Lemma clz_or_pos x : 0 < x -> clz_or N x = Ret (N - 1 - Z.log2 x).
Proof. intros Hx. unfold clz_or, builtin_clz. by rewrite (proj2 (Z.eqb_neq _ _)) by lia. Qed.

(** The three cases of the number of steps; [Q] is what the two routines have in common. *)
Lemma udiv_cases n d : in_u N n -> in_u N d -> 0 < d ->
  exists cn sr, clz_or N n = Ret cn /\ clz_or N d = Ret (N - 1 - Z.log2 d) /\ wrapu 32 (N - 1 - Z.log2 d - cn) = sr
  /\ ((N - 1 < sr /\ n < d) \/ (sr = N - 1 /\ d = 1) \/ (0 <= sr < N - 1 /\ n < d * 2 ^ (sr + 1) /\ divides_safely N d (sr + 1) n)).
Proof.
  intros Hn Hd Hd0. pose proof (log2_range N d Hd0 Hd) as Hld. assert (0 <= n) by (unfold in_u in Hn; lia).
  destruct (Z.eq_dec n 0) as [-> |Hn0].
  - exists N, (wrapu 32 (N - 1 - Z.log2 d - N)). split_and!; [done|by apply clz_or_pos|done|]. left.
    rewrite (wrapu_eq 32 ltac:(lia) _ 1) by (unfold in_u; lia). lia.
  - pose proof (log2_range N n ltac:(lia) Hn) as Hln. eexists _, _. split_and!; [apply clz_or_pos; lia|by apply clz_or_pos|done|].
    replace (N - 1 - Z.log2 d - (N - 1 - Z.log2 n)) with (Z.log2 n - Z.log2 d) by lia.
    destruct (Z.lt_ge_cases (Z.log2 n) (Z.log2 d)).
    + left. rewrite (wrapu_eq 32 ltac:(lia) _ 1) by (unfold in_u; lia). split; [lia|]. apply log2_small; lia.
    + right. rewrite wrapu_small by (unfold in_u; lia). destruct (Z.eq_dec (Z.log2 n - Z.log2 d) (N - 1)) as [E|E].
      * left. split; [done|]. pose proof (log2_bounds d Hd0) as Hb. replace (Z.log2 d) with 0 in Hb by lia. lia.
      * right. split_and!; [lia|lia|apply log2_steps; lia|apply log2_divides; lia || done].
Qed.

Lemma udivX_exact n d : in_u N n -> in_u N d -> 0 < d -> udivXi3 N n d = Ret (n / d) /\ umodXi3 N n d = Ret (n `mod` d).
Proof.
  intros Hn Hd Hd0. destruct (udiv_cases n d Hn Hd Hd0) as (cn & sr & En & Ed & Esr & Hcase).
  unfold udivXi3, umodXi3. rewrite En, Ed. cbn [mbind outcome_bind]. rewrite Esr. unfold in_u in Hn. destruct Hcase as [[Hs Hlt]|[[Hs ->]|(Hs & Hlt & Hsafe)]].
  - split_ltb (N - 1) sr; [|lia]. by rewrite Z.div_small, Z.mod_small by lia.
  - split_ltb (N - 1) sr; [lia|]. split_eqb sr (N - 1); [|lia]. by rewrite Z.div_1_r, Z.mod_1_r.
  - split_ltb (N - 1) sr; [lia|]. split_eqb sr (N - 1); [lia|]. rewrite shr_in, shl_in by lia. cbn [mbind outcome_bind].
    destruct (udiv_run N ltac:(lia) d Hd Hd0 n (sr + 1) Hn ltac:(lia) Hlt Hsafe) as (n' & c' & E' & Eq). rewrite E', Eq. done.
Qed.
End udivX.

(** [__udivmodsi4]. *)
Lemma udivmodsi4_exact a b : in_u 32 a -> in_u 32 b -> 0 < b -> __udivmodsi4 a b = Ret (a / b, a `mod` b).
Proof.
  intros Ha Hb Hb0. unfold __udivmodsi4, __udivsi3. rewrite (proj1 (udivX_exact 32 ltac:(lia) a b Ha Hb Hb0)). cbn [mbind outcome_bind].
  rewrite wrapu_wraps, wrapu_mul_l by lia. unfold in_u in *.
  assert (Hq : in_u 32 (a / b)) by (split; [apply Z.div_pos; lia|apply Z.div_lt_upper_bound; nia]).
  pose proof (Z.div_mod a b ltac:(lia)) as D. pose proof (Z.mod_pos_bound a b Hb0).
  assert (Em : a / b * b = a - a `mod` b) by lia. assert (0 <= a / b * b) by (apply Z.mul_nonneg_nonneg; unfold in_u in Hq; lia).
  rewrite (wrapu_small 32 (a / b) Hq), Em, (wrapu_small 32 (a - a `mod` b)), wrapu_small by (unfold in_u; lia). do 2 f_equal. lia.
Qed.

(** * Division of 64-bit integers by their halves

    [__udivmoddi4]: every branch yields the quotient and the remainder. *)

(** ** Powers of two *)

Lemma pow2_test x : 0 < x -> Z.land x (x - 1) = 0 -> x = 2 ^ Z.log2 x.
Proof.
  intros Hx Hl. pose proof (log2_bounds x Hx) as Hb. pose proof (Z.log2_nonneg x). destruct (Z.eq_dec x (2 ^ Z.log2 x)) as [E|E]; [done|exfalso].
  assert (Hl2 : Z.log2 (x - 1) = Z.log2 x).
  { apply Z.log2_unique; [done|]. rewrite <- Z.add_1_r. lia. }
  assert (0 < 2 ^ Z.log2 x) by (apply Z.pow_pos_nonneg; lia).
  assert (Ht : Z.testbit (Z.land x (x - 1)) (Z.log2 x) = true).
  { rewrite Z.land_spec. rewrite Z.bit_log2 by done. rewrite <- Hl2. rewrite Z.bit_log2 by lia. done. }
  rewrite Hl, Z.bits_0 in Ht. done.
Qed.
Lemma land_pow2 x k : 0 <= k -> Z.land x (2 ^ k - 1) = x `mod` 2 ^ k.
Proof. intros Hk. rewrite <- Z.land_ones by done. f_equal. rewrite Z.ones_equiv. lia. Qed.

Lemma pos_ctz_spec p : 0 <= pos_ctz p /\ exists m, 0 <= m /\ Z.pos p = 2 ^ pos_ctz p * (2 * m + 1).
Proof.
  induction p as [p IH|p IH|]; cbn [pos_ctz].
  - split; [done|]. exists (Z.pos p). lia.
  - destruct IH as (H0 & m & Hm & E). split; [lia|]. exists m. split; [done|]. rewrite Z.pow_add_r by lia. lia.
  - split; [done|]. exists 0. lia.
Qed.
Lemma ctz_pow2 k : 0 <= k -> builtin_ctz (2 ^ k) = Ret k.
Proof.
  intros Hk. assert (0 < 2 ^ k) as H by (apply Z.pow_pos_nonneg; lia). destruct (2 ^ k) as [|p|p] eqn:E; try lia. cbn [builtin_ctz]. f_equal.
  destruct (pos_ctz_spec p) as (H0 & m & Hm & Ep). rewrite <- E in Ep. set (c := pos_ctz p) in *.
  destruct (Z.lt_trichotomy c k) as [Hlt|[?|Hgt]]; [exfalso|done|exfalso].
  - replace k with (c + (1 + (k - c - 1))) in Ep by lia. rewrite !Z.pow_add_r in Ep by lia.
    assert (2 ^ c <> 0) by (apply Z.pow_nonzero; lia). apply Z.mul_reg_l in Ep; [|done]. lia.
  - replace c with (k + (1 + (c - k - 1))) in Ep by lia. rewrite !Z.pow_add_r in Ep by lia.
    assert (0 < 2 ^ (c - k - 1)) by (apply Z.pow_pos_nonneg; lia). nia.
Qed.

(** ** The loop on the halves *)

Lemma shift_halves l hi c : in_u 32 l -> in_u 32 hi -> 0 <= c < 2 ->
  words 32 (Z.lor (wrapu 32 (Z.shiftl l 1)) c) (Z.lor (wrapu 32 (Z.shiftl hi 1)) (Z.shiftr l 31)) = Z.lor (wrapu 64 (Z.shiftl (words 32 l hi) 1)) c.
Proof.
  intros Hl Hh Hc. pose proof (top_bit 32 ltac:(lia) l Hl) as Ht. change (32 - 1) with 31 in Ht.
  rewrite (shift_in 32 ltac:(lia) l), (shift_in 32 ltac:(lia) hi), (shift_in 64) by (done || lia || by apply (words_in_u 32)).
  change 64 with (2 * 32). rewrite wrapu_words by lia. unfold words. rewrite Z.shiftr_div_pow2 in * by lia.
  assert (E1 : low 32 (2 * (hi * 2 ^ 32 + l)) = wrapu 32 (2 * l)).
  { unfold low, wrapu. replace (2 * (hi * 2 ^ 32 + l)) with (2 * l + 2 * hi * 2 ^ 32) by lia. apply Z.mod_add. lia. }
  assert (E2 : high 32 (2 * (hi * 2 ^ 32 + l)) = 2 * hi + l / 2 ^ 31).
  { unfold high. rewrite Z.shiftr_div_pow2 by lia. replace (2 * (hi * 2 ^ 32 + l)) with (2 * hi * 2 ^ 32 + l * 2) by lia.
    rewrite Z.div_add_l by lia. f_equal. change (2 ^ 32) with (2 ^ 31 * 2). apply Z.div_mul_cancel_r; lia. }
  rewrite E1, E2. pose proof (double_range 32 ltac:(lia) hi (l / 2 ^ 31) Hh Ht) as [_ E3]. lia.
Qed.

Lemma udivmod_loop_exact d sr : forall rh rl qh ql c, in_u 64 d -> in_u 32 rh -> in_u 32 rl -> in_u 32 qh -> in_u 32 ql -> 0 <= c < 2 ->
  udivmod_loop sr d rh rl qh ql c = udiv_loop 64 sr d (words 32 rl rh) (words 32 ql qh) c.
Proof.
  induction sr as [|sr IH]; intros rh rl qh ql c Hd Hrh Hrl Hqh Hql Hc; [done|].
  cbn [udivmod_loop udiv_loop]. change (64 - 1) with 63.
  assert (Et : Z.shiftr (words 32 ql qh) 63 = Z.shiftr qh 31).
  { change 63 with (32 + 31). rewrite <- Z.shiftr_shiftr by lia. fold (high 32 (words 32 ql qh)). by rewrite high_words. }
  assert (Htop : forall x, in_u 32 x -> 0 <= Z.shiftr x 31 < 2) by (intros x Hx; by apply (top_bit 32)).
  rewrite <- (shift_halves rl rh (Z.shiftr _ 63)), <- (shift_halves ql qh c) by (try done; rewrite Et; auto). rewrite Et.
  assert (Hin : forall x b, in_u 32 x -> 0 <= b < 2 -> in_u 32 (Z.lor (wrapu 32 (Z.shiftl x 1)) b)).
  { intros x b Hx Hb. rewrite (shift_in 32) by (done || lia). by apply (double_range 32). }
  destruct (sub_if 64 d _) as [r b] eqn:E. unfold sub_if in E. injection E as Er Eb.
  assert (Hr : in_u 64 r) by (rewrite <- Er; apply wrapu_range; lia).
  rewrite IH; try done; try (apply Hin; auto; fail).
  - by rewrite words_split by lia.
  - by apply (high_range_u 32).
  - by apply (low_range 32).
  - rewrite <- Eb. change 1 with (2 ^ 1 - 1). rewrite land_pow2 by lia. apply Z.mod_pos_bound. lia.
Qed.

(** The end of the routine, from the registers that [n] is loaded into. *)
Lemma udivmod_end_exact n d sr rh rl qh ql : in_u 64 n -> in_u 64 d -> 0 < d ->
  in_u 32 rh -> in_u 32 rl -> in_u 32 qh -> in_u 32 ql ->
  words 32 rl rh = n / 2 ^ sr -> words 32 ql qh = wrapu 64 (n * 2 ^ (64 - sr)) ->
  1 <= sr <= 64 -> n < d * 2 ^ sr -> divides_safely 64 d sr n ->
  udivmod_end d sr rh rl qh ql = Ret (n / d, n `mod` d).
Proof.
  intros Hn Hd Hd0 Hrh Hrl Hqh Hql Er Eq Hsr Hlt Hsafe. unfold udivmod_end. rewrite udivmod_loop_exact by (done || lia). rewrite Er, Eq.
  destruct (udiv_run 64 ltac:(lia) d Hd Hd0 n sr Hn Hsr Hlt Hsafe) as (n' & c' & -> & E). by rewrite E.
Qed.

(** ** Loading the registers *)

Section load.
Context (n d : Z) (Hn : in_u 64 n) (Hd : in_u 64 d) (Hd0 : 0 < d).
Local Notation nh := (high 32 n).
Local Notation nl := (low 32 n).

Lemma nh_range : in_u 32 nh.
Proof. by apply (high_range_u 32). Qed.
Lemma nl_range : in_u 32 nl.
Proof. by apply (low_range 32). Qed.
Lemma n_split : nh * 2 ^ 32 + nl = n.
Proof. by apply (words_split 32). Qed.

Lemma div_pow_range x k : 0 <= k -> in_u 32 x -> in_u 32 (x / 2 ^ k).
Proof.
  intros Hk Hx. unfold in_u in *. assert (0 < 2 ^ k) by (apply Z.pow_pos_nonneg; lia).
  split; [apply Z.div_pos; lia|]. apply Z.div_lt_upper_bound; nia.
Qed.

(** The register [q], for a shift by 32 bits or more. *)
Lemma load_q sr : 1 <= sr <= 32 -> words 32 0 (wrapu 32 (nl * 2 ^ (32 - sr))) = wrapu 64 (n * 2 ^ (64 - sr)).
Proof.
  intros Hsr. change 64 with (2 * 32) at 1. rewrite wrapu_words by lia. replace (64 - sr) with (32 - sr + 32) by lia.
  rewrite Z.pow_add_r, Z.mul_assoc by lia. fold (words 32 0 (n * 2 ^ (32 - sr))).
  assert (E : n * 2 ^ (32 - sr) * 2 ^ 32 = words 32 0 (n * 2 ^ (32 - sr))) by (unfold words; lia).
  rewrite E, low_words, high_words by (unfold in_u; lia). f_equal. apply wrapu_mul_l.
Qed.

Lemma load_r sr : 0 < sr < 32 -> words 32 (Z.lor (wrapu 32 (nh * 2 ^ (32 - sr))) (nl / 2 ^ sr)) (nh / 2 ^ sr) = n / 2 ^ sr
  /\ in_u 32 (Z.lor (wrapu 32 (nh * 2 ^ (32 - sr))) (nl / 2 ^ sr)).
Proof.
  intros Hsr. pose proof (right_small 32 5 ltac:(lia) ltac:(lia) n sr Hsr) as Hr. rewrite (wrapu_small 32 nh nh_range) in Hr.
  rewrite Z.shiftl_mul_pow2, Z.shiftr_div_pow2 in Hr by lia. split; [done|].
  apply lor_width; [lia|apply wrapu_range; lia|apply div_pow_range; [lia|apply nl_range]].
Qed.

Lemma load_small sr : 1 <= sr < 32 -> n < d * 2 ^ sr -> divides_safely 64 d sr n ->
  (qh ← shl 32 nl (32 - sr); rh ← shr 32 nh sr; x ← shl 32 nh (32 - sr); y ← shr 32 nl sr;
   udivmod_end d sr rh (Z.lor x y) qh 0) = Ret (n / d, n `mod` d).
Proof.
  intros Hsr Hlt Hsafe. rewrite !shl_in, !shr_in by lia. cbn [mbind outcome_bind]. destruct (load_r sr ltac:(lia)) as [Er Hr].
  apply udivmod_end_exact; try done; try lia.
  - apply div_pow_range; [lia|apply nh_range].
  - apply wrapu_range; lia.
  - apply load_q; lia.
Qed.

Lemma load_mid : n < d * 2 ^ 32 -> divides_safely 64 d 32 n -> udivmod_end d 32 0 nh nl 0 = Ret (n / d, n `mod` d).
Proof.
  intros Hlt Hsafe. apply udivmod_end_exact; try done; try lia.
  - apply nh_range.
  - apply nl_range.
  - unfold words, high. rewrite Z.shiftr_div_pow2; lia.
  - rewrite <- load_q by lia. change (2 ^ (32 - 32)) with 1. by rewrite Z.mul_1_r, (wrapu_small 32 nl nl_range).
Qed.

Lemma load_big sr : 32 < sr < 64 -> n < d * 2 ^ sr -> divides_safely 64 d sr n ->
  (ql ← shl 32 nl (64 - sr); x ← shl 32 nh (64 - sr); y ← shr 32 nl (sr - 32); rl ← shr 32 nh (sr - 32);
   udivmod_end d sr 0 rl (Z.lor x y) ql) = Ret (n / d, n `mod` d).
Proof.
  intros Hsr Hlt Hsafe. rewrite !shl_in, !shr_in by lia. cbn [mbind outcome_bind].
  pose proof (or_left 32 ltac:(lia) nh nl (64 - sr) ltac:(lia) nl_range) as Hor. replace (32 - (64 - sr)) with (sr - 32) in Hor by lia.
  rewrite Z.shiftl_mul_pow2, Z.shiftr_div_pow2 in Hor by lia. rewrite Hor, n_split.
  apply udivmod_end_exact; try done; try lia; try (apply wrapu_range; lia).
  - apply div_pow_range; [lia|apply nh_range].
  - rewrite <- (right_big 32 5 ltac:(lia) ltac:(lia) n sr) by lia. unfold words. lia.
  - pose proof (wrapu_words 32 ltac:(lia) (n * 2 ^ (64 - sr))) as Ew. change (2 * 32) with 64 in Ew. rewrite Ew. unfold high. rewrite Z.shiftr_div_pow2 by lia. f_equal.
    unfold low. apply wrapu_mul_l.
Qed.
End load.

(** ** The branches *)

(** The number of steps for two 32-bit integers; it is negative if the first is shorter. *)
Lemma clz_steps x y : in_u 32 x -> in_u 32 y -> 0 < x -> 0 < y ->
  builtin_clz 32 x = Ret (31 - Z.log2 x) /\ builtin_clz 32 y = Ret (31 - Z.log2 y)
  /\ 0 <= Z.log2 x < 32 /\ 0 <= Z.log2 y < 32.
Proof.
  intros Hx Hy Hx0 Hy0. unfold builtin_clz. rewrite !(proj2 (Z.eqb_neq _ _)) by lia.
  split_and!; try done; apply (log2_range 32); done.
Qed.

Lemma high_le n d : high 32 n < high 32 d -> n < d.
Proof.
  intros Hh. pose proof (n_split n) as En. pose proof (n_split d) as Ed. pose proof (nl_range n). pose proof (nl_range d). unfold in_u in *. nia.
Qed.
Section branches.
Context (n d : Z) (Hn : in_u 64 n) (Hd : in_u 64 d) (Hd0 : 0 < d).
Local Notation nh := (high 32 n).
Local Notation nl := (low 32 n).
Local Notation dh := (high 32 d).
Local Notation dl := (low 32 d).
Local Notation result := (Ret (n / d, n `mod` d)).

Lemma quot_rem x y : 0 <= x -> 0 < y -> (q ← div x y; r ← rem x y; Ret (q, r)) = Ret (x / y, x `mod` y).
Proof.
  intros Hx Hy. unfold div, rem. rewrite (proj2 (Z.eqb_neq _ _)) by lia. cbn [mbind outcome_bind].
  by rewrite Z.quot_div_nonneg, Z.rem_mod_nonneg by lia.
Qed.
Lemma result_small : n < d -> Ret (0, n) = result.
Proof. intros H. unfold in_u in Hn. by rewrite Z.div_small, Z.mod_small by lia. Qed.
Lemma result_unique q r : n = d * q + r -> 0 <= r < d -> Ret (q, r) = result.
Proof. intros E H. by rewrite <- (Z.div_unique n d q r), <- (Z.mod_unique n d q r) by lia. Qed.

(** Both have a high half. *)
Lemma both_high : 0 < nh -> 0 < dh ->
  let s := Z.log2 nh - Z.log2 dh in
  wrapu 32 (31 - Z.log2 dh - (31 - Z.log2 nh)) = (if s <? 0 then s + 2 ^ 32 else s) /\ -32 < s < 32
  /\ (s < 0 -> n < d) /\ (0 <= s -> n < d * 2 ^ (s + 1) /\ divides_safely 64 d (s + 1) n).
Proof.
  intros Hnh Hdh s. destruct (clz_steps nh dh (nh_range n Hn) (nh_range d Hd) Hnh Hdh) as (_ & _ & Hln & Hld).
  assert (Es : Z.log2 n - Z.log2 d = s) by (rewrite (log2_high 32 n), (log2_high 32 d) by done; unfold s; lia).
  assert (Hn0 : 0 < n) by (pose proof (n_split n); pose proof (nl_range n) as Hl; unfold in_u in Hl; lia).
  split_and!; try (unfold s; lia).
  - replace (31 - Z.log2 dh - (31 - Z.log2 nh)) with s by (unfold s; lia). unfold s in *. split_ltb (Z.log2 nh - Z.log2 dh) 0.
    + rewrite (wrapu_eq 32 ltac:(lia) _ 1) by (unfold in_u; lia). lia.
    + apply wrapu_small. unfold in_u. lia.
  - intros Hs. apply log2_small; lia.
  - intros Hs. rewrite <- Es in *. split; [apply log2_steps; lia|apply log2_divides; done || lia].
Qed.

(** The branch with no low half in the divisor. *)
Lemma low_zero : 0 < nh -> dl = 0 -> 0 < dh ->
  (if nl =? 0 then q ← div nh dh; r ← rem nh dh; Ret (q, words 32 0 r)
   else if Z.land dh (dh - 1) =? 0 then c ← builtin_ctz dh; q ← shr 32 nh c; Ret (q, words 32 nl (Z.land nh (dh - 1)))
   else
     cd ← builtin_clz 32 dh; cn ← builtin_clz 32 nh;
     let sr := wrapu 32 (cd - cn) in
     if 30 <? sr then Ret (0, n)
     else
       let sr := sr + 1 in
       qh ← shl 32 nl (32 - sr); rh ← shr 32 nh sr; x ← shl 32 nh (32 - sr); y ← shr 32 nl sr;
       udivmod_end d sr rh (Z.lor x y) qh 0) = result.
Proof.
  intros Hnh Hdl Hdh. pose proof (n_split n) as En. pose proof (n_split d) as Ed. rewrite Hdl in Ed. pose proof (nl_range n) as Hl. unfold in_u in Hl.
  pose proof (Z.div_mod nh dh ltac:(lia)) as D. pose proof (Z.mod_pos_bound nh dh Hdh) as M. destruct (clz_steps nh dh (nh_range n Hn) (nh_range d Hd) Hnh Hdh) as (Ecn & Ecd & Hln & Hld).
  split_eqb (low 32 n) 0.
  - pose proof (quot_rem nh dh ltac:(lia) Hdh) as Eq. unfold div, rem in *. rewrite (proj2 (Z.eqb_neq _ _)) in * by lia. cbn [mbind outcome_bind] in *.
    injection Eq as -> ->. apply result_unique; unfold words; nia.
  - split_eqb (Z.land dh (dh - 1)) 0.
    + assert (Ep : dh = 2 ^ Z.log2 dh) by (by apply pow2_test). rewrite Ep at 1. rewrite ctz_pow2 by lia. cbn [mbind outcome_bind].
      rewrite shr_in by lia. cbn [mbind outcome_bind]. rewrite Ep at 2. rewrite land_pow2 by lia. rewrite <- Ep. apply result_unique; unfold words; nia.
    + rewrite Ecn, Ecd. cbn [mbind outcome_bind]. destruct (both_high Hnh Hdh) as (-> & Hs & Hsmall & Hbig). set (s := Z.log2 nh - Z.log2 dh) in *.
      split_ltb s 0; [split_ltb 30 (s + 2 ^ 32); [by apply result_small, Hsmall|lia]|].
      assert (s <> 31).
      { intros E31. assert (Z.log2 dh = 0) as Elog by (unfold s in *; lia). assert (dh = 1) as Eone by (pose proof (log2_bounds dh Hdh) as Hb; rewrite Elog in Hb; lia).
        rewrite Eone in *. done. }
      split_ltb 30 s; [lia|]. destruct (Hbig ltac:(lia)). apply load_small; try done. lia.
Qed.

(** The branch with no high half in the divisor. *)
Lemma high_zero : 0 < nh -> dh = 0 ->
  (if Z.land dl (dl - 1) =? 0 then
     let r := Z.land nl (dl - 1) in
     if dl =? 1 then Ret (n, r)
     else
       sr ← builtin_ctz dl;
       qh ← shr 32 nh sr; x ← shl 32 nh (32 - sr); y ← shr 32 nl sr;
       Ret (words 32 (Z.lor x y) qh, r)
   else
     cd ← builtin_clz 32 dl; cn ← builtin_clz 32 nh;
     let sr := wrapu 32 (1 + 32 + cd - cn) in
     if sr =? 32 then udivmod_end d sr 0 nh nl 0
     else if sr <? 32 then
       qh ← shl 32 nl (32 - sr); rh ← shr 32 nh sr; x ← shl 32 nh (32 - sr); y ← shr 32 nl sr;
       udivmod_end d sr rh (Z.lor x y) qh 0
     else
       ql ← shl 32 nl (64 - sr); x ← shl 32 nh (64 - sr); y ← shr 32 nl (sr - 32); rl ← shr 32 nh (sr - 32);
       udivmod_end d sr 0 rl (Z.lor x y) ql) = result.
Proof.
  intros Hnh Hdh. pose proof (n_split n) as En. pose proof (n_split d) as Ed. rewrite Hdh in Ed.
  assert (Edl : dl = d) by lia. assert (Hd32 : in_u 32 d) by (rewrite <- Edl; apply nl_range). rewrite Edl. cbv zeta.
  destruct (clz_steps nh d (nh_range n Hn) Hd32 Hnh Hd0) as (Ecn & Ecd & Hln & Hld).
  split_eqb (Z.land d (d - 1)) 0.
  - assert (Ep : d = 2 ^ Z.log2 d) by (by apply pow2_test). set (k := Z.log2 d) in *.
    assert (Er : Z.land nl (d - 1) = n `mod` d).
    { rewrite Ep, land_pow2 by lia. assert (E32 : 2 ^ 32 = 2 ^ (32 - k) * 2 ^ k) by (rewrite <- Z.pow_add_r by lia; f_equal; lia).
      transitivity ((nl + nh * 2 ^ (32 - k) * 2 ^ k) `mod` 2 ^ k); [by rewrite Z.mod_add by (apply Z.pow_nonzero; lia)|].
      f_equal. rewrite <- Z.mul_assoc, <- E32. lia. }
    rewrite Er. split_eqb d 1; [assert (n / d = n) as -> by (replace d with 1 by lia; apply Z.div_1_r); done|].
    assert (k <> 0) by (intros Ek; rewrite Ek in Ep; lia). rewrite Ep at 1. rewrite ctz_pow2 by lia. cbn [mbind outcome_bind].
    rewrite shl_in, !shr_in by lia. cbn [mbind outcome_bind]. destruct (load_r n Hn k ltac:(lia)) as [-> _]. by rewrite <- Ep.
  - rewrite Ecn, Ecd. cbn [mbind outcome_bind]. set (sr := 33 + Z.log2 nh - Z.log2 d).
    assert (Hd1 : Z.log2 d <> 0).
    { intros Elog. assert (d = 1) as Eone by (pose proof (log2_bounds d Hd0) as Hb; rewrite Elog in Hb; lia).
      match goal with Hp : Z.land d (d - 1) <> 0 |- _ => apply Hp; by rewrite Eone end. }
    assert (Esr : wrapu 32 (1 + 32 + (31 - Z.log2 d) - (31 - Z.log2 nh)) = sr) by (rewrite wrapu_small by (unfold in_u; lia); unfold sr; lia). rewrite Esr.
    assert (Es : sr = Z.log2 n - Z.log2 d + 1) by (rewrite (log2_high 32 n) by done; unfold sr; lia).
    assert (Hn0 : 0 < n) by (pose proof (nl_range n) as Hl; unfold in_u in Hl; lia).
    assert (Hsr : 2 <= sr < 64) by (unfold sr; lia).
    assert (Hlt : n < d * 2 ^ sr) by (rewrite Es; apply log2_steps; lia). assert (Hsafe : divides_safely 64 d sr n) by (rewrite Es; apply log2_divides; done || lia).
    clear Es Esr. clearbody sr. split_eqb sr 32; [replace sr with 32 in * by lia; by apply load_mid|]. split_ltb sr 32; [apply load_small|apply load_big]; done || lia.
Qed.

(** [__udivmoddi4]. *)
Lemma udivmoddi4_exact : __udivmoddi4 n d = result.
Proof.
  pose proof (n_split n) as En. pose proof (n_split d) as Ed. pose proof (nl_range n) as Hl. pose proof (nl_range d) as Hl'.
  pose proof (nh_range n Hn) as Hh. pose proof (nh_range d Hd) as Hh'. unfold in_u in Hl, Hl', Hh, Hh'. unfold __udivmoddi4. cbv zeta.
  split_eqb (high 32 n) 0.
  - assert (Enl : nl = n) by lia. rewrite Enl. split_eqb (high 32 d) 0; [|apply result_small; lia].
    assert (Edl : dl = d) by lia. rewrite Edl. apply quot_rem; lia.
  - split_eqb (low 32 d) 0.
    + split_eqb (high 32 d) 0; [lia|]. apply low_zero; lia.
    + split_eqb (high 32 d) 0; [apply high_zero; lia|].
      destruct (clz_steps nh dh (nh_range n Hn) (nh_range d Hd) ltac:(lia) ltac:(lia)) as (Ecn & Ecd & Hln & Hld).
      rewrite Ecn, Ecd. cbn [mbind outcome_bind]. destruct (both_high ltac:(lia) ltac:(lia)) as (-> & Hs & Hsmall & Hbig). set (s := Z.log2 nh - Z.log2 dh) in *.
      split_ltb s 0; [split_ltb 31 (s + 2 ^ 32); [by apply result_small, Hsmall|lia]|]. split_ltb 31 s; [lia|]. destruct (Hbig ltac:(lia)).
      split_eqb (s + 1) 32; [|apply load_small; done || lia]. replace (s + 1) with 32 in * by lia. by apply load_mid.
Qed.
End branches.

(** * Division of 128-bit integers

    The division of two words by one, digit by digit, and [__udivmodti4]. *)

(** ** A digit of the quotient *)

Section digit.
Context (v u un : Z).
Local Notation b := (2 ^ 32).
Local Notation vn1 := (high 32 v).
Local Notation vn0 := (low 32 v).
Context (Hv : in_u 64 v) (Hnorm : 2 ^ 63 <= v) (Hu : 0 <= u < v) (Hun : 0 <= un < b).

(** The digit. *)
Local Notation Q := ((u * b + un) / v).

Lemma divisor_digits : vn1 * b + vn0 = v /\ 2 ^ 31 <= vn1 < b /\ 0 <= vn0 < b.
Proof.
  pose proof (n_split v) as E. pose proof (nl_range v) as Hl. pose proof (nh_range v Hv) as Hh. unfold in_u in *. lia.
Qed.
Lemma digit_range : 0 <= Q < b.
Proof. split; [apply Z.div_pos; lia|apply Z.div_lt_upper_bound; nia]. Qed.

(** An estimate is too large exactly if the test says so. *)
Lemma test_exact q rhat : u = q * vn1 + rhat -> (Q < q <-> b * rhat + un < q * vn0).
Proof.
  intros E. destruct divisor_digits as (Ev & H1 & H0).
  assert (Hq : Q < q <-> u * b + un < q * v).
  { split; intros H.
    - pose proof (Z.mul_succ_div_gt (u * b + un) v ltac:(lia)). nia.
    - apply Z.div_lt_upper_bound; lia. }
  rewrite Hq. pose proof (f_equal (Z.mul q) Ev). lia.
Qed.

(** The first estimate. *)
Lemma estimate : Q <= u / vn1 <= Q + 2 /\ u / vn1 <= b + 1.
Proof.
  destruct divisor_digits as (Ev & H1 & H0). pose proof (Z.div_mod u vn1 ltac:(lia)) as D. pose proof (Z.mod_pos_bound u vn1 ltac:(lia)) as M.
  set (q := u / vn1) in *. set (rh := u `mod` vn1) in *.
  assert (Hq1 : q <= b + 1) by (enough (q < b + 2) by lia; apply Z.div_lt_upper_bound; lia).
  assert (Hqp : 0 <= q) by (apply Z.div_pos; lia). split; [|done]. split.
  - enough (Q < q + 1) by lia. apply Z.div_lt_upper_bound; [lia|]. nia.
  - enough (q - 2 <= Q) by lia. apply Z.div_le_lower_bound; [lia|].
    destruct (Z.lt_ge_cases q 2) as [Hs|Hs]; [nia|].
    assert ((q - 2) * vn0 <= (b - 1) * (b - 1)) by (apply Z.mul_le_mono_nonneg; lia).
    pose proof (f_equal (Z.mul (q - 2)) Ev). nia.
Qed.

Lemma fix_digit_exact fuel : forall q rhat, u = q * vn1 + rhat -> Q <= q <= Q + Z.of_nat fuel -> q <= b + 1 -> 0 <= rhat < b ->
  fix_digit fuel q rhat vn1 vn0 un = Ret Q.
Proof.
  destruct divisor_digits as (Ev & H1 & H0). pose proof digit_range as HQ.
  induction fuel as [|fuel IH]; intros q rhat E Hq Hqb Hr; cbn [fix_digit]; change (Z.shiftl 1 32) with b;
    pose proof (test_exact q rhat E) as Ht; rewrite (wrapu_small 64 (b * rhat + un)) by (unfold in_u; lia).
  all: assert (Hmul : 0 <= q * vn0 <= (b + 1) * (b - 1)) by (split; [nia|apply Z.mul_le_mono_nonneg; lia]).
  all: rewrite (wrapu_small 64 (q * vn0)) by (unfold in_u; lia).
  - split_leb (2 ^ 32) q; cbn [orb]; [lia|]. split_ltb (b * rhat + un) (q * vn0); [lia|]. f_equal. lia.
  - assert (Hc : (b <=? q) || (b * rhat + un <? q * vn0) = (Q <? q)).
    { split_leb (2 ^ 32) q; cbn [orb]; [symmetry; apply Z.ltb_lt; lia|]. split_ltb (b * rhat + un) (q * vn0); symmetry; [apply Z.ltb_lt; lia|apply Z.ltb_ge; lia]. }
    rewrite Hc. destruct (Z.ltb_spec Q q); [|f_equal; lia].
    rewrite (wrapu_small 64 (q - 1)), (wrapu_small 64 (rhat + vn1)) by (unfold in_u; lia).
    split_leb (2 ^ 32) (rhat + vn1).
    + f_equal. enough (~ Q < q - 1) by lia. rewrite (test_exact (q - 1) (rhat + vn1)) by lia.
      assert ((q - 1) * vn0 <= b * (b - 1)) by (apply Z.mul_le_mono_nonneg; lia). nia.
    + apply IH; lia.
Qed.

(** A digit, from the estimate on. *)
Lemma digit_exact : exists q, div u vn1 = Ret q /\ fix_digit 2 q (wrapu 64 (u - wrapu 64 (q * vn1))) vn1 vn0 un = Ret Q.
Proof.
  destruct divisor_digits as (Ev & H1 & H0). destruct estimate as (He & Heb). unfold in_u in Hv.
  unfold div. rewrite (proj2 (Z.eqb_neq _ _)) by lia. exists (u / vn1). split; [by rewrite Z.quot_div_nonneg by lia|].
  pose proof (Z.div_mod u vn1 ltac:(lia)) as D. pose proof (Z.mod_pos_bound u vn1 ltac:(lia)) as M.
  assert (0 <= u / vn1 * vn1) by (apply Z.mul_nonneg_nonneg; [apply Z.div_pos; lia|lia]).
  rewrite (wrapu_small 64 (u / vn1 * vn1)), (wrapu_small 64 (u - _)) by (unfold in_u; lia).
  apply fix_digit_exact; lia.
Qed.
End digit.

(** The remainder, modulo the width. *)
Lemma remainder_wrap x w : 0 < w -> in_u 64 w -> wrapu 64 (wrapu 64 x - wrapu 64 (x / w * w)) = x `mod` w.
Proof.
  intros Hw Hu. unfold wrapu. rewrite <- Zminus_mod. pose proof (Z.mod_pos_bound x w Hw). unfold in_u in Hu.
  replace (x - x / w * w) with (x `mod` w) by (pose proof (Z.div_mod x w ltac:(lia)); lia). apply Z.mod_small. lia.
Qed.

(** Two digits of a quotient. *)
Lemma two_digits x d1 d0 w b : 0 < w -> 0 < b -> 0 <= d0 < b ->
  let r1 := (x * b + d1) `mod` w in
  (x * (b * b) + (d1 * b + d0)) / w = (x * b + d1) / w * b + (r1 * b + d0) / w /\ (x * (b * b) + (d1 * b + d0)) `mod` w = (r1 * b + d0) `mod` w.
Proof.
  intros Hw Hb Hd0 r1. pose proof (Z.div_mod (x * b + d1) w ltac:(lia)) as D. fold r1 in D.
  assert (E : x * (b * b) + (d1 * b + d0) = (x * b + d1) / w * b * w + (r1 * b + d0)) by nia.
  rewrite E. split; [by rewrite Z.div_add_l by lia|]. by rewrite (Z.add_comm _ (r1 * b + d0)), Z.mod_add by lia.
Qed.

(** ** Two words by one *)

Section two_by_one.
Context (u1 u0 v : Z) (Hv : in_u 64 v) (Hu1 : 0 <= u1 < v) (Hu0 : in_u 64 u0).
Local Notation U := (u1 * 2 ^ 64 + u0).
Local Notation s := (63 - Z.log2 v).
Local Notation v' := (v * 2 ^ s).

Lemma normalised : 0 <= s < 64 /\ in_u 64 v' /\ 2 ^ 63 <= v' /\ 0 < 2 ^ s.
Proof.
  pose proof (log2_range 64 v ltac:(lia) Hv) as Hl. pose proof (log2_bounds v ltac:(lia)) as Hb.
  assert (0 < 2 ^ s) by (apply Z.pow_pos_nonneg; lia).
  assert (E1 : 2 ^ 63 = 2 ^ Z.log2 v * 2 ^ s) by (rewrite <- Z.pow_add_r by lia; f_equal; lia).
  assert (E2 : 2 ^ 64 = 2 ^ (Z.log2 v + 1) * 2 ^ s) by (rewrite <- Z.pow_add_r by lia; f_equal; lia).
  unfold in_u. split_and!; try lia; nia.
Qed.

(** The dividend, shifted by as much. *)
Lemma shifted_dividend :
  high 64 (U * 2 ^ s) < v' /\ 0 <= high 64 (U * 2 ^ s) /\
  (if 0 <? s then
     v ← shl 64 v s;
     x ← shl 64 u1 s; y ← shr 64 u0 (64 - s);
     un10 ← shl 64 u0 s;
     Ret (v, Z.lor x y, un10)
   else Ret (v, u1, u0)) = Ret (v', high 64 (U * 2 ^ s), low 64 (U * 2 ^ s)).
Proof.
  destruct normalised as (Hs & Hv' & Hn & H2s). unfold in_u in *.
  assert (Hlt : high 64 (U * 2 ^ s) < v') by (unfold high; rewrite Z.shiftr_div_pow2 by lia; apply Z.div_lt_upper_bound; nia).
  assert (H0 : 0 <= high 64 (U * 2 ^ s)) by (unfold high; rewrite Z.shiftr_div_pow2 by lia; apply Z.div_pos; nia).
  split_and!; [done|done|]. split_ltb 0 (63 - Z.log2 v).
  - rewrite !shl_in, shr_in by lia. cbn [mbind outcome_bind]. rewrite (wrapu_small 64 v') by done.
    pose proof (or_left 64 ltac:(lia) u1 u0 s ltac:(lia) Hu0) as Hor. rewrite Z.shiftl_mul_pow2, Z.shiftr_div_pow2 in Hor by lia. rewrite Hor.
    assert (Eh : wrapu 64 (U * 2 ^ s / 2 ^ 64) = high 64 (U * 2 ^ s)).
    { unfold high in *. rewrite Z.shiftr_div_pow2 in * by lia. apply wrapu_small. unfold in_u. lia. }
    rewrite Eh. do 2 f_equal. unfold low, wrapu. replace (U * 2 ^ s) with (u0 * 2 ^ s + u1 * 2 ^ s * 2 ^ 64) by lia. by rewrite Z.mod_add by lia.
  - assert (Es : s = 0) by lia. rewrite Es, !Z.mul_1_r. fold (words 64 u0 u1). by rewrite high_words, low_words by (done || lia).
Qed.

(** The result of the division of the shifted integers. *)
Lemma unshifted : U * 2 ^ s / v' = U / v /\ (U * 2 ^ s) `mod` v' / 2 ^ s = U `mod` v.
Proof.
  destruct normalised as (Hs & Hv' & Hn & H2s). split; [apply Z.div_mul_cancel_r; lia|].
  rewrite Z.mul_mod_distr_r by lia. apply Z.div_mul. lia.
Qed.

Lemma udiv128by64to64_exact : udiv128by64to64default u1 u0 v = Ret (U / v, U `mod` v).
Proof.
  destruct normalised as (Hs & Hv' & Hn & H2s). destruct shifted_dividend as (Hh & Hh0 & Eshift). destruct unshifted as [Eq Er].
  unfold udiv128by64to64default. unfold builtin_clz. rewrite (proj2 (Z.eqb_neq _ _)) by lia. cbn [mbind outcome_bind].
  change (64 - 1) with 63. rewrite Eshift. cbn [mbind outcome_bind]. change (Z.shiftl 1 32) with (2 ^ 32).
  set (un64 := high 64 (U * 2 ^ s)) in *. set (un10 := low 64 (U * 2 ^ s)) in *.
  assert (EU : un64 * 2 ^ 64 + un10 = U * 2 ^ s) by (apply (words_split 64); lia). rewrite <- EU in *.
  assert (Hun10 : in_u 64 un10) by (apply low_range; lia). set (w := v') in *. clearbody un64 un10 w. clear Eshift EU.
  change 0xFFFFFFFF with (2 ^ 32 - 1). rewrite !land_pow2 by lia. change (un10 `mod` 2 ^ 32) with (low 32 un10). change (w `mod` 2 ^ 32) with (low 32 w).
  fold (high 32 un10) (high 32 w). pose proof (n_split un10) as E10. pose proof (nl_range un10) as Hl. pose proof (nh_range un10 Hun10) as Hhi. unfold in_u in Hl, Hhi, Hv'.
  set (d1 := high 32 un10) in *. set (d0 := low 32 un10) in *.
  destruct (digit_exact w un64 d1) as (q & -> & Eq1); try (done || lia). cbn [mbind outcome_bind]. rewrite Eq1. cbn [mbind outcome_bind].
  rewrite (remainder_wrap (un64 * 2 ^ 32 + d1) w) by (done || lia). set (r1 := (un64 * 2 ^ 32 + d1) `mod` w).
  assert (Hr1 : 0 <= r1 < w) by (apply Z.mod_pos_bound; lia).
  destruct (digit_exact w r1 d0) as (q' & -> & Eq0); try (done || lia). cbn [mbind outcome_bind]. rewrite Eq0. cbn [mbind outcome_bind].
  rewrite (remainder_wrap (r1 * 2 ^ 32 + d0) w) by (done || lia). rewrite shr_in by lia. cbn [mbind outcome_bind].
  destruct (two_digits un64 d1 d0 w (2 ^ 32) ltac:(lia) ltac:(lia) Hl) as [E1 E2]. fold r1 in E1, E2. change (2 ^ 32 * 2 ^ 32) with (2 ^ 64) in *.
  rewrite E10, Eq in E1. rewrite E10 in E2. rewrite E2 in Er. rewrite Er, <- E1. do 2 f_equal. apply wrapu_small. unfold in_u in *.
  split; [apply Z.div_pos; lia|apply Z.div_lt_upper_bound; lia].
Qed.
End two_by_one.

(** ** Shift and subtract *)

Lemma ti_step a e q : in_u 128 a -> in_u 128 e -> in_s 128 (e - a - 1) ->
  exists t r, (forall n, ti_loop (S n) a e q = ti_loop n r (e / 2) (Z.lor (wrapu 64 (Z.shiftl q 1)) t)) /\ a = t * e + r /\ 0 <= t < 2 /\ (a < 2 * e -> 0 <= r < e).
Proof.
  intros Ha He Hs. pose proof (sub_if_exact 128 ltac:(lia) e a He Ha Hs) as E. unfold sub_if in E.
  change (128 - 1) with 127 in E. cbn [ti_loop]. rewrite (Z.shiftr_div_pow2 e 1) by lia. change (2 ^ 1) with 2. unfold in_u in *.
  destruct (Z.leb_spec e a); injection E as E1 E2; rewrite E1, E2; eexists _, _; (split; [intros n; reflexivity|]); lia.
Qed.

Lemma ti_loop_exact b k : 0 < b -> forall a q,
  let e := b * 2 ^ Z.of_nat k in
  in_u 128 a -> in_u 128 e -> a < 2 * e -> e <= 2 ^ 127 \/ 2 ^ 127 <= a -> in_u 64 q ->
  ti_loop (S k) a e q = (wrapu 64 (q * 2 ^ (Z.of_nat k + 1) + a / b), a `mod` b).
Proof.
  intros Hb. induction k as [|k IH]; intros a q e Ha He Hlt Hs Hq;
    (assert (Hsub : in_s 128 (e - a - 1)) by (unfold in_s, in_u in *; change (128 - 1) with 127; lia));
    destruct (ti_step _ _ q Ha He Hsub) as (t & r & -> & Ea & Ht & Hr); specialize (Hr Hlt);
    rewrite (shift_in 64) by (done || lia); destruct (double_range 64 ltac:(lia) q t Hq Ht) as [Hq' Eq'].
  - assert (e = b) as -> by (unfold e; lia). cbn [ti_loop]. rewrite Ea, Z.div_add_l, (Z.div_small r), Eq' by lia.
    rewrite (Z.add_comm (t * b)), Z.mod_add, Z.mod_small by lia. do 2 f_equal. lia.
  - assert (Ee : e / 2 = b * 2 ^ Z.of_nat k).
    { unfold e. rewrite Nat2Z.inj_succ, Z.pow_succ_r by lia. rewrite (Z.mul_comm 2), Z.mul_assoc. apply Z.div_mul. lia. }
    assert (Ed : e = 2 * (e / 2)) by (rewrite Ee; unfold e; rewrite Nat2Z.inj_succ, Z.pow_succ_r by lia; lia).
    rewrite Ee. unfold in_u in Ha, He. rewrite IH; [|unfold in_u; lia|unfold in_u; lia|lia|lia|done].
    assert (Eb : t * e = t * 2 ^ Z.of_nat (S k) * b) by (unfold e; lia). rewrite Ea, Eb, Z.div_add_l, (Z.add_comm (_ * b)), Z.mod_add by lia. f_equal.
    rewrite Eq'. replace (Z.of_nat (S k)) with (Z.of_nat k + 1) by lia.
    rewrite <- wrapu_add_l, wrapu_mul_l, wrapu_add_l, (Z.pow_add_r 2 (Z.of_nat k + 1) 1) by lia. f_equal. lia.
Qed.

(** ** [__udivmodti4] *)

(** Both have a high half. *)
Lemma ti_high a b : in_u 128 a -> in_u 128 b -> b <= a -> 0 < high 64 b ->
  (cb ← builtin_clz 64 (high 64 b); ca ← builtin_clz 64 (high 64 a);
   let shift := cb - ca in
   divisor ← shl 128 b shift;
   let '(q, r) := ti_loop (Z.to_nat (shift + 1)) a divisor 0 in
   Ret (words 64 q 0, r)) = Ret (a / b, a `mod` b).
Proof.
  intros Ha Hb Hle Hh. pose proof (words_split 64 ltac:(lia) b) as Eb. unfold words in Eb. pose proof (low_range 64 ltac:(lia) b) as Hl. unfold in_u in Ha, Hb, Hl.
  assert (Hha : high 64 b <= high 64 a) by (unfold high; rewrite !Z.shiftr_div_pow2 by lia; apply Z.div_le_mono; lia).
  unfold builtin_clz. rewrite !(proj2 (Z.eqb_neq _ _)) by lia. cbn [mbind outcome_bind]. cbv zeta.
  pose proof (log2_range 128 a ltac:(lia) Ha) as Hla. pose proof (log2_high 64 a ltac:(lia) ltac:(lia)) as Ela. pose proof (log2_high 64 b ltac:(lia) ltac:(lia)) as Elb.
  pose proof (Z.log2_nonneg (high 64 b)). pose proof (Z.log2_le_mono b a Hle) as Hmono. pose proof (log2_bounds a ltac:(lia)) as Ba. pose proof (log2_bounds b ltac:(lia)) as Bb.
  replace (64 - 1 - Z.log2 (high 64 b) - (64 - 1 - Z.log2 (high 64 a))) with (Z.log2 a - Z.log2 b) by lia. set (k := Z.log2 a - Z.log2 b).
  assert (E1 : 2 ^ Z.log2 a = 2 ^ Z.log2 b * 2 ^ k) by (rewrite <- Z.pow_add_r by (unfold k; lia); f_equal; unfold k; lia).
  assert (E2 : 2 ^ (Z.log2 a + 1) = 2 ^ (Z.log2 b + 1) * 2 ^ k) by (rewrite <- Z.pow_add_r by (unfold k; lia); f_equal; unfold k; lia).
  assert (E3 : 2 ^ (Z.log2 a + 1) = 2 * 2 ^ Z.log2 a) by (rewrite Z.pow_add_r by lia; lia).
  assert (H2k : 0 < 2 ^ k) by (apply Z.pow_pos_nonneg; unfold k; lia).
  assert (Hdiv : 2 ^ Z.log2 a <= b * 2 ^ k < 2 ^ (Z.log2 a + 1)) by nia.
  assert (Hmax : 2 ^ (Z.log2 a + 1) <= 2 ^ 128) by (apply Z.pow_le_mono_r; lia).
  rewrite shl_in by (unfold k; lia). cbn [mbind outcome_bind]. rewrite wrapu_small by (unfold in_u; nia).
  replace (Z.to_nat (k + 1)) with (S (Z.to_nat k)) by (unfold k; lia).
  assert (Hsafe : b * 2 ^ k <= 2 ^ 127 \/ 2 ^ 127 <= a).
  { destruct (Z.le_gt_cases (b * 2 ^ k) (2 ^ 127)) as [|Hgt]; [by left|right].
    assert (127 < Z.log2 a + 1) by (apply (Z.pow_lt_mono_r_iff 2); lia). assert (2 ^ 127 <= 2 ^ Z.log2 a) by (apply Z.pow_le_mono_r; lia). lia. }
  assert (Ek : Z.of_nat (Z.to_nat k) = k) by (unfold k; lia). pose proof (ti_loop_exact b (Z.to_nat k) ltac:(lia) a 0) as El. cbv zeta in El.
  rewrite Ek in El. rewrite El by (unfold in_u; lia). clear El.
  rewrite Z.mul_0_l, Z.add_0_l. unfold words. rewrite wrapu_small; [by rewrite Z.mul_0_l|].
  split; [apply Z.div_pos; lia|apply Z.div_lt_upper_bound; nia].
Qed.

Lemma udivmodti4_exact a b : in_u 128 a -> in_u 128 b -> 0 < b -> __udivmodti4 a b = Ret (a / b, a `mod` b).
Proof.
  intros Ha Hb Hb0. unfold __udivmodti4. split_ltb a b; [unfold in_u in Ha; by rewrite Z.div_small, Z.mod_small by lia|].
  pose proof (words_split 64 ltac:(lia) b) as Eb. pose proof (words_split 64 ltac:(lia) a) as Ea. unfold words in Ea, Eb.
  pose proof (low_range 64 ltac:(lia) a) as Hla. pose proof (high_range_u 64 ltac:(lia) a Ha) as Hha. pose proof (high_range_u 64 ltac:(lia) b Hb) as Hhb.
  split_eqb (high 64 b) 0; [|apply ti_high; try done; unfold in_u in Hhb; lia].
  assert (Elb : low 64 b = b) by lia. assert (Hb64 : in_u 64 b) by (rewrite <- Elb; apply low_range; lia). rewrite Elb. unfold in_u in Hha.
  split_ltb (high 64 a) b.
  - rewrite udiv128by64to64_exact by (done || lia). cbn [mbind outcome_bind]. rewrite Ea. unfold words. by rewrite !Z.mul_0_l.
  - pose proof (quot_rem (high 64 a) b ltac:(lia) Hb0) as Eqr. unfold div, rem in *. rewrite (proj2 (Z.eqb_neq _ _)) in * by lia. cbn [mbind outcome_bind] in *.
    injection Eqr as -> ->. pose proof (Z.mod_pos_bound (high 64 a) b Hb0) as M. pose proof (Z.div_mod (high 64 a) b ltac:(lia)) as D.
    rewrite udiv128by64to64_exact by (done || lia). cbn [mbind outcome_bind]. unfold words.
    set (q1 := high 64 a / b) in *. set (r1 := high 64 a `mod` b) in *.
    assert (Es : a = q1 * 2 ^ 64 * b + (r1 * 2 ^ 64 + low 64 a)) by nia.
    rewrite Es at 3 4. rewrite Z.div_add_l, (Z.add_comm (q1 * 2 ^ 64 * b)), Z.mod_add by lia. by rewrite Z.mul_0_l.
Qed.

(** * Signed division

    The signed routines divide magnitudes and restore_sign the signs; the theorems state what
    every division of the file yields. *)

Section signed.
Context (N : Z) (HN : 0 < N).

Lemma abs_range a : in_s N a -> in_u N (Z.abs a).
Proof. unfold in_s, in_u. pose proof (pow_half N HN). pose proof (pow_half_pos N HN). lia. Qed.

(** The magnitudes. *)
Lemma magnitude a : in_s N a -> wrapu N (wrapu N (Z.lxor a (Z.shiftr a (N - 1))) + - Z.shiftr a (N - 1)) = Z.abs a.
Proof.
  intros Ha. rewrite (wrapu_small N (Z.lxor _ _)) by (by apply xor_sign). rewrite Z.add_opp_r, xor_sub_sign by done.
  by apply wrapu_small, abs_range.
Qed.
Lemma magnitude_s a : in_s N a -> wrapu N (wraps N (wrapu N (Z.lxor a (Z.shiftr a (N - 1))) - Z.shiftr a (N - 1))) = Z.abs a.
Proof. intros Ha. rewrite wrapu_wraps by done. rewrite <- Z.add_opp_r. by apply magnitude. Qed.

(** The signs. *)
Lemma sign_value a : in_s N a -> Z.shiftr a (N - 1) = if a <? 0 then -1 else 0.
Proof. intros Ha. split_ltb a 0; [apply sign_neg; done || lia|apply sign_nonneg; done || lia]. Qed.
Lemma sign_cases a : in_s N a -> Z.shiftr a (N - 1) = 0 \/ Z.shiftr a (N - 1) = -1.
Proof. intros Ha. rewrite sign_value by done. destruct (a <? 0); auto. Qed.

(** The sign is restored. *)
Lemma restore_sign x s : in_u N x -> s = 0 \/ s = -1 -> wraps N (wrapu N (Z.lxor x (wrapu N s)) + - s) = wraps N (if s =? 0 then x else - x).
Proof.
  intros Hx Hs. rewrite Z.add_opp_r, <- (xor_mask N HN) by done. apply wraps_mod. unfold wrapu at 1. by rewrite Zminus_mod_idemp_l.
Qed.

Lemma quotient_sign a b : in_s N a -> in_s N b -> b <> 0 ->
  let s := Z.lxor (Z.shiftr a (N - 1)) (Z.shiftr b (N - 1)) in
  (s = 0 \/ s = -1) /\ (if s =? 0 then Z.abs a / Z.abs b else - (Z.abs a / Z.abs b)) = a ÷ b.
Proof.
  intros Ha Hb Hb0 s. unfold s. rewrite !sign_value, Z.quot_div by done.
  destruct (Z.ltb_spec a 0), (Z.ltb_spec b 0); cbn [Z.lxor Z.eqb]; (split; [auto|]);
    (destruct (Z.eq_dec a 0) as [-> |Ha0]; [by rewrite Z.div_0_l by lia|]); generalize (Z.abs a / Z.abs b); intros X.
  all: rewrite ?(Z.sgn_neg a), ?(Z.sgn_neg b), ?(Z.sgn_pos a), ?(Z.sgn_pos b) by lia;
    match goal with |- (if ?c then _ else _) = _ => let v := eval vm_compute in c in change c with v end; cbv iota; lia.
Qed.
Lemma remainder_sign a b : in_s N a -> b <> 0 ->
  (if Z.shiftr a (N - 1) =? 0 then Z.abs a `mod` Z.abs b else - (Z.abs a `mod` Z.abs b)) = Z.rem a b.
Proof.
  intros Ha Hb0. rewrite sign_value, Z.rem_mod by done. destruct (Z.ltb_spec a 0); cbn [Z.eqb].
  - rewrite Z.sgn_neg by done. lia.
  - destruct (Z.eq_dec a 0) as [-> |]; [by rewrite Z.mod_0_l by lia|rewrite Z.sgn_pos by lia; lia].
Qed.
Lemma remainder_range a b : in_s N a -> in_s N b -> b <> 0 -> in_s N (Z.rem a b).
Proof.
  unfold in_s. intros Ha Hb Hb0. pose proof (Z.rem_bound_abs a b Hb0). lia.
Qed.
Lemma quotient_range a b : in_s N a -> in_s N b -> b <> 0 -> ~ (a = MIN N /\ b = -1) -> in_s N (a ÷ b).
Proof.
  unfold in_s. intros Ha Hb Hb0 Hne. rewrite MIN_eq in Hne by done. pose proof (Z.quot_rem a b Hb0) as E. pose proof (Z.rem_bound_abs a b Hb0) as Hr.
  destruct (Z.eq_dec b (-1)) as [-> |H1]; [rewrite <- (Z.quot_unique_exact a (-1) (- a)) by lia; lia|].
  assert (Hq : Z.abs (a ÷ b) * Z.abs b <= Z.abs a) by (rewrite <- Z.abs_mul; pose proof (Z.mul_quot_le (Z.abs a) (Z.abs b)); rewrite Z.quot_abs in * by done; rewrite Z.abs_mul; lia).
  destruct (Z.eq_dec b 1) as [-> |H2]; [rewrite Z.quot_1_r; lia|].
  assert (2 * Z.abs (a ÷ b) <= Z.abs a) by nia. pose proof (pow_half_pos N HN). lia.
Qed.

Lemma div_range x y : in_u N x -> 0 < y -> in_u N (x / y) /\ in_u N (x `mod` y).
Proof.
  unfold in_u. intros Hx Hy. pose proof (Z.mod_pos_bound x y Hy). pose proof (Z.mod_le x y ltac:(lia) Hy).
  split; [split; [apply Z.div_pos; lia|apply Z.div_lt_upper_bound; nia]|lia].
Qed.

(** The routines that the magnitudes are given to. *)
Context (udivmod : Z -> Z -> outcome (Z * Z)).
Hypothesis udivmod_exact : forall a b, in_u N a -> in_u N b -> 0 < b -> udivmod a b = Ret (a / b, a `mod` b).

Section with_args.
Context (a b : Z) (Ha : in_s N a) (Hb : in_s N b) (Hb0 : b <> 0).

Lemma magnitudes : udivmod (Z.abs a) (Z.abs b) = Ret (Z.abs a / Z.abs b, Z.abs a `mod` Z.abs b)
  /\ in_u N (Z.abs a / Z.abs b) /\ in_u N (Z.abs a `mod` Z.abs b).
Proof.
  pose proof (abs_range a Ha). pose proof (abs_range b Hb). split; [apply udivmod_exact; done || lia|]. apply div_range; done || lia.
Qed.

Lemma divX_exact udiv : (forall x y, udiv x y = p ← udivmod x y; Ret ((p : Z * Z).1)) -> divXi3 N udiv a b = Ret (wraps N (a ÷ b)).
Proof.
  intros Hu. destruct magnitudes as (E & Hq & _). destruct (quotient_sign a b Ha Hb Hb0) as [Hs Eq].
  unfold divXi3. rewrite !magnitude, Hu, E by done. cbn [mbind outcome_bind fst]. by rewrite restore_sign, Eq by done.
Qed.
Lemma modX_exact umod : (forall x y, umod x y = p ← udivmod x y; Ret ((p : Z * Z).2)) -> modXi3 N umod a b = Ret (Z.rem a b).
Proof.
  intros Hu. destruct magnitudes as (E & _ & Hr).
  unfold modXi3. rewrite !magnitude, Hu, E by done. cbn [mbind outcome_bind snd]. rewrite restore_sign, remainder_sign by (done || by apply sign_cases).
  by rewrite wraps_small by (done || by apply remainder_range).
Qed.
Lemma divmodX_exact : divmodXi4 N udivmod a b = Ret (wraps N (a ÷ b), Z.rem a b).
Proof.
  destruct magnitudes as (E & Hq & Hr). destruct (quotient_sign a b Ha Hb Hb0) as [Hs Eq].
  unfold divmodXi4. rewrite !magnitude_s, E by done. cbn [mbind outcome_bind]. rewrite (Z.lxor_comm (Z.shiftr b _)).
  rewrite !xor_mask, Eq, remainder_sign by (done || by apply sign_cases). by rewrite (wraps_small N HN (Z.rem a b)) by (done || by apply remainder_range).
Qed.
End with_args.
End signed.

Lemma udivsi_hardware a b : in_u 32 a -> in_u 32 b -> 0 < b -> (q ← div a b; r ← rem a b; Ret (q, r)) = Ret (a / b, a `mod` b).
Proof. unfold in_u. intros Ha Hb Hb0. apply quot_rem; lia. Qed.

Lemma divsi3_exact a b : in_s 32 a -> in_s 32 b -> b <> 0 -> __divsi3 a b = Ret (wraps 32 (a ÷ b)).
Proof.
  intros Ha Hb Hb0. unfold __divsi3. apply (divX_exact 32 ltac:(lia) _ udivsi_hardware a b Ha Hb Hb0).
  intros x y. unfold div, rem. by destruct (y =? 0).
Qed.
Lemma modsi3_exact a b : in_s 32 a -> in_s 32 b -> b <> 0 -> ~ (a = MIN 32 /\ b = -1) -> __modsi3 a b = Ret (Z.rem a b).
Proof.
  intros Ha Hb Hb0 Hne. unfold __modsi3. rewrite divsi3_exact by done. cbn [mbind outcome_bind].
  rewrite wraps_small by (lia || by apply quotient_range). pose proof (remainder_range 32 ltac:(lia) a b Ha Hb Hb0) as Hr.
  pose proof (Z.quot_rem a b Hb0) as E. assert (Em : a ÷ b * b = a - Z.rem a b) by lia.
  assert (Hm : in_s 32 (a ÷ b * b)).
  { rewrite Em. unfold in_s in *. destruct (Z.lt_ge_cases a 0).
    - pose proof (Z.rem_opp_l (- a) b Hb0) as Eo. rewrite Z.opp_involutive in Eo. pose proof (Z.rem_nonneg (- a) b Hb0 ltac:(lia)). pose proof (Z.rem_le (- a) (Z.abs b)). rewrite Z.rem_abs_r in * by done. lia.
    - pose proof (Z.rem_nonneg a b Hb0 ltac:(lia)). pose proof (Z.rem_le a (Z.abs b)). rewrite Z.rem_abs_r in * by done. lia. }
  rewrite sval_in by done. cbn [mbind outcome_bind]. rewrite sval_in; [f_equal; lia|]. by replace (a - a ÷ b * b) with (Z.rem a b) by lia.
Qed.

(** ** Every division of the file *)

(** C33: at each width, every unsigned division by an integer that is not zero yields the
    quotient and the remainder, and none of its shifts, hardware divisions and digit
    corrections leaves the behaviour that C defines. *)
Theorem unsigned_division a b : 0 < b ->
  (in_u 32 a -> in_u 32 b ->
     __udivsi3 a b = Ret (a / b) /\ __umodsi3 a b = Ret (a `mod` b) /\ __udivmodsi4 a b = Ret (a / b, a `mod` b)) /\
  (in_u 64 a -> in_u 64 b ->
     __udivdi3 a b = Ret (a / b) /\ __umoddi3 a b = Ret (a `mod` b) /\ __udivmoddi4 a b = Ret (a / b, a `mod` b)) /\
  (in_u 128 a -> in_u 128 b ->
     __udivti3 a b = Ret (a / b) /\ __umodti3 a b = Ret (a `mod` b) /\ __udivmodti4 a b = Ret (a / b, a `mod` b)).
Proof.
  intros Hb0. split_and!; intros Ha Hb.
  - destruct (udivX_exact 32 ltac:(lia) a b Ha Hb Hb0). split_and!; [done|done|by apply udivmodsi4_exact].
  - destruct (udivX_exact 64 ltac:(lia) a b Ha Hb Hb0). split_and!; [done|done|by apply udivmoddi4_exact].
  - unfold __udivti3, __umodti3. by rewrite udivmodti4_exact.
Qed.
Lemma unsigned_division_witness :
  __udivmoddi4 (2 ^ 63 + 12345) (2 ^ 33 + 7) = Ret ((2 ^ 63 + 12345) / (2 ^ 33 + 7), (2 ^ 63 + 12345) `mod` (2 ^ 33 + 7)).
Proof.
  assert (Ha : in_u 64 (2 ^ 63 + 12345)) by (unfold in_u; lia). assert (Hb : in_u 64 (2 ^ 33 + 7)) by (unfold in_u; lia).
  destruct (unsigned_division (2 ^ 63 + 12345) (2 ^ 33 + 7) ltac:(lia)) as (_ & H & _). exact (proj2 (proj2 (H Ha Hb))).
Defined.

(** C34: at each width, every signed division by an integer that is not zero truncates
    towards zero; the quotient wraps for the least integer and -1 and for no other
    arguments, and the remainder has the sign of the dividend. *)
Theorem signed_division a b : b <> 0 ->
  (in_s 32 a -> in_s 32 b ->
     __divsi3 a b = Ret (wraps 32 (a ÷ b)) /\ __divmodsi4 a b = Ret (wraps 32 (a ÷ b), Z.rem a b)
     /\ (~ (a = MIN 32 /\ b = -1) -> __modsi3 a b = Ret (Z.rem a b) /\ wraps 32 (a ÷ b) = a ÷ b)) /\
  (in_s 64 a -> in_s 64 b ->
     __divdi3 a b = Ret (wraps 64 (a ÷ b)) /\ __divmoddi4 a b = Ret (wraps 64 (a ÷ b), Z.rem a b) /\ __moddi3 a b = Ret (Z.rem a b)
     /\ (~ (a = MIN 64 /\ b = -1) -> wraps 64 (a ÷ b) = a ÷ b)) /\
  (in_s 128 a -> in_s 128 b ->
     __divti3 a b = Ret (wraps 128 (a ÷ b)) /\ __divmodti4 a b = Ret (wraps 128 (a ÷ b), Z.rem a b) /\ __modti3 a b = Ret (Z.rem a b)
     /\ (~ (a = MIN 128 /\ b = -1) -> wraps 128 (a ÷ b) = a ÷ b)).
Proof.
  intros Hb0. split_and!; intros Ha Hb.
  - split_and!; [by apply divsi3_exact|apply divmodX_exact; try done; apply udivmodsi4_exact|].
    intros Hne. split; [by apply modsi3_exact|]. apply wraps_small; [lia|]. apply quotient_range; done || lia.
  - pose proof udivmoddi4_exact as Hu. split_and!; [by eapply divX_exact|by apply divmodX_exact|by eapply modX_exact|].
    intros Hne. apply wraps_small; [lia|]. apply quotient_range; done || lia.
  - pose proof udivmodti4_exact as Hu. split_and!; [by eapply divX_exact|by apply divmodX_exact|by eapply modX_exact|].
    intros Hne. apply wraps_small; [lia|]. apply quotient_range; done || lia.
Qed.
Lemma signed_division_witness : __divmoddi4 (-1000000000007) 5000000001 = Ret (wraps 64 (-1000000000007 ÷ 5000000001), Z.rem (-1000000000007) 5000000001).
Proof.
  assert (Ha : in_s 64 (-1000000000007)) by (unfold in_s; lia). assert (Hb : in_s 64 5000000001) by (unfold in_s; lia).
  destruct (signed_division (-1000000000007) 5000000001 ltac:(lia)) as (_ & H & _). exact (proj1 (proj2 (H Ha Hb))).
Defined.
