(* ===== verification/CcCount.v ===== *)
(** * Counting bits

    Leading and trailing zeros, parity, the number of bits that are set and the order
    of bytes. *)

From S2P Require Import Prelude Bytes Host HostOrder Cc CcArith CcHalf CcDiv.

(** * Counting bits

    Leading and trailing zeros, the first bit that is set, parity, the number of bits that
    are set and the order of bytes. *)

Lemma wrapu_nonzero N a : 0 < N -> in_s N a -> a <> 0 -> 0 < wrapu N a.
Proof.
  intros HN Ha H0. pose proof (pow_half N HN). destruct (Z.lt_ge_cases a 0); [rewrite wrapu_neg by (done || lia)|rewrite wrapu_nonneg by (done || lia)]; unfold in_s in Ha; lia.
Qed.

(** ** Leading zeros *)

(** The upper half of [2 * k] bits. *)
Lemma upper_mask x k : 0 <= k -> 0 <= x < 2 ^ (2 * k) -> (Z.land x (Z.shiftl (Z.ones k) k) =? 0) = (x <? 2 ^ k).
Proof.
  intros Hk Hx. assert (H2 : 0 < 2 ^ k) by (apply Z.pow_pos_nonneg; lia).
  pose proof (mask_bits_right k x k 0 Hk Hk ltac:(lia)) as E. rewrite Z.shiftr_0_r, Z.add_0_r in E. rewrite E, Z.shiftl_mul_pow2 by lia.
  assert (EB : 2 ^ (2 * k) = 2 ^ k * 2 ^ k) by (rewrite <- Z.pow_add_r by lia; f_equal; lia).
  assert (Hq : 0 <= x / 2 ^ k < 2 ^ k) by (split; [apply Z.div_pos; lia|apply Z.div_lt_upper_bound; lia]).
  rewrite Z.mod_small by done. split_ltb x (2 ^ k).
  - by rewrite Z.div_small by lia.
  - apply Z.eqb_neq. assert (1 <= x / 2 ^ k) by (apply Z.div_le_lower_bound; lia). nia.
Qed.

(** One step halves the width and keeps the number of leading zeros. *)
Lemma clz_step_exact k x r : 0 < k -> 0 < x < 2 ^ (2 * k) ->
  exists x' r', clz_step (Z.shiftl (Z.ones k) k) k (x, r) = (x', r') /\ 0 < x' < 2 ^ k
    /\ r + (2 * k - 1 - Z.log2 x) = r' + (k - 1 - Z.log2 x').
Proof.
  intros Hk Hx. unfold clz_step. rewrite upper_mask by lia. assert (H2 : 0 < 2 ^ k) by (apply Z.pow_pos_nonneg; lia). split_ltb x (2 ^ k).
  - exists x, (r + k). rewrite Z.sub_diag, Z.shiftr_0_r. split_and!; [done|lia|lia|lia].
  - exists (Z.shiftr x (k - 0)), (r + 0). rewrite Z.sub_0_r. split; [done|].
    assert (EB : 2 ^ (2 * k) = 2 ^ k * 2 ^ k) by (rewrite <- Z.pow_add_r by lia; f_equal; lia).
    rewrite Z.log2_shiftr, Z.shiftr_div_pow2 by lia. assert (k <= Z.log2 x) by (apply Z.log2_le_pow2; lia).
    assert (1 <= x / 2 ^ k) by (apply Z.div_le_lower_bound; lia). assert (x / 2 ^ k < 2 ^ k) by (apply Z.div_lt_upper_bound; lia). lia.
Qed.

Lemma clzsi2_exact a : in_s 32 a -> a <> 0 -> __clzsi2 a = 31 - Z.log2 (wrapu 32 a).
Proof.
  intros Ha H0. pose proof (wrapu_range 32 ltac:(lia) a) as Hu. unfold in_u in Hu.
  pose proof (wrapu_nonzero 32 a ltac:(lia) Ha H0) as Hx.
  unfold __clzsi2. set (x := wrapu 32 a) in *. clearbody x.
  change 0xFFFF0000 with (Z.shiftl (Z.ones 16) 16). change 0xFF00 with (Z.shiftl (Z.ones 8) 8). change 0xF0 with (Z.shiftl (Z.ones 4) 4). change 0xC with (Z.shiftl (Z.ones 2) 2).
  destruct (clz_step_exact 16 x 0 ltac:(lia) ltac:(lia)) as (x1 & r1 & -> & Hx1 & E1).
  destruct (clz_step_exact 8 x1 r1 ltac:(lia) ltac:(lia)) as (x2 & r2 & -> & Hx2 & E2).
  destruct (clz_step_exact 4 x2 r2 ltac:(lia) ltac:(lia)) as (x3 & r3 & -> & Hx3 & E3).
  destruct (clz_step_exact 2 x3 r3 ltac:(lia) ltac:(lia)) as (x4 & r4 & -> & Hx4 & E4).
  pose proof (log2_range 32 x Hx ltac:(unfold in_u; lia)).
  assert (x4 = 1 \/ x4 = 2 \/ x4 = 3) as [-> | [-> | ->]] by lia; cbn [mask Z.land Z.eqb Z.b2z] in *; change (Z.log2 1) with 0 in *; change (Z.log2 2) with 1 in *; change (Z.log2 3) with 1 in *.
  - change (Z.land (wrapu 32 (2 - 1)) (wrapu 32 (mask (Z.land 1 2 =? 0)))) with 1. rewrite wrapu_small by (unfold in_u; lia). lia.
  - change (Z.land (wrapu 32 (2 - 2)) _) with 0. rewrite wrapu_small by (unfold in_u; lia). lia.
  - change (Z.land (wrapu 32 (2 - 3)) (wrapu 32 (mask (Z.land 3 2 =? 0)))) with 0. rewrite wrapu_small by (unfold in_u; lia). lia.
Qed.

Section halves.
Context (h : Z) (Hh : 0 < h) (a : Z) (Ha : in_s (2 * h) a).

Lemma whole : wrapu (2 * h) a = words h (low h a) (wrapu h (high h a)).
Proof. by apply wrapu_words. Qed.
Lemma high_wrap : wrapu h (high h a) = 0 <-> high h a = 0.
Proof.
  split; [|intros ->; unfold wrapu; apply Z.mod_0_l; pose proof (pow_pos h Hh); lia].
  intros E. destruct (Z.eq_dec (high h a) 0) as [|Hn]; [done|]. pose proof (wrapu_nonzero h _ Hh (high_range_s h Hh a Ha) Hn). lia.
Qed.
Lemma high_wrap_nonneg : 0 <= wrapu h (high h a).
Proof. pose proof (wrapu_range h Hh (high h a)) as Hr. unfold in_u in Hr. lia. Qed.
Lemma whole_zero : a = 0 <-> high h a = 0 /\ low h a = 0.
Proof.
  pose proof (words_split h Hh a) as E. unfold words in E. split; [intros ->|intros [E1 E2]; rewrite E1, E2 in E; lia].
  unfold high, low, wrapu. rewrite Z.shiftr_0_l, Z.mod_0_l; [done|]. pose proof (pow_pos h Hh). lia.
Qed.

(** The selection of one of the halves by a mask. *)
Lemma select_half (c : bool) x y : wrapu h (Z.lor (Z.land x (Z.lnot (mask c))) (Z.land y (mask c))) = wrapu h (if c then y else x).
Proof.
  destruct c; unfold mask; cbn [Z.b2z].
  - change (Z.lnot (- (1))) with 0. change (- (1)) with (-1). by rewrite Z.land_0_r, Z.lor_0_l, Z.land_m1_r.
  - change (Z.lnot (- 0)) with (-1). by rewrite Z.land_0_r, Z.lor_0_r, Z.land_m1_r.
Qed.
Lemma mask_width (c : bool) : Z.land (mask c) h = if c then h else 0.
Proof. destruct c; unfold mask; cbn [Z.b2z]; [apply Z.land_m1_l|apply Z.land_0_l]. Qed.

Lemma clz_exact : a <> 0 -> clzXi2 h a = Ret (2 * h - 1 - Z.log2 (wrapu (2 * h) a)).
Proof.
  intros H0. unfold clzXi2. rewrite select_half, mask_width, whole. pose proof high_wrap as Hw. pose proof high_wrap_nonneg. pose proof (low_range h Hh a) as Hl.
  pose proof whole_zero as Hz. unfold builtin_clz. split_eqb (high h a) 0.
  - rewrite (wrapu_small h (low h a)) by done. split_eqb (low h a) 0; [tauto|]. cbn [mbind outcome_bind]. f_equal.
    rewrite (proj2 Hw) by done. unfold words. rewrite Z.mul_0_l, Z.add_0_l. lia.
  - split_eqb (wrapu h (high h a)) 0; [tauto|]. cbn [mbind outcome_bind]. f_equal.
    rewrite (log2_high h (words _ _ _)), high_words by (try done; rewrite high_words by done; lia). lia.
Qed.
End halves.

(** ** Trailing zeros *)

(** The lowest bit that is set. *)
Definition lowest (x c : Z) : Prop := 0 <= c /\ Z.testbit x c = true /\ forall i, 0 <= i < c -> Z.testbit x i = false.

Lemma lowest_pos p : lowest (Z.pos p) (pos_ctz p).
Proof.
  destruct (pos_ctz_spec p) as (H0 & m & Hm & E). rewrite E, Z.mul_comm. split_and!; [done| |].
  - rewrite Z.mul_pow2_bits, Z.sub_diag by done. apply Z.testbit_odd_0.
  - intros i Hi. apply Z.mul_pow2_bits_low. lia.
Qed.
Lemma builtin_ctz_pos x : 0 < x -> exists c, builtin_ctz x = Ret c /\ lowest x c.
Proof. intros Hx. destruct x as [|p|p]; try lia. exists (pos_ctz p). split; [done|apply lowest_pos]. Qed.

(** Bits that are skipped are zero. *)
Lemma lowest_shift x k c : 0 <= k -> x `mod` 2 ^ k = 0 -> lowest (Z.shiftr x k) c -> lowest x (c + k).
Proof.
  intros Hk Hm (H0 & Hb & Hl). split_and!; [lia|by rewrite <- Z.shiftr_spec by done|].
  intros i Hi. destruct (Z.lt_ge_cases i k) as [Hlt|Hge].
  - by rewrite <- (Z.mod_pow2_bits_low x k i Hlt), Hm, Z.bits_0.
  - specialize (Hl (i - k) ltac:(lia)). rewrite Z.shiftr_spec in Hl by lia. by replace (i - k + k) with i in Hl by lia.
Qed.
Lemma lowest_wrap x k c : 0 <= k -> lowest (wrapu k x) c -> lowest x c.
Proof.
  intros Hk (H0 & Hb & Hl). unfold wrapu in *. assert (c < k).
  { destruct (Z.lt_ge_cases c k) as [|Hge]; [done|]. by rewrite Z.mod_pow2_bits_high in Hb by lia. }
  split_and!; [done|by rewrite Z.mod_pow2_bits_low in Hb by done|]. intros i Hi. rewrite <- (Hl i Hi). by rewrite Z.mod_pow2_bits_low by lia.
Qed.

Lemma ctz_step_exact k x r : 0 < k -> x `mod` 2 ^ (2 * k) <> 0 ->
  exists x' t, ctz_step (Z.ones k) k (x, r) = (x', r + t) /\ x' `mod` 2 ^ k <> 0 /\ 0 <= t <= k /\ forall c, lowest x' c -> lowest x (c + t).
Proof.
  intros Hk Hx. unfold ctz_step. rewrite Z.land_ones by lia. split_eqb (x `mod` 2 ^ k) 0.
  - exists (Z.shiftr x k), k. split_and!; [done| |lia|lia|intros c Hc; apply lowest_shift; done || lia].
    intros Hz. apply Hx. rewrite Z.shiftr_div_pow2 in Hz by lia. replace (2 * k) with (k + k) by lia. rewrite Z.pow_add_r, Z.rem_mul_r by (lia || (apply Z.pow_nonzero; lia) || apply Z.pow_pos_nonneg; lia). lia.
  - exists x, 0. rewrite Z.shiftr_0_r. split_and!; [done|done|lia|lia|]. intros c Hc. by rewrite Z.add_0_r.
Qed.

Lemma ctzsi2_exact a : in_s 32 a -> a <> 0 -> lowest a (__ctzsi2 a).
Proof.
  intros Ha H0. apply (lowest_wrap a 32); [lia|]. assert (Hm : wrapu 32 a `mod` 2 ^ (2 * 16) <> 0).
  { pose proof (wrapu_nonzero 32 a ltac:(lia) Ha H0). pose proof (wrapu_range 32 ltac:(lia) a) as Hr. unfold in_u in Hr. rewrite Z.mod_small by lia. lia. }
  unfold __ctzsi2. set (x := wrapu 32 a) in *. clearbody x.
  change 0x0000FFFF with (Z.ones 16). change 0x00FF with (Z.ones 8). change 0x0F with (Z.ones 4). change (ctz_step 3) with (ctz_step (Z.ones 2)).
  destruct (ctz_step_exact 16 x 0 ltac:(lia) Hm) as (x1 & t1 & -> & Hx1 & Ht1 & L1).
  destruct (ctz_step_exact 8 x1 (0 + t1) ltac:(lia) Hx1) as (x2 & t2 & -> & Hx2 & Ht2 & L2).
  destruct (ctz_step_exact 4 x2 (0 + t1 + t2) ltac:(lia) Hx2) as (x3 & t3 & -> & Hx3 & Ht3 & L3).
  destruct (ctz_step_exact 2 x3 (0 + t1 + t2 + t3) ltac:(lia) Hx3) as (x4 & t4 & -> & Hx4 & Ht4 & L4).
  change 3 with (Z.ones 2). rewrite !Z.land_ones by lia. pose proof (Z.mod_pos_bound x4 (2 ^ 2) ltac:(lia)) as Hb.
  assert (Hfin : forall b, lowest x4 b -> 0 <= b < 2 -> lowest x (wrapu 32 (0 + t1 + t2 + t3 + t4 + b))).
  { intros b Hlow Hb2. rewrite wrapu_small by (unfold in_u; lia). apply L4, L3, L2, L1 in Hlow. by replace (0 + t1 + t2 + t3 + t4 + b) with (b + t4 + t3 + t2 + t1) by lia. }
  assert (Hlow : forall b, lowest (x4 `mod` 2 ^ 2) b -> lowest x4 b) by (intros b; apply (lowest_wrap x4 2); lia).
  assert (x4 `mod` 2 ^ 2 = 1 \/ x4 `mod` 2 ^ 2 = 2 \/ x4 `mod` 2 ^ 2 = 3) as [E|[E|E]] by lia; rewrite E in *.
  - apply (Hfin 0); [apply Hlow|lia]. split_and!; [done|done|lia].
  - apply (Hfin 1); [apply Hlow|lia]. split_and!; [done|done|]. intros i Hi. by replace i with 0 by lia.
  - apply (Hfin 0); [apply Hlow|lia]. split_and!; [done|done|lia].
Qed.

Lemma ctz_exact h a : 0 < h -> in_s (2 * h) a -> a <> 0 -> exists c, ctzXi2 h a = Ret c /\ lowest a c.
Proof.
  intros Hh Ha H0. unfold ctzXi2. rewrite Z.lor_comm, (select_half h), mask_width. pose proof (high_wrap h Hh a Ha) as Hw. pose proof (high_wrap_nonneg h Hh a).
  pose proof (whole_zero h Hh a) as Hz. split_eqb (low h a) 0.
  - destruct (builtin_ctz_pos (wrapu h (high h a))) as (c & -> & Hc); [destruct (Z.eq_dec (wrapu h (high h a)) 0); [tauto|lia]|]. cbn [mbind outcome_bind].
    exists (c + h). split; [done|]. apply lowest_shift; [lia|done|]. apply (lowest_wrap _ h); [lia|done].
  - pose proof (low_range h Hh a) as Hl. rewrite (wrapu_small h (low h a)) by done. unfold in_u in Hl.
    destruct (builtin_ctz_pos (low h a)) as (c & -> & Hc); [lia|]. cbn [mbind outcome_bind]. exists (c + 0). rewrite Z.add_0_r. split; [done|]. apply (lowest_wrap _ h); [lia|done].
Qed.

(** The index of the first bit that is set, from 1. *)
Lemma ffs_exact h a : 0 < h -> in_s (2 * h) a -> a <> 0 -> exists c, ffsXi2 h a = Ret (c + 1) /\ lowest a c.
Proof.
  intros Hh Ha H0. pose proof (high_wrap h Hh a Ha) as Hw. pose proof (high_wrap_nonneg h Hh a). pose proof (whole_zero h Hh a) as Hz.
  unfold ffsXi2. pose proof (low_range h Hh a) as Hl. unfold in_u in Hl. split_eqb (low h a) 0.
  - split_eqb (high h a) 0; [tauto|]. destruct (builtin_ctz_pos (wrapu h (high h a))) as (c & -> & Hc); [destruct (Z.eq_dec (wrapu h (high h a)) 0); [tauto|lia]|].
    cbn [mbind outcome_bind]. exists (c + h). split; [f_equal; lia|]. apply lowest_shift; [lia|done|]. apply (lowest_wrap _ h); [lia|done].
  - destruct (builtin_ctz_pos (low h a)) as (c & -> & Hc); [lia|]. cbn [mbind outcome_bind]. exists c. split; [done|]. apply (lowest_wrap _ h); [lia|done].
Qed.
Lemma ffssi2_exact a : in_s 32 a -> a <> 0 -> exists c, __ffssi2 a = Ret (c + 1) /\ lowest a c.
Proof.
  intros Ha H0. unfold __ffssi2. split_eqb a 0; [done|]. destruct (builtin_ctz_pos (wrapu 32 a)) as (c & -> & Hc).
  { by apply wrapu_nonzero. }
  exists c. split; [done|]. apply (lowest_wrap _ 32); [lia|done].
Qed.

(** * Parity, the number of bits that are set and the order of bytes *)

(** The number of bits that are set among the first [n]. *)
Fixpoint count (n : nat) (x : Z) : Z :=
  match n with
  | O => 0
  | S n => x `mod` 2 + count n (x / 2)
  end.

Lemma count_add n m x : count (n + m) x = count n x + count m (x / 2 ^ Z.of_nat n).
Proof.
  revert x. induction n as [|n IH]; intros x; [by rewrite Z.div_1_r|]. cbn [count Nat.add]. rewrite IH.
  rewrite Nat2Z.inj_succ, Z.pow_succ_r, Z.div_div by (lia || apply Z.pow_pos_nonneg; lia). lia.
Qed.
Lemma count_mod n x k : Z.of_nat n <= k -> count n (x `mod` 2 ^ k) = count n x.
Proof.
  revert x k. induction n as [|n IH]; intros x k Hk; [done|]. cbn [count].
  assert (Ek : 2 ^ k = 2 * 2 ^ (k - 1)) by (rewrite <- Z.pow_succ_r by lia; f_equal; lia). assert (0 < 2 ^ (k - 1)) by (apply Z.pow_pos_nonneg; lia).
  rewrite Ek, (Z.rem_mul_r x 2 (2 ^ (k - 1))) by lia. rewrite (Z.mul_comm 2 (_ `mod` _)), Z.mod_add, Z.mod_mod, Z.div_add by lia.
  rewrite (Z.div_small (x `mod` 2)) by (apply Z.mod_pos_bound; lia). by rewrite Z.add_0_l, IH by lia.
Qed.

(** ** Parity *)

Lemma odd_lxor x y : (Z.lxor x y) `mod` 2 = (x + y) `mod` 2.
Proof. rewrite <- !Z.bit0_mod, Z.lxor_spec. rewrite Z.add_bit0. done. Qed.
Lemma count_lxor n x y : count n (Z.lxor x y) `mod` 2 = (count n x + count n y) `mod` 2.
Proof.
  revert x y. induction n as [|n IH]; intros x y; [done|]. cbn [count].
  assert (E : Z.lxor x y / 2 = Z.lxor (x / 2) (y / 2)) by (change 2 with (2 ^ 1); rewrite <- !Z.shiftr_div_pow2 by lia; apply Z.shiftr_lxor).
  rewrite E, Z.add_mod, IH, odd_lxor, Z.mod_mod by lia. rewrite <- Z.add_mod by lia.
  rewrite (Z.add_mod (x `mod` 2 + _)) by lia. rewrite <- (Z.add_mod (x `mod` 2 + _)) by lia. pose proof (Z.add_mod x y 2 ltac:(lia)) as Hxy.
  rewrite <- (Zplus_mod_idemp_l (x + y)), Hxy, Zplus_mod_idemp_l. f_equal. lia.
Qed.
(** The halves of [2 * n] bits are joined. *)
Lemma fold_half n x y : (forall i, 0 <= i < Z.of_nat n -> Z.testbit y i = Z.testbit x (i + Z.of_nat n)) ->
  count n (Z.lxor x y) `mod` 2 = count (n + n) x `mod` 2.
Proof.
  intros Hy. rewrite count_lxor, count_add. do 2 f_equal.
  rewrite <- (count_mod n y (Z.of_nat n)), <- (count_mod n (x / _) (Z.of_nat n)) by lia. f_equal.
  apply Z.bits_inj'. intros i Hi. destruct (Z.lt_ge_cases i (Z.of_nat n)).
  - rewrite !Z.mod_pow2_bits_low, Z.div_pow2_bits by lia. apply Hy. lia.
  - by rewrite !Z.mod_pow2_bits_high by lia.
Qed.
Lemma fold_shift n x : count n (Z.lxor x (Z.shiftr x (Z.of_nat n))) `mod` 2 = count (n + n) x `mod` 2.
Proof. apply fold_half. intros i Hi. apply Z.shiftr_spec. lia. Qed.

Lemma parity_fold_exact x : parity_fold x = count 32 x `mod` 2.
Proof.
  unfold parity_fold. pose proof (fold_shift 16 x) as E16. change (Z.of_nat 16) with 16 in E16. set (x1 := Z.lxor x (Z.shiftr x 16)) in *.
  pose proof (fold_shift 8 x1) as E8. change (Z.of_nat 8) with 8 in E8. set (x2 := Z.lxor x1 (Z.shiftr x1 8)) in *.
  pose proof (fold_shift 4 x2) as E4. change (Z.of_nat 4) with 4 in E4. set (x3 := Z.lxor x2 (Z.shiftr x2 4)) in *.
  change (16 + 16)%nat with 32%nat in E16. change (8 + 8)%nat with 16%nat in E8. change (4 + 4)%nat with 8%nat in E4. rewrite <- E16, <- E8, <- E4.
  rewrite <- (count_mod 4 x3 4) by lia. change 0xF with (Z.ones 4). rewrite Z.land_ones by lia.
  pose proof (Z.mod_pos_bound x3 (2 ^ 4) ltac:(lia)) as Hb. set (y := x3 `mod` 2 ^ 4) in *. clearbody y.
  assert (Hall : forallb (fun k => Z.land (Z.shiftr 0x6996 (Z.of_nat k)) 1 =? count 4 (Z.of_nat k) `mod` 2) (seq 0 16) = true) by done.
  rewrite forallb_forall in Hall. specialize (Hall (Z.to_nat y)). rewrite Z2Nat.id in Hall by lia. apply Z.eqb_eq, Hall, in_seq. lia.
Qed.

Lemma count_wrapu n x k : Z.of_nat n <= k -> count n (wrapu k x) = count n x.
Proof. apply count_mod. Qed.
Lemma count_wraps n x k : 0 < k -> Z.of_nat n <= k -> count n (wraps k x) = count n x.
Proof. intros Hk Hn. rewrite <- (count_wrapu n (wraps k x) k), wrapu_wraps by done. by apply count_wrapu. Qed.
(** The exclusive or of the halves. *)
Lemma count_halves n x : count n (Z.lxor (high (Z.of_nat n) x) (low (Z.of_nat n) x)) `mod` 2 = count (n + n) x `mod` 2.
Proof.
  rewrite count_lxor, count_add. unfold high, low. rewrite count_wrapu, Z.shiftr_div_pow2 by lia. f_equal. lia.
Qed.

Lemma parity_exact a : __paritysi2 a = count 32 a `mod` 2 /\ __paritydi2 a = count 64 a `mod` 2 /\ __parityti2 a = count 128 a `mod` 2.
Proof.
  unfold __paritysi2, __paritydi2, __parityti2. rewrite !parity_fold_exact, !count_wrapu by lia. split_and!; [done|apply (count_halves 32)|].
  rewrite (count_halves 32). change (32 + 32)%nat with 64%nat. rewrite count_wraps by lia. apply (count_halves 64).
Qed.

(** ** Lanes *)

(** An integer from lanes of [w] bits. *)
Fixpoint lanes (w : Z) (ds : list Z) : Z :=
  match ds with
  | [] => 0
  | d :: ds => d + 2 ^ w * lanes w ds
  end.
Fixpoint evens (ds : list Z) : list Z :=
  match ds with
  | d :: _ :: ds => d :: evens ds
  | _ => []
  end.
Fixpoint odds (ds : list Z) : list Z :=
  match ds with
  | _ :: e :: ds => e :: odds ds
  | _ => []
  end.
Fixpoint pairs (ds : list Z) : list Z :=
  match ds with
  | d :: e :: ds => (d + e) :: pairs ds
  | _ => []
  end.
Fixpoint bits (n : nat) (x : Z) : list Z :=
  match n with
  | O => []
  | S n => x `mod` 2 :: bits n (x / 2)
  end.
Definition total (ds : list Z) : Z := foldr Z.add 0 ds.
Definition bounded (m : Z) (ds : list Z) : Prop := Forall (fun d => 0 <= d <= m) ds.

(** Induction on an even number of lanes. *)
Lemma even_ind (P : list Z -> Prop) : P [] -> (forall d e ds, P ds -> P (d :: e :: ds)) -> forall n ds, length ds = (2 * n)%nat -> P ds.
Proof.
  intros H0 H2 n. induction n as [|n IH]; intros ds Hl; destruct ds as [|d [|e ds]]; cbn in Hl; try lia; [done|]. apply H2, IH. lia.
Qed.

Lemma count_bits n x : count n x = total (bits n x).
Proof. revert x. induction n as [|n IH]; intros x; [done|]. cbn. by rewrite IH. Qed.
Lemma bits_lanes n x : 0 <= x < 2 ^ Z.of_nat n -> lanes 1 (bits n x) = x.
Proof.
  revert x. induction n as [|n IH]; intros x Hx; [cbn in *; lia|]. rewrite Nat2Z.inj_succ, Z.pow_succ_r in Hx by lia. cbn [bits lanes].
  pose proof (Z.div_mod x 2 ltac:(lia)). rewrite IH; [lia|]. split; [apply Z.div_pos; lia|apply Z.div_lt_upper_bound; lia].
Qed.
Lemma bits_bounded n x : bounded 1 (bits n x).
Proof.
  revert x. induction n as [|n IH]; intros x; constructor; [|apply IH]. pose proof (Z.mod_pos_bound x 2). lia.
Qed.
Lemma bits_length n x : length (bits n x) = n.
Proof. revert x. induction n as [|n IH]; intros x; [done|]. cbn. by rewrite IH. Qed.

Lemma bounded_le m m' ds : m <= m' -> bounded m ds -> bounded m' ds.
Proof. intros Hm Hb. eapply Forall_impl; [exact Hb|]. cbn. lia. Qed.
Lemma total_pairs n ds : length ds = (2 * n)%nat -> total (pairs ds) = total ds.
Proof. apply (even_ind (fun ds => total (pairs ds) = total ds)); [done|]. intros d e ds' IH. unfold total in *. cbn [pairs foldr]. rewrite IH. lia. Qed.
Lemma pairs_bounded m n ds : length ds = (2 * n)%nat -> bounded m ds -> bounded (2 * m) (pairs ds).
Proof.
  apply (even_ind (fun ds => bounded m ds -> bounded (2 * m) (pairs ds))); [constructor|].
  intros d e ds' IH Hb. apply Forall_cons in Hb as [Hd Hb]. apply Forall_cons in Hb as [He Hb]. constructor; [lia|by apply IH].
Qed.
Lemma pairs_length n ds : length ds = (2 * n)%nat -> length (pairs ds) = n.
Proof.
  revert ds. induction n as [|n IH]; intros ds Hl; destruct ds as [|d [|e ds]]; cbn in Hl; try lia; [done|]. cbn. rewrite IH; lia.
Qed.
Lemma total_bounded m ds : bounded m ds -> 0 <= total ds <= m * Z.of_nat (length ds).
Proof. induction 1 as [|d ds Hd Hb IH]; cbn [total foldr length] in *; [lia|]. fold (total ds). lia. Qed.

Section lane.
Context (w : Z) (Hw : 0 < w).

Lemma lanes_nonneg m ds : bounded m ds -> 0 <= lanes w ds.
Proof. assert (0 < 2 ^ w) by (apply Z.pow_pos_nonneg; lia). induction 1 as [|d ds Hd Hb IH]; cbn [lanes]; nia. Qed.
Lemma lanes_bound ds : bounded (2 ^ w - 1) ds -> lanes w ds < 2 ^ (w * Z.of_nat (length ds)).
Proof.
  assert (0 < 2 ^ w) by (apply Z.pow_pos_nonneg; lia). induction 1 as [|d ds Hd Hb IH]; cbn [lanes length]; [by rewrite Z.mul_0_r|].
  replace (w * Z.of_nat (S (length ds))) with (w + w * Z.of_nat (length ds)) by lia. rewrite Z.pow_add_r by lia. nia.
Qed.

(** The sum of the even and of the odd lanes. *)
Lemma lanes_split n ds : length ds = (2 * n)%nat -> lanes w ds = lanes (2 * w) (evens ds) + 2 ^ w * lanes (2 * w) (odds ds).
Proof.
  apply (even_ind (fun ds => lanes w ds = lanes (2 * w) (evens ds) + 2 ^ w * lanes (2 * w) (odds ds))); [cbn [lanes evens odds]; lia|]. intros d e ds' IH.
  cbn [lanes evens odds]. rewrite IH. assert (E : 2 ^ (2 * w) = 2 ^ w * 2 ^ w) by (by apply pow_double). rewrite E. lia.
Qed.
Lemma lanes_pairs n ds : length ds = (2 * n)%nat -> lanes (2 * w) (pairs ds) = lanes (2 * w) (evens ds) + lanes (2 * w) (odds ds).
Proof.
  apply (even_ind (fun ds => lanes (2 * w) (pairs ds) = lanes (2 * w) (evens ds) + lanes (2 * w) (odds ds))); [done|]. intros d e ds' IH.
  cbn [lanes evens odds pairs]. rewrite IH. lia.
Qed.

(** The mask of the even lanes. *)
Lemma land_join lo hi mlo mhi k : 0 <= k -> 0 <= lo < 2 ^ k -> 0 <= mlo < 2 ^ k ->
  Z.land (lo + 2 ^ k * hi) (mlo + 2 ^ k * mhi) = Z.land lo mlo + 2 ^ k * Z.land hi mhi.
Proof.
  intros Hk Hl Hm. assert (Hp : 0 < 2 ^ k) by (apply Z.pow_pos_nonneg; lia).
  assert (Hs : forall l x, 0 <= l < 2 ^ k -> (l + 2 ^ k * x) `mod` 2 ^ k = l /\ (l + 2 ^ k * x) / 2 ^ k = x).
  { intros l x Hx. rewrite (Z.mul_comm (2 ^ k)), Z.mod_add, Z.div_add, Z.mod_small, Z.div_small by lia. lia. }
  rewrite (Z.div_mod (Z.land (lo + 2 ^ k * hi) _) (2 ^ k)) by lia.
  rewrite <- !Z.land_ones, <- Z.shiftr_div_pow2, Z.shiftr_land, !Z.shiftr_div_pow2 by lia. destruct (Hs lo hi Hl) as [E1 ->], (Hs mlo mhi Hm) as [E2 ->].
  assert (E : Z.land (Z.land (lo + 2 ^ k * hi) (mlo + 2 ^ k * mhi)) (Z.ones k) = Z.land lo mlo); [|rewrite E; lia].
  rewrite <- E1, <- E2 at 2. rewrite <- !Z.land_ones by lia. rewrite !Z.land_assoc. apply Z.bits_inj'. intros i Hi. rewrite !Z.land_spec.
  repeat match goal with |- context [Z.testbit ?x i] => destruct (Z.testbit x i) end; done.
Qed.
Lemma even_lanes n ds : length ds = (2 * n)%nat -> bounded (2 ^ w - 1) ds ->
  Z.land (lanes w ds) (lanes (2 * w) (replicate n (2 ^ w - 1))) = lanes (2 * w) (evens ds).
Proof.
  revert ds. assert (Hp : 0 < 2 ^ w) by (apply Z.pow_pos_nonneg; lia). assert (E : 2 ^ (2 * w) = 2 ^ w * 2 ^ w) by (by apply pow_double).
  induction n as [|n IH]; intros ds Hl Hb; destruct ds as [|d [|e ds]]; cbn in Hl; try lia; [done|].
  apply Forall_cons in Hb as [Hd Hb]. apply Forall_cons in Hb as [He Hb]. cbn [lanes evens replicate].
  replace (d + 2 ^ w * (e + 2 ^ w * lanes w ds)) with ((d + 2 ^ w * e) + 2 ^ (2 * w) * lanes w ds) by lia.
  rewrite land_join by nia. rewrite IH by (done || lia). f_equal.
  rewrite (Z.mul_comm (2 ^ w)), <- (Z.ones_equiv w) || (replace (2 ^ w - 1) with (Z.ones w) by (rewrite Z.ones_equiv; lia)).
  rewrite Z.land_ones by lia. rewrite (Z.mul_comm (2 ^ w)), Z.mod_add, Z.mod_small by lia. done.
Qed.

(** A shift by one lane. *)
Definition next (ds : list Z) : list Z := tail ds ++ [0].
Lemma lanes_next d ds : 0 <= d < 2 ^ w -> Z.shiftr (lanes w (d :: ds)) w = lanes w (next (d :: ds)).
Proof.
  intros Hd. cbn [lanes next tail]. rewrite Z.shiftr_div_pow2, (Z.mul_comm (2 ^ w)), Z.div_add, Z.div_small, Z.add_0_l by lia.
  clear. induction ds as [|e ds IH]; cbn in *; [lia|]. by rewrite <- IH.
Qed.
Lemma next_length d ds : length (next (d :: ds)) = length (d :: ds).
Proof. unfold next. cbn. rewrite length_app. cbn. lia. Qed.
Lemma next_bounded m ds : 0 <= m -> bounded m ds -> bounded m (next ds).
Proof. intros Hm Hb. unfold next. apply Forall_app. split; [by apply Forall_tail|]. constructor; [lia|constructor]. Qed.
Lemma evens_next n ds : length ds = (2 * n)%nat -> ds <> [] -> evens (next ds) = odds ds.
Proof.
  revert ds. induction n as [|n IH]; intros ds Hl Hne; destruct ds as [|d [|e ds]]; cbn in Hl; try lia; [done|]. unfold next. cbn [tail app evens odds].
  destruct ds as [|f ds]; [done|]. cbn [app]. f_equal. apply (IH (f :: ds)); [cbn in *; lia|done].
Qed.

Lemma odd_lanes n ds : length ds = (2 * n)%nat -> bounded (2 ^ w - 1) ds ->
  Z.land (Z.shiftr (lanes w ds) w) (lanes (2 * w) (replicate n (2 ^ w - 1))) = lanes (2 * w) (odds ds).
Proof.
  intros Hl Hb. assert (Hp : 0 < 2 ^ w) by (apply Z.pow_pos_nonneg; lia). destruct ds as [|d ds]; [cbn [lanes odds]; by rewrite Z.shiftr_0_l, Z.land_0_l|].
  assert (Hd : 0 <= d < 2 ^ w) by (apply Forall_cons in Hb as [Hd _]; lia).
  rewrite lanes_next by done. rewrite (even_lanes n); [|by rewrite next_length|apply next_bounded; [lia|done]]. by rewrite (evens_next n).
Qed.

(** Neighbouring lanes are added. *)
Lemma lanes_add ds es : length ds = length es -> lanes w (zip_with Z.add ds es) = lanes w ds + lanes w es.
Proof. revert es. induction ds as [|d ds IH]; intros [|e es] Hl; cbn in *; try lia. rewrite IH by lia. lia. Qed.
Lemma add_bounded m ds es : bounded m ds -> bounded m es -> bounded (2 * m) (zip_with Z.add ds es).
Proof.
  intros Hd. revert es. induction Hd as [|d ds Hd Hds IH]; intros es He; [constructor|]. destruct es as [|e es]; [constructor|].
  apply Forall_cons in He as [He Hes]. cbn. constructor; [lia|by apply IH].
Qed.
Lemma evens_add n ds : length ds = (2 * n)%nat -> evens (zip_with Z.add ds (next ds)) = pairs ds.
Proof.
  revert ds. induction n as [|n IH]; intros ds Hl; destruct ds as [|d [|e ds]]; cbn in Hl; try lia; [done|]. unfold next. cbn [tail app zip_with pairs].
  destruct ds as [|f ds]; [done|]. cbn [app zip_with evens]. f_equal. apply (IH (f :: ds)). cbn in *. lia.
Qed.
End lane.

(** ** The number of bits that are set *)

Section swar.
Context (m : nat) (Hm : (0 < m)%nat).
Local Notation N := (8 * Z.of_nat m).

(** Lanes are an integer of the width. *)
Lemma lanes_width w k ds : 0 < w -> length ds = k -> w * Z.of_nat k = N -> bounded (2 ^ w - 1) ds -> wrapu N (lanes w ds) = lanes w ds.
Proof.
  intros Hw Hl HN Hb. apply wrapu_small. pose proof (lanes_nonneg w Hw _ _ Hb). pose proof (lanes_bound w Hw _ Hb) as Hlt. rewrite Hl, HN in Hlt. by split.
Qed.

Lemma swar_exact x : in_u N x ->
  let x1 := wrapu N (x - Z.land (Z.shiftr x 1) (lanes (2 * 1) (replicate (4 * m) (2 ^ 1 - 1)))) in
  let x2 := wrapu N (Z.land (Z.shiftr x1 2) (lanes (2 * 2) (replicate (2 * m) (2 ^ 2 - 1))) + Z.land x1 (lanes (2 * 2) (replicate (2 * m) (2 ^ 2 - 1)))) in
  let x3 := Z.land (wrapu N (x2 + Z.shiftr x2 4)) (lanes (2 * 4) (replicate m (2 ^ 4 - 1))) in
  exists ds, x3 = lanes 8 ds /\ length ds = m /\ bounded 8 ds /\ total ds = count (8 * m) x.
Proof.
  intros Hx x1 x2 x3. set (b0 := bits (8 * m) x).
  assert (L0 : length b0 = (2 * (4 * m))%nat) by (unfold b0; rewrite bits_length; lia). assert (B0 : bounded (2 ^ 1 - 1) b0) by apply bits_bounded.
  assert (E0 : lanes 1 b0 = x) by (apply bits_lanes; unfold in_u in Hx; by replace (Z.of_nat (8 * m)) with N by lia).
  set (b1 := pairs b0). assert (L1 : length b1 = (2 * (2 * m))%nat) by (unfold b1; rewrite (pairs_length _ _ L0); lia).
  assert (B1 : bounded 2 b1) by (apply (pairs_bounded 1 _ _ L0 B0)). assert (B1' : bounded (2 ^ 2 - 1) b1) by (by apply (bounded_le 2)).
  assert (E1 : x1 = lanes 2 b1).
  { unfold x1. rewrite <- E0 at 2. rewrite (odd_lanes 1 ltac:(lia) (4 * m)) by done. rewrite <- E0, (lanes_split 1 ltac:(lia) _ _ L0) at 1.
    change (2 ^ 1) with 2. replace (_ + 2 * _ - _) with (lanes (2 * 1) (evens b0) + lanes (2 * 1) (odds b0)) by lia.
    rewrite <- (lanes_pairs 1 _ _ L0). apply (lanes_width 2 (4 * m)); try done; lia. }
  set (b2 := pairs b1). assert (L2 : length b2 = (2 * m)%nat) by (unfold b2; by rewrite (pairs_length _ _ L1)).
  assert (B2 : bounded 4 b2) by (apply (pairs_bounded 2 _ _ L1 B1)). assert (B2' : bounded (2 ^ 4 - 1) b2) by (by apply (bounded_le 4)).
  assert (E2 : x2 = lanes 4 b2).
  { unfold x2. rewrite E1, (odd_lanes 2 ltac:(lia) (2 * m)), (even_lanes 2 ltac:(lia) (2 * m)) by done.
    rewrite Z.add_comm, <- (lanes_pairs 2 _ _ L1). apply (lanes_width 4 (2 * m)); try done; lia. }
  exists (pairs b2). assert (E3 : x2 + Z.shiftr x2 4 = lanes 4 (zip_with Z.add b2 (next b2))).
  { rewrite E2. clearbody b2. destruct b2 as [|d ds]; [cbn in L2; lia|]. assert (Hd : 0 <= d < 2 ^ 4) by (apply Forall_cons in B2' as [? _]; lia).
    rewrite lanes_next, lanes_add by (done || by rewrite next_length). done. }
  assert (L3 : length (zip_with Z.add b2 (next b2)) = (2 * m)%nat).
  { clearbody b2. destruct b2 as [|d ds]; [cbn in L2; lia|]. rewrite length_zip_with_l_eq; [done|by rewrite next_length]. }
  assert (B3 : bounded (2 ^ 4 - 1) (zip_with Z.add b2 (next b2))) by (apply (bounded_le 8); [lia|]; apply (add_bounded 4); [done|by apply next_bounded]).
  split_and!.
  - unfold x3. rewrite E3, (lanes_width 4 (2 * m)) by (done || lia). rewrite (even_lanes 4 ltac:(lia) m), (evens_add m) by done. done.
  - by apply pairs_length.
  - by apply (pairs_bounded 4 m).
  - rewrite (total_pairs m b2 L2). unfold b2. rewrite (total_pairs _ b1 L1). unfold b1. rewrite (total_pairs _ b0 L0). symmetry. apply count_bits.
Qed.
End swar.

(** The sum of four lanes. *)
Lemma sum_four x ds t k : x = lanes 8 ds -> length ds = 4%nat -> bounded 255 ds -> total ds = t -> 0 <= t < 2 ^ k -> 0 <= k <= 8 ->
  Z.land (wrapu 32 (wrapu 32 (x + Z.shiftr x 16) + Z.shiftr (wrapu 32 (x + Z.shiftr x 16)) 8)) (Z.ones k) = t.
Proof.
  intros Ex Hl Hb Ht Hk0 Hk. destruct ds as [|a [|b [|c [|d [|]]]]]; cbn in Hl; try lia.
  repeat (apply Forall_cons in Hb as [? Hb]). cbn [total foldr] in Ht.
  assert (Ex' : x = a + 256 * b + 65536 * c + 16777216 * d) by (rewrite Ex; cbn; lia). clear Ex.
  assert (2 ^ k <= 2 ^ 8) by (apply Z.pow_le_mono_r; lia).
  assert (E16 : Z.shiftr x 16 = c + 256 * d) by (rewrite Z.shiftr_div_pow2 by lia; symmetry; apply (Z.div_unique _ _ _ (a + 256 * b)); lia).
  rewrite E16. set (y := x + (c + 256 * d)).
  assert (Hy : exists z, wrapu 32 y = (a + c) + 256 * (b + d) + 65536 * z).
  { exists ((y `mod` 2 ^ 32) / 65536 - (((a + c) + 256 * (b + d)) / 65536)). unfold wrapu.
    pose proof (Z.div_mod y (2 ^ 32) ltac:(lia)). pose proof (Z.div_mod (y `mod` 2 ^ 32) 65536 ltac:(lia)). pose proof (Z.div_mod (a + c + 256 * (b + d)) 65536 ltac:(lia)).
    assert (E : (y `mod` 2 ^ 32) `mod` 65536 = (a + c + 256 * (b + d)) `mod` 65536).
    { change (2 ^ 32) with (65536 * 65536). rewrite Z.mod_mod_divide by (by exists 65536).
      unfold y. rewrite Ex'. replace (a + 256 * b + 65536 * c + 16777216 * d + (c + 256 * d)) with (a + c + 256 * (b + d) + (c + 256 * d) * 65536) by lia. apply Z.mod_add. lia. }
    lia. }
  destruct Hy as [z ->].
  assert (E8 : Z.shiftr (a + c + 256 * (b + d) + 65536 * z) 8 = b + d + 256 * z).
  { rewrite Z.shiftr_div_pow2 by lia. change (2 ^ 8) with 256. symmetry. apply (Z.div_unique _ _ _ (a + c)); lia. }
  rewrite E8, Z.land_ones by lia. unfold wrapu.
  rewrite Z.mod_mod_divide.
  - assert (E256 : exists q, 256 = q * 2 ^ k) by (exists (2 ^ (8 - k)); rewrite <- Z.pow_add_r by lia; change 256 with (2 ^ 8); f_equal; lia). destruct E256 as [q Eq].
    replace (a + c + 256 * (b + d) + 65536 * z + (b + d + 256 * z)) with (t + (b + d + 257 * z) * q * 2 ^ k) by (rewrite <- Ht; rewrite <- (Z.mul_assoc _ q), <- Eq; lia).
    rewrite Z.mod_add by (apply Z.pow_nonzero; lia). by apply Z.mod_small.
  - exists (2 ^ (32 - k)). rewrite <- Z.pow_add_r by lia. f_equal. lia.
Qed.

(** The halves of an even number of lanes are added. *)
Lemma lanes_app w xs ys : 0 < w -> lanes w (xs ++ ys) = lanes w xs + 2 ^ (w * Z.of_nat (length xs)) * lanes w ys.
Proof.
  intros Hw. induction xs as [|x xs IH]; [rewrite Z.mul_0_r; cbn [app lanes length]; lia|]. cbn [app lanes length]. rewrite IH.
  replace (w * Z.of_nat (S (length xs))) with (w + w * Z.of_nat (length xs)) by lia. rewrite Z.pow_add_r by lia. lia.
Qed.
Lemma total_app xs ys : total (xs ++ ys) = total xs + total ys.
Proof. unfold total. induction xs as [|x xs IH]; [done|]. cbn [app foldr]. rewrite IH. lia. Qed.
Lemma total_add xs ys : length xs = length ys -> total (zip_with Z.add xs ys) = total xs + total ys.
Proof. unfold total. revert ys. induction xs as [|x xs IH]; intros [|y ys] Hl; cbn in *; try lia. rewrite IH by lia. lia. Qed.

Lemma fold_lanes j N ds m x : (0 < j)%nat -> N = 8 * Z.of_nat j -> x = lanes 8 ds -> length ds = (j + j)%nat -> bounded m ds -> 2 * m <= 255 ->
  exists es, wrapu N (wrapu (2 * N) (x + Z.shiftr x N)) = lanes 8 es /\ length es = j /\ bounded (2 * m) es /\ total es = total ds.
Proof.
  intros Hj -> -> Hl Hb Hm. rewrite <- (take_drop j ds) in Hb |- *. set (xs := take j ds) in *. set (ys := drop j ds) in *.
  assert (Hx : length xs = j) by (unfold xs; rewrite length_take; lia). assert (Hy : length ys = j) by (unfold ys; rewrite length_drop; lia).
  apply Forall_app in Hb as [Hbx Hby]. exists (zip_with Z.add xs ys).
  assert (Hb : bounded (2 * m) (zip_with Z.add xs ys)) by (by apply add_bounded).
  split_and!; [|rewrite length_zip_with_l_eq; lia|done|rewrite total_app, total_add; lia].
  set (N := 8 * Z.of_nat j). assert (0 < N) by (unfold N; lia). assert (HN : 0 < 2 ^ N) by (apply Z.pow_pos_nonneg; lia).
  assert (Hxs : 0 <= lanes 8 xs < 2 ^ N).
  { split; [by apply (lanes_nonneg 8 ltac:(lia) m)|]. unfold N. rewrite <- Hx. apply lanes_bound; [lia|]. apply (bounded_le m); [lia|done]. }
  assert (Es : Z.shiftr (lanes 8 (xs ++ ys)) N = lanes 8 ys).
  { rewrite lanes_app, Hx by lia. fold N. rewrite Z.shiftr_div_pow2, (Z.mul_comm (2 ^ N)), Z.div_add, Z.div_small by lia. lia. }
  rewrite Es, lanes_app, Hx by lia. fold N. unfold wrapu. rewrite Z.mod_mod_divide by (exists (2 ^ N); rewrite <- Z.pow_add_r by lia; f_equal; lia).
  replace (lanes 8 xs + 2 ^ N * lanes 8 ys + lanes 8 ys) with (lanes 8 xs + lanes 8 ys + lanes 8 ys * 2 ^ N) by lia.
  rewrite Z.mod_add, <- lanes_add by lia. apply (lanes_width j 8 j); try done; try lia; [rewrite length_zip_with_l_eq; lia|].
  apply (bounded_le (2 * m)); [lia|done].
Qed.

Lemma popcountsi2_exact a : __popcountsi2 a = count 32 a.
Proof.
  unfold __popcountsi2. destruct (swar_exact 4 ltac:(lia) (wrapu 32 a) (wrapu_range 32 ltac:(lia) a)) as (ds & E & Hl & Hb & Ht). cbv zeta in *.
  change (8 * 4)%nat with 32%nat in Ht. rewrite count_wrapu in Ht by lia. pose proof (total_bounded _ _ Hb) as Hr. rewrite Hl in Hr.
  apply (sum_four _ ds (count 32 a) 6 E Hl); [|lia|lia|lia]. by apply (bounded_le 8).
Qed.
Lemma popcountdi2_exact a : __popcountdi2 a = count 64 a.
Proof.
  unfold __popcountdi2. destruct (swar_exact 8 ltac:(lia) (wrapu 64 a) (wrapu_range 64 ltac:(lia) a)) as (ds & E & Hl & Hb & Ht). cbv zeta in *.
  change (8 * 8)%nat with 64%nat in Ht. rewrite count_wrapu in Ht by lia. pose proof (total_bounded _ _ Hb) as Hr. rewrite Hl in Hr.
  destruct (fold_lanes 4 32 ds 8 _ ltac:(lia) eq_refl E Hl Hb ltac:(lia)) as (es & E' & Hl' & Hb' & Ht').
  apply (sum_four _ es (count 64 a) 7 E' Hl'); [|lia|lia|lia]. by apply (bounded_le 16).
Qed.
Lemma popcountti2_exact a : __popcountti2 a = count 128 a.
Proof.
  unfold __popcountti2. destruct (swar_exact 16 ltac:(lia) (wrapu 128 a) (wrapu_range 128 ltac:(lia) a)) as (ds & E & Hl & Hb & Ht). cbv zeta in *.
  change (8 * 16)%nat with 128%nat in Ht. rewrite count_wrapu in Ht by lia. pose proof (total_bounded _ _ Hb) as Hr. rewrite Hl in Hr.
  destruct (fold_lanes 8 64 ds 8 _ ltac:(lia) eq_refl E Hl Hb ltac:(lia)) as (es & E' & Hl' & Hb' & Ht').
  destruct (fold_lanes 4 32 es 16 _ ltac:(lia) eq_refl E' Hl' Hb' ltac:(lia)) as (fs & E'' & Hl'' & Hb'' & Ht'').
  apply (sum_four _ fs (count 128 a) 8 E'' Hl''); [|lia|lia|lia]. by apply (bounded_le 32).
Qed.

(** ** The order of bytes *)

Lemma bswapsi2_exact bs : length bs = 4%nat -> Forall is_byte bs -> __bswapsi2 (le_load bs) = le_load (rev bs).
Proof.
  intros Hl Hb. rewrite <- endswap32_rev by done. unfold __bswapsi2, endswap32. rewrite !Z.shiftr_land, !Z.shiftl_land. done.
Qed.
Lemma bswapdi2_exact bs : length bs = 8%nat -> Forall is_byte bs -> __bswapdi2 (le_load bs) = le_load (rev bs).
Proof.
  intros Hl Hb. rewrite <- endswap64_rev by done. unfold __bswapdi2, endswap64. rewrite !Z.shiftr_land, !Z.shiftl_land. done.
Qed.

(** ** Every routine that counts bits *)

(** At each width, the routines that count bits are exact: the leading zeros are those
    before the highest bit that is set, [lowest] is the index of the lowest one for the
    trailing zeros, and its successor for the first bit that is set; the population count is
    the number of bits that are set, and the parity its remainder modulo 2. *)
Theorem bit_counts a :
  (a <> 0 -> in_s 32 a -> __clzsi2 a = 31 - Z.log2 (wrapu 32 a) /\ lowest a (__ctzsi2 a) /\ exists c, __ffssi2 a = Ret (c + 1) /\ lowest a c) /\
  (a <> 0 -> in_s 64 a -> __clzdi2 a = Ret (63 - Z.log2 (wrapu 64 a))
     /\ (exists c, __ctzdi2 a = Ret c /\ lowest a c) /\ exists c, __ffsdi2 a = Ret (c + 1) /\ lowest a c) /\
  (a <> 0 -> in_s 128 a -> __clzti2 a = Ret (127 - Z.log2 (wrapu 128 a))
     /\ (exists c, __ctzti2 a = Ret c /\ lowest a c) /\ exists c, __ffsti2 a = Ret (c + 1) /\ lowest a c) /\
  (__popcountsi2 a = count 32 a /\ __popcountdi2 a = count 64 a /\ __popcountti2 a = count 128 a) /\
  (__paritysi2 a = count 32 a `mod` 2 /\ __paritydi2 a = count 64 a `mod` 2 /\ __parityti2 a = count 128 a `mod` 2).
Proof.
  split; [|split; [|split; [|split]]]; [intros H0 Ha..| |].
  - split_and!; [by apply clzsi2_exact|by apply ctzsi2_exact|by apply ffssi2_exact].
  - split_and!; [by apply (clz_exact 32)|by apply (ctz_exact 32)|by apply (ffs_exact 32)].
  - split_and!; [by apply (clz_exact 64)|by apply (ctz_exact 64)|by apply (ffs_exact 64)].
  - exact (conj (popcountsi2_exact a) (conj (popcountdi2_exact a) (popcountti2_exact a))).
  - exact (parity_exact a).
Qed.
Lemma bit_counts_witness : __clzdi2 (2 ^ 40 + 5) = Ret 23 /\ __popcountdi2 (2 ^ 40 + 5) = 3 /\ __paritysi2 (-1) = 0.
Proof.
  assert (Ha : in_s 64 (2 ^ 40 + 5)) by (unfold in_s; lia). destruct (bit_counts (2 ^ 40 + 5)) as (_ & H & _ & Hp & _).
  destruct (H ltac:(lia) Ha) as [Hc _]. destruct (bit_counts (-1)) as (_ & _ & _ & _ & Hq & _).
  split_and!; [rewrite Hc; reflexivity|rewrite (proj1 (proj2 Hp)); reflexivity|rewrite Hq; reflexivity].
Defined.
