(* ===== verification/Pe.v ===== *)
(** * PE executables: common/lib/pe.c

    The loader of 64-bit PE images: the checks of the headers, the copying of the headers
    and sections into memory the allocator provides, the relocation, and the ranges that
    are reported to the boot protocol.

    The file is a list of bytes, and a read outside of it is [Undef].  The image is
    written to [ram] of the allocator's state.  The import and relocation directories are
    read from there, as the code does: a relocation can change the table it is read from.
    Pointers and [size_t] are 64 bits wide. *)

From S2P Require Import Prelude Bytes Libc Memmap Pmm Elf.

(** ** Headers *)

Definition IMAGE_DOS_SIGNATURE : Z := 0x5a4d.
Definition IMAGE_FILE_MACHINE_I386 : Z := 0x14c.
Definition IMAGE_FILE_MACHINE_AMD64 : Z := 0x8664.
Definition IMAGE_FILE_MACHINE_ARM64 : Z := 0xaa64.
Definition IMAGE_FILE_MACHINE_RISCV64 : Z := 0x5064.
Definition IMAGE_FILE_MACHINE_LOONGARCH64 : Z := 0x6264.
Definition IMAGE_FILE_RELOCS_STRIPPED : Z := 1.
Definition IMAGE_NT_OPTIONAL_HDR64_MAGIC : Z := 0x20b.
Definition IMAGE_NT_SIGNATURE : Z := 0x4550.
Definition IMAGE_SCN_MEM_EXECUTE : Z := 0x20000000.
Definition IMAGE_SCN_MEM_READ : Z := 0x40000000.
Definition IMAGE_SCN_MEM_WRITE : Z := 0x80000000.
Definition IMAGE_REL_BASED_ABSOLUTE : Z := 0.
Definition IMAGE_REL_BASED_HIGHLOW : Z := 3.
Definition IMAGE_REL_BASED_DIR64 : Z := 10.

(** The sizes of [IMAGE_DOS_HEADER], [IMAGE_NT_HEADERS64], [IMAGE_SECTION_HEADER],
    [IMAGE_IMPORT_DESCRIPTOR] and [IMAGE_BASE_RELOCATION_BLOCK]. *)
Definition dos_size : Z := 64.
Definition nt_size : Z := 264.
Definition section_size : Z := 40.
Definition import_size : Z := 20.
Definition block_header : Z := 8.

Record data_directory := { dir_VirtualAddress : Z; dir_Size : Z }.
Record nt_headers := {
  Signature : Z; Machine : Z; NumberOfSections : Z; SizeOfOptionalHeader : Z; Characteristics : Z;
  Magic : Z; AddressOfEntryPoint : Z; ImageBase : Z; SectionAlignment : Z; SizeOfImage : Z; SizeOfHeaders : Z;
  NumberOfRvaAndSizes : Z; import_dir : data_directory; reloc_dir : data_directory
}.
Definition load_nt (bs : list Z) : nt_headers :=
  {| Signature := field 0 4 bs; Machine := field 4 2 bs; NumberOfSections := field 6 2 bs; SizeOfOptionalHeader := field 20 2 bs;
     Characteristics := field 22 2 bs; Magic := field 24 2 bs; AddressOfEntryPoint := field 40 4 bs; ImageBase := field 48 8 bs;
     SectionAlignment := field 56 4 bs; SizeOfImage := field 80 4 bs; SizeOfHeaders := field 84 4 bs;
     NumberOfRvaAndSizes := field 132 4 bs;
     import_dir := {| dir_VirtualAddress := field 144 4 bs; dir_Size := field 148 4 bs |};
     reloc_dir := {| dir_VirtualAddress := field 176 4 bs; dir_Size := field 180 4 bs |} |}.

Record section_header := { VirtualSize : Z; VirtualAddress : Z; SizeOfRawData : Z; PointerToRawData : Z; sec_Characteristics : Z }.
Definition load_section (bs : list Z) : section_header :=
  {| VirtualSize := field 8 4 bs; VirtualAddress := field 12 4 bs; SizeOfRawData := field 16 4 bs; PointerToRawData := field 20 4 bs;
     sec_Characteristics := field 36 4 bs |}.

(** The machine that is compiled for. *)
Record pe_target := { pe_machine : Z; machine_msg : string }.
Definition pe_x86_64 : pe_target := {| pe_machine := IMAGE_FILE_MACHINE_AMD64; machine_msg := "pe: Not an x86-64 PE file" |}.
Definition pe_aarch64 : pe_target := {| pe_machine := IMAGE_FILE_MACHINE_ARM64; machine_msg := "pe: Not an ARM64 PE file" |}.
Definition pe_riscv : pe_target := {| pe_machine := IMAGE_FILE_MACHINE_RISCV64; machine_msg := "pe: Not a RISC-V PE file" |}.
Definition pe_loongarch : pe_target := {| pe_machine := IMAGE_FILE_MACHINE_LOONGARCH64; machine_msg := "pe: Not a loongarch64 PE file" |}.

Definition pe64_validate (t : pe_target) (image : list Z) : outcome () :=
  let file_size := Z.of_nat (length image) in
  if file_size <? dos_size then Panic "pe: File too small for DOS header"
  else
    e_magic ← rd image 0 2;
    if negb (e_magic =? IMAGE_DOS_SIGNATURE) then Panic "pe: Not a valid PE file"
    else if file_size <? nt_size then Panic "pe: File too small for NT headers"
    else
      e_lfanew ← rd image 60 4;
      if file_size - nt_size <? e_lfanew then Panic "pe: e_lfanew offset out of bounds"
      else
        bs ← fetch image e_lfanew nt_size;
        let nt := load_nt bs in
        if negb (nt.(Signature) =? IMAGE_NT_SIGNATURE) then Panic "pe: Not a valid PE file"
        else if negb (nt.(Magic) =? IMAGE_NT_OPTIONAL_HDR64_MAGIC) then Panic "pe: Not a valid PE32+ file"
        else if negb (nt.(Machine) =? t.(pe_machine)) then Panic t.(machine_msg)
        else Ret ().

Definition pe_bits (image : list Z) : outcome Z :=
  let image_size := Z.of_nat (length image) in
  if image_size <? dos_size then Ret (-1)
  else
    e_magic ← rd image 0 2;
    if negb (e_magic =? IMAGE_DOS_SIGNATURE) then Ret (-1)
    else if image_size <? nt_size then Ret (-1)
    else
      e_lfanew ← rd image 60 4;
      if image_size - nt_size <? e_lfanew then Ret (-1)
      else
        bs ← fetch image e_lfanew nt_size;
        let nt := load_nt bs in
        if negb (nt.(Signature) =? IMAGE_NT_SIGNATURE) then Ret (-1)
        else if nt.(Machine) =? IMAGE_FILE_MACHINE_I386 then Ret 32
        else if (nt.(Machine) =? IMAGE_FILE_MACHINE_AMD64) || (nt.(Machine) =? IMAGE_FILE_MACHINE_ARM64)
                || (nt.(Machine) =? IMAGE_FILE_MACHINE_RISCV64) || (nt.(Machine) =? IMAGE_FILE_MACHINE_LOONGARCH64) then Ret 64
        else Ret (-1).

(** The section headers from number [i], [k] of them. *)
Fixpoint read_sections (image : list Z) (off : Z) (k : nat) : outcome (list section_header) :=
  match k with
  | O => Ret []
  | S k =>
      bs ← fetch image off section_size;
      rest ← read_sections image (off + section_size) k;
      Ret (load_section bs :: rest)
  end.

(** The headers, after the checks at the start of [pe64_load]. *)
Definition pe_headers (t : pe_target) (image : list Z) : outcome (nt_headers * list section_header) :=
  _ ← pe64_validate t image;
  e_lfanew ← rd image 60 4;
  bs ← fetch image e_lfanew nt_size;
  let nt := load_nt bs in
  let sections_offset := u64 (e_lfanew + 4 + 20 + nt.(SizeOfOptionalHeader)) in
  let sections_end := u64 (sections_offset + u64 (nt.(NumberOfSections) * section_size)) in
  if Z.of_nat (length image) <? sections_end then Panic "pe: Section headers extend beyond file bounds"
  else
    sections ← read_sections image sections_offset (Z.to_nat nt.(NumberOfSections));
    Ret (nt, sections).

(** ** Memory *)

Definition read_mem (n : nat) (r : Z -> Z) (p : Z) : Z := le_load (r <$> seqZ p (Z.of_nat n)).
(** [*p += x] for an integer of [n] bytes. *)
Definition add_mem (n : nat) (r : Z -> Z) (p x : Z) : Z -> Z :=
  copy_to r p (le_store n (read_mem n r p + x)).

(** ** Sections *)

Definition section_raw_size (s : section_header) : Z :=
  if s.(VirtualSize) <? s.(SizeOfRawData) then s.(VirtualSize) else s.(SizeOfRawData).

Fixpoint copy_sections (image : list Z) (physical_base image_size : Z) (sections : list section_header) (mem : Z -> Z) : outcome (Z -> Z) :=
  match sections with
  | [] => Ret mem
  | s :: sections =>
      let n := section_raw_size s in
      if image_size <? s.(VirtualAddress) + n then Panic "pe: Section exceeds image bounds"
      else if Z.of_nat (length image) <? s.(PointerToRawData) + n then Panic "pe: Section data extends beyond file bounds"
      else
        bs ← fetch image s.(PointerToRawData) n;
        copy_sections image physical_base image_size sections (copy_to mem (u64 (physical_base + s.(VirtualAddress))) bs)
  end.

(** ** Relocations *)

(** How many bytes a relocation of a type writes. *)
Definition write_size (lower_to_higher : bool) (type : Z) : outcome nat :=
  if type =? IMAGE_REL_BASED_HIGHLOW then
    if lower_to_higher then Panic "pe: 32-bit relocations are incompatible with higher-half loading" else Ret 4%nat
  else if type =? IMAGE_REL_BASED_DIR64 then Ret 8%nat
  else Panic "pe: Unsupported relocation type".

(** The entries of the block at [block] from number [i], [k] of them.  The address of
    the block is compared as it is in memory now; [block_base] is from before the loop. *)
Fixpoint reloc_entries (lower_to_higher : bool) (image_size slide block block_base : Z) (k : nat) (i : Z) (mem : Z -> Z) : outcome (Z -> Z) :=
  match k with
  | O => Ret mem
  | S k =>
      let reloc := read_mem 2 mem (u64 (block + block_header + 2 * i)) in
      let type := Z.shiftr reloc 12 in
      let offset := Z.land reloc 0xfff in
      if type =? IMAGE_REL_BASED_ABSOLUTE then reloc_entries lower_to_higher image_size slide block block_base k (i + 1) mem
      else
        n ← write_size lower_to_higher type;
        if image_size <? read_mem 4 mem block + offset + Z.of_nat n then Panic "pe: Relocation offset out of bounds"
        else reloc_entries lower_to_higher image_size slide block block_base k (i + 1) (add_mem n mem (u64 (block_base + offset)) slide)
  end.

(** The blocks of the directory from [offset]; [size] is its size.  [fuel] bounds the
    loop, which adds the size of a block as it is in memory after the relocation. *)
Fixpoint reloc_blocks (fuel : nat) (lower_to_higher : bool) (physical_base image_size slide dir size offset : Z) (mem : Z -> Z) : outcome (Z -> Z) :=
  if block_header <=? u64 (size - offset) then
    match fuel with
    | O => Diverge
    | S fuel =>
        let block := u64 (physical_base + dir + offset) in
        let SizeOfBlock := read_mem 4 mem (block + 4) in
        if SizeOfBlock <? block_header then Panic "pe: Invalid relocation block size"
        else if u64 (size - offset) <? SizeOfBlock then Panic "pe: Relocation block size exceeds directory"
        else if image_size <=? read_mem 4 mem block then Panic "pe: Relocation block VirtualAddress out of bounds"
        else
          let block_base := u64 (physical_base + read_mem 4 mem block) in
          mem ← reloc_entries lower_to_higher image_size slide block block_base (Z.to_nat ((SizeOfBlock - block_header) / 2)) 0 mem;
          reloc_blocks fuel lower_to_higher physical_base image_size slide dir size (u64 (offset + read_mem 4 mem (block + 4))) mem
    end
  else Ret mem.

Definition check_imports (physical_base image_size : Z) (d : data_directory) (mem : Z -> Z) : outcome () :=
  if d.(dir_Size) =? 0 then Ret ()
  else if (image_size <=? d.(dir_VirtualAddress)) || (image_size - d.(dir_VirtualAddress) <? import_size)
  then Panic "pe: Import directory VirtualAddress out of bounds"
  else if negb (read_mem 4 mem (u64 (physical_base + d.(dir_VirtualAddress)) + 12) =? 0) then Panic "pe: Kernel must not have any imports"
  else Ret ().

Definition pe_relocate (fuel : nat) (lower_to_higher : bool) (physical_base image_size slide : Z) (d : data_directory) (mem : Z -> Z) : outcome (Z -> Z) :=
  if d.(dir_VirtualAddress) =? 0 then Ret mem
  else if (image_size <=? d.(dir_VirtualAddress)) || (image_size - d.(dir_VirtualAddress) <? d.(dir_Size))
  then Panic "pe: Relocation directory VirtualAddress out of bounds"
  else reloc_blocks fuel lower_to_higher physical_base image_size slide d.(dir_VirtualAddress) d.(dir_Size) 0 mem.

(** ** pe64_load *)

(** [again:] with [tries] attempts left; [rand n] is the [n]-th number drawn. *)
Fixpoint pe_kaslr (tries : nat) (rand : nat -> Z) (n : nat) (alignment min_slide virtual_base image_size : Z) : outcome Z :=
  match tries with
  | O => Panic "pe: Image wants to load too high"
  | S tries =>
      let slide := u64 (Z.land (rand n) (u64 (Z.lnot (alignment - 1))) + min_slide) in
      if u64 (virtual_base + slide + image_size) <? 0xffffffff80000000
      then pe_kaslr tries rand (S n) alignment min_slide virtual_base image_size
      else Ret slide
  end.

(** [ALIGN_UP] of a [uint32_t]. *)
Definition ALIGN_UP32 (x a : Z) : Z := u32 (u32 (x + (a - 1)) / a * a).

Definition section_range (virtual_base alignment : Z) (s : section_header) : mem_range :=
  let misalign := s.(VirtualAddress) `mod` alignment in
  let perm bit p := if Z.land s.(sec_Characteristics) bit =? 0 then 0 else p in
  {| mr_base := u64 (virtual_base + u32 (ALIGN_DOWN s.(VirtualAddress) alignment));
     mr_length := ALIGN_UP (s.(VirtualSize) + misalign) alignment;
     mr_permissions := Z.lor (Z.lor (perm IMAGE_SCN_MEM_EXECUTE MEM_RANGE_X) (perm IMAGE_SCN_MEM_WRITE MEM_RANGE_W)) (perm IMAGE_SCN_MEM_READ MEM_RANGE_R) |}.

Definition pe_ranges (virtual_base alignment size_of_headers : Z) (sections : list section_header) : list mem_range :=
  let header := {| mr_base := virtual_base; mr_length := ALIGN_UP32 size_of_headers 0x1000; mr_permissions := MEM_RANGE_R |} in
  let headers_within_section := existsb (fun s => s.(VirtualAddress) =? 0) sections in
  (if headers_within_section then [] else [header]) ++ (section_range virtual_base alignment <$> sections).

Record pe_image := {
  pe_entry_point : Z; pe_slide : Z; pe_physical_base : Z; pe_virtual_base : Z;
  pe_image_size : Z; pe_image_size_before_bss : Z; pe_is_reloc : bool; pe_ranges_out : list mem_range
}.

Section load.
Context (memmap_max_entries : nat) (t : pe_target) (fuel : nat).

Definition pe64_load (image : list Z) (alloc_type : Z) (kaslr want_ranges : bool) (rand : nat -> Z) (st : pmm) : outcome (pe_image * pmm) :=
  r ← pe_headers t image; let '(nt, sections) := (r : nt_headers * list section_header) in
  let is_reloc := Z.land nt.(Characteristics) IMAGE_FILE_RELOCS_STRIPPED =? 0 in
  let image_base := nt.(ImageBase) in
  let image_size := nt.(SizeOfImage) in
  let alignment := nt.(SectionAlignment) in
  if (1 <? alignment) && negb (Z.land alignment (alignment - 1) =? 0) then Panic "pe: SectionAlignment is not a power of 2"
  else
    let lower_to_higher := image_base <? FIXED_HIGHER_HALF_OFFSET_64 in
    if lower_to_higher && negb is_reloc then Panic "pe: Lower half images are not allowed"
    else
      let min_slide := if lower_to_higher then u64 (FIXED_HIGHER_HALF_OFFSET_64 - image_base) else 0 in
      (* the allocator divides by the alignment *)
      r ← (if alignment =? 0 then Undef else ext_mem_alloc_type_aligned memmap_max_entries st image_size alloc_type alignment);
      let '(physical_base, st) := (r : Z * pmm) in
      if (Z.of_nat (length image) <? nt.(SizeOfHeaders)) || (image_size <? nt.(SizeOfHeaders))
      then Panic "pe: SizeOfHeaders exceeds file or image size"
      else
        headers ← fetch image 0 nt.(SizeOfHeaders);
        let mem := copy_to (ram st) physical_base headers in
        slide ← (if is_reloc && kaslr then pe_kaslr (Z.to_nat 0x10000) rand 0 alignment min_slide image_base image_size else Ret min_slide);
        mem ← copy_sections image physical_base image_size sections mem;
        if nt.(NumberOfRvaAndSizes) <? 6 then Panic "pe: NumberOfRvaAndSizes too small for import/reloc directories"
        else
          _ ← check_imports physical_base image_size nt.(import_dir) mem;
          mem ← pe_relocate fuel lower_to_higher physical_base image_size slide nt.(reloc_dir) mem;
          let virtual_base := u64 (image_base + slide) in
          let ranges := pe_ranges virtual_base alignment nt.(SizeOfHeaders) sections in
          r ← (if want_ranges then
                 r ← ext_mem_alloc memmap_max_entries (set_ram mem st) (Z.of_nat (length ranges) * 24);
                 Ret (ranges, snd (r : Z * pmm))
               else Ret ([], set_ram mem st));
          let '(ranges, st) := (r : list mem_range * pmm) in
          Ret ({| pe_entry_point := u64 (virtual_base + nt.(AddressOfEntryPoint)); pe_slide := slide; pe_physical_base := physical_base;
                  pe_virtual_base := virtual_base; pe_image_size := image_size; pe_image_size_before_bss := image_size;
                  pe_is_reloc := is_reloc; pe_ranges_out := ranges |}, st).
End load.
