(* ===== verification/PeSpec.v ===== *)
(** * The PE image in memory

    The plan of a load reads nothing but the file: the bytes of the image at each address
    relative to its base, and the relocations of its table.  [pe64_load] carries out the
    plan, or stops for lack of memory, if no relocation changes the table itself.  An image
    whose relocations do is not confined to its block. *)

From S2P Require Import Prelude Bytes Libc Memmap Sanitise Pmm PmmFacts PmmSpec Elf ElfReloc ElfLoad ElfSpec.
From S2P Require Import ElfElsewhere Pe.

(** ** The plan *)

(** A byte of the image: of the last section that holds it, else [d]. *)
Fixpoint section_byte (image : list Z) (sections : list section_header) (v d : Z) : Z :=
  match sections with
  | [] => d
  | s :: sections =>
      section_byte image sections v
        (if (s.(VirtualAddress) <=? v) && (v <? s.(VirtualAddress) + section_raw_size s)
         then nth (Z.to_nat (s.(PointerToRawData) + (v - s.(VirtualAddress)))) image 0 else d)
  end.
Definition file_image (image : list Z) (size_of_headers : Z) (sections : list section_header) (v : Z) : Z :=
  section_byte image sections v (if (0 <=? v) && (v <? size_of_headers) then nth (Z.to_nat v) image 0 else 0).

Definition section_fits (image : list Z) (image_size : Z) (s : section_header) : bool :=
  (s.(VirtualAddress) + section_raw_size s <=? image_size) && (s.(PointerToRawData) + section_raw_size s <=? Z.of_nat (length image)).

(** The relocations of a block that is at [block] in the image [m], with their widths. *)
Fixpoint entry_list (lower_to_higher : bool) (image_size : Z) (m : Z -> Z) (block va : Z) (k : nat) (i : Z) : outcome (list (Z * nat)) :=
  match k with
  | O => Ret []
  | S k =>
      let reloc := read_mem 2 m (block + block_header + 2 * i) in
      let type := Z.shiftr reloc 12 in
      let offset := Z.land reloc 0xfff in
      if type =? IMAGE_REL_BASED_ABSOLUTE then entry_list lower_to_higher image_size m block va k (i + 1)
      else
        n ← write_size lower_to_higher type;
        if image_size <? va + offset + Z.of_nat n then Panic "pe: Relocation offset out of bounds"
        else rest ← entry_list lower_to_higher image_size m block va k (i + 1); Ret ((va + offset, n) :: rest)
  end.
Fixpoint block_list (fuel : nat) (lower_to_higher : bool) (image_size : Z) (m : Z -> Z) (dir size offset : Z) : outcome (list (Z * nat)) :=
  if block_header <=? size - offset then
    match fuel with
    | O => Diverge
    | S fuel =>
        let block := dir + offset in
        let va := read_mem 4 m block in
        let n := read_mem 4 m (block + 4) in
        if (n <? block_header) || (size - offset <? n) || (image_size <=? va) then Panic "pe: Invalid relocation block"
        else
          es ← entry_list lower_to_higher image_size m block va (Z.to_nat ((n - block_header) / 2)) 0;
          rest ← block_list fuel lower_to_higher image_size m dir size (offset + n);
          Ret (es ++ rest)
    end
  else Ret [].

(** The image with the relocations applied. *)
Definition apply_relocs (slide : Z) (l : list (Z * nat)) (m : Z -> Z) : Z -> Z :=
  foldl (fun m r => add_mem r.2 m r.1 slide) m l.

(** A relocation leaves the table alone. *)
Definition keeps_table (d : data_directory) (r : Z * nat) : bool :=
  (r.1 + Z.of_nat r.2 <=? d.(dir_VirtualAddress)) || (d.(dir_VirtualAddress) + d.(dir_Size) <=? r.1).

Record pe_plan := { pp_nt : nt_headers; pp_sections : list section_header; pp_slide : Z; pp_relocs : list (Z * nat) }.
Definition pp_lower (nt : nt_headers) : bool := nt.(ImageBase) <? FIXED_HIGHER_HALF_OFFSET_64.
Definition pp_is_reloc (nt : nt_headers) : bool := Z.land nt.(Characteristics) IMAGE_FILE_RELOCS_STRIPPED =? 0.
Definition pp_min_slide (nt : nt_headers) : Z := if pp_lower nt then u64 (FIXED_HIGHER_HALF_OFFSET_64 - nt.(ImageBase)) else 0.
Definition pp_image (image : list Z) (pl : pe_plan) : Z -> Z := file_image image pl.(pp_nt).(SizeOfHeaders) pl.(pp_sections).

(** The headers are those of an image that can be loaded. *)
Definition headers_fit (image : list Z) (nt : nt_headers) (sections : list section_header) : bool :=
  (0 <? nt.(SectionAlignment)) && (Z.land nt.(SectionAlignment) (nt.(SectionAlignment) - 1) =? 0)
  && (negb (pp_lower nt) || pp_is_reloc nt)
  && (nt.(SizeOfHeaders) <=? Z.of_nat (length image)) && (nt.(SizeOfHeaders) <=? nt.(SizeOfImage))
  && forallb (section_fits image nt.(SizeOfImage)) sections && (6 <=? nt.(NumberOfRvaAndSizes)).
Definition imports_fit (nt : nt_headers) (m : Z -> Z) : bool :=
  let d := nt.(import_dir) in
  (d.(dir_Size) =? 0) || ((d.(dir_VirtualAddress) <? nt.(SizeOfImage)) && (import_size <=? nt.(SizeOfImage) - d.(dir_VirtualAddress))
                          && (read_mem 4 m (d.(dir_VirtualAddress) + 12) =? 0)).
Definition table_size (d : data_directory) : nat := S (Z.to_nat (d.(dir_Size) / 8)).
Definition plan_relocs (nt : nt_headers) (m : Z -> Z) : outcome (list (Z * nat)) :=
  let d := nt.(reloc_dir) in
  if d.(dir_VirtualAddress) =? 0 then Ret []
  else if (nt.(SizeOfImage) <=? d.(dir_VirtualAddress)) || (nt.(SizeOfImage) - d.(dir_VirtualAddress) <? d.(dir_Size)) then Panic "pe: Relocation directory"
  else block_list (table_size d) (pp_lower nt) nt.(SizeOfImage) m d.(dir_VirtualAddress) d.(dir_Size) 0.

Definition plan_pe (t : pe_target) (image : list Z) (kaslr : bool) (rand : nat -> Z) : outcome pe_plan :=
  r ← pe_headers t image; let '(nt, sections) := (r : nt_headers * list section_header) in
  let m := file_image image nt.(SizeOfHeaders) sections in
  if negb (headers_fit image nt sections && imports_fit nt m) then Panic "pe: Not a loadable image"
  else
    slide ← (if pp_is_reloc nt && kaslr
             then pe_kaslr (Z.to_nat 0x10000) rand 0 nt.(SectionAlignment) (pp_min_slide nt) nt.(ImageBase) nt.(SizeOfImage) else Ret (pp_min_slide nt));
    l ← plan_relocs nt m;
    if negb (forallb (keeps_table nt.(reloc_dir)) l) then Panic "pe: Relocation of the table"
    else Ret {| pp_nt := nt; pp_sections := sections; pp_slide := slide; pp_relocs := l |}.

(** ** An image at its place in memory *)

Section lens.
Context (base size : Z) (Hbase : 0 <= base) (Hsize : 0 <= size) (Htop : base + size <= 0x100000000).

Lemma read_shows n mem m p : shows base 0 size mem m -> 0 <= p -> p + Z.of_nat n <= size -> read_mem n mem (base + p) = read_mem n m p.
Proof.
  intros Hs Hp Hn. unfold read_mem. f_equal. apply list_eq. intros i. rewrite !list_lookup_fmap.
  destruct (decide (Z.of_nat i < Z.of_nat n)) as [Hi|Hi].
  - rewrite !lookup_seqZ_lt by lia. cbn. f_equal. rewrite <- (Hs (p + Z.of_nat i)) by lia. f_equal. lia.
  - rewrite !lookup_seqZ_ge by lia. done.
Qed.
Lemma read_same n m m' p : (forall v, p <= v < p + Z.of_nat n -> m v = m' v) -> read_mem n m p = read_mem n m' p.
Proof.
  intros Hm. unfold read_mem. f_equal. apply list_eq. intros i. rewrite !list_lookup_fmap.
  destruct (decide (Z.of_nat i < Z.of_nat n)) as [Hi|Hi].
  - rewrite !lookup_seqZ_lt by lia. cbn. f_equal. apply Hm. lia.
  - rewrite !lookup_seqZ_ge by lia. done.
Qed.

Lemma copy_shows mem m p bs : shows base 0 size mem m -> shows base 0 size (copy_to mem (base + p) bs) (copy_to m p bs).
Proof. intros Hs. pose proof (copy_to_moved base 0 size mem m p bs Hs) as H. by rewrite Z.sub_0_r in H. Qed.
Lemma copy_outside mem p bs : 0 <= p -> p + Z.of_nat (length bs) <= size -> same_outside base size mem (copy_to mem (base + p) bs).
Proof. intros Hp Hl a Ha. unfold copy_to. case_b; [|done]. case_b; [lia|done]. Qed.

Lemma add_shows n mem m p x : shows base 0 size mem m -> 0 <= p -> p + Z.of_nat n <= size ->
  shows base 0 size (add_mem n mem (base + p) x) (add_mem n m p x).
Proof. intros Hs Hp Hn. unfold add_mem. rewrite (read_shows n mem m p) by done. by apply copy_shows. Qed.
Lemma add_outside n mem p x : 0 <= p -> p + Z.of_nat n <= size -> same_outside base size mem (add_mem n mem (base + p) x).
Proof. intros Hp Hn. apply copy_outside; [done|]. by rewrite length_le_store. Qed.
Lemma add_same n m p x v : v < p \/ p + Z.of_nat n <= v -> add_mem n m p x v = m v.
Proof. intros Hv. unfold add_mem, copy_to. rewrite length_le_store. case_b; [|done]. case_b; [lia|done]. Qed.

(** *** Sections *)

Definition section_ok (s : section_header) : Prop := 0 <= s.(VirtualAddress) < W32 /\ 0 <= section_raw_size s < W32 /\ 0 <= s.(PointerToRawData) < W32.

Lemma section_byte_ext image sections v d d' : d = d' -> section_byte image sections v d = section_byte image sections v d'.
Proof. by intros ->. Qed.

Lemma copy_sections_spec image sections : Forall section_ok sections -> forallb (section_fits image size) sections = true -> forall mem m,
  shows base 0 size mem m ->
  exists mem', copy_sections image base size sections mem = Ret mem' /\ shows base 0 size mem' (fun v => section_byte image sections v (m v)) /\
  same_outside base size mem mem'.
Proof.
  induction sections as [|s sections IH]; intros Hok Hfit mem m Hs; [by exists mem|].
  apply Forall_cons in Hok as [(Hva & Hraw & Hptr) Hok]. cbn [forallb] in Hfit. apply andb_true_iff in Hfit as [Hf Hfit].
  unfold section_fits in Hf. apply andb_true_iff in Hf as [Hf1%Z.leb_le Hf2%Z.leb_le]. cbn [copy_sections section_byte].
  rewrite !(proj2 (Z.ltb_ge _ _)) by lia. rewrite fetch_Ret, u64_small by lia. cbn [mbind outcome_bind]. set (bs := slice _ _ _).
  assert (Hbs : Z.of_nat (length bs) = section_raw_size s) by (unfold bs; rewrite length_slice; lia).
  destruct (IH Hok Hfit (copy_to mem (base + VirtualAddress s) bs) (copy_to m (VirtualAddress s) bs)) as (mem' & -> & Hs' & Ho); [by apply copy_shows|].
  exists mem'. split_and!; [done| |].
  - intros v Hv. rewrite (Hs' v Hv). apply section_byte_ext. unfold copy_to. rewrite Hbs.
    destruct (_ && _) eqn:Ec; [|done]. apply andb_true_iff in Ec as [Ha%Z.leb_le Hb%Z.ltb_lt].
    unfold bs. rewrite nth_slice by lia. f_equal. lia.
  - eapply same_outside_trans; [|exact Ho]. apply copy_outside; lia.
Qed.
End lens.

(** *** Relocations *)

Section relocs.
Context (base size slide dir dsize : Z) (m0 : Z -> Z) (lower : bool).
Context (Hbase : 0 <= base) (Htop : base + size <= 0x100000000) (Hdir : 0 <= dir) (Hds : 0 <= dsize) (Hin : dir + dsize <= size).
Context (Hbytes : forall v, is_byte (m0 v)).
Let d := {| dir_VirtualAddress := dir; dir_Size := dsize |}.

Lemma read_range n m p : (forall v, is_byte (m v)) -> 0 <= read_mem n m p < W8 ^ Z.of_nat n.
Proof.
  intros Hm. unfold read_mem. assert (Forall is_byte (m <$> seqZ p (Z.of_nat n))) as Hf by (apply Forall_fmap, Forall_true; intros v; apply Hm).
  pose proof (le_load_range _ Hf) as Hr. by rewrite length_fmap, length_seqZ, Nat2Z.id in Hr.
Qed.

Definition table_same (m : Z -> Z) : Prop := forall v, dir <= v < dir + dsize -> m v = m0 v.

(** The state of the relocation: what memory shows, and that the table is the file's. *)
Record relocating (mem0 mem m : Z -> Z) : Prop := {
  rl_shows : shows base 0 size mem m;
  rl_same : table_same m;
  rl_outside : same_outside base size mem0 mem
}.

Lemma read_table n mem0 mem m p : relocating mem0 mem m -> dir <= p -> p + Z.of_nat n <= dir + dsize -> read_mem n mem (base + p) = read_mem n m0 p.
Proof.
  intros [Hs Ht _] H1 H2. rewrite (read_shows base size n mem m) by (done || lia). apply read_same. intros v Hv. apply Ht. lia.
Qed.

Lemma reloc_step mem0 mem m p n : relocating mem0 mem m -> 0 <= p -> p + Z.of_nat n <= size -> keeps_table d (p, n) = true ->
  relocating mem0 (add_mem n mem (base + p) slide) (add_mem n m p slide).
Proof.
  intros [Hs Ht Ho] Hp Hn Hk. split.
  - by apply add_shows.
  - intros v Hv. rewrite add_same; [by apply Ht|]. unfold keeps_table in Hk. cbn in Hk. apply orb_true_iff in Hk as [?%Z.leb_le|?%Z.leb_le]; lia.
  - eapply same_outside_trans; [exact Ho|by apply add_outside].
Qed.

Lemma reloc_entries_spec mem0 block va k : dir <= block -> 0 <= va -> read_mem 4 m0 block = va -> forall i l mem m,
  0 <= i -> block + 8 + 2 * (i + Z.of_nat k) <= dir + dsize -> relocating mem0 mem m ->
  entry_list lower size m0 block va k i = Ret l -> forallb (keeps_table d) l = true ->
  exists mem', reloc_entries lower size slide (base + block) (base + va) k i mem = Ret mem' /\ relocating mem0 mem' (apply_relocs slide l m).
Proof.
  intros Hblk Hva Eva. induction k as [|k IH]; intros i l mem m Hi Hend Hr Hl Hk; cbn [entry_list reloc_entries] in *.
  { injection Hl as <-. by exists mem. }
  unfold block_header in *. assert (Hrd : read_mem 2 mem (u64 (base + block + 8 + 2 * i)) = read_mem 2 m0 (block + 8 + 2 * i)).
  { rewrite u64_small by lia. replace (base + block + 8 + 2 * i) with (base + (block + 8 + 2 * i)) by lia. eapply read_table; [done|lia|lia]. }
  rewrite Hrd. set (reloc := read_mem 2 m0 (block + 8 + 2 * i)) in *. destruct (Z.shiftr reloc 12 =? _).
  { apply (IH (i + 1)); try done; lia. }
  apply bind_Ret_inv in Hl as (n & -> & Hl). cbn [mbind outcome_bind].
  destruct (size <? va + Z.land reloc 4095 + Z.of_nat n) eqn:Ec in Hl; [done|]. apply Z.ltb_ge in Ec. apply bind_Ret_inv in Hl as (rest & Hrest & Hl). injection Hl as <-.
  cbn [forallb] in Hk. apply andb_true_iff in Hk as [Hk1 Hk].
  assert (Hv : read_mem 4 mem (base + block) = va) by (rewrite <- Eva; eapply read_table; [done|lia|lia]). rewrite Hv.
  assert (Hoff : 0 <= Z.land reloc 0xfff) by (apply Z.land_nonneg; lia).
  rewrite (proj2 (Z.ltb_ge _ _)) by lia. rewrite u64_small by lia. replace (base + va + Z.land reloc 4095) with (base + (va + Z.land reloc 4095)) by lia.
  cbn [apply_relocs foldl]. apply (IH (i + 1)); [lia|lia| |done|done]. apply reloc_step; try done; cbn [fst snd]; lia.
Qed.

Lemma reloc_blocks_spec mem0 n : forall fuel offset l mem m, (n <= fuel)%nat -> 0 <= offset <= dsize -> relocating mem0 mem m ->
  block_list n lower size m0 dir dsize offset = Ret l -> forallb (keeps_table d) l = true ->
  exists mem', reloc_blocks fuel lower base size slide dir dsize offset mem = Ret mem' /\ relocating mem0 mem' (apply_relocs slide l m).
Proof.
  induction n as [|n IH]; intros fuel offset l mem m Hf Ho Hr Hl Hk; cbn [block_list] in Hl; (destruct fuel as [|fuel]; [try lia|]); cbn [reloc_blocks];
    rewrite (u64_small (dsize - offset)) by lia; unfold block_header in *; (case_b; [|injection Hl as <-; by exists mem]); try done.
  rewrite (u64_small (base + dir + offset)) by lia. replace (base + dir + offset) with (base + (dir + offset)) by lia.
  replace (base + (dir + offset) + 4) with (base + (dir + offset + 4)) by lia.
  rewrite !(read_table 4 mem0 mem m) by (done || lia). set (va := read_mem 4 m0 (dir + offset)) in *. set (sz := read_mem 4 m0 (dir + offset + 4)) in *.
  destruct (_ || _) eqn:Ec in Hl; [done|]. apply orb_false_iff in Ec as [[H1%Z.ltb_ge H2%Z.ltb_ge]%orb_false_iff H3%Z.leb_gt].
  rewrite (proj2 (Z.ltb_ge sz 8)), (proj2 (Z.ltb_ge _ sz)), (proj2 (Z.leb_gt size va)) by lia.
  apply bind_Ret_inv in Hl as (es & Hes & Hl). apply bind_Ret_inv in Hl as (rest & Hrest & Hl). injection Hl as <-.
  rewrite forallb_app in Hk. apply andb_true_iff in Hk as [Hk1 Hk2].
  assert (Hva : 0 <= va) by (apply read_range; done). rewrite (u64_small (base + va)) by lia.
  destruct (reloc_entries_spec mem0 (dir + offset) va (Z.to_nat ((sz - 8) / 2)) ltac:(lia) Hva eq_refl 0 es mem m) as (mem1 & -> & Hr1); try done.
  { pose proof (Z.mul_div_le (sz - 8) 2 ltac:(lia)). assert (0 <= (sz - 8) / 2) by (apply Z.div_pos; lia). rewrite Z2Nat.id by done. lia. }
  cbn [mbind outcome_bind]. rewrite (read_table 4 mem0 mem1 (apply_relocs slide es m)) by (done || lia). fold sz. rewrite (u64_small (offset + sz)) by lia.
  unfold apply_relocs. rewrite foldl_app. apply (IH fuel (offset + sz) rest); try done; lia.
Qed.

(** The loop over the table ends: each block has a header. *)
Lemma block_list_ends n offset : 0 <= offset -> (Z.to_nat ((dsize - offset) / 8) < n)%nat -> block_list n lower size m0 dir dsize offset <> Diverge.
Proof.
  revert offset. induction n as [|n IH]; intros offset Ho Hn; [lia|]. cbn [block_list]. unfold block_header. case_b; [|done].
  set (va := read_mem 4 m0 (dir + offset)). set (sz := read_mem 4 m0 (dir + offset + 4)). destruct (_ || _) eqn:Ec; [done|].
  apply orb_false_iff in Ec as [[H1%Z.ltb_ge H2%Z.ltb_ge]%orb_false_iff H3%Z.leb_gt].
  assert (He : forall k i, entry_list lower size m0 (dir + offset) va k i <> Diverge).
  { induction k as [|k IHk]; intros i; cbn [entry_list]; [done|]. destruct (_ =? _); [done|]. unfold write_size. repeat case_match; cbn [mbind outcome_bind]; try done.
    all: case_match; [done|]; specialize (IHk (i + 1)); destruct (entry_list _ _ _ _ _ _ _); done. }
  specialize (He (Z.to_nat ((sz - 8) / 2)) 0). destruct (entry_list _ _ _ _ _ _ _); try done. cbn [mbind outcome_bind].
  assert (H8 : (dsize - (offset + sz)) / 8 <= (dsize - offset) / 8 - 1).
  { replace ((dsize - offset) / 8 - 1) with ((dsize - offset - 8) / 8) by (replace (dsize - offset - 8) with (dsize - offset + (-1) * 8) by lia; rewrite Z.div_add; lia). apply Z.div_le_mono; lia. }
  assert (0 <= (dsize - (offset + sz)) / 8) by (apply Z.div_pos; lia).
  specialize (IH (offset + sz) ltac:(lia) ltac:(lia)). destruct (block_list _ _ _ _ _ _ _); done.
Qed.
End relocs.

(** ** Loading *)

Record pe_loaded (image : list Z) (pl : pe_plan) (want_ranges : bool) (st st' : pmm) (img : pe_image) : Prop := {
  ld_slide : img.(pe_slide) = pl.(pp_slide);
  ld_virtual : img.(pe_virtual_base) = u64 (pl.(pp_nt).(ImageBase) + pl.(pp_slide));
  ld_entry : img.(pe_entry_point) = u64 (img.(pe_virtual_base) + pl.(pp_nt).(AddressOfEntryPoint));
  ld_size : img.(pe_image_size) = pl.(pp_nt).(SizeOfImage) /\ img.(pe_image_size_before_bss) = img.(pe_image_size);
  ld_reloc : img.(pe_is_reloc) = pp_is_reloc pl.(pp_nt);
  ld_ranges : want_ranges = true -> img.(pe_ranges_out) = pe_ranges img.(pe_virtual_base) pl.(pp_nt).(SectionAlignment) pl.(pp_nt).(SizeOfHeaders) pl.(pp_sections);
  ld_aligned : (pl.(pp_nt).(SectionAlignment) | img.(pe_physical_base));
  ld_block a : img.(pe_physical_base) <= a < img.(pe_physical_base) + img.(pe_image_size) -> usable st a /\ ~ usable st' a;
  ld_image v : 0 <= v < img.(pe_image_size) -> ram st' (img.(pe_physical_base) + v) = apply_relocs pl.(pp_slide) pl.(pp_relocs) (pp_image image pl) v;
  ld_frame a : ~ usable st a -> ~ usable st' a /\ ram st' a = ram st a;
  ld_inv : pmm_inv st'
}.

Definition nt_ok (nt : nt_headers) : Prop :=
  0 <= nt.(SizeOfImage) < W32 /\ 0 <= nt.(SizeOfHeaders) < W32 /\ 0 <= nt.(SectionAlignment) < W32 /\
  0 <= nt.(NumberOfSections) < W16 /\ 0 <= nt.(SizeOfOptionalHeader) < W16 /\ 0 <= nt.(ImageBase) < W64 /\
  0 <= nt.(import_dir).(dir_VirtualAddress) < W32 /\ 0 <= nt.(import_dir).(dir_Size) < W32 /\
  0 <= nt.(reloc_dir).(dir_VirtualAddress) < W32 /\ 0 <= nt.(reloc_dir).(dir_Size) < W32.

Lemma load_nt_ok bs : Forall is_byte bs -> nt_ok (load_nt bs).
Proof.
  intros Hb. unfold nt_ok, load_nt. cbn. pose proof (fun o n => field_range o n bs Hb) as Hf.
  split_and!; apply (Hf _ 2%nat) || apply (Hf _ 4%nat) || apply (Hf _ 8%nat).
Qed.
Lemma load_section_ok bs : Forall is_byte bs -> section_ok (load_section bs).
Proof.
  intros Hb. unfold section_ok, load_section, section_raw_size. cbn. pose proof (fun o => field_range o 4 bs Hb) as Hf. change (W8 ^ Z.of_nat 4) with W32 in Hf.
  pose proof (Hf 8%nat). pose proof (Hf 16%nat). split_and!; try (apply Hf); destruct (_ <? _); lia.
Qed.
Lemma read_sections_ok image k : Forall is_byte image -> forall off l, read_sections image off k = Ret l -> Forall section_ok l.
Proof.
  intros Hb. induction k as [|k IH]; intros off l Hl; cbn [read_sections] in Hl; [injection Hl as <-; constructor|].
  apply bind_Ret_inv in Hl as (bs & Hf & Hl). apply bind_Ret_inv in Hl as (rest & Hr & Hl). injection Hl as <-.
  apply fetch_inv in Hf as (_ & _ & ->). constructor; [by apply load_section_ok, slice_bytes|by eapply IH].
Qed.
Lemma pe_headers_ok t image nt sections : Forall is_byte image -> pe_headers t image = Ret (nt, sections) -> nt_ok nt /\ Forall section_ok sections.
Proof.
  intros Hb H. unfold pe_headers in H. apply bind_Ret_inv in H as (_ & _ & H). apply bind_Ret_inv in H as (e & _ & H). apply bind_Ret_inv in H as (bs & Hf & H).
  cbv zeta in H. destruct (_ <? _) in H; [done|]. apply bind_Ret_inv in H as (l & Hl & H). injection H as <- <-.
  apply fetch_inv in Hf as (_ & _ & ->). split; [by apply load_nt_ok, slice_bytes|by eapply read_sections_ok].
Qed.

Lemma read_sections_length image k : forall off l, read_sections image off k = Ret l -> length l = k.
Proof.
  induction k as [|k IH]; intros off l Hl; cbn [read_sections] in Hl; [by injection Hl as <-|].
  apply bind_Ret_inv in Hl as (bs & _ & Hl). apply bind_Ret_inv in Hl as (rest & Hr & Hl). injection Hl as <-. cbn. f_equal. by eapply IH.
Qed.
Lemma pe_headers_length t image nt sections : pe_headers t image = Ret (nt, sections) -> length sections = Z.to_nat nt.(NumberOfSections).
Proof.
  intros H. unfold pe_headers in H. apply bind_Ret_inv in H as (_ & _ & H). apply bind_Ret_inv in H as (e & _ & H). apply bind_Ret_inv in H as (bs & Hf & H).
  cbv zeta in H. destruct (_ <? _) in H; [done|]. apply bind_Ret_inv in H as (l & Hl & H). injection H as <- <-. by eapply read_sections_length.
Qed.

Lemma file_byte image i : Forall is_byte image -> is_byte (nth i image 0).
Proof.
  intros Hb. destruct (nth_in_or_default i image 0) as [Hin| ->]; [|unfold is_byte; lia]. rewrite List.Forall_forall in Hb. by apply Hb.
Qed.
Lemma section_byte_is_byte image sections v : Forall is_byte image -> forall d, is_byte d -> is_byte (section_byte image sections v d).
Proof.
  intros Hb. induction sections as [|s sections IH]; intros d Hd; [done|]. cbn [section_byte]. apply IH. destruct (_ && _); [by apply file_byte|done].
Qed.
Lemma file_image_is_byte image soh sections v : Forall is_byte image -> is_byte (file_image image soh sections v).
Proof.
  intros Hb. apply section_byte_is_byte; [done|]. destruct (_ && _); [by apply file_byte|unfold is_byte; lia].
Qed.

(** The headers, then the sections. *)
Lemma headers_shows base size image soh mem : 0 <= soh <= size -> soh <= Z.of_nat (length image) -> (forall a, base <= a < base + size -> mem a = 0) ->
  shows base 0 size (copy_to mem base (slice 0 (Z.to_nat soh) image)) (fun v => if (0 <=? v) && (v <? soh) then nth (Z.to_nat v) image 0 else 0).
Proof.
  intros Hs Hl Hz v Hv. unfold copy_to. rewrite length_slice by lia. rewrite Z2Nat.id, Z.sub_0_r by lia.
  rewrite (proj2 (Z.leb_le base _)), (proj2 (Z.leb_le 0 v)) by lia. cbn [andb]. split_ltb v soh.
  - rewrite (proj2 (Z.ltb_lt _ _)) by lia. rewrite nth_slice by lia. f_equal. lia.
  - rewrite (proj2 (Z.ltb_ge _ _)) by lia. apply Hz. lia.
Qed.

Lemma pe_relocate_spec base nt fuel slide mem0 mem l image sections : nt_ok nt -> 0 <= base -> base + nt.(SizeOfImage) <= 0x100000000 -> Forall is_byte image ->
  let m := file_image image nt.(SizeOfHeaders) sections in
  (table_size nt.(reloc_dir) <= fuel)%nat -> plan_relocs nt m = Ret l -> forallb (keeps_table nt.(reloc_dir)) l = true ->
  shows base 0 nt.(SizeOfImage) mem m -> same_outside base nt.(SizeOfImage) mem0 mem ->
  exists mem', pe_relocate fuel (pp_lower nt) base nt.(SizeOfImage) slide nt.(reloc_dir) mem = Ret mem' /\
    shows base 0 nt.(SizeOfImage) mem' (apply_relocs slide l m) /\ same_outside base nt.(SizeOfImage) mem0 mem'.
Proof.
  intros Hok Hb Htop Hbytes m Hf Hl Hk Hs Ho. unfold nt_ok in Hok. unfold plan_relocs in Hl. unfold pe_relocate. destruct (reloc_dir nt) as [dir dsize]. cbn [dir_VirtualAddress dir_Size] in *.
  destruct (dir =? 0); [injection Hl as <-; by exists mem|]. destruct (_ || _) eqn:Ec; [done|]. apply orb_false_iff in Ec as [H1%Z.leb_gt H2%Z.ltb_ge].
  assert (Hd : 0 <= dir /\ 0 <= dsize /\ dir + dsize <= SizeOfImage nt) by lia. destruct Hd as (Hd1 & Hd2 & Hd3).
  destruct (reloc_blocks_spec base (SizeOfImage nt) slide dir dsize m (pp_lower nt) Hb Htop Hd1 Hd3
              (fun v => file_image_is_byte _ _ _ v Hbytes) mem0 _ fuel 0 l mem m Hf ltac:(lia)) as (mem' & -> & [Hs' _ Ho']); try done.
  by exists mem'.
Qed.

Lemma check_imports_spec base nt mem m : nt_ok nt -> 0 <= base -> base + nt.(SizeOfImage) <= 0x100000000 -> shows base 0 nt.(SizeOfImage) mem m ->
  imports_fit nt m = true -> check_imports base nt.(SizeOfImage) nt.(import_dir) mem = Ret ().
Proof.
  intros Hok Hb Htop Hs H. unfold nt_ok in Hok. unfold imports_fit in H. unfold check_imports, import_size in *. destruct (import_dir nt) as [va sz]. cbn [dir_VirtualAddress dir_Size] in *.
  destruct (sz =? 0); [done|]. cbn [orb] in H. apply andb_true_iff in H as [[H1%Z.ltb_lt H2%Z.leb_le]%andb_true_iff H3].
  rewrite (proj2 (Z.leb_gt _ _)), (proj2 (Z.ltb_ge _ _)) by lia. cbn [orb]. rewrite u64_small by lia.
  replace (base + va + 12) with (base + (va + 12)) by lia. rewrite (read_shows base (SizeOfImage nt) 4 mem m) by (done || lia). by rewrite H3.
Qed.

(** From the memory of the loader to that of its caller. *)
Lemma pe_memory size st st1 st' mem base : evolves st st1 -> evolves (set_ram mem st1) st' ->
  (forall a, base <= a < base + size -> usable st a /\ ~ usable st1 a) -> same_outside base size (ram st1) mem ->
  (forall a, base <= a < base + size -> usable st a /\ ~ usable st' a /\ ram st' a = mem a) /\
  (forall a, ~ usable st a -> ~ usable st' a /\ ram st' a = ram st a).
Proof.
  intros [_ _ U1 R1] [_ _ U2 R2] Hblk Ho. split.
  - intros a Ha. destruct (Hblk a Ha) as [Hu Hn]. split_and!; [done|intros Hu'; by apply Hn, U2|by apply R2].
  - intros a Ha. assert (~ usable st1 a) as Hn by auto. split; [intros Hu; by apply Hn, U2|]. rewrite R2 by done. cbn. rewrite Ho; [by apply R1|].
    intros Hin. by apply Ha, Hblk.
Qed.

(** The block for the ranges. *)
Lemma ranges_alloc max (want : bool) st (ranges : list mem_range) : pmm_inv st -> Z.of_nat (length ranges) <= W16 ->
  match (if want then r ← ext_mem_alloc max st (Z.of_nat (length ranges) * 24); Ret (ranges, snd (r : Z * pmm)) else Ret ([], st)) with
  | Ret (rs, st') => (want = true -> rs = ranges) /\ evolves st st'
  | Panic msg => page_error msg
  | Undef | Diverge => False
  end.
Proof.
  intros Hi Hn. destruct want; [|by split; [|apply evolves_refl]].
  pose proof (alloc_total max st (Z.of_nat (length ranges) * 24) MEMMAP_BOOTLOADER_RECLAIMABLE 4096 Hi ltac:(lia) ltac:(lia) ltac:(lia)) as Ht.
  change (ext_mem_alloc_type_aligned max st _ _ 4096) with (ext_mem_alloc max st (Z.of_nat (length ranges) * 24)) in Ht.
  destruct (ext_mem_alloc _ _ _) as [[p st']|?| |] eqn:Ea; try done. cbn. split; [done|]. by apply (block_alloc max st) in Ea as [? _].
Qed.

Section load.
Context (max : nat) (t : pe_target) (image : list Z) (alloc_type : Z) (kaslr want_ranges : bool) (rand : nat -> Z).

Lemma pe_ranges_length nt sections vb al soh : pe_headers t image = Ret (nt, sections) -> nt_ok nt -> Z.of_nat (length (pe_ranges vb al soh sections)) <= W16.
Proof.
  intros Hh Hok. unfold pe_ranges. rewrite length_app, length_fmap, (pe_headers_length _ _ _ _ Hh). unfold nt_ok in Hok. destruct (existsb _ _); cbn [length]; lia.
Qed.

(** What a plan says of the file. *)
Lemma plan_pe_inv pl : plan_pe t image kaslr rand = Ret pl ->
  let nt := pl.(pp_nt) in let m := pp_image image pl in
  pe_headers t image = Ret (nt, pl.(pp_sections)) /\ headers_fit image nt pl.(pp_sections) = true /\ imports_fit nt m = true /\
  (if pp_is_reloc nt && kaslr
   then pe_kaslr (Z.to_nat 0x10000) rand 0 nt.(SectionAlignment) (pp_min_slide nt) nt.(ImageBase) nt.(SizeOfImage) else Ret (pp_min_slide nt)) = Ret pl.(pp_slide) /\
  plan_relocs nt m = Ret pl.(pp_relocs) /\ forallb (keeps_table nt.(reloc_dir)) pl.(pp_relocs) = true.
Proof.
  intros H. unfold plan_pe in H. apply bind_Ret_inv in H as ([nt sections] & Hh & H). destruct (headers_fit _ _ _) eqn:Hf; [|done].
  destruct (imports_fit _ _) eqn:Hi; [|done]. cbn [andb negb] in H. apply bind_Ret_inv in H as (sl & Hsl & H). apply bind_Ret_inv in H as (l & Hl & H).
  destruct (forallb _ _) eqn:Hk; [|done]. injection H as <-. done.
Qed.

(** C36: loading a PE image that has a plan returns, or panics because the allocator cannot
    serve it.  When it returns, the entry point, slide, base, size and ranges are those of
    the plan; the image lies in a block that was usable and is in use now, aligned as the
    headers ask; every byte of it is that of the last section that holds it, of the headers
    or zero, with all relocations of the table applied in order; and memory that was in use
    has not changed. *)
Theorem pe64_load_correct fuel pl st : Forall is_byte image -> alloc_type <> MEMMAP_USABLE -> pmm_inv st ->
  plan_pe t image kaslr rand = Ret pl -> (table_size pl.(pp_nt).(reloc_dir) <= fuel)%nat ->
  match pe64_load max t fuel image alloc_type kaslr want_ranges rand st with
  | Ret (img, st') => pe_loaded image pl want_ranges st st' img
  | Panic msg => page_error msg
  | Undef | Diverge => False
  end.
Proof.
  intros Hb Ht Hi Hplan Hfuel. apply plan_pe_inv in Hplan as (Hh & Hf & Himp & Hsl & Hrel & Hk). set (nt := pp_nt pl) in *. set (m := pp_image image pl) in *.
  destruct (pe_headers_ok _ _ _ _ Hb Hh) as [Hok Hsec]. pose proof Hok as (Hsz & Hsoh & Hal & _).
  unfold headers_fit in Hf. rewrite !andb_true_iff in Hf. destruct Hf as [[[[[[Ha0%Z.ltb_lt Ha1] Hlow] Hf1%Z.leb_le] Hf2%Z.leb_le] Hfit] Hrva%Z.leb_le].
  unfold pe64_load. rewrite Hh. cbn [mbind outcome_bind]. fold (pp_is_reloc nt) (pp_lower nt) (pp_min_slide nt).
  rewrite Ha1, andb_false_r. assert (El : pp_lower nt && negb (pp_is_reloc nt) = false) by (destruct (pp_lower nt), (pp_is_reloc nt); done). rewrite El.
  rewrite (proj2 (Z.eqb_neq (SectionAlignment nt) 0)) by lia.
  pose proof (alloc_total max st (SizeOfImage nt) alloc_type (SectionAlignment nt) Hi ltac:(lia) ltac:(lia) ltac:(lia)) as Hta.
  destruct (ext_mem_alloc_type_aligned _ _ _ _ _) as [[base st1]|?| |] eqn:Ea; try done. cbn [mbind outcome_bind].
  destruct (ALIGN_UP_spec (SizeOfImage nt) (SectionAlignment nt)) as (k & _ & Hup); [lia..|].
  apply alloc_evolves in Ea as (Hev & Hb0 & Hba & Hlim & Hblk); [|done|lia..|done].
  rewrite !(proj2 (Z.ltb_ge _ (SizeOfHeaders nt))) by lia. cbn [orb]. rewrite fetch_Ret by lia. change (Z.to_nat 0) with 0%nat. cbn [mbind outcome_bind].
  change (if pp_lower nt then u64 (FIXED_HIGHER_HALF_OFFSET_64 - ImageBase nt) else 0) with (pp_min_slide nt). rewrite Hsl. cbn [mbind outcome_bind].
  pose proof (headers_shows base (SizeOfImage nt) image (SizeOfHeaders nt) (ram st1) ltac:(lia) Hf1 ltac:(intros a Ha; apply Hblk; lia)) as Hs0.
  destruct (copy_sections_spec base (SizeOfImage nt) ltac:(lia) ltac:(lia) image (pp_sections pl) Hsec Hfit _ _ Hs0) as (mem1 & -> & Hs1 & Ho1).
  cbn [mbind outcome_bind]. rewrite (proj2 (Z.ltb_ge _ 6)) by lia.
  rewrite (check_imports_spec base nt mem1 m) by (done || lia). cbn [mbind outcome_bind].
  destruct (pe_relocate_spec base nt fuel (pp_slide pl) (ram st1) mem1 (pp_relocs pl) image (pp_sections pl)) as (mem2 & -> & Hs2 & Ho2); try done; [lia| |].
  { eapply same_outside_trans; [|exact Ho1]. apply copy_to_outside. rewrite length_slice; lia. }
  cbn [mbind outcome_bind]. set (ranges := pe_ranges _ _ _ _).
  assert (Hi2 : pmm_inv (set_ram mem2 st1)) by (destruct (ev_inv _ _ Hev); by split).
  pose proof (ranges_alloc max want_ranges (set_ram mem2 st1) ranges Hi2 (pe_ranges_length nt _ _ _ _ Hh Hok)) as Hra.
  destruct (if want_ranges then _ else _) as [[rs st2]|?| |]; try done. destruct Hra as [Hrs Hev2]. cbn [mbind outcome_bind].
  destruct (pe_memory (SizeOfImage nt) st st1 st2 mem2 base Hev Hev2) as [Hin Hframe]; [intros a Ha; destruct (Hblk a ltac:(lia)); tauto|done|].
  split; cbn; try done.
  - intros a Ha. destruct (Hin a Ha) as (? & ? & _). done.
  - intros v Hv. destruct (Hin (base + v) ltac:(lia)) as (_ & _ & ->). etransitivity; [|apply (Hs2 v); lia]. f_equal. lia.
  - apply Hev2.
Qed.
End load.

(** ** Examples *)

Definition demo_nt (base size soh align reloc_va reloc_size : Z) : list Z :=
  le_store 4 IMAGE_NT_SIGNATURE ++ le_store 2 IMAGE_FILE_MACHINE_AMD64 ++ le_store 2 1 ++ replicate 12 0 ++ le_store 2 240 ++ le_store 2 0
  ++ le_store 2 IMAGE_NT_OPTIONAL_HDR64_MAGIC ++ replicate 14 0 ++ le_store 4 0x40 ++ le_store 4 0 ++ le_store 8 base ++ le_store 4 align ++ replicate 20 0
  ++ le_store 4 size ++ le_store 4 soh ++ replicate 44 0 ++ le_store 4 16 ++ replicate 40 0 ++ le_store 4 reloc_va ++ le_store 4 reloc_size ++ replicate 80 0.
Definition demo_section (vsize va raw ptr flags : Z) : list Z :=
  replicate 8 0 ++ le_store 4 vsize ++ le_store 4 va ++ le_store 4 raw ++ le_store 4 ptr ++ replicate 12 0 ++ le_store 4 flags.
Definition demo_pe_file (base size align va reloc_va reloc_size : Z) (data : list Z) : list Z :=
  le_store 2 IMAGE_DOS_SIGNATURE ++ replicate 58 0 ++ le_store 4 64 ++ demo_nt base size 368 align reloc_va reloc_size
  ++ demo_section (Z.of_nat (length data)) va (Z.of_nat (length data)) 368 0xe0000000 ++ data.

(** An image with one section and one relocation. *)
Definition demo_pe : list Z :=
  demo_pe_file 0x10000 512 16 400 416 12 (le_store 8 0x10198 ++ le_store 8 0x7777 ++ le_store 4 400 ++ le_store 4 12 ++ le_store 2 0xa000 ++ le_store 2 0).

Lemma demo_pe_bytes : Forall is_byte demo_pe.
Proof. repeat (apply Forall_app; split); (apply (bool_decide_unpack _); vm_compute; exact I). Qed.

Lemma pe64_load_correct_witness : exists pl img st', plan_pe pe_x86_64 demo_pe false demo_rand = Ret pl /\
  pe64_load 512 pe_x86_64 3 demo_pe 0x1001 false true demo_rand demo = Ret (img, st') /\ pe_loaded demo_pe pl true demo st' img.
Proof.
  assert (Hc : match plan_pe pe_x86_64 demo_pe false demo_rand with Ret pl => Nat.leb (table_size (reloc_dir (pp_nt pl))) 3 | _ => false end = true) by (vm_compute; reflexivity).
  destruct (plan_pe pe_x86_64 demo_pe false demo_rand) as [pl|?| |] eqn:Hpl; [|discriminate Hc..].
  destruct (returns_Ret (pe64_load 512 pe_x86_64 3 demo_pe 0x1001 false true demo_rand demo)) as [[img st'] Hl]; [vm_compute; reflexivity|].
  exists pl, img, st'. split; [reflexivity|]. split; [exact Hl|].
  pose proof (pe64_load_correct 512 pe_x86_64 demo_pe 0x1001 false true demo_rand 3 pl demo demo_pe_bytes demo_type demo_inv Hpl) as H. rewrite Hl in H.
  apply H. by apply Nat.leb_le.
Defined.

(** A SectionAlignment of zero. *)
Lemma zero_alignment : pe64_load 512 pe_x86_64 3 (demo_pe_file 0x10000 512 0 400 416 12 []) 0x1001 false true demo_rand demo = Undef.
Proof. vm_compute. reflexivity. Qed.

(** The first relocation of the only block changes the header of the block, so that the
    check of the second one is made for another address than the write. *)
Definition escape_pe : list Z :=
  demo_pe_file 0xfffffffe80001ff0 0x2000 16 0x1ff0 0x1ff0 13 (le_store 4 0x1ff0 ++ le_store 4 12 ++ le_store 2 0xa000 ++ le_store 2 0xaff8).

(** C38: an image that relocates the header of its own relocation block is written outside
    of its block: the loader accepts it and changes memory that was in use. *)
Theorem pe64_reloc_escapes : exists img st' a, pe64_load 512 pe_x86_64 3 escape_pe 0x1001 false false demo_rand demo = Ret (img, st') /\
  ~ (img.(pe_physical_base) <= a < img.(pe_physical_base) + img.(pe_image_size)) /\ ~ usable demo a /\ ram st' a <> ram demo a.
Proof.
  assert (Hc : match pe64_load 512 pe_x86_64 3 escape_pe 0x1001 false false demo_rand demo with
               | Ret (img, st') => (pe_physical_base img + pe_image_size img <=? 0x7fffe8) && negb (ram st' 0x7fffe8 =? ram demo 0x7fffe8) | _ => false end = true)
    by (vm_compute; reflexivity).
  destruct (pe64_load 512 pe_x86_64 3 escape_pe 0x1001 false false demo_rand demo) as [[img st']|?| |]; [|discriminate Hc..].
  apply andb_true_iff in Hc as [H1%Z.leb_le H2]. exists img, st', 0x7fffe8. split_and!; [done|lia| |by apply negb_true_iff, Z.eqb_neq in H2].
  intros (e & He & Ht & Hin). change (memmap demo) with demo_map in He. unfold demo_map in He. rewrite !elem_of_cons in He. unfold inside in Hin.
  destruct He as [->|[->|[->|[->|He]]]]; cbn in Ht, Hin; try lia; try discriminate Ht. by apply not_elem_of_nil in He.
Qed.
