(* ===== verification/PeSafe.v ===== *)
(** * Untrusted PE images

    What [pe64_load] does with a file nobody checked.  The relocation loop reads its table
    from the image it changes.  While no relocation changes the table, the loop ends and
    writes nothing but the image.  A relocation of the table can move the writes behind
    the image, though by less than a page and a relocation. *)

From S2P Require Import Prelude Bytes Libc Memmap Sanitise Pmm PmmFacts PmmSpec Elf ElfReloc ElfLoad ElfSpec.
From S2P Require Import ElfElsewhere Pe PeSpec.

(** ** The writes of the table *)

(** The writes a block of the table in [m] asks for, up to the first entry that is
    refused, and whether there is none. *)
Fixpoint entry_writes (lower_to_higher : bool) (image_size : Z) (m : Z -> Z) (block va : Z) (k : nat) (i : Z) : list (Z * nat) * bool :=
  match k with
  | O => ([], true)
  | S k =>
      let reloc := read_mem 2 m (block + block_header + 2 * i) in
      let offset := Z.land reloc 0xfff in
      let rest := entry_writes lower_to_higher image_size m block va k (i + 1) in
      if Z.shiftr reloc 12 =? IMAGE_REL_BASED_ABSOLUTE then rest
      else match write_size lower_to_higher (Z.shiftr reloc 12) with
           | Ret n => if image_size <? va + offset + Z.of_nat n then ([], false) else ((va + offset, n) :: rest.1, rest.2)
           | _ => ([], false)
           end
  end.
Fixpoint block_writes (fuel : nat) (lower_to_higher : bool) (image_size : Z) (m : Z -> Z) (dir size offset : Z) : list (Z * nat) :=
  match fuel with
  | O => []
  | S fuel =>
      let va := read_mem 4 m (dir + offset) in
      let n := read_mem 4 m (dir + offset + 4) in
      if (size - offset <? block_header) || (n <? block_header) || (size - offset <? n) || (image_size <=? va) then []
      else
        let es := entry_writes lower_to_higher image_size m (dir + offset) va (Z.to_nat ((n - block_header) / 2)) 0 in
        es.1 ++ (if es.2 then block_writes fuel lower_to_higher image_size m dir size (offset + n) else [])
  end.

(** No relocation of the file changes the table. *)
Definition table_kept (image : list Z) (nt : nt_headers) (sections : list section_header) : bool :=
  let d := nt.(reloc_dir) in
  forallb (keeps_table d)
    (block_writes (table_size d) (pp_lower nt) nt.(SizeOfImage) (file_image image nt.(SizeOfHeaders) sections) d.(dir_VirtualAddress) d.(dir_Size) 0).

(** How far behind the image a relocation can be written: the block is in the image, the
    offset in it has 12 bits, and at most 8 bytes are written. *)
Definition escape : Z := 4102.

(** ** Memory of bytes *)

Definition byte_mem (mem : Z -> Z) : Prop := forall a, is_byte (mem a).

Lemma copy_to_byte mem p bs : byte_mem mem -> Forall is_byte bs -> byte_mem (copy_to mem p bs).
Proof. intros Hm Hb a. unfold copy_to. destruct (_ && _); [by apply file_byte|apply Hm]. Qed.

Lemma add_mem_byte n mem p x : byte_mem mem -> byte_mem (add_mem n mem p x).
Proof. intros Hm. apply copy_to_byte; [done|apply le_store_bytes]. Qed.

Lemma alloc_byte max st count type al p st' : pmm_inv st -> 0 <= count -> 0 < al -> count + al <= W62 -> byte_mem (ram st) ->
  ext_mem_alloc_type_aligned max st count type al = Ret (p, st') -> byte_mem (ram st').
Proof.
  intros Hi Hc Ha Hs Hb H. apply ext_alloc_spec in H as (q & [_ _ _ _ Hst] & _); [|done..]. intros a. rewrite Hst. cbn. unfold memset.
  destruct (_ && _); [by vm_compute|apply Hb].
Qed.

Lemma copy_sections_byte image base size sections : Forall is_byte image -> forall mem mem', byte_mem mem ->
  copy_sections image base size sections mem = Ret mem' -> byte_mem mem'.
Proof.
  intros Hb. induction sections as [|s sections IH]; intros mem mem' Hm H; cbn [copy_sections] in H; [by injection H as <-|].
  destruct (_ <? _); [done|]. destruct (_ <? _); [done|]. apply bind_Ret_inv in H as (bs & Hf & H). apply fetch_inv in Hf as (_ & _ & ->).
  eapply IH, H. by apply copy_to_byte, slice_bytes.
Qed.

(** ** The relocation loop *)

Section any_table.
Context (lower : bool) (base size slide : Z) (Hbase : 0 <= base) (Htop : base + size <= 0x100000000).

Lemma write_size_lands type : lands (fun n => (n <= 8)%nat) (write_size lower type).
Proof. unfold write_size. repeat case_match; cbn; (done || lia). Qed.

Lemma reloc_entries_near block bb k : base <= bb < base + size -> forall i mem, byte_mem mem ->
  lands (fun mem' => byte_mem mem' /\ same_outside base (size + escape) mem mem') (reloc_entries lower size slide block bb k i mem).
Proof.
  intros Hbb. induction k as [|k IH]; intros i mem Hm; cbn [reloc_entries]; [done|]. set (reloc := read_mem 2 mem _).
  assert (0 <= Z.land reloc 0xfff < 4096) as Ho by (change 0xfff with (Z.ones 12); rewrite Z.land_ones by lia; by apply Z.mod_pos_bound).
  destruct (_ =? _); [by apply IH|]. eapply lands_bind; [apply write_size_lands|]. intros n _ Hn. cbn beta in Hn. destruct (_ <? _); [done|].
  rewrite (u64_small (bb + _)) by lia. set (mem1 := add_mem _ _ _ _). assert (same_outside base (size + escape) mem mem1) as H1.
  { intros a Ha. unfold escape in Ha. apply add_same. lia. }
  specialize (IH (i + 1) mem1 ltac:(by apply add_mem_byte)). destruct (reloc_entries _ _ _ _ _ _ _ _); try done. destruct IH as [? H2].
  split; [done|by eapply same_outside_trans].
Qed.

(** Whatever memory holds, the loop writes the image and a little behind it. *)
Lemma reloc_blocks_near dir dsize fuel : forall offset mem, byte_mem mem ->
  match reloc_blocks fuel lower base size slide dir dsize offset mem with
  | Ret mem' => same_outside base (size + escape) mem mem'
  | Panic _ | Diverge => True
  | Undef => False
  end.
Proof.
  induction fuel as [|fuel IH]; intros offset mem Hm; cbn [reloc_blocks]; (destruct (_ <=? _); [|done]); [done|].
  set (block := u64 _). destruct (_ <? _); [done|]. destruct (_ <? _); [done|].
  pose proof (read_range 4 mem block Hm) as [Hr _]. split_leb size (read_mem 4 mem block); [done|].
  rewrite (u64_small (base + read_mem 4 mem block)) by lia.
  pose proof (reloc_entries_near block (base + read_mem 4 mem block) (Z.to_nat ((read_mem 4 mem (block + 4) - block_header) / 2)) ltac:(lia) 0 mem Hm) as He.
  destruct (reloc_entries _ _ _ _ _ _ _ _) as [mem1|?| |]; try done. destruct He as [Hm1 H1]. cbn [mbind outcome_bind].
  specialize (IH (u64 (offset + read_mem 4 mem1 (block + 4))) mem1 Hm1). destruct (reloc_blocks _ _ _ _ _ _ _ _ _); try done.
  by eapply same_outside_trans.
Qed.
End any_table.

Section kept_table.
Context (lower : bool) (base size slide dir dsize : Z) (m0 mem0 : Z -> Z).
Context (Hbase : 0 <= base) (Htop : base + size <= 0x100000000) (Hdir : 0 <= dir) (Hds : 0 <= dsize) (Hin : dir + dsize <= size).
Context (Hbytes : forall v, is_byte (m0 v)).
Let d := {| dir_VirtualAddress := dir; dir_Size := dsize |}.
#[local] Abbreviation state := (relocating base size dir dsize m0 mem0).

Lemma reloc_entries_kept block va k : dir <= block -> 0 <= va -> read_mem 4 m0 block = va -> forall i mem m, 0 <= i ->
  block + 8 + 2 * (i + Z.of_nat k) <= dir + dsize -> state mem m ->
  forallb (keeps_table d) (entry_writes lower size m0 block va k i).1 = true ->
  lands (fun mem' => (entry_writes lower size m0 block va k i).2 = true /\ exists m', state mem' m')
    (reloc_entries lower size slide (base + block) (base + va) k i mem).
Proof.
  intros Hblk Hva Eva. induction k as [|k IH]; intros i mem m Hi Hend Hr Hk; cbn [entry_writes reloc_entries] in *; [split; [done|by exists m]|].
  unfold block_header in *. assert (Hrd : read_mem 2 mem (u64 (base + block + 8 + 2 * i)) = read_mem 2 m0 (block + 8 + 2 * i)).
  { rewrite u64_small by lia. replace (base + block + 8 + 2 * i) with (base + (block + 8 + 2 * i)) by lia. apply (read_table base size dir dsize m0 Hdir Hin 2 mem0 mem m); (done || lia). }
  rewrite Hrd. set (reloc := read_mem 2 m0 (block + 8 + 2 * i)) in *. revert Hk. destruct (Z.shiftr reloc 12 =? _); [intros Hk; apply (IH (i + 1) mem m); (done || lia)|].
  destruct (write_size lower (Z.shiftr reloc 12)) as [n|?| |] eqn:Ew; [|done|by unfold write_size in Ew; repeat case_match..]. cbn [mbind outcome_bind].
  assert (Hv : read_mem 4 mem (base + block) = va) by (rewrite <- Eva; apply (read_table base size dir dsize m0 Hdir Hin 4 mem0 mem m); (done || lia)). rewrite Hv.
  split_ltb size (va + Z.land reloc 4095 + Z.of_nat n); [done|]. cbn [fst snd forallb]. intros Hk. apply andb_true_iff in Hk as [Hk1 Hk].
  assert (Hoff : 0 <= Z.land reloc 0xfff) by (apply Z.land_nonneg; lia).
  rewrite u64_small by lia. replace (base + va + Z.land reloc 4095) with (base + (va + Z.land reloc 4095)) by lia.
  eapply (IH (i + 1)); [lia|lia| |done]. apply reloc_step; [done|lia|lia|done].
Qed.

(** The loop ends, and writes nothing but the image. *)
Lemma reloc_blocks_kept n : forall fuel offset mem m, (n <= fuel)%nat -> (Z.to_nat ((dsize - offset) / 8) < n)%nat -> 0 <= offset <= dsize -> state mem m ->
  forallb (keeps_table d) (block_writes n lower size m0 dir dsize offset) = true ->
  lands (fun mem' => same_outside base size mem0 mem') (reloc_blocks fuel lower base size slide dir dsize offset mem).
Proof.
  induction n as [|n IH]; intros fuel offset mem m Hf Hn Ho Hr Hk; [lia|]. destruct fuel as [|fuel]; [lia|]. cbn [reloc_blocks block_writes] in *.
  rewrite (u64_small (dsize - offset)) by lia. unfold block_header in *. split_leb 8 (dsize - offset); [|apply Hr].
  rewrite (proj2 (Z.ltb_ge (dsize - offset) 8)) in Hk by lia.
  rewrite (u64_small (base + dir + offset)) by lia. replace (base + dir + offset) with (base + (dir + offset)) by lia.
  replace (base + (dir + offset) + 4) with (base + (dir + offset + 4)) by lia.
  rewrite !(read_table base size dir dsize m0 Hdir Hin 4 mem0 mem m) by (done || lia).
  set (va := read_mem 4 m0 (dir + offset)) in *. set (sz := read_mem 4 m0 (dir + offset + 4)) in *.
  split_ltb sz 8; [done|]. split_ltb (dsize - offset) sz; [done|]. split_leb size va; [done|]. cbn [orb] in Hk.
  assert (Hva : 0 <= va) by (apply read_range; done). rewrite (u64_small (base + va)) by lia. rewrite forallb_app in Hk. apply andb_true_iff in Hk as [Hk1 Hk2].
  pose proof (Z.mul_div_le (sz - 8) 2 ltac:(lia)). assert (0 <= (sz - 8) / 2) by (apply Z.div_pos; lia).
  eapply lands_bind; [apply (reloc_entries_kept (dir + offset) va _ ltac:(lia) Hva eq_refl 0 mem m); (done || lia)|].
  intros mem1 _ [Hok [m1 Hr1]]. rewrite Hok in Hk2. rewrite (read_table base size dir dsize m0 Hdir Hin 4 mem0 mem1 m1) by (done || lia). fold sz.
  rewrite (u64_small (offset + sz)) by lia. apply (IH fuel (offset + sz) mem1 m1); [lia| |lia|done|done].
  assert ((dsize - (offset + sz)) / 8 <= (dsize - offset) / 8 - 1).
  { replace ((dsize - offset) / 8 - 1) with ((dsize - offset - 8) / 8) by (replace (dsize - offset - 8) with (dsize - offset + (-1) * 8) by lia; rewrite Z.div_add; lia). apply Z.div_le_mono; lia. }
  assert (0 <= (dsize - (offset + sz)) / 8) by (apply Z.div_pos; lia). lia.
Qed.
End kept_table.

(** ** pe64_load *)

Section load.
Context (max : nat) (t : pe_target) (image : list Z) (alloc_type : Z) (kaslr want_ranges : bool) (rand : nat -> Z).
Hypothesis Hbytes : Forall is_byte image.

(** No read of the file is out of bounds. *)
Lemma pe64_validate_lands :
  lands (fun _ => exists e, rd image 60 4 = Ret e /\ 0 <= e < W32 /\ e + nt_size <= Z.of_nat (length image)) (pe64_validate t image).
Proof.
  unfold pe64_validate, dos_size, nt_size. case_b; [done|]. destruct (rd_Ret image 0 2) as [mg ->]; [lia..|]. cbn [mbind outcome_bind].
  destruct (negb _); [done|]. case_b; [done|]. destruct (rd_Ret image 60 4) as [e He]; [lia..|]. rewrite He. cbn [mbind outcome_bind].
  pose proof (rd_range image 60 4 e Hbytes ltac:(lia) He) as Hr. change (W8 ^ 4) with W32 in Hr. case_b; [done|]. rewrite fetch_Ret by lia. cbn [mbind outcome_bind].
  repeat (destruct (negb _); [done|]). exists e. split_and!; [done|lia..].
Qed.
Lemma read_sections_Ret k : forall off, 0 <= off -> off + Z.of_nat k * section_size <= Z.of_nat (length image) -> exists l, read_sections image off k = Ret l.
Proof.
  unfold section_size. induction k as [|k IH]; intros off H1 H2; cbn [read_sections]; [eauto|]. unfold section_size. rewrite fetch_Ret by lia. cbn [mbind outcome_bind].
  destruct (IH (off + 40)) as [l ->]; [lia..|]. cbn. eauto.
Qed.
Lemma pe_headers_lands : lands (fun _ => True) (pe_headers t image).
Proof.
  unfold pe_headers. eapply lands_bind; [apply pe64_validate_lands|]. intros _ _ (e & -> & He & Hl). cbn [mbind outcome_bind].
  rewrite fetch_Ret by lia. cbn [mbind outcome_bind]. cbv zeta.
  pose proof (load_nt_ok (slice (Z.to_nat e) (Z.to_nat nt_size) image) (slice_bytes _ _ _ Hbytes)) as Hok. set (nt := load_nt _) in *. unfold nt_ok in Hok. unfold section_size.
  rewrite (u64_small (NumberOfSections nt * 40)), (u64_small (e + 4 + 20 + SizeOfOptionalHeader nt)), u64_small by lia. case_b; [done|].
  destruct (read_sections_Ret (Z.to_nat (NumberOfSections nt)) (e + 4 + 20 + SizeOfOptionalHeader nt)) as [l ->]; [lia|unfold section_size; lia|]. done.
Qed.

Lemma copy_sections_lands base size sections : Forall section_ok sections -> forall mem,
  lands (fun _ => forallb (section_fits image size) sections = true) (copy_sections image base size sections mem).
Proof.
  induction 1 as [|s sections (Hva & Hraw & Hptr) Hs IH]; intros mem; cbn [copy_sections forallb]; [done|]. unfold section_fits at 1.
  split_ltb size (VirtualAddress s + section_raw_size s); [done|]. split_ltb (Z.of_nat (length image)) (PointerToRawData s + section_raw_size s); [done|].
  rewrite !(proj2 (Z.leb_le _ _)) by lia. rewrite fetch_Ret by lia. cbn [mbind outcome_bind andb]. apply IH.
Qed.

Lemma pe_kaslr_lands tries : forall n al ms vb size, lands (fun _ => True) (pe_kaslr tries rand n al ms vb size).
Proof. induction tries as [|tries IH]; intros n al ms vb size; cbn [pe_kaslr]; [done|]. case_match; [apply IH|done]. Qed.

(** The relocation of an image that is in place. *)
Lemma pe_relocate_confined nt sections base fuel slide mem0 mem : nt_ok nt -> 0 <= base -> base + nt.(SizeOfImage) <= 0x100000000 ->
  (table_size nt.(reloc_dir) <= fuel)%nat -> byte_mem mem -> same_outside base nt.(SizeOfImage) mem0 mem ->
  shows base 0 nt.(SizeOfImage) mem (file_image image nt.(SizeOfHeaders) sections) ->
  match pe_relocate fuel (pp_lower nt) base nt.(SizeOfImage) slide nt.(reloc_dir) mem with
  | Ret mem' => same_outside base (nt.(SizeOfImage) + if table_kept image nt sections then 0 else escape) mem0 mem'
  | Panic _ => True
  | Undef => False
  | Diverge => table_kept image nt sections = false
  end.
Proof.
  intros Hok Hb Htop Hfuel Hm Ho Hs. unfold nt_ok in Hok. unfold pe_relocate, table_kept. destruct (reloc_dir nt) as [dir dsize]. cbn [dir_VirtualAddress dir_Size] in *.
  assert (Hwide : forall b : bool, same_outside base (SizeOfImage nt + if b then 0 else escape) mem0 mem).
  { intros b. eapply same_outside_weaken, Ho; [lia|]. unfold escape. destruct b; lia. }
  destruct (dir =? 0); [apply Hwide|]. destruct (_ || _) eqn:Ec; [done|]. apply orb_false_iff in Ec as [H1%Z.leb_gt H2%Z.ltb_ge].
  destruct (forallb _ _) eqn:Hk.
  - pose proof (reloc_blocks_kept (pp_lower nt) base (SizeOfImage nt) slide dir dsize (file_image image (SizeOfHeaders nt) sections) mem0 Hb Htop ltac:(lia) ltac:(lia)
      (fun v => file_image_is_byte _ _ _ v Hbytes) (table_size {| dir_VirtualAddress := dir; dir_Size := dsize |}) fuel 0 mem (file_image image (SizeOfHeaders nt) sections)
      Hfuel ltac:(unfold table_size; cbn [dir_Size]; rewrite Z.sub_0_r; lia) ltac:(lia)) as H. rewrite Z.add_0_r.
    specialize (H ltac:(by split) Hk). by destruct (reloc_blocks _ _ _ _ _ _ _ _ _).
  - pose proof (reloc_blocks_near (pp_lower nt) base (SizeOfImage nt) slide Hb Htop dir dsize fuel 0 mem Hm) as H.
    destruct (reloc_blocks _ _ _ _ _ _ _ _ _); try done. eapply same_outside_trans; [apply (Hwide false)|exact H].
Qed.

(** The image in its block, before the relocation. *)
Lemma image_in_place nt sections base mem0 mem : nt_ok nt -> Forall section_ok sections -> 0 <= base -> base + nt.(SizeOfImage) <= 0x100000000 ->
  nt.(SizeOfHeaders) <= nt.(SizeOfImage) -> nt.(SizeOfHeaders) <= Z.of_nat (length image) -> byte_mem mem0 ->
  (forall a, base <= a < base + nt.(SizeOfImage) -> mem0 a = 0) ->
  copy_sections image base nt.(SizeOfImage) sections (copy_to mem0 base (slice 0 (Z.to_nat nt.(SizeOfHeaders)) image)) = Ret mem ->
  byte_mem mem /\ same_outside base nt.(SizeOfImage) mem0 mem /\ shows base 0 nt.(SizeOfImage) mem (file_image image nt.(SizeOfHeaders) sections).
Proof.
  intros Hok Hsec Hb Htop Hs1 Hs2 Hm Hz H. unfold nt_ok in Hok. set (mem1 := copy_to _ _ _) in H.
  pose proof (copy_sections_lands base (SizeOfImage nt) sections Hsec mem1) as Hfit. rewrite H in Hfit. cbn in Hfit.
  pose proof (headers_shows base (SizeOfImage nt) image (SizeOfHeaders nt) mem0 ltac:(lia) Hs2 Hz) as Hs0.
  destruct (copy_sections_spec base (SizeOfImage nt) ltac:(lia) ltac:(lia) image sections Hsec Hfit _ _ Hs0) as (mem' & E & Hs & Ho). fold mem1 in E, Ho.
  rewrite H in E. injection E as <-. split_and!; [|eapply same_outside_trans, Ho; apply copy_to_outside; rewrite length_slice; lia|done].
  eapply copy_sections_byte, H; [done|]. by apply copy_to_byte, slice_bytes.
Qed.

(** C37: whatever bytes the file holds, if its SectionAlignment is not zero, [pe64_load]
    reads the file within its bounds.  When it returns, the block of the image was usable
    memory below 4 GiB and is in use now, the invariant of the memory map holds, and memory
    that was in use has not changed, except, if a relocation of the image changes the
    relocation table ([table_kept] is false), for at most 4102 bytes behind the image.
    Only then can the relocation loop fail to end: with the table kept, it ends within
    one step more than the table has room for headers. *)
Theorem pe64_load_confined fuel st : alloc_type <> MEMMAP_USABLE -> pmm_inv st -> byte_mem (ram st) ->
  (forall nt sections, pe_headers t image = Ret (nt, sections) -> nt.(SectionAlignment) <> 0 /\ (table_size nt.(reloc_dir) <= fuel)%nat) ->
  let kept := match pe_headers t image with Ret (nt, sections) => table_kept image nt sections | _ => true end in
  match pe64_load max t fuel image alloc_type kaslr want_ranges rand st with
  | Ret (img, st') =>
      let top := img.(pe_physical_base) + img.(pe_image_size) in
      pmm_inv st' /\ 0 <= img.(pe_physical_base) /\ top <= 0x100000000 /\
      (forall a, img.(pe_physical_base) <= a < top -> usable st a /\ ~ usable st' a) /\
      (forall a, ~ usable st a -> ~ usable st' a /\ (ram st' a = ram st a \/ kept = false /\ top <= a < top + escape))
  | Panic _ => True
  | Undef => False
  | Diverge => kept = false
  end.
Proof.
  intros Ht Hi Hm Hal kept. unfold pe64_load, kept. pose proof pe_headers_lands as Hd. destruct (pe_headers t image) as [[nt sections]|?| |] eqn:Hh; try done.
  cbn [mbind outcome_bind]. destruct (pe_headers_ok _ _ _ _ Hbytes Hh) as [Hok Hsec]. pose proof Hok as (Hsz & Hsoh & Ha & _).
  destruct (Hal _ _ eq_refl) as [Hal0 Hfuel]. cbv zeta. fold (pp_lower nt) (pp_is_reloc nt).
  destruct (_ && _) in |- *; [done|]. destruct (_ && _) in |- *; [done|]. rewrite (proj2 (Z.eqb_neq (SectionAlignment nt) 0)) by done.
  pose proof (alloc_total max st (SizeOfImage nt) alloc_type (SectionAlignment nt) Hi ltac:(lia) ltac:(lia) ltac:(lia)) as Hta.
  destruct (ext_mem_alloc_type_aligned _ _ _ _ _) as [[base st1]|?| |] eqn:Ea; try done. cbn [mbind outcome_bind].
  apply alloc_byte in Ea as Hm1; [|done|lia..|done]. destruct (ALIGN_UP_spec (SizeOfImage nt) (SectionAlignment nt)) as (k & _ & Hup); [lia..|].
  apply alloc_evolves in Ea as (Hev & Hb0 & _ & Hlim & Hblk); [|done|lia..|done]. destruct (_ || _) eqn:Ec; [done|]. apply orb_false_iff in Ec as [H1%Z.ltb_ge H2%Z.ltb_ge].
  rewrite fetch_Ret by lia. change (Z.to_nat 0) with 0%nat. cbn [mbind outcome_bind].
  set (sl := if pp_is_reloc nt && kaslr then _ else _). assert (lands (fun _ => True) sl) as Hsl by (unfold sl; destruct (_ && kaslr); [apply pe_kaslr_lands|done]).
  destruct sl as [slide|?| |]; try done. cbn [mbind outcome_bind].
  pose proof (copy_sections_lands base (SizeOfImage nt) sections Hsec (copy_to (ram st1) base (slice 0 (Z.to_nat (SizeOfHeaders nt)) image))) as Hcs.
  destruct (copy_sections _ _ _ _ _) as [mem1|?| |] eqn:Ecs; try done. cbn [mbind outcome_bind]. destruct (_ <? 6); [done|].
  apply image_in_place in Ecs as (Hm2 & Ho2 & Hs2); [|done|done|lia|lia|lia|lia|done|intros a Ha'; apply Hblk; lia].
  assert (lands (fun _ => True) (check_imports base (SizeOfImage nt) (import_dir nt) mem1)) as Hci by (unfold check_imports; repeat case_match; done).
  destruct (check_imports _ _ _ _); try done. cbn [mbind outcome_bind].
  pose proof (pe_relocate_confined nt sections base fuel slide (ram st1) mem1 Hok Hb0 ltac:(lia) Hfuel Hm2 Ho2 Hs2) as Hrd.
  destruct (pe_relocate _ _ _ _ _ _ _) as [mem2|?| |]; try done. cbn [mbind outcome_bind]. set (ranges := pe_ranges _ _ _ _).
  assert (Hi2 : pmm_inv (set_ram mem2 st1)) by (destruct (ev_inv _ _ Hev); by split).
  pose proof (ranges_alloc max want_ranges (set_ram mem2 st1) ranges Hi2 (pe_ranges_length t image nt sections _ _ _ Hh Hok)) as Hra.
  destruct (if want_ranges then _ else _) as [[rs st2]|?| |]; try done. destruct Hra as [_ Hev2]. cbn [mbind outcome_bind pe_physical_base pe_image_size].
  pose proof Hev as [_ _ U1 R1]. pose proof Hev2 as [I2 _ U2 R2]. cbv zeta. split; [done|]. split; [done|]. split; [lia|]. split.
  - intros x Ha'. destruct (Hblk x ltac:(lia)) as (Hu & Hn & _). split; [done|]. intros Hu'. by apply Hn, U2.
  - intros x Ha'. assert (~ usable st1 x) as Hn by auto. split; [intros Hu; by apply Hn, U2|]. rewrite R2 by done. cbn [ram set_ram].
    destruct (decide (base <= x < base + SizeOfImage nt)) as [Hin|Hin]; [by destruct Ha'; apply Hblk; lia|].
    destruct (decide (ram st1 x = mem2 x)) as [E|E]; [left; rewrite <- E; by apply R1|right].
    revert Hrd. destruct (table_kept _ _ _); intros Hrd; [by destruct E; rewrite Hrd by lia|]. split; [done|]. destruct (decide (x < base + SizeOfImage nt + escape)); [|by destruct E; rewrite Hrd by lia].
    split; [|done]. destruct (decide (x < base)); [by destruct E; rewrite Hrd by lia|lia].
Qed.
End load.

Lemma demo_byte : byte_mem (ram demo).
Proof. intros a. cbn. unfold is_byte. lia. Qed.

(** The example keeps its table; the image that escapes does not. *)
Definition keeps_its_table (image : list Z) : bool :=
  match pe_headers pe_x86_64 image with Ret (nt, sections) => table_kept image nt sections | _ => true end.

Lemma table_examples : keeps_its_table demo_pe = true /\ keeps_its_table escape_pe = false.
Proof. vm_compute. done. Qed.

Lemma pe64_load_confined_witness : exists img st', pe64_load 512 pe_x86_64 3 demo_pe 0x1001 false true demo_rand demo = Ret (img, st') /\
  forall a, ~ usable demo a -> ram st' a = ram demo a.
Proof.
  assert (Hc : match pe_headers pe_x86_64 demo_pe with
    | Ret (nt, _) => (SectionAlignment nt =? 16) && Nat.leb (table_size (reloc_dir nt)) 3 | _ => false end = true) by (vm_compute; reflexivity).
  pose proof (pe64_load_confined 512 pe_x86_64 demo_pe 0x1001 false true demo_rand demo_pe_bytes 3 demo demo_type demo_inv demo_byte) as H.
  fold (keeps_its_table demo_pe) in H. rewrite (proj1 table_examples) in H.
  destruct (returns_Ret (pe64_load 512 pe_x86_64 3 demo_pe 0x1001 false true demo_rand demo)) as [[img st'] Hl]; [vm_compute; reflexivity|].
  rewrite Hl in H. exists img, st'. split; [exact Hl|]. destruct H as (_ & _ & _ & _ & Hf).
  - intros nt sections Hh. rewrite Hh in Hc. apply andb_true_iff in Hc as [Ha%Z.eqb_eq Hc%Nat.leb_le]. split; [rewrite Ha; discriminate|exact Hc].
  - intros a Ha. destruct (Hf a Ha) as [_ [Hr|[Hr _]]]; [exact Hr|discriminate Hr].
Defined.
