(* ===== verification/TermTables.v ===== *)
(** The tables of the terminal (flanterm/src/flanterm.c): the 256-colour
    palette, the width of a Unicode character (the interval tables and the
    binary search of mk_wcwidth), the translation of code points to code page
    437, and the DEC special graphics set.  The binary search is shown to decide
    membership in the intervals, the palette to be the six-level colour cube
    followed by the grey ramp, and the bit-counting of the braille
    approximation to count bits. *)
From S2P Require Import Prelude.

Record interval := Interval { first : Z; last : Z }.

(** The colours 16 to 255 of the 256-colour palette. *)
Definition col256 : list Z :=
  [
    0x000000; 0x00005f; 0x000087; 0x0000af; 0x0000d7; 0x0000ff; 0x005f00; 0x005f5f; 0x005f87;
    0x005faf; 0x005fd7; 0x005fff; 0x008700; 0x00875f; 0x008787; 0x0087af; 0x0087d7; 0x0087ff;
    0x00af00; 0x00af5f; 0x00af87; 0x00afaf; 0x00afd7; 0x00afff; 0x00d700; 0x00d75f; 0x00d787;
    0x00d7af; 0x00d7d7; 0x00d7ff; 0x00ff00; 0x00ff5f; 0x00ff87; 0x00ffaf; 0x00ffd7; 0x00ffff;
    0x5f0000; 0x5f005f; 0x5f0087; 0x5f00af; 0x5f00d7; 0x5f00ff; 0x5f5f00; 0x5f5f5f; 0x5f5f87;
    0x5f5faf; 0x5f5fd7; 0x5f5fff; 0x5f8700; 0x5f875f; 0x5f8787; 0x5f87af; 0x5f87d7; 0x5f87ff;
    0x5faf00; 0x5faf5f; 0x5faf87; 0x5fafaf; 0x5fafd7; 0x5fafff; 0x5fd700; 0x5fd75f; 0x5fd787;
    0x5fd7af; 0x5fd7d7; 0x5fd7ff; 0x5fff00; 0x5fff5f; 0x5fff87; 0x5fffaf; 0x5fffd7; 0x5fffff;
    0x870000; 0x87005f; 0x870087; 0x8700af; 0x8700d7; 0x8700ff; 0x875f00; 0x875f5f; 0x875f87;
    0x875faf; 0x875fd7; 0x875fff; 0x878700; 0x87875f; 0x878787; 0x8787af; 0x8787d7; 0x8787ff;
    0x87af00; 0x87af5f; 0x87af87; 0x87afaf; 0x87afd7; 0x87afff; 0x87d700; 0x87d75f; 0x87d787;
    0x87d7af; 0x87d7d7; 0x87d7ff; 0x87ff00; 0x87ff5f; 0x87ff87; 0x87ffaf; 0x87ffd7; 0x87ffff;
    0xaf0000; 0xaf005f; 0xaf0087; 0xaf00af; 0xaf00d7; 0xaf00ff; 0xaf5f00; 0xaf5f5f; 0xaf5f87;
    0xaf5faf; 0xaf5fd7; 0xaf5fff; 0xaf8700; 0xaf875f; 0xaf8787; 0xaf87af; 0xaf87d7; 0xaf87ff;
    0xafaf00; 0xafaf5f; 0xafaf87; 0xafafaf; 0xafafd7; 0xafafff; 0xafd700; 0xafd75f; 0xafd787;
    0xafd7af; 0xafd7d7; 0xafd7ff; 0xafff00; 0xafff5f; 0xafff87; 0xafffaf; 0xafffd7; 0xafffff;
    0xd70000; 0xd7005f; 0xd70087; 0xd700af; 0xd700d7; 0xd700ff; 0xd75f00; 0xd75f5f; 0xd75f87;
    0xd75faf; 0xd75fd7; 0xd75fff; 0xd78700; 0xd7875f; 0xd78787; 0xd787af; 0xd787d7; 0xd787ff;
    0xd7af00; 0xd7af5f; 0xd7af87; 0xd7afaf; 0xd7afd7; 0xd7afff; 0xd7d700; 0xd7d75f; 0xd7d787;
    0xd7d7af; 0xd7d7d7; 0xd7d7ff; 0xd7ff00; 0xd7ff5f; 0xd7ff87; 0xd7ffaf; 0xd7ffd7; 0xd7ffff;
    0xff0000; 0xff005f; 0xff0087; 0xff00af; 0xff00d7; 0xff00ff; 0xff5f00; 0xff5f5f; 0xff5f87;
    0xff5faf; 0xff5fd7; 0xff5fff; 0xff8700; 0xff875f; 0xff8787; 0xff87af; 0xff87d7; 0xff87ff;
    0xffaf00; 0xffaf5f; 0xffaf87; 0xffafaf; 0xffafd7; 0xffafff; 0xffd700; 0xffd75f; 0xffd787;
    0xffd7af; 0xffd7d7; 0xffd7ff; 0xffff00; 0xffff5f; 0xffff87; 0xffffaf; 0xffffd7; 0xffffff;
    0x080808; 0x121212; 0x1c1c1c; 0x262626; 0x303030; 0x3a3a3a; 0x444444; 0x4e4e4e; 0x585858;
    0x626262; 0x6c6c6c; 0x767676; 0x808080; 0x8a8a8a; 0x949494; 0x9e9e9e; 0xa8a8a8; 0xb2b2b2;
    0xbcbcbc; 0xc6c6c6; 0xd0d0d0; 0xdadada; 0xe4e4e4; 0xeeeeee
  ].

(** The zero-width characters. *)
Definition combining : list interval :=
  [
    Interval 0x0300 0x036F; Interval 0x0483 0x0489; Interval 0x0591 0x05BD;
    Interval 0x05BF 0x05BF; Interval 0x05C1 0x05C2; Interval 0x05C4 0x05C5;
    Interval 0x05C7 0x05C7; Interval 0x0610 0x061A; Interval 0x061C 0x061C;
    Interval 0x064B 0x065F; Interval 0x0670 0x0670; Interval 0x06D6 0x06DC;
    Interval 0x06DF 0x06E4; Interval 0x06E7 0x06E8; Interval 0x06EA 0x06ED;
    Interval 0x0711 0x0711; Interval 0x0730 0x074A; Interval 0x07A6 0x07B0;
    Interval 0x07EB 0x07F3; Interval 0x07FD 0x07FD; Interval 0x0816 0x0819;
    Interval 0x081B 0x0823; Interval 0x0825 0x0827; Interval 0x0829 0x082D;
    Interval 0x0859 0x085B; Interval 0x0897 0x089F; Interval 0x08CA 0x08E1;
    Interval 0x08E3 0x0902; Interval 0x093A 0x093A; Interval 0x093C 0x093C;
    Interval 0x0941 0x0948; Interval 0x094D 0x094D; Interval 0x0951 0x0957;
    Interval 0x0962 0x0963; Interval 0x0981 0x0981; Interval 0x09BC 0x09BC;
    Interval 0x09C1 0x09C4; Interval 0x09CD 0x09CD; Interval 0x09E2 0x09E3;
    Interval 0x09FE 0x09FE; Interval 0x0A01 0x0A02; Interval 0x0A3C 0x0A3C;
    Interval 0x0A41 0x0A42; Interval 0x0A47 0x0A48; Interval 0x0A4B 0x0A4D;
    Interval 0x0A51 0x0A51; Interval 0x0A70 0x0A71; Interval 0x0A75 0x0A75;
    Interval 0x0A81 0x0A82; Interval 0x0ABC 0x0ABC; Interval 0x0AC1 0x0AC5;
    Interval 0x0AC7 0x0AC8; Interval 0x0ACD 0x0ACD; Interval 0x0AE2 0x0AE3;
    Interval 0x0AFA 0x0AFF; Interval 0x0B01 0x0B01; Interval 0x0B3C 0x0B3C;
    Interval 0x0B3F 0x0B3F; Interval 0x0B41 0x0B44; Interval 0x0B4D 0x0B4D;
    Interval 0x0B55 0x0B56; Interval 0x0B62 0x0B63; Interval 0x0B82 0x0B82;
    Interval 0x0BC0 0x0BC0; Interval 0x0BCD 0x0BCD; Interval 0x0C00 0x0C00;
    Interval 0x0C04 0x0C04; Interval 0x0C3C 0x0C3C; Interval 0x0C3E 0x0C40;
    Interval 0x0C46 0x0C48; Interval 0x0C4A 0x0C4D; Interval 0x0C55 0x0C56;
    Interval 0x0C62 0x0C63; Interval 0x0C81 0x0C81; Interval 0x0CBC 0x0CBC;
    Interval 0x0CBF 0x0CBF; Interval 0x0CC6 0x0CC6; Interval 0x0CCC 0x0CCD;
    Interval 0x0CE2 0x0CE3; Interval 0x0D00 0x0D01; Interval 0x0D3B 0x0D3C;
    Interval 0x0D41 0x0D44; Interval 0x0D4D 0x0D4D; Interval 0x0D62 0x0D63;
    Interval 0x0D81 0x0D81; Interval 0x0DCA 0x0DCA; Interval 0x0DD2 0x0DD4;
    Interval 0x0DD6 0x0DD6; Interval 0x0E31 0x0E31; Interval 0x0E34 0x0E3A;
    Interval 0x0E47 0x0E4E; Interval 0x0EB1 0x0EB1; Interval 0x0EB4 0x0EBC;
    Interval 0x0EC8 0x0ECE; Interval 0x0F18 0x0F19; Interval 0x0F35 0x0F35;
    Interval 0x0F37 0x0F37; Interval 0x0F39 0x0F39; Interval 0x0F71 0x0F7E;
    Interval 0x0F80 0x0F84; Interval 0x0F86 0x0F87; Interval 0x0F8D 0x0F97;
    Interval 0x0F99 0x0FBC; Interval 0x0FC6 0x0FC6; Interval 0x102D 0x1030;
    Interval 0x1032 0x1037; Interval 0x1039 0x103A; Interval 0x103D 0x103E;
    Interval 0x1058 0x1059; Interval 0x105E 0x1060; Interval 0x1071 0x1074;
    Interval 0x1082 0x1082; Interval 0x1085 0x1086; Interval 0x108D 0x108D;
    Interval 0x109D 0x109D; Interval 0x1160 0x11FF; Interval 0x135D 0x135F;
    Interval 0x1712 0x1714; Interval 0x1732 0x1733; Interval 0x1752 0x1753;
    Interval 0x1772 0x1773; Interval 0x17B4 0x17B5; Interval 0x17B7 0x17BD;
    Interval 0x17C6 0x17C6; Interval 0x17C9 0x17D3; Interval 0x17DD 0x17DD;
    Interval 0x180B 0x180F; Interval 0x1885 0x1886; Interval 0x18A9 0x18A9;
    Interval 0x1920 0x1922; Interval 0x1927 0x1928; Interval 0x1932 0x1932;
    Interval 0x1939 0x193B; Interval 0x1A17 0x1A18; Interval 0x1A1B 0x1A1B;
    Interval 0x1A56 0x1A56; Interval 0x1A58 0x1A5E; Interval 0x1A60 0x1A60;
    Interval 0x1A62 0x1A62; Interval 0x1A65 0x1A6C; Interval 0x1A73 0x1A7C;
    Interval 0x1A7F 0x1A7F; Interval 0x1AB0 0x1ADD; Interval 0x1AE0 0x1AEB;
    Interval 0x1B00 0x1B03; Interval 0x1B34 0x1B34; Interval 0x1B36 0x1B3A;
    Interval 0x1B3C 0x1B3C; Interval 0x1B42 0x1B42; Interval 0x1B6B 0x1B73;
    Interval 0x1B80 0x1B81; Interval 0x1BA2 0x1BA5; Interval 0x1BA8 0x1BA9;
    Interval 0x1BAB 0x1BAD; Interval 0x1BE6 0x1BE6; Interval 0x1BE8 0x1BE9;
    Interval 0x1BED 0x1BED; Interval 0x1BEF 0x1BF1; Interval 0x1C2C 0x1C33;
    Interval 0x1C36 0x1C37; Interval 0x1CD0 0x1CD2; Interval 0x1CD4 0x1CE0;
    Interval 0x1CE2 0x1CE8; Interval 0x1CED 0x1CED; Interval 0x1CF4 0x1CF4;
    Interval 0x1CF8 0x1CF9; Interval 0x1DC0 0x1DFF; Interval 0x200B 0x200F;
    Interval 0x2028 0x202E; Interval 0x2060 0x206F; Interval 0x20D0 0x20F0;
    Interval 0x2CEF 0x2CF1; Interval 0x2D7F 0x2D7F; Interval 0x2DE0 0x2DFF;
    Interval 0x302A 0x302D; Interval 0x3099 0x309A; Interval 0x3164 0x3164;
    Interval 0xA66F 0xA672; Interval 0xA674 0xA67D; Interval 0xA69E 0xA69F;
    Interval 0xA6F0 0xA6F1; Interval 0xA802 0xA802; Interval 0xA806 0xA806;
    Interval 0xA80B 0xA80B; Interval 0xA825 0xA826; Interval 0xA82C 0xA82C;
    Interval 0xA8C4 0xA8C5; Interval 0xA8E0 0xA8F1; Interval 0xA8FF 0xA8FF;
    Interval 0xA926 0xA92D; Interval 0xA947 0xA951; Interval 0xA980 0xA982;
    Interval 0xA9B3 0xA9B3; Interval 0xA9B6 0xA9B9; Interval 0xA9BC 0xA9BD;
    Interval 0xA9E5 0xA9E5; Interval 0xAA29 0xAA2E; Interval 0xAA31 0xAA32;
    Interval 0xAA35 0xAA36; Interval 0xAA43 0xAA43; Interval 0xAA4C 0xAA4C;
    Interval 0xAA7C 0xAA7C; Interval 0xAAB0 0xAAB0; Interval 0xAAB2 0xAAB4;
    Interval 0xAAB7 0xAAB8; Interval 0xAABE 0xAABF; Interval 0xAAC1 0xAAC1;
    Interval 0xAAEC 0xAAED; Interval 0xAAF6 0xAAF6; Interval 0xABE5 0xABE5;
    Interval 0xABE8 0xABE8; Interval 0xABED 0xABED; Interval 0xD7B0 0xD7FF;
    Interval 0xFB1E 0xFB1E; Interval 0xFE00 0xFE0F; Interval 0xFE20 0xFE2F;
    Interval 0xFEFF 0xFEFF; Interval 0xFFA0 0xFFA0; Interval 0xFFF0 0xFFFB;
    Interval 0x101FD 0x101FD; Interval 0x102E0 0x102E0; Interval 0x10376 0x1037A;
    Interval 0x10A01 0x10A03; Interval 0x10A05 0x10A06; Interval 0x10A0C 0x10A0F;
    Interval 0x10A38 0x10A3A; Interval 0x10A3F 0x10A3F; Interval 0x10AE5 0x10AE6;
    Interval 0x10D24 0x10D27; Interval 0x10D69 0x10D6D; Interval 0x10EAB 0x10EAC;
    Interval 0x10EFA 0x10EFF; Interval 0x10F46 0x10F50; Interval 0x10F82 0x10F85;
    Interval 0x11001 0x11001; Interval 0x11038 0x11046; Interval 0x11070 0x11070;
    Interval 0x11073 0x11074; Interval 0x1107F 0x11081; Interval 0x110B3 0x110B6;
    Interval 0x110B9 0x110BA; Interval 0x110C2 0x110C2; Interval 0x11100 0x11102;
    Interval 0x11127 0x1112B; Interval 0x1112D 0x11134; Interval 0x11173 0x11173;
    Interval 0x11180 0x11181; Interval 0x111B6 0x111BE; Interval 0x111C9 0x111CC;
    Interval 0x111CF 0x111CF; Interval 0x1122F 0x11231; Interval 0x11234 0x11234;
    Interval 0x11236 0x11237; Interval 0x1123E 0x1123E; Interval 0x11241 0x11241;
    Interval 0x112DF 0x112DF; Interval 0x112E3 0x112EA; Interval 0x11300 0x11301;
    Interval 0x1133B 0x1133C; Interval 0x11340 0x11340; Interval 0x11366 0x1136C;
    Interval 0x11370 0x11374; Interval 0x113BB 0x113C0; Interval 0x113CE 0x113CE;
    Interval 0x113D0 0x113D0; Interval 0x113D2 0x113D2; Interval 0x113E1 0x113E2;
    Interval 0x11438 0x1143F; Interval 0x11442 0x11444; Interval 0x11446 0x11446;
    Interval 0x1145E 0x1145E; Interval 0x114B3 0x114B8; Interval 0x114BA 0x114BA;
    Interval 0x114BF 0x114C0; Interval 0x114C2 0x114C3; Interval 0x115B2 0x115B5;
    Interval 0x115BC 0x115BD; Interval 0x115BF 0x115C0; Interval 0x115DC 0x115DD;
    Interval 0x11633 0x1163A; Interval 0x1163D 0x1163D; Interval 0x1163F 0x11640;
    Interval 0x116AB 0x116AB; Interval 0x116AD 0x116AD; Interval 0x116B0 0x116B5;
    Interval 0x116B7 0x116B7; Interval 0x1171D 0x1171D; Interval 0x1171F 0x1171F;
    Interval 0x11722 0x11725; Interval 0x11727 0x1172B; Interval 0x1182F 0x11837;
    Interval 0x11839 0x1183A; Interval 0x1193B 0x1193C; Interval 0x1193E 0x1193E;
    Interval 0x11943 0x11943; Interval 0x119D4 0x119D7; Interval 0x119DA 0x119DB;
    Interval 0x119E0 0x119E0; Interval 0x11A01 0x11A0A; Interval 0x11A33 0x11A38;
    Interval 0x11A3B 0x11A3E; Interval 0x11A47 0x11A47; Interval 0x11A51 0x11A56;
    Interval 0x11A59 0x11A5B; Interval 0x11A8A 0x11A96; Interval 0x11A98 0x11A99;
    Interval 0x11B60 0x11B60; Interval 0x11B62 0x11B64; Interval 0x11B66 0x11B66;
    Interval 0x11C30 0x11C36; Interval 0x11C38 0x11C3D; Interval 0x11C3F 0x11C3F;
    Interval 0x11C92 0x11CA7; Interval 0x11CAA 0x11CB0; Interval 0x11CB2 0x11CB3;
    Interval 0x11CB5 0x11CB6; Interval 0x11D31 0x11D36; Interval 0x11D3A 0x11D3A;
    Interval 0x11D3C 0x11D3D; Interval 0x11D3F 0x11D45; Interval 0x11D47 0x11D47;
    Interval 0x11D90 0x11D91; Interval 0x11D95 0x11D95; Interval 0x11D97 0x11D97;
    Interval 0x11EF3 0x11EF4; Interval 0x11F00 0x11F01; Interval 0x11F36 0x11F3A;
    Interval 0x11F40 0x11F40; Interval 0x11F42 0x11F42; Interval 0x11F5A 0x11F5A;
    Interval 0x13430 0x13440; Interval 0x13447 0x13455; Interval 0x1611E 0x16129;
    Interval 0x1612D 0x1612F; Interval 0x16AF0 0x16AF4; Interval 0x16B30 0x16B36;
    Interval 0x16F4F 0x16F4F; Interval 0x16F8F 0x16F92; Interval 0x16FE4 0x16FE4;
    Interval 0x1BC9D 0x1BC9E; Interval 0x1BCA0 0x1BCA3; Interval 0x1CF00 0x1CF2D;
    Interval 0x1CF30 0x1CF46; Interval 0x1D167 0x1D169; Interval 0x1D173 0x1D182;
    Interval 0x1D185 0x1D18B; Interval 0x1D1AA 0x1D1AD; Interval 0x1D242 0x1D244;
    Interval 0x1DA00 0x1DA36; Interval 0x1DA3B 0x1DA6C; Interval 0x1DA75 0x1DA75;
    Interval 0x1DA84 0x1DA84; Interval 0x1DA9B 0x1DA9F; Interval 0x1DAA1 0x1DAAF;
    Interval 0x1E000 0x1E006; Interval 0x1E008 0x1E018; Interval 0x1E01B 0x1E021;
    Interval 0x1E023 0x1E024; Interval 0x1E026 0x1E02A; Interval 0x1E08F 0x1E08F;
    Interval 0x1E130 0x1E136; Interval 0x1E2AE 0x1E2AE; Interval 0x1E2EC 0x1E2EF;
    Interval 0x1E4EC 0x1E4EF; Interval 0x1E5EE 0x1E5EF; Interval 0x1E6E3 0x1E6E3;
    Interval 0x1E6E6 0x1E6E6; Interval 0x1E6EE 0x1E6EF; Interval 0x1E6F5 0x1E6F5;
    Interval 0x1E8D0 0x1E8D6; Interval 0x1E944 0x1E94A; Interval 0xE0000 0xE0FFF
  ].

(** The wide and full-width characters. *)
Definition wide : list interval :=
  [
    Interval 0x1100 0x115F; Interval 0x231A 0x231B; Interval 0x2329 0x232A;
    Interval 0x23E9 0x23EC; Interval 0x23F0 0x23F0; Interval 0x23F3 0x23F3;
    Interval 0x25FD 0x25FE; Interval 0x2614 0x2615; Interval 0x2630 0x2637;
    Interval 0x2648 0x2653; Interval 0x267F 0x267F; Interval 0x268A 0x268F;
    Interval 0x2693 0x2693; Interval 0x26A1 0x26A1; Interval 0x26AA 0x26AB;
    Interval 0x26BD 0x26BE; Interval 0x26C4 0x26C5; Interval 0x26CE 0x26CE;
    Interval 0x26D4 0x26D4; Interval 0x26EA 0x26EA; Interval 0x26F2 0x26F3;
    Interval 0x26F5 0x26F5; Interval 0x26FA 0x26FA; Interval 0x26FD 0x26FD;
    Interval 0x2705 0x2705; Interval 0x270A 0x270B; Interval 0x2728 0x2728;
    Interval 0x274C 0x274C; Interval 0x274E 0x274E; Interval 0x2753 0x2755;
    Interval 0x2757 0x2757; Interval 0x2795 0x2797; Interval 0x27B0 0x27B0;
    Interval 0x27BF 0x27BF; Interval 0x2B1B 0x2B1C; Interval 0x2B50 0x2B50;
    Interval 0x2B55 0x2B55; Interval 0x2E80 0x2E99; Interval 0x2E9B 0x2EF3;
    Interval 0x2F00 0x2FD5; Interval 0x2FF0 0x303E; Interval 0x3041 0x3096;
    Interval 0x3099 0x30FF; Interval 0x3105 0x312F; Interval 0x3131 0x318E;
    Interval 0x3190 0x31E5; Interval 0x31EF 0x321E; Interval 0x3220 0x3247;
    Interval 0x3250 0xA48C; Interval 0xA490 0xA4C6; Interval 0xA960 0xA97C;
    Interval 0xAC00 0xD7A3; Interval 0xF900 0xFAFF; Interval 0xFE10 0xFE19;
    Interval 0xFE30 0xFE52; Interval 0xFE54 0xFE66; Interval 0xFE68 0xFE6B;
    Interval 0xFF01 0xFF60; Interval 0xFFE0 0xFFE6; Interval 0x16FE0 0x16FE4;
    Interval 0x16FF0 0x16FF6; Interval 0x17000 0x18CD5; Interval 0x18CFF 0x18D1E;
    Interval 0x18D80 0x18DF2; Interval 0x1AFF0 0x1AFF3; Interval 0x1AFF5 0x1AFFB;
    Interval 0x1AFFD 0x1AFFE; Interval 0x1B000 0x1B122; Interval 0x1B132 0x1B132;
    Interval 0x1B150 0x1B152; Interval 0x1B155 0x1B155; Interval 0x1B164 0x1B167;
    Interval 0x1B170 0x1B2FB; Interval 0x1D300 0x1D356; Interval 0x1D360 0x1D376;
    Interval 0x1F004 0x1F004; Interval 0x1F0CF 0x1F0CF; Interval 0x1F18E 0x1F18E;
    Interval 0x1F191 0x1F19A; Interval 0x1F200 0x1F202; Interval 0x1F210 0x1F23B;
    Interval 0x1F240 0x1F248; Interval 0x1F250 0x1F251; Interval 0x1F260 0x1F265;
    Interval 0x1F300 0x1F320; Interval 0x1F32D 0x1F335; Interval 0x1F337 0x1F37C;
    Interval 0x1F37E 0x1F393; Interval 0x1F3A0 0x1F3CA; Interval 0x1F3CF 0x1F3D3;
    Interval 0x1F3E0 0x1F3F0; Interval 0x1F3F4 0x1F3F4; Interval 0x1F3F8 0x1F43E;
    Interval 0x1F440 0x1F440; Interval 0x1F442 0x1F4FC; Interval 0x1F4FF 0x1F53D;
    Interval 0x1F54B 0x1F54E; Interval 0x1F550 0x1F567; Interval 0x1F57A 0x1F57A;
    Interval 0x1F595 0x1F596; Interval 0x1F5A4 0x1F5A4; Interval 0x1F5FB 0x1F64F;
    Interval 0x1F680 0x1F6C5; Interval 0x1F6CC 0x1F6CC; Interval 0x1F6D0 0x1F6D2;
    Interval 0x1F6D5 0x1F6D8; Interval 0x1F6DC 0x1F6DF; Interval 0x1F6EB 0x1F6EC;
    Interval 0x1F6F4 0x1F6FC; Interval 0x1F7E0 0x1F7EB; Interval 0x1F7F0 0x1F7F0;
    Interval 0x1F90C 0x1F93A; Interval 0x1F93C 0x1F945; Interval 0x1F947 0x1F9FF;
    Interval 0x1FA70 0x1FA7C; Interval 0x1FA80 0x1FA8A; Interval 0x1FA8E 0x1FAC6;
    Interval 0x1FAC8 0x1FAC8; Interval 0x1FACD 0x1FADC; Interval 0x1FADF 0x1FAEA;
    Interval 0x1FAEF 0x1FAF8; Interval 0x20000 0x2FFFD; Interval 0x30000 0x3FFFD
  ].

(** The symbols of the first 32 codes and the first accented letters. *)
Definition cp437_low : list (Z * Z) :=
  [
    (0x263a, 1); (0x263b, 2); (0x2665, 3); (0x2666, 4); (0x25c6, 4); (0x2663, 5); (0x2660, 6);
    (0x2022, 7); (0x25d8, 8); (0x25cb, 9); (0x25d9, 10); (0x2642, 11); (0x2640, 12);
    (0x266a, 13); (0x266b, 14); (0x263c, 15); (0x00a4, 15); (0x25ba, 16); (0x25b6, 16);
    (0x25c4, 17); (0x25c0, 17); (0x2195, 18); (0x203c, 19); (0x00b6, 20); (0x00a7, 21);
    (0x25ac, 22); (0x21a8, 23); (0x2191, 24); (0x2193, 25); (0x2192, 26); (0x2190, 27);
    (0x221f, 28); (0x2194, 29); (0x25b2, 30); (0x25bc, 31); (0x00a8, 0x22); (0x00b4, 0x27);
    (0x00b8, 0x2c); (0x00ad, 0x2d); (0x00c0, 0x41); (0x00c1, 0x41); (0x00c2, 0x41);
    (0x00c3, 0x41); (0x00a9, 0x43); (0x00d0, 0x44); (0x00c8, 0x45); (0x00ca, 0x45);
    (0x00cb, 0x45); (0x00cc, 0x49); (0x00cd, 0x49); (0x00ce, 0x49); (0x00cf, 0x49);
    (0x212a, 0x4b); (0x00d2, 0x4f); (0x00d3, 0x4f); (0x00d4, 0x4f); (0x00d5, 0x4f);
    (0x00ae, 0x52); (0x00d9, 0x55); (0x00da, 0x55); (0x00db, 0x55); (0x00dd, 0x59);
    (0x23bd, 0x5f); (0x00e3, 0x61); (0x00f5, 0x6f); (0x00d7, 0x78); (0x00fd, 0x79);
    (0x00a6, 0x7c)
  ].

(** The upper half of the code page. *)
Definition cp437_high : list (Z * Z) :=
  [
    (0x2302, 127); (0x00c7, 128); (0x00fc, 129); (0x00e9, 130); (0x00e2, 131); (0x00e4, 132);
    (0x00e0, 133); (0x00e5, 134); (0x00e7, 135); (0x00ea, 136); (0x00eb, 137); (0x00e8, 138);
    (0x00ef, 139); (0x00ee, 140); (0x00ec, 141); (0x00c4, 142); (0x00c5, 143); (0x212b, 143);
    (0x00c9, 144); (0x00e6, 145); (0x00c6, 146); (0x00f4, 147); (0x00f6, 148); (0x00f2, 149);
    (0x00fb, 150); (0x00f9, 151); (0x00ff, 152); (0x00d6, 153); (0x00dc, 154); (0x00a2, 155);
    (0x00a3, 156); (0x00a5, 157); (0x20a7, 158); (0x0192, 159); (0x00e1, 160); (0x00ed, 161);
    (0x00f3, 162); (0x00fa, 163); (0x00f1, 164); (0x00d1, 165); (0x00aa, 166); (0x00ba, 167);
    (0x00bf, 168); (0x2310, 169); (0x00ac, 170); (0x00bd, 171); (0x00bc, 172); (0x00a1, 173);
    (0x00ab, 174); (0x00bb, 175); (0x2591, 176); (0x2592, 177); (0x2593, 178); (0x2502, 179);
    (0x2524, 180); (0x2561, 181); (0x2562, 182); (0x2556, 183); (0x2555, 184); (0x2563, 185);
    (0x2551, 186); (0x2557, 187); (0x255d, 188); (0x255c, 189); (0x255b, 190); (0x2510, 191);
    (0x2514, 192); (0x2534, 193); (0x252c, 194); (0x251c, 195); (0x2500, 196); (0x253c, 197);
    (0x255e, 198); (0x255f, 199); (0x255a, 200); (0x2554, 201); (0x2569, 202); (0x2566, 203);
    (0x2560, 204); (0x2550, 205); (0x256c, 206); (0x2567, 207); (0x2568, 208); (0x2564, 209);
    (0x2565, 210); (0x2559, 211); (0x2558, 212); (0x2552, 213); (0x2553, 214); (0x256b, 215);
    (0x256a, 216); (0x2518, 217); (0x250c, 218); (0x2588, 219); (0x2584, 220); (0x258c, 221);
    (0x2590, 222); (0x2580, 223); (0x03b1, 224); (0x00df, 225); (0x03b2, 225); (0x0393, 226);
    (0x03c0, 227); (0x03a3, 228); (0x03c3, 229); (0x00b5, 230); (0x03bc, 230); (0x03c4, 231);
    (0x03a6, 232); (0x00d8, 232); (0x0398, 233); (0x03a9, 234); (0x2126, 234); (0x03b4, 235);
    (0x00f0, 235); (0x221e, 236); (0x03c6, 237); (0x00f8, 237); (0x03b5, 238); (0x2208, 238);
    (0x2229, 239); (0x2261, 240); (0x00b1, 241); (0x2265, 242); (0x2264, 243); (0x2320, 244);
    (0x2321, 245); (0x00f7, 246); (0x2248, 247); (0x00b0, 248); (0x2219, 249); (0x00b7, 250);
    (0x221a, 251); (0x207f, 252); (0x00b2, 253); (0x25a0, 254); (0xfffd, 254); (0x00a0, 255)
  ].

(** Box-drawing characters with no exact equivalent. *)
Definition cp437_boxes : list (Z * Z) :=
  [
    (0x256d, 0xda); (0x256e, 0xbf); (0x256f, 0xd9); (0x2570, 0xc0); (0x2571, 0x2f);
    (0x2572, 0x5c); (0x2573, 0x58); (0x2501, 0xc4); (0x2503, 0xb3); (0x250f, 0xda);
    (0x2513, 0xbf); (0x2517, 0xc0); (0x251b, 0xd9); (0x2523, 0xc3); (0x252b, 0xb4);
    (0x2533, 0xc2); (0x253b, 0xc1); (0x254b, 0xc5); (0x250d, 0xda); (0x250e, 0xda);
    (0x2511, 0xbf); (0x2512, 0xbf); (0x2515, 0xc0); (0x2516, 0xc0); (0x2519, 0xd9);
    (0x251a, 0xd9); (0x251d, 0xc3); (0x251e, 0xc3); (0x251f, 0xc3); (0x2520, 0xc3);
    (0x2521, 0xc3); (0x2522, 0xc3); (0x2525, 0xb4); (0x2526, 0xb4); (0x2527, 0xb4);
    (0x2528, 0xb4); (0x2529, 0xb4); (0x252a, 0xb4); (0x252d, 0xc2); (0x252e, 0xc2);
    (0x252f, 0xc2); (0x2530, 0xc2); (0x2531, 0xc2); (0x2532, 0xc2); (0x2535, 0xc1);
    (0x2536, 0xc1); (0x2537, 0xc1); (0x2538, 0xc1); (0x2539, 0xc1); (0x253a, 0xc1);
    (0x253d, 0xc5); (0x253e, 0xc5); (0x253f, 0xc5); (0x2540, 0xc5); (0x2541, 0xc5);
    (0x2542, 0xc5); (0x2543, 0xc5); (0x2544, 0xc5); (0x2545, 0xc5); (0x2546, 0xc5);
    (0x2547, 0xc5); (0x2548, 0xc5); (0x2549, 0xc5); (0x254a, 0xc5); (0x2504, 0xc4);
    (0x2505, 0xc4); (0x2506, 0xb3); (0x2507, 0xb3); (0x2508, 0xc4); (0x2509, 0xc4);
    (0x250a, 0xb3); (0x250b, 0xb3)
  ].

(** Blocks, punctuation, arrows and brackets with no exact equivalent. *)
Definition cp437_shapes : list (Z * Z) :=
  [
    (0x2574, 0xc4); (0x2575, 0xb3); (0x2576, 0xc4); (0x2577, 0xb3); (0x2578, 0xc4);
    (0x2579, 0xb3); (0x257a, 0xc4); (0x257b, 0xb3); (0x257c, 0xc4); (0x257d, 0xb3);
    (0x257e, 0xc4); (0x257f, 0xb3); (0x25b3, 30); (0x25b5, 30); (0x25b7, 16); (0x25b9, 16);
    (0x25bd, 31); (0x25bf, 31); (0x25c1, 17); (0x25c3, 17); (0x2581, 0xdc); (0x2582, 0xdc);
    (0x2583, 0xdc); (0x2585, 0xdc); (0x2586, 0xdb); (0x2587, 0xdb); (0x2589, 0xdb);
    (0x258a, 0xdb); (0x258b, 0xdd); (0x258d, 0xdd); (0x258e, 0xdd); (0x258f, 0xdd);
    (0x2594, 0xdf); (0x2595, 0xde); (0x2596, 0xdc); (0x2597, 0xdc); (0x2598, 0xdf);
    (0x2599, 0xdb); (0x259a, 0xb1); (0x259b, 0xdb); (0x259c, 0xdb); (0x259d, 0xdf);
    (0x259e, 0xb1); (0x259f, 0xdb); (0x25cf, 0x07); (0x25c9, 0x0a); (0x25ef, 0x09);
    (0x25e6, 0x09); (0x25aa, 0xfe); (0x25fc, 0xfe); (0x2013, 0x2d); (0x2014, 0x2d);
    (0x2018, 0x27); (0x2019, 0x27); (0x201c, 0x22); (0x201d, 0x22); (0x2026, 0xfa);
    (0x2212, 0x2d); (0x2713, 0xfb); (0x2714, 0xfb); (0x21d0, 27); (0x21d1, 24); (0x21d2, 26);
    (0x21d3, 25); (0x21d4, 29); (0x21d5, 18); (0x2211, 0xe4); (0x23af, 0xc4); (0x23f4, 17);
    (0x23f5, 16); (0x23f6, 30); (0x23f7, 31); (0x23f8, 0xba); (0x23f9, 0xfe); (0x23fa, 0x07);
    (0x23a1, 0xda); (0x23a2, 0xb3); (0x23a3, 0xc0); (0x23a4, 0xbf); (0x23a5, 0xb3);
    (0x23a6, 0xd9); (0x23a7, 0xda); (0x23a8, 0xc3); (0x23a9, 0xc0); (0x23aa, 0xb3);
    (0x23ab, 0xbf); (0x23ac, 0xb4); (0x23ad, 0xd9); (0x23ae, 0xb3); (0x23b8, 0xb3);
    (0x23b9, 0xb3); (0x23ba, 0xc4); (0x23bb, 0xc4); (0x23bc, 0xc4); (0x23be, 0xb3);
    (0x23bf, 0xc0); (0x231c, 0xda); (0x231d, 0xbf); (0x231e, 0xc0); (0x231f, 0xd9)
  ].

(** The DEC special graphics, by the byte that selects them. *)
Definition dec_special : list (Z * Z) :=
  [
    (96, 0x04); (48, 0xdb); (45, 0x18); (44, 0x1b); (46, 0x19); (97, 0xb1); (102, 0xf8);
    (103, 0xf1); (104, 0xb0); (106, 0xd9); (107, 0xbf); (108, 0xda); (109, 0xc0); (110, 0xc5);
    (113, 0xc4); (115, 0x5f); (116, 0xc3); (117, 0xb4); (118, 0xc1); (119, 0xc2); (120, 0xb3);
    (121, 0xf3); (122, 0xf2); (126, 0xfa); (95, 0xff); (43, 0x1a); (123, 0xe3); (125, 0x9c)
  ].

(** The loop of the binary search, between the indexes [min] and [max]; every
    turn drops at least one interval, so the number of intervals is fuel enough. *)
Fixpoint bisearch_loop (fuel : nat) (ucs : Z) (table : list interval) (min max : Z) : outcome Z :=
  match fuel with
  | O => Diverge
  | S fuel =>
      if min <=? max then
        let mid := (min + max) / 2 in
        e ← get table (Z.to_nat mid);
        if last e <? ucs then bisearch_loop fuel ucs table (mid + 1) max
        else if ucs <? first e then bisearch_loop fuel ucs table min (mid - 1)
        else Ret 1
      else Ret 0
  end.

Definition bisearch (ucs : Z) (table : list interval) (max : Z) : outcome Z :=
  e0 ← get table 0;
  if ucs <? first e0 then Ret 0 else
  en ← get table (Z.to_nat max);
  if last en <? ucs then Ret 0 else
  bisearch_loop (S (length table)) ucs table 0 max.

Definition mk_wcwidth (ucs : Z) : outcome Z :=
  if ucs =? 0 then Ret 0 else
  if (ucs <? 32) || (0x7f <=? ucs) && (ucs <? 0xa0) then Ret (-1) else
  z ← bisearch ucs combining (Z.of_nat (length combining) - 1);
  if negb (z =? 0) then Ret 0 else
  w ← bisearch ucs wide (Z.of_nat (length wide) - 1);
  if negb (w =? 0) then Ret 2 else Ret 1.

(** The value a switch returns for a code point, if it has a case for it. *)
Definition switch (table : list (Z * Z)) (k : Z) : option Z :=
  snd <$> List.find (fun p => fst p =? k) table.

(** Code page 437 for a braille pattern, from the dots it has. *)
Definition braille (dots : Z) : Z :=
  if dots =? 0 then 0x20 else
  if dots =? 0xff then 0xdb else
  let has_top := negb (Z.land dots 0x1b =? 0) in
  let has_bottom := negb (Z.land dots 0xe4 =? 0) in
  let has_left := negb (Z.land dots 0x47 =? 0) in
  let has_right := negb (Z.land dots 0xb8 =? 0) in
  if has_top && negb has_bottom then 0xdf else
  if has_bottom && negb has_top then 0xdc else
  if has_left && negb has_right then 0xdd else
  if has_right && negb has_left then 0xde else
  let n := u32 (dots - Z.land (Z.shiftr dots 1) 0x55) in
  let n := Z.land n 0x33 + Z.land (Z.shiftr n 2) 0x33 in
  let n := Z.land (n + Z.shiftr n 4) 0x0f in
  if n <=? 2 then 0xb0 else
  if n <=? 4 then 0xb1 else
  if n <=? 6 then 0xb2 else 0xdb.

Definition unicode_to_cp437 (code_point : Z) : Z :=
  if (0x2800 <=? code_point) && (code_point <=? 0x28ff) then braille (code_point - 0x2800)
  else default (-1) (switch (cp437_low ++ cp437_high ++ cp437_boxes ++ cp437_shapes) code_point).

(** ** The binary search *)

Definition within (ucs : Z) (e : interval) : bool := (first e <=? ucs) && (ucs <=? last e).

(** The intervals are well formed, sorted and disjoint. *)
Definition sorted_intervals (table : list interval) : bool :=
  forallb (fun e => first e <=? last e) table &&
  forallb (fun p => last (fst p) <? first (snd p)) (zip table (tail table)).

Lemma sorted_intervals_wf table i e :
  sorted_intervals table = true -> table !! i = Some e -> first e <= last e.
Proof.
  unfold sorted_intervals. intros [Hw _]%andb_true_iff He. rewrite forallb_forall in Hw.
  apply Z.leb_le, Hw, list_elem_of_In. by eapply list_elem_of_lookup_2.
Qed.

Lemma sorted_intervals_lt table i j a b :
  sorted_intervals table = true -> table !! i = Some a -> table !! j = Some b ->
  (i < j)%nat -> last a < first b.
Proof.
  intros Hs Hi Hj Hij.
  assert (Hstep : forall k x y, table !! k = Some x -> table !! S k = Some y -> last x < first y).
  { intros k x y Hx Hy. unfold sorted_intervals in Hs. apply andb_true_iff in Hs as [_ Hz].
    rewrite forallb_forall in Hz. apply Z.ltb_lt, (Hz (x, y)), list_elem_of_In.
    apply list_elem_of_lookup. exists k. rewrite lookup_zip_with, Hx. cbn.
    by rewrite lookup_tail, Hy. }
  revert b Hj. induction Hij as [|j Hij IH]; intros b Hj; [by eapply Hstep|].
  destruct (lookup_lt_is_Some_2 table j) as [c Hc]; [apply lookup_lt_Some in Hj; lia|].
  pose proof (IH c Hc). pose proof (sorted_intervals_wf _ _ _ Hs Hc).
  pose proof (Hstep j c b Hc Hj). lia.
Qed.

Lemma within_true ucs e : within ucs e = true <-> first e <= ucs <= last e.
Proof. unfold within. rewrite andb_true_iff, !Z.leb_le. tauto. Qed.

Lemma bisearch_loop_spec fuel ucs table min max :
  sorted_intervals table = true ->
  0 <= min -> max < Z.of_nat (length table) -> min <= max + 1 -> max - min + 1 < Z.of_nat fuel ->
  (forall i e, table !! i = Some e -> within ucs e = true -> min <= Z.of_nat i <= max) ->
  bisearch_loop fuel ucs table min max = Ret (if existsb (within ucs) table then 1 else 0).
Proof.
  intros Hs. revert min max. induction fuel as [|fuel IH]; intros min max H0 Hm Hmm Hf Hin; [lia|].
  cbn [bisearch_loop]. split_leb min max.
  2: { replace (existsb (within ucs) table) with false; [done|].
       symmetry. apply not_true_is_false. intros (e & He & Hw)%existsb_exists.
       apply list_elem_of_In, list_elem_of_lookup in He as [i Hi].
       specialize (Hin i e Hi Hw). lia. }
  set (mid := (min + max) / 2).
  assert (Hmid : min <= mid <= max)
    by (subst mid; split; [apply Z.div_le_lower_bound | apply Z.div_le_upper_bound]; lia).
  clearbody mid.
  destruct (lookup_lt_is_Some_2 table (Z.to_nat mid)) as [e He]; [lia|].
  rewrite (get_lookup _ _ _ He). cbn. pose proof (sorted_intervals_wf _ _ _ Hs He) as Hwf.
  split_ltb (last e) ucs; [|split_ltb ucs (first e)].
  - apply IH; [lia..|]. intros i a Hi Hw. specialize (Hin i a Hi Hw). apply within_true in Hw.
    destruct (Z.lt_trichotomy (Z.of_nat i) mid) as [Hl|[<-|]]; [|rewrite Nat2Z.id in He; simplify_eq; lia|lia].
    pose proof (sorted_intervals_lt _ _ _ _ _ Hs Hi He). lia.
  - apply IH; [lia..|]. intros i a Hi Hw. specialize (Hin i a Hi Hw). apply within_true in Hw.
    destruct (Z.lt_trichotomy (Z.of_nat i) mid) as [|[<-|Hl]]; [lia|rewrite Nat2Z.id in He; simplify_eq; lia|].
    pose proof (sorted_intervals_lt _ _ _ _ _ Hs He Hi). lia.
  - replace (existsb (within ucs) table) with true; [done|]. symmetry. apply existsb_exists.
    exists e. rewrite within_true. split; [|lia].
    apply list_elem_of_In. by eapply list_elem_of_lookup_2.
Qed.

Lemma bisearch_spec ucs table :
  sorted_intervals table = true -> table <> [] ->
  bisearch ucs table (Z.of_nat (length table) - 1) = Ret (if existsb (within ucs) table then 1 else 0).
Proof.
  intros Hs Hne. assert (Hl : (0 < length table)%nat) by (destruct table; cbn; [done|lia]).
  destruct (lookup_lt_is_Some_2 table 0) as [e0 H0]; [done|].
  destruct (lookup_lt_is_Some_2 table (length table - 1)) as [en Hn]; [lia|].
  assert (Hall : forall e, e ∈ table -> first e0 <= first e /\ last e <= last en).
  { intros e [i Hi]%list_elem_of_lookup. pose proof (lookup_lt_Some _ _ _ Hi).
    pose proof (sorted_intervals_wf _ _ _ Hs H0). pose proof (sorted_intervals_wf _ _ _ Hs Hn).
    split.
    - destruct i as [|i]; [simplify_eq; lia|].
      pose proof (sorted_intervals_lt _ 0 (S i) _ _ Hs H0 Hi). lia.
    - destruct (decide (i = length table - 1)%nat) as [->|]; [simplify_eq; lia|].
      pose proof (sorted_intervals_lt _ i _ _ _ Hs Hi Hn). lia. }
  assert (Hout : ucs < first e0 \/ last en < ucs -> existsb (within ucs) table = false).
  { intros Ho. apply not_true_is_false. intros (e & He & Hw)%existsb_exists.
    apply within_true in Hw. apply list_elem_of_In, Hall in He. lia. }
  unfold bisearch. replace (Z.to_nat (Z.of_nat (length table) - 1)) with (length table - 1)%nat by lia.
  rewrite (get_lookup _ _ _ H0), (get_lookup _ _ _ Hn). cbn [mbind outcome_bind].
  split_ltb ucs (first e0); [by rewrite Hout; auto|].
  split_ltb (last en) ucs; [by rewrite Hout; auto|].
  apply bisearch_loop_spec; try lia; [done|].
  intros i e Hi _. apply lookup_lt_Some in Hi. lia.
Qed.

(** ** What the tables say *)

Lemma combining_sorted : sorted_intervals combining = true.
Proof. by vm_compute. Qed.

Lemma wide_sorted : sorted_intervals wide = true.
Proof. by vm_compute. Qed.

(** The width of a character, read off the tables without a search. *)
Definition width (ucs : Z) : Z :=
  if ucs =? 0 then 0
  else if (ucs <? 32) || (0x7f <=? ucs) && (ucs <? 0xa0) then -1
  else if existsb (within ucs) combining then 0
  else if existsb (within ucs) wide then 2 else 1.

Lemma wcwidth_eq ucs : mk_wcwidth ucs = Ret (width ucs).
Proof.
  unfold mk_wcwidth, width. split_eqb ucs 0; [done|].
  destruct ((ucs <? 32) || _); [done|].
  rewrite (bisearch_spec _ _ combining_sorted) by done. cbn [mbind outcome_bind].
  destruct (existsb (within ucs) combining); [done|]. cbn [Z.eqb negb].
  rewrite (bisearch_spec _ _ wide_sorted) by done. cbn [mbind outcome_bind]. by destruct (existsb (within ucs) wide).
Qed.

(** The six levels of the colour cube. *)
Definition level (i : Z) : Z := if i =? 0 then 0 else 0x37 + 0x28 * i.

(** The colour of an index of the 256-colour palette, from 16: a cube of 6 * 6 * 6
    colours and then 24 greys. *)
Definition palette (i : Z) : Z :=
  if i <? 216 then level (i / 36) * 0x10000 + level ((i / 6) `mod` 6) * 0x100 + level (i `mod` 6)
  else (8 + 10 * (i - 216)) * 0x10101.

Lemma col256_palette : col256 = palette <$> seqZ 0 240.
Proof. by vm_compute. Qed.

(** The number of dots of a braille pattern. *)
Definition dots_count (dots : Z) : Z :=
  foldr (fun i n => n + Z.b2z (Z.testbit dots i)) 0 (seqZ 0 8).

(** The braille approximation as it reads: blank, full, the half with all the dots, or
    the shade for the number of dots. *)
Definition braille_spec (dots : Z) : Z :=
  let any l := existsb (Z.testbit dots) l in
  if dots =? 0 then 0x20 else if dots_count dots =? 8 then 0xdb
  else if negb (any [2; 5; 6; 7]) then 0xdf else if negb (any [0; 1; 3; 4]) then 0xdc
  else if negb (any [3; 4; 5; 7]) then 0xdd else if negb (any [0; 1; 2; 6]) then 0xde
  else if dots_count dots <=? 2 then 0xb0 else if dots_count dots <=? 4 then 0xb1
  else if dots_count dots <=? 6 then 0xb2 else 0xdb.

Lemma braille_shades dots : 0 <= dots < 256 -> braille dots = braille_spec dots.
Proof.
  intros Hd.
  assert (H : Forall (fun d => braille d = braille_spec d) (seqZ 0 256))
    by (apply (bool_decide_eq_true_1 _); by vm_compute).
  rewrite Forall_forall in H. apply H, elem_of_seqZ. lia.
Qed.

(** Every code point translates to a byte, or to none. *)
Lemma unicode_to_cp437_range cp : -1 <= unicode_to_cp437 cp < 256.
Proof.
  unfold unicode_to_cp437. destruct (_ && _) eqn:Hb.
  - apply andb_true_iff in Hb as [H1%Z.leb_le H2%Z.leb_le].
    assert (H : Forall (fun d => -1 <= braille d < 256) (seqZ 0 256))
      by (apply (bool_decide_eq_true_1 _); by vm_compute).
    rewrite Forall_forall in H. apply H, elem_of_seqZ. lia.
  - unfold switch. destruct (List.find _ _) as [p|] eqn:Hf; [|done].
    apply List.find_some in Hf as [Hin _]. cbn.
    assert (H : Forall (fun q : Z * Z => -1 <= q.2 < 256) (cp437_low ++ cp437_high ++ cp437_boxes ++ cp437_shapes))
      by (apply (bool_decide_eq_true_1 _); by vm_compute).
    rewrite Forall_forall in H. by apply H, list_elem_of_In.
Qed.

(** Code page 437: the characters of the bytes from 1 to 31 and from 128 to 255. *)
Definition code_page_lower : list Z := [0x263a; 0x263b; 0x2665; 0x2666; 0x2663; 0x2660; 0x2022; 0x25d8; 0x25cb; 0x25d9; 0x2642; 0x2640; 0x266a; 0x266b; 0x263c;
  0x25ba; 0x25c4; 0x2195; 0x203c; 0x00b6; 0x00a7; 0x25ac; 0x21a8; 0x2191; 0x2193; 0x2192; 0x2190; 0x221f; 0x2194; 0x25b2; 0x25bc].
Definition code_page_upper : list Z := [
  0x00c7; 0x00fc; 0x00e9; 0x00e2; 0x00e4; 0x00e0; 0x00e5; 0x00e7; 0x00ea; 0x00eb; 0x00e8; 0x00ef; 0x00ee; 0x00ec; 0x00c4; 0x00c5;
  0x00c9; 0x00e6; 0x00c6; 0x00f4; 0x00f6; 0x00f2; 0x00fb; 0x00f9; 0x00ff; 0x00d6; 0x00dc; 0x00a2; 0x00a3; 0x00a5; 0x20a7; 0x0192;
  0x00e1; 0x00ed; 0x00f3; 0x00fa; 0x00f1; 0x00d1; 0x00aa; 0x00ba; 0x00bf; 0x2310; 0x00ac; 0x00bd; 0x00bc; 0x00a1; 0x00ab; 0x00bb;
  0x2591; 0x2592; 0x2593; 0x2502; 0x2524; 0x2561; 0x2562; 0x2556; 0x2555; 0x2563; 0x2551; 0x2557; 0x255d; 0x255c; 0x255b; 0x2510;
  0x2514; 0x2534; 0x252c; 0x251c; 0x2500; 0x253c; 0x255e; 0x255f; 0x255a; 0x2554; 0x2569; 0x2566; 0x2560; 0x2550; 0x256c; 0x2567;
  0x2568; 0x2564; 0x2565; 0x2559; 0x2558; 0x2552; 0x2553; 0x256b; 0x256a; 0x2518; 0x250c; 0x2588; 0x2584; 0x258c; 0x2590; 0x2580;
  0x03b1; 0x00df; 0x0393; 0x03c0; 0x03a3; 0x03c3; 0x00b5; 0x03c4; 0x03a6; 0x0398; 0x03a9; 0x03b4; 0x221e; 0x03c6; 0x03b5; 0x2229;
  0x2261; 0x00b1; 0x2265; 0x2264; 0x2320; 0x2321; 0x00f7; 0x2248; 0x00b0; 0x2219; 0x00b7; 0x221a; 0x207f; 0x00b2; 0x25a0; 0x00a0].
Definition code_page_437 : list (Z * Z) := zip code_page_lower (seqZ 1 31) ++ zip code_page_upper (seqZ 0x80 128).

(** The translation has them all. *)
Lemma code_page_translated cp g : switch code_page_437 cp = Some g -> unicode_to_cp437 cp = g /\ 0 <= g < 256.
Proof.
  unfold switch. destruct (List.find _ _) as [p|] eqn:Hf; [|done]. intros [= <-].
  apply List.find_some in Hf as [Hin Hp%Z.eqb_eq].
  assert (H : Forall (fun q : Z * Z => unicode_to_cp437 q.1 = q.2 /\ 0 <= q.2 < 256) code_page_437)
    by (apply (bool_decide_eq_true_1 _); by vm_compute).
  rewrite Forall_forall in H. rewrite <- Hp. by apply H, list_elem_of_In.
Qed.

(** The glyphs a character is shown with: its byte of code page 437; for a braille
    pattern a block; the byte of a similar character that the loader has chosen; or else
    a box, and a blank if it takes two columns. *)
Definition glyphs (cp : Z) : list Z :=
  match switch code_page_437 cp with
  | Some g => [g]
  | None =>
      if (0x2800 <=? cp) && (cp <=? 0x28ff) then [braille_spec (cp - 0x2800)]
      else if 0 <=? unicode_to_cp437 cp then [unicode_to_cp437 cp]
      else if 0 <? width cp then 0xfe :: replicate (Z.to_nat (width cp - 1)) 32
      else []
  end.

Lemma width_range ucs : -1 <= width ucs <= 2.
Proof. unfold width. repeat case_match; lia. Qed.

Lemma dec_special_range c g : switch dec_special c = Some g -> 0 <= g < 256.
Proof.
  unfold switch. destruct (List.find _ _) as [p|] eqn:Hf; [|done].
  intros [= <-]. apply List.find_some in Hf as [Hin _].
  assert (H : Forall (fun q : Z * Z => 0 <= q.2 < 256) dec_special)
    by (apply (bool_decide_eq_true_1 _); by vm_compute).
  rewrite Forall_forall in H. by apply H, list_elem_of_In.
Qed.

Lemma col256_range i v : col256 !! i = Some v -> 0 <= v < W32.
Proof.
  intros Hi.
  assert (H : Forall (fun c => 0 <= c < W32) col256) by (apply (bool_decide_eq_true_1 _); by vm_compute).
  by eapply (Forall_lookup_1 _ _ _ _ H).
Qed.
