(* ===== verification/Term.v ===== *)
(** The terminal emulator (flanterm/src/flanterm.c): the context, the interface
    it has to a display backend, and the whole of its parser - control
    characters, UTF-8, escape and control sequences, operating-system commands,
    graphic renditions - as a state monad over the context and the backend. *)
From Stdlib Require Import Ascii.
From S2P Require Import Prelude TermTables.

(** [struct flanterm_context]: the fields of the front end, the dimensions the backend
    sets, and the address of the client's callback (0 when there is none). *)
Record term := Term {
  tab_size : Z; autoflush : bool; cursor_enabled : bool; scroll_enabled : bool; wrap_enabled : bool;
  origin_mode : bool; control_sequence : bool; escape : bool; osc : bool; osc_escape : bool;
  osc_buf_i : Z; osc_buf : list Z; rrr : bool; discard_next : bool; bold : bool; bg_bold : bool;
  reverse_video : bool; dec_private : bool; insert_mode : bool; csi_unhandled : bool;
  code_point : Z; unicode_remaining : Z; g_select : Z; charsets : list Z; current_charset : Z;
  escape_offset : Z; esc_values_i : Z; saved_cursor_x : Z; saved_cursor_y : Z; current_primary : Z;
  current_bg : Z; scroll_top_margin : Z; scroll_bottom_margin : Z; esc_values : list Z;
  last_printed_char : Z; last_was_graphic : bool; saved_state_bold : bool;
  saved_state_bg_bold : bool; saved_state_reverse_video : bool; saved_state_origin_mode : bool;
  saved_state_wrap_enabled : bool; saved_state_current_charset : Z; saved_state_charsets : list Z;
  saved_state_current_primary : Z; saved_state_current_bg : Z; rows : Z; cols : Z; callback : Z
}.

(** The context, field by field. *)
Definition fields (t : term) : term :=
  Term (tab_size t) (autoflush t) (cursor_enabled t) (scroll_enabled t) (wrap_enabled t)
       (origin_mode t) (control_sequence t) (escape t) (osc t) (osc_escape t) (osc_buf_i t)
       (osc_buf t) (rrr t) (discard_next t) (bold t) (bg_bold t) (reverse_video t) (dec_private t)
       (insert_mode t) (csi_unhandled t) (code_point t) (unicode_remaining t) (g_select t)
       (charsets t) (current_charset t) (escape_offset t) (esc_values_i t) (saved_cursor_x t)
       (saved_cursor_y t) (current_primary t) (current_bg t) (scroll_top_margin t)
       (scroll_bottom_margin t) (esc_values t) (last_printed_char t) (last_was_graphic t)
       (saved_state_bold t) (saved_state_bg_bold t) (saved_state_reverse_video t)
       (saved_state_origin_mode t) (saved_state_wrap_enabled t) (saved_state_current_charset t)
       (saved_state_charsets t) (saved_state_current_primary t) (saved_state_current_bg t)
       (rows t) (cols t) (callback t).

(** [set_field f v t] is the context [t] with the value [v] in its field [f]. *)
Ltac set_field f v t :=
  let e := eval cbv [fields] in (fields t) in
  match eval pattern (f t) in e with ?g _ => let r := eval cbv beta in (g v) in exact r end.

Definition set_tab_size (v : Z) (t : term) : term := ltac:(set_field tab_size v t).
Definition set_autoflush (v : bool) (t : term) : term := ltac:(set_field autoflush v t).
Definition set_cursor_enabled (v : bool) (t : term) : term := ltac:(set_field cursor_enabled v t).
Definition set_scroll_enabled (v : bool) (t : term) : term := ltac:(set_field scroll_enabled v t).
Definition set_wrap_enabled (v : bool) (t : term) : term := ltac:(set_field wrap_enabled v t).
Definition set_origin_mode (v : bool) (t : term) : term := ltac:(set_field origin_mode v t).
Definition set_control_sequence (v : bool) (t : term) : term := ltac:(set_field control_sequence v t).
Definition set_escape (v : bool) (t : term) : term := ltac:(set_field escape v t).
Definition set_osc (v : bool) (t : term) : term := ltac:(set_field osc v t).
Definition set_osc_escape (v : bool) (t : term) : term := ltac:(set_field osc_escape v t).
Definition set_osc_buf_i (v : Z) (t : term) : term := ltac:(set_field osc_buf_i v t).
Definition set_osc_buf (v : list Z) (t : term) : term := ltac:(set_field osc_buf v t).
Definition set_rrr (v : bool) (t : term) : term := ltac:(set_field rrr v t).
Definition set_discard_next (v : bool) (t : term) : term := ltac:(set_field discard_next v t).
Definition set_bold (v : bool) (t : term) : term := ltac:(set_field bold v t).
Definition set_bg_bold (v : bool) (t : term) : term := ltac:(set_field bg_bold v t).
Definition set_reverse_video (v : bool) (t : term) : term := ltac:(set_field reverse_video v t).
Definition set_dec_private (v : bool) (t : term) : term := ltac:(set_field dec_private v t).
Definition set_insert_mode (v : bool) (t : term) : term := ltac:(set_field insert_mode v t).
Definition set_csi_unhandled (v : bool) (t : term) : term := ltac:(set_field csi_unhandled v t).
Definition set_code_point (v : Z) (t : term) : term := ltac:(set_field code_point v t).
Definition set_unicode_remaining (v : Z) (t : term) : term := ltac:(set_field unicode_remaining v t).
Definition set_g_select (v : Z) (t : term) : term := ltac:(set_field g_select v t).
Definition set_charsets (v : list Z) (t : term) : term := ltac:(set_field charsets v t).
Definition set_current_charset (v : Z) (t : term) : term := ltac:(set_field current_charset v t).
Definition set_escape_offset (v : Z) (t : term) : term := ltac:(set_field escape_offset v t).
Definition set_esc_values_i (v : Z) (t : term) : term := ltac:(set_field esc_values_i v t).
Definition set_saved_cursor_x (v : Z) (t : term) : term := ltac:(set_field saved_cursor_x v t).
Definition set_saved_cursor_y (v : Z) (t : term) : term := ltac:(set_field saved_cursor_y v t).
Definition set_current_primary (v : Z) (t : term) : term := ltac:(set_field current_primary v t).
Definition set_current_bg (v : Z) (t : term) : term := ltac:(set_field current_bg v t).
Definition set_scroll_top_margin (v : Z) (t : term) : term := ltac:(set_field scroll_top_margin v t).
Definition set_scroll_bottom_margin (v : Z) (t : term) : term := ltac:(set_field scroll_bottom_margin v t).
Definition set_esc_values (v : list Z) (t : term) : term := ltac:(set_field esc_values v t).
Definition set_last_printed_char (v : Z) (t : term) : term := ltac:(set_field last_printed_char v t).
Definition set_last_was_graphic (v : bool) (t : term) : term := ltac:(set_field last_was_graphic v t).
Definition set_saved_state_bold (v : bool) (t : term) : term := ltac:(set_field saved_state_bold v t).
Definition set_saved_state_bg_bold (v : bool) (t : term) : term := ltac:(set_field saved_state_bg_bold v t).
Definition set_saved_state_reverse_video (v : bool) (t : term) : term := ltac:(set_field saved_state_reverse_video v t).
Definition set_saved_state_origin_mode (v : bool) (t : term) : term := ltac:(set_field saved_state_origin_mode v t).
Definition set_saved_state_wrap_enabled (v : bool) (t : term) : term := ltac:(set_field saved_state_wrap_enabled v t).
Definition set_saved_state_current_charset (v : Z) (t : term) : term := ltac:(set_field saved_state_current_charset v t).
Definition set_saved_state_charsets (v : list Z) (t : term) : term := ltac:(set_field saved_state_charsets v t).
Definition set_saved_state_current_primary (v : Z) (t : term) : term := ltac:(set_field saved_state_current_primary v t).
Definition set_saved_state_current_bg (v : Z) (t : term) : term := ltac:(set_field saved_state_current_bg v t).
Definition set_rows (v : Z) (t : term) : term := ltac:(set_field rows v t).
Definition set_cols (v : Z) (t : term) : term := ltac:(set_field cols v t).
Definition set_callback (v : Z) (t : term) : term := ltac:(set_field callback v t).

(** ** The backend *)

(** An argument of the client's callback: a number, or the address of the parameters
    of the sequence or of a byte of the command of the operating system. *)
Inductive cb_arg := Num (n : Z) | EscValues | OscBuf (i : Z).

(** The functions a backend puts in the context, and the client's callback. *)
Class Backend (B : Type) := {
  b_raw_putchar : term -> Z -> B -> outcome B;
  b_clear : term -> bool -> B -> outcome B;
  b_set_cursor_pos : term -> Z -> Z -> B -> outcome B;
  b_get_cursor_pos : term -> B -> Z * Z;
  b_set_text_fg : term -> Z -> B -> outcome B;
  b_set_text_bg : term -> Z -> B -> outcome B;
  b_set_text_fg_bright : term -> Z -> B -> outcome B;
  b_set_text_bg_bright : term -> Z -> B -> outcome B;
  b_set_text_fg_rgb : term -> Z -> B -> outcome B;
  b_set_text_bg_rgb : term -> Z -> B -> outcome B;
  b_set_text_fg_default : term -> B -> outcome B;
  b_set_text_bg_default : term -> B -> outcome B;
  b_set_text_fg_default_bright : term -> B -> outcome B;
  b_set_text_bg_default_bright : term -> B -> outcome B;
  b_move_character : term -> Z -> Z -> Z -> Z -> B -> outcome B;
  b_scroll : term -> B -> outcome B;
  b_revscroll : term -> B -> outcome B;
  b_swap_palette : term -> B -> outcome B;
  b_save_state : term -> B -> outcome B;
  b_restore_state : term -> B -> outcome B;
  b_double_buffer_flush : term -> B -> outcome B;
  b_full_refresh : term -> B -> outcome B;
  b_callback : term -> Z -> cb_arg -> cb_arg -> cb_arg -> B -> outcome B
}.

(** ** Computations on a context and its backend *)

Definition M (B A : Type) : Type := term -> B -> outcome (A * (term * B)).

#[export] Instance M_ret {B} : MRet (M B) := fun A a t b => Ret (a, (t, b)).
#[export] Instance M_bind {B} : MBind (M B) := fun A C f m t b =>
  r ← m t b; f r.1 r.2.1 r.2.2.

Section monad.
Context {B : Type}.

Definition gets {A} (f : term -> A) : M B A := fun t b => Ret (f t, (t, b)).
Definition modify (f : term -> term) : M B () := fun t b => Ret ((), (f t, b)).
Definition lift {A} (o : outcome A) : M B A := fun t b => a ← o; Ret (a, (t, b)).
Definition call (f : term -> B -> outcome B) : M B () := fun t b => b' ← f t b; Ret ((), (t, b')).
Definition when (c : bool) (m : M B ()) : M B () := if c then m else mret ().

(** [for (i = 0; i < n; i++) m] *)
Fixpoint repeatM (n : nat) (m : M B ()) : M B () :=
  match n with O => mret () | S n => m ;; repeatM n m end.

(** [for (i = lo; n--; i++) f(i)] *)
Fixpoint for_from (n : nat) (lo : Z) (f : Z -> M B ()) : M B () :=
  match n with O => mret () | S n => f lo ;; for_from n (lo + 1) f end.

(** [for (i = lo; i < hi; i++) f(i)] *)
Definition for_range (lo hi : Z) (f : Z -> M B ()) : M B () := for_from (Z.to_nat (hi - lo)) lo f.

(** [for (i = hi; n--; i--) f(i)] *)
Fixpoint for_downto (n : nat) (hi : Z) (f : Z -> M B ()) : M B () :=
  match n with O => mret () | S n => f hi ;; for_downto n (hi - 1) f end.

(** [for (i = hi; i >= lo; i--) f(i)]: [i] is unsigned, the loop does not end when [lo] is 0. *)
Definition for_down_ge (hi lo : Z) (f : Z -> M B ()) : M B () :=
  if lo =? 0 then lift Diverge else for_downto (Z.to_nat (hi - lo + 1)) hi f.
End monad.

Section operations.
Context {B : Type} `{Backend B}.

Definition raw_putchar (c : Z) : M B () := call (fun t => b_raw_putchar t c).
Definition clear (move : bool) : M B () := call (fun t => b_clear t move).
Definition set_cursor_pos (x y : Z) : M B () := call (fun t => b_set_cursor_pos t x y).
Definition get_cursor_pos : M B (Z * Z) := fun t b => Ret (b_get_cursor_pos t b, (t, b)).
Definition set_text_fg (fg : Z) : M B () := call (fun t => b_set_text_fg t fg).
Definition set_text_bg (bg : Z) : M B () := call (fun t => b_set_text_bg t bg).
Definition set_text_fg_bright (fg : Z) : M B () := call (fun t => b_set_text_fg_bright t fg).
Definition set_text_bg_bright (bg : Z) : M B () := call (fun t => b_set_text_bg_bright t bg).
Definition set_text_fg_rgb (fg : Z) : M B () := call (fun t => b_set_text_fg_rgb t fg).
Definition set_text_bg_rgb (bg : Z) : M B () := call (fun t => b_set_text_bg_rgb t bg).
Definition set_text_fg_default : M B () := call (fun t => b_set_text_fg_default t).
Definition set_text_bg_default : M B () := call (fun t => b_set_text_bg_default t).
Definition set_text_fg_default_bright : M B () := call (fun t => b_set_text_fg_default_bright t).
Definition set_text_bg_default_bright : M B () := call (fun t => b_set_text_bg_default_bright t).
Definition move_character (new_x new_y old_x old_y : Z) : M B () :=
  call (fun t => b_move_character t new_x new_y old_x old_y).
Definition scroll : M B () := call (fun t => b_scroll t).
Definition revscroll : M B () := call (fun t => b_revscroll t).
Definition swap_palette : M B () := call (fun t => b_swap_palette t).
Definition double_buffer_flush : M B () := call (fun t => b_double_buffer_flush t).

(** [if (ctx->callback != NULL) ctx->callback(ctx, kind, a, b, c)] *)
Definition client (kind : Z) (a b c : cb_arg) : M B () :=
  p ← gets callback; when (negb (p =? 0)) (call (fun t => b_callback t kind a b c)).
End operations.

Definition FLANTERM_CB_DEC := 10.
Definition FLANTERM_CB_BELL := 20.
Definition FLANTERM_CB_PRIVATE_ID := 30.
Definition FLANTERM_CB_STATUS_REPORT := 40.
Definition FLANTERM_CB_POS_REPORT := 50.
Definition FLANTERM_CB_KBD_LEDS := 60.
Definition FLANTERM_CB_MODE := 70.
Definition FLANTERM_CB_LINUX := 80.
Definition FLANTERM_CB_OSC := 90.

Definition FLANTERM_MAX_ESC_VALUES := 16.
Definition CHARSET_DEFAULT := 0.
Definition CHARSET_DEC_SPECIAL := 1.

(** [(size_t)-1] and [(size_t)-2]: the default colour, and a colour set by its value. *)
Definition COLOUR_DEFAULT := W64 - 1.
Definition COLOUR_RGB := W64 - 2.

(** A character constant. *)
Definition ch (a : Ascii.ascii) : Z := Z.of_N (Ascii.N_of_ascii a).
Arguments ch a%_char.

Definition flanterm_context_reinit (t : term) : term :=
  set_scroll_bottom_margin (rows t) $ set_scroll_top_margin 0 $ set_last_was_graphic false $
  set_last_printed_char (ch " ") $ set_saved_state_current_bg COLOUR_DEFAULT $
  set_saved_state_current_primary COLOUR_DEFAULT $ set_current_bg COLOUR_DEFAULT $
  set_current_primary COLOUR_DEFAULT $ set_saved_cursor_y 0 $ set_saved_cursor_x 0 $
  set_esc_values_i 0 $ set_escape_offset 0 $ set_current_charset 0 $
  set_charsets [CHARSET_DEFAULT; CHARSET_DEC_SPECIAL] $ set_g_select 0 $ set_unicode_remaining 0 $
  set_csi_unhandled false $ set_insert_mode false $ set_dec_private false $
  set_reverse_video false $ set_bg_bold false $ set_bold false $ set_discard_next false $
  set_rrr false $ set_osc_escape false $ set_osc false $ set_escape false $
  set_control_sequence false $ set_origin_mode false $ set_wrap_enabled true $
  set_scroll_enabled true $ set_cursor_enabled true $ set_autoflush true $ set_tab_size 8 t.

(** ** Graphic renditions *)

Section front.
Context {B : Type} `{Backend B}.

(** [ctx->esc_values[i]], read and written *)
Definition esc_value (i : Z) : M B Z := l ← gets esc_values; lift (get l (Z.to_nat i)).
Definition set_esc_value (i v : Z) : M B () :=
  l ← gets esc_values; l ← lift (put l (Z.to_nat i) v); modify (set_esc_values l).

(** The label [def]: back to the default rendition. *)
Definition sgr_default : M B () :=
  r ← gets reverse_video;
  when r (modify (set_reverse_video false) ;; swap_palette) ;;
  modify (set_bold false) ;; modify (set_bg_bold false) ;;
  modify (set_current_primary COLOUR_DEFAULT) ;; modify (set_current_bg COLOUR_DEFAULT) ;;
  set_text_bg_default ;; set_text_fg_default.

(** A parameter that turns bold on or off: the colour is set again from [colour], through
    [plain] or [swapped] as the palette is, unless it was set by its value. *)
Definition sgr_again (colour : Z) (indexed swapped : Z -> M B ()) (default default_swapped : M B ()) : M B () :=
  r ← gets reverse_video;
  if colour =? COLOUR_RGB then mret ()
  else if negb (colour =? COLOUR_DEFAULT) then (if negb r then indexed colour else swapped colour)
  else (if negb r then default else default_swapped).

(** The labels [set_fg] and [set_bg] with the colour [n]. *)
Definition sgr_set_fg (n : Z) : M B () :=
  bo ← gets bold; bg ← gets bg_bold; r ← gets reverse_video;
  if bo && negb r || bg && r then set_text_fg_bright n else set_text_fg n.
Definition sgr_set_bg (n : Z) : M B () :=
  bo ← gets bold; bg ← gets bg_bold; r ← gets reverse_video;
  if bo && r || bg && negb r then set_text_bg_bright n else set_text_bg n.

(** Parameters 39 and 49: the default colour, set with the palette in order. *)
Definition sgr_unswapped (m : M B ()) : M B () :=
  r ← gets reverse_video; when r swap_palette ;; m ;; r ← gets reverse_video; when r swap_palette.

(** [ctx->current_primary = v] or [ctx->current_bg = v] *)
Definition set_current (fg : bool) (v : Z) : M B () :=
  modify (if fg then set_current_primary v else set_current_bg v).

(** Parameters 38 and 48, at [i]: a colour by its components or by its index.  The
    result is the last parameter used, or [None] where the loop is left. *)
Definition sgr_colour (i : Z) (v : Z) : M B (option Z) :=
  r ← gets reverse_video;
  let fg := if (r : bool) then negb (v =? 38) else v =? 38 in
  let i := i + 1 in
  n ← gets esc_values_i;
  if n <=? i then mret None else
  kind ← esc_value i;
  if kind =? 2 then
    if n <=? i + 3 then mret None else
    r ← esc_value (i + 1); g ← esc_value (i + 2); b ← esc_value (i + 3);
    let rgb := Z.lor (Z.lor (Z.shiftl (Z.land r 0xff) 16) (Z.shiftl (Z.land g 0xff) 8)) (Z.land b 0xff) in
    set_current fg COLOUR_RGB ;;
    (if fg then set_text_fg_rgb rgb else set_text_bg_rgb rgb) ;;
    mret (Some (i + 3))
  else if kind =? 5 then
    if n <=? i + 1 then mret None else
    col ← esc_value (i + 1);
    (if col <? 8 then
       set_current fg col ;; (if fg then set_text_fg col else set_text_bg col)
     else if col <? 16 then
       set_current fg (col - 8) ;; (if fg then set_text_fg_bright (col - 8) else set_text_bg_bright (col - 8))
     else when (col <? 256) (
       set_current fg COLOUR_RGB ;;
       rgb ← lift (get col256 (Z.to_nat (col - 16)));
       if fg then set_text_fg_rgb rgb else set_text_bg_rgb rgb)) ;;
    mret (Some (i + 1))
  else mret (Some i).

(** One turn of the loop of [sgr], at the parameter [i]. *)
Definition sgr_param (i : Z) : M B (option Z) :=
  v ← esc_value i;
  let done (m : M B ()) : M B (option Z) := m ;; mret (Some i) in
  r ← gets reverse_video;
  if v =? 0 then done sgr_default
  else if v =? 1 then done (
    modify (set_bold true) ;; p ← gets current_primary;
    sgr_again p set_text_fg_bright set_text_bg_bright set_text_fg_default_bright set_text_bg_default_bright)
  else if (v =? 2) || (v =? 3) || (v =? 4) || (v =? 8) then done (mret ())
  else if v =? 5 then done (
    modify (set_bg_bold true) ;; p ← gets current_bg;
    sgr_again p set_text_bg_bright set_text_fg_bright set_text_bg_default_bright set_text_fg_default_bright)
  else if v =? 22 then done (
    modify (set_bold false) ;; p ← gets current_primary;
    sgr_again p set_text_fg set_text_bg set_text_fg_default set_text_bg_default)
  else if (v =? 23) || (v =? 24) || (v =? 28) then done (mret ())
  else if v =? 25 then done (
    modify (set_bg_bold false) ;; p ← gets current_bg;
    sgr_again p set_text_bg set_text_fg set_text_bg_default set_text_fg_default)
  else if (30 <=? v) && (v <=? 37) then done (
    modify (set_current_primary (v - 30)) ;; if (r : bool) then sgr_set_bg (v - 30) else sgr_set_fg (v - 30))
  else if (40 <=? v) && (v <=? 47) then done (
    modify (set_current_bg (v - 40)) ;; if (r : bool) then sgr_set_fg (v - 40) else sgr_set_bg (v - 40))
  else if (90 <=? v) && (v <=? 97) then done (
    modify (set_current_primary (v - 90)) ;; if (r : bool) then set_text_bg_bright (v - 90) else set_text_fg_bright (v - 90))
  else if (100 <=? v) && (v <=? 107) then done (
    modify (set_current_bg (v - 100)) ;; if (r : bool) then set_text_fg_bright (v - 100) else set_text_bg_bright (v - 100))
  else if v =? 39 then done (
    modify (set_current_primary COLOUR_DEFAULT) ;;
    sgr_unswapped (bo ← gets bold; if negb bo then set_text_fg_default else set_text_fg_default_bright))
  else if v =? 49 then done (
    modify (set_current_bg COLOUR_DEFAULT) ;;
    sgr_unswapped (bo ← gets bg_bold; if negb bo then set_text_bg_default else set_text_bg_default_bright))
  else if v =? 7 then done (when (negb r) (modify (set_reverse_video true) ;; swap_palette))
  else if v =? 27 then done (when r (modify (set_reverse_video false) ;; swap_palette))
  else if (v =? 38) || (v =? 48) then sgr_colour i v
  else done (mret ()).

(** The loop of [sgr] from the parameter [i]; [i] grows on every turn and there are at
    most 16 parameters. *)
Fixpoint sgr_loop (fuel : nat) (i : Z) : M B () :=
  match fuel with
  | O => lift Diverge
  | S fuel =>
      n ← gets esc_values_i;
      if i <? n then
        r ← sgr_param i;
        match r with Some i => sgr_loop fuel (i + 1) | None => mret () end
      else mret ()
  end.

Definition sgr : M B () :=
  n ← gets esc_values_i;
  if n =? 0 then sgr_default else sgr_loop 17 0.

(** ** Modes and commands of the operating system *)

(** One parameter of a DEC private mode sequence. *)
Definition dec_private_mode (set : bool) (v : Z) : M B () :=
  if v =? 6 then
    modify (set_origin_mode set) ;;
    top ← gets scroll_top_margin; set_cursor_pos 0 (if set then top else 0)
  else if v =? 7 then modify (set_wrap_enabled set)
  else if v =? 25 then modify (set_cursor_enabled set)
  else if v =? 1049 then (if set then clear true else sgr_default ;; clear true)
  else mret ().

Definition dec_private_parse (c : Z) : M B () :=
  modify (set_dec_private false) ;;
  n ← gets esc_values_i;
  if n =? 0 then mret () else
  if negb ((c =? ch "h") || (c =? ch "l")) then mret () else
  for_range 0 n (fun i => v ← esc_value i; dec_private_mode (c =? ch "h") v) ;;
  client FLANTERM_CB_DEC (Num n) EscValues (Num c).

Definition linux_private_parse : M B () :=
  n ← gets esc_values_i;
  if n =? 0 then mret () else client FLANTERM_CB_LINUX (Num n) EscValues (Num 0).

Definition mode_toggle (c : Z) : M B () :=
  n ← gets esc_values_i;
  if n =? 0 then mret () else
  if negb ((c =? ch "h") || (c =? ch "l")) then mret () else
  v ← esc_value 0;
  if v =? 4 then modify (set_insert_mode (c =? ch "h"))
  else client FLANTERM_CB_MODE (Num n) EscValues (Num c).

(** The number at the head of a command: its value and the index after it. *)
Fixpoint osc_number (fuel : nat) (buf : list Z) (n i num : Z) : outcome (Z * Z) :=
  match fuel with
  | O => Diverge
  | S fuel =>
      if i <? n then
        c ← get buf (Z.to_nat i);
        if (ch "0" <=? c) && (c <=? ch "9")
        then osc_number fuel buf n (i + 1) (u64 (num * 10 + (c - ch "0")))
        else Ret (num, i)
      else Ret (num, i)
  end.

Definition osc_finalize : M B () :=
  p ← gets callback;
  when (negb (p =? 0)) (
    n ← gets osc_buf_i; buf ← gets osc_buf;
    '(num, i) ← lift (osc_number (S (Z.to_nat n)) buf n 0 0);
    c ← (if i <? n then lift (get buf (Z.to_nat i)) else mret 0);
    let i := if (i <? n) && (c =? ch ";") then i + 1 else i in
    client FLANTERM_CB_OSC (Num num) (Num (n - i)) (OscBuf i)).

Definition osc_parse (c : Z) : M B bool :=
  e ← gets osc_escape;
  if (e : bool) then
    if c =? ch "\" then
      osc_finalize ;; modify (set_osc false) ;; modify (set_osc_escape false) ;;
      modify (set_escape false) ;; mret true
    else modify (set_osc_escape false) ;; modify (set_osc false) ;; mret false
  else
    (if c =? 0x1b then modify (set_osc_escape true)
     else if c =? 7 then
       osc_finalize ;; modify (set_osc_escape false) ;; modify (set_osc false) ;; modify (set_escape false)
     else
       n ← gets osc_buf_i;
       when (n <? 256) (
         buf ← gets osc_buf; buf ← lift (put buf (Z.to_nat n) c);
         modify (set_osc_buf buf) ;; modify (set_osc_buf_i (n + 1)))) ;;
    mret true.

(** ** Control sequences *)

(** Leaves the column as it is and goes down a line, scrolling at the bottom margin. *)
Definition line_feed (x y : Z) : M B () :=
  bottom ← gets scroll_bottom_margin;
  if y =? u64 (bottom - 1) then scroll ;; set_cursor_pos x y else set_cursor_pos x (y + 1).

(** The column of the next tab stop. *)
Definition next_tab (x : Z) : M B Z :=
  ts ← gets tab_size;
  if ts =? 0 then lift Undef else mret (u64 ((x / ts + 1) * ts)).

(** A C0 control character inside a control sequence. *)
Definition csi_control (c : Z) : M B () :=
  if c =? 7 then client FLANTERM_CB_BELL (Num 0) (Num 0) (Num 0)
  else if c =? 8 then
    '(x, y) ← get_cursor_pos; when (0 <? x) (set_cursor_pos (x - 1) y)
  else if c =? 9 then
    '(x, y) ← get_cursor_pos; x ← next_tab x; w ← gets cols;
    set_cursor_pos (if w <=? x then u64 (w - 1) else x) y
  else if (c =? 0x0b) || (c =? 0x0c) || (c =? 10) then '(x, y) ← get_cursor_pos; line_feed x y
  else if c =? 13 then '(x, y) ← get_cursor_pos; set_cursor_pos 0 y
  else if c =? 14 then modify (set_current_charset 1)
  else if c =? 15 then modify (set_current_charset 0)
  else mret ().

(** A digit of a parameter. *)
Definition csi_digit (c : Z) : M B () :=
  n ← gets esc_values_i;
  if n =? FLANTERM_MAX_ESC_VALUES then mret () else
  modify (set_rrr true) ;;
  v ← esc_value n;
  if (W32 - 1) / 10 <? v then mret ()
  else set_esc_value n (u32 (u32 (v * 10) + (c - ch "0"))).

(** The parameters of a sequence ending with [c]: the missing ones and, where the default
    is 1, the ones given as 0 take the default. *)
Definition csi_defaults (c : Z) : M B () :=
  let d := if (c =? ch "J") || (c =? ch "K") || (c =? ch "q") || (c =? ch "m") || (c =? ch "c") || (c =? ch "]")
           then 0 else 1 in
  n ← gets esc_values_i;
  for_range n FLANTERM_MAX_ESC_VALUES (fun i => set_esc_value i d) ;;
  when (negb (d =? 0)) (
    for_range 0 n (fun i => v ← esc_value i; when (v =? 0) (set_esc_value i d))).

Definition csi_up (x y : Z) : M B () :=
  v ← esc_value 0;
  when (y <? v) (set_esc_value 0 (u32 y)) ;;
  v ← esc_value 0;
  o ← gets origin_mode; top ← gets scroll_top_margin;
  let dest := u64 (y - v) in
  let min_y := if (o : bool) then top else 0 in
  set_cursor_pos x (if dest <? min_y then min_y else dest).

Definition csi_down (x y : Z) : M B () :=
  v ← esc_value 0; h ← gets rows;
  when (u64 (h - 1) <? y + v) (set_esc_value 0 (u32 (u64 (h - 1) - y))) ;;
  v ← esc_value 0;
  o ← gets origin_mode; bottom ← gets scroll_bottom_margin;
  let dest := y + v in
  let max_y := if (o : bool) then bottom else h in
  set_cursor_pos x (if max_y <=? dest then u64 (max_y - 1) else dest).

Definition csi_forward (x y : Z) : M B () :=
  v ← esc_value 0; w ← gets cols;
  when (u64 (w - 1) <? x + v) (set_esc_value 0 (u32 (u64 (w - 1) - x))) ;;
  v ← esc_value 0; set_cursor_pos (x + v) y.

Definition csi_back (x y : Z) : M B () :=
  v ← esc_value 0;
  when (x <? v) (set_esc_value 0 (u32 x)) ;;
  v ← esc_value 0; set_cursor_pos (u64 (x - v)) y.

(** [if (ctx->esc_values[i] != 0) ctx->esc_values[i]--] *)
Definition esc_decrement (i : Z) : M B () :=
  v ← esc_value i; when (negb (v =? 0)) (set_esc_value i (v - 1)).

(** [if (ctx->esc_values[i] >= max) ctx->esc_values[i] = max - 1] *)
Definition esc_clamp (i max : Z) : M B () :=
  v ← esc_value i; when (max <=? v) (set_esc_value i (u32 (u64 (max - 1)))).

(** The number of lines and the first line a row parameter counts from. *)
Definition row_base : M B (Z * Z) :=
  o ← gets origin_mode; h ← gets rows; top ← gets scroll_top_margin; bottom ← gets scroll_bottom_margin;
  mret (if (o : bool) then (u64 (bottom - top), top) else (h, 0)).

Definition csi_row (x : Z) : M B () :=
  esc_decrement 0 ;;
  '(max_row, row_offset) ← row_base;
  esc_clamp 0 max_row ;;
  v ← esc_value 0; set_cursor_pos x (v + row_offset).

Definition csi_column (y : Z) : M B () :=
  esc_decrement 0 ;;
  w ← gets cols; esc_clamp 0 w ;;
  v ← esc_value 0; set_cursor_pos v y.

Definition csi_position : M B () :=
  esc_decrement 0 ;; esc_decrement 1 ;;
  '(max_row, row_offset) ← row_base;
  w ← gets cols; esc_clamp 1 w ;; esc_clamp 0 max_row ;;
  vx ← esc_value 1; vy ← esc_value 0; set_cursor_pos vx (vy + row_offset).

(** [esc_values[0]] times, at most [max]. *)
Definition csi_times (max : Z) (m : M B ()) : M B () :=
  v ← esc_value 0; repeatM (Z.to_nat (if max <? v then max else v)) m.

(** Lines deleted or inserted at the cursor: [m] scrolls the region from the line of the cursor. *)
Definition csi_lines (y : Z) (m : M B ()) : M B () :=
  top ← gets scroll_top_margin; bottom ← gets scroll_bottom_margin;
  when (negb ((y <? top) || (bottom <=? y))) (
    modify (set_scroll_top_margin y) ;;
    csi_times (bottom - y) m ;;
    modify (set_scroll_top_margin top)).

Definition csi_status (x y : Z) : M B () :=
  v ← esc_value 0;
  if v =? 5 then client FLANTERM_CB_STATUS_REPORT (Num 0) (Num 0) (Num 0)
  else if v =? 6 then
    o ← gets origin_mode; top ← gets scroll_top_margin;
    let report_y := if o && (top <=? y) then y - top else y in
    client FLANTERM_CB_POS_REPORT (Num (x + 1)) (Num (report_y + 1)) (Num 0)
  else mret ().

(** [n] blanks from the cursor on. *)
Definition blanks (n : Z) : M B () := repeatM (Z.to_nat n) (raw_putchar (ch " ")).

(** A full line of blanks. *)
Definition blank_line (y : Z) : M B () := set_cursor_pos 0 y ;; w ← gets cols; blanks w.

Definition csi_erase_display (x y : Z) : M B () :=
  v ← esc_value 0; w ← gets cols; h ← gets rows;
  if v =? 0 then
    set_cursor_pos x y ;; blanks (w - x) ;;
    for_range (y + 1) h blank_line ;;
    set_cursor_pos x y
  else if v =? 1 then
    for_range 0 y blank_line ;;
    set_cursor_pos 0 y ;; blanks (x + 1) ;;
    set_cursor_pos x y
  else if (v =? 2) || (v =? 3) then clear false
  else mret ().

Definition csi_insert (x y : Z) : M B () :=
  v ← esc_value 0; w ← gets cols;
  let n := if u64 (w - x) <? v then u64 (w - x) else v in
  for_down_ge (u64 (w - 1)) (x + n) (fun i => move_character i y (u64 (i - n)) y) ;;
  set_cursor_pos x y ;; blanks n ;; set_cursor_pos x y.

Definition csi_erase (x y : Z) : M B () :=
  '(cx, cy) ← get_cursor_pos;
  set_cursor_pos cx cy ;;
  w ← gets cols;
  csi_times (u64 (w - cx)) (raw_putchar (ch " ")) ;;
  set_cursor_pos x y.

Definition csi_delete (x y : Z) : M B () :=
  v ← esc_value 0; w ← gets cols;
  when (u64 (w - x) <? v) (set_esc_value 0 (u32 (u64 (w - x)))) ;;
  v ← esc_value 0;
  for_range (x + v) w (fun i => move_character (u64 (i - v)) y i y) ;;
  set_cursor_pos (u64 (w - v)) y ;;
  csi_erase x y.

Definition csi_erase_line (x y : Z) : M B () :=
  v ← esc_value 0; w ← gets cols;
  if v =? 0 then set_cursor_pos x y ;; blanks (w - x) ;; set_cursor_pos x y
  else if v =? 1 then set_cursor_pos 0 y ;; blanks (x + 1) ;; set_cursor_pos x y
  else if v =? 2 then set_cursor_pos 0 y ;; blanks w ;; set_cursor_pos x y
  else mret ().

(** The margins [r] sets: those of the parameters, or the whole screen when they are not a
    region of at least two lines. *)
Definition margins (h n v0 v1 : Z) : Z * Z :=
  let top := if 0 <? n then u32 (v0 - 1) else 0 in
  let bottom := if 1 <? n then v1 else h in
  if (h <=? top) || (h <? bottom) || (u64 (bottom - 1) <=? top) then (0, h) else (top, bottom).

Definition csi_margins : M B () :=
  h ← gets rows; n ← gets esc_values_i; v0 ← esc_value 0; v1 ← esc_value 1;
  let '(top, bottom) := margins h n v0 v1 in
  modify (fun t => set_scroll_bottom_margin bottom (set_scroll_top_margin top t)) ;;
  o ← gets origin_mode; set_cursor_pos 0 (if (o : bool) then top else 0).

(** The region scrolled by the parameter, at most once over. *)
Definition csi_scroll (m : M B ()) : M B () :=
  top ← gets scroll_top_margin; bottom ← gets scroll_bottom_margin;
  csi_times (u64 (bottom - top)) m.

(** In insert mode the characters right of [x] move right. *)
Definition make_room (x y : Z) : M B () :=
  i ← gets insert_mode; w ← gets cols;
  when i (for_downto (Z.to_nat (u64 (w - 1) - x)) (u64 (w - 1)) (fun i => move_character i y (i - 1) y)).

Definition csi_repeat (r : bool) : M B () :=
  g ← gets last_was_graphic;
  when g (
    modify (set_scroll_enabled r) ;;
    csi_times 65535 (
      i ← gets insert_mode;
      when i ('(ix, iy) ← get_cursor_pos; make_room ix iy) ;;
      c ← gets last_printed_char; raw_putchar c)).

(** The final character of a sequence, with the cursor at [x], [y] and [r] the value
    scrolling had.  The result is false where the parser returns at once. *)
Definition csi_dispatch (c : Z) (r : bool) (x y : Z) : M B bool :=
  let done (m : M B ()) : M B bool := m ;; mret true in
  if c =? 0x1b then
    modify (set_scroll_enabled r) ;; modify (set_control_sequence false) ;;
    modify (set_escape_offset 0) ;; mret false
  else if c =? ch "F" then done (csi_up 0 y)
  else if c =? ch "A" then done (csi_up x y)
  else if c =? ch "E" then done (csi_down 0 y)
  else if (c =? ch "e") || (c =? ch "B") then done (csi_down x y)
  else if (c =? ch "a") || (c =? ch "C") then done (csi_forward x y)
  else if c =? ch "D" then done (csi_back x y)
  else if c =? ch "c" then done (client FLANTERM_CB_PRIVATE_ID (Num 0) (Num 0) (Num 0))
  else if c =? ch "d" then done (csi_row x)
  else if (c =? ch "G") || (c =? ch "`") then done (csi_column y)
  else if (c =? ch "H") || (c =? ch "f") then done csi_position
  else if c =? ch "M" then done (csi_lines y scroll)
  else if c =? ch "L" then done (csi_lines y revscroll)
  else if c =? ch "n" then done (csi_status x y)
  else if c =? ch "q" then done (v ← esc_value 0; client FLANTERM_CB_KBD_LEDS (Num v) (Num 0) (Num 0))
  else if c =? ch "J" then done (csi_erase_display x y)
  else if c =? ch "@" then done (csi_insert x y)
  else if c =? ch "P" then done (csi_delete x y)
  else if c =? ch "X" then done (csi_erase x y)
  else if c =? ch "m" then done sgr
  else if c =? ch "s" then done (
    '(x, y) ← get_cursor_pos; modify (set_saved_cursor_x x) ;; modify (set_saved_cursor_y y))
  else if c =? ch "u" then done (
    x ← gets saved_cursor_x; y ← gets saved_cursor_y; set_cursor_pos x y)
  else if c =? ch "K" then done (csi_erase_line x y)
  else if c =? ch "r" then done csi_margins
  else if (c =? ch "l") || (c =? ch "h") then done (mode_toggle c)
  else if c =? ch "S" then done (csi_scroll scroll)
  else if c =? ch "T" then done (csi_scroll revscroll)
  else if c =? ch "b" then done (csi_repeat r)
  else if c =? ch "]" then done linux_private_parse
  else if (0x40 <=? c) && (c <=? 0x7e) then mret true
  else modify (set_scroll_enabled r) ;; modify (set_csi_unhandled true) ;; mret false.

(** The label [cleanup]. *)
Definition csi_cleanup : M B () := modify (set_control_sequence false) ;; modify (set_escape false).

Definition control_sequence_parse (c : Z) : M B () :=
  off ← gets escape_offset;
  if (off =? 2) && (c =? ch "[") then modify (set_discard_next true) ;; csi_cleanup
  else if (off =? 2) && (c =? ch "?") then modify (set_dec_private true)
  else if (c <? 0x20) && negb (c =? 0x1b) then csi_control c
  else if (ch "0" <=? c) && (c <=? ch "9") then csi_digit c
  else
    rr ← gets rrr; n ← gets esc_values_i;
    when rr (modify (set_esc_values_i (n + 1)) ;; modify (set_rrr false)) ;;
    if c =? ch ";" then
      when (negb rr && negb (n =? FLANTERM_MAX_ESC_VALUES)) (
        set_esc_value n 0 ;; modify (set_esc_values_i (n + 1)))
    else
      csi_defaults c ;;
      dec ← gets dec_private; un ← gets csi_unhandled;
      if (dec : bool) then dec_private_parse c ;; csi_cleanup
      else if (un : bool) then
        when ((0x40 <=? c) && (c <=? 0x7e)) (modify (set_csi_unhandled false) ;; csi_cleanup)
      else
        r ← gets scroll_enabled;
        modify (set_scroll_enabled false) ;;
        '(x, y) ← get_cursor_pos;
        fin ← csi_dispatch c r x y;
        when fin (modify (set_scroll_enabled r) ;; csi_cleanup).

(** ** Escape sequences *)

Definition restore_state : M B () :=
  modify (fun t =>
    set_current_bg (saved_state_current_bg t) $ set_current_primary (saved_state_current_primary t) $
    set_charsets (saved_state_charsets t) $ set_current_charset (saved_state_current_charset t) $
    set_wrap_enabled (saved_state_wrap_enabled t) $ set_origin_mode (saved_state_origin_mode t) $
    set_reverse_video (saved_state_reverse_video t) $ set_bg_bold (saved_state_bg_bold t) $
    set_bold (saved_state_bold t) t) ;;
  call (fun t => b_restore_state t).

Definition save_state : M B () :=
  call (fun t => b_save_state t) ;;
  modify (fun t =>
    set_saved_state_current_bg (current_bg t) $ set_saved_state_current_primary (current_primary t) $
    set_saved_state_charsets (charsets t) $ set_saved_state_current_charset (current_charset t) $
    set_saved_state_wrap_enabled (wrap_enabled t) $ set_saved_state_origin_mode (origin_mode t) $
    set_saved_state_reverse_video (reverse_video t) $ set_saved_state_bg_bold (bg_bold t) $
    set_saved_state_bold (bold t) t).

(** The character after an escape, with the cursor at [x], [y].  The result is false where
    the sequence goes on. *)
Definition escape_dispatch (c x y : Z) : M B bool :=
  let done (m : M B ()) : M B bool := m ;; mret true in
  bottom ← gets scroll_bottom_margin; h ← gets rows;
  if c =? 0x1b then modify (set_escape_offset 0) ;; mret false
  else if c =? ch "]" then
    modify (set_osc_escape false) ;; modify (set_osc true) ;; modify (set_osc_buf_i 0) ;; mret false
  else if c =? ch "[" then
    for_range 0 FLANTERM_MAX_ESC_VALUES (fun i => set_esc_value i 0) ;;
    modify (set_esc_values_i 0) ;; modify (set_rrr false) ;; modify (set_csi_unhandled false) ;;
    modify (set_control_sequence true) ;; mret false
  else if c =? ch "7" then done save_state
  else if c =? ch "8" then done restore_state
  else if c =? ch "c" then done (
    rv ← gets reverse_video; when rv swap_palette ;;
    modify flanterm_context_reinit ;;
    set_text_bg_default ;; set_text_fg_default ;; clear true)
  else if c =? ch "D" then done (
    if y =? u64 (bottom - 1) then scroll ;; set_cursor_pos x y
    else when (y <? u64 (h - 1)) (set_cursor_pos x (y + 1)))
  else if c =? ch "E" then done (
    if y =? u64 (bottom - 1) then scroll ;; set_cursor_pos 0 y
    else if y <? u64 (h - 1) then set_cursor_pos 0 (y + 1) else set_cursor_pos 0 y)
  else if c =? ch "M" then done (
    top ← gets scroll_top_margin;
    if y =? top then revscroll ;; set_cursor_pos x y
    else when (0 <? y) (set_cursor_pos x (y - 1)))
  else if c =? ch "Z" then done (client FLANTERM_CB_PRIVATE_ID (Num 0) (Num 0) (Num 0))
  else if (c =? ch "(") || (c =? ch ")") then done (modify (set_g_select (c - ch "'")))
  else mret true.

Definition escape_parse (c : Z) : M B () :=
  off ← gets escape_offset; modify (set_escape_offset (u64 (off + 1))) ;;
  o ← gets osc;
  consumed ← (if (o : bool) then
                r ← osc_parse c;
                (if negb r then modify (set_escape_offset 1) else mret ()) ;; mret r
              else mret false);
  if (consumed : bool) then mret () else
  cs ← gets control_sequence;
  if (cs : bool) then control_sequence_parse c else
  '(x, y) ← get_cursor_pos;
  fin ← escape_dispatch c x y;
  when fin (modify (set_escape false)).

(** ** Characters *)

(** Prints a glyph and remembers it for the repeat sequence. *)
Definition print (g : Z) : M B () :=
  modify (set_last_printed_char g) ;; modify (set_last_was_graphic true) ;; raw_putchar g.

Definition dec_special_print (c : Z) : M B bool :=
  match switch dec_special c with
  | Some g => print g ;; mret true
  | None => mret false
  end.

(** Prints a code point: its glyph, or a box and as many blanks as the width asks for. *)
Definition print_code_point (cp : Z) : M B () :=
  let cc := unicode_to_cp437 cp in
  if cc =? -1 then
    w ← lift (mk_wcwidth (u32 cp));
    when (0 <? w) (print 0xfe) ;;
    blanks (w - 1)
  else print (u8 cc).

(** A byte that continues a code point.  The result is false where the byte is looked at
    again as the first of a character. *)
Definition utf8_continue (c : Z) : M B bool :=
  n ← gets unicode_remaining;
  if negb (Z.land c 0xc0 =? 0x80) then
    modify (set_unicode_remaining 0) ;; raw_putchar 0xfe ;; mret false
  else
    let n := n - 1 in
    modify (set_unicode_remaining n) ;;
    cp ← gets code_point;
    let cp := u64 (Z.lor cp (Z.shiftl (Z.land c 0x3f) (6 * n))) in
    modify (set_code_point cp) ;;
    if (n =? 1) && (cp <? 0x800) || (n =? 2) && (cp <? 0x10000) || (n =? 2) && (0x10ffff <? cp)
    then modify (set_unicode_remaining 0) ;; mret false
    else if negb (n =? 0) then mret true
    else if (0xd800 <=? cp) && (cp <=? 0xdfff) then mret false
    else print_code_point cp ;; mret true.

(** The first byte of a code point of several bytes. *)
Definition utf8_start (c : Z) : M B () :=
  modify (set_g_select 0) ;;
  if c <=? 0xdf then
    modify (set_unicode_remaining 1) ;; modify (set_code_point (Z.shiftl (Z.land c 0x1f) 6))
  else if c <=? 0xef then
    modify (set_unicode_remaining 2) ;; modify (set_code_point (Z.shiftl (Z.land c 0x0f) 12))
  else
    modify (set_unicode_remaining 3) ;; modify (set_code_point (Z.shiftl (Z.land c 0x07) 18)).

(** The character after [ESC (] or [ESC )].  The result is false where it is a control
    character, taken as such. *)
Definition select_charset (c : Z) : M B bool :=
  g ← gets g_select;
  if (c <=? 0x1f) || (c =? 0x7f) then modify (set_g_select 0) ;; mret false
  else
    cs ← gets charsets;
    cs ← (if c =? ch "B" then lift (put cs (Z.to_nat (g - 1)) CHARSET_DEFAULT)
          else if c =? ch "0" then lift (put cs (Z.to_nat (g - 1)) CHARSET_DEC_SPECIAL)
          else mret cs);
    modify (set_charsets cs) ;; modify (set_g_select 0) ;; mret true.

(** A control character or a printed one, outside any sequence. *)
Definition ground (c : Z) : M B () :=
  when ((c <=? 0x1f) && negb (c =? 0x1b) || (c =? 0x7f)) (modify (set_last_was_graphic false)) ;;
  '(x, y) ← get_cursor_pos;
  w ← gets cols;
  if (c =? 0) || (c =? 0x7f) then mret ()
  else if c =? 0x1b then modify (set_escape_offset 0) ;; modify (set_escape true)
  else if c =? 9 then
    next ← next_tab x;
    if w <=? next then set_cursor_pos (u64 (w - 1)) y else set_cursor_pos next y
  else if (c =? 0x0b) || (c =? 0x0c) || (c =? 10) then line_feed x y
  else if c =? 8 then when (0 <? x) (set_cursor_pos (x - 1) y)
  else if c =? 13 then set_cursor_pos 0 y
  else if c =? 7 then client FLANTERM_CB_BELL (Num 0) (Num 0) (Num 0)
  else if c =? 14 then modify (set_current_charset 1)
  else if c =? 15 then modify (set_current_charset 0)
  else
    make_room x y ;;
    cs ← gets charsets; cur ← gets current_charset;
    set ← lift (get cs (Z.to_nat cur));
    printed ← (if set =? CHARSET_DEC_SPECIAL then dec_special_print c else mret false);
    if (printed : bool) then mret ()
    else if (0x20 <=? c) && (c <=? 0x7e) then print c
    else when (0x80 <=? c) (print 0xfe).

Definition flanterm_putchar (c : Z) : M B () :=
  d ← gets discard_next;
  if d || (c =? 0x18) || (c =? 0x1a) then
    modify (fun t =>
      set_last_was_graphic false $ set_g_select 0 $ set_osc_escape false $ set_osc false $
      set_unicode_remaining 0 $ set_control_sequence false $ set_escape false $ set_discard_next false t)
  else
    n ← gets unicode_remaining;
    consumed ← (if negb (n =? 0) then utf8_continue c else mret false);
    if (consumed : bool) then mret () else
    if (0xc2 <=? c) && (c <=? 0xf4) then utf8_start c else
    e ← gets escape;
    if (e : bool) then escape_parse c else
    g ← gets g_select;
    consumed ← (if negb (g =? 0) then select_charset c else mret false);
    if (consumed : bool) then mret () else ground c.

Fixpoint flanterm_putchars (buf : list Z) : M B () :=
  match buf with [] => mret () | c :: buf => flanterm_putchar c ;; flanterm_putchars buf end.

Definition flanterm_write (buf : list Z) : M B () :=
  flanterm_putchars buf ;; a ← gets autoflush; when a double_buffer_flush.

Definition flanterm_flush : M B () := double_buffer_flush.
Definition flanterm_full_refresh : M B () := call (fun t => b_full_refresh t).
Definition flanterm_get_dimensions (t : term) : Z * Z := (cols t, rows t).
Definition flanterm_set_autoflush (state : bool) (t : term) : term := set_autoflush state t.
Definition flanterm_set_callback (p : Z) (t : term) : term := set_callback p t.
End front.
