(* ===== verification/TermRefine.v ===== *)
(** The parser of the terminal against two backends at once.  [Refines] says what a
    relation between two backends must give; the parser then keeps the backends
    related on every input, returns on both, and keeps its context well formed.
    With a backend that implements the plain screen of the specification this is
    the refinement of the whole terminal; with any backend on its own it is the
    safety of the parser. *)
From Stdlib Require Import Ascii.
From S2P Require Import Prelude Bytes TermTables Term.

(** ** A well-formed context *)

(** The dimensions, and a scrolling region inside the screen. *)
Record geometry (t : term) : Prop := {
  geo_rows : 0 < rows t < 0x80000000;
  geo_cols : 0 < cols t < 0x80000000;
  geo_margins : 0 <= scroll_top_margin t < scroll_bottom_margin t /\ scroll_bottom_margin t <= rows t
}.

(** An index of the palette, the default colour, or a colour set by its value. *)
Definition colour_ok (c : Z) : Prop := 0 <= c < 8 \/ c = COLOUR_DEFAULT \/ c = COLOUR_RGB.

Lemma colour_ok_default : colour_ok COLOUR_DEFAULT.
Proof. unfold colour_ok. auto. Qed.

Lemma colour_ok_rgb : colour_ok COLOUR_RGB.
Proof. unfold colour_ok. auto. Qed.

Lemma colour_ok_index n : 0 <= n < 8 -> colour_ok n.
Proof. unfold colour_ok. auto. Qed.

Create HintDb term.
#[export] Hint Resolve colour_ok_default colour_ok_rgb : term.
#[export] Hint Extern 2 (colour_ok _) => apply colour_ok_index; lia : term.

Definition u32s (l : list Z) : Prop := Forall (fun v => 0 <= v < W32) l.

(** Whether the terminal also shows by itself what is written. *)
Class keep_shown := keep : bool.

Record term_ok_with (keep : keep_shown) (t : term) : Prop := {
  ok_geo : geometry t;
  ok_tab : 0 < tab_size t < 0x80000000;
  ok_osc : length (osc_buf t) = 256%nat /\ 0 <= osc_buf_i t <= 256;
  ok_esc : length (esc_values t) = 16%nat /\ u32s (esc_values t);
  ok_esc_i : 0 <= esc_values_i t <= 16 /\ (rrr t = true -> esc_values_i t < 16);
  ok_utf8 : 0 <= unicode_remaining t <= 3;
  ok_charsets : length (charsets t) = 2%nat /\ 0 <= current_charset t < 2 /\ 0 <= g_select t <= 2;
  ok_saved_charsets : length (saved_state_charsets t) = 2%nat /\ 0 <= saved_state_current_charset t < 2;
  ok_colours : colour_ok (current_primary t) /\ colour_ok (current_bg t);
  ok_saved_colours : colour_ok (saved_state_current_primary t) /\ colour_ok (saved_state_current_bg t);
  ok_saved_cursor : 0 <= saved_cursor_x t < W64 /\ 0 <= saved_cursor_y t < W64;
  ok_last : 0 <= last_printed_char t < 256;
  ok_flush : keep = true -> autoflush t = true
}.
Arguments ok_geo {keep} t _.
Arguments ok_tab {keep} t _.
Arguments ok_osc {keep} t _.
Arguments ok_esc {keep} t _.
Arguments ok_esc_i {keep} t _.
Arguments ok_utf8 {keep} t _.
Arguments ok_charsets {keep} t _.
Arguments ok_saved_charsets {keep} t _.
Arguments ok_colours {keep} t _.
Arguments ok_saved_colours {keep} t _.
Arguments ok_saved_cursor {keep} t _.
Arguments ok_last {keep} t _.
Arguments ok_flush {keep} t _.
Abbreviation term_ok := (term_ok_with false).

Lemma ok_weaken k t : term_ok_with k t -> term_ok t.
Proof. by intros []; split. Qed.

(** Computes the fields of a context after assignments. *)
Ltac tcbn :=
  cbn [
    tab_size autoflush cursor_enabled scroll_enabled wrap_enabled origin_mode control_sequence
    escape osc osc_escape osc_buf_i osc_buf rrr discard_next bold bg_bold reverse_video
    dec_private insert_mode csi_unhandled code_point unicode_remaining g_select charsets
    current_charset escape_offset esc_values_i saved_cursor_x saved_cursor_y current_primary
    current_bg scroll_top_margin scroll_bottom_margin esc_values last_printed_char
    last_was_graphic saved_state_bold saved_state_bg_bold saved_state_reverse_video
    saved_state_origin_mode saved_state_wrap_enabled saved_state_current_charset
    saved_state_charsets saved_state_current_primary saved_state_current_bg rows cols callback
    set_tab_size set_autoflush set_cursor_enabled set_scroll_enabled set_wrap_enabled
    set_origin_mode set_control_sequence set_escape set_osc set_osc_escape set_osc_buf_i
    set_osc_buf set_rrr set_discard_next set_bold set_bg_bold set_reverse_video set_dec_private
    set_insert_mode set_csi_unhandled set_code_point set_unicode_remaining set_g_select
    set_charsets set_current_charset set_escape_offset set_esc_values_i set_saved_cursor_x
    set_saved_cursor_y set_current_primary set_current_bg set_scroll_top_margin
    set_scroll_bottom_margin set_esc_values set_last_printed_char set_last_was_graphic
    set_saved_state_bold set_saved_state_bg_bold set_saved_state_reverse_video
    set_saved_state_origin_mode set_saved_state_wrap_enabled set_saved_state_current_charset
    set_saved_state_charsets set_saved_state_current_primary set_saved_state_current_bg set_rows
    set_cols set_callback flanterm_context_reinit fst snd ].

(** ** Related backends *)

Section laws.
Context {B1 B2 : Type} `{Backend B1} `{Backend B2}.

(** Both backends return, and stay related. *)
Definition related (sim : Z -> Z -> B1 -> B2 -> Prop) (t : term) (f1 : B1 -> outcome B1) (f2 : B2 -> outcome B2) : Prop :=
  forall b1 b2, sim (rows t) (cols t) b1 b2 ->
  exists b1' b2', f1 b1 = Ret b1' /\ f2 b2 = Ret b2' /\ sim (rows t) (cols t) b1' b2'.
End laws.

(** What a relation between two backends, for given dimensions, must give. *)
Class Refines (B1 B2 : Type) `{Backend B1} `{Backend B2} := {
  sim : Z -> Z -> B1 -> B2 -> Prop;
  sim_cursor t b1 b2 : geometry t -> sim (rows t) (cols t) b1 b2 ->
    exists x y, b_get_cursor_pos t b1 = (x, y) /\ b_get_cursor_pos t b2 = (x, y) /\
    0 <= x < cols t /\ 0 <= y < rows t;
  sim_raw_putchar t c : geometry t -> 0 <= c < 256 -> related sim t (b_raw_putchar t c) (b_raw_putchar t c);
  sim_clear t m : geometry t -> related sim t (b_clear t m) (b_clear t m);
  sim_set_cursor_pos t x y : geometry t -> 0 <= x < W64 -> 0 <= y < W64 ->
    related sim t (b_set_cursor_pos t x y) (b_set_cursor_pos t x y);
  sim_set_text_fg t n : geometry t -> 0 <= n < 8 -> related sim t (b_set_text_fg t n) (b_set_text_fg t n);
  sim_set_text_bg t n : geometry t -> 0 <= n < 8 -> related sim t (b_set_text_bg t n) (b_set_text_bg t n);
  sim_set_text_fg_bright t n : geometry t -> 0 <= n < 8 ->
    related sim t (b_set_text_fg_bright t n) (b_set_text_fg_bright t n);
  sim_set_text_bg_bright t n : geometry t -> 0 <= n < 8 ->
    related sim t (b_set_text_bg_bright t n) (b_set_text_bg_bright t n);
  sim_set_text_fg_rgb t n : geometry t -> 0 <= n < W32 ->
    related sim t (b_set_text_fg_rgb t n) (b_set_text_fg_rgb t n);
  sim_set_text_bg_rgb t n : geometry t -> 0 <= n < W32 ->
    related sim t (b_set_text_bg_rgb t n) (b_set_text_bg_rgb t n);
  sim_set_text_fg_default t : geometry t -> related sim t (b_set_text_fg_default t) (b_set_text_fg_default t);
  sim_set_text_bg_default t : geometry t -> related sim t (b_set_text_bg_default t) (b_set_text_bg_default t);
  sim_set_text_fg_default_bright t : geometry t ->
    related sim t (b_set_text_fg_default_bright t) (b_set_text_fg_default_bright t);
  sim_set_text_bg_default_bright t : geometry t ->
    related sim t (b_set_text_bg_default_bright t) (b_set_text_bg_default_bright t);
  sim_move_character t nx ny ox oy : geometry t -> 0 <= nx -> 0 <= ny -> 0 <= ox -> 0 <= oy ->
    related sim t (b_move_character t nx ny ox oy) (b_move_character t nx ny ox oy);
  sim_scroll t : geometry t -> related sim t (b_scroll t) (b_scroll t);
  sim_revscroll t : geometry t -> related sim t (b_revscroll t) (b_revscroll t);
  sim_swap_palette t : geometry t -> related sim t (b_swap_palette t) (b_swap_palette t);
  sim_save_state t : geometry t -> related sim t (b_save_state t) (b_save_state t);
  sim_restore_state t : geometry t -> related sim t (b_restore_state t) (b_restore_state t);
  sim_flush t : geometry t -> related sim t (b_double_buffer_flush t) (b_double_buffer_flush t);
  sim_callback t k x y z : geometry t -> related sim t (b_callback t k x y z) (b_callback t k x y z)
}.

Section refine.
Context {K : keep_shown} {B1 B2 : Type} `{Refines B1 B2}.
#[local] Abbreviation term_ok := (term_ok_with K).

(** From related backends both computations return the same value and the same context,
    which satisfy [Q], and related backends. *)
Definition ref {A} (m1 : M B1 A) (m2 : M B2 A) (t : term) (Q : A -> term -> Prop) : Prop :=
  forall b1 b2, sim (rows t) (cols t) b1 b2 ->
  exists a t' b1' b2', m1 t b1 = Ret (a, (t', b1')) /\ m2 t b2 = Ret (a, (t', b2')) /\
  sim (rows t') (cols t') b1' b2' /\ Q a t'.

Lemma ref_conseq {A} (m1 : M B1 A) m2 t (Q Q' : A -> term -> Prop) :
  ref m1 m2 t Q -> (forall a t', Q a t' -> Q' a t') -> ref m1 m2 t Q'.
Proof.
  intros Hm HQ b1 b2 Hs. destruct (Hm b1 b2 Hs) as (a & t' & b1' & b2' & ? & ? & ? & ?).
  exists a, t', b1', b2'. auto.
Qed.

Lemma ref_ret {A} (a : A) t (Q : A -> term -> Prop) : Q a t -> ref (mret a) (mret a) t Q.
Proof. intros HQ b1 b2 Hs. by exists a, t, b1, b2. Qed.

Lemma ref_bind {A C} (m1 : M B1 A) m2 (f1 : A -> M B1 C) f2 t Q :
  ref m1 m2 t (fun a t' => ref (f1 a) (f2 a) t' Q) -> ref (m1 ≫= f1) (m2 ≫= f2) t Q.
Proof.
  intros Hm b1 b2 Hs. destruct (Hm b1 b2 Hs) as (a & t' & b1' & b2' & E1 & E2 & Hs' & Hf).
  destruct (Hf b1' b2' Hs') as (c & t'' & b1'' & b2'' & F1 & F2 & ?).
  exists c, t'', b1'', b2''. unfold mbind, M_bind. rewrite E1, E2. cbn. by rewrite F1, F2.
Qed.

Lemma ref_gets {A} (f : term -> A) t (Q : A -> term -> Prop) : Q (f t) t -> ref (gets f) (gets f) t Q.
Proof. intros HQ b1 b2 Hs. by exists (f t), t, b1, b2. Qed.

Lemma ref_modify (f : term -> term) t (Q : unit -> term -> Prop) :
  rows (f t) = rows t -> cols (f t) = cols t -> Q () (f t) -> ref (modify f) (modify f) t Q.
Proof. intros Hr Hc HQ b1 b2 Hs. exists (), (f t), b1, b2. by rewrite Hr, Hc. Qed.

Lemma ref_lift {A} (o : outcome A) a t (Q : A -> term -> Prop) :
  o = Ret a -> Q a t -> ref (lift o) (lift o) t Q.
Proof. intros -> HQ b1 b2 Hs. by exists a, t, b1, b2. Qed.

Lemma ref_call f1 f2 t (Q : unit -> term -> Prop) :
  related sim t (f1 t) (f2 t) -> Q () t -> ref (call f1) (call f2) t Q.
Proof.
  intros Hf HQ b1 b2 Hs. destruct (Hf b1 b2 Hs) as (b1' & b2' & E1 & E2 & Hs').
  exists (), t, b1', b2'. unfold call. by rewrite E1, E2.
Qed.

Lemma ref_when c (m1 : M B1 ()) m2 t (Q : unit -> term -> Prop) :
  (c = true -> ref m1 m2 t Q) -> (c = false -> Q () t) -> ref (when c m1) (when c m2) t Q.
Proof. destruct c; cbn; intros Ht Hf; [by apply Ht|apply ref_ret; auto]. Qed.

Lemma ref_for_from (I : Z -> term -> Prop) (f1 : Z -> M B1 ()) f2 n lo t (Q : unit -> term -> Prop) :
  (forall i t, lo <= i < lo + Z.of_nat n -> I i t -> ref (f1 i) (f2 i) t (fun _ => I (i + 1))) ->
  I lo t -> (forall t, I (lo + Z.of_nat n) t -> Q () t) -> ref (for_from n lo f1) (for_from n lo f2) t Q.
Proof.
  revert lo t. induction n as [|n IH]; intros lo t Hf HI HQ; cbn [for_from].
  { apply ref_ret, HQ. by rewrite Z.add_0_r. }
  apply ref_bind. eapply ref_conseq; [apply Hf; [lia|done]|]. cbn beta. intros _ t' HI'.
  apply IH; [|done|]; [intros i s Hi; apply Hf; lia|].
  intros s Hs. apply HQ. by replace (lo + Z.of_nat (S n)) with (lo + 1 + Z.of_nat n) by lia.
Qed.

(** A loop with an invariant that depends on the index. *)
Lemma ref_for_index (I : Z -> term -> Prop) (f1 : Z -> M B1 ()) f2 lo hi t (Q : unit -> term -> Prop) :
  lo <= hi -> (forall i t, lo <= i < hi -> I i t -> ref (f1 i) (f2 i) t (fun _ => I (i + 1))) ->
  I lo t -> (forall t, I hi t -> Q () t) -> ref (for_range lo hi f1) (for_range lo hi f2) t Q.
Proof.
  intros Hle Hf HI HQ. apply (ref_for_from I); [intros i s Hi; apply Hf; lia|done|].
  intros s. replace (lo + Z.of_nat (Z.to_nat (hi - lo))) with hi by lia. apply HQ.
Qed.

Lemma ref_for_range (I : term -> Prop) (f1 : Z -> M B1 ()) f2 lo hi t (Q : unit -> term -> Prop) :
  (forall i t, lo <= i < hi -> I t -> ref (f1 i) (f2 i) t (fun _ => I)) ->
  I t -> (forall t, I t -> Q () t) -> ref (for_range lo hi f1) (for_range lo hi f2) t Q.
Proof. intros Hf. apply (ref_for_from (fun _ => I)). intros i s Hi. apply Hf. lia. Qed.

Lemma ref_for_downto (I : term -> Prop) (f1 : Z -> M B1 ()) f2 n hi t (Q : unit -> term -> Prop) :
  (forall i t, hi - Z.of_nat n < i <= hi -> I t -> ref (f1 i) (f2 i) t (fun _ => I)) ->
  I t -> (forall t, I t -> Q () t) -> ref (for_downto n hi f1) (for_downto n hi f2) t Q.
Proof.
  revert hi t. induction n as [|n IH]; intros hi t Hf HI HQ; cbn [for_downto]; [apply ref_ret; auto|].
  apply ref_bind. eapply ref_conseq; [apply Hf; [lia|done]|]. cbn. intros _ t' HI'.
  apply IH; [|done..]. intros i s Hi. apply Hf. lia.
Qed.

Lemma ref_repeat (I : term -> Prop) (m1 : M B1 ()) m2 n t (Q : unit -> term -> Prop) :
  (forall t, I t -> ref m1 m2 t (fun _ => I)) ->
  I t -> (forall t, I t -> Q () t) -> ref (repeatM n m1) (repeatM n m2) t Q.
Proof.
  revert t. induction n as [|n IH]; intros t Hm HI HQ; cbn [repeatM]; [apply ref_ret; auto|].
  apply ref_bind. eapply ref_conseq; [by apply Hm|]. cbn. intros _ t' HI'. by apply IH.
Qed.

(** *** The operations of the backend *)

Lemma ref_get_cursor_pos t (Q : Z * Z -> term -> Prop) :
  geometry t -> (forall x y, 0 <= x < cols t -> 0 <= y < rows t -> Q (x, y) t) ->
  ref get_cursor_pos get_cursor_pos t Q.
Proof.
  intros Hg HQ b1 b2 Hs. destruct (sim_cursor t b1 b2 Hg Hs) as (x & y & E1 & E2 & Hx & Hy).
  exists (x, y), t, b1, b2. unfold get_cursor_pos. rewrite E1, E2. auto.
Qed.

Lemma ref_client k a b c t (Q : unit -> term -> Prop) :
  geometry t -> Q () t -> ref (client k a b c) (client k a b c) t Q.
Proof.
  intros Hg HQ. apply ref_bind, ref_gets, ref_when; [|done]. intros _.
  apply ref_call; [by apply sim_callback|done].
Qed.

(** *** One parameter of a sequence *)

Lemma ref_esc_value i t (Q : Z -> term -> Prop) :
  term_ok t -> 0 <= i < 16 ->
  (forall v, esc_values t !! Z.to_nat i = Some v -> 0 <= v < W32 -> Q v t) ->
  ref (esc_value i) (esc_value i) t Q.
Proof.
  intros Hok Hi HQ. destruct (ok_esc t Hok) as [Hl Hu].
  destruct (lookup_lt_is_Some_2 (esc_values t) (Z.to_nat i)) as [v Hv]; [lia|].
  apply ref_bind, ref_gets. eapply ref_lift; [by apply get_lookup|].
  apply HQ; [done|]. by apply (Forall_lookup_1 _ _ _ _ Hu Hv).
Qed.

Lemma ref_set_esc_value i v t (Q : unit -> term -> Prop) :
  term_ok t -> 0 <= i < 16 -> 0 <= v < W32 ->
  (term_ok (set_esc_values (<[Z.to_nat i := v]> (esc_values t)) t) ->
   Q () (set_esc_values (<[Z.to_nat i := v]> (esc_values t)) t)) ->
  ref (set_esc_value i v) (set_esc_value i v) t Q.
Proof.
  intros Hok Hi Hv HQ. destruct (ok_esc t Hok) as [Hl Hu].
  apply ref_bind, ref_gets, ref_bind. eapply ref_lift; [apply put_lt; lia|].
  apply ref_modify; [done..|]. apply HQ.
  destruct Hok as [[? ? ?] ? ? ? ? ? ? ? ? ? ? ? ?]. split; tcbn; try assumption; [by split|].
  rewrite length_insert. split; [done|]. by apply Forall_insert.
Qed.
End refine.

(** Proves a context well formed after assignments to its fields. *)
Ltac solve_ok :=
  match goal with
  | |- term_ok_with _ _ => assumption
  | K : term_ok_with _ _ |- term_ok_with _ _ =>
      let Hok := fresh in
      pose proof K as Hok;
      solve [destruct Hok as [[? ? ?] ? ? ? [? ?] ? [? [? ?]] [? ?] [? ?] [? ?] [? ?] ? ?];
        split; tcbn; [split; tcbn|..]; first
        [assumption | repeat split; (assumption || lia || (intros; congruence) || (auto with term; fail) || done)]]
  | |- geometry _ => assumption
  | K : term_ok_with _ _ |- geometry _ => solve [destruct (ok_geo _ K); split; tcbn; (assumption || lia)]
  end.

(** One step through a computation. *)
Ltac rstep :=
  lazymatch goal with
  | |- ref (_ ≫= _) (_ ≫= _) _ _ => apply ref_bind
  | |- ref (mret _) _ _ _ => apply ref_ret
  | |- ref (gets _) _ _ _ => apply ref_gets; tcbn
  | |- ref (modify _) _ _ _ => apply ref_modify; [reflexivity|reflexivity|]
  | |- ref (when _ _) _ _ _ => apply ref_when; intros ?
  | |- ref (client _ _ _ _) _ _ _ => apply ref_client; [solve_ok|]
  | |- ref get_cursor_pos _ _ _ => apply ref_get_cursor_pos; [solve_ok|tcbn; intros ? ? ? ?]
  | |- ref (raw_putchar _) _ _ _ => apply ref_call; [apply sim_raw_putchar; [solve_ok|]|]
  | |- ref (clear _) _ _ _ => apply ref_call; [apply sim_clear; solve_ok|]
  | |- ref (set_cursor_pos _ _) _ _ _ => apply ref_call; [apply sim_set_cursor_pos; [solve_ok|..]|]
  | |- ref (set_text_fg _) _ _ _ => apply ref_call; [apply sim_set_text_fg; [solve_ok|]|]
  | |- ref (set_text_bg _) _ _ _ => apply ref_call; [apply sim_set_text_bg; [solve_ok|]|]
  | |- ref (set_text_fg_bright _) _ _ _ => apply ref_call; [apply sim_set_text_fg_bright; [solve_ok|]|]
  | |- ref (set_text_bg_bright _) _ _ _ => apply ref_call; [apply sim_set_text_bg_bright; [solve_ok|]|]
  | |- ref (set_text_fg_rgb _) _ _ _ => apply ref_call; [apply sim_set_text_fg_rgb; [solve_ok|]|]
  | |- ref (set_text_bg_rgb _) _ _ _ => apply ref_call; [apply sim_set_text_bg_rgb; [solve_ok|]|]
  | |- ref set_text_fg_default _ _ _ => apply ref_call; [apply sim_set_text_fg_default; solve_ok|]
  | |- ref set_text_bg_default _ _ _ => apply ref_call; [apply sim_set_text_bg_default; solve_ok|]
  | |- ref set_text_fg_default_bright _ _ _ => apply ref_call; [apply sim_set_text_fg_default_bright; solve_ok|]
  | |- ref set_text_bg_default_bright _ _ _ => apply ref_call; [apply sim_set_text_bg_default_bright; solve_ok|]
  | |- ref scroll _ _ _ => apply ref_call; [apply sim_scroll; solve_ok|]
  | |- ref revscroll _ _ _ => apply ref_call; [apply sim_revscroll; solve_ok|]
  | |- ref swap_palette _ _ _ => apply ref_call; [apply sim_swap_palette; solve_ok|]
  | |- ref double_buffer_flush _ _ _ => apply ref_call; [apply sim_flush; solve_ok|]
  | |- ref (if ?c then _ else _) _ _ _ => destruct c eqn:?
  end.
