(* ===== verification/TermSafe.v ===== *)
(** * The parser against two related backends

    Graphic renditions and modes, control sequences, and the whole parser: on any bytes
    the backends stay related and the context stays well formed. *)

From Stdlib Require Import Ascii.
From S2P Require Import Prelude Bytes TermTables Term TermRefine.

(** The graphic renditions, the modes and the commands of the operating system against
    two related backends. *)

(** ** Graphic renditions *)

Section sgr.
Context {K : keep_shown} {B1 B2 : Type} `{Refines B1 B2}.
#[local] Abbreviation term_ok := (term_ok_with K).

(** The context stays well formed and keeps the number of its parameters. *)
Definition keeps (n : Z) (t : term) : Prop := term_ok t /\ esc_values_i t = n.

Lemma ref_sgr_default t : term_ok t -> ref sgr_default sgr_default t (fun _ => keeps (esc_values_i t)).
Proof. intros Hok. unfold sgr_default. repeat rstep; (split; [solve_ok|done]). Qed.
Lemma ref_sgr_again c i1 i2 s1 s2 d1 d2 e1 e2 t (Q : unit -> term -> Prop) :
  colour_ok c -> Q () t ->
  (forall n, 0 <= n < 8 -> ref (i1 n) (i2 n) t Q) -> (forall n, 0 <= n < 8 -> ref (s1 n) (s2 n) t Q) ->
  ref d1 d2 t Q -> ref e1 e2 t Q ->
  ref (sgr_again (B := B1) c i1 s1 d1 e1) (sgr_again (B := B2) c i2 s2 d2 e2) t Q.
Proof.
  intros Hc HQ Hi Hs Hd He. unfold sgr_again. do 2 rstep.
  split_eqb c COLOUR_RGB; [by apply ref_ret|]. split_eqb c COLOUR_DEFAULT; cbn [negb].
  - by destruct (reverse_video t).
  - destruct Hc as [Hc|[|]]; [|done..]. destruct (reverse_video t); cbn [negb]; auto.
Qed.

Lemma ref_sgr_set n t (Q : unit -> term -> Prop) : term_ok t -> 0 <= n < 8 -> Q () t ->
  ref (sgr_set_fg n) (sgr_set_fg n) t Q /\ ref (sgr_set_bg n) (sgr_set_bg n) t Q.
Proof. intros Hok Hn HQ. unfold sgr_set_fg, sgr_set_bg. split; repeat rstep; done. Qed.

Lemma ref_sgr_unswapped m1 m2 t (Q : unit -> term -> Prop) : term_ok t -> Q () t ->
  ref m1 m2 t (fun _ t' => t' = t) -> ref (sgr_unswapped (B := B1) m1) (sgr_unswapped (B := B2) m2) t Q.
Proof.
  intros Hok HQ Hm. unfold sgr_unswapped.
  repeat rstep; (eapply ref_conseq; [exact Hm|]; cbn; intros _ ? ->; by repeat rstep).
Qed.

(** What one turn of the loop of [sgr] at [i] gives. *)
Definition sgr_post (i n : Z) (r : option Z) (t : term) : Prop :=
  term_ok t /\ esc_values_i t = n /\ match r with Some j => i <= j | None => True end.

(** The colour of three components. *)
Lemma rgb_range r g b :
  0 <= Z.lor (Z.lor (Z.shiftl (Z.land r 0xff) 16) (Z.shiftl (Z.land g 0xff) 8)) (Z.land b 0xff) < W32.
Proof.
  assert (Hb : forall x, 0 <= Z.land x 0xff < 256).
  { intros x. change 0xff with (Z.ones 8). rewrite Z.land_ones by lia. apply Z.mod_pos_bound. lia. }
  pose proof (Hb r). pose proof (Hb g). pose proof (Hb b). change W32 with (2 ^ 32).
  rewrite !Z.shiftl_mul_pow2 by lia. repeat apply lor_width; lia.
Qed.

Lemma ref_sgr_colour i v t : term_ok t -> 0 <= i ->
  ref (sgr_colour i v) (sgr_colour i v) t (sgr_post i (esc_values_i t)).
Proof.
  intros Hok Hi. pose proof (ok_esc_i t Hok) as [Hn _]. unfold sgr_colour.
  do 2 rstep. set (fg := if reverse_video t then _ else _). clearbody fg.
  do 2 rstep. split_leb (esc_values_i t) (i + 1); [by apply ref_ret|].
  apply ref_bind, ref_esc_value; [done|lia|]. intros kind _ Hkind.
  split_eqb kind 2; [|split_eqb kind 5; [|apply ref_ret; split_and!; [done..|lia]]].
  - split_leb (esc_values_i t) (i + 1 + 3); [by apply ref_ret|].
    apply ref_bind, ref_esc_value; [done|lia|]. intros r _ Hr.
    apply ref_bind, ref_esc_value; [done|lia|]. intros g _ Hg.
    apply ref_bind, ref_esc_value; [done|lia|]. intros b _ Hb. cbv zeta.
    pose proof (rgb_range r g b) as Hrgb. set (rgb := Z.lor _ _) in *. clearbody rgb.
    destruct fg; unfold set_current; repeat rstep; try done;
      (split_and!; [solve_ok|done|lia]).
  - split_leb (esc_values_i t) (i + 1 + 1); [by apply ref_ret|].
    apply ref_bind, ref_esc_value; [done|lia|]. intros col _ Hcol.
    assert (Hrgb : 16 <= col < 256 -> exists rgb, get col256 (Z.to_nat (col - 16)) = Ret rgb /\ 0 <= rgb < W32).
    { intros Hc. destruct (lookup_lt_is_Some_2 col256 (Z.to_nat (col - 16))) as [rgb Hrgb]; [cbn; lia|].
      exists rgb. split; [by apply get_lookup|]. by eapply col256_range. }
    rstep; split_ltb col 8; [|split_ltb col 16; [|rstep]].
    all: try (destruct Hrgb as (rgb & Hget & Hrgb); [lia|]).
    all: destruct fg; unfold set_current; repeat rstep.
    all: try (eapply ref_lift; [exact Hget|]); repeat rstep; try lia; (split_and!; [solve_ok|done|lia]).
Qed.

(** A turn that uses one parameter. *)
Lemma ref_sgr_done i n (m1 : M B1 ()) (m2 : M B2 ()) t : ref m1 m2 t (fun _ => keeps n) ->
  ref (m1 ;; mret (Some i) : M B1 (option Z)) (m2 ;; mret (Some i) : M B2 (option Z)) t (sgr_post i n).
Proof.
  intros Hm. apply ref_bind. eapply ref_conseq; [exact Hm|]. intros _ t' [Hok Hn].
  apply ref_ret. split_and!; [done..|lia].
Qed.

Ltac sgr_step :=
  lazymatch goal with
  | |- ref (sgr_again _ _ _ _ _) _ _ _ => apply ref_sgr_again
  | |- ref (sgr_set_fg _) _ _ _ => apply ref_sgr_set
  | |- ref (sgr_set_bg _) _ _ _ => apply ref_sgr_set
  | |- ref (sgr_unswapped _) _ _ _ => apply ref_sgr_unswapped
  | |- ref sgr_default _ _ _ => apply ref_sgr_default
  | |- forall _, _ => intros ? ?
  | |- _ => rstep
  end.

Ltac sgr_end := first [done | solve_ok | split; [solve_ok | done] | lia].

Lemma ref_sgr_param i t : term_ok t -> 0 <= i < esc_values_i t ->
  ref (sgr_param i) (sgr_param i) t (sgr_post i (esc_values_i t)).
Proof.
  intros Hok Hi. pose proof (ok_esc_i t Hok) as [Hn _]. pose proof (ok_colours t Hok) as [Hp Hb].
  unfold sgr_param. apply ref_bind, ref_esc_value; [done|lia|]. intros v _ Hv. cbv zeta.
  do 2 rstep.
  repeat (lazymatch goal with |- ref (if ?c then _ else _) _ _ _ => let K := fresh in destruct c eqn:K; [|clear K] end;
    [lazymatch goal with |- ref (sgr_colour _ _) _ _ _ => apply ref_sgr_colour; [done|lia]
     | |- _ => apply ref_sgr_done end|]).
  all: try (apply ref_sgr_done).
  all: repeat sgr_step; sgr_end.
Qed.
Lemma ref_sgr_loop fuel i t : term_ok t -> 0 <= i -> 0 < Z.of_nat fuel -> 16 - i < Z.of_nat fuel ->
  ref (sgr_loop fuel i) (sgr_loop fuel i) t (fun _ => term_ok).
Proof.
  revert i t. induction fuel as [|fuel IH]; intros i t Hok Hi H0f Hf; [lia|].
  pose proof (ok_esc_i t Hok) as [Hn _].
  cbn [sgr_loop]. do 2 rstep. split_ltb i (esc_values_i t); [|by apply ref_ret].
  apply ref_bind. eapply ref_conseq; [apply ref_sgr_param; [done|lia]|].
  intros [j|] t' (Hok' & Hn' & Hj); [apply IH; [done|lia..]|by apply ref_ret].
Qed.

Lemma ref_sgr t : term_ok t -> ref sgr sgr t (fun _ => term_ok).
Proof.
  intros Hok. unfold sgr. do 2 rstep. rstep; [|by apply ref_sgr_loop].
  eapply ref_conseq; [by apply ref_sgr_default|]. by intros _ t' [? ?].
Qed.

(** ** Modes *)

Lemma ref_dec_private_mode set v t : term_ok t ->
  ref (dec_private_mode set v) (dec_private_mode set v) t (fun _ => keeps (esc_values_i t)).
Proof.
  intros Hok. pose proof (geo_margins t (ok_geo t Hok)). pose proof (geo_rows t (ok_geo t Hok)).
  unfold dec_private_mode. split_eqb v 6; [|split_eqb v 7; [|split_eqb v 25; [|split_eqb v 1049]]].
  5: by apply ref_ret.
  4: { destruct set; [by repeat rstep|]. rstep. eapply ref_conseq; [by apply ref_sgr_default|].
       intros _ t' [Hok' Hn]. repeat rstep. by split. }
  all: repeat rstep; try (split; [solve_ok|done]); try (destruct set); lia.
Qed.

Lemma ref_dec_private_parse c t : term_ok t ->
  ref (dec_private_parse c) (dec_private_parse c) t (fun _ => term_ok).
Proof.
  intros Hok. unfold dec_private_parse. pose proof (ok_esc_i t Hok) as [Hn _].
  do 4 rstep. do 2 (rstep; [apply ref_ret; solve_ok|]). apply ref_bind.
  apply (ref_for_range (keeps (esc_values_i t))).
  - intros i t' Hi [Hok' Hn']. apply ref_bind, ref_esc_value; [done|lia|]. intros v _ _.
    rewrite <- Hn'. by apply ref_dec_private_mode.
  - split; [solve_ok|done].
  - intros t' [Hok' Hn']. by rstep.
Qed.

Lemma ref_linux_private_parse t : term_ok t ->
  ref linux_private_parse linux_private_parse t (fun _ => term_ok).
Proof. intros Hok. unfold linux_private_parse. by repeat rstep. Qed.

Lemma ref_mode_toggle c t : term_ok t -> ref (mode_toggle c) (mode_toggle c) t (fun _ => term_ok).
Proof.
  intros Hok. unfold mode_toggle. do 2 rstep. do 2 (rstep; [by apply ref_ret|]).
  apply ref_bind, ref_esc_value; [done|lia|]. intros v _ _. repeat rstep; solve_ok.
Qed.

(** ** Commands of the operating system *)

Lemma osc_number_total fuel buf n i num : 0 <= i -> n <= Z.of_nat (length buf) -> 0 < Z.of_nat fuel -> n - i < Z.of_nat fuel ->
  exists num' i', osc_number fuel buf n i num = Ret (num', i') /\ 0 <= i'.
Proof.
  revert i num. induction fuel as [|fuel IH]; intros i num Hi Hn H0f Hf; [lia|]. cbn [osc_number].
  split_ltb i n; [|by exists num, i].
  destruct (lookup_lt_is_Some_2 buf (Z.to_nat i)) as [c Hc]; [lia|].
  rewrite (get_lookup _ _ _ Hc). cbn [mbind outcome_bind].
  destruct (_ && _); [apply IH; lia|by exists num, i].
Qed.

Lemma ref_osc_finalize t : term_ok t -> ref osc_finalize osc_finalize t (fun _ t' => t' = t).
Proof.
  intros Hok. pose proof (ok_osc t Hok) as [Hl Hi]. unfold osc_finalize. do 3 rstep; [|done].
  do 4 rstep.
  destruct (osc_number_total (S (Z.to_nat (osc_buf_i t))) (osc_buf t) (osc_buf_i t) 0 0) as (num & i & E & H0i); [lia..|].
  apply ref_bind. eapply ref_lift; [exact E|]. apply ref_bind.
  split_ltb i (osc_buf_i t).
  - destruct (lookup_lt_is_Some_2 (osc_buf t) (Z.to_nat i)) as [c Hc]; [lia|].
    eapply ref_lift; [by apply get_lookup|]. by rstep.
  - do 2 rstep. done.
Qed.

Lemma ref_osc_parse c t : term_ok t -> 
  ref (osc_parse c) (osc_parse c) t (fun _ => term_ok).
Proof.
  intros Hok. pose proof (ok_osc t Hok) as [Hl Hi]. unfold osc_parse. do 3 rstep.
  - rstep; [|repeat rstep; solve_ok]. rstep.
    eapply ref_conseq; [by apply ref_osc_finalize|]. intros _ ? ->. repeat rstep; solve_ok.
  - rstep. split_eqb c 0x1b; [repeat rstep; solve_ok|]. split_eqb c 7.
    + rstep. eapply ref_conseq; [by apply ref_osc_finalize|]. intros _ ? ->. repeat rstep; solve_ok.
    + do 2 rstep. rstep; [|by rstep]. do 2 rstep. rstep.
      eapply ref_lift; [apply put_lt; lia|]. repeat rstep.
      assert (length (<[Z.to_nat (osc_buf_i t) := c]> (osc_buf t)) = 256%nat) by (by rewrite length_insert).
      solve_ok.
Qed.
End sgr.

(** The control sequences against two related backends. *)

Lemma margins_region h n v0 v1 top bottom :
  0 < h < 0x80000000 -> 0 <= v0 < W32 -> 1 <= v1 < W32 -> margins h n v0 v1 = (top, bottom) ->
  0 <= top < bottom /\ bottom <= h.
Proof.
  unfold margins. intros Hh Hv0 Hv1.
  assert (Ht : 0 <= (if 0 <? n then u32 (v0 - 1) else 0)).
  { case_match; [|lia]. apply u32_range. }
  set (tp := if 0 <? n then _ else _) in *. clearbody tp.
  assert (Hb : 1 <= (if 1 <? n then v1 else h) < W32) by (case_match; lia).
  set (bt := if 1 <? n then _ else _) in *. clearbody bt.
  rewrite (u64_small (bt - 1)) by lia.
  destruct (_ || _) eqn:Hc; intros [= <- <-]; [lia|].
  rewrite !orb_false_iff, Z.leb_gt, Z.ltb_ge, Z.leb_gt in Hc. lia.
Qed.

(** One step, through the parameters too. *)
Ltac cstep :=
  lazymatch goal with
  | |- ref (esc_value _) _ _ _ => apply ref_esc_value; [first [assumption | solve_ok]|lia|intros ? _ ?]
  | |- ref (set_esc_value _ _) _ _ _ => apply ref_set_esc_value; [first [assumption | solve_ok]|lia| |intros ?]
  | |- _ => rstep
  end.

(** A coordinate or a value in the range of its type. *)
Ltac range :=
  repeat case_match; repeat match goal with
  | |- context [u64 ?x] => let K := fresh in pose proof (u64_range x) as K; revert K; generalize (u64 x); intros
  | |- context [u32 ?x] => let K := fresh in pose proof (u32_range x) as K; revert K; generalize (u32 x); intros
  end; lia.

Section csi.
Context {K : keep_shown} {B1 B2 : Type} `{Refines B1 B2}.
#[local] Abbreviation term_ok := (term_ok_with K).

Lemma ref_line_feed x y t (Q : unit -> term -> Prop) : term_ok t -> 0 <= x < cols t -> 0 <= y < rows t -> Q () t ->
  ref (line_feed x y) (line_feed x y) t Q.
Proof.
  intros Hok Hx Hy HQ. destruct (ok_geo t Hok). unfold line_feed. repeat rstep; try done; lia.
Qed.

Lemma ref_next_tab x t (Q : Z -> term -> Prop) : term_ok t -> (forall x', 0 <= x' < W64 -> Q x' t) ->
  ref (next_tab x) (next_tab x) t Q.
Proof.
  intros Hok HQ. pose proof (ok_tab t Hok). unfold next_tab. do 2 rstep.
  split_eqb (tab_size t) 0; [lia|]. rstep. apply HQ, u64_range.
Qed.

Lemma ref_csi_control c t : term_ok t -> ref (csi_control c) (csi_control c) t (fun _ => term_ok).
Proof.
  intros Hok. destruct (ok_geo t Hok). unfold csi_control.
  split_eqb c 7; [by repeat rstep|]. split_eqb c 8; [repeat rstep; try done; lia|].
  split_eqb c 9.
  { do 2 rstep. rstep. apply ref_next_tab; [done|]. intros x' Hx'. repeat rstep; try done; range. }
  destruct (_ || _). { do 2 rstep. by apply ref_line_feed. }
  repeat rstep; try solve_ok; lia.
Qed.

Lemma ref_csi_digit c t : term_ok t -> 48 <= c <= 57 -> ref (csi_digit c) (csi_digit c) t (fun _ => term_ok).
Proof.
  intros Hok Hc. destruct (ok_esc_i t Hok) as [Hn Hr]. unfold csi_digit, FLANTERM_MAX_ESC_VALUES. do 2 rstep.
  split_eqb (esc_values_i t) 16; [by rstep|]. do 2 rstep.
  assert (Hok' : term_ok (set_rrr true t)) by solve_ok. clear Hr.
  apply ref_bind, ref_esc_value; [done|lia|]. intros v _ Hv.
  rstep; [by rstep|]. apply ref_set_esc_value; [done|lia|apply u32_range|done].
Qed.
(** The final characters whose missing parameters are 0. *)
Definition zero_default (c : Z) : bool :=
  (c =? ch "J") || (c =? ch "K") || (c =? ch "q") || (c =? ch "m") || (c =? ch "c") || (c =? ch "]").

(** Every parameter is at least 1. *)
Definition positive (t : term) : Prop := Forall (fun v => 1 <= v) (esc_values t).

Lemma ref_csi_defaults c t : term_ok t ->
  ref (csi_defaults c) (csi_defaults c) t (fun _ t' => term_ok t' /\ (zero_default c = false -> positive t')).
Proof.
  intros Hok. destruct (ok_esc_i t Hok) as [Hn _]. unfold csi_defaults. cbv zeta.
  change (_ || _) with (zero_default c). set (d := if zero_default c then 0 else 1).
  assert (Hd : 0 <= d < W32) by (subst d; case_match; lia). set (n := esc_values_i t) in *.
  do 3 rstep. apply (ref_for_index (fun i t' => keeps n t' /\
    forall j, n <= j < i -> esc_values t' !! Z.to_nat j = Some d)); unfold FLANTERM_MAX_ESC_VALUES.
  { lia. }
  { intros i t' Hi [[Hok' Hn'] Hj]. apply ref_set_esc_value; [done|lia..|]. intros Hok''.
    split; [by split|]. tcbn. intros j Hji. destruct (Z.eq_dec i j) as [->|].
    - rewrite list_lookup_insert_eq; [done|]. destruct (ok_esc t' Hok'). lia.
    - rewrite list_lookup_insert_ne by lia. apply Hj. lia. }
  { split; [by split|lia]. }
  intros t1 [[Hok1 Hn1] Hj1]. rstep.
  2: { split; [done|]. intros Hz. subst d. by rewrite Hz in *. }
  apply (ref_for_index (fun i t' => keeps n t' /\
    forall j v, 0 <= j < 16 -> j < i \/ n <= j -> esc_values t' !! Z.to_nat j = Some v -> v <> 0)).
  { lia. }
  { intros i t' Hi [[Hok' Hn'] Hj]. apply ref_bind, ref_esc_value; [done|lia|]. intros v Hv Hvr.
    rstep.
    - apply ref_set_esc_value; [done|lia..|]. intros Hok''. split; [by split|]. tcbn.
      intros j w Hj16 Hji. destruct (Z.eq_dec i j) as [->|].
      + rewrite list_lookup_insert_eq; [intros [= <-]; lia|]. destruct (ok_esc t' Hok'). lia.
      + rewrite list_lookup_insert_ne by lia. apply Hj; lia.
    - split; [by split|]. intros j w Hj16 Hji Hw. destruct (Z.eq_dec i j) as [->|].
      + simplify_eq. lia.
      + apply (Hj j w); [lia..|done]. }
  { split; [by split|]. intros j v Hj16 Hjn Hv. rewrite Hj1 in Hv by lia. simplify_eq. lia. }
  intros t2 [[Hok2 Hn2] Hj2]. split; [done|]. intros _. destruct (ok_esc t2 Hok2) as [Hl Hu].
  apply Forall_lookup. intros j v Hv. pose proof (lookup_lt_Some _ _ _ Hv).
  pose proof (Forall_lookup_1 _ _ _ _ Hu Hv). cbn in *.
  assert (v <> 0); [|lia]. apply (Hj2 (Z.of_nat j)); [lia..|]. by rewrite Nat2Z.id.
Qed.

(** *** Cursor movements *)

Lemma ref_csi_up x y t : term_ok t -> 0 <= x < cols t -> 0 <= y < rows t ->
  ref (csi_up x y) (csi_up x y) t (fun _ => term_ok).
Proof.
  intros Hok Hx Hy. destruct (ok_geo t Hok). unfold csi_up. repeat cstep; try assumption; range.
Qed.

Lemma ref_csi_down x y t : term_ok t -> 0 <= x < cols t -> 0 <= y < rows t ->
  ref (csi_down x y) (csi_down x y) t (fun _ => term_ok).
Proof.
  intros Hok Hx Hy. destruct (ok_geo t Hok). unfold csi_down. repeat cstep; try assumption; range.
Qed.

Lemma ref_csi_forward x y t : term_ok t -> 0 <= x < cols t -> 0 <= y < rows t ->
  ref (csi_forward x y) (csi_forward x y) t (fun _ => term_ok).
Proof.
  intros Hok Hx Hy. destruct (ok_geo t Hok). unfold csi_forward. repeat cstep; try assumption; range.
Qed.

Lemma ref_csi_back x y t : term_ok t -> 0 <= x < cols t -> 0 <= y < rows t ->
  ref (csi_back x y) (csi_back x y) t (fun _ => term_ok).
Proof.
  intros Hok Hx Hy. destruct (ok_geo t Hok). unfold csi_back. repeat cstep; try assumption; range.
Qed.
Lemma ref_esc_decrement i t (Q : unit -> term -> Prop) : term_ok t -> 0 <= i < 16 ->
  (forall t', term_ok t' -> Q () t') -> ref (esc_decrement i) (esc_decrement i) t Q.
Proof. intros Hok Hi HQ. unfold esc_decrement. repeat cstep; try lia; auto. Qed.

Lemma ref_esc_clamp i m t (Q : unit -> term -> Prop) : term_ok t -> 0 <= i < 16 ->
  (forall t', term_ok t' -> Q () t') -> ref (esc_clamp i m) (esc_clamp i m) t Q.
Proof. intros Hok Hi HQ. unfold esc_clamp. repeat cstep; auto; range. Qed.

Lemma ref_row_base t (Q : Z * Z -> term -> Prop) : term_ok t ->
  (forall m o, 0 <= o < 0x80000000 -> Q (m, o) t) -> ref row_base row_base t Q.
Proof.
  intros Hok HQ. destruct (ok_geo t Hok). unfold row_base. repeat rstep. case_match; apply HQ; lia.
Qed.

Lemma ref_csi_row x t : term_ok t -> 0 <= x < cols t -> ref (csi_row x) (csi_row x) t (fun _ => term_ok).
Proof.
  intros Hok Hx. destruct (ok_geo t Hok). unfold csi_row.
  apply ref_bind, ref_esc_decrement; [done|lia|]. intros t1 Hok1.
  apply ref_bind, ref_row_base; [done|]. intros m o Ho.
  apply ref_bind, ref_esc_clamp; [done|lia|]. intros t2 Hok2. repeat cstep; try assumption; lia.
Qed.

Lemma ref_csi_column y t : term_ok t -> 0 <= y < rows t -> ref (csi_column y) (csi_column y) t (fun _ => term_ok).
Proof.
  intros Hok Hy. destruct (ok_geo t Hok). unfold csi_column.
  apply ref_bind, ref_esc_decrement; [done|lia|]. intros t1 Hok1. do 2 rstep.
  apply ref_bind, ref_esc_clamp; [done|lia|]. intros t2 Hok2. repeat cstep; try assumption; lia.
Qed.

Lemma ref_csi_position t : term_ok t -> ref csi_position csi_position t (fun _ => term_ok).
Proof.
  intros Hok. unfold csi_position.
  apply ref_bind, ref_esc_decrement; [done|lia|]. intros t1 Hok1.
  apply ref_bind, ref_esc_decrement; [done|lia|]. intros t2 Hok2.
  apply ref_bind, ref_row_base; [done|]. intros m o Ho. do 2 rstep.
  apply ref_bind, ref_esc_clamp; [done|lia|]. intros t3 Hok3.
  apply ref_bind, ref_esc_clamp; [done|lia|]. intros t4 Hok4. repeat cstep; try assumption; lia.
Qed.

(** *** Repeated operations *)

(** A computation that leaves the context as it is, any number of times. *)
Lemma ref_repeat_same (m1 : M B1 ()) m2 n t (Q : unit -> term -> Prop) :
  ref m1 m2 t (fun _ t' => t' = t) -> Q () t -> ref (repeatM n m1) (repeatM n m2) t Q.
Proof. intros Hm HQ. apply (ref_repeat (fun t' => t' = t)); [by intros ? ->|done|by intros ? ->]. Qed.

Lemma ref_csi_times max (m1 : M B1 ()) m2 t (Q : unit -> term -> Prop) :
  term_ok t -> ref m1 m2 t (fun _ t' => t' = t) -> Q () t -> ref (csi_times max m1) (csi_times max m2) t Q.
Proof. intros Hok Hm HQ. unfold csi_times. do 2 cstep. by apply ref_repeat_same. Qed.

Lemma ref_csi_lines y m1 m2 t : term_ok t -> 0 <= y < rows t ->
  (forall t', geometry t' -> ref m1 m2 t' (fun _ t'' => t'' = t')) ->
  ref (csi_lines (B := B1) y m1) (csi_lines (B := B2) y m2) t (fun _ => term_ok).
Proof.
  intros Hok Hy Hm. destruct (ok_geo t Hok). unfold csi_lines. do 5 rstep; [|done].
  do 2 rstep. assert (Hok' : term_ok (set_scroll_top_margin y t)) by solve_ok.
  rstep. apply ref_csi_times; [done|apply Hm, Hok'|]. rstep. clear Hok'. solve_ok.
Qed.

Lemma ref_csi_scroll m1 m2 t : term_ok t -> ref m1 m2 t (fun _ t' => t' = t) ->
  ref (csi_scroll (B := B1) m1) (csi_scroll (B := B2) m2) t (fun _ => term_ok).
Proof. intros Hok Hm. unfold csi_scroll. do 4 rstep. by apply ref_csi_times. Qed.

Lemma ref_blanks n t (Q : unit -> term -> Prop) : geometry t -> Q () t -> ref (blanks n) (blanks n) t Q.
Proof.
  intros Hg HQ. apply ref_repeat_same; [|done].
  apply ref_call; [by apply sim_raw_putchar|done].
Qed.

Lemma ref_blank_line y t : term_ok t -> 0 <= y < rows t -> 
  ref (blank_line y) (blank_line y) t (fun _ t' => t' = t).
Proof.
  intros Hok Hy. destruct (ok_geo t Hok). unfold blank_line. repeat rstep; [lia..|].
  by apply ref_blanks.
Qed.

(** Steps through the computations that print blanks too. *)
Ltac bstep :=
  lazymatch goal with
  | |- ref (blanks _) _ _ _ => apply ref_blanks; [solve_ok|]
  | |- ref (for_range _ _ blank_line) _ ?t _ =>
      apply (ref_for_range (fun t' => t' = t)); [intros ? ? ? ->; apply ref_blank_line; [assumption|lia]|reflexivity|intros ? ->]
  | |- _ => cstep
  end.

Lemma ref_csi_status x y t : term_ok t -> ref (csi_status x y) (csi_status x y) t (fun _ => term_ok).
Proof. intros Hok. unfold csi_status. repeat cstep; assumption. Qed.

Lemma ref_csi_erase_display x y t : term_ok t -> 0 <= x < cols t -> 0 <= y < rows t ->
  ref (csi_erase_display x y) (csi_erase_display x y) t (fun _ => term_ok).
Proof.
  intros Hok Hx Hy. destruct (ok_geo t Hok). unfold csi_erase_display.
  repeat bstep; try assumption; lia.
Qed.

Lemma ref_csi_erase_line x y t : term_ok t -> 0 <= x < cols t -> 0 <= y < rows t ->
  ref (csi_erase_line x y) (csi_erase_line x y) t (fun _ => term_ok).
Proof.
  intros Hok Hx Hy. destruct (ok_geo t Hok). unfold csi_erase_line.
  repeat bstep; try assumption; lia.
Qed.

Lemma ref_move_character nx ny ox oy t (Q : unit -> term -> Prop) :
  geometry t -> 0 <= nx -> 0 <= ny -> 0 <= ox -> 0 <= oy -> Q () t ->
  ref (move_character nx ny ox oy) (move_character nx ny ox oy) t Q.
Proof. intros Hg ? ? ? ? HQ. apply ref_call; [by apply sim_move_character|done]. Qed.

Lemma ref_csi_insert x y t : term_ok t -> positive t -> 0 <= x < cols t -> 0 <= y < rows t ->
  ref (csi_insert x y) (csi_insert x y) t (fun _ => term_ok).
Proof.
  intros Hok Hpos Hx Hy. destruct (ok_geo t Hok). unfold csi_insert.
  apply ref_bind, ref_esc_value; [done|lia|]. intros v Hv Hvr. do 2 rstep. cbv zeta.
  assert (1 <= v) by exact (Forall_lookup_1 _ _ _ _ Hpos Hv).
  rewrite (u64_small (cols t - x)), (u64_small (cols t - 1)) by lia.
  set (n := if cols t - x <? v then _ else _).
  assert (Hn : 1 <= n <= cols t - x) by (subst n; case_match; lia). clearbody n.
  unfold for_down_ge. split_eqb (x + n) 0; [lia|]. rstep.
  apply (ref_for_downto (fun t' => t' = t)); [|done|].
  { intros i ? Hi ->. apply ref_move_character; [done|lia|lia|apply u64_range|lia|done]. }
  intros ? ->. repeat bstep; try assumption; lia.
Qed.

Lemma ref_csi_erase x y t : term_ok t -> 0 <= x < W64 -> 0 <= y < W64 ->
  ref (csi_erase x y) (csi_erase x y) t (fun _ => term_ok).
Proof.
  intros Hok Hx Hy. destruct (ok_geo t Hok). unfold csi_erase. do 2 rstep. cbn beta iota. do 2 rstep; [lia..|].
  do 2 rstep. rstep. apply ref_csi_times; [done|by rstep|]. rstep; [lia..|done].
Qed.

Lemma ref_csi_delete x y t : term_ok t -> 0 <= x < cols t -> 0 <= y < rows t ->
  ref (csi_delete x y) (csi_delete x y) t (fun _ => term_ok).
Proof.
  intros Hok Hx Hy. destruct (ok_geo t Hok). unfold csi_delete.
  apply ref_bind, ref_esc_value; [done|lia|]. intros v Hv Hvr. do 2 rstep.
  assert (Htail : forall t', term_ok t' -> rows t' = rows t -> cols t' = cols t -> 
    ref (v ← esc_value 0; for_range (x + v) (cols t) (fun i => move_character (u64 (i - v)) y i y) ;;
         set_cursor_pos (u64 (cols t - v)) y ;; csi_erase x y)
        (v ← esc_value 0; for_range (x + v) (cols t) (fun i => move_character (u64 (i - v)) y i y) ;;
         set_cursor_pos (u64 (cols t - v)) y ;; csi_erase x y) t' (fun _ => term_ok)).
  { intros t' Hok' Hr Hc. cstep. cstep. rstep. apply (ref_for_range (fun s => s = t')); [|done|].
    - intros i ? Hi ->. apply ref_move_character; [apply Hok'|apply u64_range|lia..|done].
    - intros ? ->. do 2 rstep; [apply u64_range|lia|]. apply ref_csi_erase; [done|lia..]. }
  rstep. apply ref_when; intros Hc; [|by apply Htail].
  apply ref_set_esc_value; [done|lia|apply u32_range|]. intros Hok'. by apply Htail.
Qed.

Lemma ref_csi_margins t : term_ok t -> positive t -> ref csi_margins csi_margins t (fun _ => term_ok).
Proof.
  intros Hok Hpos. destruct (ok_geo t Hok). unfold csi_margins. do 4 rstep.
  apply ref_bind, ref_esc_value; [done|lia|]. intros v0 Hv0 Hr0.
  apply ref_bind, ref_esc_value; [done|lia|]. intros v1 Hv1 Hr1.
  assert (1 <= v1) by exact (Forall_lookup_1 _ _ _ _ Hpos Hv1).
  destruct (margins _ _ v0 v1) as [top bottom] eqn:Hm.
  apply margins_region in Hm as [? ?]; [|lia..].
  do 2 rstep. assert (Hok' : term_ok (set_scroll_bottom_margin bottom (set_scroll_top_margin top t))) by solve_ok.
  repeat rstep; [lia|case_match; lia|done].
Qed.

Lemma ref_make_room x y t (Q : unit -> term -> Prop) : term_ok t -> 0 <= x < cols t -> 0 <= y < rows t ->
  Q () t -> ref (make_room x y) (make_room x y) t Q.
Proof.
  intros Hok Hx Hy HQ. destruct (ok_geo t Hok). unfold make_room. do 5 rstep; [|done].
  rewrite (u64_small (cols t - 1)) by lia.
  apply (ref_for_downto (fun t' => t' = t)); [|done|by intros ? ->].
  intros i ? Hi ->. apply ref_move_character; [done|lia..|done].
Qed.

Lemma ref_csi_repeat r t : term_ok t -> ref (csi_repeat r) (csi_repeat r) t (fun _ => term_ok).
Proof.
  intros Hok. unfold csi_repeat. do 3 rstep; [|done]. do 2 rstep.
  assert (Hok' : term_ok (set_scroll_enabled r t)) by solve_ok.
  generalize dependent (set_scroll_enabled r t). clear t Hok H2. intros t Hok.
  pose proof (ok_last t Hok). apply ref_csi_times; [done| |done]. do 3 rstep.
  rstep; [|repeat rstep; done]. do 2 rstep. apply ref_make_room; [done..|]. by repeat rstep.
Qed.
End csi.

(** The whole parser against two related backends: every byte, in every state, is
    handled by both backends alike, nothing is read or written out of bounds, no
    loop runs on, and the context stays well formed. *)

Section safe.
Context {K : keep_shown} {B1 B2 : Type} `{Refines B1 B2}.
#[local] Abbreviation term_ok := (term_ok_with K).

Lemma ok_set_esc_values_i n t : term_ok t -> 0 <= n <= 16 -> (rrr t = true -> n < 16) ->
  term_ok (set_esc_values_i n t).
Proof. intros Hok Hn Hr. solve_ok. Qed.

(** A computation followed by a constant result. *)
Lemma ref_then {A} (m1 : M B1 ()) m2 (a : A) t (P : term -> Prop) (Q : A -> term -> Prop) :
  ref m1 m2 t (fun _ => P) -> (forall t', P t' -> Q a t') ->
  ref (m1 ;; mret a : M B1 A) (m2 ;; mret a : M B2 A) t Q.
Proof.
  intros Hm HQ. apply ref_bind. eapply ref_conseq; [exact Hm|]. cbn beta. intros _ t' HP. by apply ref_ret, HQ.
Qed.

(** Splits the cases of a dispatch on a character. *)
Ltac cases_of :=
  lazymatch goal with
  | |- ref (if ?b then _ else _) _ _ _ =>
      let K := fresh "K" in
      destruct b eqn:K; [try (apply (ref_then _ _ _ _ term_ok); [|done]) | clear K; cases_of]
  | |- _ => idtac
  end.

(** The final character is known, and its parameters default to 1. *)
Ltac positive_params :=
  match goal with K : (?c =? _) = true |- zero_default ?c = false => apply Z.eqb_eq in K; by subst c end.

Lemma ref_csi_dispatch c r x y t : term_ok t -> (zero_default c = false -> positive t) ->
  0 <= x < cols t -> 0 <= y < rows t ->
  ref (csi_dispatch c r x y) (csi_dispatch c r x y) t (fun _ => term_ok).
Proof.
  intros Hok Hpos Hx Hy. destruct (ok_geo t Hok). pose proof (ok_saved_cursor t Hok).
  unfold csi_dispatch. cbv zeta.
  split_eqb c 0x1b; [repeat rstep; solve_ok|].
  cases_of.
  - apply ref_csi_up; [done|lia..].
  - by apply ref_csi_up.
  - apply ref_csi_down; [done|lia..].
  - by apply ref_csi_down.
  - by apply ref_csi_forward.
  - by apply ref_csi_back.
  - by rstep.
  - by apply ref_csi_row.
  - by apply ref_csi_column.
  - by apply ref_csi_position.
  - apply ref_csi_lines; [done..|]. intros t' Hg. apply ref_call; [by apply sim_scroll|done].
  - apply ref_csi_lines; [done..|]. intros t' Hg. apply ref_call; [by apply sim_revscroll|done].
  - by apply ref_csi_status.
  - by repeat cstep.
  - by apply ref_csi_erase_display.
  - apply ref_csi_insert; [done| |done..]. by apply Hpos; positive_params.
  - by apply ref_csi_delete.
  - apply ref_csi_erase; [done|lia..].
  - by apply ref_sgr.
  - repeat rstep. solve_ok.
  - repeat rstep; try done; lia.
  - by apply ref_csi_erase_line.
  - apply ref_csi_margins; [done|]. by apply Hpos; positive_params.
  - by apply ref_mode_toggle.
  - apply ref_csi_scroll; [done|]. by rstep.
  - apply ref_csi_scroll; [done|]. by rstep.
  - by apply ref_csi_repeat.
  - by apply ref_linux_private_parse.
  - by apply ref_ret.
  - repeat rstep. solve_ok.
Qed.
Lemma ref_csi_cleanup t : term_ok t -> ref csi_cleanup csi_cleanup t (fun _ => term_ok).
Proof. intros Hok. unfold csi_cleanup. repeat rstep. solve_ok. Qed.

Lemma ref_control_sequence_parse c t : term_ok t -> 0 <= c < 256 ->
  ref (control_sequence_parse c) (control_sequence_parse c) t (fun _ => term_ok).
Proof.
  intros Hok Hc. destruct (ok_esc_i t Hok) as [Hn Hr]. unfold control_sequence_parse, FLANTERM_MAX_ESC_VALUES. do 2 rstep.
  rstep. { do 2 rstep. apply ref_csi_cleanup. solve_ok. }
  rstep. { rstep. solve_ok. }
  rstep. { by apply ref_csi_control. }
  destruct ((ch "0" <=? c) && (c <=? ch "9")) eqn:Hd. { apply ref_csi_digit; [done|].
    change (ch "0") with 48 in Hd. change (ch "9") with 57 in Hd. lia. }
  do 4 rstep. rstep.
  assert (Hmid : exists t1, term_ok t1 /\ (rrr t = false -> t1 = t) /\
    (forall Q, Q () t1 -> ref
      (when (rrr t) (modify (set_esc_values_i (esc_values_i t + 1)) ;; modify (set_rrr false)) : M B1 ())
      (when (rrr t) (modify (set_esc_values_i (esc_values_i t + 1)) ;; modify (set_rrr false)) : M B2 ()) t Q)).
  { destruct (rrr t) eqn:Hrr.
    - exists (set_rrr false (set_esc_values_i (esc_values_i t + 1) t)). split_and!; [|done|].
      + specialize (Hr eq_refl). solve_ok.
      + intros Q HQ. unfold when. by repeat rstep.
    - exists t. split_and!; [done..|]. intros Q HQ. by apply ref_when. }
  destruct Hmid as (t1 & Hok1 & Ht1 & Hmid). apply Hmid. clear Hmid.
  split_eqb c (ch ";").
  { rstep; [|done]. destruct (rrr t) eqn:Hrr; [done|]. rewrite Ht1 by done. clear t1 Hok1 Ht1.
    destruct (esc_values_i t =? 16) eqn:H16; [done|]. apply Z.eqb_neq in H16.
    rstep. apply ref_set_esc_value; [done|lia..|]. intros Hok'. rstep.
    apply ok_set_esc_values_i; [done|lia|]. tcbn. congruence. }
  rstep. eapply ref_conseq; [by apply ref_csi_defaults|]. intros _ t2 [Hok2 Hpos]. do 4 rstep.
  rstep. { rstep. eapply ref_conseq; [by apply ref_dec_private_parse|]. cbn beta. intros _ t3 Hok3. by apply ref_csi_cleanup. }
  rstep. { rstep; [|done]. do 2 rstep. apply ref_csi_cleanup. solve_ok. }
  do 4 rstep. assert (Hok3 : term_ok (set_scroll_enabled false t2)) by solve_ok.
  rstep. apply ref_get_cursor_pos; [apply Hok3|]. tcbn. intros x y Hx Hy. rstep.
  eapply ref_conseq; [by apply ref_csi_dispatch|]. cbn beta. intros fin t4 Hok4.
  rstep; [|done]. do 2 rstep. apply ref_csi_cleanup. solve_ok.
Qed.

Lemma ref_escape_dispatch c x y t : term_ok t -> 0 <= x < cols t -> 0 <= y < rows t ->
  ref (escape_dispatch c x y) (escape_dispatch c x y) t (fun _ => term_ok).
Proof.
  intros Hok Hx Hy. destruct (ok_geo t Hok). unfold escape_dispatch. cbv zeta. do 4 rstep.
  rstep. { repeat rstep. solve_ok. }
  rstep. { repeat rstep. destruct (ok_osc t Hok). solve_ok. }
  rstep. { rstep. apply (ref_for_range term_ok); [|done|].
    - intros i t' Hi Hok'. unfold FLANTERM_MAX_ESC_VALUES in Hi. by apply ref_set_esc_value.
    - intros t' Hok'. repeat rstep. solve_ok. }
  cases_of.
  - unfold save_state. rstep. apply ref_call; [by apply sim_save_state|]. rstep. solve_ok.
  - unfold restore_state. do 2 rstep. apply ref_call; [apply sim_restore_state|]; solve_ok.
  - repeat rstep; solve_ok.
  - repeat rstep; try done; lia.
  - repeat rstep; try done; lia.
  - repeat rstep; try done; lia.
  - by rstep.
  - rstep. change (ch "(") with 40 in *. change (ch ")") with 41 in *. change (ch "'") with 39. solve_ok.
  - by apply ref_ret.
Qed.

Lemma ref_escape_parse c t : term_ok t -> 0 <= c < 256 ->
  ref (escape_parse c) (escape_parse c) t (fun _ => term_ok).
Proof.
  intros Hok Hc. unfold escape_parse. do 4 rstep.
  assert (Hok1 : term_ok (set_escape_offset (u64 (escape_offset t + 1)) t)) by solve_ok.
  generalize dependent (set_escape_offset (u64 (escape_offset t + 1)) t). clear t Hok. intros t Hok.
  do 3 rstep. apply (ref_conseq _ _ _ (fun _ => term_ok)).
  { rstep; [|by rstep]. rstep. eapply ref_conseq; [by apply ref_osc_parse|]. cbn beta. intros r t' Hok'.
    rstep. rstep; repeat rstep; solve_ok. }
  cbn beta. intros consumed t' Hok'. rstep; [by rstep|].
  do 3 rstep; [by apply ref_control_sequence_parse|]. rstep. rstep. cbn beta iota. rstep.
  eapply ref_conseq; [by apply ref_escape_dispatch|]. cbn beta. intros fin t'' Hok''.
  rstep; [|done]. rstep. solve_ok.
Qed.

(** ** Characters *)

Lemma ref_print g t (Q : unit -> term -> Prop) : term_ok t -> 0 <= g < 256 ->
  (forall t', term_ok t' -> Q () t') -> ref (print g) (print g) t Q.
Proof. intros Hok Hg HQ. unfold print. repeat rstep; [done|]. apply HQ. solve_ok. Qed.

Lemma ref_print_code_point cp t : term_ok t ->
  ref (print_code_point cp) (print_code_point cp) t (fun _ => term_ok).
Proof.
  intros Hok. unfold print_code_point. cbv zeta. rstep.
  - apply ref_bind. eapply ref_lift; [apply wcwidth_eq|]. rstep. apply ref_when; intros _.
    + apply ref_print; [done..|]. intros t' Hok'. by apply ref_blanks; [apply Hok'|].
    + by apply ref_blanks; [apply Hok|].
  - apply ref_print; [done| |done]. apply Z.mod_pos_bound. lia.
Qed.

Lemma ref_utf8_continue c t : term_ok t -> unicode_remaining t <> 0 ->
  ref (utf8_continue c) (utf8_continue c) t (fun _ => term_ok).
Proof.
  intros Hok Hn. pose proof (ok_utf8 t Hok). unfold utf8_continue. do 2 rstep.
  rstep. { repeat rstep; [done|]. solve_ok. }
  cbv zeta. do 6 rstep. set (cp := u64 _).
  assert (Hok' : term_ok (set_code_point cp (set_unicode_remaining (unicode_remaining t - 1) t))) by solve_ok.
  rstep. { repeat rstep. solve_ok. }
  rstep; [by rstep|]. rstep; [by rstep|].
  apply (ref_then _ _ _ _ term_ok); [by apply ref_print_code_point|done].
Qed.

Lemma ref_utf8_start c t : term_ok t -> ref (utf8_start c) (utf8_start c) t (fun _ => term_ok).
Proof. intros Hok. unfold utf8_start. repeat rstep; solve_ok. Qed.

Lemma ref_select_charset c t : term_ok t -> g_select t <> 0 ->
  ref (select_charset c) (select_charset c) t (fun _ => term_ok).
Proof.
  intros Hok Hg. destruct (ok_charsets t Hok) as (Hl & Hcur & Hsel). unfold select_charset. do 2 rstep.
  rstep. { repeat rstep. solve_ok. }
  do 2 rstep.
  assert (Hset : forall v, length (<[Z.to_nat (g_select t - 1) := v]> (charsets t)) = 2%nat)
    by (intros; by rewrite length_insert).
  rstep. rstep; [|rstep].
  1,2: eapply ref_lift; [apply put_lt; lia|]; repeat rstep; specialize (Hset CHARSET_DEFAULT) as H5;
    specialize (Hset CHARSET_DEC_SPECIAL) as H6; solve_ok.
  repeat rstep. solve_ok.
Qed.

Lemma ref_dec_special_print c t : term_ok t ->
  ref (dec_special_print c) (dec_special_print c) t (fun _ => term_ok).
Proof.
  intros Hok. unfold dec_special_print. destruct (switch dec_special c) as [g|] eqn:Hg; [|by rstep].
  rstep. apply ref_print; [done|by eapply dec_special_range|]. intros t' Hok'. by rstep.
Qed.

(** A printed character, and the control characters of no effect. *)
Lemma ref_graphic c x y t : term_ok t -> 0 <= c < 256 -> 0 <= x < cols t -> 0 <= y < rows t ->
  ref (make_room x y ;;
       cs ← gets charsets; cur ← gets current_charset;
       set ← lift (get cs (Z.to_nat cur));
       printed ← (if set =? CHARSET_DEC_SPECIAL then dec_special_print c else mret false);
       if (printed : bool) then mret ()
       else if (0x20 <=? c) && (c <=? 0x7e) then print c
       else when (0x80 <=? c) (print 0xfe) : M B1 ())
      (make_room x y ;;
       cs ← gets charsets; cur ← gets current_charset;
       set ← lift (get cs (Z.to_nat cur));
       printed ← (if set =? CHARSET_DEC_SPECIAL then dec_special_print c else mret false);
       if (printed : bool) then mret ()
       else if (0x20 <=? c) && (c <=? 0x7e) then print c
       else when (0x80 <=? c) (print 0xfe) : M B2 ()) t (fun _ => term_ok).
Proof.
  intros Hok Hc Hx Hy. destruct (ok_charsets t Hok) as (Hl & Hcur & Hsel).
  rstep. apply ref_make_room; [done..|]. do 4 rstep.
  destruct (lookup_lt_is_Some_2 (charsets t) (Z.to_nat (current_charset t))) as [set Hset]; [lia|].
  rstep. eapply ref_lift; [by apply get_lookup|]. rstep.
  apply (ref_conseq _ _ _ (fun _ => term_ok)); [rstep; [by apply ref_dec_special_print|by rstep]|].
  cbn beta. intros printed t' Hok'. rstep; [by rstep|]. rstep; [by apply ref_print|].
  rstep; [by apply ref_print|done].
Qed.

Lemma ref_ground c t : term_ok t -> 0 <= c < 256 -> ref (ground c) (ground c) t (fun _ => term_ok).
Proof.
  intros Hok Hc. unfold ground. rstep.
  apply (ref_conseq _ _ _ (fun _ => term_ok)). { rstep; [rstep; solve_ok|done]. }
  clear t Hok. cbn beta. intros _ t Hok. destruct (ok_geo t Hok). rstep. rstep. cbn beta iota. do 2 rstep.
  rstep; [by rstep|]. rstep; [repeat rstep; solve_ok|]. rstep.
  { rstep. apply ref_next_tab; [done|]. intros x' Hx'. repeat rstep; try done; range. }
  rstep; [by apply ref_line_feed|]. rstep; [repeat rstep; try done; lia|]. rstep; [repeat rstep; try done; lia|].
  rstep; [by rstep|]. rstep; [rstep; solve_ok|]. rstep; [rstep; solve_ok|]. by apply ref_graphic.
Qed.

Lemma ref_flanterm_putchar c t : term_ok t -> 0 <= c < 256 ->
  ref (flanterm_putchar c) (flanterm_putchar c) t (fun _ => term_ok).
Proof.
  intros Hok Hc. unfold flanterm_putchar. do 3 rstep; [rstep; solve_ok|]. do 2 rstep. rstep.
  apply (ref_conseq _ _ _ (fun _ => term_ok)).
  { rstep; [|by rstep]. apply ref_utf8_continue; [done|]. lia. }
  clear t Hok Heqb. cbn beta. intros consumed t Hok. rstep; [by rstep|]. rstep; [by apply ref_utf8_start|].
  do 3 rstep; [by apply ref_escape_parse|]. do 3 rstep.
  apply (ref_conseq _ _ _ (fun _ => term_ok)).
  { rstep; [|by rstep]. apply ref_select_charset; [done|]. lia. }
  cbn beta. intros consumed' t' Hok'. rstep; [by rstep|]. by apply ref_ground.
Qed.

Lemma ref_flanterm_putchars buf t : term_ok t -> Forall (fun c => 0 <= c < 256) buf ->
  ref (flanterm_putchars buf) (flanterm_putchars buf) t (fun _ => term_ok).
Proof.
  intros Hok Hbuf. revert t Hok. induction Hbuf as [|c buf Hc Hbuf IH]; intros t Hok; cbn; [by rstep|].
  rstep. eapply ref_conseq; [by apply ref_flanterm_putchar|]. cbn beta. intros _ t'. apply IH.
Qed.

Lemma ref_flanterm_write buf t : term_ok t -> Forall (fun c => 0 <= c < 256) buf ->
  ref (flanterm_write buf) (flanterm_write buf) t (fun _ => term_ok).
Proof.
  intros Hok Hbuf. unfold flanterm_write. rstep. eapply ref_conseq; [by apply ref_flanterm_putchars|].
  cbn beta. intros _ t' Hok'. by repeat rstep.
Qed.
End safe.
