(* ===== verification/Fb.v ===== *)
(** The framebuffer backend of the terminal (flanterm/src/flanterm_backends/fb.c):
    the grid of characters on display, the queue of the characters written since
    the last flush and the map from the cells to the queue, with every operation
    of the backend.  The drawing of a character is an interface; the pixel
    routines implement it. *)
From Stdlib Require Import Ascii.
From S2P Require Import Prelude Term.

(** [struct flanterm_fb_char] *)
Record fb_char := Char { char_c : Z; char_fg : Z; char_bg : Z }.

#[export] Instance fb_char_eq_dec : EqDecision fb_char.
Proof. solve_decision. Defined.

(** [struct flanterm_fb_queue_item] *)
Record queue_item := QItem { item_x : Z; item_y : Z; item_c : fb_char }.

(** The fields of [struct flanterm_fb_context] that do not change after the
    initialisation. *)
Record fb_config := {
  font_width : Z; font_height : Z; glyph_width : Z; glyph_height : Z;
  font_scale_x : Z; font_scale_y : Z; offset_x : Z; offset_y : Z;
  pitch : Z; width : Z; height : Z; phys_height : Z; rotation : Z;
  red_mask_size : Z; red_mask_shift : Z; green_mask_size : Z; green_mask_shift : Z;
  blue_mask_size : Z; blue_mask_shift : Z;
  font_bool : list bool;
  ansi_colours : list Z; ansi_bright_colours : list Z;
  default_fg : Z; default_bg : Z; default_fg_bright : Z; default_bg_bright : Z;
  canvas : option (list Z)
}.

(** The background colour that stands for the one behind the text. *)
Definition TRANSPARENT : Z := 0xffffffff.

(** [plot_char], and the loop of the full refresh that paints the background. *)
Class Plotter (F : Type) := {
  plot_char : term -> fb_config -> fb_char -> Z -> Z -> F -> outcome F;
  paint_background : fb_config -> F -> outcome F
}.

(** A call of the client's callback. *)
Definition event : Type := Z * cb_arg * cb_arg * cb_arg.

(** The fields that change, the framebuffer, and the calls made to the client. *)
Record fb (F : Type) := Fb {
  cfg : fb_config;
  grid : list fb_char; queue : list queue_item; queue_i : Z; qmap : list (option nat);
  text_fg : Z; text_bg : Z; cursor_x : Z; cursor_y : Z;
  saved_state_text_fg : Z; saved_state_text_bg : Z; saved_state_cursor_x : Z; saved_state_cursor_y : Z;
  old_cursor_x : Z; old_cursor_y : Z;
  frame : F; log : list event
}.
Arguments Fb {F}.
Arguments cfg {F} f.
Arguments grid {F} f.
Arguments queue {F} f.
Arguments queue_i {F} f.
Arguments qmap {F} f.
Arguments text_fg {F} f.
Arguments text_bg {F} f.
Arguments cursor_x {F} f.
Arguments cursor_y {F} f.
Arguments saved_state_text_fg {F} f.
Arguments saved_state_text_bg {F} f.
Arguments saved_state_cursor_x {F} f.
Arguments saved_state_cursor_y {F} f.
Arguments old_cursor_x {F} f.
Arguments old_cursor_y {F} f.
Arguments frame {F} f.
Arguments log {F} f.

(** ** Assignments *)

Section assignments.
Context {F : Type}.

Definition fb_fields (b : fb F) : fb F :=
  Fb (cfg b) (grid b) (queue b) (queue_i b) (qmap b) (text_fg b) (text_bg b) (cursor_x b) (cursor_y b)
     (saved_state_text_fg b) (saved_state_text_bg b) (saved_state_cursor_x b) (saved_state_cursor_y b)
     (old_cursor_x b) (old_cursor_y b) (frame b) (log b).

Ltac set_fb_field f v b :=
  let e := eval cbv [fb_fields] in (fb_fields b) in
  match eval pattern (f b) in e with ?g _ => let r := eval cbv beta in (g v) in exact r end.

Definition with_grid (v : list fb_char) (b : fb F) : fb F := ltac:(set_fb_field (@grid F) v b).
Definition with_queue (v : list queue_item) (b : fb F) : fb F := ltac:(set_fb_field (@queue F) v b).
Definition with_queue_i (v : Z) (b : fb F) : fb F := ltac:(set_fb_field (@queue_i F) v b).
Definition with_qmap (v : list (option nat)) (b : fb F) : fb F := ltac:(set_fb_field (@qmap F) v b).
Definition with_text_fg (v : Z) (b : fb F) : fb F := ltac:(set_fb_field (@text_fg F) v b).
Definition with_text_bg (v : Z) (b : fb F) : fb F := ltac:(set_fb_field (@text_bg F) v b).
Definition with_cursor (x y : Z) (b : fb F) : fb F :=
  Fb (cfg b) (grid b) (queue b) (queue_i b) (qmap b) (text_fg b) (text_bg b) x y
     (saved_state_text_fg b) (saved_state_text_bg b) (saved_state_cursor_x b) (saved_state_cursor_y b)
     (old_cursor_x b) (old_cursor_y b) (frame b) (log b).
Definition with_old_cursor (x y : Z) (b : fb F) : fb F :=
  Fb (cfg b) (grid b) (queue b) (queue_i b) (qmap b) (text_fg b) (text_bg b) (cursor_x b) (cursor_y b)
     (saved_state_text_fg b) (saved_state_text_bg b) (saved_state_cursor_x b) (saved_state_cursor_y b)
     x y (frame b) (log b).
Definition with_frame (v : F) (b : fb F) : fb F := ltac:(set_fb_field (@frame F) v b).
Definition with_log (v : list event) (b : fb F) : fb F := ltac:(set_fb_field (@log F) v b).
End assignments.

(** ** Colours *)

(** [x << n] at 32 bits. *)
Definition shl32 (x n : Z) : outcome Z :=
  if (0 <=? n) && (n <? 32) then Ret (u32 (Z.shiftl x n)) else Undef.

(** The bits a component of more than 8 bits adds. *)
Definition wide_component (x size shift : Z) : outcome Z :=
  if 8 <? size then (if 16 <? size then Undef else shl32 (Z.shiftr x (16 - size)) (shift + 8)) else Ret 0.

Definition convert_colour (k : fb_config) (colour : Z) : outcome Z :=
  let r := Z.land (Z.shiftr colour 16) 0xff in
  let g := Z.land (Z.shiftr colour 8) 0xff in
  let b := Z.land colour 0xff in
  r' ← shl32 r k.(red_mask_shift); g' ← shl32 g k.(green_mask_shift); b' ← shl32 b k.(blue_mask_shift);
  r'' ← wide_component r k.(red_mask_size) k.(red_mask_shift);
  g'' ← wide_component g k.(green_mask_size) k.(green_mask_shift);
  b'' ← wide_component b k.(blue_mask_size) k.(blue_mask_shift);
  Ret (Z.lor (Z.lor (Z.lor (Z.lor (Z.lor r' g') b') r'') g'') b'').

Section backend.
Context {F : Type} `{Plotter F}.

Definition flanterm_fb_save_state (t : term) (b : fb F) : outcome (fb F) :=
  Ret (Fb (cfg b) (grid b) (queue b) (queue_i b) (qmap b) (text_fg b) (text_bg b) (cursor_x b) (cursor_y b)
          (text_fg b) (text_bg b) (cursor_x b) (cursor_y b) (old_cursor_x b) (old_cursor_y b) (frame b) (log b)).

Definition flanterm_fb_restore_state (t : term) (b : fb F) : outcome (fb F) :=
  Ret (with_cursor (saved_state_cursor_x b) (saved_state_cursor_y b)
        (with_text_bg (saved_state_text_bg b) (with_text_fg (saved_state_text_fg b) b))).

Definition flanterm_fb_swap_palette (t : term) (b : fb F) : outcome (fb F) :=
  let fg := if text_bg b =? TRANSPARENT then default_bg (cfg b) else text_bg b in
  let bg := if text_fg b =? default_bg (cfg b) then TRANSPARENT else text_fg b in
  Ret (with_text_bg bg (with_text_fg fg b)).

(** ** The queue *)

Definition compare_char (a b : fb_char) : bool :=
  negb (negb (char_c a =? char_c b) || negb (char_bg a =? char_bg b) || negb (char_fg a =? char_fg b)).

(** [q->c = *c] for the item [k] *)
Definition set_item (k : nat) (c : fb_char) (b : fb F) : outcome (fb F) :=
  q ← get (queue b) k;
  l ← put (queue b) k (QItem (item_x q) (item_y q) c); Ret (with_queue l b).

Definition push_to_queue (t : term) (c : fb_char) (x y : Z) (b : fb F) : outcome (fb F) :=
  if (cols t <=? x) || (rows t <=? y) then Ret b else
  let i := Z.to_nat (y * cols t + x) in
  q ← get (qmap b) i;
  match q with
  | Some k => set_item k c b
  | None =>
      g ← get (grid b) i;
      if compare_char g c then Ret b else
      if queue_i b =? rows t * cols t then Ret b else
      let k := Z.to_nat (queue_i b) in
      q ← get (queue b) k;
      l ← put (queue b) k (QItem x y (item_c q));
      m ← put (qmap b) i (Some k);
      set_item k c (with_qmap m (with_queue_i (queue_i b + 1) (with_queue l b)))
  end.

(** The character of the cell [i]: the one in the queue, or the one on display. *)
Definition current_char (i : Z) (b : fb F) : outcome fb_char :=
  q ← get (qmap b) (Z.to_nat i);
  match q with
  | Some k => q ← get (queue b) k; Ret (item_c q)
  | None => get (grid b) (Z.to_nat i)
  end.

(** [for (i = lo; n--; i++)]: copies the character of the cell [i] to the cell [i - cols]. *)
Fixpoint scroll_cells (n : nat) (t : term) (i : Z) (b : fb F) : outcome (fb F) :=
  match n with
  | O => Ret b
  | S n =>
      c ← current_char i b;
      b ← push_to_queue t c ((i - cols t) `mod` cols t) ((i - cols t) / cols t) b;
      scroll_cells n t (i + 1) b
  end.

(** [for (i = hi; n--; )]: copies the character of the cell [i - 1] to the cell [i - 1 + cols]. *)
Fixpoint revscroll_cells (n : nat) (t : term) (i : Z) (b : fb F) : outcome (fb F) :=
  match n with
  | O => Ret b
  | S n =>
      let i := i - 1 in
      c ← current_char i b;
      b ← push_to_queue t c ((i + cols t) `mod` cols t) ((i + cols t) / cols t) b;
      revscroll_cells n t i b
  end.

Definition empty (b : fb F) : fb_char := Char (ch " ") (text_fg b) (text_bg b).

(** Fills [n] cells from the column [x] of the line [y]. *)
Fixpoint fill_line (n : nat) (t : term) (c : fb_char) (x y : Z) (b : fb F) : outcome (fb F) :=
  match n with
  | O => Ret b
  | S n => b ← push_to_queue t c x y b; fill_line n t c (x + 1) y b
  end.

Definition flanterm_fb_revscroll (t : term) (b : fb F) : outcome (fb F) :=
  let first := scroll_top_margin t * cols t in
  let last := (scroll_bottom_margin t - 1) * cols t in
  b' ← revscroll_cells (Z.to_nat (last - first)) t last b;
  fill_line (Z.to_nat (cols t)) t (empty b) 0 (scroll_top_margin t) b'.

Definition flanterm_fb_scroll (t : term) (b : fb F) : outcome (fb F) :=
  let first := (scroll_top_margin t + 1) * cols t in
  b' ← scroll_cells (Z.to_nat (scroll_bottom_margin t * cols t - first)) t first b;
  fill_line (Z.to_nat (cols t)) t (empty b) 0 (scroll_bottom_margin t - 1) b'.

(** Fills [n] cells from the cell [i]. *)
Fixpoint fill_cells (n : nat) (t : term) (c : fb_char) (i : Z) (b : fb F) : outcome (fb F) :=
  match n with
  | O => Ret b
  | S n => b ← push_to_queue t c (i `mod` cols t) (i / cols t) b; fill_cells n t c (i + 1) b
  end.

Definition flanterm_fb_clear (t : term) (move : bool) (b : fb F) : outcome (fb F) :=
  b' ← fill_cells (Z.to_nat (rows t * cols t)) t (empty b) 0 b;
  Ret (if move then with_cursor 0 0 b' else b').

(** A coordinate outside the screen: too large goes to the last one, negative to the first. *)
Definition clamp (x n : Z) : Z :=
  if n <=? x then (if (W64 - 1) / 2 <? x then 0 else n - 1) else x.

Definition flanterm_fb_set_cursor_pos (t : term) (x y : Z) (b : fb F) : outcome (fb F) :=
  Ret (with_cursor (clamp x (cols t)) (clamp y (rows t)) b).

Definition flanterm_fb_get_cursor_pos (t : term) (b : fb F) : Z * Z :=
  (if cols t <=? cursor_x b then cols t - 1 else cursor_x b,
   if rows t <=? cursor_y b then rows t - 1 else cursor_y b).

Definition flanterm_fb_move_character (t : term) (new_x new_y old_x old_y : Z) (b : fb F) : outcome (fb F) :=
  if (cols t <=? old_x) || (rows t <=? old_y) || (cols t <=? new_x) || (rows t <=? new_y) then Ret b else
  c ← current_char (old_x + old_y * cols t) b;
  push_to_queue t c new_x new_y b.

Definition flanterm_fb_set_text_fg (t : term) (fg : Z) (b : fb F) : outcome (fb F) :=
  c ← get (ansi_colours (cfg b)) (Z.to_nat fg); Ret (with_text_fg c b).
Definition flanterm_fb_set_text_bg (t : term) (bg : Z) (b : fb F) : outcome (fb F) :=
  c ← get (ansi_colours (cfg b)) (Z.to_nat bg); Ret (with_text_bg c b).
Definition flanterm_fb_set_text_fg_bright (t : term) (fg : Z) (b : fb F) : outcome (fb F) :=
  c ← get (ansi_bright_colours (cfg b)) (Z.to_nat fg); Ret (with_text_fg c b).
Definition flanterm_fb_set_text_bg_bright (t : term) (bg : Z) (b : fb F) : outcome (fb F) :=
  c ← get (ansi_bright_colours (cfg b)) (Z.to_nat bg); Ret (with_text_bg c b).
Definition flanterm_fb_set_text_fg_rgb (t : term) (fg : Z) (b : fb F) : outcome (fb F) :=
  c ← convert_colour (cfg b) fg; Ret (with_text_fg c b).
Definition flanterm_fb_set_text_bg_rgb (t : term) (bg : Z) (b : fb F) : outcome (fb F) :=
  c ← convert_colour (cfg b) bg; Ret (with_text_bg c b).
Definition flanterm_fb_set_text_fg_default (t : term) (b : fb F) : outcome (fb F) :=
  Ret (with_text_fg (default_fg (cfg b)) b).
Definition flanterm_fb_set_text_bg_default (t : term) (b : fb F) : outcome (fb F) :=
  Ret (with_text_bg TRANSPARENT b).
Definition flanterm_fb_set_text_fg_default_bright (t : term) (b : fb F) : outcome (fb F) :=
  Ret (with_text_fg (default_fg_bright (cfg b)) b).
Definition flanterm_fb_set_text_bg_default_bright (t : term) (b : fb F) : outcome (fb F) :=
  Ret (with_text_bg (default_bg_bright (cfg b)) b).

(** ** Drawing *)

Definition draw (t : term) (c : fb_char) (x y : Z) (b : fb F) : outcome (fb F) :=
  f ← plot_char t (cfg b) c x y (frame b); Ret (with_frame f b).

(** [ctx->grid[i] = c; ctx->map[i] = NULL] *)
Definition settle (i : nat) (c : fb_char) (b : fb F) : outcome (fb F) :=
  g ← put (grid b) i c; m ← put (qmap b) i None; Ret (with_qmap m (with_grid g b)).

Definition draw_cursor (t : term) (b : fb F) : outcome (fb F) :=
  if (cols t <=? cursor_x b) || (rows t <=? cursor_y b) then Ret b else
  let i := Z.to_nat (cursor_x b + cursor_y b * cols t) in
  q ← get (qmap b) i;
  c ← current_char (cursor_x b + cursor_y b * cols t) b;
  b ← draw t (Char (char_c c) (char_bg c) (char_fg c)) (cursor_x b) (cursor_y b) b;
  match q with Some _ => settle i c b | None => Ret b end.

(** One item of the queue. *)
Definition flush_item (t : term) (k : nat) (b : fb F) : outcome (fb F) :=
  q ← get (queue b) k;
  let offset := Z.to_nat (item_y q * cols t + item_x q) in
  m ← get (qmap b) offset;
  match m with
  | None => Ret b
  | Some _ => b ← draw t (item_c q) (item_x q) (item_y q) b; settle offset (item_c q) b
  end.

(** The items of the queue from [k] on. *)
Fixpoint flush_items (n : nat) (t : term) (k : nat) (b : fb F) : outcome (fb F) :=
  match n with O => Ret b | S n => b ← flush_item t k b; flush_items n t (S k) b end.

(** Draws again the cell the cursor was on. *)
Definition undraw_cursor (t : term) (b : fb F) : outcome (fb F) :=
  if (negb (old_cursor_x b =? cursor_x b) || negb (old_cursor_y b =? cursor_y b)) || negb (cursor_enabled t) then
    if (old_cursor_x b <? cols t) && (old_cursor_y b <? rows t) then
      c ← get (grid b) (Z.to_nat (old_cursor_x b + old_cursor_y b * cols t));
      draw t c (old_cursor_x b) (old_cursor_y b) b
    else Ret b
  else Ret b.

Definition flanterm_fb_double_buffer_flush (t : term) (b : fb F) : outcome (fb F) :=
  b ← (if cursor_enabled t then draw_cursor t b else Ret b);
  b ← flush_items (Z.to_nat (queue_i b)) t 0 b;
  b ← undraw_cursor t b;
  Ret (with_queue_i 0 (with_old_cursor (cursor_x b) (cursor_y b) b)).

(** The cursor past the last column: on to the next line, scrolling at the bottom margin. *)
Definition wrap_cursor (t : term) (b : fb F) : outcome (fb F) :=
  if cols t <=? cursor_x b then
    if wrap_enabled t && ((cursor_y b <? scroll_bottom_margin t - 1) || scroll_enabled t) then
      let y := cursor_y b + 1 in
      b ← (if y =? scroll_bottom_margin t then flanterm_fb_scroll t (with_cursor 0 (y - 1) b)
           else Ret (with_cursor 0 y b));
      Ret (if rows t <=? cursor_y b then with_cursor 0 (rows t - 1) b else b)
    else Ret (with_cursor (cols t - 1) (cursor_y b) b)
  else Ret b.

Definition flanterm_fb_raw_putchar (t : term) (c : Z) (b : fb F) : outcome (fb F) :=
  b ← wrap_cursor t b;
  let x := cursor_x b in
  push_to_queue t (Char c (text_fg b) (text_bg b)) x (cursor_y b) (with_cursor (x + 1) (cursor_y b) b).

(** Draws the grid from the cell [i] on. *)
Fixpoint draw_grid (n : nat) (t : term) (i : Z) (b : fb F) : outcome (fb F) :=
  match n with
  | O => Ret b
  | S n =>
      c ← get (grid b) (Z.to_nat i);
      b ← draw t c (i `mod` cols t) (i / cols t) b;
      draw_grid n t (i + 1) b
  end.

Definition flanterm_fb_full_refresh (t : term) (b : fb F) : outcome (fb F) :=
  f ← paint_background (cfg b) (frame b);
  b ← draw_grid (Z.to_nat (rows t * cols t)) t 0 (with_frame f b);
  if cursor_enabled t then draw_cursor t b else Ret b.

#[export] Instance fb_backend : Backend (fb F) := {
  b_raw_putchar := flanterm_fb_raw_putchar;
  b_clear := flanterm_fb_clear;
  b_set_cursor_pos := flanterm_fb_set_cursor_pos;
  b_get_cursor_pos := flanterm_fb_get_cursor_pos;
  b_set_text_fg := flanterm_fb_set_text_fg;
  b_set_text_bg := flanterm_fb_set_text_bg;
  b_set_text_fg_bright := flanterm_fb_set_text_fg_bright;
  b_set_text_bg_bright := flanterm_fb_set_text_bg_bright;
  b_set_text_fg_rgb := flanterm_fb_set_text_fg_rgb;
  b_set_text_bg_rgb := flanterm_fb_set_text_bg_rgb;
  b_set_text_fg_default := flanterm_fb_set_text_fg_default;
  b_set_text_bg_default := flanterm_fb_set_text_bg_default;
  b_set_text_fg_default_bright := flanterm_fb_set_text_fg_default_bright;
  b_set_text_bg_default_bright := flanterm_fb_set_text_bg_default_bright;
  b_move_character := flanterm_fb_move_character;
  b_scroll := flanterm_fb_scroll;
  b_revscroll := flanterm_fb_revscroll;
  b_swap_palette := flanterm_fb_swap_palette;
  b_save_state := flanterm_fb_save_state;
  b_restore_state := flanterm_fb_restore_state;
  b_double_buffer_flush := flanterm_fb_double_buffer_flush;
  b_full_refresh := flanterm_fb_full_refresh;
  b_callback := fun t kind a b c s => Ret (with_log (log s ++ [(kind, a, b, c)]) s)
}.
End backend.
