(* ===== verification/FbScreen.v ===== *)
(** The screen a terminal backend promises: an array of characters with a cursor and
    the two current colours.  Every operation is a plain function on the array;
    scrolling moves whole lines.  This is the specification the framebuffer backend
    is shown to implement. *)
From Stdlib Require Import Ascii.
From S2P Require Import Prelude Term Fb.

Record screen := Screen {
  s_cfg : fb_config; cells : list fb_char;
  s_fg : Z; s_bg : Z; s_x : Z; s_y : Z;
  s_saved_fg : Z; s_saved_bg : Z; s_saved_x : Z; s_saved_y : Z;
  s_log : list event
}.

Definition s_cells (v : list fb_char) (s : screen) : screen :=
  Screen (s_cfg s) v (s_fg s) (s_bg s) (s_x s) (s_y s) (s_saved_fg s) (s_saved_bg s) (s_saved_x s) (s_saved_y s) (s_log s).
Definition s_colours (fg bg : Z) (s : screen) : screen :=
  Screen (s_cfg s) (cells s) fg bg (s_x s) (s_y s) (s_saved_fg s) (s_saved_bg s) (s_saved_x s) (s_saved_y s) (s_log s).
Definition s_cursor (x y : Z) (s : screen) : screen :=
  Screen (s_cfg s) (cells s) (s_fg s) (s_bg s) x y (s_saved_fg s) (s_saved_bg s) (s_saved_x s) (s_saved_y s) (s_log s).

(** A character in the current colours. *)
Definition s_char (c : Z) (s : screen) : fb_char := Char c (s_fg s) (s_bg s).

(** ** Scrolling *)

(** The lines from [top] to [bottom] moved up by one, with a line of [e] at the bottom. *)
Definition scrolled (c top bottom : Z) (e : fb_char) (l : list fb_char) : list fb_char :=
  take (Z.to_nat (top * c)) l ++
  take (Z.to_nat ((bottom - 1 - top) * c)) (drop (Z.to_nat ((top + 1) * c)) l) ++
  replicate (Z.to_nat c) e ++
  drop (Z.to_nat (bottom * c)) l.

(** The same lines moved down by one, with a line of [e] at the top. *)
Definition revscrolled (c top bottom : Z) (e : fb_char) (l : list fb_char) : list fb_char :=
  take (Z.to_nat (top * c)) l ++
  replicate (Z.to_nat c) e ++
  take (Z.to_nat ((bottom - 1 - top) * c)) (drop (Z.to_nat (top * c)) l) ++
  drop (Z.to_nat (bottom * c)) l.

Definition s_scroll (t : term) (s : screen) : screen :=
  s_cells (scrolled (cols t) (scroll_top_margin t) (scroll_bottom_margin t) (s_char (ch " ") s) (cells s)) s.
Definition s_revscroll (t : term) (s : screen) : screen :=
  s_cells (revscrolled (cols t) (scroll_top_margin t) (scroll_bottom_margin t) (s_char (ch " ") s) (cells s)) s.

(** The position of the cursor, on the screen. *)
Definition s_position (t : term) (s : screen) : Z * Z := (Z.min (s_x s) (cols t - 1), Z.min (s_y s) (rows t - 1)).

(** Where the next character goes: past the last column, to the next line if lines wrap -
    scrolling the region at its bottom, if scrolling is on - and to the last column otherwise. *)
Definition s_wrap (t : term) (s : screen) : screen :=
  if s_x s <? cols t then s
  else if wrap_enabled t && ((s_y s <? scroll_bottom_margin t - 1) || scroll_enabled t) then
    if s_y s + 1 =? scroll_bottom_margin t then s_scroll t (s_cursor 0 (s_y s) s)
    else s_cursor 0 (Z.min (s_y s + 1) (rows t - 1)) s
  else s_cursor (cols t - 1) (s_y s) s.

Definition s_put (t : term) (c : Z) (s : screen) : screen :=
  let s := s_wrap t s in
  s_cursor (s_x s + 1) (s_y s) (s_cells (<[Z.to_nat (s_y s * cols t + s_x s) := s_char c s]> (cells s)) s).

Definition s_move (t : term) (nx ny ox oy : Z) (s : screen) : screen :=
  if (ox <? cols t) && (oy <? rows t) && (nx <? cols t) && (ny <? rows t) then
    match cells s !! Z.to_nat (oy * cols t + ox) with
    | Some c => s_cells (<[Z.to_nat (ny * cols t + nx) := c]> (cells s)) s
    | None => s
    end
  else s.

Definition s_clear (t : term) (move : bool) (s : screen) : screen :=
  let s := s_cells (replicate (Z.to_nat (rows t * cols t)) (s_char (ch " ") s)) s in
  if move then s_cursor 0 0 s else s.

(** The two colours exchanged, through the colour behind the text. *)
Definition s_swap (s : screen) : screen :=
  s_colours (if s_bg s =? TRANSPARENT then default_bg (s_cfg s) else s_bg s)
            (if s_fg s =? default_bg (s_cfg s) then TRANSPARENT else s_fg s) s.

Definition s_save (s : screen) : screen :=
  Screen (s_cfg s) (cells s) (s_fg s) (s_bg s) (s_x s) (s_y s) (s_fg s) (s_bg s) (s_x s) (s_y s) (s_log s).
Definition s_restore (s : screen) : screen :=
  s_cursor (s_saved_x s) (s_saved_y s) (s_colours (s_saved_fg s) (s_saved_bg s) s).

Definition s_event (e : event) (s : screen) : screen :=
  Screen (s_cfg s) (cells s) (s_fg s) (s_bg s) (s_x s) (s_y s) (s_saved_fg s) (s_saved_bg s) (s_saved_x s) (s_saved_y s) (s_log s ++ [e]).

#[export] Instance screen_backend : Backend screen := {
  b_raw_putchar t c s := Ret (s_put t c s);
  b_clear t move s := Ret (s_clear t move s);
  b_set_cursor_pos t x y s := Ret (s_cursor (clamp x (cols t)) (clamp y (rows t)) s);
  b_get_cursor_pos := s_position;
  b_set_text_fg t n s := c ← get (ansi_colours (s_cfg s)) (Z.to_nat n); Ret (s_colours c (s_bg s) s);
  b_set_text_bg t n s := c ← get (ansi_colours (s_cfg s)) (Z.to_nat n); Ret (s_colours (s_fg s) c s);
  b_set_text_fg_bright t n s := c ← get (ansi_bright_colours (s_cfg s)) (Z.to_nat n); Ret (s_colours c (s_bg s) s);
  b_set_text_bg_bright t n s := c ← get (ansi_bright_colours (s_cfg s)) (Z.to_nat n); Ret (s_colours (s_fg s) c s);
  b_set_text_fg_rgb t v s := c ← convert_colour (s_cfg s) v; Ret (s_colours c (s_bg s) s);
  b_set_text_bg_rgb t v s := c ← convert_colour (s_cfg s) v; Ret (s_colours (s_fg s) c s);
  b_set_text_fg_default t s := Ret (s_colours (default_fg (s_cfg s)) (s_bg s) s);
  b_set_text_bg_default t s := Ret (s_colours (s_fg s) TRANSPARENT s);
  b_set_text_fg_default_bright t s := Ret (s_colours (default_fg_bright (s_cfg s)) (s_bg s) s);
  b_set_text_bg_default_bright t s := Ret (s_colours (s_fg s) (default_bg_bright (s_cfg s)) s);
  b_move_character t nx ny ox oy s := Ret (s_move t nx ny ox oy s);
  b_scroll t s := Ret (s_scroll t s);
  b_revscroll t s := Ret (s_revscroll t s);
  b_swap_palette t s := Ret (s_swap s);
  b_save_state t s := Ret (s_save s);
  b_restore_state t s := Ret (s_restore s);
  b_double_buffer_flush t s := Ret s;
  b_full_refresh t s := Ret s;
  b_callback t k x y z s := Ret (s_event (k, x, y, z) s)
}.

(** ** What scrolling leaves in a cell *)

Section scroll.
Context (c top bottom : Z) (e : fb_char) (l : list fb_char).
Hypothesis (Hc : 0 < c) (Ht : 0 <= top < bottom) (Hl : bottom * c <= Z.of_nat (length l)).

Lemma scrolled_lookup j : scrolled c top bottom e l !! j =
  if decide (top * c <= Z.of_nat j < (bottom - 1) * c) then l !! (j + Z.to_nat c)%nat
  else if decide ((bottom - 1) * c <= Z.of_nat j < bottom * c) then Some e else l !! j.
Proof using Hc Ht Hl.
  unfold scrolled. assert (Hf : 0 <= top * c <= bottom * c - c) by nia.
  rewrite ?(Z.mul_add_distr_r top 1 c), ?(Z.mul_sub_distr_r bottom 1 c), (Z.mul_sub_distr_r (bottom - 1) top c),
    ?(Z.mul_sub_distr_r bottom 1 c), ?Z.mul_1_l.
  revert Hl Hf. generalize (top * c) (bottom * c). intros tc bc Hl' Hf.
  rewrite !lookup_app. destruct (decide (Z.of_nat j < tc)).
  { rewrite lookup_take_lt by lia. destruct (lookup_lt_is_Some_2 l j) as [x ->]; [lia|].
    by rewrite !decide_False by lia. }
  rewrite lookup_take_ge by lia. rewrite length_take, Nat.min_l by lia.
  destruct (decide (Z.of_nat j < bc - c)).
  { rewrite decide_True by lia. rewrite lookup_take_lt by lia. rewrite lookup_drop.
    replace (Z.to_nat (tc + c) + (j - Z.to_nat tc))%nat with (j + Z.to_nat c)%nat by lia.
    by destruct (lookup_lt_is_Some_2 l (j + Z.to_nat c)) as [x ->]; [lia|]. }
  rewrite decide_False by lia. rewrite lookup_take_ge by lia.
  rewrite length_take, length_drop, Nat.min_l by lia. destruct (decide (Z.of_nat j < bc)).
  { rewrite decide_True by lia. by rewrite lookup_replicate_2 by lia. }
  rewrite decide_False by lia. rewrite lookup_ge_None_2 by (rewrite length_replicate; lia).
  rewrite length_replicate, lookup_drop. f_equal. lia.
Qed.

Lemma revscrolled_lookup j : revscrolled c top bottom e l !! j =
  if decide ((top + 1) * c <= Z.of_nat j < bottom * c) then l !! (j - Z.to_nat c)%nat
  else if decide (top * c <= Z.of_nat j < (top + 1) * c) then Some e else l !! j.
Proof using Hc Ht Hl.
  unfold revscrolled. assert (Hf : 0 <= top * c <= bottom * c - c) by nia.
  rewrite ?(Z.mul_add_distr_r top 1 c), ?(Z.mul_sub_distr_r bottom 1 c), (Z.mul_sub_distr_r (bottom - 1) top c),
    ?(Z.mul_sub_distr_r bottom 1 c), ?Z.mul_1_l.
  revert Hl Hf. generalize (top * c) (bottom * c). intros tc bc Hl' Hf.
  rewrite !lookup_app. destruct (decide (Z.of_nat j < tc)).
  { rewrite lookup_take_lt by lia. destruct (lookup_lt_is_Some_2 l j) as [x ->]; [lia|].
    by rewrite !decide_False by lia. }
  rewrite lookup_take_ge by lia. rewrite length_take, Nat.min_l by lia.
  destruct (decide (Z.of_nat j < tc + c)).
  { rewrite decide_False, decide_True by lia. by rewrite lookup_replicate_2 by lia. }
  rewrite lookup_ge_None_2 by (rewrite length_replicate; lia). rewrite length_replicate.
  destruct (decide (Z.of_nat j < bc)).
  { rewrite decide_True by lia. rewrite lookup_take_lt by lia. rewrite lookup_drop.
    replace (Z.to_nat tc + (j - Z.to_nat tc - Z.to_nat c))%nat with (j - Z.to_nat c)%nat by lia.
    by destruct (lookup_lt_is_Some_2 l (j - Z.to_nat c)) as [x ->]; [lia|]. }
  rewrite !decide_False by lia. rewrite lookup_take_ge by lia.
  rewrite length_take, length_drop, Nat.min_l, lookup_drop by lia. f_equal. lia.
Qed.
End scroll.
