(* ===== verification/FbQueue.v ===== *)
(** * The queue of the framebuffer backend

    The invariant between the queue and the map, and what every operation that writes
    characters leaves in the cells of the screen. *)

From Stdlib Require Import Ascii.
From S2P Require Import Prelude Term TermRefine Fb FbScreen.

(** The queue of the framebuffer backend: the invariant between the queue and the map,
    the screen the two stand for, and the effect on it of every operation that
    writes characters.  The queue never overflows. *)

(** ** Cells *)

Definition char_ok (c : fb_char) : Prop := 0 <= char_c c < 256.

Definition item_ok (r c : Z) (q : queue_item) : Prop :=
  0 <= item_x q < c /\ 0 <= item_y q < r.

(** The index of the cell of an item. *)
Definition offset (c : Z) (q : queue_item) : nat := Z.to_nat (item_y q * c + item_x q).

Lemma cell_index r c x y : 0 <= x < c -> 0 <= y < r -> 0 <= y * c + x < r * c.
Proof. nia. Qed.

Lemma cell_index_inj c x y x' y' : 0 <= x < c -> 0 <= x' < c -> y * c + x = y' * c + x' -> x = x' /\ y = y'.
Proof. intros. assert (y = y') by nia. split; [nia|done]. Qed.

Lemma compare_char_eq a b : compare_char a b = true -> a = b.
Proof.
  unfold compare_char. rewrite negb_true_iff, !orb_false_iff, !negb_false_iff, !Z.eqb_eq.
  destruct a, b; cbn. by intros [[-> ->] ->].
Qed.

(** Distinct numbers below [n], one of them left out. *)
Lemma pigeonhole (l : list nat) n i : NoDup l -> Forall (fun j => (j < n)%nat) l -> (i < n)%nat -> i ∉ l -> (length l < n)%nat.
Proof.
  intros Hd Hl Hi Hni. assert (Hs : i :: l ⊆+ seq 0 n).
  { apply NoDup_submseteq; [by constructor|]. intros j [->|Hj]%elem_of_cons; apply elem_of_seq; [lia|].
    rewrite Forall_forall in Hl. specialize (Hl j Hj). lia. }
  apply submseteq_length in Hs. rewrite length_seq in Hs. cbn in Hs. lia.
Qed.

(** One more element at the end of a list. *)
Lemma lookup_snoc_at {A} k (l : list A) x k' : length l = k ->
  (l ++ [x]) !! k' = if decide (k' = k) then Some x else l !! k'.
Proof.
  intros <-. destruct (decide (k' = length l)) as [->|]; [apply lookup_at|].
  destruct (decide (k' < length l)%nat); [by rewrite lookup_app_l|].
  rewrite !lookup_ge_None_2; [done|lia|]. rewrite length_app. cbn. lia.
Qed.

Section queue.
Context {F : Type} `{Plotter F}.
Implicit Types b : fb F.

(** The items written since the last flush. *)
Definition pending b : list queue_item := take (Z.to_nat (queue_i b)) (queue b).

(** The map sends a cell to the item of the queue that is about it. *)
Record coherent (r c : Z) b : Prop := {
  co_dims : 0 < r /\ 0 < c;
  co_grid_len : length (grid b) = Z.to_nat (r * c);
  co_queue_len : length (queue b) = Z.to_nat (r * c);
  co_qmap_len : length (qmap b) = Z.to_nat (r * c);
  co_i : 0 <= queue_i b <= r * c;
  co_items : Forall (item_ok r c) (pending b);
  co_map : forall i k, qmap b !! i = Some (Some k) <-> (offset c <$> pending b) !! k = Some i;
  co_grid : Forall char_ok (grid b);
  co_chars : Forall (fun q => char_ok (item_c q)) (queue b)
}.

(** The character of a cell. *)
Definition view_cell b (i : nat) (g : fb_char) : fb_char :=
  match qmap b !! i with
  | Some (Some k) => match queue b !! k with Some q => item_c q | None => g end
  | _ => g
  end.

(** The screen the grid, the queue and the map stand for. *)
Definition view b : list fb_char := imap (view_cell b) (grid b).

Lemma view_lookup b i : view b !! i = view_cell b i <$> grid b !! i.
Proof. apply list_lookup_imap. Qed.

Lemma cells_length b : length (view b) = length (grid b).
Proof. apply length_imap. Qed.

(** Only the queue and the map differ. *)
Definition agree b b' : Prop := b' = with_qmap (qmap b') (with_queue_i (queue_i b') (with_queue (queue b') b)).

Lemma agree_refl b : agree b b.
Proof. by destruct b. Qed.

Lemma agree_trans b b' b'' : agree b b' -> agree b' b'' -> agree b b''.
Proof. unfold agree. intros -> E. rewrite E. by destruct b, b''. Qed.

Lemma agree_fields b b' : agree b b' ->
  cfg b' = cfg b /\ grid b' = grid b /\ text_fg b' = text_fg b /\ text_bg b' = text_bg b /\
  cursor_x b' = cursor_x b /\ cursor_y b' = cursor_y b /\
  saved_state_text_fg b' = saved_state_text_fg b /\ saved_state_text_bg b' = saved_state_text_bg b /\
  saved_state_cursor_x b' = saved_state_cursor_x b /\ saved_state_cursor_y b' = saved_state_cursor_y b /\
  old_cursor_x b' = old_cursor_x b /\ old_cursor_y b' = old_cursor_y b /\ frame b' = frame b /\ log b' = log b.
Proof. unfold agree. intros E. rewrite E. by destruct b. Qed.

Section facts.
Context (r c : Z) b (Hco : coherent r c b).

Lemma pending_lookup k q : pending b !! k = Some q -> queue b !! k = Some q.
Proof using Hco. intros Hk. unfold pending in Hk. by apply lookup_take_Some in Hk as [? _]. Qed.

Lemma pending_items_length : length (pending b) = Z.to_nat (queue_i b).
Proof using Hco.
  unfold pending. rewrite length_take, (co_queue_len _ _ _ Hco). pose proof (co_i _ _ _ Hco). lia.
Qed.

Lemma mapped i k : qmap b !! i = Some (Some k) -> exists q, pending b !! k = Some q /\ queue b !! k = Some q /\
  offset c q = i /\ item_ok r c q.
Proof using Hco.
  intros Hk%(co_map _ _ _ Hco). rewrite list_lookup_fmap in Hk.
  destruct (pending b !! k) as [q|] eqn:Hq; [|done]. cbn in Hk. injection Hk as Hk. exists q.
  split_and!; [done|by apply pending_lookup|done|]. by apply (Forall_lookup_1 _ _ _ _ (co_items _ _ _ Hco) Hq).
Qed.

Lemma offsets_nodup : NoDup (offset c <$> pending b).
Proof using Hco.
  apply NoDup_alt. intros k1 k2 i H1%(co_map _ _ _ Hco) H2%(co_map _ _ _ Hco). congruence.
Qed.

(** A cell without an item leaves a place in the queue. *)
Lemma queue_room i : qmap b !! i = Some None -> queue_i b < r * c.
Proof using Hco.
  intros Hi. pose proof (co_i _ _ _ Hco). pose proof (co_dims _ _ _ Hco).
  assert (Hlt : (length (offset c <$> pending b) < Z.to_nat (r * c))%nat).
  { apply (pigeonhole _ _ i); [apply offsets_nodup| | |].
    - apply Forall_fmap, (Forall_impl _ _ _ (co_items _ _ _ Hco)). intros q (Hx & Hy).
      pose proof (cell_index r c _ _ Hx Hy). unfold offset. cbn. lia.
    - rewrite <- (co_qmap_len _ _ _ Hco). by apply lookup_lt_Some in Hi.
    - intros [k Hk]%list_elem_of_lookup. apply (co_map _ _ _ Hco) in Hk. congruence. }
  rewrite length_fmap, pending_items_length in Hlt. lia.
Qed.

Lemma view_char_ok : Forall char_ok (view b).
Proof using Hco.
  apply Forall_lookup. intros i x Hx. rewrite view_lookup in Hx.
  destruct (grid b !! i) as [g|] eqn:Hg; [|done]. injection Hx as <-. unfold view_cell.
  pose proof (Forall_lookup_1 _ _ _ _ (co_grid _ _ _ Hco) Hg).
  destruct (qmap b !! i) as [[k|]|] eqn:Hk; [|done..].
  apply mapped in Hk as (q & _ & Hq & _). rewrite Hq.
  by apply (Forall_lookup_1 _ _ _ _ (co_chars _ _ _ Hco) Hq).
Qed.

(** [current_char] reads the screen. *)
Lemma current_char_view i : 0 <= i < r * c -> exists x, current_char i b = Ret x /\
  view b !! Z.to_nat i = Some x /\ char_ok x.
Proof using Hco.
  intros Hi. unfold current_char.
  destruct (lookup_lt_is_Some_2 (grid b) (Z.to_nat i)) as [g Hg]; [rewrite (co_grid_len _ _ _ Hco); lia|].
  destruct (lookup_lt_is_Some_2 (qmap b) (Z.to_nat i)) as [m Hm]; [rewrite (co_qmap_len _ _ _ Hco); lia|].
  exists (view_cell b (Z.to_nat i) g). rewrite view_lookup, Hg. cbn. split_and!; [|done|].
  - rewrite (get_lookup _ _ _ Hm). unfold view_cell. rewrite Hm. cbn. destruct m as [k|].
    + apply mapped in Hm as (q & _ & Hq & _). by rewrite (get_lookup _ _ _ Hq), Hq.
    + by apply get_lookup.
  - apply (Forall_lookup_1 _ _ (Z.to_nat i) _ view_char_ok). by rewrite view_lookup, Hg.
Qed.
End facts.

(** ** Writing a cell *)

Lemma set_item_spec r c b k q x : coherent r c b -> pending b !! k = Some q -> char_ok x ->
  let b' := with_queue (<[k := QItem (item_x q) (item_y q) x]> (queue b)) b in
  set_item k x b = Ret b' /\ coherent r c b' /\ view b' = <[offset c q := x]> (view b) /\ agree b b'.
Proof.
  intros Hco Hq Hx b'. pose proof (pending_lookup r c b Hco _ _ Hq) as Hqq.
  pose proof (lookup_lt_Some _ _ _ Hq) as Hk. rewrite (pending_items_length r c b Hco) in Hk.
  assert (Hmap : qmap b !! offset c q = Some (Some k)).
  { apply (co_map _ _ _ Hco). by rewrite list_lookup_fmap, Hq. }
  assert (Hp : pending b' = <[k := QItem (item_x q) (item_y q) x]> (pending b)) by (by apply take_insert_lt).
  split_and!.
  - unfold set_item. rewrite (get_lookup _ _ _ Hqq). cbn [mbind outcome_bind].
    rewrite put_lt by (by apply lookup_lt_Some in Hqq). done.
  - destruct Hco as [Hd Hg Hql Hm Hi Hit Hcm Hgr Hch]. split; try assumption.
    + cbn. by rewrite length_insert.
    + rewrite Hp. apply Forall_insert; [done|]. exact (Forall_lookup_1 _ _ _ _ Hit Hq).
    + intros i k'. rewrite Hp, list_fmap_insert, list_insert_id; [apply Hcm|].
      by rewrite list_lookup_fmap, Hq.
    + by apply Forall_insert.
  - apply list_eq. intros j. rewrite view_lookup.
    destruct (decide (j = offset c q)) as [->|Hne].
    + rewrite list_lookup_insert_eq by (rewrite cells_length; apply lookup_lt_Some in Hmap;
        rewrite (co_grid_len _ _ _ Hco); rewrite (co_qmap_len _ _ _ Hco) in Hmap; done).
      destruct (lookup_lt_is_Some_2 (grid b) (offset c q)) as [g Hg].
      { apply lookup_lt_Some in Hmap. by rewrite (co_grid_len _ _ _ Hco), <- (co_qmap_len _ _ _ Hco). }
      cbn. rewrite Hg. cbn. unfold view_cell. cbn. rewrite Hmap.
      by rewrite list_lookup_insert_eq by (by apply lookup_lt_Some in Hqq).
    + rewrite list_lookup_insert_ne, view_lookup by done. cbn. destruct (grid b !! j); [|done]. cbn. f_equal.
      unfold view_cell. cbn. destruct (qmap b !! j) as [[k'|]|] eqn:Hj; [|done..].
      rewrite list_lookup_insert_ne; [done|]. intros ->.
      apply (co_map _ _ _ Hco) in Hj. rewrite list_lookup_fmap, Hq in Hj. cbn in Hj. congruence.
  - by destruct b.
Qed.

(** A new item at the end of the queue. *)
Lemma new_item_spec r c b x y q : coherent r c b -> 0 <= x < c -> 0 <= y < r ->
  let i := Z.to_nat (y * c + x) in let k := Z.to_nat (queue_i b) in
  qmap b !! i = Some None -> queue b !! k = Some q ->
  let b' := with_qmap (<[i := Some k]> (qmap b)) (with_queue_i (queue_i b + 1)
    (with_queue (<[k := QItem x y (item_c q)]> (queue b)) b)) in
  coherent r c b' /\ pending b' !! k = Some (QItem x y (item_c q)) /\
  view b' = <[i := item_c q]> (view b) /\ agree b b'.
Proof.
  intros Hco Hx Hy i k Hi Hq b'. pose proof (queue_room r c b Hco _ Hi) as Hroom.
  pose proof (co_i _ _ _ Hco) as Hqi. pose proof (lookup_lt_Some _ _ _ Hq) as Hk.
  pose proof (lookup_lt_Some _ _ _ Hi) as Hil. pose proof (cell_index r c x y Hx Hy) as Hidx.
  assert (Hp : pending b' = pending b ++ [QItem x y (item_c q)]).
  { unfold pending. cbn. replace (Z.to_nat (queue_i b + 1)) with (S k) by lia.
    rewrite (take_S_r _ k (QItem x y (item_c q))) by (by apply list_lookup_insert_eq).
    by rewrite take_insert_ge. }
  assert (Hpl : length (pending b) = k) by (by apply (pending_items_length r c)).
  assert (Hold : forall j k', qmap b !! j = Some (Some k') -> (k' < k)%nat).
  { intros j k' Hj. destruct (mapped r c b Hco _ _ Hj) as (q' & Hq' & _).
    apply lookup_lt_Some in Hq'. lia. }
  split_and!.
  - destruct Hco as [Hd Hg Hql Hm _ Hit Hcm Hgr Hch]. split; try assumption; cbn.
    + by rewrite length_insert.
    + by rewrite length_insert.
    + lia.
    + rewrite Hp. apply Forall_app. split; [done|]. apply Forall_singleton. by split.
    + intros j k'. rewrite Hp, fmap_app. change (offset c <$> [QItem x y (item_c q)]) with [i].
      rewrite (lookup_snoc_at k) by (by rewrite length_fmap).
      destruct (decide (i = j)) as [->|Hij].
      * rewrite list_lookup_insert_eq by done. destruct (decide (k' = k)) as [->|]; [done|].
        rewrite <- Hcm, Hi. split; congruence.
      * rewrite list_lookup_insert_ne by done. destruct (decide (k' = k)) as [->|]; [|apply Hcm].
        split; [intros Hj; specialize (Hold _ _ Hj); lia|congruence].
    + by apply Forall_insert; [|apply (Forall_lookup_1 _ _ _ _ Hch Hq)].
  - rewrite Hp, <- Hpl. apply lookup_at.
  - apply list_eq. intros j. rewrite view_lookup. cbn.
    destruct (decide (j = i)) as [->|Hne].
    + rewrite list_lookup_insert_eq by (rewrite cells_length, (co_grid_len _ _ _ Hco); lia).
      destruct (lookup_lt_is_Some_2 (grid b) i) as [g Hg]; [rewrite (co_grid_len _ _ _ Hco); lia|].
      rewrite Hg. cbn. unfold view_cell. cbn. by rewrite !list_lookup_insert_eq.
    + rewrite list_lookup_insert_ne, view_lookup by done. destruct (grid b !! j); [|done]. cbn. f_equal.
      unfold view_cell. cbn. rewrite list_lookup_insert_ne by done.
      destruct (qmap b !! j) as [[k'|]|] eqn:Hj; [|done..].
      rewrite list_lookup_insert_ne; [done|]. specialize (Hold _ _ Hj). lia.
  - by destruct b.
Qed.

(** A push writes one cell of the screen, whatever the queue holds. *)
Lemma push_to_queue_view t b x y ch : coherent (rows t) (cols t) b ->
  0 <= x < cols t -> 0 <= y < rows t -> char_ok ch ->
  exists b', push_to_queue t ch x y b = Ret b' /\ coherent (rows t) (cols t) b' /\
  view b' = <[Z.to_nat (y * cols t + x) := ch]> (view b) /\ agree b b'.
Proof.
  intros Hco Hx Hy Hch. unfold push_to_queue.
  split_leb (cols t) x; [lia|]. split_leb (rows t) y; [lia|]. cbn [orb].
  pose proof (cell_index _ _ x y Hx Hy) as Hidx. set (i := Z.to_nat (y * cols t + x)).
  destruct (lookup_lt_is_Some_2 (qmap b) i) as [m Hm]; [rewrite (co_qmap_len _ _ _ Hco); lia|].
  rewrite (get_lookup _ _ _ Hm). cbn [mbind outcome_bind]. destruct m as [k|].
  { destruct (mapped _ _ _ Hco _ _ Hm) as (q & Hq & _ & Hoff & _). rewrite <- Hoff.
    destruct (set_item_spec _ _ _ _ _ _ Hco Hq Hch) as (Eset & Hco' & Hv & Ha). eauto. }
  destruct (lookup_lt_is_Some_2 (grid b) i) as [g Hg]; [rewrite (co_grid_len _ _ _ Hco); lia|].
  rewrite (get_lookup _ _ _ Hg). cbn [mbind outcome_bind]. destruct (compare_char g ch) eqn:Hcmp.
  { apply compare_char_eq in Hcmp as ->. exists b. split_and!; [done..| |apply agree_refl].
    rewrite list_insert_id; [done|]. rewrite view_lookup, Hg. cbn. unfold view_cell. by rewrite Hm. }
  pose proof (queue_room _ _ _ Hco _ Hm) as Hroom. pose proof (co_i _ _ _ Hco).
  split_eqb (queue_i b) (rows t * cols t); [lia|].
  destruct (lookup_lt_is_Some_2 (queue b) (Z.to_nat (queue_i b))) as [q Hq]; [rewrite (co_queue_len _ _ _ Hco); lia|].
  rewrite (get_lookup _ _ _ Hq). cbn [mbind outcome_bind].
  rewrite (put_lt (queue b)) by (by apply lookup_lt_Some in Hq). cbn [mbind outcome_bind].
  rewrite (put_lt (qmap b)) by (by apply lookup_lt_Some in Hm). cbn [mbind outcome_bind].
  destruct (new_item_spec _ _ _ x y q Hco Hx Hy Hm Hq) as (Hco1 & Hp1 & Hv1 & Ha1).
  destruct (set_item_spec _ _ _ _ _ _ Hco1 Hp1 Hch) as (Eset & Hco' & Hv & Ha).
  eexists. split; [exact Eset|]. split_and!; [done| |by eapply agree_trans].
  rewrite Hv, Hv1. unfold offset. cbn. by rewrite list_insert_insert_eq.
Qed.
End queue.

(** The operations of the framebuffer backend that write many cells: what they leave in
    every cell of the screen. *)

Section loops.
Context {F : Type} `{Plotter F}.
Implicit Types b : fb F.

(** [f] returns, keeps the queue coherent and changes only the queue and the map; the
    cells of the screen are then those of [v]. *)
Definition writes (t : term) b (o : outcome (fb F)) (v : nat -> option fb_char) : Prop :=
  exists b', o = Ret b' /\ coherent (rows t) (cols t) b' /\ agree b b' /\ forall j, view b' !! j = v j.

Lemma push_writes t b x y ch : coherent (rows t) (cols t) b -> 0 <= x < cols t -> 0 <= y < rows t -> char_ok ch ->
  writes t b (push_to_queue t ch x y b)
    (fun j => if decide (Z.of_nat j = y * cols t + x) then Some ch else view b !! j).
Proof.
  intros Hco Hx Hy Hch. destruct (push_to_queue_view t b x y ch Hco Hx Hy Hch) as (b' & E & Hco' & Hv & Ha).
  exists b'. split_and!; [done..|]. intros j. rewrite Hv. pose proof (cell_index _ _ x y Hx Hy).
  case_decide as Hj.
  - replace (Z.to_nat (y * cols t + x)) with j by lia. apply list_lookup_insert_eq.
    rewrite cells_length, (co_grid_len _ _ _ Hco). lia.
  - rewrite list_lookup_insert_ne; [done|]. lia.
Qed.

(** The same for the cell of an index. *)
Lemma push_index_writes t b i ch : coherent (rows t) (cols t) b -> 0 <= i < rows t * cols t -> char_ok ch ->
  writes t b (push_to_queue t ch (i `mod` cols t) (i / cols t) b)
    (fun j => if decide (Z.of_nat j = i) then Some ch else view b !! j).
Proof.
  intros Hco Hi Hch. destruct (co_dims _ _ _ Hco) as [Hr Hc].
  assert (Hx : 0 <= i `mod` cols t < cols t) by (apply Z.mod_pos_bound; lia).
  assert (Hy : 0 <= i / cols t < rows t) by (split; [apply Z.div_pos|apply Z.div_lt_upper_bound]; lia).
  destruct (push_writes t b _ _ ch Hco Hx Hy Hch) as (b' & E & Hco' & Ha & Hv).
  exists b'. split_and!; [done..|]. intros j. rewrite Hv.
  replace (i / cols t * cols t + i `mod` cols t) with i; [done|]. rewrite (Z.div_mod i (cols t)) at 1 by lia. lia.
Qed.

(** Continues after a first write. *)
Lemma writes_bind t b o (f : fb F -> outcome (fb F)) v v' :
  writes t b o v ->
  (forall b', coherent (rows t) (cols t) b' -> agree b b' -> (forall j, view b' !! j = v j) -> writes t b' (f b') v') ->
  writes t b (o ≫= f) v'.
Proof.
  intros (b' & -> & Hco & Ha & Hv) Hf. destruct (Hf b' Hco Ha Hv) as (b'' & E & Hco' & Ha' & Hv').
  exists b''. split_and!; [done..|by eapply agree_trans|done].
Qed.

Lemma writes_ret t b v : coherent (rows t) (cols t) b -> (forall j, view b !! j = v j) -> writes t b (Ret b) v.
Proof. intros Hco Hv. exists b. split_and!; [done..|apply agree_refl|done]. Qed.

Lemma writes_ext t b o v v' : writes t b o v -> (forall j, v j = v' j) -> writes t b o v'.
Proof. intros (b' & E & Hco & Ha & Hv) Hvv. exists b'. split_and!; [done..|]. intros j. by rewrite Hv, Hvv. Qed.

Lemma fill_line_writes n t b ch x y : coherent (rows t) (cols t) b -> 0 <= x -> x + Z.of_nat n <= cols t ->
  0 <= y < rows t -> char_ok ch ->
  writes t b (fill_line n t ch x y b)
    (fun j => if decide (y * cols t + x <= Z.of_nat j < y * cols t + x + Z.of_nat n) then Some ch else view b !! j).
Proof.
  revert b x. induction n as [|n IH]; intros b x Hco Hx Hn Hy Hch; cbn [fill_line].
  { apply writes_ret; [done|]. intros j. by rewrite decide_False by lia. }
  eapply writes_bind; [apply push_writes; [done|lia|lia|done]|]. intros b' Hco' Ha Hv.
  eapply writes_ext; [apply IH; [done|lia..|done]|]. intros j. cbn beta. rewrite Hv.
  repeat case_decide; done || lia.
Qed.

Lemma fill_cells_writes n t b ch i : coherent (rows t) (cols t) b -> 0 <= i -> i + Z.of_nat n <= rows t * cols t ->
  char_ok ch ->
  writes t b (fill_cells n t ch i b)
    (fun j => if decide (i <= Z.of_nat j < i + Z.of_nat n) then Some ch else view b !! j).
Proof.
  revert b i. induction n as [|n IH]; intros b i Hco Hi Hn Hch; cbn [fill_cells].
  { apply writes_ret; [done|]. intros j. by rewrite decide_False by lia. }
  eapply writes_bind; [apply push_index_writes; [done|lia|done]|]. intros b' Hco' Ha Hv.
  eapply writes_ext; [apply IH; [done|lia..|done]|]. intros j. cbn beta. rewrite Hv.
  repeat case_decide; done || lia.
Qed.

Lemma scroll_cells_writes n t b i : coherent (rows t) (cols t) b -> cols t <= i -> i + Z.of_nat n <= rows t * cols t ->
  writes t b (scroll_cells n t i b)
    (fun j => if decide (i - cols t <= Z.of_nat j < i - cols t + Z.of_nat n)
              then view b !! (j + Z.to_nat (cols t))%nat else view b !! j).
Proof.
  revert b i. induction n as [|n IH]; intros b i Hco Hi Hn; cbn [scroll_cells].
  { apply writes_ret; [done|]. intros j. by rewrite decide_False by lia. }
  destruct (co_dims _ _ _ Hco) as [Hr Hc].
  destruct (current_char_view _ _ b Hco i) as (x & -> & Hx & Hok); [lia|]. cbn [mbind outcome_bind].
  eapply writes_bind; [apply push_index_writes; [done|lia|done]|]. intros b' Hco' Ha Hv.
  eapply writes_ext; [apply IH; [done|lia..]|]. intros j. cbn beta. rewrite !Hv.
  repeat case_decide; try done; try lia.
  rewrite <- Hx. f_equal. lia.
Qed.

Lemma revscroll_cells_writes n t b i : coherent (rows t) (cols t) b -> Z.of_nat n <= i -> i + cols t <= rows t * cols t ->
  writes t b (revscroll_cells n t i b)
    (fun j => if decide (i + cols t - Z.of_nat n <= Z.of_nat j < i + cols t)
              then view b !! (j - Z.to_nat (cols t))%nat else view b !! j).
Proof.
  revert b i. induction n as [|n IH]; intros b i Hco Hi Hn; cbn [revscroll_cells].
  { apply writes_ret; [done|]. intros j. by rewrite decide_False by lia. }
  destruct (co_dims _ _ _ Hco) as [Hr Hc].
  destruct (current_char_view _ _ b Hco (i - 1)) as (x & -> & Hx & Hok); [lia|]. cbn [mbind outcome_bind].
  eapply writes_bind; [apply push_index_writes; [done|lia|done]|]. intros b' Hco' Ha Hv.
  eapply writes_ext; [apply IH; [done|lia..]|]. intros j. cbn beta. rewrite !Hv.
  repeat case_decide; try done; try lia.
  rewrite <- Hx. f_equal. lia.
Qed.

Lemma empty_ok b : char_ok (empty b).
Proof. by split. Qed.

(** ** Scrolling and clearing *)

Lemma scroll_writes t b : geometry t -> coherent (rows t) (cols t) b ->
  writes t b (flanterm_fb_scroll t b)
    (fun j => scrolled (cols t) (scroll_top_margin t) (scroll_bottom_margin t) (empty b) (view b) !! j).
Proof.
  intros [Hr Hc Hm] Hco. unfold flanterm_fb_scroll. set (top := scroll_top_margin t) in *. set (bot := scroll_bottom_margin t) in *.
  assert (Hlen : bot * cols t <= Z.of_nat (length (view b))) by (rewrite cells_length, (co_grid_len _ _ _ Hco); nia).
  eapply writes_bind; [apply scroll_cells_writes; [done|nia|nia]|]. intros b' Hco' Ha Hv.
  eapply writes_ext; [apply fill_line_writes; [done|lia|lia|lia|apply empty_ok]|]. intros j. cbn beta.
  rewrite Hv, scrolled_lookup by lia.
  assert (0 <= top * cols t <= bot * cols t - cols t) by nia.
  repeat case_decide; try done; nia.
Qed.

Lemma revscroll_writes t b : geometry t -> coherent (rows t) (cols t) b ->
  writes t b (flanterm_fb_revscroll t b)
    (fun j => revscrolled (cols t) (scroll_top_margin t) (scroll_bottom_margin t) (empty b) (view b) !! j).
Proof.
  intros [Hr Hc Hm] Hco. unfold flanterm_fb_revscroll. set (top := scroll_top_margin t) in *. set (bot := scroll_bottom_margin t) in *.
  assert (Hlen : bot * cols t <= Z.of_nat (length (view b))) by (rewrite cells_length, (co_grid_len _ _ _ Hco); nia).
  eapply writes_bind; [apply revscroll_cells_writes; [done|nia|nia]|]. intros b' Hco' Ha Hv.
  eapply writes_ext; [apply fill_line_writes; [done|lia|lia|lia|apply empty_ok]|]. intros j. cbn beta.
  rewrite Hv, revscrolled_lookup by lia.
  assert (0 <= top * cols t <= bot * cols t - cols t) by nia.
  repeat case_decide; try done; nia.
Qed.
End loops.
