(* ===== verification/TermParams.v ===== *)
(** * What the parser makes of particular bytes

    Code points in UTF-8, and the parameters of control sequences. *)

From Stdlib Require Import Ascii.
From S2P Require Import Prelude Bytes Libc LibcSpec TermTables Term TermRefine Fb FbScreen.

(** UTF-8: a code point written as its bytes is printed as that code point, on any
    backend. *)

(** The bytes of a code point. *)
Definition utf8 (cp : Z) : list Z :=
  if cp <? 0x800 then [0xc0 + cp / 64; 0x80 + cp `mod` 64]
  else if cp <? 0x10000 then [0xe0 + cp / 4096; 0x80 + (cp / 64) `mod` 64; 0x80 + cp `mod` 64]
  else [0xf0 + cp / 262144; 0x80 + (cp / 4096) `mod` 64; 0x80 + (cp / 64) `mod` 64; 0x80 + cp `mod` 64].

(** ** Bits *)

Lemma tail_bits d : 0 <= d < 64 -> Z.land (0x80 + d) 0xc0 = 0x80 /\ Z.land (0x80 + d) 0x3f = d.
Proof.
  intros Hd.
  assert (Hall : Forall (fun d => Z.land (0x80 + d) 0xc0 = 0x80 /\ Z.land (0x80 + d) 0x3f = d) (seqZ 0 64))
    by (apply (bool_decide_eq_true_1 _); by vm_compute).
  rewrite Forall_forall in Hall. apply Hall, elem_of_seqZ. lia.
Qed.

Lemma lead_bits : 
  (forall h, 0 <= h < 32 -> Z.land (0xc0 + h) 0x1f = h) /\
  (forall h, 0 <= h < 16 -> Z.land (0xe0 + h) 0x0f = h) /\
  (forall h, 0 <= h < 8 -> Z.land (0xf0 + h) 0x07 = h).
Proof.
  assert (H1 : Forall (fun h => Z.land (0xc0 + h) 0x1f = h) (seqZ 0 32)) by (apply (bool_decide_eq_true_1 _); by vm_compute).
  assert (H2 : Forall (fun h => Z.land (0xe0 + h) 0x0f = h) (seqZ 0 16)) by (apply (bool_decide_eq_true_1 _); by vm_compute).
  assert (H3 : Forall (fun h => Z.land (0xf0 + h) 0x07 = h) (seqZ 0 8)) by (apply (bool_decide_eq_true_1 _); by vm_compute).
  rewrite Forall_forall in H1, H2, H3.
  split_and!; intros h Hh; [apply H1|apply H2|apply H3]; apply elem_of_seqZ; lia.
Qed.

(** The next six bits of a code point. *)
Lemma next_bits a d n : 0 <= n -> 0 <= a -> 0 <= d < 64 ->
  Z.lor (Z.shiftl a (6 * n + 6)) (Z.shiftl d (6 * n)) = Z.shiftl (a * 64 + d) (6 * n).
Proof.
  intros Hn Ha Hd. rewrite (Z.add_comm (6 * n)), <- Z.shiftl_shiftl, <- Z.shiftl_lor by lia. f_equal.
  rewrite Z.lor_comm, lor_add by lia. lia.
Qed.

(** Runs the first computations of a sequence. *)
Ltac unbind :=
  cbv beta iota delta [gets modify mbind M_bind mret M_ret outcome_bind]; cbn [fst snd orb andb negb].

(** The same by rewriting. *)
Section runs.
Context {B A C : Type}.
Implicit Types (t : term) (b : B).

Lemma run_gets (f : term -> A) (k : A -> M B C) t b : (gets f ≫= k) t b = k (f t) t b.
Proof. reflexivity. Qed.
Lemma run_modify f (k : () -> M B C) t b : (modify f ≫= k) t b = k () (f t) b.
Proof. reflexivity. Qed.
Lemma run_ret (a : A) (k : A -> M B C) t b : (mret a ≫= k) t b = k a t b.
Proof. reflexivity. Qed.
Lemma run_then (m : M B A) (k : A -> M B C) t b a t' b' : m t b = Ret (a, (t', b')) -> (m ≫= k) t b = k a t' b'.
Proof. intros E. unfold mbind, M_bind. by rewrite E. Qed.
Lemma run_get_cursor_pos `{Backend B} (k : Z * Z -> M B C) t b :
  (get_cursor_pos ≫= k) t b = k (b_get_cursor_pos t b) t b.
Proof. reflexivity. Qed.
End runs.

Ltac run :=
  cbn [orb andb negb];
  repeat (first [rewrite run_gets | rewrite run_modify | rewrite run_ret | rewrite run_get_cursor_pos]; cbv beta iota; cbn [orb andb negb]).

Section utf8.
Context {B : Type} `{Backend B}.
Implicit Types (t : term) (b : B).

(** A byte that is part of a code point is consumed. *)
Lemma consumed_ret (m : M B ()) (k : M B ()) t b :
  (r ← (m ;; mret true); if (r : bool) then mret () else k) t b = m t b.
Proof. unfold mbind, M_bind, mret, M_ret. by destruct (m t b) as [[[] [t' b']]| | |]. Qed.

Lemma putchar_start c t b : discard_next t = false -> unicode_remaining t = 0 -> 0xc2 <= c <= 0xf4 ->
  flanterm_putchar c t b = utf8_start c t b.
Proof.
  intros Hd Hn Hc. unfold flanterm_putchar. unbind. rewrite Hd.
  split_eqb c 0x18; [lia|]. split_eqb c 0x1a; [lia|]. unbind. rewrite Hn. unbind.
  split_leb 0xc2 c; [|lia]. split_leb c 0xf4; [|lia]. done.
Qed.

(** A byte in the middle of a code point. *)
Lemma putchar_middle a d n t b : discard_next t = false -> unicode_remaining t = n + 1 -> 0 < n <= 2 ->
  code_point t = Z.shiftl a (6 * n + 6) -> 0 <= a -> 0 <= d < 64 ->
  let cp := Z.shiftl (a * 64 + d) (6 * n) in
  (n = 1 -> 0x800 <= cp) -> (n = 2 -> 0x10000 <= cp <= 0x10ffff) -> cp < W64 ->
  flanterm_putchar (0x80 + d) t b = Ret ((), (set_code_point cp (set_unicode_remaining n t), b)).
Proof.
  intros Hdn Hn Hn2 Hcp Ha Hd cp H1 H2 H64. destruct (tail_bits d Hd) as [E1 E2].
  unfold flanterm_putchar, utf8_continue. unbind. rewrite Hdn.
  split_eqb (0x80 + d) 0x18; [lia|]. split_eqb (0x80 + d) 0x1a; [lia|]. unbind. rewrite Hn.
  split_eqb (n + 1) 0; [lia|]. unbind. rewrite E1, E2. cbn [Z.eqb Pos.eqb negb]. unbind. rewrite Hn. cbn -[Z.mul Z.add Z.shiftl Z.lor Z.sub]. rewrite Hcp. replace (n + 1 - 1) with n by lia. rewrite next_bits by lia. fold cp.
  assert (0 <= cp) by (subst cp; apply Z.shiftl_nonneg; lia). rewrite (u64_small cp) by lia.
  destruct (_ || _) eqn:Hbad.
  { apply orb_true_iff in Hbad as [[Hb|Hb]%orb_true_iff|Hb]; apply andb_true_iff in Hb as [?%Z.eqb_eq ?%Z.ltb_lt]; lia. }
  split_eqb n 0; [lia|]. done.
Qed.

(** The last byte of a code point. *)
Lemma putchar_last a d t b : discard_next t = false -> unicode_remaining t = 1 ->
  code_point t = Z.shiftl a 6 -> 0 <= a -> 0 <= d < 64 ->
  let cp := a * 64 + d in ~ (0xd800 <= cp <= 0xdfff) -> cp < W64 ->
  flanterm_putchar (0x80 + d) t b = print_code_point cp (set_code_point cp (set_unicode_remaining 0 t)) b.
Proof.
  intros Hdn Hn Hcp Ha Hd cp Hsur H64. destruct (tail_bits d Hd) as [E1 E2].
  unfold flanterm_putchar, utf8_continue. unbind. rewrite Hdn.
  split_eqb (0x80 + d) 0x18; [lia|]. split_eqb (0x80 + d) 0x1a; [lia|]. unbind. rewrite Hn.
  cbn [Z.eqb negb]. unbind. rewrite E1, E2. cbn [Z.eqb Pos.eqb negb]. unbind. rewrite Hn. cbn -[Z.mul Z.add Z.shiftl Z.lor print_code_point]. rewrite Hcp. rewrite (next_bits a d 0 ltac:(lia) Ha Hd : Z.lor (Z.shiftl a 6) (Z.shiftl d (6 * (1 - 1))) = _). rewrite Z.shiftl_0_r. fold cp. rewrite (u64_small cp) by lia.
  change (1 - 1) with 0. cbn [Z.eqb Pos.eqb andb orb negb].
  destruct (_ && _) eqn:Hs. { apply andb_true_iff in Hs as [?%Z.leb_le ?%Z.leb_le]. lia. }
  destruct (print_code_point _ _ _) as [[[] [t' b']]| | |]; done.
Qed.
Lemma putchars_ret c buf t b t' b' : flanterm_putchar c t b = Ret ((), (t', b')) ->
  flanterm_putchars (c :: buf) t b = flanterm_putchars buf t' b'.
Proof. intros E. cbn. unbind. by rewrite E. Qed.

Lemma putchars_last c t b : flanterm_putchars [c] t b = flanterm_putchar c t b.
Proof. cbn. unbind. by destruct (flanterm_putchar c t b) as [[[] [t' b']]| | |]. Qed.

(** The first byte gives the high bits and the number of bytes to come. *)
Lemma putchar_lead n h t b : discard_next t = false -> unicode_remaining t = 0 ->
  (n = 1 /\ 2 <= h < 32 \/ n = 2 /\ 0 <= h < 16 \/ n = 3 /\ 0 <= h <= 4) ->
  flanterm_putchar ((if n =? 1 then 0xc0 else if n =? 2 then 0xe0 else 0xf0) + h) t b
  = Ret ((), (set_code_point (Z.shiftl h (6 * n)) (set_unicode_remaining n (set_g_select 0 t)), b)).
Proof.
  intros Hd Hn Hc. destruct lead_bits as (L2 & L3 & L4).
  destruct Hc as [[-> Hh]|[[-> Hh]|[-> Hh]]]; cbn [Z.eqb Pos.eqb]; rewrite putchar_start by (done || lia); unfold utf8_start; unbind.
  - split_leb (0xc0 + h) 0xdf; [|lia]. unbind. by rewrite L2 by lia.
  - split_leb (0xe0 + h) 0xdf; [lia|]. split_leb (0xe0 + h) 0xef; [|lia]. unbind. by rewrite L3 by lia.
  - split_leb (0xf0 + h) 0xdf; [lia|]. split_leb (0xf0 + h) 0xef; [lia|]. unbind. by rewrite L4 by lia.
Qed.

(** A number in base 64. *)
Lemma sextets cp : 0 <= cp ->
  cp / 64 * 64 + cp `mod` 64 = cp /\ cp / 4096 * 64 + (cp / 64) `mod` 64 = cp / 64 /\
  cp / 262144 * 64 + (cp / 4096) `mod` 64 = cp / 4096 /\ 0 <= cp / 262144 /\
  0 <= cp `mod` 64 < 64 /\ 0 <= (cp / 64) `mod` 64 < 64 /\ 0 <= (cp / 4096) `mod` 64 < 64.
Proof.
  intros Hcp. replace (cp / 262144) with (cp / 4096 / 64) by (rewrite Z.div_div by lia; done).
  replace (cp / 4096) with (cp / 64 / 64) by (rewrite Z.div_div by lia; done).
  pose proof (Z.div_mod cp 64 ltac:(lia)). pose proof (Z.div_mod (cp / 64) 64 ltac:(lia)).
  pose proof (Z.div_mod (cp / 64 / 64) 64 ltac:(lia)).
  split_and!; try lia; try (apply Z.mod_pos_bound; lia). repeat apply Z.div_pos; lia.
Qed.

(** A code point of more than one byte, written as its UTF-8 bytes, is read whole. *)
Lemma utf8_decodes cp t b : 0x80 <= cp <= 0x10ffff -> ~ (0xd800 <= cp <= 0xdfff) ->
  discard_next t = false -> unicode_remaining t = 0 ->
  flanterm_putchars (utf8 cp) t b
  = print_code_point cp (set_code_point cp (set_unicode_remaining 0 (set_g_select 0 t))) b.
Proof.
  intros Hcp Hs Hd Hn. destruct (sextets cp) as (S1 & S2 & S3 & S4 & ?); [lia|].
  unfold utf8. split_ltb cp 0x800; [|split_ltb cp 0x10000].
  - rewrite (putchars_ret _ _ _ _ _ _ (putchar_lead 1 (cp / 64) t b Hd Hn ltac:(lia))), putchars_last.
    rewrite (putchar_last (cp / 64)) by (done || lia). by rewrite S1.
  - rewrite (putchars_ret _ _ _ _ _ _ (putchar_lead 2 (cp / 4096) t b Hd Hn ltac:(lia))).
    erewrite putchars_ret by (eapply (putchar_middle (cp / 4096) _ 1); (done || rewrite ?Z.shiftl_mul_pow2 by lia; lia)).
    rewrite putchars_last, S2, (putchar_last (cp / 64)) by (done || lia). by rewrite S1.
  - rewrite (putchars_ret _ _ _ _ _ _ (putchar_lead 3 (cp / 262144) t b Hd Hn ltac:(lia))).
    erewrite putchars_ret by (eapply (putchar_middle (cp / 262144) _ 2); (done || rewrite ?Z.shiftl_mul_pow2 by lia; lia)).
    rewrite S3.
    erewrite putchars_ret by (eapply (putchar_middle (cp / 4096) _ 1); (done || rewrite ?Z.shiftl_mul_pow2 by lia; lia)).
    rewrite putchars_last, S2, (putchar_last (cp / 64)) by (done || lia). by rewrite S1.
Qed.
End utf8.

(** A terminal of 25 lines of 80 columns. *)
Definition wide_term : term :=
  flanterm_context_reinit (Term 0 false false false false false false false false false 0 (replicate 256 0) false false false
    false false false false false 0 0 0 [0; 0] 0 0 0 0 0 0 0 0 0 (replicate 16 0) 0 false false false false false false 0 [0; 0] 0 0 25 80 0).

Definition empty_screen : screen :=
  Screen {| font_width := 8; font_height := 16; glyph_width := 8; glyph_height := 16; font_scale_x := 1; font_scale_y := 1;
      offset_x := 0; offset_y := 0; pitch := 2560; width := 640; height := 400; phys_height := 400; rotation := 0;
      red_mask_size := 8; red_mask_shift := 16; green_mask_size := 8; green_mask_shift := 8; blue_mask_size := 8; blue_mask_shift := 0;
      font_bool := []; ansi_colours := replicate 8 0; ansi_bright_colours := replicate 8 0;
      default_fg := 1; default_bg := 0; default_fg_bright := 1; default_bg_bright := 0; canvas := None |}
    (replicate 2000 (Char 32 1 0)) 1 0 0 0 0 0 0 0 [].

(** *** Printing on the screen *)

(** The last glyph that was printed for a character is remembered for the repeat sequence. *)
Definition remembered (gs : list Z) (t : term) : term :=
  match gs with [] => t | g :: _ => set_last_was_graphic true (set_last_printed_char g t) end.

Definition put_glyphs (t : term) (gs : list Z) (s : screen) : screen := foldl (fun s g => s_put t g s) s gs.

Lemma put_blanks n t s : repeatM n (raw_putchar (ch " ")) t s = Ret ((), (t, put_glyphs t (replicate n 32) s)).
Proof. revert s. induction n as [|n IH]; intros s; [done|]. cbn [repeatM]. erewrite run_then by reflexivity. apply IH. Qed.

Lemma byte_small g : 0 <= g < 256 -> u8 g = g.
Proof. intros Hg. unfold u8. by apply Z.mod_small. Qed.

Lemma print_screen g t s : print g t s = Ret ((), (set_last_was_graphic true (set_last_printed_char g t), s_put t g s)).
Proof. unfold print. unbind. done. Qed.

Lemma print_code_point_screen cp t s : 0 <= cp < W32 ->
  print_code_point cp t s = Ret ((), (remembered (glyphs cp) t, put_glyphs t (glyphs cp) s)).
Proof.
  intros Hcp. unfold print_code_point, glyphs. destruct (switch code_page_437 cp) as [g|] eqn:Eg.
  - destruct (code_page_translated cp g Eg) as [-> Hg]. split_eqb g (-1); [lia|]. rewrite byte_small by lia. apply print_screen.
  - pose proof (unicode_to_cp437_range cp) as Hr. assert (Hb : (0x2800 <=? cp) && (cp <=? 0x28ff) = true ->
      unicode_to_cp437 cp = braille_spec (cp - 0x2800) /\ 0 <= unicode_to_cp437 cp).
    { intros Hb. pose proof Hb as [H1%Z.leb_le H2%Z.leb_le]%andb_true_iff. unfold unicode_to_cp437. rewrite Hb, braille_shades by lia.
      split; [done|]. unfold braille_spec. cbv zeta. repeat case_match; lia. }
    destruct (_ && _); [destruct (Hb eq_refl) as [<- H0]|destruct (Z.leb_spec 0 (unicode_to_cp437 cp)) as [H0|H0]].
    1,2: split_eqb (unicode_to_cp437 cp) (-1); [lia|]; rewrite byte_small by lia; apply print_screen.
    split_eqb (unicode_to_cp437 cp) (-1); [|lia]. rewrite u32_small, wcwidth_eq by lia.
    erewrite (run_then (lift _)) by reflexivity. unfold blanks, when. split_ltb 0 (TermTables.width cp).
    + rewrite (run_then _ _ _ _ _ _ _ (print_screen _ _ _)), put_blanks. done.
    + rewrite (run_then (mret ()) _ t s () t s eq_refl), put_blanks. by replace (Z.to_nat (TermTables.width cp - 1)) with 0%nat by lia.
Qed.



(** Control sequences: parameters written in decimal are the parameters the command runs
    with, the missing ones by default; with the position of the cursor as an example. *)

(** The bytes of a control sequence. *)
Fixpoint params (ps : list Z) : list Z :=
  match ps with [] => [] | [p] => dec p | p :: ps => dec p ++ ch ";" :: params ps end.
Definition csi (ps : list Z) (c : Z) : list Z := 0x1b :: ch "[" :: params ps ++ [c].

(** The value of a parameter that is not given. *)
Definition default_param (c : Z) : Z :=
  if (c =? ch "J") || (c =? ch "K") || (c =? ch "q") || (c =? ch "m") || (c =? ch "c") || (c =? ch "]") then 0 else 1.

(** The 16 parameters the command [c] runs with. *)
Definition parameters (c : Z) (ps : list Z) : list Z :=
  map (fun p => if p =? 0 then default_param c else p) ps ++ replicate (16 - length ps) (default_param c).

(** Outside any sequence. *)
Record at_rest (t : term) : Prop := {
  ar_discard : discard_next t = false;
  ar_unicode : unicode_remaining t = 0;
  ar_escape : escape t = false /\ osc t = false /\ control_sequence t = false;
  ar_select : g_select t = 0;
  ar_private : dec_private t = false;
  ar_values : length (esc_values t) = 16%nat
}.

(** Inside a control sequence: the parameters so far, the index of the current one, and
    whether it has a digit. *)
Definition reading (t : term) (vs : list Z) (k : Z) (rr : bool) (off : Z) : term :=
  set_escape_offset off $ set_esc_values_i k $ set_rrr rr $ set_esc_values vs $
  set_csi_unhandled false $ set_control_sequence true $ set_escape true t.

Section csi.
Context {B : Type} `{Backend B}.
Implicit Types (t : term) (b : B).

(** ** The array of parameters *)

Lemma set_values_same t : set_esc_values (esc_values t) t = t.
Proof. by destruct t. Qed.

Lemma esc_value_at t b l1 v l2 k : k = Z.of_nat (length l1) -> esc_values t = l1 ++ v :: l2 ->
  esc_value k t b = Ret (v, (t, b)).
Proof.
  intros -> E. unfold esc_value, lift. unbind. rewrite E, Nat2Z.id.
  by rewrite (get_lookup _ _ v) by by rewrite list_lookup_middle.
Qed.

Lemma set_esc_value_at t b l1 v l2 k w : k = Z.of_nat (length l1) -> esc_values t = l1 ++ v :: l2 ->
  set_esc_value k w t b = Ret ((), (set_esc_values (l1 ++ w :: l2) t, b)).
Proof.
  intros -> E. unfold set_esc_value, lift. unbind. rewrite E, Nat2Z.id.
  rewrite put_lt by (rewrite length_app; cbn; lia). unbind.
  by rewrite insert_app_r_alt, Nat.sub_diag by lia.
Qed.

Lemma fill t b l1 l2 v lo : lo = Z.of_nat (length l1) -> esc_values t = l1 ++ l2 ->
  for_from (length l2) lo (fun i => set_esc_value i v) t b
  = Ret ((), (set_esc_values (l1 ++ replicate (length l2) v) t, b)).
Proof.
  revert t l1 lo. induction l2 as [|w l2 IH]; intros t l1 lo Hlo E; cbn.
  { unbind. rewrite <- E, set_values_same. done. }
  unbind. rewrite (set_esc_value_at t b l1 w l2) by done. unbind.
  rewrite (IH _ (l1 ++ [v])); [|rewrite length_app; cbn; lia|by rewrite <- app_assoc].
  by rewrite <- app_assoc.
Qed.

Lemma fill_zero t b l1 l2 l3 v lo : lo = Z.of_nat (length l1) -> esc_values t = l1 ++ l2 ++ l3 ->
  for_from (length l2) lo (fun i => w ← esc_value i; when (w =? 0) (set_esc_value i v)) t b
  = Ret ((), (set_esc_values (l1 ++ map (fun w => if w =? 0 then v else w) l2 ++ l3) t, b)).
Proof.
  revert t l1 lo. induction l2 as [|w l2 IH]; intros t l1 lo Hlo E; cbn.
  { unbind. cbn in E. rewrite <- E, set_values_same. done. }
  unbind. rewrite (esc_value_at t b l1 w (l2 ++ l3)) by done. unbind.
  assert (Hw : when (w =? 0) (set_esc_value lo v) t b
    = Ret ((), (set_esc_values (l1 ++ (if w =? 0 then v else w) :: l2 ++ l3) t, b))).
  { unfold when. destruct (w =? 0); [by apply (set_esc_value_at t b l1 w)|]. unbind. cbn in E. by rewrite <- E, set_values_same. }
  rewrite Hw. unbind. rewrite (IH _ (l1 ++ [if w =? 0 then v else w])); [|rewrite length_app; cbn; lia|by rewrite <- app_assoc].
  by rewrite <- app_assoc.
Qed.

Lemma map_zero l : map (fun p => if p =? 0 then 0 else p) l = l.
Proof. induction l as [|p l IH]; [done|]. cbn. rewrite IH. split_eqb p 0; by subst. Qed.

Lemma csi_defaults_spec c t b ps rest : esc_values t = ps ++ rest -> esc_values_i t = Z.of_nat (length ps) ->
  (length ps + length rest = 16)%nat ->
  csi_defaults c t b = Ret ((), (set_esc_values (parameters c ps) t, b)).
Proof.
  intros E Ei Hl. unfold csi_defaults, for_range, FLANTERM_MAX_ESC_VALUES. unbind. rewrite Ei.
  fold (default_param c). replace (Z.to_nat (16 - Z.of_nat (length ps))) with (length rest) by lia.
  rewrite (fill t b ps rest) by done. unbind. rewrite Z.sub_0_r, Nat2Z.id.
  unfold parameters. replace (16 - length ps)%nat with (length rest) by lia.
  unfold when. split_eqb (default_param c) 0; cbn [negb].
  - unbind. rewrite E0. rewrite map_zero. done.
  - exact (fill_zero (set_esc_values _ t) b [] ps (replicate (length rest) (default_param c)) (default_param c) 0 eq_refl eq_refl).
Qed.

(** ** The bytes of a sequence *)

Lemma reading_offset t vs k rr off o : set_escape_offset o (reading t vs k rr off) = reading t vs k rr o.
Proof. vm_compute. reflexivity. Qed.

Lemma reading_set_rrr t vs k rr off r : set_rrr r (reading t vs k rr off) = reading t vs k r off.
Proof. vm_compute. reflexivity. Qed.
Lemma reading_set_values t vs k rr off l : set_esc_values l (reading t vs k rr off) = reading t l k rr off.
Proof. vm_compute. reflexivity. Qed.
Lemma reading_set_values_i t vs k rr off i : set_esc_values_i i (reading t vs k rr off) = reading t vs i rr off.
Proof. vm_compute. reflexivity. Qed.

Lemma reading_private t vs k rr off : dec_private (reading t vs k rr off) = dec_private t.
Proof. reflexivity. Qed.
Lemma reading_unhandled t vs k rr off : csi_unhandled (reading t vs k rr off) = false.
Proof. reflexivity. Qed.
Lemma reading_discard t vs k rr off : discard_next (reading t vs k rr off) = discard_next t.
Proof. reflexivity. Qed.
Lemma reading_unicode t vs k rr off : unicode_remaining (reading t vs k rr off) = unicode_remaining t.
Proof. reflexivity. Qed.
Lemma reading_escape t vs k rr off : escape (reading t vs k rr off) = true.
Proof. reflexivity. Qed.
Lemma reading_osc t vs k rr off : osc (reading t vs k rr off) = osc t.
Proof. reflexivity. Qed.
Lemma reading_control_sequence t vs k rr off : control_sequence (reading t vs k rr off) = true.
Proof. reflexivity. Qed.
Lemma reading_escape_offset t vs k rr off : escape_offset (reading t vs k rr off) = off.
Proof. reflexivity. Qed.
Lemma reading_values_i t vs k rr off : esc_values_i (reading t vs k rr off) = k.
Proof. reflexivity. Qed.
Lemma reading_values t vs k rr off : esc_values (reading t vs k rr off) = vs.
Proof. reflexivity. Qed.
Lemma reading_rrr t vs k rr off : rrr (reading t vs k rr off) = rr.
Proof. reflexivity. Qed.

Ltac at_reading :=
  rewrite ?reading_offset, ?reading_discard, ?reading_unicode, ?reading_escape, ?reading_osc, ?reading_control_sequence,
    ?reading_escape_offset, ?reading_values_i, ?reading_values, ?reading_rrr.

Lemma putchar_reading c t vs k rr off b : discard_next t = false -> unicode_remaining t = 0 -> osc t = false ->
  0x20 <= c < 0x80 ->
  flanterm_putchar c (reading t vs k rr off) b = control_sequence_parse c (reading t vs k rr (u64 (off + 1))) b.
Proof.
  intros Hd Hu Ho Hc. unfold flanterm_putchar. run. rewrite reading_discard, Hd.
  split_eqb c 0x18; [lia|]. split_eqb c 0x1a; [lia|]. run. rewrite reading_unicode, Hu. cbn [Z.eqb]. run.
  split_leb 0xc2 c; [lia|]. run. rewrite reading_escape. unfold escape_parse. run.
  at_reading. rewrite Ho. run. at_reading. done.
Qed.

Lemma digit_char c : is_digit 10 c -> 48 <= c <= 57 /\ digit_to_int c = c - 48.
Proof.
  unfold is_digit, digit_to_int. repeat case_match; rewrite ?andb_true_iff, ?andb_false_iff, ?Z.leb_le, ?Z.leb_gt in *; lia.
Qed.

Lemma digit_step c t l1 v l2 rr off b : discard_next t = false -> unicode_remaining t = 0 -> osc t = false ->
  is_digit 10 c -> (length l1 < 16)%nat -> 0 <= v -> v * 10 + digit_to_int c < W32 ->
  let k := Z.of_nat (length l1) in
  flanterm_putchar c (reading t (l1 ++ v :: l2) k rr off) b
  = Ret ((), (reading t (l1 ++ v * 10 + digit_to_int c :: l2) k true (u64 (off + 1)), b)).
Proof.
  intros Hd Hu Ho Hc Hl Hv Hw k. destruct (digit_char c Hc) as [Hr Ec]. rewrite Ec in *.
  rewrite putchar_reading by (done || lia). unfold control_sequence_parse. run.
  assert (Hbr : (c =? ch "[") = false) by (change (ch "[") with 91; lia).
  assert (Hqu : (c =? ch "?") = false) by (change (ch "?") with 63; lia). rewrite Hbr, Hqu, !andb_false_r.
  split_ltb c 0x20; [lia|]. run.
  assert (Hdig : (ch "0" <=? c) && (c <=? ch "9") = true) by (change (ch "0") with 48; change (ch "9") with 57; lia).
  rewrite Hdig. unfold csi_digit. run. at_reading.
  unfold FLANTERM_MAX_ESC_VALUES. assert ((k =? 16) = false) as -> by (subst k; lia). run. rewrite reading_set_rrr.
  erewrite run_then by (by apply (esc_value_at _ b l1 v l2)).
  change ((W32 - 1) / 10) with 429496729. split_ltb 429496729 v; [lia|].
  rewrite (set_esc_value_at _ b l1 v l2), reading_set_values by done. unfold u32. change (ch "0") with 48.
  by rewrite (Z.mod_small (v * 10)), Z.mod_small by lia.
Qed.

(** The digits of a parameter. *)
Lemma digits_step ds t l1 v l2 rr off b rest : discard_next t = false -> unicode_remaining t = 0 -> osc t = false ->
  Forall (is_digit 10) ds -> (length l1 < 16)%nat -> 0 <= v -> number 10 v ds < W32 ->
  let k := Z.of_nat (length l1) in
  exists off', flanterm_putchars (ds ++ rest) (reading t (l1 ++ v :: l2) k rr off) b
  = flanterm_putchars rest (reading t (l1 ++ number 10 v ds :: l2) k (rr || negb (length ds =? 0)%nat) off') b.
Proof.
  intros Hd Hu Ho Hds Hl Hv Hn k. subst k. revert v rr off Hv Hn. induction Hds as [|c ds Hc Hds IH]; intros v rr off Hv Hn.
  { exists off. by rewrite orb_false_r. }
  pose proof (digit_char c Hc) as [? Ec]. cbn [number fold_left] in Hn. fold (number 10 (v * 10 + digit_to_int c) ds) in Hn.
  pose proof (number_le 10 (v * 10 + digit_to_int c) ds ltac:(lia) ltac:(lia) Hds).
  destruct (IH (v * 10 + digit_to_int c) true (u64 (off + 1)) ltac:(lia) Hn) as [off' E].
  exists off'. cbn [app]. rewrite (putchars_ret _ _ _ _ _ _ (digit_step c t l1 v l2 rr off b Hd Hu Ho Hc Hl Hv ltac:(lia))), E.
  by rewrite orb_true_r.
Qed.

Lemma param_step p t l1 l2 off b rest : discard_next t = false -> unicode_remaining t = 0 -> osc t = false ->
  (length l1 < 16)%nat -> 0 <= p < W32 ->
  let k := Z.of_nat (length l1) in
  exists off', flanterm_putchars (dec p ++ rest) (reading t (l1 ++ 0 :: l2) k false off) b
  = flanterm_putchars rest (reading t (l1 ++ p :: l2) k true off') b.
Proof.
  intros Hd Hu Ho Hl Hp k. subst k. destruct (dec_loop_spec 20 p []) as (ds & Ed & Hne & Hds & Hnum); [lia..|].
  unfold dec. rewrite Ed, app_nil_r.
  destruct (digits_step ds t l1 0 l2 false off b rest Hd Hu Ho Hds Hl ltac:(lia) ltac:(lia)) as [off' E].
  exists off'. rewrite E, Hnum. by destruct ds.
Qed.

Lemma end_param t vs k rr off b :
  when rr (modify (set_esc_values_i (k + 1)) ;; modify (set_rrr false)) (reading t vs k rr off) b
  = Ret ((), (reading t vs (if rr then k + 1 else k) false off, b)).
Proof.
  destruct rr; [|done]. unfold when. run. rewrite reading_set_values_i. unfold modify. by rewrite reading_set_rrr.
Qed.

Lemma semicolon_step t vs k off b : discard_next t = false -> unicode_remaining t = 0 -> osc t = false ->
  flanterm_putchar (ch ";") (reading t vs k true off) b = Ret ((), (reading t vs (k + 1) false (u64 (off + 1)), b)).
Proof.
  intros Hd Hu Ho. rewrite putchar_reading by (done || (change (ch ";") with 59; lia)). unfold control_sequence_parse. run.
  change (ch ";" =? ch "[") with false. change (ch ";" =? ch "?") with false. rewrite !andb_false_r.
  change ((ch ";" <? 32) && negb (ch ";" =? 27)) with false. change ((ch "0" <=? ch ";") && (ch ";" <=? ch "9")) with false.
  run. at_reading. erewrite run_then by apply end_param. done.
Qed.

(** The command of a sequence whose parameters are read. *)
Definition csi_command (c : Z) : M B () :=
  r ← gets scroll_enabled;
  modify (set_scroll_enabled false) ;;
  '(x, y) ← get_cursor_pos;
  fin ← csi_dispatch c r x y;
  when fin (modify (set_scroll_enabled r) ;; csi_cleanup).

Lemma final_step c t ps rest k (rr : bool) off b : discard_next t = false -> unicode_remaining t = 0 -> osc t = false ->
  dec_private t = false -> 0x40 <= c <= 0x7e -> c <> ch "[" ->
  (if rr then k + 1 else k) = Z.of_nat (length ps) -> (length ps + length rest = 16)%nat ->
  flanterm_putchar c (reading t (ps ++ rest) k rr off) b
  = csi_command c (reading t (parameters c ps) (Z.of_nat (length ps)) false (u64 (off + 1))) b.
Proof.
  intros Hd Hu Ho Hp Hc Hbr Hk Hl. rewrite putchar_reading by (done || lia). unfold control_sequence_parse. run.
  split_eqb c (ch "["); [done|]. assert (Hqu : (c =? ch "?") = false) by (change (ch "?") with 63; lia).
  rewrite Hqu, !andb_false_r. split_ltb c 0x20; [lia|]. run.
  assert (Hdig : (c <=? ch "9") = false) by (change (ch "9") with 57; lia). rewrite Hdig, andb_false_r. run. at_reading.
  erewrite run_then by apply end_param. assert (Hse : (c =? ch ";") = false) by (change (ch ";") with 59; lia).
  rewrite Hse, Hk. erewrite run_then by (by apply (csi_defaults_spec c _ b ps rest)).
  rewrite reading_set_values. run. by rewrite reading_private, reading_unhandled, Hp.
Qed.

(** All the parameters and the command. *)
Lemma params_step ps : forall c t l1 off b, discard_next t = false -> unicode_remaining t = 0 -> osc t = false ->
  dec_private t = false -> 0x40 <= c <= 0x7e -> c <> ch "[" ->
  (length l1 + length ps <= 16)%nat -> Forall (fun p => 0 <= p < W32) ps -> ps <> [] ->
  exists off', flanterm_putchars (params ps ++ [c]) (reading t (l1 ++ replicate (16 - length l1) 0) (Z.of_nat (length l1)) false off) b
  = csi_command c (reading t (parameters c (l1 ++ ps)) (Z.of_nat (length (l1 ++ ps))) false off') b.
Proof.
  induction ps as [|p ps IH]; intros c t l1 off b Hd Hu Ho Hp Hc Hbr Hl Hps Hne; [done|].
  inversion Hps as [|? ? Hp0 Hps']; subst. cbn [length] in Hl.
  replace (16 - length l1)%nat with (S (15 - length l1)) by lia. cbn [replicate].
  destruct ps as [|p' ps'].
  - destruct (param_step p t l1 (replicate (15 - length l1) 0) off b [c] Hd Hu Ho ltac:(lia) Hp0) as [off' E].
    cbn [params]. rewrite E, putchars_last. eexists.
    rewrite (cons_middle p), app_assoc, (final_step c t (l1 ++ [p])); try done.
    + rewrite length_app. cbn. lia.
    + rewrite length_app, length_replicate. cbn. lia.
  - change (params (p :: p' :: ps')) with (dec p ++ ch ";" :: params (p' :: ps')). rewrite <- app_assoc.
    destruct (param_step p t l1 (replicate (15 - length l1) 0) off b ((ch ";" :: params (p' :: ps')) ++ [c]) Hd Hu Ho ltac:(lia) Hp0) as [off' E].
    rewrite E. cbn [app]. rewrite (putchars_ret _ _ _ _ _ _ (semicolon_step t _ _ off' b Hd Hu Ho)).
    destruct (IH c t (l1 ++ [p]) (u64 (off' + 1)) b) as [off'' E'']; try done.
    { rewrite length_app. cbn in *. lia. }
    exists off''. replace (l1 ++ p :: p' :: ps') with ((l1 ++ [p]) ++ p' :: ps') by (by rewrite <- app_assoc). rewrite <- E''.
    rewrite length_app. cbn [length]. replace (16 - (length l1 + 1))%nat with (15 - length l1)%nat by lia.
    rewrite <- app_assoc. by replace (Z.of_nat (length l1 + 1)) with (Z.of_nat (length l1) + 1) by lia.
Qed.

(** The start of a sequence. *)
Lemma putchar_escape t b : at_rest t ->
  flanterm_putchar 0x1b t b = Ret ((), (set_escape true (set_escape_offset 0 t), b)).
Proof.
  intros [Hd Hu (He & _ & _) Hg _ _]. unfold flanterm_putchar. run. rewrite Hd. cbn [Z.eqb Pos.eqb]. run. rewrite Hu. cbn [Z.eqb]. run.
  cbn [Z.leb Z.compare Pos.compare Pos.compare_cont]. run. rewrite He. run. rewrite Hg. cbn [Z.eqb]. run.
  unfold ground. change ((0x1b <=? 0x1f) && negb (0x1b =? 0x1b) || (0x1b =? 0x7f)) with false.
  rewrite (run_then (when false _) _ t b () t b eq_refl). run. destruct (b_get_cursor_pos t b) as [x y]. run. done.
Qed.

Lemma putchar_bracket t b : at_rest t ->
  flanterm_putchar (ch "[") (set_escape true (set_escape_offset 0 t)) b = Ret ((), (reading t (replicate 16 0) 0 false 1, b)).
Proof.
  intros [Hd Hu (He & Ho & Hcs) Hg _ Hv]. unfold flanterm_putchar. run.
  change (discard_next (set_escape true (set_escape_offset 0 t))) with (discard_next t). rewrite Hd.
  change ((ch "[" =? 24)) with false. change ((ch "[" =? 26)) with false. run.
  change (unicode_remaining (set_escape true (set_escape_offset 0 t))) with (unicode_remaining t). rewrite Hu. cbn [Z.eqb]. run.
  change (0xc2 <=? ch "[") with false. run. change (escape (set_escape true (set_escape_offset 0 t))) with true. cbv iota.
  unfold escape_parse. run. change (escape_offset (set_escape true (set_escape_offset 0 t))) with 0. change (u64 (0 + 1)) with 1.
  set (t1 := set_escape_offset 1 _). change (osc t1) with (osc t). rewrite Ho. run.
  change (control_sequence t1) with (control_sequence t). rewrite Hcs. run.
  destruct (b_get_cursor_pos t1 b) as [x y]. unfold escape_dispatch. run.
  change (ch "[" =? 0x1b) with false. change (ch "[" =? ch "]") with false. change (ch "[" =? ch "[") with true. run.
  assert (Hf : for_range 0 FLANTERM_MAX_ESC_VALUES (fun i => set_esc_value i 0) t1 b
    = Ret ((), (set_esc_values (replicate 16 0) t1, b))).
  { unfold for_range. change (Z.to_nat (FLANTERM_MAX_ESC_VALUES - 0)) with 16%nat. rewrite <- Hv. exact (fill t1 b [] (esc_values t) 0 0 eq_refl eq_refl). }
  unfold when. unbind. rewrite Hf. subst t1. vm_compute. reflexivity.
Qed.

(** Outside any sequence, [ESC \[], up to 16 parameters in decimal and a final byte run the
    command of that byte with those parameters: the ones not given, and the ones given as 0
    where the default is not 0, have their default. *)
Lemma csi_parses c ps t b : at_rest t -> 0x40 <= c <= 0x7e -> c <> ch "[" -> (length ps <= 16)%nat ->
  Forall (fun p => 0 <= p < W32) ps ->
  exists off, flanterm_putchars (csi ps c) t b = csi_command c (reading t (parameters c ps) (Z.of_nat (length ps)) false off) b.
Proof.
  intros Ht Hc Hbr Hl Hps. unfold csi.
  rewrite (putchars_ret _ _ _ _ _ _ (putchar_escape t b Ht)), (putchars_ret _ _ _ _ _ _ (putchar_bracket t b Ht)).
  destruct Ht as [Hd Hu (He & Ho & Hcs) Hg Hp Hv]. destruct ps as [|p ps].
  - cbn [params app]. rewrite putchars_last. eexists. by apply (final_step c t [] (replicate 16 0)).
  - by apply (params_step (p :: ps) c t []).
Qed.

(** ** The position of the cursor *)

Lemma reading_scroll t vs k rr off r : set_scroll_enabled r (reading t vs k rr off) = reading (set_scroll_enabled r t) vs k rr off.
Proof. vm_compute. reflexivity. Qed.

Lemma decrement_reading t l1 v l2 n rr off b k : k = Z.of_nat (length l1) ->
  esc_decrement k (reading t (l1 ++ v :: l2) n rr off) b
  = Ret ((), (reading t (l1 ++ (if v =? 0 then v else v - 1) :: l2) n rr off, b)).
Proof.
  intros Hk. unfold esc_decrement. erewrite run_then by (by apply (esc_value_at _ b l1 v l2)).
  unfold when. split_eqb v 0; cbn [negb]; [done|]. by rewrite (set_esc_value_at _ b l1 v l2), reading_set_values.
Qed.

Lemma clamp_reading t l1 v l2 n rr off b k max : k = Z.of_nat (length l1) -> 0 < max < 0x80000000 ->
  esc_clamp k max (reading t (l1 ++ v :: l2) n rr off) b
  = Ret ((), (reading t (l1 ++ Z.min v (max - 1) :: l2) n rr off, b)).
Proof.
  intros Hk Hm. unfold esc_clamp. erewrite run_then by (by apply (esc_value_at _ b l1 v l2)).
  unfold when. split_leb max v.
  - rewrite (set_esc_value_at _ b l1 v l2), reading_set_values by done. unfold u32, u64.
    rewrite (Z.mod_small (max - 1)), Z.mod_small, Z.min_r by lia. done.
  - by rewrite Z.min_l by lia.
Qed.
End csi.

(** The lines a row counts, and the first of them. *)
Definition row_lines (t : term) : Z := if origin_mode t then scroll_bottom_margin t - scroll_top_margin t else rows t.
Definition row_first (t : term) : Z := if origin_mode t then scroll_top_margin t else 0.

(** A parameter counted from 1, of at most [n]. *)
Definition counted (p n : Z) : Z := Z.min (Z.max p 1) n - 1.

(** A context after a sequence: only what was read of it has changed. *)
Definition after_sequence (t : term) (vs : list Z) (n off : Z) : term :=
  set_escape false (set_control_sequence false (reading t vs n false off)).

Lemma row_base_reading {B} t vs n rr off (b : B) : geometry t ->
  row_base (reading t vs n rr off) b = Ret ((row_lines t, row_first t), (reading t vs n rr off, b)).
Proof.
  intros [Hr Hc Hm]. unfold row_base, row_lines, row_first. run.
  change (origin_mode (reading t vs n rr off)) with (origin_mode t). destruct (origin_mode t); [|done].
  change (scroll_bottom_margin (reading t vs n rr off)) with (scroll_bottom_margin t).
  change (scroll_top_margin (reading t vs n rr off)) with (scroll_top_margin t). by rewrite u64_small by lia.
Qed.

Lemma csi_position_spec t r c rest n off s : geometry t -> 0 < r -> 0 < c ->
  csi_position (reading t (r :: c :: rest) n false off) s
  = Ret ((), (reading t (counted r (row_lines t) :: counted c (cols t) :: rest) n false off,
              s_cursor (counted c (cols t)) (row_first t + counted r (row_lines t)) s)).
Proof.
  intros Hg Hr Hc. pose proof Hg as [Hrows Hcols Hm]. unfold csi_position.
  erewrite (run_then (esc_decrement 0)) by exact (decrement_reading t [] r (c :: rest) n false off s 0 eq_refl).
  erewrite (run_then (esc_decrement 1)) by exact (decrement_reading t [_] c rest n false off s 1 eq_refl).
  erewrite (run_then row_base) by exact (row_base_reading t _ n false off s Hg). run.
  change (cols (reading t _ n false off)) with (cols t).
  erewrite (run_then (esc_clamp 1 _)) by exact (clamp_reading t [_] _ rest n false off s 1 (cols t) eq_refl ltac:(lia)).
  assert (Hl : 0 < row_lines t < 0x80000000) by (unfold row_lines; destruct (origin_mode t); lia).
  erewrite (run_then (esc_clamp 0 _)) by exact (clamp_reading t [] _ (_ :: rest) n false off s 0 (row_lines t) eq_refl Hl).
  erewrite (run_then (esc_value 1)) by refine (esc_value_at _ s [_] _ rest 1 eq_refl (reading_values _ _ _ _ _)).
  erewrite (run_then (esc_value 0)) by refine (esc_value_at _ s [] _ (_ :: rest) 0 eq_refl (reading_values _ _ _ _ _)).
  split_eqb r 0; [lia|]. split_eqb c 0; [lia|].
  replace (Z.min (r - 1) (row_lines t - 1)) with (counted r (row_lines t)) by (unfold counted; lia).
  replace (Z.min (c - 1) (cols t - 1)) with (counted c (cols t)) by (unfold counted; lia).
  unfold set_cursor_pos, call. cbn [b_set_cursor_pos screen_backend mbind outcome_bind app].
  change (cols (reading t _ n false off)) with (cols t). change (rows (reading t _ n false off)) with (rows t).
  assert (Hcr : counted r (row_lines t) + row_first t < rows t)
    by (unfold counted, row_lines, row_first; destruct (origin_mode t); lia).
  unfold clamp. split_leb (cols t) (counted c (cols t)); [unfold counted in *; lia|].
  split_leb (rows t) (counted r (row_lines t) + row_first t); [lia|]. by rewrite (Z.add_comm (row_first t)).
Qed.

Lemma after_at_rest t vs n off : at_rest t -> length vs = 16%nat -> at_rest (after_sequence t vs n off).
Proof. intros [Hd Hu (He & Ho & Hcs) Hg Hp Hv] Hvs. by repeat split. Qed.

Lemma command_position t vs n off (s s' : screen) vs' :
  csi_position (reading (set_scroll_enabled false t) vs n false off) s
  = Ret ((), (reading (set_scroll_enabled false t) vs' n false off, s')) ->
  csi_command (ch "H") (reading t vs n false off) s = Ret ((), (after_sequence t vs' n off, s')).
Proof.
  intros E. unfold csi_command. run. change (scroll_enabled (reading t vs n false off)) with (scroll_enabled t).
  rewrite reading_scroll. destruct (b_get_cursor_pos _ s) as [x y].
  change (csi_dispatch (ch "H") (scroll_enabled t) x y) with ((csi_position : M screen ()) ;; mret true).
  erewrite run_then by (erewrite run_then by exact E; reflexivity).
  unfold when. run. rewrite reading_scroll.
  replace (set_scroll_enabled (scroll_enabled t) (set_scroll_enabled false t)) with t by by destruct t. done.
Qed.


Lemma wide_term_ok : at_rest wide_term /\ geometry wide_term.
Proof. split; split; by vm_compute. Qed.

