(* ===== verification/FbRefine.v ===== *)
(** * The framebuffer shows the screen

    What a flush draws, and that the backend implements the plain screen of FbScreen.v. *)

From Stdlib Require Import Ascii.
From S2P Require Import Prelude Bytes Term TermRefine TermSafe Fb FbScreen FbQueue.

(** What the framebuffer shows.  [PlotterLaws] is what the drawing of a character
    promises; a flush then draws every character written since the last one and
    the cursor, so that the framebuffer shows the screen. *)

(** [shows k f x y ch]: the cell at [x], [y] of the framebuffer [f] shows [ch]. *)
Class PlotterLaws (F : Type) `{Plotter F} := {
  p_inv : Z -> Z -> fb_config -> F -> Prop;
  shows : fb_config -> F -> Z -> Z -> fb_char -> Prop;
  plot_char_law t k f x y ch : p_inv (rows t) (cols t) k f -> 0 <= x < cols t -> 0 <= y < rows t -> char_ok ch ->
    exists f', plot_char t k ch x y f = Ret f' /\ p_inv (rows t) (cols t) k f' /\ shows k f' x y ch /\
    forall x' y' ch', 0 <= x' < cols t -> 0 <= y' < rows t -> (x', y') <> (x, y) ->
      shows k f x' y' ch' -> shows k f' x' y' ch';
  paint_background_law r c k f : p_inv r c k f -> exists f', paint_background k f = Ret f' /\ p_inv r c k f'
}.

(** The character under the cursor. *)
Definition inverted (ch : fb_char) : fb_char := Char (char_c ch) (char_bg ch) (char_fg ch).

Lemma inverted_ok ch : char_ok ch -> char_ok (inverted ch).
Proof. done. Qed.

Section display.
Context {F : Type} `{PlotterLaws F}.
Implicit Types b : fb F.

(** Every cell outside [X] shows its character of the grid. *)
Definition displayed_but (X : Z -> Z -> Prop) (r c : Z) b : Prop :=
  p_inv r c (cfg b) (frame b) /\
  forall x y g, 0 <= x < c -> 0 <= y < r -> ~ X x y -> grid b !! Z.to_nat (y * c + x) = Some g ->
    shows (cfg b) (frame b) x y g.

(** Every cell but the one the cursor was drawn on. *)
Definition displayed (r c : Z) b : Prop :=
  displayed_but (fun x y => x = old_cursor_x b /\ y = old_cursor_y b) r c b.

(** The cell at [x], [y] shows the screen, the cursor inverted. *)
Definition on_display (t : term) b : Prop :=
  forall x y ch, 0 <= x < cols t -> 0 <= y < rows t -> view b !! Z.to_nat (y * cols t + x) = Some ch ->
  shows (cfg b) (frame b) x y
    (if cursor_enabled t && (x =? cursor_x b) && (y =? cursor_y b) then inverted ch else ch).

Lemma displayed_agree r c b b' : agree b b' -> displayed r c b -> displayed r c b'.
Proof.
  intros Ha. destruct (agree_fields _ _ Ha) as (Ek & Eg & _ & _ & _ & _ & _ & _ & _ & _ & Ex & Ey & Ef & _).
  unfold displayed, displayed_but. by rewrite Ek, Eg, Ex, Ey, Ef.
Qed.

Lemma draw_spec t b x y ch X : displayed_but X (rows t) (cols t) b -> 0 <= x < cols t -> 0 <= y < rows t -> char_ok ch ->
  exists f, draw t ch x y b = Ret (with_frame f b) /\ p_inv (rows t) (cols t) (cfg b) f /\
  shows (cfg b) f x y ch /\
  (forall x' y' ch', 0 <= x' < cols t -> 0 <= y' < rows t -> (x', y') <> (x, y) ->
     shows (cfg b) (frame b) x' y' ch' -> shows (cfg b) f x' y' ch').
Proof.
  intros [Hp _] Hx Hy Hch. destruct (plot_char_law t (cfg b) (frame b) x y ch Hp Hx Hy Hch) as (f & E & ?).
  exists f. split; [|done]. unfold draw. by rewrite E.
Qed.

Lemma fb_eta b : b = with_frame (frame b) (with_qmap (qmap b) (with_grid (grid b) b)).
Proof. by destruct b. Qed.

(** ** One cell settled *)

(** The grid takes the character of the cell, and the map forgets it. *)
Lemma settle_view b i g ch : qmap b !! i = Some g -> view b !! i = Some ch ->
  exists b', settle i ch b = Ret b' /\ b' = with_qmap (<[i := None]> (qmap b)) (with_grid (<[i := ch]> (grid b)) b) /\
  view b' = view b.
Proof.
  intros Hi Hv. assert (Hg : (i < length (grid b))%nat) by (rewrite <- cells_length; by eapply lookup_lt_Some).
  pose proof (lookup_lt_Some _ _ _ Hi) as Hq.
  eexists. split; [unfold settle; rewrite (put_lt (grid b)) by done; cbn [mbind outcome_bind];
    rewrite put_lt by done; reflexivity|]. split; [done|].
  apply list_eq. intros j. rewrite !view_lookup. cbn. destruct (decide (i = j)) as [->|Hne].
  - rewrite view_lookup in Hv. rewrite Hv. rewrite list_lookup_insert_eq by done. cbn.
    unfold view_cell. cbn. by rewrite list_lookup_insert_eq.
  - rewrite list_lookup_insert_ne by done. destruct (grid b !! j); [|done]. cbn. f_equal.
    unfold view_cell. cbn. by rewrite list_lookup_insert_ne.
Qed.

(** ** A flush under way *)

Section flush.
Context (t : term) (b0 : fb F).
Hypothesis (Hgeo : geometry t) (Hco : coherent (rows t) (cols t) b0).

(** The cursor is drawn on a cell of the screen. *)
Definition cursor_drawn : Prop := cursor_enabled t = true /\ cursor_x b0 < cols t /\ cursor_y b0 < rows t.
Hypothesis (Hcur : 0 <= cursor_x b0 /\ 0 <= cursor_y b0).
Hypothesis (Hold : 0 <= old_cursor_x b0 /\ 0 <= old_cursor_y b0).

Definition cursor_cell : nat := Z.to_nat (cursor_x b0 + cursor_y b0 * cols t).

(** The cells that need not show the grid: the one the cursor was on, and the one it is on. *)
Definition exempt (x y : Z) : Prop :=
  (x = old_cursor_x b0 /\ y = old_cursor_y b0) \/ (cursor_drawn /\ x = cursor_x b0 /\ y = cursor_y b0).

(** The state of a flush that has dealt with the items before [k]. *)
Record flushing (k : nat) (b : fb F) : Prop := {
  fl_same : b = with_frame (frame b) (with_qmap (qmap b) (with_grid (grid b) b0));
  fl_view : view b = view b0;
  fl_len : length (qmap b) = length (qmap b0);
  fl_map : forall i j, qmap b !! i = Some (Some j) -> (offset (cols t) <$> pending b0) !! j = Some i /\ (k <= j)%nat;
  fl_display : displayed_but exempt (rows t) (cols t) b;
  fl_cursor : cursor_drawn -> qmap b !! cursor_cell = Some None /\
    forall ch, view b0 !! cursor_cell = Some ch -> shows (cfg b0) (frame b) (cursor_x b0) (cursor_y b0) (inverted ch)
}.

Lemma view_at i : 0 <= i < rows t * cols t -> exists ch, view b0 !! Z.to_nat i = Some ch /\ char_ok ch.
Proof using Hco.
  intros Hi. destruct (current_char_view _ _ b0 Hco i Hi) as (ch & _ & ? & ?). eauto.
Qed.

(** Nothing is drawn where the cursor is off or off the screen. *)
Lemma flush_start_none : ~ cursor_drawn -> displayed (rows t) (cols t) b0 -> flushing 0 b0.
Proof using Hco.
  intros Hno [Hp Hd]. split; try done; [apply fb_eta| |].
  - intros i j Hij%(co_map _ _ _ Hco). split; [done|lia].
  - split; [done|]. intros x y g Hx Hy Hex. apply Hd; [done..|]. intros Hlast. apply Hex. by left.
Qed.

(** The cursor is drawn over its cell, which is settled. *)
Lemma draw_cursor_start : cursor_drawn -> displayed (rows t) (cols t) b0 ->
  exists b, draw_cursor t b0 = Ret b /\ flushing 0 b.
Proof using All.
  intros Hdr Hd. pose proof Hdr as (Hen & Hx & Hy). unfold draw_cursor.
  split_leb (cols t) (cursor_x b0); [lia|]. split_leb (rows t) (cursor_y b0); [lia|]. cbn [orb].
  pose proof (cell_index (rows t) (cols t) (cursor_x b0) (cursor_y b0) ltac:(lia) ltac:(lia)) as Hidx.
  fold cursor_cell.
  destruct (lookup_lt_is_Some_2 (qmap b0) cursor_cell) as [m Hm].
  { rewrite (co_qmap_len _ _ _ Hco). unfold cursor_cell. lia. }
  destruct (current_char_view _ _ b0 Hco (cursor_x b0 + cursor_y b0 * cols t)) as (ch & Ech & Hview & Hok); [lia|].
  fold cursor_cell in Hview.
  rewrite (get_lookup _ _ _ Hm), Ech. cbn [mbind outcome_bind].
  destruct (draw_spec t b0 (cursor_x b0) (cursor_y b0) (inverted ch) _ Hd) as (f & Edr & Hpf & Hsh & Hother); [lia..|done|].
  unfold inverted in Edr. rewrite Edr. cbn [mbind outcome_bind].
  set (b1 := with_frame f b0).
  assert (Hmap : forall i j, qmap b0 !! i = Some (Some j) -> (offset (cols t) <$> pending b0) !! j = Some i /\ (0 <= j)%nat).
  { intros i j Hij%(co_map _ _ _ Hco). split; [done|lia]. }
  assert (Hsc : forall ch', view b0 !! cursor_cell = Some ch' -> shows (cfg b0) f (cursor_x b0) (cursor_y b0) (inverted ch')).
  { intros ch' Hch'. by rewrite Hview in Hch'; injection Hch' as <-. }
  assert (Hdis : forall g, (forall i, i <> cursor_cell -> g !! i = grid b0 !! i) ->
    displayed_but exempt (rows t) (cols t) (with_grid g b1)).
  { intros g Hg. split; [done|]. cbn. intros x y a Hx' Hy' Hex Ha.
    assert (Hne : (x, y) <> (cursor_x b0, cursor_y b0)) by (intros [= -> ->]; apply Hex; by right).
    apply Hother; [done..|]. apply Hd; [done..| |].
    - intros Hlast. apply Hex. by left.
    - rewrite <- Ha. symmetry. apply Hg. unfold cursor_cell. intros Heq. apply Hne.
      pose proof (cell_index _ _ _ _ Hx' Hy').
      destruct (cell_index_inj (cols t) x y (cursor_x b0) (cursor_y b0)) as [-> ->]; [lia..|done]. }
  destruct m as [j|].
  - destruct (settle_view b1 cursor_cell (Some j) ch) as (b & Eb & -> & Hv); [done..|].
    rewrite Eb. eexists. split; [done|]. split; cbn.
    + done.
    + exact Hv.
    + by rewrite length_insert.
    + intros i k. destruct (decide (cursor_cell = i)) as [<-|Hne].
      * by rewrite list_lookup_insert_eq by (by apply lookup_lt_Some in Hm).
      * rewrite list_lookup_insert_ne by done. apply Hmap.
    + apply (Hdis (<[cursor_cell := ch]> (grid b0))). intros i Hi. by rewrite list_lookup_insert_ne.
    + intros _. split; [|done]. by rewrite list_lookup_insert_eq by (by apply lookup_lt_Some in Hm).
  - exists b1. split; [done|]. split; try done.
    apply (Hdis (grid b0)). done.
Qed.

Lemma flush_start : displayed (rows t) (cols t) b0 ->
  exists b, (if cursor_enabled t then draw_cursor t b0 else Ret b0) = Ret b /\ flushing 0 b.
Proof using All.
  intros Hd. destruct (cursor_enabled t) eqn:Hen.
  - destruct (decide (cursor_x b0 < cols t /\ cursor_y b0 < rows t)) as [Hin|Hout].
    + apply draw_cursor_start; [|done]. by split.
    + exists b0. split; [|apply flush_start_none; [|done]; intros (_ & ? & ?); tauto].
      unfold draw_cursor. destruct (_ || _) eqn:Hc; [done|].
      apply orb_false_iff in Hc as [?%Z.leb_gt ?%Z.leb_gt]. lia.
  - exists b0. split; [done|]. apply flush_start_none; [|done]. intros (? & _). congruence.
Qed.

Lemma flush_item_step k b : flushing k b -> (k < length (pending b0))%nat ->
  exists b', flush_item t k b = Ret b' /\ flushing (S k) b'.
Proof using All.
  intros Hfl Hk. destruct Hfl as [Hs Hv Hl Hm Hd Hc].
  destruct (lookup_lt_is_Some_2 _ _ Hk) as [q Hq].
  pose proof (pending_lookup _ _ _ Hco _ _ Hq) as Hqq.
  destruct (Forall_lookup_1 _ _ _ _ (co_items _ _ _ Hco) Hq) as [Hqx Hqy].
  pose proof (cell_index _ _ _ _ Hqx Hqy) as Hidx.
  assert (Eq : queue b = queue b0) by (by rewrite Hs).
  assert (Hoff : (offset (cols t) <$> pending b0) !! k = Some (offset (cols t) q)) by (by rewrite list_lookup_fmap, Hq).
  unfold flush_item. rewrite Eq, (get_lookup _ _ _ Hqq). cbn [mbind outcome_bind].
  change (Z.to_nat (item_y q * cols t + item_x q)) with (offset (cols t) q).
  destruct (lookup_lt_is_Some_2 (qmap b) (offset (cols t) q)) as [m Hmq].
  { rewrite Hl, (co_qmap_len _ _ _ Hco). unfold offset. lia. }
  rewrite (get_lookup _ _ _ Hmq). cbn [mbind outcome_bind]. destruct m as [j|].
  2: { exists b. split; [done|]. split; try assumption. intros i j Hj. destruct (Hm i j Hj) as [Hij Hkj].
       split; [done|]. destruct (decide (j = k)) as [->|]; [|lia]. exfalso. congruence. }
  destruct (Hm _ _ Hmq) as [Hj Hkj].
  assert (j = k) as -> by (eapply NoDup_lookup; [apply (offsets_nodup _ _ _ Hco)|exact Hj|exact Hoff]).
  assert (Hview : view b !! offset (cols t) q = Some (item_c q)).
  { destruct (view_at (item_y q * cols t + item_x q)) as (ch & Hch & _); [lia|].
    change (Z.to_nat _) with (offset (cols t) q) in Hch. rewrite <- Hv in Hch. rewrite Hch. f_equal.
    rewrite view_lookup in Hch. destruct (grid b !! _); [|done]. injection Hch as <-.
    unfold view_cell. by rewrite Hmq, Eq, Hqq. }
  assert (Hok : char_ok (item_c q)) by exact (Forall_lookup_1 _ _ _ _ (co_chars _ _ _ Hco) Hqq).
  destruct (draw_spec t b _ _ _ _ Hd Hqx Hqy Hok) as (f & E & Hpf & Hsh & Hother). rewrite E. cbn [mbind outcome_bind].
  destruct (settle_view (with_frame f b) (offset (cols t) q) (Some k) (item_c q)) as (b' & E' & -> & Hv'); [done..|].
  rewrite E'. eexists. split; [done|]. split.
  - rewrite Hs. done.
  - by rewrite Hv'.
  - cbn. by rewrite length_insert.
  - cbn. intros i j. destruct (decide (offset (cols t) q = i)) as [<-|Hne].
    + rewrite list_lookup_insert_eq by (by apply lookup_lt_Some in Hmq). done.
    + rewrite list_lookup_insert_ne by done. intros Hij. destruct (Hm i j Hij) as [Hij' Hkj'].
      split; [done|]. destruct (decide (j = k)) as [->|]; [|lia]. exfalso. congruence.
  - split; [done|]. cbn. intros x y g Hx Hy Hex Hg.
    destruct (decide ((x, y) = (item_x q, item_y q))) as [[= -> ->]|Hne].
    + unfold offset in Hg. rewrite list_lookup_insert_eq in Hg; [by injection Hg as <-|].
      rewrite <- cells_length. by apply lookup_lt_Some in Hview.
    + rewrite list_lookup_insert_ne in Hg.
      * apply Hother; [done..|]. by apply Hd.
      * unfold offset. pose proof (cell_index _ _ _ _ Hx Hy). intros Heq. apply Hne.
        destruct (cell_index_inj (cols t) (item_x q) (item_y q) x y) as [-> ->]; [lia..|done].
  - intros Hdr. destruct (Hc Hdr) as [Hcm Hcs]. destruct Hdr as (_ & Hdx & Hdy).
    assert (Hne : offset (cols t) q <> cursor_cell) by (intros Heq; rewrite Heq in Hmq; congruence).
    cbn. rewrite list_lookup_insert_ne by done. split; [done|]. intros ch Hch.
    assert (Ek : cfg b = cfg b0) by (by rewrite Hs). rewrite <- Ek. apply Hother; [lia..| |].
    + intros [= E1 E2]. apply Hne. unfold offset, cursor_cell. f_equal. lia.
    + rewrite Ek. by apply Hcs.
Qed.

Lemma flush_items_step n k b : flushing k b -> (k + n <= length (pending b0))%nat ->
  exists b', flush_items n t k b = Ret b' /\ flushing (k + n) b'.
Proof using All.
  revert k b. induction n as [|n IH]; intros k b Hfl Hn; cbn [flush_items].
  { exists b. by rewrite Nat.add_0_r. }
  destruct (flush_item_step k b Hfl) as (b' & -> & Hfl'); [lia|]. cbn [mbind outcome_bind].
  rewrite Nat.add_succ_r. apply (IH (S k)); [done|lia].
Qed.

(** After the last item the grid is the screen. *)
Lemma flush_end b : flushing (length (pending b0)) b -> grid b = view b0 /\ forall i m, qmap b !! i = Some m -> m = None.
Proof using All.
  intros Hfl. assert (Hnone : forall i m, qmap b !! i = Some m -> m = None).
  { intros i [j|] Hij; [|done]. destruct (fl_map _ _ Hfl _ _ Hij) as [Hj Hle].
    apply lookup_lt_Some in Hj. rewrite length_fmap in Hj. lia. }
  split; [|done]. rewrite <- (fl_view _ _ Hfl). apply list_eq. intros i. rewrite view_lookup.
  destruct (grid b !! i) as [g|]; [|done]. cbn. f_equal. unfold view_cell.
  destruct (qmap b !! i) as [m|] eqn:Hm; [|done]. by rewrite (Hnone _ _ Hm).
Qed.

(** The cell the cursor has left shows its character again. *)
Lemma undraw_spec b : flushing (length (pending b0)) b ->
  exists f, undraw_cursor t b = Ret (with_frame f b) /\ p_inv (rows t) (cols t) (cfg b0) f /\
  forall x y ch, 0 <= x < cols t -> 0 <= y < rows t -> view b0 !! Z.to_nat (y * cols t + x) = Some ch ->
    shows (cfg b0) f x y (if cursor_enabled t && (x =? cursor_x b0) && (y =? cursor_y b0) then inverted ch else ch).
Proof using All.
  intros Hfl. destruct (flush_end b Hfl) as [Hgrid _]. destruct Hfl as [Hs Hv Hl Hm [Hp Hd] Hc].
  assert (Ek : cfg b = cfg b0) by (by rewrite Hs). assert (Ecx : cursor_x b = cursor_x b0) by (by rewrite Hs).
  assert (Ecy : cursor_y b = cursor_y b0) by (by rewrite Hs).
  assert (Eox : old_cursor_x b = old_cursor_x b0) by (by rewrite Hs).
  assert (Eoy : old_cursor_y b = old_cursor_y b0) by (by rewrite Hs).
  rewrite Ek in Hp, Hd.
  assert (Hshow : forall x y ch, 0 <= x < cols t -> 0 <= y < rows t -> view b0 !! Z.to_nat (y * cols t + x) = Some ch ->
    ~ (x = old_cursor_x b0 /\ y = old_cursor_y b0 /\ ~ (cursor_drawn /\ x = cursor_x b0 /\ y = cursor_y b0)) ->
    shows (cfg b0) (frame b) x y (if cursor_enabled t && (x =? cursor_x b0) && (y =? cursor_y b0) then inverted ch else ch)).
  { intros x y ch Hx Hy Hch Hno. destruct (_ && _) eqn:Hen.
    - apply andb_true_iff in Hen as [[Hen ->%Z.eqb_eq]%andb_true_iff ->%Z.eqb_eq].
      apply Hc; [unfold cursor_drawn; split_and!; done || lia|]. unfold cursor_cell. by rewrite Z.add_comm.
    - apply Hd; [done..| |by rewrite Hgrid]. intros [Ho|(Hdr & -> & ->)].
      + apply Hno. destruct Ho as [-> ->]. split_and!; [done..|]. intros (Hdr & Hex & Hey).
        destruct Hdr as (Hen' & _). rewrite Hen', Hex, Hey, !Z.eqb_refl in Hen. done.
      + destruct Hdr as (Hen' & _). by rewrite Hen', !Z.eqb_refl in Hen. }
  unfold undraw_cursor. rewrite Eox, Eoy, Ecx, Ecy.
  destruct (_ || _) eqn:Hmoved; [destruct (_ && _) eqn:Hin|].
  - apply andb_true_iff in Hin as [Hox%Z.ltb_lt Hoy%Z.ltb_lt].
    pose proof (cell_index (rows t) (cols t) (old_cursor_x b0) (old_cursor_y b0) ltac:(lia) ltac:(lia)) as Hidx.
    destruct (view_at (old_cursor_x b0 + old_cursor_y b0 * cols t)) as (ch & Hch & Hok); [lia|].
    rewrite (get_lookup (grid b) _ ch) by (by rewrite Hgrid). cbn [mbind outcome_bind].
    destruct (plot_char_law t (cfg b) (frame b) (old_cursor_x b0) (old_cursor_y b0) ch) as (f & E & Hpf & Hsh & Hother);
      [by rewrite Ek|lia..|done|].
    exists f. unfold draw. rewrite E. split; [done|]. rewrite Ek in *. split; [done|].
    intros x y ch' Hx Hy Hch'.
    destruct (decide ((x, y) = (old_cursor_x b0, old_cursor_y b0))) as [[= -> ->]|Hne].
    + rewrite (Z.add_comm (old_cursor_x b0)) in Hch. rewrite Hch in Hch'. injection Hch' as <-.
      destruct (cursor_enabled t); [|done]. cbn [andb negb] in *. rewrite orb_false_r in Hmoved.
      apply orb_true_iff in Hmoved. destruct (_ =? _); [|done]. by destruct (_ =? _); [destruct Hmoved|].
    + apply Hother; [done..|]. apply Hshow; [done..|]. intros (-> & -> & _). by apply Hne.
  - exists (frame b). split; [by destruct b|]. split; [done|]. intros x y ch Hx Hy Hch.
    apply Hshow; [done..|]. intros (-> & -> & _).
    apply andb_false_iff in Hin as [?%Z.ltb_ge|?%Z.ltb_ge]; lia.
  - exists (frame b). split; [by destruct b|]. split; [done|]. intros x y ch Hx Hy Hch.
    apply Hshow; [done..|]. intros (-> & -> & Hno). apply Hno.
    apply orb_false_iff in Hmoved as [[Hmx Hmy]%orb_false_iff Hen%negb_false_iff].
    apply negb_false_iff, Z.eqb_eq in Hmx, Hmy. unfold cursor_drawn. rewrite <- Hmx, <- Hmy. split_and!; done || lia.
Qed.

(** A flush draws the whole screen and empties the queue; the screen is the same. *)
Lemma double_buffer_flush_spec : displayed (rows t) (cols t) b0 ->
  exists b, flanterm_fb_double_buffer_flush t b0 = Ret b /\ coherent (rows t) (cols t) b /\
  displayed (rows t) (cols t) b /\ on_display t b /\ view b = view b0 /\
  b = with_queue_i 0 (with_old_cursor (cursor_x b0) (cursor_y b0)
        (with_frame (frame b) (with_qmap (qmap b) (with_grid (grid b) b0)))).
Proof using All.
  intros Hd. destruct (flush_start Hd) as (b1 & E1 & Hfl1). unfold flanterm_fb_double_buffer_flush.
  rewrite E1. cbn [mbind outcome_bind].
  assert (Eq : queue_i b1 = queue_i b0) by (by rewrite (fl_same _ _ Hfl1)). rewrite Eq.
  pose proof (pending_items_length _ _ _ Hco) as Hpl.
  destruct (flush_items_step (Z.to_nat (queue_i b0)) 0 b1 Hfl1) as (b2 & E2 & Hfl2); [lia|].
  rewrite E2. cbn [mbind outcome_bind]. rewrite Nat.add_0_l, <- Hpl in Hfl2.
  destruct (flush_end b2 Hfl2) as [Hgrid Hnone]. destruct (undraw_spec b2 Hfl2) as (f & E3 & Hpf & Hsh).
  rewrite E3. cbn [mbind outcome_bind]. pose proof (fl_same _ _ Hfl2) as Hs.
  assert (Ecx : cursor_x b2 = cursor_x b0) by (by rewrite Hs).
  assert (Ecy : cursor_y b2 = cursor_y b0) by (by rewrite Hs).
  assert (Ek : cfg b2 = cfg b0) by (by rewrite Hs).
  eexists. split; [done|].
  assert (Hview : view (with_queue_i 0 (with_old_cursor (cursor_x b2) (cursor_y b2) (with_frame f b2))) = view b0)
    by exact (fl_view _ _ Hfl2).
  assert (Hdisp : on_display t (with_queue_i 0 (with_old_cursor (cursor_x b2) (cursor_y b2) (with_frame f b2)))).
  { intros x y ch Hx Hy Hch. rewrite Hview in Hch. cbn. rewrite Ek, Ecx, Ecy. by apply Hsh. }
  split_and!.
  - destruct Hco as [Hdm Hg Hql Hm Hi Hit Hcm Hgr Hch]. split; cbn.
    + done.
    + by rewrite Hgrid, cells_length.
    + by rewrite Hs.
    + by rewrite (fl_len _ _ Hfl2).
    + lia.
    + by constructor.
    + intros i k. split; [|done]. intros Hik. by specialize (Hnone _ _ Hik).
    + rewrite Hgrid. by apply (view_char_ok (rows t) (cols t)).
    + by rewrite Hs.
  - split; cbn; [by rewrite Ek|]. intros x y g Hx Hy Hex Hg. rewrite Ek. rewrite Hgrid in Hg.
    specialize (Hsh x y g Hx Hy Hg). rewrite Ecx, Ecy in Hex.
    destruct (_ && _) eqn:Hb; [|done]. exfalso. apply Hex.
    apply andb_true_iff in Hb as [[_ ?%Z.eqb_eq]%andb_true_iff ?%Z.eqb_eq]. done.
  - done.
  - done.
  - cbn. by rewrite Ecx, Ecy, Hs.
Qed.
End flush.
End display.

(** The framebuffer backend implements the screen: every operation of the interface is
    the operation of the specification, seen through [abs].  With the parser this
    gives the refinement of the whole terminal. *)

(** ** The configuration *)

Definition mask_ok (size shift : Z) : Prop := 0 <= shift < 32 /\ (8 < size -> size <= 16 /\ shift + 8 < 32).

Record masks_ok (k : fb_config) : Prop := {
  ck_red : mask_ok (red_mask_size k) (red_mask_shift k);
  ck_green : mask_ok (green_mask_size k) (green_mask_shift k);
  ck_blue : mask_ok (blue_mask_size k) (blue_mask_shift k)
}.

Record config_ok (k : fb_config) : Prop := {
  ck_colours : length (ansi_colours k) = 8%nat /\ length (ansi_bright_colours k) = 8%nat;
  ck_masks : masks_ok k
}.

Lemma wide_component_total x size shift : mask_ok size shift -> exists v, wide_component x size shift = Ret v.
Proof.
  intros [Hs Hw]. unfold wide_component. split_ltb 8 size; [|eauto]. destruct (Hw E) as [H16 H32].
  split_ltb 16 size; [lia|]. unfold shl32. destruct (_ && _) eqn:Hb; [eauto|].
  apply andb_false_iff in Hb as [?%Z.leb_gt|?%Z.ltb_ge]; lia.
Qed.

Lemma shl32_total x size shift : mask_ok size shift -> exists v, shl32 x shift = Ret v.
Proof.
  intros [Hs _]. unfold shl32. destruct (_ && _) eqn:Hb; [eauto|].
  apply andb_false_iff in Hb as [?%Z.leb_gt|?%Z.ltb_ge]; lia.
Qed.

Lemma convert_colour_total k c : masks_ok k -> exists v, convert_colour k c = Ret v.
Proof.
  intros [Hr Hg Hb]. unfold convert_colour.
  destruct (shl32_total (Z.land (Z.shiftr c 16) 0xff) _ _ Hr) as [? ->].
  destruct (shl32_total (Z.land (Z.shiftr c 8) 0xff) _ _ Hg) as [? ->].
  destruct (shl32_total (Z.land c 0xff) _ _ Hb) as [? ->]. cbn [mbind outcome_bind].
  destruct (wide_component_total (Z.land (Z.shiftr c 16) 0xff) _ _ Hr) as [? ->].
  destruct (wide_component_total (Z.land (Z.shiftr c 8) 0xff) _ _ Hg) as [? ->].
  destruct (wide_component_total (Z.land c 0xff) _ _ Hb) as [? ->]. cbn [mbind outcome_bind]. eauto.
Qed.

Section refine.
Context {F : Type} `{PlotterLaws F}.
Implicit Types b : fb F.

(** The screen a state of the backend stands for. *)
Definition abs b : screen :=
  Screen (cfg b) (view b) (text_fg b) (text_bg b) (cursor_x b) (cursor_y b)
    (saved_state_text_fg b) (saved_state_text_bg b) (saved_state_cursor_x b) (saved_state_cursor_y b) (log b).

Record fb_ok (r c : Z) b : Prop := {
  fk_queue : coherent r c b;
  fk_display : displayed r c b;
  fk_config : config_ok (cfg b);
  fk_cursor : 0 <= cursor_x b <= c /\ 0 <= cursor_y b < r;
  fk_saved : 0 <= saved_state_cursor_x b <= c /\ 0 <= saved_state_cursor_y b < r;
  fk_old : 0 <= old_cursor_x b /\ 0 <= old_cursor_y b
}.

(** The backend with the configuration [k], and the screen it stands for. *)
Definition fb_sim (k : fb_config) (r c : Z) b (s : screen) : Prop := fb_ok r c b /\ s = abs b /\ cfg b = k.

(** A change of the colours, the cursor, the saved state or the log only. *)
Lemma coherent_same r c b b' : grid b' = grid b -> queue b' = queue b -> queue_i b' = queue_i b -> qmap b' = qmap b ->
  coherent r c b -> coherent r c b'.
Proof.
  intros Eg Eq Ei Em [Hd Hg Hql Hm Hi Hit Hcm Hgr Hch]. unfold pending in *.
  split; unfold pending; rewrite ?Eg, ?Eq, ?Ei, ?Em; done.
Qed.

Lemma displayed_same r c b b' : cfg b' = cfg b -> grid b' = grid b -> frame b' = frame b ->
  old_cursor_x b' = old_cursor_x b -> old_cursor_y b' = old_cursor_y b -> displayed r c b -> displayed r c b'.
Proof. intros Ek Eg Ef Ex Ey. unfold displayed, displayed_but. by rewrite Ek, Eg, Ef, Ex, Ey. Qed.

(** Written cells, seen as a screen. *)
Lemma writes_abs t b o v l : writes t b o v -> (forall j, v j = l !! j) -> fb_ok (rows t) (cols t) b ->
  exists b', o = Ret b' /\ fb_ok (rows t) (cols t) b' /\ abs b' = s_cells l (abs b) /\ agree b b'.
Proof.
  intros (b' & E & Hco & Ha & Hv) Hl Hok. exists b'.
  assert (Hview : view b' = l) by (apply list_eq; intros j; by rewrite Hv, Hl).
  pose proof (agree_fields _ _ Ha) as (Ek & Eg & Efg & Ebg & Ex & Ey & E1 & E2 & E3 & E4 & E5 & E6 & Ef & El).
  destruct Hok as [Hq Hd Hk Hc Hs Ho]. split_and!; [done| | |done].
  - split; rewrite ?Ek, ?Ex, ?Ey, ?E3, ?E4, ?E5, ?E6; try done. by eapply displayed_agree.
  - unfold abs, s_cells. cbn. by rewrite Hview, Ek, Efg, Ebg, Ex, Ey, E1, E2, E3, E4, El.
Qed.

(** A change that is not one of the cells. *)
Ltac same_cells :=
  lazymatch goal with
  | K : coherent _ _ ?b |- _ =>
      split; [by apply (coherent_same _ _ b) | by apply (displayed_same _ _ b) | (cbn; first [done | lia])..]
  end.

Lemma related_intro k t (f1 : fb F -> outcome (fb F)) (f2 : screen -> outcome screen) :
  (forall b, fb_ok (rows t) (cols t) b -> exists b', f1 b = Ret b' /\ fb_ok (rows t) (cols t) b' /\ f2 (abs b) = Ret (abs b')) ->
  (forall s s', f2 s = Ret s' -> s_cfg s' = s_cfg s) ->
  related (fb_sim k) t f1 f2.
Proof.
  intros Hf Hk b s (Hok & -> & Hc). destruct (Hf b Hok) as (b' & E1 & Hok' & E2). exists b', (abs b').
  pose proof (Hk _ _ E2) as Hc'. change (cfg b' = cfg b) in Hc'. do 4 (split; [done|]). congruence.
Qed.

Lemma clamp_range x n : 0 < n < 0x80000000 -> 0 <= x -> 0 <= clamp x n < n.
Proof. intros Hn Hx. unfold clamp. repeat case_match; lia. Qed.

(** ** Characters *)

Lemma scroll_abs t b : geometry t -> fb_ok (rows t) (cols t) b ->
  exists b', flanterm_fb_scroll t b = Ret b' /\ fb_ok (rows t) (cols t) b' /\ abs b' = s_scroll t (abs b) /\ agree b b'.
Proof.
  intros Hg Hok. eapply writes_abs; [apply scroll_writes; [done|apply Hok]|done|done].
Qed.

Lemma revscroll_abs t b : geometry t -> fb_ok (rows t) (cols t) b ->
  exists b', flanterm_fb_revscroll t b = Ret b' /\ fb_ok (rows t) (cols t) b' /\ abs b' = s_revscroll t (abs b) /\ agree b b'.
Proof.
  intros Hg Hok. eapply writes_abs; [apply revscroll_writes; [done|apply Hok]|done|done].
Qed.

(** ** Colours *)

Lemma with_fg_abs r c v b : fb_ok r c b -> fb_ok r c (with_text_fg v b).
Proof. intros Hok. destruct Hok; same_cells. Qed.

Lemma with_bg_abs r c v b : fb_ok r c b -> fb_ok r c (with_text_bg v b).
Proof. intros Hok. destruct Hok; same_cells. Qed.

(** A colour that is computed first. *)
Lemma fg_abs k t (o : fb_config -> outcome Z) :
  (forall k, config_ok k -> exists v, o k = Ret v) ->
  related (fb_sim k) t (fun b => c ← o (cfg b); Ret (with_text_fg c b)) (fun s => c ← o (s_cfg s); Ret (s_colours c (s_bg s) s)).
Proof.
  intros Ho. apply related_intro; [|intros s s'; by destruct (o (s_cfg s)); intros [= <-]].
  intros b Hok. destruct (Ho (cfg b) (fk_config _ _ _ Hok)) as [v Hv].
  exists (with_text_fg v b). change (s_cfg (abs b)) with (cfg b). rewrite Hv. split; [done|].
  split; [by apply with_fg_abs|done].
Qed.

Lemma bg_abs k t (o : fb_config -> outcome Z) :
  (forall k, config_ok k -> exists v, o k = Ret v) ->
  related (fb_sim k) t (fun b => c ← o (cfg b); Ret (with_text_bg c b)) (fun s => c ← o (s_cfg s); Ret (s_colours (s_fg s) c s)).
Proof.
  intros Ho. apply related_intro; [|intros s s'; by destruct (o (s_cfg s)); intros [= <-]].
  intros b Hok. destruct (Ho (cfg b) (fk_config _ _ _ Hok)) as [v Hv].
  exists (with_text_bg v b). change (s_cfg (abs b)) with (cfg b). rewrite Hv. split; [done|].
  split; [by apply with_bg_abs|done].
Qed.

Lemma palette_total (l : fb_config -> list Z) n : (forall k, config_ok k -> length (l k) = 8%nat) -> 0 <= n < 8 ->
  forall k, config_ok k -> exists v, get (l k) (Z.to_nat n) = Ret v.
Proof.
  intros Hl Hn k Hk. specialize (Hl k Hk). destruct (lookup_lt_is_Some_2 (l k) (Z.to_nat n)) as [v Hv]; [lia|].
  exists v. by apply get_lookup.
Qed.

Lemma wrap_abs t b : geometry t -> fb_ok (rows t) (cols t) b ->
  exists b', wrap_cursor t b = Ret b' /\ fb_ok (rows t) (cols t) b' /\ abs b' = s_wrap t (abs b) /\
  0 <= cursor_x b' < cols t.
Proof.
  intros Hg Hok. pose proof Hg as [Hr Hc Hm]. destruct (fk_cursor _ _ _ Hok) as [Hx Hy].
  unfold wrap_cursor, s_wrap. change (s_x (abs b)) with (cursor_x b). change (s_y (abs b)) with (cursor_y b).
  split_leb (cols t) (cursor_x b).
  2: { split_ltb (cursor_x b) (cols t); [|lia]. exists b. split_and!; done || lia. }
  split_ltb (cursor_x b) (cols t); [lia|]. destruct (wrap_enabled t && _).
  2: { eexists. split; [done|]. split_and!; [destruct Hok; same_cells|done|cbn; lia..]. }
  split_eqb (cursor_y b + 1) (scroll_bottom_margin t).
  - assert (Hok1 : fb_ok (rows t) (cols t) (with_cursor 0 (cursor_y b + 1 - 1) b)) by (destruct Hok; same_cells).
    destruct (scroll_abs t _ Hg Hok1) as (b' & -> & Hok' & Ha & Hag). cbn [mbind outcome_bind].
    destruct (agree_fields _ _ Hag) as (_ & _ & _ & _ & Ex & Ey & _). cbn in Ex, Ey.
    split_leb (rows t) (cursor_y b'); [lia|]. exists b'. split_and!; [done..| |lia|lia].
    rewrite Ha. unfold s_cursor, abs. cbn. by replace (cursor_y b + 1 - 1) with (cursor_y b) by lia.
  - cbn [mbind outcome_bind]. eexists. split; [done|]. cbn [cursor_y with_cursor].
    split_leb (rows t) (cursor_y b + 1).
    + split_and!; [destruct Hok; same_cells| |cbn; lia..]. rewrite Z.min_r by lia. done.
    + split_and!; [destruct Hok; same_cells| |cbn; lia..]. rewrite Z.min_l by lia. done.
Qed.

Lemma raw_putchar_abs t c b : geometry t -> 0 <= c < 256 -> fb_ok (rows t) (cols t) b ->
  exists b', flanterm_fb_raw_putchar t c b = Ret b' /\ fb_ok (rows t) (cols t) b' /\ s_put t c (abs b) = abs b'.
Proof.
  intros Hg Hc Hok. destruct (wrap_abs t b Hg Hok) as (b1 & E1 & Hok1 & Ha1 & Hx1).
  unfold flanterm_fb_raw_putchar, s_put. rewrite E1, <- Ha1. cbn [mbind outcome_bind]. clear E1 Ha1 Hok b.
  rename b1 into b, Hok1 into Hok. destruct (fk_cursor _ _ _ Hok) as [Hx Hy].
  set (b' := with_cursor (cursor_x b + 1) (cursor_y b) b).
  assert (Hok' : fb_ok (rows t) (cols t) b') by (destruct Hok; same_cells).
  pose proof (push_to_queue_view t b' (cursor_x b) (cursor_y b) (Char c (text_fg b) (text_bg b)) (fk_queue _ _ _ Hok') Hx1 Hy Hc) as Hp.
  destruct Hp as (b'' & E & Hco & Hv & Hag).
  destruct (writes_abs t b' (Ret b'') (fun j => view b'' !! j) (view b'')) as (b3 & [= <-] & Hok'' & Ha & _).
  { by exists b''. } { done. } { done. }
  exists b''. split_and!; [done..|]. rewrite Ha, Hv. done.
Qed.

Lemma move_character_abs t nx ny ox oy b : geometry t -> 0 <= nx -> 0 <= ny -> 0 <= ox -> 0 <= oy ->
  fb_ok (rows t) (cols t) b ->
  exists b', flanterm_fb_move_character t nx ny ox oy b = Ret b' /\ fb_ok (rows t) (cols t) b' /\
  s_move t nx ny ox oy (abs b) = abs b'.
Proof.
  intros Hg Hnx Hny Hox Hoy Hok. unfold flanterm_fb_move_character, s_move.
  rewrite !Z.leb_antisym, <- !negb_andb. destruct (_ && _) eqn:Hin; cbn [negb]; [|by exists b].
  apply andb_true_iff in Hin as [[[?%Z.ltb_lt ?%Z.ltb_lt]%andb_true_iff ?%Z.ltb_lt]%andb_true_iff ?%Z.ltb_lt].
  pose proof (cell_index (rows t) (cols t) ox oy ltac:(lia) ltac:(lia)) as Hidx.
  destruct (current_char_view _ _ _ (fk_queue _ _ _ Hok) (ox + oy * cols t)) as (ch & -> & Hch & Hcok); [lia|].
  cbn [mbind outcome_bind]. rewrite (Z.add_comm ox) in Hch. change (cells (abs b)) with (view b). rewrite Hch.
  destruct (push_to_queue_view t b nx ny ch (fk_queue _ _ _ Hok)) as (b' & E & Hco & Hv & Hag); [lia..|done|].
  destruct (writes_abs t b (Ret b') (fun j => view b' !! j) (view b')) as (b3 & [= <-] & Hok' & Ha & _).
  { by exists b'. } { done. } { done. }
  exists b'. split_and!; [done..|]. by rewrite Ha, Hv.
Qed.

Lemma clear_abs t m b : geometry t -> fb_ok (rows t) (cols t) b ->
  exists b', flanterm_fb_clear t m b = Ret b' /\ fb_ok (rows t) (cols t) b' /\ s_clear t m (abs b) = abs b'.
Proof.
  intros Hg Hok. pose proof Hg as [Hr Hc Hm]. unfold flanterm_fb_clear, s_clear.
  assert (0 <= rows t * cols t) by nia.
  destruct (writes_abs t b (fill_cells (Z.to_nat (rows t * cols t)) t (empty b) 0 b) _
    (replicate (Z.to_nat (rows t * cols t)) (empty b))
    (fill_cells_writes (Z.to_nat (rows t * cols t)) t b (empty b) 0 (fk_queue _ _ _ Hok) ltac:(lia) ltac:(lia) (empty_ok b)))
    as (b' & -> & Hok' & Ha & Hag); [|done|].
  { intros j. case_decide.
    - by rewrite lookup_replicate_2 by lia.
    - rewrite lookup_ge_None_2; [symmetry; apply lookup_ge_None_2; rewrite length_replicate; lia|].
      rewrite cells_length, (co_grid_len _ _ _ (fk_queue _ _ _ Hok)). lia. }
  cbn [mbind outcome_bind]. exists (if m then with_cursor 0 0 b' else b'). split; [done|].
  change (s_char (ch " ") (abs b)) with (empty b). destruct m; [|by rewrite Ha].
  split; [destruct Hok'; same_cells|]. by rewrite <- Ha.
Qed.

Lemma flush_abs t b : geometry t -> fb_ok (rows t) (cols t) b ->
  exists b', flanterm_fb_double_buffer_flush t b = Ret b' /\ fb_ok (rows t) (cols t) b' /\ abs b = abs b' /\ on_display t b'.
Proof.
  intros Hg Hok. destruct (fk_cursor _ _ _ Hok) as [Hx Hy]. destruct (fk_old _ _ _ Hok).
  destruct (double_buffer_flush_spec t b Hg (fk_queue _ _ _ Hok)) as (b' & E & Hco & Hd & Hon & Hv & Hs);
    [lia|done|apply Hok|].
  exists b'. destruct Hok as [_ _ Hk _ Hsv _]. split_and!; [done| | |done].
  - split; try done; rewrite Hs; cbn; done || lia.
  - unfold abs. rewrite Hv. rewrite Hs. done.
Qed.

(** The operations of the screen keep its configuration. *)
Lemma s_wrap_cfg t s : s_cfg (s_wrap t s) = s_cfg s.
Proof. unfold s_wrap. by repeat case_match. Qed.

Ltac solve_cfg :=
  intros ? ? [= <-]; unfold s_put, s_clear, s_move, s_scroll, s_revscroll, s_swap, s_save, s_restore, s_event;
  repeat case_match; cbn; try done; apply s_wrap_cfg.

Definition fb_refines (k : fb_config) : Refines (fb F) screen.
Proof.
  refine {| sim := fb_sim k |}.
  - intros t b s [Hr Hc _] (Hok & -> & _). destruct (fk_cursor _ _ _ Hok) as [Hx Hy].
    eexists _, _. split; [reflexivity|]. cbn. unfold s_position. cbn.
    split_leb (cols t) (cursor_x b); split_leb (rows t) (cursor_y b); split_and!; lia || (f_equal; lia).
  - intros t c Hg Hc. apply related_intro; [|solve_cfg]. intros b Hok.
    destruct (raw_putchar_abs t c b Hg Hc Hok) as (b' & ? & ? & E). exists b'. cbn. by rewrite E.
  - intros t m Hg. apply related_intro; [|solve_cfg]. intros b Hok.
    destruct (clear_abs t m b Hg Hok) as (b' & ? & ? & E). exists b'. cbn. by rewrite E.
  - intros t x y Hg Hx Hy. apply related_intro; [|solve_cfg]. intros b Hok. eexists. split; [done|]. split; [|done].
    destruct Hg as [Hr Hc _]. pose proof (clamp_range x (cols t) ltac:(lia) ltac:(lia)).
    pose proof (clamp_range y (rows t) ltac:(lia) ltac:(lia)). destruct Hok; same_cells.
  - intros t n _ Hn. apply (fg_abs k t (fun k' => get (ansi_colours k') (Z.to_nat n))), palette_total; [|done]. apply ck_colours.
  - intros t n _ Hn. apply (bg_abs k t (fun k' => get (ansi_colours k') (Z.to_nat n))), palette_total; [|done]. apply ck_colours.
  - intros t n _ Hn. apply (fg_abs k t (fun k' => get (ansi_bright_colours k') (Z.to_nat n))), palette_total; [|done]. apply ck_colours.
  - intros t n _ Hn. apply (bg_abs k t (fun k' => get (ansi_bright_colours k') (Z.to_nat n))), palette_total; [|done]. apply ck_colours.
  - intros t v _ _. apply (fg_abs k t (fun k' => convert_colour k' v)). intros k' Hk. by apply convert_colour_total, ck_masks.
  - intros t v _ _. apply (bg_abs k t (fun k' => convert_colour k' v)). intros k' Hk. by apply convert_colour_total, ck_masks.
  - intros t _. apply (fg_abs k t (fun k' => Ret (default_fg k'))). eauto.
  - intros t _. apply (bg_abs k t (fun k' => Ret TRANSPARENT)). eauto.
  - intros t _. apply (fg_abs k t (fun k' => Ret (default_fg_bright k'))). eauto.
  - intros t _. apply (bg_abs k t (fun k' => Ret (default_bg_bright k'))). eauto.
  - intros t nx ny ox oy Hg ? ? ? ?. apply related_intro; [|solve_cfg]. intros b Hok.
    destruct (move_character_abs t nx ny ox oy b) as (b' & ? & ? & E); [done..|]. exists b'. cbn. by rewrite E.
  - intros t Hg. apply related_intro; [|solve_cfg]. intros b Hok.
    destruct (scroll_abs t b Hg Hok) as (b' & ? & ? & E & _). exists b'. cbn. by rewrite E.
  - intros t Hg. apply related_intro; [|solve_cfg]. intros b Hok.
    destruct (revscroll_abs t b Hg Hok) as (b' & ? & ? & E & _). exists b'. cbn. by rewrite E.
  - intros t _. apply related_intro; [|solve_cfg]. intros b Hok. eexists. split; [done|]. split; [|done]. destruct Hok; same_cells.
  - intros t _. apply related_intro; [|solve_cfg]. intros b Hok. eexists. split; [done|]. split; [|done]. destruct Hok; same_cells.
  - intros t _. apply related_intro; [|solve_cfg]. intros b Hok. eexists. split; [done|]. split; [|done]. destruct Hok; same_cells.
  - intros t Hg. apply related_intro; [|solve_cfg]. intros b Hok.
    destruct (flush_abs t b Hg Hok) as (b' & ? & ? & E & _). exists b'. cbn. by rewrite E.
  - intros t kind x y z _. apply related_intro; [|solve_cfg]. intros b Hok. eexists. split; [done|]. split; [|done]. destruct Hok; same_cells.
Defined.
End refine.
