(* ===== verification/FbPlot.v ===== *)
(** The pixels of the framebuffer backend: the four routines that draw a character,
    for every rotation of the display, and the background of a full refresh.  They
    are shown to write only inside the framebuffer, to draw exactly the pixels of
    the cell, and so to implement the drawing interface. *)

From Stdlib Require Import Ascii.
From S2P Require Import Prelude Term TermRefine Fb FbQueue FbScreen FbRefine.

(** The framebuffer, pixel by pixel. *)
Notation pixels := (list Z).

(** Reads and writes through a pointer into an array. *)
Definition load {A} (l : list A) (i : Z) : outcome A := if i <? 0 then Undef else get l (Z.to_nat i).
Definition store {A} (l : list A) (i : Z) (v : A) : outcome (list A) := if i <? 0 then Undef else put l (Z.to_nat i) v.

(** [for (i = lo; n--; i++) a = f(i, a)] *)
Fixpoint for_up {A} (n : nat) (lo : Z) (f : Z -> A -> outcome A) (a : A) : outcome A :=
  match n with O => Ret a | S n => a ← f lo a; for_up n (lo + 1) f a end.

Definition FLANTERM_FB_ROTATE_0 := 0.
Definition FLANTERM_FB_ROTATE_90 := 1.
Definition FLANTERM_FB_ROTATE_180 := 2.
Definition FLANTERM_FB_ROTATE_270 := 3.

(** The conversion to [int]. *)
Definition s32 (z : Z) : Z := (z + 0x80000000) `mod` W32 - 0x80000000.

Lemma s32_small z : - 0x80000000 <= z < 0x80000000 -> s32 z = z.
Proof. intros Hz. unfold s32. rewrite Z.mod_small by lia. lia. Qed.

(** The pixel a character starts at, and the distances between lines and between columns,
    which are of type [int]. *)
Definition strides (k : fb_config) (x y : Z) : Z * Z * Z :=
  let p := pitch k / 4 in
  if rotation k =? FLANTERM_FB_ROTATE_90 then ((height k - 1 - y) + x * p, -1, s32 p)
  else if rotation k =? FLANTERM_FB_ROTATE_180 then ((width k - 1 - x) + (height k - 1 - y) * p, s32 (- p), -1)
  else if rotation k =? FLANTERM_FB_ROTATE_270 then (y + (width k - 1 - x) * p, 1, s32 (- p))
  else (x + y * p, s32 p, 1).

(** A colour of a character on the canvas, at the pixel [i] of the canvas. *)
Definition canvas_colour (canvas : list Z) (i c : Z) : outcome Z :=
  if c =? TRANSPARENT then load canvas i else Ret c.

Section plot.
Context (t : term) (k : fb_config) (c : fb_char).

Definition plot_char_scaled_canvas (canvas : list Z) (x y : Z) (f : pixels) : outcome pixels :=
  if (cols t <=? x) || (rows t <=? y) then Ret f else
  let x := offset_x k + x * glyph_width k in
  let y := offset_y k + y * glyph_height k in
  let glyph := char_c c * font_height k * font_width k in
  let '(dest, outer_stride, inner_stride) := strides k x y in
  for_up (Z.to_nat (glyph_height k)) 0 (fun gy =>
    let fy := u8 (gy / font_scale_y k) in
    let fb_line := dest + gy * outer_stride in
    let canvas_line := x + (y + gy) * width k in
    let glyph_pointer := glyph + fy * font_width k in
    for_up (Z.to_nat (font_width k)) 0 (fun fx =>
      for_up (Z.to_nat (font_scale_x k)) 0 (fun i f =>
        let gx := font_scale_x k * fx + i in
        bg ← canvas_colour canvas (canvas_line + gx) (char_bg c);
        fg ← canvas_colour canvas (canvas_line + gx) (char_fg c);
        bit ← load (font_bool k) (glyph_pointer + fx);
        store f (fb_line + gx * inner_stride) (if bit : bool then fg else bg)))) f.

Definition plot_char_scaled_uncanvas (x y : Z) (f : pixels) : outcome pixels :=
  if (cols t <=? x) || (rows t <=? y) then Ret f else
  let bg := if char_bg c =? TRANSPARENT then default_bg k else char_bg c in
  let fg := if char_fg c =? TRANSPARENT then default_fg k else char_fg c in
  let x := offset_x k + x * glyph_width k in
  let y := offset_y k + y * glyph_height k in
  let glyph := char_c c * font_height k * font_width k in
  let '(dest, outer_stride, inner_stride) := strides k x y in
  for_up (Z.to_nat (glyph_height k)) 0 (fun gy =>
    let fy := u8 (gy / font_scale_y k) in
    let fb_line := dest + gy * outer_stride in
    let glyph_pointer := glyph + fy * font_width k in
    for_up (Z.to_nat (font_width k)) 0 (fun fx =>
      for_up (Z.to_nat (font_scale_x k)) 0 (fun i f =>
        bit ← load (font_bool k) (glyph_pointer + fx);
        store f (fb_line + (font_scale_x k * fx + i) * inner_stride) (if bit : bool then fg else bg)))) f.

Definition plot_char_unscaled_canvas (canvas : list Z) (x y : Z) (f : pixels) : outcome pixels :=
  if (cols t <=? x) || (rows t <=? y) then Ret f else
  let x := offset_x k + x * glyph_width k in
  let y := offset_y k + y * glyph_height k in
  let glyph := char_c c * font_height k * font_width k in
  let '(dest, outer_stride, inner_stride) := strides k x y in
  for_up (Z.to_nat (glyph_height k)) 0 (fun gy =>
    let fb_line := dest + gy * outer_stride in
    let canvas_line := x + (y + gy) * width k in
    let glyph_pointer := glyph + gy * font_width k in
    for_up (Z.to_nat (font_width k)) 0 (fun fx f =>
      bg ← canvas_colour canvas (canvas_line + fx) (char_bg c);
      fg ← canvas_colour canvas (canvas_line + fx) (char_fg c);
      bit ← load (font_bool k) (glyph_pointer + fx);
      store f (fb_line + fx * inner_stride) (if bit : bool then fg else bg))) f.

Definition plot_char_unscaled_uncanvas (x y : Z) (f : pixels) : outcome pixels :=
  if (cols t <=? x) || (rows t <=? y) then Ret f else
  let bg := if char_bg c =? TRANSPARENT then default_bg k else char_bg c in
  let fg := if char_fg c =? TRANSPARENT then default_fg k else char_fg c in
  let x := offset_x k + x * glyph_width k in
  let y := offset_y k + y * glyph_height k in
  let glyph := char_c c * font_height k * font_width k in
  let '(dest, outer_stride, inner_stride) := strides k x y in
  for_up (Z.to_nat (glyph_height k)) 0 (fun gy =>
    let fb_line := dest + gy * outer_stride in
    let glyph_pointer := glyph + gy * font_width k in
    for_up (Z.to_nat (font_width k)) 0 (fun fx f =>
      bit ← load (font_bool k) (glyph_pointer + fx);
      store f (fb_line + fx * inner_stride) (if bit : bool then fg else bg))) f.
End plot.

(** The pixel of the framebuffer behind the pixel [x], [y] of the display. *)
Definition refresh_pixel (k : fb_config) (x y : Z) : Z :=
  let '(px, py) :=
    if rotation k =? FLANTERM_FB_ROTATE_90 then (height k - 1 - y, x)
    else if rotation k =? FLANTERM_FB_ROTATE_180 then (width k - 1 - x, height k - 1 - y)
    else if rotation k =? FLANTERM_FB_ROTATE_270 then (y, width k - 1 - x)
    else (x, y) in
  py * (pitch k / 4) + px.

(** The first loop of the full refresh: the canvas, or the background colour. *)
Definition fill_background (k : fb_config) (f : pixels) : outcome pixels :=
  for_up (Z.to_nat (height k)) 0 (fun y =>
    for_up (Z.to_nat (width k)) 0 (fun x f =>
      v ← match canvas k with Some l => load l (y * width k + x) | None => Ret (default_bg k) end;
      store f (refresh_pixel k x y) v)) f.

(** The routine the initialisation chooses. *)
#[export] Instance pixel_plotter : Plotter pixels := {
  plot_char t k c x y f :=
    if (font_scale_x k =? 1) && (font_scale_y k =? 1) then
      match canvas k with
      | None => plot_char_unscaled_uncanvas t k c x y f
      | Some l => plot_char_unscaled_canvas t k c l x y f
      end
    else
      match canvas k with
      | None => plot_char_scaled_uncanvas t k c x y f
      | Some l => plot_char_scaled_canvas t k c l x y f
      end;
  paint_background := fill_background
}.
