(* ===== verification/FbPixels.v ===== *)
(** The drawing routines draw the pixels of the glyph, and no other. *)

From Stdlib Require Import Ascii.
From S2P Require Import Prelude Term TermRefine Fb FbQueue FbScreen FbRefine FbPlot.

(** ** Loops and pointers *)

Lemma for_up_inv {A} (P : Z -> A -> Prop) n lo f (a : A) : P lo a ->
  (forall i a, lo <= i < lo + Z.of_nat n -> P i a -> exists a', f i a = Ret a' /\ P (i + 1) a') ->
  exists a', for_up n lo f a = Ret a' /\ P (lo + Z.of_nat n) a'.
Proof.
  revert lo a. induction n as [|n IH]; intros lo a HP Hf; cbn [for_up].
  { exists a. by rewrite Z.add_0_r. }
  destruct (Hf lo a) as (a1 & -> & HP1); [lia|done|]. cbn [mbind outcome_bind].
  destruct (IH (lo + 1) a1 HP1) as (a2 & E2 & HP2); [intros i b Hi; apply Hf; lia|].
  exists a2. split; [done|]. by replace (lo + Z.of_nat (S n)) with (lo + 1 + Z.of_nat n) by lia.
Qed.

Lemma load_lookup {A} (l : list A) i x : 0 <= i -> l !! Z.to_nat i = Some x -> load l i = Ret x.
Proof. intros Hi Hx. unfold load. split_ltb i 0; [lia|]. by apply get_lookup. Qed.

Lemma store_lt {A} (l : list A) i v : 0 <= i < Z.of_nat (length l) -> store l i v = Ret (<[Z.to_nat i := v]> l).
Proof. intros Hi. unfold store. split_ltb i 0; [lia|]. apply put_lt. lia. Qed.

(** ** The framebuffer and the font *)

(** The display is turned on its side. *)
Definition sideways (k : fb_config) : bool :=
  (rotation k =? FLANTERM_FB_ROTATE_90) || (rotation k =? FLANTERM_FB_ROTATE_270).

(** The cells fit the display, the display fits the framebuffer, the font has 256 glyphs,
    and the canvas is as large as the display. *)
Record pixels_ok (r c : Z) (k : fb_config) (f : pixels) : Prop := {
  px_offset : 0 <= offset_x k /\ 0 <= offset_y k;
  px_fits : offset_x k + c * glyph_width k <= width k /\ offset_y k + r * glyph_height k <= height k;
  px_scale : 0 < font_scale_x k /\ 0 < font_scale_y k;
  px_font_size : 0 < font_width k /\ 0 < font_height k <= 256;
  px_glyph : glyph_width k = font_scale_x k * font_width k /\ glyph_height k = font_height k * font_scale_y k;
  px_font : Z.of_nat (length (font_bool k)) = 256 * font_height k * font_width k;
  px_canvas : forall l, canvas k = Some l -> Z.of_nat (length l) = width k * height k;
  px_pitch : 0 <= pitch k / 4 < 0x80000000;
  px_frame : if sideways k
    then height k <= pitch k / 4 /\ width k * (pitch k / 4) <= Z.of_nat (length f)
    else width k <= pitch k / 4 /\ height k * (pitch k / 4) <= Z.of_nat (length f)
}.

(** The four rotations. *)
Ltac rotations k :=
  unfold FLANTERM_FB_ROTATE_90, FLANTERM_FB_ROTATE_180, FLANTERM_FB_ROTATE_270 in *;
  split_eqb (rotation k) 1; [|split_eqb (rotation k) 2; [|split_eqb (rotation k) 3]];
  cbn [orb] in *; try (split_eqb (rotation k) 3; [lia|]).

Section address.
Context (r c : Z) (k : fb_config) (f : pixels) (Hok : pixels_ok r c k f).

Lemma strides_spec x y dest outer inner gx gy : strides k x y = (dest, outer, inner) ->
  dest + gy * outer + gx * inner = refresh_pixel k (x + gx) (y + gy).
Proof using Hok.
  pose proof (px_pitch _ _ _ _ Hok). unfold strides, refresh_pixel. cbv zeta. rewrite !s32_small by lia.
  repeat case_match; intros [= <- <- <-]; ring.
Qed.

Lemma refresh_pixel_range x y : 0 <= x < width k -> 0 <= y < height k ->
  0 <= refresh_pixel k x y < Z.of_nat (length f).
Proof using Hok.
  intros Hx Hy. pose proof (px_frame _ _ _ _ Hok) as Hf. unfold sideways in Hf. unfold refresh_pixel.
  revert Hf. generalize (pitch k / 4). intros p Hf. rotations k; nia.
Qed.

Lemma refresh_pixel_inj x y x' y' : 0 <= x < width k -> 0 <= y < height k -> 0 <= x' < width k -> 0 <= y' < height k ->
  refresh_pixel k x y = refresh_pixel k x' y' -> x = x' /\ y = y'.
Proof using Hok.
  intros Hx Hy Hx' Hy'. pose proof (px_frame _ _ _ _ Hok) as Hf. unfold sideways in Hf. unfold refresh_pixel.
  revert Hf. generalize (pitch k / 4). intros p Hf. rotations k; intros Heq; apply cell_index_inj in Heq; lia.
Qed.
End address.

(** ** The pixels of a character *)

(** A colour of the character at a pixel of the display. *)
Definition pixel_colour (k : fb_config) (v other px py : Z) : Z :=
  if v =? TRANSPARENT then
    match canvas k with Some l => default 0 (l !! Z.to_nat (py * width k + px)) | None => other end
  else v.

(** The bit of the glyph at a pixel of the cell. *)
Definition glyph_bit (k : fb_config) (c gx gy : Z) : bool :=
  default false (font_bool k !! Z.to_nat (c * font_height k * font_width k + gy / font_scale_y k * font_width k + gx / font_scale_x k)).

(** The pixel [gx], [gy] of the character, drawn with its corner at [px], [py]. *)
Definition pixel (k : fb_config) (c : fb_char) (px py gx gy : Z) : Z :=
  if glyph_bit k (char_c c) gx gy then pixel_colour k (char_fg c) (default_fg k) (px + gx) (py + gy)
  else pixel_colour k (char_bg c) (default_bg k) (px + gx) (py + gy).

Definition pixel_shows (k : fb_config) (f : pixels) (x y : Z) (c : fb_char) : Prop :=
  let px := offset_x k + x * glyph_width k in let py := offset_y k + y * glyph_height k in
  forall gx gy, 0 <= gx < glyph_width k -> 0 <= gy < glyph_height k ->
  f !! Z.to_nat (refresh_pixel k (px + gx) (py + gy)) = Some (pixel k c px py gx gy).

Section draw.
Context (r c : Z) (k : fb_config) (f0 : pixels) (Hok : pixels_ok r c k f0).
Context (x y : Z) (Hx : 0 <= x < c) (Hy : 0 <= y < r) (ch : fb_char) (Hch : char_ok ch).

Let px := offset_x k + x * glyph_width k.
Let py := offset_y k + y * glyph_height k.

(** The cell is on the display. *)
Lemma cell_on_display gx gy : 0 <= gx < glyph_width k -> 0 <= gy < glyph_height k ->
  0 <= px + gx < width k /\ 0 <= py + gy < height k.
Proof using All.
  intros Hgx Hgy. pose proof (px_fits _ _ _ _ Hok). pose proof (px_offset _ _ _ _ Hok). subst px py. nia.
Qed.

(** The bits of the glyph are in the font. *)
Lemma glyph_bit_load gx gy : 0 <= gx < glyph_width k -> 0 <= gy < glyph_height k ->
  load (font_bool k) (char_c ch * font_height k * font_width k + u8 (gy / font_scale_y k) * font_width k + gx / font_scale_x k) =
  Ret (glyph_bit k (char_c ch) gx gy).
Proof using All.
  intros Hgx Hgy. destruct (px_scale _ _ _ _ Hok) as [Hsx Hsy]. destruct (px_font_size _ _ _ _ Hok) as [Hfw Hfh].
  destruct (px_glyph _ _ _ _ Hok) as [Egw Egh]. pose proof (px_font _ _ _ _ Hok) as Hfont.
  assert (H1 : 0 <= gy / font_scale_y k < font_height k).
  { split; [apply Z.div_pos; lia|]. apply Z.div_lt_upper_bound; nia. }
  assert (H2 : 0 <= gx / font_scale_x k < font_width k).
  { split; [apply Z.div_pos; lia|]. apply Z.div_lt_upper_bound; nia. }
  unfold u8. rewrite Z.mod_small by lia. destruct Hch as [Hc0 Hc1].
  set (i := char_c ch * font_height k * font_width k + gy / font_scale_y k * font_width k + gx / font_scale_x k).
  assert (Hi : 0 <= i < Z.of_nat (length (font_bool k))).
  { rewrite Hfont. subst i. set (a := gy / font_scale_y k) in *. set (b := gx / font_scale_x k) in *. clearbody a b.
    assert (0 <= char_c ch * font_height k + a < 256 * font_height k) by nia. nia. }
  destruct (lookup_lt_is_Some_2 (font_bool k) (Z.to_nat i)) as [bit Hbit]; [lia|].
  unfold glyph_bit. fold i. rewrite Hbit. cbn. apply load_lookup; [lia|done].
Qed.

(** The pixels of the lines before [gy], and those of the line [gy] before [m], are drawn. *)
Definition drawn (gy m : Z) (f : pixels) : Prop :=
  length f = length f0 /\
  forall lx ly, 0 <= lx < width k -> 0 <= ly < height k ->
  f !! Z.to_nat (refresh_pixel k lx ly) =
  if decide (0 <= lx - px < glyph_width k /\ 0 <= ly - py < glyph_height k /\ (ly - py < gy \/ ly - py = gy /\ lx - px < m))
  then Some (pixel k ch px py (lx - px) (ly - py)) else f0 !! Z.to_nat (refresh_pixel k lx ly).

Lemma drawn_start : drawn 0 0 f0.
Proof using All. split; [done|]. intros lx ly _ _. rewrite decide_False; [done|lia]. Qed.

Lemma drawn_next gy f : drawn gy (glyph_width k) f -> drawn (gy + 1) 0 f.
Proof using All.
  intros [Hl Hd]. split; [done|]. intros lx ly Hlx Hly. rewrite (Hd lx ly Hlx Hly).
  repeat case_decide; done || lia.
Qed.

Lemma drawn_pixel gy m f v dest outer inner : drawn gy m f -> 0 <= m < glyph_width k -> 0 <= gy < glyph_height k ->
  strides k px py = (dest, outer, inner) -> v = pixel k ch px py m gy ->
  exists f', store f (dest + gy * outer + m * inner) v = Ret f' /\ drawn gy (m + 1) f'.
Proof using All.
  intros [Hl Hd] Hm Hgy Hs ->. destruct (cell_on_display m gy Hm Hgy) as [Hcx Hcy].
  rewrite (strides_spec r c k f0 Hok px py dest outer inner m gy Hs).
  pose proof (refresh_pixel_range _ _ _ _ Hok (px + m) (py + gy) Hcx Hcy) as Hr.
  eexists. split; [apply store_lt; rewrite Hl; lia|]. split; [by rewrite length_insert|].
  intros lx ly Hlx Hly. pose proof (refresh_pixel_range _ _ _ _ Hok lx ly Hlx Hly) as Hr'.
  destruct (decide (lx = px + m /\ ly = py + gy)) as [[-> ->]|Hne].
  - rewrite list_lookup_insert_eq by lia. rewrite decide_True by lia. do 2 f_equal; lia.
  - rewrite list_lookup_insert_ne.
    + rewrite (Hd lx ly Hlx Hly). repeat case_decide; done || lia.
    + intros Heq. apply Hne. pose proof (refresh_pixel_inj _ _ _ _ Hok (px + m) (py + gy) lx ly Hcx Hcy Hlx Hly). lia.
Qed.

(** The whole cell drawn: it shows the character and the other cells are as they were. *)
Lemma drawn_end f : drawn (glyph_height k) 0 f -> pixels_ok r c k f /\ pixel_shows k f x y ch /\
  forall x' y' ch', 0 <= x' < c -> 0 <= y' < r -> (x', y') <> (x, y) -> pixel_shows k f0 x' y' ch' -> pixel_shows k f x' y' ch'.
Proof using All.
  intros [Hl Hd]. assert (Hok' : pixels_ok r c k f) by (destruct Hok; split; rewrite ?Hl; done).
  split_and!; [done| |].
  - intros gx gy Hgx Hgy. destruct (cell_on_display gx gy Hgx Hgy) as [Hcx Hcy]. fold px py.
    rewrite (Hd _ _ Hcx Hcy), decide_True by lia. do 2 f_equal; lia.
  - intros x' y' ch' Hx' Hy' Hne Hsh gx gy Hgx Hgy. rewrite <- (Hsh gx gy Hgx Hgy).
    pose proof (px_fits _ _ _ _ Hok). pose proof (px_offset _ _ _ _ Hok).
    rewrite Hd; [|nia|nia]. rewrite decide_False; [done|]. subst px py. intros (Hix & Hiy & _).
    apply Hne. f_equal; nia.
Qed.

(** *** The loops of the four routines *)

(** A loop over the lines whose body draws one line. *)
Lemma plot_lines (line : Z -> pixels -> outcome pixels) :
  (forall gy f, 0 <= gy < glyph_height k -> drawn gy 0 f -> exists f', line gy f = Ret f' /\ drawn gy (glyph_width k) f') ->
  exists f', for_up (Z.to_nat (glyph_height k)) 0 line f0 = Ret f' /\ drawn (glyph_height k) 0 f'.
Proof using All.
  intros Hline. destruct (px_glyph _ _ _ _ Hok) as [_ Egh]. destruct (px_scale _ _ _ _ Hok). destruct (px_font_size _ _ _ _ Hok).
  destruct (for_up_inv (fun gy f => drawn gy 0 f) (Z.to_nat (glyph_height k)) 0 line f0 drawn_start) as (f' & E & Hf').
  { intros gy f Hgy Hf. destruct (Hline gy f) as (f' & E & Hf'); [nia|done|]. exists f'. split; [done|]. by apply drawn_next. }
  exists f'. split; [done|]. by replace (0 + Z.of_nat (Z.to_nat (glyph_height k))) with (glyph_height k) in Hf' by nia.
Qed.

(** A line drawn pixel by pixel. *)
Lemma plot_line_unscaled gy (body : Z -> pixels -> outcome pixels) f : font_scale_x k = 1 -> 0 <= gy < glyph_height k ->
  (forall gx f, 0 <= gx < glyph_width k -> drawn gy gx f -> exists f', body gx f = Ret f' /\ drawn gy (gx + 1) f') ->
  drawn gy 0 f -> exists f', for_up (Z.to_nat (font_width k)) 0 body f = Ret f' /\ drawn gy (glyph_width k) f'.
Proof using All.
  intros Hs Hgy Hbody Hf. destruct (px_glyph _ _ _ _ Hok) as [Egw _]. destruct (px_font_size _ _ _ _ Hok).
  destruct (for_up_inv (fun gx f => drawn gy gx f) (Z.to_nat (font_width k)) 0 body f Hf) as (f' & E & Hf').
  { intros gx a Hgx. apply Hbody. lia. }
  exists f'. split; [done|]. by replace (0 + Z.of_nat (Z.to_nat (font_width k))) with (glyph_width k) in Hf' by lia.
Qed.

(** A line drawn column by column of the font, each [font_scale_x] pixels wide. *)
Lemma plot_line_scaled gy (body : Z -> Z -> pixels -> outcome pixels) f : 0 <= gy < glyph_height k ->
  (forall fx i f, 0 <= fx < font_width k -> 0 <= i < font_scale_x k -> drawn gy (font_scale_x k * fx + i) f ->
     exists f', body fx i f = Ret f' /\ drawn gy (font_scale_x k * fx + i + 1) f') ->
  drawn gy 0 f -> exists f',
    for_up (Z.to_nat (font_width k)) 0 (fun fx => for_up (Z.to_nat (font_scale_x k)) 0 (body fx)) f = Ret f' /\
    drawn gy (glyph_width k) f'.
Proof using All.
  intros Hgy Hbody Hf. destruct (px_glyph _ _ _ _ Hok) as [Egw _]. destruct (px_font_size _ _ _ _ Hok). destruct (px_scale _ _ _ _ Hok).
  destruct (for_up_inv (fun fx f => drawn gy (font_scale_x k * fx) f) (Z.to_nat (font_width k)) 0
    (fun fx => for_up (Z.to_nat (font_scale_x k)) 0 (body fx)) f) as (f' & E & Hf').
  { by rewrite Z.mul_0_r. }
  { intros fx a Hfx Ha.
    destruct (for_up_inv (fun i f => drawn gy (font_scale_x k * fx + i) f) (Z.to_nat (font_scale_x k)) 0 (body fx) a) as (a' & Ea & Ha').
    { by rewrite Z.add_0_r. }
    { intros i a' Hi Ha'. destruct (Hbody fx i a') as (a'' & Ea & Ha''); [lia..|done|]. exists a''. split; [done|].
      by rewrite Z.add_assoc. }
    exists a'. split; [done|].
    by replace (font_scale_x k * fx + (0 + Z.of_nat (Z.to_nat (font_scale_x k)))) with (font_scale_x k * (fx + 1)) in Ha' by lia. }
  exists f'. split; [done|]. rewrite Egw. by replace (0 + Z.of_nat (Z.to_nat (font_width k))) with (font_width k) in Hf' by lia.
Qed.

(** The colour of a pixel read from the canvas. *)
Lemma canvas_colour_spec l v other gx gy : canvas k = Some l -> 0 <= gx < glyph_width k -> 0 <= gy < glyph_height k ->
  canvas_colour l (px + (py + gy) * width k + gx) v = Ret (pixel_colour k v other (px + gx) (py + gy)).
Proof using All.
  intros Hl Hgx Hgy. destruct (cell_on_display gx gy Hgx Hgy) as [Hcx Hcy].
  pose proof (px_canvas _ _ _ _ Hok l Hl) as Hlen. unfold canvas_colour, pixel_colour. rewrite Hl.
  destruct (v =? TRANSPARENT); [|done].
  replace (px + (py + gy) * width k + gx) with ((py + gy) * width k + (px + gx)) by lia.
  destruct (lookup_lt_is_Some_2 l (Z.to_nat ((py + gy) * width k + (px + gx)))) as [w Hw]; [nia|].
  rewrite Hw. apply load_lookup; [nia|done].
Qed.

Lemma pixel_of_colours gx gy bg fg bit :
  bg = pixel_colour k (char_bg ch) (default_bg k) (px + gx) (py + gy) ->
  fg = pixel_colour k (char_fg ch) (default_fg k) (px + gx) (py + gy) ->
  bit = glyph_bit k (char_c ch) gx gy ->
  (if bit then fg else bg) = pixel k ch px py gx gy.
Proof using All. by intros -> -> ->. Qed.

(** *** The four routines *)

Context (t : term) (Hr : rows t = r) (Hc : cols t = c).

(** The bit of a column of the font. *)
Lemma scaled_bit_load gy fx i : 0 <= gy < glyph_height k -> 0 <= fx < font_width k -> 0 <= i < font_scale_x k ->
  0 <= font_scale_x k * fx + i < glyph_width k /\
  load (font_bool k) (char_c ch * font_height k * font_width k + u8 (gy / font_scale_y k) * font_width k + fx) =
  Ret (glyph_bit k (char_c ch) (font_scale_x k * fx + i) gy).
Proof using All.
  intros Hgy Hfx Hi. assert (Hm : 0 <= font_scale_x k * fx + i < glyph_width k).
  { destruct (px_glyph _ _ _ _ Hok) as [-> _]. nia. }
  split; [done|]. pose proof (glyph_bit_load _ _ Hm Hgy) as Hbit.
  rewrite (Z.mul_comm (font_scale_x k) fx), Z.div_add_l, (Z.div_small i), Z.add_0_r, (Z.mul_comm fx) in Hbit by lia.
  done.
Qed.

(** The bit of a pixel of an unscaled font. *)
Lemma unscaled_bit_load gx gy : font_scale_x k = 1 -> font_scale_y k = 1 ->
  0 <= gx < glyph_width k -> 0 <= gy < glyph_height k ->
  load (font_bool k) (char_c ch * font_height k * font_width k + gy * font_width k + gx) =
  Ret (glyph_bit k (char_c ch) gx gy).
Proof using All.
  intros Esx Esy Hgx Hgy. pose proof (glyph_bit_load _ _ Hgx Hgy) as Hbit. rewrite Esx, Esy, !Z.div_1_r in Hbit.
  destruct (px_glyph _ _ _ _ Hok) as [_ Egh]. destruct (px_font_size _ _ _ _ Hok) as [_ Hfh].
  unfold u8 in Hbit. by rewrite (Z.mod_small gy) in Hbit by lia.
Qed.

(** The colours without a canvas. *)
Lemma uncanvas_colour v other lx ly : canvas k = None ->
  (if v =? TRANSPARENT then other else v) = pixel_colour k v other lx ly.
Proof using All. intros Hcv. unfold pixel_colour. by rewrite Hcv. Qed.

Ltac plot_start :=
  rewrite Hr, Hc; split_leb c x; [lia|]; split_leb r y; [lia|]; cbn [orb]; cbv zeta; fold px py;
  destruct (strides k px py) as [[dest outer] inner] eqn:Hs; apply plot_lines; intros gy f Hgy Hf.

Lemma scaled_uncanvas : canvas k = None ->
  exists f', plot_char_scaled_uncanvas t k ch x y f0 = Ret f' /\ drawn (glyph_height k) 0 f'.
Proof using All.
  intros Hcv. unfold plot_char_scaled_uncanvas. plot_start. apply plot_line_scaled; [done| |done].
  clear f Hf. intros fx i f Hfx Hi Hf. destruct (scaled_bit_load gy fx i Hgy Hfx Hi) as [Hm ->].
  cbn [mbind outcome_bind]. apply drawn_pixel; [done..|].
  apply pixel_of_colours; [by apply uncanvas_colour..|done].
Qed.

Lemma unscaled_uncanvas : canvas k = None -> font_scale_x k = 1 -> font_scale_y k = 1 ->
  exists f', plot_char_unscaled_uncanvas t k ch x y f0 = Ret f' /\ drawn (glyph_height k) 0 f'.
Proof using All.
  intros Hcv Esx Esy. unfold plot_char_unscaled_uncanvas. plot_start. apply plot_line_unscaled; [done..| |done].
  clear f Hf. intros gx f Hgx Hf. rewrite (unscaled_bit_load gx gy) by done.
  cbn [mbind outcome_bind]. apply drawn_pixel; [done..|].
  apply pixel_of_colours; [by apply uncanvas_colour..|done].
Qed.

Lemma scaled_canvas l : canvas k = Some l ->
  exists f', plot_char_scaled_canvas t k ch l x y f0 = Ret f' /\ drawn (glyph_height k) 0 f'.
Proof using All.
  intros Hcv. unfold plot_char_scaled_canvas. plot_start. apply plot_line_scaled; [done| |done].
  clear f Hf. intros fx i f Hfx Hi Hf. destruct (scaled_bit_load gy fx i Hgy Hfx Hi) as [Hm Hbit].
  rewrite (canvas_colour_spec l (char_bg ch) (default_bg k)), (canvas_colour_spec l (char_fg ch) (default_fg k)) by done.
  cbn [mbind outcome_bind]. rewrite Hbit. cbn [mbind outcome_bind]. apply drawn_pixel; [done..|].
  by apply pixel_of_colours.
Qed.

Lemma unscaled_canvas l : canvas k = Some l -> font_scale_x k = 1 -> font_scale_y k = 1 ->
  exists f', plot_char_unscaled_canvas t k ch l x y f0 = Ret f' /\ drawn (glyph_height k) 0 f'.
Proof using All.
  intros Hcv Esx Esy. unfold plot_char_unscaled_canvas. plot_start. apply plot_line_unscaled; [done..| |done].
  clear f Hf. intros gx f Hgx Hf.
  rewrite (canvas_colour_spec l (char_bg ch) (default_bg k)), (canvas_colour_spec l (char_fg ch) (default_fg k)) by done.
  cbn [mbind outcome_bind]. rewrite (unscaled_bit_load gx gy) by done. cbn [mbind outcome_bind].
  apply drawn_pixel; [done..|]. by apply pixel_of_colours.
Qed.

Lemma plot_char_pixels : exists f', plot_char t k ch x y f0 = Ret f' /\ drawn (glyph_height k) 0 f'.
Proof using All.
  cbn. destruct (_ && _) eqn:Hs; destruct (canvas k) as [l|] eqn:Hcv.
  - apply andb_true_iff in Hs as [?%Z.eqb_eq ?%Z.eqb_eq]. by apply unscaled_canvas.
  - apply andb_true_iff in Hs as [?%Z.eqb_eq ?%Z.eqb_eq]. by apply unscaled_uncanvas.
  - by apply scaled_canvas.
  - by apply scaled_uncanvas.
Qed.
End draw.

(** ** The background *)

Lemma fill_background_ok r c k f0 : pixels_ok r c k f0 ->
  exists f, fill_background k f0 = Ret f /\ pixels_ok r c k f.
Proof.
  intros Hok.
  assert (Hlen : forall f, length f = length f0 -> pixels_ok r c k f) by (intros f Hl; destruct Hok; split; rewrite ?Hl; done).
  destruct (for_up_inv (fun _ f => length f = length f0) (Z.to_nat (height k)) 0
    (fun y => for_up (Z.to_nat (width k)) 0 (fun x f =>
      v ← match canvas k with Some l => load l (y * width k + x) | None => Ret (default_bg k) end;
      store f (refresh_pixel k x y) v)) f0) as (f & E & Hl); [done| |by exists f; auto].
  intros y f Hy Hf. apply (for_up_inv (fun _ f => length f = length f0)); [done|]. intros x a Hx Ha.
  assert (Hv : exists v, match canvas k with Some l => load l (y * width k + x) | None => Ret (default_bg k) end = Ret v).
  { destruct (canvas k) as [l|] eqn:Hcv; [|eauto]. pose proof (px_canvas _ _ _ _ Hok l Hcv).
    destruct (lookup_lt_is_Some_2 l (Z.to_nat (y * width k + x))) as [v Hv]; [nia|]. exists v. apply load_lookup; [nia|done]. }
  destruct Hv as [v ->]. cbn [mbind outcome_bind].
  pose proof (refresh_pixel_range _ _ _ _ Hok x y ltac:(lia) ltac:(lia)).
  eexists. split; [apply store_lt; rewrite Ha; lia|]. by rewrite length_insert.
Qed.

#[export] Instance pixel_laws : PlotterLaws pixels.
Proof.
  refine {| p_inv := pixels_ok; shows := pixel_shows |}.
  - intros t k f x y ch Hok Hx Hy Hch.
    destruct (plot_char_pixels _ _ k f Hok x y Hx Hy ch Hch t eq_refl eq_refl) as (f' & E & Hd).
    exists f'. split; [done|]. by apply (drawn_end _ _ k f Hok x y Hx Hy ch).
  - apply fill_background_ok.
Defined.
