(* ===== verification/FbInit.v ===== *)
(** * The start and the end of a framebuffer terminal

    The built-in font, flanterm_fb_init and flanterm_fb_deinit. *)

From Stdlib Require Import Ascii.
From S2P Require Import Prelude Term Fb FbPlot.

(** The built-in font of the framebuffer backend: 256 glyphs of 16 lines, one byte for
    each line (flanterm/src/flanterm_backends/fb.c). *)

(** The rows of the array as the source has them, 12 bytes each, without the last row. *)
Definition font_rows : list Z :=
  [
    0x000000000000000000000000;
    0x00000000003c428181a5a581;
    0x81a59981423c0000003c7eff;
    0xffdbdbffffdbe7ff7e3c0000;
    0x0000006cfefefe7c7c383810;
    0x1000000000101038387c7cfe;
    0x7c7c38381010000000000018;
    0x3c3cdbffffdb18183c000000;
    0x000000183c7effffff661818;
    0x3c0000000000000000003078;
    0x7830000000000000ffffffff;
    0xffffe7c3c3e7ffffffffffff;
    0x000000000078cc8484cc7800;
    0x00000000ffffffffffc399bd;
    0xbd99c3ffffffffff0000001e;
    0x0e1e3278cccccc7800000000;
    0x00000078cccccc7830fc3030;
    0x00000000000010181c1e1612;
    0x101070f0e00000000030382c;
    0x26323a2e262262e2c60e0c00;
    0x0000001818db3ce73cdb1818;
    0x0000000000000080c0e0f8fe;
    0xf8e0c0800000000000000002;
    0x060e3efe3e0e060200000000;
    0x00003078fc3030303030fc78;
    0x300000000000cccccccccccc;
    0xcccc00cccc00000000007fdb;
    0xdbdbdb7b1b1b1b1b1b000000;
    0x00007cc660386cc6c66c380c;
    0xc67c00000000000000000000;
    0x0000fefefe00000000003078;
    0xfc3030303030fc7830fc0000;
    0x00003078fc30303030303030;
    0x300000000000303030303030;
    0x3030fc783000000000000000;
    0x00180cfefe0c180000000000;
    0x00000000003060fefe603000;
    0x0000000000000000000000c0;
    0xc0c0fe000000000000000000;
    0x002466ffff66240000000000;
    0x00000000101038387c7cfefe;
    0x0000000000000000fefe7c7c;
    0x383810100000000000000000;
    0x000000000000000000000000;
    0x000030787878783030300030;
    0x300000000000cccccccccc00;
    0x000000000000000000006c6c;
    0x6cfe6c6c6cfe6c6c6c000000;
    0x0018187cc6c0c07c0606c67c;
    0x181800000000c6c60c0c1838;
    0x306060c6c60000000000386c;
    0x6c383076deccccde76000000;
    0x000018181830000000000000;
    0x000000000000183060606060;
    0x606060301800000000006030;
    0x181818181818183060000000;
    0x00000000006c38fe386c0000;
    0x00000000000000000018187e;
    0x181800000000000000000000;
    0x000000000000001818300000;
    0x00000000000000fe00000000;
    0x000000000000000000000000;
    0x000000181800000000000606;
    0x0c0c1838306060c0c0000000;
    0x00007cc6c6c6d6d6d6c6c6c6;
    0x7c0000000000183878181818;
    0x181818187e00000000007cc6;
    0x06060c183060c0c0fe000000;
    0x00007cc606063c06060606c6;
    0x7c0000000000040c1c3c6ccc;
    0xfe0c0c0c0c0000000000fec0;
    0xc0c0fc06060606c67c000000;
    0x00003c60c0c0fcc6c6c6c6c6;
    0x7c0000000000fec606060c18;
    0x303030303000000000007cc6;
    0xc6c67cc6c6c6c6c67c000000;
    0x00007cc6c6c6c67e0606060c;
    0x780000000000000000000018;
    0x180000181800000000000000;
    0x000000181800001818300000;
    0x0000060c183060c06030180c;
    0x06000000000000000000fe00;
    0xfe000000000000000000c060;
    0x30180c060c183060c0000000;
    0x00007cc6c6060c1830300030;
    0x3000000000007cc6c6c6dede;
    0xdedec0c07e0000000000386c;
    0xc6c6c6c6fec6c6c6c6000000;
    0x0000fcc6c6c6fcc6c6c6c6c6;
    0xfc00000000007cc6c0c0c0c0;
    0xc0c0c0c67c0000000000f8cc;
    0xc6c6c6c6c6c6c6ccf8000000;
    0x0000fec0c0c0fcc0c0c0c0c0;
    0xfe0000000000fec0c0c0fcc0;
    0xc0c0c0c0c000000000007cc6;
    0xc0c0c0dec6c6c6c67e000000;
    0x0000c6c6c6c6c6fec6c6c6c6;
    0xc60000000000fc3030303030;
    0x30303030fc00000000001e0c;
    0x0c0c0c0c0c0ccccc78000000;
    0x0000c6c6ccd8f0e0f0d8ccc6;
    0xc60000000000c0c0c0c0c0c0;
    0xc0c0c0c0fe0000000000c6c6;
    0xeefed6d6d6c6c6c6c6000000;
    0x0000c6c6e6e6f6dececec6c6;
    0xc600000000007cc6c6c6c6c6;
    0xc6c6c6c67c0000000000fcc6;
    0xc6c6c6fcc0c0c0c0c0000000;
    0x00007cc6c6c6c6c6c6c6f6da;
    0x6c0600000000fcc6c6c6c6fc;
    0xd8ccccc6c600000000007cc6;
    0xc06030180c0606c67c000000;
    0x0000ff181818181818181818;
    0x180000000000c6c6c6c6c6c6;
    0xc6c6c6c67c0000000000c6c6;
    0xc6c6c6c6c6c66c3810000000;
    0x0000c6c6c6c6d6d6d6d6fe6c;
    0x6c0000000000c6c6c66c3838;
    0x386cc6c6c60000000000cccc;
    0xcccccc783030303030000000;
    0x0000fe06060c183060c0c0c0;
    0xfe0000000000786060606060;
    0x60606060780000000000c0c0;
    0x60603038180c0c0606000000;
    0x000078181818181818181818;
    0x78000000000010386cc60000;
    0x000000000000000000000000;
    0x00000000000000000000ff00;
    0x00001818180c000000000000;
    0x0000000000000000007c0606;
    0x7ec6c6c67e0000000000c0c0;
    0xc0dce6c6c6c6c6e6dc000000;
    0x00000000007cc6c0c0c0c0c6;
    0x7c000000000006060676cec6;
    0xc6c6c6ce7600000000000000;
    0x007cc6c6fec0c0c07e000000;
    0x00001c363030fc3030303030;
    0x30000000000000000076cec6;
    0xc6c6ce7606c67c000000c0c0;
    0xc0dce6c6c6c6c6c6c6000000;
    0x000018000038181818181818;
    0x3c00000000000600001e0606;
    0x06060606c6c67c000000c0c0;
    0xc0c6ccd8f0f0d8ccc6000000;
    0x000038181818181818181818;
    0x3c0000000000000000ecfed6;
    0xd6d6d6c6c600000000000000;
    0x00dce6c6c6c6c6c6c6000000;
    0x00000000007cc6c6c6c6c6c6;
    0x7c0000000000000000dce6c6;
    0xc6c6e6dcc0c0c00000000000;
    0x0076cec6c6c6ce7606060600;
    0x0000000000dce6c0c0c0c0c0;
    0xc000000000000000007cc6c0;
    0x701c06c67c00000000003030;
    0x30fe3030303030361c000000;
    0x0000000000c6c6c6c6c6c6c6;
    0x7c0000000000000000c6c6c6;
    0xc6c66c381000000000000000;
    0x00c6c6d6d6d6d6fe6c000000;
    0x0000000000c6c66c38386cc6;
    0xc60000000000000000c6c6c6;
    0xc6c6ce7606c67c0000000000;
    0x00fe060c183060c0fe000000;
    0x00001c30303030e030303030;
    0x1c0000000000303030303000;
    0x30303030300000000000e030;
    0x3030301c30303030e0000000;
    0x00000076dc00000000000000;
    0x00000000000000101038386c;
    0x6cc6c6fe0000000000003c66;
    0xc0c0c0c0c0c0663c18cc7800;
    0x00006c6c00c6c6c6c6c6c6c6;
    0x7c000000000c1830007cc6c6;
    0xfec0c0c07e0000000010386c;
    0x007c06067ec6c6c67e000000;
    0x00006c6c007c06067ec6c6c6;
    0x7e00000000603018007c0606;
    0x7ec6c6c67e00000000386c38;
    0x007c06067ec6c6c67e000000;
    0x00000000007cc6c0c0c0c0c6;
    0x7c180c380010386c007cc6c6;
    0xfec0c0c07e00000000006c6c;
    0x007cc6c6fec0c0c07e000000;
    0x00603018007cc6c6fec0c0c0;
    0x7e00000000006c6c00381818;
    0x181818183c0000000010386c;
    0x00381818181818183c000000;
    0x006030180038181818181818;
    0x3c000000c6c610386cc6c6c6;
    0xfec6c6c6c6000000386c3800;
    0x386cc6c6c6fec6c6c6000000;
    0x18306000fec0c0fcc0c0c0c0;
    0xfe0000000000000000ec3636;
    0x76ded8d86e00000000001e3c;
    0x6cccccfeccccccccce000000;
    0x0010386c007cc6c6c6c6c6c6;
    0x7c00000000006c6c007cc6c6;
    0xc6c6c6c67c00000000603018;
    0x007cc6c6c6c6c6c67c000000;
    0x0010386c00c6c6c6c6c6c6c6;
    0x7c0000000060301800c6c6c6;
    0xc6c6c6c67c00000000006c6c;
    0x00c6c6c6c6c6ce7606c67c00;
    0x6c6c007cc6c6c6c6c6c6c6c6;
    0x7c0000006c6c00c6c6c6c6c6;
    0xc6c6c6c67c00000000000030;
    0x3078ccc0c0cc783030000000;
    0x0000386c606060f8606060e6;
    0xfc0000000000cccccc7830fc;
    0x30fc3030300000000000f8cc;
    0xccf8c4ccdeccccccc6000000;
    0x00000e1b1818187e18181818;
    0x18d87000000c1830007c0606;
    0x7ec6c6c67e000000000c1830;
    0x00381818181818183c000000;
    0x000c1830007cc6c6c6c6c6c6;
    0x7c000000000c183000c6c6c6;
    0xc6c6c6c67c0000000076dc00;
    0x00dce6c6c6c6c6c6c6000000;
    0x76dc00c6c6e6f6fedecec6c6;
    0xc60000000078d8d86c00fc00;
    0x000000000000000000386c6c;
    0x38007c000000000000000000;
    0x000018180018183060c0c6c6;
    0x7c0000000000000000000000;
    0xfec0c0c00000000000000000;
    0x00000000fe06060600000000;
    0x0000c0c2c6ccd83060dc860c;
    0x183e00000000c0c2c6ccd830;
    0x66ce9e3e0606000000003030;
    0x003030307878787830000000;
    0x0000000000366cd86c360000;
    0x000000000000000000d86c36;
    0x6cd800000000000022882288;
    0x228822882288228822882288;
    0x55aa55aa55aa55aa55aa55aa;
    0x55aa55aadd77dd77dd77dd77;
    0xdd77dd77dd77dd7718181818;
    0x181818181818181818181818;
    0x18181818181818f8f8181818;
    0x181818181818181818f8f818;
    0x18f8f8181818181836363636;
    0x363636f6f636363636363636;
    0x00000000000000fefe363636;
    0x363636360000000000f8f818;
    0x18f8f8181818181836363636;
    0x36f6f60606f6f63636363636;
    0x363636363636363636363636;
    0x363636360000000000fefe06;
    0x06f6f6363636363636363636;
    0x36f6f60606fefe0000000000;
    0x36363636363636fefe000000;
    0x000000001818181818f8f818;
    0x18f8f8000000000000000000;
    0x000000f8f818181818181818;
    0x181818181818181f1f000000;
    0x0000000018181818181818ff;
    0xff0000000000000000000000;
    0x000000ffff18181818181818;
    0x181818181818181f1f181818;
    0x1818181800000000000000ff;
    0xff0000000000000018181818;
    0x181818ffff18181818181818;
    0x18181818181f1f18181f1f18;
    0x181818183636363636363637;
    0x373636363636363636363636;
    0x36373730303f3f0000000000;
    0x00000000003f3f3030373736;
    0x363636363636363636f7f700;
    0x00ffff000000000000000000;
    0x00ffff0000f7f73636363636;
    0x363636363637373030373736;
    0x363636360000000000ffff00;
    0x00ffff000000000036363636;
    0x36f7f70000f7f73636363636;
    0x1818181818ffff0000ffff00;
    0x0000000036363636363636ff;
    0xff0000000000000000000000;
    0x00ffff0000ffff1818181818;
    0x00000000000000ffff363636;
    0x36363636363636363636363f;
    0x3f0000000000000018181818;
    0x181f1f18181f1f0000000000;
    0x00000000001f1f18181f1f18;
    0x18181818000000000000003f;
    0x3f3636363636363636363636;
    0x363636ffff36363636363636;
    0x1818181818ffff1818ffff18;
    0x1818181818181818181818f8;
    0xf80000000000000000000000;
    0x0000001f1f18181818181818;
    0xffffffffffffffffffffffff;
    0xffffffff0000000000000000;
    0xfffffffffffffffff0f0f0f0;
    0xf0f0f0f0f0f0f0f0f0f0f0f0;
    0x0f0f0f0f0f0f0f0f0f0f0f0f;
    0x0f0f0f0fffffffffffffffff;
    0x000000000000000000000000;
    0x0076d6dcc8c8dcd676000000;
    0x000078ccccccd8cccccccccc;
    0xd8c0c0000000fec6c6c0c0c0;
    0xc0c0c0c0c000000000000000;
    0x007efe2424242466c6000000;
    0x0000fefec26030183060c2fe;
    0xfe00000000000000007ec8cc;
    0xcccccccc7800000000000000;
    0x00666666666666766c60c000;
    0x000000000066fc9818181818;
    0x180000000000fc303078cccc;
    0xcc783030fc0000000000386c;
    0xc6c6c6fec6c6c66c38000000;
    0x0000386cc6c6c6c6c66c6c6c;
    0xee000000000078cc603078cc;
    0xcccccccc7800000000000000;
    0x0076bb9999dd6e0000000000;
    0x000002063c6cced6d6e66c78;
    0xc080000000001e3060c0c0fe;
    0xc0c060301e0000000000386c;
    0xc6c6c6c6c6c6c6c6c6000000;
    0x00000000fe0000fe0000fe00;
    0x0000000000000000003030fc;
    0x30300000fc00000000000000;
    0x6030180c18306000fc000000;
    0x00000000183060c060301800;
    0xfc00000000001c3636303030;
    0x303030303030303018181818;
    0x181818181818d8d870000000;
    0x00000000303000fc00303000;
    0x00000000000000000076dc00;
    0x76dc0000000000000078cccc;
    0xcc7800000000000000000000;
    0x000000000000003030000000;
    0x000000000000000000000030;
    0x0000000000000000000f0c0c;
    0x0c0c0c0c0ccc6c3c1c0c0000;
    0x00d8eccccccccccc00000000;
    0x0000000000386c0c1830607c;
    0x000000000000000000000000;
    0x787878787878780000000000;
    0x000000000000000000000000
  ].

(** The bytes of a row of [n], the first one in the high bits. *)
Definition row_bytes (n : nat) (row : Z) : list Z :=
  map (fun i => Z.land (Z.shiftr row (8 * Z.of_nat (n - 1 - i))) 0xff) (seq 0 n).

Definition builtin_font : list Z := flat_map (row_bytes 12) font_rows ++ row_bytes 4 0x00000000.

Lemma builtin_font_length : length builtin_font = 4096%nat.
Proof. by vm_compute. Qed.

Lemma builtin_font_bytes : Forall (fun v => 0 <= v < 256) builtin_font.
Proof. apply (bool_decide_eq_true_1 _). by vm_compute. Qed.

(** The initialisation of the framebuffer backend (flanterm_fb_init, as Limine builds it,
    without the bump allocator) and its end (flanterm_fb_deinit): the buffers
    allocated and freed, the colours, the expansion of the font, the size of the
    grid, and the first state of the terminal. *)

(** The buffers of a terminal. *)
Inductive buffer := BContext | BFontBits | BFontBool | BGrid | BQueue | BMap | BCanvas.

#[export] Instance buffer_eq_dec : EqDecision buffer.
Proof. solve_decision. Defined.

(** The arguments of [flanterm_fb_init]; a pointer that may be NULL is an option. *)
Record fb_args := {
  a_framebuffer : pixels; a_width : Z; a_height : Z; a_pitch : Z;
  a_red_mask_size : Z; a_red_mask_shift : Z; a_green_mask_size : Z; a_green_mask_shift : Z;
  a_blue_mask_size : Z; a_blue_mask_shift : Z;
  a_canvas : option (list Z); a_ansi_colours : option (list Z); a_ansi_bright_colours : option (list Z);
  a_default_bg : option Z; a_default_fg : option Z; a_default_bg_bright : option Z; a_default_fg_bright : option Z;
  a_font : option (list Z); a_font_width : Z; a_font_height : Z; a_font_spacing : Z;
  a_font_scale_x : Z; a_font_scale_y : Z; a_margin : Z; a_rotation : Z
}.

(** NULL, with the buffers given back; or the terminal, with the buffers it holds. *)
Inductive init_result :=
  | InitFail (freed : list buffer)
  | InitOk (t : term) (b : fb pixels) (held : list buffer).

(** ** The pieces *)

(** The scale of the font, chosen from the size of the display when none is given. *)
Definition choose_scale (w h sx sy : Z) : Z * Z :=
  if (sx =? 0) || (sy =? 0) then
    if (3840 + 3840 / 3 <=? w) && (2160 + 2160 / 3 <=? h) then (4, 4)
    else if (1920 + 1920 / 3 <=? w) && (1080 + 1080 / 3 <=? h) then (2, 2)
    else (1, 1)
  else (sx, sy).

Definition FLANTERM_FB_FONT_GLYPHS := 256.

(** One line of a glyph: the 8 dots of its byte, and the columns after them. *)
Definition expand_line (fh fw : Z) (i y g : Z) (l : list bool) : outcome (list bool) :=
  l ← for_up 8 0 (fun x l =>
        store l (i * fh * fw + y * fw + x) (negb (Z.land g (Z.shiftr 0x80 x) =? 0))) l;
  for_up (Z.to_nat (fw - 8)) 8 (fun x l =>
    store l (i * fh * fw + y * fw + x)
      (if (0xc0 <=? i) && (i <=? 0xdf) then negb (Z.land g 1 =? 0) else false)) l.

(** The font as an array of dots. *)
Definition expand_font (fh fw : Z) (bits : list Z) : outcome (list bool) :=
  for_up (Z.to_nat FLANTERM_FB_FONT_GLYPHS) 0 (fun i =>
    for_up (Z.to_nat fh) 0 (fun y l =>
      g ← load bits (i * fh + y); expand_line fh fw i y g l))
    (replicate (Z.to_nat (FLANTERM_FB_FONT_GLYPHS * fh * fw)) false).

(** Converts an array of colours. *)
Fixpoint convert_colours (k : fb_config) (l : list Z) : outcome (list Z) :=
  match l with
  | [] => Ret []
  | c :: l => c ← convert_colour k c; l ← convert_colours k l; Ret (c :: l)
  end.

Definition builtin_colours : list Z :=
  [0x00000000; 0x00aa0000; 0x0000aa00; 0x00aa5500; 0x000000aa; 0x00aa00aa; 0x0000aaaa; 0x00aaaaaa].
Definition builtin_bright_colours : list Z :=
  [0x00555555; 0x00ff5555; 0x0055ff55; 0x00ffff55; 0x005555ff; 0x00ff55ff; 0x0055ffff; 0x00ffffff].

(** The first 8 colours of the argument, or the built-in ones. *)
Definition choose_colours (k : fb_config) (given : option (list Z)) (builtin : list Z) : outcome (list Z) :=
  match given with
  | Some l => if (length l <? 8)%nat then Undef else convert_colours k (take 8 l)
  | None => convert_colours k builtin
  end.

Definition choose_colour (k : fb_config) (given : option Z) (builtin : outcome Z) : outcome Z :=
  match given with Some c => convert_colour k c | None => builtin end.

(** A context of zeros. *)
Definition zero_term : term :=
  let f := false in
  Term 0 f f f f f f f f f 0 (replicate 256 0) f f f f f f f f 0 0 0 [0; 0] 0 0 0 0 0 0 0 0 0 (replicate 16 0) 0 f
       f f f f f 0 [0; 0] 0 0 0 0 0.

(** The masks, and nothing else yet. *)
Definition mask_config (a : fb_args) : fb_config := {|
  font_width := 0; font_height := 0; glyph_width := 0; glyph_height := 0;
  font_scale_x := 0; font_scale_y := 0; offset_x := 0; offset_y := 0;
  pitch := 0; width := 0; height := 0; phys_height := 0; rotation := 0;
  red_mask_size := a_red_mask_size a; red_mask_shift := u8 (a_red_mask_shift a + (a_red_mask_size a - 8));
  green_mask_size := a_green_mask_size a; green_mask_shift := u8 (a_green_mask_shift a + (a_green_mask_size a - 8));
  blue_mask_size := a_blue_mask_size a; blue_mask_shift := u8 (a_blue_mask_shift a + (a_blue_mask_size a - 8));
  font_bool := []; ansi_colours := []; ansi_bright_colours := [];
  default_fg := 0; default_bg := 0; default_fg_bright := 0; default_bg_bright := 0; canvas := None
|}.

(** The cells, the queue and the map of a new terminal of [r] rows and [c] columns. *)
Definition first_state (k : fb_config) (r c : Z) (frame : pixels) : fb pixels :=
  let n := Z.to_nat (r * c) in
  Fb k (replicate n (Char (ch " ") (default_fg k) TRANSPARENT)) (replicate n (QItem 0 0 (Char 0 0 0))) 0
     (replicate n None) (default_fg k) TRANSPARENT 0 0 0 0 0 0 0 0 frame [].

Definition first_term (r c : Z) : term := flanterm_context_reinit (set_cols c (set_rows r zero_term)).

(** The width and the height of the display, as the text runs. *)
Definition display_size (a : fb_args) : Z * Z :=
  if (a_rotation a =? FLANTERM_FB_ROTATE_90) || (a_rotation a =? FLANTERM_FB_ROTATE_270)
  then (a_height a, a_width a) else (a_width a, a_height a).

Definition scale_of (a : fb_args) : Z * Z :=
  choose_scale (display_size a).1 (display_size a).2 (a_font_scale_x a) (a_font_scale_y a).

(** The font, the width of its cells and its height. *)
Definition font_of (a : fb_args) : list Z * Z * Z :=
  match a_font a with
  | Some l => (l, a_font_width a + a_font_spacing a, a_font_height a)
  | None => (builtin_font, 9, 16)
  end.

(** ** flanterm_fb_init *)

Section init.
(** The allocations that succeed. *)
Context (malloc : buffer -> bool).

(** The label [fail]: frees the buffers held. *)
Definition init_fail (held : list buffer) : init_result :=
  InitFail (filter (.∈ held) [BCanvas; BMap; BQueue; BGrid; BFontBool; BFontBits; BContext]).

Definition flanterm_fb_init (a : fb_args) : outcome init_result :=
  let '(w, h) := display_size a in
  let '(sx, sy) := scale_of a in
  if (a_red_mask_size a <? 8) || negb (a_red_mask_size a =? a_green_mask_size a)
     || negb (a_red_mask_size a =? a_blue_mask_size a) then Ret (InitFail []) else
  if negb (malloc BContext) then Ret (InitFail []) else
  let k := mask_config a in
  ansi ← choose_colours k (a_ansi_colours a) builtin_colours;
  bright ← choose_colours k (a_ansi_bright_colours a) builtin_bright_colours;
  bg ← choose_colour k (a_default_bg a) (Ret 0);
  fg ← choose_colour k (a_default_fg a) (convert_colour k 0x00aaaaaa);
  bgb ← choose_colour k (a_default_bg_bright a) (convert_colour k 0x00555555);
  fgb ← choose_colour k (a_default_fg_bright a) (convert_colour k 0x00ffffff);
  let '(font, fw, fh) := font_of a in
  if negb (malloc BFontBits) then Ret (init_fail [BContext]) else
  (* the copy of the font *)
  bits ← (if Z.of_nat (length font) <? fh * FLANTERM_FB_FONT_GLYPHS then Undef
          else Ret (take (Z.to_nat (fh * FLANTERM_FB_FONT_GLYPHS)) font));
  if negb (malloc BFontBool) then Ret (init_fail [BContext; BFontBits]) else
  dots ← expand_font fh fw bits;
  let gw := fw * sx in
  let gh := fh * sy in
  let inner_w := u64 (w - a_margin a * 2) in
  let inner_h := u64 (h - a_margin a * 2) in
  if (gw =? 0) || (gh =? 0) then Undef else
  let c := inner_w / gw in
  let r := inner_h / gh in
  if negb (malloc BGrid) then Ret (init_fail [BContext; BFontBits; BFontBool]) else
  if negb (malloc BQueue) then Ret (init_fail [BContext; BFontBits; BFontBool; BGrid]) else
  if negb (malloc BMap) then Ret (init_fail [BContext; BFontBits; BFontBool; BGrid; BQueue]) else
  let held := [BContext; BFontBits; BFontBool; BGrid; BQueue; BMap] in
  let with_canvas cv held :=
    let k := {|
      font_width := fw; font_height := fh; glyph_width := gw; glyph_height := gh;
      font_scale_x := sx; font_scale_y := sy;
      offset_x := a_margin a + inner_w `mod` gw / 2; offset_y := a_margin a + inner_h `mod` gh / 2;
      pitch := a_pitch a; width := w; height := h; phys_height := a_height a; rotation := a_rotation a;
      red_mask_size := red_mask_size k; red_mask_shift := red_mask_shift k;
      green_mask_size := green_mask_size k; green_mask_shift := green_mask_shift k;
      blue_mask_size := blue_mask_size k; blue_mask_shift := blue_mask_shift k;
      font_bool := dots; ansi_colours := ansi; ansi_bright_colours := bright;
      default_fg := fg; default_bg := bg; default_fg_bright := fgb; default_bg_bright := bgb; canvas := cv |} in
    let t := first_term r c in
    b ← flanterm_fb_full_refresh t (first_state k r c (a_framebuffer a));
    Ret (InitOk t b held) in
  match a_canvas a with
  | None => with_canvas None held
  | Some l =>
      if negb (malloc BCanvas) then Ret (init_fail held)
      else if Z.of_nat (length l) <? w * h then Undef
      else l ← convert_colours k (take (Z.to_nat (w * h)) l); with_canvas (Some l) (held ++ [BCanvas])
  end.
End init.

(** The buffers [flanterm_fb_deinit] frees, with a function to free them. *)
Definition flanterm_fb_deinit (b : fb pixels) : list buffer :=
  [BFontBits; BFontBool; BGrid; BQueue; BMap] ++
  (match canvas (cfg b) with Some _ => [BCanvas] | None => [] end) ++ [BContext].

Definition flanterm_deinit (b : fb pixels) : list buffer := flanterm_fb_deinit b.
