(* ===== verification/FbTerminal.v ===== *)
(** * The terminal as a whole

    The first state of a terminal, and that it shows whatever is written to it. *)

From Stdlib Require Import Ascii.
From S2P Require Import Prelude Bytes TermTables Term TermRefine TermSafe Fb FbScreen FbQueue FbRefine FbPlot.
From S2P Require Import FbPixels FbInit.

(** The initialisation of the framebuffer backend gives a well-formed terminal that
    shows a blank screen, from a font expanded dot by dot; what is allocated is
    what is freed. *)

(** ** The font *)

(** The dot [x] of a line of the glyph [i]. *)
Definition font_dot (i g x : Z) : bool :=
  if x <? 8 then Z.testbit g (7 - x) else ((0xc0 <=? i) && (i <=? 0xdf)) && Z.testbit g 0.

Lemma land_bit g x : 0 <= x < 8 -> negb (Z.land g (Z.shiftr 0x80 x) =? 0) = Z.testbit g (7 - x).
Proof.
  intros Hx. assert (E : Z.shiftr 0x80 x = 2 ^ (7 - x)).
  { rewrite Z.shiftr_div_pow2 by lia. change 0x80 with (2 ^ 7). by rewrite <- Z.pow_sub_r by lia. }
  rewrite E. destruct (Z.testbit g (7 - x)) eqn:Hb.
  - apply negb_true_iff, Z.eqb_neq. intros H0. apply (f_equal (fun z => Z.testbit z (7 - x))) in H0.
    rewrite Z.land_spec, Hb, Z.pow2_bits_true, Z.bits_0 in H0 by lia. done.
  - apply negb_false_iff, Z.eqb_eq, Z.bits_inj'. intros j Hj. rewrite Z.land_spec, Z.bits_0.
    destruct (Z.eq_dec j (7 - x)) as [->|]; [by rewrite Hb|].
    by rewrite Z.pow2_bits_false, andb_false_r by lia.
Qed.

Lemma land_1_bit g : negb (Z.land g 1 =? 0) = Z.testbit g 0.
Proof. change 1 with (Z.shiftr 0x80 7). rewrite land_bit by lia. done. Qed.

Section font.
Context (fh fw : Z) (bits : list Z).
Hypothesis (Hfh : 0 < fh) (Hfw : 8 <= fw) (Hbits : Z.of_nat (length bits) = 256 * fh).

(** The lines before [r] are expanded, and the first [m] dots of the line [r]. *)
Definition expanded (r m : Z) (l : list bool) : Prop :=
  Z.of_nat (length l) = 256 * fh * fw /\
  forall r' x g, 0 <= x < fw -> 0 <= r' < r \/ r' = r /\ x < m -> bits !! Z.to_nat r' = Some g ->
  l !! Z.to_nat (r' * fw + x) = Some (font_dot (r' / fh) g x).

Lemma expanded_dot r m l g v : expanded r m l -> 0 <= r < 256 * fh -> 0 <= m < fw -> bits !! Z.to_nat r = Some g ->
  v = font_dot (r / fh) g m ->
  exists l', store l (r * fw + m) v = Ret l' /\ expanded r (m + 1) l'.
Proof using All.
  intros [Hl Hd] Hr Hm Hg ->. pose proof (cell_index (256 * fh) fw m r Hm Hr) as Hidx.
  eexists. split; [apply store_lt; lia|]. split; [by rewrite length_insert|].
  intros r' x g' Hx Hr' Hg'. destruct (decide (r' = r /\ x = m)) as [[-> ->]|Hne].
  - rewrite list_lookup_insert_eq by lia. by simplify_eq.
  - rewrite list_lookup_insert_ne; [apply Hd; [done|lia|done]|]. intros Heq. apply Hne.
    destruct (cell_index_inj fw m r x r') as [-> ->]; lia || nia || done.
Qed.

Lemma expanded_next r l : expanded r fw l -> expanded (r + 1) 0 l.
Proof using All. intros [Hl Hd]. split; [done|]. intros r' x g Hx Hr'. apply Hd; [done|lia]. Qed.

Lemma expand_line_spec i y g l : 0 <= i < 256 -> 0 <= y < fh -> bits !! Z.to_nat (i * fh + y) = Some g ->
  expanded (i * fh + y) 0 l -> exists l', expand_line fh fw i y g l = Ret l' /\ expanded (i * fh + y + 1) 0 l'.
Proof using All.
  intros Hi Hy Hg Hl. assert (Hr : 0 <= i * fh + y < 256 * fh) by nia.
  assert (Hi' : (i * fh + y) / fh = i) by (rewrite Z.div_add_l, Z.div_small; lia).
  assert (Hoff : forall x, i * fh * fw + y * fw + x = (i * fh + y) * fw + x) by lia.
  unfold expand_line.
  destruct (for_up_inv (fun x l => expanded (i * fh + y) x l) 8 0
    (fun x l => store l (i * fh * fw + y * fw + x) (negb (Z.land g (Z.shiftr 0x80 x) =? 0))) l Hl) as (l1 & E1 & Hl1).
  { intros x a Hx Ha. rewrite Hoff. eapply expanded_dot; [done|lia|lia|done|]. unfold font_dot.
    rewrite land_bit by lia. split_ltb x 8; [done|lia]. }
  rewrite E1. cbn [mbind outcome_bind].
  destruct (for_up_inv (fun x l => expanded (i * fh + y) x l) (Z.to_nat (fw - 8)) 8
    (fun x l => store l (i * fh * fw + y * fw + x)
       (if (0xc0 <=? i) && (i <=? 0xdf) then negb (Z.land g 1 =? 0) else false)) l1 Hl1) as (l2 & E2 & Hl2).
  { intros x a Hx Ha. rewrite Hoff. eapply expanded_dot; [done|lia|lia|done|]. unfold font_dot.
    rewrite Hi', land_1_bit. split_ltb x 8; [lia|]. by destruct (_ && _). }
  exists l2. split; [done|]. apply expanded_next. by replace (8 + Z.of_nat (Z.to_nat (fw - 8))) with fw in Hl2 by lia.
Qed.

Lemma expand_font_spec : exists l, expand_font fh fw bits = Ret l /\ expanded (256 * fh) 0 l.
Proof using All.
  unfold expand_font, FLANTERM_FB_FONT_GLYPHS.
  destruct (for_up_inv (fun i l => expanded (i * fh) 0 l) (Z.to_nat 256) 0
    (fun i => for_up (Z.to_nat fh) 0 (fun y l => g ← load bits (i * fh + y); expand_line fh fw i y g l))
    (replicate (Z.to_nat (256 * fh * fw)) false)) as (l & E & Hl).
  { split; [rewrite length_replicate; nia|]. intros r' x g Hx Hr'. lia. }
  { intros i a Hi Ha.
    destruct (for_up_inv (fun y l => expanded (i * fh + y) 0 l) (Z.to_nat fh) 0
      (fun y l => g ← load bits (i * fh + y); expand_line fh fw i y g l) a) as (a' & Ea & Ha').
    { by rewrite Z.add_0_r. }
    { intros y l Hy Hl. destruct (lookup_lt_is_Some_2 bits (Z.to_nat (i * fh + y))) as [g Hg]; [nia|].
      rewrite (load_lookup _ _ g); [|nia|done]. cbn [mbind outcome_bind].
      destruct (expand_line_spec i y g l) as (l' & E & Hl'); [lia|lia|done|done|].
      exists l'. split; [done|]. by rewrite Z.add_assoc. }
    exists a'. split; [done|]. by replace (i * fh + (0 + Z.of_nat (Z.to_nat fh))) with ((i + 1) * fh) in Ha' by lia. }
  exists l. split; [done|]. done.
Qed.
End font.

(** ** Colours *)

Lemma convert_colours_total k l : masks_ok k -> exists l', convert_colours k l = Ret l' /\ length l' = length l.
Proof.
  intros Hk. induction l as [|c l (l' & E & Hl)]; [by exists []|]. cbn [convert_colours].
  destruct (convert_colour_total k c Hk) as [v ->]. rewrite E. cbn [mbind outcome_bind].
  exists (v :: l'). cbn. by rewrite Hl.
Qed.

Lemma choose_colours_total k given builtin : masks_ok k -> length builtin = 8%nat ->
  (forall l, given = Some l -> (8 <= length l)%nat) ->
  exists l, choose_colours k given builtin = Ret l /\ length l = 8%nat.
Proof.
  intros Hk Hb Hg. unfold choose_colours. destruct given as [l|].
  - specialize (Hg l eq_refl). destruct (Nat.ltb_spec (length l) 8); [lia|].
    destruct (convert_colours_total k (take 8 l) Hk) as (l' & E & Hl). exists l'. split; [done|].
    rewrite Hl, length_take. lia.
  - destruct (convert_colours_total k builtin Hk) as (l' & E & Hl). exists l'. by rewrite Hl.
Qed.

Lemma choose_colour_total k given builtin : masks_ok k -> (exists v, builtin = Ret v) ->
  exists v, choose_colour k given builtin = Ret v.
Proof. intros Hk Hb. destruct given; [by apply convert_colour_total|done]. Qed.

(** ** The full refresh *)

Section refresh.
Context {F : Type} `{PlotterLaws F}.
Context (t : term) (Hg : geometry t).
Implicit Types b : fb F.

(** The cells before [i] show the grid. *)
Lemma draw_grid_spec n i b : coherent (rows t) (cols t) b -> 0 <= i -> i + Z.of_nat n = rows t * cols t ->
  displayed_but (fun x y => i <= y * cols t + x) (rows t) (cols t) b ->
  exists f, draw_grid n t i b = Ret (with_frame f b) /\
  displayed_but (fun _ _ => False) (rows t) (cols t) (with_frame f b).
Proof.
  revert i b. induction n as [|n IH]; intros i b Hco Hi Hn [Hp Hd]; cbn [draw_grid].
  { exists (frame b). split; [by destruct b|]. split; [done|]. intros x y g Hx Hy _ Hgr. apply Hd; [done..| |done].
    pose proof (cell_index _ _ _ _ Hx Hy). lia. }
  destruct (co_dims _ _ _ Hco) as [Hr Hc].
  destruct (lookup_lt_is_Some_2 (grid b) (Z.to_nat i)) as [g Hgi]; [rewrite (co_grid_len _ _ _ Hco); lia|].
  rewrite (get_lookup _ _ _ Hgi). cbn [mbind outcome_bind].
  assert (Hx : 0 <= i `mod` cols t < cols t) by (apply Z.mod_pos_bound; lia).
  assert (Hy : 0 <= i / cols t < rows t) by (split; [apply Z.div_pos|apply Z.div_lt_upper_bound]; lia).
  pose proof (Z.div_mod i (cols t) ltac:(lia)) as Hdm.
  destruct (plot_char_law t (cfg b) (frame b) (i `mod` cols t) (i / cols t) g Hp Hx Hy
    (Forall_lookup_1 _ _ _ _ (co_grid _ _ _ Hco) Hgi)) as (f & E & Hpf & Hsh & Hother).
  unfold draw. rewrite E. cbn [mbind outcome_bind].
  destruct (IH (i + 1) (with_frame f b)) as (f' & E' & Hd'); [by apply (coherent_same _ _ b)|lia|lia| |by exists f'].
  split; [done|]. cbn. intros x y g' Hx' Hy' Hno Hgr'.
  destruct (decide ((x, y) = (i `mod` cols t, i / cols t))) as [[= -> ->]|Hne].
  - replace (i / cols t * cols t + i `mod` cols t) with i in Hgr' by lia. by simplify_eq.
  - apply Hother; [done..|]. apply Hd; [done..| |done]. intros Hle. apply Hne.
    destruct (cell_index_inj (cols t) x y (i `mod` cols t) (i / cols t)) as [-> ->]; [lia..|done].
Qed.

(** The cursor drawn on a screen that is on display. *)
Lemma draw_cursor_clean b : coherent (rows t) (cols t) b -> (forall i m, qmap b !! i = Some m -> m = None) ->
  0 <= cursor_x b -> 0 <= cursor_y b -> displayed_but (fun _ _ => False) (rows t) (cols t) b ->
  exists f, (if cursor_enabled t then draw_cursor t b else Ret b) = Ret (with_frame f b) /\
  p_inv (rows t) (cols t) (cfg b) f /\
  forall x y ch, 0 <= x < cols t -> 0 <= y < rows t -> grid b !! Z.to_nat (y * cols t + x) = Some ch ->
    shows (cfg b) f x y (if cursor_enabled t && (x =? cursor_x b) && (y =? cursor_y b) then inverted ch else ch).
Proof.
  intros Hco Hnone Hcx Hcy Hd. pose proof Hd as [Hp Hsh].
  assert (Hid : Ret b = Ret (with_frame (frame b) b)) by (by destruct b).
  destruct (cursor_enabled t) eqn:Hen.
  2: { exists (frame b). split_and!; [done..|]. intros x y ch Hx Hy Hch. by apply Hsh; auto. }
  cbn [andb]. unfold draw_cursor. split_leb (cols t) (cursor_x b); [|split_leb (rows t) (cursor_y b)]; cbn [orb].
  1,2: exists (frame b); split_and!; [done..|]; intros x y ch Hx Hy Hch;
    split_eqb x (cursor_x b); split_eqb y (cursor_y b); cbn [andb]; try lia; by apply Hsh; auto.
  pose proof (cell_index (rows t) (cols t) (cursor_x b) (cursor_y b) ltac:(lia) ltac:(lia)) as Hidx.
  destruct (lookup_lt_is_Some_2 (qmap b) (Z.to_nat (cursor_x b + cursor_y b * cols t))) as [m Hm];
    [rewrite (co_qmap_len _ _ _ Hco); lia|]. rewrite (Hnone _ _ Hm) in Hm.
  destruct (lookup_lt_is_Some_2 (grid b) (Z.to_nat (cursor_x b + cursor_y b * cols t))) as [g Hgr];
    [rewrite (co_grid_len _ _ _ Hco); lia|].
  unfold current_char. rewrite (get_lookup _ _ _ Hm). cbn [mbind outcome_bind]. rewrite (get_lookup _ _ _ Hgr).
  cbn [mbind outcome_bind].
  destruct (draw_spec t b (cursor_x b) (cursor_y b) (inverted g) _ Hd) as (f & Edr & Hpf & Hsf & Hother);
    [lia..|exact (Forall_lookup_1 _ _ _ _ (co_grid _ _ _ Hco) Hgr)|].
  unfold inverted in Edr. rewrite Edr. cbn [mbind outcome_bind]. exists f. split_and!; [done..|].
  intros x y ch Hx Hy Hch. split_eqb x (cursor_x b); [split_eqb y (cursor_y b)|]; cbn [andb].
  - subst x y. rewrite (Z.add_comm (cursor_x b)) in Hgr. by simplify_eq.
  - apply Hother; [done..|congruence|]. by apply Hsh; auto.
  - apply Hother; [done..|congruence|]. by apply Hsh; auto.
Qed.

(** A full refresh with nothing in the queue draws the whole screen. *)
Lemma full_refresh_spec b : coherent (rows t) (cols t) b -> queue_i b = 0 ->
  0 <= cursor_x b -> 0 <= cursor_y b -> old_cursor_x b = cursor_x b -> old_cursor_y b = cursor_y b ->
  p_inv (rows t) (cols t) (cfg b) (frame b) ->
  exists f, flanterm_fb_full_refresh t b = Ret (with_frame f b) /\
  displayed (rows t) (cols t) (with_frame f b) /\ on_display t (with_frame f b).
Proof.
  intros Hco Hq Hcx Hcy Eox Eoy Hp. unfold flanterm_fb_full_refresh.
  destruct (paint_background_law _ _ _ _ Hp) as (f & -> & Hpf). cbn [mbind outcome_bind].
  destruct (co_dims _ _ _ Hco) as [Hr Hc].
  destruct (draw_grid_spec (Z.to_nat (rows t * cols t)) 0 (with_frame f b)) as (f1 & E1 & Hd1);
    [by apply (coherent_same _ _ b)|lia|lia| |].
  { split; [done|]. cbn. intros x y g Hx Hy Hno. pose proof (cell_index _ _ _ _ Hx Hy). lia. }
  rewrite E1. cbn [mbind outcome_bind].
  assert (Hnone : forall i m, qmap b !! i = Some m -> m = None).
  { intros i [j|] Hij; [|done]. apply (co_map _ _ _ Hco) in Hij. unfold pending in Hij. rewrite Hq in Hij. done. }
  assert (Hgrid : view b = grid b).
  { apply list_eq. intros i. rewrite view_lookup. destruct (grid b !! i); [|done]. cbn. f_equal. unfold view_cell.
    destruct (qmap b !! i) eqn:Hi; [|done]. by rewrite (Hnone _ _ Hi). }
  destruct (draw_cursor_clean (with_frame f1 (with_frame f b))) as (f2 & E2 & Hp2 & Hs2); [by apply (coherent_same _ _ b)|done..|].
  exists f2. split; [exact E2|]. cbn in Hs2, Hp2. split.
  - split; [done|]. cbn. intros x y g Hx Hy Hno Hgr. specialize (Hs2 x y g Hx Hy Hgr).
    destruct (_ && _) eqn:Hb; [|done]. exfalso. apply Hno. rewrite Eox, Eoy.
    apply andb_true_iff in Hb as [[_ ?%Z.eqb_eq]%andb_true_iff ?%Z.eqb_eq]. done.
  - intros x y ch Hx Hy Hch. change (view (with_frame f2 b)) with (view b) in Hch. rewrite Hgrid in Hch. by apply Hs2.
Qed.
End refresh.

(** ** The arguments *)

(** A component of the colours: at least 8 bits, inside a pixel. *)
Definition component_ok (size shift : Z) : Prop := 8 <= size <= 16 /\ 0 <= shift /\ (shift + size <= 32 /\ (8 < size -> shift + size < 32)).

Record args_ok (a : fb_args) : Prop := {
  ao_masks : a_green_mask_size a = a_red_mask_size a /\ a_blue_mask_size a = a_red_mask_size a /\
    component_ok (a_red_mask_size a) (a_red_mask_shift a) /\ component_ok (a_green_mask_size a) (a_green_mask_shift a) /\
    component_ok (a_blue_mask_size a) (a_blue_mask_shift a);
  ao_scale : 0 <= a_font_scale_x a /\ 0 <= a_font_scale_y a;
  ao_font : let '(font, fw, fh) := font_of a in 8 <= fw /\ 0 < fh <= 256 /\ fh * 256 <= Z.of_nat (length font);
  ao_size : let '(w, h) := display_size a in let '(sx, sy) := scale_of a in let '(_, fw, fh) := font_of a in
    w < 0x80000000 /\ h < 0x80000000 /\ 0 <= a_margin a /\ fw * sx + a_margin a * 2 <= w /\ fh * sy + a_margin a * 2 <= h;
  ao_pitch : 0 <= a_pitch a / 4 < 0x80000000;
  ao_frame : let '(w, h) := display_size a in let p := a_pitch a / 4 in
    if (a_rotation a =? FLANTERM_FB_ROTATE_90) || (a_rotation a =? FLANTERM_FB_ROTATE_270)
    then h <= p /\ w * p <= Z.of_nat (length (a_framebuffer a))
    else w <= p /\ h * p <= Z.of_nat (length (a_framebuffer a));
  ao_colours : forall l, a_ansi_colours a = Some l \/ a_ansi_bright_colours a = Some l -> (8 <= length l)%nat;
  ao_canvas : forall l, a_canvas a = Some l -> let '(w, h) := display_size a in w * h <= Z.of_nat (length l)
}.

Lemma choose_scale_pos w h sx sy : 0 <= sx -> 0 <= sy -> 0 < (choose_scale w h sx sy).1 /\ 0 < (choose_scale w h sx sy).2.
Proof.
  intros Hx Hy. unfold choose_scale. split_eqb sx 0; [|split_eqb sy 0]; cbn [orb]; repeat case_match; cbn; lia.
Qed.

Lemma mask_ok_of size shift : component_ok size shift -> mask_ok size (u8 (shift + (size - 8))).
Proof. intros (Hs & H0 & H32 & Hw). unfold mask_ok, u8. rewrite Z.mod_small by lia. lia. Qed.

Lemma mask_config_ok a : args_ok a -> masks_ok (mask_config a).
Proof.
  intros Ha. destruct (ao_masks _ Ha) as (_ & _ & Hr & Hg & Hb). split; cbn; by apply mask_ok_of.
Qed.

(** The cells of a display [w] wide, with a margin. *)
Lemma cells_fit w m g : 0 <= m -> 0 < g -> w < 0x80000000 -> g + m * 2 <= w ->
  let inner := u64 (w - m * 2) in
  0 < inner / g < 0x80000000 /\ 0 <= inner `mod` g / 2 /\ m + inner `mod` g / 2 + inner / g * g <= w.
Proof.
  intros Hm Hg Hw Hfit inner. subst inner. rewrite u64_small by lia. set (i := w - m * 2).
  pose proof (Z.div_mod i g ltac:(lia)) as Hdm. pose proof (Z.mod_pos_bound i g Hg) as Hmod.
  pose proof (Z.div_pos (i `mod` g) 2 ltac:(lia) ltac:(lia)).
  pose proof (Z.mul_div_le (i `mod` g) 2 ltac:(lia)).
  split_and!; [apply Z.div_str_pos; lia|apply Z.div_lt_upper_bound; nia|lia|lia].
Qed.

(** ** The first state *)

Lemma first_state_coherent k r c f : 0 < r -> 0 < c -> coherent r c (first_state k r c f).
Proof.
  intros Hr Hc. split; cbn; rewrite ?length_replicate; try done; try lia.
  - intros i j. split; [|done]. intros [? _]%lookup_replicate. done.
  - by apply Forall_replicate.
  - by apply Forall_replicate.
Qed.

Lemma first_view k r c f : view (first_state k r c f) = replicate (Z.to_nat (r * c)) (Char (ch " ") (default_fg k) TRANSPARENT).
Proof.
  apply list_eq. intros i. rewrite view_lookup. cbn. destruct (replicate _ (Char _ _ _) !! i) as [g|]; [|done].
  cbn. f_equal. unfold view_cell. cbn. destruct (replicate _ None !! i) as [m|] eqn:Hi; [|done].
  by apply lookup_replicate in Hi as [-> _].
Qed.

Lemma first_term_ok r c : 0 < r < 0x80000000 -> 0 < c < 0x80000000 -> term_ok_with true (first_term r c).
Proof.
  intros Hr Hc. split; [split; cbn; lia|..]; cbn; try done; try lia; split_and!; try done; try lia; auto with term.
  all: repeat (apply Forall_cons_2; [lia|]); by apply Forall_nil_2.
Qed.

(** A new terminal shows a blank screen. *)
(** A screen of spaces in the default colours, the cursor in the corner. *)
Definition blank (k : fb_config) (r c : Z) : screen :=
  Screen k (replicate (Z.to_nat (r * c)) (Char (ch " ") (default_fg k) TRANSPARENT)) (default_fg k) TRANSPARENT 0 0 0 0 0 0 [].

Lemma first_refresh k r c f : 0 < r < 0x80000000 -> 0 < c < 0x80000000 -> config_ok k -> pixels_ok r c k f ->
  exists b, flanterm_fb_full_refresh (first_term r c) (first_state k r c f) = Ret b /\
  fb_ok r c b /\ on_display (first_term r c) b /\ cfg b = k /\ abs b = blank k r c.
Proof.
  intros Hr Hc Hk Hf. pose proof (first_state_coherent k r c f ltac:(lia) ltac:(lia)) as Hco.
  destruct (full_refresh_spec (first_term r c) (first_state k r c f)) as (f' & E & Hd & Hon); try done.
  exists (with_frame f' (first_state k r c f)). split; [exact E|].
  split; [|split; [exact Hon|]; split; [done|]].
  2: { unfold abs, blank. rewrite <- (first_view k r c f). done. }
  split; [by apply (coherent_same _ _ (first_state k r c f))|exact Hd|done|cbn; lia..].
Qed.

(** The dots of [k] are those of the font of the arguments. *)
Definition glyphs_of (a : fb_args) (k : fb_config) : Prop :=
  let '(font, fw, fh) := font_of a in font_width k = fw /\ font_height k = fh /\
  forall i y x g, 0 <= i < 256 -> 0 <= y < fh -> 0 <= x < fw -> font !! Z.to_nat (i * fh + y) = Some g ->
  font_bool k !! Z.to_nat ((i * fh + y) * fw + x) = Some (font_dot i g x).

(** ** The initialisation *)

(** With every buffer allocated, from arguments that fit. *)
Lemma flanterm_fb_init_ok a malloc : args_ok a -> (forall x, malloc x = true) ->
  exists t b held, flanterm_fb_init malloc a = Ret (InitOk t b held) /\ term_ok_with true t /\ fb_ok (rows t) (cols t) b /\
  on_display t b /\ abs b = blank (cfg b) (rows t) (cols t) /\ glyphs_of a (cfg b) /\
  held ≡ₚ flanterm_fb_deinit b.
Proof.
  intros Ha Hm. pose proof (mask_config_ok a Ha) as Hmk.
  destruct (ao_masks _ Ha) as (Eg & Eb & (Hs8 & _) & _). destruct (ao_scale _ Ha) as [Hsx0 Hsy0].
  pose proof (ao_font _ Ha) as Hfont. pose proof (ao_size _ Ha) as Hsize. pose proof (ao_frame _ Ha) as Hframe. pose proof (ao_pitch _ Ha) as Hpitch.
  pose proof (ao_canvas _ Ha) as Hcanvas.
  destruct (choose_colours_total _ (a_ansi_colours a) builtin_colours Hmk) as (ansi & Eansi & Hansi); [done|by intros; apply (ao_colours _ Ha); auto|].
  destruct (choose_colours_total _ (a_ansi_bright_colours a) builtin_bright_colours Hmk) as (bright & Ebright & Hbright); [done|by intros; apply (ao_colours _ Ha); auto|].
  destruct (choose_colour_total _ (a_default_bg a) (Ret 0) Hmk) as [bg Ebg]; [eauto|].
  destruct (choose_colour_total _ (a_default_fg a) (convert_colour (mask_config a) 0x00aaaaaa) Hmk) as [fg Efg]; [by apply convert_colour_total|].
  destruct (choose_colour_total _ (a_default_bg_bright a) (convert_colour (mask_config a) 0x00555555) Hmk) as [bgb Ebgb]; [by apply convert_colour_total|].
  destruct (choose_colour_total _ (a_default_fg_bright a) (convert_colour (mask_config a) 0x00ffffff) Hmk) as [fgb Efgb]; [by apply convert_colour_total|].
  unfold flanterm_fb_init, glyphs_of.
  pose proof (choose_scale_pos (display_size a).1 (display_size a).2 _ _ Hsx0 Hsy0) as Hscale. fold (scale_of a) in Hscale.
  destruct (display_size a) as [w h]. destruct (scale_of a) as [sx sy]. destruct (font_of a) as [[font fw] fh]. cbn [fst snd] in *.
  destruct Hfont as (Hfw & Hfh & Hlen). destruct Hsize as (Hw & Hh & Hmar & Hfw' & Hfh').
  rewrite Eg, Eb, !Z.eqb_refl, !Hm. split_ltb (a_red_mask_size a) 8; [lia|]. cbn [negb orb].
  rewrite Eansi, Ebright, Ebg, Efg, Ebgb, Efgb. cbn [mbind outcome_bind].
  unfold FLANTERM_FB_FONT_GLYPHS. split_ltb (Z.of_nat (length font)) (fh * 256); [lia|]. cbn [mbind outcome_bind].
  destruct (expand_font_spec fh fw (take (Z.to_nat (fh * 256)) font)) as (dots & Edots & Hdots & Hdot); [lia|lia|rewrite length_take; lia|].
  rewrite Edots. cbn [mbind outcome_bind].
  assert (Hglyphs : forall i y x g, 0 <= i < 256 -> 0 <= y < fh -> 0 <= x < fw -> font !! Z.to_nat (i * fh + y) = Some g ->
    dots !! Z.to_nat ((i * fh + y) * fw + x) = Some (font_dot i g x)).
  { intros i y x g Hi Hy Hx Hg. rewrite (Hdot (i * fh + y) x g); [|lia|left; nia|rewrite lookup_take_lt; [done|nia]].
    by rewrite Z.div_add_l, Z.div_small, Z.add_0_r by lia. }
  clear Hdot.
  split_eqb (fw * sx) 0; [nia|]. split_eqb (fh * sy) 0; [nia|]. cbn [orb]. cbv zeta.
  pose proof (cells_fit w (a_margin a) (fw * sx) Hmar ltac:(nia) Hw Hfw') as (Hc & Hox & Hcx).
  pose proof (cells_fit h (a_margin a) (fh * sy) Hmar ltac:(nia) Hh Hfh') as (Hr & Hoy & Hcy).
  set (c := u64 (w - a_margin a * 2) / (fw * sx)) in *. set (r := u64 (h - a_margin a * 2) / (fh * sy)) in *.
  clearbody c r.
  assert (Hend : forall cv k, config_ok k -> pixels_ok r c k (a_framebuffer a) -> canvas k = cv ->
    font_width k = fw /\ font_height k = fh /\ font_bool k = dots ->
    forall held, held ≡ₚ [BContext; BFontBits; BFontBool; BGrid; BQueue; BMap] ++ (match cv with Some _ => [BCanvas] | None => [] end) ->
    exists t b held', (b ← flanterm_fb_full_refresh (first_term r c) (first_state k r c (a_framebuffer a));
                 Ret (InitOk (first_term r c) b held)) = Ret (InitOk t b held') /\ term_ok_with true t /\ fb_ok (rows t) (cols t) b /\
    on_display t b /\ abs b = blank (cfg b) (rows t) (cols t) /\
    (font_width (cfg b) = fw /\ font_height (cfg b) = fh /\
     forall i y x g, 0 <= i < 256 -> 0 <= y < fh -> 0 <= x < fw -> font !! Z.to_nat (i * fh + y) = Some g ->
     font_bool (cfg b) !! Z.to_nat ((i * fh + y) * fw + x) = Some (font_dot i g x)) /\
    held' ≡ₚ flanterm_fb_deinit b).
  { intros cv k Hk Hp Hcv (Ew & Eh & Ef) held Hheld. destruct (first_refresh k r c _ Hr Hc Hk Hp) as (b & Er & Hok & Hon & Ek & Hv).
    rewrite Er. exists (first_term r c), b, held. rewrite Ek, Ef.
    split_and!; [done|by apply first_term_ok|done..|].
    unfold flanterm_fb_deinit. rewrite Ek, Hcv, Hheld. destruct cv; apply (bool_decide_eq_true_1 _); by vm_compute. }
  destruct (a_canvas a) as [l|].
  - specialize (Hcanvas l eq_refl). split_ltb (Z.of_nat (length l)) (w * h); [lia|].
    destruct (convert_colours_total (mask_config a) (take (Z.to_nat (w * h)) l) Hmk) as (cv & Ecv & Hcv).
    rewrite Ecv. cbn [mbind outcome_bind]. apply (Hend (Some cv)); [|split; cbn|done|done|done].
    { split; [done|]. by destruct Hmk. }
    7: { intros l' [= <-]. rewrite Hcv, length_take. nia. }
    all: first [done | exact Hframe | lia].
  - apply (Hend None); [|split; cbn|done|done|done].
    { split; [done|]. by destruct Hmk. }
    all: first [done | exact Hframe | lia].
Qed.

(** The whole terminal: the parser on the framebuffer backend shows, pixel by pixel, the
    screen of the specification, from the initialisation through any sequence of
    bytes; and the behaviours of the parser on particular sequences. *)

Section terminal.
Context {F : Type} `{PlotterLaws F}.
Implicit Types (t : term) (b : fb F).

Lemma write_refines keep t b buf : term_ok_with keep t -> fb_ok (rows t) (cols t) b -> Forall (fun c => 0 <= c < 256) buf ->
  exists t' b', flanterm_write buf t b = Ret ((), (t', b')) /\
  flanterm_write buf t (abs b) = Ret ((), (t', abs b')) /\
  term_ok_with keep t' /\ fb_ok (rows t') (cols t') b' /\ cfg b' = cfg b /\ (autoflush t' = true -> on_display t' b').
Proof.
  intros Ht Hb Hbuf.
  pose proof (ref_flanterm_putchars (H1 := fb_refines (cfg b)) buf t Ht Hbuf) as Href.
  destruct (Href b (abs b) (conj Hb (conj eq_refl eq_refl))) as ([] & t' & b1 & s1 & E1 & E2 & (Hb1 & -> & Hk) & Ht').
  unfold flanterm_write, gets, when, mbind, M_bind, mret, M_ret. rewrite E1, E2. cbn.
  destruct (autoflush t') eqn:Ha; [|exists t', b1; split_and!; done || congruence].
  destruct (flush_abs t' b1 (ok_geo _ Ht') Hb1) as (b2 & E & Hb2 & Eabs & Hon).
  exists t', b2. unfold double_buffer_flush, call. cbn. rewrite E, Eabs. split_and!; try done.
  change (cfg b2) with (s_cfg (abs b2)). by rewrite <- Eabs.
Qed.
End terminal.

(** C7: Whatever bytes are written, the terminal on the framebuffer backend returns, keeps its
    parser and its backend well formed, and does to the screen what the same parser does on
    the plain screen of the specification; when it flushes by itself every cell of the
    framebuffer shows the character of the screen, the one under the cursor inverted. *)
Theorem terminal_refines_screen {F} `{PlotterLaws F} t (b : fb F) buf :
  term_ok t -> fb_ok (rows t) (cols t) b -> Forall (fun c => 0 <= c < 256) buf ->
  exists t' b', flanterm_write buf t b = Ret ((), (t', b')) /\
  flanterm_write buf t (abs b) = Ret ((), (t', abs b')) /\
  term_ok t' /\ fb_ok (rows t') (cols t') b' /\ cfg b' = cfg b /\ (autoflush t' = true -> on_display t' b').
Proof. apply write_refines. Qed.

(** C12: From a framebuffer, a font and colours that fit, with the buffers allocated, the
    terminal starts with a blank screen that is on the display, with the dots of the font,
    and holds exactly the buffers its end frees; and whatever bytes are written to it, the
    write returns and every cell of the display shows, pixel by pixel, what the same bytes
    write on a blank screen. *)
Theorem terminal_shows_output malloc a buf :
  args_ok a -> (forall x, malloc x = true) -> Forall (fun c => 0 <= c < 256) buf ->
  exists t b held t' b', flanterm_fb_init malloc a = Ret (InitOk t b held) /\
  on_display t b /\ abs b = blank (cfg b) (rows t) (cols t) /\ glyphs_of a (cfg b) /\ held ≡ₚ flanterm_deinit b /\
  flanterm_write buf t b = Ret ((), (t', b')) /\
  flanterm_write buf t (blank (cfg b) (rows t) (cols t)) = Ret ((), (t', abs b')) /\
  cfg b' = cfg b /\ on_display t' b'.
Proof.
  intros Ha Hm Hbuf. destruct (flanterm_fb_init_ok a malloc Ha Hm) as (t & b & held & E & Ht & Hb & Hon & Habs & Hgl & Hheld).
  destruct (write_refines true t b buf Ht Hb Hbuf) as (t' & b' & E1 & E2 & Ht' & _ & Hk & Hon').
  exists t, b, held, t', b'. rewrite <- Habs. split_and!; try done. by apply Hon', (ok_flush _ Ht').
Qed.

(** ** A display of two lines of two characters *)

Definition small_args : fb_args := {|
  a_framebuffer := replicate 32 0; a_width := 16; a_height := 2; a_pitch := 64;
  a_red_mask_size := 8; a_red_mask_shift := 16; a_green_mask_size := 8; a_green_mask_shift := 8;
  a_blue_mask_size := 8; a_blue_mask_shift := 0;
  a_canvas := None; a_ansi_colours := None; a_ansi_bright_colours := None;
  a_default_bg := None; a_default_fg := None; a_default_bg_bright := None; a_default_fg_bright := None;
  a_font := Some (seqZ 0 256); a_font_width := 8; a_font_height := 1; a_font_spacing := 0;
  a_font_scale_x := 1; a_font_scale_y := 1; a_margin := 0; a_rotation := 0
|}.

Lemma small_args_ok : args_ok small_args.
Proof.
  split.
  - unfold component_ok. cbn. lia.
  - cbn. lia.
  - split_and!; apply (bool_decide_eq_true_1 _); by vm_compute.
  - split_and!; apply (bool_decide_eq_true_1 _); by vm_compute.
  - split_and!; apply (bool_decide_eq_true_1 _); by vm_compute.
  - split_and!; apply (bool_decide_eq_true_1 _); by vm_compute.
  - by intros l [?|?].
  - done.
Qed.

(** [A], a red [B], and a line feed. *)
Definition small_output : list Z := [0x41; 0x1b; 0x5b; 0x33; 0x31; 0x6d; 0x42; 0x0a].

Lemma small_output_ok : Forall (fun c => 0 <= c < 256) small_output.
Proof. repeat constructor; lia. Qed.

Lemma terminal_refines_screen_witness : exists t b t' b',
  flanterm_write small_output t b = Ret ((), (t', b')) /\ flanterm_write small_output t (abs b) = Ret ((), (t', abs b')).
Proof.
  destruct (flanterm_fb_init_ok small_args (fun _ => true) small_args_ok (fun _ => eq_refl)) as (t & b & _ & _ & Ht & Hb & _).
  destruct (terminal_refines_screen t b small_output (ok_weaken _ _ Ht) Hb small_output_ok) as (t' & b' & E1 & E2 & _).
  exists t, b, t', b'. by split.
Defined.

Lemma terminal_shows_output_witness : exists t b held t' b',
  flanterm_fb_init (fun _ => true) small_args = Ret (InitOk t b held) /\ flanterm_write small_output t b = Ret ((), (t', b')).
Proof.
  destruct (terminal_shows_output (fun _ => true) small_args small_output small_args_ok (fun _ => eq_refl) small_output_ok)
    as (t & b & held & t' & b' & E & _ & _ & _ & _ & E' & _).
  exists t, b, held, t', b'. exact (conj E E').
Defined.

(** ** Particular sequences *)

(** The screen of the small display after some bytes. *)
Definition small_start : outcome (term * fb pixels) :=
  r ← flanterm_fb_init (fun _ => true) small_args;
  match r with InitOk t b _ => Ret (t, b) | InitFail _ => Undef end.
Definition run_small (m : M (fb pixels) ()) : outcome (term * fb pixels) :=
  '(t, b) ← small_start; r ← m t b; Ret r.2.

(** [A] written at the cursor, the cursor back on it, a full refresh, [B] written over it: the
    next flush draws [A] again and [B] is lost, on the framebuffer and in the grid. *)
Lemma refresh_loses_character :
  ('(_, b) ← run_small (flanterm_putchars [0x41; 0x0d] ;; flanterm_full_refresh ;; flanterm_write [0x42]);
   Ret (char_c <$> view b)) = Ret [0x41; 0x20; 0x20; 0x20] /\
  ('(_, b) ← run_small (flanterm_putchars [0x41; 0x0d] ;; flanterm_write [0x42]);
   Ret (char_c <$> view b)) = Ret [0x42; 0x20; 0x20; 0x20].
Proof. by vm_compute. Qed.

(** CAN ends a private sequence, and the next sequence is still taken as private: the colour
    does not change. *)
Lemma cancelled_stays_private :
  ('(_, b) ← run_small (flanterm_putchars [0x1b; 0x5b; 0x3f; 0x18; 0x1b; 0x5b; 0x33; 0x31; 0x6d]); Ret (text_fg b)) = Ret 0xaaaaaa /\
  ('(_, b) ← run_small (flanterm_putchars [0x1b; 0x5b; 0x18; 0x1b; 0x5b; 0x33; 0x31; 0x6d]); Ret (text_fg b)) = Ret 0xaa0000.
Proof. by vm_compute. Qed.

(** ESC inside a private sequence does not start a sequence: the bytes after it are printed. *)
Lemma escape_ends_private :
  ('(_, b) ← run_small (flanterm_putchars [0x1b; 0x5b; 0x3f; 0x1b; 0x5b; 0x43]); Ret (char_c <$> view b)) = Ret [0x5b; 0x43; 0x20; 0x20].
Proof. by vm_compute. Qed.

(** A character of several bytes in a command of the operating system is printed. *)
Lemma osc_prints_utf8 :
  ('(_, b) ← run_small (flanterm_putchars [0x1b; 0x5d; 0x30; 0x3b; 0xc3; 0xa9; 0x07]); Ret (char_c <$> view b)) = Ret [0x82; 0x20; 0x20; 0x20].
Proof. by vm_compute. Qed.

(** A parameter just above 32 bits wraps. *)
Lemma parameter_wraps :
  ('(t, _) ← run_small (flanterm_putchars [0x1b; 0x5b; 0x34; 0x32; 0x39; 0x34; 0x39; 0x36; 0x37; 0x32; 0x39; 0x39]);
   Ret (esc_values t !! 0%nat)) = Ret (Some 3).
Proof. by vm_compute. Qed.

(** A colour of 10 bits spreads above its component. *)
Lemma wide_colour_spreads :
  convert_colour (mask_config {|
    a_framebuffer := []; a_width := 16; a_height := 2; a_pitch := 64;
    a_red_mask_size := 10; a_red_mask_shift := 20; a_green_mask_size := 10; a_green_mask_shift := 10;
    a_blue_mask_size := 10; a_blue_mask_shift := 0; a_canvas := None; a_ansi_colours := None; a_ansi_bright_colours := None;
    a_default_bg := None; a_default_fg := None; a_default_bg_bright := None; a_default_fg_bright := None;
    a_font := None; a_font_width := 8; a_font_height := 1; a_font_spacing := 0;
    a_font_scale_x := 1; a_font_scale_y := 1; a_margin := 0; a_rotation := 0 |}) 0x0000ff = Ret 0xffc.
Proof. by vm_compute. Qed.
